(* ===== verification/_CoqProject ===== *)
-Q . S2P
Prelude.v
Triple.v
TreeWalk.v
Prog.v
Str.v
Utf8.v
Redact.v
ToolSchema.v
Action.v
McpClient.v
McpLive.v
PathScope.v
WebSecurity.v
Policy.v
Effect.v
RiskGate.v
Events.v
EventStore.v
Budget.v
SqliteStore.v
BudgetStore.v
EffectFence.v
Effects.v
FenceRuns.v
Completion.v
Projection.v
AgentRuntime.v
RuntimeLog.v
RuntimeForks.v
Intents.v
WriteSet.v
Concurrency.v
Scheduler.v
WorkflowGraph.v
Workflow.v
WorkflowRuntime.v
WorkspaceFiles.v
MemoryStore.v
HookPrefilter.v
OutputReducer.v
Artifacts.v
ContextBuilder.v
ReadOnlyTools.v
ProcessExecution.v
WebTools.v
Provider.v
ProviderStreams.v
ToolOrchestrator.v
ApprovedTools.v
Observations.v
AgentLoop.v
ExtensionId.v
Ownership.v
Worktrees.v
ExtensionLifecycle.v
OfflineBatch.v
Uploads.v
ModelRouter.v
Wire.v
Schema.v
Ipc.v
Connection.v
Harness.v
SessionModels.v
Turns.v
PtyRing.v
PtyStore.v
Pty.v
MemoryRuntime.v
DataRequests.v
