(* ===== verification/Prelude.v ===== *)
(** * Impetus runtime: verification library (root file)

    Impetus runs coding agents under a trusted kernel: an agent proposes an
    effect, the kernel decides whether it may run, may be offered to the user
    for approval, or is refused, and writes what happened to a durable session
    log.  This library models that kernel and the bookkeeping around it, as
    written in [src/crates/impetus-protocol/src] and
    [src/crates/impetus-core/src], with the daemon's client connections
    ([src/crates/impetusd/src/main.rs]).

    ** The parts and how they interact

    An [Action] (what is proposed, by whom, against which target) becomes a
    [NormalizedEffect]; the [EffectSeam] passes it through the sandbox scope,
    the policy engine, the execution mode and the risk gate and either admits,
    defers or denies it.  A deferred effect carries an approval request bound to
    the fingerprint of the action; accepting it resumes the effect.  Running an
    admitted effect goes through the write-ahead fence, which appends its
    transitions to the session log, an [EventStore], before and after the
    capability is called.  The web client checks every request and redirect
    against the egress policy.  Workflows decompose work into steps that child
    agents run, under a concurrency gate and leases on declared write sets.
    The [AgentRuntime] of a session records intents, runs, output, approvals
    and budgets in the same log and reads them back as a projection; the
    completion gate decides from the rows of a run whether it may count as done.
    In a run the agent loop asks a model provider, hands the tool calls of the
    answer to the tool orchestrator, folds the prompt when it grows too long, and
    writes text, tool observations and budget to the log.  The orchestrator checks
    a call against the schema of its tool, passes its effect through the seam and
    runs it (reading, searching, a process, an MCP server, the web), or records it
    as deferred; the answer to an approval runs what was deferred.
    Clients speak to the daemon over a socket in bounded JSON lines: a connection
    is greeted, its requests are checked against the protocol and the capabilities
    it negotiated, and the harness dispatches them; a prompt becomes a turn, which
    launches a run of the agent loop as a task of its own, and what a session logs
    is pushed to the connections subscribed to it.
    Around the kernel stand the files it manages: the workspace, batches whose
    results are delivered into it, installed extensions with the ownership of
    their files, and git worktrees bound to sessions.

    ** Files

    - [Prelude] (this file): [result] (Rust's [Result]), [stateR] (methods on
      [&mut self] that can fail, the state kept on errors), machine integers
      with saturating and wrapping addition, tactics, generic list lemmas.
    - [Triple]: Hoare triples of [stateR] methods and the tactic [solve_keeps].
    - [Prog]: programs over an environment, as trees of events; their paths, what
      a path promises ([promises]) and counts ([counting]), handlers, schedules and
      the logs of runs ([prun_logged]).
      [TreeWalk]: walks of a tree by a stack.
    - [Str]: Rust strings as UTF-8 bytes; trimming, splitting, [chars], case
      folding, decimal printing.  [Utf8]: validity of UTF-8, [str::lines].
    - [Action] ([impetus-protocol/types.rs]): execution modes, actions,
      fingerprints, policy documents, approval requests and resolutions.
    - [PathScope] ([policy.rs], [SandboxScope]; [std::path]): path components
      and normalisation, the containment checks for reads and writes.
    - [WebSecurity] ([web_research/security.rs], [web_research/http.rs]):
      address classes, [EgressPolicy], the redirect loop with pinned addresses.
    - [Policy] ([policy.rs], [extension_policy.rs],
      [impetus-extension-sdk/permissions.rs]): [PolicyEngine] with its shared
      override cell (a heap of cells; an engine holds a location), snapshots,
      replay, extension permissions.
    - [Effect], [RiskGate], [Effects] ([effects.rs], [risk_gate.rs]): normalized
      effects, the deterministic risk gate, the seam.  [RiskGate] is a class
      with laws; theorems about the seam are proved for every lawful gate and
      the deterministic gate discharges the laws.
    - [Events] ([impetus-protocol/events.rs]): event payloads, preview bounds,
      decoding of old rows.
    - [EventStore], [SqliteStore] ([storage.rs]): the contract
      [EventStoreLaws] and its two implementations, the in-memory store and the
      SQLite store, with forks, checkpoints and deletion.
    - [EffectFence] ([effect_fence.rs]): digests, the fold of the log into fence
      records, the ledger, written against the [EventStore] class.
    - [FenceRuns] ([effects.rs], [run_under_fence]): the step relation of fenced
      runs with stops and restarts.
    - [Budget] ([budget.rs]), [BudgetStore] ([runtime.rs], [storage.rs]): limits,
      checks and accounting; the budget columns of a session row.
    - [Completion] ([obligation_ledger.rs], [completion_gate.rs], [gap_loop.rs]):
      open obligations, the evidence of a run, the gate, the bounded gap loop.
    - [Projection] ([projection.rs]), [AgentRuntime], [RuntimeLog],
      [RuntimeForks] ([runtime.rs]): the fold of a session's log; the operations
      of the runtime over any event store, what they keep of the log, forks.
    - [Intents] ([user_intent.rs]): the intent router, its queues, the fan-out.
    - [WorkspaceFiles] ([workspace_files.rs]): resolving, listing, reading and
      searching; the class [WorkFiles] of file operations, and a small concrete
      file system for the examples.
    - [Redact] ([tools.rs], [redact_text]): secret filtering.  [MemoryStore]
      ([memory_store.rs]): contextual memory, its exports and imports.
      [MemoryRuntime] ([memory_runtime.rs], the memory requests of
      [harness_api.rs]): the memories of sessions and their files.
    - [ToolSchema] ([tool_schema.rs]), [HookPrefilter] ([hook_prefilter.rs]),
      [OutputReducer] ([output_reducer.rs]), [Artifacts]
      ([durable_artifacts.rs]): argument schemas, rules on spawns, budgets of
      output, content-addressed artifacts.
    - [ReadOnlyTools] ([tools.rs]), [ProcessExecution] ([execution/process.rs]),
      [McpClient] ([mcp_adapter.rs]), [McpLive] ([mcp_live.rs],
      [module_fallback.rs]), [WebTools] ([web_research/tool_adapter.rs]): the
      tools, each over the class of the system it acts on.
    - [ToolOrchestrator], [ApprovedTools] ([tool_orchestrator.rs], and the
      [ResolveApproval] request of [harness_api.rs]): a call of the model as a
      program over the seam, the log and the tools; what an approval runs.
    - [Provider] ([provider.rs], [provider_trait.rs], [provider_registry.rs] and
      the request bodies), [ProviderStreams] (the stream consumers of
      [provider.rs], [openai_provider.rs], [openai_responses.rs],
      [anthropic_provider.rs], [provider_protocol_adapter.rs]): profiles,
      catalogs; streams as programs over the network.
    - [ContextBuilder] ([context_builder.rs]), [Observations]
      ([observation_pack.rs], [compaction.rs], durable compaction of
      [runtime.rs]): artifacts in windows, evidence anchors, folding a prompt.
    - [AgentLoop] ([agent_loop.rs], [steer_rewrite.rs]): the loop of turns as a
      program over provider, tools and runtime, and its handler.
    - [OfflineBatch] ([offline_batch.rs]): batch records folded from the log,
      submission, polling, collection and delivery; the class [BatchProvider]
      with the mock and the file-system provider.
    - [ExtensionId] ([extension_id.rs]), [Ownership] ([ownership.rs]),
      [ExtensionLifecycle] ([extension_lifecycle.rs]): install paths, records of
      installed files with the step relation [own_step], installs and their
      states.
    - [Worktrees] ([worktree_manager.rs]): the table of bindings, its life cycle
      [table_step], merges and branches.
    - [Uploads] ([artifact_upload.rs], [attachments.rs]), [ModelRouter]
      ([model_router.rs]): chunked uploads, bounded attachments, the choice of a
      model.
    - [Wire], [Schema] ([impetus-protocol/types.rs], [schema.rs]), [Ipc]
      ([impetus-protocol/ipc.rs]): the records of the protocol, versioned
      envelopes; requests, responses, negotiation, checks and batches of events.
    - [Connection] ([impetusd/main.rs], [serve_client]): a client's connection as
      steps over any harness; the class [StreamLaws] says what it relies on.
    - [Harness], [SessionModels] ([session_model_store.rs]), [Turns]
      ([harness_api.rs]): the dispatch with the owners of approvals, which
      discharges [StreamLaws]; session models; prompts, cancellation, the launch
      and the end of runs.
    - [PtyRing], [Pty] ([execution/pty.rs], the terminal requests of
      [harness_api.rs]), [PtyStore] ([execution/storage.rs]): the bounded output of
      a terminal; terminals of sessions, their requests and their readers as steps;
      their durable rows, with the contract [PtyStoreLaws].
    - [DataRequests] ([harness_api.rs]): the requests over attachments, uploads,
      artifacts, execution modes, policy documents and the files of a workspace.
    - [WriteSet] ([declared_write_set.rs]), [Concurrency]
      ([child_concurrency.rs]), [Scheduler] ([agent_scheduler.rs],
      [subagent_metadata.rs]): write sets and leases, the concurrency gate,
      schedule records.
    - [WorkflowGraph], [Workflow] ([workflow_engine.rs]), [WorkflowRuntime]
      ([workflow_runtime.rs]): recipe validation, the step state machine, the
      two critical sections of a run and the advance loop.

    State is explicit: the fields of a Rust struct are the fields of a [Record]
    of the same name, a [&mut self] method is a function that returns the new
    state (also when it fails), a [HashMap] is a [gmap] and the order of its
    iteration is an argument that ranges over all permutations.  Random ids and
    the clock are arguments.  Where calls interleave (the orchestrator, the
    providers, the agent loop), an operation is a program whose events are the
    calls it makes; one call of a component is one step, taken without
    interruption, and anything may happen between two steps.

    ** What the theorems show

    - Admission: what an agent can do without a human is listed exactly; policy
      layers and overrides; a more permissive mode is never stricter; the risk
      gate, the egress policy and the write scope accept exactly what is listed.
    - Approvals: an approval runs one effect, that one only, and only while it is
      current; the exact conditions of the resumption.
    - Fence: an effect none of whose runs ended between its two write-ahead rows
      runs at most once across failures and restarts; a run is a path of the step
      relation; when a replay is allowed.
    - Session log: both stores refine the same per-session logs (create, append,
      fork, checkpoint, delete) and keep the contract the fence is proved
      against; paging, forks and checkpoints are exact; the database reads like
      the in-memory store of its rows.
    - Web: every request the client sends goes to a URL and an address the
      policy admits; the IPv4 classes agree with the published blocks.
    - Delegation: leases on path sets are disjoint, the caps hold and the
      counters agree, ended schedules are final.
    - Workflows: validation ends and accepts exactly the well-formed acyclic
      recipes; a run keeps its invariant, counts the failures reported to it, never
      gets stuck, and keeps what was completed; advancing a session whose children
      can be spawned ends within the attempts its recipe allows.
    - Runtime: runs do not overlap and end once; an approval is granted only while
      its request is pending and unchanged; output is kept once and in order;
      follow-ups are handed out in order and none is lost; budget limits hold
      across restarts; a run is complete exactly on the listed evidence.
    - Files: reads return a text exactly or say why not; the search ends on trees
      and never on a cycle of links; a delivery writes inside the workspace and
      over nothing that changed; installs change only files they can prove to
      own; install paths stay under their type directory.
    - Batches: the provider is called after the intent is in the log and at most
      once, and its answer is logged unless the store refuses that row; the
      outcomes of collection.
    - Tools: a call reaches an MCP server, the web or a file only after the seam
      allowed its effect; reads stay in the workspace and follow no links below
      their target; a process is spawned only
      past seam, prefilter and fence; builtin tools that change things never run
      by the call; an approval runs at most the call it was recorded for.
    - Agent loop: a run keeps to its phases in every environment, ends, stays
      within its turns and, with a provider that bounds the requests of a call,
      within as many requests, and its chunks are the text of the turn.
    - Providers: callbacks do not depend on how the network cuts a response into
      reads that fit the buffer, requests are repeated only before output, tool
      calls are assembled whole.
    - Context: artifacts and compactions keep within their budgets, compacted
      ranges tile the log, artifacts read back as stored, memory keeps what it was
      given, filtered text hides what it should.
    - Clients: nothing reaches the harness that was not negotiated and checked; a
      subscription is the log after its cursor; approvals are answered by their
      connection; uploads store their chunks and artifacts download by ranges; a
      memory of a session is lost in no restart.
    - Turns: runs of a session stay apart whatever requests interleave; a run
      completes exactly on a loop that ended well and the evidence of its rows; a
      cancellation reaches a loop of its own session only.
    - Terminals: whatever is asked and printed and however often the daemon
      restarts, live parts, states and durable rows agree; output leaves a ring in
      order and what falls over the edge is counted and batched; a terminal of
      another session is out of reach.
    - Worktrees: every operation is a path of the life cycle, the table stays
      well formed, and a merge touches the repository only after its checks.
    - Where the code departs from what it documents, a theorem or lemma states
      what it does: forks below a fork point, deletion of a fork's parent (in
      both stores), replay of policy snapshots, PLAN mode after an approval,
      write targets behind missing directories, private IPv6 literals, overlap of
      globs, rejected lease handoffs, children that cannot be spawned or that
      outlive their workflow, cycles of links in the search, dangling links,
      interrupted deliveries, repair and removal of disabled installs, approved
      commands beyond the first, tools that fail after an approval, secrets cut by
      a window, anchors lost to folding, truncated streams, repeated attempts,
      half-read requests, abandoned uploads, stranded runs, dropped follow-ups,
      runs resumed twice, last output of an ended terminal, ids given again after an
      unreadable row, effects prepared and never started, reads longer than an event
      may be, memory entries kept although their request failed.

    ** Fuel and bounds

    - The walk over a session's parents has fuel one more than the number of
      sessions, enough for every acyclic store ([ancestry_loop_total]); the
      store invariant excludes cycles.
    - The search for the nearest existing ancestor of a path has fuel the length
      of the path, enough because a parent is shorter.
    - The cycle check of a recipe has fuel the number of steps, and its result is
      an option, [None] when the fuel ends: every step is popped at most once, so
      validation always returns ([kahn_loop_spec], [validate_recipe_total]).
    - The redirect loop is bounded by the client's own limit.
    - The gap loop has fuel its largest number of rounds plus one.
    - The text search has fuel that [search_text_ends] bounds by the size of the
      tree; no fuel is enough on a cycle.  The copy of a salvaged worktree has
      fuel for the depth of the tree and fails beyond it.
    - The advance loop is given fuel by its caller; [total_attempts] of the recipe
      plus one is proved enough.
    - The tool search has the fuel of the text search.  Materializing an artifact
      has fuel above its length ([materialize_exact]).  Awaiting an MCP answer has
      fuel of its caller: without it the call is still waiting.  The agent loop
      recurses on its own limits, 50 turns of 3 attempts.
    - The search for the longest batch of events has fuel the number of events.
      A connection reads as much as has arrived: its lines are bounded.
    - Sequence numbers, counters and attempts saturate or wrap at their width as
      in the code; theorems state the bound where it matters.

    ** Parameters

    Code that is not in the repository is a class or an argument: [FileSystem]
    ([canonicalize], [exists]), [UrlCrate] (URL parsing and joining), [WebEnv]
    (DNS and HTTP transport), [Codec] (SHA-256, serde), [Json] (serde_json),
    [StoreJson] (the JSON text of stored payloads), [DisplayStoreError] (the
    text of a store error, which ends in SQLite's), [WorkFiles], [FileChanges],
    [TreeChanges] ([std::fs]), [GitCli] (the git command line), [UuidText],
    [BatchText], [StateJson], [PermissionsJson] (texts of ids and of stored
    values), [MemoryJson], [HookJson], [JsonText], [JsonTree], [WebJson],
    [PackJson], [ProviderJson] (serde_json at further types), [UrlQuery],
    [UrlPattern], [UrlPath] (edits and parts of a URL), [ArtifactFiles],
    [Processes], [McpStreams], [WebService], [CodingTools] (the systems the tools
    act on), [PolicyJson], [ResponseJson], [SelectionJson] (serde_json again),
    [IpcJson], [PtyJson] (more serde_json), [PtySystem] (terminals of the operating
    system), [Base64], [Regex], [DisplayLoopError], the RTK reducer, Unicode lower case.  Their laws
    ([FileSystemLaws], [CodecLaws], [StoreJsonLaws], [WorkFilesLaws] and so on)
    state documented behaviour;
    the witnesses instantiate them with concrete functions.  SQL statements are
    written as what they do to the rows of their table, with the constraints of
    the schema and the rollback of a failed transaction.

    ** Not modelled

    Child executors, the agent client protocol and the extension hosts, the
    planners of installs, instructions, the HTTP transport of the providers, the
    sandboxed command line of macOS, the sockets and the start of the daemon, the
    clients and the terminal interface:
    I/O and wiring around the decisions above.
    Poisoned locks and panics are not modelled. *)

From Stdlib Require Export Ascii.
From stdpp Require Export base list gmap strings pretty sorting.

Global Set Default Goal Selector "!".
Global Set Warnings "-clear-no-such-hyp,-level-tolerance".

(** ** Notations and scopes of the development *)

Declare Scope impetus_scope.
Delimit Scope impetus_scope with impetus.

(** ** [result]: the error type of the fallible operations

    Rust's [Result<A, E>], the error first so that [result E] is a monad. *)

Inductive result (E A : Type) : Type :=
  | Ok (a : A)
  | Err (e : E).
Arguments Ok {E A} _.
Arguments Err {E A} _.

#[export] Instance result_eq_decision `{EqDecision E, EqDecision A} :
  EqDecision (result E A).
Proof. solve_decision. Defined.

#[export] Instance result_ret {E} : MRet (result E) := @Ok E.
#[export] Instance result_bind {E} : MBind (result E) :=
  λ _ _ f r, match r with Ok a => f a | Err e => Err e end.
#[export] Instance result_fmap {E} : FMap (result E) :=
  λ _ _ f r, match r with Ok a => Ok (f a) | Err e => Err e end.

Definition is_ok {E A} (r : result E A) : bool :=
  match r with Ok _ => true | Err _ => false end.

Definition ok_or {E A} (o : option A) (e : E) : result E A :=
  match o with Some a => Ok a | None => Err e end.

Definition map_err {E F A} (f : E → F) (r : result E A) : result F A :=
  match r with Ok a => Ok a | Err e => Err (f e) end.

Lemma result_bind_ok {E A B} (f : A → result E B) (r : result E A) b :
  r ≫= f = Ok b ↔ ∃ a, r = Ok a ∧ f a = Ok b.
Proof.
  destruct r; cbn; split; intros H.
  - by eexists.
  - by destruct H as (? & [= ->] & ?).
  - done.
  - by destruct H as (? & ? & ?).
Qed.

(** ** Stateful fallible methods

    A Rust method with [&mut self] that returns [Result<A, E>] leaves the
    mutations made before an early [Err] in place.  [stateR] keeps the state on
    both outcomes; binding stops at the first error, as the [?] operator does. *)

Definition stateR (S E A : Type) : Type := S → S * result E A.

Module StateR.
Section ops.
Context {S E : Type}.

Definition ret {A} (a : A) : stateR S E A := λ s, (s, Ok a).
Definition fail {A} (e : E) : stateR S E A := λ s, (s, Err e).
Definition bind {A B} (m : stateR S E A) (f : A → stateR S E B) : stateR S E B :=
  λ s, match m s with
       | (s', Ok a) => f a s'
       | (s', Err e) => (s', Err e)
       end.
Definition get : stateR S E S := λ s, (s, Ok s).
Definition put (s' : S) : stateR S E () := λ _, (s', Ok tt).
Definition modify (f : S → S) : stateR S E () := λ s, (f s, Ok tt).
Definition lift {A} (r : result E A) : stateR S E A := λ s, (s, r).
Definition when (b : bool) (m : stateR S E ()) : stateR S E () :=
  if b then m else ret tt.
End ops.
End StateR.

Notation "x <-- m ;; k" := (StateR.bind m (λ x, k))
  (at level 60, m at next level, right associativity) : impetus_scope.
Notation "m ;;; k" := (StateR.bind m (λ _, k))
  (at level 60, right associativity) : impetus_scope.

(** ** Machine integers

    Unsigned integers are [N]; the width appears where the code adds. *)

Definition u8_max : N := 255.
Definition u32_max : N := 4294967295.
Definition u64_max : N := 18446744073709551615.

Definition saturating_add (max a b : N) : N := N.min (a + b) max.
Definition saturating_sub (a b : N) : N := a - b.
Definition wrapping_add (max a b : N) : N := (a + b) `mod` (max + 1).

Lemma saturating_add_le max a b : (saturating_add max a b ≤ max)%N.
Proof. unfold saturating_add. lia. Qed.

Lemma saturating_add_mono max a b : (a ≤ max → a ≤ saturating_add max a b)%N.
Proof. unfold saturating_add. lia. Qed.

Lemma wrapping_add_small max a b :
  (a + b ≤ max → wrapping_add max a b = a + b)%N.
Proof. intros. unfold wrapping_add. apply N.mod_small. lia. Qed.

(** ** Shared automation *)

Create HintDb impetus.

(** Split a [match]/[if] of the goal or of a hypothesis, then close the
    contradictory branches. *)
Ltac break_step :=
  match goal with
  | H : (_, _) = (_, _) |- _ => injection H as; subst
  | H : Ok _ = Ok _ |- _ => injection H as; subst
  | H : Err _ = Err _ |- _ => injection H as; subst
  | H : Some _ = Some _ |- _ => injection H as; subst
  | H : Ok _ = Err _ |- _ => discriminate H
  | H : Err _ = Ok _ |- _ => discriminate H
  | H : Some _ = None |- _ => discriminate H
  | H : None = Some _ |- _ => discriminate H
  | H : true = false |- _ => discriminate H
  | H : false = true |- _ => discriminate H
  end.
Ltac break := repeat (break_step || (case_match; simplify_eq/=)).

(** Turn the boolean tests of the code into propositions. *)
Ltac boolify :=
  repeat match goal with
  | H : _ && _ = true |- _ => apply andb_true_iff in H; destruct H
  | H : _ || _ = false |- _ => apply orb_false_iff in H; destruct H
  | H : negb _ = true |- _ => apply negb_true_iff in H
  | H : negb _ = false |- _ => apply negb_false_iff in H
  | H : bool_decide _ = true |- _ => apply bool_decide_eq_true in H
  | H : bool_decide _ = false |- _ => apply bool_decide_eq_false in H
  end.

(** ** Generic lemmas on lists *)

Lemma existsb_bool {A} (f : A → bool) l :
  existsb f l = true ↔ ∃ x, x ∈ l ∧ f x = true.
Proof.
  rewrite existsb_exists. by setoid_rewrite list_elem_of_In.
Qed.

Lemma forallb_bool {A} (f : A → bool) l :
  forallb f l = true ↔ ∀ x, x ∈ l → f x = true.
Proof.
  rewrite forallb_forall. by setoid_rewrite list_elem_of_In.
Qed.

Lemma existsb_false_iff {A} (f : A → bool) l :
  existsb f l = false ↔ ∀ x, x ∈ l → f x = false.
Proof.
  rewrite <-not_true_iff_false, existsb_bool. split.
  - intros Hn x Hx. destruct (f x) eqn:?; [|done]. exfalso. eauto.
  - intros Hall (x & Hx & Hf). rewrite Hall in Hf; done.
Qed.

Lemma find_some_elem {A} (f : A → bool) l x :
  List.find f l = Some x → x ∈ l ∧ f x = true.
Proof. intros [? ?]%List.find_some. by rewrite list_elem_of_In. Qed.

Lemma find_first {A} (f : A → bool) l x :
  List.find f l = Some x → ∃ pre post, l = pre ++ x :: post ∧ ∀ y, y ∈ pre → f y = false.
Proof.
  induction l as [|y l IH]; cbn; [done|]. destruct (f y) eqn:Hy.
  - intros [= ->]. exists [], l. split; [done|set_solver].
  - intros (pre & post & -> & Hpre)%IH. exists (y :: pre), post. split; [done|set_solver].
Qed.

Lemma forall_elem_cons {A} (P : A → Prop) x l :
  (∀ y, y ∈ x :: l → P y) ↔ P x ∧ ∀ y, y ∈ l → P y.
Proof. set_solver. Qed.

(** [Iterator::rposition]: the last index that satisfies the test. *)
Fixpoint rposition {A} (f : A → bool) (l : list A) : option nat :=
  match l with
  | [] => None
  | x :: l' =>
      match rposition f l' with
      | Some i => Some (S i)
      | None => if f x then Some 0 else None
      end
  end.

Lemma rposition_none {A} (f : A → bool) l :
  rposition f l = None ↔ ∀ x, x ∈ l → f x = false.
Proof.
  induction l as [|y l IH]; cbn; [set_solver|].
  rewrite forall_elem_cons, <-IH.
  destruct (rposition f l), (f y); naive_solver.
Qed.

Lemma rposition_some {A} (f : A → bool) l i :
  rposition f l = Some i ↔
    ∃ pre x post, l = pre ++ x :: post ∧ length pre = i ∧ f x = true ∧
                  ∀ y, y ∈ post → f y = false.
Proof.
  revert i. induction l as [|y l IH]; intros i; cbn.
  { split; [done|]. by intros ([] & ? & ? & ? & _). }
  pose proof (rposition_none f l) as Hnone.
  destruct (rposition f l) as [j|].
  - split.
    + intros [= <-]. destruct (proj1 (IH j) eq_refl) as (pre & x & post & -> & <- & ? & ?).
      by exists (y :: pre), x, post.
    + intros ([|z pre] & x & post & [= -> ->] & <- & Hx & Hpost); [by apply Hnone in Hpost|].
      cbn. do 2 f_equal. enough (Some j = Some (length pre)) by congruence. apply IH.
      by exists pre, x, post.
  - pose proof (proj1 Hnone eq_refl) as Hall. split.
    + destruct (f y) eqn:Hy; [|done]. intros [= <-]. by exists [], y, l.
    + intros ([|z pre] & x & post & [= -> ->] & <- & Hx & Hpost); [by rewrite Hx|].
      rewrite Hall in Hx; [done|set_solver].
Qed.
