(* ===== verification/Triple.v ===== *)
(** * Triples of stateful fallible methods

    [triple P m Q R]: from a state of [P], the method [m] returns a value and a
    state of [Q], or an error and a state of [R].  The rules follow the
    combinators of [stateR]; [triple_step] applies the one that fits. *)

From S2P Require Import Prelude.

Open Scope nat_scope.
Open Scope list_scope.
Open Scope impetus_scope.

(** A caller that looks at the outcome of a method instead of passing its error
    on with [?]. *)
Definition attempt {S E A B} (m : stateR S E A) (k : result E A → stateR S E B) : stateR S E B :=
  λ s, k (m s).2 (m s).1.

Section triple.
Context {S E : Type}.

Definition triple {A} (P : S → Prop) (m : stateR S E A) (Q : A → S → Prop) (R : S → Prop) : Prop :=
  ∀ s, P s → match m s with (s', Ok a) => Q a s' | (s', Err _) => R s' end.

Lemma triple_ok {A} (P : S → Prop) (m : stateR S E A) Q R s s' a :
  triple P m Q R → P s → m s = (s', Ok a) → Q a s'.
Proof. intros H HP Hm. specialize (H s HP). by rewrite Hm in H. Qed.

Lemma triple_either {A} (P : S → Prop) (m : stateR S E A) R s :
  triple P m (λ _, R) R → P s → R (m s).1.
Proof. intros H HP. specialize (H s HP). by destruct (m s) as [s' [a|e]]. Qed.

Lemma triple_conseq {A} (P P' : S → Prop) (m : stateR S E A) (Q Q' : A → S → Prop) (R R' : S → Prop) :
  triple P m Q R →
  (∀ s, P' s → P s) → (∀ a s, Q a s → Q' a s) → (∀ s, R s → R' s) →
  triple P' m Q' R'.
Proof.
  intros H HP HQ HR s Hs. specialize (H s (HP _ Hs)). destruct (m s) as [s' [a|e]]; eauto.
Qed.

Lemma triple_ret {A} (P : S → Prop) (a : A) (Q : A → S → Prop) (R : S → Prop) :
  (∀ s, P s → Q a s) → triple P (StateR.ret a) Q R.
Proof. intros H s. apply H. Qed.

Lemma triple_fail {A} (P : S → Prop) (e : E) (Q : A → S → Prop) (R : S → Prop) :
  (∀ s, P s → R s) → triple P (StateR.fail e) Q R.
Proof. intros H s. apply H. Qed.

Lemma triple_lift {A} (P : S → Prop) (r : result E A) (Q : A → S → Prop) (R : S → Prop) :
  (∀ a s, r = Ok a → P s → Q a s) → (∀ s, P s → R s) → triple P (StateR.lift r) Q R.
Proof. intros HQ HR s Hs. cbn. destruct r; eauto. Qed.

Lemma triple_get (P : S → Prop) (Q : S → S → Prop) (R : S → Prop) :
  (∀ s, P s → Q s s) → triple P StateR.get Q R.
Proof. intros H s. apply H. Qed.

Lemma triple_bind {A B} (P : S → Prop) (m : stateR S E A) (f : A → stateR S E B) M Q R :
  triple P m M R → (∀ a, triple (M a) (f a) Q R) → triple P (StateR.bind m f) Q R.
Proof.
  intros Hm Hf s Hs. specialize (Hm s Hs). unfold StateR.bind.
  destruct (m s) as [s' [a|e]]; [apply (Hf a s' Hm) | done].
Qed.

(** A method that leaves [P] alone whatever it returns. *)
Definition keeps {A} (P : S → Prop) (m : stateR S E A) : Prop := triple P m (λ _, P) P.

Lemma keeps_bind {A B} (P : S → Prop) (m : stateR S E A) (f : A → stateR S E B) :
  keeps P m → (∀ a, keeps P (f a)) → keeps P (StateR.bind m f).
Proof. apply triple_bind. Qed.

Lemma keeps_ret {A} (P : S → Prop) (a : A) : keeps P (StateR.ret a).
Proof. by apply triple_ret. Qed.

Lemma keeps_fail {A} (P : S → Prop) (e : E) : keeps (A := A) P (StateR.fail e).
Proof. by apply triple_fail. Qed.

Lemma keeps_lift {A} (P : S → Prop) (r : result E A) : keeps P (StateR.lift r).
Proof. by apply triple_lift. Qed.

Lemma keeps_get (P : S → Prop) : keeps P StateR.get.
Proof. by apply triple_get. Qed.

Lemma keeps_when (P : S → Prop) b (m : stateR S E ()) : keeps P m → keeps P (StateR.when b m).
Proof. destruct b; [done|]. intros _. apply keeps_ret. Qed.

Lemma triple_attempt {A B} (P : S → Prop) (m : stateR S E A) (k : result E A → stateR S E B) Q R :
  keeps P m → (∀ r, triple P (k r) Q R) → triple P (attempt m k) Q R.
Proof.
  intros Hm Hk s Hs. apply Hk. by apply (triple_either _ _ _ _ Hm).
Qed.

Lemma keeps_attempt {A B} (P : S → Prop) (m : stateR S E A) (k : result E A → stateR S E B) :
  keeps P m → (∀ r, keeps P (k r)) → keeps P (attempt m k).
Proof. apply triple_attempt. Qed.
End triple.

Create HintDb keeps.
#[export] Hint Resolve keeps_bind keeps_ret keeps_fail keeps_lift keeps_get keeps_when keeps_attempt : keeps.

(** Prove that a method keeps a predicate, descending through its branches. *)
Ltac solve_keeps :=
  repeat (intros; match goal with
  | |- keeps _ (match ?x with _ => _ end) => destruct x
  | |- keeps _ (let _ := _ in _) => cbv zeta
  | |- keeps _ (StateR.bind _ _) => apply keeps_bind
  | |- keeps _ (attempt _ _) => apply keeps_attempt
  | |- keeps _ _ => solve [eauto 3 with keeps]
  end).
