(* ===== verification/TreeWalk.v ===== *)
(** * Walks of a tree by a stack

    The size of the tree below a node, as the number of nodes a depth-first walk
    visits, and the measure that decreases when a node is replaced on the stack by
    its children: the termination arguments of the directory searches. *)

From S2P Require Import Prelude.

Open Scope nat_scope.
Open Scope list_scope.

Section walk.
Context {D : Type} (children : D → list D).

Abbreviation descends := (λ d c, c ∈ children d).

(** Nodes visited below [d] in a tree of depth [k]. *)
Fixpoint tree_size (k : nat) (d : D) : nat :=
  match k with
  | 0 => 1
  | S k' => S (sum_list (tree_size k' <$> children d))
  end.

Lemma tree_size_mono k k' d : k ≤ k' → tree_size k d ≤ tree_size k' d.
Proof.
  revert k' d. induction k as [|k IH]; intros [|k'] d Hk; cbn; try lia.
  apply le_n_S. induction (children d) as [|c cs IHcs]; cbn; [done|].
  specialize (IH k' c). lia.
Qed.

Section ranked.
Context (start : D) (rank : D → nat).
Context (Hrank : ∀ d c, rtc descends start d → c ∈ children d → rank c < rank d).

(** The size of what is left to visit. *)
Definition stack_size (stack : list D) : nat :=
  sum_list ((λ c, tree_size (rank c) c) <$> stack).

Lemma tree_size_children d :
  rtc descends start d → stack_size (children d) < tree_size (rank d) d.
Proof using Hrank.
  unfold stack_size. intros Hd.
  assert (∀ c, c ∈ children d → rank c < rank d) as Hc by eauto. clear Hd.
  destruct (rank d) as [|k] eqn:Hk; cbn.
  - destruct (children d) as [|c cs]; cbn; [lia|]. specialize (Hc c). set_solver by lia.
  - apply le_n_S. clear Hk. induction (children d) as [|c cs IH]; cbn; [done|].
    assert (tree_size (rank c) c ≤ tree_size k c).
    { apply tree_size_mono. specialize (Hc c). set_solver by lia. }
    specialize (IH ltac:(set_solver)). lia.
Qed.

Lemma stack_size_app l1 l2 : stack_size (l1 ++ l2) = stack_size l1 + stack_size l2.
Proof. unfold stack_size. by rewrite fmap_app, sum_list_with_app. Qed.

Lemma stack_size_cons d l : stack_size (d :: l) = tree_size (rank d) d + stack_size l.
Proof. done. Qed.

Lemma stack_size_reverse l : stack_size (reverse l) = stack_size l.
Proof. unfold stack_size. by rewrite fmap_reverse, sum_list_with_reverse. Qed.
End ranked.
End walk.
