(* ===== verification/Prog.v ===== *)
(** * Programs over an environment

    The steps a routine takes on its environment, as a tree: an event and what
    follows each of its answers.  A program is run to its end by a handler, or
    together with others under a schedule; its paths are the sequences of events
    and answers it can go through in any environment. *)

From S2P Require Import Prelude.

Open Scope nat_scope.
Open Scope list_scope.

Inductive prog (E : Type → Type) (A : Type) : Type :=
  | Ret (a : A)
  | Vis {B : Type} (e : E B) (k : B → prog E A).
Arguments Ret {E A} _.
Arguments Vis {E A B} _ _.

(** An event and the answer to it. *)
Definition answered (E : Type → Type) : Type := {B : Type & (E B * B)%type}.
Definition ans {E : Type → Type} {B} (e : E B) (b : B) : answered E := existT B (e, b).

(** An event that was raised, with its answer when it was answered. *)
Definition raised (E : Type → Type) : Type := {B : Type & (E B * option B)%type}.

Section progs.
Context {E : Type → Type}.

Fixpoint pbind {A C} (p : prog E A) (f : A → prog E C) : prog E C :=
  match p with
  | Ret a => f a
  | Vis e k => Vis e (λ b, pbind (k b) f)
  end.

(** ** Running *)

(** [None] is an event that is not answered: the program waits forever. *)
Context {S : Type} (handle : ∀ B, E B → S → S * option B).

Fixpoint prun {A} (p : prog E A) (s : S) : S * option A :=
  match p with
  | Ret a => (s, Some a)
  | Vis e k =>
      match handle _ e s with
      | (s', Some b) => prun (k b) s'
      | (s', None) => (s', None)
      end
  end.

(** One step of one program. *)
Definition pstep {A} (p : prog E A) (s : S) : S * prog E A :=
  match p with
  | Ret a => (s, p)
  | Vis e k =>
      match handle _ e s with
      | (s', Some b) => (s', k b)
      | (s', None) => (s', p)
      end
  end.

(** The schedule names the task that takes the next step. *)
Fixpoint prun_schedule {A} (schedule : list nat) (tasks : list (prog E A)) (s : S)
    : S * list (prog E A) :=
  match schedule with
  | [] => (s, tasks)
  | i :: schedule' =>
      match tasks !! i with
      | None => prun_schedule schedule' tasks s
      | Some p => let '(s', p') := pstep p s in prun_schedule schedule' (<[i := p']> tasks) s'
      end
  end.

(** The same, with what the run raised and was answered, in order, each event under
    the task it comes from. *)
Fixpoint prun_logged {A} (schedule : list nat) (tasks : list (prog E A)) (s : S)
    : S * list (prog E A) * list (nat * raised E) :=
  match schedule with
  | [] => (s, tasks, [])
  | i :: schedule' =>
      match tasks !! i with
      | Some (Vis e k) =>
          let '(s', answer) := handle _ e s in
          let tasks' := match answer with Some b => <[i := k b]> tasks | None => tasks end in
          let '(out, log) := prun_logged schedule' tasks' s' in
          (out, (i, existT _ (e, answer)) :: log)
      | _ => prun_logged schedule' tasks s
      end
  end.

(** The answers a task was given in a log. *)
Definition answers_to (i : nat) (log : list (nat * raised E)) : list (answered E) :=
  omap (λ '(j, existT B (e, answer)), if j =? i then ans e <$> answer else None) log.

(** What is left, one after another; a task that waits gives no result. *)
Fixpoint pfinish {A} (tasks : list (prog E A)) (s : S) : S * list A :=
  match tasks with
  | [] => (s, [])
  | p :: tasks' =>
      let '(s1, r) := prun p s in
      let '(s2, rs) := pfinish tasks' s1 in
      (s2, option_list r ++ rs)
  end.
End progs.

(** ** Paths *)

Section paths.
Context {E : Type → Type}.

(** [path p tr p']: after the answers [tr], [p'] is left of [p]. *)
Inductive path {A} : prog E A → list (answered E) → prog E A → Prop :=
  | path_nil p : path p [] p
  | path_cons {B} (e : E B) k b tr p' : path (k b) tr p' → path (Vis e k) (ans e b :: tr) p'.

(** [covers R p]: whatever is answered, [R] holds of every event with the answers
    before it.  [pre] is what came before [p]. *)
Fixpoint covers (R : list (answered E) → answered E → Prop) (pre : list (answered E)) {A}
    (p : prog E A) : Prop :=
  match p with
  | Ret _ => True
  | Vis e k => ∀ b, R pre (ans e b) ∧ covers R (pre ++ [ans e b]) (k b)
  end.

Lemma covers_path R pre {A} (p : prog E A) tr p' :
  covers R pre p → path p tr p' →
  ∀ l ev l', tr = l ++ ev :: l' → R (pre ++ l) ev.
Proof.
  intros Hc Hp. revert pre Hc. induction Hp as [p|B e k b tr p' _ IH]; intros pre Hc l ev l' Htr.
  - by destruct l.
  - destruct (Hc b) as [HR Hk]. destruct l as [|x l]; injection Htr as <- Htr.
    + by rewrite app_nil_r.
    + rewrite (cons_middle (ans e b)), app_assoc. by eapply IH.
Qed.

Lemma covers_bind R pre {A C} (p : prog E A) (f : A → prog E C) :
  covers R pre p → (∀ a tr, path p tr (Ret a) → covers R (pre ++ tr) (f a)) →
  covers R pre (pbind p f).
Proof.
  revert pre. induction p as [a|B e k IH]; intros pre Hp Hf; cbn.
  - rewrite <-(app_nil_r pre). apply (Hf a []). constructor.
  - intros b. destruct (Hp b) as [HR Hk]. split; [done|]. apply IH; [done|].
    intros a tr Htr. rewrite <-app_assoc. apply Hf. by constructor.
Qed.

Lemma path_app {A} (p p1 p2 : prog E A) tr1 tr2 :
  path p tr1 p1 → path p1 tr2 p2 → path p (tr1 ++ tr2) p2.
Proof. induction 1; cbn; [done|]. intros. constructor. auto. Qed.

Context {S : Type} (handle : ∀ B, E B → S → S * option B).

Lemma prun_path {A} (p : prog E A) s s' a :
  prun handle p s = (s', Some a) → ∃ tr, path p tr (Ret a).
Proof.
  revert s. induction p as [x|B e k IH]; intros s; cbn.
  - intros [= <- <-]. exists []. constructor.
  - destruct (handle B e s) as [s1 [b|]]; [|done]. intros (tr & Htr)%IH.
    exists (ans e b :: tr). by constructor.
Qed.

(** Under a schedule every task follows a path of its own. *)
Lemma schedule_paths {A} schedule (tasks tasks' : list (prog E A)) s s' :
  prun_schedule handle schedule tasks s = (s', tasks') →
  Forall2 (λ p p', ∃ tr, path p tr p') tasks tasks'.
Proof.
  revert tasks s. induction schedule as [|i schedule IH]; intros tasks s; cbn.
  - intros [= <- <-]. apply Forall2_same_length_lookup_2; [done|].
    intros j p p' -> [= <-]. exists []. constructor.
  - destruct (tasks !! i) as [p|] eqn:Hi; [|apply IH].
    destruct (pstep handle p s) as [s1 p1] eqn:Hstep. intros Hrun%IH.
    assert (∃ tr, path p tr p1) as [tr0 Htr0].
    { destruct p as [a|B e k]; cbn in Hstep.
      - injection Hstep as <- <-. exists []. constructor.
      - destruct (handle B e s) as [s2 [b|]]; injection Hstep as <- <-.
        + exists [ans e b]. constructor. constructor.
        + exists []. constructor. }
    apply Forall2_same_length_lookup. apply Forall2_same_length_lookup in Hrun as [Hlen Hlk].
    rewrite length_insert in Hlen. split; [done|]. intros j q q' Hq Hq'.
    destruct (decide (i = j)) as [->|Hne].
    + rewrite Hi in Hq. injection Hq as <-.
      destruct (Hlk j p1 q') as [tr Htr]; [|done|exists (tr0 ++ tr); by eapply path_app].
      apply list_lookup_insert_eq. by eapply lookup_lt_Some.
    + apply (Hlk j); [|done]. by rewrite list_lookup_insert_ne.
Qed.

Lemma prun_logged_run {A} schedule (tasks : list (prog E A)) s :
  (prun_logged handle schedule tasks s).1 = prun_schedule handle schedule tasks s.
Proof.
  revert tasks s. induction schedule as [|i schedule IH]; intros tasks s; cbn; [done|].
  destruct (tasks !! i) as [[a|B e k]|] eqn:Hi; cbn; [|..|apply IH].
  - by rewrite list_insert_id, IH.
  - destruct (handle B e s) as [s' [b|]]; rewrite <-IH, ?(list_insert_id tasks) by done;
      by destruct (prun_logged _ _ _ _).
Qed.

(** What covers the tasks holds of every event a run raises, with the answers the
    task was given before it in that run. *)
Lemma logged_covers R {A} schedule (tasks : list (prog E A)) s (pre : nat → list (answered E)) :
  (∀ B, E B → inhabited B) →
  (∀ i p, tasks !! i = Some p → covers R (pre i) p) →
  ∀ l i B (e : E B) answer l',
    (prun_logged handle schedule tasks s).2 = l ++ (i, existT B (e, answer)) :: l' →
    ∃ b, R (pre i ++ answers_to i l) (ans e b).
Proof.
  intros Hinh. revert tasks s pre. induction schedule as [|j schedule IH];
    intros tasks s pre Hcov l i B e answer l'; cbn; [by destruct l|].
  destruct (tasks !! j) as [[a|B0 e0 k]|] eqn:Hj; [by apply IH| |by apply IH].
  destruct (handle B0 e0 s) as [s1 answer0].
  destruct (prun_logged _ _ _ s1) as [out log] eqn:Hrest. cbn.
  pose proof (Hcov j _ Hj) as Hp. destruct l as [|x l]; intros Hlog.
  - pose proof (f_equal (hd (j, existT B0 (e0, answer0))) Hlog) as He. cbn in He.
    assert (∃ b, R (pre j) (ans e0 b)) as [b Hb].
    { destruct (Hinh B0 e0) as [b]. exists b. exact (proj1 (Hp b)). }
    assert (∀ x y : nat * raised E, x = y → (∃ b, R (pre x.1) (ans (projT2 x.2).1 b)) →
              ∃ b, R (pre y.1) (ans (projT2 y.2).1 b)) as Hmove by (by intros x y ->).
    cbn [answers_to]. rewrite app_nil_r. apply (Hmove _ _ He). by exists b.
  - set (pre' := λ n, match answer0 with
                      | Some b => if j =? n then pre n ++ [ans e0 b] else pre n
                      | None => pre n end).
    injection Hlog as <- Hlog.
    assert (∃ b, R (pre' i ++ answers_to i l) (ans e b)) as [b Hb].
    { eapply (IH _ s1 pre'); [|by rewrite Hrest]. intros n p. unfold pre'.
      destruct answer0 as [b|]; [|apply Hcov]. destruct (Nat.eqb_spec j n) as [<-|Hne].
      - rewrite list_lookup_insert_eq by (by eapply lookup_lt_Some). intros [= <-]. exact (proj2 (Hp b)).
      - rewrite list_lookup_insert_ne by done. apply Hcov. }
    exists b. revert Hb. unfold pre'. cbn [answers_to omap list_omap].
    destruct answer0 as [b0|]; cbn; [|by destruct (j =? i)].
    destruct (j =? i); cbn; [|done]. by rewrite <-app_assoc.
Qed.

Lemma prun_bind {A C} (p : prog E A) (f : A → prog E C) s :
  prun handle (pbind p f) s =
  match prun handle p s with
  | (s', Some a) => prun handle (f a) s'
  | (s', None) => (s', None)
  end.
Proof.
  revert s. induction p as [a|B e k IH]; intros s; cbn; [done|].
  destruct (handle B e s) as [s1 [b|]]; [apply IH|done].
Qed.

(** What every answer keeps, a program keeps. *)
Lemma prun_invariant (I : S → Prop) {A} (p : prog E A) s :
  (∀ B (e : E B) s, I s → I (handle B e s).1) → I s → I (prun handle p s).1.
Proof.
  intros Hkeep. revert s. induction p as [a|B e k IH]; intros s Hs; cbn; [done|].
  specialize (Hkeep B e s Hs). destruct (handle B e s) as [s1 [b|]]; [by apply IH|done].
Qed.
End paths.

(** ** Promises *)

Section promises.
Context {E : Type → Type} (ok : answered E → Prop) (R : list (answered E) → answered E → Prop).

(** As long as the answers are [ok], [R] holds of every event with the answers
    before it, and [Q] of the result with all of them.  [pre] is what came before
    [p]. *)
Fixpoint promises {A} (Q : list (answered E) → A → Prop) (pre : list (answered E)) (p : prog E A)
    : Prop :=
  match p with
  | Ret a => Q pre a
  | Vis e k => ∀ b, ok (ans e b) → R pre (ans e b) ∧ promises Q (pre ++ [ans e b]) (k b)
  end.

Lemma promises_bind {A C} Q Q' pre (p : prog E A) (f : A → prog E C) :
  promises Q' pre p → (∀ pre' a, Q' pre' a → promises Q pre' (f a)) → promises Q pre (pbind p f).
Proof.
  revert pre. induction p as [a|B e k IH]; intros pre Hp Hf; cbn; [by apply Hf|].
  intros b Hb. destruct (Hp b Hb) as [HR Hk]. split; [done|]. by apply IH.
Qed.

Lemma promises_weaken {A} Q Q' pre (p : prog E A) :
  promises Q' pre p → (∀ pre' a, Q' pre' a → Q pre' a) → promises Q pre p.
Proof.
  revert pre. induction p as [a|B e k IH]; intros pre Hp HQ; cbn; [by apply HQ|].
  intros b Hb. destruct (Hp b Hb) as [HR Hk]. split; [done|]. by apply IH.
Qed.

Lemma promises_result {A} Q pre (p : prog E A) tr a :
  promises Q pre p → path p tr (Ret a) → Forall ok tr → Q (pre ++ tr) a.
Proof.
  intros Hp Hpath. remember (Ret a) as q eqn:Hq. revert pre Hp.
  induction Hpath as [p|B e k b tr p' _ IH]; intros pre Hp Hok.
  - subst. by rewrite app_nil_r.
  - apply Forall_cons in Hok as [Hb Hok]. destruct (Hp b Hb) as [_ Hk].
    rewrite (cons_middle (ans e b)), app_assoc. by apply IH.
Qed.

Lemma promises_event {A} Q pre (p p' : prog E A) tr l ev l' :
  promises Q pre p → path p tr p' → Forall ok tr → tr = l ++ ev :: l' → R (pre ++ l) ev.
Proof.
  intros Hp Hpath. revert pre l Hp. induction Hpath as [p|B e k b tr p' _ IH]; intros pre l Hp Hok Htr.
  - by destruct l.
  - apply Forall_cons in Hok as [Hb Hok]. destruct (Hp b Hb) as [HR Hk].
    destruct l as [|x l]; injection Htr as <- Htr; [by rewrite app_nil_r|].
    rewrite (cons_middle (ans e b)), app_assoc. by eapply IH.
Qed.

(** A state that follows the events: what is kept of it by every answer, given that
    the event was in order, holds at the end. *)
Lemma prun_follows {S} (handle : ∀ B, E B → S → S * option B) (I : list (answered E) → S → Prop)
    (stuck : S → Prop) {A} Q pre (p : prog E A) s :
  (∀ ev, ok ev) → promises Q pre p → I pre s →
  (∀ pre B (e : E B) b s s', I pre s → R pre (ans e b) → handle B e s = (s', Some b) →
     I (pre ++ [ans e b]) s') →
  (∀ pre B (e : E B) s s', I pre s → handle B e s = (s', None) → stuck s') →
  match prun handle p s with
  | (s', Some a) => ∃ pre', Q pre' a ∧ I pre' s'
  | (s', None) => stuck s'
  end.
Proof.
  intros Hok Hp HI Hkeep Hstuck. revert pre s Hp HI.
  induction p as [a|B e k IH]; intros pre s Hp HI; cbn; [by exists pre|].
  destruct (handle B e s) as [s' [b|]] eqn:He; [|by eapply Hstuck].
  destruct (Hp b (Hok _)) as [HR Hk]. eapply IH; [exact Hk|]. by eapply Hkeep.
Qed.
End promises.

(** ** Counting events *)

Section counting.
Context {E : Type → Type} (weight : answered E → nat).

(** No path weighs more than [n]. *)
Fixpoint at_most {A} (n : nat) (p : prog E A) : Prop :=
  match p with
  | Ret _ => True
  | Vis e k => ∀ b, weight (ans e b) ≤ n ∧ at_most (n - weight (ans e b)) (k b)
  end.

Definition total (tr : list (answered E)) : nat := foldr Nat.add 0 (weight <$> tr).

Lemma at_most_mono {A} n m (p : prog E A) : n ≤ m → at_most n p → at_most m p.
Proof.
  revert n m. induction p as [a|B e k IH]; intros n m Hle; cbn; [done|].
  intros Hn b. destruct (Hn b) as [Hw Hk]. split; [lia|]. eapply IH; [|exact Hk]. lia.
Qed.

Lemma at_most_bind {A C} n m (p : prog E A) (f : A → prog E C) :
  at_most n p → (∀ a, at_most m (f a)) → at_most (n + m) (pbind p f).
Proof.
  revert n. induction p as [a|B e k IH]; intros n Hp Hf; cbn.
  - eapply at_most_mono; [|apply Hf]. lia.
  - intros b. destruct (Hp b) as [Hw Hk]. split; [lia|].
    eapply at_most_mono; [|by apply IH]. lia.
Qed.

Lemma at_most_path {A} n (p p' : prog E A) tr : at_most n p → path p tr p' → total tr ≤ n.
Proof.
  intros Hn Hp. revert n Hn. induction Hp as [p|B e k b tr p' _ IH]; intros n Hn; [cbn; lia|].
  destruct (Hn b) as [Hw Hk]. cbn. specialize (IH _ Hk). unfold total in IH. lia.
Qed.
End counting.
