(* ===== verification/Str.v ===== *)
(** * Rust strings

    A Rust [str] is a sequence of UTF-8 bytes; here it is Rocq's [string], one
    [ascii] per byte.  The operations of [core::str] that the modelled code
    calls are written on that byte sequence: substring tests and ASCII case
    folding byte by byte, [chars] by grouping every lead byte with its
    continuation bytes, whitespace as the Unicode [White_Space] characters. *)

From S2P Require Import Prelude.

Open Scope string_scope.
Open Scope nat_scope.
Open Scope list_scope.

#[global] Arguments String.append !_ _ : simpl nomatch.

(** ** Bytes *)

Definition byte (a : ascii) : N := N_of_ascii a.

(** A UTF-8 continuation byte, [10xxxxxx]. *)
Definition is_cont (a : ascii) : bool := (128 <=? byte a)%N && (byte a <? 192)%N.

Definition ascii_lower (a : ascii) : ascii :=
  if (65 <=? byte a)%N && (byte a <=? 90)%N then ascii_of_N (byte a + 32) else a.

Fixpoint to_ascii_lowercase (s : string) : string :=
  match s with
  | "" => ""
  | String a s => String (ascii_lower a) (to_ascii_lowercase s)
  end.

(** ** Substring tests: [starts_with], [ends_with], [contains] *)

Definition starts_with (s pat : string) : bool := String.prefix pat s.

Fixpoint contains (s pat : string) : bool :=
  starts_with s pat ||
  match s with "" => false | String _ s' => contains s' pat end.

Fixpoint ends_with (s pat : string) : bool :=
  String.eqb s pat ||
  match s with "" => false | String _ s' => ends_with s' pat end.

(** [str::strip_prefix] *)
Fixpoint strip_prefix (pat s : string) : option string :=
  match pat, s with
  | "", _ => Some s
  | String a pat', String b s' => if Ascii.eqb a b then strip_prefix pat' s' else None
  | _, "" => None
  end.

(** ** Characters *)

Definition cont_head (s : string) : bool :=
  match s with String a _ => is_cont a | "" => false end.

(** [str::chars], each character as the bytes that encode it. *)
Fixpoint chars (s : string) : list string :=
  match s with
  | "" => []
  | String a s' =>
      match chars s' with
      | c :: cs => if cont_head c then String a c :: cs else String a "" :: c :: cs
      | [] => [String a ""]
      end
  end.

Fixpoint concat_str (l : list string) : string :=
  match l with [] => "" | c :: cs => c ++ concat_str cs end.

Definition chars_count (s : string) : nat := length (chars s).

(** [s.chars().take(n).collect::<String>()] *)
Definition chars_take (n : nat) (s : string) : string := concat_str (take n (chars s)).

(** [char::is_whitespace]: the Unicode property White_Space. *)
Definition is_whitespace (c : string) : bool :=
  match (byte <$> String.list_ascii_of_string c)%N with
  | [b] => ((9 <=? b) && (b <=? 13) || (b =? 32))%N
  | [b0; b1] => ((b0 =? 194) && ((b1 =? 133) || (b1 =? 160)))%N
  | [b0; b1; b2] =>
      (((b0 =? 225) && (b1 =? 154) && (b2 =? 128))
       || ((b0 =? 226) && (b1 =? 128)
           && (((128 <=? b2) && (b2 <=? 138)) || (b2 =? 168) || (b2 =? 169) || (b2 =? 175)))
       || ((b0 =? 226) && (b1 =? 129) && (b2 =? 159))
       || ((b0 =? 227) && (b1 =? 128) && (b2 =? 128)))%N
  | _ => false
  end.

Fixpoint drop_while {A} (f : A → bool) (l : list A) : list A :=
  match l with [] => [] | x :: l' => if f x then drop_while f l' else l end.

(** [str::trim] *)
Definition trim_chars (l : list string) : list string :=
  reverse (drop_while is_whitespace (reverse (drop_while is_whitespace l))).
Definition trim (s : string) : string := concat_str (trim_chars (chars s)).

Definition is_empty (s : string) : bool := String.eqb s "".

(** [str::split_whitespace]: maximal runs of non-whitespace characters. *)
Fixpoint split_ws_chars (cur : string) (l : list string) : list string :=
  match l with
  | [] => if is_empty cur then [] else [cur]
  | c :: l' =>
      if is_whitespace c
      then if is_empty cur then split_ws_chars "" l' else cur :: split_ws_chars "" l'
      else split_ws_chars (cur ++ c) l'
  end.
Definition split_whitespace (s : string) : list string := split_ws_chars "" (chars s).

(** [str::split(c)] for an ASCII separator: always at least one piece. *)
Fixpoint split_on (c : ascii) (s : string) : list string :=
  match s with
  | "" => [""]
  | String a s' =>
      if Ascii.eqb a c then "" :: split_on c s'
      else match split_on c s' with
           | p :: ps => String a p :: ps
           | [] => [String a ""]
           end
  end.

(** [slice::join] *)
Fixpoint join (sep : string) (l : list string) : string :=
  match l with
  | [] => ""
  | [x] => x
  | x :: l' => x ++ sep ++ join sep l'
  end.

Definition string_rev (s : string) : string :=
  String.string_of_list_ascii (reverse (String.list_ascii_of_string s)).

(** [str::trim_end_matches] of an ASCII character. *)
Definition trim_end_matches (c : ascii) (s : string) : string :=
  String.string_of_list_ascii
    (reverse (drop_while (Ascii.eqb c) (reverse (String.list_ascii_of_string s)))).

(** Rust's [str::parse::<u64>]: an optional sign and decimal digits. *)
Definition digit_value (a : ascii) : option N :=
  if (48 <=? byte a)%N && (byte a <=? 57)%N then Some (byte a - 48)%N else None.

Fixpoint parse_digits (acc : N) (s : string) : option N :=
  match s with
  | EmptyString => Some acc
  | String a s' =>
      match digit_value a with
      | Some d => let acc' := (acc * 10 + d)%N in
                  if (u64_max <? acc')%N then None else parse_digits acc' s'
      | None => None
      end
  end.

Definition parse_u64 (s : string) : option N :=
  let digits := default s (strip_prefix "+" s) in
  if is_empty digits then None else parse_digits 0 digits.

(** [format!("{n}")] *)
Definition dec (n : N) : string := pretty n.

(** [format!("{:0w}", n)] *)
Definition dec_padded (w : nat) (n : N) : string :=
  String.string_of_list_ascii (replicate (w - String.length (dec n)) "0"%char) ++ dec n.

(** [str::is_char_boundary] at a byte index. *)
Definition is_char_boundary (i : nat) (s : string) : bool :=
  (i =? 0) || (i =? String.length s)
  || match String.get i s with Some a => negb (is_cont a) | None => false end.

(** [while end > 0 && !s.is_char_boundary(end) { end -= 1 }] *)
Fixpoint floor_boundary (i : nat) (s : string) : nat :=
  match i with
  | 0 => 0
  | S i' => if is_char_boundary i s then i else floor_boundary i' s
  end.

(** [&s[..n]] *)
Definition str_prefix (n : nat) (s : string) : string := String.substring 0 n s.

(** ** Lemmas *)

Lemma str_app_nil_r s : (s ++ "" = s)%string.
Proof. induction s; cbn; congruence. Qed.

Lemma str_app_assoc s1 s2 s3 : ((s1 ++ s2) ++ s3 = s1 ++ (s2 ++ s3))%string.
Proof. induction s1; cbn; congruence. Qed.

Lemma str_app_inj_l s s1 s2 : (s ++ s1 = s ++ s2 → s1 = s2)%string.
Proof. induction s; cbn; [done|]. intros [= H]. auto. Qed.

Lemma length_str_app s1 s2 :
  String.length (s1 ++ s2)%string = String.length s1 + String.length s2.
Proof. induction s1; cbn; lia. Qed.

(** Grouping bytes into characters loses nothing. *)
Lemma concat_chars s : concat_str (chars s) = s.
Proof.
  induction s as [|a s IH]; [done|]. cbn.
  destruct (chars s) as [|c cs]; cbn in *; [congruence|].
  destruct (cont_head c); cbn; congruence.
Qed.

Lemma chars_take_all n s : chars_count s ≤ n → chars_take n s = s.
Proof.
  intros. unfold chars_take. rewrite take_ge by done. apply concat_chars.
Qed.

Lemma chars_not_nil a s : chars (String a s) ≠ [].
Proof. cbn. repeat case_match; done. Qed.

Lemma chars_cons a s :
  chars (String a s) =
  match chars s with
  | [] => [String a ""]
  | c :: cs => if cont_head c then String a c :: cs else String a "" :: c :: cs
  end.
Proof. done. Qed.

Lemma chars_head a s c cs : chars (String a s) = c :: cs → cont_head c = is_cont a.
Proof. rewrite chars_cons. intros H. repeat case_match; by simplify_eq/=. Qed.

Lemma chars_count_app s1 s2 :
  chars_count (s1 ++ s2)%string ≤ chars_count s1 + chars_count s2.
Proof.
  unfold chars_count. induction s1 as [|a s1 IH]; [done|].
  change (String a s1 ++ s2)%string with (String a (s1 ++ s2)%string). cbn.
  destruct (chars (s1 ++ s2)%string) as [|c cs] eqn:E.
  { repeat case_match; cbn; lia. }
  destruct s1 as [|b s1'].
  - change ("" ++ s2)%string with s2 in E. rewrite E. cbn.
    destruct (cont_head c); cbn; lia.
  - (* the first character starts with the same byte on both sides *)
    destruct (chars (String b s1')) as [|c' cs'] eqn:E'; [by apply chars_not_nil in E'|].
    assert (cont_head c = is_cont b) as ->.
    { change (String b s1' ++ s2)%string with (String b (s1' ++ s2)%string) in E.
      clear -E. cbn in E. repeat case_match; simplify_eq/=; done. }
    assert (cont_head c' = is_cont b) as ->.
    { clear -E'. cbn in E'. repeat case_match; simplify_eq/=; done. }
    destruct (is_cont b); cbn in *; lia.
Qed.

(** Every character of [chars s] is one character. *)
Lemma chars_singleton s c : c ∈ chars s → chars c = [c].
Proof.
  revert c. induction s as [|a s IH]; intros c Hc; [by apply not_elem_of_nil in Hc|].
  cbn in Hc. destruct (chars s) as [|c0 cs].
  { apply list_elem_of_singleton in Hc as ->. done. }
  destruct (cont_head c0) eqn:Eh; apply elem_of_cons in Hc as [->|Hc].
  - cbn. rewrite IH by set_solver. by rewrite Eh.
  - apply IH; set_solver.
  - done.
  - apply IH. done.
Qed.

Lemma chars_take_count n s : chars_count (chars_take n s) ≤ n.
Proof.
  unfold chars_take.
  assert (∀ l, (∀ c, c ∈ l → chars c = [c]) → chars_count (concat_str l) ≤ length l)
    as Hl.
  { induction l as [|c l IHl]; intros Hall; cbn; [done|].
    etrans; [apply chars_count_app|]. unfold chars_count at 1.
    rewrite Hall by set_solver. cbn. specialize (IHl ltac:(set_solver)). lia. }
  etrans; [apply Hl|].
  - intros c (i & Hi & _)%elem_of_take. apply (chars_singleton s).
    by eapply list_elem_of_lookup_2.
  - rewrite length_take. lia.
Qed.

Lemma dec_inj n m : dec n = dec m → n = m.
Proof. apply (inj pretty). Qed.

Lemma floor_boundary_le i s : floor_boundary i s ≤ i.
Proof. induction i as [|i IH]; [done|]. cbn [floor_boundary]. case_match; lia. Qed.

Lemma floor_boundary_boundary i s : is_char_boundary (floor_boundary i s) s = true.
Proof. induction i as [|i IH]; [done|]. cbn [floor_boundary]. by case_match. Qed.

Lemma length_str_prefix n s : String.length (str_prefix n s) ≤ n.
Proof.
  unfold str_prefix. revert n. induction s as [|a s IH]; intros [|n]; cbn; try lia.
  specialize (IH n). lia.
Qed.

(** *** Splitting and joining *)

Lemma split_on_nonempty c s : split_on c s ≠ [].
Proof. destruct s; cbn; repeat case_match; done. Qed.

Lemma join_cons sep x l : l ≠ [] → join sep (x :: l) = (x ++ sep ++ join sep l)%string.
Proof. by destruct l. Qed.

Lemma join_split_on {c} s : join (String c "") (split_on c s) = s.
Proof.
  induction s as [|a s IH]; [done|]. cbn [split_on].
  pose proof (split_on_nonempty c s) as Hne.
  destruct (Ascii.eqb_spec a c) as [->|Ha].
  - rewrite join_cons by done. by rewrite IH.
  - destruct (split_on c s) as [|q qs]; [done|].
    destruct qs as [|q' qs]; [cbn in *; congruence|].
    rewrite join_cons in IH |- * by done. rewrite <-IH. done.
Qed.

Lemma split_on_app {c} s t :
  split_on c (s ++ String c t)%string = split_on c s ++ split_on c t.
Proof.
  induction s as [|a s IH]; [cbn; by rewrite Ascii.eqb_refl|].
  change (String a s ++ String c t)%string with (String a (s ++ String c t)%string).
  cbn [split_on]. rewrite IH.
  pose proof (split_on_nonempty c s). destruct (Ascii.eqb a c); [done|].
  by destruct (split_on c s).
Qed.

(** No piece holds the separator. *)
Lemma split_on_piece {c} s q : q ∈ split_on c s → split_on c q = [q].
Proof.
  revert q. induction s as [|a s IH]; intros q; cbn [split_on].
  { intros ->%list_elem_of_singleton. done. }
  pose proof (split_on_nonempty c s) as Hne. destruct (Ascii.eqb a c) eqn:Ha.
  - intros [->|Hq]%elem_of_cons; [done|auto].
  - destruct (split_on c s) as [|p ps]; [done|].
    intros [->|Hq]%elem_of_cons; [|apply IH; set_solver].
    cbn [split_on]. rewrite Ha. by rewrite (IH p) by set_solver.
Qed.

(** Pieces without the separator are what splitting their join gives back. *)
Lemma split_on_join {c} ps :
  ps ≠ [] → Forall (λ p, split_on c p = [p]) ps → split_on c (join (String c "") ps) = ps.
Proof.
  intros Hne Hps. induction Hps as [|p ps Hp Hps IH]; [done|].
  destruct ps as [|p' ps]; [done|]. rewrite join_cons by done.
  change (p ++ String c "" ++ join (String c "") (p' :: ps))%string with
    (p ++ String c (join (String c "") (p' :: ps)))%string.
  rewrite split_on_app, Hp, IH by done. done.
Qed.

(** ** Numbers *)

Lemma parse_digits_char x acc s :
  (x < 10)%N → (acc * 10 + x ≤ u64_max)%N →
  parse_digits acc (String (pretty_N_char x) s) = parse_digits (acc * 10 + x) s.
Proof.
  intros Hx Hle. assert (digit_value (pretty_N_char x) = Some x) as Hd.
  { assert (x ∈ [0;1;2;3;4;5;6;7;8;9]%N) as Hin by (rewrite !elem_of_cons, elem_of_nil; lia).
    repeat (apply elem_of_cons in Hin as [->|Hin]; [done|]). by apply elem_of_nil in Hin. }
  cbn [parse_digits]. rewrite Hd. by rewrite (proj2 (N.ltb_ge _ _)).
Qed.

Lemma parse_digits_go x s :
  (x ≤ u64_max)%N → parse_digits 0 (pretty_N_go x s) = parse_digits x s.
Proof.
  revert s. induction (N.lt_wf_0 x) as [x _ IH]. intros s Hx.
  destruct (decide (0 < x)%N) as [Hpos|]; [|assert (x = 0%N) as -> by lia; by rewrite pretty_N_go_0].
  pose proof (N.div_lt x 10 Hpos ltac:(lia)) as Hlt.
  pose proof (N.div_mod x 10 ltac:(lia)) as Hdm.
  pose proof (N.mod_lt x 10 ltac:(lia)) as Hm.
  rewrite pretty_N_go_step by done. rewrite IH by lia. rewrite parse_digits_char by lia.
  f_equal. lia.
Qed.

Lemma dec_not_empty n : dec n ≠ "".
Proof.
  assert (∀ x s, s ≠ "" → pretty_N_go x s ≠ "") as Hgo.
  { intros x. induction (N.lt_wf_0 x) as [x _ IH]. intros s Hs.
    destruct (decide (0 < x)%N) as [Hx|]; [|assert (x = 0%N) as -> by lia; by rewrite pretty_N_go_0].
    rewrite pretty_N_go_step by done. apply IH; [by apply N.div_lt|done]. }
  unfold dec, pretty, pretty_N. case_decide as Hn; [done|].
  rewrite pretty_N_go_step by lia. by apply Hgo.
Qed.

Lemma parse_u64_dec n : (n ≤ u64_max)%N → parse_u64 (dec n) = Some n.
Proof.
  intros Hn. assert (parse_digits 0 (dec n) = Some n) as Hd.
  { unfold dec, pretty, pretty_N. case_decide as H0; [by subst|].
    rewrite parse_digits_go by done. done. }
  unfold parse_u64. destruct (strip_prefix "+" (dec n)) as [rest|] eqn:Hp; cbn [default].
  - destruct (dec n) as [|a d] eqn:E; [done|]. cbn [strip_prefix] in Hp.
    destruct (Ascii.eqb_spec "+" a) as [<-|]; [|done]. by cbn in Hd.
  - unfold is_empty. destruct (String.eqb_spec (dec n) "") as [E|_]; [by apply dec_not_empty in E|].
    done.
Qed.

Lemma list_ascii_app s t :
  String.list_ascii_of_string (s ++ t)%string =
  String.list_ascii_of_string s ++ String.list_ascii_of_string t.
Proof. induction s; cbn; congruence. Qed.
