(* ===== verification/Utf8.v ===== *)
(** * UTF-8 validity and lines

    [str::from_utf8] as the check it makes on the bytes (the well-formed
    sequences of the Unicode standard) and [str::lines]. *)

From S2P Require Import Prelude Str.

Open Scope string_scope.
Open Scope nat_scope.
Open Scope list_scope.

Definition in_range (lo hi : N) (a : ascii) : bool := (lo <=? byte a)%N && (byte a <=? hi)%N.

(** The second byte a lead byte of a sequence of three or four admits. *)
Definition second_ok (a b : ascii) : bool :=
  if (byte a =? 224)%N then in_range 160 191 b
  else if (byte a =? 237)%N then in_range 128 159 b
  else if (byte a =? 240)%N then in_range 144 191 b
  else if (byte a =? 244)%N then in_range 128 143 b
  else is_cont b.

(** [str::from_utf8(bytes).is_ok()] *)
Fixpoint utf8_valid (s : string) : bool :=
  match s with
  | "" => true
  | String a s1 =>
      if in_range 0 127 a then utf8_valid s1
      else match s1 with
      | "" => false
      | String b s2 =>
          if in_range 194 223 a then is_cont b && utf8_valid s2
          else match s2 with
          | "" => false
          | String c s3 =>
              if in_range 224 239 a then second_ok a b && is_cont c && utf8_valid s3
              else match s3 with
              | "" => false
              | String d s4 =>
                  if in_range 240 244 a
                  then second_ok a b && is_cont c && is_cont d && utf8_valid s4
                  else false
              end
          end
      end
  end.

(** U+FFFD *)
Definition replacement : string :=
  String (ascii_of_N 239) (String (ascii_of_N 191) (String (ascii_of_N 189) "")).

(** [String::from_utf8_lossy]: every maximal prefix of a sequence that does not go
    on as it should, and every byte that starts none, becomes U+FFFD. *)
Fixpoint from_utf8_lossy (s : string) : string :=
  match s with
  | "" => ""
  | String a s1 =>
      if in_range 0 127 a then String a (from_utf8_lossy s1)
      else if in_range 194 223 a then
        match s1 with
        | String b s2 =>
            if is_cont b then String a (String b (from_utf8_lossy s2))
            else replacement ++ from_utf8_lossy s1
        | "" => replacement
        end
      else if in_range 224 239 a then
        match s1 with
        | String b s2 =>
            if second_ok a b then
              match s2 with
              | String c s3 =>
                  if is_cont c then String a (String b (String c (from_utf8_lossy s3)))
                  else replacement ++ from_utf8_lossy s2
              | "" => replacement
              end
            else replacement ++ from_utf8_lossy s1
        | "" => replacement
        end
      else if in_range 240 244 a then
        match s1 with
        | String b s2 =>
            if second_ok a b then
              match s2 with
              | String c s3 =>
                  if is_cont c then
                    match s3 with
                    | String d s4 =>
                        if is_cont d
                        then String a (String b (String c (String d (from_utf8_lossy s4))))
                        else replacement ++ from_utf8_lossy s3
                    | "" => replacement
                    end
                  else replacement ++ from_utf8_lossy s2
              | "" => replacement
              end
            else replacement ++ from_utf8_lossy s1
        | "" => replacement
        end
      else replacement ++ from_utf8_lossy s1
  end.

(** [str::lines]: split after every newline, without a final empty line and
    without the carriage return of a line that ends in ["\r\n"]. *)
Definition newline : ascii := ascii_of_N 10.
Definition nl : string := String newline "".
Definition carriage_return : ascii := ascii_of_N 13.

Fixpoint strip_cr (s : string) : string :=
  match s with
  | "" => ""
  | String a "" => if Ascii.eqb a carriage_return then "" else s
  | String a s' => String a (strip_cr s')
  end.

Fixpoint lines_of (pieces : list string) : list string :=
  match pieces with
  | [] => []
  | [last] => if is_empty last then [] else [last]
  | p :: ps => strip_cr p :: lines_of ps
  end.

Definition lines (s : string) : list string := lines_of (split_on newline s).

(** ** Prefixes of valid text *)

Lemma second_ok_cont a b : second_ok a b = true → is_cont b = true.
Proof.
  unfold second_ok, in_range, is_cont. repeat case_match; try done.
  all: rewrite !andb_true_iff, ?N.leb_le, ?N.ltb_lt; lia.
Qed.

Lemma lead_not_cont a :
  (in_range 0 127 a || in_range 194 223 a || in_range 224 239 a || in_range 240 244 a) = true →
  is_cont a = false.
Proof.
  unfold in_range, is_cont. rewrite !orb_true_iff, !andb_true_iff, andb_false_iff.
  rewrite !N.leb_le, N.leb_gt, N.ltb_ge. lia.
Qed.

(** The sequences a valid text starts with. *)
Inductive utf8_cases : string → Prop :=
  | utf8_nil : utf8_cases ""
  | utf8_1 a s : in_range 0 127 a = true → utf8_valid s = true → utf8_cases (String a s)
  | utf8_2 a b s :
      in_range 0 127 a = false → in_range 194 223 a = true → is_cont b = true →
      utf8_valid s = true → utf8_cases (String a (String b s))
  | utf8_3 a b c s :
      in_range 0 127 a = false → in_range 194 223 a = false → in_range 224 239 a = true →
      second_ok a b = true → is_cont c = true → utf8_valid s = true →
      utf8_cases (String a (String b (String c s)))
  | utf8_4 a b c d s :
      in_range 0 127 a = false → in_range 194 223 a = false → in_range 224 239 a = false →
      in_range 240 244 a = true →
      second_ok a b = true → is_cont c = true → is_cont d = true → utf8_valid s = true →
      utf8_cases (String a (String b (String c (String d s)))).

Lemma utf8_valid_cases s : utf8_valid s = true → utf8_cases s.
Proof.
  intros Hv. destruct s as [|a s]; [constructor|]. cbn [utf8_valid] in Hv.
  destruct (in_range 0 127 a) eqn:H1; [by constructor|].
  destruct s as [|b s]; [done|]. destruct (in_range 194 223 a) eqn:H2.
  { boolify. by constructor. }
  destruct s as [|c s]; [done|]. destruct (in_range 224 239 a) eqn:H3.
  { boolify. by constructor. }
  destruct s as [|d s]; [done|]. destruct (in_range 240 244 a) eqn:H4; [|done].
  boolify. by constructor.
Qed.

Lemma utf8_valid_head s : utf8_valid s = true → cont_head s = false.
Proof.
  intros Hv%utf8_valid_cases. destruct Hv; cbn; [done|..].
  all: apply lead_not_cont; rewrite !orb_true_iff; auto.
Qed.

(** Past the first character, boundaries are those of the rest. *)
Lemma boundary_skip a n s :
  cont_head s = false → is_char_boundary (S n) (String a s) = is_char_boundary n s.
Proof.
  intros Hh. unfold is_char_boundary. cbn. destruct n as [|n]; [|done].
  cbn. destruct s as [|b s]; [done|]. cbn in *. by rewrite Hh.
Qed.

Lemma boundary_inside a n b s :
  String.get n s = Some b → is_cont b = true → is_char_boundary (S n) (String a s) = false.
Proof.
  intros Hg Hb. unfold is_char_boundary. cbn. rewrite Hg, Hb. cbn. rewrite orb_false_r.
  apply Nat.eqb_neq. intros ->. clear Hb. revert Hg. induction s as [|x s IH]; [done|]. exact IH.
Qed.

Lemma boundary_skip_cont a b n s :
  is_char_boundary (S (S n)) (String a (String b s)) = is_char_boundary (S n) (String b s).
Proof. done. Qed.

(** A prefix of a valid text is valid exactly when it ends between characters. *)
Lemma utf8_valid_prefix n s :
  utf8_valid s = true → n ≤ String.length s →
  utf8_valid (str_prefix n s) = is_char_boundary n s.
Proof.
  unfold str_prefix. revert n. induction s as [s IH] using
    (induction_ltof1 _ String.length). unfold ltof in IH. intros n Hv Hn.
  destruct n as [|n]; [by destruct s|]. destruct (utf8_valid_cases _ Hv) as
    [|a s H1 Hs|a b s H1 H2 Hb Hs|a b c s H1 H2 H3 Hab%second_ok_cont Hc Hs
     |a b c d s H1 H2 H3 H4 Hab%second_ok_cont Hc Hd Hs]; cbn in Hn; [lia|..];
    pose proof (utf8_valid_head _ Hs) as Hh.
  - rewrite boundary_skip by done. cbn. rewrite H1. apply IH; [cbn; lia|done|lia].
  - destruct n as [|n].
    { erewrite boundary_inside by done. cbn. by rewrite H1. }
    rewrite boundary_skip_cont, boundary_skip by done. cbn. rewrite H1, H2, Hb.
    apply IH; [cbn; lia|done|lia].
  - destruct n as [|[|n]].
    1-2: erewrite boundary_inside by done; cbn; rewrite H1; try done; by rewrite H2.
    rewrite !boundary_skip_cont, boundary_skip by done.
    pose proof (utf8_valid_head _ Hv). cbn in Hv |- *. rewrite H1, H2, H3 in *. boolify.
    repeat match goal with H : _ = true |- _ => rewrite H end. cbn.
    apply IH; [cbn; lia|done|lia].
  - destruct n as [|[|[|n]]].
    1-3: erewrite boundary_inside by done; cbn; rewrite H1; try done; rewrite H2; try done;
         by rewrite H3.
    rewrite !boundary_skip_cont, boundary_skip by done.
    cbn in Hv |- *. rewrite H1, H2, H3, H4 in *. boolify.
    repeat match goal with H : _ = true |- _ => rewrite H end. cbn.
    apply IH; [cbn; lia|done|lia].
Qed.

(** ** Lossy decoding *)

Lemma utf8_valid_1 a s : in_range 0 127 a = true → utf8_valid (String a s) = utf8_valid s.
Proof. intros Ha. cbn [utf8_valid]. by rewrite Ha. Qed.

Lemma utf8_valid_2 a b s :
  in_range 0 127 a = false → in_range 194 223 a = true →
  utf8_valid (String a (String b s)) = is_cont b && utf8_valid s.
Proof. intros H1 H2. cbn [utf8_valid]. by rewrite H1, H2. Qed.

Lemma utf8_valid_3 a b c s :
  in_range 0 127 a = false → in_range 194 223 a = false → in_range 224 239 a = true →
  utf8_valid (String a (String b (String c s))) = second_ok a b && is_cont c && utf8_valid s.
Proof. intros H1 H2 H3. cbn [utf8_valid]. by rewrite H1, H2, H3. Qed.

Lemma utf8_valid_4 a b c d s :
  in_range 0 127 a = false → in_range 194 223 a = false → in_range 224 239 a = false →
  in_range 240 244 a = true →
  utf8_valid (String a (String b (String c (String d s)))) =
    second_ok a b && is_cont c && is_cont d && utf8_valid s.
Proof. intros H1 H2 H3 H4. cbn [utf8_valid]. by rewrite H1, H2, H3, H4. Qed.

Lemma utf8_valid_replacement s : utf8_valid (replacement ++ s) = utf8_valid s.
Proof. reflexivity. Qed.

(** The decoded text is valid, and a valid text decodes to itself. *)
Lemma from_utf8_lossy_valid s : utf8_valid (from_utf8_lossy s) = true.
Proof.
  assert (∀ n s, String.length s ≤ n → utf8_valid (from_utf8_lossy s) = true) as H;
    [|by eapply H].
  clear s. intros n. induction n as [|n IH]; intros [|a s1] Hn; cbn in Hn; try done; [lia|].
  cbn [from_utf8_lossy]. destruct (in_range 0 127 a) eqn:H1.
  { rewrite utf8_valid_1 by done. apply IH. lia. }
  destruct (in_range 194 223 a) eqn:H2.
  { destruct s1 as [|b s2]; [done|]. cbn in Hn. destruct (is_cont b) eqn:Hb.
    - rewrite utf8_valid_2, Hb by done. apply IH. lia.
    - rewrite utf8_valid_replacement. apply IH. cbn. lia. }
  destruct (in_range 224 239 a) eqn:H3.
  { destruct s1 as [|b s2]; [done|]. cbn in Hn. destruct (second_ok a b) eqn:Hb.
    2: { rewrite utf8_valid_replacement. apply IH. cbn. lia. }
    destruct s2 as [|c s3]; [done|]. cbn in Hn. destruct (is_cont c) eqn:Hc.
    - rewrite utf8_valid_3, Hb, Hc by done. apply IH. lia.
    - rewrite utf8_valid_replacement. apply IH. cbn. lia. }
  destruct (in_range 240 244 a) eqn:H4.
  2: { rewrite utf8_valid_replacement. apply IH. lia. }
  destruct s1 as [|b s2]; [done|]. cbn in Hn. destruct (second_ok a b) eqn:Hb.
  2: { rewrite utf8_valid_replacement. apply IH. cbn. lia. }
  destruct s2 as [|c s3]; [done|]. cbn in Hn. destruct (is_cont c) eqn:Hc.
  2: { rewrite utf8_valid_replacement. apply IH. cbn. lia. }
  destruct s3 as [|d s4]; [done|]. cbn in Hn. destruct (is_cont d) eqn:Hd.
  - rewrite utf8_valid_4, Hb, Hc, Hd by done. apply IH. lia.
  - rewrite utf8_valid_replacement. apply IH. cbn. lia.
Qed.

Lemma from_utf8_lossy_id s : utf8_valid s = true → from_utf8_lossy s = s.
Proof.
  assert (∀ n s, String.length s ≤ n → utf8_valid s = true → from_utf8_lossy s = s) as H;
    [|by eapply H].
  clear s. intros n. induction n as [|n IH]; intros s Hn Hv.
  { by destruct s; [|cbn in Hn; lia]. }
  apply utf8_valid_cases in Hv.
  inversion Hv as [|a s1 H1 Hs|a b s1 H1 H2 Hb Hs|a b c s1 H1 H2 H3 Hb Hc Hs
                   |a b c d s1 H1 H2 H3 H4 Hb Hc Hd Hs]; subst s; cbn in Hn; cbn [from_utf8_lossy];
    repeat match goal with Hx : ?x = _ |- context [if ?x then _ else _] => rewrite Hx end;
    by rewrite ?IH by (done || lia).
Qed.

Lemma utf8_valid_app s t : utf8_valid s = true → utf8_valid (s ++ t) = utf8_valid t.
Proof.
  assert (∀ n s, String.length s ≤ n → utf8_valid s = true → utf8_valid (s ++ t) = utf8_valid t)
    as H; [|by eapply H].
  clear s. intros n. induction n as [|n IH]; intros s Hn Hv.
  { by destruct s; [|cbn in Hn; lia]. }
  apply utf8_valid_cases in Hv.
  inversion Hv as [|a s1 H1 Hs|a b s1 H1 H2 Hb Hs|a b c s1 H1 H2 H3 Hb Hc Hs
                   |a b c d s1 H1 H2 H3 H4 Hb Hc Hd Hs]; subst s; cbn in Hn; cbn [String.append].
  - done.
  - rewrite utf8_valid_1 by done. apply IH; [lia|done].
  - rewrite utf8_valid_2, Hb by done. apply IH; [lia|done].
  - rewrite utf8_valid_3, Hb, Hc by done. apply IH; [lia|done].
  - rewrite utf8_valid_4, Hb, Hc, Hd by done. apply IH; [lia|done].
Qed.

(** ** Plain ASCII text *)

Definition ascii_text (s : string) : Prop :=
  Forall (λ a, in_range 0 127 a = true) (String.list_ascii_of_string s).

Lemma chars_ascii_cons a s : in_range 0 127 a = true → ascii_text s →
  chars (String a s) = String a "" :: chars s.
Proof.
  intros _ Hs. rewrite chars_cons. destruct s as [|b s]; [done|].
  destruct (chars (String b s)) as [|c cs] eqn:Hc; [by apply chars_not_nil in Hc|].
  rewrite (chars_head _ _ _ _ Hc). apply Forall_cons in Hs as [Hb _].
  by rewrite lead_not_cont by (by rewrite Hb).
Qed.

Lemma ascii_text_app s t : ascii_text (s ++ t) ↔ ascii_text s ∧ ascii_text t.
Proof.
  unfold ascii_text. induction s as [|a s IH]; cbn.
  - split; [split; [constructor|done]|by intros [_ ?]].
  - rewrite !Forall_cons, IH. tauto.
Qed.

Lemma ascii_valid s : ascii_text s → utf8_valid s = true.
Proof.
  unfold ascii_text. induction s as [|a s IH]; [done|]. intros [Ha Hs]%Forall_cons.
  rewrite utf8_valid_1; auto.
Qed.

Lemma dec_ascii n : ascii_text (dec n).
Proof.
  assert (∀ x s, ascii_text s → ascii_text (pretty_N_go x s)) as Hgo.
  { intros x. induction (N.lt_wf_0 x) as [x _ IH]. intros s Hs.
    destruct (decide (0 < x)%N) as [Hx|Hx].
    - rewrite pretty_N_go_step by done. apply IH; [by apply N.div_lt|].
      unfold ascii_text. cbn. constructor; [|done]. unfold pretty_N_char. by repeat case_match.
    - assert (x = 0%N) as -> by lia. by rewrite pretty_N_go_0. }
  unfold dec, pretty, pretty_N. case_decide; [by repeat constructor|]. apply Hgo. constructor.
Qed.
