(* ===== verification/ToolSchema.v ===== *)
(** * Tool arguments and their schemas

    [crates/impetus-core/src/tool_schema.rs]: the builtin tools with the JSON
    schemas of their arguments, and the check of arguments against a schema
    that every tool call passes before policy sees it.  [JValue] is
    [serde_json::Value]: an integer is a number that [as_i64] or [as_u64]
    returns, another number is kept as its text; the fields of an object are
    listed in the order of the map. *)

From S2P Require Import Prelude Str.

Open Scope string_scope.
Open Scope nat_scope.
Open Scope list_scope.
Open Scope impetus_scope.

#[local] Set Warnings "-register-all".

(** ** JSON values *)

Inductive JValue :=
  | JNull
  | JBool (b : bool)
  | JInt (n : Z)
  | JFloat (text : string)
  | JString (s : string)
  | JArray (items : list JValue)
  | JObject (fields : list (string * JValue)).

Definition i64_max : Z := 9223372036854775807.

Definition as_object (v : JValue) : option (list (string * JValue)) :=
  match v with JObject fields => Some fields | _ => None end.
Definition as_array (v : JValue) : option (list JValue) :=
  match v with JArray items => Some items | _ => None end.
Definition as_str (v : JValue) : option string :=
  match v with JString s => Some s | _ => None end.
Definition as_bool (v : JValue) : option bool :=
  match v with JBool b => Some b | _ => None end.
Definition as_i64 (v : JValue) : option Z :=
  match v with JInt n => if (n <=? i64_max)%Z then Some n else None | _ => None end.
Definition as_u64 (v : JValue) : option N :=
  match v with JInt n => if (0 <=? n)%Z then Some (Z.to_N n) else None | _ => None end.

(** [Map::get] *)
Fixpoint field (key : string) (fields : list (string * JValue)) : option JValue :=
  match fields with
  | [] => None
  | (k, v) :: fields' => if String.eqb k key then Some v else field key fields'
  end.

(** [Value::get] with a name *)
Definition jget (v : JValue) (key : string) : option JValue := as_object v ≫= field key.

(** ** Schemas *)

Record ToolArgError := mkToolArgError { arg_tool : string; arg_reason : string }.

Record BuiltinToolSchema := mkBuiltinToolSchema {
  schema_name : string;
  schema_description : string;
  schema_parameters : JValue;
}.

Definition canonical_tool_name (name : string) : option string :=
  if bool_decide (name ∈ ["list_files"; "read_file"; "search"; "web_search"; "web_fetch";
                          "web_download"; "web_browser"; "web_submit"; "web_upload";
                          "goto_definition"]) then Some name
  else if bool_decide (name ∈ ["write_file"; "edit_file"]) then Some "write_file"
  else if bool_decide (name ∈ ["bash"; "shell"; "exec"]) then Some "bash"
  else None.

Definition object_schema (required : list string) (properties : list (string * JValue)) : JValue :=
  JObject [("type", JString "object"); ("additionalProperties", JBool false);
           ("required", JArray (JString <$> required)); ("properties", JObject properties)].

Definition string_prop (description : string) : JValue :=
  JObject [("type", JString "string"); ("minLength", JInt 1); ("description", JString description)].

Definition described (type : string) (rest : list (string * JValue)) (description : string) : JValue :=
  JObject ([("type", JString type)] ++ rest ++ [("description", JString description)]).

Definition schemas : list BuiltinToolSchema := [
  mkBuiltinToolSchema "list_files" "List workspace directory entries"
    (object_schema [] [("path", string_prop "Directory path relative to workspace (default: .)")]);
  mkBuiltinToolSchema "read_file" "Read a workspace file"
    (object_schema ["path"] [("path", string_prop "File path relative to workspace")]);
  mkBuiltinToolSchema "search" "Search workspace content"
    (object_schema ["pattern"]
       [("pattern", string_prop "Search pattern");
        ("path", string_prop "Optional root path relative to workspace")]);
  mkBuiltinToolSchema "write_file" "Create or overwrite a workspace file (policy-gated)"
    (object_schema ["path"; "content"]
       [("path", string_prop "File path relative to workspace");
        ("content", described "string" [] "File contents to write")]);
  mkBuiltinToolSchema "bash" "Run a shell command (policy-gated)"
    (object_schema ["command"] [("command", string_prop "Shell command to execute")]);
  mkBuiltinToolSchema "web_search" "Search the public web"
    (object_schema ["query"]
       [("query", string_prop "Search query");
        ("max_results", described "integer" [("minimum", JInt 1)] "Maximum number of results");
        ("locale", described "string" [] "Optional locale hint");
        ("safe_search", described "string" [] "Safe search preference");
        ("backend", JObject [("description",
           JString "Search backend preference (string or tagged object)")])]);
  mkBuiltinToolSchema "web_fetch" "Fetch a public URL"
    (object_schema ["url"]
       [("url", string_prop "Absolute http(s) URL");
        ("max_bytes", JObject [("type", JString "integer"); ("minimum", JInt 1)]);
        ("max_chars", JObject [("type", JString "integer"); ("minimum", JInt 1)]);
        ("include_links", JObject [("type", JString "boolean")]);
        ("allow_binary_metadata", JObject [("type", JString "boolean")])]);
  mkBuiltinToolSchema "web_download"
    "Download a remote file (policy-gated; executor may be unavailable)"
    (object_schema ["url"]
       [("url", string_prop "Absolute http(s) URL");
        ("path", string_prop "Optional destination path")]);
  mkBuiltinToolSchema "web_browser"
    "Open a browser session (policy-gated; executor may be unavailable)"
    (object_schema ["url"] [("url", string_prop "Absolute http(s) URL")]);
  mkBuiltinToolSchema "web_submit"
    "Submit a web form (policy-gated; executor may be unavailable)"
    (object_schema ["url"]
       [("url", string_prop "Absolute http(s) URL");
        ("body", JObject [("description", JString "Optional form payload")])]);
  mkBuiltinToolSchema "web_upload"
    "Upload a file over the web (policy-gated; executor may be unavailable)"
    (object_schema ["url"; "path"]
       [("url", string_prop "Absolute http(s) URL");
        ("path", string_prop "Local file path to upload")]);
  mkBuiltinToolSchema "goto_definition"
    "Resolve symbol definition via coding-tools provider (paths/ranges only)"
    (object_schema ["path"; "line"; "character"]
       [("path", string_prop "File path relative to workspace");
        ("line", described "integer" [("minimum", JInt 0)] "Zero-based line");
        ("character", described "integer" [("minimum", JInt 0)] "Zero-based character offset")])
].

Definition schema_for_tool (name : string) : option BuiltinToolSchema :=
  canonical ← canonical_tool_name name;
  List.find (λ s, String.eqb (schema_name s) canonical) schemas.

(** ** Validation *)

Definition value_type_name (v : JValue) : string :=
  match v with
  | JNull => "null"
  | JBool _ => "boolean"
  | JInt _ | JFloat _ => "number"
  | JString _ => "string"
  | JArray _ => "array"
  | JObject _ => "object"
  end.

Definition value_matches_type (v : JValue) (expected : string) : bool :=
  if String.eqb expected "object" then match v with JObject _ => true | _ => false end
  else if String.eqb expected "string" then match v with JString _ => true | _ => false end
  else if String.eqb expected "integer" then match v with JInt _ => true | _ => false end
  else if String.eqb expected "number" then
    match v with JInt _ | JFloat _ => true | _ => false end
  else if String.eqb expected "boolean" then match v with JBool _ => true | _ => false end
  else if String.eqb expected "array" then match v with JArray _ => true | _ => false end
  else if String.eqb expected "null" then match v with JNull => true | _ => false end
  else true.

Definition schema_type (schema_obj : list (string * JValue)) : option string :=
  field "type" schema_obj ≫= as_str.

Definition expected_type_is (schema_obj : list (string * JValue)) (expected : string) : bool :=
  match schema_type schema_obj with Some t => String.eqb t expected | None => false end.

Definition check_type (tool : string) (v : JValue) (schema_obj : list (string * JValue))
    : result ToolArgError () :=
  match schema_type schema_obj with
  | Some expected =>
      if value_matches_type v expected then Ok tt
      else Err (mkToolArgError tool
             ("expected type `" ++ expected ++ "`, got `" ++ value_type_name v ++ "`"))
  | None => Ok tt
  end.

(** The [for] over [required]. *)
Fixpoint check_required (tool : string) (obj : list (string * JValue)) (required : list JValue)
    : result ToolArgError () :=
  match required with
  | [] => Ok tt
  | key :: required' =>
      match as_str key with
      | None => check_required tool obj required'
      | Some name =>
          match field name obj with
          | None => Err (mkToolArgError tool ("missing required property `" ++ name ++ "`"))
          | Some _ => check_required tool obj required'
          end
      end
  end.

(** The [for] over the fields of the value. *)
Definition check_fields (validate : JValue → JValue → result ToolArgError ()) (tool : string)
    (properties : list (string * JValue)) (additional : bool)
    : list (string * JValue) → result ToolArgError () :=
  fix go obj :=
    match obj with
    | [] => Ok tt
    | (key, v) :: obj' =>
        match field key properties with
        | Some prop_schema =>
            match validate v prop_schema with
            | Ok _ => go obj'
            | Err err =>
                Err (mkToolArgError tool ("property `" ++ key ++ "`: " ++ arg_reason err))
            end
        | None =>
            if additional then go obj'
            else Err (mkToolArgError tool ("unexpected property `" ++ key ++ "`"))
        end
    end.

Definition validate_object (validate : JValue → JValue → result ToolArgError ()) (tool : string)
    (obj schema_obj : list (string * JValue)) : result ToolArgError () :=
  _ ← check_required tool obj (default [] (field "required" schema_obj ≫= as_array));
  check_fields validate tool
    (default [] (field "properties" schema_obj ≫= as_object))
    (default true (field "additionalProperties" schema_obj ≫= as_bool)) obj.

Definition check_min_length (tool : string) (v : JValue) (schema_obj : list (string * JValue))
    : result ToolArgError () :=
  match field "minLength" schema_obj ≫= as_u64 with
  | Some min_length =>
      let len := match as_str v with Some s => N.of_nat (chars_count s) | None => 0%N end in
      if (len <? min_length)%N
      then Err (mkToolArgError tool ("string shorter than minLength " ++ dec min_length))
      else Ok tt
  | None => Ok tt
  end.

Definition check_minimum (tool : string) (v : JValue) (schema_obj : list (string * JValue))
    : result ToolArgError () :=
  match field "minimum" schema_obj ≫= as_i64 with
  | Some minimum =>
      match as_i64 v with
      | None => Err (mkToolArgError tool "expected integer value")
      | Some n =>
          if (n <? minimum)%Z
          then Err (mkToolArgError tool ("integer below minimum " ++ pretty minimum))
          else Ok tt
      end
  | None => Ok tt
  end.

Fixpoint validate_against_schema (tool : string) (v schema : JValue) {struct v}
    : result ToolArgError () :=
  match as_object schema with
  | None => Err (mkToolArgError tool "internal schema is not an object")
  | Some schema_obj =>
      _ ← check_type tool v schema_obj;
      _ ← (if expected_type_is schema_obj "object" then
             match v with
             | JObject obj => validate_object (validate_against_schema tool) tool obj schema_obj
             | _ => Err (mkToolArgError tool "arguments must be a JSON object")
             end
           else Ok tt);
      _ ← (if expected_type_is schema_obj "string" then check_min_length tool v schema_obj
           else Ok tt);
      (if expected_type_is schema_obj "integer" then check_minimum tool v schema_obj else Ok tt)
  end.

Definition validate_tool_arguments (tool_name : string) (arguments : JValue)
    : result ToolArgError () :=
  match schema_for_tool tool_name with
  | None => Err (mkToolArgError tool_name "unknown tool (no schema registered)")
  | Some schema => validate_against_schema tool_name arguments (schema_parameters schema)
  end.

(** The check of live MCP tools. *)
Definition validate_arguments_with_schema := validate_against_schema.

(** ** What the builtin schemas accept *)

(** The types of arguments the builtin schemas use. *)
Inductive ArgType := ArgText (least : nat) | ArgInt (least : Z) | ArgBool | ArgAny.

Definition arg_ok (t : ArgType) (v : JValue) : Prop :=
  match t with
  | ArgText least => ∃ s, v = JString s ∧ least ≤ chars_count s
  | ArgInt least => ∃ n, v = JInt n ∧ (least ≤ n ≤ i64_max)%Z
  | ArgBool => ∃ b, v = JBool b
  | ArgAny => True
  end.

(** Required names, and the type of every name that may occur. *)
Definition tool_shape (canonical : string) : option (list string * list (string * ArgType)) :=
  List.find (λ p : string * (list string * list (string * ArgType)), String.eqb p.1 canonical) [
    ("list_files", ([], [("path", ArgText 1)]));
    ("read_file", (["path"], [("path", ArgText 1)]));
    ("search", (["pattern"], [("pattern", ArgText 1); ("path", ArgText 1)]));
    ("write_file", (["path"; "content"], [("path", ArgText 1); ("content", ArgText 0)]));
    ("bash", (["command"], [("command", ArgText 1)]));
    ("web_search", (["query"],
       [("query", ArgText 1); ("max_results", ArgInt 1); ("locale", ArgText 0);
        ("safe_search", ArgText 0); ("backend", ArgAny)]));
    ("web_fetch", (["url"],
       [("url", ArgText 1); ("max_bytes", ArgInt 1); ("max_chars", ArgInt 1);
        ("include_links", ArgBool); ("allow_binary_metadata", ArgBool)]));
    ("web_download", (["url"], [("url", ArgText 1); ("path", ArgText 1)]));
    ("web_browser", (["url"], [("url", ArgText 1)]));
    ("web_submit", (["url"], [("url", ArgText 1); ("body", ArgAny)]));
    ("web_upload", (["url"; "path"], [("url", ArgText 1); ("path", ArgText 1)]));
    ("goto_definition", (["path"; "line"; "character"],
       [("path", ArgText 1); ("line", ArgInt 0); ("character", ArgInt 0)]))
  ] ≫= λ p, Some p.2.

Definition shape_ok (required : list string) (types : list (string * ArgType)) (v : JValue) : Prop :=
  ∃ fields, v = JObject fields ∧
    (∀ name, name ∈ required → name ∈ fields.*1) ∧
    (∀ name x, (name, x) ∈ fields → ∃ t, (name, t) ∈ types ∧ arg_ok t x).

Lemma field_none key fields : field key fields = None ↔ key ∉ fields.*1.
Proof.
  induction fields as [|[k v] fields IH]; cbn; [set_solver|].
  destruct (String.eqb_spec k key); set_solver.
Qed.

Lemma field_in key fields v : field key fields = Some v → (key, v) ∈ fields.
Proof.
  induction fields as [|[k w] fields IH]; cbn; [done|].
  destruct (String.eqb_spec k key); [intros [= ->]|]; set_solver.
Qed.

Lemma check_required_ok tool obj names :
  check_required tool obj (JString <$> names) = Ok tt ↔ ∀ name, name ∈ names → name ∈ obj.*1.
Proof.
  induction names as [|n names IH]; cbn; [set_solver|].
  destruct (field n obj) as [v|] eqn:Hn.
  - apply field_in, (list_elem_of_fmap_2 fst) in Hn. cbn in Hn. rewrite IH. set_solver.
  - apply field_none in Hn. split; [done|]. intros H. destruct Hn. apply H. set_solver.
Qed.

Lemma check_fields_ok validate tool properties obj :
  check_fields validate tool properties false obj = Ok tt ↔
    ∀ name x, (name, x) ∈ obj →
      ∃ p, field name properties = Some p ∧ validate x p = Ok tt.
Proof.
  induction obj as [|[k v] obj IH]; cbn; [set_solver|].
  destruct (field k properties) as [p|] eqn:Hk.
  - destruct (validate v p) as [[]|err] eqn:Hv.
    + rewrite IH. set_solver.
    + split; [done|]. intros H. destruct (H k v) as (q & ? & ?); [set_solver|]. congruence.
  - split; [done|]. intros H. destruct (H k v) as (q & ? & _); [set_solver|]. congruence.
Qed.

Lemma validate_object_schema tool v required properties :
  validate_against_schema tool v (object_schema required properties) = Ok tt ↔
    ∃ fields, v = JObject fields ∧ (∀ name, name ∈ required → name ∈ fields.*1) ∧
      ∀ name x, (name, x) ∈ fields →
        ∃ p, field name properties = Some p ∧ validate_against_schema tool x p = Ok tt.
Proof.
  destruct v as [| | | | | |fields]; cbn; try (split; [done|naive_solver]).
  unfold validate_object. cbn.
  pose proof (check_required_ok tool fields required) as Hr.
  pose proof (check_fields_ok (validate_against_schema tool) tool properties fields) as Hf.
  destruct (check_required tool fields (JString <$> required)) as [[]|err]; cbn.
  - destruct (check_fields (validate_against_schema tool) tool properties false fields)
      as [[]|err]; cbn; naive_solver.
  - split; [done|]. intros (? & [= <-] & Hreq & _). by apply Hr in Hreq.
Qed.

(** A property schema that accepts exactly the values of a type. *)
Definition accepts (p : JValue) (t : ArgType) : Prop :=
  ∀ tool v, validate_against_schema tool v p = Ok tt ↔ arg_ok t v.

Lemma accepts_string_prop d : accepts (string_prop d) (ArgText 1).
Proof.
  intros tool [| | | |s| |]; cbn; try naive_solver.
  unfold check_min_length. cbn. destruct (N.ltb_spec (N.of_nat (chars_count s)) 1) as [?|?].
  - split; [done|]. intros (? & [= <-] & ?). lia.
  - split; [|done]. intros _. exists s. split; [done|lia].
Qed.

Lemma accepts_string d : accepts (described "string" [] d) (ArgText 0).
Proof.
  intros tool [| | | |s| |]; cbn; try naive_solver. split; [|done]. exists s. split; [done|lia].
Qed.

Lemma accepts_minimum schema_obj least :
  field "type" schema_obj = Some (JString "integer") →
  field "minimum" schema_obj = Some (JInt least) → (least ≤ i64_max)%Z →
  accepts (JObject schema_obj) (ArgInt least).
Proof.
  intros Ht Hm Hl tool v.
  assert (schema_type schema_obj = Some "integer") as Hs by (unfold schema_type; by rewrite Ht).
  destruct v as [| |n| | | |]; cbn; unfold check_type, expected_type_is; rewrite Hs; cbn;
    try (split; [done|naive_solver]).
  unfold check_minimum. rewrite Hm. cbn. rewrite (proj2 (Z.leb_le _ _) Hl). cbn.
  destruct (Z.leb_spec n i64_max); cbn.
  - destruct (Z.ltb_spec n least); [split; [done|]; intros (? & [= <-] & ?); lia|].
    split; [|done]. intros _. exists n. split; [done|lia].
  - split; [done|]. intros (? & [= <-] & ?). lia.
Qed.

Lemma accepts_boolean : accepts (JObject [("type", JString "boolean")]) ArgBool.
Proof. intros tool []; cbn; naive_solver. Qed.

Lemma accepts_any d : accepts (JObject [("description", JString d)]) ArgAny.
Proof. intros tool []; cbn; naive_solver. Qed.

Create HintDb schemas.
#[export] Hint Resolve accepts_string_prop accepts_string accepts_boolean accepts_any : schemas.
#[export] Hint Extern 1 (accepts (JObject _) (ArgInt _)) =>
  apply accepts_minimum; [reflexivity | reflexivity | unfold i64_max; lia] : schemas.
#[export] Hint Extern 1 (accepts (described "integer" _ _) (ArgInt _)) =>
  apply accepts_minimum; [reflexivity | reflexivity | unfold i64_max; lia] : schemas.

(** The properties of a schema accept the types of a shape, name by name. *)
Lemma validate_shape tool v required properties types :
  Forall2 (λ p t, p.1 = t.1 ∧ accepts p.2 t.2) properties types → NoDup (types.*1) →
  validate_against_schema tool v (object_schema required properties) = Ok tt ↔
    shape_ok required types v.
Proof.
  intros Hall Hnd. rewrite validate_object_schema.
  assert (∀ name x, (∃ p, field name properties = Some p ∧
                          validate_against_schema tool x p = Ok tt) ↔
                    ∃ t, (name, t) ∈ types ∧ arg_ok t x) as Hiff.
  { intros name x. induction Hall as [|[n p] [n' t] props types [E Ha] Hall IH]; cbn.
    - set_solver.
    - cbn in E, Ha. subst n'. apply NoDup_cons in Hnd as [Hn Hnd]. specialize (IH Hnd).
      destruct (String.eqb_spec n name) as [->|Hne].
      + setoid_rewrite elem_of_cons. split.
        * intros (? & [= <-] & Hv). exists t. split; [by left|]. by apply Ha in Hv.
        * intros (t' & [[= ->]|Ht'] & Hok); [exists p; split; [done|by apply (Ha tool)]|].
          by destruct Hn; apply (list_elem_of_fmap_2 fst) in Ht'.
      + rewrite IH. setoid_rewrite elem_of_cons. naive_solver. }
  unfold shape_ok. by setoid_rewrite Hiff.
Qed.

Ltac schema_case :=
  eexists _, _; split; [reflexivity|]; intros tool v; apply validate_shape;
  [repeat (apply List.Forall2_cons; [split; [done | cbn [snd]; solve [eauto with schemas]]|]);
   apply List.Forall2_nil
  | by apply (bool_decide_unpack _)].

Lemma schema_has_shape name s :
  schema_for_tool name = Some s →
  ∃ required types, tool_shape (schema_name s) = Some (required, types) ∧
    ∀ tool v, validate_against_schema tool v (schema_parameters s) = Ok tt ↔
              shape_ok required types v.
Proof.
  unfold schema_for_tool. intros (canonical & _ & [Hs _]%find_some_elem)%bind_Some.
  repeat (apply elem_of_cons in Hs as [->|Hs]; [solve [schema_case]|]).
  by apply elem_of_nil in Hs.
Qed.

Lemma schema_of_canonical name :
  is_Some (schema_for_tool name) ↔ is_Some (canonical_tool_name name).
Proof.
  unfold schema_for_tool. split.
  - intros [s (c & -> & _)%bind_Some]. done.
  - unfold canonical_tool_name. repeat case_bool_decide; intros [c [= <-]]; try by eexists.
    set_unfold. repeat (destruct_or?; subst); by eexists.
Qed.

Lemma schema_for_tool_name name s :
  schema_for_tool name = Some s → canonical_tool_name name = Some (schema_name s).
Proof.
  unfold schema_for_tool. intros (c & -> & [_ Hc]%find_some_elem)%bind_Some.
  by apply String.eqb_eq in Hc as ->.
Qed.

(** ** Properties *)

(** A tool call passes the schema gate exactly when the tool is a builtin
    one (under its name or an alias) and the arguments are an object that has
    every required name, no name the tool does not know, and under each name a
    value of its type: paths, commands, patterns, queries and addresses are
    non-empty texts, counts are integers in their range. *)
Theorem validate_tool_arguments_exact name arguments :
  validate_tool_arguments name arguments = Ok tt ↔
    ∃ canonical required types,
      canonical_tool_name name = Some canonical ∧
      tool_shape canonical = Some (required, types) ∧
      shape_ok required types arguments.
Proof.
  unfold validate_tool_arguments. destruct (schema_for_tool name) as [s|] eqn:Hs.
  - destruct (schema_has_shape _ _ Hs) as (required & types & Hshape & ->).
    apply schema_for_tool_name in Hs. split; [naive_solver|].
    intros (c & r & t & Hc & Ht & Hok). congruence.
  - split; [done|]. intros (c & r & t & Hc & _). exfalso.
    destruct (proj2 (schema_of_canonical name)); [by eexists|]. congruence.
Qed.

Lemma arg_text canonical required types least arg name arguments :
  canonical_tool_name name = Some canonical → tool_shape canonical = Some (required, types) →
  validate_tool_arguments name arguments = Ok tt →
  arg ∈ required → (∀ t, (arg, t) ∈ types → t = ArgText least) →
  ∃ s, jget arguments arg ≫= as_str = Some s ∧ least ≤ chars_count s.
Proof.
  intros Hc Hs Hv Hreq Hty.
  unfold validate_tool_arguments in Hv. destruct (schema_for_tool name) as [s|] eqn:Hn; [|done].
  destruct (schema_has_shape _ _ Hn) as (r & t & Hs' & Hiff).
  apply Hiff in Hv as (obj & -> & Hr & Ht). apply schema_for_tool_name in Hn. simplify_eq.
  destruct (field arg obj) as [x|] eqn:Hf.
  - cbn. rewrite Hf. cbn. destruct (Ht arg x) as (ty & Hin & Hok); [by apply field_in|].
    apply Hty in Hin as ->. destruct Hok as (u & -> & ?). by exists u.
  - apply field_none in Hf. by apply Hr in Hreq.
Qed.

Example schema_rejects_unknown_field :
  validate_tool_arguments "shell" (JObject [("command", JString "ls"); ("cwd", JString "/")])
  = Err (mkToolArgError "shell" "unexpected property `cwd`").
Proof. reflexivity. Qed.

Example schema_accepts_call :
  validate_tool_arguments "edit_file" (JObject [("path", JString "a"); ("content", JString "")])
  = Ok tt.
Proof. reflexivity. Qed.
