(* ===== verification/Action.v ===== *)
(** * Actions, approvals and policy documents

    The wire types of [crates/impetus-protocol/src/types.rs] that the trusted
    kernel decides on: execution modes, action kinds and origins, actions and
    their fingerprints, policy decisions and the user policy document, approval
    requests and their resolutions, the governed-instruction store.

    Third-party code appears as fields of the class [Codec]: the SHA-256 digest
    of the sha2 crate and the JSON encoders and decoders of serde.  What the
    code relies on is in [CodecLaws]. *)

From S2P Require Import Prelude Str.

Open Scope string_scope.
Open Scope nat_scope.
Open Scope list_scope.

(** Version 4 UUIDs are opaque 128-bit labels; [Uuid::new_v4] is an argument of
    the operations that call it. *)
Abbreviation Uuid := N (only parsing).

(** The uuid crate's text form: [Display] and [Uuid::parse_str]. *)
Class UuidText := {
  uuid_to_string : Uuid → string;
  uuid_parse_str : string → option Uuid;
}.

(** Parsing reads back what [Display] prints. *)
Class UuidTextLaws `{UuidText} := {
  uuid_parse_display u : uuid_parse_str (uuid_to_string u) = Some u;
}.

(** ** Execution mode *)

Inductive ExecutionMode := Ask | Plan | AcceptEdits | Auto | Bypass.

#[export] Instance ExecutionMode_eq_dec : EqDecision ExecutionMode.
Proof. solve_decision. Defined.

Definition ExecutionMode_label (m : ExecutionMode) : string :=
  match m with
  | Ask => "ASK" | Plan => "PLAN" | AcceptEdits => "ACCEPT EDITS"
  | Auto => "AUTO" | Bypass => "BYPASS"
  end.

Definition is_mutating_tool_allowed (m : ExecutionMode) : bool :=
  match m with Plan => false | _ => true end.

Definition cycle_next (m : ExecutionMode) : ExecutionMode :=
  match m with
  | Ask => AcceptEdits
  | AcceptEdits => Plan
  | Plan => Auto
  | Auto | Bypass => Ask
  end.

Definition required_ipc_capability (m : ExecutionMode) : option string :=
  match m with
  | AcceptEdits => Some "approval_scope_file_edits"
  | Bypass => Some "approval_scope_full_auto"
  | _ => None
  end.

(** ** Actions *)

Inductive ActionOrigin := User | Agent.

#[export] Instance ActionOrigin_eq_dec : EqDecision ActionOrigin.
Proof. solve_decision. Defined.

Inductive ActionKind :=
  | ReadFile | WriteFile | SpawnProcess | NetworkConnect | SshConnect
  | SftpTransfer | TmuxAttach | WebSearch | WebFetch | WebDownload
  | WebBrowser | WebSubmit | WebUpload.

#[export] Instance ActionKind_eq_dec : EqDecision ActionKind.
Proof. solve_decision. Defined.

Definition ActionKind_all : list ActionKind :=
  [ReadFile; WriteFile; SpawnProcess; NetworkConnect; SshConnect; SftpTransfer;
   TmuxAttach; WebSearch; WebFetch; WebDownload; WebBrowser; WebSubmit; WebUpload].

(** Position in the declaration, the order [BTreeMap] keys use. *)
Definition ActionKind_index (k : ActionKind) : nat :=
  match k with
  | ReadFile => 0 | WriteFile => 1 | SpawnProcess => 2 | NetworkConnect => 3
  | SshConnect => 4 | SftpTransfer => 5 | TmuxAttach => 6 | WebSearch => 7
  | WebFetch => 8 | WebDownload => 9 | WebBrowser => 10 | WebSubmit => 11
  | WebUpload => 12
  end.

#[export] Program Instance ActionKind_countable : Countable ActionKind :=
  inj_countable ActionKind_index (λ n, ActionKind_all !! n) _.
Next Obligation. by intros []. Qed.

Inductive ExecutionSemantics := ReadOnly | Idempotent | Mutating | NonReplayable.

#[export] Instance ExecutionSemantics_eq_dec : EqDecision ExecutionSemantics.
Proof. solve_decision. Defined.

Definition execution_semantics (k : ActionKind) : ExecutionSemantics :=
  match k with
  | ReadFile => ReadOnly
  | WriteFile => Mutating
  | SpawnProcess => NonReplayable
  | NetworkConnect => Idempotent
  | SshConnect => NonReplayable
  | SftpTransfer => Mutating
  | TmuxAttach => NonReplayable
  | WebSearch => Idempotent
  | WebFetch => ReadOnly
  | WebDownload => Mutating
  | WebBrowser => NonReplayable
  | WebSubmit => Mutating
  | WebUpload => Mutating
  end.

Definition can_parallelize (k : ActionKind) : bool :=
  match execution_semantics k with
  | ReadOnly | Idempotent => true
  | _ => false
  end.

Record Action := mkAction {
  origin : ActionOrigin;
  kind : ActionKind;
  summary : string;
  target : option string;
}.

#[export] Instance Action_eq_dec : EqDecision Action.
Proof. solve_decision. Defined.

(** ** Third-party codecs *)

Class Codec := {
  (** [Sha256::digest] *)
  sha256 : string → list ascii;
  (** [serde_json::to_vec] on an [Action], and the decoder serde derives. *)
  action_json : Action → string;
  action_of_json : string → option Action;
}.

Definition has_byte (a : ascii) (s : string) : bool :=
  existsb (Ascii.eqb a) (String.list_ascii_of_string s).

Class CodecLaws `{Codec} := {
  (** serde derives mutually inverse encoders and decoders. *)
  action_json_roundtrip a : action_of_json (action_json a) = Some a;
  (** JSON text escapes control characters, so it holds no NUL byte. *)
  action_json_no_nul a : has_byte zero (action_json a) = false;
}.

(** ** Fingerprints *)

Definition hex_digit (n : N) : ascii :=
  ascii_of_N (if (n <? 10)%N then 48 + n else 87 + n).

(** [format!("{byte:02x}")] on every byte. *)
Fixpoint hex (l : list ascii) : string :=
  match l with
  | [] => ""
  | a :: l' => String (hex_digit (byte a `div` 16)) (String (hex_digit (byte a `mod` 16)) (hex l'))
  end.

Definition nul : string := String zero "".

Abbreviation ActionFingerprint := string (only parsing).

Definition fingerprint_payload `{Codec} (a : Action) (version : option N) : string :=
  match version with
  | Some v => action_json a ++ (nul ++ "version:") ++ dec v
  | None => action_json a
  end.

Definition for_action_with_version `{Codec} (a : Action) (version : option N)
    : ActionFingerprint :=
  hex (sha256 (("impetus-action-v1" ++ nul) ++ fingerprint_payload a version)).

Definition for_action `{Codec} (a : Action) : ActionFingerprint :=
  for_action_with_version a None.

Definition Action_fingerprint `{Codec} (a : Action) : ActionFingerprint := for_action a.

(** ** Policy decisions and the user policy document *)

Inductive PolicyDecision :=
  | Policy_Allow
  | Policy_NeedsApproval (reason : string)
  | Policy_Deny (reason : string).

#[export] Instance PolicyDecision_eq_dec : EqDecision PolicyDecision.
Proof. solve_decision. Defined.

Definition POLICY_CONFIG_VERSION : N := 1.

Inductive PolicyConfigDecision := Config_Allow | Config_Deny | Config_NeedsApproval.

#[export] Instance PolicyConfigDecision_eq_dec : EqDecision PolicyConfigDecision.
Proof. solve_decision. Defined.

Definition to_decision (d : PolicyConfigDecision) : PolicyDecision :=
  match d with
  | Config_Allow => Policy_Allow
  | Config_Deny => Policy_Deny "denied by user policy config"
  | Config_NeedsApproval => Policy_NeedsApproval "requires approval per user policy config"
  end.

Record PolicyConfig := mkPolicyConfig {
  config_version : N;
  config_overrides : gmap ActionKind PolicyConfigDecision;
}.

Inductive PolicyConfigError :=
  | ConfigIo
  | ConfigJson
  | ConfigUnsupportedVersion (v : N).

Definition PolicyConfig_validate (c : PolicyConfig) : result PolicyConfigError () :=
  if (config_version c =? POLICY_CONFIG_VERSION)%N then Ok tt
  else Err (ConfigUnsupportedVersion (config_version c)).

(** [from_str] is serde's decoder, [read] the file content if it can be read. *)
Definition PolicyConfig_parse (from_str : string → option PolicyConfig) (json : string)
    : result PolicyConfigError PolicyConfig :=
  c ← ok_or (from_str json) ConfigJson;
  _ ← PolicyConfig_validate c;
  Ok c.

Definition PolicyConfig_load_from_path (from_str : string → option PolicyConfig)
    (read : option string) : result PolicyConfigError PolicyConfig :=
  raw ← ok_or read ConfigIo;
  PolicyConfig_parse from_str raw.

Definition PolicyConfig_load_optional (from_str : string → option PolicyConfig)
    (path_exists : bool) (read : option string) : result PolicyConfigError PolicyConfig :=
  if path_exists then PolicyConfig_load_from_path from_str read
  else Ok (mkPolicyConfig POLICY_CONFIG_VERSION ∅).

Definition override_for (c : PolicyConfig) (k : ActionKind) : option PolicyConfigDecision :=
  config_overrides c !! k.

(** ** Governed instructions *)

Definition POLICY_STORE_VERSION : N := 1.

Inductive InstructionKind := Soul | ProjectRules | Convention | Guide | Skill.

Record GovernedInstructionRef := mkGoverned {
  governed_id : string;
  governed_label : string;
  governed_kind : option InstructionKind;
  governed_instruction_id : option string;
}.

Record PolicyStore := mkPolicyStore {
  store_version : N;
  store_instructions : list GovernedInstructionRef;
}.

Inductive PolicyStoreError :=
  | StoreUnsupportedVersion (v : N)
  | StoreDuplicateId (id : string)
  | StoreEmptyId
  | StoreEmptyLabel.

#[export] Instance PolicyStoreError_eq_dec : EqDecision PolicyStoreError.
Proof. solve_decision. Defined.

Definition looks_secret (text : string) : bool :=
  contains text "sk-" || contains (to_ascii_lowercase text) "password".

Fixpoint PolicyStore_validate_entries (seen : gset string) (l : list GovernedInstructionRef)
    : result PolicyStoreError () :=
  match l with
  | [] => Ok tt
  | e :: l' =>
      if is_empty (trim (governed_id e)) then Err StoreEmptyId
      else if is_empty (trim (governed_label e)) then Err StoreEmptyLabel
      else if bool_decide (governed_id e ∈ seen) then Err (StoreDuplicateId (governed_id e))
      else if existsb looks_secret [governed_id e; governed_label e] then Err StoreEmptyLabel
      else PolicyStore_validate_entries ({[governed_id e]} ∪ seen) l'
  end.

Definition PolicyStore_validate (s : PolicyStore) : result PolicyStoreError () :=
  if (store_version s =? POLICY_STORE_VERSION)%N
  then PolicyStore_validate_entries ∅ (store_instructions s)
  else Err (StoreUnsupportedVersion (store_version s)).

Definition governed_ids (s : PolicyStore) : list string :=
  governed_id <$> store_instructions s.

(** [references] are the ids of the resolved instruction references. *)
Definition governed_ids_in (s : PolicyStore) (references : list string) : list string :=
  let governed : gset string :=
    list_to_set (omap governed_instruction_id (store_instructions s)) in
  filter (λ id, id ∈ governed) references.

(** ** Approvals *)

Abbreviation ApprovalId := N (only parsing).

Inductive ApprovalState := Pending | Approved | Rejected.

#[export] Instance ApprovalState_eq_dec : EqDecision ApprovalState.
Proof. solve_decision. Defined.

Inductive ApprovalResolver := Resolver_User | Resolver_Agent.

#[export] Instance ApprovalResolver_eq_dec : EqDecision ApprovalResolver.
Proof. solve_decision. Defined.

Record ApprovalRequest := mkApprovalRequest {
  approval_id : ApprovalId;
  approval_action : Action;
  approval_fingerprint : ActionFingerprint;
  approval_capability_version : option N;
  approval_intent_revision : N;
  approval_reason : string;
  approval_state : ApprovalState;
}.

#[export] Instance ApprovalRequest_eq_dec : EqDecision ApprovalRequest.
Proof. solve_decision. Defined.

Record ApprovalResolution := mkApprovalResolution {
  resolution_id : ApprovalId;
  resolution_fingerprint : ActionFingerprint;
  resolution_intent_revision : N;
  resolution_accepted : bool;
  resolution_resolver : ApprovalResolver;
}.

Definition ApprovalResolution_user (r : ApprovalRequest) (accepted : bool)
    : ApprovalResolution :=
  mkApprovalResolution (approval_id r) (approval_fingerprint r)
    (approval_intent_revision r) accepted Resolver_User.

Definition pending_with_version `{Codec} (new_id : Uuid) (a : Action) (reason : string)
    (intent_revision : N) (version : option N) : ApprovalRequest :=
  mkApprovalRequest new_id a (for_action_with_version a version) version
    intent_revision reason Pending.

Definition pending `{Codec} (new_id : Uuid) (a : Action) (reason : string)
    (intent_revision : N) : ApprovalRequest :=
  pending_with_version new_id a reason intent_revision None.

(** ** Properties *)

Lemma ActionKind_all_complete k : k ∈ ActionKind_all.
Proof. destruct k; cbn; set_solver. Qed.

(** Cycling through the modes from the keyboard never lands on [Bypass]. *)
Lemma cycle_next_not_bypass m : cycle_next m ≠ Bypass.
Proof. by destruct m. Qed.

Lemma hex_digit_inj n m :
  (n < 16)%N → (m < 16)%N → hex_digit n = hex_digit m → n = m.
Proof.
  intros Hn Hm H. apply (f_equal N_of_ascii) in H. unfold hex_digit in H.
  rewrite !N_ascii_embedding in H; repeat case_match; lia.
Qed.

Lemma hex_inj l1 l2 : hex l1 = hex l2 → l1 = l2.
Proof.
  revert l2. induction l1 as [|a l1 IH]; intros [|b l2]; [done..|]. cbn.
  intros [= Hd Hm Hl]. f_equal; [|by apply IH].
  assert (byte a < 256 ∧ byte b < 256)%N as [Ha Hb].
  { split; apply N_ascii_bounded. }
  apply hex_digit_inj in Hd; [|apply N.Div0.div_lt_upper_bound; lia..].
  apply hex_digit_inj in Hm; [|apply N.mod_lt; lia..].
  rewrite <-(ascii_N_embedding a), <-(ascii_N_embedding b). f_equal.
  pose proof (N.div_mod (byte a) 16 ltac:(done)) as Ea.
  pose proof (N.div_mod (byte b) 16 ltac:(done)) as Eb.
  change (byte a = byte b). rewrite Ea, Eb, Hd, Hm. done.
Qed.

Lemma has_byte_app a s1 s2 :
  has_byte a (s1 ++ s2)%string = has_byte a s1 || has_byte a s2.
Proof.
  unfold has_byte. induction s1 as [|b s1 IH]; [done|]. cbn.
  rewrite IH. by destruct (Ascii.eqb a b).
Qed.

(** Two texts without a separator byte are recovered from what follows it. *)
Lemma split_at_byte a x x' y y' :
  has_byte a x = false → has_byte a x' = false →
  (x ++ String a y = x' ++ String a y')%string → x = x' ∧ y = y'.
Proof.
  unfold has_byte. revert x'.
  induction x as [|b x IH]; intros [|b' x']; cbn; intros Hx Hx' H.
  - by injection H.
  - exfalso. injection H as <- _. by rewrite Ascii.eqb_refl in Hx'.
  - exfalso. injection H as -> _. by rewrite Ascii.eqb_refl in Hx.
  - injection H as <- H. apply orb_false_iff in Hx as [_ Hx].
    apply orb_false_iff in Hx' as [_ Hx'].
    destruct (IH _ Hx Hx' H) as [-> ->]. done.
Qed.

Section fingerprints.
Context `{CodecLaws}.

Lemma action_json_inj a b : action_json a = action_json b → a = b.
Proof.
  intros Hab. apply (f_equal action_of_json) in Hab.
  rewrite !action_json_roundtrip in Hab. congruence.
Qed.

Lemma payload_separator_free a v w :
  action_json a ≠ (action_json w ++ (nul ++ "version:") ++ v)%string.
Proof.
  intros Heq. pose proof (action_json_no_nul a) as Ha.
  rewrite Heq, has_byte_app in Ha. apply orb_false_iff in Ha as [_ Ha]. done.
Qed.

Lemma fingerprint_payload_inj a b v w :
  fingerprint_payload a v = fingerprint_payload b w → a = b ∧ v = w.
Proof.
  destruct v as [v|], w as [w|]; cbn [fingerprint_payload]; intros Hp.
  - apply (split_at_byte zero) in Hp as [Hj Hv]; [|apply action_json_no_nul..].
    apply action_json_inj in Hj as ->. apply (str_app_inj_l "version:") in Hv. by apply dec_inj in Hv as ->.
  - symmetry in Hp. by apply payload_separator_free in Hp.
  - by apply payload_separator_free in Hp.
  - by apply action_json_inj in Hp as ->.
Qed.
End fingerprints.

(** ** A concrete codec

    An executable instance of the third-party interface, used by the concrete
    runs of the development: actions are written as the bits of their
    enumeration index, and the digest keeps its input. *)

#[export] Instance ActionOrigin_countable : Countable ActionOrigin.
Proof.
  refine (inj_countable (λ o, match o with User => true | Agent => false end)
            (λ b : bool, Some (if b then User else Agent)) _).
  by intros [].
Defined.

#[export] Instance Action_countable : Countable Action.
Proof.
  refine (inj_countable
            (λ a, (origin a, kind a, summary a, target a))
            (λ '(o, k, s, t), Some (mkAction o k s t)) _).
  by intros [].
Defined.

Fixpoint bits_of_pos (p : positive) : string :=
  match p with
  | xH => ""
  | xO p => String "0" (bits_of_pos p)
  | xI p => String "1" (bits_of_pos p)
  end.

Fixpoint pos_of_bits (s : string) : positive :=
  match s with
  | "" => xH
  | String a s => if Ascii.eqb a "0" then xO (pos_of_bits s) else xI (pos_of_bits s)
  end.

Definition sample_codec : Codec := {|
  sha256 := String.list_ascii_of_string;
  action_json a := bits_of_pos (encode a);
  action_of_json s := decode (pos_of_bits s);
|}.

Lemma pos_of_bits_of_pos p : pos_of_bits (bits_of_pos p) = p.
Proof. induction p; cbn; congruence. Qed.

Lemma bits_of_pos_no_nul p : has_byte zero (bits_of_pos p) = false.
Proof. unfold has_byte. by induction p. Qed.

Lemma sample_codec_laws : @CodecLaws sample_codec.
Proof.
  split; cbn [sample_codec action_json action_of_json].
  - intros a. rewrite pos_of_bits_of_pos. apply decode_encode.
  - intros a. apply bits_of_pos_no_nul.
Qed.

(** ** Claims *)

(** An action fingerprint identifies the action and the capability version it
    was computed for: unless the two hashed payloads are a SHA-256 collision,
    equal fingerprints come from equal actions and equal versions.  The encoding
    leaves no way to move bytes between the JSON text and the version suffix. *)
Theorem fingerprint_binds_action_and_version `{CodecLaws} a b v w :
  (let pre := ("impetus-action-v1" ++ nul)%string in
   sha256 (pre ++ fingerprint_payload a v) = sha256 (pre ++ fingerprint_payload b w) →
   (pre ++ fingerprint_payload a v = pre ++ fingerprint_payload b w)%string) →
  for_action_with_version a v = for_action_with_version b w →
  a = b ∧ v = w.
Proof.
  cbn zeta. intros Hcoll Hfp. apply hex_inj, Hcoll, str_app_inj_l in Hfp.
  by apply fingerprint_payload_inj.
Qed.

Lemma fingerprint_binds_witness :
  let a := mkAction Agent WriteFile "write note" (Some "out.txt") in
  (a = a ∧ Some 1%N = Some 1%N) ∧
  @for_action_with_version sample_codec a (Some 1%N) ≠
  @for_action_with_version sample_codec a (Some 2%N).
Proof.
  split.
  - apply (@fingerprint_binds_action_and_version sample_codec sample_codec_laws
      (mkAction Agent WriteFile "write note" (Some "out.txt"))
      (mkAction Agent WriteFile "write note" (Some "out.txt")) (Some 1%N) (Some 1%N));
      [cbn zeta; intros _|]; reflexivity.
  - vm_compute. discriminate.
Defined.

Lemma PolicyStore_validate_entries_ok seen l :
  PolicyStore_validate_entries seen l = Ok tt ↔
  NoDup (governed_id <$> l) ∧
  Forall (λ e, governed_id e ∉ seen ∧ trim (governed_id e) ≠ "" ∧
               trim (governed_label e) ≠ "" ∧
               looks_secret (governed_id e) = false ∧
               looks_secret (governed_label e) = false) l.
Proof.
  revert seen. induction l as [|e l IH]; intros seen.
  { split; [|done]. intros _. split; constructor. }
  cbn [PolicyStore_validate_entries fmap list_fmap].
  rewrite NoDup_cons, Forall_cons. unfold is_empty.
  destruct (String.eqb_spec (trim (governed_id e)) ""); [naive_solver|].
  destruct (String.eqb_spec (trim (governed_label e)) ""); [naive_solver|].
  case_bool_decide; [naive_solver|]. cbn [existsb].
  destruct (looks_secret (governed_id e)); [naive_solver|].
  destruct (looks_secret (governed_label e)); [naive_solver|]. cbn [orb].
  rewrite IH, !Forall_forall, list_elem_of_fmap.
  split.
  - intros [Hnd Hall]. split_and!; try done.
    + intros (e' & Heq & He'). destruct (Hall _ He') as [Hns _].
      apply Hns. rewrite <-Heq. set_solver.
    + intros e' He'. destruct (Hall _ He') as [Hns Hrest]. split; [set_solver|done].
  - intros [[Hni Hnd] [_ Hall]]. split; [done|]. intros e' He'.
    destruct (Hall _ He') as [Hns Hrest]. split; [|done].
    intros [Heq%elem_of_singleton|Hin]%elem_of_union; [|done].
    apply Hni. by exists e'.
Qed.
