(* ===== verification/McpClient.v ===== *)
(** * The MCP client

    [crates/impetus-core/src/mcp_adapter.rs]: messages framed with a
    [Content-Length] header, and the JSON-RPC requests of one connection to a
    server.  Starting the server process and importing its inventory are not
    modelled. *)

From S2P Require Import Prelude Str Utf8 ToolSchema.

Open Scope string_scope.
Open Scope nat_scope.
Open Scope list_scope.
Open Scope impetus_scope.

(** ** Framing *)

Definition crlf : string := String carriage_return nl.

(** [read_line]: up to a newline or the end, which gives the empty line. *)
Fixpoint read_line (s : string) : string * string :=
  match s with
  | "" => ("", "")
  | String a s' =>
      if Ascii.eqb a newline then (String a "", s')
      else let '(line, rest) := read_line s' in (String a line, rest)
  end.

Definition trim_end (s : string) : string :=
  concat_str (reverse (drop_while is_whitespace (reverse (chars s)))).

Definition invalid_text : string := "stream did not contain valid UTF-8".
Definition closed_mid_headers : string := "MCP server closed the connection mid-headers".

(** The [loop] over the remaining headers: what follows the blank line.  [line]
    is the part of the line read so far. *)
Fixpoint skip_headers (line : string) (s : string) : result string string :=
  match s with
  | "" =>
      if is_empty line then Err closed_mid_headers
      else if negb (utf8_valid line) then Err invalid_text
      else if is_empty (trim line) then Ok "" else Err closed_mid_headers
  | String a s' =>
      let line := (line ++ String a "")%string in
      if Ascii.eqb a newline then
        if negb (utf8_valid line) then Err invalid_text
        else if is_empty (trim line) then Ok s' else skip_headers "" s'
      else skip_headers line s'
  end.

(** The message and the rest of the input, which ends where the connection was
    closed. *)
Definition read_mcp_message (input : string) : result string (string * string) :=
  let '(first_line, rest) := read_line input in
  if negb (utf8_valid first_line) then Err invalid_text
  else if is_empty first_line then Err "MCP server closed the connection"
  else
    let trimmed := trim_end first_line in
    match strip_prefix "Content-Length:" trimmed with
    | Some len_str =>
        len ← ok_or (parse_u64 (trim len_str)) ("invalid Content-Length header: " ++ trimmed)%string;
        body ← skip_headers "" rest;
        if (N.of_nat (String.length body) <? len)%N then Err "early eof"
        else
          let n := N.to_nat len in
          let message := str_prefix n body in
          if utf8_valid message
          then Ok (message, String.substring n (String.length body - n) body)
          else Err "MCP message is not valid UTF-8"
    | None => Ok (trimmed, rest)
    end.

(** What [write_mcp_message] writes. *)
Definition write_mcp_message (message : string) : string :=
  ("Content-Length: " ++ dec (N.of_nat (String.length message)) ++ crlf ++ crlf ++ message)%string.

(** ** Requests *)

(** [Value::to_string] and [serde_json::from_str]. *)
Class JsonText := {
  json_text : JValue → string;
  json_parse : string → option JValue;
}.

Class JsonTextLaws `{JsonText} := {
  json_parse_text v : json_parse (json_text v) = Some v;
}.

(** One read of the stream, bounded by [RPC_TIMEOUT]. *)
Inductive ReadMessage :=
  | ReadText (message : string)
  | ReadFailed (what : string)
  | ReadTimedOut.

(** The streams of the connections, by number. *)
Class McpStreams (W : Type) := {
  stream_write : nat → string → W → W * result string ();
  stream_read : nat → W → W * ReadMessage;
}.

Record McpTool := mkMcpTool {
  mt_name : string;
  mt_description : string;
  mt_input_schema : JValue;
  mt_annotations : option JValue;
}.

(** [serde_json::from_value::<Vec<McpTool>>] *)
Class McpToolJson := mcp_tools_from_value : JValue → option (list McpTool).

(** The environment, and the next request id of every connection. *)
Record McpWorld (W : Type) := mkMcpWorld {
  mcp_env : W;
  mcp_next_id : nat → N;
}.
Arguments mkMcpWorld {W} _ _.
Arguments mcp_env {W} _.
Arguments mcp_next_id {W} _ _.

Section client.
Context `{JsonText} {W : Type} `{!McpStreams W}.

Abbreviation mcpR := (stateR (McpWorld W) string).

Definition on_env {A} (m : W → W * A) (w : McpWorld W) : McpWorld W * A :=
  let '(env, a) := m (mcp_env w) in (mkMcpWorld env (mcp_next_id w), a).

Definition take_id (c : nat) (w : McpWorld W) : McpWorld W * N :=
  (mkMcpWorld (mcp_env w)
     (λ c', if (c' =? c)%nat then wrapping_add u64_max (mcp_next_id w c) 1 else mcp_next_id w c'),
   mcp_next_id w c).

Definition rpc_request (id : N) (method : string) (params : JValue) : JValue :=
  JObject [("id", JInt (Z.of_N id)); ("jsonrpc", JString "2.0"); ("method", JString method);
           ("params", params)].

(** What one message means to a waiting request; [None] for a notification. *)
Definition rpc_answer (method : string) (msg : JValue) : option (result string JValue) :=
  match jget msg "id" with
  | None => None
  | Some _ =>
      Some match jget msg "error" with
      | Some error =>
          Err ("MCP " ++ method ++ " failed: "
                 ++ default "unknown error" (jget error "message" ≫= as_str))%string
      | None => ok_or (jget msg "result") "JSON-RPC response is missing result"
      end
  end.

(** The [loop]; [None] when more than [fuel] messages were read. *)
Fixpoint await_response (fuel : nat) (c : nat) (method : string) (w : W)
    : W * option (result string JValue) :=
  match fuel with
  | 0 => (w, None)
  | S fuel' =>
      match stream_read c w with
      | (w', ReadTimedOut) => (w', Some (Err ("timed out waiting for " ++ method ++ " response")%string))
      | (w', ReadFailed what) => (w', Some (Err what))
      | (w', ReadText message) =>
          match json_parse message with
          | None => (w', Some (Err "invalid JSON-RPC response"))
          | Some msg =>
              match rpc_answer method msg with
              | None => await_response fuel' c method w'
              | Some answer => (w', Some answer)
              end
          end
      end
  end.

(** Errors as [to_string] shows them, the outermost context. *)
Definition mcp_request (fuel : nat) (c : nat) (method : string) (params : JValue)
    (w : McpWorld W) : McpWorld W * option (result string JValue) :=
  let '(w, id) := take_id c w in
  match on_env (stream_write c (json_text (rpc_request id method params))) w with
  | (w, Err _) => (w, Some (Err ("failed to send " ++ method ++ " request")%string))
  | (w, Ok _) => on_env (await_response fuel c method) w
  end.

Definition list_tools `{McpToolJson} (fuel : nat) (c : nat) (w : McpWorld W)
    : McpWorld W * option (result string (list McpTool)) :=
  let '(w, r) := mcp_request fuel c "tools/list" (JObject []) w in
  (w, r ≫= λ r, Some (answer ← r;
        ok_or (mcp_tools_from_value (default (JArray []) (jget answer "tools")))
          "invalid tools/list result")).

Definition mcp_call_failed (name : string) : string :=
  ("MCP tools/call failed for `" ++ name ++ "`")%string.

(** [with_context] keeps the cause out of [to_string]. *)
Definition mcp_call_tool (fuel : nat) (c : nat) (name : string) (arguments : JValue)
    (w : McpWorld W) : McpWorld W * option (result string JValue) :=
  let '(w, r) := mcp_request fuel c "tools/call"
                   (JObject [("arguments", arguments); ("name", JString name)]) w in
  (w, map_err (λ _, mcp_call_failed name) <$> r).
End client.

(** ** Messages come back *)

Lemma chars_ascii s :
  ascii_text s → chars s = (λ a, String a "") <$> String.list_ascii_of_string s.
Proof.
  unfold ascii_text. induction s as [|a s IH]; [done|]. intros [Ha Hs]%Forall_cons.
  rewrite chars_ascii_cons by done. cbn. by rewrite IH.
Qed.

Lemma concat_singletons l : concat_str ((λ a, String a "") <$> l) = String.string_of_list_ascii l.
Proof. induction l as [|a l IH]; [done|]. cbn. by rewrite IH. Qed.

(** Text that is ASCII between two characters that are no white space. *)
Definition solid (l : list ascii) : Prop :=
  ∃ x m y, (l = [x] ∧ x = y ∨ l = x :: m ++ [y]) ∧
    is_whitespace (String x "") = false ∧ is_whitespace (String y "") = false.

Lemma solid_reverse l : solid l → solid (reverse l).
Proof.
  intros (x & m & y & Hl & Hx & Hy). exists y, (reverse m), x. split; [|done].
  destruct Hl as [[-> ->]| ->]; [by left|right].
  by rewrite reverse_cons, reverse_app.
Qed.

Lemma drop_solid l :
  solid l → drop_while is_whitespace ((λ a, String a "") <$> l) = (λ a, String a "") <$> l.
Proof.
  intros (x & m & y & Hl & Hx & _). destruct Hl as [[-> _]| ->]; cbn [fmap list_fmap drop_while];
    by rewrite Hx.
Qed.

Lemma drop_white w l :
  Forall (λ a, is_whitespace (String a "") = true) w → solid l →
  drop_while is_whitespace ((λ a, String a "") <$> (w ++ l)) = (λ a, String a "") <$> l.
Proof.
  intros Hw Hl. induction Hw as [|a w Ha _ IH]; cbn [app]; [by apply drop_solid|].
  cbn [fmap list_fmap drop_while]. by rewrite Ha.
Qed.

Lemma trim_end_solid s w :
  ascii_text s → ascii_text w → solid (String.list_ascii_of_string s) →
  Forall (λ a, is_whitespace (String a "") = true) (String.list_ascii_of_string w) →
  trim_end (s ++ w) = s.
Proof.
  intros Hs Hw Hsolid Hwhite. unfold trim_end.
  rewrite chars_ascii by (by apply ascii_text_app). rewrite list_ascii_app, fmap_app, reverse_app.
  rewrite <-!fmap_reverse, <-fmap_app.
  rewrite drop_white; [|by apply Forall_reverse|by apply solid_reverse].
  rewrite <-fmap_reverse, reverse_involutive, concat_singletons.
  apply String.string_of_list_ascii_of_string.
Qed.

Lemma trim_solid s w :
  ascii_text s → ascii_text w → solid (String.list_ascii_of_string s) →
  Forall (λ a, is_whitespace (String a "") = true) (String.list_ascii_of_string w) →
  trim (w ++ s) = s.
Proof.
  intros Hs Hw Hsolid Hwhite. unfold trim, trim_chars.
  rewrite chars_ascii by (by apply ascii_text_app). rewrite list_ascii_app.
  rewrite drop_white by done. rewrite <-fmap_reverse, drop_solid by (by apply solid_reverse).
  rewrite <-fmap_reverse, reverse_involutive, concat_singletons.
  apply String.string_of_list_ascii_of_string.
Qed.

(** The digits of a number. *)
Lemma pretty_go_digits (P : ascii → Prop) x s :
  (∀ d, (d < 10)%N → P (pretty_N_char d)) → Forall P (String.list_ascii_of_string s) →
  Forall P (String.list_ascii_of_string (pretty_N_go x s)).
Proof.
  intros HP. revert s. induction (N.lt_wf_0 x) as [x _ IH]. intros s Hs.
  destruct (decide (0 < x)%N) as [Hx|]; [|assert (x = 0%N) as -> by lia; by rewrite pretty_N_go_0].
  rewrite pretty_N_go_step by done. apply IH; [by apply N.div_lt|]. cbn. constructor; [|done].
  apply HP. by apply N.mod_lt.
Qed.

Lemma dec_digits (P : ascii → Prop) n :
  (∀ d, (d < 10)%N → P (pretty_N_char d)) → Forall P (String.list_ascii_of_string (dec n)).
Proof.
  intros HP. unfold dec, pretty, pretty_N. case_decide.
  - cbn. constructor; [|done]. by apply (HP 0%N).
  - by apply pretty_go_digits.
Qed.

Lemma digit_cases (P : ascii → Prop) :
  Forall P (pretty_N_char <$> [0;1;2;3;4;5;6;7;8;9]%N) → ∀ d, (d < 10)%N → P (pretty_N_char d).
Proof.
  rewrite Forall_fmap, Forall_forall. intros HP d Hd. apply (HP d).
  rewrite !elem_of_cons, elem_of_nil. lia.
Qed.

Lemma dec_solid n : solid (String.list_ascii_of_string (dec n)).
Proof.
  assert (Forall (λ a, is_whitespace (String a "") = false) (String.list_ascii_of_string (dec n))) as Hd.
  { apply dec_digits. apply (digit_cases (λ a, is_whitespace (String a "") = false)).
    repeat constructor. }
  destruct (String.list_ascii_of_string (dec n)) as [|x l] eqn:E.
  { exfalso. apply (dec_not_empty n). by rewrite <-(String.string_of_list_ascii_of_string (dec n)), E. }
  apply Forall_cons in Hd as [Hx Hl].
  destruct l as [|y l _] using rev_ind; [by exists x, [], x; split; [left|]|].
  apply Forall_app in Hl as [_ [Hy _]%Forall_cons]. exists x, l, y. split; [by right|done].
Qed.

Lemma solid_prefix p s :
  ascii_text p → solid (String.list_ascii_of_string s) →
  (∃ x p', String.list_ascii_of_string p = x :: p' ∧ is_whitespace (String x "") = false) →
  solid (String.list_ascii_of_string (p ++ s)).
Proof.
  intros _ (x & m & y & Hl & _ & Hy) (z & p' & Hp & Hz). rewrite list_ascii_app, Hp.
  destruct Hl as [[-> ->]| ->].
  - exists z, p', y. split; [by right|done].
  - exists z, (p' ++ x :: m), y. split; [right|done]. cbn. by rewrite <-app_assoc.
Qed.

Lemma read_line_line l rest :
  Forall (λ a, Ascii.eqb a newline = false) (String.list_ascii_of_string l) →
  read_line (l ++ String newline rest) = ((l ++ nl)%string, rest).
Proof.
  induction l as [|a l IH]; cbn [String.list_ascii_of_string]; [done|].
  intros [Ha Hl]%Forall_cons. cbn [String.append read_line]. by rewrite Ha, IH.
Qed.

Lemma str_split_at m rest :
  str_prefix (String.length m) (m ++ rest) = m ∧
  String.substring (String.length m) (String.length (m ++ rest) - String.length m) (m ++ rest) = rest.
Proof.
  unfold str_prefix. induction m as [|a m [IH1 IH2]]; cbn.
  - split; [by destruct rest|]. rewrite Nat.sub_0_r. induction rest as [|b rest IH]; [done|].
    cbn. by rewrite IH.
  - split; [by rewrite IH1|exact IH2].
Qed.

Lemma frame_roundtrip m rest :
  utf8_valid m = true → (N.of_nat (String.length m) ≤ u64_max)%N →
  read_mcp_message (write_mcp_message m ++ rest) = Ok (m, rest).
Proof.
  intros Hm Hlen. set (n := N.of_nat (String.length m)) in *.
  assert (ascii_text (dec n)) as Hdec by apply dec_ascii.
  set (head := ("Content-Length: " ++ dec n)%string).
  assert (ascii_text head) as Hhead by (apply ascii_text_app; split; [by repeat constructor|done]).
  assert (write_mcp_message m ++ rest
          = (head ++ String carriage_return "") ++ String newline (crlf ++ m ++ rest))%string as ->.
  { unfold write_mcp_message, head, crlf, nl. fold n. rewrite !str_app_assoc. cbn [String.append].
    reflexivity. }
  unfold read_mcp_message. rewrite read_line_line.
  2: { unfold head. rewrite !list_ascii_app. repeat apply Forall_app_2; [by repeat constructor| |by repeat constructor].
       apply dec_digits. apply (digit_cases (λ a, Ascii.eqb a newline = false)). repeat constructor. }
  rewrite ascii_valid; [|rewrite !ascii_text_app; split; [split; [done|]|]; by repeat constructor].
  assert (is_empty ((head ++ String carriage_return "") ++ nl) = false) as -> by done. cbn [negb].
  rewrite (str_app_assoc _ (String carriage_return "") nl), trim_end_solid; cycle 1.
  { done. } { by repeat constructor. }
  { apply solid_prefix; [by repeat constructor|apply dec_solid|]. by eexists _, _. }
  { by repeat constructor. }
  assert (strip_prefix "Content-Length:" head = Some (" " ++ dec n)%string) as -> by done.
  rewrite trim_solid; [|done|by repeat constructor|apply dec_solid|by repeat constructor].
  rewrite parse_u64_dec by done. cbn [ok_or mbind result_bind].
  assert (skip_headers "" (crlf ++ m ++ rest) = Ok (m ++ rest)%string) as -> by done.
  cbn [mbind result_bind]. unfold n. rewrite (proj2 (N.ltb_ge _ _)) by (rewrite length_str_app; lia).
  rewrite Nat2N.id. destruct (str_split_at m rest) as [-> ->]. by rewrite Hm.
Qed.

(** Reading [k] messages in a row. *)
Fixpoint read_messages (k : nat) (input : string) : result string (list string * string) :=
  match k with
  | 0 => Ok ([], input)
  | S k' =>
      m ← read_mcp_message input;
      ms ← read_messages k' m.2;
      Ok (m.1 :: ms.1, ms.2)
  end.

(** Messages of any content written one after another are read back whole and
    in order, whatever follows them. *)
Theorem frames_roundtrip ms rest :
  (∀ m, m ∈ ms → utf8_valid m = true ∧ (N.of_nat (String.length m) ≤ u64_max)%N) →
  read_messages (length ms) (concat_str (write_mcp_message <$> ms) ++ rest) = Ok (ms, rest).
Proof.
  induction ms as [|m ms IH]; intros Hms; [done|]. cbn [fmap list_fmap concat_str length read_messages].
  destruct (Hms m ltac:(by left)) as [Hm Hlen].
  rewrite str_app_assoc, frame_roundtrip by done. cbn [mbind result_bind fst snd].
  rewrite IH by (intros m' Hm'; apply Hms; by right). done.
Qed.

Lemma frames_roundtrip_witness :
  read_messages 2 (concat_str (write_mcp_message <$> ["{}"; ("a" ++ crlf)%string]) ++ "tail")
  = Ok (["{}"; ("a" ++ crlf)%string], "tail").
Proof.
  apply (frames_roundtrip ["{}"; ("a" ++ crlf)%string] "tail").
  intros m Hm. apply elem_of_cons in Hm as [->|[->|[]%elem_of_nil]%elem_of_cons]; by split.
Defined.

(** ** Answers are matched by position only *)

Section sample.
#[local] Instance one_reply : JsonText := {|
  json_text _ := "";
  json_parse s := if String.eqb s "first"
                  then Some (JObject [("id", JInt 1); ("result", JString "of the first call")])
                  else None;
|}.

(** A connection is the list of what its reads return. *)
#[local] Instance queued : McpStreams (list ReadMessage) := {|
  stream_write _ _ w := (w, Ok tt);
  stream_read _ w := match w with [] => ([], ReadTimedOut) | m :: w' => (w', m) end;
|}.

(** The answer to a request that timed out is taken for the answer to the next
    one: the id of an answer is not compared. *)
Example late_answer_taken :
  let w := mkMcpWorld [ReadTimedOut; ReadText "first"] (λ _, 1%N) in
  let '(w1, r1) := mcp_call_tool 5 0 "delete" JNull w in
  let '(_, r2) := mcp_call_tool 5 0 "list" JNull w1 in
  r1 = Some (Err (mcp_call_failed "delete")) ∧ r2 = Some (Ok (JString "of the first call")).
Proof. by vm_compute. Qed.
End sample.
