(* ===== verification/McpLive.v ===== *)
(** * Live MCP tools

    [crates/impetus-core/src/mcp_live.rs] and the retry rule of
    [module_fallback.rs]: the catalog of tools that MCP servers offer to a
    session, and calls of them over the connection of the server that owns the
    tool. *)

From S2P Require Import Prelude Str Utf8 Redact ToolSchema Action McpClient.

Open Scope string_scope.
Open Scope nat_scope.
Open Scope list_scope.
Open Scope impetus_scope.

(** ** Definitions *)

(** *** Retries *)

Inductive OperationOutcome := OpSuccess | OpFailure | OpUnknown.

(** [UnknownOutcomePolicy { semantics }] is the semantics. *)
Definition can_retry (semantics : ExecutionSemantics) (outcome : OperationOutcome) : bool :=
  match outcome with
  | OpSuccess => false
  | OpFailure => true
  | OpUnknown => match semantics with ReadOnly | Idempotent => true | _ => false end
  end.

Definition can_fallback (semantics : ExecutionSemantics) (outcome : OperationOutcome) : bool :=
  match outcome with
  | OpSuccess => false
  | OpFailure => true
  | OpUnknown => match semantics with ReadOnly | Idempotent => true | _ => false end
  end.

(** *** Catalog entries *)

Definition catalog_name (server tool : string) : string := "mcp:" ++ server ++ ":" ++ tool.

Record McpLiveToolEntry := mkMcpEntry {
  me_catalog_name : string;
  me_server : string;
  me_tool : string;
  me_description : string;
  me_input_schema : JValue;
  me_semantics : ExecutionSemantics;
}.

Definition semantics_from_annotations (annotations : option JValue) : ExecutionSemantics :=
  if default false (annotations ≫= λ a, jget a "readOnlyHint" ≫= as_bool)
  then ReadOnly else Mutating.

Definition from_mcp_tool (server : string) (tool : McpTool) : McpLiveToolEntry :=
  mkMcpEntry (catalog_name server (mt_name tool)) server (mt_name tool) (mt_description tool)
    match mt_input_schema tool with
    | JNull => JObject [("type", JString "object")]
    | schema => schema
    end
    (semantics_from_annotations (mt_annotations tool)).

(** *** Calls *)

Inductive McpLiveCallResult :=
  | McpOk (preview : string)
  | McpFailed (message : string)
  | McpUnknown (message : string).

Definition operation_outcome (r : McpLiveCallResult) : OperationOutcome :=
  match r with McpOk _ => OpSuccess | McpFailed _ => OpFailure | McpUnknown _ => OpUnknown end.

(** The implementations of [McpLiveCaller]: an adapter by the number of its
    connection, and [UnavailableMcpCaller]. *)
Inductive McpLiveCaller := AdapterCaller (connection : nat) | UnavailableCaller.

Section calls.
Context `{JsonText}.

Definition extract_text_preview (v : JValue) : string :=
  let texts := omap (λ item, jget item "text" ≫= as_str)
                 (default [] (jget v "content" ≫= as_array)) in
  chars_take 1024 (redact_text (match texts with [] => json_text v | _ => join nl texts end)).

Definition preview_from_call_result (v : JValue) : McpLiveCallResult :=
  let preview := extract_text_preview v in
  if default false (jget v "isError" ≫= as_bool) then McpFailed preview else McpOk preview.

Definition lost_connection (message : string) : bool :=
  let lower := to_ascii_lowercase message in
  contains lower "timed out" || contains lower "closed the connection"
  || contains lower "connection reset".

Definition classify_transport_error (message : string) : McpLiveCallResult :=
  if lost_connection message then McpUnknown message else McpFailed message.

Context {W : Type} `{!McpStreams W}.

(** [call_tool] of a caller; [None] while the server has sent nothing but
    notifications for [fuel] messages. *)
Definition live_call_tool (fuel : nat) (caller : McpLiveCaller) (tool : string)
    (arguments : JValue) (w : McpWorld W) : McpWorld W * option McpLiveCallResult :=
  match caller with
  | UnavailableCaller => (w, Some (McpFailed ("no MCP caller available for `" ++ tool ++ "`")))
  | AdapterCaller c =>
      let '(w, r) := mcp_call_tool fuel c tool arguments w in
      (w, (λ r, match r with
                | Ok v => preview_from_call_result v
                | Err message => classify_transport_error message
                end) <$> r)
  end.
End calls.

(** *** The bridge *)

Record McpLiveBridge := mkBridge {
  br_tools : gmap string McpLiveToolEntry;
  br_caller : McpLiveCaller;
  br_entry_callers : gmap string McpLiveCaller;
}.

(** [collect] into a map: a later tool of the same name replaces an earlier one. *)
Definition from_tools (server : string) (tools : list McpTool) (caller : McpLiveCaller)
    : McpLiveBridge :=
  mkBridge
    (foldl (λ m tool, let e := from_mcp_tool server tool in <[me_catalog_name e := e]> m) ∅ tools)
    caller ∅.

(** The callers of the tools of one server. *)
Definition bridge_callers (b : McpLiveBridge) : gmap string McpLiveCaller :=
  map_imap (λ name _, Some (default (br_caller b) (br_entry_callers b !! name))) (br_tools b).

(** [servers] in the order the map yields them. *)
Definition merge (servers : list McpLiveBridge) : McpLiveBridge :=
  mkBridge
    (foldl (λ m b, br_tools b ∪ m) ∅ servers)
    match servers with [] => UnavailableCaller | b :: _ => br_caller b end
    (foldl (λ m b, bridge_callers b ∪ m) ∅ servers).

Definition by_catalog_name : relation McpLiveToolEntry := λ a b,
  String.le (me_catalog_name a) (me_catalog_name b).

#[export] Instance by_catalog_name_dec : RelDecision by_catalog_name.
Proof. intros a b. unfold by_catalog_name. apply _. Defined.

Definition bridge_list (b : McpLiveBridge) : list McpLiveToolEntry :=
  merge_sort by_catalog_name ((map_to_list (br_tools b)).*2).

Definition bridge_get (b : McpLiveBridge) (name : string) : option McpLiveToolEntry :=
  br_tools b !! name.

Definition with_allowlist (allowed : list string) (b : McpLiveBridge) : McpLiveBridge :=
  let tools := filter (λ p, p.1 ∈ allowed) (br_tools b) in
  mkBridge tools (br_caller b) (filter (λ p, is_Some (tools !! p.1)) (br_entry_callers b)).

Definition bridge_validate_arguments (b : McpLiveBridge) (name : string) (arguments : JValue)
    : result ToolArgError McpLiveToolEntry :=
  entry ← ok_or (bridge_get b name) (mkToolArgError name "unknown MCP tool");
  _ ← validate_arguments_with_schema name arguments (me_input_schema entry);
  Ok entry.

Definition caller_for (b : McpLiveBridge) (name : string) : McpLiveCaller :=
  default (br_caller b) (br_entry_callers b !! name).

Definition semantics_debug (s : ExecutionSemantics) : string :=
  match s with
  | ReadOnly => "ReadOnly"
  | Idempotent => "Idempotent"
  | Mutating => "Mutating"
  | NonReplayable => "NonReplayable"
  end.

Definition settle_unknown (entry : McpLiveToolEntry) (r : McpLiveCallResult) : McpLiveCallResult :=
  match r with
  | McpUnknown _ =>
      if can_retry (me_semantics entry) OpUnknown then r
      else McpUnknown ("unknown MCP outcome for `" ++ me_catalog_name entry
             ++ "`; not retrying (semantics=" ++ semantics_debug (me_semantics entry) ++ ")")
  | _ => r
  end.

Section bridge_calls.
Context `{JsonText} {W : Type} `{!McpStreams W}.

Definition bridge_call (fuel : nat) (b : McpLiveBridge) (name : string) (arguments : JValue)
    (w : McpWorld W) : McpWorld W * option McpLiveCallResult :=
  match bridge_get b name with
  | None => (w, Some (McpFailed ("unknown MCP tool `" ++ name ++ "`")))
  | Some entry =>
      let '(w, r) := live_call_tool fuel (caller_for b name) (me_tool entry) arguments w in
      (w, settle_unknown entry <$> r)
  end.

Definition discover `{McpToolJson} (fuel : nat) (server : string) (connection : nat)
    (w : McpWorld W) : McpWorld W * option (result string McpLiveBridge) :=
  let '(w, listed) := list_tools fuel connection w in
  (w, match listed with
      | None => None
      | Some listed => Some (tools ← listed; Ok (from_tools server tools (AdapterCaller connection)))
      end).
End bridge_calls.

(** ** Catalogs and their owners *)

(** The bridges that the tools listed by some servers, each with its caller, give
    rise to. *)
Inductive built (listed : list (string * list McpTool * McpLiveCaller)) : McpLiveBridge → Prop :=
  | built_from server tools caller :
      (server, tools, caller) ∈ listed → built listed (from_tools server tools caller)
  | built_merge servers :
      (∀ b, b ∈ servers → built listed b) → built listed (merge servers)
  | built_allowed allowed b : built listed b → built listed (with_allowlist allowed b).

(** The entry of a name, and the caller of the server that lists it. *)
Definition owner (listed : list (string * list McpTool * McpLiveCaller)) (name : string)
    (entry : McpLiveToolEntry) (caller : McpLiveCaller) : Prop :=
  ∃ server tools tool, (server, tools, caller) ∈ listed ∧ tool ∈ tools ∧
    entry = from_mcp_tool server tool ∧ name = catalog_name server (mt_name tool).

Lemma from_tools_entry server tools caller name entry :
  br_tools (from_tools server tools caller) !! name = Some entry →
  ∃ tool, tool ∈ tools ∧ entry = from_mcp_tool server tool ∧
          name = catalog_name server (mt_name tool).
Proof.
  cbn [from_tools br_tools]. induction tools as [|tool tools IH] using rev_ind; [done|].
  rewrite foldl_app. cbn [foldl]. rewrite lookup_insert_Some.
  intros [[<- <-]|[_ (t & Ht & H)%IH]]; [exists tool|exists t]; set_solver.
Qed.

(** Merging keeps, for every name, the entry and the caller of one server. *)
Lemma merge_entry servers name entry :
  br_tools (merge servers) !! name = Some entry →
  ∃ b, b ∈ servers ∧ br_tools b !! name = Some entry ∧
       caller_for (merge servers) name = caller_for b name.
Proof.
  unfold caller_for, merge. cbn [br_tools br_entry_callers br_caller].
  set (dflt := match servers with [] => _ | _ => _ end). clearbody dflt.
  induction servers as [|b servers IH] using rev_ind; [done|].
  rewrite !foldl_app. cbn [foldl].
  destruct (br_tools b !! name) as [e|] eqn:Hb.
  - rewrite (lookup_union_Some_l _ _ _ _ Hb). intros [= <-]. exists b.
    split; [set_solver|]. split; [done|].
    rewrite (lookup_union_Some_l _ _ name (default (br_caller b) (br_entry_callers b !! name))).
    + done.
    + unfold bridge_callers. by rewrite map_lookup_imap, Hb.
  - rewrite lookup_union_r by done. intros (b' & Hin & He & Hc)%IH. exists b'.
    split; [set_solver|]. split; [done|]. rewrite lookup_union_r; [done|].
    unfold bridge_callers. by rewrite map_lookup_imap, Hb.
Qed.

Lemma allowlist_entry allowed b name entry :
  br_tools (with_allowlist allowed b) !! name = Some entry →
  name ∈ allowed ∧ br_tools b !! name = Some entry ∧
  caller_for (with_allowlist allowed b) name = caller_for b name.
Proof.
  unfold caller_for, with_allowlist. cbn [br_tools br_entry_callers br_caller].
  intros Hf. pose proof Hf as Hf'. apply map_lookup_filter_Some in Hf as [He Hin]. cbn in Hin.
  split_and!; [done|done|]. f_equal. destruct (br_entry_callers b !! name) as [c|] eqn:Hc.
  - apply map_lookup_filter_Some. split; [done|]. cbn. by rewrite Hf'.
  - apply map_lookup_filter_None. by left.
Qed.

Lemma built_owner listed b :
  built listed b → ∀ name entry, br_tools b !! name = Some entry →
  owner listed name entry (caller_for b name).
Proof.
  induction 1 as [server tools caller Hin|servers _ IH|allowed b _ IH]; intros name entry Hname.
  - apply from_tools_entry in Hname as (tool & Ht & -> & ->).
    exists server, tools, tool. unfold caller_for. cbn [from_tools br_entry_callers br_caller].
    by rewrite lookup_empty.
  - apply merge_entry in Hname as (b & Hb & He & ->). by apply IH.
  - apply allowlist_entry in Hname as (_ & He & ->). by apply IH.
Qed.

(** In every catalog built by discovery, merging and allowlists, in any map
    order, an entry is one that a server listed under its name, it counts as read
    only exactly when the server annotated it so, and calling it asks that
    server's connection for that tool. *)
Theorem mcp_calls_reach_their_server `{JsonText} {W} `{!McpStreams W} listed b name entry :
  built listed b → bridge_get b name = Some entry →
  ∃ server tools tool caller,
    (server, tools, caller) ∈ listed ∧ tool ∈ tools ∧ name = catalog_name server (mt_name tool) ∧
    me_semantics entry = (if default false (mt_annotations tool ≫= λ a, jget a "readOnlyHint" ≫= as_bool)
                          then ReadOnly else Mutating) ∧
    ∀ fuel arguments (w : McpWorld W),
      bridge_call fuel b name arguments w =
      let '(w', r) := live_call_tool fuel caller (mt_name tool) arguments w in
      (w', settle_unknown entry <$> r).
Proof.
  intros Hb He. destruct (built_owner _ _ Hb _ _ He) as (server & tools & tool & Hin & Ht & -> & ->).
  exists server, tools, tool, (caller_for b (catalog_name server (mt_name tool))).
  split_and!; try done. intros fuel arguments w. unfold bridge_call. by rewrite He.
Qed.

(** ** Lost connections *)

(** The error a caller sees names the tool and not the cause: a connection lost
    after a mutating request counts as a failure, and never as an unknown outcome,
    whatever the error was. *)
Lemma lost_connection_is_failure `{JsonText} {W} `{!McpStreams W} fuel b name entry c arguments
    (w w' : McpWorld W) r :
  bridge_get b name = Some entry → caller_for b name = AdapterCaller c →
  lost_connection (mcp_call_failed (me_tool entry)) = false →
  bridge_call fuel b name arguments w = (w', Some r) → ∀ message, r ≠ McpUnknown message.
Proof.
  intros He Hc Hlost. unfold bridge_call. rewrite He, Hc. cbn [live_call_tool].
  unfold mcp_call_tool. destruct (mcp_request _ _ _ _ w) as [w1 [[v|err]|]];
    cbn [fmap option_fmap option_map map_err]; intros E message; [injection E as <- <-|injection E as <- <-; by unfold classify_transport_error; rewrite Hlost|done].
  unfold preview_from_call_result. by destruct (default _ _).
Qed.

Example tool_names_decide :
  lost_connection (mcp_call_failed "delete_file") = false ∧
  lost_connection (mcp_call_failed "list_timed out_jobs") = true.
Proof. by vm_compute. Qed.

(** Two servers can give two tools the same catalog name. *)
Example catalog_names_collide : catalog_name "a" "b:c" = catalog_name "a:b" "c".
Proof. reflexivity. Qed.

(** *** Witness *)

Section sample.
#[local] Existing Instances one_reply queued.

Definition sample_listed : list (string * list McpTool * McpLiveCaller) :=
  [("files", [mkMcpTool "list" "" JNull (Some (JObject [("readOnlyHint", JBool true)]))], AdapterCaller 0);
   ("notes", [mkMcpTool "list" "" JNull None], AdapterCaller 1)].

Definition sample_bridge : McpLiveBridge :=
  with_allowlist ["mcp:notes:list"]
    (merge [from_tools "files" [mkMcpTool "list" "" JNull (Some (JObject [("readOnlyHint", JBool true)]))]
              (AdapterCaller 0);
            from_tools "notes" [mkMcpTool "list" "" JNull None] (AdapterCaller 1)]).

Lemma sample_built : built sample_listed sample_bridge.
Proof.
  apply built_allowed, built_merge. intros b Hb.
  apply elem_of_cons in Hb as [->|[->|[]%elem_of_nil]%elem_of_cons]; apply built_from.
  - by left.
  - right. by left.
Qed.

Lemma mcp_calls_reach_witness :
  bridge_get sample_bridge "mcp:files:list" = None ∧
  ∃ server tools tool caller,
    (server, tools, caller) ∈ sample_listed ∧ tool ∈ tools ∧
    "mcp:notes:list" = catalog_name server (mt_name tool) ∧
    (bridge_call 3 sample_bridge "mcp:notes:list" JNull (mkMcpWorld [ReadText "first"] (λ _, 1%N))).2
    = (live_call_tool 3 caller (mt_name tool) JNull (mkMcpWorld [ReadText "first"] (λ _, 1%N))).2.
Proof.
  split; [by vm_compute|].
  destruct (mcp_calls_reach_their_server sample_listed sample_bridge "mcp:notes:list"
    (from_mcp_tool "notes" (mkMcpTool "list" "" JNull None)) sample_built)
    as (server & tools & tool & caller & Hin & Ht & Hname & _ & Hcall).
  - by vm_compute.
  - exists server, tools, tool, caller. split_and!; [exact Hin|exact Ht|exact Hname|].
    rewrite (Hcall 3 JNull (mkMcpWorld [ReadText "first"] (λ _, 1%N))).
    destruct caller as [c|]; [by vm_compute|reflexivity].
Defined.
End sample.
