(* ===== verification/PathScope.v ===== *)
(** * Paths and the sandbox scope

    The Unix behaviour of [std::path] that the code uses, and [SandboxScope] of
    [crates/impetus-core/src/policy.rs]: which targets lie inside a workspace.

    Paths are raw strings, as in Rust.  The file system is the class
    [FileSystem]: [canonicalize] and [exists] of the running system, read at one
    instant (a path that changes between the check and its use is outside the
    model). *)

From S2P Require Import Prelude Str.

Open Scope string_scope.
Open Scope nat_scope.
Open Scope list_scope.

(** ** [std::path] *)

Inductive Component := RootDir | CurDir | ParentDir | Normal (name : string).

#[export] Instance Component_eq_dec : EqDecision Component.
Proof. solve_decision. Defined.

Definition is_absolute (p : string) : bool := starts_with p "/".

(** The component a piece between separators stands for, if any. *)
Definition piece_component (p : string) : option Component :=
  if String.eqb p "" then None
  else if String.eqb p "." then None
  else if String.eqb p ".." then Some ParentDir
  else Some (Normal p).

(** Only a leading ["."] of a relative path is a component. *)
Definition first_component (p : string) : option Component :=
  if String.eqb p "." then Some CurDir else piece_component p.

Definition components (p : string) : list Component :=
  match split_on "/" p with
  | [] => []
  | p0 :: ps =>
      (if is_absolute p then [RootDir] else option_list (first_component p0))
        ++ omap piece_component ps
  end.

Definition path_starts_with (p base : string) : bool :=
  bool_decide (components base `prefix_of` components p).

(** [PathBuf::join] *)
Definition path_join (base p : string) : string :=
  if is_absolute p then p
  else if String.eqb base "" then p
  else if ends_with base "/" then base ++ p
  else base ++ "/" ++ p.

(** Pieces of a path, each marked when it is a component of the body. *)
Definition tagged_pieces (p : string) : list (bool * string) :=
  match split_on "/" p with
  | [] => []
  | p0 :: ps =>
      (bool_decide (is_Some (first_component p0)), p0)
        :: ((λ q, (bool_decide (is_Some (piece_component q)), q)) <$> ps)
  end.

Definition untagged (t : bool * string) : bool := negb t.1.

(** [Path::parent]: drop the last component and what trails before it. *)
Definition parent (p : string) : option string :=
  match drop_while untagged (reverse (tagged_pieces p)) with
  | [] => None
  | _ :: rest =>
      match drop_while untagged rest with
      | [] => Some (if is_absolute p then "/" else "")
      | rest' => Some (join "/" (snd <$> reverse rest'))
      end
  end.

(** [Path::file_name] *)
Definition file_name (p : string) : option string :=
  match last (components p) with
  | Some (Normal n) => Some n
  | _ => None
  end.

(** [Ord] of paths: component by component. *)
Definition component_rank (c : Component) : nat :=
  match c with RootDir => 0 | CurDir => 1 | ParentDir => 2 | Normal _ => 3 end.

Definition component_leb (a b : Component) : bool :=
  match a, b with
  | Normal x, Normal y => String.leb x y
  | _, _ => component_rank a <=? component_rank b
  end.

Fixpoint components_leb (l1 l2 : list Component) : bool :=
  match l1, l2 with
  | [], _ => true
  | _, [] => false
  | a :: l1', b :: l2' => if bool_decide (a = b) then components_leb l1' l2' else component_leb a b
  end.

Definition path_le : relation string :=
  λ p q, Is_true (components_leb (components p) (components q)).

#[export] Instance path_le_dec : RelDecision path_le.
Proof. intros p q. unfold path_le. apply _. Defined.

Definition sort_paths (l : list string) : list string := merge_sort path_le l.

(** [Path::extension]: what follows the last dot of the name, unless the name
    starts with that dot. *)
Definition extension (p : string) : option string :=
  match file_name p with
  | None => None
  | Some name =>
      match reverse (split_on "." name) with
      | ext :: (_ :: _ :: _) => Some ext
      | [ext; stem] => if is_empty stem then None else Some ext
      | _ => None
      end
  end.

(** ** The file system *)

Class FileSystem := {
  canonicalize : string → option string;
  path_exists : string → bool;
}.

Class FileSystemLaws `{FileSystem} := {
  (** [canonicalize] fails on exactly the paths that do not exist. *)
  exists_canonicalize p : path_exists p = true ↔ is_Some (canonicalize p);
  (** A canonical path is absolute, without ["."] or [".."]. *)
  canonicalize_clean p q :
    canonicalize p = Some q →
    ∃ names, components q = RootDir :: (Normal <$> names);
}.

(** ** [SandboxScope] *)

Record SandboxScope := mkSandboxScope {
  workspace_root : string;
  allow_network : bool;
  allowed_hosts : list string;
  allow_web_outbound : bool;
  allow_private_network : bool;
}.

#[export] Instance SandboxScope_eq_dec : EqDecision SandboxScope.
Proof. solve_decision. Defined.

Definition local_workspace (root : string) : SandboxScope :=
  mkSandboxScope root false [] false false.

Definition with_network (s : SandboxScope) (allow : bool) : SandboxScope :=
  mkSandboxScope (workspace_root s) allow (allowed_hosts s) (allow_web_outbound s)
    (allow_private_network s).

Definition with_web_outbound (s : SandboxScope) (allow : bool) : SandboxScope :=
  mkSandboxScope (workspace_root s) (allow_network s) (allowed_hosts s) allow
    (allow_private_network s).

Definition with_private_network (s : SandboxScope) (allow : bool) : SandboxScope :=
  mkSandboxScope (workspace_root s) (allow_network s) (allowed_hosts s)
    (allow_web_outbound s) allow.

(** The loop [while !ancestor.exists() { ancestor = ancestor.parent()? }]. *)
Fixpoint nearest_existing `{FileSystem} (fuel : nat) (p : string) : option string :=
  if path_exists p then Some p
  else match fuel with
       | O => None
       | S fuel' =>
           match parent p with
           | None => None
           | Some q => nearest_existing fuel' q
           end
       end.

(** A parent is strictly shorter, so the length of the path is fuel enough
    ([nearest_existing_more]). *)
Definition contains_target `{FileSystem} (s : SandboxScope) (candidate : string)
    (allow_missing_leaf : bool) : bool :=
  match canonicalize (workspace_root s) with
  | None => false
  | Some root =>
      let tgt := if is_absolute candidate then candidate else path_join root candidate in
      match canonicalize tgt with
      | Some t => path_starts_with t root
      | None =>
          if allow_missing_leaf then
            match nearest_existing (String.length tgt) tgt with
            | None => false
            | Some ancestor =>
                match canonicalize ancestor with
                | Some a => path_starts_with a root
                | None => false
                end
            end
          else false
      end
  end.

Definition scope_contains `{FileSystem} (s : SandboxScope) (candidate : string) : bool :=
  contains_target s candidate false.

Definition contains_write_target `{FileSystem} (s : SandboxScope) (candidate : string)
    : bool :=
  contains_target s candidate true.

(** ** Lemmas on paths *)

Lemma join_app sep l1 l2 :
  l1 ≠ [] → l2 ≠ [] → join sep (l1 ++ l2) = (join sep l1 ++ sep ++ join sep l2)%string.
Proof.
  intros Hl1 Hl2. induction l1 as [|x l1 IH]; [done|].
  destruct l1 as [|y l1].
  - cbn [app]. by rewrite join_cons.
  - cbn [app] in *. rewrite join_cons by done. rewrite IH by done.
    rewrite (join_cons _ x (y :: l1)) by done. by rewrite !str_app_assoc.
Qed.

Lemma drop_while_suffix {A} (f : A → bool) l : ∃ k, l = k ++ drop_while f l.
Proof.
  induction l as [|x l [k IH]]; [by exists []|]. cbn.
  destruct (f x); [exists (x :: k); cbn; by f_equal|by exists []].
Qed.

Lemma drop_while_head {A} (f : A → bool) l x l' :
  drop_while f l = x :: l' → f x = false.
Proof.
  induction l as [|y l IH]; [done|]. cbn.
  destruct (f y) eqn:Hy; [done|]. by intros [= -> ->].
Qed.

Lemma tagged_pieces_snd p : snd <$> tagged_pieces p = split_on "/" p.
Proof.
  unfold tagged_pieces. destruct (split_on "/" p) as [|p0 ps]; [done|]. cbn.
  f_equal. rewrite <-list_fmap_compose. by rewrite <-(list_fmap_id ps) at 2.
Qed.

(** A marked piece is not empty. *)
Lemma tagged_pieces_nonempty p q : (true, q) ∈ tagged_pieces p → q ≠ "".
Proof.
  unfold tagged_pieces. destruct (split_on "/" p) as [|p0 ps]; [set_solver|].
  rewrite elem_of_cons, list_elem_of_fmap.
  intros [[= Hs ->]|(r & [= Hs ->] & _)]; symmetry in Hs;
    apply bool_decide_eq_true in Hs as [c Hc]; intros ->; cbn in Hc; done.
Qed.

Lemma length_join_elem q l : q ∈ l → String.length q ≤ String.length (join "/" l).
Proof.
  induction l as [|x l IH]; [set_solver|]. intros Hq.
  destruct l as [|y l].
  { apply list_elem_of_singleton in Hq as ->. done. }
  rewrite join_cons, !length_str_app by done.
  apply elem_of_cons in Hq as [->|Hq]; [lia|]. specialize (IH Hq). cbn in *. lia.
Qed.

Lemma length_join_app l1 l2 :
  l1 ≠ [] → l2 ≠ [] →
  String.length (join "/" (l1 ++ l2)) =
  String.length (join "/" l1) + 1 + String.length (join "/" l2).
Proof.
  intros. rewrite join_app, !length_str_app by done. cbn. lia.
Qed.

Lemma length_nonempty s : s ≠ "" → 0 < String.length s.
Proof. destruct s; [done|]. cbn. lia. Qed.

Lemma split_on_absolute p :
  is_absolute p = true → ∃ ps, split_on "/" p = "" :: ps ∧ ps ≠ [].
Proof.
  destruct p as [|a p]; [done|]. unfold is_absolute, starts_with.
  cbn [String.prefix split_on]. destruct (ascii_dec "/" a) as [<-|Hn]; [|done].
  intros _. rewrite Ascii.eqb_refl. eexists. split; [done|]. apply split_on_nonempty.
Qed.

(** The pieces of a path around its last component. *)
Lemma parent_decompose p x rest :
  drop_while untagged (reverse (tagged_pieces p)) = x :: rest →
  ∃ k, split_on "/" p = (snd <$> reverse rest) ++ x.2 :: k ∧ x.2 ≠ "".
Proof.
  intros Hd. pose proof (drop_while_head _ _ _ _ Hd) as Hx.
  destruct (drop_while_suffix untagged (reverse (tagged_pieces p))) as [k Hk].
  rewrite Hd in Hk. apply (f_equal reverse) in Hk.
  rewrite reverse_involutive, reverse_app, reverse_cons, <-app_assoc in Hk.
  exists (snd <$> reverse k). split.
  - by rewrite <-tagged_pieces_snd, Hk, !fmap_app.
  - destruct x as [b q]. unfold untagged in Hx. cbn in Hx. destruct b; [|done].
    apply (tagged_pieces_nonempty p). rewrite Hk. set_solver.
Qed.

Lemma parent_shorter p q : parent p = Some q → String.length q < String.length p.
Proof.
  unfold parent. destruct (drop_while untagged (reverse _)) as [|x rest] eqn:Hd; [done|].
  destruct (parent_decompose _ _ _ Hd) as (k & Hs & Hx).
  pose proof (length_nonempty _ Hx) as Hlen.
  rewrite <-((join_split_on (c:="/"%char)) p), Hs at 1.
  destruct (drop_while untagged rest) as [|y rest'] eqn:Hr; intros [= <-].
  - destruct (is_absolute p) eqn:Ha.
    + apply split_on_absolute in Ha as (ps & Hps & Hne).
      rewrite <-Hs, Hps, join_cons, !length_str_app by done.
      assert (x.2 ∈ ps) as Hin.
      { assert (x.2 ∈ "" :: ps) as Hin by (rewrite <-Hps, Hs; set_solver).
        set_solver. }
      pose proof (length_join_elem _ _ Hin). cbn. lia.
    + assert (x.2 ∈ (snd <$> reverse rest) ++ x.2 :: k) as Hin by set_solver.
      pose proof (length_join_elem _ _ Hin). cbn. lia.
  - destruct (drop_while_suffix untagged rest) as [k' Hk']. rewrite Hr in Hk'.
    rewrite Hk', reverse_app, fmap_app, <-app_assoc, length_join_app; [lia|..].
    + rewrite reverse_cons, fmap_app. by destruct (snd <$> reverse rest').
    + by destruct (snd <$> reverse k').
Qed.

(** ** The nearest existing ancestor *)

Section scope.
Context `{FS : FileSystem}.

(** The chain of parents of a path, nearest first. *)
Definition is_ancestor : string → string → Prop := rtc (λ p q, parent p = Some q).

(** The first path of the parent chain that exists. *)
Definition nearest_existing_ancestor (p a : string) : Prop :=
  is_ancestor p a ∧ path_exists a = true ∧
  ∀ b, is_ancestor p b → is_ancestor b a → b ≠ a → path_exists b = false.

Lemma nearest_existing_more fuel fuel' p :
  String.length p ≤ fuel → String.length p ≤ fuel' →
  nearest_existing fuel p = nearest_existing fuel' p.
Proof.
  revert fuel' p. induction fuel as [|fuel IH]; intros fuel' p Hf Hf'.
  - destruct fuel'; cbn; [done|]. destruct (path_exists p); [done|].
    destruct (parent p) eqn:Hp; [|done]. apply parent_shorter in Hp. lia.
  - destruct fuel' as [|fuel']; cbn; destruct (path_exists p); try done;
      destruct (parent p) as [q|] eqn:Hp; try done.
    + apply parent_shorter in Hp. lia.
    + apply parent_shorter in Hp. apply IH; lia.
Qed.

(** Running out of fuel does not happen: when the loop gives nothing, the
    whole parent chain is missing. *)
Lemma nearest_existing_none fuel p a :
  String.length p ≤ fuel → nearest_existing fuel p = None →
  is_ancestor p a → path_exists a = false.
Proof.
  intros Hf Hn Ha. revert fuel Hf Hn.
  induction Ha as [p|p q a Hpq _ IH]; intros [|fuel] Hf Hn; cbn in Hn;
    destruct (path_exists p) eqn:He; try done.
  - exfalso. apply parent_shorter in Hpq. lia.
  - rewrite Hpq in Hn. apply parent_shorter in Hpq. apply (IH fuel); [lia|done].
Qed.

Lemma is_ancestor_length p a : is_ancestor p a → p = a ∨ String.length a < String.length p.
Proof.
  induction 1 as [p|p q a Hpq _ [->|IH]]; [by left|..]; right;
    apply parent_shorter in Hpq; lia.
Qed.

Lemma nearest_existing_some fuel p a :
  nearest_existing fuel p = Some a → nearest_existing_ancestor p a.
Proof.
  revert p. induction fuel as [|fuel IH]; intros p; cbn;
    destruct (path_exists p) eqn:He; try done.
  1, 2: intros [= ->]; split; [constructor|]; split; [done|]; intros b Hb Hb' Hne;
    destruct (is_ancestor_length _ _ Hb) as [->|?]; [done|];
    destruct (is_ancestor_length _ _ Hb') as [->|?]; [done|lia].
  destruct (parent p) as [q|] eqn:Hpq; [|done]. intros Hn.
  destruct (IH _ Hn) as (Hanc & Hex & Hbetween).
  split; [by eapply rtc_l|]. split; [done|]. intros b Hb Hba Hne.
  inversion Hb as [|? r ? Hpr Hrb]; subst; [done|].
  rewrite Hpq in Hpr. injection Hpr as <-. eauto.
Qed.

Lemma nearest_existing_complete fuel p a :
  String.length p ≤ fuel → nearest_existing_ancestor p a →
  nearest_existing fuel p = Some a.
Proof.
  intros Hf (Hanc & Hex & Hbetween).
  destruct (nearest_existing fuel p) as [b|] eqn:Hn.
  - destruct (nearest_existing_some _ _ _ Hn) as (Hb & Hbe & Hbb).
    assert (is_ancestor a b ∨ is_ancestor b a) as [Hab|Hba].
    { clear -Hanc Hb. induction Hanc as [p|p q a Hpq Hqa IH]; [by left|].
      inversion Hb as [|? r ? Hpr Hrb]; subst; [right; by eapply rtc_l|].
      rewrite Hpq in Hpr. injection Hpr as <-. auto. }
    + destruct (decide (a = b)) as [->|Hne]; [done|].
      by rewrite Hbb in Hex.
    + destruct (decide (b = a)) as [->|Hne]; [done|].
      by rewrite Hbetween in Hbe.
  - exfalso. by rewrite (nearest_existing_none fuel p a) in Hex.
Qed.
End scope.

(** ** What the two containment checks decide *)

Definition scope_target (root candidate : string) : string :=
  if is_absolute candidate then candidate else path_join root candidate.

Section containment.
Context `{FSL : FileSystemLaws}.

Lemma nearest_existing_ancestor_self p :
  path_exists p = true → nearest_existing_ancestor p p.
Proof.
  intros Hp. split; [constructor|]. split; [done|]. intros b Hb Hb' Hne.
  destruct (is_ancestor_length _ _ Hb) as [->|?]; [done|].
  destruct (is_ancestor_length _ _ Hb') as [->|?]; [done|lia].
Qed.

Lemma nearest_existing_ancestor_unique p a b :
  nearest_existing_ancestor p a → nearest_existing_ancestor p b → a = b.
Proof.
  intros Ha Hb.
  apply (nearest_existing_complete (String.length p)) in Ha; [|lia].
  apply (nearest_existing_complete (String.length p)) in Hb; [|lia].
  congruence.
Qed.

Lemma scope_contains_spec s c :
  scope_contains s c = true ↔
  ∃ root real, canonicalize (workspace_root s) = Some root ∧
    canonicalize (scope_target root c) = Some real ∧
    components root `prefix_of` components real.
Proof.
  unfold scope_contains, contains_target. fold scope_target.
  destruct (canonicalize (workspace_root s)) as [root|]; [|naive_solver].
  change (if is_absolute c then c else path_join root c) with (scope_target root c).
  destruct (canonicalize (scope_target root c)) as [t|] eqn:Ht; [|naive_solver].
  unfold path_starts_with. rewrite bool_decide_eq_true. naive_solver.
Qed.

(** A write target is inside the workspace scope exactly when the nearest
    existing ancestor of the resolved target has a canonical location under
    the canonical workspace root.  The parent-walking loop terminates on every
    path and finds that ancestor. *)
Theorem contains_write_target_spec s c :
  contains_write_target s c = true ↔
  ∃ root anc real, canonicalize (workspace_root s) = Some root ∧
    nearest_existing_ancestor (scope_target root c) anc ∧
    canonicalize anc = Some real ∧
    components root `prefix_of` components real.
Proof.
  unfold contains_write_target, contains_target.
  destruct (canonicalize (workspace_root s)) as [root|]; [|naive_solver].
  change (if is_absolute c then c else path_join root c) with (scope_target root c).
  set (tgt := scope_target root c).
  destruct (canonicalize tgt) as [t|] eqn:Ht.
  - assert (nearest_existing_ancestor tgt tgt) as Hself.
    { apply nearest_existing_ancestor_self, exists_canonicalize. eauto. }
    unfold path_starts_with. rewrite bool_decide_eq_true. split.
    + intros Hpre. by exists root, tgt, t.
    + intros (? & anc & real & [= <-] & Hanc & Hreal & Hpre).
      by rewrite <-(nearest_existing_ancestor_unique _ _ _ Hself Hanc), Ht in Hreal;
        simplify_eq.
  - destruct (nearest_existing (String.length tgt) tgt) as [anc|] eqn:Hn.
    + apply nearest_existing_some in Hn.
      assert (is_Some (canonicalize anc)) as [real Hreal].
      { apply exists_canonicalize, Hn. }
      rewrite Hreal. unfold path_starts_with. rewrite bool_decide_eq_true. split.
      * intros Hpre. by exists root, anc, real.
      * intros (? & anc' & real' & [= <-] & Hanc & Hreal' & Hpre).
        rewrite <-(nearest_existing_ancestor_unique _ _ _ Hn Hanc) in Hreal'.
        naive_solver.
    + split; [done|]. intros (? & anc & real & [= <-] & (Hanc & Hex & _) & _).
      by rewrite (nearest_existing_none (String.length tgt) tgt anc) in Hex.
Qed.

(** What may be read may also be written, as far as containment goes. *)
Lemma read_scope_in_write_scope s c :
  scope_contains s c = true → contains_write_target s c = true.
Proof.
  unfold scope_contains, contains_write_target, contains_target.
  repeat case_match; done.
Qed.
End containment.

(** ** A directory-tree file system

    Existing directories are listed by their absolute names; there are no
    symbolic links, and relative paths start at the root. *)

Fixpoint tree_resolve (nodes : list (list string)) (cur : list string)
    (cs : list Component) : option (list string) :=
  match cs with
  | [] => Some cur
  | RootDir :: cs => tree_resolve nodes [] cs
  | CurDir :: cs => tree_resolve nodes cur cs
  | ParentDir :: cs => tree_resolve nodes (reverse (tail (reverse cur))) cs
  | Normal n :: cs =>
      if bool_decide (cur ++ [n] ∈ nodes) then tree_resolve nodes (cur ++ [n]) cs else None
  end.

Definition render_path (names : list string) : string := "/" ++ join "/" names.

Definition tree_fs (nodes : list (list string)) : FileSystem := {|
  canonicalize p := render_path <$> tree_resolve nodes [] (components p);
  path_exists p := bool_decide (is_Some (tree_resolve nodes [] (components p)));
|}.

(** Names that can be read back from a path. *)
Definition plain_name (n : string) : bool :=
  negb (existsb (Ascii.eqb "/") (String.list_ascii_of_string n))
  && bool_decide (piece_component n = Some (Normal n)).

Lemma split_on_plain n :
  existsb (Ascii.eqb "/") (String.list_ascii_of_string n) = false → split_on "/" n = [n].
Proof.
  induction n as [|a n IH]; [done|].
  cbn [existsb String.list_ascii_of_string split_on]. intros [Ha Hn]%orb_false_iff.
  rewrite IH by done. by rewrite Ascii.eqb_sym, Ha.
Qed.

Lemma split_on_app_sep n s :
  existsb (Ascii.eqb "/") (String.list_ascii_of_string n) = false →
  split_on "/" (n ++ String "/" s)%string = n :: split_on "/" s.
Proof.
  induction n as [|a n IH]; [done|].
  cbn [existsb String.list_ascii_of_string split_on String.append].
  intros [Ha Hn]%orb_false_iff.
  rewrite IH by done. by rewrite Ascii.eqb_sym, Ha.
Qed.

Lemma omap_pieces_join names :
  Forall (λ n, plain_name n = true) names →
  omap piece_component (split_on "/" (join "/" names)) = Normal <$> names.
Proof.
  induction names as [|n names IH]; [done|]. intros [Hn Hns]%Forall_cons.
  apply andb_true_iff in Hn as [Hs%negb_true_iff Hc%bool_decide_eq_true].
  destruct names as [|m names].
  - cbn [join]. rewrite split_on_plain by done. cbn. by rewrite Hc.
  - rewrite join_cons by done. change ("/" ++ ?x)%string with (String "/" x).
    rewrite split_on_app_sep by done. cbn [omap list_omap].
    rewrite Hc. specialize (IH Hns). cbn [omap] in IH. by rewrite IH.
Qed.

Lemma components_render names :
  Forall (λ n, plain_name n = true) names →
  components (render_path names) = RootDir :: (Normal <$> names).
Proof.
  intros Hns. unfold components, render_path.
  change ("/" ++ join "/" names)%string with (String "/" (join "/" names)).
  cbn [split_on]. rewrite Ascii.eqb_refl.
  change (is_absolute (String "/" (join "/" names))) with
    (String.prefix "" (join "/" names)).
  destruct (join "/" names) eqn:Hj; cbn [String.prefix app]; f_equal;
    rewrite <-Hj; by apply omap_pieces_join.
Qed.

Lemma tree_resolve_plain nodes cur cs l :
  Forall (Forall (λ n, plain_name n = true)) nodes →
  Forall (λ n, plain_name n = true) cur →
  tree_resolve nodes cur cs = Some l → Forall (λ n, plain_name n = true) l.
Proof.
  intros Hnodes. revert cur. induction cs as [|[| | |n] cs IH]; intros cur Hcur; cbn.
  - by intros [= <-].
  - apply IH. constructor.
  - by apply IH.
  - apply IH. rewrite Forall_forall in Hcur |- *. intros x.
    rewrite elem_of_reverse. intros Hx. apply Hcur, elem_of_reverse.
    destruct (reverse cur); set_solver.
  - case_bool_decide as Hin; [|done]. apply IH.
    rewrite Forall_forall in Hnodes. by apply Hnodes.
Qed.

Lemma tree_fs_laws nodes :
  Forall (Forall (λ n, plain_name n = true)) nodes → @FileSystemLaws (tree_fs nodes).
Proof.
  intros Hnodes. split; cbn [tree_fs canonicalize path_exists].
  - intros p. rewrite bool_decide_eq_true. by rewrite fmap_is_Some.
  - intros p q (l & Hl & ->)%fmap_Some. exists l.
    apply components_render, (tree_resolve_plain nodes [] (components p));
      [done|constructor|done].
Qed.

(** The workspace [/ws] with one directory [src]. *)
Definition sample_nodes : list (list string) := [["ws"]; ["ws"; "src"]; ["etc"]].
Definition sample_fs : FileSystem := tree_fs sample_nodes.

Lemma sample_fs_laws : @FileSystemLaws sample_fs.
Proof. apply tree_fs_laws. repeat constructor. Qed.

(** ** Lexical resolution

    What a path names once its missing directories are created: ["."] and
    [".."] resolved on the names alone, [None] when it climbs above the start. *)

Fixpoint lexical_walk (cur : list string) (cs : list Component) : option (list string) :=
  match cs with
  | [] => Some cur
  | RootDir :: cs => lexical_walk [] cs
  | CurDir :: cs => lexical_walk cur cs
  | ParentDir :: cs =>
      match reverse cur with [] => None | _ :: r => lexical_walk (reverse r) cs end
  | Normal n :: cs => lexical_walk (cur ++ [n]) cs
  end.

(** The write-scope check looks at the nearest existing ancestor only, so a
    target that climbs out of the workspace behind a directory that does not
    exist yet is accepted: in a tree with [/ws], [/ws/src] and [/etc], the target
    [missing/../../etc/passwd] of workspace [/ws] is inside the write scope, while
    it names [/etc/passwd] as soon as [/ws/missing] exists. *)
Theorem write_scope_accepts_missing_dir_escape :
  @contains_write_target sample_fs (local_workspace "/ws") "missing/../../etc/passwd" = true
  ∧ lexical_walk ["ws"] (components "missing/../../etc/passwd") = Some ["etc"; "passwd"]
  ∧ @contains_write_target (tree_fs (["ws"; "missing"] :: sample_nodes))
      (local_workspace "/ws") "missing/../../etc/passwd" = false.
Proof. vm_compute. done. Qed.

Lemma contains_write_target_spec_witness :
  @contains_write_target sample_fs (local_workspace "/ws") "src/new/file.rs" = true.
Proof.
  apply (@contains_write_target_spec sample_fs sample_fs_laws).
  exists "/ws", "/ws/src", "/ws/src". split; [reflexivity|]. split.
  - apply (@nearest_existing_some sample_fs 30). reflexivity.
  - split; [reflexivity|]. exists [Normal "src"]. reflexivity.
Defined.
