(* ===== verification/WebSecurity.v ===== *)
(** * Web egress: addresses, URLs and the redirect-following client

    [crates/impetus-core/src/web_research/security.rs] (address classes,
    [EgressPolicy], [target_requires_private_read]) and the request loop of
    [SecureHttpClient] in [crates/impetus-core/src/web_research/http.rs].

    The [url] crate, the DNS resolver and the HTTP transport are parameters.
    [IpAddr] parsing and printing follow [core::net].  Error values keep their
    [WebErrorKind]; the message texts are left out. *)

From Stdlib Require Import ZifyBool ZifyN Btauto.
From S2P Require Import Prelude Str.

Open Scope string_scope.
Open Scope nat_scope.
Open Scope list_scope.

(** ** [std::net::IpAddr] *)

Inductive IpAddr :=
  | V4 (a b c d : N)
  | V6 (segments : list N).

#[export] Instance IpAddr_eq_dec : EqDecision IpAddr.
Proof. solve_decision. Defined.

(** Octets are bytes, and an IPv6 address has eight 16-bit segments. *)
Definition ip_wf (ip : IpAddr) : Prop :=
  match ip with
  | V4 a b c d => (a < 256 ∧ b < 256 ∧ c < 256 ∧ d < 256)%N
  | V6 segs => length segs = 8 ∧ Forall (λ x, (x < 65536)%N) segs
  end.

(** *** Parsing *)

Abbreviation input := (list ascii) (only parsing).

Definition to_digit (radix : N) (a : ascii) : option N :=
  let b := byte a in
  let d :=
    if ((48 <=? b) && (b <=? 57))%N then Some (b - 48)%N
    else if ((97 <=? b) && (b <=? 122))%N then Some (b - 87)%N
    else if ((65 <=? b) && (b <=? 90))%N then Some (b - 55)%N
    else None in
  match d with
  | Some v => if (v <? radix)%N then Some v else None
  | None => None
  end.

(** The digit loop of [read_number]: value, number of digits, remaining input;
    [None] past [max_digits]. *)
Fixpoint read_digits (radix : N) (max_digits : nat) (acc : N) (count : nat) (s : input)
    : option (N * nat * input) :=
  match s with
  | [] => Some (acc, count, s)
  | a :: s' =>
      match to_digit radix a with
      | None => Some (acc, count, s)
      | Some d =>
          if max_digits <? S count then None
          else read_digits radix max_digits (acc * radix + d)%N (S count) s'
      end
  end%nat.

Definition read_number (radix : N) (max_digits : nat) (allow_zero_prefix : bool)
    (bound : N) (s : input) : option (N * input) :=
  match read_digits radix max_digits 0 0 s with
  | None => None
  | Some (v, count, rest) =>
      if count =? 0 then None
      else if negb allow_zero_prefix
              && match s with a :: _ => Ascii.eqb a "0" | [] => false end
              && (1 <? count) then None
      else if (v <? bound)%N then Some (v, rest) else None
  end%nat.

Definition read_char (c : ascii) (s : input) : option input :=
  match s with a :: s' => if Ascii.eqb a c then Some s' else None | [] => None end.

(** [read_separator]: the separator comes before every element but the first. *)
Definition read_separator {A} (sep : ascii) (index : nat)
    (inner : input → option (A * input)) (s : input) : option (A * input) :=
  match index with
  | O => inner s
  | S _ => match read_char sep s with Some s' => inner s' | None => None end
  end.

Definition read_octet : input → option (N * input) := read_number 10 3 false 256.

Definition read_ipv4 (s : input) : option ((N * N * N * N) * input) :=
  '(a, s) ← read_separator "." 0 read_octet s;
  '(b, s) ← read_separator "." 1 read_octet s;
  '(c, s) ← read_separator "." 2 read_octet s;
  '(d, s) ← read_separator "." 3 read_octet s;
  Some ((a, b, c, d), s).

(** [read_groups] on a slice of [limit] slots, at slot [i]: the groups read, and
    whether an embedded IPv4 address ended them. *)
Fixpoint read_groups (limit i fuel : nat) (s : input) : list N * bool * input :=
  match fuel with
  | O => ([], false, s)
  | S fuel' =>
      let v4 := if i <? limit - 1 then read_separator ":" i read_ipv4 s else None in
      match v4 with
      | Some ((a, b, c, d), s') => ([a * 256 + b; c * 256 + d]%N, true, s')
      | None =>
          match read_separator ":" i (read_number 16 4 true 65536) s with
          | None => ([], false, s)
          | Some (g, s') =>
              let '(gs, v4, s'') := read_groups limit (S i) fuel' s' in
              (g :: gs, v4, s'')
          end
      end
  end%nat.

Definition read_ipv6 (s : input) : option (list N * input) :=
  let '(head, head_ipv4, s1) := read_groups 8 0 8 s in
  if (length head =? 8)%nat then Some (head, s1)
  else if head_ipv4 then None
  else
    s2 ← read_char ":" s1;
    s3 ← read_char ":" s2;
    let limit := 8 - (length head + 1) in
    let '(tail, _, s4) := read_groups limit 0 limit s3 in
    Some (head ++ replicate (8 - length head - length tail) 0%N ++ tail, s4).

(** [str::parse::<IpAddr>] *)
Definition parse_ip (host : string) : option IpAddr :=
  let s := String.list_ascii_of_string host in
  let parsed :=
    match read_ipv4 s with
    | Some ((a, b, c, d), rest) => Some (V4 a b c d, rest)
    | None => match read_ipv6 s with Some (segs, rest) => Some (V6 segs, rest) | None => None end
    end in
  match parsed with
  | Some (ip, []) => Some ip
  | _ => None
  end.

(** *** Printing (used as a sort key) *)

Fixpoint hex_of_fuel (fuel : nat) (n : N) (acc : string) : string :=
  match fuel with
  | O => acc
  | S fuel' =>
      let d := (n `mod` 16)%N in
      let acc' := String (ascii_of_N (if (d <? 10)%N then 48 + d else 87 + d)) acc in
      if (n <? 16)%N then acc' else hex_of_fuel fuel' (n `div` 16)%N acc'
  end.
Definition hex_u16 (n : N) : string := hex_of_fuel 4 n "".

Definition show_v4 (a b c d : N) : string :=
  dec a ++ "." ++ dec b ++ "." ++ dec c ++ "." ++ dec d.

(** Length of the run of zero segments at the head. *)
Fixpoint zero_run (l : list N) : nat :=
  match l with
  | x :: l' => if (x =? 0)%N then S (zero_run l') else O
  | [] => O
  end.

(** First longest run of zero segments, as (start, length). *)
Fixpoint longest_zero_run (i : nat) (l : list N) : nat * nat :=
  match l with
  | [] => (0, 0)
  | _ :: l' =>
      let here := zero_run l in
      let '(start, len) := longest_zero_run (S i) l' in
      if (len <=? here)%nat then (i, here) else (start, len)
  end.

Definition show_v6 (segs : list N) : string :=
  match segs with
  | [0; 0; 0; 0; 0; 65535; x; y]%N =>
      "::ffff:" ++ show_v4 (x `div` 256) (x `mod` 256) (y `div` 256) (y `mod` 256)
  | _ =>
      let '(start, len) := longest_zero_run 0 segs in
      if (1 <? len)%nat
      then join ":" (hex_u16 <$> take start segs) ++ "::"
             ++ join ":" (hex_u16 <$> drop (start + len) segs)
      else join ":" (hex_u16 <$> segs)
  end.

Abbreviation SocketAddr := (IpAddr * N)%type.

Definition show_socket_addr (a : SocketAddr) : string :=
  match a.1 with
  | V4 x y z w => show_v4 x y z w ++ ":" ++ dec a.2
  | V6 segs => "[" ++ show_v6 segs ++ "]:" ++ dec a.2
  end.

(** ** Address classes *)

Inductive AddressClass := Public | Private | NonRoutable.

#[export] Instance AddressClass_eq_dec : EqDecision AddressClass.
Proof. solve_decision. Defined.

Definition v4_is_unspecified (a b c d : N) : bool :=
  ((a =? 0) && (b =? 0) && (c =? 0) && (d =? 0))%N.
Definition v4_is_multicast (a : N) : bool := ((224 <=? a) && (a <=? 239))%N.
Definition v4_is_broadcast (a b c d : N) : bool :=
  ((a =? 255) && (b =? 255) && (c =? 255) && (d =? 255))%N.
Definition v4_is_private (a b : N) : bool :=
  ((a =? 10) || ((a =? 172) && (16 <=? b) && (b <=? 31)) || ((a =? 192) && (b =? 168)))%N.
Definition v4_is_loopback (a : N) : bool := (a =? 127)%N.
Definition v4_is_link_local (a b : N) : bool := ((a =? 169) && (b =? 254))%N.

Definition classify_v4 (a b c d : N) : AddressClass :=
  if ((a =? 0)
      || v4_is_unspecified a b c d
      || v4_is_multicast a
      || v4_is_broadcast a b c d
      || (240 <=? a)
      || ((a =? 192) && (b =? 0) && (c =? 0))
      || ((a =? 192) && (b =? 0) && (c =? 2))
      || ((a =? 192) && (b =? 88) && (c =? 99))
      || ((a =? 198) && (18 <=? b) && (b <=? 19))
      || ((a =? 198) && (b =? 51) && (c =? 100))
      || ((a =? 203) && (b =? 0) && (c =? 113)))%N
  then NonRoutable
  else if (v4_is_private a b
           || v4_is_loopback a
           || v4_is_link_local a b
           || ((a =? 100) && (64 <=? b) && (b <=? 127)))%N
  then Private
  else Public.

Definition to_ipv4_mapped (segs : list N) : option (N * N * N * N) :=
  match segs with
  | [0; 0; 0; 0; 0; 65535; x; y]%N =>
      Some (x `div` 256, x `mod` 256, y `div` 256, y `mod` 256)%N
  | _ => None
  end.

Definition segment (segs : list N) (i : nat) : N := default 0%N (segs !! i).

Definition classify_v6 (segs : list N) : AddressClass :=
  match to_ipv4_mapped segs with
  | Some (a, b, c, d) => classify_v4 a b c d
  | None =>
      let first := segment segs 0 in
      if bool_decide (segs = replicate 8 0%N)
         || (N.land first 65280 =? 65280)%N
         || ((first =? 8193) && (segment segs 1 =? 3512))%N
      then NonRoutable
      else if bool_decide (segs = replicate 7 0%N ++ [1%N])
              || (N.land first 65024 =? 64512)%N
              || (N.land first 65472 =? 65152)%N
              || (N.land first 65472 =? 65216)%N
      then Private
      else Public
  end.

Definition classify_address (ip : IpAddr) : AddressClass :=
  match ip with
  | V4 a b c d => classify_v4 a b c d
  | V6 segs => classify_v6 segs
  end.

(** ** Egress policy *)

Inductive WebErrorKind :=
  | InvalidRequest | InvalidUrl | UnsupportedScheme | CredentialsInUrl | PortBlocked
  | HostBlocked | AddressBlocked | DnsResolutionFailed | RedirectLimit
  | RedirectMissingLocation | Transport.

#[export] Instance WebErrorKind_eq_dec : EqDecision WebErrorKind.
Proof. solve_decision. Defined.

(** What the [url] crate reports of a parsed URL.  [url_text] is its
    serialisation; [host_str] gives IPv6 literals between brackets. *)
Record Url := mkUrl {
  url_text : string;
  url_scheme : string;
  url_username : string;
  url_password : option string;
  url_port_or_known_default : option N;
  url_host_str : option string;
}.

Class UrlCrate := {
  url_parse : string → option Url;
  url_join : Url → string → option Url;
}.

Record EgressPolicy := mkEgressPolicy {
  egress_allow_private_network : bool;
  allowed_ports : list N;
  blocked_host_suffixes : list string;
}.

Definition EgressPolicy_default : EgressPolicy :=
  mkEgressPolicy false [80; 443]%N
    ["localhost"; ".localhost"; ".local"; ".internal"; ".home.arpa"].

Definition EgressPolicy_with_private_network (allow : bool) : EgressPolicy :=
  mkEgressPolicy allow (allowed_ports EgressPolicy_default)
    (blocked_host_suffixes EgressPolicy_default).

Definition host_is_blocked (p : EgressPolicy) (host : string) : bool :=
  existsb (λ entry,
    match strip_prefix "." entry with
    | Some suffix => String.eqb host suffix || ends_with host entry
    | None => String.eqb host entry
    end) (blocked_host_suffixes p).

Definition enforce_address (p : EgressPolicy) (ip : IpAddr) : result WebErrorKind () :=
  match classify_address ip with
  | Public => Ok tt
  | Private => if egress_allow_private_network p then Ok tt else Err AddressBlocked
  | NonRoutable => Err AddressBlocked
  end.

Definition normalize_host (host : string) : string :=
  to_ascii_lowercase (trim_end_matches "." host).

Definition validate_url `{UrlCrate} (p : EgressPolicy) (raw : string)
    : result WebErrorKind Url :=
  url ← ok_or (url_parse raw) InvalidUrl;
  if negb (String.eqb (url_scheme url) "http" || String.eqb (url_scheme url) "https")
  then Err UnsupportedScheme
  else if negb (is_empty (url_username url)) || bool_decide (is_Some (url_password url))
  then Err CredentialsInUrl
  else
    port ← ok_or (url_port_or_known_default url) PortBlocked;
    if negb (bool_decide (port ∈ allowed_ports p)) then Err PortBlocked
    else
      host ← ok_or (url_host_str url) InvalidUrl;
      let normalized := normalize_host host in
      if negb (egress_allow_private_network p) && host_is_blocked p normalized
      then Err HostBlocked
      else
        match parse_ip normalized with
        | Some ip => _ ← enforce_address p ip; Ok url
        | None => Ok url
        end.

Definition target_requires_private_read `{UrlCrate} (target : string) : bool :=
  let host := default target (u ← url_parse target; url_host_str u) in
  let normalized := normalize_host host in
  if host_is_blocked EgressPolicy_default normalized then true
  else match parse_ip normalized with
       | Some ip => bool_decide (classify_address ip = Private)
       | None => false
       end.

(** ** [SecureHttpClient]: requests and redirects *)

Inductive RequestMode := Get | PostForm (form : list (string * string)).

Record PreparedRequest := mkPreparedRequest {
  req_url : Url;
  req_resolved_addr : SocketAddr;
  req_max_bytes : N;
  req_mode : RequestMode;
}.

(** [resp_location]: the Location header, [Some None] when it is not text. *)
Record RawHttpResponse := mkRawHttpResponse {
  resp_status : N;
  resp_location : option (option string);
  resp_body : string;
  resp_body_truncated : bool;
}.

Record SecureHttpResponse := mkSecureHttpResponse {
  requested_url : string;
  final_url : string;
  redirect_chain : list string;
  final_status : N;
  final_body : string;
  final_body_truncated : bool;
}.

(** The resolver and the transport, with the state of the outside world they
    read and change. *)
Class WebEnv (W : Type) := {
  dns_resolve : W → string → N → W * result WebErrorKind (list SocketAddr);
  http_send : W → PreparedRequest → W * result WebErrorKind RawHttpResponse;
}.

Record SecureHttpClient := mkSecureHttpClient {
  client_egress : EgressPolicy;
  max_redirects : nat;
}.

(** [sort_by_key(to_string)], a stable sort, then [dedup]. *)
Fixpoint insert_by_key (a : SocketAddr) (l : list SocketAddr) : list SocketAddr :=
  match l with
  | [] => [a]
  | b :: l' =>
      if String.ltb (show_socket_addr b) (show_socket_addr a)
      then b :: insert_by_key a l' else a :: l
  end.
Definition sort_addresses (l : list SocketAddr) : list SocketAddr :=
  foldr insert_by_key [] l.

Fixpoint dedup_addresses (l : list SocketAddr) : list SocketAddr :=
  match l with
  | a :: ((b :: _) as l') =>
      if bool_decide (a = b) then dedup_addresses l' else a :: dedup_addresses l'
  | _ => l
  end.

Fixpoint enforce_all (p : EgressPolicy) (l : list SocketAddr) : result WebErrorKind () :=
  match l with
  | [] => Ok tt
  | a :: l' => _ ← enforce_address p a.1; enforce_all p l'
  end.

Definition is_redirect_status (status : N) : bool :=
  bool_decide (status ∈ [301; 302; 303; 307; 308]%N).

Section client.
Context `{UrlCrate} {W : Type} `{!WebEnv W}.

Definition resolve_and_validate (c : SecureHttpClient) (w : W) (url : Url)
    : W * result WebErrorKind SocketAddr :=
  match url_host_str url, url_port_or_known_default url with
  | None, _ => (w, Err InvalidUrl)
  | Some _, None => (w, Err PortBlocked)
  | Some host, Some port =>
      let '(w, addresses) :=
        match parse_ip host with
        | Some ip => (w, Ok [(ip, port)])
        | None => dns_resolve w host port
        end in
      (w, addresses ← addresses;
          let addresses := dedup_addresses (sort_addresses addresses) in
          match addresses with
          | [] => Err DnsResolutionFailed
          | first :: _ => _ ← enforce_all (client_egress c) addresses; Ok first
          end)
  end.

Definition next_mode (mode : RequestMode) (status : N) : RequestMode :=
  match mode with
  | PostForm _ => if bool_decide (status ∈ [301; 302; 303]%N) then Get else mode
  | Get => Get
  end.

(** The target of a redirect response. *)
Definition next_url (c : SecureHttpClient) (current : Url) (r : RawHttpResponse)
    : result WebErrorKind Url :=
  location ← ok_or (resp_location r) RedirectMissingLocation;
  location ← ok_or location RedirectMissingLocation;
  next ← ok_or (url_join current location) InvalidUrl;
  validate_url (client_egress c) (url_text next).

(** One hop per step, [hops] redirects left; the requests sent come out as a
    trace, in order. *)
Fixpoint execute_hops (c : SecureHttpClient) (hops : nat) (w : W) (requested : string)
    (current : Url) (mode : RequestMode) (chain : list string) (max_bytes : N)
    : W * list PreparedRequest * result WebErrorKind SecureHttpResponse :=
  match resolve_and_validate c w current with
  | (w, Err e) => (w, [], Err e)
  | (w, Ok addr) =>
      let req := mkPreparedRequest current addr max_bytes mode in
      match http_send w req with
      | (w, Err e) => (w, [req], Err e)
      | (w, Ok r) =>
          if negb (is_redirect_status (resp_status r)) then
            (w, [req], Ok (mkSecureHttpResponse requested (url_text current) chain
                             (resp_status r) (resp_body r) (resp_body_truncated r)))
          else
            match hops with
            | O => (w, [req], Err RedirectLimit)
            | S hops' =>
                match next_url c current r with
                | Err e => (w, [req], Err e)
                | Ok next =>
                    let '(w, trace, res) :=
                      execute_hops c hops' w requested next
                        (next_mode mode (resp_status r))
                        (chain ++ [url_text next]) max_bytes in
                    (w, req :: trace, res)
                end
            end
      end
  end.

Definition http_execute (c : SecureHttpClient) (w : W) (raw_url : string)
    (max_bytes : N) (mode : RequestMode)
    : W * list PreparedRequest * result WebErrorKind SecureHttpResponse :=
  if (max_bytes =? 0)%N then (w, [], Err InvalidRequest)
  else
    match validate_url (client_egress c) raw_url with
    | Err e => (w, [], Err e)
    | Ok url => execute_hops c (max_redirects c) w raw_url url mode [] max_bytes
    end.
End client.

(** ** Lemmas *)

Lemma dedup_addresses_elem a l : a ∈ dedup_addresses l ↔ a ∈ l.
Proof.
  induction l as [|x [|y l] IH]; [done..|].
  change (dedup_addresses (x :: y :: l)) with
    (if bool_decide (x = y) then dedup_addresses (y :: l) else x :: dedup_addresses (y :: l)).
  case_bool_decide as Hxy.
  - subst. rewrite IH. set_solver.
  - rewrite elem_of_cons, IH. set_solver.
Qed.

Lemma enforce_all_ok p l :
  enforce_all p l = Ok tt ↔ Forall (λ a, enforce_address p a.1 = Ok tt) l.
Proof.
  induction l as [|a l IH]; cbn; [by split|].
  rewrite Forall_cons, <-IH. destruct (enforce_address p a.1) as [[]|]; cbn; naive_solver.
Qed.

Lemma enforce_address_ok p ip :
  enforce_address p ip = Ok tt ↔
  classify_address ip = Public ∨
  classify_address ip = Private ∧ egress_allow_private_network p = true.
Proof.
  unfold enforce_address.
  destruct (classify_address ip), (egress_allow_private_network p); naive_solver.
Qed.

(** [validate_url] accepts a raw URL exactly when it parses to an http or
    https URL without credentials, on an allowed port, whose normalised host is
    not a blocked local name (unless private networks are granted) and, when the
    host is an address literal, is public (or private with the grant). *)
Theorem validate_url_spec `{UrlCrate} p raw u :
  validate_url p raw = Ok u ↔
  url_parse raw = Some u ∧
  (url_scheme u = "http" ∨ url_scheme u = "https") ∧
  url_username u = "" ∧ url_password u = None ∧
  (∃ port, url_port_or_known_default u = Some port ∧ port ∈ allowed_ports p) ∧
  (∃ host, url_host_str u = Some host ∧
     (egress_allow_private_network p = false →
      host_is_blocked p (normalize_host host) = false) ∧
     (∀ ip, parse_ip (normalize_host host) = Some ip → enforce_address p ip = Ok tt)).
Proof.
  unfold validate_url, is_empty. split.
  - destruct (url_parse raw) as [v|]; cbn; [|done].
    destruct (_ || _) eqn:Hscheme; cbn; [|done].
    destruct (String.eqb_spec (url_username v) "") as [Hu|]; cbn; [|done].
    destruct (url_password v) eqn:Hpw; cbn; [done|].
    destruct (url_port_or_known_default v) as [port|] eqn:Hport; cbn; [|done].
    case_bool_decide as Hin; cbn; [|done].
    destruct (url_host_str v) as [host|] eqn:Hhost; cbn; [|done].
    destruct (negb _ && _) eqn:Hblocked; [done|].
    intros Hrest. assert (v = u ∧ ∀ ip, parse_ip (normalize_host host) = Some ip →
      enforce_address p ip = Ok tt) as [-> Hip].
    { destruct (parse_ip _) as [ip|]; [|by simplify_eq].
      destruct (enforce_address p ip) as [[]|] eqn:?; cbn in Hrest; naive_solver. }
    apply orb_true_iff in Hscheme. rewrite !String.eqb_eq in Hscheme.
    split_and!; try done; [by exists port|]. exists host. split_and!; try done.
    intros Hpriv. rewrite Hpriv in Hblocked. done.
  - intros (-> & Hscheme & Hu & Hpw & (port & Hport & Hin) & (host & Hhost & Hb & Hip)).
    cbn. rewrite Hu, Hpw, Hport, Hhost. cbn. rewrite bool_decide_eq_true_2 by done. cbn.
    replace (_ || _) with true by (destruct Hscheme as [-> | ->]; done). cbn.
    destruct (egress_allow_private_network p) eqn:Hpriv; cbn; [|rewrite Hb by done];
      destruct (parse_ip _) as [ip|]; cbn; rewrite ?(Hip ip) by done; done.
Qed.

(** *** Reference tables for IPv4: CIDR blocks on the 32-bit value *)

Definition v4_value (a b c d : N) : N := (a * 16777216 + b * 65536 + c * 256 + d)%N.

(** The address block [base/len]. *)
Definition in_block (block : N * N) (v : N) : bool :=
  (v `div` 2 ^ (32 - block.2) =? block.1 `div` 2 ^ (32 - block.2))%N.

(** "This network", benchmarking, documentation, 6to4 relay, IETF protocol
    assignments, multicast and the reserved block with the broadcast address. *)
Definition non_routable_blocks : list (N * N) :=
  [(v4_value 0 0 0 0, 8); (v4_value 192 0 0 0, 24); (v4_value 192 0 2 0, 24);
   (v4_value 192 88 99 0, 24); (v4_value 198 18 0 0, 15); (v4_value 198 51 100 0, 24);
   (v4_value 203 0 113 0, 24); (v4_value 224 0 0 0, 4); (v4_value 240 0 0 0, 4)]%N.

(** RFC 1918, loopback, link local and carrier-grade NAT. *)
Definition private_blocks : list (N * N) :=
  [(v4_value 10 0 0 0, 8); (v4_value 172 16 0 0, 12); (v4_value 192 168 0 0, 16);
   (v4_value 127 0 0 0, 8); (v4_value 169 254 0 0, 16); (v4_value 100 64 0 0, 10)]%N.

Definition classify_v4_spec (v : N) : AddressClass :=
  if existsb (λ blk, in_block blk v) non_routable_blocks then NonRoutable
  else if existsb (λ blk, in_block blk v) private_blocks then Private
  else Public.

Section blocks.
Context (a b c d : N) (Hb : (b < 256)%N) (Hc : (c < 256)%N) (Hd : (d < 256)%N).

Lemma block_div_24 : (v4_value a b c d `div` 2 ^ 24 = a)%N.
Proof. unfold v4_value. change (2 ^ 24)%N with 16777216%N. symmetry.
  apply (N.div_unique _ _ _ (b * 65536 + c * 256 + d)); lia. Qed.

Lemma block_div_16 : (v4_value a b c d `div` 2 ^ 16 = a * 256 + b)%N.
Proof. unfold v4_value. change (2 ^ 16)%N with 65536%N. symmetry.
  apply (N.div_unique _ _ _ (c * 256 + d)); lia. Qed.

Lemma block_div_8 : (v4_value a b c d `div` 2 ^ 8 = a * 65536 + b * 256 + c)%N.
Proof. unfold v4_value. change (2 ^ 8)%N with 256%N. symmetry.
  apply (N.div_unique _ _ _ d); lia. Qed.

(** Shorter prefixes through the octet they cut. *)
Lemma block_div_cut k m :
  (v4_value a b c d `div` (2 ^ k * 2 ^ m) = (v4_value a b c d `div` 2 ^ k) `div` 2 ^ m)%N.
Proof. symmetry. apply N.Div0.div_div. Qed.
End blocks.

(** Membership in each kind of block, by octets. *)
Lemma in_block_8 x a b c d :
  (b < 256 → c < 256 → d < 256 →
   in_block (v4_value x 0 0 0, 8) (v4_value a b c d) = (a =? x))%N.
Proof. intros. unfold in_block. cbn [fst snd]. by rewrite !block_div_24 by lia. Qed.

Lemma in_block_16 x y a b c d :
  (y < 256 → b < 256 → c < 256 → d < 256 →
   in_block (v4_value x y 0 0, 16) (v4_value a b c d) = (a =? x) && (b =? y))%N.
Proof. intros. unfold in_block. cbn [fst snd]. rewrite !block_div_16 by lia. lia. Qed.

Lemma in_block_24 x y z a b c d :
  (y < 256 → z < 256 → b < 256 → c < 256 → d < 256 →
   in_block (v4_value x y z 0, 24) (v4_value a b c d) =
   (a =? x) && (b =? y) && (c =? z))%N.
Proof. intros. unfold in_block. cbn [fst snd]. rewrite !block_div_8 by lia. lia. Qed.

Lemma in_block_4 x a b c d :
  (b < 256 → c < 256 → d < 256 →
   in_block (v4_value x 0 0 0, 4) (v4_value a b c d) = (a `div` 16 =? x `div` 16))%N.
Proof.
  intros. unfold in_block. cbn [fst snd]. change (2 ^ (32 - 4))%N with (2 ^ 24 * 2 ^ 4)%N.
  by rewrite !block_div_cut, !block_div_24 by lia.
Qed.

Lemma in_block_mid m x y a b c d :
  (m ≤ 8 → y < 256 → b < 256 → c < 256 → d < 256 →
   in_block (v4_value x y 0 0, 16 - m) (v4_value a b c d) =
   ((a * 256 + b) `div` 2 ^ m =? (x * 256 + y) `div` 2 ^ m))%N.
Proof.
  intros. unfold in_block. cbn [fst snd].
  replace (32 - (16 - m))%N with (16 + m)%N by lia. rewrite N.pow_add_r.
  by rewrite !block_div_cut, !block_div_16 by lia.
Qed.

Lemma div_in_range q lo n p :
  (0 < p → lo = q * p → (n `div` p =? q) = (lo <=? n) && (n <? lo + p))%N.
Proof.
  intros Hp ->. destruct (N.eqb_spec (n `div` p) q) as [<-|Hne].
  - pose proof (N.Div0.mul_div_le n p). pose proof (N.mul_succ_div_gt n p). lia.
  - symmetry. apply not_true_is_false. intros Hr.
    apply Hne. symmetry. apply (N.div_unique _ _ _ (n - q * p)); lia.
Qed.

Section block_tests.
Context (a b c d : N) (Ha : (a < 256)%N) (Hb : (b < 256)%N) (Hc : (c < 256)%N)
  (Hd : (d < 256)%N).

Lemma in_block_198_18 :
  (in_block (v4_value 198 18 0 0, 15) (v4_value a b c d) =
   (a =? 198) && (18 <=? b) && (b <=? 19))%N.
Proof.
  rewrite (in_block_mid 1 198 18) by lia.
  rewrite (div_in_range ((198 * 256 + 18) `div` 2 ^ 1) (198 * 256 + 18)) by done. lia.
Qed.

Lemma in_block_172_16 :
  (in_block (v4_value 172 16 0 0, 12) (v4_value a b c d) =
   (a =? 172) && (16 <=? b) && (b <=? 31))%N.
Proof.
  rewrite (in_block_mid 4 172 16) by lia.
  rewrite (div_in_range ((172 * 256 + 16) `div` 2 ^ 4) (172 * 256 + 16)) by done. lia.
Qed.

Lemma in_block_100_64 :
  (in_block (v4_value 100 64 0 0, 10) (v4_value a b c d) =
   (a =? 100) && (64 <=? b) && (b <=? 127))%N.
Proof.
  rewrite (in_block_mid 6 100 64) by lia.
  rewrite (div_in_range ((100 * 256 + 64) `div` 2 ^ 6) (100 * 256 + 64)) by done. lia.
Qed.

Lemma in_block_224 :
  in_block (v4_value 224 0 0 0, 4)%N (v4_value a b c d) = v4_is_multicast a.
Proof.
  rewrite in_block_4 by lia. rewrite (div_in_range (224 `div` 16) 224) by done.
  unfold v4_is_multicast. lia.
Qed.

Lemma in_block_240 :
  in_block (v4_value 240 0 0 0, 4)%N (v4_value a b c d) = (240 <=? a)%N.
Proof.
  rewrite in_block_4 by lia. rewrite (div_in_range (240 `div` 16) 240) by done. lia.
Qed.

(** The single addresses 0.0.0.0 and 255.255.255.255 lie in those blocks. *)
Lemma v4_unspecified_covered :
  ((a =? 0) || v4_is_unspecified a b c d = (a =? 0))%N.
Proof. unfold v4_is_unspecified. lia. Qed.

Lemma v4_broadcast_covered :
  (v4_is_broadcast a b c d || (240 <=? a) = (240 <=? a))%N.
Proof. unfold v4_is_broadcast. lia. Qed.
End block_tests.

(** The octet tests of [classify_v4] decide exactly the published address
    blocks: on every IPv4 address the class is the one given by the CIDR tables
    of non-routable and private blocks, non-routable blocks first. *)
Theorem classify_v4_matches_blocks a b c d :
  ip_wf (V4 a b c d) → classify_v4 a b c d = classify_v4_spec (v4_value a b c d).
Proof.
  intros (Ha & Hb & Hc & Hd). unfold classify_v4_spec, non_routable_blocks, private_blocks.
  cbn [existsb]. rewrite in_block_198_18, in_block_172_16, in_block_100_64, in_block_224,
    in_block_240, !in_block_8, !in_block_16, !in_block_24 by lia.
  unfold classify_v4. rewrite v4_unspecified_covered, <-!(orb_assoc _ (v4_is_broadcast _ _ _ _)),
    v4_broadcast_covered by lia. unfold v4_is_private, v4_is_loopback, v4_is_link_local.
  match goal with |- (if ?x then _ else if ?y then _ else _) =
                     (if ?x' then _ else if ?y' then _ else _) =>
    replace x' with x by btauto; replace y' with y by btauto; done
  end.
Qed.

Lemma classify_v4_blocks_witness :
  classify_v4 172 31 255 1 = classify_v4_spec (v4_value 172 31 255 1) ∧
  classify_v4 172 31 255 1 = Private.
Proof.
  split; [|reflexivity]. apply (classify_v4_matches_blocks 172 31 255 1).
  vm_compute. done.
Defined.

(** *** The redirect loop *)

Section client_safety.
Context `{UrlCrate} {W : Type} `{!WebEnv W} (c : SecureHttpClient).

(** A request the egress policy has cleared. *)
Definition request_cleared (r : PreparedRequest) : Prop :=
  (∃ text, validate_url (client_egress c) text = Ok (req_url r)) ∧
  enforce_address (client_egress c) (req_resolved_addr r).1 = Ok tt.

Lemma resolve_and_validate_ok w url w' addr :
  resolve_and_validate c w url = (w', Ok addr) →
  enforce_address (client_egress c) addr.1 = Ok tt.
Proof.
  unfold resolve_and_validate.
  destruct (url_host_str url) as [host|]; [|done].
  destruct (url_port_or_known_default url) as [port|]; [|done].
  destruct (match parse_ip host with Some ip => _ | None => _ end) as [w1 [l|e]];
    cbn; [|done].
  destruct (dedup_addresses (sort_addresses l)) as [|first rest]; [done|].
  destruct (enforce_all _ _) as [[]|] eqn:He; cbn; intros [= <- <-].
  apply enforce_all_ok in He. by apply Forall_cons in He as [He _].
Qed.

Lemma next_url_validated current r next :
  next_url c current r = Ok next →
  ∃ text, validate_url (client_egress c) text = Ok next.
Proof.
  unfold next_url.
  destruct (resp_location r) as [[loc|]|]; cbn; try done.
  destruct (url_join current loc); cbn; [|done]. eauto.
Qed.

Lemma execute_hops_cleared hops w requested current mode chain max_bytes w' trace res :
  (∃ text, validate_url (client_egress c) text = Ok current) →
  execute_hops c hops w requested current mode chain max_bytes = (w', trace, res) →
  length trace ≤ S hops ∧ Forall request_cleared trace ∧
  ∀ resp, res = Ok resp →
    is_redirect_status (final_status resp) = false ∧
    S (length (redirect_chain resp)) = length chain + length trace.
Proof.
  revert w current mode chain w' trace res.
  induction hops as [|hops IH]; intros w current mode chain w' trace res Hcur; cbn;
    (destruct (resolve_and_validate c w current) as [w1 [addr|e]] eqn:Hr;
      [|intros [= <- <- <-]; split_and!; [cbn; lia|constructor|done]]);
    apply resolve_and_validate_ok in Hr;
    (destruct (http_send w1 _) as [w2 [r|e]];
      [|intros [= <- <- <-]; split_and!; [cbn; lia|by repeat constructor|done]]);
    (destruct (is_redirect_status (resp_status r)) eqn:Hred; cbn;
      [|intros [= <- <- <-]; split_and!; [cbn; lia|by repeat constructor|];
        intros resp [= <-]; cbn; split; [done|lia]]).
  - intros [= <- <- <-]; split_and!; [cbn; lia|by repeat constructor|done].
  - destruct (next_url c current r) as [next|e] eqn:Hn;
      [|intros [= <- <- <-]; split_and!; [cbn; lia|by repeat constructor|done]].
    destruct (execute_hops c hops w2 _ _ _ _ _) as [[w3 tr] res'] eqn:He.
    intros [= <- <- <-].
    destruct (IH _ _ _ _ _ _ _ (next_url_validated _ _ _ Hn) He) as (Hl & Hall & Hres).
    split_and!; [cbn; lia|by constructor|].
    intros resp Hresp. destruct (Hres resp Hresp) as [? Hlen]. split; [done|].
    rewrite length_app in Hlen. cbn in *. lia.
Qed.
End client_safety.

(** C28: Whatever the resolver answers and wherever the servers redirect, every
    request the client sends goes to a URL that passed [validate_url] and to a
    resolved address the egress policy allows; at most [max_redirects] redirects
    are followed; and a response is returned only for a non-redirect status, with
    one chain entry per redirect. *)
Theorem http_requests_stay_in_policy `{UrlCrate} {W} `{!WebEnv W}
    (c : SecureHttpClient) (w : W) raw max_bytes mode w' trace res :
  http_execute c w raw max_bytes mode = (w', trace, res) →
  length trace ≤ S (max_redirects c) ∧
  Forall (request_cleared c) trace ∧
  ∀ resp, res = Ok resp →
    is_redirect_status (final_status resp) = false ∧
    S (length (redirect_chain resp)) = length trace.
Proof.
  unfold http_execute. destruct (max_bytes =? 0)%N.
  { intros [= <- <- <-]. split_and!; [cbn; lia|constructor|done]. }
  destruct (validate_url (client_egress c) raw) as [url|e] eqn:Hv.
  - intros He. apply execute_hops_cleared in He as (Hl & Hall & Hres); [|by exists raw].
    split_and!; [done..|]. intros resp Hresp. by destruct (Hres resp Hresp).
  - intros [= <- <- <-]. split_and!; [cbn; lia|constructor|done].
Qed.

(** Two sites, the first redirecting to the second. *)
Definition sample_url (host : string) : Url :=
  mkUrl ("http://" ++ host ++ "/") "http" "" None (Some 80%N) (Some host).

Definition sample_urls : UrlCrate := {|
  url_parse s :=
    if String.eqb s "http://a.example/" then Some (sample_url "a.example")
    else if String.eqb s "http://b.example/" then Some (sample_url "b.example")
    else if String.eqb s "http://[::1]/" then Some (sample_url "[::1]")
    else None;
  url_join _ s :=
    if String.eqb s "http://b.example/" then Some (sample_url "b.example") else None;
|}.

Definition sample_web : WebEnv nat := {|
  dns_resolve w _ port := (S w, Ok [(V4 93 184 216 34, port)]);
  http_send w r :=
    (S w, Ok (if String.eqb (url_text (req_url r)) "http://a.example/"
              then mkRawHttpResponse 302 (Some (Some "http://b.example/")) "" false
              else mkRawHttpResponse 200 None "hello" false));
|}.

Definition sample_client : SecureHttpClient := mkSecureHttpClient EgressPolicy_default 5.

Lemma http_requests_witness :
  ∃ w' trace res,
    @http_execute sample_urls nat sample_web sample_client 0 "http://a.example/" 1000
      (PostForm [("q", "x")]) = (w', trace, res) ∧
    (req_mode <$> trace) = [PostForm [("q", "x")]; Get] ∧
    Forall (@request_cleared sample_urls sample_client) trace.
Proof.
  eexists _, _, _. split; [vm_compute; reflexivity|]. split; [reflexivity|].
  eapply (@http_requests_stay_in_policy sample_urls nat sample_web sample_client 0
    "http://a.example/" 1000 (PostForm [("q", "x")])).
  vm_compute. reflexivity.
Defined.

(** *** Bracketed IPv6 hosts *)

Lemma string_of_list_of_string s :
  String.string_of_list_ascii (String.list_ascii_of_string s) = s.
Proof. induction s; cbn; congruence. Qed.

Lemma trim_end_matches_last c a s :
  c ≠ a → trim_end_matches c (s ++ String a "")%string = (s ++ String a "")%string.
Proof.
  intros Hca. unfold trim_end_matches. rewrite list_ascii_app, reverse_app.
  cbn [String.list_ascii_of_string]. rewrite reverse_singleton.
  cbn [app drop_while]. destruct (Ascii.eqb_spec c a) as [->|]; [done|].
  rewrite reverse_cons, reverse_involutive.
  change [a] with (String.list_ascii_of_string (String a "")).
  by rewrite <-list_ascii_app, string_of_list_of_string.
Qed.

Lemma lowercase_app s t :
  to_ascii_lowercase (s ++ t)%string = (to_ascii_lowercase s ++ to_ascii_lowercase t)%string.
Proof. induction s; cbn; congruence. Qed.

Lemma ends_with_last s pat a b :
  ends_with (s ++ String a "")%string (pat ++ String b "")%string = true → a = b.
Proof.
  intros H. assert (∃ k, (s ++ String a "" = k ++ pat ++ String b "")%string) as [k Hk].
  { revert H. generalize (s ++ String a "")%string as x.
    induction x as [|e x IH]; cbn [ends_with].
    - rewrite orb_false_r, String.eqb_eq. intros Heq. by exists "".
    - rewrite orb_true_iff, String.eqb_eq. intros [Heq|Hx]; [by exists ""|].
      destruct (IH Hx) as [k ->]. by exists (String e k). }
  apply (f_equal String.list_ascii_of_string) in Hk. rewrite !list_ascii_app in Hk.
  rewrite app_assoc in Hk. cbn in Hk. by apply app_inj_tail in Hk as [_ [= ->]].
Qed.

Lemma host_is_blocked_bracket s :
  host_is_blocked EgressPolicy_default (String "[" (s ++ "]")) = false.
Proof.
  unfold host_is_blocked. cbn [EgressPolicy_default blocked_host_suffixes].
  apply existsb_false_iff. intros entry Hin.
  repeat (apply elem_of_cons in Hin as [->|Hin]); [..|set_solver];
    cbn [strip_prefix]; [done|..]; rewrite ?Ascii.eqb_refl; cbn [strip_prefix];
    apply orb_false_iff; (split; [done|]); apply not_true_is_false; intros He;
    change (String "[" (s ++ "]"))%string with (String "[" s ++ String "]" "")%string in He;
    match type of He with ends_with _ ?e = true =>
      let pat := eval vm_compute in
        (String.substring 0 (String.length e - 1) e) in
      let b := eval vm_compute in
        (String.substring (String.length e - 1) 1 e) in
      change e with (pat ++ b)%string in He
    end; by apply ends_with_last in He.
Qed.

Lemma parse_ip_bracket s : parse_ip (String "[" s) = None.
Proof. reflexivity. Qed.

(** An IPv6 literal in a URL is never seen as private: [host_str] gives it
    between brackets, which is neither a blocked name nor an [IpAddr], so
    [target_requires_private_read] answers [false] for every such target, the
    loopback address [[::1]] included. *)
Theorem bracketed_host_never_private `{UrlCrate} target u inner :
  url_parse target = Some u →
  url_host_str u = Some (String "[" (inner ++ "]"))%string →
  target_requires_private_read target = false.
Proof.
  intros Hu Hh. unfold target_requires_private_read. rewrite Hu. cbn [mbind option_bind].
  rewrite Hh. cbn [from_option id]. unfold normalize_host.
  change (String "[" (inner ++ "]"))%string with (String "[" inner ++ String "]" "")%string.
  rewrite trim_end_matches_last by done. rewrite lowercase_app.
  change (to_ascii_lowercase (String "[" inner) ++ to_ascii_lowercase "]")%string with
    (String "[" (to_ascii_lowercase inner ++ "]"))%string.
  by rewrite host_is_blocked_bracket, parse_ip_bracket.
Qed.

Lemma bracketed_host_witness :
  @target_requires_private_read sample_urls "http://[::1]/" = false ∧
  parse_ip "::1" = Some (V6 [0; 0; 0; 0; 0; 0; 0; 1]%N) ∧
  classify_address (V6 [0; 0; 0; 0; 0; 0; 0; 1]%N) = Private.
Proof.
  split; [|split; reflexivity].
  apply (@bracketed_host_never_private sample_urls "http://[::1]/" (sample_url "[::1]") "::1");
    reflexivity.
Defined.
