(* ===== verification/Policy.v ===== *)
(** * The policy engine

    [PolicyEngine] and [PolicySnapshot] of [crates/impetus-core/src/policy.rs],
    and the extension permissions of [crates/impetus-core/src/extension_policy.rs]
    and [crates/impetus-extension-sdk/src/permissions.rs].

    The user overrides of an engine live behind an [Arc<RwLock<..>>] that its
    clones share.  They are a cell of [PolicyHeap], an engine holds the cell's
    location, and cloning an engine copies the location. *)

From S2P Require Import Prelude Str Action PathScope WebSecurity.
From stdpp Require Import infinite.

Open Scope string_scope.
Open Scope nat_scope.
Open Scope list_scope.

(** ** Web capabilities *)

Inductive WebCapability :=
  | Cap_Search | Cap_Read | Cap_PrivateRead | Cap_Download | Cap_Browser | Cap_Submit
  | Cap_Upload.

Definition WebCapability_is_read_only (c : WebCapability) : bool :=
  match c with Cap_Search | Cap_Read | Cap_PrivateRead => true | _ => false end.

Definition web_capability (k : ActionKind) : option WebCapability :=
  match k with
  | WebSearch => Some Cap_Search
  | WebFetch => Some Cap_Read
  | WebDownload => Some Cap_Download
  | WebBrowser => Some Cap_Browser
  | WebSubmit => Some Cap_Submit
  | WebUpload => Some Cap_Upload
  | _ => None
  end.

(** ** Engines and their shared overrides *)

Abbreviation Overrides := (gmap ActionKind PolicyConfigDecision).
Abbreviation PolicyHeap := (gmap nat Overrides).

Record PolicyEngine := mkPolicyEngine {
  engine_scope : SandboxScope;
  engine_overrides : nat;
}.

Definition read_overrides (h : PolicyHeap) (e : PolicyEngine) : Overrides :=
  default ∅ (h !! engine_overrides e).

Definition alloc_engine (h : PolicyHeap) (scope : SandboxScope) (o : Overrides)
    : PolicyHeap * PolicyEngine :=
  let l := fresh (elements (dom h)) in
  (<[l := o]> h, mkPolicyEngine scope l).

Definition PolicyEngine_new (h : PolicyHeap) (scope : SandboxScope)
    : PolicyHeap * PolicyEngine :=
  alloc_engine h scope ∅.

Definition PolicyEngine_with_config (h : PolicyHeap) (scope : SandboxScope)
    (config : PolicyConfig) : PolicyHeap * PolicyEngine :=
  alloc_engine h scope (config_overrides config).

Definition reload_config (h : PolicyHeap) (e : PolicyEngine) (config : PolicyConfig)
    : PolicyHeap :=
  <[engine_overrides e := config_overrides config]> h.

(** [loaded]: what [PolicyConfig::load_from_path] gave. *)
Definition reload_config_from_path (h : PolicyHeap) (e : PolicyEngine)
    (loaded : result PolicyConfigError PolicyConfig)
    : PolicyHeap * result PolicyConfigError () :=
  match loaded with
  | Ok config => (reload_config h e config, Ok tt)
  | Err err => (h, Err err)
  end.

Definition PolicyEngine_config (h : PolicyHeap) (e : PolicyEngine) : PolicyConfig :=
  mkPolicyConfig POLICY_CONFIG_VERSION (read_overrides h e).

(** ** Evaluation *)

Section evaluate.
Context `{FileSystem} `{UrlCrate}.

Definition target_is_in_scope (e : PolicyEngine) (a : Action) (allow_missing_leaf : bool)
    : bool :=
  match target a with
  | None => false
  | Some t =>
      if allow_missing_leaf then contains_write_target (engine_scope e) t
      else scope_contains (engine_scope e) t
  end.

Definition is_private_target (a : Action) : bool :=
  match target a with Some t => target_requires_private_read t | None => false end.

Definition evaluate_web_hard_deny (e : PolicyEngine) (a : Action) : option PolicyDecision :=
  match web_capability (kind a) with
  | None => Some (Policy_Deny "unknown web action")
  | Some _ =>
      if negb (allow_network (engine_scope e))
      then Some (Policy_Deny "network is disabled in this workspace scope")
      else if is_private_target a && negb (allow_private_network (engine_scope e))
      then Some (Policy_Deny
             "private/LAN web targets require session private-network allowance")
      else None
  end.

(** The [expect] on the capability cannot fail: the hard-deny check returns
    first ([web_capability_checked]). *)
Definition evaluate_web_action (e : PolicyEngine) (a : Action) : PolicyDecision :=
  match evaluate_web_hard_deny e a with
  | Some deny => deny
  | None =>
      match web_capability (kind a) with
      | None => Policy_Deny "web hard-deny already checked capability"
      | Some capability =>
          let effective :=
            match is_private_target a, capability with
            | true, Cap_Read => Cap_PrivateRead
            | _, c => c
            end in
          if WebCapability_is_read_only effective then Policy_Allow
          else if allow_web_outbound (engine_scope e) then Policy_Allow
          else Policy_NeedsApproval
                 "outbound web requires session allowance or user approval"
      end
  end.

(** The two guards ahead of the overrides. *)
Definition scope_guard (e : PolicyEngine) (a : Action) : option PolicyDecision :=
  match kind a with
  | ReadFile =>
      if target_is_in_scope e a false then None
      else Some (Policy_Deny "read target is missing or outside the workspace scope")
  | WriteFile =>
      if target_is_in_scope e a true then None
      else Some (Policy_Deny "write target is outside the workspace scope")
  | _ => None
  end.

Definition network_guard (e : PolicyEngine) (a : Action) : option PolicyDecision :=
  match kind a with
  | NetworkConnect | SshConnect | SftpTransfer =>
      if allow_network (engine_scope e) then None
      else Some (Policy_Deny "network is disabled in this workspace scope")
  | WebSearch | WebFetch | WebDownload | WebBrowser | WebSubmit | WebUpload =>
      evaluate_web_hard_deny e a
  | _ => None
  end.

Definition default_decision (e : PolicyEngine) (a : Action) : PolicyDecision :=
  match kind a with
  | ReadFile => Policy_Allow
  | SpawnProcess =>
      match origin a with
      | User => Policy_Allow
      | Agent => Policy_NeedsApproval "changes local machine state"
      end
  | WriteFile | TmuxAttach => Policy_NeedsApproval "changes local machine state"
  | NetworkConnect | SshConnect | SftpTransfer =>
      Policy_NeedsApproval "opens a network connection"
  | WebSearch | WebFetch | WebDownload | WebBrowser | WebSubmit | WebUpload =>
      evaluate_web_action e a
  end.

Definition evaluate (h : PolicyHeap) (e : PolicyEngine) (a : Action) : PolicyDecision :=
  match scope_guard e a with
  | Some d => d
  | None =>
      match network_guard e a with
      | Some d => d
      | None =>
          match read_overrides h e !! kind a with
          | Some overridden => to_decision overridden
          | None => default_decision e a
          end
      end
  end.
End evaluate.

(** ** Snapshots and replay *)

Definition PolicyVersion_V1 : N := 1.

Record PolicySnapshot := mkPolicySnapshot {
  snapshot_version : N;
  snapshot_scope : SandboxScope;
  snapshot_timestamp : N;
}.

Definition PolicySnapshot_capture (now : N) (e : PolicyEngine) : PolicySnapshot :=
  mkPolicySnapshot PolicyVersion_V1 (engine_scope e) now.

Definition replay `{FileSystem} `{UrlCrate} (h : PolicyHeap) (s : PolicySnapshot)
    (a : Action) : PolicyDecision :=
  if negb (snapshot_version s =? PolicyVersion_V1)%N
  then Policy_Deny ("unsupported policy version: PolicyVersion("
                      ++ dec (snapshot_version s) ++ ")")
  else let '(h', historical) := PolicyEngine_new h (snapshot_scope s) in
       evaluate h' historical a.

Definition engine_egress_policy (e : PolicyEngine) : EgressPolicy :=
  EgressPolicy_with_private_network (allow_private_network (engine_scope e)).

(** ** Extension permissions *)

Inductive ExtensionPermission :=
  | Perm_FilesystemRead | Perm_FilesystemWrite | Perm_Network | Perm_ProcessSpawn
  | Perm_Pty | Perm_Git | Perm_Mcp | Perm_Browser | Perm_Lsp | Perm_Memory
  | Perm_SecretsProvider.

#[export] Instance ExtensionPermission_eq_dec : EqDecision ExtensionPermission.
Proof. solve_decision. Defined.

Definition permission_as_str (p : ExtensionPermission) : string :=
  match p with
  | Perm_FilesystemRead => "filesystem_read"
  | Perm_FilesystemWrite => "filesystem_write"
  | Perm_Network => "network"
  | Perm_ProcessSpawn => "process_spawn"
  | Perm_Pty => "pty"
  | Perm_Git => "git"
  | Perm_Mcp => "mcp"
  | Perm_Browser => "browser"
  | Perm_Lsp => "lsp"
  | Perm_Memory => "memory"
  | Perm_SecretsProvider => "secrets_provider"
  end.

Definition permission_from_str (s : string) : option ExtensionPermission :=
  if String.eqb s "filesystem_read" then Some Perm_FilesystemRead
  else if String.eqb s "filesystem_write" then Some Perm_FilesystemWrite
  else if String.eqb s "network" then Some Perm_Network
  else if String.eqb s "process_spawn" then Some Perm_ProcessSpawn
  else if String.eqb s "pty" then Some Perm_Pty
  else if String.eqb s "git" then Some Perm_Git
  else if String.eqb s "mcp" then Some Perm_Mcp
  else if String.eqb s "browser" then Some Perm_Browser
  else if String.eqb s "lsp" then Some Perm_Lsp
  else if String.eqb s "memory" then Some Perm_Memory
  else if String.eqb s "secrets_provider" then Some Perm_SecretsProvider
  else None.

(** The first repeated token, if any. *)
Fixpoint validate_permissions_seen (seen l : list ExtensionPermission) : result string () :=
  match l with
  | [] => Ok tt
  | p :: l' =>
      if bool_decide (p ∈ seen) then Err (permission_as_str p)
      else validate_permissions_seen (p :: seen) l'
  end.
Definition validate_permissions (l : list ExtensionPermission) : result string () :=
  validate_permissions_seen [] l.

Definition action_kinds_for_permission (p : ExtensionPermission) : list ActionKind :=
  match p with
  | Perm_FilesystemRead => [ReadFile]
  | Perm_FilesystemWrite => [WriteFile]
  | Perm_Network => [NetworkConnect; SshConnect; SftpTransfer]
  | Perm_ProcessSpawn => [SpawnProcess]
  | Perm_Pty => [TmuxAttach]
  | Perm_Git => [SpawnProcess]
  | Perm_Mcp => [NetworkConnect]
  | Perm_Browser => [WebBrowser; WebFetch; WebSearch]
  | Perm_Lsp => [SpawnProcess]
  | Perm_Memory => []
  | Perm_SecretsProvider => []
  end.

Definition declared_reason (p : ExtensionPermission) : string :=
  "extension declared `" ++ permission_as_str p
    ++ "` (still subject to Policy at action time)".

Definition evaluate_permission_against_scope (p : ExtensionPermission) (s : SandboxScope)
    : PolicyDecision :=
  match p with
  | Perm_Network =>
      if negb (allow_network s)
      then Policy_Deny ("extension permission `" ++ permission_as_str p
             ++ "` requires network; sandbox has allow_network=false")
      else Policy_NeedsApproval (declared_reason p)
  | Perm_Mcp | Perm_FilesystemWrite | Perm_ProcessSpawn | Perm_Pty | Perm_Git
  | Perm_Browser => Policy_NeedsApproval (declared_reason p)
  | Perm_FilesystemRead | Perm_Lsp | Perm_Memory => Policy_Allow
  | Perm_SecretsProvider =>
      Policy_NeedsApproval
        "secrets_provider resolves Keychain references only; no raw token grant"
  end.

Fixpoint permission_eval (l : list ExtensionPermission) (s : SandboxScope)
    : result string () :=
  match l with
  | [] => Ok tt
  | p :: l' =>
      match evaluate_permission_against_scope p s with
      | Policy_Deny reason => Err reason
      | _ => permission_eval l' s
      end
  end.

Definition action_for_host_process_operate (o : ActionOrigin) (extension_id op : string)
    (permission : option ExtensionPermission) : Action :=
  let op := trim op in
  let k :=
    if String.eqb op "echo" then SpawnProcess
    else match permission with
         | Some p => default SpawnProcess (head (action_kinds_for_permission p))
         | None => SpawnProcess
         end in
  mkAction o k ("extension host_process operate `" ++ op ++ "` on `" ++ extension_id ++ "`")
    (Some (extension_id ++ "/" ++ op)%string).

Definition evaluate_extension_permission (e : PolicyEngine) (p : ExtensionPermission)
    : PolicyDecision :=
  evaluate_permission_against_scope p (engine_scope e).

(** ** Lemmas *)

Section policy_lemmas.
Context `{FileSystem} `{UrlCrate}.
Implicit Types (h : PolicyHeap) (e : PolicyEngine) (a : Action).

(** The [expect] of [evaluate_web_action] is never reached with nothing. *)
Lemma web_capability_checked e a :
  evaluate_web_hard_deny e a = None → is_Some (web_capability (kind a)).
Proof. unfold evaluate_web_hard_deny. by destruct (web_capability (kind a)). Qed.

Lemma read_overrides_alloc h scope o :
  read_overrides (alloc_engine h scope o).1 (alloc_engine h scope o).2 = o.
Proof. unfold read_overrides. cbn. by rewrite lookup_insert_eq. Qed.

Lemma alloc_engine_other h scope o l :
  is_Some (h !! l) → (alloc_engine h scope o).1 !! l = h !! l.
Proof.
  intros Hl. cbn. rewrite lookup_insert_ne; [done|]. intros Heq.
  assert (fresh (elements (dom h)) ∉ elements (dom h)) as Hf by apply infinite_is_fresh.
  apply Hf. rewrite elem_of_elements, Heq. by apply elem_of_dom.
Qed.

Lemma read_overrides_reload h e e' c :
  read_overrides (reload_config h e c) e' =
  if decide (engine_overrides e = engine_overrides e') then config_overrides c
  else read_overrides h e'.
Proof.
  unfold read_overrides, reload_config. rewrite lookup_insert. by case_decide.
Qed.

(** Evaluation reads the heap only through the overrides of the engine. *)
Lemma evaluate_overrides h h' e e' a :
  engine_scope e = engine_scope e' → read_overrides h e = read_overrides h' e' →
  evaluate h e a = evaluate h' e' a.
Proof.
  intros Hs Ho. destruct e as [s l], e' as [s' l']. cbn in Hs. subst s'.
  unfold evaluate. rewrite Ho. done.
Qed.
End policy_lemmas.

(** ** The layers of a decision

    A flat description of what the engine promises: a denial the user cannot
    override, then the user's override, then a table by kind and origin. *)

Definition is_network_kind (k : ActionKind) : bool :=
  match k with
  | NetworkConnect | SshConnect | SftpTransfer
  | WebSearch | WebFetch | WebDownload | WebBrowser | WebSubmit | WebUpload => true
  | _ => false
  end.

Definition is_web_kind (k : ActionKind) : bool :=
  match k with
  | WebSearch | WebFetch | WebDownload | WebBrowser | WebSubmit | WebUpload => true
  | _ => false
  end.

Section layers.
Context `{FileSystem} `{UrlCrate}.
Implicit Types (s : SandboxScope) (a : Action).

Definition in_read_scope s a : bool :=
  match target a with Some t => scope_contains s t | None => false end.
Definition in_write_scope s a : bool :=
  match target a with Some t => contains_write_target s t | None => false end.

Definition hard_deny s a : option string :=
  if bool_decide (kind a = ReadFile) && negb (in_read_scope s a)
  then Some "read target is missing or outside the workspace scope"
  else if bool_decide (kind a = WriteFile) && negb (in_write_scope s a)
  then Some "write target is outside the workspace scope"
  else if is_network_kind (kind a) && negb (allow_network s)
  then Some "network is disabled in this workspace scope"
  else if is_web_kind (kind a) && is_private_target a && negb (allow_private_network s)
  then Some "private/LAN web targets require session private-network allowance"
  else None.

Definition table_decision s a : PolicyDecision :=
  match kind a, origin a with
  | (ReadFile | WebSearch | WebFetch), _ | SpawnProcess, User => Policy_Allow
  | (WriteFile | SpawnProcess | TmuxAttach), _ =>
      Policy_NeedsApproval "changes local machine state"
  | (NetworkConnect | SshConnect | SftpTransfer), _ =>
      Policy_NeedsApproval "opens a network connection"
  | (WebDownload | WebBrowser | WebSubmit | WebUpload), _ =>
      if allow_web_outbound s then Policy_Allow
      else Policy_NeedsApproval "outbound web requires session allowance or user approval"
  end.

Definition layered s (o : Overrides) a : PolicyDecision :=
  match hard_deny s a with
  | Some reason => Policy_Deny reason
  | None =>
      match o !! kind a with
      | Some d => to_decision d
      | None => table_decision s a
      end
  end.

Lemma scope_guard_layers e a :
  scope_guard e a =
  match kind a with
  | ReadFile | WriteFile => Policy_Deny <$> hard_deny (engine_scope e) a
  | _ => None
  end.
Proof.
  unfold scope_guard, target_is_in_scope, hard_deny, in_read_scope, in_write_scope.
  destruct (kind a), (target a) as [t|]; try done;
    [by destruct (scope_contains (engine_scope e) t)
    |by destruct (contains_write_target (engine_scope e) t)].
Qed.

Lemma network_guard_layers e a :
  network_guard e a =
  match kind a with
  | ReadFile | WriteFile => None
  | _ => Policy_Deny <$> hard_deny (engine_scope e) a
  end.
Proof.
  unfold network_guard, evaluate_web_hard_deny, hard_deny.
  destruct (kind a); try done; destruct (allow_network _); try done;
    by destruct (is_private_target a), (allow_private_network _).
Qed.

Lemma default_decision_table e a :
  network_guard e a = None → default_decision e a = table_decision (engine_scope e) a.
Proof.
  unfold network_guard, default_decision, table_decision, evaluate_web_action.
  destruct (kind a); intros Hg; rewrite ?Hg; destruct (origin a); try done;
    by destruct (is_private_target a).
Qed.
End layers.

Lemma evaluate_layered `{FileSystem} `{UrlCrate} h e a :
  evaluate h e a = layered (engine_scope e) (read_overrides h e) a.
Proof.
  unfold evaluate, layered. pose proof (default_decision_table e a) as Hd.
  rewrite scope_guard_layers. rewrite network_guard_layers in Hd |- *.
  destruct (hard_deny (engine_scope e) a) eqn:Hh, (kind a) eqn:Hk;
    cbn [fmap option_fmap option_map] in *; try done;
    by destruct (read_overrides h e !! _); rewrite ?Hd.
Qed.

(** The policy decision has three layers: a denial that depends only on the
    sandbox scope, then the user override of the kind, then the built-in table.
    In particular the [expect] in the web branch never panics and the second
    hard-deny check there changes nothing. *)
Theorem evaluate_layers `{FileSystem} `{UrlCrate} h e a :
  evaluate h e a = layered (engine_scope e) (read_overrides h e) a.
Proof. apply evaluate_layered. Qed.

(** No user override softens a fail-closed denial: when the scope denies an
    action, every engine over that scope denies it for the same reason, whatever
    overrides it holds now or after any reload. *)
Theorem overrides_cannot_soften_hard_deny `{FileSystem} `{UrlCrate} s a reason :
  hard_deny s a = Some reason →
  ∀ h e, engine_scope e = s → evaluate h e a = Policy_Deny reason.
Proof. intros Hd h e <-. rewrite evaluate_layered. unfold layered. by rewrite Hd. Qed.

Lemma overrides_cannot_soften_witness :
  let e := mkPolicyEngine (local_workspace "/ws") 0 in
  let h := {[ 0 := {[ WebFetch := Config_Allow ]} ]} in
  @evaluate sample_fs sample_urls h e
    (mkAction User WebFetch "fetch" (Some "http://a.example/"))
  = Policy_Deny "network is disabled in this workspace scope".
Proof.
  apply (@overrides_cannot_soften_hard_deny sample_fs sample_urls (local_workspace "/ws"));
    reflexivity.
Defined.

(** A reload is seen by every engine that shares the override cell, at the
    next evaluation, and by no other; the scope of each engine is untouched. *)
Theorem reload_visible_to_clones `{FileSystem} `{UrlCrate} h e config clone a :
  evaluate (reload_config h e config) clone a =
  layered (engine_scope clone)
    (if decide (engine_overrides e = engine_overrides clone) then config_overrides config
     else read_overrides h clone) a.
Proof. by rewrite evaluate_layered, read_overrides_reload. Qed.

(** Replaying the snapshot of an engine gives the decision of that engine
    without its overrides.  It equals the decision made at capture time exactly
    when no override applied, a hard denial decided, or the override agrees with
    the built-in table. *)
Theorem replay_of_capture_iff `{FileSystem} `{UrlCrate} h e now a :
  replay h (PolicySnapshot_capture now e) a = evaluate h e a ↔
  read_overrides h e !! kind a = None ∨
  is_Some (hard_deny (engine_scope e) a) ∨
  ∃ d, read_overrides h e !! kind a = Some d ∧
       to_decision d = table_decision (engine_scope e) a.
Proof.
  unfold replay. cbn [snapshot_version PolicySnapshot_capture snapshot_scope N.eqb negb].
  change (negb (PolicyVersion_V1 =? PolicyVersion_V1)%N) with false. cbn iota.
  destruct (PolicyEngine_new h (engine_scope e)) as [h' e'] eqn:Hnew.
  assert (engine_scope e' = engine_scope e ∧ read_overrides h' e' = ∅) as [Hs Ho].
  { pose proof (read_overrides_alloc h (engine_scope e) ∅) as Hr.
    unfold PolicyEngine_new in Hnew. rewrite Hnew in Hr. split; [|done].
    unfold alloc_engine in Hnew. by injection Hnew as <- <-. }
  rewrite !evaluate_layered, Hs, Ho. unfold layered.
  destruct (hard_deny (engine_scope e) a); [naive_solver|]. rewrite lookup_empty.
  destruct (read_overrides h e !! kind a) as [d|]; [|naive_solver].
  split; [intros Heq; right; right; eauto|].
  intros [?|[[? ?]|(d' & [= <-] & Heq)]]; done.
Qed.

(** With an [Allow] override for writes, the replayed decision asks for an
    approval that the engine did not ask for. *)
Example replay_differs_under_override :
  let e := mkPolicyEngine (local_workspace "/ws") 0 in
  let h := {[ 0 := {[ WriteFile := Config_Allow ]} ]} in
  let a := mkAction Agent WriteFile "write" (Some "src/new.rs") in
  @evaluate sample_fs sample_urls h e a = Policy_Allow ∧
  @replay sample_fs sample_urls h (PolicySnapshot_capture 0 e) a
    = Policy_NeedsApproval "changes local machine state".
Proof. vm_compute. done. Qed.

(** The wire tokens of the permissions read back. *)
Lemma permission_roundtrip p : permission_from_str (permission_as_str p) = Some p.
Proof. by destruct p. Qed.

(** Activation refuses a pack exactly when it declares [network] in a scope
    without network. *)
Lemma permission_eval_ok l s :
  permission_eval l s = Ok tt ↔ (Perm_Network ∈ l → allow_network s = true).
Proof.
  induction l as [|p l IH]; cbn; [set_solver|].
  destruct (decide (p = Perm_Network)) as [->|Hp].
  - cbn. destruct (allow_network s); cbn; [rewrite IH; set_solver|].
    split; [done|]. intros Hn. by specialize (Hn ltac:(set_solver)).
  - destruct p; cbn; try done; rewrite IH, elem_of_cons; naive_solver.
Qed.
