(* ===== verification/Effect.v ===== *)
(** * Normalized effects

    The data half of [crates/impetus-core/src/effects.rs]: capabilities, the
    normalized effect the seam admits, and the mapping from policy actions. *)

From S2P Require Import Prelude Str Action.

Open Scope string_scope.
Open Scope nat_scope.
Open Scope list_scope.

Inductive EffectCapability :=
  | WorkspaceRead | WorkspaceWrite | ProcessSpawn | CapNetworkConnect.

#[export] Instance EffectCapability_eq_dec : EqDecision EffectCapability.
Proof. solve_decision. Defined.

(** [CapabilityVersion], a [u32]. *)
Definition CapabilityVersion_V1 : N := 1.

Record NormalizedEffect := mkEffect {
  effect_origin : ActionOrigin;
  effect_capability : EffectCapability;
  effect_version : N;
  effect_action : Action;
}.

#[export] Instance NormalizedEffect_eq_dec : EqDecision NormalizedEffect.
Proof. solve_decision. Defined.

Definition effect_of (c : EffectCapability) (k : ActionKind) (o : ActionOrigin)
    (summary target : string) : NormalizedEffect :=
  mkEffect o c CapabilityVersion_V1 (mkAction o k summary (Some target)).

Definition workspace_read := effect_of WorkspaceRead ReadFile.
Definition workspace_write := effect_of WorkspaceWrite WriteFile.
Definition process_spawn := effect_of ProcessSpawn SpawnProcess.
Definition network_connect := effect_of CapNetworkConnect NetworkConnect.
Definition ssh_connect := effect_of CapNetworkConnect SshConnect.

Definition normalized_effect_from_action (a : Action) (capability_version : option N)
    : option NormalizedEffect :=
  let version := default 1%N capability_version in
  let tgt := default "" (target a) in
  Some match kind a with
  | ReadFile => mkEffect (origin a) WorkspaceRead version a
  | WriteFile => mkEffect (origin a) WorkspaceWrite version a
  | SpawnProcess | TmuxAttach => mkEffect (origin a) ProcessSpawn version a
  | NetworkConnect => mkEffect (origin a) CapNetworkConnect version a
  | SshConnect => ssh_connect (origin a) (summary a) tgt
  | SftpTransfer => mkEffect (origin a) CapNetworkConnect version a
  | WebSearch | WebFetch | WebDownload | WebBrowser | WebSubmit | WebUpload =>
      mkEffect (origin a) CapNetworkConnect version a
  end.

(** Every action maps to an effect with its own origin and kind. *)
Lemma normalized_effect_total a v :
  ∃ e, normalized_effect_from_action a v = Some e ∧
       effect_origin e = origin a ∧ origin (effect_action e) = origin a ∧
       kind (effect_action e) = kind a.
Proof.
  unfold normalized_effect_from_action. eexists. split; [reflexivity|].
  by destruct a as [o [] s t].
Qed.

(** The requested capability version survives, except for [SshConnect], whose
    effect is always built at version 1. *)
Lemma normalized_effect_version a v e :
  normalized_effect_from_action a v = Some e →
  effect_version e =
    if bool_decide (kind a = SshConnect) then 1%N else default 1%N v.
Proof. intros [= <-]. by destruct a as [o [] s t]. Qed.
