(* ===== verification/RiskGate.v ===== *)
(** * The risk gate

    [crates/impetus-core/src/risk_gate.rs]: deterministic classification of an
    effect after policy and execution mode.  The Rust trait [RiskGate] is the
    class [RiskGate]; [DeterministicRiskGate] is the gate the runtime uses.
    [RiskGateLaws] is what the effect seam relies on. *)

From S2P Require Import Prelude Str Action PathScope Effect.

Open Scope string_scope.
Open Scope nat_scope.
Open Scope list_scope.

Inductive RiskGateDecision :=
  | Risk_Allow
  | Risk_NeedsHumanApproval (reason : string)
  | Risk_Deny (reason : string).

#[export] Instance RiskGateDecision_eq_dec : EqDecision RiskGateDecision.
Proof. solve_decision. Defined.

Record RiskContext := mkRiskContext {
  risk_mode : ExecutionMode;
  risk_effect : NormalizedEffect;
  risk_argv : option (list string);
}.

(** The trait: a gate classifies a context. *)
Class RiskGate := classify : RiskContext → RiskGateDecision.

Definition classify_workspace_write (mode : ExecutionMode) : RiskGateDecision :=
  match mode with
  | Plan => Risk_Deny "PLAN mode denies workspace writes"
  | Ask => Risk_NeedsHumanApproval "workspace write requires human approval in ASK mode"
  | AcceptEdits | Auto | Bypass => Risk_Allow
  end.

Definition is_safe_readonly_command (command : string) : bool :=
  let lower := to_ascii_lowercase (trim command) in
  if starts_with lower "git status" || starts_with lower "git diff" then true
  else if starts_with lower "rg "
          || starts_with lower "grep "
          || starts_with lower "cargo check"
          || starts_with lower "cargo test --no-run"
          || starts_with lower "cargo fmt --check"
          || starts_with lower "cargo clippy" then true
  else existsb (String.eqb lower) ["git status"; "git diff"; "pwd"; "ls"; "cargo check"].

Definition classify_process_spawn (mode : ExecutionMode) (command : string)
    : RiskGateDecision :=
  match mode with
  | Plan => Risk_Deny "PLAN mode denies process spawn"
  | _ =>
      if is_safe_readonly_command command then Risk_Allow
      else
        match mode with
        | Ask => Risk_NeedsHumanApproval "process spawn requires human approval in ASK mode"
        | AcceptEdits | Auto =>
            Risk_NeedsHumanApproval "mutating or non-readonly process requires human approval"
        | Bypass => Risk_Allow
        | Plan => Risk_Deny "plan handled above"
        end
  end.

Definition classify_outbound_web (mode : ExecutionMode) : RiskGateDecision :=
  match mode with
  | Plan => Risk_Deny "PLAN mode denies outbound web actions"
  | Ask => Risk_NeedsHumanApproval "outbound web requires human approval in ASK mode"
  | AcceptEdits | Auto | Bypass =>
      Risk_NeedsHumanApproval "outbound web requires human approval"
  end.

Definition classify_network_like (mode : ExecutionMode) : RiskGateDecision :=
  match mode with
  | Plan => Risk_Deny "PLAN mode denies network actions"
  | Ask | AcceptEdits | Auto =>
      Risk_NeedsHumanApproval "network action requires human approval"
  | Bypass => Risk_Allow
  end.

Definition command_text (argv : option (list string)) (a : Action) : string :=
  match argv with
  | Some [] => summary a
  | Some args => join " " args
  | None =>
      match target a with
      | Some t => summary a ++ " " ++ t
      | None => summary a
      end
  end.

(** [rsplit('/').next()]: what follows the last slash. *)
Definition after_last_slash (s : string) : string := default s (last (split_on "/" s)).

Definition shell_names : list string := ["sh"; "bash"; "zsh"; "dash"; "ksh"].
Definition shell_flags : list string := ["-c"; "-lc"; "-ic"].

Definition is_shell_argv (argv : option (list string)) : bool :=
  match argv with
  | Some (exe :: flag :: _) =>
      existsb (String.eqb (after_last_slash exe)) shell_names
      && existsb (String.eqb flag) shell_flags
  | _ => false
  end.

Definition is_opaque_shell (argv : option (list string)) (command : string) : bool :=
  if is_shell_argv argv then true
  else contains command "|" || contains command "&&" || contains command "||"
       || contains command ";" || contains command "$(" || contains command "`".

Definition escalation_names : list string := ["sudo"; "doas"; "su"; "pkexec"].

Definition is_escalation_token (token : string) : bool :=
  existsb (String.eqb (to_ascii_lowercase (default token (file_name token)))) escalation_names.

Definition contains_privilege_escalation (command : string) : bool :=
  existsb is_escalation_token (split_whitespace command).

Definition contains_destructive_git (command : string) : bool :=
  let lower := to_ascii_lowercase command in
  (contains lower "git push" && (contains lower "--force" || contains lower "-f"))
  || contains lower "git reset --hard"
  || contains lower "git clean -f".

Definition path_escape_in_target (e : NormalizedEffect) : bool :=
  match target (effect_action e) with
  | None => false
  | Some t =>
      contains t "/../" || contains t "\..\" || starts_with t "../" || starts_with t "..\"
  end.

Definition DeterministicRiskGate : RiskGate := λ ctx,
  let e := risk_effect ctx in
  let a := effect_action e in
  let command := command_text (risk_argv ctx) a in
  if contains_privilege_escalation command
  then Risk_Deny "privilege escalation command is never auto-allowed"
  else if contains_destructive_git command
  then Risk_Deny "destructive git command is never auto-allowed"
  else if path_escape_in_target e
  then Risk_Deny "path escape attempt outside workspace scope"
  else if bool_decide (origin a = User) then Risk_Allow
  else if bool_decide (kind a = SpawnProcess) && is_opaque_shell (risk_argv ctx) command
  then Risk_NeedsHumanApproval "opaque shell invocation requires human review"
  else
    match kind a with
    | ReadFile => Risk_Allow
    | WriteFile => classify_workspace_write (risk_mode ctx)
    | SpawnProcess => classify_process_spawn (risk_mode ctx) command
    | WebSearch | WebFetch => Risk_Allow
    | WebDownload | WebBrowser | WebSubmit | WebUpload => classify_outbound_web (risk_mode ctx)
    | NetworkConnect | SshConnect | SftpTransfer | TmuxAttach =>
        classify_network_like (risk_mode ctx)
    end.

Definition is_mutating_effect (e : NormalizedEffect) : bool :=
  match effect_capability e with
  | WorkspaceWrite | ProcessSpawn => true
  | CapNetworkConnect =>
      match kind (effect_action e) with WebSearch | WebFetch => false | _ => true end
  | WorkspaceRead => false
  end.

Definition is_read_only_effect (e : NormalizedEffect) : bool :=
  match kind (effect_action e) with
  | ReadFile | WebSearch | WebFetch => true
  | SpawnProcess => is_safe_readonly_command (command_text None (effect_action e))
  | _ => false
  end.

(** ** What a gate promises *)

(** From the most to the least restrictive. *)
Definition mode_rank (m : ExecutionMode) : nat :=
  match m with Plan => 0 | Ask => 1 | AcceptEdits => 2 | Auto => 3 | Bypass => 4 end.

Definition risk_rank (d : RiskGateDecision) : nat :=
  match d with Risk_Deny _ => 0 | Risk_NeedsHumanApproval _ => 1 | Risk_Allow => 2 end.

Class RiskGateLaws (G : RiskGate) := {
  (** A more permissive mode never gives a stricter answer. *)
  classify_mode_mono m m' e argv :
    mode_rank m ≤ mode_rank m' →
    risk_rank (@classify G (mkRiskContext m e argv))
      ≤ risk_rank (@classify G (mkRiskContext m' e argv));
  (** A target with a parent segment that is not its last one is refused. *)
  classify_path_escape ctx :
    path_escape_in_target (risk_effect ctx) = true →
    ∃ reason, @classify G ctx = Risk_Deny reason;
}.

(** ** The deterministic gate *)

(** The three refusals that no mode and no origin lifts. *)
Definition hard_refusal (ctx : RiskContext) : bool :=
  let command := command_text (risk_argv ctx) (effect_action (risk_effect ctx)) in
  contains_privilege_escalation command || contains_destructive_git command
  || path_escape_in_target (risk_effect ctx).

(** What an agent may do without a human, by mode and kind. *)
Definition agent_auto_allowed (mode : ExecutionMode) (k : ActionKind) (safe : bool) : bool :=
  match k, mode with
  | (ReadFile | WebSearch | WebFetch), _ => true
  | WriteFile, (AcceptEdits | Auto | Bypass) => true
  | SpawnProcess, Plan => false
  | SpawnProcess, Bypass => true
  | SpawnProcess, _ => safe
  | (NetworkConnect | SshConnect | SftpTransfer | TmuxAttach), Bypass => true
  | _, _ => false
  end.

Lemma classify_hard_refusal ctx :
  hard_refusal ctx = true → ∃ reason, DeterministicRiskGate ctx = Risk_Deny reason.
Proof.
  unfold hard_refusal, DeterministicRiskGate.
  destruct (contains_privilege_escalation _); [by eexists|].
  destruct (contains_destructive_git _); [by eexists|].
  destruct (path_escape_in_target _); [by eexists|]. done.
Qed.

(** The gate below the hard refusals. *)
Definition soft_classify (ctx : RiskContext) : RiskGateDecision :=
  let a := effect_action (risk_effect ctx) in
  let command := command_text (risk_argv ctx) a in
  if bool_decide (origin a = User) then Risk_Allow
  else if bool_decide (kind a = SpawnProcess) && is_opaque_shell (risk_argv ctx) command
  then Risk_NeedsHumanApproval "opaque shell invocation requires human review"
  else
    match kind a with
    | ReadFile | WebSearch | WebFetch => Risk_Allow
    | WriteFile => classify_workspace_write (risk_mode ctx)
    | SpawnProcess => classify_process_spawn (risk_mode ctx) command
    | WebDownload | WebBrowser | WebSubmit | WebUpload => classify_outbound_web (risk_mode ctx)
    | NetworkConnect | SshConnect | SftpTransfer | TmuxAttach =>
        classify_network_like (risk_mode ctx)
    end.

Lemma classify_soft ctx :
  hard_refusal ctx = false → DeterministicRiskGate ctx = soft_classify ctx.
Proof.
  unfold hard_refusal, DeterministicRiskGate, soft_classify. cbn zeta.
  intros [[-> ->]%orb_false_iff ->]%orb_false_iff.
  repeat (case_match; try done).
Qed.

Lemma hard_refusal_mode m m' e argv :
  hard_refusal (mkRiskContext m e argv) = hard_refusal (mkRiskContext m' e argv).
Proof. done. Qed.

Lemma soft_classify_mono m m' e argv :
  mode_rank m ≤ mode_rank m' →
  risk_rank (soft_classify (mkRiskContext m e argv))
    ≤ risk_rank (soft_classify (mkRiskContext m' e argv)).
Proof.
  intros Hm. unfold soft_classify. cbn [risk_mode risk_effect risk_argv].
  repeat (case_match; try done);
    unfold classify_workspace_write, classify_process_spawn, classify_outbound_web,
      classify_network_like;
    destruct m, m'; cbn in Hm |- *; try lia; destruct (is_safe_readonly_command _); cbn; lia.
Qed.

#[export] Instance deterministic_gate_laws : RiskGateLaws DeterministicRiskGate.
Proof.
  split.
  - intros m m' e argv Hm. unfold classify.
    destruct (hard_refusal (mkRiskContext m e argv)) eqn:Hr.
    + destruct (classify_hard_refusal _ Hr) as [r ->]. cbn. lia.
    + rewrite !classify_soft; [by apply soft_classify_mono|done..].
  - intros ctx He. apply classify_hard_refusal. unfold hard_refusal.
    by rewrite He, orb_true_r.
Qed.

(** The gate auto-allows exactly this: nothing that escalates privileges,
    rewrites git history by force or climbs out through a parent segment,
    whatever the mode and even for the user; beyond that everything of the user,
    and for an agent only what the mode table lists, never an opaque shell and,
    in no mode, outbound web. *)
Theorem risk_gate_allows_exactly ctx :
  let a := effect_action (risk_effect ctx) in
  let command := command_text (risk_argv ctx) a in
  DeterministicRiskGate ctx = Risk_Allow ↔
  hard_refusal ctx = false ∧
  (origin a = User ∨
   (kind a = SpawnProcess → is_opaque_shell (risk_argv ctx) command = false) ∧
   agent_auto_allowed (risk_mode ctx) (kind a) (is_safe_readonly_command command) = true).
Proof.
  cbn zeta. destruct (hard_refusal ctx) eqn:Hr.
  { destruct (classify_hard_refusal _ Hr) as [r ->]. naive_solver. }
  rewrite (classify_soft _ Hr). unfold soft_classify. cbn zeta.
  destruct ctx as [m e argv]. cbn [risk_effect risk_mode risk_argv].
  destruct (effect_action e) as [[] k s t]; cbn [origin kind];
    [rewrite bool_decide_eq_true_2 by done; naive_solver|].
  rewrite (bool_decide_eq_false_2 (Agent = User)) by done.
  unfold classify_workspace_write, classify_process_spawn, classify_outbound_web,
    classify_network_like, agent_auto_allowed.
  destruct k; cbn [bool_decide andb decide decide_rel ActionKind_eq_dec];
    try (destruct m; naive_solver).
  - set (safe := is_safe_readonly_command _). set (opaque := is_opaque_shell _ _).
    rewrite bool_decide_eq_true_2 by done. cbn [andb].
    destruct opaque; [naive_solver|]. destruct m, safe; naive_solver.
Qed.
