(* ===== verification/Events.v ===== *)
(** * Session events

    [crates/impetus-protocol/src/events.rs]: the rows of the durable session
    log, the bounds on activity previews, and the decoding of rows written
    before payloads were typed.

    JSON values belong to the serde_json crate: [Json] has the value type and
    the accessors and decoders the code calls on it. *)

From S2P Require Import Prelude Str Action.

Open Scope string_scope.
Open Scope nat_scope.
Open Scope list_scope.

Definition EVENT_SCHEMA_VERSION : N := 1.
Definition MAX_ACTIVITY_PREVIEW_CHARS : nat := 512.
Definition MAX_CHILD_PROGRESS_EVENTS_PER_RUN : nat := 32.
Definition MAX_CHILD_ACTION_EVENTS_PER_RUN : nat := 64.

(** U+2026 in UTF-8. *)
Definition ellipsis : string :=
  String (ascii_of_N 226) (String (ascii_of_N 128) (String (ascii_of_N 166) "")).

Definition bound_activity_preview (text : string) : string :=
  let flat := chars_take MAX_ACTIVITY_PREVIEW_CHARS text in
  if MAX_ACTIVITY_PREVIEW_CHARS <? chars_count text then (flat ++ ellipsis)%string else flat.

(** The two [&mut] arguments come back beside the result. *)
Definition coalesce_child_progress (last_summary : option string) (emitted : nat)
    (summary : string) : option string * nat * option string :=
  if MAX_CHILD_PROGRESS_EVENTS_PER_RUN <=? emitted then (last_summary, emitted, None)
  else
    let bounded := bound_activity_preview summary in
    if is_empty bounded then (last_summary, emitted, None)
    else if bool_decide (last_summary = Some bounded) then (last_summary, emitted, None)
    else (Some bounded, S emitted, Some bounded).

Definition coalesce_child_action (emitted : nat) (preview : string)
    : nat * option string :=
  if MAX_CHILD_ACTION_EVENTS_PER_RUN <=? emitted then (emitted, None)
  else
    let bounded := bound_activity_preview preview in
    if is_empty bounded then (emitted, None) else (S emitted, Some bounded).

(** ** Event payloads *)

Record ArtifactRef := mkArtifactRef { artifact_id : string; byte_count : N }.

Inductive UserPromptIntent := Prompt | Steer | FollowUp.

Inductive SessionEvent :=
  | SessionCreated
  | SessionWorkspaceRoot (workspace_root : string)
  | SessionAttached
  | SessionExecutionModeChanged (mode : ExecutionMode).

Inductive RunEvent :=
  | RunStarted (run_id : Uuid)
  | RunCompleted (run_id : Uuid)
  | RunFailed (run_id : Uuid) (reason : string)
  | RunCancelled (run_id : Uuid)
  | RunInterruptedUnknown (run_id : Uuid).

Record IntentEvent := mkIntentEvent {
  intent_text : string;
  intent_artifact : option ArtifactRef;
  intent_kind : UserPromptIntent;
}.

Definition IntentEvent_new (text : string) : IntentEvent := mkIntentEvent text None Prompt.
Definition IntentEvent_with_artifact (text : string) (a : ArtifactRef) : IntentEvent :=
  mkIntentEvent text (Some a) Prompt.
Definition IntentEvent_with_intent (text : string) (i : UserPromptIntent)
    (a : option ArtifactRef) : IntentEvent := mkIntentEvent text a i.

Inductive ToolEventOutcome :=
  OutcomeSuccess | OutcomeError | OutcomeDenied | OutcomeApprovalRequired.

Inductive PtyEvent :=
  | PtyStarted (pty_id : N) (command : string) (working_dir : option string)
  | PtyOutput (pty_id : N) (preview : string) (dropped_total : N) (eof : bool)
  | PtySpill (pty_id : N) (artifact : ArtifactRef) (dropped_bytes : N)
  | PtyExited (pty_id : N) (exit_code : option Z).

Inductive CommandEvent :=
  | CommandStarted (tool_call_id command : string)
  | CommandOutput (tool_call_id preview : string)
  | CommandFinished (tool_call_id : string) (exit_code : option Z) (summary : option string).

Inductive EffectFenceEvent :=
  | FencePrepared (effect_id : Uuid) (args_digest kind : string) (target_label : option string)
  | FenceStarted (effect_id : Uuid) (args_digest : string)
  | FenceObserved (effect_id : Uuid) (args_digest summary : string)
  | FenceFailed (effect_id : Uuid) (args_digest reason : string)
  | FenceUnknown (effect_id : Uuid) (args_digest reason : string).

Inductive OfflineBatchEvent :=
  | BatchSubmitted (batch_id : Uuid) (config_digest : string) (item_count : N)
  | BatchProviderLinked (batch_id : Uuid) (config_digest provider_job_id : string)
  | BatchCollecting (batch_id : Uuid) (config_digest : string)
  | BatchItemDelivered (batch_id : Uuid) (item_id result_hash workspace_relpath : string)
  | BatchDelivered (batch_id : Uuid) (config_digest : string)
  | BatchFailed (batch_id : Uuid) (config_digest reason : string)
  | BatchUnknown (batch_id : Uuid) (config_digest reason : string)
  | BatchResubmitRefused (batch_id : Uuid) (config_digest reason : string).

Inductive AgentEvent :=
  | AgentChunk (run_id : Uuid) (chunk_id : N) (text : string) (artifact : option ArtifactRef)
  | AgentFinal (run_id : Uuid) (text : string)
  | AgentReasoningSummary (run_id : Uuid) (text : string).

Inductive ChildEvent :=
  | ChildStarted (child_id parent_id role : string)
  | ChildStatusChanged (child_id status : string) (current_action : option string)
  | ChildProgress (child_id : string) (percent : option N) (summary : string)
  | ChildAction (child_id name preview : string)
  | ChildFinished (child_id status : string) (summary error : option string).

Inductive ApprovalEvent :=
  | ApprovalRequested (request : ApprovalRequest)
  | ApprovalResolved (request : ApprovalRequest).

Inductive BackendEvent :=
  | ProviderHealthy (profile : string)
  | ProviderDegraded (profile reason : string)
  | ProviderUnavailable (profile reason : string)
  | KeychainAvailable
  | KeychainUnavailable (reason : string)
  | TokenExpiryWarning (profile : string) (expires_in_seconds : N).

Record CompactionStructuralState := mkCompactionStructuralState {
  structural_workspace_root : string;
  structural_parent_session_id : option Uuid;
  structural_allow_network : bool;
  structural_allow_web_outbound : bool;
  structural_allow_private_network : bool;
  structural_allowed_hosts : list string;
  structural_turns_used : N;
  structural_tokens_used : N;
  structural_compaction_count : N;
  structural_worktree_id : option string;
}.

Inductive BudgetEvent :=
  | BudgetUpdated (turns_used tokens_used : N) (measured : bool)
      (compaction_count context_used_percent : N)
  | CompactionRequired (threshold used : N)
  | CompactionStarted (from_sequence to_sequence threshold used : N)
  | CompactionCompleted (compacted_to compaction_count from_sequence to_sequence : N)
      (summary_artifact : option ArtifactRef) (structural : option CompactionStructuralState)
  | TurnLimitApproaching (limit used : N)
  | TokenLimitApproaching (limit used : N).

Inductive SandboxDecisionState := DecisionPrepared | DecisionDenied.

Record SandboxDecision := mkSandboxDecision {
  decision_backend : string;
  decision_state : SandboxDecisionState;
  decision_network_allowed : bool;
  decision_writable_root_count : N;
  decision_reason_code : option string;
}.

Inductive SandboxPrepareState := PrepareStatePrepared | PrepareStateDenied.

Inductive SandboxEvent :=
  | SandboxEventDecision (backend : string) (prepare_state : SandboxPrepareState)
      (network_allowed : bool) (writable_root_count : N) (reason_code : option string).

Definition SandboxEvent_from_decision (d : SandboxDecision) : SandboxEvent :=
  SandboxEventDecision (decision_backend d)
    match decision_state d with
    | DecisionPrepared => PrepareStatePrepared
    | DecisionDenied => PrepareStateDenied
    end
    (decision_network_allowed d) (decision_writable_root_count d) (decision_reason_code d).

Inductive RetryEvent :=
  | RetryAttempting (attempt max_attempts : N) (reason : string) (backoff_ms : N)
  | RetrySucceeded (attempt : N)
  | RetryExhausted (attempts : N) (last_error : string).

(** What the code calls of serde_json: field access, [as_str], and the derived
    decoders of the two payloads legacy rows hold. *)
Class Json := {
  Value : Type;
  value_get : Value → string → option Value;
  value_as_str : Value → option string;
  intent_from_value : Value → option IntentEvent;
  approval_from_value : Value → option ApprovalRequest;
}.

Section payloads.
  Context `{Json}.

Inductive ToolEvent :=
  | ToolStarted (name : string) (tool_call_id : option string)
  | ToolFinished (name summary : string) (tool_call_id : option string)
  | ToolObserved (tool_call_id tool_name arguments_summary : string)
      (outcome : ToolEventOutcome) (preview : string) (artifact : option ArtifactRef)
      (error : option string)
  | ToolDeferred (approval_id : Uuid) (tool_call_id tool_name : string) (arguments : Value)
  | ToolOutput (tool_call_id tool_name preview : string)
  | ToolFileRead (tool_call_id path : string) (bytes : N) (preview : string)
  | ToolSearchStarted (tool_call_id pattern target : string)
  | ToolSearchResult (tool_call_id : string) (match_count : N) (preview : string).

Inductive NoticeEvent :=
  | NoticePolicyAllowed
  | NoticePolicyDenied (reason : string)
  | NoticeRuntime (message : string)
  | NoticeLegacy (event_kind : string) (body : Value).

Inductive EventPayload :=
  | PayloadSession (e : SessionEvent)
  | PayloadRun (e : RunEvent)
  | PayloadIntent (e : IntentEvent)
  | PayloadPlan (summary : string)
  | PayloadTool (e : ToolEvent)
  | PayloadAgent (e : AgentEvent)
  | PayloadApproval (e : ApprovalEvent)
  | PayloadBackend (e : BackendEvent)
  | PayloadBudget (e : BudgetEvent)
  | PayloadNotice (e : NoticeEvent)
  | PayloadRetry (e : RetryEvent)
  | PayloadChild (e : ChildEvent)
  | PayloadSandbox (e : SandboxEvent)
  | PayloadPty (e : PtyEvent)
  | PayloadCommand (e : CommandEvent)
  | PayloadEffectFence (e : EffectFenceEvent)
  | PayloadOfflineBatch (e : OfflineBatchEvent).

Record Event := mkEvent {
  event_schema_version : N;
  event_id : Uuid;
  event_session_id : Uuid;
  event_sequence : N;
  event_at_unix_ms : N;
  event_payload : EventPayload;
}.

(** The clock and the fresh id are arguments. *)
Definition Event_new (id : Uuid) (now : N) (session_id : Uuid) (sequence : N)
    (payload : EventPayload) : Event :=
  mkEvent EVENT_SCHEMA_VERSION id session_id sequence now payload.

(** [event.sequence = s] on a clone. *)
Definition with_sequence (s : N) (e : Event) : Event :=
  mkEvent (event_schema_version e) (event_id e) (event_session_id e) s
    (event_at_unix_ms e) (event_payload e).

(** [None] is a [serde_json::Error]. *)
Definition legacy_payload (kind : string) (body : Value) : option EventPayload :=
  if String.eqb kind "user_intent" then PayloadIntent <$> intent_from_value body
  else if String.eqb kind "approval_requested" then
    (λ r, PayloadApproval (ApprovalRequested r)) <$> approval_from_value body
  else if String.eqb kind "approval_resolved" then
    (λ r, PayloadApproval (ApprovalResolved r)) <$> approval_from_value body
  else if String.eqb kind "runtime_notice" then
    Some (PayloadNotice (NoticeRuntime
      (default "legacy runtime notice" (value_get body "status" ≫= value_as_str))))
  else if String.eqb kind "policy_evaluated" then
    match value_get body "decision" ≫= value_as_str with
    | Some d =>
        if String.eqb d "allow" then Some (PayloadNotice NoticePolicyAllowed)
        else if String.eqb d "deny" then
          Some (PayloadNotice (NoticePolicyDenied
            (default "" (value_get body "reason" ≫= value_as_str))))
        else Some (PayloadNotice (NoticeLegacy kind body))
    | None => Some (PayloadNotice (NoticeLegacy kind body))
    end
  else Some (PayloadNotice (NoticeLegacy kind body)).

(** Only the three kinds that decode a typed body can be malformed. *)
Lemma legacy_payload_total kind body :
  kind ≠ "user_intent" → kind ≠ "approval_requested" → kind ≠ "approval_resolved" →
  is_Some (legacy_payload kind body).
Proof.
  intros H1 H2 H3. unfold legacy_payload.
  rewrite !(proj2 (String.eqb_neq _ _)) by done.
  repeat case_match; by eexists.
Qed.

End payloads.

(** ** Bounds on the durable previews *)

Lemma bound_activity_preview_count text :
  chars_count (bound_activity_preview text) ≤ S MAX_ACTIVITY_PREVIEW_CHARS.
Proof.
  unfold bound_activity_preview. pose proof (chars_take_count MAX_ACTIVITY_PREVIEW_CHARS text).
  case_match; [|lia]. etrans; [apply chars_count_app|].
  change (chars_count ellipsis) with 1. lia.
Qed.

Lemma bound_activity_preview_short text :
  chars_count text ≤ MAX_ACTIVITY_PREVIEW_CHARS → bound_activity_preview text = text.
Proof.
  intros Hle. unfold bound_activity_preview.
  rewrite (proj2 (Nat.ltb_ge _ _)) by done. by apply chars_take_all.
Qed.

(** The rows one child run writes: each summary the run reports goes through
    [coalesce_child_progress] with the run's own two cells. *)
Fixpoint child_progress_rows (last : option string) (emitted : nat) (reports : list string)
    : list string :=
  match reports with
  | [] => []
  | r :: rs =>
      let '(last', emitted', out) := coalesce_child_progress last emitted r in
      option_list out ++ child_progress_rows last' emitted' rs
  end.

Fixpoint no_adjacent_repeat (prev : option string) (l : list string) : Prop :=
  match l with
  | [] => True
  | x :: l' => prev ≠ Some x ∧ no_adjacent_repeat (Some x) l'
  end.

Definition progress_row_ok (s : string) : Prop :=
  s ≠ "" ∧ chars_count s ≤ S MAX_ACTIVITY_PREVIEW_CHARS.

Lemma child_progress_rows_from last emitted reports :
  emitted ≤ MAX_CHILD_PROGRESS_EVENTS_PER_RUN →
  length (child_progress_rows last emitted reports) + emitted
    ≤ MAX_CHILD_PROGRESS_EVENTS_PER_RUN ∧
  no_adjacent_repeat last (child_progress_rows last emitted reports) ∧
  Forall progress_row_ok (child_progress_rows last emitted reports).
Proof.
  revert last emitted. induction reports as [|r rs IH]; intros last emitted Hle.
  { cbn -[MAX_CHILD_PROGRESS_EVENTS_PER_RUN]. auto. }
  cbn -[MAX_CHILD_PROGRESS_EVENTS_PER_RUN coalesce_child_progress].
  unfold coalesce_child_progress.
  destruct (Nat.leb_spec MAX_CHILD_PROGRESS_EVENTS_PER_RUN emitted); [by apply IH|].
  destruct (is_empty _) eqn:Hempty; [by apply IH|].
  case_bool_decide; [by apply IH|].
  destruct (IH (Some (bound_activity_preview r)) (S emitted)) as (? & ? & ?); [done|].
  cbn -[MAX_CHILD_PROGRESS_EVENTS_PER_RUN]. split_and!; [lia|done|done|].
  constructor; [|done]. split; [|apply bound_activity_preview_count].
  by apply String.eqb_neq.
Qed.

(** However many progress reports a child run makes, it writes at most 32
    durable rows; none is empty, none repeats the row before it, and each holds
    at most 513 characters (512 and the ellipsis). *)
Theorem child_progress_flood_bound reports :
  let rows := child_progress_rows None 0 reports in
  length rows ≤ MAX_CHILD_PROGRESS_EVENTS_PER_RUN ∧
  no_adjacent_repeat None rows ∧ Forall progress_row_ok rows.
Proof.
  destruct (child_progress_rows_from None 0 reports) as (? & ? & ?).
  { unfold MAX_CHILD_PROGRESS_EVENTS_PER_RUN. lia. }
  cbn zeta. split_and!; [lia|done|done].
Qed.
