(* ===== verification/EventStore.v ===== *)
(** * Event store: the contract and the in-memory implementation

    [crates/impetus-core/src/storage.rs].  A session owns the events appended
    to it and may share a prefix of its parent's history: a fork stores only a
    parent id and a sequence number, and reading walks the parents.

    Poisoned locks are not modelled (no thread panics while it holds one).
    [Uuid::new_v4] and the clock are arguments.  The [broadcast] channel is the
    list of notifications sent so far.  The walk over the parents does not
    return on a cyclic parent relation: [ParentCycle] is that outcome, and the
    invariant [store_wf] excludes it. *)

From S2P Require Import Prelude Str Action Events.

Open Scope string_scope.
Open Scope nat_scope.
Open Scope list_scope.
Open Scope impetus_scope.

Inductive StoreError :=
  | StoreSqlite (what : string)
  | StoreUnsupportedSchema (event_id : Uuid) (schema_version : N)
  | StoreMalformedPayload (event_id : Uuid)
  | StoreInvalidUuid (field value : string)
  | MissingSession (session_id : Uuid)
  | MissingSequence (session_id : Uuid) (sequence : N)
  | MissingCheckpoint (checkpoint_id : Uuid)
  | DuplicateCheckpointName (session_id : Uuid) (name : string)
  | EmptyCheckpointName
  | ParentCycle.

Record SessionInfo := mkSessionInfo {
  info_id : Uuid;
  info_created_at_unix_ms : N;
  info_updated_at_unix_ms : N;
  info_parent_session_id : option Uuid;
  info_fork_sequence : option N;
}.

Record CheckpointInfo := mkCheckpointInfo {
  checkpoint_id : Uuid;
  checkpoint_session_id : Uuid;
  checkpoint_name : string;
  checkpoint_sequence : N;
  checkpoint_created_at_unix_ms : N;
}.

(** A [usize] bound on a result; [None] is [usize::MAX], which the length of no
    [Vec] reaches. *)
Abbreviation Limit := (option N).

Definition limit_room (limit : Limit) (len n : N) : N :=
  match limit with Some l => N.min n (l - len) | None => n end.
Definition limit_reached (limit : Limit) (len : N) : bool :=
  match limit with Some l => (l <=? len)%N | None => false end.
Definition take_limit {A} (limit : Limit) (l : list A) : list A :=
  match limit with Some n => take (N.to_nat n) l | None => l end.

(** The order of [BTreeMap<Uuid, _>]. *)
Definition by_uuid (x y : Uuid * (N * N)) : Prop := (x.1 ≤ y.1)%N.

#[export] Instance by_uuid_dec x y : Decision (by_uuid x y).
Proof. unfold by_uuid. apply _. Defined.

(** ** The contract a client of the session log relies on *)

Class EventStore `{Json} (St : Type) := {
  store_append_next (id : Uuid) (now : N) (session_id : Uuid) (p : EventPayload)
    : stateR St StoreError Event;
  store_list (session_id : Uuid) : St → result StoreError (list Event);
}.

(** Appending adds exactly one event at the end of the session, numbered after
    the last, and touches no other session; a failed append changes no
    session.  [store_inv] is the implementation's own invariant. *)
Class EventStoreLaws `{Json} (St : Type) `{!EventStore St} (store_inv : St → Prop) := {
  list_total s sid : store_inv s → ∃ l, store_list sid s = Ok l;
  append_next_ok s s' id now sid p e :
    store_inv s → store_append_next id now sid p s = (s', Ok e) →
    store_inv s' ∧ event_payload e = p ∧
    ∃ l, store_list sid s = Ok l ∧ store_list sid s' = Ok (l ++ [e]) ∧
         event_sequence e = N.of_nat (S (length l));
  append_next_other s s' id now sid sid' p e :
    store_inv s → store_append_next id now sid p s = (s', Ok e) → sid' ≠ sid →
    store_list sid' s' = store_list sid' s;
  append_next_err s s' id now sid p err :
    store_inv s → store_append_next id now sid p s = (s', Err err) →
    store_inv s' ∧ ∀ sid', store_list sid' s' = store_list sid' s;
  append_next_stamp s s' id now sid p e :
    store_inv s → store_append_next id now sid p s = (s', Ok e) →
    event_schema_version e = EVENT_SCHEMA_VERSION ∧ event_session_id e = sid;
}.

(** ** The in-memory store *)

Record MemorySessionMetadata := mkMeta {
  meta_id : Uuid;
  meta_parent_session_id : option Uuid;
  meta_fork_sequence : option N;
}.

Section memory.
Context `{Json}.

Record MemoryEventStore := mkMemoryEventStore {
  ms_events : list Event;
  ms_sessions : list MemorySessionMetadata;
  ms_checkpoints : list CheckpointInfo;
  ms_notified : list (Uuid * N);
}.

Definition MemoryEventStore_default : MemoryEventStore := mkMemoryEventStore [] [] [] [].

Definition find_meta (sessions : list MemorySessionMetadata) (id : Uuid)
    : option MemorySessionMetadata :=
  List.find (λ m, (meta_id m =? id)%N) sessions.

(** The [loop] of [memory_ancestry], in push order; [None] when the fuel ends. *)
Fixpoint ancestry_loop (fuel : nat) (sessions : list MemorySessionMetadata)
    (current_id : Uuid) (current_fork_seq : option N) : option (list (Uuid * option N)) :=
  match fuel with
  | 0 => None
  | S fuel' =>
      match find_meta sessions current_id with
      | Some meta =>
          match meta_parent_session_id meta with
          | Some parent_id =>
              cons (current_id, current_fork_seq) <$>
                ancestry_loop fuel' sessions parent_id (meta_fork_sequence meta)
          | None => Some [(current_id, current_fork_seq)]
          end
      | None => Some [(current_id, current_fork_seq)]
      end
  end.

(** One step per session at most, and one for a parent that is gone. *)
Definition memory_ancestry (sessions : list MemorySessionMetadata) (session_id : Uuid)
    : option (list (Uuid * option N)) :=
  reverse <$> ancestry_loop (S (length sessions)) sessions session_id None.

(** The [filter] of one ancestor: all its events for the session itself, the
    events up to the fork point otherwise. *)
Definition in_segment (sid : Uuid) (up_to : option N) (is_current : bool) (e : Event)
    : bool :=
  if negb (event_session_id e =? sid)%N then false
  else if is_current then true
  else match up_to with
       | Some u => (event_sequence e <=? u)%N
       | None => false
       end.

Definition segment_events (events : list Event) (sid : Uuid) (up_to : option N)
    (is_current : bool) : list Event :=
  List.filter (in_segment sid up_to is_current) events.

(** [idx == ancestry.len() - 1] over the enumerated ancestry. *)
Fixpoint tag_current {A} (l : list A) : list (bool * A) :=
  match l with
  | [] => []
  | [x] => [(true, x)]
  | x :: l' => (false, x) :: tag_current l'
  end.

Definition segments (st : MemoryEventStore) (ancestry : list (Uuid * option N))
    : list (list Event) :=
  (λ '(cur, (sid, up_to)), segment_events (ms_events st) sid up_to cur)
    <$> tag_current ancestry.

Definition logical_head_sequence (st : MemoryEventStore) (session_id : Uuid)
    : result StoreError N :=
  ancestry ← ok_or (memory_ancestry (ms_sessions st) session_id) ParentCycle;
  Ok (foldl (λ total seg, (total + N.of_nat (length seg))%N) 0%N (segments st ancestry)).

Definition memory_create_session (id event_id : Uuid) (now : N)
    : stateR MemoryEventStore StoreError Uuid := λ st,
  (mkMemoryEventStore
     (ms_events st ++ [Event_new event_id now id 1 (PayloadSession SessionCreated)])
     (ms_sessions st ++ [mkMeta id None None])
     (ms_checkpoints st) (ms_notified st), Ok id).

Definition memory_append (e : Event) : stateR MemoryEventStore StoreError () := λ st,
  (mkMemoryEventStore (ms_events st ++ [e]) (ms_sessions st) (ms_checkpoints st)
     (ms_notified st ++ [(event_session_id e, event_sequence e)]), Ok tt).

Definition memory_append_next (id : Uuid) (now : N) (session_id : Uuid)
    (p : EventPayload) : stateR MemoryEventStore StoreError Event :=
  st <-- StateR.get ;;
  last_sequence <-- StateR.lift (logical_head_sequence st session_id) ;;
  let e := Event_new id now session_id (last_sequence + 1) p in
  memory_append e ;;; StateR.ret e.

(** [event.sequence = after_sequence + out.len() + 1] for each pushed clone. *)
Fixpoint push_renumbered (after : N) (out : list Event) (es : list Event) : list Event :=
  match es with
  | [] => out
  | e :: es' =>
      push_renumbered after
        (out ++ [with_sequence (after + N.of_nat (length out) + 1)%N e]) es'
  end.

(** The loop of [list_after] over the segments. *)
Fixpoint list_after_loop (after : N) (limit : Limit) (out : list Event) (logical_end : N)
    (segs : list (list Event)) : list Event :=
  match segs with
  | [] => out
  | session_events :: segs' =>
      let count := N.of_nat (length session_events) in
      let segment_start := logical_end in
      if (segment_start + count <=? after)%N
      then list_after_loop after limit out (logical_end + count)%N segs'
      else
        let skip := saturating_sub after segment_start in
        let take_n := limit_room limit (N.of_nat (length out)) (count - skip) in
        let out' := push_renumbered after out
                      (take (N.to_nat take_n) (drop (N.to_nat skip) session_events)) in
        if limit_reached limit (N.of_nat (length out')) then out'
        else list_after_loop after limit out' (after + N.of_nat (length out'))%N segs'
  end.

Definition memory_list_after (session_id : Uuid) (after_sequence : N) (limit : Limit)
    (st : MemoryEventStore) : result StoreError (list Event) :=
  if bool_decide (limit = Some 0%N) then Ok []
  else
    ancestry ← ok_or (memory_ancestry (ms_sessions st) session_id) ParentCycle;
    Ok (list_after_loop after_sequence limit [] 0 (segments st ancestry)).

Definition memory_list (session_id : Uuid) (st : MemoryEventStore)
    : result StoreError (list Event) :=
  memory_list_after session_id 0 None st.

(** Shared by both stores: it reads through [EventStore::list]. *)
Definition validate_fork_sequence {St} (list_fn : Uuid → St → result StoreError (list Event))
    (source_session_id : Uuid) (up_to_sequence : N) (st : St) : result StoreError () :=
  history ← list_fn source_session_id st;
  match history with
  | [] => Err (MissingSession source_session_id)
  | _ =>
      if existsb (λ e, (event_sequence e =? up_to_sequence)%N) history then Ok tt
      else Err (MissingSequence source_session_id up_to_sequence)
  end.

Definition memory_fork_session (new_session_id : Uuid) (source_session_id : Uuid)
    (up_to_sequence : N) : stateR MemoryEventStore StoreError Uuid :=
  st <-- StateR.get ;;
  StateR.lift (validate_fork_sequence memory_list source_session_id up_to_sequence st) ;;;
  StateR.put (mkMemoryEventStore (ms_events st)
    (ms_sessions st ++ [mkMeta new_session_id (Some source_session_id) (Some up_to_sequence)])
    (ms_checkpoints st) (ms_notified st)) ;;;
  StateR.ret new_session_id.

Definition memory_create_checkpoint (id : Uuid) (now : N) (session_id : Uuid)
    (name : string) (sequence : N) : stateR MemoryEventStore StoreError CheckpointInfo :=
  st <-- StateR.get ;;
  let name := trim name in
  if is_empty name then StateR.fail EmptyCheckpointName
  else
    StateR.lift (validate_fork_sequence memory_list session_id sequence st) ;;;
    if existsb (λ c, (checkpoint_session_id c =? session_id)%N
                     && String.eqb (checkpoint_name c) name) (ms_checkpoints st)
    then StateR.fail (DuplicateCheckpointName session_id name)
    else
      let c := mkCheckpointInfo id session_id name sequence now in
      StateR.put (mkMemoryEventStore (ms_events st) (ms_sessions st)
        (ms_checkpoints st ++ [c]) (ms_notified st)) ;;;
      StateR.ret c.

Definition memory_list_checkpoints (session_id : Uuid) (st : MemoryEventStore)
    : list CheckpointInfo :=
  List.filter (λ c, (checkpoint_session_id c =? session_id)%N) (ms_checkpoints st).

Definition memory_get_checkpoint (id : Uuid) (st : MemoryEventStore)
    : result StoreError CheckpointInfo :=
  ok_or (List.find (λ c, (checkpoint_id c =? id)%N) (ms_checkpoints st))
    (MissingCheckpoint id).

Definition memory_delete_session (session_id : Uuid)
    : stateR MemoryEventStore StoreError () := λ st,
  (mkMemoryEventStore
     (List.filter (λ e, negb (event_session_id e =? session_id)%N) (ms_events st))
     (List.filter (λ m, negb (meta_id m =? session_id)%N) (ms_sessions st))
     (List.filter (λ c, negb (checkpoint_session_id c =? session_id)%N) (ms_checkpoints st))
     (ms_notified st), Ok tt).

(** The [BTreeMap] of first and last event times; [now] gives the clock read
    for a session without events of its own. *)
Definition session_times (now : Uuid → N) (st : MemoryEventStore) : gmap Uuid (N * N) :=
  let of_events := foldl (λ m e,
    match m !! event_session_id e with
    | Some (c, u) => <[event_session_id e := (c, N.max u (event_at_unix_ms e))]> m
    | None => <[event_session_id e := (event_at_unix_ms e, event_at_unix_ms e)]> m
    end) (∅ : gmap Uuid (N * N)) (ms_events st) in
  foldl (λ m meta,
    match m !! meta_id meta with
    | Some _ => m
    | None => <[meta_id meta := (now (meta_id meta), now (meta_id meta))]> m
    end) of_events (ms_sessions st).

Definition memory_list_sessions (now : Uuid → N) (st : MemoryEventStore)
    : list SessionInfo :=
  (λ '(id, (created, updated)),
     let meta := find_meta (ms_sessions st) id in
     mkSessionInfo id created updated
       (meta ≫= meta_parent_session_id) (meta ≫= meta_fork_sequence))
  <$> merge_sort by_uuid (map_to_list (session_times now st)).

End memory.

#[export] Instance memory_event_store `{Json} : EventStore MemoryEventStore := {|
  store_append_next := memory_append_next;
  store_list := memory_list;
|}.

(** ** Reading a page *)

Section reading.
Context `{Json}.

(** Numbers a list of events [a + 1], [a + 2], ... *)
Fixpoint renumber (a : N) (l : list Event) : list Event :=
  match l with
  | [] => []
  | e :: l' => with_sequence (a + 1)%N e :: renumber (a + 1)%N l'
  end.

Lemma length_renumber a l : length (renumber a l) = length l.
Proof. revert a. induction l; intros; cbn; auto. Qed.

Lemma renumber_app a l1 l2 :
  renumber a (l1 ++ l2) = renumber a l1 ++ renumber (a + N.of_nat (length l1)) l2.
Proof.
  revert a. induction l1 as [|e l1 IH]; intros a; cbn [renumber app length].
  { by rewrite N.add_0_r. }
  rewrite IH. do 3 f_equal. lia.
Qed.

Lemma drop_renumber n a l :
  drop n (renumber a l) = renumber (a + N.of_nat n) (drop n l).
Proof.
  revert a l. induction n as [|n IH]; intros a l; [by rewrite !drop_0, N.add_0_r|].
  destruct l as [|e l]; [done|]. cbn [renumber drop]. rewrite IH. f_equal. lia.
Qed.

Lemma take_renumber n a l : take n (renumber a l) = renumber a (take n l).
Proof.
  revert a l. induction n as [|n IH]; intros a [|e l]; [done..|].
  cbn [renumber take]. by rewrite IH.
Qed.

Lemma take_limit_renumber lim a l :
  take_limit lim (renumber a l) = renumber a (take_limit lim l).
Proof. destruct lim; [apply take_renumber|done]. Qed.

Lemma payload_renumber a l : event_payload <$> renumber a l = event_payload <$> l.
Proof. revert a. induction l as [|e l IH]; intros a; cbn; [done|]. by rewrite IH. Qed.

Lemma sequence_renumber a l i e :
  renumber a l !! i = Some e → event_sequence e = (a + N.of_nat (S i))%N.
Proof.
  revert a i. induction l as [|e0 l IH]; intros a [|i] Hi; simplify_eq/=; [lia|].
  apply IH in Hi. lia.
Qed.

Lemma push_renumbered_spec after out es :
  push_renumbered after out es =
  out ++ renumber (after + N.of_nat (length out)) es.
Proof.
  revert out. induction es as [|e es IH]; intros out; cbn [push_renumbered renumber].
  { by rewrite app_nil_r. }
  rewrite IH, <-app_assoc. cbn [app]. do 3 f_equal. rewrite length_app. cbn. lia.
Qed.

(** What is left to read with room for [limit - length out] more events. *)
Definition remaining (limit : Limit) (out : list Event) : Limit :=
  (λ l, (l - N.of_nat (length out))%N) <$> limit.

Lemma limit_room_take {A} limit (out : list Event) (l : list A) :
  take (N.to_nat (limit_room limit (N.of_nat (length out)) (N.of_nat (length l)))) l
  = take_limit (remaining limit out) l.
Proof.
  destruct limit as [n|]; cbn; [|apply take_ge; lia].
  destruct (decide (length l ≤ N.to_nat (n - N.of_nat (length out)))).
  - rewrite !take_ge; [done|lia..].
  - f_equal. lia.
Qed.

Lemma take_limit_nil {A} limit : take_limit limit ([] : list A) = [].
Proof. destruct limit; [apply take_nil|done]. Qed.

(** Reading past a full prefix goes on with what room is left. *)
Lemma take_limit_app_room limit (out l1 : list Event) l2 :
  limit_reached limit (N.of_nat (length (out ++ take_limit (remaining limit out) l1))) = false →
  take_limit (remaining limit out) l1 = l1 ∧
  take_limit (remaining limit out) (l1 ++ l2) =
    l1 ++ take_limit (remaining limit (out ++ l1)) l2.
Proof.
  destruct limit as [n|]; cbn; [|done]. rewrite length_app, length_take.
  intros Hr%N.leb_gt.
  assert (length l1 ≤ N.to_nat (n - N.of_nat (length out))) as Hle by lia.
  split; [by apply take_ge|].
  rewrite take_app_ge by done. rewrite length_app. do 2 f_equal. lia.
Qed.

Lemma take_limit_app_full limit (out l1 : list Event) l2 :
  limit_reached limit (N.of_nat (length (out ++ take_limit (remaining limit out) l1))) = true →
  take_limit (remaining limit out) (l1 ++ l2) = take_limit (remaining limit out) l1.
Proof.
  destruct limit as [n|]; cbn; [|done]. rewrite length_app, length_take.
  intros Hr%N.leb_le. rewrite take_app_le by lia. done.
Qed.

(** The loop of [list_after] computes a slice of the concatenated segments. *)
Lemma list_after_loop_spec after limit segs : ∀ out logical_end,
  (out = [] ∧ (logical_end ≤ after)%N) ∨ logical_end = (after + N.of_nat (length out))%N →
  list_after_loop after limit out logical_end segs =
  out ++ renumber (after + N.of_nat (length out))
           (take_limit (remaining limit out)
              (drop (N.to_nat (after - logical_end)) (concat segs))).
Proof.
  induction segs as [|seg segs IH]; intros out lend Hinv; cbn [list_after_loop concat].
  { by rewrite drop_nil, take_limit_nil, app_nil_r. }
  case_match eqn:Hskip.
  - (* the segment lies before the page *)
    apply N.leb_le in Hskip. rewrite drop_app_ge by lia.
    rewrite IH by (destruct Hinv as [[-> ?]| ->]; [left; split; [done|lia]|right; lia]).
    do 4 f_equal. lia.
  - apply N.leb_gt in Hskip.
    set (sk := N.to_nat (saturating_sub after lend)).
    assert (sk = N.to_nat (after - lend)) as Esk by done.
    assert (sk ≤ length seg) as Hsk by lia.
    rewrite push_renumbered_spec.
    replace (N.of_nat (length seg) - saturating_sub after lend)%N
      with (N.of_nat (length (drop sk seg)))
      by (rewrite length_drop; unfold sk; lia).
    rewrite limit_room_take.
    rewrite <-Esk, drop_app_le by done.
    set (seg' := drop sk seg).
    assert (∀ a l, length (out ++ renumber a l) = length (out ++ l)) as Hlen.
    { intros. by rewrite !length_app, length_renumber. }
    case_match eqn:Hfull; rewrite Hlen in Hfull.
    { by rewrite take_limit_app_full. }
    destruct (take_limit_app_room limit out seg' (concat segs) Hfull) as [E1 E2].
    rewrite E1 in Hfull |- *. rewrite E2, renumber_app, Hlen.
    rewrite IH by (right; by rewrite Hlen).
    rewrite <-app_assoc. do 2 f_equal. rewrite Hlen.
    replace (N.to_nat (after - (after + N.of_nat (length (out ++ seg'))))) with 0 by lia.
    rewrite drop_0, length_app. f_equal; [lia|].
    f_equal. destruct limit; cbn; [|done]. by rewrite Hlen.
Qed.

(** The events of a session in reading order, with their stored numbers. *)
Definition history (st : MemoryEventStore) (sid : Uuid) : option (list Event) :=
  (λ a, concat (segments st a)) <$> memory_ancestry (ms_sessions st) sid.

Lemma memory_list_after_history st sid after limit h :
  history st sid = Some h →
  memory_list_after sid after limit st =
  Ok (renumber after (take_limit limit (drop (N.to_nat after) h))).
Proof.
  unfold history, memory_list_after.
  destruct (memory_ancestry _ _) as [a|]; [|done]. intros [= <-].
  case_bool_decide as Hlim; [by subst limit|]. cbn. f_equal.
  rewrite list_after_loop_spec by (left; split; [done|lia]).
  cbn [app length]. rewrite N.add_0_r, N.sub_0_r. do 2 f_equal.
  destruct limit; cbn; [|done]. by rewrite N.sub_0_r.
Qed.

Lemma memory_list_history st sid h :
  history st sid = Some h → memory_list sid st = Ok (renumber 0 h).
Proof.
  intros Hh. unfold memory_list. by rewrite (memory_list_after_history _ _ _ _ _ Hh).
Qed.

Lemma foldl_lengths {A} (segs : list (list A)) n :
  foldl (λ total seg, (total + N.of_nat (length seg))%N) n segs
  = (n + N.of_nat (length (concat segs)))%N.
Proof.
  revert n. induction segs as [|seg segs IH]; intros n; cbn; [lia|].
  rewrite IH, length_app. lia.
Qed.

Lemma logical_head_history st sid h :
  history st sid = Some h → logical_head_sequence st sid = Ok (N.of_nat (length h)).
Proof.
  unfold history, logical_head_sequence.
  destruct (memory_ancestry _ _) as [a|]; [|done]. intros [= <-]. cbn.
  by rewrite foldl_lengths.
Qed.

End reading.

(** ** The invariant of the store *)

Section invariant.
Context `{Json}.

(** Session ids are distinct, and the parent of a session, if it is still there,
    was created before it. *)
Fixpoint acyclic (l : list MemorySessionMetadata) : Prop :=
  match l with
  | [] => True
  | m :: l' =>
      meta_id m ∉ (meta_id <$> l') ∧
      (∀ p, meta_parent_session_id m = Some p → p ≠ meta_id m ∧ p ∉ (meta_id <$> l')) ∧
      acyclic l'
  end.

Definition owned (st : MemoryEventStore) (sid : Uuid) : list Event :=
  segment_events (ms_events st) sid None true.

Definition parent_of (st : MemoryEventStore) (sid : Uuid) : option (Uuid * option N) :=
  m ← find_meta (ms_sessions st) sid;
  p ← meta_parent_session_id m; Some (p, meta_fork_sequence m).

(** *** The walk over the parents ends *)

Lemma find_meta_some l id m :
  find_meta l id = Some m → m ∈ l ∧ meta_id m = id.
Proof. intros [? ?%N.eqb_eq]%find_some_elem. done. Qed.

Lemma find_meta_none l id : find_meta l id = None ↔ id ∉ (meta_id <$> l).
Proof.
  unfold find_meta. induction l as [|m l IH]; cbn; [set_solver|].
  destruct (N.eqb_spec (meta_id m) id); [set_solver|]. rewrite IH. set_solver.
Qed.

Lemma find_meta_app l1 l2 id :
  find_meta (l1 ++ l2) id =
  match find_meta l1 id with Some m => Some m | None => find_meta l2 id end.
Proof.
  unfold find_meta. induction l1 as [|m l1 IH]; cbn; [done|].
  by destruct (meta_id m =? id)%N.
Qed.

Lemma acyclic_lookup l i j m m' p :
  acyclic l → l !! i = Some m → meta_parent_session_id m = Some p →
  l !! j = Some m' → meta_id m' = p → j < i.
Proof.
  revert i j. induction l as [|m0 l IH]; intros i j Hl Hi Hp Hj Hid'; [done|].
  destruct Hl as (Hid & Hpar & Hl).
  destruct i as [|i], j as [|j]; simplify_eq/=.
  - by destruct (Hpar _ Hp).
  - destruct (Hpar _ Hp) as [_ []].
    apply list_elem_of_fmap. eauto using list_elem_of_lookup_2.
  - lia.
  - enough (j < i) by lia. eauto.
Qed.

Lemma ancestry_loop_total l fuel cur f :
  acyclic l → (∀ i m, l !! i = Some m → meta_id m = cur → i < fuel) →
  is_Some (ancestry_loop (S fuel) l cur f).
Proof.
  intros Hl. revert cur f. induction fuel as [|fuel IH]; intros cur f Hcur.
  - cbn. destruct (find_meta l cur) as [m|] eqn:Hm; [|by eexists].
    apply find_meta_some in Hm as [[i Hi]%list_elem_of_lookup Hid].
    specialize (Hcur _ _ Hi Hid). lia.
  - cbn [ancestry_loop]. destruct (find_meta l cur) as [m|] eqn:Hm; [|by eexists].
    apply find_meta_some in Hm as [[i Hi]%list_elem_of_lookup Hid].
    destruct (meta_parent_session_id m) as [p|] eqn:Hp; [|by eexists].
    apply fmap_is_Some, IH. intros j m' Hj Hid'.
    pose proof (acyclic_lookup _ _ _ _ _ _ Hl Hi Hp Hj Hid').
    specialize (Hcur _ _ Hi Hid). lia.
Qed.

(** The walk returns on every session of an acyclic store: the fuel given by
    [memory_ancestry] is enough. *)
Lemma ancestry_returns l cur f :
  acyclic l → is_Some (ancestry_loop (S (length l)) l cur f).
Proof.
  intros Hl. apply ancestry_loop_total; [done|].
  intros i m Hi _. by eapply lookup_lt_Some.
Qed.

Lemma ancestry_loop_more l fuel fuel' cur f a :
  ancestry_loop fuel l cur f = Some a → fuel ≤ fuel' →
  ancestry_loop fuel' l cur f = Some a.
Proof.
  revert fuel' cur f a. induction fuel as [|fuel IH]; intros [|fuel'] cur f a Ha Hle;
    [done|done|lia|].
  cbn in *. destruct (find_meta l cur) as [m|]; [|done].
  destruct (meta_parent_session_id m); [|done].
  apply fmap_Some in Ha as (a' & Ha & ->). by rewrite (IH _ _ _ _ Ha) by lia.
Qed.

(** *** The history of a session, seen from its parent *)

(** The events read for one ancestor. *)
Definition seg_of (st : MemoryEventStore) (sid : Uuid) (f : option N) (is_current : bool)
    : list Event := segment_events (ms_events st) sid f is_current.

(** Everything read before the events of [cur] itself. *)
Definition shared (st : MemoryEventStore) (cur : Uuid) : option (list Event) :=
  match parent_of st cur with
  | Some (p, f) =>
      (λ a, concat ((λ '(sid, u), seg_of st sid u false) <$> reverse a))
      <$> ancestry_loop (S (length (ms_sessions st))) (ms_sessions st) p f
  | None => Some []
  end.

(** The number of events a session shares with its ancestors. *)
Definition fork_base (st : MemoryEventStore) (sid : Uuid) : N :=
  N.of_nat (length (default [] (shared st sid))).

Fixpoint numbered_from (a : N) (l : list Event) : Prop :=
  match l with
  | [] => True
  | e :: l' => event_sequence e = (a + 1)%N ∧ numbered_from (a + 1)%N l'
  end.

(** The events a session owns are numbered on from what it shares, without
    gaps, and every fork point lies within what the parent had. *)
Record store_wf (st : MemoryEventStore) : Prop := {
  wf_acyclic : acyclic (ms_sessions st);
  wf_numbered : ∀ sid, numbered_from (fork_base st sid) (owned st sid);
  wf_forked : ∀ sid p f, parent_of st sid = Some (p, f) →
    ∃ n, f = Some n ∧ (n ≤ fork_base st p + N.of_nat (length (owned st p)))%N;
}.

Lemma tag_current_snoc {A} (l : list A) x :
  tag_current (l ++ [x]) = ((false,.) <$> l) ++ [(true, x)].
Proof. induction l as [|y [|z l] IH]; [done..|]. cbn [app tag_current fmap list_fmap] in *. by rewrite IH. Qed.

Lemma segments_snoc st a sid u :
  segments st (a ++ [(sid, u)]) =
  ((λ '(sid, u), seg_of st sid u false) <$> a) ++ [seg_of st sid u true].
Proof.
  unfold segments. rewrite tag_current_snoc, fmap_app, <-list_fmap_compose. done.
Qed.

Lemma parent_of_find st cur :
  parent_of st cur = match find_meta (ms_sessions st) cur with
                     | Some m => (λ p, (p, meta_fork_sequence m)) <$> meta_parent_session_id m
                     | None => None
                     end.
Proof. unfold parent_of. by destruct (find_meta _ _) as [[? [] ?]|]. Qed.

Lemma ancestry_loop_unfold st fuel cur f :
  ancestry_loop (S fuel) (ms_sessions st) cur f =
  match parent_of st cur with
  | Some (p, u) => cons (cur, f) <$> ancestry_loop fuel (ms_sessions st) p u
  | None => Some [(cur, f)]
  end.
Proof.
  cbn. rewrite parent_of_find. destruct (find_meta _ _) as [m|]; [|done].
  by destruct (meta_parent_session_id m).
Qed.

Lemma history_shared st sid :
  acyclic (ms_sessions st) →
  ∃ pre, shared st sid = Some pre ∧ history st sid = Some (pre ++ owned st sid).
Proof.
  intros Hac. unfold history, memory_ancestry, shared.
  destruct (ancestry_returns _ sid None Hac) as [a Ha]. rewrite Ha.
  rewrite ancestry_loop_unfold in Ha.
  destruct (parent_of st sid) as [[p u]|]; [|simplify_eq/=; eexists; split; [done|];
    unfold segments; cbn; by rewrite app_nil_r].
  apply fmap_Some in Ha as (a' & Ha & ->).
  rewrite (ancestry_loop_more _ _ (S (length (ms_sessions st))) _ _ _ Ha) by lia.
  eexists. split; [done|]. cbn [fmap option_fmap option_map].
  rewrite reverse_cons, segments_snoc.
  by rewrite concat_app, <-(app_nil_r (owned st sid)).
Qed.

Lemma numbered_from_filter a l sid n :
  numbered_from a l → (∀ e, e ∈ l → event_session_id e = sid) →
  List.filter (in_segment sid (Some n) false) l = take (N.to_nat (n - a)) l.
Proof.
  revert a. induction l as [|e l IH]; intros a Hn Hs; cbn; [by rewrite take_nil|].
  destruct Hn as [He Hl].
  assert (in_segment sid (Some n) false e = (event_sequence e <=? n)%N) as ->.
  { unfold in_segment. by rewrite Hs, N.eqb_refl by set_solver. }
  specialize (IH _ Hl ltac:(set_solver)). rewrite IH.
  destruct (N.leb_spec (event_sequence e) n).
  - replace (N.to_nat (n - a)) with (S (N.to_nat (n - (a + 1)))) by lia. done.
  - replace (N.to_nat (n - a)) with 0 by lia.
    by replace (N.to_nat (n - (a + 1))) with 0 by lia.
Qed.

Lemma filter_filter_in {A} (f g : A → bool) l :
  (∀ x, f x = true → g x = true) → List.filter f (List.filter g l) = List.filter f l.
Proof.
  intros Hfg. induction l as [|x l IH]; cbn; [done|].
  destruct (g x) eqn:Hg; cbn; rewrite IH; [done|].
  destruct (f x) eqn:Hf; [|done]. apply Hfg in Hf. congruence.
Qed.

Lemma owned_session st sid e : e ∈ owned st sid → event_session_id e = sid.
Proof.
  unfold owned, segment_events. rewrite list_elem_of_In, List.filter_In.
  unfold in_segment. intros [_ Hin]. destruct (N.eqb_spec (event_session_id e) sid); done.
Qed.

(** In a well-formed store the events up to a fork point are a prefix of what
    the ancestor owns. *)
Lemma seg_of_prefix st sid n :
  store_wf st →
  seg_of st sid (Some n) false = take (N.to_nat (n - fork_base st sid)) (owned st sid).
Proof.
  intros Hwf. rewrite <-(numbered_from_filter (fork_base st sid) _ sid).
  - unfold owned, seg_of, segment_events. rewrite filter_filter_in; [done|].
    intros e. unfold in_segment. by case_match.
  - by apply wf_numbered.
  - apply owned_session.
Qed.

(** What a session shares is what its parent shares, then the parent's own
    events up to the fork point. *)
Lemma shared_step st sid p f :
  acyclic (ms_sessions st) → parent_of st sid = Some (p, f) →
  ∃ pre, shared st p = Some pre ∧ shared st sid = Some (pre ++ seg_of st p f false).
Proof.
  intros Hac Hp. unfold shared at 2. rewrite Hp.
  destruct (ancestry_returns _ p f Hac) as [a Ha]. rewrite Ha.
  rewrite ancestry_loop_unfold in Ha. unfold shared.
  destruct (parent_of st p) as [[p' u]|].
  - apply fmap_Some in Ha as (a' & Ha & ->).
    rewrite (ancestry_loop_more _ _ (S (length (ms_sessions st))) _ _ _ Ha) by lia.
    eexists. split; [done|]. cbn [fmap option_fmap option_map]. f_equal.
    rewrite reverse_cons, fmap_app, concat_app. cbn. by rewrite app_nil_r.
  - simplify_eq/=. eexists. split; [done|]. by rewrite app_nil_r.
Qed.

Lemma shared_root st sid : parent_of st sid = None → shared st sid = Some [].
Proof. unfold shared. by intros ->. Qed.

(** Induction along the parents of an acyclic store. *)
Lemma parent_ind st (P : Uuid → Prop) :
  acyclic (ms_sessions st) →
  (∀ sid, parent_of st sid = None → P sid) →
  (∀ sid p f, parent_of st sid = Some (p, f) → P p → P sid) →
  ∀ sid, P sid.
Proof.
  intros Hac Hroot Hstep sid. destruct (ancestry_returns _ sid None Hac) as [a Ha].
  revert Ha. generalize (@None N), (S (length (ms_sessions st))). intros u fuel.
  revert sid u a. induction fuel as [|fuel IH]; intros sid u a Ha; [done|].
  rewrite ancestry_loop_unfold in Ha.
  destruct (parent_of st sid) as [[p f]|] eqn:Hp; [|auto].
  apply fmap_Some in Ha as (a' & Ha & _). eauto.
Qed.

(** Stores that agree on the parents of a closed set of sessions, and on the
    segments those inherit, agree on what these sessions share. *)
Lemma shared_ext st st' (P : Uuid → Prop) :
  acyclic (ms_sessions st) → acyclic (ms_sessions st') →
  (∀ sid, P sid → parent_of st' sid = parent_of st sid) →
  (∀ sid p f, P sid → parent_of st sid = Some (p, f) →
     P p ∧ seg_of st' p f false = seg_of st p f false) →
  ∀ sid, P sid → shared st' sid = shared st sid.
Proof.
  intros Hac Hac' Hpar Hseg.
  apply (parent_ind st (λ sid, P sid → shared st' sid = shared st sid)); [done|..].
  - intros sid Hr HP. rewrite !shared_root; [done..|]. by rewrite Hpar.
  - intros sid p f Hp IH HP. destruct (Hseg _ _ _ HP Hp) as [HPp Es].
    destruct (shared_step st sid p f) as (pre & E1 & ->); [done..|].
    destruct (shared_step st' sid p f) as (pre' & E2 & ->); [done| |].
    { by rewrite Hpar. }
    rewrite (IH HPp) in E2. congruence.
Qed.

Lemma fork_base_ext st st' sid :
  shared st' sid = shared st sid → fork_base st' sid = fork_base st sid.
Proof. unfold fork_base. by intros ->. Qed.

Lemma history_length st sid h :
  acyclic (ms_sessions st) → history st sid = Some h →
  N.of_nat (length h) = (fork_base st sid + N.of_nat (length (owned st sid)))%N.
Proof.
  intros Hac Hh. destruct (history_shared st sid Hac) as (pre & Hpre & Hh').
  rewrite Hh in Hh'. simplify_eq. unfold fork_base. rewrite Hpre, length_app. cbn. lia.
Qed.

(** A child reads its parent's history up to the fork point, or up to the
    parent's own fork point where that is later, and then its own events. *)
Lemma history_of_fork st sid p n hp :
  store_wf st → parent_of st sid = Some (p, Some n) → history st p = Some hp →
  shared st sid = Some (take (N.to_nat (N.max n (fork_base st p))) hp) ∧
  history st sid = Some (take (N.to_nat (N.max n (fork_base st p))) hp ++ owned st sid).
Proof.
  intros Hwf Hp Hhp. pose proof (wf_acyclic _ Hwf) as Hac.
  destruct (history_shared st sid Hac) as (pre & Hpre & Hh).
  destruct (history_shared st p Hac) as (pre_p & Hpre_p & Hh_p).
  destruct (shared_step st sid p (Some n) Hac Hp) as (pre_p' & E & E').
  rewrite Hpre_p in E. rewrite Hpre in E'. rewrite Hhp in Hh_p. simplify_eq.
  rewrite Hpre, Hh, (seg_of_prefix st p n Hwf).
  assert (fork_base st p = N.of_nat (length pre_p')) as Hb.
  { unfold fork_base. by rewrite Hpre_p. }
  assert (pre_p' ++ take (N.to_nat (n - fork_base st p)) (owned st p) =
          take (N.to_nat (N.max n (fork_base st p))) (pre_p' ++ owned st p)) as ->.
  { rewrite take_app, (take_ge pre_p') by lia. do 2 f_equal. lia. }
  done.
Qed.

End invariant.

(** ** Every operation keeps the invariant *)

Section preservation.
Context `{Json}.

(** An id [Uuid::new_v4] may return: no session, parent link or event has it. *)
Definition fresh_session (st : MemoryEventStore) (id : Uuid) : Prop :=
  id ∉ (meta_id <$> ms_sessions st) ∧
  Some id ∉ (meta_parent_session_id <$> ms_sessions st) ∧
  id ∉ (event_session_id <$> ms_events st).

(** No session was forked from this one. *)
Definition childless (st : MemoryEventStore) (id : Uuid) : Prop :=
  Some id ∉ (meta_parent_session_id <$> ms_sessions st).

Lemma numbered_from_app a l1 l2 :
  numbered_from a (l1 ++ l2) ↔
  numbered_from a l1 ∧ numbered_from (a + N.of_nat (length l1)) l2.
Proof.
  revert a. induction l1 as [|e l1 IH]; intros a; cbn [numbered_from app length].
  { rewrite N.add_0_r. tauto. }
  rewrite IH. replace (a + 1 + N.of_nat (length l1))%N with (a + N.of_nat (S (length l1)))%N
    by lia. tauto.
Qed.

Lemma parent_of_elem st sid p f :
  parent_of st sid = Some (p, f) →
  sid ∈ (meta_id <$> ms_sessions st) ∧ Some p ∈ (meta_parent_session_id <$> ms_sessions st).
Proof.
  rewrite parent_of_find. destruct (find_meta _ _) as [m|] eqn:Hm; [|done].
  apply find_meta_some in Hm as [Hm <-]. intros (p' & Hp & [= -> ->])%fmap_Some.
  rewrite !list_elem_of_fmap. naive_solver.
Qed.

Lemma acyclic_snoc l m :
  acyclic l → meta_id m ∉ (meta_id <$> l) →
  Some (meta_id m) ∉ (meta_parent_session_id <$> l) →
  meta_parent_session_id m ≠ Some (meta_id m) → acyclic (l ++ [m]).
Proof.
  induction l as [|m0 l IH]; cbn; intros Hl Hid Hpar Hself.
  { split_and!; [set_solver| |done]. intros p Hp. set_solver. }
  destruct Hl as (Hl1 & Hl2 & Hl3). rewrite fmap_app. split_and!.
  - cbn. set_solver.
  - intros p Hp. destruct (Hl2 p Hp). set_solver.
  - apply IH; set_solver.
Qed.

Lemma acyclic_filter (f : MemorySessionMetadata → bool) l :
  acyclic l → acyclic (List.filter f l).
Proof.
  assert (∀ l x, x ∈ (meta_id <$> List.filter f l) → x ∈ (meta_id <$> l)) as Hsub.
  { intros l' x. rewrite !list_elem_of_fmap. intros (m & -> & Hm).
    rewrite list_elem_of_In, List.filter_In, <-list_elem_of_In in Hm. naive_solver. }
  induction l as [|m l IH]; cbn; [done|]. intros (H1 & H2 & H3).
  destruct (f m); [|auto]. cbn. split_and!; [eauto| |auto].
  intros p Hp. destruct (H2 p Hp). eauto.
Qed.

(** *** A new session, empty or with its first events *)

Definition extended (st : MemoryEventStore) (m : MemorySessionMetadata) (es : list Event)
    (notified : list (Uuid * N)) : MemoryEventStore :=
  mkMemoryEventStore (ms_events st ++ es) (ms_sessions st ++ [m]) (ms_checkpoints st) notified.

Section extend.
Context (st : MemoryEventStore) (m : MemorySessionMetadata) (es : list Event)
          (notified : list (Uuid * N)).
Let id := meta_id m.
Let st' := extended st m es notified.
Hypothesis (Hwf : store_wf st) (Hfresh : fresh_session st id)
  (Hself : meta_parent_session_id m ≠ Some id)
  (Hes : ∀ e, e ∈ es → event_session_id e = id).

Lemma extended_acyclic : acyclic (ms_sessions st').
Proof. destruct Hfresh as (? & ? & ?). by apply acyclic_snoc; [apply Hwf|..]. Qed.

Lemma extended_parent sid : sid ≠ id → parent_of st' sid = parent_of st sid.
Proof.
  intros Hne. rewrite !parent_of_find. unfold st', extended. cbn [ms_sessions].
  rewrite find_meta_app. destruct (find_meta (ms_sessions st) sid); [done|].
  cbn. destruct (N.eqb_spec (meta_id m) sid); done.
Qed.

Lemma extended_parent_new :
  parent_of st' id = (λ p, (p, meta_fork_sequence m)) <$> meta_parent_session_id m.
Proof.
  rewrite parent_of_find. unfold st', extended. cbn [ms_sessions].
  rewrite find_meta_app. rewrite (proj2 (find_meta_none _ _)) by apply Hfresh.
  cbn. fold id. by rewrite N.eqb_refl.
Qed.

Lemma extended_seg sid f c : sid ≠ id → seg_of st' sid f c = seg_of st sid f c.
Proof.
  intros Hne. unfold seg_of, segment_events, st', extended. cbn [ms_events].
  rewrite List.filter_app. enough (List.filter (in_segment sid f c) es = []) as ->.
  { apply app_nil_r. }
  clear -Hes Hne. induction es as [|e l IH]; [done|]. cbn. unfold in_segment at 1.
  rewrite Hes by set_solver. rewrite (proj2 (N.eqb_neq id sid)) by done. cbn.
  apply IH. set_solver.
Qed.

Lemma extended_owned_new : owned st' id = es.
Proof.
  unfold owned, segment_events, st', extended. cbn [ms_events].
  rewrite List.filter_app. destruct Hfresh as (_ & _ & Hev).
  assert (List.filter (in_segment id None true) (ms_events st) = []) as ->.
  { clear -Hev. induction (ms_events st) as [|e l IH]; [done|]. cbn in *.
    unfold in_segment at 1. rewrite (proj2 (N.eqb_neq _ _)) by set_solver. cbn.
    apply IH. set_solver. }
  cbn. clear -Hes. induction es as [|e l IH]; [done|]. cbn. unfold in_segment at 1.
  rewrite Hes, N.eqb_refl by set_solver. cbn. f_equal. apply IH. set_solver.
Qed.

Lemma extended_shared sid : sid ≠ id → shared st' sid = shared st sid.
Proof.
  apply (shared_ext st st' (λ s, s ≠ id)).
  - apply Hwf.
  - apply extended_acyclic.
  - apply extended_parent.
  - intros s p f Hs Hp. assert (p ≠ id).
    { intros ->. apply parent_of_elem in Hp as [_ Hp]. by destruct Hfresh as (_ & [] & _). }
    split; [done|]. by apply extended_seg.
Qed.

Lemma extended_history sid : sid ≠ id → history st' sid = history st sid.
Proof.
  intros Hne. destruct (history_shared st sid) as (pre & Hp & ->); [apply Hwf|].
  destruct (history_shared st' sid) as (pre' & Hp' & ->); [apply extended_acyclic|].
  rewrite extended_shared in Hp' by done. simplify_eq.
  unfold owned. fold (seg_of st' sid None true) (seg_of st sid None true).
  by rewrite extended_seg.
Qed.

Lemma extended_wf :
  numbered_from (fork_base st' id) es →
  (∀ p, meta_parent_session_id m = Some p →
     ∃ n, meta_fork_sequence m = Some n ∧
          (n ≤ fork_base st p + N.of_nat (length (owned st p)))%N) →
  store_wf st'.
Proof.
  intros Hnum Hfork. split.
  - apply extended_acyclic.
  - intros sid. destruct (decide (sid = id)) as [->|Hne].
    + by rewrite extended_owned_new.
    + rewrite (fork_base_ext st) by by apply extended_shared.
      unfold owned. fold (seg_of st' sid None true) (seg_of st sid None true).
      rewrite extended_seg by done. by apply wf_numbered.
  - intros sid p f Hp.
    assert (p ≠ id) as Hne.
    { destruct (decide (sid = id)) as [->|Hs].
      - rewrite extended_parent_new in Hp. apply fmap_Some in Hp as (? & ? & [= -> ->]).
        congruence.
      - rewrite extended_parent in Hp by done. apply parent_of_elem in Hp as [_ Hp].
        intros ->. by destruct Hfresh as (_ & [] & _). }
    rewrite (fork_base_ext st) by by apply extended_shared.
    unfold owned. fold (seg_of st' p None true). rewrite extended_seg by done.
    destruct (decide (sid = id)) as [->|Hs].
    + rewrite extended_parent_new in Hp. apply fmap_Some in Hp as (p' & Hp' & [= -> ->]).
      by apply Hfork.
    + rewrite extended_parent in Hp by done. by eapply wf_forked.
Qed.

End extend.

(** *** Appending to a session *)

Section append.
Context (st : MemoryEventStore) (sid : Uuid) (e : Event) (h : list Event).
Let st' := (memory_append e st).1.
Hypothesis (Hwf : store_wf st) (Hh : history st sid = Some h)
  (Hsid : event_session_id e = sid) (Hseq : event_sequence e = (N.of_nat (length h) + 1)%N).

Lemma append_seg s f c :
  seg_of st' s f c = seg_of st s f c ++ (if in_segment s f c e then [e] else []).
Proof. unfold seg_of, segment_events. cbn [st' memory_append fst ms_events]. by rewrite List.filter_app. Qed.

Lemma append_seq_after : event_sequence e = (fork_base st sid + N.of_nat (length (owned st sid)) + 1)%N.
Proof. by rewrite Hseq, (history_length st sid h (wf_acyclic _ Hwf) Hh). Qed.

Lemma append_inherited s p f :
  parent_of st s = Some (p, f) → seg_of st' p f false = seg_of st p f false.
Proof.
  intros Hp. rewrite append_seg. destruct (wf_forked _ Hwf _ _ _ Hp) as (n & -> & Hn).
  enough (in_segment p (Some n) false e = false) as -> by apply app_nil_r.
  unfold in_segment. destruct (N.eqb_spec (event_session_id e) p) as [Ep|]; [|done].
  cbn. apply N.leb_gt. rewrite append_seq_after. rewrite Hsid in Ep. subst p. lia.
Qed.

Lemma append_shared s : shared st' s = shared st s.
Proof.
  apply (shared_ext st st' (λ _, True)); [apply Hwf|apply Hwf|done| |done].
  intros s' p f _ Hp. split; [done|]. by eapply append_inherited.
Qed.

Lemma append_owned s :
  owned st' s = owned st s ++ (if (sid =? s)%N then [e] else []).
Proof.
  change (owned st' s) with (seg_of st' s None true). rewrite append_seg. f_equal.
  unfold in_segment. rewrite Hsid. by destruct (sid =? s)%N.
Qed.

Lemma append_history s hs :
  history st s = Some hs →
  history st' s = Some (hs ++ (if (sid =? s)%N then [e] else [])).
Proof.
  intros Hs. destruct (history_shared st s) as (pre & Hp & E); [apply Hwf|].
  destruct (history_shared st' s) as (pre' & Hp' & ->); [apply Hwf|].
  rewrite append_shared in Hp'. rewrite append_owned, app_assoc. congruence.
Qed.

Lemma append_wf : store_wf st'.
Proof.
  split.
  - apply Hwf.
  - intros s. rewrite (fork_base_ext st st') by apply append_shared.
    rewrite append_owned, numbered_from_app. split; [by apply wf_numbered|].
    destruct (N.eqb_spec sid s) as [<-|]; [|done]. cbn.
    split; [|done]. apply append_seq_after.
  - intros s p f Hp. destruct (wf_forked _ Hwf _ _ _ Hp) as (n & -> & Hn).
    exists n. split; [done|]. rewrite (fork_base_ext st st') by apply append_shared.
    rewrite append_owned, length_app. lia.
Qed.

End append.

(** *** Deleting a session nobody was forked from *)

Section delete.
Context (st : MemoryEventStore) (d : Uuid).
Let st' := (memory_delete_session d st).1.
Hypothesis (Hwf : store_wf st) (Hleaf : childless st d).

Lemma delete_parent s : s ≠ d → parent_of st' s = parent_of st s.
Proof.
  intros Hne. rewrite !parent_of_find.
  enough (find_meta (ms_sessions st') s = find_meta (ms_sessions st) s) as -> by done.
  cbn [st' memory_delete_session fst ms_sessions]. unfold find_meta.
  induction (ms_sessions st) as [|m l IH]; cbn; [done|].
  destruct (N.eqb_spec (meta_id m) d); cbn; destruct (N.eqb_spec (meta_id m) s);
    [congruence|done..].
Qed.

Lemma delete_parent_gone : parent_of st' d = None.
Proof using Type.
  rewrite parent_of_find. rewrite (proj2 (find_meta_none _ _)); [done|].
  cbn [st' memory_delete_session fst ms_sessions]. rewrite list_elem_of_fmap.
  intros (m & Em & Hm). rewrite list_elem_of_In, List.filter_In in Hm.
  destruct Hm as [_ Hm%negb_true_iff%N.eqb_neq]. by apply Hm.
Qed.

Lemma delete_seg s f c :
  seg_of st' s f c = if (s =? d)%N then [] else seg_of st s f c.
Proof.
  unfold seg_of, segment_events. cbn [st' memory_delete_session fst ms_events].
  destruct (N.eqb_spec s d) as [->|Hne].
  - induction (ms_events st) as [|e l IH]; [done|]. cbn.
    destruct (N.eqb_spec (event_session_id e) d); cbn; [done|].
    unfold in_segment at 1. by rewrite (proj2 (N.eqb_neq _ _)).
  - apply filter_filter_in. intros e. unfold in_segment.
    destruct (N.eqb_spec (event_session_id e) s); [|done]. intros _.
    apply negb_true_iff, N.eqb_neq. congruence.
Qed.

Lemma delete_acyclic : acyclic (ms_sessions st').
Proof. apply acyclic_filter, Hwf. Qed.

Lemma not_deleted s p f : parent_of st s = Some (p, f) → p ≠ d.
Proof. intros [_ Hp]%parent_of_elem ->. by apply Hleaf. Qed.

Lemma delete_shared s : s ≠ d → shared st' s = shared st s.
Proof.
  apply (shared_ext st st' (λ s, s ≠ d)); [apply Hwf|apply delete_acyclic|..].
  - apply delete_parent.
  - intros s' p f _ Hp. pose proof (not_deleted _ _ _ Hp).
    split; [done|]. rewrite delete_seg. by rewrite (proj2 (N.eqb_neq _ _)).
Qed.

Lemma delete_owned s : owned st' s = if (s =? d)%N then [] else owned st s.
Proof. apply delete_seg. Qed.

Lemma delete_shared_gone : shared st' d = Some [].
Proof. apply shared_root, delete_parent_gone. Qed.

Lemma delete_history s hs :
  history st s = Some hs → history st' s = Some (if (s =? d)%N then [] else hs).
Proof.
  intros Hs. destruct (history_shared st' s) as (pre' & Hp' & ->); [apply delete_acyclic|].
  rewrite delete_owned. destruct (N.eqb_spec s d) as [->|Hne].
  { rewrite delete_shared_gone in Hp'. by simplify_eq. }
  rewrite delete_shared in Hp' by done.
  destruct (history_shared st s) as (pre & Hp & E); [apply Hwf|]. congruence.
Qed.

Lemma delete_wf : store_wf st'.
Proof.
  split; [apply delete_acyclic|..].
  - intros s. rewrite delete_owned. destruct (N.eqb_spec s d) as [->|Hne]; [done|].
    rewrite (fork_base_ext st) by by apply delete_shared. by apply wf_numbered.
  - intros s p f Hp. destruct (decide (s = d)) as [->|Hne].
    { by rewrite delete_parent_gone in Hp. }
    rewrite delete_parent in Hp by done. pose proof (not_deleted _ _ _ Hp).
    rewrite (fork_base_ext st) by by apply delete_shared.
    rewrite delete_owned, (proj2 (N.eqb_neq p d)) by done. by eapply wf_forked.
Qed.

End delete.
End preservation.

(** ** Refinement: a store of independent logs *)

Section refinement.
Context `{Json}.

Lemma wf_history st sid : store_wf st → ∃ h, history st sid = Some h.
Proof.
  intros Hwf. destruct (history_shared st sid) as (? & _ & ?); [apply Hwf|]. eauto.
Qed.

Lemma memory_append_next_eq st id now sid p h :
  history st sid = Some h →
  let e := Event_new id now sid (N.of_nat (length h) + 1) p in
  memory_append_next id now sid p st = ((memory_append e st).1, Ok e).
Proof.
  intros Hh. unfold memory_append_next, StateR.bind, StateR.get, StateR.lift.
  by rewrite (logical_head_history _ _ _ Hh).
Qed.

Lemma existsb_renumber n h :
  existsb (λ e, (event_sequence e =? n)%N) (renumber 0 h)
  = ((1 <=? n) && (n <=? N.of_nat (length h)))%N.
Proof.
  apply eq_true_iff_eq. rewrite existsb_bool, andb_true_iff, !N.leb_le. split.
  - intros (e & [i Hi]%list_elem_of_lookup & En%N.eqb_eq).
    apply lookup_lt_Some in Hi as Hlt. rewrite length_renumber in Hlt.
    apply sequence_renumber in Hi. lia.
  - intros [H1 H2]. destruct (lookup_lt_is_Some_2 (renumber 0 h) (N.to_nat (n - 1))) as [e He].
    { rewrite length_renumber. lia. }
    exists e. split; [by eapply list_elem_of_lookup_2|].
    apply sequence_renumber in He. apply N.eqb_eq. lia.
Qed.

Lemma validate_fork_sequence_eq st src n h :
  history st src = Some h →
  validate_fork_sequence memory_list src n st =
  if bool_decide (h = []) then Err (MissingSession src)
  else if ((1 <=? n) && (n <=? N.of_nat (length h)))%N then Ok tt
  else Err (MissingSequence src n).
Proof.
  intros Hh. unfold validate_fork_sequence.
  rewrite (memory_list_history _ _ _ Hh). cbn [mbind result_bind].
  rewrite <-existsb_renumber. by destruct h.
Qed.

(** Inside [1 .. length h] the fork is recorded; elsewhere nothing changes. *)
Lemma memory_fork_session_eq st new src n h :
  history st src = Some h →
  memory_fork_session new src n st =
  if ((1 <=? n) && (n <=? N.of_nat (length h)))%N
  then (extended st (mkMeta new (Some src) (Some n)) [] (ms_notified st), Ok new)
  else (st, Err (if bool_decide (h = []) then MissingSession src else MissingSequence src n)).
Proof.
  intros Hh. unfold memory_fork_session, StateR.bind, StateR.get, StateR.lift.
  rewrite (validate_fork_sequence_eq _ _ _ _ Hh).
  case_bool_decide as Hnil.
  - subst h. destruct (N.leb_spec 1 n); [|done].
    rewrite (proj2 (N.leb_gt n _)) by (cbn; lia). done.
  - destruct (_ && _); [|done]. unfold extended. by rewrite app_nil_r.
Qed.

(** The promise: one log per session.  A log knows how much of it was inherited
    at the fork. *)
Record SessionLog := mkLog { log_shared : N; log_payloads : list EventPayload }.

Definition LogSpec := Uuid → SessionLog.
Definition empty_log : SessionLog := mkLog 0 [].
Definition upd (s : LogSpec) (id : Uuid) (l : SessionLog) : LogSpec :=
  λ id', if (id =? id')%N then l else s id'.

Inductive StoreCmd :=
  | CmdCreate (id event_id : Uuid) (now : N)
  | CmdAppend (event_id : Uuid) (now : N) (sid : Uuid) (p : EventPayload)
  | CmdFork (new src : Uuid) (up_to : N)
  | CmdDelete (sid : Uuid)
  | CmdCheckpoint (id : Uuid) (now : N) (sid : Uuid) (name : string) (sequence : N).

Definition run_cmd (c : StoreCmd) (st : MemoryEventStore) : MemoryEventStore :=
  match c with
  | CmdCreate id event_id now => (memory_create_session id event_id now st).1
  | CmdAppend event_id now sid p => (memory_append_next event_id now sid p st).1
  | CmdFork new src up_to => (memory_fork_session new src up_to st).1
  | CmdDelete sid => (memory_delete_session sid st).1
  | CmdCheckpoint id now sid name sequence =>
      (memory_create_checkpoint id now sid name sequence st).1
  end.

Definition spec_cmd (c : StoreCmd) (s : LogSpec) : LogSpec :=
  match c with
  | CmdCreate id _ _ => upd s id (mkLog 0 [PayloadSession SessionCreated])
  | CmdAppend _ _ sid p =>
      upd s sid (mkLog (log_shared (s sid)) (log_payloads (s sid) ++ [p]))
  | CmdFork new src up_to =>
      if ((1 <=? up_to) && (up_to <=? N.of_nat (length (log_payloads (s src)))))%N
      then let k := N.max up_to (log_shared (s src)) in
           upd s new (mkLog k (take (N.to_nat k) (log_payloads (s src))))
      else s
  | CmdDelete sid => upd s sid empty_log
  | CmdCheckpoint _ _ _ _ _ => s
  end.

(** New ids are fresh, and a session is deleted only when nothing was forked
    from it. *)
Definition cmd_ok (st : MemoryEventStore) (c : StoreCmd) : Prop :=
  match c with
  | CmdCreate id _ _ => fresh_session st id
  | CmdFork new src _ => fresh_session st new ∧ new ≠ src
  | CmdDelete sid => childless st sid
  | CmdAppend _ _ _ _ | CmdCheckpoint _ _ _ _ _ => True
  end.

Definition abs (st : MemoryEventStore) : LogSpec := λ sid,
  mkLog (fork_base st sid) (event_payload <$> default [] (history st sid)).

Lemma create_refines st id event_id now :
  store_wf st → fresh_session st id →
  let st' := (memory_create_session id event_id now st).1 in
  store_wf st' ∧
  ∀ s, abs st' s = upd (abs st) id (mkLog 0 [PayloadSession SessionCreated]) s.
Proof.
  intros Hwf Hfr.
  set (e := Event_new event_id now id 1 (PayloadSession SessionCreated)).
  change ((memory_create_session id event_id now st).1)
    with (extended st (mkMeta id None None) [e] (ms_notified st)).
  set (st' := extended _ _ _ _). cbn zeta.
  assert (∀ e', e' ∈ [e] → event_session_id e' = id) as Hes by set_solver.
  assert (shared st' id = Some []) as Hsh.
  { apply shared_root. unfold st'.
    by rewrite (extended_parent_new st (mkMeta id None None) [e]). }
  assert (fork_base st' id = 0%N) as Hb by (unfold fork_base; by rewrite Hsh).
  assert (store_wf st') as Hwf'.
  { apply extended_wf; [done|done|done|done| |done].
    change (numbered_from (fork_base st' id) [e]). by rewrite Hb. }
  split; [done|]. intros s. unfold upd, abs. destruct (N.eqb_spec id s) as [<-|Hne].
  - rewrite Hb. f_equal.
    destruct (history_shared st' id) as (pre & Hp & ->); [apply Hwf'|].
    rewrite Hsh in Hp. simplify_eq/=.
    pose proof (extended_owned_new st (mkMeta id None None) [e] (ms_notified st) Hfr Hes) as Ho.
    cbn [meta_id] in Ho. fold st' in Ho. by rewrite Ho.
  - unfold st'. rewrite (fork_base_ext st) by (by apply extended_shared).
    by rewrite extended_history.
Qed.

Lemma append_refines st event_id now sid p :
  store_wf st →
  let st' := (memory_append_next event_id now sid p st).1 in
  store_wf st' ∧
  ∀ s, abs st' s =
    upd (abs st) sid (mkLog (log_shared (abs st sid)) (log_payloads (abs st sid) ++ [p])) s.
Proof.
  intros Hwf. destruct (wf_history st sid Hwf) as [h Hh].
  rewrite (memory_append_next_eq _ _ _ _ _ _ Hh). cbn [fst].
  set (e := Event_new _ _ _ _ _). cbn zeta.
  split; [by apply (append_wf st sid e h)|].
  intros s. destruct (wf_history st s Hwf) as [hs Hs]. unfold abs, upd.
  rewrite (append_history st sid e h Hwf Hh eq_refl eq_refl s hs Hs).
  rewrite (fork_base_ext st) by (by apply (append_shared st sid e h)).
  destruct (N.eqb_spec sid s) as [<-|]; rewrite ?Hs; cbn.
  - by rewrite fmap_app.
  - by rewrite app_nil_r.
Qed.

Lemma fork_refines st new src n h :
  store_wf st → fresh_session st new → new ≠ src → history st src = Some h →
  (1 ≤ n)%N → (n ≤ N.of_nat (length h))%N →
  let st' := extended st (mkMeta new (Some src) (Some n)) [] (ms_notified st) in
  let k := N.max n (fork_base st src) in
  store_wf st' ∧ history st' new = Some (take (N.to_nat k) h) ∧ fork_base st' new = k ∧
  (∀ s, s ≠ new → history st' s = history st s ∧ fork_base st' s = fork_base st s).
Proof.
  intros Hwf Hfr Hne Hh H1 Hn st' k.
  pose proof (history_length st src h (wf_acyclic _ Hwf) Hh) as Hlen.
  set (m := mkMeta new (Some src) (Some n)) in *.
  assert (meta_parent_session_id m ≠ Some (meta_id m)) as Hself by (cbn; congruence).
  assert (∀ e', e' ∈ ([] : list Event) → event_session_id e' = meta_id m) as Hes by set_solver.
  assert (store_wf st') as Hwf'.
  { apply extended_wf; [done..|]. intros p [= <-]. exists n. split; [done|lia]. }
  assert (parent_of st' new = Some (src, Some n)) as Hpar.
  { apply (extended_parent_new st m []). done. }
  assert (∀ s, s ≠ new → history st' s = history st s ∧ fork_base st' s = fork_base st s)
    as Hother.
  { intros s Hs. split; [by apply extended_history|].
    by apply fork_base_ext, extended_shared. }
  destruct (Hother src) as [Eh Eb]; [done|].
  destruct (history_of_fork st' new src n h) as [Hs Hhn]; [done|done|by rewrite Eh|].
  rewrite Eb in Hs, Hhn. fold k in Hs, Hhn.
  pose proof (extended_owned_new st m [] (ms_notified st) Hfr Hes) as Ho.
  cbn [m meta_id] in Ho. fold m st' in Ho. rewrite Ho, app_nil_r in Hhn.
  split_and!; [done|done| |done].
  unfold fork_base at 1. rewrite Hs. cbn. rewrite length_take. lia.
Qed.

Lemma checkpoint_same_history st id now sid name n :
  let st' := (memory_create_checkpoint id now sid name n st).1 in
  ms_events st' = ms_events st ∧ ms_sessions st' = ms_sessions st.
Proof.
  unfold memory_create_checkpoint, StateR.bind, StateR.get, StateR.lift.
  destruct (is_empty _); [done|].
  destruct (validate_fork_sequence _ _ _ _) as [[]|]; [|done].
  by destruct (existsb _ _).
Qed.

(** Reading depends on the events and the session links only. *)
Lemma same_data_refines st st' :
  ms_events st' = ms_events st → ms_sessions st' = ms_sessions st →
  store_wf st → store_wf st' ∧ ∀ s, abs st' s = abs st s.
Proof.
  destruct st as [ev ss cp no], st' as [ev' ss' cp' no']; cbn. intros -> -> Hwf.
  split; [|done]. destruct Hwf as [Ha Hn Hf]. by split.
Qed.

(** One command of the store does to every session what it does to its log. *)
Lemma run_cmd_refines st c :
  store_wf st → cmd_ok st c →
  store_wf (run_cmd c st) ∧ ∀ s, abs (run_cmd c st) s = spec_cmd c (abs st) s.
Proof.
  intros Hwf Hok. destruct c as [id eid now|eid now sid p|new src n|d|id now sid name n];
    cbn [run_cmd spec_cmd cmd_ok] in *.
  - by apply create_refines.
  - by apply append_refines.
  - destruct Hok as [Hfr Hne]. destruct (wf_history st src Hwf) as [h Hh].
    rewrite (memory_fork_session_eq _ _ _ _ _ Hh).
    unfold abs at 2. rewrite Hh. cbn [default log_payloads].
    unfold default, id. rewrite length_fmap. destruct (_ && _) eqn:Hin; [|done].
    apply andb_true_iff in Hin as [H1%N.leb_le Hn%N.leb_le].
    destruct (fork_refines st new src n h) as (? & Hh' & Hb & Ho); [done..|].
    cbn [fst]. split; [done|]. intros s. unfold upd.
    destruct (N.eqb_spec new s) as [<-|Hs].
    + unfold abs. rewrite Hh', Hb, Hh. cbn. by rewrite fmap_take.
    + unfold abs. by destruct (Ho s) as [-> ->].
  - split; [by apply delete_wf|]. intros s. destruct (wf_history st s Hwf) as [hs Hs].
    unfold abs at 1. rewrite (delete_history st d Hwf Hok s hs Hs). unfold upd.
    rewrite (N.eqb_sym d s). destruct (N.eqb_spec s d) as [->|Hne].
    + unfold fork_base. by rewrite delete_shared_gone.
    + unfold abs. rewrite Hs. f_equal. apply fork_base_ext. by apply delete_shared.
  - destruct (checkpoint_same_history st id now sid name n). by apply same_data_refines.
Qed.

(** Executions from an empty store. *)
Inductive store_trace : list StoreCmd → MemoryEventStore → Prop :=
  | trace_nil : store_trace [] MemoryEventStore_default
  | trace_snoc cs st c :
      store_trace cs st → cmd_ok st c → store_trace (cs ++ [c]) (run_cmd c st).

Definition spec_run (cs : list StoreCmd) : LogSpec :=
  foldl (λ s c, spec_cmd c s) (λ _, empty_log) cs.

Lemma spec_cmd_ext c s s' :
  (∀ id, s id = s' id) → ∀ id, spec_cmd c s id = spec_cmd c s' id.
Proof.
  intros E id. destruct c; cbn; rewrite ?E; unfold upd; repeat case_match; auto.
Qed.

Lemma store_trace_refines cs st :
  store_trace cs st → store_wf st ∧ ∀ s, abs st s = spec_run cs s.
Proof.
  induction 1 as [|cs st c Ht [Hwf Ha] Hok].
  - split; [|done]. split; [done|done|]. intros sid p f. rewrite parent_of_find. done.
  - destruct (run_cmd_refines st c Hwf Hok) as [Hwf' Ha']. split; [done|].
    intros s. rewrite Ha'. unfold spec_run. rewrite foldl_app. cbn. by apply spec_cmd_ext.
Qed.

End refinement.

(** The in-memory store keeps the contract of [EventStore]. *)
#[export] Instance memory_store_laws `{Json} :
  EventStoreLaws MemoryEventStore store_wf.
Proof.
  split.
  - intros st sid Hwf. destruct (wf_history st sid Hwf) as [h Hh].
    eexists. by apply memory_list_history.
  - intros st st' id now sid p e Hwf Ha. destruct (wf_history st sid Hwf) as [h Hh].
    cbn [store_append_next memory_event_store] in Ha.
    rewrite (memory_append_next_eq _ _ _ _ _ _ Hh) in Ha. simplify_eq.
    split; [by apply (append_wf st sid _ h)|]. split; [done|].
    exists (renumber 0 h). split; [by apply memory_list_history|]. split.
    + pose proof (append_history st sid (Event_new id now sid (N.of_nat (length h) + 1) p)
        h Hwf Hh eq_refl eq_refl sid h Hh) as Hh'. rewrite N.eqb_refl in Hh'.
      change (store_list sid) with (memory_list sid).
      rewrite (memory_list_history _ _ _ Hh'), renumber_app. done.
    + rewrite length_renumber. cbn. lia.
  - intros st st' id now sid sid' p e Hwf Ha Hne. destruct (wf_history st sid Hwf) as [h Hh].
    cbn [store_append_next memory_event_store] in Ha.
    rewrite (memory_append_next_eq _ _ _ _ _ _ Hh) in Ha. simplify_eq.
    destruct (wf_history st sid' Hwf) as [h' Hh'].
    pose proof (append_history st sid (Event_new id now sid (N.of_nat (length h) + 1) p)
      h Hwf Hh eq_refl eq_refl sid' h' Hh') as E.
    rewrite (proj2 (N.eqb_neq sid sid')), app_nil_r in E by done.
    change (store_list sid') with (memory_list sid').
    by rewrite (memory_list_history _ _ _ E), (memory_list_history _ _ _ Hh').
  - intros st st' id now sid p err Hwf Ha. destruct (wf_history st sid Hwf) as [h Hh].
    cbn [store_append_next memory_event_store] in Ha.
    by rewrite (memory_append_next_eq _ _ _ _ _ _ Hh) in Ha.
  - intros st st' id now sid p e Hwf Ha. destruct (wf_history st sid Hwf) as [h Hh].
    cbn [store_append_next memory_event_store] in Ha.
    rewrite (memory_append_next_eq _ _ _ _ _ _ Hh) in Ha. by simplify_eq.
Qed.

(** ** Properties of the in-memory store *)

Section properties.
Context `{Json}.

(** C12: The store is a set of independent logs.  After any sequence of creates,
    appends, forks, checkpoints and deletions of unforked sessions, reading a
    session returns exactly its log: appended payloads in order, numbered 1, 2,
    3, ...; appending to one session shows in no other, and a fork starts with
    a copy of its source's prefix. *)
Theorem memory_store_refines_logs cs st sid :
  store_trace cs st →
  ∃ l, memory_list sid st = Ok l ∧
       event_payload <$> l = log_payloads (spec_run cs sid) ∧
       ∀ i e, l !! i = Some e → event_sequence e = N.of_nat (S i).
Proof.
  intros [Hwf Ha]%store_trace_refines. destruct (wf_history st sid Hwf) as [h Hh].
  exists (renumber 0 h). split_and!.
  - by apply memory_list_history.
  - rewrite payload_renumber, <-Ha. unfold abs. by rewrite Hh.
  - intros i e Hi%sequence_renumber. done.
Qed.

(** Paging is exact: reading after a cursor with a limit returns the slice
    of the full listing that starts after the cursor, with the same sequence
    numbers, across the boundaries between a session and its ancestors. *)
Theorem list_after_is_page st sid after limit l :
  memory_list sid st = Ok l →
  memory_list_after sid after limit st = Ok (take_limit limit (drop (N.to_nat after) l)).
Proof.
  intros Hl. destruct (history st sid) as [h|] eqn:Hh.
  - rewrite (memory_list_history _ _ _ Hh) in Hl. simplify_eq.
    rewrite (memory_list_after_history _ _ _ _ _ Hh), drop_renumber, take_limit_renumber.
    by rewrite N2Nat.id.
  - unfold history in Hh. unfold memory_list, memory_list_after in Hl.
    rewrite bool_decide_eq_false_2 in Hl by done.
    by destruct (memory_ancestry _ _).
Qed.

(** Forking a session at [n] succeeds exactly for [1 <= n <= length]; the new
    session reads the first [n] events of the source or, when the source is a
    fork itself and [n] lies below its own fork point, everything the source
    inherited.  No other session changes. *)
Theorem fork_session_exact st new src n l :
  store_wf st → fresh_session st new → new ≠ src → memory_list src st = Ok l →
  let '(st', r) := memory_fork_session new src n st in
  if ((1 <=? n) && (n <=? N.of_nat (length l)))%N
  then r = Ok new ∧ store_wf st' ∧
       memory_list new st' = Ok (take (N.to_nat (N.max n (fork_base st src))) l) ∧
       ∀ s, s ≠ new → memory_list s st' = memory_list s st
  else st' = st ∧ r = Err (if bool_decide (l = []) then MissingSession src
                           else MissingSequence src n).
Proof.
  intros Hwf Hfr Hne Hl. destruct (wf_history st src Hwf) as [h Hh].
  rewrite (memory_list_history _ _ _ Hh) in Hl. simplify_eq.
  rewrite (memory_fork_session_eq _ _ _ _ _ Hh), length_renumber.
  destruct (_ && _) eqn:Hin; [|by destruct h].
  apply andb_true_iff in Hin as [H1%N.leb_le Hn%N.leb_le].
  destruct (fork_refines st new src n h) as (Hwf' & Hh' & Hb & Ho); [done..|].
  split_and!; [done|done| |].
  - by rewrite (memory_list_history _ _ _ Hh'), take_renumber.
  - intros s Hs. destruct (wf_history st s Hwf) as [hs Hhs].
    destruct (Ho s Hs) as [E _]. rewrite Hhs in E.
    by rewrite (memory_list_history _ _ _ E), (memory_list_history _ _ _ Hhs).
Qed.

(** Deleting a session a fork was taken from takes the inherited prefix away
    from the fork, with everything above it: the child reads only the events
    appended to it, renumbered from 1. *)
Theorem delete_parent_drops_prefix st child parent f :
  store_wf st → parent_of st child = Some (parent, f) → child ≠ parent →
  memory_list child (memory_delete_session parent st).1 = Ok (renumber 0 (owned st child)).
Proof.
  intros Hwf Hp Hne. set (st' := (memory_delete_session parent st).1).
  assert (acyclic (ms_sessions st')) as Hac by by apply delete_acyclic.
  destruct (history_shared st' child Hac) as (pre & Hpre & Hh).
  destruct (shared_step st' child parent f Hac) as (pre' & E & E').
  { by rewrite <-Hp; apply delete_parent. }
  unfold st' in E, E'. rewrite delete_shared_gone in E.
  rewrite delete_seg, N.eqb_refl in E'. fold st' in E'.
  rewrite E' in Hpre. simplify_eq. rewrite (memory_list_history _ _ _ Hh).
  cbn [app]. unfold st'. rewrite delete_owned. by rewrite (proj2 (N.eqb_neq _ _)).
Qed.

(** A checkpoint is recorded only under a non-blank trimmed name not yet used
    in its session and at a sequence the session has, and can then be read back
    by its id; every refusal leaves the store as it was. *)
Theorem create_checkpoint_exact st id now sid name n l :
  memory_list sid st = Ok l →
  id ∉ (checkpoint_id <$> ms_checkpoints st) →
  let '(st', r) := memory_create_checkpoint id now sid name n st in
  match r with
  | Ok c => c = mkCheckpointInfo id sid (trim name) n now ∧ trim name ≠ "" ∧
            (∃ e, e ∈ l ∧ event_sequence e = n) ∧
            (∀ c', c' ∈ memory_list_checkpoints sid st → checkpoint_name c' ≠ trim name) ∧
            memory_get_checkpoint id st' = Ok c ∧
            memory_list_checkpoints sid st' = memory_list_checkpoints sid st ++ [c]
  | Err _ => st' = st
  end.
Proof.
  intros Hl Hid. unfold memory_create_checkpoint, StateR.bind, StateR.get, StateR.lift.
  destruct (is_empty (trim name)) eqn:Hname; [done|].
  unfold validate_fork_sequence. rewrite Hl. cbn [mbind result_bind].
  destruct l as [|e0 l0]; [done|]. set (l := e0 :: l0).
  destruct (existsb _ l) eqn:Hseq; [|done].
  destruct (existsb _ (ms_checkpoints st)) eqn:Hdup; [done|]. cbn.
  split; [done|]. split_and!.
  - by apply String.eqb_neq.
  - apply existsb_bool in Hseq as (e & He & Hn%N.eqb_eq). eauto.
  - intros c' Hc' En. rewrite existsb_false_iff in Hdup.
    unfold memory_list_checkpoints in Hc'.
    rewrite list_elem_of_In, List.filter_In, <-list_elem_of_In in Hc'.
    destruct Hc' as [Hc' Hs]. specialize (Hdup c' Hc').
    rewrite Hs, En, String.eqb_refl in Hdup. done.
  - unfold memory_get_checkpoint. cbn. clear -Hid.
    induction (ms_checkpoints st) as [|c cs IH]; cbn; [by rewrite N.eqb_refl|].
    rewrite (proj2 (N.eqb_neq _ _)) by set_solver. apply IH. set_solver.
  - unfold memory_list_checkpoints. cbn. rewrite List.filter_app. cbn.
    by rewrite N.eqb_refl.
Qed.

End properties.

(** ** Concrete runs *)

Definition sample_json : Json := {|
  Value := string;
  value_get := λ _ _, None;
  value_as_str := Some;
  intent_from_value := λ _, None;
  approval_from_value := λ _, None;
|}.

Section samples.
#[local] Existing Instance sample_json.

(** Session 1 with three events; session 2 forked from it at 2 with one event
    of its own. *)
Definition sample_cmds : list StoreCmd :=
  [CmdCreate 1 100 0; CmdAppend 101 1 1 (PayloadPlan "a"); CmdAppend 102 2 1 (PayloadPlan "b");
   CmdFork 2 1 2; CmdAppend 103 3 2 (PayloadPlan "c")].

Definition sample_store : MemoryEventStore :=
  foldl (λ st c, run_cmd c st) MemoryEventStore_default sample_cmds.

Lemma sample_trace : store_trace sample_cmds sample_store.
Proof.
  unfold sample_store, sample_cmds. cbn [foldl].
  apply (trace_snoc [_; _; _; _]); [|done].
  apply (trace_snoc [_; _; _]); [|vm_compute; split_and!; set_solver].
  apply (trace_snoc [_; _]); [|done].
  apply (trace_snoc [_]); [|done].
  apply (trace_snoc []); [apply trace_nil|]. vm_compute. split_and!; set_solver.
Qed.

Lemma sample_store_wf : store_wf sample_store.
Proof. apply (store_trace_refines _ _ sample_trace). Qed.

Lemma memory_store_refines_witness :
  ∃ l, memory_list 2 sample_store = Ok l ∧
       event_payload <$> l = [PayloadSession SessionCreated; PayloadPlan "a"; PayloadPlan "c"] ∧
       ∀ i e, l !! i = Some e → event_sequence e = N.of_nat (S i).
Proof. exact (memory_store_refines_logs sample_cmds sample_store 2 sample_trace). Defined.

Lemma list_after_is_page_witness :
  ∃ l, memory_list 2 sample_store = Ok l ∧
       memory_list_after 2 1 (Some 1%N) sample_store = Ok (take 1 (drop 1 l)).
Proof.
  eexists. split; [reflexivity|]. exact (list_after_is_page sample_store 2 1 (Some 1%N) _ eq_refl).
Defined.

(** A fork of session 2 at 1, below the point 2 where it was forked itself,
    reads two events instead of one. *)
Lemma fork_session_exact_witness :
  ∃ l st', memory_list 2 sample_store = Ok l ∧
    memory_fork_session 3 2 1 sample_store = (st', Ok 3%N) ∧
    memory_list 3 st' = Ok (take 2 l) ∧ length l = 3.
Proof.
  pose proof (fork_session_exact sample_store 3 2 1 _ sample_store_wf
    ltac:(vm_compute; split_and!; set_solver) ltac:(done) eq_refl) as Hf.
  destruct (memory_fork_session 3 2 1 sample_store) as [st' r] eqn:E.
  destruct Hf as (-> & _ & Hl & _).
  eexists _, st'. split_and!; [reflexivity|reflexivity|exact Hl|reflexivity].
Defined.

Lemma delete_parent_drops_prefix_witness :
  ∃ l, memory_list 2 (memory_delete_session 1 sample_store).1 = Ok l ∧
       event_payload <$> l = [PayloadPlan "c"].
Proof.
  eexists. split.
  - exact (delete_parent_drops_prefix sample_store 2 1 (Some 2%N) sample_store_wf
             eq_refl ltac:(done)).
  - reflexivity.
Defined.

Lemma create_checkpoint_exact_witness :
  ∃ st', memory_create_checkpoint 7 9 2 " base " 3 sample_store =
           (st', Ok (mkCheckpointInfo 7 2 "base" 3 9)) ∧
         memory_get_checkpoint 7 st' = Ok (mkCheckpointInfo 7 2 "base" 3 9).
Proof.
  pose proof (create_checkpoint_exact sample_store 7 9 2 " base " 3 _ eq_refl
    ltac:(vm_compute; set_solver)) as Hc.
  destruct (memory_create_checkpoint 7 9 2 " base " 3 sample_store) as [st' r] eqn:E.
  vm_compute in E. injection E as <- <-. destruct Hc as (_ & _ & _ & _ & Hg & _).
  eexists. split; [reflexivity|exact Hg].
Defined.

End samples.
