(* ===== verification/Budget.v ===== *)
(** * Session budgets

    [crates/impetus-core/src/budget.rs]: limits on turns, tokens and wall time,
    and the threshold for automatic compaction.

    Counters are [u32] and [u64] with wrapping addition, as in a build without
    overflow checks.  Durations are in nanoseconds, an [Instant] is a point on
    the monotonic clock and [Instant::now] an argument.  The percentage
    arithmetic is IEEE binary64, with the specification of the Standard
    Library ([SpecFloat], precision 53, maximal exponent 1024). *)

From Stdlib Require Import Floats.SpecFloat.
From S2P Require Import Prelude Str.

Open Scope string_scope.
Open Scope list_scope.
Open Scope N_scope.

(** ** binary64 *)

Definition f64_of_N (n : N) : spec_float := binary_normalize 53 1024 (Z.of_N n) 0 false.
Definition f64_mul (x y : spec_float) : spec_float := SFmul 53 1024 x y.
Definition f64_div (x y : spec_float) : spec_float := SFdiv 53 1024 x y.

(** [f64::min]: a NaN argument is ignored. *)
Definition f64_min (x y : spec_float) : spec_float :=
  match x, y with
  | S754_nan, _ => y
  | _, S754_nan => x
  | _, _ => if SFltb y x then y else x
  end.

(** The integral part of a finite value, with the sign dropped. *)
Definition f64_trunc (m : positive) (e : Z) : N := Z.to_N (Z.shiftl (Zpos m) e).

(** [x as uN]: truncates, saturates at both ends, NaN becomes 0. *)
Definition f64_to_uint (max : N) (x : spec_float) : N :=
  match x with
  | S754_zero _ | S754_nan => 0
  | S754_infinity s => if s then 0 else max
  | S754_finite s m e => if s then 0 else N.min (f64_trunc m e) max
  end.

(** ** Configuration and state *)

Inductive ReasoningEffort := EffortLow | EffortMedium | EffortHigh.

Record CompactionPolicy := mkCompactionPolicy {
  threshold_percent : N;
  compaction_model : option string;
  min_turns_before_compaction : N;
}.

Definition default_compaction_threshold : N := 80.
Definition default_min_turns_before_compaction : N := 5.

Definition CompactionPolicy_default : CompactionPolicy :=
  mkCompactionPolicy default_compaction_threshold None default_min_turns_before_compaction.

Abbreviation Duration := N (only parsing).
Abbreviation Instant := Z (only parsing).

Record BudgetConfig := mkBudgetConfig {
  max_turns : option N;
  max_tokens : option N;
  max_wall_time : option Duration;
  reasoning_effort : ReasoningEffort;
  compaction : CompactionPolicy;
  context_limit : option N;
}.

Definition BudgetConfig_default : BudgetConfig :=
  mkBudgetConfig None None None EffortMedium CompactionPolicy_default None.

Record BudgetState := mkBudgetState {
  turns_used : N;
  tokens_used : N;
  measured_tokens : N;
  estimated_tokens : N;
  started_at : Instant;
  compaction_count : N;
}.

Definition BudgetState_new (now : Instant) : BudgetState := mkBudgetState 0 0 0 0 now 0.

(** [Instant::elapsed] saturates at zero. *)
Definition budget_elapsed (now : Instant) (s : BudgetState) : Duration :=
  Z.to_N (now - started_at s).

Definition context_used_percent (limit : N) (s : BudgetState) : N :=
  if limit =? 0 then 0
  else
    f64_to_uint u8_max
      (f64_min (f64_mul (f64_div (f64_of_N (tokens_used s)) (f64_of_N limit)) (f64_of_N 100))
         (f64_of_N 100)).

Inductive BudgetError :=
  | TurnLimitExceeded (limit used : N)
  | TokenLimitExceeded (limit used requested : N)
  | WallTimeExceeded (limit elapsed : Duration)
  | BudgetCompactionRequired (threshold used : N).

Record BudgetChecker := mkBudgetChecker {
  checker_config : BudgetConfig;
  checker_state : BudgetState;
}.

Definition BudgetChecker_new (now : Instant) (config : BudgetConfig) : BudgetChecker :=
  mkBudgetChecker config (BudgetState_new now).

(** ** Checks *)

Definition check_turn (c : BudgetChecker) : result BudgetError () :=
  match max_turns (checker_config c) with
  | Some max =>
      if max <=? turns_used (checker_state c)
      then Err (TurnLimitExceeded max (turns_used (checker_state c)))
      else Ok tt
  | None => Ok tt
  end.

Definition check_tokens (request_tokens : N) (c : BudgetChecker) : result BudgetError () :=
  match max_tokens (checker_config c) with
  | Some max =>
      let projected := wrapping_add u64_max (tokens_used (checker_state c)) request_tokens in
      if max <? projected
      then Err (TokenLimitExceeded max (tokens_used (checker_state c)) request_tokens)
      else Ok tt
  | None => Ok tt
  end.

Definition check_wall_time (now : Instant) (c : BudgetChecker) : result BudgetError () :=
  match max_wall_time (checker_config c) with
  | Some max =>
      let elapsed := budget_elapsed now (checker_state c) in
      if max <? elapsed then Err (WallTimeExceeded max elapsed) else Ok tt
  | None => Ok tt
  end.

Definition compaction_threshold (context_limit percent : N) : N :=
  f64_to_uint u64_max
    (f64_mul (f64_of_N context_limit) (f64_div (f64_of_N percent) (f64_of_N 100))).

Definition check_compaction (c : BudgetChecker) : result BudgetError () :=
  match context_limit (checker_config c) with
  | Some limit =>
      let policy := compaction (checker_config c) in
      let threshold := compaction_threshold limit (threshold_percent policy) in
      if (min_turns_before_compaction policy <=? turns_used (checker_state c))
         && (threshold <=? tokens_used (checker_state c))
      then Err (BudgetCompactionRequired threshold (tokens_used (checker_state c)))
      else Ok tt
  | None => Ok tt
  end.

Definition check_all (now : Instant) (request_tokens : N) (c : BudgetChecker)
    : result BudgetError () :=
  _ ← check_turn c; _ ← check_tokens request_tokens c; _ ← check_wall_time now c; Ok tt.

(** ** Accounting *)

Definition with_state (c : BudgetChecker) (s : BudgetState) : BudgetChecker :=
  mkBudgetChecker (checker_config c) s.

Definition record_turn (tokens : N) (c : BudgetChecker) : BudgetChecker :=
  let s := checker_state c in
  with_state c (mkBudgetState (wrapping_add u32_max (turns_used s) 1)
    (wrapping_add u64_max (tokens_used s) tokens) (measured_tokens s) (estimated_tokens s)
    (started_at s) (compaction_count s)).

Definition record_usage (tokens : N) (measured : bool) (c : BudgetChecker) : BudgetChecker :=
  let s := checker_state c in
  with_state c (mkBudgetState (turns_used s) (wrapping_add u64_max (tokens_used s) tokens)
    (if measured then wrapping_add u64_max (measured_tokens s) tokens else measured_tokens s)
    (if measured then estimated_tokens s else wrapping_add u64_max (estimated_tokens s) tokens)
    (started_at s) (compaction_count s)).

Definition record_turn_with_usage (tokens : N) (measured : bool) (c : BudgetChecker)
    : BudgetChecker :=
  let s := checker_state c in
  record_usage tokens measured
    (with_state c (mkBudgetState (wrapping_add u32_max (turns_used s) 1) (tokens_used s)
      (measured_tokens s) (estimated_tokens s) (started_at s) (compaction_count s))).

Definition budget_record_compaction (compacted_tokens : N) (c : BudgetChecker) : BudgetChecker :=
  let s := checker_state c in
  with_state c (mkBudgetState (turns_used s) compacted_tokens (measured_tokens s)
    (estimated_tokens s) (started_at s) (wrapping_add u32_max (compaction_count s) 1)).

(** ** Examples *)

Example threshold_128k : compaction_threshold 128000 80 = 102400.
Proof. reflexivity. Qed.

(** Rounding can put the threshold one token below the exact percentage. *)
Example threshold_rounds_down : compaction_threshold 100 29 = 28.
Proof. reflexivity. Qed.

Example used_percent_saturates :
  context_used_percent 1000 (mkBudgetState 0 5000 0 0 0 0) = 100.
Proof. reflexivity. Qed.

(** A request close to the top of [u64] wraps below the limit and passes. *)
Example check_tokens_wraps :
  check_tokens u64_max (mkBudgetChecker
    (mkBudgetConfig None (Some 100) None EffortMedium CompactionPolicy_default None)
    (mkBudgetState 1 50 0 50 0 0)) = Ok tt.
Proof. reflexivity. Qed.

(** ** What a check promises *)

Definition within (limit : option N) (n : N) : Prop :=
  match limit with Some max => n ≤ max | None => True end.

Definition below (limit : option N) (n : N) : Prop :=
  match limit with Some max => n < max | None => True end.

Lemma check_turn_ok c :
  check_turn c = Ok tt ↔ below (max_turns (checker_config c)) (turns_used (checker_state c)).
Proof.
  unfold check_turn, below. destruct (max_turns _) as [max|]; [|done].
  destruct (N.leb_spec max (turns_used (checker_state c))); split; done || lia.
Qed.

Lemma check_tokens_ok req c :
  check_tokens req c = Ok tt ↔
  within (max_tokens (checker_config c))
    (wrapping_add u64_max (tokens_used (checker_state c)) req).
Proof.
  unfold check_tokens, within. destruct (max_tokens _) as [max|]; [|done].
  destruct (N.ltb_spec max (wrapping_add u64_max (tokens_used (checker_state c)) req));
    split; done || lia.
Qed.

Lemma check_wall_time_ok now c :
  check_wall_time now c = Ok tt ↔
  within (max_wall_time (checker_config c)) (budget_elapsed now (checker_state c)).
Proof.
  unfold check_wall_time, within. destruct (max_wall_time _) as [max|]; [|done].
  destruct (N.ltb_spec max (budget_elapsed now (checker_state c))); split; done || lia.
Qed.

Lemma check_all_ok now req c :
  check_all now req c = Ok tt ↔
  below (max_turns (checker_config c)) (turns_used (checker_state c)) ∧
  within (max_tokens (checker_config c))
    (wrapping_add u64_max (tokens_used (checker_state c)) req) ∧
  within (max_wall_time (checker_config c)) (budget_elapsed now (checker_state c)).
Proof.
  unfold check_all. rewrite <-check_turn_ok, <-check_tokens_ok, <-check_wall_time_ok.
  destruct (check_turn c) as [[]|], (check_tokens req c) as [[]|], (check_wall_time now c) as [[]|];
    cbn; naive_solver.
Qed.

Lemma check_compaction_ok c :
  check_compaction c = Ok tt ↔
  ∀ limit, context_limit (checker_config c) = Some limit →
    turns_used (checker_state c) < min_turns_before_compaction (compaction (checker_config c)) ∨
    tokens_used (checker_state c)
      < compaction_threshold limit (threshold_percent (compaction (checker_config c))).
Proof.
  unfold check_compaction. destruct (context_limit (checker_config c)) as [limit|]; [|naive_solver].
  destruct (N.leb_spec (min_turns_before_compaction (compaction (checker_config c)))
    (turns_used (checker_state c))), (N.leb_spec (compaction_threshold limit
      (threshold_percent (compaction (checker_config c)))) (tokens_used (checker_state c)));
    cbn; split; try done; intros; simplify_eq; try lia.
  all: match goal with H : ∀ l, _ |- _ => destruct (H limit eq_refl); lia end.
Qed.
