(* ===== verification/SqliteStore.v ===== *)
(** * Event store: the SQLite implementation

    [SqliteEventStore] of [crates/impetus-core/src/storage.rs].  The database is
    the contents of its three tables, rows in insertion order; each statement is
    written as what it does to them: the uniqueness constraints of the schema,
    [INSERT OR IGNORE], filters, [ORDER BY], [LIMIT] and [OFFSET].  A transaction
    that fails is rolled back.

    Ids are kept as [Uuid]s (the text form of a UUID sorts like its value).
    Integers bound as parameters must fit a signed 64-bit column; the rusqlite
    crate refuses larger ones.  The JSON text of a payload belongs to serde_json:
    [StoreJson].  The budget columns of a session are signed 64-bit integers. *)

From S2P Require Import Prelude Str Action Budget Events EventStore.

Open Scope string_scope.
Open Scope nat_scope.
Open Scope list_scope.
Open Scope impetus_scope.

Definition i64_max : N := 9223372036854775807.

(** [ToSql for u64]. *)
Definition to_sql (n : N) : result StoreError N :=
  if (n <=? i64_max)%N then Ok n else Err (StoreSqlite "integer out of range").

(** [i64::try_from(n).unwrap_or(i64::MAX)]. *)
Definition clamp_i64 (n : N) : N := N.min n i64_max.
Definition limit_i64 (limit : Limit) : N := from_option clamp_i64 i64_max limit.

(** What the code calls of serde_json on stored rows; the text of a payload is
    never looked into. *)
Class StoreJson `{Json} := {
  PayloadText : Type;
  payload_to_json : EventPayload → PayloadText;
  payload_of_json : PayloadText → option EventPayload;
  string_of_json : string → option string;
  value_of_json : string → option Value;
}.

(** The derived encoder and decoder of [EventPayload] agree. *)
Class StoreJsonLaws `{StoreJson} := {
  payload_json_roundtrip p : payload_of_json (payload_to_json p) = Some p;
}.

(** [ORDER BY]: ties, which the constraints of the schema exclude, keep the row
    order. *)
Fixpoint insert_ordered {A} (before : A → A → bool) (x : A) (l : list A) : list A :=
  match l with
  | [] => [x]
  | y :: l' => if before y x then y :: insert_ordered before x l' else x :: l
  end.
Definition order_by {A} (before : A → A → bool) (l : list A) : list A :=
  foldl (λ acc x, insert_ordered before x acc) [] l.

(** The [INTEGER DEFAULT 0] columns of [sessions], as [i64]. *)
Record BudgetColumns := mkBudgetColumns {
  col_turns_used : Z;
  col_tokens_used : Z;
  col_compaction_count : Z;
}.

Definition budget_columns_default : BudgetColumns := mkBudgetColumns 0 0 0.

Section sqlite.
Context `{StoreJson}.

Record EventRow := mkEventRow {
  row_id : Uuid;
  row_session_id : Uuid;
  row_sequence : N;
  row_at_unix_ms : N;
  row_kind_json : string;
  row_body_json : string;
  row_schema_version : option N;
  row_payload_json : option PayloadText;
}.

Record SessionRow := mkSessionRow {
  sess_id : Uuid;
  sess_created : N;
  sess_updated : N;
  sess_parent : option Uuid;
  sess_fork : option N;
  sess_budget : BudgetColumns;
}.

(** The row of an [INSERT] that does not name the budget columns. *)
Definition new_session_row (id : Uuid) (created updated : N) (parent : option Uuid)
    (fork : option N) : SessionRow :=
  mkSessionRow id created updated parent fork budget_columns_default.

Record SqliteEventStore := mkSqlite {
  db_events : list EventRow;
  db_sessions : list SessionRow;
  db_checkpoints : list CheckpointInfo;
  db_notified : list (Uuid * N);
}.

Definition sq (A : Type) : Type := stateR SqliteEventStore StoreError A.

Definition set_events (db : SqliteEventStore) (rows : list EventRow) : SqliteEventStore :=
  mkSqlite rows (db_sessions db) (db_checkpoints db) (db_notified db).
Definition set_sessions (db : SqliteEventStore) (rows : list SessionRow) : SqliteEventStore :=
  mkSqlite (db_events db) rows (db_checkpoints db) (db_notified db).
Definition set_checkpoints (db : SqliteEventStore) (rows : list CheckpointInfo)
    : SqliteEventStore :=
  mkSqlite (db_events db) (db_sessions db) rows (db_notified db).

(** Dropping a transaction that was not committed rolls it back. *)
Definition transaction {A} (m : sq A) : sq A := λ db,
  match m db with
  | (db', Ok a) => (db', Ok a)
  | (_, Err e) => (db, Err e)
  end.

Definition notify (sid : Uuid) (seq : N) : sq () :=
  StateR.modify (λ db, mkSqlite (db_events db) (db_sessions db) (db_checkpoints db)
    (db_notified db ++ [(sid, seq)])).

Definition unique_violation {A} : sq A :=
  StateR.fail (StoreSqlite "UNIQUE constraint failed").

(** *** Rows *)

(** The row [insert_event] writes. *)
Definition event_row (e : Event) : EventRow :=
  mkEventRow (event_id e) (event_session_id e) (event_sequence e) (event_at_unix_ms e)
    "typed" "{}" (Some (event_schema_version e)) (Some (payload_to_json (event_payload e))).

(** The primary key and the unique index of [events]. *)
Definition event_clash (r r' : EventRow) : bool :=
  (row_id r =? row_id r')%N
  || ((row_session_id r =? row_session_id r')%N && (row_sequence r =? row_sequence r')%N).

Definition insert_event (e : Event) : sq () :=
  _ <-- StateR.lift (to_sql (event_sequence e)) ;;
  _ <-- StateR.lift (to_sql (event_at_unix_ms e)) ;;
  db <-- StateR.get ;;
  if existsb (event_clash (event_row e)) (db_events db) then unique_violation
  else StateR.put (set_events db (db_events db ++ [event_row e])).

Definition decode_event (r : EventRow) : result StoreError Event :=
  match row_schema_version r, row_payload_json r with
  | Some version, Some payload_json =>
      if negb (version =? EVENT_SCHEMA_VERSION)%N
      then Err (StoreUnsupportedSchema (row_id r) version)
      else
        payload ← ok_or (payload_of_json payload_json) (StoreMalformedPayload (row_id r));
        Ok (mkEvent version (row_id r) (row_session_id r) (row_sequence r) (row_at_unix_ms r)
              payload)
  | _, _ =>
      kind ← ok_or (string_of_json (row_kind_json r)) (StoreMalformedPayload (row_id r));
      body ← ok_or (value_of_json (row_body_json r)) (StoreMalformedPayload (row_id r));
      payload ← ok_or (legacy_payload kind body) (StoreMalformedPayload (row_id r));
      Ok (mkEvent EVENT_SCHEMA_VERSION (row_id r) (row_session_id r) (row_sequence r)
            (row_at_unix_ms r) payload)
  end.

Fixpoint decode_rows (rows : list EventRow) : result StoreError (list Event) :=
  match rows with
  | [] => Ok []
  | r :: rows' => e ← decode_event r; es ← decode_rows rows'; Ok (e :: es)
  end.

Definition find_session (rows : list SessionRow) (id : Uuid) : option SessionRow :=
  List.find (λ s, (sess_id s =? id)%N) rows.

(** *** The walk over the parents *)

Fixpoint sqlite_ancestry_loop (fuel : nat) (rows : list SessionRow) (current_id : Uuid)
    (current_fork_seq : option N) : option (list (Uuid * option N)) :=
  match fuel with
  | 0 => None
  | S fuel' =>
      match find_session rows current_id with
      | Some (mkSessionRow _ _ _ (Some parent_id) (Some fork_seq) _) =>
          cons (current_id, current_fork_seq) <$>
            sqlite_ancestry_loop fuel' rows parent_id (Some fork_seq)
      | _ => Some [(current_id, current_fork_seq)]
      end
  end.

(** As for the in-memory store, a cyclic parent relation is [ParentCycle]. *)
Definition sqlite_ancestry (db : SqliteEventStore) (session_id : Uuid)
    : result StoreError (list (Uuid * option N)) :=
  ok_or (reverse <$> sqlite_ancestry_loop (S (length (db_sessions db))) (db_sessions db)
                       session_id None) ParentCycle.

(** [SELECT .. WHERE session_id = ? (AND sequence <= ?) ORDER BY sequence]. *)
Definition by_sequence (r r' : EventRow) : bool := (row_sequence r <=? row_sequence r')%N.

Definition select_rows (db : SqliteEventStore) (sid : Uuid) (up_to : option N) : list EventRow :=
  order_by by_sequence (List.filter (λ r, (row_session_id r =? sid)%N
    && from_option (λ u, row_sequence r <=? u)%N true up_to) (db_events db)).

(** The rows of one segment of the ancestry. *)
Definition segment_rows (db : SqliteEventStore) (seg : bool * (Uuid * option N))
    : result StoreError (list EventRow) :=
  let '(is_current, (sid, up_to)) := seg in
  if is_current then Ok (select_rows db sid None)
  else u ← ok_or up_to (MissingSession sid); Ok (select_rows db sid (Some u)).

Fixpoint total_count (db : SqliteEventStore) (total : N) (segs : list (bool * (Uuid * option N)))
    : result StoreError N :=
  match segs with
  | [] => Ok total
  | seg :: segs' =>
      rows ← segment_rows db seg; total_count db (total + N.of_nat (length rows))%N segs'
  end.

Definition sqlite_logical_head_sequence (db : SqliteEventStore) (session_id : Uuid)
    : result StoreError N :=
  ancestry ← sqlite_ancestry db session_id; total_count db 0 (tag_current ancestry).

(** *** Operations *)

Definition insert_session (row : SessionRow) : sq () :=
  db <-- StateR.get ;;
  if existsb (λ s, (sess_id s =? sess_id row)%N) (db_sessions db) then unique_violation
  else StateR.put (set_sessions db (db_sessions db ++ [row])).

Definition sqlite_create_session (session_id event_id : Uuid) (now : N) : sq Uuid :=
  let event := Event_new event_id now session_id 1 (PayloadSession SessionCreated) in
  transaction (
    _ <-- StateR.lift (to_sql now) ;;
    insert_session (new_session_row session_id now now None None) ;;;
    insert_event event) ;;;
  notify session_id 1 ;;;
  StateR.ret session_id.

(** [UPDATE sessions SET updated_at_unix_ms = MAX(..) WHERE id = ?]; the number of
    rows changed. *)
Definition touch_session (sid : Uuid) (at_unix_ms : N) : sq nat := λ db,
  (set_sessions db ((λ s, if (sess_id s =? sid)%N
     then mkSessionRow (sess_id s) (sess_created s) (N.max (sess_updated s) at_unix_ms)
            (sess_parent s) (sess_fork s) (sess_budget s)
     else s) <$> db_sessions db),
   Ok (length (List.filter (λ s, (sess_id s =? sid)%N) (db_sessions db)))).

(** [INSERT OR IGNORE INTO sessions]. *)
Definition insert_session_or_ignore (row : SessionRow) : sq () :=
  db <-- StateR.get ;;
  if existsb (λ s, (sess_id s =? sess_id row)%N) (db_sessions db) then StateR.ret tt
  else StateR.put (set_sessions db (db_sessions db ++ [row])).

Definition sqlite_append (e : Event) : sq () :=
  transaction (
    at_ms <-- StateR.lift (to_sql (event_at_unix_ms e)) ;;
    insert_session_or_ignore (new_session_row (event_session_id e) at_ms at_ms None None) ;;;
    insert_event e ;;;
    _ <-- touch_session (event_session_id e) at_ms ;;
    StateR.ret tt) ;;;
  notify (event_session_id e) (event_sequence e).

Definition sqlite_append_next (id : Uuid) (now : N) (session_id : Uuid) (p : EventPayload)
    : sq Event :=
  db <-- StateR.get ;;
  head <-- StateR.lift (sqlite_logical_head_sequence db session_id) ;;
  let event := Event_new id now session_id (head + 1) p in
  transaction (
    insert_event event ;;;
    changed <-- touch_session session_id now ;;
    if changed =? 0 then StateR.fail (MissingSession session_id) else StateR.ret tt) ;;;
  notify session_id (head + 1) ;;;
  StateR.ret event.

(** [LIMIT n OFFSET k]. *)
Fixpoint limit_rows (n : N) (rows : list EventRow) : list EventRow :=
  match rows with
  | [] => []
  | r :: rows' => if (n =? 0)%N then [] else r :: limit_rows (n - 1) rows'
  end.

Definition page (limit offset : N) (rows : list EventRow) : list EventRow :=
  limit_rows limit (drop (N.to_nat offset) rows).

(** The loop of [list_after] over the segments. *)
Fixpoint sqlite_list_loop (db : SqliteEventStore) (after : N) (limit : Limit) (out : list Event)
    (logical_end : N) (segs : list (bool * (Uuid * option N))) : result StoreError (list Event) :=
  match segs with
  | [] => Ok out
  | seg :: segs' =>
      rows ← segment_rows db seg;
      let count := N.of_nat (length rows) in
      let segment_start := logical_end in
      if (segment_start + count <=? after)%N
      then sqlite_list_loop db after limit out (logical_end + count)%N segs'
      else
        let skip := saturating_sub after segment_start in
        let take_n := limit_room limit (N.of_nat (length out)) (count - skip) in
        events ← decode_rows (page (clamp_i64 take_n) (clamp_i64 skip) rows);
        let out' := push_renumbered after out events in
        if limit_reached limit (N.of_nat (length out')) then Ok out'
        else sqlite_list_loop db after limit out' (after + N.of_nat (length out'))%N segs'
  end.

Definition sqlite_list_after (session_id : Uuid) (after_sequence : N) (limit : Limit)
    (db : SqliteEventStore) : result StoreError (list Event) :=
  if bool_decide (limit = Some 0%N) then Ok []
  else
    ancestry ← sqlite_ancestry db session_id;
    if length ancestry =? 1 then
      after ← to_sql after_sequence;
      decode_rows (page (limit_i64 limit) 0
        (List.filter (λ r, after <? row_sequence r)%N (select_rows db session_id None)))
    else sqlite_list_loop db after_sequence limit [] 0 (tag_current ancestry).

Definition sqlite_list (session_id : Uuid) (db : SqliteEventStore)
    : result StoreError (list Event) :=
  sqlite_list_after session_id 0 None db.

Definition sqlite_list_sessions (db : SqliteEventStore) : list SessionInfo :=
  (λ s, mkSessionInfo (sess_id s) (sess_created s) (sess_updated s) (sess_parent s) (sess_fork s))
  <$> order_by (λ s s', (sess_updated s' <? sess_updated s)%N
         || ((sess_updated s =? sess_updated s')%N && (sess_id s <=? sess_id s')%N))
        (db_sessions db).

Definition sqlite_fork_session (new_session_id : Uuid) (now : N) (source_session_id : Uuid)
    (up_to_sequence : N) : sq Uuid :=
  db <-- StateR.get ;;
  StateR.lift (validate_fork_sequence sqlite_list source_session_id up_to_sequence db) ;;;
  transaction (
    _ <-- StateR.lift (to_sql now) ;;
    _ <-- StateR.lift (to_sql up_to_sequence) ;;
    insert_session (new_session_row new_session_id now now (Some source_session_id)
      (Some up_to_sequence))) ;;;
  StateR.ret new_session_id.

(** The primary key and [UNIQUE(session_id, name)] of [checkpoints]. *)
Definition checkpoint_clash (c c' : CheckpointInfo) : bool :=
  (checkpoint_id c =? checkpoint_id c')%N
  || ((checkpoint_session_id c =? checkpoint_session_id c')%N
      && String.eqb (checkpoint_name c) (checkpoint_name c')).

Definition sqlite_create_checkpoint (id : Uuid) (now : N) (session_id : Uuid) (name : string)
    (sequence : N) : sq CheckpointInfo :=
  let name := trim name in
  if is_empty name then StateR.fail EmptyCheckpointName
  else
    db <-- StateR.get ;;
    StateR.lift (validate_fork_sequence sqlite_list session_id sequence db) ;;;
    let c := mkCheckpointInfo id session_id name sequence now in
    transaction (
      _ <-- StateR.lift (to_sql sequence) ;;
      _ <-- StateR.lift (to_sql now) ;;
      if existsb (checkpoint_clash c) (db_checkpoints db)
      then StateR.fail (DuplicateCheckpointName session_id name)
      else StateR.put (set_checkpoints db (db_checkpoints db ++ [c]))) ;;;
    StateR.ret c.

Definition sqlite_list_checkpoints (session_id : Uuid) (db : SqliteEventStore)
    : list CheckpointInfo :=
  order_by (λ c c', (checkpoint_created_at_unix_ms c <? checkpoint_created_at_unix_ms c')%N
      || ((checkpoint_created_at_unix_ms c =? checkpoint_created_at_unix_ms c')%N
          && match String.compare (checkpoint_name c) (checkpoint_name c') with
             | Gt => false | _ => true end))
    (List.filter (λ c, (checkpoint_session_id c =? session_id)%N) (db_checkpoints db)).

Definition sqlite_get_checkpoint (id : Uuid) (db : SqliteEventStore)
    : result StoreError CheckpointInfo :=
  ok_or (List.find (λ c, (checkpoint_id c =? id)%N) (db_checkpoints db)) (MissingCheckpoint id).

Definition sqlite_delete_session (session_id : Uuid) : sq () := λ db,
  (mkSqlite
     (List.filter (λ r, negb (row_session_id r =? session_id)%N) (db_events db))
     (List.filter (λ s, negb (sess_id s =? session_id)%N) (db_sessions db))
     (List.filter (λ c, negb (checkpoint_session_id c =? session_id)%N) (db_checkpoints db))
     (db_notified db), Ok tt).

(** [x as i64] and [x as uN]: the same bits. *)
Definition as_i64 (n : N) : Z :=
  (let z := Z.of_N n mod 18446744073709551616 in
   if z <? 9223372036854775808 then z else z - 18446744073709551616)%Z.
Definition as_uint (max : N) (z : Z) : N := Z.to_N (z mod (Z.of_N max + 1)).

(** The wall clock in milliseconds and the monotonic clock are arguments. *)
Definition sqlite_get_budget_state (now_ms : N) (instant : Instant) (session_id : Uuid)
    (db : SqliteEventStore) : result StoreError BudgetState :=
  match find_session (db_sessions db) session_id with
  | Some row =>
      let elapsed := (as_i64 now_ms - Z.of_N (sess_created row))%Z in
      let started := (instant - Z.max elapsed 0 * 1000000)%Z in
      Ok (mkBudgetState (as_uint u32_max (col_turns_used (sess_budget row)))
            (as_uint u64_max (col_tokens_used (sess_budget row))) 0 0 started
            (as_uint u32_max (col_compaction_count (sess_budget row))))
  | None => Ok (BudgetState_new instant)
  end.

(** [UPDATE sessions SET .. WHERE id = ?]: no row, no change, no error. *)
Definition sqlite_update_budget_state (now_ms : N) (session_id : Uuid) (state : BudgetState)
    : sq () := λ db,
  (set_sessions db ((λ s, if (sess_id s =? session_id)%N
     then mkSessionRow (sess_id s) (sess_created s) (Z.to_N (as_i64 now_ms))
            (sess_parent s) (sess_fork s)
            (mkBudgetColumns (as_i64 (turns_used state)) (as_i64 (tokens_used state))
               (as_i64 (compaction_count state)))
     else s) <$> db_sessions db), Ok tt).

(** The backfill of [open]: a session row for every session that has events but
    no row, from its first and last times. *)
Definition backfill_session (events : list EventRow) (sessions : list SessionRow) (r : EventRow)
    : list SessionRow :=
  if existsb (λ s, (sess_id s =? row_session_id r)%N) sessions then sessions
  else
    let times := row_at_unix_ms <$>
      List.filter (λ r', (row_session_id r' =? row_session_id r)%N) events in
    sessions ++ [new_session_row (row_session_id r)
      (foldr N.min (row_at_unix_ms r) times) (foldr N.max (row_at_unix_ms r) times) None None].

Definition sqlite_open (events : list EventRow) (sessions : list SessionRow)
    (checkpoints : list CheckpointInfo) : SqliteEventStore :=
  mkSqlite events (foldl (backfill_session events) sessions events) checkpoints [].

End sqlite.

#[export] Instance sqlite_event_store `{StoreJson} : EventStore SqliteEventStore := {|
  store_append_next := sqlite_append_next;
  store_list := sqlite_list;
|}.

(** ** The database as an in-memory store *)

Lemma order_by_sorted {A} (before : A → A → bool) l :
  StronglySorted (λ x y, before x y = true) l → order_by before l = l.
Proof.
  assert (∀ x acc, Forall (λ y, before y x = true) acc → insert_ordered before x acc = acc ++ [x])
    as Hins.
  { intros x acc. induction 1 as [|y acc Hy _ IH]; cbn; [done|]. by rewrite Hy, IH. }
  intros Hl. unfold order_by. change l with ([] ++ l) at 2.
  assert (StronglySorted (λ x y, before x y = true) ([] ++ l)) as Hs by done. clear Hl.
  revert Hs. generalize (@nil A). induction l as [|x l IH]; intros acc Hs; cbn.
  { by rewrite app_nil_r. }
  rewrite Hins.
  - rewrite IH by (by rewrite <-app_assoc). by rewrite <-app_assoc.
  - apply StronglySorted_app in Hs as (Hacc & _ & _). apply Forall_forall. intros y Hy.
    apply Hacc; [done|by left].
Qed.

Lemma StronglySorted_List_filter {A} (R : relation A) (f : A → bool) l :
  StronglySorted R l → StronglySorted R (List.filter f l).
Proof.
  induction 1 as [|x l _ IH Hx]; cbn; [constructor|]. destruct (f x); [|done]. constructor; [done|].
  apply Forall_forall. intros y Hy. rewrite list_elem_of_In, List.filter_In, <-list_elem_of_In in Hy.
  by eapply Forall_forall in Hx; [|apply Hy].
Qed.

Section view.
Context `{StoreJsonLaws}.

Definition ok_option {E A} (r : result E A) : option A :=
  match r with Ok a => Some a | Err _ => None end.

Definition view_events (rows : list EventRow) : list Event := omap (λ r, ok_option (decode_event r)) rows.

Definition view_meta (s : SessionRow) : MemorySessionMetadata :=
  mkMeta (sess_id s) (sess_parent s) (sess_fork s).

Definition view (db : SqliteEventStore) : MemoryEventStore :=
  mkMemoryEventStore (view_events (db_events db)) (view_meta <$> db_sessions db)
    (db_checkpoints db) (db_notified db).

Definition decodes (r : EventRow) : Prop := ∃ e, decode_event r = Ok e.

(** Rows can be decoded, sequence numbers fit their column, parent and fork
    point are set together, and the events and links are well formed. *)
Record sqlite_wf (db : SqliteEventStore) : Prop := {
  sw_decodes : Forall decodes (db_events db);
  sw_fits : Forall (λ r, row_sequence r ≤ i64_max)%N (db_events db);
  sw_links : Forall (λ s, is_Some (sess_parent s) → is_Some (sess_fork s)) (db_sessions db);
  sw_store : store_wf (view db);
}.

Lemma decode_event_fields r e :
  decode_event r = Ok e →
  event_id e = row_id r ∧ event_session_id e = row_session_id r ∧
  event_sequence e = row_sequence r ∧ event_at_unix_ms e = row_at_unix_ms r.
Proof.
  unfold decode_event. intros Hd.
  destruct (row_schema_version r), (row_payload_json r);
    [destruct (negb _); [done|]|..];
    repeat match goal with
    | H : _ ≫= _ = Ok _ |- _ => apply result_bind_ok in H as (? & ? & H)
    end; by simplify_eq.
Qed.

Lemma decode_rows_view rows : Forall decodes rows → decode_rows rows = Ok (view_events rows).
Proof.
  induction 1 as [|r rows [e He] _ IH]; cbn; [done|]. unfold view_events in *. cbn.
  by rewrite He, IH.
Qed.

Lemma view_events_cons r rows e :
  decode_event r = Ok e → view_events (r :: rows) = e :: view_events rows.
Proof. intros He. unfold view_events. cbn. by rewrite He. Qed.

Lemma view_events_filter (P : EventRow → bool) (Q : Event → bool) rows :
  Forall decodes rows → (∀ r e, decode_event r = Ok e → P r = Q e) →
  view_events (List.filter P rows) = List.filter Q (view_events rows).
Proof.
  intros Hd HPQ. induction Hd as [|r rows [e He] _ IH]; [done|]. rewrite (view_events_cons _ _ _ He).
  cbn. rewrite <-(HPQ _ _ He). destruct (P r); [|done]. by rewrite (view_events_cons _ _ _ He), IH.
Qed.

Lemma view_events_app l1 l2 : view_events (l1 ++ l2) = view_events l1 ++ view_events l2.
Proof. apply omap_app. Qed.

Lemma length_view_events rows : Forall decodes rows → length (view_events rows) = length rows.
Proof.
  induction 1 as [|r rows [e He] _ IH]; [done|]. rewrite (view_events_cons _ _ _ He). cbn. lia.
Qed.

Lemma limit_rows_take n rows : limit_rows n rows = take (N.to_nat n) rows.
Proof.
  revert n. induction rows as [|r rows IH]; intros n; cbn; [by rewrite take_nil|].
  destruct (N.eqb_spec n 0) as [->|]; [done|].
  replace (N.to_nat n) with (S (N.to_nat (n - 1))) by lia. cbn. by rewrite IH.
Qed.

Lemma page_take limit offset rows :
  page limit offset rows = take (N.to_nat limit) (drop (N.to_nat offset) rows).
Proof. apply limit_rows_take. Qed.

Lemma view_events_page limit offset rows :
  Forall decodes rows →
  view_events (page limit offset rows)
  = take (N.to_nat limit) (drop (N.to_nat offset) (view_events rows)).
Proof.
  rewrite page_take. intros Hd. generalize (N.to_nat limit), (N.to_nat offset). intros n k.
  revert n k. induction Hd as [|r rows [e He] Hd IH]; intros n k.
  { rewrite drop_nil, take_nil. change (view_events []) with (@nil Event).
    by rewrite drop_nil, take_nil. }
  rewrite (view_events_cons _ _ _ He). destruct k as [|k]; cbn [drop]; [|apply IH].
  destruct n as [|n]; cbn [take]; [done|]. rewrite (view_events_cons _ _ _ He). f_equal.
  apply (IH n 0).
Qed.

Lemma decode_event_row e :
  event_schema_version e = EVENT_SCHEMA_VERSION → decode_event (event_row e) = Ok e.
Proof.
  intros Hv. unfold decode_event, event_row. cbn -[N.eqb]. rewrite Hv, N.eqb_refl. cbn [negb].
  rewrite payload_json_roundtrip. cbn. rewrite <-Hv. by destruct e.
Qed.

(** *** Rows of a session, in order *)

Definition session_rows (db : SqliteEventStore) (sid : Uuid) : list EventRow :=
  List.filter (λ r, row_session_id r =? sid)%N (db_events db).

Lemma session_rows_decode db sid : sqlite_wf db → Forall decodes (session_rows db sid).
Proof.
  intros Hwf. apply Forall_forall. intros r Hr. unfold session_rows in Hr.
  rewrite list_elem_of_In, List.filter_In, <-list_elem_of_In in Hr.
  eapply Forall_forall; [apply (sw_decodes _ Hwf)|apply Hr].
Qed.

Lemma view_session_rows db sid :
  sqlite_wf db → view_events (session_rows db sid) = owned (view db) sid.
Proof.
  intros Hwf. apply view_events_filter; [apply Hwf|]. intros r e He.
  apply decode_event_fields in He as (_ & <- & _). unfold in_segment. by destruct (_ =? _)%N.
Qed.

Lemma numbered_from_sorted rows a :
  Forall decodes rows → numbered_from a (view_events rows) →
  StronglySorted (λ r r', by_sequence r r' = true) rows ∧
  Forall (λ r, a < row_sequence r ≤ a + N.of_nat (length rows))%N rows.
Proof.
  intros Hd. revert a. induction Hd as [|r rows [e He] Hd IH]; intros a Hn; [by repeat constructor|].
  rewrite (view_events_cons _ _ _ He) in Hn. destruct Hn as [Hs Hn].
  destruct (IH _ Hn) as [Hsort Hb]. apply decode_event_fields in He as (_ & _ & Eseq & _).
  rewrite Eseq in Hs. split.
  - constructor; [done|]. eapply Forall_impl; [exact Hb|]. cbn. intros r' Hr'.
    unfold by_sequence. apply N.leb_le. lia.
  - constructor; cbn; [lia|]. eapply Forall_impl; [exact Hb|]. cbn. lia.
Qed.

Lemma session_rows_sorted db sid :
  sqlite_wf db → StronglySorted (λ r r', by_sequence r r' = true) (session_rows db sid).
Proof.
  intros Hwf. eapply numbered_from_sorted; [by apply session_rows_decode|].
  rewrite view_session_rows by done. apply wf_numbered, Hwf.
Qed.

Lemma select_rows_all db sid : sqlite_wf db → select_rows db sid None = session_rows db sid.
Proof.
  intros Hwf. unfold select_rows. cbn [from_option].
  rewrite (List.filter_ext _ (λ r, row_session_id r =? sid)%N) by (intros; apply andb_true_r).
  by apply order_by_sorted, session_rows_sorted.
Qed.

Lemma filter_filter_and {A} (f g : A → bool) l :
  List.filter (λ x, f x && g x) l = List.filter g (List.filter f l).
Proof.
  induction l as [|x l IH]; cbn; [done|]. destruct (f x); cbn; [|done].
  destruct (g x); by rewrite IH.
Qed.

Lemma select_rows_up_to db sid u :
  sqlite_wf db →
  select_rows db sid (Some u) = List.filter (λ r, row_sequence r <=? u)%N (session_rows db sid).
Proof.
  intros Hwf. unfold select_rows. cbn [from_option]. rewrite filter_filter_and.
  by apply order_by_sorted, StronglySorted_List_filter, session_rows_sorted.
Qed.

(** The number of rows of a session fits the column of its last number. *)
Lemma session_rows_length db sid :
  sqlite_wf db → (N.of_nat (length (session_rows db sid)) ≤ i64_max)%N.
Proof.
  intros Hwf. pose proof (wf_numbered _ (sw_store _ Hwf) sid) as Hn.
  rewrite <-view_session_rows in Hn by done.
  destruct (decide (session_rows db sid = [])) as [->|Hne]; [done|].
  destruct (exists_last Hne) as (rows & r & E). rewrite E in Hn |- *.
  rewrite view_events_app in Hn. apply numbered_from_app in Hn as [_ Hn].
  assert (Forall decodes (session_rows db sid)) as Hd by (by apply session_rows_decode).
  rewrite E in Hd. apply Forall_app in Hd as [Hd1 Hd2].
  rewrite length_view_events in Hn by done. apply Forall_inv in Hd2 as [e He].
  rewrite (view_events_cons _ _ _ He) in Hn. destruct Hn as [Hs _].
  apply decode_event_fields in He as (_ & _ & Eseq & _). rewrite Eseq in Hs.
  assert (row_sequence r ≤ i64_max)%N as Hfit.
  { assert (r ∈ session_rows db sid) as Hr by (rewrite E; set_solver).
    unfold session_rows in Hr. rewrite list_elem_of_In, List.filter_In, <-list_elem_of_In in Hr.
    pose proof (sw_fits _ Hwf) as Hf. rewrite Forall_forall in Hf. apply Hf, Hr. }
  rewrite length_app. cbn. lia.
Qed.

(** A segment of the ancestry, as the rows read and as events. *)
Lemma segment_rows_view db cur sid u :
  sqlite_wf db → (cur = false → is_Some u) →
  ∃ rows, segment_rows db (cur, (sid, u)) = Ok rows ∧ Forall decodes rows ∧
    view_events rows = segment_events (ms_events (view db)) sid u cur ∧
    (N.of_nat (length rows) ≤ i64_max)%N.
Proof.
  intros Hwf Hu. pose proof (session_rows_length db sid Hwf) as Hlen.
  pose proof (session_rows_decode db sid Hwf) as Hd. destruct cur.
  - cbn. exists (session_rows db sid). rewrite select_rows_all by done. split_and!; [done..| |done].
    rewrite view_session_rows by done. done.
  - destruct (Hu eq_refl) as [n ->]. cbn. rewrite select_rows_up_to by done.
    eexists. split_and!; [done|..].
    + apply Forall_forall. intros r Hr. rewrite list_elem_of_In, List.filter_In, <-list_elem_of_In in Hr.
      rewrite Forall_forall in Hd. apply Hd, Hr.
    + rewrite (view_events_filter _ (λ e, event_sequence e <=? n)%N); [|done|].
      2: { intros r e He. apply decode_event_fields in He as (_ & _ & E & _). by rewrite E. }
      rewrite view_session_rows by done. unfold owned, segment_events.
      rewrite <-filter_filter_and. apply List.filter_ext. intros e. unfold in_segment.
      by destruct (_ =? _)%N.
    + pose proof (List.filter_length_le (λ r, row_sequence r <=? n)%N (session_rows db sid)). lia.
Qed.

(** *** Reading agrees *)

Lemma find_view rows id :
  find_meta (view_meta <$> rows) id = view_meta <$> find_session rows id.
Proof.
  unfold find_meta, find_session. induction rows as [|s rows IH]; cbn; [done|].
  by destruct (sess_id s =? id)%N.
Qed.

Lemma ancestry_loop_view rows fuel cur f :
  Forall (λ s, is_Some (sess_parent s) → is_Some (sess_fork s)) rows →
  sqlite_ancestry_loop fuel rows cur f = ancestry_loop fuel (view_meta <$> rows) cur f.
Proof.
  intros Hl. revert cur f. induction fuel as [|fuel IH]; intros cur f; cbn; [done|].
  rewrite find_view. destruct (find_session rows cur) as [[i c u p k]|] eqn:Hf; cbn; [|done].
  destruct p as [p|]; [|done].
  apply find_some_elem in Hf as [Hin _]. rewrite Forall_forall in Hl.
  destruct (Hl _ Hin) as [n Hn]; [by eexists|]. cbn in Hn. subst k. by rewrite IH.
Qed.

Lemma sqlite_ancestry_view db sid :
  sqlite_wf db →
  sqlite_ancestry db sid = ok_or (memory_ancestry (ms_sessions (view db)) sid) ParentCycle.
Proof.
  intros Hwf. unfold sqlite_ancestry, memory_ancestry, view. cbn [ms_sessions].
  rewrite length_fmap, ancestry_loop_view by apply Hwf. done.
Qed.

(** Every entry of the walk but the first has a fork point. *)
Lemma sqlite_ancestry_loop_forks rows fuel cur f a :
  sqlite_ancestry_loop fuel rows cur f = Some a →
  ∃ a', a = (cur, f) :: a' ∧ Forall (λ x : Uuid * option N, is_Some x.2) a'.
Proof.
  revert cur f a. induction fuel as [|fuel IH]; intros cur f a Ha; [done|]. cbn in Ha.
  destruct (find_session rows cur) as [[i c u [p|] [k|]]|];
    try (injection Ha as <-; by exists []).
  apply fmap_Some in Ha as (a1 & Ha1 & ->). apply IH in Ha1 as (a2 & -> & Hf).
  eexists. split; [done|]. constructor; [by eexists|done].
Qed.

Definition segment_ok (seg : bool * (Uuid * option N)) : Prop := seg.1 = false → is_Some seg.2.2.

Lemma ancestry_segments_ok db sid a :
  sqlite_ancestry db sid = Ok a → Forall segment_ok (tag_current a).
Proof.
  unfold sqlite_ancestry. destruct (sqlite_ancestry_loop _ _ _ _) as [l|] eqn:Hl; [|done].
  intros [= <-]. apply sqlite_ancestry_loop_forks in Hl as (l' & -> & Hf).
  rewrite reverse_cons, tag_current_snoc. apply Forall_app. split.
  - apply Forall_fmap, Forall_reverse. eapply Forall_impl; [exact Hf|]. by intros x Hx _.
  - by repeat constructor.
Qed.

Definition segment_view (db : SqliteEventStore) (seg : bool * (Uuid * option N)) : list Event :=
  segment_events (ms_events (view db)) seg.2.1 seg.2.2 seg.1.

Lemma segments_view db a :
  segments (view db) a = segment_view db <$> tag_current a.
Proof. unfold segments. apply list_fmap_ext. by intros i [cur [sid u]] _. Qed.

Lemma total_count_view db segs : ∀ total,
  sqlite_wf db → Forall segment_ok segs →
  total_count db total segs =
  Ok (foldl (λ total seg, (total + N.of_nat (length seg))%N) total (segment_view db <$> segs)).
Proof.
  induction segs as [|[cur [sid u]] segs IH]; intros total Hwf Hs; [done|].
  apply Forall_cons in Hs as [Hseg Hs].
  destruct (segment_rows_view db cur sid u Hwf Hseg) as (rows & E & Hd & Hv & _).
  cbn [total_count]. rewrite E. cbn [mbind result_bind]. rewrite IH by done.
  rewrite fmap_cons. cbn [foldl]. do 3 f_equal. unfold segment_view. cbn [fst snd].
  by rewrite <-Hv, length_view_events.
Qed.

Lemma logical_head_view db sid :
  sqlite_wf db → sqlite_logical_head_sequence db sid = logical_head_sequence (view db) sid.
Proof.
  intros Hwf. unfold sqlite_logical_head_sequence, logical_head_sequence.
  pose proof (ancestry_segments_ok db sid) as Hs. rewrite sqlite_ancestry_view in * by done.
  destruct (memory_ancestry _ _) as [a|]; cbn; [|done].
  rewrite total_count_view by eauto. by rewrite segments_view.
Qed.

Lemma limit_room_le limit len n : (limit_room limit len n ≤ n)%N.
Proof. destruct limit; cbn; lia. Qed.

Lemma list_loop_view db after limit segs : ∀ out lend,
  sqlite_wf db → Forall segment_ok segs →
  sqlite_list_loop db after limit out lend segs =
  Ok (list_after_loop after limit out lend (segment_view db <$> segs)).
Proof.
  induction segs as [|[cur [sid u]] segs IH]; intros out lend Hwf Hs; [done|].
  apply Forall_cons in Hs as [Hseg Hs].
  destruct (segment_rows_view db cur sid u Hwf Hseg) as (rows & E & Hd & Hv & Hlen).
  cbn [sqlite_list_loop]. rewrite E. cbn [mbind result_bind fmap list_fmap list_after_loop].
  assert (length (segment_view db (cur, (sid, u))) = length rows) as El.
  { unfold segment_view. cbn [fst snd]. by rewrite <-Hv, length_view_events. }
  rewrite El. case_match eqn:Hskip; [by apply IH|]. apply N.leb_gt in Hskip.
  set (skip := saturating_sub after lend).
  assert (skip ≤ N.of_nat (length rows))%N as Hsk by (unfold skip, saturating_sub; lia).
  set (k := limit_room limit _ _).
  assert (k ≤ N.of_nat (length rows))%N as Hk.
  { unfold k. etransitivity; [apply limit_room_le|]. lia. }
  assert (clamp_i64 k = k ∧ clamp_i64 skip = skip) as [-> ->] by (unfold clamp_i64; lia).
  rewrite decode_rows_view.
  2: { rewrite page_take. apply Forall_take, Forall_drop, Hd. }
  cbn [mbind result_bind]. rewrite view_events_page by done.
  change (segment_view db (cur, (sid, u))) with (segment_events (ms_events (view db)) sid u cur).
  rewrite <-Hv. case_match; [done|]. by apply IH.
Qed.

(** Renumbering a listing that is numbered already. *)
Lemma renumber_numbered a l : numbered_from a l → renumber a l = l.
Proof.
  revert a. induction l as [|e l IH]; intros a; cbn; [done|]. intros [He Hl].
  rewrite IH by done. f_equal. unfold with_sequence. rewrite <-He. by destruct e.
Qed.

Lemma numbered_from_drop a l n : numbered_from a l → n ≤ length l →
  numbered_from (a + N.of_nat n) (drop n l).
Proof.
  intros Hl Hn. rewrite <-(take_drop n l) in Hl. apply numbered_from_app in Hl as [_ Hl].
  by rewrite length_take, Nat.min_l in Hl.
Qed.

Lemma numbered_from_take a l n : numbered_from a l → numbered_from a (take n l).
Proof.
  intros Hl. rewrite <-(take_drop n l) in Hl. by apply numbered_from_app in Hl as [Hl _].
Qed.

(** [WHERE sequence > after] on rows numbered from 1. *)
Lemma filter_after rows a after :
  Forall decodes rows → numbered_from a (view_events rows) →
  List.filter (λ r, after <? row_sequence r)%N rows = drop (N.to_nat (after - a)) rows.
Proof.
  intros Hd. revert a. induction Hd as [|r rows [e He] Hd IH]; intros a Hn; cbn.
  { by rewrite drop_nil. }
  rewrite (view_events_cons _ _ _ He) in Hn. destruct Hn as [Hs Hn].
  apply decode_event_fields in He as (_ & _ & Eseq & _). rewrite Eseq in Hs.
  rewrite (IH _ Hn). destruct (N.ltb_spec after (row_sequence r)).
  - replace (N.to_nat (after - a)) with 0 by lia.
    replace (N.to_nat (after - (a + 1))) with 0 by lia. by rewrite !drop_0.
  - replace (N.to_nat (after - a)) with (S (N.to_nat (after - (a + 1)))) by lia. done.
Qed.

(** A session without parent: the walk stops at once. *)
Lemma ancestry_single db sid a :
  sqlite_wf db → sqlite_ancestry db sid = Ok a → length a = 1 →
  a = [(sid, None)] ∧ fork_base (view db) sid = 0%N.
Proof.
  intros Hwf Ha Hlen. rewrite sqlite_ancestry_view in Ha by done. unfold memory_ancestry in Ha.
  destruct (ancestry_loop _ _ _ _) as [l|] eqn:Hl; [|done]. cbn in Ha. injection Ha as <-.
  rewrite length_reverse in Hlen. rewrite ancestry_loop_unfold in Hl.
  destruct (parent_of (view db) sid) as [[p u]|] eqn:Hp.
  - apply fmap_Some in Hl as (l' & Hl & ->). destruct l'; [|done]. exfalso. destruct (length (ms_sessions (view db))) as [|n]; [done|].
    rewrite ancestry_loop_unfold in Hl.
    destruct (parent_of (view db) p) as [[]|]; [by apply fmap_Some in Hl as (? & _ & ?)|done].
  - injection Hl as <-. split; [done|]. unfold fork_base. by rewrite shared_root.
Qed.

Lemma list_after_view db sid after limit :
  sqlite_wf db → (after ≤ i64_max)%N →
  sqlite_list_after sid after limit db = memory_list_after sid after limit (view db).
Proof.
  intros Hwf Hafter. destruct (wf_history (view db) sid) as [h Hh]; [apply Hwf|].
  unfold sqlite_list_after, memory_list_after. case_bool_decide as Hlim; [done|].
  pose proof (ancestry_segments_ok db sid) as Hs. pose proof (ancestry_single db sid) as Hone.
  pose proof (memory_list_after_history _ _ after limit _ Hh) as Hm.
  unfold memory_list_after in Hm. rewrite bool_decide_eq_false_2 in Hm by done.
  rewrite sqlite_ancestry_view in * by done. unfold history in Hh.
  destruct (memory_ancestry (ms_sessions (view db)) sid) as [a|]; [|done].
  cbn [fmap option_fmap option_map ok_or mbind result_bind] in *.
  destruct (Nat.eqb_spec (length a) 1) as [Hl|Hl].
  2: { rewrite list_loop_view by eauto. by rewrite segments_view. }
  destruct (Hone a Hwf eq_refl Hl) as [-> Hbase].
  unfold to_sql. rewrite (proj2 (N.leb_le _ _)) by done. cbn [mbind result_bind].
  rewrite Hm. assert (h = concat (segments (view db) [(sid, None)])) as -> by congruence.
  rewrite select_rows_all by done. pose proof (session_rows_decode db sid Hwf) as Hd.
  pose proof (wf_numbered _ (sw_store _ Hwf) sid) as Hn. rewrite Hbase in Hn.
  assert (concat (segments (view db) [(sid, None)]) = owned (view db) sid) as ->.
  { unfold segments. cbn. by rewrite app_nil_r. }
  rewrite <-view_session_rows in * by done.
  rewrite (filter_after _ 0) by done. rewrite N.sub_0_r.
  rewrite decode_rows_view by (rewrite page_take; by apply Forall_take, Forall_drop, Forall_drop).
  rewrite view_events_page by (by apply Forall_drop). rewrite drop_0.
  assert (view_events (drop (N.to_nat after) (session_rows db sid))
    = drop (N.to_nat after) (view_events (session_rows db sid))) as ->.
  { pose proof (view_events_page (N.of_nat (length (session_rows db sid))) after _ Hd) as E.
    rewrite page_take, Nat2N.id in E. rewrite !take_ge in E; [done|..];
      rewrite length_drop, ?length_view_events by done; lia. }
  set (l := drop (N.to_nat after) (view_events (session_rows db sid))).
  assert (take (N.to_nat (limit_i64 limit)) l = take_limit limit l) as ->.
  { pose proof (session_rows_length db sid Hwf) as Hlen.
    assert (length l ≤ length (session_rows db sid)) as Hll.
    { unfold l. rewrite length_drop, length_view_events by done. lia. }
    destruct limit as [n|]; cbn; [|by rewrite take_ge by lia]. unfold clamp_i64.
    destruct (N.le_ge_cases n i64_max); [by rewrite N.min_l|].
    rewrite N.min_r by done. by rewrite !take_ge by lia. }
  f_equal. symmetry. destruct (Nat.le_gt_cases (length (session_rows db sid)) (N.to_nat after)).
  { assert (l = []) as -> by (apply drop_ge; rewrite length_view_events by done; lia).
    by destruct limit; cbn; rewrite ?take_nil. }
  assert (numbered_from after l) as Hnl.
  { pose proof (numbered_from_drop _ _ (N.to_nat after) Hn) as Hd'.
    rewrite N.add_0_l, N2Nat.id in Hd'. apply Hd'. rewrite length_view_events by done. lia. }
  apply renumber_numbered. destruct limit; [by apply numbered_from_take|done].
Qed.

(** *** Writing agrees *)

Definition session_present (db : SqliteEventStore) (sid : Uuid) : Prop :=
  sid ∈ (sess_id <$> db_sessions db).
Definition event_id_free (db : SqliteEventStore) (id : Uuid) : Prop :=
  id ∉ (row_id <$> db_events db).

#[export] Instance session_present_dec db sid : Decision (session_present db sid).
Proof. unfold session_present. apply _. Defined.
#[export] Instance event_id_free_dec db id : Decision (event_id_free db id).
Proof. unfold event_id_free. apply _. Defined.

Lemma to_sql_ok n : (n ≤ i64_max)%N → to_sql n = Ok n.
Proof. intros Hn. unfold to_sql. by rewrite (proj2 (N.leb_le _ _)). Qed.

Lemma to_sql_err n : ¬ (n ≤ i64_max)%N → ∃ x, to_sql n = Err x.
Proof. intros Hn. unfold to_sql. rewrite (proj2 (N.leb_gt _ _)) by lia. by eexists. Qed.

Definition can_insert (db : SqliteEventStore) (e : Event) : Prop :=
  (event_sequence e ≤ i64_max)%N ∧ (event_at_unix_ms e ≤ i64_max)%N ∧
  existsb (event_clash (event_row e)) (db_events db) = false.

#[local] Instance can_insert_dec db e : Decision (can_insert db e).
Proof. unfold can_insert. apply _. Defined.

Lemma insert_event_ok db e :
  can_insert db e → insert_event e db = (set_events db (db_events db ++ [event_row e]), Ok tt).
Proof.
  intros (Hs & Ha & Hc). unfold insert_event, StateR.bind, StateR.lift, StateR.get.
  rewrite !to_sql_ok by done. by rewrite Hc.
Qed.

Lemma insert_event_err db e : ¬ can_insert db e → ∃ x, insert_event e db = (db, Err x).
Proof.
  intros Hn. unfold insert_event, StateR.bind, StateR.lift, StateR.get.
  destruct (decide (event_sequence e ≤ i64_max)%N) as [Hs|Hs].
  2: { destruct (to_sql_err _ Hs) as [x ->]. by eexists. }
  rewrite to_sql_ok by done. destruct (decide (event_at_unix_ms e ≤ i64_max)%N) as [Ha|Ha].
  2: { destruct (to_sql_err _ Ha) as [x ->]. by eexists. }
  rewrite to_sql_ok by done. destruct (existsb _ _) eqn:Hc; [by eexists|].
  by destruct Hn.
Qed.

(** Numbers up to the head are the only ones a session's rows carry. *)
Lemma next_sequence_free db sid h id now p :
  sqlite_wf db → history (view db) sid = Some h →
  existsb (event_clash (event_row (Event_new id now sid (N.of_nat (length h) + 1) p)))
    (db_events db) = negb (bool_decide (event_id_free db id)).
Proof.
  intros Hwf Hh. apply eq_true_iff_eq. rewrite existsb_bool, negb_true_iff, bool_decide_eq_false.
  unfold event_id_free. split.
  - intros (r & Hr & Hc) Hfree. unfold event_clash in Hc. cbn -[N.eqb] in Hc.
    apply orb_true_iff in Hc as [Hid%N.eqb_eq|[Hs%N.eqb_eq Hq%N.eqb_eq]%andb_true_iff].
    { apply Hfree. subst id. by apply list_elem_of_fmap_2. }
    pose proof (history_length _ _ _ (wf_acyclic _ (sw_store _ Hwf)) Hh) as Hlen.
    pose proof (wf_numbered _ (sw_store _ Hwf) sid) as Hn.
    rewrite <-view_session_rows in Hn, Hlen by done.
    pose proof (session_rows_decode db sid Hwf) as Hd.
    destruct (numbered_from_sorted _ _ Hd Hn) as [_ Hb]. rewrite Forall_forall in Hb.
    rewrite length_view_events in Hlen by done.
    assert (r ∈ session_rows db sid) as Hin.
    { unfold session_rows. rewrite list_elem_of_In, List.filter_In, <-list_elem_of_In.
      by rewrite Hs, N.eqb_refl. }
    specialize (Hb r Hin). lia.
  - intros Hid. destruct (decide (id ∈ row_id <$> db_events db)) as [Hin|]; [|done].
    apply list_elem_of_fmap in Hin as (r & -> & Hr). exists r. split; [done|].
    unfold event_clash. cbn -[N.eqb]. by rewrite N.eqb_refl.
Qed.

Lemma view_touch db sid at_ms :
  let db' := (touch_session sid at_ms db).1 in
  view db' = view db ∧ db_events db' = db_events db ∧
  (sqlite_wf db → sqlite_wf db').
Proof.
  cbn zeta. assert (view (touch_session sid at_ms db).1 = view db) as E.
  { unfold view, touch_session. cbn. f_equal. rewrite <-list_fmap_compose.
    apply list_fmap_ext. intros i s _. cbn. by destruct (_ =? _)%N. }
  split_and!; [done|done|]. intros [Hd Hf Hl Hw]. split; [done..| |by rewrite E].
  cbn. apply Forall_fmap. eapply Forall_impl; [exact Hl|]. intros s Hs. cbn.
  by destruct (_ =? _)%N.
Qed.

Lemma touch_session_count db sid at_ms :
  (touch_session sid at_ms db).2 = Ok (length (List.filter (λ s, sess_id s =? sid)%N (db_sessions db))).
Proof. done. Qed.

Lemma session_present_count db sid :
  length (List.filter (λ s, sess_id s =? sid)%N (db_sessions db)) =? 0
  = negb (bool_decide (session_present db sid)).
Proof.
  unfold session_present. apply eq_true_iff_eq.
  rewrite Nat.eqb_eq, length_zero_iff_nil, negb_true_iff, bool_decide_eq_false, list_elem_of_fmap.
  induction (db_sessions db) as [|s l IH]; cbn.
  { split; [intros _ (s & _ & Hs); set_solver|done]. }
  destruct (N.eqb_spec (sess_id s) sid) as [E|E].
  - split; [done|]. intros []. exists s. split; [done|by left].
  - rewrite IH. split; intros Hn (s' & E' & Hs'); apply Hn; exists s'; set_solver.
Qed.

(** The database after a successful [append_next]. *)
Definition appended (db : SqliteEventStore) (e : Event) : SqliteEventStore :=
  let db1 := set_events db (db_events db ++ [event_row e]) in
  let db2 := (touch_session (event_session_id e) (event_at_unix_ms e) db1).1 in
  mkSqlite (db_events db2) (db_sessions db2) (db_checkpoints db2)
    (db_notified db2 ++ [(event_session_id e, event_sequence e)]).

Lemma view_appended db e :
  event_schema_version e = EVENT_SCHEMA_VERSION →
  view (appended db e) = (memory_append e (view db)).1.
Proof.
  intros Hv. unfold appended. cbn zeta.
  destruct (view_touch (set_events db (db_events db ++ [event_row e])) (event_session_id e)
    (event_at_unix_ms e)) as (E & Ev & _).
  generalize dependent (touch_session (event_session_id e) (event_at_unix_ms e)
    (set_events db (db_events db ++ [event_row e]))).1.
  intros db2 E Ev. unfold view in *. cbn in *. injection E as _ Es Ec En.
  rewrite Ev, Es, Ec, En, view_events_app, (view_events_cons _ _ e); [done|].
  by apply decode_event_row.
Qed.

Lemma appended_wf db e h :
  sqlite_wf db → history (view db) (event_session_id e) = Some h →
  event_sequence e = (N.of_nat (length h) + 1)%N → event_schema_version e = EVENT_SCHEMA_VERSION →
  (event_sequence e ≤ i64_max)%N → sqlite_wf (appended db e).
Proof.
  intros Hwf Hh Hseq Hv Hfit. split.
  - cbn. apply Forall_app. split; [apply Hwf|]. constructor; [|done]. exists e.
    by apply decode_event_row.
  - cbn. apply Forall_app. split; [apply Hwf|]. by constructor.
  - cbn. apply Forall_fmap. eapply Forall_impl; [apply (sw_links _ Hwf)|]. intros s Hs. cbn.
    by destruct (_ =? _)%N.
  - rewrite view_appended by done. by apply (append_wf (view db) (event_session_id e) e h (sw_store _ Hwf)).
Qed.

Definition append_allowed (db : SqliteEventStore) (id : Uuid) (now : N) (sid : Uuid)
    (h : list Event) : Prop :=
  session_present db sid ∧ event_id_free db id ∧
  (N.of_nat (length h) + 1 ≤ i64_max)%N ∧ (now ≤ i64_max)%N.

Lemma sqlite_append_next_spec db id now sid p h :
  sqlite_wf db → history (view db) sid = Some h →
  let e := Event_new id now sid (N.of_nat (length h) + 1) p in
  (append_allowed db id now sid h ∧ sqlite_append_next id now sid p db = (appended db e, Ok e)) ∨
  (¬ append_allowed db id now sid h ∧ ∃ x, sqlite_append_next id now sid p db = (db, Err x)).
Proof.
  intros Hwf Hh e. unfold sqlite_append_next, StateR.bind, StateR.get, StateR.lift, transaction.
  rewrite logical_head_view, (logical_head_history _ _ _ Hh) by done. fold e.
  pose proof (next_sequence_free db sid h id now p Hwf Hh) as Hfree. fold e in Hfree.
  assert (can_insert db e ↔ event_id_free db id ∧ (N.of_nat (length h) + 1 ≤ i64_max)%N ∧
    (now ≤ i64_max)%N) as Hcan.
  { unfold can_insert. rewrite Hfree, negb_false_iff, bool_decide_eq_true. cbn. tauto. }
  destruct (decide (can_insert db e)) as [Hc|Hc].
  2: { right. split; [unfold append_allowed; tauto|].
    destruct (insert_event_err db e Hc) as [x ->]. by eexists. }
  rewrite insert_event_ok by done. apply Hcan in Hc. clear Hfree.
  set (db1 := set_events db _).
  assert (∀ n, touch_session sid n db1 = ((touch_session sid n db1).1, Ok (length
    (List.filter (λ s, sess_id s =? sid)%N (db_sessions db))))) as Ht by done.
  rewrite Ht, session_present_count. case_bool_decide as Hp; cbn [negb].
  - left. split; [unfold append_allowed; tauto|]. done.
  - right. split; [unfold append_allowed; tauto|]. by eexists.
Qed.

(** *** Commands *)

(** [now] is the clock a fork reads. *)
Definition run_sqlite (now : N) (c : StoreCmd) (db : SqliteEventStore) : SqliteEventStore :=
  match c with
  | CmdCreate id event_id t => (sqlite_create_session id event_id t db).1
  | CmdAppend event_id t sid p => (sqlite_append_next event_id t sid p db).1
  | CmdFork new src up_to => (sqlite_fork_session new now src up_to db).1
  | CmdDelete sid => (sqlite_delete_session sid db).1
  | CmdCheckpoint id t sid name sequence => (sqlite_create_checkpoint id t sid name sequence db).1
  end.

(** Ids are fresh, numbers and times fit their columns, appends go to existing
    sessions, and only sessions without forks are deleted. *)
Definition sqlite_cmd_ok (db : SqliteEventStore) (now : N) (c : StoreCmd) : Prop :=
  match c with
  | CmdCreate id event_id t =>
      fresh_session (view db) id ∧ event_id_free db event_id ∧ (t ≤ i64_max)%N
  | CmdAppend event_id t sid _ => ∃ h, history (view db) sid = Some h ∧ append_allowed db event_id t sid h
  | CmdFork new src up_to =>
      fresh_session (view db) new ∧ new ≠ src ∧ (up_to ≤ i64_max)%N ∧ (now ≤ i64_max)%N
  | CmdDelete sid => childless (view db) sid
  | CmdCheckpoint _ _ _ _ _ => True
  end.

Lemma fresh_not_present db id :
  fresh_session (view db) id → existsb (λ s, sess_id s =? id)%N (db_sessions db) = false.
Proof.
  intros (Hid & _ & _). apply existsb_false_iff. intros s Hs. apply N.eqb_neq. intros <-.
  apply Hid. cbn. rewrite <-list_fmap_compose. apply list_elem_of_fmap. by exists s.
Qed.

Lemma fresh_no_rows db id r :
  sqlite_wf db → fresh_session (view db) id → r ∈ db_events db → row_session_id r ≠ id.
Proof.
  intros Hwf (_ & _ & Hev) Hr <-. apply Hev. cbn.
  pose proof (sw_decodes _ Hwf) as Hd. rewrite Forall_forall in Hd.
  destruct (Hd r Hr) as [e He]. apply list_elem_of_fmap. exists e.
  split; [by apply decode_event_fields in He as (_ & -> & _)|].
  unfold view_events. apply list_elem_of_omap. exists r. split; [done|]. by rewrite He.
Qed.

(** The database after [create_session]. *)
Definition created (db : SqliteEventStore) (id event_id : Uuid) (now : N) : SqliteEventStore :=
  mkSqlite
    (db_events db ++ [event_row (Event_new event_id now id 1 (PayloadSession SessionCreated))])
    (db_sessions db ++ [new_session_row id now now None None]) (db_checkpoints db)
    (db_notified db ++ [(id, 1%N)]).

Lemma sqlite_create_eq db id event_id now :
  sqlite_wf db → fresh_session (view db) id → event_id_free db event_id → (now ≤ i64_max)%N →
  sqlite_create_session id event_id now db = (created db id event_id now, Ok id).
Proof.
  intros Hwf Hfr Hfree Hnow.
  unfold sqlite_create_session, insert_session, transaction, StateR.bind, StateR.lift, StateR.get.
  rewrite to_sql_ok by done. cbn [sess_id]. rewrite fresh_not_present by done.
  cbn [StateR.put]. rewrite insert_event_ok; [done|]. split_and!; [done|done|].
  apply existsb_false_iff. intros r Hr. cbn [set_sessions db_events] in Hr. unfold event_clash.
  cbn -[N.eqb]. apply orb_false_iff. split.
  - apply N.eqb_neq. intros ->. apply Hfree. by apply list_elem_of_fmap_2.
  - apply andb_false_iff. left. apply N.eqb_neq. intros E. by apply (fresh_no_rows db id r).
Qed.

Lemma filter_fmap {A B} (f : A → B) (P : B → bool) l :
  List.filter P (f <$> l) = f <$> List.filter (λ x, P (f x)) l.
Proof. induction l as [|x l IH]; cbn; [done|]. destruct (P (f x)); cbn; by rewrite IH. Qed.

Lemma view_delete db sid :
  sqlite_wf db →
  view (sqlite_delete_session sid db).1 = (memory_delete_session sid (view db)).1.
Proof.
  intros Hwf. unfold view, memory_delete_session. cbn. f_equal.
  - apply view_events_filter; [apply Hwf|]. intros r e He.
    by apply decode_event_fields in He as (_ & -> & _).
  - by rewrite filter_fmap.
Qed.

Lemma sqlite_list_view db sid : sqlite_wf db → sqlite_list sid db = memory_list sid (view db).
Proof. intros Hwf. by apply list_after_view. Qed.

Lemma sqlite_validate_view db sid n :
  sqlite_wf db →
  validate_fork_sequence sqlite_list sid n db = validate_fork_sequence memory_list sid n (view db).
Proof. intros Hwf. unfold validate_fork_sequence. by rewrite sqlite_list_view. Qed.

Lemma sqlite_fork_eq db new now src n :
  sqlite_wf db → fresh_session (view db) new → (n ≤ i64_max)%N → (now ≤ i64_max)%N →
  sqlite_fork_session new now src n db =
  match validate_fork_sequence memory_list src n (view db) with
  | Ok _ => (set_sessions db (db_sessions db ++ [new_session_row new now now (Some src) (Some n)]), Ok new)
  | Err x => (db, Err x)
  end.
Proof.
  intros Hwf Hfr Hn Hnow. unfold sqlite_fork_session, transaction, StateR.bind, StateR.get, StateR.lift.
  rewrite sqlite_validate_view by done. destruct (validate_fork_sequence _ _ _ _) as [[]|x]; [|done].
  rewrite !to_sql_ok by done. unfold insert_session, StateR.bind, StateR.get. cbn [sess_id].
  by rewrite fresh_not_present.
Qed.

Lemma sqlite_checkpoint_data db id t sid name n :
  let db' := (sqlite_create_checkpoint id t sid name n db).1 in
  db_events db' = db_events db ∧ db_sessions db' = db_sessions db.
Proof.
  unfold sqlite_create_checkpoint, transaction, StateR.bind, StateR.get, StateR.lift.
  destruct (is_empty _); [done|]. destruct (validate_fork_sequence _ _ _ _); [|done].
  destruct (to_sql n); [|done]. destruct (to_sql t); [|done]. by destruct (existsb _ _).
Qed.

(** One command does to the rows what it does to the in-memory store. *)
Lemma run_sqlite_view now c db :
  sqlite_wf db → sqlite_cmd_ok db now c →
  let db' := run_sqlite now c db in let st' := run_cmd c (view db) in
  cmd_ok (view db) c ∧ ms_events (view db') = ms_events st' ∧ ms_sessions (view db') = ms_sessions st' ∧
  Forall decodes (db_events db') ∧ Forall (λ r, row_sequence r ≤ i64_max)%N (db_events db') ∧
  Forall (λ s, is_Some (sess_parent s) → is_Some (sess_fork s)) (db_sessions db').
Proof.
  intros Hwf Hok. pose proof Hwf as [Hd Hf Hl Hs].
  destruct c as [id eid t|eid t sid p|new src n|d|id t sid name n]; cbn [run_sqlite sqlite_cmd_ok cmd_ok] in *.
  - destruct Hok as (Hfr & Hfree & Ht). rewrite sqlite_create_eq by done. split; [done|].
    set (e := Event_new eid t id 1 (PayloadSession SessionCreated)).
    assert (decode_event (event_row e) = Ok e) as He by by apply decode_event_row.
    cbn -[event_row]. fold e. rewrite view_events_app, (view_events_cons _ _ _ He), fmap_app.
    split_and!; [done|done|..]; apply Forall_app; (split; [done|]); repeat constructor;
      [by exists e|done|by intros []].
  - destruct Hok as (h & Hh & Hal).
    destruct (sqlite_append_next_spec db eid t sid p h Hwf Hh) as [[_ ->]|[[] _]]; [|done].
    set (e := Event_new eid t sid (N.of_nat (length h) + 1) p).
    destruct Hal as (_ & _ & Hfit & _).
    assert (sqlite_wf (appended db e)) as [Hd' Hf' Hl' _] by by apply (appended_wf db e h).
    cbn [fst run_cmd]. rewrite (memory_append_next_eq _ _ _ _ _ _ Hh). fold e. cbn [fst].
    by rewrite view_appended.
  - destruct Hok as (Hfr & Hne & Hn & Hnow). rewrite sqlite_fork_eq by done. split; [done|].
    cbn [run_cmd]. unfold memory_fork_session, StateR.bind, StateR.get, StateR.lift.
    destruct (validate_fork_sequence _ _ _ _) as [[]|x]; cbn; [|done].
    split_and!; [done|by rewrite fmap_app|done|done|]. apply Forall_app. split; [done|].
    constructor; [by eexists|done].
  - split; [done|]. rewrite view_delete by done. split_and!; [done|done|..]; cbn;
      apply Forall_forall; intros x Hx; rewrite list_elem_of_In, List.filter_In, <-list_elem_of_In in Hx;
      [rewrite Forall_forall in Hd|rewrite Forall_forall in Hf|rewrite Forall_forall in Hl];
      (apply Hd || apply Hf || apply Hl); apply Hx.
  - split; [done|]. destruct (sqlite_checkpoint_data db id t sid name n) as [Ee Es].
    destruct (checkpoint_same_history (view db) id t sid name n) as [Em Esm].
    cbn [run_cmd]. rewrite Em, Esm, Ee, Es. unfold view. cbn. by rewrite Ee, Es.
Qed.

Lemma run_sqlite_refines now c db :
  sqlite_wf db → sqlite_cmd_ok db now c →
  sqlite_wf (run_sqlite now c db) ∧
  ∀ s, abs (view (run_sqlite now c db)) s = spec_cmd c (abs (view db)) s.
Proof.
  intros Hwf Hok. destruct (run_sqlite_view now c db Hwf Hok) as (Hc & Ee & Es & Hd & Hf & Hl).
  destruct (run_cmd_refines (view db) c (sw_store _ Hwf) Hc) as [Hw Ha].
  destruct (same_data_refines _ _ Ee Es Hw) as [Hw' Ha']. split; [by split|].
  intros s. by rewrite Ha'.
Qed.

Definition sqlite_empty : SqliteEventStore := mkSqlite [] [] [] [].

Lemma sqlite_empty_wf : sqlite_wf sqlite_empty.
Proof. split; [constructor..|]. by apply (store_trace_refines [] _ trace_nil). Qed.

(** Executions from an empty database. *)
Inductive sqlite_trace : list StoreCmd → SqliteEventStore → Prop :=
  | sqlite_trace_nil : sqlite_trace [] sqlite_empty
  | sqlite_trace_snoc cs db now c :
      sqlite_trace cs db → sqlite_cmd_ok db now c → sqlite_trace (cs ++ [c]) (run_sqlite now c db).

Lemma sqlite_trace_refines cs db :
  sqlite_trace cs db → sqlite_wf db ∧ ∀ s, abs (view db) s = spec_run cs s.
Proof.
  induction 1 as [|cs db now c Ht [Hwf Ha] Hok].
  - split; [apply sqlite_empty_wf|]. intros s.
    by apply (store_trace_refines [] MemoryEventStore_default trace_nil).
  - destruct (run_sqlite_refines now c db Hwf Hok) as [Hwf' Ha']. split; [done|].
    intros s. rewrite Ha'. unfold spec_run. rewrite foldl_app. cbn. by apply spec_cmd_ext.
Qed.
End view.

(** The SQLite store keeps the contract of [EventStore]: clients of the session
    log, the effect fence among them, run on either store. *)
#[export] Instance sqlite_store_laws `{StoreJsonLaws} : EventStoreLaws SqliteEventStore sqlite_wf.
Proof.
  split; cbn [store_list store_append_next sqlite_event_store].
  - intros db sid Hwf. rewrite sqlite_list_view by done.
    by apply (list_total (EventStoreLaws := memory_store_laws) (view db) sid), sw_store.
  - intros db db' id now sid p e Hwf Ha. destruct (wf_history _ sid (sw_store _ Hwf)) as [h Hh].
    destruct (sqlite_append_next_spec db id now sid p h Hwf Hh) as [[(Hp & Hfree & Hfit & Hn) E]|[_ [x E]]];
      rewrite E in Ha; [injection Ha as <- <-|done].
    set (e := Event_new id now sid (N.of_nat (length h) + 1) p).
    assert (sqlite_wf (appended db e)) as Hwf' by by apply (appended_wf db e h).
    split; [done|]. pose proof (memory_append_next_eq _ id now sid p h Hh) as Em.
    cbn zeta in Em. fold e in Em. rewrite <-view_appended in Em by done.
    destruct (append_next_ok (EventStoreLaws := memory_store_laws) _ _ _ _ _ _ _ (sw_store _ Hwf) Em)
      as (_ & Hep & l & Hl & Hl' & Hseq).
    split; [done|]. exists l. rewrite !sqlite_list_view by done. done.
  - intros db db' id now sid sid' p e Hwf Ha Hne.
    destruct (wf_history _ sid (sw_store _ Hwf)) as [h Hh].
    destruct (sqlite_append_next_spec db id now sid p h Hwf Hh) as [[(Hp & Hfree & Hfit & Hn) E]|[_ [x E]]];
      rewrite E in Ha; [injection Ha as <- <-|done].
    set (e := Event_new id now sid (N.of_nat (length h) + 1) p).
    assert (sqlite_wf (appended db e)) as Hwf' by by apply (appended_wf db e h).
    pose proof (memory_append_next_eq _ id now sid p h Hh) as Em.
    cbn zeta in Em. fold e in Em. rewrite <-view_appended in Em by done. rewrite !sqlite_list_view by done.
    by apply (append_next_other (EventStoreLaws := memory_store_laws) _ _ _ _ _ _ _ _ (sw_store _ Hwf) Em).
  - intros db db' id now sid p err Hwf Ha. destruct (wf_history _ sid (sw_store _ Hwf)) as [h Hh].
    destruct (sqlite_append_next_spec db id now sid p h Hwf Hh) as [[_ E]|[_ [x E]]];
      rewrite E in Ha; [done|]. by injection Ha as <- _.
  - intros db db' id now sid p e Hwf Ha. destruct (wf_history _ sid (sw_store _ Hwf)) as [h Hh].
    destruct (sqlite_append_next_spec db id now sid p h Hwf Hh) as [[_ E]|[_ [x E]]];
      rewrite E in Ha; [|done]. by injection Ha as <- <-.
Qed.

Section claims.
Context `{StoreJsonLaws}.

(** C29: The database is a set of independent logs: after any sequence of creates,
    appends, forks, checkpoints and deletions of unforked sessions whose ids are
    fresh and whose numbers fit their columns, reading a session returns exactly
    its log, payloads decoded, in order and numbered 1, 2, 3, ...; the same logs
    the in-memory store keeps. *)
Theorem sqlite_store_refines_logs cs db sid :
  sqlite_trace cs db →
  ∃ l, sqlite_list sid db = Ok l ∧
       event_payload <$> l = log_payloads (spec_run cs sid) ∧
       ∀ i e, l !! i = Some e → event_sequence e = N.of_nat (S i).
Proof.
  intros [Hwf Ha]%sqlite_trace_refines. rewrite sqlite_list_view by done.
  destruct (wf_history _ sid (sw_store _ Hwf)) as [h Hh].
  exists (renumber 0 h). split_and!.
  - by apply memory_list_history.
  - rewrite payload_renumber, <-Ha. unfold abs. by rewrite Hh.
  - by intros i e Hi%sequence_renumber.
Qed.

(** Appending to the database succeeds exactly when the session has a row,
    the event id is new and the numbers fit; the event carries the number after
    the last, the session reads it at its end and no other session changes.  In
    every other case the transaction is rolled back and nothing changes. *)
Theorem sqlite_append_next_exact db id now sid p l :
  sqlite_wf db → sqlite_list sid db = Ok l →
  let '(db', r) := sqlite_append_next id now sid p db in
  if bool_decide (session_present db sid ∧ event_id_free db id ∧
                  (N.of_nat (length l) + 1 ≤ i64_max)%N ∧ (now ≤ i64_max)%N)
  then let e := Event_new id now sid (N.of_nat (length l) + 1) p in
       r = Ok e ∧ sqlite_wf db' ∧ sqlite_list sid db' = Ok (l ++ [e]) ∧
       ∀ sid', sid' ≠ sid → sqlite_list sid' db' = sqlite_list sid' db
  else (∃ x, r = Err x) ∧ db' = db.
Proof.
  intros Hwf Hl. destruct (wf_history _ sid (sw_store _ Hwf)) as [h Hh].
  rewrite sqlite_list_view, (memory_list_history _ _ _ Hh) in Hl by done. injection Hl as <-.
  rewrite length_renumber.
  destruct (sqlite_append_next_spec db id now sid p h Hwf Hh) as [[Hal E]|[Hal [x E]]];
    destruct (sqlite_append_next id now sid p db) as [db' r] eqn:Er.
  - injection E as -> ->. rewrite bool_decide_true by exact Hal.
    assert (sqlite_append_next id now sid p db = (appended db (Event_new id now sid
      (N.of_nat (length h) + 1) p), Ok (Event_new id now sid (N.of_nat (length h) + 1) p))) as Ea
      by done.
    destruct (append_next_ok (EventStoreLaws := sqlite_store_laws) _ _ _ _ _ _ _ Hwf Ea)
      as (Hwf' & _ & l & Hl & Hl' & _). change (store_list sid) with (sqlite_list sid) in Hl, Hl'.
    rewrite sqlite_list_view, (memory_list_history _ _ _ Hh) in Hl by done. injection Hl as <-.
    split_and!; [done..|]. intros sid' Hne.
    exact (append_next_other (EventStoreLaws := sqlite_store_laws) _ _ _ _ sid sid' _ _ Hwf Ea Hne).
  - injection E as -> ->. rewrite bool_decide_false by exact Hal. split; [by eexists|done].
Qed.

(** Reading from the database agrees with reading from the in-memory store of
    its rows, page by page: the fast path for sessions without ancestors (one
    query, numbers as stored) and the walk over ancestors (counts, offsets,
    renumbering) return the same events, and no row fails to decode. *)
Theorem sqlite_reads_like_memory db sid after limit :
  sqlite_wf db → (after ≤ i64_max)%N →
  sqlite_list_after sid after limit db = memory_list_after sid after limit (view db).
Proof. apply list_after_view. Qed.

End claims.

(** ** Concrete runs *)

(** The text of a payload is the payload itself, or text that does not parse. *)
Definition sample_store_json : @StoreJson sample_json := @Build_StoreJson sample_json
  (option (@EventPayload sample_json)) Some (λ t, t) Some Some.

#[local] Existing Instances sample_json sample_store_json.

Lemma sample_store_json_laws : StoreJsonLaws.
Proof. by split. Qed.

Definition sqlite_sample_cmds : list StoreCmd :=
  [CmdCreate 1 100 0; CmdAppend 101 1 1 (PayloadPlan "a"); CmdFork 2 1 2;
   CmdAppend 102 2 2 (PayloadPlan "b")].

Definition sqlite_sample : SqliteEventStore :=
  foldl (λ db c, run_sqlite 5 c db) sqlite_empty sqlite_sample_cmds.

Lemma sqlite_sample_trace : sqlite_trace sqlite_sample_cmds sqlite_sample.
Proof.
  unfold sqlite_sample, sqlite_sample_cmds. cbn [foldl].
  apply (sqlite_trace_snoc [_; _; _] _ 5 (CmdAppend 102 2 2 (PayloadPlan "b"))).
  2: { eexists. split; [vm_compute; reflexivity|]. unfold append_allowed.
    split_and!; refine (bool_decide_unpack _ _); by vm_compute. }
  apply (sqlite_trace_snoc [_; _] _ 5 (CmdFork 2 1 2)).
  2: { unfold sqlite_cmd_ok, fresh_session. split_and!; refine (bool_decide_unpack _ _); by vm_compute. }
  apply (sqlite_trace_snoc [_] _ 5 (CmdAppend 101 1 1 (PayloadPlan "a"))).
  2: { eexists. split; [vm_compute; reflexivity|]. unfold append_allowed.
    split_and!; refine (bool_decide_unpack _ _); by vm_compute. }
  apply (sqlite_trace_snoc [] _ 5 (CmdCreate 1 100 0)); [apply sqlite_trace_nil|].
  unfold sqlite_cmd_ok, fresh_session, event_id_free.
  split_and!; refine (bool_decide_unpack _ _); by vm_compute.
Qed.

Lemma sqlite_sample_wf : sqlite_wf sqlite_sample.
Proof.
  pose proof sample_store_json_laws. apply (sqlite_trace_refines _ _ sqlite_sample_trace).
Qed.

Lemma sqlite_store_refines_witness :
  ∃ l, sqlite_list 2 sqlite_sample = Ok l ∧
       event_payload <$> l = [PayloadSession SessionCreated; PayloadPlan "a"; PayloadPlan "b"] ∧
       ∀ i e, l !! i = Some e → event_sequence e = N.of_nat (S i).
Proof.
  exact (@sqlite_store_refines_logs _ _ sample_store_json_laws sqlite_sample_cmds sqlite_sample 2
    sqlite_sample_trace).
Defined.

Definition sqlite_sample_listing : list Event :=
  match sqlite_list 2 sqlite_sample with Ok l => l | Err _ => [] end.

(** An append with a used event id is refused and changes nothing. *)
Lemma sqlite_append_next_witness :
  (∃ x, (sqlite_append_next 102 3 2 (PayloadPlan "c") sqlite_sample).2 = Err x) ∧
  (sqlite_append_next 102 3 2 (PayloadPlan "c") sqlite_sample).1 = sqlite_sample.
Proof.
  pose proof (@sqlite_append_next_exact _ _ sample_store_json_laws sqlite_sample 102 3 2
    (PayloadPlan "c") sqlite_sample_listing sqlite_sample_wf eq_refl) as Hx.
  destruct (sqlite_append_next 102 3 2 (PayloadPlan "c") sqlite_sample) as [db' r].
  rewrite bool_decide_false in Hx; [exact Hx|].
  intros (_ & Hfree & _). apply Hfree. apply (bool_decide_unpack (_ ∈ _)). by vm_compute.
Defined.

Lemma sqlite_reads_witness :
  sqlite_list_after 2 1 (Some 1%N) sqlite_sample
  = memory_list_after 2 1 (Some 1%N) (view sqlite_sample) ∧
  event_payload <$> sqlite_sample_listing = [PayloadSession SessionCreated; PayloadPlan "a"; PayloadPlan "b"].
Proof.
  split; [|vm_compute; reflexivity].
  apply (@sqlite_reads_like_memory _ _ sample_store_json_laws); [exact sqlite_sample_wf|done].
Defined.

(** Session 2, forked from 1 after three events, has two events of its own when
    session 1 is deleted. *)
Definition orphaned : SqliteEventStore :=
  foldl (λ db c, run_sqlite 5 c db) sqlite_empty
    [CmdCreate 1 100 0; CmdAppend 101 1 1 (PayloadPlan "a"); CmdAppend 102 2 1 (PayloadPlan "b");
     CmdFork 2 1 3; CmdAppend 103 3 2 (PayloadPlan "c"); CmdAppend 104 4 2 (PayloadPlan "d");
     CmdDelete 1].

Definition payloads_of (sid : Uuid) (db : SqliteEventStore) : result StoreError (list EventPayload) :=
  match sqlite_list sid db with Ok l => Ok (map event_payload l) | Err e => Err e end.

(** Deleting the parent of a fork breaks the fork: its prefix is gone, the next
    event is read before the older ones, and the one after it can no longer be
    appended, because its number is taken. *)
Lemma orphan_appends_out_of_order :
  payloads_of 2 orphaned = Ok [PayloadPlan "c"; PayloadPlan "d"] ∧
  let db := (sqlite_append_next 105 5 2 (PayloadPlan "x") orphaned).1 in
  payloads_of 2 db = Ok [PayloadPlan "x"; PayloadPlan "c"; PayloadPlan "d"] ∧
  sqlite_append_next 106 6 2 (PayloadPlan "y") db
  = (db, Err (StoreSqlite "UNIQUE constraint failed")).
Proof. cbn zeta. split_and!; vm_compute; reflexivity. Qed.
