(* ===== verification/BudgetStore.v ===== *)
(** * Budgets kept in the session row

    The runtime saves the counters of a budget in the session's row after every
    turn and loads them when a budget is set again ([AgentRuntime::set_budget],
    [record_turn_with_usage], [record_compaction] of
    [crates/impetus-core/src/runtime.rs] over [get_budget_state] and
    [update_budget_state] of the SQLite store): the columns give back the
    counters, and the limits hold across restarts. *)

From S2P Require Import Prelude Str Action Budget Events EventStore SqliteStore.

Open Scope string_scope.
Open Scope nat_scope.
Open Scope list_scope.
Open Scope impetus_scope.

(** ** The columns *)

Lemma as_i64_roundtrip max n :
  (max = u32_max ∨ max = u64_max) → (n ≤ max)%N → as_uint max (as_i64 n) = n.
Proof.
  intros Hmax Hn. unfold as_uint, as_i64.
  assert (Z.of_N n < 18446744073709551616)%Z as Hlt.
  { unfold u32_max, u64_max in *. destruct Hmax; subst; lia. }
  rewrite (Z.mod_small (Z.of_N n)) by lia.
  assert (∀ z k, (0 ≤ z < Z.of_N max + 1)%Z →
    Z.to_N ((z - k * (Z.of_N max + 1)) mod (Z.of_N max + 1)) = Z.to_N z) as Hmod.
  { intros z k Hz. f_equal. rewrite <-(Z.mod_small z (Z.of_N max + 1)) at 2 by done.
    replace (z - k * (Z.of_N max + 1))%Z with (z + (- k) * (Z.of_N max + 1))%Z by lia.
    rewrite Z.mod_add by lia. done. }
  destruct (Z.ltb_spec (Z.of_N n) 9223372036854775808).
  - rewrite Z.mod_small by lia. lia.
  - destruct Hmax as [->| ->]; [exfalso; unfold u32_max in *; lia|].
    specialize (Hmod (Z.of_N n) 1%Z). replace (1 * (Z.of_N u64_max + 1))%Z
      with 18446744073709551616%Z in Hmod by reflexivity.
    rewrite Hmod by lia. lia.
Qed.

Definition counters_fit (s : BudgetState) : Prop :=
  (turns_used s ≤ u32_max ∧ tokens_used s ≤ u64_max ∧ compaction_count s ≤ u32_max)%N.

(** The part of a state the columns hold. *)
Definition same_counters (s s' : BudgetState) : Prop :=
  turns_used s = turns_used s' ∧ tokens_used s = tokens_used s' ∧
  compaction_count s = compaction_count s'.

Section columns.
Context `{StoreJson}.

Lemma find_session_update now sid st rows sid' :
  find_session (db_sessions (sqlite_update_budget_state now sid st rows).1) sid' =
  (λ s, if (sess_id s =? sid)%N
     then mkSessionRow (sess_id s) (sess_created s) (Z.to_N (as_i64 now)) (sess_parent s)
            (sess_fork s) (mkBudgetColumns (as_i64 (turns_used st)) (as_i64 (tokens_used st))
               (as_i64 (compaction_count st)))
     else s) <$> find_session (db_sessions rows) sid'.
Proof.
  unfold find_session, sqlite_update_budget_state. cbn.
  induction (db_sessions rows) as [|s l IH]; [done|]. cbn.
  destruct (sess_id s =? sid)%N eqn:Es; cbn; destruct (sess_id s =? sid')%N; cbn;
    rewrite ?Es; done.
Qed.

(** The links between sessions do not depend on the budget columns. *)
Lemma ancestry_update now sid st db sid' :
  sqlite_ancestry (sqlite_update_budget_state now sid st db).1 sid' = sqlite_ancestry db sid'.
Proof.
  unfold sqlite_ancestry. cbn [db_sessions set_sessions fst]. do 2 f_equal.
  assert (length (db_sessions (sqlite_update_budget_state now sid st db).1)
          = length (db_sessions db)) as -> by apply length_fmap.
  generalize (S (length (db_sessions db))), (@None N), sid'.
  intros fuel f cur. revert f cur. induction fuel as [|fuel IH]; intros f cur; [done|].
  cbn [sqlite_ancestry_loop]. rewrite find_session_update.
  destruct (find_session (db_sessions db) cur) as [[i c u [p|] [k|] b]|]; cbn;
    destruct (_ =? _)%N || idtac; cbn; by rewrite ?IH.
Qed.

(** Reading the segments looks at the event rows only. *)
Lemma sqlite_list_loop_ext db db' after limit out e segs :
  db_events db = db_events db' →
  sqlite_list_loop db after limit out e segs = sqlite_list_loop db' after limit out e segs.
Proof.
  intros Hev. assert (∀ seg, segment_rows db seg = segment_rows db' seg) as Hseg.
  { intros [[] [s up]]; unfold segment_rows, select_rows; by rewrite Hev. }
  revert out e. induction segs as [|seg segs IH]; intros out e; [done|].
  cbn [sqlite_list_loop]. rewrite Hseg. destruct (segment_rows db' seg) as [rows|]; [|done].
  cbn -[N.leb]. case_match; [apply IH|]. destruct (decode_rows _); [|done]. cbn.
  case_match; [done|apply IH].
Qed.

Lemma list_update now sid st db sid' :
  sqlite_list sid' (sqlite_update_budget_state now sid st db).1 = sqlite_list sid' db.
Proof.
  unfold sqlite_list, sqlite_list_after. rewrite ancestry_update.
  case_bool_decide; [done|]. destruct (sqlite_ancestry db sid') as [a|]; [|done].
  cbn -[sqlite_list_loop]. case_match; [done|]. by apply sqlite_list_loop_ext.
Qed.

(** Saving a budget in the session's row and loading it gives back the turns,
    the tokens and the compactions, for every value of their widths; the split
    into measured and estimated tokens is lost.  No other session's budget and no
    session's listing changes; without a row nothing is saved. *)
Theorem budget_columns_roundtrip now now' instant sid st db :
  counters_fit st →
  let db' := (sqlite_update_budget_state now sid st db).1 in
  match sqlite_get_budget_state now' instant sid db' with
  | Ok st' =>
      match find_session (db_sessions db) sid with
      | Some _ => same_counters st' st ∧ measured_tokens st' = 0%N ∧ estimated_tokens st' = 0%N
      | None => st' = BudgetState_new instant
      end
  | Err _ => False
  end ∧
  (∀ sid', sid' ≠ sid → sqlite_get_budget_state now' instant sid' db'
                        = sqlite_get_budget_state now' instant sid' db) ∧
  (∀ sid', sqlite_list sid' db' = sqlite_list sid' db).
Proof.
  intros (H1 & H2 & H3). cbn zeta. unfold sqlite_get_budget_state.
  split_and!; [| |intros sid'; apply list_update].
  - rewrite find_session_update. destruct (find_session (db_sessions db) sid) as [s|] eqn:Hs; [|done].
    apply find_some_elem in Hs as [_ Hs]. cbn. rewrite Hs. cbn.
    unfold same_counters. cbn. by rewrite !as_i64_roundtrip by tauto.
  - intros sid' Hne. rewrite find_session_update.
    destruct (find_session (db_sessions db) sid') as [s|] eqn:Hs; [|done]. cbn.
    apply find_some_elem in Hs as [_ ->%N.eqb_eq]. by rewrite (proj2 (N.eqb_neq _ _)).
Qed.
End columns.

(** ** The runtime's budget *)

Class BudgetStore (St : Type) := {
  store_get_budget_state (now_ms : N) (instant : Instant) (session_id : Uuid)
    : St → result StoreError BudgetState;
  store_update_budget_state (now_ms : N) (session_id : Uuid) (state : BudgetState)
    : stateR St StoreError ();
}.

#[export] Instance sqlite_budget_store `{StoreJson} : BudgetStore SqliteEventStore := {|
  store_get_budget_state := sqlite_get_budget_state;
  store_update_budget_state := sqlite_update_budget_state;
|}.

(** The in-memory store keeps no budget. *)
Definition memory_get_budget_state `{Json} (now_ms : N) (instant : Instant) (session_id : Uuid)
    (st : MemoryEventStore) : result StoreError BudgetState := Ok (BudgetState_new instant).
Definition memory_update_budget_state `{Json} (now_ms : N) (session_id : Uuid)
    (state : BudgetState) : stateR MemoryEventStore StoreError () := StateR.ret tt.

#[export] Instance memory_budget_store `{Json} : BudgetStore MemoryEventStore := {|
  store_get_budget_state := memory_get_budget_state;
  store_update_budget_state := memory_update_budget_state;
|}.

(** Saving a budget keeps the store well formed and every session's listing. *)
Class BudgetStoreLaws `{Json} (St : Type) `{!EventStore St} `{!BudgetStore St}
    (store_inv : St → Prop) := {
  update_budget_inv now_ms sid state st :
    store_inv st → store_inv (store_update_budget_state now_ms sid state st).1;
  update_budget_list now_ms sid state st sid' :
    store_list sid' (store_update_budget_state now_ms sid state st).1 = store_list sid' st;
}.

#[export] Instance memory_budget_laws `{Json} : BudgetStoreLaws MemoryEventStore store_wf.
Proof. by split. Qed.

#[export] Instance sqlite_budget_laws `{StoreJson} : BudgetStoreLaws SqliteEventStore sqlite_wf.
Proof.
  split; cbn [store_update_budget_state sqlite_budget_store].
  - intros now sid state db [Hd Hf Hl Hs]. split; [done|done| |].
    + cbn. apply Forall_fmap. eapply Forall_impl; [exact Hl|]. intros s Hlink. cbn.
      by destruct (sess_id s =? sid)%N.
    + assert (view (sqlite_update_budget_state now sid state db).1 = view db) as ->; [|done].
      unfold view, sqlite_update_budget_state. cbn. f_equal. rewrite <-list_fmap_compose.
      apply list_fmap_ext. intros i s _. cbn. by destruct (sess_id s =? sid)%N.
  - intros now sid state db sid'. apply list_update.
Qed.

(** The [budget] field of a runtime beside the store it shares. *)
Section runtime_budget.
Context {St : Type} `{BudgetStore St}.

Abbreviation budgeted := (option BudgetChecker * St)%type (only parsing).

Definition rt_set_budget (now_ms : N) (instant : Instant) (sid : Uuid) (config : BudgetConfig)
    : stateR budgeted StoreError () := λ '(b, st),
  match store_get_budget_state now_ms instant sid st with
  | Ok state => ((Some (mkBudgetChecker config state), st), Ok tt)
  | Err e => ((b, st), Err e)
  end.

Definition rt_check_budget (instant : Instant) (estimated_tokens : N) (b : option BudgetChecker)
    : result BudgetError () :=
  match b with Some c => check_all instant estimated_tokens c | None => Ok tt end.

Definition rt_compaction_needed (b : option BudgetChecker) : option (N * N) :=
  c ← b;
  match check_compaction c with
  | Err (BudgetCompactionRequired threshold used) => Some (threshold, used)
  | _ => None
  end.

(** The counters change before the write to the store, which may fail. *)
Definition rt_save (now_ms : N) (sid : Uuid) (c : BudgetChecker) (st : St)
    : budgeted * result StoreError () :=
  let '(st', r) := store_update_budget_state now_ms sid (checker_state c) st in
  ((Some c, st'), r).

Definition rt_record_turn_with_usage (now_ms : N) (sid : Uuid) (tokens : N) (measured : bool)
    : stateR budgeted StoreError () := λ '(b, st),
  match b with
  | Some c => rt_save now_ms sid (record_turn_with_usage tokens measured c) st
  | None => ((b, st), Ok tt)
  end.

Definition rt_record_turn (now_ms : N) (sid : Uuid) (tokens : N) :=
  rt_record_turn_with_usage now_ms sid tokens false.

Definition rt_record_compaction (now_ms : N) (sid : Uuid) (compacted_to : N)
    : stateR budgeted StoreError () := λ '(b, st),
  match b with
  | Some c => rt_save now_ms sid (budget_record_compaction compacted_to c) st
  | None => ((b, st), Ok tt)
  end.
End runtime_budget.

(** ** Limits across restarts *)

Section limits.
Context `{StoreJson}.
Context (sid : Uuid) (config : BudgetConfig).

(** What a session does to its budget: turns that pass the check and use no more
    than they asked for, compactions that do not grow the context, restarts that
    load the counters again, and appends to any session in between. *)
Inductive budget_step : option BudgetChecker * SqliteEventStore →
    option BudgetChecker * SqliteEventStore → Prop :=
  | budget_turn now instant req used measured c db :
      rt_check_budget instant req (Some c) = Ok tt →
      (used ≤ req)%N → (tokens_used (checker_state c) + req ≤ u64_max)%N →
      budget_step (Some c, db) (rt_record_turn_with_usage now sid used measured (Some c, db)).1
  | budget_compacted now compacted c db :
      (compacted ≤ tokens_used (checker_state c))%N →
      budget_step (Some c, db) (rt_record_compaction now sid compacted (Some c, db)).1
  | budget_restart now instant b db :
      budget_step (b, db) (rt_set_budget now instant sid config (b, db)).1
  | budget_append id now sid' p b db :
      budget_step (b, db) (b, (sqlite_append_next id now sid' p db).1).

Definition columns_of (s : BudgetState) : BudgetColumns :=
  mkBudgetColumns (as_i64 (turns_used s)) (as_i64 (tokens_used s)) (as_i64 (compaction_count s)).

Definition within_limits (s : BudgetState) : Prop :=
  within (max_turns config) (turns_used s) ∧ within (max_tokens config) (tokens_used s).

(** The row holds counters within the limits, and a loaded checker has them. *)
Definition budget_inv (x : option BudgetChecker * SqliteEventStore) : Prop :=
  ∃ row s, find_session (db_sessions x.2) sid = Some row ∧ sess_budget row = columns_of s ∧
    counters_fit s ∧ within_limits s ∧
    match x.1 with
    | Some c => checker_config c = config ∧ same_counters (checker_state c) s
    | None => True
    end.

Lemma wrapping_add_le max a b : (wrapping_add max a b ≤ max)%N.
Proof.
  unfold wrapping_add. pose proof (N.mod_lt (a + b) (max + 1)). lia.
Qed.

Lemma wrapping_add_le_sum max a b : (wrapping_add max a b ≤ a + b)%N.
Proof. unfold wrapping_add. apply N.Div0.mod_le. Qed.

Lemma rt_save_inv now c db row :
  find_session (db_sessions db) sid = Some row → checker_config c = config →
  counters_fit (checker_state c) → within_limits (checker_state c) →
  budget_inv (rt_save now sid c db).1.
Proof.
  intros Hrow Hc Hfit Hlim. unfold rt_save. cbn.
  eexists _, (checker_state c). cbn [fst snd].
  pose proof (find_session_update now sid (checker_state c) db sid) as Hf.
  rewrite Hrow in Hf. cbn in Hf. apply find_some_elem in Hrow as [_ Hid].
  rewrite Hid in Hf. split_and!; [exact Hf|done..].
Qed.

Lemma append_next_budget id now sid' p db row :
  find_session (db_sessions db) sid = Some row →
  ∃ row', find_session (db_sessions (sqlite_append_next id now sid' p db).1) sid = Some row' ∧
          sess_budget row' = sess_budget row.
Proof.
  intros Hrow. unfold sqlite_append_next, StateR.bind, StateR.get, StateR.lift, transaction.
  destruct (sqlite_logical_head_sequence db sid') as [head|]; [|by eauto].
  assert (∀ e, db_sessions (insert_event e db).1 = db_sessions db) as Hins.
  { intros e. unfold insert_event, StateR.bind, StateR.lift, StateR.get.
    repeat (case_match; simplify_eq/=; try done). }
  specialize (Hins (Event_new id now sid' (head + 1) p)).
  destruct (insert_event _ db) as [db1 [[]|]]; [|by eauto]. cbn in Hins.
  cbn -[Nat.eqb length]. destruct (length _ =? 0); cbn; [by eauto|]. rewrite Hins.
  clear -Hrow. unfold find_session in *.
  induction (db_sessions db) as [|s l IH]; [done|]. cbn in *.
  destruct (sess_id s =? sid)%N eqn:Es; simplify_eq.
  - destruct (_ =? sid')%N; cbn; rewrite Es; by eauto.
  - destruct (sess_id s =? sid')%N; cbn; rewrite Es; by apply IH.
Qed.

Lemma record_turn_state tokens measured c :
  let s' := checker_state (record_turn_with_usage tokens measured c) in
  turns_used s' = wrapping_add u32_max (turns_used (checker_state c)) 1 ∧
  tokens_used s' = wrapping_add u64_max (tokens_used (checker_state c)) tokens ∧
  compaction_count s' = compaction_count (checker_state c).
Proof. done. Qed.

Lemma budget_step_inv x y : budget_step x y → budget_inv x → budget_inv y.
Proof.
  intros Hstep (row & s & Hrow & Hcols & Hfit & Hlim & Hb).
  destruct Hstep as [now instant req used measured c db Hok Hused Hsum
                    |now compacted c db Hle|now instant b db|id now sid' p b db];
    cbn [fst snd] in *.
  - destruct Hb as (Hc & E1 & E2 & E3). apply check_all_ok in Hok as (Ht & Hk & _).
    rewrite Hc, wrapping_add_small in * by done.
    destruct (record_turn_state used measured c) as (R1 & R2 & R3).
    apply (rt_save_inv _ _ _ _ Hrow); [done|..]; unfold counters_fit, within_limits;
      rewrite R1, R2, ?R3.
    + destruct Hfit as (? & ? & ?). split_and!; [apply wrapping_add_le..|by rewrite E3].
    + pose proof (wrapping_add_le_sum u32_max (turns_used (checker_state c)) 1).
      pose proof (wrapping_add_le_sum u64_max (tokens_used (checker_state c)) used).
      unfold within, below in *. destruct (max_turns config), (max_tokens config); split; try done; lia.
  - destruct Hb as (Hc & E1 & E2 & E3). destruct Hfit as (F1 & F2 & F3).
    destruct Hlim as (L1 & L2).
    apply (rt_save_inv _ _ _ _ Hrow); [done|..]; unfold counters_fit, within_limits; cbn.
    + rewrite E1. split_and!; [done|lia|apply wrapping_add_le].
    + rewrite E1. split; [done|]. unfold within in *. destruct (max_tokens config); [lia|done].
  - exists row, s. cbn -[as_uint Z.mul]. unfold sqlite_get_budget_state. rewrite Hrow.
    cbn -[as_uint Z.mul]. split_and!; try done. rewrite Hcols. unfold same_counters.
    cbn -[as_uint as_i64]. destruct Hfit as (? & ? & ?). by rewrite !as_i64_roundtrip by tauto.
  - destruct (append_next_budget id now sid' p db row Hrow) as (row' & Hrow' & Hcols').
    exists row', s. by rewrite Hcols'.
Qed.

Lemma create_session_sessions event_id now db :
  (sqlite_create_session sid event_id now db).2 = Ok sid →
  db_sessions (sqlite_create_session sid event_id now db).1
  = db_sessions db ++ [new_session_row sid now now None None].
Proof.
  unfold sqlite_create_session, insert_session, insert_event, transaction, unique_violation,
    StateR.bind, StateR.lift, StateR.get, StateR.put, StateR.fail.
  cbn -[to_sql existsb]. destruct (to_sql now); [|done]. cbn -[existsb].
  destruct (existsb (λ s, _) _); [done|]. cbn -[existsb].
  destruct (existsb (event_clash _) _); done.
Qed.

(** However often the process restarts in between, a session whose turns all
    pass the budget check and use no more than they announced never goes over
    its turn limit or its token limit, and what the row holds is within the
    limits too: a restart forgets nothing that counts against them. *)
Theorem budget_limits_survive_restarts created_at event_id x db0 :
  find_session (db_sessions db0) sid = None →
  (sqlite_create_session sid event_id created_at db0).2 = Ok sid →
  rtc budget_step (None, (sqlite_create_session sid event_id created_at db0).1) x →
  (∀ c, x.1 = Some c → checker_config c = config ∧ within_limits (checker_state c)) ∧
  ∃ s, within_limits s ∧ (sess_budget <$> find_session (db_sessions x.2) sid) = Some (columns_of s).
Proof.
  intros Hnone Hok Hpath.
  assert (budget_inv (None, (sqlite_create_session sid event_id created_at db0).1)) as Hinv.
  { exists (new_session_row sid created_at created_at None None), (BudgetState_new 0).
    cbn [fst snd]. split_and!; [|done|by vm_compute|split; unfold within; case_match; cbn; done || lia|done].
    rewrite (create_session_sessions _ _ _ Hok). unfold find_session in *. clear Hpath Hok.
    induction (db_sessions db0) as [|r l IH]; cbn -[N.eqb] in *.
    - by rewrite N.eqb_refl.
    - destruct (sess_id r =? sid)%N; [done|]. by apply IH. }
  revert Hinv. induction Hpath as [x|x y z Hstep _ IH]; intros Hinv; [|by apply IH, (budget_step_inv x)].
  destruct Hinv as (row & s & Hrow & Hcols & Hfit & (L1 & L2) & Hb). split.
  - intros c Hc. rewrite Hc in Hb. destruct Hb as (? & E1 & E2 & E3).
    split; [done|]. unfold within_limits. by rewrite E1, E2.
  - exists s. split; [done|]. rewrite Hrow. cbn. by rewrite Hcols.
Qed.
End limits.

(** ** Concrete runs *)

#[local] Existing Instances sample_json sample_store_json.

Definition saved_state : BudgetState := mkBudgetState 7 u64_max 3 4 0 2.

Lemma budget_roundtrip_witness :
  sqlite_get_budget_state 9 0 1 (sqlite_update_budget_state 8 1 saved_state sqlite_sample).1
  = Ok (mkBudgetState 7 u64_max 0 0 (-9000000) 2) ∧
  sqlite_list 2 (sqlite_update_budget_state 8 1 saved_state sqlite_sample).1
  = sqlite_list 2 sqlite_sample.
Proof.
  split; [vm_compute; reflexivity|].
  refine (proj2 (proj2 (budget_columns_roundtrip 8 9 0 1 saved_state sqlite_sample _)) 2%N).
  refine (bool_decide_unpack _ _). by vm_compute.
Defined.

Definition two_turns : BudgetConfig :=
  mkBudgetConfig (Some 2%N) None None EffortMedium CompactionPolicy_default None.

Definition two_turns_start : SqliteEventStore := (sqlite_create_session 1 100 0 sqlite_empty).1.

(** A turn after each of two restarts. *)
Definition two_turns_end : option BudgetChecker * SqliteEventStore :=
  let restart x := (rt_set_budget 1 0 1 two_turns x).1 in
  let turn x := (rt_record_turn_with_usage 2 1 10 true x).1 in
  turn (restart (turn (restart (None, two_turns_start)))).

Lemma two_turns_path : rtc (budget_step 1 two_turns) (None, two_turns_start) two_turns_end.
Proof.
  eapply rtc_l; [exact (budget_restart 1 two_turns 1 0 None two_turns_start)|].
  eapply rtc_l.
  { eapply (budget_turn 1 two_turns 2 0 10 10 true); [by vm_compute|done|by vm_compute]. }
  eapply rtc_l; [exact (budget_restart 1 two_turns 1 0 _ _)|].
  eapply rtc_l.
  { eapply (budget_turn 1 two_turns 2 0 10 10 true); [by vm_compute|done|by vm_compute]. }
  apply rtc_refl.
Qed.

(** The third turn is refused, after another restart too. *)
Lemma budget_limits_witness :
  rt_check_budget 0 10 (rt_set_budget 3 0 1 two_turns two_turns_end).1.1
  = Err (TurnLimitExceeded 2 2) ∧
  ∀ c, two_turns_end.1 = Some c →
    checker_config c = two_turns ∧ within_limits two_turns (checker_state c).
Proof.
  split; [vm_compute; reflexivity|].
  exact (proj1 (budget_limits_survive_restarts 1 two_turns 0 100 two_turns_end sqlite_empty
    eq_refl eq_refl two_turns_path)).
Defined.
