(* ===== verification/EffectFence.v ===== *)
(** * Write-ahead effect fence

    [crates/impetus-core/src/effect_fence.rs]: the durable identity of an effect
    invocation, the fence state machine folded out of the session log, and the
    ledger that appends its transitions.  The ledger is written against the
    interface [EventStore]. *)

From S2P Require Import Prelude Str Action Effect Events EventStore.

Open Scope string_scope.
Open Scope nat_scope.
Open Scope list_scope.
Open Scope impetus_scope.

Abbreviation ArgsDigest := string (only parsing).

Record EffectInvocationIdentity := mkIdentity {
  identity_effect_id : Uuid;
  identity_args_digest : ArgsDigest;
  identity_kind : string;
  identity_target_label : option string;
}.

Inductive FenceState := Prepared | Started | Observed | Failed | Unknown.

#[export] Instance FenceState_eq_dec : EqDecision FenceState.
Proof. solve_decision. Defined.

Definition is_terminal (s : FenceState) : bool :=
  match s with Observed | Failed | Unknown => true | _ => false end.

Definition blocks_blind_replay (s : FenceState) : bool :=
  match s with Started | Unknown => true | _ => false end.

Record EffectFenceRecord := mkFenceRecord {
  fence_identity : EffectInvocationIdentity;
  fence_state : FenceState;
  fence_summary : option string;
}.

Inductive FenceReplayDecision :=
  | AllowFresh
  | AlreadyObserved (summary : option string)
  | AlreadyFailed (reason : option string)
  | Refuse (reason : string).

Inductive EffectFenceError :=
  | FenceStore (message : string)
  | FenceRefuseReplay (message : string).

(** [Display] of the two error types; that of [StoreError] prints errors of
    third-party crates. *)
Class DisplayStoreError := store_error_to_string : StoreError → string.

Definition EffectFenceError_to_string (e : EffectFenceError) : string :=
  match e with
  | FenceStore m => "effect fence store error: " ++ m
  | FenceRefuseReplay m => "effect fence refuse replay: " ++ m
  end.

(** ** Digests *)

(** The bytes fed to the hasher: the parts with one NUL byte between them. *)
Definition digest_preimage (parts : list string) : string := join nul parts.

Definition digest_args `{Codec} (parts : list string) : ArgsDigest :=
  hex (sha256 (digest_preimage parts)).

Definition capability_label (c : EffectCapability) : string :=
  match c with
  | WorkspaceRead => "workspace_read"
  | WorkspaceWrite => "workspace_write"
  | ProcessSpawn => "process_spawn"
  | CapNetworkConnect => "network_connect"
  end.

Definition origin_label (o : ActionOrigin) : string :=
  match o with User => "user" | Agent => "agent" end.

(** The serde names of [ActionKind] ([rename_all = "snake_case"]). *)
Definition action_kind_label (k : ActionKind) : string :=
  match k with
  | ReadFile => "read_file"
  | WriteFile => "write_file"
  | SpawnProcess => "spawn_process"
  | NetworkConnect => "network_connect"
  | SshConnect => "ssh_connect"
  | SftpTransfer => "sftp_transfer"
  | TmuxAttach => "tmux_attach"
  | WebSearch => "web_search"
  | WebFetch => "web_fetch"
  | WebDownload => "web_download"
  | WebBrowser => "web_browser"
  | WebSubmit => "web_submit"
  | WebUpload => "web_upload"
  end.

Definition effect_digest_parts (e : NormalizedEffect) : list string :=
  [capability_label (effect_capability e);
   action_kind_label (kind (effect_action e));
   origin_label (effect_origin e);
   default "" (target (effect_action e));
   dec (effect_version e)].

Definition args_digest_for_effect `{Codec} (e : NormalizedEffect) : ArgsDigest :=
  digest_args (effect_digest_parts e).

Definition kind_label_for_effect (e : NormalizedEffect) : string :=
  (capability_label (effect_capability e) ++ ":" ++
   action_kind_label (kind (effect_action e)))%string.

Definition identity_with_id `{Codec} (e : NormalizedEffect) (effect_id : Uuid)
    : EffectInvocationIdentity :=
  mkIdentity effect_id (args_digest_for_effect e) (kind_label_for_effect e)
    (target (effect_action e)).

(** ** Reconciliation and the fold over the log *)

Definition reconcile_for_replay (r : EffectFenceRecord) (expected_digest : ArgsDigest)
    : FenceReplayDecision :=
  if negb (String.eqb (identity_args_digest (fence_identity r)) expected_digest)
  then Refuse "args_digest mismatch with durable fence record"
  else match fence_state r with
  | Prepared => AllowFresh
  | Observed => AlreadyObserved (fence_summary r)
  | Failed => AlreadyFailed (fence_summary r)
  | Started =>
      Refuse "effect Started without Observed — outcome Unknown; refuse blind replay"
  | Unknown => Refuse "effect fence state Unknown — refuse blind idempotent replay"
  end.

Abbreviation FenceMap := (gmap Uuid EffectFenceRecord).

(** [map.entry(id).or_insert_with(..)] and the assignments to the entry. *)
Definition advance_entry (m : FenceMap) (effect_id : Uuid) (args_digest : string)
    (s : FenceState) (summary : option string) : FenceMap :=
  let entry := default
    (mkFenceRecord (mkIdentity effect_id args_digest "unknown" None) Prepared None)
    (m !! effect_id) in
  let i := fence_identity entry in
  <[effect_id :=
      mkFenceRecord
        (mkIdentity (identity_effect_id i) args_digest (identity_kind i)
           (identity_target_label i))
        s
        (match summary with Some _ => summary | None => fence_summary entry end)]> m.

Definition apply_fence_event (m : FenceMap) (f : EffectFenceEvent) : FenceMap :=
  match f with
  | FencePrepared effect_id args_digest k target_label =>
      <[effect_id :=
          mkFenceRecord (mkIdentity effect_id args_digest k target_label) Prepared None]> m
  | FenceStarted effect_id args_digest => advance_entry m effect_id args_digest Started None
  | FenceObserved effect_id args_digest summary =>
      advance_entry m effect_id args_digest Observed (Some summary)
  | FenceFailed effect_id args_digest reason =>
      advance_entry m effect_id args_digest Failed (Some reason)
  | FenceUnknown effect_id args_digest reason =>
      advance_entry m effect_id args_digest Unknown (Some reason)
  end.

Definition apply_event `{Json} (m : FenceMap) (e : Event) : FenceMap :=
  match event_payload e with
  | PayloadEffectFence f => apply_fence_event m f
  | _ => m
  end.

Definition records_from_events `{Json} (events : list Event) : FenceMap :=
  foldl apply_event ∅ events.

Definition MAX_FENCE_SUMMARY_CHARS : nat := 256.

Definition bound_fence_summary (input : string) : string :=
  if chars_count input <=? MAX_FENCE_SUMMARY_CHARS then input
  else chars_take MAX_FENCE_SUMMARY_CHARS input.

(** ** The ledger *)

(** The id and time of a durable row; an operation takes one per row it may
    append. *)
Abbreviation Tick := (Uuid * N)%type.

(** A [HashMap] yields its values in an unspecified order, which may differ from
    call to call. *)
Definition valid_order (order : FenceMap → list EffectFenceRecord) : Prop :=
  ∀ m, order m ≡ₚ (map_to_list m).*2.

Section ledger.
  Context `{Json} `{Codec} `{DisplayStoreError} {St : Type} `{!EventStore St}.

Definition fence_error_of_store (e : StoreError) : EffectFenceError :=
  FenceStore (store_error_to_string e).

Definition fence_append (t : Tick) (session_id : Uuid) (f : EffectFenceEvent)
    : stateR St EffectFenceError () := λ st,
  let '(st', r) := store_append_next t.1 t.2 session_id (PayloadEffectFence f) st in
  (st', map_err fence_error_of_store ((λ _, tt) <$> r)).

Definition ledger_prepare (t : Tick) (session_id : Uuid) (i : EffectInvocationIdentity)
    : stateR St EffectFenceError EffectFenceRecord :=
  fence_append t session_id
    (FencePrepared (identity_effect_id i) (identity_args_digest i) (identity_kind i)
       (identity_target_label i)) ;;;
  StateR.ret (mkFenceRecord i Prepared None).

Definition mark_started (t : Tick) (session_id : Uuid) (i : EffectInvocationIdentity)
    : stateR St EffectFenceError EffectFenceRecord :=
  fence_append t session_id
    (FenceStarted (identity_effect_id i) (identity_args_digest i)) ;;;
  StateR.ret (mkFenceRecord i Started None).

Definition prepare_and_start (t0 t1 : Tick) (session_id : Uuid)
    (i : EffectInvocationIdentity) : stateR St EffectFenceError EffectFenceRecord :=
  ledger_prepare t0 session_id i ;;; mark_started t1 session_id i.

Definition observe (t : Tick) (session_id : Uuid) (i : EffectInvocationIdentity)
    (summary : string) : stateR St EffectFenceError EffectFenceRecord :=
  let summary := bound_fence_summary summary in
  fence_append t session_id
    (FenceObserved (identity_effect_id i) (identity_args_digest i) summary) ;;;
  StateR.ret (mkFenceRecord i Observed (Some summary)).

Definition mark_failed (t : Tick) (session_id : Uuid) (i : EffectInvocationIdentity)
    (reason : string) : stateR St EffectFenceError EffectFenceRecord :=
  let reason := bound_fence_summary reason in
  fence_append t session_id
    (FenceFailed (identity_effect_id i) (identity_args_digest i) reason) ;;;
  StateR.ret (mkFenceRecord i Failed (Some reason)).

Definition mark_unknown (t : Tick) (session_id : Uuid) (i : EffectInvocationIdentity)
    (reason : string) : stateR St EffectFenceError EffectFenceRecord :=
  let reason := bound_fence_summary reason in
  fence_append t session_id
    (FenceUnknown (identity_effect_id i) (identity_args_digest i) reason) ;;;
  StateR.ret (mkFenceRecord i Unknown (Some reason)).

Definition load_all (session_id : Uuid) (st : St) : result EffectFenceError FenceMap :=
  map_err fence_error_of_store (records_from_events <$> store_list session_id st).

Definition fence_latest (session_id effect_id : Uuid) (st : St)
    : result EffectFenceError (option EffectFenceRecord) :=
  (λ m : FenceMap, m !! effect_id) <$> load_all session_id st.

Definition record_digest (r : EffectFenceRecord) : ArgsDigest :=
  identity_args_digest (fence_identity r).

(** [best] is overwritten by every record with the digest, in map order. *)
Definition last_with_digest (digest : ArgsDigest) (records : list EffectFenceRecord)
    : option EffectFenceRecord :=
  foldl (λ best r,
    if String.eqb (record_digest r) digest then Some r else best) None records.

Definition latest_for_digest (order : FenceMap → list EffectFenceRecord)
    (session_id : Uuid) (digest : ArgsDigest) (st : St)
    : result EffectFenceError (option EffectFenceRecord) :=
  (λ m, last_with_digest digest (order m)) <$> load_all session_id st.

Definition check_replay_safe (order : FenceMap → list EffectFenceRecord)
    (session_id : Uuid) (expected_digest : ArgsDigest) (st : St)
    : result EffectFenceError FenceReplayDecision :=
  (λ o, match o with
        | None => AllowFresh
        | Some r => reconcile_for_replay r expected_digest
        end) <$> latest_for_digest order session_id expected_digest st.

End ledger.

(** ** What a digest identifies *)

Lemma split_at_last_byte a x x' y y' :
  has_byte a y = false → has_byte a y' = false →
  (x ++ String a y = x' ++ String a y')%string → x = x' ∧ y = y'.
Proof.
  intros Hy Hy'. revert x'. induction x as [|b x IH]; intros [|b' x'] E.
  - by injection E.
  - exfalso. injection E as _ E. subst y. rewrite has_byte_app in Hy.
    apply orb_false_iff in Hy as [_ Hy]. unfold has_byte in Hy. cbn in Hy.
    by rewrite Ascii.eqb_refl in Hy.
  - exfalso. injection E as _ E. subst y'. rewrite has_byte_app in Hy'.
    apply orb_false_iff in Hy' as [_ Hy']. unfold has_byte in Hy'. cbn in Hy'.
    by rewrite Ascii.eqb_refl in Hy'.
  - injection E as <- E. apply IH in E as [-> ->]; done.
Qed.

Lemma pretty_N_char_digit d : pretty_N_char d ≠ zero.
Proof. unfold pretty_N_char. repeat case_match; done. Qed.

Lemma pretty_N_go_no_nul n s :
  has_byte zero s = false → has_byte zero (pretty_N_go n s) = false.
Proof.
  revert s. induction (N.lt_wf_0 n) as [n _ IH]; intros s Hs.
  destruct (decide (n = 0%N)) as [->|Hn]; [by rewrite pretty_N_go_0|].
  rewrite pretty_N_go_step by lia. apply IH; [apply N.div_lt; lia|].
  unfold has_byte in *. cbn [String.list_ascii_of_string existsb].
  rewrite Hs, orb_false_r. apply Ascii.eqb_neq. intros E. symmetry in E.
  by apply pretty_N_char_digit in E.
Qed.

Lemma dec_no_nul n : has_byte zero (dec n) = false.
Proof.
  unfold dec, pretty, pretty_N. case_decide; [done|]. by apply pretty_N_go_no_nul.
Qed.

Lemma capability_label_inj c c' : capability_label c = capability_label c' → c = c'.
Proof. by destruct c, c'. Qed.
Lemma origin_label_inj o o' : origin_label o = origin_label o' → o = o'.
Proof. by destruct o, o'. Qed.
Lemma action_kind_label_inj k k' : action_kind_label k = action_kind_label k' → k = k'.
Proof. by destruct k, k'. Qed.

(** The hashed bytes determine the five parts, whatever bytes the target has:
    the labels before it and the version after it hold no NUL byte. *)
Lemma effect_preimage_inj e e' :
  digest_preimage (effect_digest_parts e) = digest_preimage (effect_digest_parts e') →
  effect_digest_parts e = effect_digest_parts e'.
Proof.
  unfold digest_preimage, effect_digest_parts. cbn [join].
  set (t := default _ _). set (t' := default _ _). intros E.
  apply (split_at_byte zero) in E as [-> E];
    [|by destruct (effect_capability e)|by destruct (effect_capability e')].
  apply (split_at_byte zero) in E as [-> E];
    [|by destruct (kind (effect_action e))|by destruct (kind (effect_action e'))].
  apply (split_at_byte zero) in E as [-> E];
    [|by destruct (effect_origin e)|by destruct (effect_origin e')].
  apply (split_at_last_byte zero) in E as [-> E]; [|apply dec_no_nul..].
  change (dec (effect_version e) = dec (effect_version e')) in E. by rewrite E.
Qed.

(** The replay digest of an effect identifies its capability, action kind,
    origin, version and target (a missing target counts as the empty one), and
    nothing else: two effects share a digest exactly when these agree, unless
    their hashed bytes are a SHA-256 collision.  The summary never matters. *)
Theorem args_digest_identifies `{Codec} e e' :
  (sha256 (digest_preimage (effect_digest_parts e)) =
     sha256 (digest_preimage (effect_digest_parts e')) →
   digest_preimage (effect_digest_parts e) = digest_preimage (effect_digest_parts e')) →
  args_digest_for_effect e = args_digest_for_effect e' ↔
  effect_capability e = effect_capability e' ∧
  kind (effect_action e) = kind (effect_action e') ∧
  effect_origin e = effect_origin e' ∧ effect_version e = effect_version e' ∧
  default "" (target (effect_action e)) = default "" (target (effect_action e')).
Proof.
  intros Hcoll. unfold args_digest_for_effect, digest_args. split.
  - intros E%hex_inj. apply Hcoll, effect_preimage_inj in E.
    unfold effect_digest_parts in E. injection E as Ec Ek Eo Et Ev.
    split_and!; [by apply capability_label_inj|by apply action_kind_label_inj
      |by apply origin_label_inj|by apply dec_inj|done].
  - intros (Ec & Ek & Eo & Ev & Et). unfold effect_digest_parts.
    by rewrite Ec, Ek, Eo, Ev, Et.
Qed.

Lemma args_digest_identifies_witness :
  let e := workspace_write Agent "first" "out.txt" in
  let e' := workspace_write Agent "second" "out.txt" in
  @args_digest_for_effect sample_codec e = @args_digest_for_effect sample_codec e'.
Proof.
  apply (@args_digest_identifies sample_codec); [intros _; reflexivity|].
  by vm_compute.
Defined.

(** ** When a replay is admitted *)

Lemma last_with_digest_from digest rs best :
  foldl (λ best r, if String.eqb (record_digest r) digest then Some r else best) best rs =
  match last_with_digest digest rs with Some r => Some r | None => best end.
Proof.
  unfold last_with_digest. revert best.
  induction rs as [|r rs IH]; intros best; [done|]. cbn [foldl].
  destruct (String.eqb (record_digest r) digest).
  - rewrite (IH (Some r)). by destruct (foldl _ None rs).
  - apply IH.
Qed.

Lemma last_with_digest_cons digest r rs :
  last_with_digest digest (r :: rs) =
  match last_with_digest digest rs with
  | Some r' => Some r'
  | None => if String.eqb (record_digest r) digest then Some r else None
  end.
Proof.
  unfold last_with_digest at 1. cbn. apply last_with_digest_from.
Qed.

Lemma last_with_digest_none digest rs :
  last_with_digest digest rs = None ↔ ∀ r, r ∈ rs → record_digest r ≠ digest.
Proof.
  induction rs as [|r rs IH]; [set_solver|]. rewrite last_with_digest_cons.
  destruct (last_with_digest digest rs) as [r'|].
  - split; [done|]. intros Hall.
    enough (Some r' = None) by done. apply IH. set_solver.
  - destruct (String.eqb_spec (record_digest r) digest); set_solver.
Qed.

Lemma last_with_digest_some digest rs r :
  last_with_digest digest rs = Some r → r ∈ rs ∧ record_digest r = digest.
Proof.
  induction rs as [|r0 rs IH]; [done|]. rewrite last_with_digest_cons.
  destruct (last_with_digest digest rs) as [r'|].
  - intros [= ->]. destruct IH; [done|]. split; [by right|done].
  - destruct (String.eqb_spec (record_digest r0) digest); [|done].
    intros [= ->]. split; [by left|done].
Qed.

Lemma last_with_digest_snoc digest rs r :
  record_digest r = digest → last_with_digest digest (rs ++ [r]) = Some r.
Proof.
  intros E. unfold last_with_digest. rewrite foldl_app. cbn [foldl].
  by rewrite E, String.eqb_refl.
Qed.

Lemma elem_of_values (m : FenceMap) r :
  r ∈ (map_to_list m).*2 ↔ ∃ id, m !! id = Some r.
Proof.
  rewrite list_elem_of_fmap. split.
  - intros ([id r'] & -> & Hin%elem_of_map_to_list). eauto.
  - intros [id Hid]. exists (id, r). by rewrite elem_of_map_to_list.
Qed.

Lemma reconcile_allow r digest :
  record_digest r = digest →
  reconcile_for_replay r digest = AllowFresh ↔ fence_state r = Prepared.
Proof.
  intros E. unfold reconcile_for_replay.
  change (identity_args_digest (fence_identity r)) with (record_digest r).
  rewrite E, String.eqb_refl. by destruct (fence_state r).
Qed.

(** The order that yields the record of [id] last. *)
Definition last_order (id : Uuid) : FenceMap → list EffectFenceRecord := λ m,
  match m !! id with
  | Some r => (map_to_list (delete id m)).*2 ++ [r]
  | None => (map_to_list m).*2
  end.

Lemma last_order_valid id : valid_order (last_order id).
Proof.
  intros m. unfold last_order. destruct (m !! id) as [r|] eqn:Hr; [|done].
  rewrite <-(insert_delete_id m id r Hr) at 2.
  rewrite map_to_list_insert by apply lookup_delete_eq. cbn.
  symmetry. apply Permutation_cons_append.
Qed.

(** No record of the digest is still [Prepared]. *)
Definition digest_settled (m : FenceMap) (d : ArgsDigest) : Prop :=
  ∀ id r, m !! id = Some r → record_digest r = d → fence_state r ≠ Prepared.

Definition digest_seen (m : FenceMap) (d : ArgsDigest) : Prop :=
  ∃ id r, m !! id = Some r ∧ record_digest r = d.

Section replay.
  Context `{Json} `{Codec} `{DisplayStoreError} {St : Type} `{!EventStore St}.

Lemma check_replay_safe_eq order sid d (st : St) l :
  store_list sid st = Ok l →
  check_replay_safe order sid d st =
  Ok match last_with_digest d (order (records_from_events l)) with
     | None => AllowFresh
     | Some r => reconcile_for_replay r d
     end.
Proof.
  intros Hl. unfold check_replay_safe, latest_for_digest, load_all. by rewrite Hl.
Qed.

(** A seen, settled digest is refused in every order. *)
Lemma settled_refused order sid d (st : St) l :
  valid_order order → store_list sid st = Ok l →
  digest_seen (records_from_events l) d → digest_settled (records_from_events l) d →
  ∃ dec, check_replay_safe order sid d st = Ok dec ∧ dec ≠ AllowFresh.
Proof.
  intros Hord Hl (id & r & Hr & Hd) Hset. rewrite (check_replay_safe_eq _ _ _ _ _ Hl).
  eexists. split; [done|].
  destruct (last_with_digest d _) as [r'|] eqn:Elast.
  - apply last_with_digest_some in Elast as [Hin Hd'].
    rewrite (Hord _), elem_of_values in Hin. destruct Hin as [id' Hid'].
    rewrite reconcile_allow by done. by eapply Hset.
  - rewrite last_with_digest_none in Elast. exfalso. apply (Elast r); [|done].
    rewrite (Hord _), elem_of_values. eauto.
Qed.

(** When a replay may pass the fence: for some iteration order of the record
    map exactly if the digest has no record, or has one that is still
    [Prepared].  A started, observed, failed or unknown invocation is refused
    in every order only while no other invocation of the digest is left
    [Prepared]. *)
Theorem replay_allowed_iff sid d (st : St) l :
  store_list sid st = Ok l →
  (∃ order, valid_order order ∧ check_replay_safe order sid d st = Ok AllowFresh) ↔
  ¬ digest_seen (records_from_events l) d ∨
  (∃ id r, records_from_events l !! id = Some r ∧ record_digest r = d ∧
           fence_state r = Prepared).
Proof.
  intros Hl. split.
  - intros (order & Hord & Hc). rewrite (check_replay_safe_eq _ _ _ _ _ Hl) in Hc.
    destruct (last_with_digest d _) as [r|] eqn:Elast.
    + right. apply last_with_digest_some in Elast as [Hin Hd].
      rewrite (Hord _), elem_of_values in Hin. destruct Hin as [id Hid].
      injection Hc as Hc. rewrite reconcile_allow in Hc by done. eauto.
    + left. intros (id & r & Hr & Hd). rewrite last_with_digest_none in Elast.
      apply (Elast r); [|done]. rewrite (Hord _), elem_of_values. eauto.
  - intros [Hnone|(id & r & Hr & Hd & Hs)].
    + exists (last_order 0). split; [apply last_order_valid|].
      rewrite (check_replay_safe_eq _ _ _ _ _ Hl).
      rewrite (proj2 (last_with_digest_none _ _)); [done|].
      intros r Hin Hd. rewrite (last_order_valid 0 _), elem_of_values in Hin.
      destruct Hin as [id Hid]. apply Hnone. by exists id, r.
    + exists (last_order id). split; [apply last_order_valid|].
      rewrite (check_replay_safe_eq _ _ _ _ _ Hl). unfold last_order. rewrite Hr.
      rewrite last_with_digest_snoc by done. by rewrite (proj2 (reconcile_allow _ _ Hd)).
Qed.

End replay.

(** ** Folding the ledger's own rows *)

Section folding.
  Context `{Json}.

Lemma records_snoc l e : records_from_events (l ++ [e]) = apply_event (records_from_events l) e.
Proof. unfold records_from_events. by rewrite foldl_app. Qed.

(** After [Prepared] and a later row for the same id, the record of the id is in
    that row's state, and no other record changed. *)
Lemma records_prepared_then l e1 e2 i s note :
  event_payload e1 = PayloadEffectFence (FencePrepared (identity_effect_id i)
    (identity_args_digest i) (identity_kind i) (identity_target_label i)) →
  apply_event (records_from_events (l ++ [e1])) e2 =
    advance_entry (records_from_events (l ++ [e1])) (identity_effect_id i)
      (identity_args_digest i) s note →
  records_from_events (l ++ [e1] ++ [e2]) =
  <[identity_effect_id i := mkFenceRecord i s note]> (records_from_events l).
Proof.
  intros E1 E2. rewrite app_assoc, records_snoc, E2, records_snoc.
  unfold apply_event. rewrite E1. cbn [apply_fence_event]. unfold advance_entry.
  rewrite lookup_insert_eq, insert_insert_eq. cbn. destruct i. by destruct note.
Qed.

End folding.

(** ** A leftover [Prepared] row

    The process stops between [Prepared] and [Started] of a first invocation;
    after the restart a second invocation of the same effect starts and the
    process stops again. *)

Section leftover.
#[local] Existing Instances sample_json sample_codec.
#[local] Instance sample_display : DisplayStoreError := λ _, "store".

Definition leftover_effect : NormalizedEffect := workspace_write Agent "write" "out.txt".

Definition leftover_store : MemoryEventStore :=
  let st0 := (memory_create_session 1 100 0 MemoryEventStore_default).1 in
  let st1 := (ledger_prepare (101%N, 1%N) 1 (identity_with_id leftover_effect 7) st0).1 in
  (prepare_and_start (102%N, 2%N) (103%N, 3%N) 1 (identity_with_id leftover_effect 8) st1).1.

(** The second invocation has started, and a third one may still pass. *)
Lemma replay_allowed_witness :
  ∃ l, store_list 1 leftover_store = Ok l ∧
    fence_state <$> (records_from_events l !! 8%N) = Some Started ∧
    ∃ order, valid_order order ∧
      check_replay_safe order 1 (args_digest_for_effect leftover_effect) leftover_store
      = Ok AllowFresh.
Proof.
  destruct (store_list 1 leftover_store) as [l|] eqn:El; [|by vm_compute in El].
  exists l. split; [done|].
  pose proof (proj2 (replay_allowed_iff 1 (args_digest_for_effect leftover_effect)
    leftover_store l El)) as Hallow.
  vm_compute in El. injection El as <-. split; [by vm_compute|].
  apply Hallow. right. exists 7%N. eexists. split; [vm_compute; reflexivity|]. by vm_compute.
Defined.

End leftover.
