(* ===== verification/Effects.v ===== *)
(** * The effect seam

    [crates/impetus-core/src/effects.rs]: sandbox admission, the admission
    pipeline (sandbox, policy, execution mode, risk gate), deferred effects and
    their resumption after an approval, and execution under the write-ahead
    fence.  Capability code is an [execution] on a world the model does not look
    into; the session log is any [EventStore]. *)

From S2P Require Import Prelude Str Action PathScope WebSecurity Policy Effect RiskGate.
From S2P Require Import Events EventStore EffectFence.

Open Scope string_scope.
Open Scope nat_scope.
Open Scope list_scope.
Open Scope impetus_scope.

Inductive EffectDecision :=
  | Eff_Allow
  | Eff_NeedsApproval (reason : string)
  | Eff_Deny (reason : string).

#[export] Instance EffectDecision_eq_dec : EqDecision EffectDecision.
Proof. solve_decision. Defined.

Inductive EffectExecution (T : Type) :=
  | Exec_Executed (value : T)
  | Exec_NeedsApproval (reason : string)
  | Exec_Denied (reason : string).
Arguments Exec_Executed {T} _.
Arguments Exec_NeedsApproval {T} _.
Arguments Exec_Denied {T} _.

Record DeferredEffect := mkDeferred {
  deferred_effect : NormalizedEffect;
  deferred_approval : ApprovalRequest;
}.

Record AdmittedOperation := mkAdmitted {
  admitted_effect : NormalizedEffect;
  admitted_intent_revision : N;
}.

Inductive EffectAdmission :=
  | Adm_Allow (op : AdmittedOperation)
  | Adm_NeedsApproval (d : DeferredEffect)
  | Adm_Deny (reason : string).

Inductive Sandbox :=
  | Provisioned (scope : SandboxScope)
  | Unavailable (reason : string).

Definition Sandbox_workspace (root : string) : Sandbox := Provisioned (local_workspace root).

Definition is_network_action (k : ActionKind) : bool :=
  match k with
  | NetworkConnect | SshConnect | SftpTransfer
  | WebSearch | WebFetch | WebDownload | WebBrowser | WebSubmit | WebUpload => true
  | _ => false
  end.

Definition Sandbox_admit `{FileSystem} (sb : Sandbox) (e : NormalizedEffect)
    : result string () :=
  match sb with
  | Unavailable reason => Err ("sandbox unavailable: " ++ reason)%string
  | Provisioned scope =>
      if negb (effect_version e =? CapabilityVersion_V1)%N
      then Err ("unsupported capability version: CapabilityVersion("
                  ++ dec (effect_version e) ++ ")")%string
      else if negb (bool_decide (effect_origin e = origin (effect_action e)))
      then Err "effect origin does not match normalized action origin"
      else match target (effect_action e) with
      | None => Err "effect has no target"
      | Some t =>
          match effect_capability e with
          | WorkspaceRead =>
              if negb (bool_decide (kind (effect_action e) = ReadFile))
              then Err "WorkspaceRead capability requires ReadFile action"
              else if negb (scope_contains scope t)
              then Err "sandbox cannot prove read target is inside workspace scope"
              else Ok tt
          | WorkspaceWrite =>
              if negb (bool_decide (kind (effect_action e) = WriteFile))
              then Err "WorkspaceWrite capability requires WriteFile action"
              else if negb (contains_write_target scope t)
              then Err "sandbox cannot prove write target is inside workspace scope"
              else Ok tt
          | ProcessSpawn =>
              if negb (bool_decide (kind (effect_action e) = SpawnProcess))
              then Err "ProcessSpawn capability requires SpawnProcess action"
              else Ok tt
          | CapNetworkConnect =>
              if negb (is_network_action (kind (effect_action e)))
              then Err "NetworkConnect capability requires network or web action"
              else if negb (allow_network scope)
              then Err "network is disabled in this sandbox scope"
              else Ok tt
          end
      end
  end.

Record EffectSeam := mkSeam {
  seam_policy : PolicyEngine;
  seam_sandbox : Sandbox;
  seam_mode : ExecutionMode;
  seam_gate : RiskGate;
}.

(** [with_admission] with the default gate in [Ask] mode; the policy engine is
    allocated by the caller. *)
Definition with_sandbox (policy : PolicyEngine) (sandbox : Sandbox) : EffectSeam :=
  mkSeam policy sandbox Ask DeterministicRiskGate.

Definition workspace_full (h : PolicyHeap) (root : string) : PolicyHeap * EffectSeam :=
  let '(h', p) := PolicyEngine_new h (local_workspace root) in
  (h', mkSeam p (Sandbox_workspace root) Ask DeterministicRiskGate).

Definition with_execution_mode (s : EffectSeam) (m : ExecutionMode) : EffectSeam :=
  mkSeam (seam_policy s) (seam_sandbox s) m (seam_gate s).

Definition risk_auto_allows_policy_deferral (s : EffectSeam) (e : NormalizedEffect) : bool :=
  match seam_mode s with
  | AcceptEdits | Auto | Bypass => true
  | Ask => is_read_only_effect e
  | Plan => false
  end.

(** The [unreachable!] arm repeats the denial handled first. *)
Definition combine (s : EffectSeam) (policy : PolicyDecision) (risk : RiskGateDecision)
    (e : NormalizedEffect) : EffectDecision :=
  match risk with
  | Risk_Deny reason => Eff_Deny reason
  | _ =>
      match policy with
      | Policy_Deny reason => Eff_Deny reason
      | Policy_Allow => Eff_Allow
      | Policy_NeedsApproval reason =>
          match risk with
          | Risk_Allow =>
              if risk_auto_allows_policy_deferral s e then Eff_Allow
              else Eff_NeedsApproval reason
          | Risk_NeedsHumanApproval risk_reason => Eff_NeedsApproval risk_reason
          | Risk_Deny reason => Eff_Deny reason
          end
      end
  end.

Section seam.
Context `{FileSystem} `{UrlCrate}.

Definition seam_admit (h : PolicyHeap) (s : EffectSeam) (e : NormalizedEffect)
    (argv : option (list string)) : EffectDecision :=
  match Sandbox_admit (seam_sandbox s) e with
  | Err reason => Eff_Deny reason
  | Ok _ =>
      let policy := evaluate h (seam_policy s) (effect_action e) in
      match policy with
      | Policy_Deny reason => Eff_Deny reason
      | _ =>
          if negb (is_mutating_tool_allowed (seam_mode s)) && is_mutating_effect e
          then Eff_Deny "execution mode PLAN denies mutating effects"
          else
            let risk := @classify (seam_gate s) (mkRiskContext (seam_mode s) e argv) in
            combine s policy risk e
      end
  end.

Definition decide_with_argv := seam_admit.
Definition seam_decide (h : PolicyHeap) (s : EffectSeam) (e : NormalizedEffect) :=
  decide_with_argv h s e None.

Definition request_with_argv `{Codec} (approval_id : Uuid) (h : PolicyHeap)
    (s : EffectSeam) (e : NormalizedEffect) (intent_revision : N)
    (argv : option (list string)) : EffectAdmission :=
  match seam_admit h s e argv with
  | Eff_Allow => Adm_Allow (mkAdmitted e intent_revision)
  | Eff_NeedsApproval reason =>
      Adm_NeedsApproval (mkDeferred e
        (pending_with_version approval_id (effect_action e) reason intent_revision
           (Some (effect_version e))))
  | Eff_Deny reason => Adm_Deny reason
  end.

(** ** Execution *)

(** The world the capability code acts on, and its result. *)
Context {W E T : Type}.
Abbreviation Execution := (W → W * result E T).

Definition execute (h : PolicyHeap) (s : EffectSeam) (e : NormalizedEffect)
    (execution : Execution) : stateR W E (EffectExecution T) := λ w,
  match seam_decide h s e with
  | Eff_Allow => let '(w', r) := execution w in (w', Exec_Executed <$> r)
  | Eff_NeedsApproval reason => (w, Ok (Exec_NeedsApproval reason))
  | Eff_Deny reason => (w, Ok (Exec_Denied reason))
  end.

Context `{Codec} `{Json} `{DisplayStoreError} {St : Type} `{!EventStore St}.

(** A ledger of one session, with what the environment supplies to one fenced
    run: the map order, the fresh effect id and the rows' ids and times. *)
Record Ledger := mkLedger {
  ledger_session : Uuid;
  ledger_order : FenceMap → list EffectFenceRecord;
  ledger_effect_id : Uuid;
  ledger_tick : nat → Tick;
}.

Definition fence_prepare (l : Ledger) (e : NormalizedEffect)
    : stateR St string EffectInvocationIdentity := λ st,
  let digest := args_digest_for_effect e in
  match check_replay_safe (ledger_order l) (ledger_session l) digest st with
  | Ok AllowFresh =>
      let identity := identity_with_id e (ledger_effect_id l) in
      match prepare_and_start (ledger_tick l 0) (ledger_tick l 1) (ledger_session l) identity st with
      | (st', Ok _) => (st', Ok identity)
      | (st', Err err) => (st', Err (EffectFenceError_to_string err))
      end
  | Ok (AlreadyObserved _) =>
      (st, Err "effect fence already Observed — refuse blind replay")
  | Ok (AlreadyFailed reason) =>
      (st, Err ("effect fence already Failed — refuse blind replay ("
                  ++ default "" reason ++ ")")%string)
  | Ok (Refuse reason) => (st, Err reason)
  | Err err => (st, Err (EffectFenceError_to_string err))
  end.

(** [ledger.mark_*] whose result is dropped ([let _ = ..]). *)
Definition run_under_fence (e : NormalizedEffect) (l : Ledger) (execution : Execution)
    : stateR (St * W) E (EffectExecution T) := λ '(st, w),
  match fence_prepare l e st with
  | (st1, Err reason) => ((st1, w), Ok (Exec_Denied reason))
  | (st1, Ok identity) =>
      let sid := ledger_session l in
      match execution w with
      | (w', Ok value) =>
          match observe (ledger_tick l 2) sid identity "executed" st1 with
          | (st2, Ok _) => ((st2, w'), Ok (Exec_Executed value))
          | (st2, Err err) =>
              let msg := EffectFenceError_to_string err in
              let st3 := (mark_unknown (ledger_tick l 3) sid identity
                 ("observe persist failed after execution: " ++ msg)%string st2).1 in
              ((st3, w'),
               Ok (Exec_Denied ("effect executed but fence observe failed: " ++ msg)%string))
          end
      | (w', Err err) =>
          let st2 := (mark_failed (ledger_tick l 2) sid identity "execution error" st1).1 in
          ((st2, w'), Err err)
      end
  end.

Definition execute_with_fence (h : PolicyHeap) (s : EffectSeam) (e : NormalizedEffect)
    (l : Ledger) (execution : Execution) : stateR (St * W) E (EffectExecution T) :=
  match seam_decide h s e with
  | Eff_NeedsApproval reason => StateR.ret (Exec_NeedsApproval reason)
  | Eff_Deny reason => StateR.ret (Exec_Denied reason)
  | Eff_Allow => run_under_fence e l execution
  end.

(** The nine conditions of the stale check, negated. *)
Definition approval_is_current (d : DeferredEffect) (r : ApprovalResolution)
    (current_intent_revision : N) : bool :=
  let a := deferred_approval d in
  let expected_fingerprint :=
    for_action_with_version (approval_action a) (approval_capability_version a) in
  negb (negb (bool_decide (approval_state a = Pending))
        || negb (bool_decide (resolution_resolver r = Resolver_User))
        || negb (resolution_accepted r)
        || negb (resolution_id r =? approval_id a)%N
        || negb (String.eqb (resolution_fingerprint r) expected_fingerprint)
        || negb (String.eqb (resolution_fingerprint r) (approval_fingerprint a))
        || negb (resolution_intent_revision r =? approval_intent_revision a)%N
        || negb (current_intent_revision =? approval_intent_revision a)%N
        || negb (bool_decide (effect_action (deferred_effect d) = approval_action a))).

Definition execute_after_approval_admitted (h : PolicyHeap) (s : EffectSeam)
    (d : DeferredEffect) (r : ApprovalResolution) (current_intent_revision : N)
    (ledger : option Ledger) (execution : AdmittedOperation → Execution)
    : stateR (St * W) E (EffectExecution T) :=
  let a := deferred_approval d in
  if negb (bool_decide (approval_capability_version a
                        = Some (effect_version (deferred_effect d))))
  then StateR.ret (Exec_Denied "capability version mismatch")
  else if negb (approval_is_current d r current_intent_revision)
  then StateR.ret (Exec_Denied "approval is missing, rejected, or stale")
  else match evaluate h (seam_policy s) (effect_action (deferred_effect d)) with
  | Policy_Deny reason => StateR.ret (Exec_Denied reason)
  | Policy_Allow =>
      StateR.ret (Exec_Denied "policy decision changed before approved execution")
  | Policy_NeedsApproval _ =>
      match Sandbox_admit (seam_sandbox s) (deferred_effect d) with
      | Ok _ =>
          let admission := mkAdmitted (deferred_effect d) current_intent_revision in
          match ledger with
          | Some l => run_under_fence (deferred_effect d) l (execution admission)
          | None => λ '(st, w),
              let '(w', res) := execution admission w in ((st, w'), Exec_Executed <$> res)
          end
      | Err reason => StateR.ret (Exec_Denied reason)
      end
  end.

Definition execute_after_approval_with_fence (h : PolicyHeap) (s : EffectSeam)
    (d : DeferredEffect) (r : ApprovalResolution) (rev : N) (l : Ledger)
    (execution : Execution) :=
  execute_after_approval_admitted h s d r rev (Some l) (λ _, execution).

Definition execute_after_approval (h : PolicyHeap) (s : EffectSeam) (d : DeferredEffect)
    (r : ApprovalResolution) (rev : N) (execution : Execution) :=
  execute_after_approval_admitted h s d r rev None (λ _, execution).

End seam.

(** ** Admission *)

Definition decision_rank (d : EffectDecision) : nat :=
  match d with Eff_Deny _ => 0 | Eff_NeedsApproval _ => 1 | Eff_Allow => 2 end.

(** What an agent may do unattended under a policy without overrides. *)
Definition unattended (s : EffectSeam) (e : NormalizedEffect) (argv : option (list string))
    : bool :=
  let a := effect_action e in
  let command := command_text argv a in
  match kind a, seam_mode s with
  | (ReadFile | WebSearch | WebFetch), _ => true
  | WriteFile, (AcceptEdits | Auto | Bypass) => true
  | SpawnProcess, Ask =>
      negb (is_opaque_shell argv command) && is_safe_readonly_command command
      && is_safe_readonly_command (command_text None a)
  | SpawnProcess, (AcceptEdits | Auto) =>
      negb (is_opaque_shell argv command) && is_safe_readonly_command command
  | SpawnProcess, Bypass => negb (is_opaque_shell argv command)
  | (WebDownload | WebBrowser | WebSubmit | WebUpload), (Ask | AcceptEdits | Auto | Bypass) =>
      allow_web_outbound (engine_scope (seam_policy s))
  | (NetworkConnect | SshConnect | SftpTransfer), Bypass => true
  | _, _ => false
  end.

Section admission.
Context `{FileSystem} `{UrlCrate}.

(** A capability only ever carries the kinds it is meant for. *)
Lemma sandbox_admit_capability sb e :
  Sandbox_admit sb e = Ok tt →
  effect_version e = 1%N ∧ effect_origin e = origin (effect_action e) ∧
  ∃ t, target (effect_action e) = Some t ∧
  match kind (effect_action e) with
  | ReadFile => effect_capability e = WorkspaceRead
  | WriteFile => effect_capability e = WorkspaceWrite
  | SpawnProcess => effect_capability e = ProcessSpawn
  | TmuxAttach => False
  | _ => effect_capability e = CapNetworkConnect
  end.
Proof.
  destruct sb as [scope|]; [|done]. unfold Sandbox_admit.
  destruct (N.eqb_spec (effect_version e) CapabilityVersion_V1) as [Hv|]; [|done].
  cbn [negb]. case_bool_decide; [|done]. cbn [negb].
  destruct (target (effect_action e)) as [t|]; [|done]. intros Hok.
  split; [done|]. split; [done|]. exists t. split; [done|].
  destruct (effect_capability e), (kind (effect_action e)); try done;
    (rewrite bool_decide_eq_false_2 in Hok by done; done).
Qed.

Lemma combine_allow s policy risk e :
  combine s policy risk e = Eff_Allow ↔
  (policy = Policy_Allow ∧ ∀ r, risk ≠ Risk_Deny r) ∨
  ((∃ r, policy = Policy_NeedsApproval r) ∧ risk = Risk_Allow ∧
   risk_auto_allows_policy_deferral s e = true).
Proof.
  unfold combine. destruct policy, risk, (risk_auto_allows_policy_deferral s e);
    naive_solver.
Qed.

(** An admission asks for approval only where the policy does. *)
Lemma admit_needs_approval h s e argv r :
  seam_admit h s e argv = Eff_NeedsApproval r →
  Sandbox_admit (seam_sandbox s) e = Ok tt ∧
  ∃ r', evaluate h (seam_policy s) (effect_action e) = Policy_NeedsApproval r'.
Proof.
  unfold seam_admit. destruct (Sandbox_admit _ e) as [[]|]; [|done]. intros Hd. split; [done|].
  destruct (evaluate _ _ _) as [|r'|?]; [|by exists r'|done].
  destruct (negb _ && _); [done|]. unfold combine in Hd.
  by destruct (classify _).
Qed.

Lemma combine_mono s s' policy risk risk' e :
  mode_rank (seam_mode s) ≤ mode_rank (seam_mode s') → risk_rank risk ≤ risk_rank risk' →
  decision_rank (combine s policy risk e) ≤ decision_rank (combine s' policy risk' e).
Proof.
  intros Hm Hr. unfold combine, risk_auto_allows_policy_deferral.
  destruct risk, risk'; cbn in Hr; try lia; destruct policy; cbn; try lia;
    destruct (seam_mode s), (seam_mode s'); cbn in *; try lia;
    destruct (is_read_only_effect e); cbn; lia.
Qed.

(** A more permissive execution mode never turns an admission stricter, for
    any risk gate that keeps the interface's law: raising the mode from PLAN
    over ASK, ACCEPT-EDITS and AUTO to BYPASS only moves decisions from deny
    over approval to allow. *)
Theorem admit_mode_mono h s m m' e argv :
  RiskGateLaws (seam_gate s) → mode_rank m ≤ mode_rank m' →
  decision_rank (seam_admit h (with_execution_mode s m) e argv)
    ≤ decision_rank (seam_admit h (with_execution_mode s m') e argv).
Proof.
  intros HG Hm. unfold seam_admit. cbn [with_execution_mode seam_sandbox seam_policy seam_gate seam_mode].
  destruct (Sandbox_admit _ e) as [[]|]; [|done].
  pose proof (@classify_mode_mono (seam_gate s) HG m m' e argv Hm) as Hr.
  assert (∀ p, decision_rank (combine (with_execution_mode s m) p
                (@classify (seam_gate s) (mkRiskContext m e argv)) e)
           ≤ decision_rank (combine (with_execution_mode s m') p
                (@classify (seam_gate s) (mkRiskContext m' e argv)) e)) as Hc.
  { intros p. by apply combine_mono. }
  assert (is_mutating_tool_allowed m = true → is_mutating_tool_allowed m' = true) as Hplan.
  { destruct m, m'; cbn in *; done || lia. }
  destruct (evaluate _ _ _); [| |done];
    (destruct (is_mutating_tool_allowed m); [rewrite Hplan by done; apply Hc|];
     destruct (is_mutating_effect e); [cbn; lia|]; rewrite !andb_false_r; apply Hc).
Qed.

(** C1: What an agent can do without a human, end to end, for the default gate
    and a policy without overrides: exactly what the sandbox admits, no hard
    policy denial or hard risk refusal stops, and the mode table lists.  In ASK
    mode no file is written and no command runs unless it is recognised as
    read-only; in PLAN mode nothing mutating passes; network connections need
    BYPASS; tmux attachment never passes. *)
Theorem agent_unattended_exactly h s e argv :
  seam_gate s = DeterministicRiskGate →
  read_overrides h (seam_policy s) = ∅ →
  origin (effect_action e) = Agent →
  seam_admit h s e argv = Eff_Allow ↔
  Sandbox_admit (seam_sandbox s) e = Ok tt ∧
  hard_deny (engine_scope (seam_policy s)) (effect_action e) = None ∧
  hard_refusal (mkRiskContext (seam_mode s) e argv) = false ∧
  unattended s e argv = true.
Proof.
  intros Hg Ho Ha. unfold seam_admit. rewrite evaluate_layered, Hg, Ho.
  unfold layered. rewrite lookup_empty.
  destruct (Sandbox_admit (seam_sandbox s) e) as [[]|] eqn:Hsb; [|naive_solver].
  apply sandbox_admit_capability in Hsb as (_ & _ & t & _ & Hcap).
  destruct (hard_deny _ _); [naive_solver|].
  set (ctx := mkRiskContext (seam_mode s) e argv).
  unfold classify. destruct (hard_refusal ctx) eqn:Hr.
  { destruct (classify_hard_refusal ctx Hr) as [r ->]. cbn [combine].
    destruct (table_decision _ _); try destruct (negb _ && _); naive_solver. }
  rewrite (classify_soft ctx Hr). clear Hr.
  match goal with |- ?D = Eff_Allow ↔ _ =>
    enough (D = Eff_Allow ↔ unattended s e argv = true) as Hiff
      by (rewrite Hiff; clear; naive_solver)
  end.
  unfold soft_classify, ctx. cbn [risk_effect risk_argv risk_mode]. rewrite Ha.
  rewrite (bool_decide_eq_false_2 (Agent = User)) by done.
  unfold table_decision, unattended, combine, risk_auto_allows_policy_deferral,
    is_mutating_effect, is_read_only_effect. rewrite Ha.
  unfold classify_workspace_write, classify_process_spawn, classify_outbound_web,
    classify_network_like.
  set (opaque := is_opaque_shell _ _). set (safe := is_safe_readonly_command (command_text argv _)).
  set (safe' := is_safe_readonly_command _). set (outbound := allow_web_outbound _).
  clearbody opaque safe safe' outbound.
  destruct (kind (effect_action e)); try done; rewrite Hcap; clear Hcap;
    first [rewrite bool_decide_eq_false_2 by done|rewrite bool_decide_eq_true_2 by done];
    destruct (seam_mode s); cbn; try done; destruct opaque; cbn; try done;
    destruct safe; cbn; try done; destruct safe', outbound; cbn; done.
Qed.

End admission.

(** ** Approvals *)

(** What a resumption after an approval needs. *)
Record resumable `{FileSystem} `{UrlCrate} `{Codec} (h : PolicyHeap) (s : EffectSeam)
    (d : DeferredEffect) (r : ApprovalResolution) (rev : N) : Prop := {
  res_version : approval_capability_version (deferred_approval d)
                  = Some (effect_version (deferred_effect d));
  res_pending : approval_state (deferred_approval d) = Pending;
  res_user : resolution_resolver r = Resolver_User;
  res_accepted : resolution_accepted r = true;
  res_id : resolution_id r = approval_id (deferred_approval d);
  res_bound : resolution_fingerprint r =
    for_action_with_version (approval_action (deferred_approval d))
      (approval_capability_version (deferred_approval d));
  res_fingerprint : resolution_fingerprint r = approval_fingerprint (deferred_approval d);
  res_revision : resolution_intent_revision r = approval_intent_revision (deferred_approval d);
  res_current : rev = approval_intent_revision (deferred_approval d);
  res_action : effect_action (deferred_effect d) = approval_action (deferred_approval d);
  res_policy : ∃ reason, evaluate h (seam_policy s) (effect_action (deferred_effect d))
                           = Policy_NeedsApproval reason;
  res_sandbox : Sandbox_admit (seam_sandbox s) (deferred_effect d) = Ok tt;
}.

Section approvals.
Context `{FileSystem} `{UrlCrate} `{Codec} `{Json} `{DisplayStoreError}.
Context {St : Type} `{!EventStore St} {W E T : Type}.

Lemma approval_is_current_iff d r rev :
  approval_is_current d r rev = true ↔
  approval_state (deferred_approval d) = Pending ∧
  resolution_resolver r = Resolver_User ∧
  resolution_accepted r = true ∧
  resolution_id r = approval_id (deferred_approval d) ∧
  resolution_fingerprint r = for_action_with_version (approval_action (deferred_approval d))
      (approval_capability_version (deferred_approval d)) ∧
  resolution_fingerprint r = approval_fingerprint (deferred_approval d) ∧
  resolution_intent_revision r = approval_intent_revision (deferred_approval d) ∧
  rev = approval_intent_revision (deferred_approval d) ∧
  effect_action (deferred_effect d) = approval_action (deferred_approval d).
Proof.
  unfold approval_is_current.
  rewrite negb_true_iff, !orb_false_iff, !negb_false_iff, !bool_decide_eq_true,
    !N.eqb_eq, !String.eqb_eq. tauto.
Qed.

(** The resumption under the conditions, and without them. *)
Lemma approved_resumes h s d r rev (ledger : option Ledger)
    (execution : AdmittedOperation → W → W * result E T) (st : St) (w : W) :
  resumable h s d r rev →
  execute_after_approval_admitted h s d r rev ledger execution (st, w) =
  match ledger with
  | Some l => run_under_fence (deferred_effect d) l (execution (mkAdmitted (deferred_effect d) rev)) (st, w)
  | None => let '(w', res) := execution (mkAdmitted (deferred_effect d) rev) w in
      ((st, w'), Exec_Executed <$> res)
  end.
Proof.
  intros []. unfold execute_after_approval_admitted. rewrite bool_decide_eq_true_2 by done.
  cbn [negb]. rewrite (proj2 (approval_is_current_iff _ _ _)) by done. cbn [negb].
  destruct res_policy0 as [reason ->]. rewrite res_sandbox0. by destruct ledger.
Qed.

Lemma approved_stops h s d r rev (ledger : option Ledger)
    (execution : AdmittedOperation → W → W * result E T) (st : St) (w : W) :
  resumable h s d r rev ∨ ¬ resumable h s d r rev ∧
  ∃ reason, execute_after_approval_admitted h s d r rev ledger execution (st, w) =
     ((st, w), Ok (Exec_Denied reason)).
Proof.
  unfold execute_after_approval_admitted.
  case_bool_decide as Hv; cbn [negb]; [|right; split; [by intros []|by eexists]].
  destruct (approval_is_current d r rev) eqn:Hc; cbn [negb];
    [|right; split; [intros []; apply not_true_iff_false in Hc; apply Hc;
        by apply approval_is_current_iff|by eexists]].
  apply approval_is_current_iff in Hc as (? & ? & ? & ? & ? & ? & ? & ? & ?).
  destruct (evaluate _ _ _) as [|reason|] eqn:Hp;
    [right; split; [intros [? ? ? ? ? ? ? ? ? ? [? ?] ?]; congruence|by eexists]| |
     right; split; [intros [? ? ? ? ? ? ? ? ? ? [? ?] ?]; congruence|by eexists]].
  destruct (Sandbox_admit _ _) as [[]|] eqn:Hs;
    [|right; split; [intros []; congruence|by eexists]].
  left. by split; eauto.
Qed.

(** C2: After an approval the capability runs exactly when the approval is still
    pending, was accepted by the user for this very request (id, fingerprint,
    capability version, intent revision, action), the revision is current, the
    policy still asks for approval and the sandbox admits; in every other case
    the answer is a denial and neither the world nor the log is touched. *)
Theorem approved_execution_exact h s d r rev (ledger : option Ledger)
    (execution : AdmittedOperation → W → W * result E T) (st : St) (w : W) :
  let admission := mkAdmitted (deferred_effect d) rev in
  (resumable h s d r rev ∧
   execute_after_approval_admitted h s d r rev ledger execution (st, w) =
   match ledger with
   | Some l => run_under_fence (deferred_effect d) l (execution admission) (st, w)
   | None => let '(w', res) := execution admission w in ((st, w'), Exec_Executed <$> res)
   end) ∨
  (¬ resumable h s d r rev ∧
   ∃ reason, execute_after_approval_admitted h s d r rev ledger execution (st, w) =
     ((st, w), Ok (Exec_Denied reason))).
Proof.
  cbn zeta. destruct (approved_stops h s d r rev ledger execution st w) as [Hr|[Hr Hd]]; [left|by right].
  split; [done|by apply approved_resumes].
Qed.

(** A deferred effect that the user accepts is executed: requesting an effect
    that needs approval, and resuming it with the user's acceptance of that
    request at the same intent revision, runs the capability.  No other answer
    to the card runs it. *)
Theorem approval_roundtrip id h s e rev argv d accepted
    (execution : W → W * result E T) (st : St) (w : W) :
  request_with_argv id h s e rev argv = Adm_NeedsApproval d →
  execute_after_approval h s d (ApprovalResolution_user (deferred_approval d) accepted) rev
    execution (st, w) =
  if accepted
  then let '(w', res) := execution w in ((st, w'), Exec_Executed <$> res)
  else ((st, w), Ok (Exec_Denied "approval is missing, rejected, or stale")).
Proof.
  unfold request_with_argv. destruct (seam_admit h s e argv) eqn:Ha; [done| |done].
  intros [= <-]. apply admit_needs_approval in Ha as [Hs [r' Hp]].
  unfold execute_after_approval, execute_after_approval_admitted.
  cbn [deferred_effect deferred_approval pending_with_version approval_capability_version].
  rewrite bool_decide_eq_true_2 by done. cbn [negb].
  destruct accepted.
  - rewrite (proj2 (approval_is_current_iff _ _ _)) by done. cbn [negb].
    by rewrite Hp, Hs.
  - match goal with |- context[approval_is_current ?d ?r ?v] =>
      destruct (approval_is_current d r v) eqn:Hc end; [|done].
    by apply approval_is_current_iff in Hc as (_ & _ & Hacc & _).
Qed.

(** An approval is good for one action and capability version only: when the
    user's answer to one request lets another deferred effect run, the two
    requests have the same id, the same action and the same version, unless
    their fingerprints are a SHA-256 collision. *)
Theorem approval_not_transferable `{!CodecLaws} h s id1 a1 reason1 rev1 v1 d2 rev accepted
    (execution : W → W * result E T) (st : St) (w : W) st' res :
  let a2 := approval_action (deferred_approval d2) in
  let v2 := approval_capability_version (deferred_approval d2) in
  let pre := ("impetus-action-v1" ++ nul)%string in
  (sha256 (pre ++ fingerprint_payload a1 v1) = sha256 (pre ++ fingerprint_payload a2 v2) →
   (pre ++ fingerprint_payload a1 v1 = pre ++ fingerprint_payload a2 v2)%string) →
  execute_after_approval h s d2
    (ApprovalResolution_user (pending_with_version id1 a1 reason1 rev1 v1) accepted) rev
    execution (st, w) = (st', Ok (Exec_Executed res)) →
  accepted = true ∧ id1 = approval_id (deferred_approval d2) ∧
  effect_action (deferred_effect d2) = a1 ∧ Some (effect_version (deferred_effect d2)) = v1.
Proof.
  cbn zeta. intros Hcoll Hex. unfold execute_after_approval, execute_after_approval_admitted in Hex.
  case_bool_decide as Hv; [|done]. cbn [negb] in Hex.
  match type of Hex with context[approval_is_current ?d ?r ?v] =>
    destruct (approval_is_current d r v) eqn:Hc end; [|done].
  apply approval_is_current_iff in Hc as (_ & _ & Hacc & Hid & Hfp & _ & _ & _ & Hact).
  cbn in Hacc, Hid, Hfp. apply hex_inj, Hcoll, str_app_inj_l in Hfp.
  apply fingerprint_payload_inj in Hfp as [-> ->]. rewrite Hact. done.
Qed.

(** The resumption consults neither the execution mode nor the risk gate.
    When a mutating effect was deferred and the session is then switched to PLAN,
    asking again is denied, but the accepted approval still runs the effect. *)
Theorem plan_switch_does_not_stop_approved id h s e rev argv d
    (execution : W → W * result E T) (st : St) (w : W) :
  request_with_argv id h s e rev argv = Adm_NeedsApproval d →
  is_mutating_effect e = true →
  let planned := with_execution_mode s Plan in
  (∃ reason, seam_admit h planned e argv = Eff_Deny reason) ∧
  execute_after_approval h planned d
    (ApprovalResolution_user (deferred_approval d) true) rev execution (st, w) =
  let '(w', res) := execution w in ((st, w'), Exec_Executed <$> res).
Proof.
  intros Hreq Hmut. unfold request_with_argv in Hreq.
  destruct (seam_admit h s e argv) eqn:Ha; [done| |done]. injection Hreq as <-.
  apply admit_needs_approval in Ha as [Hs [r' Hp]]. split.
  - unfold seam_admit. cbn [with_execution_mode seam_sandbox seam_policy seam_mode].
    rewrite Hs, Hp, Hmut. by eexists.
  - unfold execute_after_approval, execute_after_approval_admitted.
    cbn [deferred_effect deferred_approval pending_with_version approval_capability_version
         with_execution_mode seam_policy seam_sandbox].
    rewrite bool_decide_eq_true_2 by done. cbn [negb].
    rewrite (proj2 (approval_is_current_iff _ _ _)) by done. cbn [negb].
    by rewrite Hp, Hs.
Qed.

End approvals.

(** A tmux attachment maps to an effect that no sandbox admits: it is built
    with the process capability, and that capability requires a spawn. *)
Theorem tmux_attach_never_admitted `{FileSystem} `{UrlCrate} h s a v e argv :
  kind a = TmuxAttach → normalized_effect_from_action a v = Some e →
  ∃ reason, seam_admit h s e argv = Eff_Deny reason.
Proof.
  intros Hk [= <-]. unfold seam_admit. rewrite Hk.
  destruct (Sandbox_admit _ _) as [[]|reason] eqn:Hs; [|by eexists].
  apply sandbox_admit_capability in Hs as (_ & _ & t & _ & Hcap).
  cbn in Hcap. by rewrite Hk in Hcap.
Qed.

(** ** Concrete runs *)

Section sample.
#[local] Existing Instances sample_fs sample_urls sample_codec sample_json.
#[local] Instance effects_display : DisplayStoreError := λ _, "store".

Definition sample_heap : PolicyHeap := (workspace_full ∅ "/ws").1.
Definition sample_seam : EffectSeam := (workspace_full ∅ "/ws").2.
Definition sample_write : NormalizedEffect := workspace_write Agent "write note" "src/a.rs".
Definition sample_run : nat → nat * result string nat := λ n, (S n, Ok n).

Lemma admit_mode_mono_witness :
  decision_rank (seam_admit sample_heap (with_execution_mode sample_seam Ask) sample_write None)
    ≤ decision_rank (seam_admit sample_heap (with_execution_mode sample_seam Auto) sample_write None)
  ∧ seam_admit sample_heap (with_execution_mode sample_seam Auto) sample_write None = Eff_Allow.
Proof.
  split; [|by vm_compute].
  apply (admit_mode_mono sample_heap sample_seam Ask Auto sample_write None).
  - exact deterministic_gate_laws.
  - cbn. lia.
Defined.

(** In ASK mode the write is not allowed unattended, and a [git status] is. *)
Lemma agent_unattended_witness :
  seam_admit sample_heap sample_seam sample_write None ≠ Eff_Allow ∧
  seam_admit sample_heap sample_seam (process_spawn Agent "git status" "/ws") None = Eff_Allow.
Proof.
  split.
  - intros Ha. apply (agent_unattended_exactly sample_heap sample_seam sample_write None)
      in Ha; [|reflexivity..]. destruct Ha as (_ & _ & _ & Hu). by vm_compute in Hu.
  - apply (agent_unattended_exactly sample_heap sample_seam
      (process_spawn Agent "git status" "/ws") None); [reflexivity..|].
    split_and!; by vm_compute.
Defined.

Definition sample_deferred : DeferredEffect :=
  mkDeferred sample_write
    (pending_with_version 9 (effect_action sample_write)
       "workspace write requires human approval in ASK mode" 4 (Some 1%N)).

Lemma approval_roundtrip_witness :
  execute_after_approval sample_heap sample_seam sample_deferred
    (ApprovalResolution_user (deferred_approval sample_deferred) true) 4 sample_run
    (MemoryEventStore_default, 0)
  = ((MemoryEventStore_default, 1), Ok (Exec_Executed 0)).
Proof.
  apply (approval_roundtrip 9 sample_heap sample_seam sample_write 4 None sample_deferred true
           sample_run MemoryEventStore_default 0).
  by vm_compute.
Defined.

Lemma approval_not_transferable_witness :
  true = true ∧ 9%N = approval_id (deferred_approval sample_deferred) ∧
  effect_action (deferred_effect sample_deferred) = effect_action sample_write ∧
  Some (effect_version (deferred_effect sample_deferred)) = Some 1%N.
Proof.
  apply (@approval_not_transferable _ _ _ _ effects_display MemoryEventStore _ nat string nat
    sample_codec_laws sample_heap sample_seam 9 (effect_action sample_write)
    "workspace write requires human approval in ASK mode" 4 (Some 1%N) sample_deferred 4 true
    sample_run MemoryEventStore_default 0 (MemoryEventStore_default, 1) 0).
  - intros _. reflexivity.
  - by vm_compute.
Defined.

Lemma plan_switch_witness :
  let planned := with_execution_mode sample_seam Plan in
  (∃ reason, seam_admit sample_heap planned sample_write None = Eff_Deny reason) ∧
  execute_after_approval sample_heap planned sample_deferred
    (ApprovalResolution_user (deferred_approval sample_deferred) true) 4 sample_run
    (MemoryEventStore_default, 0)
  = ((MemoryEventStore_default, 1), Ok (Exec_Executed 0)).
Proof.
  apply (plan_switch_does_not_stop_approved 9 sample_heap sample_seam sample_write 4 None
           sample_deferred sample_run MemoryEventStore_default 0); by vm_compute.
Defined.

Lemma tmux_attach_witness :
  ∃ reason, seam_admit sample_heap sample_seam
    (mkEffect User ProcessSpawn 1 (mkAction User TmuxAttach "attach" (Some "main"))) None
    = Eff_Deny reason.
Proof.
  apply (tmux_attach_never_admitted sample_heap sample_seam
    (mkAction User TmuxAttach "attach" (Some "main")) (Some 1%N)); reflexivity.
Defined.

End sample.
