(* ===== verification/FenceRuns.v ===== *)
(** * Fenced executions across stops and restarts

    A step relation over the durable rows and the capability calls of
    [run_under_fence] ([crates/impetus-core/src/effects.rs]): [run_step] is one
    run, [fence_step] any number of runs one after the other, where the process may
    stop after any step and start again with the log it left.  Executions are
    recorded by digest, and so are the runs that ended between their two write-ahead
    rows; an effect is shown to run at most once unless one of its own did. *)

From S2P Require Import Prelude Str Action Effect Events EventStore EffectFence Effects.

Open Scope string_scope.
Open Scope nat_scope.
Open Scope list_scope.
Open Scope impetus_scope.

(** Where a fenced run stands. *)
Inductive FencePhase :=
  | Idle
  | AtPrepared (i : EffectInvocationIdentity)
  | AtStarted (i : EffectInvocationIdentity)
  | Ran (i : EffectInvocationIdentity).

Section runs.
Context `{Codec} `{Json} `{DisplayStoreError} {St : Type} `{!EventStore St}.
Context (store_inv : St → Prop) `{!EventStoreLaws St store_inv}.
Context (sid : Uuid) {W E T : Type}.

Definition fence_records (st : St) : FenceMap :=
  match store_list sid st with Ok l => records_from_events l | Err _ => ∅ end.

(** [runs] lists the digests of the executed effects, the latest first, [stranded]
    those of the runs that ended after the row [Prepared] and before [Started]. *)
Record FenceConf := mkConf {
  conf_phase : FencePhase;
  conf_store : St;
  conf_world : W;
  conf_runs : list ArgsDigest;
  conf_stranded : list ArgsDigest;
}.

(** The row that closes a run, whatever became of the append. *)
Definition closing_row (i : EffectInvocationIdentity) (st st' : St) : Prop :=
  ∃ t note, (observe t sid i note st).1 = st' ∨ (mark_failed t sid i note st).1 = st' ∨
            (mark_unknown t sid i note st).1 = st'.

(** One run.  [fence_prepare] that fails ends it: without a trace before the row
    [Prepared], stranded after it. *)
Inductive run_step : FenceConf → FenceConf → Prop :=
  | step_prepare e l st st' w runs str rec :
      ledger_session l = sid → valid_order (ledger_order l) →
      fence_records st !! ledger_effect_id l = None →
      check_replay_safe (ledger_order l) sid (args_digest_for_effect e) st = Ok AllowFresh →
      let i := identity_with_id e (ledger_effect_id l) in
      ledger_prepare (ledger_tick l 0) sid i st = (st', Ok rec) →
      run_step (mkConf Idle st w runs str) (mkConf (AtPrepared i) st' w runs str)
  | step_prepare_err t i st st' w runs str err :
      ledger_prepare t sid i st = (st', Err err) →
      run_step (mkConf Idle st w runs str) (mkConf Idle st' w runs str)
  | step_start t i st st' w runs str rec :
      mark_started t sid i st = (st', Ok rec) →
      run_step (mkConf (AtPrepared i) st w runs str) (mkConf (AtStarted i) st' w runs str)
  | step_start_err t i st st' w runs str err :
      mark_started t sid i st = (st', Err err) →
      run_step (mkConf (AtPrepared i) st w runs str)
               (mkConf Idle st' w runs (identity_args_digest i :: str))
  | step_exec i (execution : W → W * result E T) st w w' runs str r :
      execution w = (w', r) →
      run_step (mkConf (AtStarted i) st w runs str)
               (mkConf (Ran i) st w' (identity_args_digest i :: runs) str)
  | step_close i st st' w runs str :
      closing_row i st st' →
      run_step (mkConf (Ran i) st w runs str) (mkConf (Ran i) st' w runs str).

(** The digest a run leaves behind when it ends here. *)
Definition strands (p : FencePhase) : list ArgsDigest :=
  match p with AtPrepared i => [identity_args_digest i] | _ => [] end.

(** Runs one after the other: the run is over, or the process stops, wherever it
    stands, and starts again. *)
Inductive fence_step : FenceConf → FenceConf → Prop :=
  | step_run c c' : run_step c c' → fence_step c c'
  | step_stop p st w runs str :
      fence_step (mkConf p st w runs str) (mkConf Idle st w runs (strands p ++ str)).

(** *** Rows and records *)

Lemma fence_append_records t f st st' r :
  store_inv st → fence_append t sid f st = (st', r) →
  store_inv st' ∧
  fence_records st' = match r with
                      | Ok _ => apply_fence_event (fence_records st) f
                      | Err _ => fence_records st
                      end.
Proof.
  intros Hinv. unfold fence_append.
  destruct (store_append_next _ _ _ _ st) as [st1 [e|err]] eqn:Ha; cbn; intros [= <- <-].
  - destruct (append_next_ok _ _ _ _ _ _ _ Hinv Ha) as (Hinv' & Hp & l & Hl & Hl' & _).
    split; [done|]. unfold fence_records. rewrite Hl, Hl', records_snoc.
    unfold apply_event. by rewrite Hp.
  - destruct (append_next_err _ _ _ _ _ _ _ Hinv Ha) as [Hinv' Hsame].
    split; [done|]. unfold fence_records. by rewrite Hsame.
Qed.

(** A ledger operation appends its row and returns its record. *)
Lemma bind_append_records {A} t f (a : A) st st' r :
  store_inv st → StateR.bind (fence_append t sid f) (λ _, StateR.ret a) st = (st', r) →
  store_inv st' ∧
  fence_records st' = match r with
                      | Ok _ => apply_fence_event (fence_records st) f
                      | Err _ => fence_records st
                      end.
Proof.
  intros Hinv. unfold StateR.bind, StateR.ret.
  destruct (fence_append t sid f st) as [st1 [[]|err]] eqn:Ha; intros [= <- <-];
    by apply (fence_append_records _ _ _ _ _ Hinv) in Ha.
Qed.

Lemma advance_entry_lookup m id id' d s note :
  advance_entry m id d s note !! id' =
  if (id =? id')%N then advance_entry m id d s note !! id else m !! id'.
Proof.
  destruct (N.eqb_spec id id') as [->|]; [done|]. unfold advance_entry.
  by rewrite lookup_insert_ne.
Qed.

Lemma advance_entry_own m id d s note :
  ∃ r, advance_entry m id d s note !! id = Some r ∧ record_digest r = d ∧ fence_state r = s.
Proof. unfold advance_entry. rewrite lookup_insert_eq. by eexists. Qed.

(** An identity's own record. *)
Definition has_record (m : FenceMap) (i : EffectInvocationIdentity) : Prop :=
  ∃ r, m !! identity_effect_id i = Some r ∧ record_digest r = identity_args_digest i.

(** [m'] differs from [m] in the record of [i] only, which keeps its digest and
    is not [Prepared] any more. *)
Definition advanced (i : EffectInvocationIdentity) (m m' : FenceMap) : Prop :=
  (∃ r, m' !! identity_effect_id i = Some r ∧ record_digest r = identity_args_digest i ∧
        fence_state r ≠ Prepared) ∧
  ∀ id, id ≠ identity_effect_id i → m' !! id = m !! id.

Lemma advance_entry_advanced m i s note :
  s ≠ Prepared →
  advanced i m (advance_entry m (identity_effect_id i) (identity_args_digest i) s note).
Proof.
  intros Hs. split.
  - destruct (advance_entry_own m (identity_effect_id i) (identity_args_digest i) s note)
      as (r & ? & ? & ?). exists r. by subst s.
  - intros id Hid. rewrite advance_entry_lookup. by rewrite (proj2 (N.eqb_neq _ _)).
Qed.

Lemma mark_started_records t i st st' r :
  store_inv st → mark_started t sid i st = (st', r) →
  store_inv st' ∧ match r with
                  | Ok _ => advanced i (fence_records st) (fence_records st')
                  | Err _ => fence_records st' = fence_records st
                  end.
Proof.
  intros Hinv Hm. apply (bind_append_records _ _ _ _ _ _ Hinv) in Hm as [? ->].
  split; [done|]. destruct r; [|done]. by apply advance_entry_advanced.
Qed.

Lemma closing_row_records i st st' :
  store_inv st → closing_row i st st' →
  store_inv st' ∧
  (fence_records st' = fence_records st ∨ advanced i (fence_records st) (fence_records st')).
Proof.
  intros Hinv (t & note & Hrow).
  assert (∀ (m : stateR St EffectFenceError EffectFenceRecord) f a,
    m = StateR.bind (fence_append t sid f) (λ _, StateR.ret a) →
    (∀ fm, advanced i fm (apply_fence_event fm f)) → (m st).1 = st' →
    store_inv st' ∧ (fence_records st' = fence_records st ∨
                     advanced i (fence_records st) (fence_records st'))) as Hgen.
  { intros m f a -> Hadv Hst. destruct (StateR.bind _ _ st) as [st1 r] eqn:Hb.
    cbn in Hst. subst st1. apply (bind_append_records _ _ _ _ _ _ Hinv) in Hb as [? ->].
    split; [done|]. destruct r; [right|left]; done. }
  destruct Hrow as [Hrow|[Hrow|Hrow]]; (eapply Hgen; [reflexivity| |exact Hrow]);
    intros fm; by apply advance_entry_advanced.
Qed.

(** *** The invariant of one digest *)

(** The executions of [d] so far. *)
Definition count_runs (d : ArgsDigest) (runs : list ArgsDigest) : nat :=
  length (List.filter (String.eqb d) runs).

Lemma count_runs_pos d runs : d ∈ runs → 0 < count_runs d runs.
Proof.
  intros Hin. unfold count_runs. destruct (List.filter _ _) eqn:Hf; [|cbn; lia].
  assert (d ∈ List.filter (String.eqb d) runs) as Hd.
  { rewrite list_elem_of_In, List.filter_In, <-list_elem_of_In. split; [done|]. apply String.eqb_refl. }
  rewrite Hf in Hd. by apply not_elem_of_nil in Hd.
Qed.

(** An execution of [d] leaves a record; there is room for one more only while
    there is none. *)
Definition runs_bounded (m : FenceMap) (d : ArgsDigest) (runs : list ArgsDigest) : Prop :=
  count_runs d runs ≤ 1 ∧ (count_runs d runs = 1 → digest_seen m d).

Definition phase_inv (m : FenceMap) (d : ArgsDigest) (p : FencePhase)
    (runs : list ArgsDigest) : Prop :=
  match p with
  | Idle => digest_settled m d ∧ runs_bounded m d runs
  | AtPrepared i =>
      has_record m i ∧ runs_bounded m d runs ∧
      (∀ id r, id ≠ identity_effect_id i → m !! id = Some r → record_digest r = d →
         fence_state r ≠ Prepared) ∧
      (identity_args_digest i = d → count_runs d runs = 0)
  | AtStarted i =>
      has_record m i ∧ digest_settled m d ∧ runs_bounded m d runs ∧
      (identity_args_digest i = d → count_runs d runs = 0)
  | Ran i => has_record m i ∧ digest_settled m d ∧ runs_bounded m d runs
  end.

Definition conf_inv (d : ArgsDigest) (c : FenceConf) : Prop :=
  store_inv (conf_store c) ∧
  (d ∉ conf_stranded c →
   phase_inv (fence_records (conf_store c)) d (conf_phase c) (conf_runs c)).

Lemma advanced_settled i m m' d :
  advanced i m m' →
  (∀ id r, id ≠ identity_effect_id i → m !! id = Some r → record_digest r = d →
     fence_state r ≠ Prepared) →
  digest_settled m' d.
Proof.
  intros [(r0 & Hr0 & _ & Hs0) Hother] Hset id r Hr Hd.
  destruct (decide (id = identity_effect_id i)) as [->|Hne]; [congruence|].
  rewrite Hother in Hr by done. eauto.
Qed.

Lemma advanced_has_record i m m' : advanced i m m' → has_record m' i.
Proof. intros [(r & ? & ? & _) _]. by exists r. Qed.

Lemma advanced_runs i m m' d runs :
  has_record m i → advanced i m m' → runs_bounded m d runs → runs_bounded m' d runs.
Proof.
  intros (r1 & Hr1 & Hd1) [(r0 & Hr0 & Hd0 & _) Hother] [Hle Hseen]. split; [done|].
  intros Hc. destruct (Hseen Hc) as (id & r & Hr & Hd).
  destruct (decide (id = identity_effect_id i)) as [->|Hne].
  - exists (identity_effect_id i), r0. split; [done|]. congruence.
  - exists id, r. by rewrite Hother.
Qed.

Lemma settled_allow_unseen order d st :
  store_inv st → valid_order order → digest_settled (fence_records st) d →
  check_replay_safe order sid d st = Ok AllowFresh → ¬ digest_seen (fence_records st) d.
Proof.
  intros Hinv Hord Hset Hc Hseen. destruct (list_total st sid Hinv) as [l Hl].
  unfold fence_records in *. rewrite Hl in Hset, Hseen.
  destruct (settled_refused order sid d st l Hord Hl Hseen Hset) as (dec & Hd & Hne).
  congruence.
Qed.

Lemma prepare_inv d e l st st' w runs str rec :
  ledger_session l = sid → valid_order (ledger_order l) →
  fence_records st !! ledger_effect_id l = None →
  check_replay_safe (ledger_order l) sid (args_digest_for_effect e) st = Ok AllowFresh →
  let i := identity_with_id e (ledger_effect_id l) in
  ledger_prepare (ledger_tick l 0) sid i st = (st', Ok rec) →
  conf_inv d (mkConf Idle st w runs str) → conf_inv d (mkConf (AtPrepared i) st' w runs str).
Proof.
  intros Hsid Hord Hfresh Hcheck i Hprep [Hinv Hph]. cbn [conf_store conf_runs conf_stranded] in *.
  apply (bind_append_records _ _ _ _ _ _ Hinv) in Hprep as [Hinv' Hrec].
  cbn [apply_fence_event] in Hrec. split; [done|].
  intros Hns. destruct (Hph Hns) as [Hset [Hle Hseen]].
  cbn [conf_store conf_runs conf_phase phase_inv]. rewrite Hrec.
  change (identity_effect_id i) with (ledger_effect_id l).
  split_and!.
  - eexists. rewrite lookup_insert_eq. done.
  - split; [done|]. intros Hc. destruct (Hseen Hc) as (id & r & Hr & Hd).
    exists id, r. rewrite lookup_insert_ne; [done|]. congruence.
  - intros id r Hne Hr Hd. rewrite lookup_insert_ne in Hr by done. eauto.
  - intros Hd. assert (count_runs d runs ≠ 1); [|lia]. intros Hc.
    rewrite <-Hd in Hset, Hseen, Hc. by eapply settled_allow_unseen; [..|apply Hseen].
Qed.

(** Where a run may end without a record of [d] that is still [Prepared]. *)
Lemma phase_left m d p runs :
  phase_inv m d p runs → d ∉ strands p → phase_inv m d Idle runs.
Proof.
  destruct p as [|i|i|i]; cbn; [done| |naive_solver..].
  intros (Hhas & Hruns & Hset & _) Hd. split; [|done]. intros id r Hr Hdr.
  destruct (decide (id = identity_effect_id i)) as [->|Hne]; [|by eapply Hset].
  destruct Hhas as (r0 & Hr0 & Hd0). destruct Hd. apply list_elem_of_singleton. congruence.
Qed.

Lemma run_step_inv d c c' : run_step c c' → conf_inv d c → conf_inv d c'.
Proof.
  intros Hstep. destruct Hstep as [e l st st' w runs str rec Hsid Hord Hfr Hc i Hp
    |t i st st' w runs str err Hp|t i st st' w runs str rec Hm|t i st st' w runs str err Hm
    |i execution st w w' runs str r Hex|i st st' w runs str Hrow]; [|intros [Hinv Hph]..].
  - intros Hinv. by apply (prepare_inv d e l st st' w runs str rec).
  - apply (bind_append_records _ _ _ _ _ _ Hinv) in Hp as [? Hr].
    split; [done|]. cbn in *. by rewrite Hr.
  - apply (mark_started_records _ _ _ _ _ Hinv) in Hm as [? Hadv].
    split; [done|]. intros Hns. destruct (Hph Hns) as (Hhas & Hruns & Hset & Hzero). cbn in *. split_and!.
    + by eapply advanced_has_record.
    + by eapply advanced_settled.
    + by eapply advanced_runs.
    + done.
  - apply (mark_started_records _ _ _ _ _ Hinv) in Hm as [? Hr].
    split; [done|]. cbn in *. rewrite Hr. intros [Hd Hns]%not_elem_of_cons.
    apply (phase_left _ _ (AtPrepared i)); [by apply Hph|]. by intros ?%list_elem_of_singleton.
  - split; [done|]. intros Hns. destruct (Hph Hns) as (Hhas & Hset & [Hle Hseen] & Hzero). cbn in *.
    split_and!; [done|done|].
    unfold runs_bounded, count_runs in *. cbn [List.filter].
    destruct (String.eqb_spec d (identity_args_digest i)) as [Hd|]; [|done].
    cbn [length]. rewrite (Hzero (eq_sym Hd)). split; [done|]. intros _.
    destruct Hhas as (r0 & Hr0 & Hd0). eexists _, r0. split; [done|]. congruence.
  - apply (closing_row_records _ _ _ Hinv) in Hrow as [? [Hr|Hadv]]; (split; [done|]); cbn in *.
    + by rewrite Hr.
    + intros Hns. destruct (Hph Hns) as (Hhas & Hset & Hruns).
      split_and!; [by eapply advanced_has_record| |by eapply advanced_runs].
      eapply advanced_settled; [done|]. intros id r _. apply Hset.
Qed.

Lemma fence_step_inv d c c' : fence_step c c' → conf_inv d c → conf_inv d c'.
Proof.
  intros [c1 c1' Hrun|p st w runs str]; [by apply run_step_inv|].
  intros [Hinv Hph]. split; [done|]. cbn in *. intros [Hd Hns]%not_elem_of_app.
  by apply (phase_left _ _ p); [apply Hph|].
Qed.

Lemma fence_steps_inv d c c' : rtc fence_step c c' → conf_inv d c → conf_inv d c'.
Proof. induction 1 as [|c1 c2 c3 Hs _ IH]; [done|]. intros Hc. apply IH. by eapply fence_step_inv. Qed.

(** *** A digest that was used *)

(** The log has a record of the digest, and none that is still [Prepared]. *)
Definition spent (d : ArgsDigest) (st : St) : Prop :=
  store_inv st ∧ digest_seen (fence_records st) d ∧ digest_settled (fence_records st) d.

Lemma spent_refuses l e st :
  ledger_session l = sid → valid_order (ledger_order l) → spent (args_digest_for_effect e) st →
  ∃ reason, fence_prepare l e st = (st, Err reason).
Proof.
  intros Hsid Hord (Hinv & Hseen & Hset). unfold fence_prepare. rewrite Hsid.
  destruct (check_replay_safe _ _ _ st) as [[]|] eqn:Hc; try by eexists.
  by destruct (settled_allow_unseen _ _ _ Hinv Hord Hset Hc).
Qed.

(** A row that is none of the fence's leaves the records alone. *)
Lemma append_keeps_records id now p st :
  (∀ e, p ≠ PayloadEffectFence e) → store_inv st →
  let st' := (store_append_next id now sid p st).1 in
  store_inv st' ∧ fence_records st' = fence_records st.
Proof.
  intros Hp Hinv. destruct (store_append_next id now sid p st) as [st' [e|err]] eqn:Ha; cbn.
  - destruct (append_next_ok _ _ _ _ _ _ _ Hinv Ha) as (Hinv' & He & l & Hl & Hl' & _).
    split; [done|]. unfold fence_records. rewrite Hl, Hl', records_snoc. unfold apply_event.
    rewrite He. destruct p; try done. by destruct (Hp e0).
  - destruct (append_next_err _ _ _ _ _ _ _ Hinv Ha) as [Hinv' Hsame].
    split; [done|]. unfold fence_records. by rewrite Hsame.
Qed.

(** The log after rows of others. *)
Definition quiet_step (st st' : St) : Prop :=
  ∃ id now p, (∀ e, p ≠ PayloadEffectFence e) ∧ st' = (store_append_next id now sid p st).1.

Lemma quiet_keeps_spent d st st' : rtc quiet_step st st' → spent d st → spent d st'.
Proof.
  induction 1 as [|st1 st2 st3 (id & now & p & Hp & ->) _ IH]; [done|].
  intros (Hinv & Hseen & Hset). apply IH.
  destruct (append_keeps_records id now p st1 Hp Hinv) as [Hinv' Hsame].
  unfold spent. by rewrite Hsame.
Qed.

(** A run that got as far as the capability has used its digest up. *)
Lemma run_spends c i st w d str :
  rtc fence_step c (mkConf (Ran i) st w [d] str) → d ∉ str → conf_inv d c → spent d st.
Proof.
  intros Hsteps Hns Hc. apply (fence_steps_inv d _ _ Hsteps) in Hc as [Hinv Hph].
  destruct (Hph Hns) as (_ & Hset & _ & Hseen).
  split; [done|]. split; [|done]. apply Hseen. unfold count_runs. cbn [conf_runs List.filter].
  by rewrite String.eqb_refl.
Qed.

Lemma idle_inv d st w : store_inv st → digest_settled (fence_records st) d → conf_inv d (mkConf Idle st w [] []).
Proof. intros Hinv Hset. split; [done|]. intros _. split; [done|]. split; [cbn; lia|done]. Qed.

Lemma run_steps_fence c c' : rtc run_step c c' → rtc fence_step c c'.
Proof. induction 1; [done|]. eapply rtc_l; [by apply step_run|done]. Qed.

(** C13: An effect runs at most once per session and digest, across any number of
    runs one after the other, failures of any append, stops of the process anywhere
    and restarts, as long as no run of that very digest ended between its two
    write-ahead rows (the append of [Started] failed, or the process stopped there):
    from a log whose records of the digest are settled, every reachable state
    without such a run has executed it at most once, and after an execution every
    replay check refuses it. *)
Theorem effect_runs_at_most_once d st0 w0 c :
  store_inv st0 → digest_settled (fence_records st0) d →
  rtc fence_step (mkConf Idle st0 w0 [] []) c → d ∉ conf_stranded c →
  count_runs d (conf_runs c) ≤ 1 ∧
  (d ∈ conf_runs c →
   ∀ order, valid_order order →
     check_replay_safe order sid d (conf_store c) ≠ Ok AllowFresh).
Proof.
  intros Hinv0 Hset0 Hsteps Hns.
  destruct (fence_steps_inv d _ _ Hsteps (idle_inv d st0 w0 Hinv0 Hset0)) as [Hinv Hph].
  specialize (Hph Hns).
  assert (runs_bounded (fence_records (conf_store c)) d (conf_runs c)) as [Hle Hseen].
  { destruct (conf_phase c); naive_solver. }
  split; [done|]. intros Hin%count_runs_pos order Hord Hcheck.
  assert (digest_settled (fence_records (conf_store c)) d) as Hset.
  { destruct (conf_phase c) as [|i|i|i] eqn:Hp; [naive_solver| |naive_solver..].
    apply (phase_left _ _ _ _ Hph). intros ->%list_elem_of_singleton.
    destruct Hph as (_ & _ & _ & Hzero). specialize (Hzero eq_refl). lia. }
  eapply settled_allow_unseen; [done|done|done|done|]. apply Hseen. lia.
Qed.

(** *** The function takes these steps *)

Lemma prepare_and_start_split t0 t1 i st :
  prepare_and_start t0 t1 sid i st =
  match ledger_prepare t0 sid i st with
  | (st1, Ok _) => mark_started t1 sid i st1
  | (st1, Err err) => (st1, Err err)
  end.
Proof. done. Qed.

(** The write-ahead rows of a run: it starts, ends at once, or is stranded. *)
Lemma fence_prepare_path e l st st' r (w : W) runs str :
  ledger_session l = sid → valid_order (ledger_order l) →
  fence_records st !! ledger_effect_id l = None →
  fence_prepare l e st = (st', r) →
  let i := identity_with_id e (ledger_effect_id l) in
  match r with
  | Ok i' => i' = i ∧
      rtc run_step (mkConf Idle st w runs str) (mkConf (AtStarted i) st' w runs str)
  | Err _ => ∃ str', (str' = str ∨ str' = args_digest_for_effect e :: str) ∧
      rtc run_step (mkConf Idle st w runs str) (mkConf Idle st' w runs str')
  end.
Proof.
  intros Hsid Hord Hfr. unfold fence_prepare. rewrite Hsid. cbv zeta.
  set (i := identity_with_id e (ledger_effect_id l)).
  destruct (check_replay_safe _ _ _ st) as [[]|] eqn:Hc;
    try (intros [= <- <-]; exists str; split; [by left|done]).
  rewrite prepare_and_start_split.
  destruct (ledger_prepare _ sid i st) as [st1 [rec|err]] eqn:Hp.
  2: { intros [= <- <-]. exists str. split; [by left|]. apply rtc_once. by eapply step_prepare_err. }
  assert (run_step (mkConf Idle st w runs str) (mkConf (AtPrepared i) st1 w runs str)) as S1.
  { by eapply (step_prepare e l). }
  destruct (mark_started _ sid i st1) as [st2 [rec2|err]] eqn:Hm; intros [= <- <-].
  - split; [done|]. eapply rtc_l; [exact S1|]. apply rtc_once. by eapply step_start.
  - eexists. split; [by right|]. eapply rtc_l; [exact S1|]. apply rtc_once. by eapply (step_start_err _ i).
Qed.

Lemma exec_path i (execution : W → W * result E T) c st w w' r runs str :
  rtc run_step c (mkConf (AtStarted i) st w runs str) → execution w = (w', r) →
  rtc run_step c (mkConf (Ran i) st w' (identity_args_digest i :: runs) str).
Proof. intros Hc Hex. eapply rtc_r; [exact Hc|]. by eapply step_exec. Qed.

Lemma observe_path t i note c st st' r w runs str :
  rtc run_step c (mkConf (Ran i) st w runs str) → observe t sid i note st = (st', r) →
  rtc run_step c (mkConf (Ran i) st' w runs str).
Proof.
  intros Hc Ho. eapply rtc_r; [exact Hc|]. apply step_close. eexists _, _. left. by rewrite Ho.
Qed.

Lemma mark_failed_path t i note c st w runs str :
  rtc run_step c (mkConf (Ran i) st w runs str) →
  rtc run_step c (mkConf (Ran i) (mark_failed t sid i note st).1 w runs str).
Proof.
  intros Hc. eapply rtc_r; [exact Hc|]. apply step_close. eexists _, _. right; left. reflexivity.
Qed.

Lemma mark_unknown_path t i note c st w runs str :
  rtc run_step c (mkConf (Ran i) st w runs str) →
  rtc run_step c (mkConf (Ran i) (mark_unknown t sid i note st).1 w runs str).
Proof.
  intros Hc. eapply rtc_r; [exact Hc|]. apply step_close. eexists _, _. right; right. reflexivity.
Qed.

(** A run that passes both write-ahead rows executes and ends at [Ran]; one that does
    not ends where it began, stranded when the first row is there. *)
Lemma fenced_run_path e l (execution : W → W * result E T) st w st' w' res runs str :
  ledger_session l = sid → valid_order (ledger_order l) →
  fence_records st !! ledger_effect_id l = None →
  run_under_fence e l execution (st, w) = ((st', w'), res) →
  (∃ reason str', fence_prepare l e st = (st', Err reason) ∧
     res = Ok (Exec_Denied reason) ∧ w' = w ∧
     (str' = str ∨ str' = args_digest_for_effect e :: str) ∧
     rtc run_step (mkConf Idle st w runs str) (mkConf Idle st' w runs str')) ∨
  (∃ st1, let i := identity_with_id e (ledger_effect_id l) in
     fence_prepare l e st = (st1, Ok i) ∧
     rtc run_step (mkConf Idle st w runs str) (mkConf (AtStarted i) st1 w runs str) ∧
     w' = (execution w).1 ∧
     rtc run_step (mkConf (AtStarted i) st1 w runs str)
       (mkConf (Ran i) st' w' (args_digest_for_effect e :: runs) str) ∧
     (∀ v, res = Ok (Exec_Executed v) → (execution w).2 = Ok v) ∧
     (∀ err, (execution w).2 = Err err → res = Err err)).
Proof.
  intros Hsid Hord Hfr. unfold run_under_fence.
  destruct (fence_prepare l e st) as [st1 r] eqn:Hp.
  apply (fence_prepare_path _ _ _ _ _ w runs str Hsid Hord Hfr) in Hp. cbv zeta in Hp.
  destruct r as [i|reason]; [destruct Hp as [-> Hp]|destruct Hp as (str' & Hstr & Hp)].
  2: { intros [= <- <- <-]. left. by exists reason, str'. }
  intros Hrun. right. exists st1. cbv zeta. split; [done|]. split; [done|]. revert Hrun. rewrite Hsid.
  pose proof (rtc_refl run_step (mkConf (AtStarted (identity_with_id e (ledger_effect_id l))) st1 w runs str)) as Hx.
  destruct (execution w) as [w1 [v|err]] eqn:Hex;
    eapply exec_path in Hx; try exact Hex; cbn [fst snd].
  - destruct (observe _ sid _ "executed" st1) as [st3 r3] eqn:Ho.
    eapply observe_path in Hx; [|exact Ho].
    destruct r3 as [rec3|err]; intros [= <- <- <-]; (split_and!; [done| |congruence|done]); [exact Hx|].
    by apply mark_unknown_path.
  - intros [= <- <- <-]. split_and!; [done|by apply mark_failed_path|done|congruence].
Qed.

(** A run that executed has used its digest up; with the digest used up nothing
    runs. *)
Lemma fenced_run_spends e l (execution : W → W * result E T) st w st' w' v :
  store_inv st → digest_settled (fence_records st) (args_digest_for_effect e) →
  ledger_session l = sid → valid_order (ledger_order l) →
  fence_records st !! ledger_effect_id l = None →
  run_under_fence e l execution (st, w) = ((st', w'), Ok (Exec_Executed v)) →
  spent (args_digest_for_effect e) st'.
Proof.
  intros Hinv Hset Hsid Hord Hfr Hrun.
  destruct (fenced_run_path _ _ _ _ _ _ _ _ [] [] Hsid Hord Hfr Hrun)
    as [(? & ? & _ & ? & _)|(st1 & _ & Hp & _ & Hx & _)]; [done|].
  refine (run_spends _ _ _ _ _ _ (run_steps_fence _ _ (transitivity Hp Hx)) _ (idle_inv _ _ _ Hinv Hset)).
  apply not_elem_of_nil.
Qed.

Lemma spent_run_refused e l (execution : W → W * result E T) st w :
  ledger_session l = sid → valid_order (ledger_order l) → spent (args_digest_for_effect e) st →
  ∃ reason, run_under_fence e l execution (st, w) = ((st, w), Ok (Exec_Denied reason)).
Proof.
  intros Hsid Hord Hs. destruct (spent_refuses l e st Hsid Hord Hs) as [reason Hp].
  exists reason. unfold run_under_fence. by rewrite Hp.
Qed.

(** C15: Every outcome of a fenced run, from any log, is a path of the step relation,
    and the capability runs exactly when the run passes both write-ahead rows.
    Either the preparation fails: the run is denied with its reason, the world is
    untouched and the run ends without [Started].  Or both rows are appended: then
    the capability runs, once, between them and the closing row, the run ends at
    [Ran], a value is reported only if the capability returned it, and an error
    whenever it failed. *)
Theorem run_under_fence_steps e l (execution : W → W * result E T) st w st' w' res runs str :
  ledger_session l = sid → valid_order (ledger_order l) →
  fence_records st !! ledger_effect_id l = None →
  run_under_fence e l execution (st, w) = ((st', w'), res) →
  (∃ reason str', fence_prepare l e st = (st', Err reason) ∧
     res = Ok (Exec_Denied reason) ∧ w' = w ∧
     (str' = str ∨ str' = args_digest_for_effect e :: str) ∧
     rtc run_step (mkConf Idle st w runs str) (mkConf Idle st' w runs str')) ∨
  (∃ st1, let i := identity_with_id e (ledger_effect_id l) in
     fence_prepare l e st = (st1, Ok i) ∧
     rtc run_step (mkConf Idle st w runs str) (mkConf (AtStarted i) st1 w runs str) ∧
     w' = (execution w).1 ∧
     rtc run_step (mkConf (AtStarted i) st1 w runs str)
       (mkConf (Ran i) st' w' (args_digest_for_effect e :: runs) str) ∧
     (∀ v, res = Ok (Exec_Executed v) → (execution w).2 = Ok v) ∧
     (∀ err, (execution w).2 = Err err → res = Err err)).
Proof. apply fenced_run_path. Qed.

End runs.

(** ** A concrete run *)

Section sample.
#[local] Existing Instances sample_json sample_codec.
#[local] Instance fence_display : DisplayStoreError := λ _, "store".

Definition fence_store : MemoryEventStore :=
  (memory_create_session 1 100 0 MemoryEventStore_default).1.

Lemma fence_store_wf : store_wf fence_store.
Proof.
  apply (store_trace_refines [CmdCreate 1 100 0]).
  apply (trace_snoc [] MemoryEventStore_default (CmdCreate 1 100 0)); [apply trace_nil|]. vm_compute. split_and!; set_solver.
Qed.

Definition fence_ledger (effect_id : Uuid) : Ledger :=
  mkLedger 1 (λ m, (map_to_list m).*2) effect_id (λ n, (effect_id + N.of_nat n, 5)%N).

Definition bump : nat → nat * result string nat := λ n, (S n, Ok n).

Definition fence_effect : NormalizedEffect := workspace_write Agent "write" "out.txt".

(** The state after one fenced run. *)
Definition fence_after : MemoryEventStore * nat :=
  (run_under_fence fence_effect (fence_ledger 200) bump (fence_store, 0)).1.

Lemma run_under_fence_steps_witness :
  let run := run_step (E := string) (T := nat) (H1 := fence_display) 1 in
  let i := identity_with_id fence_effect 200 in
  fence_after.2 = 1 ∧ ∃ st1,
    rtc run (mkConf Idle fence_store 0 [] []) (mkConf (AtStarted i) st1 0 [] []) ∧
    rtc run (mkConf (AtStarted i) st1 0 [] [])
      (mkConf (Ran i) fence_after.1 1 [args_digest_for_effect fence_effect] []).
Proof.
  destruct (run_under_fence_steps 1 fence_effect (fence_ledger 200) bump
              fence_store 0 fence_after.1 1 (Ok (Exec_Executed 0)) [] [])
    as [(? & ? & _ & ? & _)|(st1 & _ & Hp & _ & Hx & _)];
    [reflexivity|by intros m|by vm_compute|by vm_compute|done|].
  split; [by vm_compute|]. exists st1. exact (conj Hp Hx).
Defined.

(** A second run of the same effect is refused. *)
Lemma effect_runs_at_most_once_witness :
  check_replay_safe (λ m, (map_to_list m).*2) 1 (args_digest_for_effect fence_effect)
    fence_after.1 ≠ Ok AllowFresh.
Proof.
  destruct (fenced_run_path 1 fence_effect (fence_ledger 200) bump
    fence_store 0 fence_after.1 1 (Ok (Exec_Executed 0)) [] [])
    as [(? & ? & _ & ? & _)|(st1 & _ & Hp & _ & Hx & _)];
    [reflexivity|by intros m|by vm_compute|by vm_compute|done|].
  pose proof (run_steps_fence _ _ _ (transitivity Hp Hx)) as Hsteps.
  apply (effect_runs_at_most_once store_wf 1 (args_digest_for_effect fence_effect)
           fence_store 0 _ fence_store_wf) in Hsteps as [_ Hrefuse].
  - apply Hrefuse; [by apply list_elem_of_here|by intros m].
  - intros id r Hr. by vm_compute in Hr.
  - apply not_elem_of_nil.
Defined.

(** The in-memory store behind a disk that refuses the appends marked [true]. *)
#[local] Instance flaky_store : EventStore (MemoryEventStore * list bool) := {|
  store_append_next id now session_id p := λ '(s, faults),
    match faults with
    | true :: faults' => ((s, faults'), Err (MissingSession session_id))
    | _ => let '(s', r) := store_append_next id now session_id p s in ((s', tail faults), r)
    end;
  store_list session_id := λ '(s, _), store_list session_id s;
|}.

(** A run whose row [Started] cannot be appended is denied and leaves [Prepared]
    behind; the effect runs in the second run, and in a third one again, although
    the process never stopped. *)
Example failed_start_runs_twice :
  let ledger (effect_id : Uuid) := mkLedger 1 (last_order 200) effect_id (λ n, (effect_id + N.of_nat n, 5)%N) in
  let run effect_id c := (run_under_fence fence_effect (ledger effect_id) bump c).1 in
  let first := run 200%N ((fence_store, [false; true]), 0) in
  first.2 = 0 ∧ (run 300%N first).2 = 1 ∧ (run 400%N (run 300%N first)).2 = 2.
Proof. by vm_compute. Qed.

End sample.
