(* ===== verification/Completion.v ===== *)
(** * Completion: obligations, evidence, the gate and the gap loop

    [crates/impetus-core/src/obligation_ledger.rs], [completion_gate.rs] and
    [gap_loop.rs].  A run may be recorded as completed only when the gate
    accepts it: a run that touched tools needs a successful observation in the
    session log, and no registered obligation may be open.  The gap loop
    retries an insufficient verdict a bounded number of times. *)

From S2P Require Import Prelude Str Action Events.

Open Scope string_scope.
Open Scope nat_scope.
Open Scope list_scope.
Open Scope impetus_scope.

(** ** Obligation ledger *)

Inductive ObligationStatus := ObligationOpen | ObligationFulfilled | ObligationCancelled.

#[export] Instance ObligationStatus_eq_dec : EqDecision ObligationStatus.
Proof. solve_decision. Defined.

Definition obligation_is_open (s : ObligationStatus) : bool :=
  match s with ObligationOpen => true | _ => false end.

Record Obligation := mkObligation {
  obligation_id : string;
  obligation_kind : string;
  obligation_summary : string;
  obligation_status : ObligationStatus;
}.

Inductive ObligationLedgerError :=
  | ObligationNotFound (id : string)
  | ObligationNotOpen (id : string) (status : ObligationStatus)
  | ObligationDuplicate (id : string).

Record ObligationLedger := mkObligationLedger { ledger_items : list Obligation }.

Definition ObligationLedger_new : ObligationLedger := mkObligationLedger [].

Definition obligation_get (id : string) (l : ObligationLedger) : option Obligation :=
  List.find (λ o, String.eqb (obligation_id o) id) (ledger_items l).

Definition open_required (l : ObligationLedger) : list Obligation :=
  List.filter (λ o, obligation_is_open (obligation_status o)) (ledger_items l).

Definition has_open_required (l : ObligationLedger) : bool :=
  existsb (λ o, obligation_is_open (obligation_status o)) (ledger_items l).

Definition missing_labels (l : ObligationLedger) : list string :=
  (λ o, "obligation:" ++ obligation_id o)%string <$> open_required l.

Definition obligation_register (id kind summary : string)
    : stateR ObligationLedger ObligationLedgerError Obligation :=
  l <-- StateR.get ;;
  if existsb (λ o, String.eqb (obligation_id o) id) (ledger_items l)
  then StateR.fail (ObligationDuplicate id)
  else
    let o := mkObligation id kind summary ObligationOpen in
    StateR.put (mkObligationLedger (ledger_items l ++ [o])) ;;;
    StateR.ret o.

(** The fresh id is an argument; [None] is the panic of [expect] when it is taken. *)
Definition obligation_register_new `{UuidText} (fresh : Uuid) (kind summary : string)
    (l : ObligationLedger) : ObligationLedger * option Obligation :=
  match obligation_register (uuid_to_string fresh) kind summary l with
  | (l', Ok o) => (l', Some o)
  | (l', Err _) => (l', None)
  end.

Definition with_status (s : ObligationStatus) (o : Obligation) : Obligation :=
  mkObligation (obligation_id o) (obligation_kind o) (obligation_summary o) s.

(** [iter_mut().find(..)] and the assignment through the reference: the first item
    with the id is updated in place. *)
Fixpoint set_status_items (id : string) (s : ObligationStatus) (items : list Obligation)
    : list Obligation * result ObligationLedgerError Obligation :=
  match items with
  | [] => ([], Err (ObligationNotFound id))
  | o :: os =>
      if String.eqb (obligation_id o) id then
        if negb (obligation_is_open (obligation_status o))
        then (o :: os, Err (ObligationNotOpen id (obligation_status o)))
        else (with_status s o :: os, Ok (with_status s o))
      else let '(os', r) := set_status_items id s os in (o :: os', r)
  end.

Definition obligation_set_status (id : string) (s : ObligationStatus)
    : stateR ObligationLedger ObligationLedgerError Obligation := λ l,
  let '(items, r) := set_status_items id s (ledger_items l) in (mkObligationLedger items, r).

Definition obligation_fulfill (id : string) := obligation_set_status id ObligationFulfilled.
Definition obligation_cancel (id : string) := obligation_set_status id ObligationCancelled.

(** ** Evidence *)

Record Evidence := mkEvidence {
  evidence_kind : string;
  evidence_id : string;
  evidence_summary : string;
  evidence_artifact_or_path : option string;
  evidence_created_sequence : option N;
}.

Inductive CompletionVerdict :=
  | VerdictAccepted
  | VerdictRejected (reason : string)
  | VerdictInsufficient (missing : list string).

Record CompletionClaim := mkCompletionClaim {
  claim_goal : string;
  claim_side_effects_occurred : bool;
}.

Record EvidenceBag := mkEvidenceBag {
  bag_items : list Evidence;
  bag_side_effects : bool;
}.

Definition EvidenceBag_default : EvidenceBag := mkEvidenceBag [] false.

Definition bag_push (e : Evidence) (b : EvidenceBag) : EvidenceBag :=
  mkEvidenceBag (bag_items b ++ [e]) true.

Definition bag_note_side_effect (b : EvidenceBag) : EvidenceBag :=
  mkEvidenceBag (bag_items b) true.

Definition bag_side_effects_occurred (b : EvidenceBag) : bool :=
  bag_side_effects b || negb (match bag_items b with [] => true | _ => false end).

Definition MAX_SUMMARY_BYTES : nat := 200.

Definition bound_summary (input : string) : string :=
  let trimmed := trim input in
  if String.length trimmed <=? MAX_SUMMARY_BYTES then trimmed
  else (str_prefix (floor_boundary MAX_SUMMARY_BYTES trimmed) trimmed ++ ellipsis)%string.

Definition observation_kind (o : ToolEventOutcome) : string :=
  match o with
  | OutcomeSuccess => "tool_observation"
  | OutcomeError | OutcomeDenied => "tool_observation_failed"
  | OutcomeApprovalRequired => "tool_observation_pending"
  end.

Section gate.
Context `{Json}.

Definition observation_summary (tool_name preview : string) (error : option string) : string :=
  let summary := (tool_name ++ ": " ++ bound_summary preview)%string in
  match error with
  | Some err =>
      if is_empty err then summary else (summary ++ " (" ++ bound_summary err ++ ")")%string
  | None => summary
  end.

(** The body of the loop of [from_session_events]. *)
Definition collect_event (b : EvidenceBag) (e : Event) : EvidenceBag :=
  match event_payload e with
  | PayloadTool (ToolObserved tool_call_id tool_name _ outcome preview artifact error) =>
      bag_push (mkEvidence (observation_kind outcome) tool_call_id
                  (observation_summary tool_name preview error)
                  (artifact_id <$> artifact) (Some (event_sequence e))) b
  | PayloadTool _ | PayloadSandbox _ => bag_note_side_effect b
  | _ => b
  end.

Definition is_run_event (e : Event) : bool :=
  match event_payload e with PayloadRun _ => true | _ => false end.

Definition is_run_started (run_id : Uuid) (e : Event) : bool :=
  match event_payload e with
  | PayloadRun (RunStarted id) => (id =? run_id)%N
  | _ => false
  end.

(** [for event in rest]: a run row breaks the loop. *)
Fixpoint collect_loop (b : EvidenceBag) (rest : list Event) : EvidenceBag :=
  match rest with
  | [] => b
  | e :: rest' => if is_run_event e then b else collect_loop (collect_event b e) rest'
  end.

Definition from_session_events (events : list Event) (run_id : Uuid) : EvidenceBag :=
  match rposition (is_run_started run_id) events with
  | None => EvidenceBag_default
  | Some start => collect_loop EvidenceBag_default (drop (S start) events)
  end.

(** ** The gate *)

Definition evaluate_evidence (c : CompletionClaim) (evidence : list Evidence)
    : CompletionVerdict :=
  if negb (claim_side_effects_occurred c) then VerdictAccepted
  else match evidence with
  | [] => VerdictInsufficient ["tool_observation"]
  | _ =>
      if existsb (λ e, String.eqb (evidence_kind e) "tool_observation") evidence
      then VerdictAccepted
      else if forallb (λ e, String.eqb (evidence_kind e) "tool_observation_pending") evidence
      then VerdictInsufficient ["tool_observation_success"]
      else VerdictRejected "no successful tool observation for side-effecting turn"
  end.

Definition check_obligations (l : ObligationLedger) : CompletionVerdict :=
  if negb (has_open_required l) then VerdictAccepted
  else VerdictInsufficient (missing_labels l).

Definition evaluate_with_obligations (c : CompletionClaim) (evidence : list Evidence)
    (l : ObligationLedger) : CompletionVerdict :=
  match evaluate_evidence c evidence with
  | VerdictAccepted => check_obligations l
  | other => other
  end.

Definition gate_evaluate (c : CompletionClaim) (evidence : list Evidence) : CompletionVerdict :=
  evaluate_with_obligations c evidence ObligationLedger_new.

Definition evaluate_run_with_obligations `{UuidText} (events : list Event) (run_id : Uuid)
    (l : ObligationLedger) : CompletionVerdict :=
  let bag := from_session_events events run_id in
  let c := mkCompletionClaim ("run:" ++ uuid_to_string run_id)%string
             (bag_side_effects_occurred bag) in
  evaluate_with_obligations c (bag_items bag) l.

Definition evaluate_run `{UuidText} (events : list Event) (run_id : Uuid) : CompletionVerdict :=
  evaluate_run_with_obligations events run_id ObligationLedger_new.

End gate.

(** ** The gap loop *)

Definition GAP_LOOP_MAX_ITERATIONS : N := 3.

Inductive GapLoopOutcome :=
  | GapAccepted
  | GapRejected (reason : string)
  | GapExhausted (missing : list string) (iterations : N)
  | GapFailed (reason : string).

Definition gap_fail_reason (o : GapLoopOutcome) : option string :=
  match o with
  | GapAccepted => None
  | GapRejected reason => Some ("completion gate rejected: " ++ reason)%string
  | GapExhausted missing iterations =>
      Some ("GapLoopExhausted after " ++ dec iterations ++ ": NeedsEvidence: missing "
              ++ join ", " missing)%string
  | GapFailed reason => Some reason
  end.

Definition gap_is_accepted (o : GapLoopOutcome) : bool :=
  match o with GapAccepted => true | _ => false end.

(** The two closures read and change the world [W]; their errors have a text. *)
Section gap_loop.
Context {W EvalErr FillErr : Type}.
Context (show_eval : EvalErr → string) (show_fill : FillErr → string).
Context (evaluate : W → W * result EvalErr CompletionVerdict).
Context (attempt_gap_fill : list string → W → W * result FillErr bool).

(** The [loop]; [None] when the fuel ends. *)
Fixpoint gap_loop (fuel : nat) (iterations : N) (w : W) : W * option GapLoopOutcome :=
  match fuel with
  | 0 => (w, None)
  | S fuel' =>
      let '(w1, verdict) := evaluate w in
      match verdict with
      | Err error => (w1, Some (GapFailed ("completion gate error: " ++ show_eval error)%string))
      | Ok VerdictAccepted => (w1, Some GapAccepted)
      | Ok (VerdictRejected reason) => (w1, Some (GapRejected reason))
      | Ok (VerdictInsufficient missing) =>
          if (GAP_LOOP_MAX_ITERATIONS <=? iterations)%N
          then (w1, Some (GapExhausted missing iterations))
          else
            let iterations := (iterations + 1)%N in
            let '(w2, filled) := attempt_gap_fill missing w1 in
            match filled with
            | Ok true => gap_loop fuel' iterations w2
            | Ok false => (w2, Some (GapExhausted missing iterations))
            | Err error => (w2, Some (GapFailed ("gap fill error: " ++ show_fill error)%string))
            end
      end
  end.

(** One evaluation more than the bound on fills. *)
Definition run_gap_loop (w : W) : W * option GapLoopOutcome :=
  gap_loop (S (N.to_nat GAP_LOOP_MAX_ITERATIONS)) 0 w.
End gap_loop.

(** ** Ledger lemmas *)

Definition ledger_ids (l : ObligationLedger) : list string := obligation_id <$> ledger_items l.

Inductive LedgerOp :=
  | OpRegister (id kind summary : string)
  | OpFulfill (id : string)
  | OpCancel (id : string).

Definition run_ledger_op (op : LedgerOp) (l : ObligationLedger) : ObligationLedger :=
  match op with
  | OpRegister id kind summary => (obligation_register id kind summary l).1
  | OpFulfill id => (obligation_fulfill id l).1
  | OpCancel id => (obligation_cancel id l).1
  end.

Lemma set_status_items_ids id s items :
  obligation_id <$> (set_status_items id s items).1 = obligation_id <$> items.
Proof.
  induction items as [|o os IH]; [done|]. cbn. case_match; [by case_match|].
  destruct (set_status_items id s os). cbn in *. by f_equal.
Qed.

(** The item with the id, if any, is the only one that changes. *)
Lemma set_status_items_lookup id s items i o :
  items !! i = Some o →
  ∃ o', (set_status_items id s items).1 !! i = Some o' ∧
        (o' = o ∨ obligation_id o = id ∧ obligation_status o = ObligationOpen ∧
                  o' = with_status s o).
Proof.
  revert i. induction items as [|p ps IH]; [done|]. intros i Hi. cbn.
  destruct (String.eqb_spec (obligation_id p) id) as [<-|].
  - destruct (obligation_status p) eqn:Hs; cbn; [|by eauto..].
    destruct i as [|i]; [|by eauto]. injection Hi as ->. eexists. split; [done|]. by right.
  - destruct i as [|i].
    + destruct (set_status_items id s ps). cbn in *. eauto.
    + destruct (IH i Hi) as (o' & ? & ?). exists o'. by destruct (set_status_items id s ps).
Qed.

Lemma run_ledger_op_nodup op l : NoDup (ledger_ids l) → NoDup (ledger_ids (run_ledger_op op l)).
Proof.
  unfold ledger_ids. intros Hnd. destruct op as [id kind summary|id|id]; cbn.
  - unfold obligation_register, StateR.bind, StateR.get. destruct (existsb _ _) eqn:He; [done|].
    cbn. rewrite fmap_app. apply NoDup_app. split_and!; [done| |apply NoDup_singleton].
    cbn. intros x (o & -> & Ho)%list_elem_of_fmap Hx%list_elem_of_singleton.
    rewrite existsb_false_iff in He. specialize (He o Ho). by apply String.eqb_neq in He.
  - unfold obligation_fulfill, obligation_set_status.
    pose proof (set_status_items_ids id ObligationFulfilled (ledger_items l)) as Hids.
    destruct (set_status_items _ _ _). cbn in *. by rewrite Hids.
  - unfold obligation_cancel, obligation_set_status.
    pose proof (set_status_items_ids id ObligationCancelled (ledger_items l)) as Hids.
    destruct (set_status_items _ _ _). cbn in *. by rewrite Hids.
Qed.

(** An operation leaves a settled obligation as it is, at its place. *)
Lemma run_ledger_op_settled op l i o :
  ledger_items l !! i = Some o → obligation_status o ≠ ObligationOpen →
  ledger_items (run_ledger_op op l) !! i = Some o.
Proof.
  intros Hi Hs. destruct op as [id kind summary|id|id]; cbn.
  - unfold obligation_register, StateR.bind, StateR.get. case_match; [done|].
    cbn. by apply lookup_app_l_Some.
  - unfold obligation_fulfill, obligation_set_status.
    destruct (set_status_items_lookup id ObligationFulfilled _ _ _ Hi) as (o' & Ho' & [->|?]);
      [|naive_solver]. by destruct (set_status_items _ _ _).
  - unfold obligation_cancel, obligation_set_status.
    destruct (set_status_items_lookup id ObligationCancelled _ _ _ Hi) as (o' & Ho' & [->|?]);
      [|naive_solver]. by destruct (set_status_items _ _ _).
Qed.

(** An open obligation is settled only by the operation that names it. *)
Lemma run_ledger_op_open op l i o :
  ledger_items l !! i = Some o → obligation_status o = ObligationOpen →
  ledger_items (run_ledger_op op l) !! i = Some o ∨
  op = OpFulfill (obligation_id o) ∨ op = OpCancel (obligation_id o).
Proof.
  intros Hi Hs. destruct op as [id kind summary|id|id]; cbn.
  - left. unfold obligation_register, StateR.bind, StateR.get. case_match; [done|].
    cbn. by apply lookup_app_l_Some.
  - unfold obligation_fulfill, obligation_set_status.
    destruct (set_status_items_lookup id ObligationFulfilled _ _ _ Hi) as (o' & Ho' & Hcase).
    destruct (set_status_items _ _ _). naive_solver.
  - unfold obligation_cancel, obligation_set_status.
    destruct (set_status_items_lookup id ObligationCancelled _ _ _ Hi) as (o' & Ho' & Hcase).
    destruct (set_status_items _ _ _). naive_solver.
Qed.

Lemma run_ledger_ops_open ops l i o :
  ledger_items l !! i = Some o → obligation_status o = ObligationOpen →
  OpFulfill (obligation_id o) ∉ ops → OpCancel (obligation_id o) ∉ ops →
  ledger_items (foldl (flip run_ledger_op) l ops) !! i = Some o.
Proof.
  revert l. induction ops as [|op ops IH]; intros l Hi Hs H1 H2; [done|]. cbn.
  apply IH; [|done|set_solver..].
  destruct (run_ledger_op_open op _ _ _ Hi Hs) as [|[->| ->]]; [done|set_solver..].
Qed.

Lemma has_open_required_false l :
  has_open_required l = false ↔
  ∀ o, o ∈ ledger_items l → obligation_status o ≠ ObligationOpen.
Proof.
  unfold has_open_required. rewrite existsb_false_iff.
  split; intros Hall o Ho; specialize (Hall o Ho); by destruct (obligation_status o).
Qed.

(** ** What the bag holds *)

Section gate_lemmas.
Context `{Json}.

Definition touches_tools (e : Event) : bool :=
  match event_payload e with PayloadTool _ | PayloadSandbox _ => true | _ => false end.

Definition observed (o : ToolEventOutcome) (e : Event) : Prop :=
  ∃ id name args preview art err,
    event_payload e = PayloadTool (ToolObserved id name args o preview art err).

(** The rows of a run: after its last start row, up to the next run row. *)
Definition run_window (events : list Event) (run_id : Uuid) (window : list Event) : Prop :=
  ∃ pre start post,
    events = pre ++ start :: window ++ post ∧
    is_run_started run_id start = true ∧
    (∀ e, e ∈ window ++ post → is_run_started run_id e = false) ∧
    (∀ e, e ∈ window → is_run_event e = false) ∧
    match post with [] => True | r :: _ => is_run_event r = true end.

Definition kind_in (k : string) (items : list Evidence) : Prop :=
  ∃ ev, ev ∈ items ∧ evidence_kind ev = k.

Lemma collect_loop_stop b post :
  match post with [] => True | r :: _ => is_run_event r = true end →
  collect_loop b post = b.
Proof. destruct post as [|r post]; [done|]. cbn. by intros ->. Qed.

Lemma collect_loop_window b window post :
  (∀ e, e ∈ window → is_run_event e = false) →
  match post with [] => True | r :: _ => is_run_event r = true end →
  collect_loop b (window ++ post) = foldl collect_event b window.
Proof.
  intros Hw Hpost. revert b. induction window as [|e w IH]; intros b; cbn.
  { by apply collect_loop_stop. }
  rewrite (Hw e) by set_solver. apply IH. set_solver.
Qed.

Lemma run_window_split events : ∃ window post,
  events = window ++ post ∧ (∀ e, e ∈ window → is_run_event e = false) ∧
  match post with [] => True | r :: _ => is_run_event r = true end.
Proof.
  induction events as [|e es (w & p & -> & Hw & Hp)]; [by exists [], []; set_solver|].
  destruct (is_run_event e) eqn:He.
  - exists [], (e :: w ++ p). set_solver.
  - exists (e :: w), p. split_and!; [done| |done]. set_solver.
Qed.

(** The bag of a run is the fold over its window, whichever way it is cut out. *)
Lemma from_session_events_window events run_id window :
  run_window events run_id window →
  from_session_events events run_id = foldl collect_event EvidenceBag_default window.
Proof.
  intros (pre & start & post & -> & Hstart & Hlater & Hw & Hpost). unfold from_session_events.
  rewrite (proj2 (rposition_some _ _ (length pre))) by (by exists pre, start, (window ++ post)).
  rewrite drop_app_ge, Nat.sub_succ_l, Nat.sub_diag by lia. cbn.
  by apply collect_loop_window.
Qed.

Lemma run_window_total events run_id :
  (∀ e, e ∈ events → is_run_started run_id e = false) ∨
  ∃ window, run_window events run_id window.
Proof.
  destruct (rposition (is_run_started run_id) events) as [i|] eqn:Hi.
  - right. apply rposition_some in Hi as (pre & start & rest & -> & _ & Hs & Hlater).
    destruct (run_window_split rest) as (window & post & -> & Hw & Hp).
    by exists window, pre, start, post.
  - left. by apply rposition_none.
Qed.

Lemma from_session_events_none events run_id :
  (∀ e, e ∈ events → is_run_started run_id e = false) →
  from_session_events events run_id = EvidenceBag_default.
Proof.
  intros Hnone. unfold from_session_events. by rewrite (proj2 (rposition_none _ _)).
Qed.

Lemma collect_event_effect b e :
  bag_side_effects (collect_event b e) = bag_side_effects b || touches_tools e.
Proof.
  unfold collect_event, touches_tools. destruct (event_payload e) as [| | | |t| | | | | | | | | | | |];
    cbn; rewrite ?orb_false_r, ?orb_true_r; try done. by destruct t.
Qed.

Lemma collect_event_kind b e k :
  kind_in k (bag_items (collect_event b e)) ↔
  kind_in k (bag_items b) ∨ ∃ o, observed o e ∧ observation_kind o = k.
Proof.
  unfold kind_in, observed, collect_event.
  destruct (event_payload e) as [| | | |t| | | | | | | | | | | |]; cbn; try naive_solver.
  destruct t as [| |? ? ? o| | | | |]; cbn; [naive_solver..| |naive_solver|naive_solver|naive_solver|naive_solver|naive_solver].
  setoid_rewrite elem_of_app. setoid_rewrite list_elem_of_singleton. split.
  - intros (ev & [?| ->] & <-); [by left; eauto|]. right. by eexists; split; [repeat eexists|].
  - intros [(ev & ? & <-)|(o' & (? & ? & ? & ? & ? & ? & [=]) & <-)]; [by eauto|].
    subst. eexists. split; [by right|done].
Qed.

Lemma collect_window_effect b window :
  bag_side_effects (foldl collect_event b window) = bag_side_effects b || existsb touches_tools window.
Proof.
  revert b. induction window as [|e w IH]; intros b; cbn; [by rewrite orb_false_r|].
  by rewrite IH, collect_event_effect, orb_assoc.
Qed.

Lemma collect_window_kind b window k :
  kind_in k (bag_items (foldl collect_event b window)) ↔
  kind_in k (bag_items b) ∨ ∃ e o, e ∈ window ∧ observed o e ∧ observation_kind o = k.
Proof.
  revert b. induction window as [|e w IH]; intros b; cbn; [set_solver|].
  rewrite IH, collect_event_kind. set_solver.
Qed.

Lemma observed_touches o e : observed o e → touches_tools e = true.
Proof. unfold touches_tools. by intros (? & ? & ? & ? & ? & ? & ->). Qed.

Definition window_bag (window : list Event) : EvidenceBag :=
  foldl collect_event EvidenceBag_default window.

Lemma window_bag_kind window k :
  kind_in k (bag_items (window_bag window)) ↔
  ∃ e o, e ∈ window ∧ observed o e ∧ observation_kind o = k.
Proof.
  unfold window_bag. rewrite collect_window_kind. unfold kind_in at 1. set_solver.
Qed.

Lemma window_bag_occurred window :
  bag_side_effects_occurred (window_bag window) = existsb touches_tools window.
Proof.
  unfold bag_side_effects_occurred, window_bag at 1. rewrite collect_window_effect. cbn.
  destruct (bag_items (window_bag window)) as [|ev items] eqn:Hitems; [by rewrite orb_false_r|].
  rewrite orb_true_r. symmetry. apply existsb_bool.
  destruct (proj1 (window_bag_kind window (evidence_kind ev))) as (e & o & He & Ho & _).
  { exists ev. rewrite Hitems. split; [by left|done]. }
  exists e. split; [done|]. by eapply observed_touches.
Qed.

Lemma existsb_kind k items :
  existsb (λ e, String.eqb (evidence_kind e) k) items = true ↔ kind_in k items.
Proof. rewrite existsb_bool. unfold kind_in. by setoid_rewrite String.eqb_eq. Qed.

Lemma kind_success window :
  kind_in "tool_observation" (bag_items (window_bag window)) ↔
  ∃ e, e ∈ window ∧ observed OutcomeSuccess e.
Proof.
  rewrite window_bag_kind. split.
  - intros (e & [] & ? & ? & ?); try discriminate. by exists e.
  - intros (e & ? & ?). by exists e, OutcomeSuccess.
Qed.

Lemma evaluate_window_accepts goal window :
  evaluate_evidence (mkCompletionClaim goal (bag_side_effects_occurred (window_bag window)))
    (bag_items (window_bag window)) = VerdictAccepted ↔
  (∀ e, e ∈ window → touches_tools e = false) ∨ ∃ e, e ∈ window ∧ observed OutcomeSuccess e.
Proof.
  rewrite <-kind_success, window_bag_occurred, <-existsb_false_iff.
  unfold evaluate_evidence. cbn [claim_side_effects_occurred].
  destruct (existsb touches_tools window); cbn; [|by intuition].
  destruct (bag_items (window_bag window)) as [|ev items] eqn:Hitems.
  { split; [done|]. intros [?|(? & ? & ?)]; [done|set_solver]. }
  rewrite <-existsb_kind. destruct (existsb _ (ev :: items)); [by intuition|].
  split; [by case_match|by intros [|]].
Qed.

Lemma run_bag events run_id :
  ∃ window, from_session_events events run_id = window_bag window ∧
    (run_window events run_id window ∨
     window = [] ∧ ∀ e, e ∈ events → is_run_started run_id e = false).
Proof.
  destruct (run_window_total events run_id) as [Hnone|(window & Hw)].
  - exists []. rewrite from_session_events_none by done. by split; [|right].
  - exists window. split; [by apply from_session_events_window|by left].
Qed.

Lemma run_window_started events run_id window :
  run_window events run_id window → ∃ e, e ∈ events ∧ is_run_started run_id e = true.
Proof. intros (pre & start & post & -> & ? & _). exists start. set_solver. Qed.

Lemma evaluate_run_accepts `{UuidText} events run_id l :
  evaluate_run_with_obligations events run_id l = VerdictAccepted ↔
  (∀ o, o ∈ ledger_items l → obligation_status o ≠ ObligationOpen) ∧
  (∀ window, run_window events run_id window →
     (∀ e, e ∈ window → touches_tools e = false) ∨
     ∃ e, e ∈ window ∧ observed OutcomeSuccess e).
Proof.
  unfold evaluate_run_with_obligations, evaluate_with_obligations, check_obligations.
  rewrite <-has_open_required_false.
  destruct (run_bag events run_id) as (window & Hbag & Hwin). rewrite Hbag.
  pose proof (evaluate_window_accepts ("run:" ++ uuid_to_string run_id)%string window) as Hacc.
  assert ((∀ window, run_window events run_id window →
     (∀ e, e ∈ window → touches_tools e = false) ∨
     ∃ e, e ∈ window ∧ observed OutcomeSuccess e) ↔
     (∀ e, e ∈ window → touches_tools e = false) ∨
     ∃ e, e ∈ window ∧ observed OutcomeSuccess e) as ->.
  { split.
    - intros Hall. destruct Hwin as [Hw|[-> _]]; [by apply Hall|left; set_solver].
    - intros Hone w Hw. rewrite <-(evaluate_window_accepts "") in Hone |- *.
      destruct Hwin as [Hw'|[-> Hnone]].
      + apply from_session_events_window in Hw, Hw'. unfold window_bag in *. by rewrite <-Hw, Hw'.
      + apply run_window_started in Hw as (e & He & Hs). by rewrite Hnone in Hs. }
  rewrite <-Hacc. destruct (evaluate_evidence _ _); [|naive_solver..].
  destruct (has_open_required l); naive_solver.
Qed.

(** C30: A run is accepted exactly when no registered obligation is open and, in
    the rows between its last start row and the next run row, either no tool and
    no sandbox was touched or some tool reported success.  A run with no start
    row counts as one that touched nothing. *)
Theorem completion_accepts_exactly `{UuidText} events run_id l :
  evaluate_run_with_obligations events run_id l = VerdictAccepted ↔
  (∀ o, o ∈ ledger_items l → obligation_status o ≠ ObligationOpen) ∧
  (∀ window, run_window events run_id window →
     (∀ e, e ∈ window → touches_tools e = false) ∨
     ∃ e, e ∈ window ∧ observed OutcomeSuccess e).
Proof. apply evaluate_run_accepts. Qed.

End gate_lemmas.

(** ** The rounds of the gap loop *)

Section gap_loop_lemmas.
Context {W EvalErr FillErr : Type}.
Context (show_eval : EvalErr → string) (show_fill : FillErr → string).
Context (evaluate : W → W * result EvalErr CompletionVerdict).
Context (attempt_gap_fill : list string → W → W * result FillErr bool).

(** [gap_rounds k w w']: [k] rounds, each an insufficient verdict and a fill that
    reports an attempt, lead from [w] to [w']. *)
Inductive gap_rounds : N → W → W → Prop :=
  | gap_rounds_none w : gap_rounds 0 w w
  | gap_rounds_more k w w1 w2 w3 missing :
      evaluate w = (w1, Ok (VerdictInsufficient missing)) →
      attempt_gap_fill missing w1 = (w2, Ok true) →
      gap_rounds k w2 w3 → gap_rounds (k + 1) w w3.

(** How the loop ends after [k] rounds. *)
Inductive gap_end (k : N) (w : W) : W → GapLoopOutcome → Prop :=
  | gap_end_accepted w' :
      evaluate w = (w', Ok VerdictAccepted) → gap_end k w w' GapAccepted
  | gap_end_rejected w' reason :
      evaluate w = (w', Ok (VerdictRejected reason)) → gap_end k w w' (GapRejected reason)
  | gap_end_eval_error w' err :
      evaluate w = (w', Err err) →
      gap_end k w w' (GapFailed ("completion gate error: " ++ show_eval err)%string)
  | gap_end_bound w' missing :
      evaluate w = (w', Ok (VerdictInsufficient missing)) → k = GAP_LOOP_MAX_ITERATIONS →
      gap_end k w w' (GapExhausted missing k)
  | gap_end_no_fill w1 w' missing :
      evaluate w = (w1, Ok (VerdictInsufficient missing)) → (k < GAP_LOOP_MAX_ITERATIONS)%N →
      attempt_gap_fill missing w1 = (w', Ok false) →
      gap_end k w w' (GapExhausted missing (k + 1))
  | gap_end_fill_error w1 w' missing err :
      evaluate w = (w1, Ok (VerdictInsufficient missing)) → (k < GAP_LOOP_MAX_ITERATIONS)%N →
      attempt_gap_fill missing w1 = (w', Err err) →
      gap_end k w w' (GapFailed ("gap fill error: " ++ show_fill err)%string).

Lemma gap_loop_sound fuel i w :
  (i ≤ GAP_LOOP_MAX_ITERATIONS)%N → (GAP_LOOP_MAX_ITERATIONS < i + N.of_nat fuel)%N →
  ∃ k w1 w2 o, gap_loop show_eval show_fill evaluate attempt_gap_fill fuel i w = (w2, Some o) ∧
    (i + k ≤ GAP_LOOP_MAX_ITERATIONS)%N ∧ gap_rounds k w w1 ∧ gap_end (i + k) w1 w2 o.
Proof.
  revert i w. induction fuel as [|fuel IH]; intros i w Hi Hfuel; [lia|].
  cbn [gap_loop]. destruct (evaluate w) as [w1 v] eqn:Hev.
  destruct v as [[|reason|missing]|err].
  - exists 0%N, w, w1, GapAccepted. rewrite N.add_0_r. by repeat econstructor.
  - exists 0%N, w, w1, (GapRejected reason). rewrite N.add_0_r. by repeat econstructor.
  - destruct (N.leb_spec GAP_LOOP_MAX_ITERATIONS i).
    { exists 0%N, w, w1, (GapExhausted missing i). rewrite N.add_0_r.
      split_and!; [done|done|constructor|by constructor; [|lia]]. }
    destruct (attempt_gap_fill missing w1) as [w2 [[]|err]] eqn:Hfill.
    + destruct (IH (i + 1)%N w2) as (k & w3 & w4 & o & -> & ? & ? & ?); [lia..|].
      exists (k + 1)%N, w3, w4, o. replace (i + (k + 1))%N with (i + 1 + k)%N by lia.
      split_and!; [done|lia| |done]. by econstructor.
    + exists 0%N, w, w2, (GapExhausted missing (i + 1)). rewrite N.add_0_r.
      split_and!; [done|lia|constructor|by econstructor].
    + exists 0%N, w, w2, (GapFailed ("gap fill error: " ++ show_fill err)%string).
      rewrite N.add_0_r. split_and!; [done|lia|constructor|by econstructor].
  - exists 0%N, w, w1, (GapFailed ("completion gate error: " ++ show_eval err)%string).
    rewrite N.add_0_r. by repeat econstructor.
Qed.

(** The gap loop always ends: after at most three rounds of an insufficient
    verdict and an attempted fill, in one last evaluation (and at most one more
    fill).  It reports acceptance only when that last evaluation accepted;
    everything else, errors, an exhausted bound and a fill that cannot proceed,
    is a failure with a reason. *)
Theorem run_gap_loop_ends w :
  ∃ k w1 w2 o,
    run_gap_loop show_eval show_fill evaluate attempt_gap_fill w = (w2, Some o) ∧
    (k ≤ GAP_LOOP_MAX_ITERATIONS)%N ∧ gap_rounds k w w1 ∧ gap_end k w1 w2 o ∧
    (gap_fail_reason o = None ↔ evaluate w1 = (w2, Ok VerdictAccepted)).
Proof.
  destruct (gap_loop_sound (S (N.to_nat GAP_LOOP_MAX_ITERATIONS)) 0 w)
    as (k & w1 & w2 & o & Hrun & Hk & Hrounds & Hend); [by vm_compute..|].
  exists k, w1, w2, o. split_and!; [done|done|done|done|].
  destruct Hend as [w' He|w' r He|w' e He|w' m He|w' w3 m He|w' w3 m e He]; cbn;
    rewrite He; by split.
Qed.
End gap_loop_lemmas.
