(* ===== verification/Projection.v ===== *)
(** * Session projection

    [crates/impetus-core/src/projection.rs]: the fold of a session's log into
    the state the runtime decides on (active run, pending approvals, intent
    revision, agent output).  [BTreeMap]s are [gmap]s: only lookups, insertions
    and removals are used. *)

From S2P Require Import Prelude Str Action Events.

Open Scope string_scope.
Open Scope nat_scope.
Open Scope list_scope.

Inductive ProjectionError :=
  | UnsupportedSchema (event_id : Uuid) (schema_version : N)
  | MixedSession (expected actual : Uuid)
  | NonContiguousSequence (expected actual : N).

(** [format!("{outcome:?}")] *)
Definition outcome_debug (o : ToolEventOutcome) : string :=
  match o with
  | OutcomeSuccess => "Success" | OutcomeError => "Error"
  | OutcomeDenied => "Denied" | OutcomeApprovalRequired => "ApprovalRequired"
  end.

Section projection.
Context `{Json}.

Record SessionProjection := mkProjection {
  proj_session_id : Uuid;
  proj_last_sequence : N;
  proj_latest_intent : option string;
  proj_latest_intent_revision : option N;
  proj_latest_plan : option string;
  proj_workspace_root : option string;
  proj_tool_summaries : gmap string string;
  proj_agent_output : string;
  proj_agent_chunk_ids : gmap Uuid N;
  proj_pending_approvals : gmap Uuid ApprovalRequest;
  proj_deferred_tools : gmap Uuid (string * string * Value);
  proj_active_run_id : option Uuid;
  proj_last_run_id : option Uuid;
  proj_outcome : option RunEvent;
  proj_execution_mode : ExecutionMode;
}.

Definition projection_init (session_id : Uuid) : SessionProjection :=
  mkProjection session_id 0 None None None None ∅ "" ∅ ∅ ∅ None None None Ask.

(** *** Assignments to fields *)

Definition set_last_sequence (n : N) (p : SessionProjection) : SessionProjection :=
  let '(mkProjection sid _ i ir pl w t o c a d ar lr out m) := p in
  mkProjection sid n i ir pl w t o c a d ar lr out m.
Definition set_intent (text : string) (revision : N) (p : SessionProjection) : SessionProjection :=
  let '(mkProjection sid n _ _ pl w t o c a d ar lr out m) := p in
  mkProjection sid n (Some text) (Some revision) pl w t o c a d ar lr out m.
Definition set_plan (summary : string) (p : SessionProjection) : SessionProjection :=
  let '(mkProjection sid n i ir _ w t o c a d ar lr out m) := p in
  mkProjection sid n i ir (Some summary) w t o c a d ar lr out m.
Definition set_workspace_root (root : string) (p : SessionProjection) : SessionProjection :=
  let '(mkProjection sid n i ir pl _ t o c a d ar lr out m) := p in
  mkProjection sid n i ir pl (Some root) t o c a d ar lr out m.
Definition set_tool_summary (name summary : string) (p : SessionProjection) : SessionProjection :=
  let '(mkProjection sid n i ir pl w t o c a d ar lr out m) := p in
  mkProjection sid n i ir pl w (<[name := summary]> t) o c a d ar lr out m.
Definition set_output (output : string) (chunks : gmap Uuid N) (p : SessionProjection)
    : SessionProjection :=
  let '(mkProjection sid n i ir pl w t _ _ a d ar lr out m) := p in
  mkProjection sid n i ir pl w t output chunks a d ar lr out m.
Definition set_approvals (approvals : gmap Uuid ApprovalRequest)
    (deferred : gmap Uuid (string * string * Value)) (p : SessionProjection)
    : SessionProjection :=
  let '(mkProjection sid n i ir pl w t o c _ _ ar lr out m) := p in
  mkProjection sid n i ir pl w t o c approvals deferred ar lr out m.
Definition set_run (active last : option Uuid) (outcome : option RunEvent)
    (p : SessionProjection) : SessionProjection :=
  let '(mkProjection sid n i ir pl w t o c a d _ _ _ m) := p in
  mkProjection sid n i ir pl w t o c a d active last outcome m.
Definition set_mode (mode : ExecutionMode) (p : SessionProjection) : SessionProjection :=
  let '(mkProjection sid n i ir pl w t o c a d ar lr out _) := p in
  mkProjection sid n i ir pl w t o c a d ar lr out mode.

(** *** The fold *)

Definition project_tool (t : ToolEvent) (p : SessionProjection) : SessionProjection :=
  match t with
  | ToolStarted name _ => set_tool_summary name "running" p
  | ToolFinished name summary _ => set_tool_summary name summary p
  | ToolOutput _ tool_name _ => set_tool_summary tool_name "running" p
  | ToolObserved _ tool_name _ outcome _ _ _ =>
      set_tool_summary tool_name (outcome_debug outcome) p
  | ToolDeferred approval_id tool_call_id tool_name arguments =>
      set_approvals (proj_pending_approvals p)
        (<[approval_id := (tool_call_id, tool_name, arguments)]> (proj_deferred_tools p)) p
  | _ => p
  end.

Definition project_agent (a : AgentEvent) (p : SessionProjection) : SessionProjection :=
  match a with
  | AgentChunk run_id chunk_id text _ =>
      let last := default 0%N (proj_agent_chunk_ids p !! run_id) in
      if (last <? chunk_id)%N
      then set_output (proj_agent_output p ++ text)%string
             (<[run_id := chunk_id]> (proj_agent_chunk_ids p)) p
      else set_output (proj_agent_output p) (<[run_id := last]> (proj_agent_chunk_ids p)) p
  | AgentFinal run_id text =>
      match proj_agent_chunk_ids p !! run_id with
      | None => set_output (proj_agent_output p ++ text)%string (proj_agent_chunk_ids p) p
      | Some _ => p
      end
  | AgentReasoningSummary _ _ => p
  end.

Definition run_event_id (r : RunEvent) : Uuid :=
  match r with
  | RunStarted id | RunCompleted id | RunFailed id _ | RunCancelled id
  | RunInterruptedUnknown id => id
  end.

Definition project_run (r : RunEvent) (p : SessionProjection) : SessionProjection :=
  match r with
  | RunStarted run_id => set_run (Some run_id) (Some run_id) None p
  | outcome =>
      if bool_decide (proj_active_run_id p = Some (run_event_id outcome))
      then set_run None (proj_last_run_id p) (Some outcome) p
      else p
  end.

Definition project_event (p : SessionProjection) (e : Event) : SessionProjection :=
  let p := set_last_sequence (event_sequence e) p in
  match event_payload e with
  | PayloadSession (SessionWorkspaceRoot root) => set_workspace_root root p
  | PayloadSession (SessionExecutionModeChanged mode) => set_mode mode p
  | PayloadIntent i => set_intent (intent_text i) (event_sequence e) p
  | PayloadPlan summary => set_plan summary p
  | PayloadTool t => project_tool t p
  | PayloadAgent a => project_agent a p
  | PayloadApproval (ApprovalRequested request) =>
      set_approvals (<[approval_id request := request]> (proj_pending_approvals p))
        (proj_deferred_tools p) p
  | PayloadApproval (ApprovalResolved request) =>
      set_approvals (delete (approval_id request) (proj_pending_approvals p))
        (delete (approval_id request) (proj_deferred_tools p)) p
  | PayloadRun r => project_run r p
  | _ => p
  end.

(** The checks the loop makes on an event before it looks at the payload. *)
Definition check_event (index : N) (session_id : Uuid) (e : Event) : result ProjectionError () :=
  if negb (event_schema_version e =? EVENT_SCHEMA_VERSION)%N
  then Err (UnsupportedSchema (event_id e) (event_schema_version e))
  else if negb (event_session_id e =? session_id)%N
  then Err (MixedSession session_id (event_session_id e))
  else if negb (event_sequence e =? index + 1)%N
  then Err (NonContiguousSequence (index + 1) (event_sequence e))
  else Ok tt.

Fixpoint reduce_loop (index : N) (p : SessionProjection) (events : list Event)
    : result ProjectionError SessionProjection :=
  match events with
  | [] => Ok p
  | e :: events' =>
      _ ← check_event index (proj_session_id p) e;
      reduce_loop (index + 1) (project_event p e) events'
  end.

Definition reduce (events : list Event) : result ProjectionError (option SessionProjection) :=
  match events with
  | [] => Ok None
  | first :: _ => Some <$> reduce_loop 0 (projection_init (event_session_id first)) events
  end.

(** ** When the fold succeeds *)

Lemma project_event_session p e : proj_session_id (project_event p e) = proj_session_id p.
Proof.
  destruct p. unfold project_event, project_tool, project_agent, project_run.
  cbn. repeat (case_match; cbn; try done).
Qed.

(** Events of one session at the current schema, numbered from [index + 1]. *)
Definition log_ok (session_id : Uuid) (index : N) (l : list Event) : Prop :=
  ∀ i e, l !! i = Some e →
    event_schema_version e = EVENT_SCHEMA_VERSION ∧ event_session_id e = session_id ∧
    event_sequence e = (index + N.of_nat i + 1)%N.

Lemma check_event_ok index sid e :
  check_event index sid e = Ok tt ↔
  event_schema_version e = EVENT_SCHEMA_VERSION ∧ event_session_id e = sid ∧
  event_sequence e = (index + 1)%N.
Proof.
  unfold check_event.
  destruct (N.eqb_spec (event_schema_version e) EVENT_SCHEMA_VERSION); cbn; [|naive_solver].
  destruct (N.eqb_spec (event_session_id e) sid); cbn; [|naive_solver].
  destruct (N.eqb_spec (event_sequence e) (index + 1)); cbn; naive_solver.
Qed.

Lemma log_ok_cons sid index e l :
  log_ok sid index (e :: l) ↔ check_event index sid e = Ok tt ∧ log_ok sid (index + 1) l.
Proof.
  rewrite check_event_ok. split.
  - intros Hl. split.
    + destruct (Hl 0 e eq_refl) as (? & ? & ?). split_and!; [done..|lia].
    + intros i e' Hi. destruct (Hl (S i) e' Hi) as (? & ? & ?). split_and!; [done..|lia].
  - intros [(? & ? & ?) Hl] [|i] e' Hi; cbn in Hi.
    + injection Hi as <-. split_and!; [done..|lia].
    + destruct (Hl i e' Hi) as (? & ? & ?). split_and!; [done..|lia].
Qed.

Lemma log_ok_snoc sid l e :
  log_ok sid 0 (l ++ [e]) ↔
  log_ok sid 0 l ∧ event_schema_version e = EVENT_SCHEMA_VERSION ∧
  event_session_id e = sid ∧ event_sequence e = N.of_nat (S (length l)).
Proof.
  split.
  - intros Hl. split.
    + intros i e' Hi. apply Hl. by apply lookup_app_l_Some.
    + destruct (Hl (length l) e) as (? & ? & ?); [by apply list_lookup_middle|].
      split_and!; [done..|lia].
  - intros (Hl & ? & ? & ?) i e' Hi. apply lookup_app_Some in Hi as [Hi|[Hlen Hi]]; [by apply Hl|].
    apply list_lookup_singleton_Some in Hi as [? <-]. split_and!; [done..|lia].
Qed.

Lemma reduce_loop_iff index p l p' :
  reduce_loop index p l = Ok p' ↔
  log_ok (proj_session_id p) index l ∧ p' = foldl project_event p l.
Proof.
  revert index p. induction l as [|e l IH]; intros index p; cbn.
  { split; [intros [= <-]; split; [|done]; by intros ? ?|by intros [_ ->]]. }
  rewrite log_ok_cons. destruct (check_event index (proj_session_id p) e) as [[]|]; cbn.
  - rewrite IH, project_event_session. naive_solver.
  - naive_solver.
Qed.

(** What a session's log projects to. *)
Definition project_log (sid : Uuid) (l : list Event) : SessionProjection :=
  foldl project_event (projection_init sid) l.

Lemma reduce_ok_iff l p :
  reduce l = Ok (Some p) ↔
  ∃ first l', l = first :: l' ∧ log_ok (event_session_id first) 0 l ∧
              p = project_log (event_session_id first) l.
Proof.
  unfold reduce, project_log. destruct l as [|first l']; [naive_solver|].
  set (p0 := projection_init (event_session_id first)).
  pose proof (reduce_loop_iff 0 p0 (first :: l')) as Hr.
  destruct (reduce_loop 0 p0 (first :: l')) as [q|e]; cbn.
  - destruct (proj1 (Hr q) eq_refl) as [Hok Hq]. split.
    + intros [= <-]. by exists first, l'.
    + intros (? & ? & [= <- <-] & _ & ->). by rewrite Hq.
  - split; [done|]. intros (? & ? & [= <- <-] & Hok & ->).
    by pose proof (proj2 (Hr (foldl project_event p0 (first :: l'))) (conj Hok eq_refl)).
Qed.

Lemma reduce_log_ok sid l : log_ok sid 0 l → l ≠ [] → reduce l = Ok (Some (project_log sid l)).
Proof.
  intros Hl Hne. destruct l as [|first l']; [done|]. apply reduce_ok_iff.
  destruct (Hl 0 first eq_refl) as (_ & <- & _). by exists first, l'.
Qed.

(** Events of two sessions in one listing: the fold stops at the first of the
    second session. *)
Lemma reduce_mixed sid l e rest :
  log_ok sid 0 l → l ≠ [] → event_schema_version e = EVENT_SCHEMA_VERSION →
  event_session_id e ≠ sid →
  reduce (l ++ e :: rest) = Err (MixedSession sid (event_session_id e)).
Proof.
  intros Hl Hne Hv Hs. destruct l as [|first l']; [done|].
  unfold reduce. cbn [app]. destruct (Hl 0 first eq_refl) as (_ & Hf & _).
  change (first :: l' ++ e :: rest) with ((first :: l') ++ e :: rest).
  assert (∀ index p, proj_session_id p = sid → log_ok sid index (first :: l') →
    reduce_loop index p ((first :: l') ++ e :: rest)
    = Err (MixedSession sid (event_session_id e))) as Hgen.
  { clear Hl Hf Hne. generalize (first :: l'). intros l. induction l as [|x l IH]; intros index p Hp Hok.
    - cbn. rewrite Hp. unfold check_event. rewrite Hv, N.eqb_refl. cbn.
      by rewrite (proj2 (N.eqb_neq _ _)).
    - cbn. rewrite Hp. apply log_ok_cons in Hok as [-> Hok]. cbn. apply IH; [|done].
      by rewrite project_event_session. }
  rewrite Hgen; [done|done|done].
Qed.

(** *** The fields after one more event *)

Ltac project_cases :=
  unfold project_event, project_tool, project_agent, project_run;
  repeat (case_match; cbn; try done); cbn; try done.

Lemma project_event_pending p e :
  proj_pending_approvals (project_event p e) =
  match event_payload e with
  | PayloadApproval (ApprovalRequested r) => <[approval_id r := r]> (proj_pending_approvals p)
  | PayloadApproval (ApprovalResolved r) => delete (approval_id r) (proj_pending_approvals p)
  | _ => proj_pending_approvals p
  end.
Proof. destruct p. project_cases. Qed.

Lemma project_event_intent p e :
  proj_latest_intent_revision (project_event p e) =
  match event_payload e with
  | PayloadIntent _ => Some (event_sequence e)
  | _ => proj_latest_intent_revision p
  end.
Proof. destruct p. project_cases. Qed.

Lemma project_event_run p e :
  (proj_active_run_id (project_event p e), proj_outcome (project_event p e)) =
  match event_payload e with
  | PayloadRun (RunStarted r) => (Some r, None)
  | PayloadRun r =>
      if bool_decide (proj_active_run_id p = Some (run_event_id r)) then (None, Some r)
      else (proj_active_run_id p, proj_outcome p)
  | _ => (proj_active_run_id p, proj_outcome p)
  end.
Proof. destruct p. project_cases. Qed.

Lemma project_event_mode p e :
  proj_execution_mode (project_event p e) =
  match event_payload e with
  | PayloadSession (SessionExecutionModeChanged m) => m
  | _ => proj_execution_mode p
  end.
Proof. destruct p. project_cases. Qed.

Lemma project_event_output p e :
  (proj_agent_output (project_event p e), proj_agent_chunk_ids (project_event p e)) =
  match event_payload e with
  | PayloadAgent (AgentChunk r c text _) =>
      if (default 0 (proj_agent_chunk_ids p !! r) <? c)%N
      then ((proj_agent_output p ++ text)%string, <[r := c]> (proj_agent_chunk_ids p))
      else (proj_agent_output p,
            <[r := default 0%N (proj_agent_chunk_ids p !! r)]> (proj_agent_chunk_ids p))
  | PayloadAgent (AgentFinal r text) =>
      match proj_agent_chunk_ids p !! r with
      | None => ((proj_agent_output p ++ text)%string, proj_agent_chunk_ids p)
      | Some _ => (proj_agent_output p, proj_agent_chunk_ids p)
      end
  | _ => (proj_agent_output p, proj_agent_chunk_ids p)
  end.
Proof.
  destruct p. unfold project_event, project_tool, project_agent, project_run.
  destruct (event_payload e) as [se| | | |te|ae|ap| | | | | | | | | |]; cbn; try done.
  - by destruct se.
  - by case_match; [|case_bool_decide..].
  - by destruct te.
  - destruct ae; cbn; [by case_match|by case_match|done].
  - by destruct ap.
Qed.

Lemma project_log_snoc sid l e :
  project_log sid (l ++ [e]) = project_event (project_log sid l) e.
Proof. unfold project_log. by rewrite foldl_app. Qed.

End projection.
