(* ===== verification/AgentRuntime.v ===== *)
(** * Agent runtime

    [crates/impetus-core/src/runtime.rs]: the operations on one session.  Every
    decision is made on the projection of the session's log at that moment and
    every change is an appended event, so the operations are written against
    the [EventStore] class, with the runtime's own fields (policy, workspace,
    obligations, deferred effects) beside the store.

    Fresh ids and the clock are arguments ([Tick]: the id and the time of the
    appended event); an artifact store is the function from the bytes to store to
    the reference it returns, if any.  Poisoned locks are not modelled. *)

From S2P Require Import Prelude Str Action PathScope WebSecurity Policy Effect.
From S2P Require Import RiskGate Events EventStore Budget EffectFence Effects Completion Projection.

Open Scope string_scope.
Open Scope nat_scope.
Open Scope list_scope.
Open Scope impetus_scope.

Inductive RuntimeStatus :=
  | StatusIdle | StatusAwaitingApproval | StatusRunning | StatusCompleted | StatusFailed
  | StatusCancelled | StatusInterruptedUnknown.

#[export] Instance RuntimeStatus_eq_dec : EqDecision RuntimeStatus.
Proof. solve_decision. Defined.

Inductive RuntimeError :=
  | RtStore (e : StoreError)
  | RtProjection (e : ProjectionError)
  | RtMissingSession (id : Uuid)
  | RtMissingApproval (id : Uuid)
  | RtApprovalNotPending (id : Uuid)
  | RtMissingIntentRevision
  | RtApprovalResolverNotUser (id : Uuid)
  | RtStaleApproval (id : Uuid)
  | RtDenied (reason : string)
  | RtInactiveRun (id : Uuid)
  | RtActiveRun (id : Uuid)
  | RtInvalidWorkspace (path : string).

Definition MAX_AGENT_CHUNK_EVENT_BYTES : nat := 16 * 1024.
Definition AGENT_CHUNK_PREVIEW_BYTES : nat := 256.
Definition MAX_SUMMARY_CHARS : nat := 2048.
Definition TOOL_OUTPUT_PREVIEW_CHARS : nat := 256.

(** [DurableArtifactStore::store(..).ok()] *)
Abbreviation ArtifactStore := (string → option ArtifactRef).

Definition truncate_agent_chunk_preview (input : string) : string :=
  if String.length input <=? AGENT_CHUNK_PREVIEW_BYTES then input
  else (str_prefix (floor_boundary AGENT_CHUNK_PREVIEW_BYTES input) input ++ ellipsis)%string.

Definition bound_agent_chunk_text (text : string) (artifact_store : option ArtifactStore)
    : string * option ArtifactRef :=
  if String.length text <=? MAX_AGENT_CHUNK_EVENT_BYTES then (text, None)
  else match artifact_store ≫= (λ store, store text) with
       | Some artifact => (truncate_agent_chunk_preview text, Some artifact)
       | None => (text, None)
       end.

Definition bound_reasoning_summary (trimmed : string) : string :=
  if MAX_SUMMARY_CHARS <? chars_count trimmed
  then (chars_take MAX_SUMMARY_CHARS trimmed ++ ellipsis)%string else trimmed.

Definition bound_tool_output (preview : string) : string :=
  let bounded := chars_take TOOL_OUTPUT_PREVIEW_CHARS preview in
  if TOOL_OUTPUT_PREVIEW_CHARS <? chars_count preview then (bounded ++ ellipsis)%string
  else bounded.

(** [SandboxScope { workspace_root, ..scope }] *)
Definition scope_at (root : string) (s : SandboxScope) : SandboxScope :=
  mkSandboxScope root (allow_network s) (allowed_hosts s) (allow_web_outbound s)
    (allow_private_network s).

(** The copy of the overrides gets a cell of its own. *)
Definition policy_for_workspace (h : PolicyHeap) (policy : PolicyEngine) (root : string)
    : PolicyHeap * PolicyEngine :=
  PolicyEngine_with_config h (scope_at root (engine_scope policy)) (PolicyEngine_config h policy).

(** The fields of a runtime beside the store. *)
Record AgentRuntime := mkAgentRuntime {
  ar_session_id : Uuid;
  ar_policy : PolicyEngine;
  ar_workspace_root : string;
  ar_budget : option BudgetChecker;
  ar_worktree_id : option string;
  ar_deferred_effects : gmap Uuid DeferredEffect;
  ar_obligation_ledger : ObligationLedger;
}.

Definition fresh_runtime (session_id : Uuid) (policy : PolicyEngine) (root : string)
    (worktree_id : option string) : AgentRuntime :=
  mkAgentRuntime session_id policy root None worktree_id ∅ ObligationLedger_new.

Section runtime.
Context `{Json} {St : Type} `{!EventStore St}.

Definition rt (A : Type) : Type := stateR St RuntimeError A.

(** *** Reading and appending *)

Definition record (t : Tick) (sid : Uuid) (p : EventPayload) : rt () := λ s,
  match store_append_next t.1 t.2 sid p s with
  | (s', Ok _) => (s', Ok tt)
  | (s', Err e) => (s', Err (RtStore e))
  end.

Definition rt_events (sid : Uuid) (s : St) : result RuntimeError (list Event) :=
  map_err RtStore (store_list sid s).

Definition projection (sid : Uuid) (s : St) : result RuntimeError SessionProjection :=
  l ← rt_events sid s;
  o ← map_err RtProjection (reduce l);
  ok_or o (RtMissingSession sid).

Definition get_projection (sid : Uuid) : rt SessionProjection := λ s, (s, projection sid s).

(** *** Intents and runs *)

Definition submit_intent_with_artifact_and_kind (t : Tick) (sid : Uuid) (text : string)
    (artifact : option ArtifactRef) (intent : UserPromptIntent) : rt () :=
  record t sid (PayloadIntent (IntentEvent_with_intent text intent artifact)).

Definition submit_intent_with_artifact (t : Tick) (sid : Uuid) (text : string)
    (artifact : option ArtifactRef) : rt () :=
  submit_intent_with_artifact_and_kind t sid text artifact Prompt.

Definition submit_intent (t : Tick) (sid : Uuid) (text : string) : rt () :=
  submit_intent_with_artifact t sid text None.

Definition start_run (t : Tick) (run_id : Uuid) (sid : Uuid) : rt Uuid :=
  p <-- get_projection sid ;;
  match proj_active_run_id p with
  | Some active => StateR.fail (RtActiveRun active)
  | None => record t sid (PayloadRun (RunStarted run_id)) ;;; StateR.ret run_id
  end.

Definition submit_intent_and_start_run_with_artifact (t t' : Tick) (run_id : Uuid) (sid : Uuid)
    (text : string) (artifact : option ArtifactRef) : rt Uuid :=
  p <-- get_projection sid ;;
  match proj_active_run_id p with
  | Some active => StateR.fail (RtActiveRun active)
  | None => submit_intent_with_artifact t sid text artifact ;;; start_run t' run_id sid
  end.

Definition submit_intent_and_start_run (t t' : Tick) (run_id : Uuid) (sid : Uuid) (text : string)
    : rt Uuid := submit_intent_and_start_run_with_artifact t t' run_id sid text None.

Definition is_started (r : RunEvent) : bool :=
  match r with RunStarted _ => true | _ => false end.

Definition finish_run (t : Tick) (sid : Uuid) (outcome : RunEvent) : rt () :=
  let run_id := run_event_id outcome in
  p <-- get_projection sid ;;
  if negb (bool_decide (proj_active_run_id p = Some run_id)) || is_started outcome
  then StateR.fail (RtInactiveRun run_id)
  else record t sid (PayloadRun outcome).

Definition status_of (p : SessionProjection) : RuntimeStatus :=
  if negb (bool_decide (proj_pending_approvals p = ∅)) then StatusAwaitingApproval
  else match proj_active_run_id p with
  | Some _ => StatusRunning
  | None =>
      match proj_outcome p with
      | Some (RunCompleted _) => StatusCompleted
      | Some (RunFailed _ _) => StatusFailed
      | Some (RunCancelled _) => StatusCancelled
      | Some (RunInterruptedUnknown _) => StatusInterruptedUnknown
      | Some (RunStarted _) => StatusRunning
      | None => StatusIdle
      end
  end.

Definition rt_status (sid : Uuid) : rt RuntimeStatus :=
  p <-- get_projection sid ;; StateR.ret (status_of p).

Definition rt_cancel (t : Tick) (sid : Uuid) : rt RuntimeStatus :=
  p <-- get_projection sid ;;
  match proj_active_run_id p with
  | None => rt_status sid
  | Some run_id => finish_run t sid (RunCancelled run_id) ;;; rt_status sid
  end.

Definition rt_active_run_id (sid : Uuid) (s : St) : result RuntimeError (option Uuid) :=
  p ← projection sid s; Ok (proj_active_run_id p).

Definition evaluate_completion_gate `{UuidText} (rt : AgentRuntime) (run_id : Uuid) (s : St)
    : result RuntimeError CompletionVerdict :=
  l ← rt_events (ar_session_id rt) s;
  Ok (evaluate_run_with_obligations l run_id (ar_obligation_ledger rt)).

(** *** Agent output *)

(** [default_store]: what opening the default artifact root gives. *)
Definition record_agent_chunk_with_store (t : Tick) (sid run_id : Uuid) (chunk_id : N)
    (text : string) (artifact_store default_store : option ArtifactStore) : rt bool :=
  p <-- get_projection sid ;;
  if negb (bool_decide (proj_active_run_id p = Some run_id))
  then StateR.fail (RtInactiveRun run_id)
  else if from_option (λ last, (chunk_id <=? last)%N) false (proj_agent_chunk_ids p !! run_id)
  then StateR.ret false
  else
    let owned_store :=
      match artifact_store with
      | None => if MAX_AGENT_CHUNK_EVENT_BYTES <? String.length text then default_store else None
      | Some _ => None
      end in
    let store := match artifact_store with Some a => Some a | None => owned_store end in
    let '(text, artifact) := bound_agent_chunk_text text store in
    record t sid (PayloadAgent (AgentChunk run_id chunk_id text artifact)) ;;;
    StateR.ret true.

Definition record_agent_chunk (t : Tick) (sid run_id : Uuid) (chunk_id : N) (text : string)
    (default_store : option ArtifactStore) : rt bool :=
  record_agent_chunk_with_store t sid run_id chunk_id text None default_store.

Definition record_agent_final (t : Tick) (sid run_id : Uuid) (text : string) : rt () :=
  p <-- get_projection sid ;;
  if negb (bool_decide (proj_active_run_id p = Some run_id))
  then StateR.fail (RtInactiveRun run_id)
  else
    let text :=
      if bool_decide (is_Some (proj_agent_chunk_ids p !! run_id))
         && (MAX_AGENT_CHUNK_EVENT_BYTES <? String.length text)
      then truncate_agent_chunk_preview text else text in
    record t sid (PayloadAgent (AgentFinal run_id text)).

Definition record_agent_reasoning_summary (t : Tick) (sid run_id : Uuid) (text : string)
    : rt bool :=
  p <-- get_projection sid ;;
  if negb (bool_decide (proj_active_run_id p = Some run_id))
  then StateR.fail (RtInactiveRun run_id)
  else
    let trimmed := trim text in
    if is_empty trimmed then StateR.ret false
    else
      record t sid (PayloadAgent (AgentReasoningSummary run_id (bound_reasoning_summary trimmed))) ;;;
      StateR.ret true.

(** *** Tools and children *)

Definition record_tool_started (t : Tick) (sid : Uuid) (name : string)
    (tool_call_id : option string) : rt () :=
  record t sid (PayloadTool (ToolStarted name tool_call_id)).

Definition record_tool_finished (t : Tick) (sid : Uuid) (name summary : string)
    (tool_call_id : option string) : rt () :=
  record t sid (PayloadTool (ToolFinished name summary tool_call_id)).

Definition record_tool_output (t : Tick) (sid : Uuid) (tool_call_id tool_name preview : string)
    : rt () :=
  record t sid (PayloadTool (ToolOutput tool_call_id tool_name (bound_tool_output preview))).

Definition record_deferred_tool (t : Tick) (sid approval_id : Uuid)
    (tool_call_id tool_name : string) (arguments : Value) : rt () :=
  record t sid (PayloadTool (ToolDeferred approval_id tool_call_id tool_name arguments)).

Definition rt_deferred_tool (sid approval_id : Uuid) (s : St)
    : result RuntimeError (option (string * string * Value)) :=
  p ← projection sid s; Ok (proj_deferred_tools p !! approval_id).

Definition emit_parent_child_event `{UuidText} (t : Tick) (parent_session_id : string)
    (event : ChildEvent) : rt () := λ s,
  match uuid_parse_str (trim parent_session_id) with
  | None => (s, Ok tt)
  | Some parent_id =>
      match store_append_next t.1 t.2 parent_id (PayloadChild event) s with
      | (s', Ok _) => (s', Ok tt)
      | (s', Err (MissingSession _)) => (s', Ok tt)
      | (s', Err e) => (s', Err (RtStore e))
      end
  end.

Definition record_child_started `{UuidText} (t : Tick) (sid : Uuid) (child_id role : string)
    : rt () := record t sid (PayloadChild (ChildStarted child_id (uuid_to_string sid) role)).

Definition record_child_status_changed (t : Tick) (sid : Uuid) (child_id status : string)
    (current_action : option string) : rt () :=
  record t sid (PayloadChild (ChildStatusChanged child_id status current_action)).

Definition record_child_progress (t : Tick) (sid : Uuid) (child_id : string) (percent : option N)
    (summary : string) : rt () :=
  record t sid (PayloadChild (ChildProgress child_id percent (bound_activity_preview summary))).

Definition record_child_action (t : Tick) (sid : Uuid) (child_id name preview : string) : rt () :=
  record t sid (PayloadChild (ChildAction child_id name (bound_activity_preview preview))).

Definition record_child_finished (t : Tick) (sid : Uuid) (child_id status : string)
    (summary error : option string) : rt () :=
  record t sid (PayloadChild (ChildFinished child_id status summary error)).

End runtime.

(** *** The reporter of a running child *)

Record ChildMidRunReporter := mkReporter {
  reporter_parent_session_id : string;
  reporter_child_id : string;
  progress_emitted : nat;
  last_progress : option string;
  action_emitted : nat;
}.

Definition reporter_new (parent_session_id child_id : string) : ChildMidRunReporter :=
  mkReporter parent_session_id child_id 0 None 0.

Section reporter.
Context `{Json} `{UuidText} {St : Type} `{!EventStore St}.

(** The outcome of the append is dropped. *)
Definition reporter_progress (t : Tick) (percent : option N) (summary : string)
    (x : ChildMidRunReporter * St) : ChildMidRunReporter * St :=
  let '(r, s) := x in
  match coalesce_child_progress (last_progress r) (progress_emitted r) summary with
  | (last, emitted, Some bounded) =>
      (mkReporter (reporter_parent_session_id r) (reporter_child_id r) emitted last
         (action_emitted r),
       (emit_parent_child_event t (reporter_parent_session_id r)
          (ChildProgress (reporter_child_id r) percent bounded) s).1)
  | (_, _, None) => (r, s)
  end.

Definition reporter_action (t : Tick) (name preview : string) (x : ChildMidRunReporter * St)
    : ChildMidRunReporter * St :=
  let '(r, s) := x in
  match coalesce_child_action (action_emitted r) preview with
  | (emitted, Some bounded) =>
      (mkReporter (reporter_parent_session_id r) (reporter_child_id r) (progress_emitted r)
         (last_progress r) emitted,
       (emit_parent_child_event t (reporter_parent_session_id r)
          (ChildAction (reporter_child_id r) name bounded) s).1)
  | (_, None) => (r, s)
  end.
End reporter.

(** *** Approvals *)

Section approvals.
Context `{Json} {St : Type} `{!EventStore St}.

Definition with_approval_state (s : ApprovalState) (r : ApprovalRequest) : ApprovalRequest :=
  mkApprovalRequest (approval_id r) (approval_action r) (approval_fingerprint r)
    (approval_capability_version r) (approval_intent_revision r) (approval_reason r) s.

Definition resolve_approval (t : Tick) (sid : Uuid) (r : ApprovalResolution) : rt (St := St) () :=
  p <-- get_projection sid ;;
  match proj_pending_approvals p !! resolution_id r with
  | None => StateR.fail (RtMissingApproval (resolution_id r))
  | Some approval =>
      if negb (bool_decide (approval_state approval = Pending))
      then StateR.fail (RtApprovalNotPending (resolution_id r))
      else if negb (bool_decide (resolution_resolver r = Resolver_User))
      then StateR.fail (RtApprovalResolverNotUser (resolution_id r))
      else
        p' <-- get_projection sid ;;
        if negb (bool_decide (resolution_fingerprint r = approval_fingerprint approval))
           || negb (resolution_intent_revision r =? approval_intent_revision approval)%N
           || negb (bool_decide (proj_latest_intent_revision p'
                                 = Some (approval_intent_revision approval)))
        then
          record t sid (PayloadApproval (ApprovalResolved (with_approval_state Rejected approval))) ;;;
          StateR.fail (RtStaleApproval (resolution_id r))
        else
          record t sid (PayloadApproval (ApprovalResolved
            (with_approval_state (if resolution_accepted r then Approved else Rejected) approval)))
  end.

Definition rt_pending_approval (sid id : Uuid) (s : St)
    : result RuntimeError (option ApprovalRequest) :=
  p ← projection sid s; Ok (proj_pending_approvals p !! id).

(** The [for] over the reversed events. *)
Definition decision_in (approval : Uuid) (e : Event) : option bool :=
  match event_payload e with
  | PayloadApproval (ApprovalResolved r) =>
      if (approval_id r =? approval)%N
      then Some (bool_decide (approval_state r = Approved)) else None
  | _ => None
  end.

Fixpoint find_map {A B} (f : A → option B) (l : list A) : option B :=
  match l with
  | [] => None
  | x :: l' => match f x with Some b => Some b | None => find_map f l' end
  end.

Definition approval_user_decision (sid approval : Uuid) (s : St)
    : result RuntimeError (option bool) :=
  l ← rt_events sid s; Ok (find_map (decision_in approval) (reverse l)).

Fixpoint pending_for (sid : Uuid) (a : Action) (s : St) (rev_events : list Event)
    : result RuntimeError (option ApprovalRequest) :=
  match rev_events with
  | [] => Ok None
  | e :: es =>
      match event_payload e with
      | PayloadApproval (ApprovalRequested r) =>
          if bool_decide (approval_action r = a) then
            o ← rt_pending_approval sid (approval_id r) s;
            match o with Some _ => Ok (Some r) | None => pending_for sid a s es end
          else pending_for sid a s es
      | _ => pending_for sid a s es
      end
  end.

Definition latest_pending_approval_for (sid : Uuid) (a : Action) (s : St)
    : result RuntimeError (option ApprovalRequest) :=
  l ← rt_events sid s; pending_for sid a s (reverse l).

(** One pass of [wait_approval_resolution] over the store as it is then, and what
    ends the pass: the timer or a notification (any session, or a lag), the
    cancellation, or the end of the notification channel. *)
Inductive Wake := WakeAgain | WakeCancelled | WakeClosed.

Fixpoint wait_approval_resolution (sid approval : Uuid) (passes : list (St * Wake))
    : option (result RuntimeError bool) :=
  match passes with
  | [] => None
  | (s, wake) :: passes' =>
      match approval_user_decision sid approval s with
      | Err e => Some (Err e)
      | Ok (Some accepted) => Some (Ok accepted)
      | Ok None =>
          match rt_pending_approval sid approval s with
          | Err e => Some (Err e)
          | Ok None => Some (Err (RtMissingApproval approval))
          | Ok (Some _) =>
              match wake with
              | WakeAgain => wait_approval_resolution sid approval passes'
              | WakeCancelled => Some (Err (RtDenied "approval wait cancelled"))
              | WakeClosed => Some (Err (RtDenied "event store closed while awaiting approval"))
              end
          end
      end
  end.

(** *** Admission *)

Context `{FileSystem} `{UrlCrate} `{Codec}.

Definition session_sandbox (r : AgentRuntime) : Sandbox :=
  Provisioned (scope_at (ar_workspace_root r) (engine_scope (ar_policy r))).

Definition effect_seam_with_sandbox (r : AgentRuntime) (sandbox : Sandbox) (s : St)
    : result RuntimeError EffectSeam :=
  p ← projection (ar_session_id r) s;
  Ok (mkSeam (ar_policy r) sandbox (proj_execution_mode p) DeterministicRiskGate).

Definition effect_seam (r : AgentRuntime) (s : St) : result RuntimeError EffectSeam :=
  effect_seam_with_sandbox r (session_sandbox r) s.

(** The text of the error names the kind with [Debug]; the arm is never taken
    ([normalized_effect_from_action] is total). *)
Definition action_admission (h : PolicyHeap) (r : AgentRuntime) (a : Action)
    (capability_version : option N) (s : St) : result RuntimeError EffectDecision :=
  effect ← ok_or (normalized_effect_from_action a capability_version)
             (RtDenied "action kind has no normalized effect for admission");
  seam ← effect_seam r s;
  Ok (seam_decide h seam effect).

Definition request_action_with_capability_version (t : Tick) (new_id : Uuid) (h : PolicyHeap)
    (r : AgentRuntime) (a : Action) (capability_version : option N) : rt RuntimeStatus :=
  s <-- StateR.get ;;
  decision <-- StateR.lift (action_admission h r a capability_version s) ;;
  match decision with
  | Eff_Allow =>
      record t (ar_session_id r) (PayloadNotice NoticePolicyAllowed) ;;; StateR.ret StatusIdle
  | Eff_Deny reason =>
      record t (ar_session_id r) (PayloadNotice (NoticePolicyDenied reason)) ;;;
      StateR.fail (RtDenied reason)
  | Eff_NeedsApproval reason =>
      p <-- get_projection (ar_session_id r) ;;
      intent_revision <-- StateR.lift
        (ok_or (proj_latest_intent_revision p) RtMissingIntentRevision) ;;
      record t (ar_session_id r) (PayloadApproval (ApprovalRequested
        (pending_with_version new_id a reason intent_revision capability_version))) ;;;
      StateR.ret StatusAwaitingApproval
  end.

Definition request_action (t : Tick) (new_id : Uuid) (h : PolicyHeap) (r : AgentRuntime)
    (a : Action) : rt RuntimeStatus :=
  request_action_with_capability_version t new_id h r a None.

(** *** The runtime's own fields *)

Definition store_deferred_effect (d : DeferredEffect) (r : AgentRuntime) : AgentRuntime :=
  mkAgentRuntime (ar_session_id r) (ar_policy r) (ar_workspace_root r) (ar_budget r)
    (ar_worktree_id r) (<[approval_id (deferred_approval d) := d]> (ar_deferred_effects r))
    (ar_obligation_ledger r).

Definition take_deferred_effect (approval : Uuid) (r : AgentRuntime)
    : AgentRuntime * option DeferredEffect :=
  (mkAgentRuntime (ar_session_id r) (ar_policy r) (ar_workspace_root r) (ar_budget r)
     (ar_worktree_id r) (delete approval (ar_deferred_effects r)) (ar_obligation_ledger r),
   ar_deferred_effects r !! approval).

Definition with_ledger (l : ObligationLedger) (r : AgentRuntime) : AgentRuntime :=
  mkAgentRuntime (ar_session_id r) (ar_policy r) (ar_workspace_root r) (ar_budget r)
    (ar_worktree_id r) (ar_deferred_effects r) l.

Definition on_ledger {A} (m : stateR ObligationLedger ObligationLedgerError A)
    : stateR AgentRuntime ObligationLedgerError () := λ r,
  match m (ar_obligation_ledger r) with
  | (l, Ok _) => (with_ledger l r, Ok tt)
  | (l, Err e) => (with_ledger l r, Err e)
  end.

Definition register_obligation (id kind summary : string) := on_ledger (obligation_register id kind summary).
Definition fulfill_obligation (id : string) := on_ledger (obligation_fulfill id).

Definition set_worktree_id (w : option string) (r : AgentRuntime) : AgentRuntime :=
  mkAgentRuntime (ar_session_id r) (ar_policy r) (ar_workspace_root r) (ar_budget r) w
    (ar_deferred_effects r) (ar_obligation_ledger r).

Definition reload_policy_config (h : PolicyHeap) (r : AgentRuntime) (config : PolicyConfig)
    : PolicyHeap := reload_config h (ar_policy r) config.

(** *** Opening a session *)

Definition worktree_of_compaction (e : Event) : option string :=
  match event_payload e with
  | PayloadBudget (CompactionCompleted _ _ _ _ _ (Some structural)) => structural_worktree_id structural
  | _ => None
  end.

Definition worktree_id_from_compaction_events (l : list Event) : option string :=
  find_map worktree_of_compaction (reverse l).

Definition rt_attach (h : PolicyHeap) (policy : PolicyEngine) (sid : Uuid) (s : St)
    : result RuntimeError (PolicyHeap * AgentRuntime) :=
  l ← rt_events sid s;
  match l with
  | [] => Err (RtMissingSession sid)
  | _ =>
      o ← map_err RtProjection (reduce l);
      p ← ok_or o (RtMissingSession sid);
      let root := default (workspace_root (engine_scope policy)) (proj_workspace_root p) in
      let '(h', policy') := policy_for_workspace h policy root in
      Ok (h', fresh_runtime sid policy' root (worktree_id_from_compaction_events l))
  end.

End approvals.

(** The operations of the store that open sessions. *)
Class SessionStore (St : Type) := {
  store_create_session (id event_id : Uuid) (now : N) : stateR St StoreError Uuid;
  store_fork_session (new_id : Uuid) (now : N) (source : Uuid) (up_to : N)
    : stateR St StoreError Uuid;
  store_get_checkpoint (id : Uuid) : St → result StoreError CheckpointInfo;
}.

#[export] Instance memory_session_store `{Json} : SessionStore MemoryEventStore := {|
  store_create_session := memory_create_session;
  store_fork_session new_id _ source up_to := memory_fork_session new_id source up_to;
  store_get_checkpoint := memory_get_checkpoint;
|}.

Section open_session.
Context `{Json} {St : Type} `{!EventStore St} `{!SessionStore St} `{FileSystem}.

Definition in_store {A} (m : stateR St StoreError A) : rt (St := St) A := λ s,
  let '(s', r) := m s in (s', map_err RtStore r).

Definition rt_create (new_id : Uuid) (t : Tick) (policy : PolicyEngine) : rt AgentRuntime :=
  sid <-- in_store (store_create_session new_id t.1 t.2) ;;
  StateR.ret (fresh_runtime sid policy (workspace_root (engine_scope policy)) None).

(** [canonical] and [is_dir]: what the file system says of the given root. *)
Definition rt_create_with_workspace (new_id : Uuid) (t t' : Tick) (h : PolicyHeap)
    (policy : PolicyEngine) (root : string) (canonical : option string) (is_dir : string → bool)
    : rt (PolicyHeap * AgentRuntime) :=
  match canonical with
  | None => StateR.fail (RtInvalidWorkspace root)
  | Some root =>
      if negb (is_dir root) then StateR.fail (RtInvalidWorkspace root)
      else
        sid <-- in_store (store_create_session new_id t.1 t.2) ;;
        let '(h', policy') := policy_for_workspace h policy root in
        record t' sid (PayloadSession (SessionWorkspaceRoot root)) ;;;
        StateR.ret (h', fresh_runtime sid policy' root None)
  end.

Definition rt_fork (new_id : Uuid) (now : N) (policy : PolicyEngine) (source : Uuid) (up_to : N)
    : rt AgentRuntime :=
  sid <-- in_store (store_fork_session new_id now source up_to) ;;
  StateR.ret (fresh_runtime sid policy (workspace_root (engine_scope policy)) None).

Definition rt_restore_checkpoint (new_id : Uuid) (now : N) (policy : PolicyEngine)
    (checkpoint : Uuid) : rt AgentRuntime :=
  s <-- StateR.get ;;
  c <-- StateR.lift (map_err RtStore (store_get_checkpoint checkpoint s)) ;;
  rt_fork new_id now policy (checkpoint_session_id c) (checkpoint_sequence c).
End open_session.
