(* ===== verification/RuntimeLog.v ===== *)
(** * What the agent runtime writes

    Every operation of the runtime ([AgentRuntime]) appends only events its
    guard allows in the state the log projects to.  The operations are reasoned
    about with a small program logic over any store that keeps the contract
    [EventStoreLaws]; the theorems then follow by induction on the guarded
    appends: runs do not overlap, chunks are written once and in order, and an
    approval is granted only to a request that is still current. *)

From S2P Require Import Prelude Str Action PathScope WebSecurity Policy Effect RiskGate.
From S2P Require Import Events EventStore Budget EffectFence Effects Completion Projection AgentRuntime.

Open Scope string_scope.
Open Scope nat_scope.
Open Scope list_scope.
Open Scope impetus_scope.

Section guarded.
Context `{Json}.

(** A pending approval is filed under its own id. *)
Lemma pending_key sid l id q :
  proj_pending_approvals (project_log sid l) !! id = Some q → approval_id q = id.
Proof.
  induction l as [|e l IH] using rev_ind; [done|].
  rewrite project_log_snoc, project_event_pending.
  repeat (case_match; try done); rewrite ?lookup_insert_Some, ?lookup_delete_Some; naive_solver.
Qed.

(** What may be appended in a state. *)
Definition guarded (p : SessionProjection) (pl : EventPayload) : Prop :=
  match pl with
  | PayloadRun (RunStarted _) => proj_active_run_id p = None
  | PayloadRun r => proj_active_run_id p = Some (run_event_id r)
  | PayloadAgent (AgentChunk r c _ _) =>
      proj_active_run_id p = Some r ∧
      ∀ last, proj_agent_chunk_ids p !! r = Some last → (last < c)%N
  | PayloadAgent (AgentFinal r _) | PayloadAgent (AgentReasoningSummary r _) =>
      proj_active_run_id p = Some r
  | PayloadApproval (ApprovalRequested q) =>
      approval_state q = Pending ∧
      proj_latest_intent_revision p = Some (approval_intent_revision q)
  | PayloadApproval (ApprovalResolved q) =>
      ∃ q0, proj_pending_approvals p !! approval_id q = Some q0 ∧ approval_state q0 = Pending ∧
        (q = with_approval_state Rejected q0 ∨
         q = with_approval_state Approved q0 ∧
         proj_latest_intent_revision p = Some (approval_intent_revision q0))
  | _ => True
  end.

Definition guarded_append (sid : Uuid) (l l' : list Event) : Prop :=
  ∃ e, l' = l ++ [e] ∧ log_ok sid 0 l' ∧ guarded (project_log sid l) (event_payload e).

End guarded.

Section logic.
Context `{Json} {St : Type} `{!EventStore St}.
Context (store_inv : St → Prop) `{!EventStoreLaws St store_inv}.

(** The session reads back as the well-formed log [l]. *)
Definition owns (sid : Uuid) (s : St) (l : list Event) : Prop :=
  store_inv s ∧ store_list sid s = Ok l ∧ log_ok sid 0 l ∧ l ≠ [].

(** From a log that satisfies [P], the operation makes guarded appends only, and
    establishes [Q] when it succeeds. *)
Definition log_triple {A} (sid : Uuid) (P : list Event → Prop) (m : rt (St := St) A)
    (Q : A → list Event → Prop) : Prop :=
  ∀ s l s' r, owns sid s l → P l → m s = (s', r) →
    ∃ l', owns sid s' l' ∧ rtc (guarded_append sid) l l' ∧
          match r with Ok a => Q a l' | Err _ => True end.

Lemma log_triple_ret {A} sid (a : A) (P : list Event → Prop) Q :
  (∀ l, P l → Q a l) → log_triple sid P (StateR.ret a) Q.
Proof. intros HPQ s l s' r Ho HP [= <- <-]. exists l. eauto using rtc_refl. Qed.

Lemma log_triple_fail {A} sid P e (Q : A → list Event → Prop) : log_triple sid P (StateR.fail e) Q.
Proof. intros s l s' r Ho HP [= <- <-]. exists l. eauto using rtc_refl. Qed.

Lemma log_triple_bind {A B} sid P (m : rt A) (R : A → list Event → Prop) (f : A → rt B) Q :
  log_triple sid P m R → (∀ a, log_triple sid (R a) (f a) Q) → log_triple sid P (StateR.bind m f) Q.
Proof.
  intros Hm Hf s l s' r Ho HP Hrun. unfold StateR.bind in Hrun.
  destruct (m s) as [s1 [a|e]] eqn:Hms; destruct (Hm s l s1 _ Ho HP Hms) as (l1 & Ho1 & Hr1 & HR).
  - destruct (Hf a s1 l1 s' r Ho1 HR Hrun) as (l2 & Ho2 & Hr2 & HQ).
    exists l2. split_and!; [done|by etrans|done].
  - injection Hrun as <- <-. by exists l1.
Qed.

Lemma log_triple_pre {A} sid (P P' : list Event → Prop) (m : rt A) Q :
  (∀ l, P l → P' l) → log_triple sid P' m Q → log_triple sid P m Q.
Proof. intros HP Hm s l s' r Ho HPl Hrun. eauto. Qed.

Lemma projection_owned sid s l : owns sid s l → projection sid s = Ok (project_log sid l).
Proof.
  intros (_ & Hl & Hok & Hne). unfold projection, rt_events. rewrite Hl. cbn.
  by rewrite (reduce_log_ok sid).
Qed.

Lemma log_triple_get sid P :
  log_triple sid P (get_projection sid) (λ p l, p = project_log sid l ∧ P l).
Proof.
  intros s l s' r Ho HP [= <- <-]. rewrite (projection_owned _ _ _ Ho).
  exists l. eauto using rtc_refl.
Qed.

Lemma append_own_log sid t pl s l s' e :
  owns sid s l → store_append_next t.1 t.2 sid pl s = (s', Ok e) →
  owns sid s' (l ++ [e]) ∧ event_payload e = pl.
Proof.
  intros (Hinv & Hl & Hok & Hne) Ha.
  destruct (append_next_ok _ _ _ _ _ _ _ Hinv Ha) as (Hinv' & Hp & l1 & Hl1 & Hl' & Hseq).
  destruct (append_next_stamp _ _ _ _ _ _ _ Hinv Ha) as (Hv & Hs).
  rewrite Hl in Hl1. injection Hl1 as <-. split; [|done]. split_and!; [done|done| |by destruct l].
  by apply log_ok_snoc.
Qed.

Lemma log_triple_record sid t (P : list Event → Prop) pl :
  (∀ l, P l → guarded (project_log sid l) pl) →
  log_triple sid P (record t sid pl)
    (λ _ l, ∃ l0 e, l = l0 ++ [e] ∧ P l0 ∧ event_payload e = pl).
Proof.
  intros Hg s l s' r Ho HP Hrun. unfold record in Hrun.
  destruct (store_append_next t.1 t.2 sid pl s) as [s1 [e|err]] eqn:Ha; injection Hrun as <- <-.
  - destruct (append_own_log _ _ _ _ _ _ _ Ho Ha) as [Ho' Hp]. exists (l ++ [e]).
    split; [done|]. split; [|by eauto]. apply rtc_once. exists e. split; [done|].
    split; [by destruct Ho' as (_ & _ & ? & _)|]. rewrite Hp. by apply Hg.
  - exists l. split; [|split; [apply rtc_refl|done]]. destruct Ho as (Hinv & Hl & ? & ?).
    destruct (append_next_err _ _ _ _ _ _ _ Hinv Ha) as [Hinv' Hsame].
    split_and!; [done|by rewrite Hsame|done|done].
Qed.

(** An operation whose only obligation is its guards. *)
Definition keeps {A} (sid : Uuid) (m : rt (St := St) A) : Prop :=
  log_triple sid (λ _, True) m (λ _ _, True).

Lemma keeps_log_triple {A} sid P (m : rt A) : keeps sid m → log_triple sid P m (λ _ _, True).
Proof. intros Hm. by apply (log_triple_pre _ _ (λ _, True)). Qed.

Lemma log_triple_post {A} sid P (m : rt A) (Q Q' : A → list Event → Prop) :
  (∀ a l, Q a l → Q' a l) → log_triple sid P m Q → log_triple sid P m Q'.
Proof.
  intros HQ Hm s l s' r Ho HP Hrun. destruct (Hm s l s' r Ho HP Hrun) as (l' & ? & ? & Hr).
  exists l'. split_and!; [done..|]. destruct r; eauto.
Qed.

Lemma keeps_record sid t P pl :
  (∀ l, P l → guarded (project_log sid l) pl) → log_triple sid P (record t sid pl) (λ _ _, True).
Proof. intros Hg. by eapply log_triple_post; [|by apply log_triple_record]. Qed.

Lemma log_triple_seq {A B} sid P (m : rt A) (k : rt B) Q :
  log_triple sid P m (λ _ _, True) → log_triple sid (λ _, True) k Q →
  log_triple sid P (StateR.bind m (λ _, k)) Q.
Proof. intros Hm Hk. by eapply log_triple_bind; [exact Hm|]. Qed.

Lemma log_triple_lift {A} sid (P : list Event → Prop) (r : result RuntimeError A) :
  log_triple sid P (StateR.lift r) (λ a l, r = Ok a ∧ P l).
Proof. intros s l s' r' Ho HP [= <- <-]. exists l. destruct r; eauto using rtc_refl. Qed.

Lemma log_triple_state {A} sid (P : list Event → Prop) (f : St → rt A) Q :
  (∀ s, log_triple sid P (f s) Q) → log_triple sid P (StateR.bind StateR.get f) Q.
Proof. intros Hf s l s' r Ho HP Hrun. exact (Hf s s l s' r Ho HP Hrun). Qed.

(** ** The operations *)

(** Follow the operation: bind reads with the projection of the log, end in a
    guarded append, a failure or a value. *)
Ltac rt_get := let p := fresh "p" in eapply log_triple_bind; [apply log_triple_get|]; intros p; cbv beta.

Lemma submit_intent_keeps t sid text artifact kind :
  keeps sid (submit_intent_with_artifact_and_kind t sid text artifact kind).
Proof. by apply keeps_record. Qed.

Lemma start_run_keeps t run_id sid : keeps sid (start_run t run_id sid).
Proof.
  unfold keeps, start_run. rt_get. destruct (proj_active_run_id _) eqn:Ha; [apply log_triple_fail|].
  apply log_triple_seq; [apply keeps_record|by apply log_triple_ret].
  intros l [<- _]. done.
Qed.

Lemma submit_and_start_keeps t t' run_id sid text artifact :
  keeps sid (submit_intent_and_start_run_with_artifact t t' run_id sid text artifact).
Proof.
  unfold keeps, submit_intent_and_start_run_with_artifact. rt_get.
  destruct (proj_active_run_id _); [apply log_triple_fail|].
  apply log_triple_seq; [apply keeps_log_triple, submit_intent_keeps|apply start_run_keeps].
Qed.

Lemma finish_run_keeps t sid outcome : keeps sid (finish_run t sid outcome).
Proof.
  unfold keeps, finish_run. rt_get. destruct (_ || _) eqn:Hb; [apply log_triple_fail|]. boolify.
  apply keeps_record. intros l [<- _]. by destruct outcome.
Qed.

Lemma status_keeps sid : keeps sid (rt_status sid).
Proof. unfold keeps, rt_status. rt_get. by apply log_triple_ret. Qed.

Lemma cancel_keeps t sid : keeps sid (rt_cancel t sid).
Proof.
  unfold keeps, rt_cancel. rt_get. destruct (proj_active_run_id _).
  - apply log_triple_seq; [apply keeps_log_triple, finish_run_keeps|apply status_keeps].
  - apply keeps_log_triple, status_keeps.
Qed.

Lemma chunk_keeps t sid run_id c text a d :
  keeps sid (record_agent_chunk_with_store t sid run_id c text a d).
Proof.
  unfold keeps, record_agent_chunk_with_store. rt_get.
  case_bool_decide as Hact; cbn [negb]; [|apply log_triple_fail].
  destruct (from_option _ _ _) eqn:Hlast; [by apply log_triple_ret|].
  destruct (bound_agent_chunk_text _ _) as [text' artifact].
  apply log_triple_seq; [apply keeps_record|by apply log_triple_ret].
  intros l [<- _]. split; [done|]. intros last Hl. rewrite Hl in Hlast. cbn in Hlast.
  by apply N.leb_gt in Hlast.
Qed.

Lemma final_keeps t sid run_id text : keeps sid (record_agent_final t sid run_id text).
Proof.
  unfold keeps, record_agent_final. rt_get.
  case_bool_decide; cbn [negb]; [|apply log_triple_fail]. apply keeps_record. by intros l [<- _].
Qed.

Lemma reasoning_keeps t sid run_id text :
  keeps sid (record_agent_reasoning_summary t sid run_id text).
Proof.
  unfold keeps, record_agent_reasoning_summary. rt_get.
  case_bool_decide; cbn [negb]; [|apply log_triple_fail]. case_match; [by apply log_triple_ret|].
  apply log_triple_seq; [apply keeps_record|by apply log_triple_ret]. by intros l [<- _].
Qed.

Lemma resolve_keeps t sid r : keeps sid (resolve_approval t sid r).
Proof.
  unfold keeps, resolve_approval. rt_get. destruct (_ !! _) as [q|] eqn:Hq; [|apply log_triple_fail].
  case_bool_decide; cbn [negb]; [|apply log_triple_fail].
  case_bool_decide; cbn [negb]; [|apply log_triple_fail].
  rt_get. destruct (_ || _) eqn:Hstale.
  - apply log_triple_seq; [apply keeps_record|apply log_triple_fail].
    intros l (-> & Hp & _). rewrite Hp in Hq. exists q. cbn.
    rewrite (pending_key _ _ _ _ Hq). auto.
  - boolify. apply keeps_record. intros l (Hp' & Hp & _). rewrite Hp in Hq.
    assert (approval_id q = resolution_id r) as Hid by apply (pending_key _ _ _ _ Hq).
    exists q. rewrite Hp' in *. destruct (resolution_accepted r); cbn; rewrite Hid; auto.
Qed.

Context `{FileSystem} `{UrlCrate} `{Codec} `{UuidText}.

Lemma request_keeps t new_id h r a v :
  keeps (ar_session_id r) (request_action_with_capability_version t new_id h r a v).
Proof.
  unfold keeps, request_action_with_capability_version. apply log_triple_state. intros s.
  eapply log_triple_bind; [apply log_triple_lift|]. intros [|reason|reason]; cbv beta.
  - apply log_triple_seq; [by apply keeps_record|by apply log_triple_ret].
  - rt_get. eapply log_triple_bind; [apply log_triple_lift|]. intros rev; cbv beta.
    apply log_triple_seq; [apply keeps_record|by apply log_triple_ret].
    intros l (Hrev & Hp & _). split; [done|]. rewrite <-Hp.
    by destruct (proj_latest_intent_revision p) as [n|]; cbn in Hrev; simplify_eq.
  - apply log_triple_seq; [by apply keeps_record|apply log_triple_fail].
Qed.

(** The operations of a runtime on its session. *)
Inductive RtOp :=
  | OpSubmitIntent (text : string) (artifact : option ArtifactRef) (kind : UserPromptIntent)
  | OpStartRun (run_id : Uuid)
  | OpSubmitAndStart (t' : Tick) (run_id : Uuid) (text : string) (artifact : option ArtifactRef)
  | OpFinishRun (outcome : RunEvent)
  | OpCancelRun
  | OpChunk (run_id : Uuid) (chunk_id : N) (text : string) (a d : option ArtifactStore)
  | OpFinal (run_id : Uuid) (text : string)
  | OpReasoning (run_id : Uuid) (text : string)
  | OpRequestAction (new_id : Uuid) (h : PolicyHeap) (a : Action) (version : option N)
  | OpResolve (r : ApprovalResolution)
  | OpTool (e : ToolEvent)
  | OpChild (e : ChildEvent)
  | OpSetMode (m : ExecutionMode)
  | OpElsewhere (sid' : Uuid) (p : EventPayload).

(** [OpTool], [OpChild] and [OpSetMode] stand for the operations that record such an
    event without a guard; [OpElsewhere] is an append to another session. *)
Definition run_rt_op (rt : AgentRuntime) (x : Tick * RtOp) (s : St) : St :=
  let '(t, op) := x in
  let sid := ar_session_id rt in
  match op with
  | OpSubmitIntent text a k => (submit_intent_with_artifact_and_kind t sid text a k s).1
  | OpStartRun run_id => (start_run t run_id sid s).1
  | OpSubmitAndStart t' run_id text a =>
      (submit_intent_and_start_run_with_artifact t t' run_id sid text a s).1
  | OpFinishRun outcome => (finish_run t sid outcome s).1
  | OpCancelRun => (rt_cancel t sid s).1
  | OpChunk run_id c text a d => (record_agent_chunk_with_store t sid run_id c text a d s).1
  | OpFinal run_id text => (record_agent_final t sid run_id text s).1
  | OpReasoning run_id text => (record_agent_reasoning_summary t sid run_id text s).1
  | OpRequestAction new_id h a v =>
      (request_action_with_capability_version t new_id h rt a v s).1
  | OpResolve r => (resolve_approval t sid r s).1
  | OpTool e => (record t sid (PayloadTool e) s).1
  | OpChild e => (record t sid (PayloadChild e) s).1
  | OpSetMode m => (record t sid (PayloadSession (SessionExecutionModeChanged m)) s).1
  | OpElsewhere sid' p =>
      if bool_decide (sid' = sid) then s else (record t sid' p s).1
  end.

Lemma keeps_run {A} sid (m : rt A) s l :
  keeps sid m → owns sid s l →
  ∃ l', owns sid (m s).1 l' ∧ rtc (guarded_append sid) l l'.
Proof.
  intros Hm Ho. destruct (m s) as [s' r] eqn:Hms.
  destruct (Hm s l s' r Ho I Hms) as (l' & ? & ? & _). by exists l'.
Qed.

Lemma record_elsewhere t sid sid' p s l :
  sid' ≠ sid → owns sid s l → owns sid (record t sid' p s).1 l.
Proof.
  intros Hne (Hinv & Hl & Hok & Hl0). unfold record.
  destruct (store_append_next t.1 t.2 sid' p s) as [s' [e|err]] eqn:Ha; cbn.
  - destruct (append_next_ok _ _ _ _ _ _ _ Hinv Ha) as (Hinv' & _).
    split_and!; [done| |done|done]. by rewrite (append_next_other _ _ _ _ _ sid _ _ Hinv Ha).
  - destruct (append_next_err _ _ _ _ _ _ _ Hinv Ha) as (Hinv' & Hsame).
    split_and!; [done|by rewrite Hsame|done|done].
Qed.

Lemma run_rt_op_guarded rt x s l :
  owns (ar_session_id rt) s l →
  ∃ l', owns (ar_session_id rt) (run_rt_op rt x s) l' ∧
        rtc (guarded_append (ar_session_id rt)) l l'.
Proof.
  intros Ho. destruct x as [t op].
  destruct op; cbn [run_rt_op]; try by apply keeps_run;
    eauto using submit_intent_keeps, start_run_keeps, submit_and_start_keeps, finish_run_keeps,
      cancel_keeps, chunk_keeps, final_keeps, reasoning_keeps, request_keeps, resolve_keeps,
      keeps_record.
  - by apply keeps_run; [apply keeps_record|].
  - by apply keeps_run; [apply keeps_record|].
  - by apply keeps_run; [apply keeps_record|].
  - case_bool_decide as Hs; [by exists l; split; [|apply rtc_refl]|].
    exists l. split; [by apply record_elsewhere|apply rtc_refl].
Qed.

Lemma run_rt_ops_guarded rt ops s l :
  owns (ar_session_id rt) s l →
  ∃ l', owns (ar_session_id rt) (foldl (flip (run_rt_op rt)) s ops) l' ∧
        rtc (guarded_append (ar_session_id rt)) l l'.
Proof.
  revert s l. induction ops as [|x ops IH]; intros s l Ho.
  { exists l. by split; [|apply rtc_refl]. }
  destruct (run_rt_op_guarded rt x s l Ho) as (l1 & Ho1 & Hr1).
  destruct (IH _ _ Ho1) as (l2 & Ho2 & Hr2). exists l2. split; [done|by etrans].
Qed.

End logic.

(** ** Invariants of the log *)

Section invariants.
Context `{Json}.

(** A log the operations can reach from a created session. *)
Definition session_log (sid : Uuid) (l : list Event) : Prop :=
  ∃ e0, event_payload e0 = PayloadSession SessionCreated ∧ log_ok sid 0 [e0] ∧
        rtc (guarded_append sid) [e0] l.

Lemma session_log_ind sid (P : list Event → Prop) :
  (∀ e0, event_payload e0 = PayloadSession SessionCreated → P [e0]) →
  (∀ l e, log_ok sid 0 (l ++ [e]) → guarded (project_log sid l) (event_payload e) →
     session_log sid l → P l → P (l ++ [e])) →
  ∀ l, session_log sid l → P l.
Proof.
  intros Hbase Hstep l (e0 & He0 & Hok & Hrtc).
  revert Hrtc. apply (rtc_ind_r (λ l, P l) [e0]); [by apply Hbase|].
  intros l1 l2 Hrtc (e & -> & Hok' & Hg) HP. apply Hstep; [done..| |done]. by exists e0.
Qed.

Lemma session_log_ok sid l : session_log sid l → log_ok sid 0 l.
Proof.
  intros (e0 & He0 & Hok & Hrtc). apply rtc_inv_r in Hrtc as [<-|(l1 & _ & e & -> & ? & _)]; done.
Qed.

Lemma session_log_more sid l l' :
  session_log sid l → rtc (guarded_append sid) l l' → session_log sid l'.
Proof. intros (e0 & ? & ? & ?) ?. exists e0. split_and!; [done..|by etrans]. Qed.

(** *** Runs *)

(** The run in progress after a row; [None] when the row is out of place. *)
Definition run_row (active : option Uuid) (e : Event) : option (option Uuid) :=
  match event_payload e with
  | PayloadRun (RunStarted r) => match active with None => Some (Some r) | Some _ => None end
  | PayloadRun r => if bool_decide (active = Some (run_event_id r)) then Some None else None
  | PayloadAgent (AgentChunk r _ _ _) | PayloadAgent (AgentFinal r _)
  | PayloadAgent (AgentReasoningSummary r _) =>
      if bool_decide (active = Some r) then Some active else None
  | _ => Some active
  end.

Fixpoint run_rows (active : option Uuid) (l : list Event) : option (option Uuid) :=
  match l with
  | [] => Some active
  | e :: l' => a ← run_row active e; run_rows a l'
  end.

Lemma run_rows_app active l1 l2 :
  run_rows active (l1 ++ l2) = run_rows active l1 ≫= λ a, run_rows a l2.
Proof.
  revert active. induction l1 as [|e l1 IH]; intros active; [done|]. cbn.
  destruct (run_row active e); cbn; [apply IH|done].
Qed.

Lemma session_log_runs sid l :
  session_log sid l → run_rows None l = Some (proj_active_run_id (project_log sid l)).
Proof.
  revert l. apply (session_log_ind sid (λ l, _ = _)).
  - intros e0 He0. unfold project_log. cbn [run_rows foldl].
    pose proof (project_event_run (projection_init sid) e0) as Hr. unfold run_row.
    rewrite He0 in *. injection Hr as -> _. done.
  - intros l e _ Hg _ IH. rewrite run_rows_app, IH, project_log_snoc. cbn.
    pose proof (project_event_run (project_log sid l) e) as Hr.
    unfold run_row, guarded in *.
    destruct (event_payload e) as [|r| | | |a| | | | | | | | | | |];
      try (injection Hr as -> _; done).
    + destruct r; cbn [run_event_id] in *; rewrite Hg in *; rewrite ?bool_decide_true in * by done;
        by injection Hr as -> _.
    + injection Hr as -> _. destruct a; [destruct Hg as [Hg _]|..]; rewrite Hg;
        by rewrite bool_decide_true.
Qed.

(** *** Approvals *)

Definition is_intent (e : Event) : bool :=
  match event_payload e with PayloadIntent _ => true | _ => false end.

(** A request or a resolution of the approval. *)
Definition concerns (id : Uuid) (e : Event) : bool :=
  match event_payload e with
  | PayloadApproval (ApprovalRequested r) | PayloadApproval (ApprovalResolved r) =>
      (approval_id r =? id)%N
  | _ => false
  end.

Lemma lookup_snoc_cases {A} (l : list A) x i y :
  (l ++ [x]) !! i = Some y → l !! i = Some y ∨ i = length l ∧ y = x.
Proof.
  intros [?|[? Hi]]%lookup_app_Some; [by left|].
  apply list_lookup_singleton_Some in Hi as [? <-]. right. split; [lia|done].
Qed.

(** A pending approval is the last row that concerns it. *)
Lemma pending_row sid l id q :
  proj_pending_approvals (project_log sid l) !! id = Some q →
  ∃ j e, l !! j = Some e ∧ event_payload e = PayloadApproval (ApprovalRequested q) ∧
    ∀ k e', j < k → l !! k = Some e' → concerns id e' = false.
Proof.
  induction l as [|e l IH] using rev_ind; [done|].
  rewrite project_log_snoc, project_event_pending. intros Hq.
  assert ((concerns id e = false ∧ proj_pending_approvals (project_log sid l) !! id = Some q) ∨
          event_payload e = PayloadApproval (ApprovalRequested q)) as [[Hc Hold]|Hnew].
  { unfold concerns. destruct (event_payload e) as [| | | | | |[r|r]| | | | | | | | | |]; auto.
    - apply lookup_insert_Some in Hq as [[<- <-]|[Hne Hq]]; [auto|left].
      by rewrite (proj2 (N.eqb_neq _ _)).
    - apply lookup_delete_Some in Hq as [Hne Hq]. left. by rewrite (proj2 (N.eqb_neq _ _)). }
  - destruct (IH Hold) as (j & ej & Hj & Hpj & Hlater). exists j, ej.
    split; [by apply lookup_app_l_Some|]. split; [done|].
    intros k e' Hk [Hk'|[_ ->]]%lookup_snoc_cases; eauto.
  - exists (length l), e. split; [by apply list_lookup_middle|]. split; [done|].
    intros k e' Hk Hl%lookup_lt_Some. rewrite length_app in Hl. cbn in Hl. lia.
Qed.

(** The intent revision is the number of the last intent. *)
Lemma intent_row sid l n :
  log_ok sid 0 l → proj_latest_intent_revision (project_log sid l) = Some n →
  ∃ i e, l !! i = Some e ∧ is_intent e = true ∧ n = N.of_nat (S i) ∧
    ∀ k e', i < k → l !! k = Some e' → is_intent e' = false.
Proof.
  induction l as [|e l IH] using rev_ind; [done|]. intros Hok.
  apply log_ok_snoc in Hok as (Hok & _ & _ & Hseq).
  rewrite project_log_snoc, project_event_intent. destruct (is_intent e) eqn:Hi.
  - intros Hn. exists (length l), e. split; [by apply list_lookup_middle|]. split; [done|].
    unfold is_intent in Hi. destruct (event_payload e); try done. simplify_eq.
    split; [done|]. intros k e' Hk Hl%lookup_lt_Some. rewrite length_app in Hl. cbn in Hl. lia.
  - intros Hn. assert (proj_latest_intent_revision (project_log sid l) = Some n) as Hn'.
    { unfold is_intent in Hi. by destruct (event_payload e). }
    destruct (IH Hok Hn') as (i & ei & Hl & Hint & -> & Hlater). exists i, ei.
    split; [by apply lookup_app_l_Some|]. split_and!; [done..|].
    intros k e' Hk [Hk'|[_ ->]]%lookup_snoc_cases; eauto.
Qed.

(** Requests carry the revision that was current when they were written. *)
Lemma request_row sid l j e q :
  session_log sid l → l !! j = Some e → event_payload e = PayloadApproval (ApprovalRequested q) →
  approval_state q = Pending ∧
  ∃ i ei, i < j ∧ l !! i = Some ei ∧ is_intent ei = true ∧
          approval_intent_revision q = N.of_nat (S i).
Proof.
  intros Hl. revert l Hl j e. apply (session_log_ind sid (λ l, ∀ j e, _ → _ → _)).
  - intros e0 He0 [|j] e; [|done]. intros [= <-]. by rewrite He0.
  - intros l e Hok Hg _ IH j e' [Hj|[-> ->]]%lookup_snoc_cases Hp.
    + destruct (IH j e' Hj Hp) as (? & i & ei & ? & ? & ? & ?). split; [done|].
      exists i, ei. split_and!; [done| |done|done]. by apply lookup_app_l_Some.
    + rewrite Hp in Hg. destruct Hg as [Hs Hrev]. split; [done|].
      apply log_ok_snoc in Hok as [Hok _].
      destruct (intent_row sid l _ Hok Hrev) as (i & ei & Hi & Hint & Heq & _).
      exists i, ei. split_and!; [by eapply lookup_lt_Some|by apply lookup_app_l_Some|done|done].
Qed.

Lemma approved_row sid l i e q :
  session_log sid l → l !! i = Some e →
  event_payload e = PayloadApproval (ApprovalResolved q) → approval_state q = Approved →
  ∃ j ej q0, j < i ∧ l !! j = Some ej ∧
    event_payload ej = PayloadApproval (ApprovalRequested q0) ∧
    q = with_approval_state Approved q0 ∧
    ∀ k ek, j < k < i → l !! k = Some ek → is_intent ek = false ∧ concerns (approval_id q) ek = false.
Proof.
  intros Hl. revert l Hl i e. apply (session_log_ind sid (λ l, ∀ i e, _ → _ → _ → _)).
  - intros e0 He0 [|i] e; [|done]. intros [= <-]. by rewrite He0.
  - intros l e Hok Hg Hsl IH i e' [Hi|[-> ->]]%lookup_snoc_cases Hp Hs.
    + destruct (IH i e' Hi Hp Hs) as (j & ej & q0 & Hji & Hj & Hpj & -> & Hbetween).
      exists j, ej, q0. split_and!; [done|by apply lookup_app_l_Some|done|done|].
      intros k ek Hk Hlk. apply (Hbetween k); [done|].
      apply lookup_snoc_cases in Hlk as [?|[-> _]]; [done|].
      apply lookup_lt_Some in Hi. lia.
    + rewrite Hp in Hg. destruct Hg as (q0 & Hq0 & Hpend & [->|[-> Hrev]]); [done|].
      destruct (pending_row sid l _ _ Hq0) as (j & ej & Hj & Hpj & Hlater).
      exists j, ej, q0. split_and!; [by eapply lookup_lt_Some|by apply lookup_app_l_Some|done|done|].
      intros k ek [Hk Hkl] Hlk. apply lookup_snoc_cases in Hlk as [Hlk|[? _]]; [|lia].
      split; [|by eapply Hlater].
      apply log_ok_snoc in Hok as [Hok _].
      destruct (intent_row sid l _ Hok Hrev) as (i & ei & Hi & Hint & Heq & Hafter).
      destruct (request_row sid l j ej q0 Hsl Hj Hpj) as (_ & i' & ei' & Hij & Hi' & _ & Heq').
      apply (Hafter k ek); [|done]. lia.
Qed.

(** *** Agent output *)

Definition chunk_row (r : Uuid) (e : Event) : option N :=
  match event_payload e with
  | PayloadAgent (AgentChunk r' c _ _) => if (r' =? r)%N then Some c else None
  | _ => None
  end.

(** The chunk ids of a run, in the order they were written. *)
Definition chunk_rows (r : Uuid) (l : list Event) : list N := omap (chunk_row r) l.

(** What a row adds to the session's output, given the rows before it: a chunk its
    text (chunk 0 is never shown), a final answer its text when the run wrote no
    chunk. *)
Definition piece (before : list Event) (e : Event) : string :=
  match event_payload e with
  | PayloadAgent (AgentChunk _ c text _) => if (c =? 0)%N then "" else text
  | PayloadAgent (AgentFinal r text) => match chunk_rows r before with [] => text | _ => "" end
  | _ => ""
  end.

Fixpoint spoken (before l : list Event) : string :=
  match l with
  | [] => ""
  | e :: l' => (piece before e ++ spoken (before ++ [e]) l')%string
  end.

Lemma spoken_snoc before l e :
  spoken before (l ++ [e]) = (spoken before l ++ piece (before ++ l) e)%string.
Proof.
  revert before. induction l as [|x l IH]; intros before; cbn.
  - by rewrite app_nil_r, str_app_nil_r.
  - by rewrite IH, <-app_assoc, str_app_assoc.
Qed.

Lemma chunk_rows_snoc r l e :
  chunk_rows r (l ++ [e]) = chunk_rows r l ++ option_list (chunk_row r e).
Proof.
  unfold chunk_rows. rewrite omap_app. cbn. by destruct (chunk_row r e).
Qed.

(** The projection keeps the last chunk id of each run. *)
Lemma chunk_ids_last sid l r :
  session_log sid l → proj_agent_chunk_ids (project_log sid l) !! r = last (chunk_rows r l).
Proof.
  revert l. apply (session_log_ind sid (λ l, _ = _)).
  - intros e0 He0. pose proof (project_event_output (projection_init sid) e0) as Ho.
    unfold project_log, chunk_rows, chunk_row. cbn. rewrite He0 in *. injection Ho as _ ->. done.
  - intros l e _ Hg _ IH. rewrite project_log_snoc, chunk_rows_snoc.
    pose proof (project_event_output (project_log sid l) e) as Ho. unfold chunk_row, guarded in *.
    destruct (event_payload e) as [| | | | |a| | | | | | | | | | |];
      try (injection Ho as _ ->; cbn; by rewrite app_nil_r).
    destruct a as [r' c text art|r' text|r' text]; cbn [option_list] in *.
    + assert (proj_agent_chunk_ids (project_event (project_log sid l) e)
              = <[r' := c]> (proj_agent_chunk_ids (project_log sid l))) as ->.
      { destruct Hg as [_ Hg].
        destruct (N.ltb_spec (default 0%N (proj_agent_chunk_ids (project_log sid l) !! r')) c);
          injection Ho as _ ->; [done|]. f_equal.
        destruct (_ !! r') as [last|]; cbn in *; [specialize (Hg last eq_refl)|]; lia. }
      destruct (N.eqb_spec r' r) as [->|Hne]; cbn.
      * by rewrite lookup_insert_eq, last_snoc.
      * by rewrite lookup_insert_ne, app_nil_r.
    + rewrite app_nil_r. by destruct (_ !! r'); injection Ho as _ ->.
    + rewrite app_nil_r. by injection Ho as _ ->.
Qed.

Lemma chunk_rows_sorted sid l r : session_log sid l → StronglySorted N.lt (chunk_rows r l).
Proof.
  revert l. apply (session_log_ind sid (λ l, StronglySorted _ _)).
  - intros e0 He0. unfold chunk_rows, chunk_row. cbn. rewrite He0. constructor.
  - intros l e _ Hg Hsl IH. rewrite chunk_rows_snoc.
    unfold chunk_row, guarded in *.
    destruct (event_payload e) as [| | | | |a| | | | | | | | | | |];
      try (cbn; by rewrite app_nil_r).
    destruct a as [r' c text art|r' text|r' text]; cbn; try by rewrite app_nil_r.
    destruct (N.eqb_spec r' r) as [->|Hne]; cbn; [|by rewrite app_nil_r].
    destruct Hg as [_ Hg]. rewrite (chunk_ids_last _ _ _ Hsl) in Hg.
    destruct (chunk_rows r l) as [|c' cs] eqn:Hc using rev_ind.
    { cbn. repeat constructor. }
    clear IHcs. specialize (Hg c' (last_snoc _ _)).
    apply StronglySorted_app. split_and!; [|done|repeat constructor].
    intros x y Hx Hy%list_elem_of_singleton. subst.
    apply StronglySorted_app in IH as (Hcross & _ & _).
    apply elem_of_app in Hx as [Hx|Hx%list_elem_of_singleton]; [|by subst].
    etrans; [by apply Hcross; [|by left]|done].
Qed.

Lemma output_spoken sid l :
  session_log sid l → proj_agent_output (project_log sid l) = spoken [] l.
Proof.
  revert l. apply (session_log_ind sid (λ l, _ = _)).
  - intros e0 He0. pose proof (project_event_output (projection_init sid) e0) as Ho.
    unfold project_log. cbn. unfold piece. rewrite He0 in *. by injection Ho as -> _.
  - intros l e _ Hg Hsl IH. rewrite project_log_snoc, spoken_snoc, <-IH. cbn [app].
    pose proof (project_event_output (project_log sid l) e) as Ho. unfold piece, guarded in *.
    destruct (event_payload e) as [| | | | |a| | | | | | | | | | |];
      try (injection Ho as -> _; by rewrite str_app_nil_r).
    destruct a as [r c text art|r text|r text].
    + destruct Hg as [_ Hg].
      destruct (N.ltb_spec (default 0%N (proj_agent_chunk_ids (project_log sid l) !! r)) c);
        injection Ho as -> _.
      * by rewrite (proj2 (N.eqb_neq _ _)) by lia.
      * assert (c = 0%N) as ->; [|by rewrite str_app_nil_r].
        destruct (_ !! r) as [last|]; cbn in *; [specialize (Hg last eq_refl)|]; lia.
    + rewrite (chunk_ids_last _ _ _ Hsl) in Ho. destruct (chunk_rows r l) as [|c cs].
      * by injection Ho as -> _.
      * rewrite str_app_nil_r. by destruct (last (c :: cs)) eqn:Hlast;
          [injection Ho as -> _|apply last_None in Hlast].
    + injection Ho as -> _. by rewrite str_app_nil_r.
Qed.

End invariants.

(** ** Properties of the runtime *)

Section claims.
Context `{Json} {St : Type} `{!EventStore St}.
Context (store_inv : St → Prop) `{!EventStoreLaws St store_inv}.
Context `{FileSystem} `{UrlCrate} `{Codec} `{UuidText}.

(** A session that was just created. *)
Definition created (sid : Uuid) (s : St) : Prop :=
  ∃ e0, owns store_inv sid s [e0] ∧ event_payload e0 = PayloadSession SessionCreated.

Lemma created_ops rt s ops :
  created (ar_session_id rt) s →
  ∃ l, owns store_inv (ar_session_id rt) (foldl (flip (run_rt_op rt)) s ops) l ∧
       session_log (ar_session_id rt) l.
Proof.
  intros (e0 & Ho & He0). destruct (run_rt_ops_guarded store_inv rt ops s [e0] Ho) as (l & Hl & Hr).
  exists l. split; [done|]. exists e0. split_and!; [done|by destruct Ho as (_ & _ & ? & _)|done].
Qed.

(** Whatever operations are called on a session, in whatever order, over any
    store that keeps the contract: runs do not overlap, each run ends at most
    once and only while it is the active one, agent output is recorded for the
    active run only, and the active run the runtime reports is the one the rows
    leave open. *)
Theorem runtime_runs_do_not_overlap rt s ops :
  created (ar_session_id rt) s →
  let s' := foldl (flip (run_rt_op rt)) s ops in
  ∃ l active, store_list (ar_session_id rt) s' = Ok l ∧ run_rows None l = Some active ∧
    rt_active_run_id (ar_session_id rt) s' = Ok active.
Proof.
  intros Hc. cbn zeta. destruct (created_ops rt s ops Hc) as (l & Ho & Hsl).
  exists l, (proj_active_run_id (project_log (ar_session_id rt) l)).
  split; [by destruct Ho as (_ & ? & _)|]. split; [by apply session_log_runs|].
  unfold rt_active_run_id. by rewrite (projection_owned _ _ _ _ Ho).
Qed.

(** C14: An approval is recorded as granted only for a request that is in the log
    before it, unchanged, with no user intent in between (so the request belongs
    to what the user last asked for) and no earlier resolution of it: whatever
    the clients send, nothing else can be approved and nothing twice. *)
Theorem approvals_granted_only_to_current_requests rt s ops i e q :
  created (ar_session_id rt) s →
  let s' := foldl (flip (run_rt_op rt)) s ops in
  ∀ l, store_list (ar_session_id rt) s' = Ok l → l !! i = Some e →
  event_payload e = PayloadApproval (ApprovalResolved q) → approval_state q = Approved →
  ∃ j ej q0, j < i ∧ l !! j = Some ej ∧
    event_payload ej = PayloadApproval (ApprovalRequested q0) ∧
    approval_state q0 = Pending ∧ q = with_approval_state Approved q0 ∧
    ∀ k ek, j < k < i → l !! k = Some ek →
      is_intent ek = false ∧ concerns (approval_id q) ek = false.
Proof.
  intros Hc. cbn zeta. intros l Hl Hi Hp Hs. destruct (created_ops rt s ops Hc) as (l1 & Ho & Hsl).
  destruct Ho as (_ & Hl1 & _). rewrite Hl in Hl1. injection Hl1 as <-.
  destruct (approved_row _ _ _ _ _ Hsl Hi Hp Hs) as (j & ej & q0 & Hji & Hj & Hpj & Hq & Hb).
  exists j, ej, q0. destruct (request_row _ _ _ _ _ Hsl Hj Hpj) as [Hpend _]. done.
Qed.

(** The output of a session is exactly what the runs said: the texts of the
    chunks in the order written, each chunk id of a run once and in increasing
    order, and a final answer only of a run that wrote no chunk. *)
Theorem agent_output_once_in_order rt s ops :
  created (ar_session_id rt) s →
  let s' := foldl (flip (run_rt_op rt)) s ops in
  ∃ l p, store_list (ar_session_id rt) s' = Ok l ∧ projection (ar_session_id rt) s' = Ok p ∧
    proj_agent_output p = spoken [] l ∧ ∀ r, StronglySorted N.lt (chunk_rows r l).
Proof.
  intros Hc. cbn zeta. destruct (created_ops rt s ops Hc) as (l & Ho & Hsl).
  exists l, (project_log (ar_session_id rt) l). split; [by destruct Ho as (_ & ? & _)|].
  split; [exact (projection_owned _ _ _ _ Ho)|]. split; [by apply output_spoken|].
  intros r. by apply (chunk_rows_sorted (ar_session_id rt)).
Qed.

(** The outcome of a resolution, from the projection alone. *)
Definition resolution_outcome (p : SessionProjection) (r : ApprovalResolution)
    : option ApprovalRequest * result RuntimeError () :=
  match proj_pending_approvals p !! resolution_id r with
  | None => (None, Err (RtMissingApproval (resolution_id r)))
  | Some q =>
      if bool_decide (resolution_resolver r = Resolver_User) then
        if bool_decide (resolution_fingerprint r = approval_fingerprint q ∧
             resolution_intent_revision r = approval_intent_revision q ∧
             proj_latest_intent_revision p = Some (approval_intent_revision q))
        then (Some (with_approval_state (if resolution_accepted r then Approved else Rejected) q), Ok tt)
        else (Some (with_approval_state Rejected q), Err (RtStaleApproval (resolution_id r)))
      else (None, Err (RtApprovalResolverNotUser (resolution_id r)))
  end.

Lemma pending_state sid l id q :
  session_log sid l → proj_pending_approvals (project_log sid l) !! id = Some q →
  approval_state q = Pending.
Proof.
  intros Hsl Hq. destruct (pending_row _ _ _ _ Hq) as (j & e & Hj & Hp & _).
  by destruct (request_row _ _ _ _ _ Hsl Hj Hp).
Qed.

Lemma bind_projection {A} sid (f : SessionProjection → rt (St := St) A) s p :
  projection sid s = Ok p → StateR.bind (get_projection sid) f s = f p s.
Proof. intros Hp. unfold StateR.bind, get_projection. by rewrite Hp. Qed.

Lemma bind_unit (m : rt (St := St) ()) s :
  StateR.bind m (λ _, StateR.lift (Ok tt)) s = m s.
Proof. unfold StateR.bind. by destruct (m s) as [? [[]|]]. Qed.

Lemma stale_check p q r :
  negb (bool_decide (resolution_fingerprint r = approval_fingerprint q))
  || negb (resolution_intent_revision r =? approval_intent_revision q)%N
  || negb (bool_decide (proj_latest_intent_revision p = Some (approval_intent_revision q)))
  = negb (bool_decide (resolution_fingerprint r = approval_fingerprint q ∧
             resolution_intent_revision r = approval_intent_revision q ∧
             proj_latest_intent_revision p = Some (approval_intent_revision q))).
Proof.
  destruct (N.eqb_spec (resolution_intent_revision r) (approval_intent_revision q));
    repeat case_bool_decide; naive_solver.
Qed.

Lemma resolved_row t sid s l q st (x : result RuntimeError ()) s2 out :
  owns store_inv sid s l → proj_pending_approvals (project_log sid l) !! approval_id q = Some q →
  StateR.bind (record t sid (PayloadApproval (ApprovalResolved (with_approval_state st q))))
    (λ _, StateR.lift x) s = (s2, out) →
  match store_append_next t.1 t.2 sid
          (PayloadApproval (ApprovalResolved (with_approval_state st q))) s with
  | (s3, Ok e) => s2 = s3 ∧ out = x ∧ store_list sid s2 = Ok (l ++ [e]) ∧
      rt_pending_approval sid (approval_id q) s2 = Ok None
  | (s3, Err err) => s2 = s3 ∧ out = Err (RtStore err) ∧ store_list sid s2 = Ok l
  end.
Proof.
  intros Ho Hq. unfold StateR.bind, StateR.lift, record.
  destruct (store_append_next _ _ _ _ s) as [s3 [e|err]] eqn:Ha; intros [= <- <-].
  - destruct (append_own_log _ _ _ _ _ _ _ _ Ho Ha) as [Ho' Hp].
    split_and!; [done..|by destruct Ho' as (_ & ? & _)|].
    unfold rt_pending_approval. rewrite (projection_owned _ _ _ _ Ho'). cbn. f_equal.
    rewrite project_log_snoc, project_event_pending, Hp. apply lookup_delete_eq.
  - destruct Ho as (Hinv & Hl & _).
    destruct (append_next_err _ _ _ _ _ _ _ Hinv Ha) as [_ Hsame]. by rewrite Hsame.
Qed.

(** Resolving an approval: unknown or already resolved ids and non-user
    resolvers are refused and write nothing; a resolution that does not match the
    request or comes after a newer user intent rejects the request and is
    reported stale; otherwise the request is approved or rejected as the user
    said.  When the store accepts the row, the request is no longer pending. *)
Theorem resolve_approval_exact t rt s ops r :
  created (ar_session_id rt) s →
  let sid := ar_session_id rt in
  let s1 := foldl (flip (run_rt_op rt)) s ops in
  ∃ l, store_list sid s1 = Ok l ∧
    let '(row, expected) := resolution_outcome (project_log sid l) r in
    match row with
    | None => resolve_approval t sid r s1 = (s1, expected)
    | Some q =>
        let '(s2, out) := resolve_approval t sid r s1 in
        match store_append_next t.1 t.2 sid (PayloadApproval (ApprovalResolved q)) s1 with
        | (s3, Ok e) =>
            s2 = s3 ∧ out = expected ∧ store_list sid s2 = Ok (l ++ [e]) ∧
            rt_pending_approval sid (approval_id q) s2 = Ok None
        | (s3, Err err) => s2 = s3 ∧ out = Err (RtStore err) ∧ store_list sid s2 = Ok l
        end
    end.
Proof.
  intros Hc. cbn zeta. destruct (created_ops rt s ops Hc) as (l & Ho & Hsl).
  set (sid := ar_session_id rt) in *. set (s1 := foldl _ s ops) in *.
  exists l. split; [by destruct Ho as (_ & ? & _)|].
  pose proof (projection_owned store_inv sid s1 l Ho) as Hproj.
  unfold resolution_outcome, resolve_approval. rewrite (bind_projection _ _ _ _ Hproj).
  destruct (proj_pending_approvals (project_log sid l) !! resolution_id r) as [q|] eqn:Hq; [|done].
  assert (approval_id q = resolution_id r) as Hid by apply (pending_key _ _ _ _ Hq).
  rewrite (bool_decide_true (approval_state q = Pending)) by (by eapply pending_state).
  destruct (bool_decide (resolution_resolver r = Resolver_User)); [|done].
  cbn [negb]. rewrite (bind_projection _ _ _ _ Hproj), stale_check.
  rewrite <-Hid in Hq. destruct (bool_decide (_ ∧ _ ∧ _)); cbn [negb].
  - rewrite <-bind_unit. destruct (StateR.bind _ _ s1) as [s2 out] eqn:Hrec.
    by apply (resolved_row t sid s1 l q _ _ _ _ Ho Hq).
  - destruct (StateR.bind _ _ s1) as [s2 out] eqn:Hrec.
    by apply (resolved_row t sid s1 l q Rejected _ _ _ Ho Hq).
Qed.
End claims.

(** ** A concrete session *)

Section sample.
#[local] Existing Instances sample_fs sample_urls sample_codec sample_json.

Definition sample_runtime : AgentRuntime :=
  fresh_runtime 1 (seam_policy sample_seam) "/ws" None.

Definition sample_created : MemoryEventStore :=
  (memory_create_session 1 100 0 MemoryEventStore_default).1.

Lemma sample_created_ok : created store_wf 1 sample_created.
Proof.
  exists (Event_new 100 0 1 1 (PayloadSession SessionCreated)). split; [|done].
  assert (store_trace [CmdCreate 1 100 0] sample_created) as Htrace.
  { apply (trace_snoc [] MemoryEventStore_default (CmdCreate 1 100 0)); [apply trace_nil|]. vm_compute. split_and!; set_solver. }
  split_and!; [apply (store_trace_refines _ _ Htrace)|vm_compute; reflexivity| |done].
  intros [|i] e; [|done]. by intros [= <-].
Qed.

Definition sample_request : ApprovalRequest :=
  pending_with_version 60 (effect_action sample_write)
    "workspace write requires human approval in ASK mode" 2 None.

(** The user asks, the agent says a word (sent twice), wants to write, is allowed to, and
    the run completes; a second run starts. *)
Definition sample_ops : list (Tick * RtOp) :=
  [((101, 1), OpSubmitAndStart (102, 2) 50 "do it" None);
   ((103, 3), OpChunk 50 1 "hello" None None);
   ((104, 4), OpChunk 50 1 "hello" None None);
   ((105, 5), OpRequestAction 60 sample_heap (effect_action sample_write) None);
   ((106, 6), OpResolve (ApprovalResolution_user sample_request true));
   ((107, 7), OpFinishRun (RunCompleted 50));
   ((108, 8), OpStartRun 51)]%N.

Abbreviation sample_sid := (ar_session_id sample_runtime).
Abbreviation sample_end := (foldl (flip (run_rt_op sample_runtime)) sample_created sample_ops).

Definition sample_end_log : list Event :=
  match store_list sample_sid sample_end with Ok l => l | Err _ => [] end.

Lemma runtime_runs_witness :
  run_rows None sample_end_log = Some (Some 51%N) ∧
  ∃ l active, store_list sample_sid sample_end = Ok l ∧ run_rows None l = Some active ∧
    rt_active_run_id sample_sid sample_end = Ok active.
Proof.
  split; [vm_compute; reflexivity|].
  exact (runtime_runs_do_not_overlap store_wf sample_runtime sample_created sample_ops
    sample_created_ok).
Defined.

Lemma approvals_granted_witness :
  ∃ j ej q0, j < 5 ∧ sample_end_log !! j = Some ej ∧
    event_payload ej = PayloadApproval (ApprovalRequested q0) ∧
    approval_state q0 = Pending ∧
    with_approval_state Approved sample_request = with_approval_state Approved q0 ∧
    ∀ k ek, j < k < 5 → sample_end_log !! k = Some ek →
      is_intent ek = false ∧ concerns 60 ek = false.
Proof.
  apply (approvals_granted_only_to_current_requests store_wf sample_runtime sample_created
    sample_ops 5 (Event_new 106 6 1 6 (PayloadApproval (ApprovalResolved
      (with_approval_state Approved sample_request)))) (with_approval_state Approved sample_request)
    sample_created_ok sample_end_log); vm_compute; reflexivity.
Defined.

Lemma agent_output_witness :
  spoken [] sample_end_log = "hello" ∧
  ∃ l p, store_list sample_sid sample_end = Ok l ∧ projection sample_sid sample_end = Ok p ∧
    proj_agent_output p = spoken [] l ∧ ∀ r, StronglySorted N.lt (chunk_rows r l).
Proof.
  split; [vm_compute; reflexivity|].
  exact (agent_output_once_in_order store_wf sample_runtime sample_created sample_ops
    sample_created_ok).
Defined.

(** Resolving the same approval again finds nothing pending. *)
Lemma resolve_approval_witness :
  resolve_approval (109%N, 9%N) sample_sid (ApprovalResolution_user sample_request true) sample_end
  = (sample_end, Err (RtMissingApproval 60)).
Proof.
  destruct (resolve_approval_exact store_wf (109%N, 9%N) sample_runtime sample_created sample_ops
    (ApprovalResolution_user sample_request true) sample_created_ok) as (l & Hl & Hout).
  pose proof (f_equal (λ r, match r with Ok l => l | Err _ => [] end) Hl) as El.
  assert (sample_end_log = l) as <- by exact El.
  assert (resolution_outcome (project_log sample_sid sample_end_log)
    (ApprovalResolution_user sample_request true) = (None, Err (RtMissingApproval 60))) as E.
  { vm_compute. reflexivity. }
  rewrite E in Hout. exact Hout.
Defined.
End sample.
