(* ===== verification/RuntimeForks.v ===== *)
(** * Forked sessions and the runtime

    [AgentRuntime::fork] and [restore_checkpoint] of
    [crates/impetus-core/src/runtime.rs] open a session that shares a prefix of
    another one's history.  Reading it gives the inherited events as they were
    written, with the session id of the ancestor; the projection
    ([crates/impetus-core/src/projection.rs]) accepts one session id only. *)

From S2P Require Import Prelude Str Action PathScope WebSecurity Policy Effect RiskGate Events.
From S2P Require Import EventStore Budget SqliteStore EffectFence Effects Completion Projection AgentRuntime RuntimeLog.

Open Scope string_scope.
Open Scope nat_scope.
Open Scope list_scope.
Open Scope impetus_scope.

#[export] Instance sqlite_session_store `{StoreJson} : SessionStore SqliteEventStore := {|
  store_create_session := sqlite_create_session;
  store_fork_session := sqlite_fork_session;
  store_get_checkpoint := sqlite_get_checkpoint;
|}.

(** A fork reads back as a non-empty prefix of its source, event for event. *)
Class SessionStoreLaws `{Json} (St : Type) `{!EventStore St, !SessionStore St}
    (store_inv : St → Prop) (fresh : St → Uuid → Prop) := {
  fork_prefix s s' new now src n sid :
    store_inv s → fresh s new → new ≠ src → store_fork_session new now src n s = (s', Ok sid) →
    sid = new ∧ store_inv s' ∧ ∃ l k, 0 < k ∧ l ≠ [] ∧ store_list src s = Ok l ∧ store_list new s' = Ok (take k l);
}.

#[export] Instance memory_session_laws `{Json} :
  SessionStoreLaws MemoryEventStore store_wf fresh_session.
Proof.
  split. intros st st' new now src n sid Hwf Hfr Hne Hf.
  destruct (wf_history st src Hwf) as [h Hh].
  cbn [store_fork_session memory_session_store] in Hf.
  rewrite (memory_fork_session_eq _ _ _ _ _ Hh) in Hf.
  destruct (_ && _) eqn:Hin; [|done]. injection Hf as <- <-.
  apply andb_true_iff in Hin as [H1%N.leb_le Hn%N.leb_le].
  destruct (fork_refines st new src n h) as (Hwf' & Hh' & _); [done..|]. split_and!; [done|done|].
  exists (renumber 0 h), (N.to_nat (N.max n (fork_base st src))).
  split_and!; [lia|by destruct h; [cbn in *; lia|]|by apply memory_list_history|].
  cbn [store_list memory_event_store].
  by rewrite (memory_list_history _ _ _ Hh'), take_renumber.
Qed.

#[export] Instance sqlite_session_laws `{StoreJsonLaws} :
  SessionStoreLaws SqliteEventStore sqlite_wf (λ db, fresh_session (view db)).
Proof.
  split. intros db db' new now src n sid Hwf Hfr Hne Hf.
  cbn [store_fork_session sqlite_session_store] in Hf.
  assert ((n ≤ i64_max)%N ∧ (now ≤ i64_max)%N) as [Hn Hnow].
  { revert Hf. unfold sqlite_fork_session, transaction, StateR.bind, StateR.get, StateR.lift, to_sql.
    destruct (validate_fork_sequence _ _ _ _); [|done].
    destruct (N.leb_spec now i64_max); [|done]. by destruct (N.leb_spec n i64_max). }
  destruct (run_sqlite_refines now (CmdFork new src n) db Hwf) as [Hwf' _].
  { cbn. by split_and!. }
  cbn [run_sqlite] in Hwf'. rewrite Hf in Hwf'. cbn [fst] in Hwf'.
  assert (store_fork_session (SessionStore := memory_session_store) new now src n (view db)
          = (view db', Ok sid)) as Hm.
  { rewrite sqlite_fork_eq in Hf by done. cbn [store_fork_session memory_session_store].
    unfold memory_fork_session, StateR.bind, StateR.get, StateR.lift.
    destruct (validate_fork_sequence _ _ _ _); [|done]. injection Hf as <- <-.
    unfold StateR.put, StateR.ret, view. cbn. by rewrite fmap_app. }
  destruct (fork_prefix (SessionStoreLaws := memory_session_laws) _ _ _ _ _ _ _ (sw_store _ Hwf)
    Hfr Hne Hm) as (-> & _ & l & k & Hk & Hl0 & Hl & Hnew).
  split_and!; [done|done|]. exists l, k. cbn [store_list sqlite_event_store].
  by rewrite !sqlite_list_view.
Qed.

Section forks.
Context `{Json} {St : Type} `{!EventStore St, !SessionStore St}.
Context (store_inv : St → Prop) `{!EventStoreLaws St store_inv}.
Context (fresh : St → Uuid → Prop) `{!SessionStoreLaws St store_inv fresh}.

(** A listing that starts with events of one session and goes on with another's. *)
Definition mixed (src new : Uuid) (s : St) : Prop :=
  store_inv s ∧ ∃ l e rest, log_ok src 0 l ∧ l ≠ [] ∧
    event_schema_version e = EVENT_SCHEMA_VERSION ∧ event_session_id e = new ∧
    store_list new s = Ok (l ++ e :: rest).

Lemma mixed_projection src new s :
  new ≠ src → mixed src new s → projection new s = Err (RtProjection (MixedSession src new)).
Proof.
  intros Hne (_ & l & e & rest & Hok & Hl & Hv & He & Hlist). unfold projection, rt_events.
  rewrite Hlist. cbn. rewrite (reduce_mixed src); [by rewrite He|done..|by rewrite He].
Qed.

Lemma mixed_record src new t sid p s : mixed src new s → mixed src new (record t sid p s).1.
Proof.
  intros (Hinv & l & e & rest & Hok & Hl & Hv & He & Hlist). unfold record.
  destruct (store_append_next t.1 t.2 sid p s) as [s' [e'|err]] eqn:Ha; cbn.
  - destruct (append_next_ok _ _ _ _ _ _ _ Hinv Ha) as (Hinv' & _ & l1 & Hl1 & Hl1' & _).
    split; [done|]. destruct (decide (sid = new)) as [->|Hne].
    + rewrite Hlist in Hl1. injection Hl1 as <-. exists l, e, (rest ++ [e']).
      rewrite <-app_assoc in Hl1'. by split_and!.
    + exists l, e, rest. split_and!; [done..|].
      by rewrite (append_next_other _ _ _ _ _ new _ _ Hinv Ha).
  - destruct (append_next_err _ _ _ _ _ _ _ Hinv Ha) as (Hinv' & Hsame).
    split; [done|]. exists l, e, rest. split_and!; [done..|by rewrite Hsame].
Qed.

Lemma log_ok_take sid l k : log_ok sid 0 l → log_ok sid 0 (take k l).
Proof. intros Hok i e Hi. apply Hok. by apply lookup_take_Some in Hi as [? _]. Qed.

(** The error of every operation that needs the projection. *)
Definition two_sessions (src new : Uuid) : RuntimeError := RtProjection (MixedSession src new).

(** C27: A fork (or a restored checkpoint) can be read until something is written
    to it.  The first event of its own makes its log unreadable for good: the
    inherited rows carry the session id of the source, and the projection refuses
    a log of two sessions.  From then on no run can be started, no action
    requested and the session cannot be attached to. *)
Theorem fork_unusable_after_first_event s s1 new now policy src n r l :
  store_inv s → fresh s new → new ≠ src → store_list src s = Ok l → log_ok src 0 l →
  rt_fork new now policy src n s = (s1, Ok r) →
  ∃ k, 0 < k ∧ projection new s1 = Ok (project_log src (take k l)) ∧
  ∀ t p s2 rows,
    record t new p s1 = (s2, Ok tt) →
    let s3 := foldl (λ s '(t, sid, p), (record t sid p s).1) s2 rows in
    projection new s3 = Err (two_sessions src new) ∧
    (∀ t' run_id, start_run t' run_id new s3 = (s3, Err (two_sessions src new))) ∧
    (∀ h engine, rt_attach h engine new s3 = Err (two_sessions src new)).
Proof.
  intros Hinv Hfresh Hne Hl Hok Hfork. unfold rt_fork, in_store, StateR.bind in Hfork.
  destruct (store_fork_session new now src n s) as [s' [sid|]] eqn:Hf; [|done].
  injection Hfork as <- <-.
  destruct (fork_prefix _ _ _ _ _ _ _ Hinv Hfresh Hne Hf)
    as (-> & Hinv1 & l1 & k & Hk & Hl1 & Hsrc & Hnew).
  rewrite Hl in Hsrc. injection Hsrc as <-.
  assert (log_ok src 0 (take k l)) as Hok' by by apply log_ok_take.
  assert (take k l ≠ []) as Hne' by (destruct k, l; done || lia).
  exists k. split; [done|]. split.
  { unfold projection, rt_events. rewrite Hnew. cbn. by rewrite (reduce_log_ok src). }
  intros t p s2 rows Hrec. cbn zeta. unfold record in Hrec.
  destruct (store_append_next t.1 t.2 new p s') as [s'' [e|]] eqn:Ha; [|done]. injection Hrec as <-.
  assert (mixed src new s'') as Hmix.
  { destruct (append_next_ok _ _ _ _ _ _ _ Hinv1 Ha) as (Hinv2 & _ & l2 & Hl2 & Hl2' & _).
    rewrite Hnew in Hl2. injection Hl2 as <-.
    destruct (append_next_stamp _ _ _ _ _ _ _ Hinv1 Ha) as [Hv Hs].
    split; [done|]. by exists (take k l), e, []. }
  set (s3 := foldl _ s'' rows).
  assert (mixed src new s3) as Hmix3.
  { unfold s3. clear -Hmix EventStoreLaws0. revert s'' Hmix.
    induction rows as [|[[t' sid'] p'] rows IH]; intros s'' Hmix; [done|].
    apply IH. by apply mixed_record. }
  pose proof (mixed_projection _ _ _ Hne Hmix3) as Hproj. split; [done|]. split.
  - intros t' run_id. unfold start_run, StateR.bind, get_projection. by rewrite Hproj.
  - intros h engine. unfold rt_attach, two_sessions. revert Hproj. unfold projection.
    destruct (rt_events new s3) as [[|x xs]|]; cbn -[reduce]; [done| |congruence].
    destruct (map_err _ (reduce (x :: xs))) as [[]|]; cbn; congruence.
Qed.
End forks.

(** ** A concrete fork *)

Section sample.
#[local] Existing Instances sample_fs sample_urls sample_codec sample_json.

Definition fork_source : MemoryEventStore :=
  foldl (λ st c, run_cmd c st) MemoryEventStore_default
    [CmdCreate 1 100 0; CmdAppend 101 1 1 (PayloadIntent (IntentEvent_new "go"))].

Lemma fork_source_wf : store_wf fork_source.
Proof.
  apply (store_trace_refines [CmdCreate 1 100 0;
    CmdAppend 101 1 1 (PayloadIntent (IntentEvent_new "go"))]).
  unfold fork_source. cbn [foldl].
  apply (trace_snoc [_]); [|done]. apply (trace_snoc []); [apply trace_nil|].
  vm_compute. split_and!; set_solver.
Qed.

Definition forked : MemoryEventStore := (rt_fork 2 2 (seam_policy sample_seam) 1 2 fork_source).1.

(** The fork reads its two inherited events; after an intent of its own no run can
    be started in it. *)
Lemma fork_unusable_witness :
  is_ok (projection 2 forked) = true ∧
  let s := (record (102%N, 2%N) 2 (PayloadIntent (IntentEvent_new "more")) forked).1 in
  start_run (103%N, 3%N) 7 2 s = (s, Err (RtProjection (MixedSession 1 2))).
Proof.
  split; [vm_compute; reflexivity|]. cbn zeta.
  edestruct (fork_unusable_after_first_event store_wf fresh_session fork_source forked 2 2
    (seam_policy sample_seam) 1 2 (fresh_runtime 2 (seam_policy sample_seam) "/ws" None)
    [Event_new 100 0 1 1 (PayloadSession SessionCreated);
     Event_new 101 1 1 2 (PayloadIntent (IntentEvent_new "go"))])
    as (k & _ & _ & Hafter).
  - exact fork_source_wf.
  - vm_compute. split_and!; set_solver.
  - done.
  - vm_compute. reflexivity.
  - intros [|[|i]] e; [by intros [= <-]..|done].
  - vm_compute. reflexivity.
  - destruct (Hafter (102%N, 2%N) (PayloadIntent (IntentEvent_new "more")) _ [] eq_refl)
      as (_ & Hstart & _).
    apply Hstart.
Defined.
End sample.
