(* ===== verification/Intents.v ===== *)
(** * User intents and follow-ups

    [crates/impetus-core/src/user_intent.rs]: the in-memory router of prompts,
    steers and follow-ups.  A follow-up waits in its session's queue until a run
    of the session ends.  The [HashMap] of sessions is a [gmap]. *)

From S2P Require Import Prelude Str Action Events.

Open Scope string_scope.
Open Scope nat_scope.
Open Scope list_scope.
Open Scope impetus_scope.

Record UserIntentSubmission := mkSubmission {
  submission_session_id : Uuid;
  submission_intent : UserPromptIntent;
  submission_text : string;
  submission_origin : ActionOrigin;
}.

Record UserIntentAccepted := mkAccepted {
  accepted_session_id : Uuid;
  accepted_intent : UserPromptIntent;
  accepted_text : string;
  accepted_origin : ActionOrigin;
  accepted_active_run_id : option Uuid;
  accepted_follow_up_position : option nat;
}.

Record QueuedFollowUp := mkFollowUp {
  follow_up_text : string;
  follow_up_origin : ActionOrigin;
}.

Inductive UserIntentError :=
  | UnknownSession (id : Uuid)
  | NoActiveRun (id : Uuid)
  | EmptyFanout.

Record UserIntentFanout := mkFanout {
  fanout_intent : UserPromptIntent;
  fanout_text : string;
  fanout_origin : ActionOrigin;
}.

Abbreviation FanoutResults := (gmap Uuid (result UserIntentError UserIntentAccepted)).

Record SessionIntentState := mkIntentState {
  intent_active_run_id : option Uuid;
  intent_follow_ups : list QueuedFollowUp;
}.

Definition SessionIntentState_default : SessionIntentState := mkIntentState None [].

Abbreviation UserIntentRouter := (gmap Uuid SessionIntentState).

Definition ri (A : Type) : Type := stateR UserIntentRouter UserIntentError A.

(** [entry(..).or_default()] *)
Definition open_session (sid : Uuid) (r : UserIntentRouter) : UserIntentRouter :=
  match r !! sid with Some _ => r | None => <[sid := SessionIntentState_default]> r end.

Definition has_session (sid : Uuid) (r : UserIntentRouter) : bool := bool_decide (is_Some (r !! sid)).

Definition intent_session (sid : Uuid) : ri SessionIntentState := λ r,
  (r, ok_or (r !! sid) (UnknownSession sid)).

Definition put_session (sid : Uuid) (s : SessionIntentState) : ri () :=
  StateR.modify (λ r, <[sid := s]> r).

Definition set_active_run (sid : Uuid) (run_id : option Uuid) : ri () :=
  s <-- intent_session sid ;; put_session sid (mkIntentState run_id (intent_follow_ups s)).

Definition router_active_run_id (sid : Uuid) (r : UserIntentRouter)
    : result UserIntentError (option Uuid) :=
  s ← ok_or (r !! sid) (UnknownSession sid); Ok (intent_active_run_id s).

Definition follow_ups (sid : Uuid) (r : UserIntentRouter)
    : result UserIntentError (list QueuedFollowUp) :=
  s ← ok_or (r !! sid) (UnknownSession sid); Ok (intent_follow_ups s).

Definition follow_up_len (sid : Uuid) (r : UserIntentRouter) : result UserIntentError nat :=
  s ← ok_or (r !! sid) (UnknownSession sid); Ok (length (intent_follow_ups s)).

(** [VecDeque::pop_front] *)
Definition pop_front {A} (l : list A) : list A * option A :=
  match l with [] => ([], None) | x :: l' => (l', Some x) end.

Definition pop_follow_up (sid : Uuid) : ri (option QueuedFollowUp) :=
  s <-- intent_session sid ;;
  let '(q, x) := pop_front (intent_follow_ups s) in
  put_session sid (mkIntentState (intent_active_run_id s) q) ;;; StateR.ret x.

Definition take_follow_up_on_run_terminal (sid finished_run_id : Uuid)
    : ri (option QueuedFollowUp) :=
  s <-- intent_session sid ;;
  if bool_decide (intent_active_run_id s = Some finished_run_id) then
    let '(q, x) := pop_front (intent_follow_ups s) in
    put_session sid (mkIntentState None q) ;;; StateR.ret x
  else StateR.ret None.

Definition submit (sub : UserIntentSubmission) : ri UserIntentAccepted :=
  let sid := submission_session_id sub in
  s <-- intent_session sid ;;
  match submission_intent sub with
  | Prompt =>
      StateR.ret (mkAccepted sid Prompt (submission_text sub) (submission_origin sub)
        (intent_active_run_id s) None)
  | Steer =>
      match intent_active_run_id s with
      | None => StateR.fail (NoActiveRun sid)
      | Some run_id =>
          StateR.ret (mkAccepted sid Steer (submission_text sub) (submission_origin sub)
            (Some run_id) None)
      end
  | FollowUp =>
      let position := length (intent_follow_ups s) in
      put_session sid (mkIntentState (intent_active_run_id s)
        (intent_follow_ups s ++ [mkFollowUp (submission_text sub) (submission_origin sub)])) ;;;
      StateR.ret (mkAccepted sid FollowUp (submission_text sub) (submission_origin sub)
        (intent_active_run_id s) (Some position))
  end.

Definition fanout_submission (f : UserIntentFanout) (sid : Uuid) : UserIntentSubmission :=
  mkSubmission sid (fanout_intent f) (fanout_text f) (fanout_origin f).

(** The loop over the targets; the outcome of each goes into the map. *)
Fixpoint fanout_loop (f : UserIntentFanout) (sids : list Uuid) (results : FanoutResults)
    (r : UserIntentRouter) : UserIntentRouter * FanoutResults :=
  match sids with
  | [] => (r, results)
  | sid :: sids' =>
      let '(r', outcome) := submit (fanout_submission f sid) r in
      fanout_loop f sids' (<[sid := outcome]> results) r'
  end.

Definition fanout (f : UserIntentFanout) (sids : list Uuid) : ri FanoutResults := λ r,
  match sids with
  | [] => (r, Err EmptyFanout)
  | _ => let '(r', results) := fanout_loop f sids ∅ r in (r', Ok results)
  end.

(** ** Queues are first in, first out, and nothing is lost *)

Inductive RouterOp :=
  | OpOpen (sid : Uuid)
  | OpSetActive (sid : Uuid) (run_id : option Uuid)
  | OpPop (sid : Uuid)
  | OpTerminal (sid run_id : Uuid)
  | OpSubmit (sub : UserIntentSubmission)
  | OpFanout (f : UserIntentFanout) (sids : list Uuid).

Definition run_router_op (op : RouterOp) (r : UserIntentRouter) : UserIntentRouter :=
  match op with
  | OpOpen sid => open_session sid r
  | OpSetActive sid run_id => (set_active_run sid run_id r).1
  | OpPop sid => (pop_follow_up sid r).1
  | OpTerminal sid run_id => (take_follow_up_on_run_terminal sid run_id r).1
  | OpSubmit sub => (submit sub r).1
  | OpFanout f sids => (fanout f sids r).1
  end.

Definition queue_of (sid : Uuid) (r : UserIntentRouter) : list QueuedFollowUp :=
  match r !! sid with Some s => intent_follow_ups s | None => [] end.

Arguments queue_of : simpl never.

(** The follow-up an accepted submission leaves in the queue of [sid]. *)
Definition submit_enqueues (sid : Uuid) (r : UserIntentRouter) (sub : UserIntentSubmission)
    : list QueuedFollowUp :=
  match submission_intent sub, r !! sid with
  | FollowUp, Some _ =>
      if (submission_session_id sub =? sid)%N
      then [mkFollowUp (submission_text sub) (submission_origin sub)] else []
  | _, _ => []
  end.

(** What an operation accepts for the queue of a session, and what it hands out. *)
Definition enqueued (sid : Uuid) (r : UserIntentRouter) (op : RouterOp) : list QueuedFollowUp :=
  match op with
  | OpSubmit sub => submit_enqueues sid r sub
  | OpFanout f sids => mjoin (submit_enqueues sid r ∘ fanout_submission f <$> sids)
  | _ => []
  end.

Definition handed_out (sid : Uuid) (r : UserIntentRouter) (op : RouterOp) : list QueuedFollowUp :=
  match op with
  | OpPop sid' =>
      if (sid' =? sid)%N
      then match (pop_follow_up sid' r).2 with Ok (Some x) => [x] | _ => [] end else []
  | OpTerminal sid' run_id =>
      if (sid' =? sid)%N
      then match (take_follow_up_on_run_terminal sid' run_id r).2 with Ok (Some x) => [x] | _ => [] end
      else []
  | _ => []
  end.

(** The accepted and the handed-out follow-ups of a whole sequence of operations. *)
Fixpoint router_history (sid : Uuid) (r : UserIntentRouter) (ops : list RouterOp)
    : list QueuedFollowUp * list QueuedFollowUp :=
  match ops with
  | [] => ([], [])
  | op :: ops' =>
      let '(ins, outs) := router_history sid (run_router_op op r) ops' in
      (enqueued sid r op ++ ins, handed_out sid r op ++ outs)
  end.

Lemma submit_queue sid sub r :
  queue_of sid (submit sub r).1 = queue_of sid r ++ submit_enqueues sid r sub ∧
  (is_Some ((submit sub r).1 !! sid) ↔ is_Some (r !! sid)).
Proof.
  unfold submit, submit_enqueues, intent_session, put_session, StateR.bind, StateR.modify, queue_of.
  destruct (r !! submission_session_id sub) as [s|] eqn:Hs; cbn.
  - destruct (submission_intent sub); cbn.
    + by rewrite app_nil_r.
    + destruct (intent_active_run_id s); cbn; by rewrite app_nil_r.
    + destruct (N.eqb_spec (submission_session_id sub) sid) as [<-|Hne].
      * rewrite lookup_insert_eq, Hs. by split.
      * rewrite lookup_insert_ne by done. destruct (r !! sid); by rewrite app_nil_r.
  - destruct (submission_intent sub); rewrite ?app_nil_r; try done.
    destruct (r !! sid) eqn:Hr; [|by rewrite app_nil_r].
    destruct (N.eqb_spec (submission_session_id sub) sid) as [<-|]; [congruence|].
    by rewrite app_nil_r.
Qed.

Lemma submit_enqueues_ext sid r r' sub :
  (is_Some (r !! sid) ↔ is_Some (r' !! sid)) →
  submit_enqueues sid r sub = submit_enqueues sid r' sub.
Proof.
  unfold submit_enqueues. intros Hiff.
  destruct (r !! sid), (r' !! sid); try done.
  - by destruct (proj1 Hiff).
  - by destruct (proj2 Hiff).
Qed.

Lemma fanout_loop_queue sid f sids results r :
  queue_of sid (fanout_loop f sids results r).1
  = queue_of sid r ++ mjoin (submit_enqueues sid r ∘ fanout_submission f <$> sids).
Proof.
  revert results r. induction sids as [|s sids IH]; intros results r; cbn -[submit];
    [by rewrite app_nil_r|].
  destruct (submit_queue sid (fanout_submission f s) r) as [Hq Hs].
  destruct (submit (fanout_submission f s) r) as [r' outcome]. cbn [fst] in *.
  rewrite IH, Hq, <-app_assoc. do 2 f_equal. f_equal. apply list_fmap_ext. intros i x _.
  by apply submit_enqueues_ext.
Qed.

Lemma router_op_queue sid op r :
  handed_out sid r op ++ queue_of sid (run_router_op op r) = queue_of sid r ++ enqueued sid r op.
Proof.
  destruct op as [sid'|sid' run_id|sid'|sid' run_id|sub|f sids]; cbn [handed_out enqueued run_router_op].
  - unfold open_session, queue_of. destruct (r !! sid') eqn:Hs; cbn; [by rewrite app_nil_r|].
    rewrite app_nil_r. destruct (decide (sid' = sid)) as [->|Hne].
    + by rewrite lookup_insert_eq, Hs.
    + by rewrite lookup_insert_ne.
  - unfold set_active_run, intent_session, put_session, StateR.bind, StateR.modify, queue_of.
    rewrite app_nil_r. cbn. destruct (r !! sid') as [s|] eqn:Hs; [|done]. cbn.
    destruct (decide (sid' = sid)) as [->|Hne].
    + by rewrite lookup_insert_eq, Hs.
    + by rewrite lookup_insert_ne.
  - unfold pop_follow_up, intent_session, put_session, StateR.bind, StateR.modify, queue_of.
    rewrite app_nil_r. destruct (r !! sid') as [s|] eqn:Hs; cbn.
    + destruct (N.eqb_spec sid' sid) as [->|Hne].
      * rewrite Hs. destruct (intent_follow_ups s) as [|x q]; cbn; by rewrite lookup_insert_eq.
      * destruct (intent_follow_ups s); cbn; by rewrite lookup_insert_ne.
    + by destruct (N.eqb_spec sid' sid).
  - unfold take_follow_up_on_run_terminal, intent_session, put_session, StateR.bind,
      StateR.modify, queue_of.
    rewrite app_nil_r. destruct (r !! sid') as [s|] eqn:Hs; cbn; [|by destruct (sid' =? sid)%N].
    case_bool_decide; cbn; [|by destruct (sid' =? sid)%N].
    destruct (N.eqb_spec sid' sid) as [->|Hne].
    + rewrite Hs. destruct (intent_follow_ups s) as [|x q]; cbn; by rewrite lookup_insert_eq.
    + destruct (intent_follow_ups s); cbn; by rewrite lookup_insert_ne.
  - by destruct (submit_queue sid sub r) as [-> _].
  - unfold fanout. destruct sids as [|s sids]; [by rewrite app_nil_r|].
    pose proof (fanout_loop_queue sid f (s :: sids) ∅ r) as Hq.
    destruct (fanout_loop f (s :: sids) ∅ r). cbn [fst] in *. done.
Qed.

(** How often the end of a run handed out a follow-up, and how often the run was
    made the active one. *)
Definition drained_by (sid run_id : Uuid) (r : UserIntentRouter) (op : RouterOp) : nat :=
  match op with
  | OpTerminal sid' run' =>
      if (sid' =? sid)%N && (run' =? run_id)%N then length (handed_out sid r op) else 0
  | _ => 0
  end.

Definition activates (sid run_id : Uuid) (op : RouterOp) : nat :=
  match op with
  | OpSetActive sid' (Some run') => if (sid' =? sid)%N && (run' =? run_id)%N then 1 else 0
  | _ => 0
  end.

Fixpoint drains (sid run_id : Uuid) (r : UserIntentRouter) (ops : list RouterOp) : nat :=
  match ops with
  | [] => 0
  | op :: ops' => drained_by sid run_id r op + drains sid run_id (run_router_op op r) ops'
  end.

Definition activations (sid run_id : Uuid) (ops : list RouterOp) : nat :=
  sum_list_with (activates sid run_id) ops.

Definition is_active (sid run_id : Uuid) (r : UserIntentRouter) : nat :=
  match r !! sid with
  | Some s => if bool_decide (intent_active_run_id s = Some run_id) then 1 else 0
  | None => 0
  end.
Arguments is_active : simpl never.

Lemma is_active_le sid run_id r : is_active sid run_id r ≤ 1.
Proof. unfold is_active. case_match; [case_bool_decide|]; lia. Qed.

Lemma is_active_insert sid run_id sid' s r :
  is_active sid run_id (<[sid' := s]> r) =
  if (sid' =? sid)%N then (if bool_decide (intent_active_run_id s = Some run_id) then 1 else 0)
  else is_active sid run_id r.
Proof.
  unfold is_active. destruct (N.eqb_spec sid' sid) as [->|Hne].
  - by rewrite lookup_insert_eq.
  - by rewrite lookup_insert_ne.
Qed.

(** Submissions leave the active runs as they are. *)
Lemma submit_active sid run_id sub r : is_active sid run_id (submit sub r).1 = is_active sid run_id r.
Proof.
  unfold submit, intent_session, put_session, StateR.bind, StateR.modify.
  destruct (r !! submission_session_id sub) as [s|] eqn:Hs; [|done]. cbn.
  destruct (submission_intent sub); [done|by destruct (intent_active_run_id s)|]. cbn.
  rewrite is_active_insert. cbn. destruct (N.eqb_spec (submission_session_id sub) sid) as [<-|]; [|done].
  unfold is_active. by rewrite Hs.
Qed.

Lemma fanout_loop_active sid run_id f sids results r :
  is_active sid run_id (fanout_loop f sids results r).1 = is_active sid run_id r.
Proof.
  revert results r. induction sids as [|s sids IH]; intros results r; [done|]. cbn -[submit].
  pose proof (submit_active sid run_id (fanout_submission f s) r) as Hs.
  destruct (submit (fanout_submission f s) r) as [r' o]. cbn [fst] in *. by rewrite IH.
Qed.

Lemma router_op_active sid run_id op r :
  drained_by sid run_id r op + is_active sid run_id (run_router_op op r)
  ≤ activates sid run_id op + is_active sid run_id r.
Proof.
  destruct op as [sid'|sid' run'|sid'|sid' run'|sub|f sids];
    cbn [drained_by activates run_router_op]; cbn [Nat.add].
  - unfold open_session. destruct (r !! sid') eqn:Hs; [done|]. rewrite is_active_insert.
    rewrite bool_decide_false by done. destruct (sid' =? sid)%N; lia.
  - unfold set_active_run, intent_session, put_session, StateR.bind, StateR.modify.
    destruct (r !! sid') as [s|] eqn:Hs; cbn; [|lia]. rewrite is_active_insert. cbn.
    destruct (sid' =? sid)%N; [|lia]. destruct run' as [run'|]; [|rewrite bool_decide_false by done; lia].
    destruct (N.eqb_spec run' run_id) as [->|Hne]; cbn; [case_bool_decide; lia|].
    rewrite bool_decide_false by congruence. lia.
  - unfold pop_follow_up, intent_session, put_session, StateR.bind, StateR.modify.
    destruct (r !! sid') as [s|] eqn:Hs; cbn; [|lia].
    destruct (pop_front _) as [q x]. cbn. rewrite is_active_insert. cbn.
    destruct (N.eqb_spec sid' sid) as [->|]; [|lia]. unfold is_active. by rewrite Hs.
  - unfold take_follow_up_on_run_terminal, handed_out, take_follow_up_on_run_terminal,
      intent_session, put_session, StateR.bind, StateR.modify.
    destruct (r !! sid') as [s|] eqn:Hs; cbn; [|by destruct (sid' =? sid)%N, (run' =? run_id)%N; cbn; lia].
    case_bool_decide as Ha; cbn; [|by destruct (sid' =? sid)%N, (run' =? run_id)%N; cbn; lia].
    destruct (pop_front _) as [q x]. cbn. rewrite is_active_insert. cbn.
    destruct (N.eqb_spec sid' sid) as [->|]; cbn; [|lia].
    rewrite bool_decide_false by done. destruct (N.eqb_spec run' run_id) as [->|]; cbn; [|lia].
    unfold is_active. rewrite Hs, Ha, bool_decide_true by done. destruct x; cbn; lia.
  - by rewrite submit_active.
  - unfold fanout. destruct sids as [|s sids]; [done|].
    pose proof (fanout_loop_active sid run_id f (s :: sids) ∅ r) as Hs.
    destruct (fanout_loop f (s :: sids) ∅ r). cbn [fst] in *. lia.
Qed.

Lemma drains_bound sid run_id ops r :
  drains sid run_id r ops ≤ activations sid run_id ops + is_active sid run_id r.
Proof.
  revert r. induction ops as [|op ops IH]; intros r; cbn; [lia|].
  pose proof (router_op_active sid run_id op r). specialize (IH (run_router_op op r)).
  unfold activations in *. lia.
Qed.

Lemma follow_ups_conserved sid ops r :
  let '(ins, outs) := router_history sid r ops in
  queue_of sid r ++ ins = outs ++ queue_of sid (foldl (flip run_router_op) r ops).
Proof.
  revert r. induction ops as [|op ops IH]; intros r; cbn; [by rewrite app_nil_r|].
  specialize (IH (run_router_op op r)).
  destruct (router_history sid (run_router_op op r) ops) as [ins outs].
  by rewrite <-app_assoc, <-IH, !app_assoc, router_op_queue.
Qed.

(** Whatever clients and finishing runs do, in whatever order: the follow-ups
    accepted for a session, text and origin, are exactly the ones handed out so
    far, in the order they were submitted, followed by the ones still queued.
    None is lost, run twice, reordered or moved to another session.  The end of a
    run hands out at most one follow-up each time the run was made active, so two
    callers that report the same end start one turn. *)
Theorem follow_ups_fifo_nothing_lost sid ops :
  (let '(ins, outs) := router_history sid ∅ ops in
   ins = outs ++ queue_of sid (foldl (flip run_router_op) ∅ ops)) ∧
  ∀ run_id, drains sid run_id ∅ ops ≤ activations sid run_id ops.
Proof.
  split.
  - pose proof (follow_ups_conserved sid ops ∅). by destruct (router_history sid ∅ ops).
  - intros run_id. pose proof (drains_bound sid run_id ops ∅) as Hb.
    unfold is_active in Hb. rewrite lookup_empty in Hb. lia.
Qed.

(** A session named twice in a fan-out is sent the follow-up twice, and the map of
    outcomes shows one of them. *)
Example fanout_duplicate_target :
  let f := mkFanout FollowUp "x" User in
  let r := open_session 1 ∅ in
  queue_of 1 (fanout f [1; 1]%N r).1 = [mkFollowUp "x" User; mkFollowUp "x" User] ∧
  match (fanout f [1; 1]%N r).2 with
  | Ok results => size results = 1
  | Err _ => False
  end.
Proof. vm_compute. split; reflexivity. Qed.
