(* ===== verification/WriteSet.v ===== *)
(** * Declared write sets and writer leases

    [crates/impetus-core/src/declared_write_set.rs]: normalisation of declared
    paths and globs, the overlap test, and the table of active writer leases
    with generations. *)

From S2P Require Import Prelude Str PathScope.

Open Scope string_scope.
Open Scope nat_scope.
Open Scope list_scope.
Open Scope impetus_scope.

Record DeclaredWriteSet := mkWriteSet {
  ws_paths : list string;
  ws_globs : list string;
}.

#[export] Instance DeclaredWriteSet_eq_dec : EqDecision DeclaredWriteSet.
Proof. solve_decision. Defined.

Inductive WriteSetError :=
  | WsEmptyChildId
  | WsEmptyPath
  | WsPathEscape (path : string)
  | WsAbsolutePath (path : string)
  | WsConflict (holder : string)
  | WsStale (child_id : string) (offered live : N)
  | WsUnknownChild (child_id : string)
  | WsAlreadyAdmitted (child_id : string).

Definition write_set_new : DeclaredWriteSet := mkWriteSet [] [].

Definition is_unknown (s : DeclaredWriteSet) : bool :=
  match ws_paths s, ws_globs s with [], [] => true | _, _ => false end.

(** ** Normalisation *)

(** The loop over [path.components()]; [parts.pop()] drops the last part. *)
Fixpoint normalize_parts (trimmed : string) (parts : list string) (cs : list Component)
    : result WriteSetError (list string) :=
  match cs with
  | [] => Ok parts
  | CurDir :: cs' => normalize_parts trimmed parts cs'
  | Normal s :: cs' => normalize_parts trimmed (parts ++ [s]) cs'
  | ParentDir :: cs' =>
      match reverse parts with
      | [] => Err (WsPathEscape trimmed)
      | _ :: r => normalize_parts trimmed (reverse r) cs'
      end
  | RootDir :: _ => Err (WsAbsolutePath trimmed)
  end.

Definition normalize_rel (raw : string) : result WriteSetError string :=
  let trimmed := trim raw in
  if is_empty trimmed then Err WsEmptyPath
  else if is_absolute trimmed then Err (WsAbsolutePath trimmed)
  else
    parts ← normalize_parts trimmed [] (components trimmed);
    match parts with
    | [] => Err WsEmptyPath
    | _ => Ok (join "/" parts)
    end.

Definition push_new (n : string) (l : list string) : list string :=
  if existsb (λ p, String.eqb p n) l then l else l ++ [n].

Definition add_path (s : DeclaredWriteSet) (path : string)
    : result WriteSetError DeclaredWriteSet :=
  n ← normalize_rel path; Ok (mkWriteSet (push_new n (ws_paths s)) (ws_globs s)).

Definition add_glob (s : DeclaredWriteSet) (glob : string)
    : result WriteSetError DeclaredWriteSet :=
  n ← normalize_rel glob; Ok (mkWriteSet (ws_paths s) (push_new n (ws_globs s))).

Fixpoint add_all (add : DeclaredWriteSet → string → result WriteSetError DeclaredWriteSet)
    (s : DeclaredWriteSet) (l : list string) : result WriteSetError DeclaredWriteSet :=
  match l with
  | [] => Ok s
  | p :: l' => s' ← add s p; add_all add s' l'
  end.

Definition from_paths := add_all add_path write_set_new.
Definition from_globs := add_all add_glob write_set_new.

(** ** Overlap *)

Definition path_covers (owner candidate : string) : bool :=
  String.eqb owner candidate
  || (starts_with candidate owner
      && bool_decide (String.get (String.length owner) candidate = Some "/"%char)).

Fixpoint match_glob (pat segs : list string) {struct pat} : bool :=
  match pat with
  | [] => match segs with [] => true | _ => false end
  | p :: rest =>
      if String.eqb p "**" then
        match rest with
        | [] => true
        | _ =>
            (fix any_depth (segs : list string) : bool :=
               if match_glob rest segs then true
               else match segs with [] => false | _ :: segs' => any_depth segs' end) segs
        end
      else
        match segs with
        | [] => false
        | s :: segs' =>
            if String.eqb p "*" || String.eqb p s then match_glob rest segs' else false
        end
  end.

Definition glob_matches (pattern path : string) : bool :=
  match_glob (split_on "/" pattern) (split_on "/" path).

(** [str::trim_end_matches] of a string pattern: strip it from the end as long
    as it is there. *)
Fixpoint trim_end_str (fuel : nat) (pat s : string) : string :=
  match fuel with
  | O => s
  | S fuel' =>
      match strip_prefix (string_rev pat) (string_rev s) with
      | Some r => trim_end_str fuel' pat (string_rev r)
      | None => s
      end
  end.

Definition glob_base (g : string) : string := trim_end_str (String.length g) "/**" g.

Definition globs_may_overlap (a b : string) : bool :=
  String.eqb a b || glob_matches a b || glob_matches b a
  || path_covers (glob_base a) (glob_base b)
  || path_covers (glob_base b) (glob_base a).

Definition covers (s : DeclaredWriteSet) (candidate : string) : bool :=
  existsb (λ p, path_covers p candidate || path_covers candidate p) (ws_paths s)
  || existsb (λ g, glob_matches g candidate) (ws_globs s).

Definition overlaps (s other : DeclaredWriteSet) : bool :=
  is_unknown s || is_unknown other
  || existsb (covers other) (ws_paths s)
  || existsb (covers s) (ws_paths other)
  || existsb (λ ag, existsb (globs_may_overlap ag) (ws_globs other)
                    || existsb (glob_matches ag) (ws_paths other)) (ws_globs s)
  || existsb (λ bg, existsb (glob_matches bg) (ws_paths s)) (ws_globs other).

(** ** Leases *)

Record WriterHandoffFence := mkHandoff {
  handoff_child_id : string;
  handoff_generation : N;
  handoff_write_set : DeclaredWriteSet;
}.

Definition WriterHandoffFence_new (child_id : string) (generation : N)
    (s : DeclaredWriteSet) : result WriteSetError WriterHandoffFence :=
  if is_empty (trim child_id) then Err WsEmptyChildId
  else Ok (mkHandoff child_id generation s).

Abbreviation LeaseTable := (gmap string WriterHandoffFence).

(** The unspecified order in which a [HashMap] yields its entries. *)
Definition lease_order := LeaseTable → list (string * WriterHandoffFence).
Definition lease_order_ok (order : lease_order) : Prop := ∀ t, order t ≡ₚ map_to_list t.

(** The first peer, in map order, whose set overlaps. *)
Definition conflicting_peer (order : lease_order) (t : LeaseTable) (f : WriterHandoffFence)
    (skip : string → bool) : option string :=
  fst <$> List.find (λ '(id, peer), negb (skip id)
                      && overlaps (handoff_write_set f) (handoff_write_set peer)) (order t).

Definition lease_admit (order : lease_order) (f : WriterHandoffFence)
    : stateR LeaseTable WriteSetError () := λ t,
  let id := handoff_child_id f in
  if is_empty (trim id) then (t, Err WsEmptyChildId)
  else match t !! id with
  | Some existing =>
      if (handoff_generation f <? handoff_generation existing)%N
      then (t, Err (WsStale id (handoff_generation f) (handoff_generation existing)))
      else if (handoff_generation f =? handoff_generation existing)%N
      then (t, Err (WsAlreadyAdmitted id))
      else match conflicting_peer order t f (String.eqb id) with
           | Some holder => (t, Err (WsConflict holder))
           | None => (<[id := f]> t, Ok tt)
           end
  | None =>
      match conflicting_peer order t f (λ _, false) with
      | Some holder => (t, Err (WsConflict holder))
      | None => (<[id := f]> t, Ok tt)
      end
  end.

Definition assert_live (t : LeaseTable) (child_id : string) (generation : N)
    : result WriteSetError () :=
  match t !! child_id with
  | None => Err (WsUnknownChild child_id)
  | Some live =>
      if negb (generation =? handoff_generation live)%N
      then Err (WsStale child_id generation (handoff_generation live))
      else Ok tt
  end.

Definition lease_bump (child_id : string)
    : stateR LeaseTable WriteSetError WriterHandoffFence := λ t,
  match t !! child_id with
  | None => (t, Err (WsUnknownChild child_id))
  | Some e =>
      let e' := mkHandoff (handoff_child_id e)
                  (saturating_add u64_max (handoff_generation e) 1) (handoff_write_set e) in
      (<[child_id := e']> t, Ok e')
  end.

Definition lease_release (child_id : string)
    : stateR LeaseTable WriteSetError WriterHandoffFence := λ t,
  match t !! child_id with
  | None => (t, Err (WsUnknownChild child_id))
  | Some e => (delete child_id t, Ok e)
  end.

(** ** Sets from role roots *)

Definition component_text (c : Component) : string :=
  match c with Normal n => n | ParentDir => ".." | CurDir => "." | RootDir => "/" end.

(** [root.strip_prefix(cwd)]: the components left after those of [cwd]. *)
Definition strip_path_prefix (root cwd : string) : option string :=
  if path_starts_with root cwd
  then Some (join "/" (component_text <$> drop (length (components cwd)) (components root)))
  else None.

Definition relativize_under_cwd `{FileSystem} (cwd root : string)
    : result WriteSetError string :=
  if negb (is_absolute root) then normalize_rel root
  else
    let cwd_canon := default cwd (canonicalize cwd) in
    let root_canon := default root (canonicalize root) in
    match strip_path_prefix root_canon cwd_canon with
    | None => Err (WsPathEscape root)
    | Some rel => normalize_rel rel
    end.

Fixpoint add_roots `{FileSystem} (cwd : string) (s : DeclaredWriteSet) (roots : list string)
    : result WriteSetError DeclaredWriteSet :=
  match roots with
  | [] => Ok s
  | r :: roots' =>
      rel ← relativize_under_cwd cwd r;
      s' ← add_path s rel;
      add_roots cwd s' roots'
  end.

Definition write_set_from_roots `{FileSystem} (cwd : string) (roots : list string)
    : result WriteSetError DeclaredWriteSet :=
  match roots with
  | [] => Ok write_set_new
  | _ => add_roots cwd write_set_new roots
  end.

Definition explore_readonly_write_set (child_id : string)
    : result WriteSetError DeclaredWriteSet :=
  let id := trim child_id in
  if is_empty id then Err WsEmptyChildId
  else from_paths [(".impetus/explore-lease/" ++ id)%string].

(** ** Paths as segments *)

Lemma split_on_inj s t : split_on "/" s = split_on "/" t → s = t.
Proof. intros E. by rewrite <-(join_split_on (c:="/"%char) s), <-(join_split_on (c:="/"%char) t), E. Qed.

Lemma prefix_app s t : String.prefix s (s ++ t)%string = true.
Proof.
  induction s as [|a s IH]; [by destruct t|]. cbn.
  by destruct (ascii_dec a a).
Qed.

Lemma prefix_split s t : String.prefix s t = true → ∃ r, t = (s ++ r)%string.
Proof.
  revert t. induction s as [|a s IH]; intros t Hp; [by exists t|].
  destruct t as [|b t]; [done|]. cbn in Hp. destruct (ascii_dec a b) as [->|]; [|done].
  destruct (IH _ Hp) as [r ->]. by exists r.
Qed.

Lemma get_app s r : String.get (String.length s) (s ++ r)%string = String.get 0 r.
Proof. by induction s. Qed.

(** Coverage is the prefix order on segments. *)
Lemma path_covers_segments owner c :
  path_covers owner c = true ↔ split_on "/" owner `prefix_of` split_on "/" c.
Proof.
  unfold path_covers. split.
  - intros [->%String.eqb_eq|[Hp Hg]%andb_true_iff]%orb_true_iff; [done|].
    apply bool_decide_eq_true in Hg. apply prefix_split in Hp as [r ->].
    rewrite get_app in Hg. destruct r as [|a r]; [done|]. injection Hg as ->.
    rewrite split_on_app. by eexists.
  - intros [k Hk]. destruct k as [|x k].
    { rewrite app_nil_r in Hk. apply split_on_inj in Hk as ->. by rewrite String.eqb_refl. }
    apply orb_true_iff. right.
    assert (c = (owner ++ String "/" (join "/" (x :: k)))%string) as ->.
    { rewrite <-(join_split_on (c:="/"%char) c), Hk, join_app by (done || apply split_on_nonempty).
      by rewrite join_split_on. }
    apply andb_true_iff. split; [apply prefix_app|]. apply bool_decide_eq_true.
    by rewrite get_app.
Qed.

Lemma path_covers_refl p : path_covers p p = true.
Proof. unfold path_covers. by rewrite String.eqb_refl. Qed.

(** ** Normalisation is lexical resolution *)

Lemma normalize_parts_walk trimmed parts cs :
  RootDir ∉ cs →
  normalize_parts trimmed parts cs =
  match lexical_walk parts cs with Some l => Ok l | None => Err (WsPathEscape trimmed) end.
Proof.
  revert parts. induction cs as [|[| | |n] cs IH]; intros parts Hr; cbn; [done|..].
  - set_solver.
  - apply IH. set_solver.
  - destruct (reverse parts); [done|]. apply IH. set_solver.
  - apply IH. set_solver.
Qed.

Lemma components_relative p : is_absolute p = false → RootDir ∉ components p.
Proof.
  unfold components. intros ->. destruct (split_on "/" p) as [|p0 ps]; [set_solver|].
  rewrite elem_of_app. intros [Hin|Hin].
  - unfold first_component, piece_component in Hin.
    repeat case_match; cbn in Hin; set_solver.
  - apply list_elem_of_omap in Hin as (x & _ & Hx). unfold piece_component in Hx.
    repeat case_match; done.
Qed.

(** What a declared path or glob is stored as: the names it resolves to below
    the workspace, and an error when it is blank, absolute, climbs out or names
    the workspace itself. *)
Lemma normalize_rel_ok raw n :
  normalize_rel raw = Ok n ↔
  is_absolute (trim raw) = false ∧
  ∃ names, lexical_walk [] (components (trim raw)) = Some names ∧
           names ≠ [] ∧ n = join "/" names.
Proof.
  unfold normalize_rel. unfold is_empty.
  destruct (String.eqb_spec (trim raw) "") as [Ht|Ht].
  { rewrite Ht. split; [done|]. intros (_ & names & [= <-] & ? & _). done. }
  destruct (is_absolute (trim raw)) eqn:Ha; [naive_solver|].
  rewrite normalize_parts_walk by by apply components_relative.
  destruct (lexical_walk _ _) as [[|x l]|]; cbn; naive_solver.
Qed.

(** ** Overlap *)

(** The files a declared set claims. *)
Definition claims_file (s : DeclaredWriteSet) (f : string) : Prop :=
  (∃ p, p ∈ ws_paths s ∧ split_on "/" p `prefix_of` split_on "/" f) ∨
  (∃ g, g ∈ ws_globs s ∧ glob_matches g f = true).

Definition path_only (s : DeclaredWriteSet) : Prop := ws_globs s = [] ∧ ws_paths s ≠ [].

Lemma globs_may_overlap_sym a b : globs_may_overlap a b = globs_may_overlap b a.
Proof.
  unfold globs_may_overlap. rewrite (String.eqb_sym a b).
  destruct (String.eqb b a), (glob_matches a b), (glob_matches b a),
    (path_covers (glob_base a) (glob_base b)), (path_covers (glob_base b) (glob_base a)); done.
Qed.

Lemma existsb_comm {A B} (f : A → B → bool) l k :
  existsb (λ x, existsb (f x) k) l = existsb (λ y, existsb (λ x, f x y) l) k.
Proof.
  apply eq_true_iff_eq. rewrite !existsb_bool. setoid_rewrite existsb_bool. naive_solver.
Qed.

Lemma existsb_ext {A} (f g : A → bool) l : (∀ x, f x = g x) → existsb f l = existsb g l.
Proof. intros E. induction l; cbn; [done|]. by rewrite E, IHl. Qed.

Lemma existsb_orb {A} (f g : A → bool) l :
  existsb (λ x, f x || g x) l = existsb f l || existsb g l.
Proof.
  induction l as [|x l IH]; cbn; [done|]. rewrite IH.
  by destruct (f x), (g x), (existsb f l).
Qed.

Lemma overlaps_sym s t : overlaps s t = overlaps t s.
Proof.
  unfold overlaps. rewrite !existsb_orb.
  rewrite (existsb_comm globs_may_overlap (ws_globs s)).
  rewrite (existsb_ext (λ y, existsb (λ x, globs_may_overlap x y) (ws_globs s))
             (λ ag, existsb (globs_may_overlap ag) (ws_globs s)))
    by (intros; apply existsb_ext; intros; apply globs_may_overlap_sym).
  destruct (is_unknown s), (is_unknown t), (existsb (covers t) _), (existsb (covers s) _),
    (existsb (λ ag, existsb (globs_may_overlap ag) (ws_globs s)) (ws_globs t)),
    (existsb (λ ag, existsb (glob_matches ag) (ws_paths t)) (ws_globs s)),
    (existsb (λ ag, existsb (glob_matches ag) (ws_paths s)) (ws_globs t)); done.
Qed.

Lemma covers_paths s c :
  ws_globs s = [] →
  covers s c = true ↔ ∃ p, p ∈ ws_paths s ∧
    (split_on "/" p `prefix_of` split_on "/" c ∨ split_on "/" c `prefix_of` split_on "/" p).
Proof.
  intros Hg. unfold covers. rewrite Hg. cbn. rewrite orb_false_r, existsb_bool.
  setoid_rewrite orb_true_iff. by setoid_rewrite path_covers_segments.
Qed.

Lemma path_overlap_iff s t :
  path_only s → path_only t →
  overlaps s t = true ↔ ∃ f, claims_file s f ∧ claims_file t f.
Proof.
  intros [Hgs Hps] [Hgt Hpt]. unfold overlaps, is_unknown. rewrite Hgs, Hgt.
  cbn [existsb]. rewrite !orb_false_r.
  assert ((match ws_paths s with [] => true | _ => false end) = false) as ->
    by (by destruct (ws_paths s)).
  assert ((match ws_paths t with [] => true | _ => false end) = false) as ->
    by (by destruct (ws_paths t)).
  cbn [orb]. rewrite orb_true_iff, !existsb_bool.
  setoid_rewrite (covers_paths s); [|done]. setoid_rewrite (covers_paths t); [|done].
  assert (∀ p q, p ∈ ws_paths s → q ∈ ws_paths t →
    split_on "/" p `prefix_of` split_on "/" q ∨ split_on "/" q `prefix_of` split_on "/" p →
    ∃ f, claims_file s f ∧ claims_file t f) as Hcommon.
  { intros p q Hp Hq [Hpre|Hpre]; [exists q|exists p]; split; left; eauto. }
  split.
  - intros [(p & Hp & q & Hq & Hpre)|(q & Hq & p & Hp & Hpre)]; eapply Hcommon; eauto.
    naive_solver.
  - intros (f & [(p & Hp & Hpf)|(g & Hg & _)] & [(q & Hq & Hqf)|(g' & Hg' & _)]);
      [|rewrite ?Hgs, ?Hgt in *; set_solver..].
    left. exists p. split; [done|]. exists q. split; [done|].
    destruct (prefix_weak_total _ _ _ Hpf Hqf); auto.
Qed.

(** Between declared sets of paths the overlap test is exact: it answers yes
    exactly when some workspace file lies under a path of each set. *)
Theorem path_overlap_exact s t :
  path_only s → path_only t →
  overlaps s t = true ↔ ∃ f, claims_file s f ∧ claims_file t f.
Proof. apply path_overlap_iff. Qed.

Lemma path_overlap_exact_witness :
  let s := mkWriteSet ["src/a"] [] in let t := mkWriteSet ["src"; "docs"] [] in
  overlaps s t = true.
Proof.
  apply (path_overlap_exact (mkWriteSet ["src/a"] []) (mkWriteSet ["src"; "docs"] []));
    [by split|by split|].
  exists "src/a/x.rs". split; left.
  - exists "src/a". split; [set_solver|]. by exists ["x.rs"].
  - exists "src". split; [set_solver|]. by exists ["a"; "x.rs"].
Defined.

(** With globs the overlap test misses common files: a directory and a glob
    of the files in it do not overlap, nor do two globs whose wildcards stand at
    different segments, although one file belongs to both scopes. *)
Theorem glob_overlap_misses_common_file :
  let dir := mkWriteSet ["src"] [] in let files := mkWriteSet [] ["src/*"] in
  let rows := mkWriteSet [] ["src/*/a"] in let cols := mkWriteSet [] ["src/b/*"] in
  (overlaps dir files = false ∧ claims_file dir "src/x" ∧ claims_file files "src/x") ∧
  (overlaps rows cols = false ∧ claims_file rows "src/b/a" ∧ claims_file cols "src/b/a").
Proof.
  split; (split; [by vm_compute|]); split.
  - left. exists "src". split; [set_solver|]. by exists ["x"].
  - right. exists "src/*". split; [set_solver|by vm_compute].
  - right. exists "src/*/a". split; [set_solver|by vm_compute].
  - right. exists "src/b/*". split; [set_solver|by vm_compute].
Qed.

(** ** The lease table *)

Lemma conflicting_peer_none order t f skip :
  lease_order_ok order →
  conflicting_peer order t f skip = None ↔
  ∀ id peer, t !! id = Some peer → skip id = false →
    overlaps (handoff_write_set f) (handoff_write_set peer) = false.
Proof.
  intros Hord. unfold conflicting_peer. rewrite fmap_None. split.
  - intros Hf id peer Hid Hskip.
    assert ((id, peer) ∈ order t) as Hin by (rewrite (Hord t); by apply elem_of_map_to_list).
    apply list_elem_of_In in Hin. pose proof (List.find_none _ _ Hf _ Hin) as Hn.
    cbn in Hn. rewrite Hskip in Hn. done.
  - intros Hall. destruct (List.find _ _) as [[id peer]|] eqn:Hf; [|done].
    apply find_some_elem in Hf as [Hin Hb]. rewrite (Hord t) in Hin.
    apply elem_of_map_to_list in Hin. apply andb_true_iff in Hb as [Hs%negb_true_iff Ho].
    by rewrite (Hall _ _ Hin Hs) in Ho.
Qed.

(** Whom a fence would collide with. *)
Definition peers_disjoint (t : LeaseTable) (f : WriterHandoffFence) : Prop :=
  ∀ id peer, t !! id = Some peer → id ≠ handoff_child_id f →
    overlaps (handoff_write_set f) (handoff_write_set peer) = false.

Lemma lease_admit_cases order f t :
  lease_order_ok order →
  (trim (handoff_child_id f) ≠ "" ∧
   (∀ e, t !! handoff_child_id f = Some e → (handoff_generation e < handoff_generation f)%N) ∧
   peers_disjoint t f ∧ lease_admit order f t = (<[handoff_child_id f := f]> t, Ok tt)) ∨
  (∃ err, lease_admit order f t = (t, Err err)).
Proof.
  intros Hord. unfold lease_admit, is_empty.
  destruct (String.eqb_spec (trim (handoff_child_id f)) ""); [by right; eexists|].
  destruct (t !! handoff_child_id f) as [e|] eqn:He.
  - destruct (N.ltb_spec (handoff_generation f) (handoff_generation e)); [by right; eexists|].
    destruct (N.eqb_spec (handoff_generation f) (handoff_generation e)); [by right; eexists|].
    destruct (conflicting_peer _ _ _ _) eqn:Hc; [by right; eexists|].
    rewrite conflicting_peer_none in Hc by done. left. split_and!; [done| |..].
    + intros e' [= <-]. lia.
    + intros id peer Hid Hne. apply (Hc id peer Hid). by apply String.eqb_neq.
    + done.
  - destruct (conflicting_peer _ _ _ _) eqn:Hc; [by right; eexists|].
    rewrite conflicting_peer_none in Hc by done. left. split_and!; [done|done| |done].
    intros id peer Hid _. by apply (Hc id peer).
Qed.

Inductive lease_step : LeaseTable → LeaseTable → Prop :=
  | lease_step_admit order f t t' r :
      lease_order_ok order → lease_admit order f t = (t', r) → lease_step t t'
  | lease_step_bump id t t' r : lease_bump id t = (t', r) → lease_step t t'
  | lease_step_release id t t' r : lease_release id t = (t', r) → lease_step t t'.

Definition leases_disjoint (t : LeaseTable) : Prop := ∀ a b fa fb,
  t !! a = Some fa → t !! b = Some fb → a ≠ b →
  overlaps (handoff_write_set fa) (handoff_write_set fb) = false.

(** Replacing a lease by one whose set meets no other lease. *)
Lemma insert_disjoint (t : LeaseTable) id f :
  leases_disjoint t →
  (∀ a fa, t !! a = Some fa → a ≠ id →
     overlaps (handoff_write_set f) (handoff_write_set fa) = false) →
  leases_disjoint (<[id := f]> t).
Proof.
  intros Hd Hf a b fa fb Ha Hb Hne.
  destruct (decide (a = id)) as [->|]; destruct (decide (b = id)) as [->|]; [done|..];
    rewrite ?lookup_insert_eq, ?lookup_insert_ne in * by done; simplify_eq; eauto.
  rewrite overlaps_sym. eauto.
Qed.

Lemma lease_step_disjoint t t' : lease_step t t' → leases_disjoint t → leases_disjoint t'.
Proof.
  intros [order f t0 t0' r Hord Ha|id t0 t0' r Hb|id t0 t0' r Hr] Hd.
  - destruct (lease_admit_cases order f t0 Hord) as [(_ & _ & Hp & E)|[err E]];
      rewrite E in Ha; simplify_eq; [|done].
    apply insert_disjoint; [done|]. intros a fa Hfa Hne. by apply (Hp a).
  - unfold lease_bump in Hb. destruct (t0 !! id) as [e|] eqn:He; simplify_eq; [|done].
    apply insert_disjoint; [done|]. cbn. intros a fa Ha Hne. by apply (Hd id a).
  - unfold lease_release in Hr. destruct (t0 !! id) as [e|]; simplify_eq; [|done].
    intros a b fa fb [_ Ha]%lookup_delete_Some [_ Hb]%lookup_delete_Some. eauto.
Qed.

(** Writers never share a file: in every lease table reached from the empty
    one by admissions, handoffs, bumps and releases, in any order, two children
    whose leases declare paths claim no common workspace file. *)
Theorem live_leases_claim_disjoint_files t a b fa fb file :
  rtc lease_step ∅ t → t !! a = Some fa → t !! b = Some fb → a ≠ b →
  path_only (handoff_write_set fa) → path_only (handoff_write_set fb) →
  ¬ (claims_file (handoff_write_set fa) file ∧ claims_file (handoff_write_set fb) file).
Proof.
  intros Hsteps Ha Hb Hne Hpa Hpb Hboth.
  assert (leases_disjoint t) as Hd.
  { assert (leases_disjoint ∅) as H0 by (intros ? ? ? ?; by rewrite lookup_empty).
    revert H0. clear -Hsteps. induction Hsteps; eauto using lease_step_disjoint. }
  assert (overlaps (handoff_write_set fa) (handoff_write_set fb) = true) as Ho.
  { apply path_overlap_iff; eauto. }
  by rewrite (Hd a b fa fb) in Ho.
Qed.

Lemma live_leases_witness :
  let fa := mkHandoff "a" 1 (mkWriteSet ["src/a.rs"] []) in
  let fb := mkHandoff "b" 1 (mkWriteSet ["src/b.rs"] []) in
  ¬ (claims_file (handoff_write_set fa) "src/a.rs" ∧
     claims_file (handoff_write_set fb) "src/a.rs").
Proof.
  set (fa := mkHandoff "a" 1 (mkWriteSet ["src/a.rs"] [])).
  set (fb := mkHandoff "b" 1 (mkWriteSet ["src/b.rs"] [])).
  apply (live_leases_claim_disjoint_files (<["b" := fb]> {["a" := fa]}) "a" "b" fa fb);
    [|by vm_compute|by vm_compute|done|by split|by split].
  assert (lease_order_ok map_to_list) as Hord by (intros t; done).
  eapply rtc_l; [apply (lease_step_admit map_to_list fa ∅ {["a" := fa]} (Ok tt) Hord)|].
  { by vm_compute. }
  apply rtc_once. apply (lease_step_admit map_to_list fb _ _ (Ok tt) Hord). by vm_compute.
Defined.

(** A bump invalidates the generation handed out before, up to saturation. *)
Lemma bump_invalidates id t t' e g :
  t !! id = Some e → (handoff_generation e < u64_max)%N → lease_bump id t = (t', Ok g) →
  assert_live t' id (handoff_generation e) =
    Err (WsStale id (handoff_generation e) (handoff_generation e + 1)) ∧
  assert_live t' id (handoff_generation e + 1) = Ok tt.
Proof.
  intros He Hlt Hb. unfold lease_bump in Hb. rewrite He in Hb. simplify_eq.
  unfold assert_live. rewrite lookup_insert_eq. cbn [handoff_generation].
  assert (saturating_add u64_max (handoff_generation e) 1 = handoff_generation e + 1)%N as ->
    by (unfold saturating_add; lia).
  rewrite N.eqb_refl. rewrite (proj2 (N.eqb_neq _ _)) by lia. done.
Qed.
