(* ===== verification/Concurrency.v ===== *)
(** * Child-run concurrency gate

    [crates/impetus-core/src/child_concurrency.rs]: a global cap and an optional
    cap per parent on the simultaneously admitted child runs. *)

From S2P Require Import Prelude Str.

Open Scope string_scope.
Open Scope nat_scope.
Open Scope list_scope.

Definition DEFAULT_CHILD_CONCURRENCY_CAP : nat := 4.
Definition DEFAULT_PER_PARENT_CHILD_CAP : nat := 2.

Record ChildConcurrencyConfig := mkConcurrencyConfig {
  global_cap : nat;
  config_per_parent_cap : option nat;
}.

Definition ChildConcurrencyConfig_default : ChildConcurrencyConfig :=
  mkConcurrencyConfig DEFAULT_CHILD_CONCURRENCY_CAP None.

Inductive ChildConcurrencyError :=
  | ZeroCap
  | EmptyRunId
  | EmptyParentId
  | CapReached (active cap : nat)
  | ParentCapReached (parent_id : string) (active cap : nat)
  | AlreadyAdmitted (run_id : string)
  | UnknownRun (run_id : string).

Definition with_caps (cap : nat) (per_parent : option nat)
    : result ChildConcurrencyError ChildConcurrencyConfig :=
  if cap =? 0 then Err ZeroCap
  else if bool_decide (per_parent = Some 0) then Err ZeroCap
  else Ok (mkConcurrencyConfig cap per_parent).

Record ChildConcurrencyGate := mkGate {
  gate_cap : nat;
  gate_per_parent_cap : option nat;
  gate_active : gset string;
  gate_parent_of : gmap string string;
  gate_active_by_parent : gmap string nat;
}.

Definition from_config (c : ChildConcurrencyConfig)
    : result ChildConcurrencyError ChildConcurrencyGate :=
  if (global_cap c =? 0) || bool_decide (config_per_parent_cap c = Some 0) then Err ZeroCap
  else Ok (mkGate (global_cap c) (config_per_parent_cap c) ∅ ∅ ∅).

Definition active_count (g : ChildConcurrencyGate) : nat := size (gate_active g).

Definition active_count_for_parent (g : ChildConcurrencyGate) (parent_id : string) : nat :=
  default 0 (gate_active_by_parent g !! parent_id).

(** The trimmed parent key, or the error for a blank one. *)
Definition parent_key (parent_id : option string)
    : result ChildConcurrencyError (option string) :=
  match parent_id with
  | None => Ok None
  | Some id =>
      let trimmed := trim id in
      if is_empty trimmed then Err EmptyParentId else Ok (Some trimmed)
  end.

(** The slot bookkeeping after all checks. *)
Definition take_slot (g : ChildConcurrencyGate) (run_id : string) (key : option string)
    : ChildConcurrencyGate :=
  match key with
  | Some p =>
      mkGate (gate_cap g) (gate_per_parent_cap g) ({[run_id]} ∪ gate_active g)
        (<[run_id := p]> (gate_parent_of g))
        (<[p := S (active_count_for_parent g p)]> (gate_active_by_parent g))
  | None =>
      mkGate (gate_cap g) (gate_per_parent_cap g) ({[run_id]} ∪ gate_active g)
        (gate_parent_of g) (gate_active_by_parent g)
  end.

Definition admit_for_parent (run_id : string) (parent_id : option string)
    : stateR ChildConcurrencyGate ChildConcurrencyError () := λ g,
  if is_empty run_id then (g, Err EmptyRunId)
  else if bool_decide (run_id ∈ gate_active g) then (g, Err (AlreadyAdmitted run_id))
  else if gate_cap g <=? active_count g then (g, Err (CapReached (active_count g) (gate_cap g)))
  else match parent_key parent_id with
  | Err e => (g, Err e)
  | Ok key =>
      match key, gate_per_parent_cap g with
      | Some p, Some parent_cap =>
          if parent_cap <=? active_count_for_parent g p
          then (g, Err (ParentCapReached p (active_count_for_parent g p) parent_cap))
          else (take_slot g run_id key, Ok tt)
      | _, _ => (take_slot g run_id key, Ok tt)
      end
  end.

Definition gate_admit (run_id : string) := admit_for_parent run_id None.
Definition admit_child (child_run_id parent_id : string) :=
  admit_for_parent child_run_id (Some parent_id).

(** [get_mut] of the parent's counter: decrement, drop at zero. *)
Definition drop_slot (by_parent : gmap string nat) (p : string) : gmap string nat :=
  match by_parent !! p with
  | None => by_parent
  | Some count => if count - 1 =? 0 then delete p by_parent else <[p := count - 1]> by_parent
  end.

Definition gate_release (run_id : string)
    : stateR ChildConcurrencyGate ChildConcurrencyError () := λ g,
  if is_empty run_id then (g, Err EmptyRunId)
  else if negb (bool_decide (run_id ∈ gate_active g)) then (g, Err (UnknownRun run_id))
  else
    (mkGate (gate_cap g) (gate_per_parent_cap g) (gate_active g ∖ {[run_id]})
       (delete run_id (gate_parent_of g))
       (match gate_parent_of g !! run_id with
        | Some p => drop_slot (gate_active_by_parent g) p
        | None => gate_active_by_parent g
        end), Ok tt).

(** ** The caps hold in every reachable gate *)

(** The active runs of a parent. *)
Definition runs_of (m : gmap string string) (p : string) : gmap string string :=
  filter (λ kv, kv.2 = p) m.

Record gate_wf (g : ChildConcurrencyGate) : Prop := {
  wf_cap : size (gate_active g) ≤ gate_cap g;
  wf_dom : dom (gate_parent_of g) ⊆ gate_active g;
  wf_counts : ∀ p, active_count_for_parent g p = size (runs_of (gate_parent_of g) p);
  wf_positive : ∀ p, gate_active_by_parent g !! p ≠ Some 0;
  wf_parent_cap : ∀ p c, gate_per_parent_cap g = Some c → active_count_for_parent g p ≤ c;
}.

Lemma runs_of_insert m k p q :
  m !! k = None →
  size (runs_of (<[k := p]> m) q) = if decide (p = q) then S (size (runs_of m q))
                                    else size (runs_of m q).
Proof.
  intros Hk. unfold runs_of. case_decide as Hq.
  - rewrite map_filter_insert_True by done. rewrite map_size_insert_None; [done|].
    apply map_lookup_filter_None. by left.
  - rewrite map_filter_insert_False by done. by rewrite delete_id.
Qed.

Lemma runs_of_delete m k p q :
  m !! k = Some p →
  size (runs_of (delete k m) q) = if decide (p = q) then size (runs_of m q) - 1
                                  else size (runs_of m q).
Proof.
  intros Hk. pose proof (runs_of_insert (delete k m) k p q (lookup_delete_eq m k)) as E.
  rewrite insert_delete_id in E by done. case_decide; lia.
Qed.

Lemma take_slot_wf g run key :
  gate_wf g → run ∉ gate_active g → size (gate_active g) < gate_cap g →
  (∀ p c, key = Some p → gate_per_parent_cap g = Some c → active_count_for_parent g p < c) →
  gate_wf (take_slot g run key).
Proof.
  intros [Hcap Hdom Hcnt Hpos Hpc] Hnew Hroom Hproom.
  assert (size ({[run]} ∪ gate_active g) = S (size (gate_active g))) as Hsz.
  { rewrite size_union by set_solver. by rewrite size_singleton. }
  assert (gate_parent_of g !! run = None) as Hnp.
  { apply not_elem_of_dom. set_solver. }
  destruct key as [p|]; split; cbn -[union].
  - rewrite Hsz. lia.
  - rewrite dom_insert_L. set_solver.
  - intros q. rewrite runs_of_insert by done. unfold active_count_for_parent in *.
    cbn -[union]. rewrite <-!Hcnt. case_decide as Hq; [subst q; by rewrite lookup_insert_eq|].
    by rewrite lookup_insert_ne.
  - intros q. destruct (decide (p = q)) as [->|]; [by rewrite lookup_insert_eq|].
    by rewrite lookup_insert_ne.
  - intros q c Hc. unfold active_count_for_parent in *. cbn -[union].
    destruct (decide (p = q)) as [->|].
    + rewrite lookup_insert_eq. specialize (Hproom q c eq_refl Hc). cbn. lia.
    + rewrite lookup_insert_ne by done. eauto.
  - rewrite Hsz. lia.
  - set_solver.
  - exact Hcnt.
  - exact Hpos.
  - exact Hpc.
Qed.

Lemma drop_slot_lookup m p q :
  m !! p ≠ Some 0 →
  default 0 (drop_slot m p !! q) =
    (if decide (p = q) then default 0 (m !! q) - 1 else default 0 (m !! q)) ∧
  (m !! q ≠ Some 0 → drop_slot m p !! q ≠ Some 0).
Proof.
  intros Hp. unfold drop_slot. destruct (m !! p) as [n|] eqn:Em.
  - destruct (Nat.eqb_spec (n - 1) 0); case_decide as Hq;
      try subst q; rewrite ?lookup_delete_eq, ?lookup_delete_ne, ?lookup_insert_eq,
        ?lookup_insert_ne by done; rewrite ?Em; cbn; split; try lia; try done.
    congruence.
  - case_decide as Hq; [subst q; rewrite Em|]; done.
Qed.

Lemma release_wf run g g' r : gate_wf g → gate_release run g = (g', r) → gate_wf g'.
Proof.
  intros Hwf. pose proof Hwf as [Hcap Hdom Hcnt Hpos Hpc]. unfold gate_release.
  destruct (is_empty run); [by intros [= <- <-]|].
  case_bool_decide as Hin; cbn [negb]; [|by intros [= <- <-]]. intros [= <- <-].
  destruct (gate_parent_of g !! run) as [p|] eqn:Hp.
  - assert (∀ q, default 0 (drop_slot (gate_active_by_parent g) p !! q) =
       if decide (p = q) then active_count_for_parent g q - 1 else active_count_for_parent g q)
      as Hd by (intros q; apply drop_slot_lookup, Hpos).
    split; cbn.
    + etrans; [|exact Hcap]. apply subseteq_size. set_solver.
    + rewrite dom_delete_L. set_solver.
    + intros q. unfold active_count_for_parent at 1. cbn.
      rewrite Hd, (runs_of_delete _ _ p) by done. by rewrite Hcnt.
    + intros q. by apply drop_slot_lookup.
    + intros q c Hc. unfold active_count_for_parent at 1. cbn. rewrite Hd.
      specialize (Hpc q c Hc). case_decide; lia.
  - rewrite delete_id by done. split; cbn; [|..|done|done|done].
    + etrans; [|exact Hcap]. apply subseteq_size. set_solver.
    + apply not_elem_of_dom in Hp. set_solver.
Qed.

Lemma admit_wf run parent g g' r :
  gate_wf g → admit_for_parent run parent g = (g', r) → gate_wf g'.
Proof.
  intros Hwf. unfold admit_for_parent, active_count.
  destruct (is_empty run); [by intros [= <- <-]|].
  case_bool_decide as Hin; [by intros [= <- <-]|].
  destruct (Nat.leb_spec (gate_cap g) (size (gate_active g))); [by intros [= <- <-]|].
  destruct (parent_key parent) as [key|]; [|by intros [= <- <-]].
  destruct key as [p|], (gate_per_parent_cap g) as [c|] eqn:Hc;
    [destruct (Nat.leb_spec c (active_count_for_parent g p)); [by intros [= <- <-]|]|..];
    intros Heq; apply (f_equal fst) in Heq; cbn [fst] in Heq; subst g';
    apply take_slot_wf; try done; intros ? ? [= <-]; congruence.
Qed.

Lemma admit_keeps_caps run parent g :
  let g' := (admit_for_parent run parent g).1 in
  gate_cap g' = gate_cap g ∧ gate_per_parent_cap g' = gate_per_parent_cap g.
Proof.
  unfold admit_for_parent, take_slot.
  destruct (is_empty run); [done|]. case_bool_decide; [done|].
  destruct (_ <=? _); [done|]. destruct (parent_key parent) as [[p|]|]; [|done..].
  destruct (gate_per_parent_cap g) eqn:Hc; [|done]. by destruct (_ <=? _).
Qed.

Lemma release_keeps_caps run g :
  let g' := (gate_release run g).1 in
  gate_cap g' = gate_cap g ∧ gate_per_parent_cap g' = gate_per_parent_cap g.
Proof.
  unfold gate_release. destruct (is_empty run); [done|]. by case_bool_decide.
Qed.

Inductive gate_step : ChildConcurrencyGate → ChildConcurrencyGate → Prop :=
  | gate_step_admit run parent g g' r :
      admit_for_parent run parent g = (g', r) → gate_step g g'
  | gate_step_release run g g' r : gate_release run g = (g', r) → gate_step g g'.

(** The caps are never exceeded: in every gate reached from a fresh one by
    admissions and releases, at most [global_cap] runs are active, the counter
    of every parent equals the number of its active runs, and it stays within
    the per-parent cap. *)
Theorem concurrency_caps_hold config g0 g p :
  from_config config = Ok g0 → rtc gate_step g0 g →
  size (gate_active g) ≤ global_cap config ∧
  active_count_for_parent g p = size (runs_of (gate_parent_of g) p) ∧
  (∀ c, config_per_parent_cap config = Some c → active_count_for_parent g p ≤ c).
Proof.
  intros Hg0 Hsteps.
  assert (gate_wf g ∧ gate_cap g = global_cap config ∧
          gate_per_parent_cap g = config_per_parent_cap config) as (Hwf & Hc & Hp).
  { unfold from_config in Hg0. destruct (_ || _) eqn:Hz; [done|]. injection Hg0 as <-.
    assert (gate_wf (mkGate (global_cap config) (config_per_parent_cap config) ∅ ∅ ∅)) as H0.
    { split; cbn; [rewrite size_empty; lia|set_solver| | |].
      - intros q. unfold active_count_for_parent, runs_of. cbn.
        by rewrite lookup_empty, map_filter_empty, map_size_empty.
      - intros q. by rewrite lookup_empty.
      - intros q c Hc. unfold active_count_for_parent. cbn. rewrite lookup_empty. cbn. lia. }
    remember (mkGate _ _ _ _ _) as g0 eqn:E.
    assert (gate_cap g0 = global_cap config ∧
            gate_per_parent_cap g0 = config_per_parent_cap config) as Hcfg by by subst g0.
    clear E Hz. induction Hsteps as [|g1 g2 g3 Hs _ IH]; [done|].
    apply IH.
    - destruct Hs; [by eapply admit_wf|by eapply release_wf].
    - destruct Hs as [run parent g g' r Ha|run g g' r Ha].
      + pose proof (admit_keeps_caps run parent g) as [Ec Ep]. rewrite Ha in Ec, Ep.
        cbn in Ec, Ep. by rewrite Ec, Ep.
      + pose proof (release_keeps_caps run g) as [Ec Ep]. rewrite Ha in Ec, Ep.
        cbn in Ec, Ep. by rewrite Ec, Ep. }
  rewrite <-Hc, <-Hp. split_and!; [apply Hwf|apply Hwf|]. intros c. apply Hwf.
Qed.

Lemma concurrency_caps_witness :
  ∃ g0 g, from_config (mkConcurrencyConfig 2 (Some 1)) = Ok g0 ∧
    (admit_child "c1" "p" g0).1 = g ∧ admit_child "c2" " p " g = (g, Err (ParentCapReached "p" 1 1)) ∧
    size (gate_active g) ≤ 2.
Proof.
  eexists. eexists. split; [reflexivity|]. split; [reflexivity|]. split; [by vm_compute|].
  eapply (concurrency_caps_hold (mkConcurrencyConfig 2 (Some 1)) _ _ "p"); [reflexivity|].
  apply rtc_once. eapply (gate_step_admit "c1" (Some "p")). apply surjective_pairing.
Defined.
