(* ===== verification/Scheduler.v ===== *)
(** * Subagent roles and the in-memory agent scheduler

    [crates/impetus-core/src/subagent_metadata.rs] (roles and child-run
    metadata) and [crates/impetus-core/src/agent_scheduler.rs] (admission of
    role-tagged tasks, result slots, and scheduling under a writer lease). *)

From S2P Require Import Prelude Str PathScope WriteSet.

Open Scope string_scope.
Open Scope nat_scope.
Open Scope list_scope.
Open Scope impetus_scope.

(** ** Roles *)

Inductive SubagentRole := Explore | Research | Build | Review.

#[export] Instance SubagentRole_eq_dec : EqDecision SubagentRole.
Proof. solve_decision. Defined.

Inductive SubagentCapabilityIntent :=
  | IntentReadOnly
  | IntentReadPlusApprovedWeb
  | IntentIsolatedWorktreeWrites
  | IntentReadOnlyDiffAndTests.

Definition role_as_str (r : SubagentRole) : string :=
  match r with
  | Explore => "Explore" | Research => "Research" | Build => "Build" | Review => "Review"
  end.

Definition parse_label (label : string) : option SubagentRole :=
  if String.eqb label "Explore" then Some Explore
  else if String.eqb label "Research" then Some Research
  else if String.eqb label "Build" then Some Build
  else if String.eqb label "Review" then Some Review
  else None.

Definition capability_intent (r : SubagentRole) : SubagentCapabilityIntent :=
  match r with
  | Explore => IntentReadOnly
  | Research => IntentReadPlusApprovedWeb
  | Build => IntentIsolatedWorktreeWrites
  | Review => IntentReadOnlyDiffAndTests
  end.

Definition may_claim_write_roots (r : SubagentRole) : bool :=
  match r with Explore | Review => false | _ => true end.

Definition requires_worktree (r : SubagentRole) : bool :=
  match r with Build => true | _ => false end.

Record ChildRunMetadata := mkChildRun {
  child_parent_id : string;
  child_cwd : string;
  child_worktree : option string;
  child_allowed_tools : list string;
  child_write_roots : list string;
  child_max_tokens : N;
  child_max_time : N;
  child_max_depth : N;
  child_role : SubagentRole;
}.

Inductive ChildRunMetadataError :=
  | MetaEmptyParentId
  | NonPositiveMaxTokens
  | NonPositiveMaxTime
  | NonPositiveMaxDepth
  | BuildMissingWorktree
  | WriteRootsNotAllowed (role : SubagentRole).

Definition metadata_validate (m : ChildRunMetadata) : result ChildRunMetadataError () :=
  if is_empty (trim (child_parent_id m)) then Err MetaEmptyParentId
  else if (child_max_tokens m =? 0)%N then Err NonPositiveMaxTokens
  else if (child_max_time m =? 0)%N then Err NonPositiveMaxTime
  else if (child_max_depth m =? 0)%N then Err NonPositiveMaxDepth
  else if requires_worktree (child_role m)
          && from_option (λ id, is_empty (trim id)) true (child_worktree m)
  then Err BuildMissingWorktree
  else if negb (may_claim_write_roots (child_role m))
          && negb (bool_decide (child_write_roots m = []))
  then Err (WriteRootsNotAllowed (child_role m))
  else Ok tt.

(** ** The scheduler *)

Record RoleScheduleTask := mkTask {
  task_workflow_id : string;
  task_step_id : string;
  task_role : option SubagentRole;
}.

Record ScheduleAdmission := mkAdmission {
  admission_schedule_id : string;
  admission_result_slot : string;
}.

Inductive ScheduleStatus := ScheduleAdmitted | ScheduleCompleted | ScheduleCancelled.

#[export] Instance ScheduleStatus_eq_dec : EqDecision ScheduleStatus.
Proof. solve_decision. Defined.

Record ScheduleRecord := mkScheduleRecord {
  record_task : RoleScheduleTask;
  record_schedule_id : string;
  record_result_slot : string;
  record_status : ScheduleStatus;
  record_result : option string;
}.

Inductive AgentSchedulerError :=
  | SchedRejected (step_id : string)
  | UnknownSchedule (schedule_id : string)
  | NotAdmitted (schedule_id : string) (status : ScheduleStatus)
  | SchedUnknownRole (label : string)
  | WriteLease (e : WriteSetError).

Record InMemoryAgentScheduler := mkScheduler {
  next_seq : N;
  sched_admit : bool;
  sched_records : gmap string ScheduleRecord;
}.

Definition scheduler_new : InMemoryAgentScheduler := mkScheduler 0 true ∅.

Definition set_admit (s : InMemoryAgentScheduler) (b : bool) : InMemoryAgentScheduler :=
  mkScheduler (next_seq s) b (sched_records s).

Definition sched_active_count (s : InMemoryAgentScheduler) : nat :=
  size (filter (λ kv, record_status kv.2 = ScheduleAdmitted) (sched_records s)).

Definition sched_id (n : N) : string := ("sched-" ++ dec_padded 4 n)%string.

Definition schedule (t : RoleScheduleTask)
    : stateR InMemoryAgentScheduler AgentSchedulerError ScheduleAdmission := λ s,
  if negb (sched_admit s) then (s, Err (SchedRejected (task_step_id t)))
  else
    let n := saturating_add u64_max (next_seq s) 1 in
    let id := sched_id n in
    let slot := ("slot-" ++ task_workflow_id t ++ "-" ++ task_step_id t)%string in
    (mkScheduler n (sched_admit s)
       (<[id := mkScheduleRecord t id slot ScheduleAdmitted None]> (sched_records s)),
     Ok (mkAdmission id slot)).

Definition schedule_with_write_lease (order : lease_order) (t : RoleScheduleTask)
    (f : WriterHandoffFence)
    : stateR (InMemoryAgentScheduler * LeaseTable) AgentSchedulerError ScheduleAdmission :=
  λ '(s, leases),
  let child_id := handoff_child_id f in
  match lease_admit order f leases with
  | (leases1, Err e) => ((s, leases1), Err (WriteLease e))
  | (leases1, Ok _) =>
      match schedule t s with
      | (s', Ok admission) => ((s', leases1), Ok admission)
      | (s', Err e) => ((s', (lease_release child_id leases1).1), Err e)
      end
  end.

Definition set_status (r : ScheduleRecord) (st : ScheduleStatus) (result : option string)
    : ScheduleRecord :=
  mkScheduleRecord (record_task r) (record_schedule_id r) (record_result_slot r) st result.

(** [get_mut], the status check and the assignment shared by both endings. *)
Definition end_schedule (id : string) (update : ScheduleRecord → ScheduleRecord)
    : stateR InMemoryAgentScheduler AgentSchedulerError () := λ s,
  match sched_records s !! id with
  | None => (s, Err (UnknownSchedule id))
  | Some r =>
      if negb (bool_decide (record_status r = ScheduleAdmitted))
      then (s, Err (NotAdmitted id (record_status r)))
      else (mkScheduler (next_seq s) (sched_admit s)
              (<[id := update r]> (sched_records s)), Ok tt)
  end.

Definition sched_complete (id result : string) :=
  end_schedule id (λ r, set_status r ScheduleCompleted (Some result)).

Definition sched_cancel (id : string) :=
  end_schedule id (λ r, set_status r ScheduleCancelled (record_result r)).

Definition parse_step_role (label : string) : result AgentSchedulerError SubagentRole :=
  ok_or (parse_label label) (SchedUnknownRole label).

Lemma parse_label_roundtrip r : parse_label (role_as_str r) = Some r.
Proof. by destruct r. Qed.

(** ** Schedule ids never repeat *)

Lemma pretty_N_char_nonzero d : (0 < d < 10)%N → pretty_N_char d ≠ "0"%char.
Proof.
  intros Hd. assert (d = 1 ∨ d = 2 ∨ d = 3 ∨ d = 4 ∨ d = 5 ∨ d = 6 ∨ d = 7 ∨ d = 8 ∨ d = 9)%N
    by lia. by naive_solver.
Qed.

Lemma pretty_N_go_head n s :
  (0 < n)%N → ∃ c r, pretty_N_go n s = String c r ∧ c ≠ "0"%char.
Proof.
  revert s. induction (N.lt_wf_0 n) as [n _ IH]; intros s Hn.
  rewrite pretty_N_go_step by done. destruct (N.ltb_spec n 10).
  - rewrite N.div_small by done. rewrite pretty_N_go_0. eexists _, _. split; [done|].
    rewrite N.mod_small by done. apply pretty_N_char_nonzero. lia.
  - apply IH; [apply N.div_lt; lia|]. apply N.div_str_pos. lia.
Qed.

Lemma dec_head n : (0 < n)%N → ∃ c r, dec n = String c r ∧ c ≠ "0"%char.
Proof.
  intros Hn. unfold dec, pretty, pretty_N. case_decide; [lia|]. by apply pretty_N_go_head.
Qed.

Definition zeros (k : nat) : string := String.string_of_list_ascii (replicate k "0"%char).

Lemma zeros_add k j : zeros (k + j) = (zeros k ++ zeros j)%string.
Proof. unfold zeros. induction k; cbn; [done|]. congruence. Qed.

Lemma zeros_dec_inj k j n m :
  (0 < n)%N → (0 < m)%N → k ≤ j → (zeros k ++ dec n = zeros j ++ dec m)%string → n = m.
Proof.
  intros Hn Hm Hle. replace j with (k + (j - k)) by lia. rewrite zeros_add, str_app_assoc.
  intros E%str_app_inj_l. destruct (j - k) as [|d]; [by apply dec_inj|].
  destruct (dec_head n Hn) as (c & r & Ec & Hc). rewrite Ec in E. injection E as -> _. done.
Qed.

Lemma dec_padded_inj w n m :
  (0 < n)%N → (0 < m)%N → dec_padded w n = dec_padded w m → n = m.
Proof.
  intros Hn Hm. unfold dec_padded. fold (zeros (w - String.length (dec n)))
    (zeros (w - String.length (dec m))).
  destruct (Nat.le_ge_cases (w - String.length (dec n)) (w - String.length (dec m))).
  - by apply zeros_dec_inj.
  - intros E. symmetry. by eapply zeros_dec_inj; [..|symmetry].
Qed.

Lemma sched_id_inj n m : (0 < n)%N → (0 < m)%N → sched_id n = sched_id m → n = m.
Proof. intros Hn Hm E%str_app_inj_l. by apply (dec_padded_inj 4). Qed.

Inductive sched_step : InMemoryAgentScheduler → InMemoryAgentScheduler → Prop :=
  | sched_step_schedule t s : sched_step s (schedule t s).1
  | sched_step_complete id result s : sched_step s (sched_complete id result s).1
  | sched_step_cancel id s : sched_step s (sched_cancel id s).1
  | sched_step_gate b s : sched_step s (set_admit s b).

(** Every record has an id that was handed out. *)
Definition sched_wf (s : InMemoryAgentScheduler) : Prop :=
  ∀ id, is_Some (sched_records s !! id) →
    ∃ n, (0 < n ≤ next_seq s)%N ∧ id = sched_id n.

(** A record keeps its task and slot, and once it has ended it is final. *)
Definition record_kept (r r' : ScheduleRecord) : Prop :=
  record_task r' = record_task r ∧ record_result_slot r' = record_result_slot r ∧
  (record_status r ≠ ScheduleAdmitted → r' = r).

Definition records_kept (s s' : InMemoryAgentScheduler) : Prop := ∀ id r,
  sched_records s !! id = Some r → ∃ r', sched_records s' !! id = Some r' ∧ record_kept r r'.

Lemma records_kept_refl s : records_kept s s.
Proof. intros id r Hr. exists r. by split_and!. Qed.

Lemma end_schedule_kept id update s :
  (∀ r, record_task (update r) = record_task r ∧
        record_result_slot (update r) = record_result_slot r) →
  sched_wf s → let s' := (end_schedule id update s).1 in
  sched_wf s' ∧ records_kept s s' ∧ next_seq s' = next_seq s.
Proof.
  intros Hu Hwf. unfold end_schedule.
  destruct (sched_records s !! id) as [r|] eqn:Hr;
    [|by split_and!; [|apply records_kept_refl|]].
  case_bool_decide as Hst; cbn [negb fst];
    [|by split_and!; [|apply records_kept_refl|]].
  split_and!; [|..|done].
  - intros id' [r' Hr']. apply Hwf. cbn in *.
    destruct (decide (id = id')) as [->|]; [by eexists|].
    rewrite lookup_insert_ne in Hr' by done. by eexists.
  - intros id' r' Hr'. cbn. destruct (decide (id = id')) as [<-|].
    + rewrite lookup_insert_eq. eexists. split; [done|]. rewrite Hr in Hr'. simplify_eq.
      destruct (Hu r'). by split_and!.
    + rewrite lookup_insert_ne by done. exists r'. by split_and!.
Qed.

Lemma schedule_kept t s :
  sched_wf s → (next_seq s < u64_max)%N → let s' := (schedule t s).1 in
  sched_wf s' ∧ records_kept s s'.
Proof.
  intros Hwf Hlt. unfold schedule. destruct (sched_admit s) eqn:Ha; cbn [negb fst].
  2: { split; [done|apply records_kept_refl]. }
  assert (saturating_add u64_max (next_seq s) 1 = next_seq s + 1)%N as ->
    by (unfold saturating_add; lia).
  split.
  - intros id [r Hr]. cbn in *. destruct (decide (sched_id (next_seq s + 1) = id)) as [<-|Hne].
    + exists (next_seq s + 1)%N. split; [lia|done].
    + rewrite lookup_insert_ne in Hr by done. destruct (Hwf id) as (n & ? & ->); [by eexists|].
      exists n. split; [lia|done].
  - intros id r Hr. cbn. destruct (Hwf id) as (n & Hn & ->); [by eexists|].
    rewrite lookup_insert_ne; [exists r; by split_and!|].
    intros E%sched_id_inj; lia.
Qed.

Lemma sched_step_kept s s' :
  sched_step s s' → sched_wf s → (next_seq s < u64_max)%N →
  sched_wf s' ∧ records_kept s s' ∧ (next_seq s ≤ next_seq s')%N.
Proof.
  intros [t s0|id res s0|id s0|b s0] Hwf Hlt.
  - destruct (schedule_kept t s0) as [? ?]; [done..|]. split_and!; [done|done|].
    unfold schedule. destruct (negb _); cbn; [done|]. unfold saturating_add. lia.
  - destruct (end_schedule_kept id (λ r, set_status r ScheduleCompleted (Some res)) s0)
      as (? & ? & E); [done|done|]. split_and!; [done|done|]. unfold sched_complete. by rewrite E.
  - destruct (end_schedule_kept id (λ r, set_status r ScheduleCancelled (record_result r)) s0)
      as (? & ? & E); [done|done|]. split_and!; [done|done|]. unfold sched_cancel. by rewrite E.
  - split_and!; [done|exact (records_kept_refl s0)|done].
Qed.

Lemma record_kept_trans r1 r2 r3 : record_kept r1 r2 → record_kept r2 r3 → record_kept r1 r3.
Proof.
  intros (E1 & E2 & E3) (F1 & F2 & F3). split_and!; [congruence|congruence|].
  intros Hst. specialize (E3 Hst). subst r2. auto.
Qed.

(** A run of scheduler calls that never reaches the last sequence number. *)
Inductive sched_run : InMemoryAgentScheduler → InMemoryAgentScheduler → Prop :=
  | sched_run_refl s : sched_run s s
  | sched_run_step s1 s2 s3 :
      (next_seq s1 < u64_max)%N → sched_step s1 s2 → sched_run s2 s3 → sched_run s1 s3.

(** Schedules do not interfere: as long as fewer than [u64::MAX] tasks were
    scheduled, every later call keeps each record with its task and result slot,
    no new schedule reuses an id, and a completed or cancelled schedule, with
    its result, never changes again. *)
Theorem schedule_records_final s s' id r :
  sched_run scheduler_new s → sched_run s s' →
  sched_records s !! id = Some r →
  ∃ r', sched_records s' !! id = Some r' ∧ record_kept r r'.
Proof.
  intros Hrun Hrun' Hr.
  assert (∀ a b, sched_run a b → sched_wf a → sched_wf b ∧ records_kept a b) as Hall.
  { clear. induction 1 as [a|a b c Hlt Hs _ IH]; intros Hwf.
    - split; [done|apply records_kept_refl].
    - destruct (sched_step_kept a b Hs Hwf Hlt) as (Hwf' & Hk & _).
      destruct (IH Hwf') as [Hwf'' Hk']. split; [done|]. intros id r Hr.
      destruct (Hk id r Hr) as (r1 & Hr1 & K1). destruct (Hk' id r1 Hr1) as (r2 & Hr2 & K2).
      exists r2. split; [done|]. by eapply record_kept_trans. }
  assert (sched_wf scheduler_new) as Hnew.
  { intros i [x Hx]. cbn in Hx. by rewrite lookup_empty in Hx. }
  destruct (Hall _ _ Hrun Hnew) as [Hwf _]. destruct (Hall _ _ Hrun' Hwf) as [_ Hk]. eauto.
Qed.

Lemma schedule_records_final_witness :
  let t := mkTask "bug" "fix" (Some Build) in
  let s := (sched_complete "sched-0001" "ok" (schedule t scheduler_new).1).1 in
  let s' := (schedule t s).1 in
  ∃ r r', sched_records s !! "sched-0001" = Some r ∧ record_result r = Some "ok" ∧
    sched_records s' !! "sched-0001" = Some r' ∧ record_kept r r'.
Proof.
  cbn zeta. set (t := mkTask "bug" "fix" (Some Build)).
  set (r := mkScheduleRecord t "sched-0001" "slot-bug-fix" ScheduleCompleted (Some "ok")).
  destruct (schedule_records_final
    (sched_complete "sched-0001" "ok" (schedule t scheduler_new).1).1
    (schedule t (sched_complete "sched-0001" "ok" (schedule t scheduler_new).1).1).1
    "sched-0001" r) as (r' & Hr' & Hk).
  - eapply sched_run_step; [by vm_compute|apply (sched_step_schedule t)|].
    eapply sched_run_step; [by vm_compute|apply (sched_step_complete "sched-0001" "ok")|].
    apply sched_run_refl.
  - eapply sched_run_step; [by vm_compute|apply (sched_step_schedule t)|]. apply sched_run_refl.
  - vm_compute. reflexivity.
  - exists r, r'. split; [vm_compute; reflexivity|]. split; [reflexivity|]. by split.
Defined.

(** A rejected handoff loses the lease it was to replace: when a fence with a
    higher generation is admitted over a live lease of the same child and the
    scheduler then rejects the task, the table holds no lease of the child any
    more, while the earlier writer may still be running. *)
Theorem rejected_handoff_drops_lease order t f (s : InMemoryAgentScheduler)
    (leases : LeaseTable) old :
  lease_order_ok order → trim (handoff_child_id f) ≠ "" →
  leases !! handoff_child_id f = Some old →
  (handoff_generation old < handoff_generation f)%N → peers_disjoint leases f →
  sched_admit s = false →
  schedule_with_write_lease order t f (s, leases) =
    ((s, delete (handoff_child_id f) leases), Err (SchedRejected (task_step_id t))).
Proof.
  intros Hord Hid Hold Hgen Hpeers Hadm. unfold schedule_with_write_lease.
  assert (lease_admit order f leases = (<[handoff_child_id f := f]> leases, Ok tt)) as ->.
  { unfold lease_admit, is_empty. rewrite (proj2 (String.eqb_neq _ _)) by done. rewrite Hold.
    rewrite (proj2 (N.ltb_ge _ _)) by lia. rewrite (proj2 (N.eqb_neq _ _)) by lia.
    rewrite (proj2 (conflicting_peer_none _ _ _ _ Hord)); [done|].
    intros id peer Hp Hne%String.eqb_neq. by apply (Hpeers id). }
  unfold schedule. rewrite Hadm. cbn [negb]. unfold lease_release.
  rewrite lookup_insert_eq. cbn [fst]. by rewrite delete_insert_eq.
Qed.

Lemma rejected_handoff_witness :
  let old := mkHandoff "c" 1 (mkWriteSet ["src"] []) in
  let f := mkHandoff "c" 2 (mkWriteSet ["src"] []) in
  (schedule_with_write_lease map_to_list (mkTask "bug" "fix" None) f
    (set_admit scheduler_new false, {["c" := old]})).1.2 = ∅.
Proof.
  cbn zeta. rewrite (rejected_handoff_drops_lease map_to_list (mkTask "bug" "fix" None)
    (mkHandoff "c" 2 (mkWriteSet ["src"] [])) (set_admit scheduler_new false) _
    (mkHandoff "c" 1 (mkWriteSet ["src"] []))).
  - by vm_compute.
  - by intros t.
  - by vm_compute.
  - by vm_compute.
  - by vm_compute.
  - intros id peer Hp Hne. rewrite lookup_singleton_ne in Hp; done.
  - reflexivity.
Defined.
