(* ===== verification/WorkflowGraph.v ===== *)
(** * Workflow recipes and their validation

    [crates/impetus-core/src/workflow_engine.rs]: steps, recipes, and
    [validate_recipe] with its cycle check (Kahn's algorithm over [HashMap]s). *)

From S2P Require Import Prelude Str.

Open Scope string_scope.
Open Scope nat_scope.
Open Scope list_scope.

Record WorkflowStep := mkStep {
  step_id : string;
  step_name : string;
  step_role_hint : option string;
  depends_on : list string;
  step_max_retries : option N;
}.

Record WorkflowRecipe := mkRecipe {
  recipe_id : string;
  recipe_name : string;
  recipe_steps : list WorkflowStep;
}.

(** The messages of [InvalidRecipe]. *)
Definition InvalidRecipe := string.

(** ** Kahn's algorithm *)

Abbreviation Indegree := (gmap string nat).
Abbreviation Successors := (gmap string (list string)).

(** [*indegree.get_mut(s.id).expect(..) += 1; successors.entry(dep).or_default().push(s.id)];
    every step id has an entry, so the [expect] holds. *)
Definition add_edge (m : Indegree * Successors) (edge : string * string)
    : Indegree * Successors :=
  let '(indegree, successors) := m in
  let '(dep, id) := edge in
  (alter S id indegree,
   <[dep := default [] (successors !! dep) ++ [id]]> successors).

(** The edges in the order the two nested loops visit them. *)
Definition recipe_edges (steps : list WorkflowStep) : list (string * string) :=
  concat ((λ s, (λ d, (d, step_id s)) <$> depends_on s) <$> steps).

Definition build_graph (steps : list WorkflowStep) : Indegree * Successors :=
  foldl add_edge (list_to_map ((λ s, (step_id s, 0)) <$> steps), ∅) (recipe_edges steps).

(** The inner loop over the successors of the popped node; the [Vec] used as a
    stack is a list with its top first. *)
Fixpoint relax (nexts : list string) (indegree : Indegree) (queue : list string)
    : Indegree * list string :=
  match nexts with
  | [] => (indegree, queue)
  | n :: nexts' =>
      let e := default 0 (indegree !! n) - 1 in
      relax nexts' (<[n := e]> indegree) (if e =? 0 then n :: queue else queue)
  end.

(** The [while let Some(id) = queue.pop()] loop, returning [visited]; [None] when
    the fuel ends. *)
Fixpoint kahn_loop (fuel : nat) (successors : Successors) (indegree : Indegree)
    (queue : list string) (visited : nat) : option nat :=
  match queue with
  | [] => Some visited
  | id :: queue' =>
      match fuel with
      | 0 => None
      | S fuel' =>
          let '(indegree', queue'') :=
            relax (default [] (successors !! id)) indegree queue' in
          kahn_loop fuel' successors indegree' queue'' (S visited)
      end
  end.

(** The order in which a [HashMap] is iterated. *)
Definition indegree_order := Indegree → list (string * nat).
Definition indegree_order_ok (order : indegree_order) : Prop :=
  ∀ m, order m ≡ₚ map_to_list m.

(** [None] when the loop did not end within one pop per step, which is not what
    it returns for a cycle; that it never happens is part of
    [validate_recipe_total]. *)
Definition reject_dependency_cycles (order : indegree_order) (r : WorkflowRecipe)
    : option (result InvalidRecipe ()) :=
  let '(indegree, successors) := build_graph (recipe_steps r) in
  let queue := reverse (fst <$> List.filter (λ kv, kv.2 =? 0) (order indegree)) in
  visited ← kahn_loop (length (recipe_steps r)) successors indegree queue 0;
  Some (if negb (visited =? length (recipe_steps r))
        then Err "dependency cycle detected" else Ok tt).

(** ** Validation *)

Fixpoint check_ids (i : nat) (seen : gset string) (steps : list WorkflowStep)
    : result InvalidRecipe () :=
  match steps with
  | [] => Ok tt
  | s :: steps' =>
      if is_empty (step_id s) then Err ("empty id at " ++ pretty i)%string
      else if bool_decide (step_id s ∈ seen)
      then Err ("duplicate step id " ++ step_id s)%string
      else check_ids (S i) ({[step_id s]} ∪ seen) steps'
  end.

Fixpoint check_deps (seen : gset string) (id : string) (deps : list string)
    : result InvalidRecipe () :=
  match deps with
  | [] => Ok tt
  | d :: deps' =>
      if negb (bool_decide (d ∈ seen))
      then Err ("step " ++ id ++ " depends on unknown " ++ d)%string
      else if String.eqb d id
      then Err ("step " ++ id ++ " depends on itself")%string
      else check_deps seen id deps'
  end.

Fixpoint check_all_deps (seen : gset string) (steps : list WorkflowStep)
    : result InvalidRecipe () :=
  match steps with
  | [] => Ok tt
  | s :: steps' => _ ← check_deps seen (step_id s) (depends_on s); check_all_deps seen steps'
  end.

(** [None] when the cycle check does not end. *)
Definition validate_recipe (order : indegree_order) (r : WorkflowRecipe)
    : option (result InvalidRecipe ()) :=
  match recipe_steps r with
  | [] => Some (Err "empty steps")
  | steps =>
      match check_ids 0 ∅ steps with
      | Err why => Some (Err why)
      | Ok _ =>
          match check_all_deps (list_to_set (step_id <$> steps)) steps with
          | Err why => Some (Err why)
          | Ok _ => reject_dependency_cycles order r
          end
      end
  end.

(** ** The graph the loops build *)

(** Edges into [n] from outside [V], with multiplicity. *)
Definition open_edges (V : gset string) (n : string) (edges : list (string * string)) : nat :=
  length (filter (λ e : string * string, e.2 = n ∧ e.1 ∉ V) edges).

Definition succ_of (d : string) (edges : list (string * string)) : list string :=
  snd <$> filter (λ e : string * string, e.1 = d) edges.

Definition occurrences (n : string) (l : list string) : nat := length (filter (λ x, x = n) l).

Lemma add_edges_spec edges ind suc ind' suc' :
  foldl add_edge (ind, suc) edges = (ind', suc') →
  (∀ n, ind' !! n = (λ k, k + open_edges ∅ n edges) <$> ind !! n) ∧
  (∀ d, default [] (suc' !! d) = default [] (suc !! d) ++ succ_of d edges).
Proof.
  revert ind suc. induction edges as [|[d0 n0] edges IH]; intros ind suc Hf.
  { cbn in Hf. simplify_eq. split.
    - intros n. destruct (ind' !! n); cbn; [|done]. by rewrite Nat.add_0_r.
    - intros d. by rewrite app_nil_r. }
  cbn [foldl add_edge] in Hf. apply IH in Hf as [H1 H2]. split.
  - intros n. rewrite H1. unfold open_edges. rewrite filter_cons. cbn.
    destruct (decide (n0 = n)) as [->|Hne].
    + rewrite lookup_alter_eq, decide_True by set_solver.
      destruct (ind !! n); cbn; [|done]. f_equal. lia.
    + rewrite lookup_alter_ne by done. rewrite decide_False by tauto. done.
  - intros d. rewrite H2. unfold succ_of. rewrite filter_cons. cbn.
    destruct (decide (d0 = d)) as [->|Hne].
    + rewrite lookup_insert_eq. cbn. by rewrite <-app_assoc.
    + by rewrite lookup_insert_ne.
Qed.

(** Closing [d] removes exactly the edges listed as its successors. *)
Lemma open_edges_close V d n edges :
  d ∉ V →
  open_edges V n edges = open_edges ({[d]} ∪ V) n edges + occurrences n (succ_of d edges).
Proof.
  intros Hd. unfold open_edges, occurrences, succ_of.
  induction edges as [|[d0 n0] edges IH]; [done|]. rewrite !filter_cons. cbn.
  destruct (decide (d0 = d)) as [->|Hne].
  - rewrite (decide_False (P := n0 = n ∧ d ∉ {[d]} ∪ V)) by set_solver. cbn [fmap list_fmap].
    rewrite filter_cons. cbn. destruct (decide (n0 = n)) as [->|];
      [rewrite decide_True by done; cbn; lia|rewrite decide_False by tauto; lia].
  - destruct (decide (n0 = n ∧ d0 ∉ V)) as [[-> Hv]|Hn].
    + rewrite decide_True by set_solver. cbn. lia.
    + rewrite decide_False by set_solver. lia.
Qed.

Lemma open_edges_zero V n edges :
  open_edges V n edges = 0 ↔ ∀ d, (d, n) ∈ edges → d ∈ V.
Proof.
  unfold open_edges. rewrite length_zero_iff_nil. split.
  - intros Hf d Hin. destruct (decide (d ∈ V)); [done|].
    assert ((d, n) ∈ filter (λ e : string * string, e.2 = n ∧ e.1 ∉ V) edges) as Hin'.
    { by apply list_elem_of_filter. }
    rewrite Hf in Hin'. by apply not_elem_of_nil in Hin'.
  - intros Hall. destruct (filter _ _) as [|[d n'] l] eqn:Hf; [done|].
    assert ((d, n') ∈ filter (λ e : string * string, e.2 = n ∧ e.1 ∉ V) edges) as Hin.
    { rewrite Hf. by left. }
    apply list_elem_of_filter in Hin as [[Hn Hv] Hin]. cbn in Hn, Hv. subst n'.
    by apply Hall in Hin.
Qed.

(** ** Kahn's algorithm is correct *)

Section kahn.
Context (nodes : list string) (edges : list (string * string)) (successors : Successors).
Hypothesis (Hnd : NoDup nodes)
  (Hedges : ∀ d n, (d, n) ∈ edges → d ∈ nodes ∧ n ∈ nodes)
  (Hsuc : ∀ d, default [] (successors !! d) = succ_of d edges).

(** Every node comes after (to the left of) all its dependencies. *)
Fixpoint topo_order (l : list string) : Prop :=
  match l with
  | [] => True
  | n :: l' => (∀ d, (d, n) ∈ edges → d ∈ l') ∧ topo_order l'
  end.

(** With [pending] decrements of the current node outstanding: counters are the
    open edges plus those decrements, and the nodes at zero are exactly the
    popped and the queued ones. *)
Record kahn_inv (popped : list string) (pending : list string) (ind : Indegree)
    (queue : list string) : Prop := {
  ki_nodup : NoDup (popped ++ queue);
  ki_nodes : ∀ n, n ∈ popped ++ queue → n ∈ nodes;
  ki_count : ∀ n, n ∈ nodes →
    ind !! n = Some (open_edges (list_to_set popped) n edges + occurrences n pending);
  ki_zero : ∀ n, n ∈ nodes →
    open_edges (list_to_set popped) n edges + occurrences n pending = 0 ↔ n ∈ popped ++ queue;
  ki_topo : topo_order popped;
}.

Lemma occurrences_cons n x l :
  occurrences n (x :: l) = (if decide (x = n) then 1 else 0) + occurrences n l.
Proof. unfold occurrences. rewrite filter_cons. by case_decide. Qed.

Lemma relax_inv popped nexts : ∀ ind queue ind' queue',
  (∀ n, n ∈ nexts → n ∈ nodes) →
  kahn_inv popped nexts ind queue → relax nexts ind queue = (ind', queue') →
  kahn_inv popped [] ind' queue'.
Proof.
  induction nexts as [|x nexts IH]; intros ind queue ind' queue' Hin Hinv Hr.
  { cbn in Hr. by simplify_eq. }
  cbn [relax] in Hr. apply IH in Hr; [done|set_solver|]. clear IH Hr.
  destruct Hinv as [Hnodup Hnodes Hcount Hzero Htopo].
  assert (x ∈ nodes) as Hx by set_solver.
  set (k := open_edges (list_to_set popped) x edges + occurrences x nexts).
  assert (default 0 (ind !! x) - 1 = k) as ->.
  { rewrite Hcount by done. cbn -[open_edges occurrences]. rewrite occurrences_cons, decide_True by done. unfold k. lia. }
  assert (x ∉ popped ++ queue) as Hfresh.
  { rewrite <-Hzero by done. rewrite occurrences_cons, decide_True by done. lia. }
  set (queue1 := if k =? 0 then x :: queue else queue).
  assert (∀ n, n ∈ popped ++ queue1 ↔ n ∈ popped ++ queue ∨ (n = x ∧ k = 0)) as Hq1.
  { intros n. unfold queue1. destruct (Nat.eqb_spec k 0) as [E|E]; [set_solver|].
    split; [by left|]. intros [?|[_ ?]]; [done|lia]. }
  split.
  - unfold queue1. destruct (k =? 0); [|done]. rewrite <-Permutation_middle.
    by apply NoDup_cons.
  - intros n. rewrite Hq1. intros [?|[-> _]]; auto.
  - intros n Hn. destruct (decide (x = n)) as [<-|Hne]; [by rewrite lookup_insert_eq|].
    rewrite lookup_insert_ne by done. rewrite Hcount by done.
    rewrite occurrences_cons, decide_False by done. done.
  - intros n Hn. rewrite Hq1, <-Hzero by done. rewrite occurrences_cons.
    destruct (decide (x = n)) as [<-|Hne].
    { split; [intros ?; right; split; [done|unfold k; lia]|].
      unfold k. intros [?|[_ ?]]; lia. }
    split; [by left|]. intros [?|[-> _]]; done.
  - done.
Qed.

Lemma succ_of_nodes d n : n ∈ succ_of d edges → n ∈ nodes.
Proof.
  unfold succ_of. rewrite list_elem_of_fmap. intros ([d' n'] & -> & [_ Hin]%list_elem_of_filter).
  by apply Hedges in Hin as [_ ?].
Qed.

(** Popping a node closes it. *)
Lemma pop_inv popped ind id queue :
  kahn_inv popped [] ind (id :: queue) →
  kahn_inv (id :: popped) (succ_of id edges) ind queue.
Proof.
  intros [Hnodup Hnodes Hcount Hzero Htopo].
  assert (id ∉ popped) as Hnew.
  { apply NoDup_app in Hnodup as (_ & Hd & _). intros Hp. apply (Hd id Hp). by left. }
  assert (∀ n, open_edges (list_to_set (id :: popped)) n edges + occurrences n (succ_of id edges)
             = open_edges (list_to_set popped) n edges + occurrences n []) as E.
  { intros n. rewrite (open_edges_close (list_to_set popped) id) by set_solver.
    change (occurrences n []) with 0. rewrite list_to_set_cons. lia. }
  assert (∀ n, n ∈ (id :: popped) ++ queue ↔ n ∈ popped ++ id :: queue) as Eq by set_solver.
  split.
  - by rewrite <-app_comm_cons, Permutation_middle.
  - intros n. rewrite Eq. apply Hnodes.
  - intros n Hn. rewrite E. by apply Hcount.
  - intros n Hn. rewrite E, Eq. by apply Hzero.
  - cbn. split; [|done]. intros d Hd.
    assert (open_edges (list_to_set popped) id edges + occurrences id [] = 0) as Hz.
    { apply Hzero; [apply Hnodes; set_solver|set_solver]. }
    assert (d ∈ (list_to_set popped : gset string)) as Hin.
    { apply (proj1 (open_edges_zero (list_to_set popped) id edges)); [lia|done]. }
    set_solver.
Qed.

Lemma inv_length popped pending ind queue :
  kahn_inv popped pending ind queue → length popped + length queue ≤ length nodes.
Proof.
  intros [Hnodup Hnodes _ _ _]. rewrite <-length_app.
  apply submseteq_length. by apply NoDup_submseteq.
Qed.

(** The loop returns, having popped a list that satisfies the invariant with an
    empty queue. *)
Lemma kahn_loop_spec fuel : ∀ popped ind queue,
  kahn_inv popped [] ind queue → length nodes ≤ fuel + length popped →
  ∃ popped' ind', kahn_loop fuel successors ind queue (length popped) = Some (length popped') ∧
    kahn_inv popped' [] ind' [].
Proof.
  induction fuel as [|fuel IH]; intros popped ind queue Hinv Hfuel.
  - destruct queue as [|id queue]; [by eexists _, _|].
    apply inv_length in Hinv. cbn in *. lia.
  - destruct queue as [|id queue]; [by eexists _, _|]. cbn [kahn_loop].
    apply pop_inv in Hinv. rewrite Hsuc.
    destruct (relax (succ_of id edges) ind queue) as [ind1 queue1] eqn:Hr.
    apply (relax_inv (id :: popped) (succ_of id edges)) in Hr; [|apply succ_of_nodes|done].
    apply (IH (id :: popped)); [done|]. cbn. lia.
Qed.

(** No non-empty path of edges returns to its start. *)
Definition acyclic_edges : Prop := Irreflexive (tc (λ n d, (d, n) ∈ edges)).

Fixpoint index_of (n : string) (l : list string) : nat :=
  match l with
  | [] => 0
  | x :: l' => if decide (x = n) then S (length l') else index_of n l'
  end.

Lemma index_of_le n l : index_of n l ≤ length l.
Proof. induction l as [|x l IH]; cbn; [done|]. case_decide; lia. Qed.

Lemma index_of_pos n l : n ∈ l → 0 < index_of n l.
Proof. induction l as [|x l IH]; [set_solver|]. cbn. case_decide; set_solver by lia. Qed.

Lemma topo_order_rank l d n :
  NoDup l → topo_order l → (d, n) ∈ edges → n ∈ l → index_of d l < index_of n l.
Proof.
  induction l as [|x l IH]; intros Hl Ht Hdn Hn; [set_solver|].
  apply NoDup_cons in Hl as [Hx Hl]. destruct Ht as [Hdeps Ht]. cbn.
  destruct (decide (x = n)) as [->|Hne].
  - assert (d ∈ l) by eauto. rewrite decide_False by set_solver.
    pose proof (index_of_le d l). lia.
  - assert (n ∈ l) by set_solver. specialize (IH Hl Ht Hdn ltac:(done)).
    destruct (decide (x = d)) as [->|]; [|done].
    (* a dependency of an earlier node is itself earlier *)
    exfalso. apply Hx. clear IH Hdeps Hne Hn Hl Hx.
    induction l as [|y l IH]; [set_solver|]. destruct Ht as [Hy Ht].
    destruct (decide (y = n)) as [->|]; [set_solver|]. right. apply IH; set_solver.
Qed.

Lemma tc_nodes n d : tc (λ n d, (d, n) ∈ edges) n d → d ∈ nodes.
Proof. induction 1 as [n d H|n d d' H _ IH]; [by apply Hedges in H as [? _]|done]. Qed.

Lemma topo_order_acyclic l :
  NoDup l → topo_order l → (∀ n, n ∈ nodes → n ∈ l) → acyclic_edges.
Proof.
  intros Hl Ht Hall n Hn.
  assert (∀ a b, tc (λ n d, (d, n) ∈ edges) a b → index_of b l < index_of a l) as Hlt.
  { assert (∀ a b, (b, a) ∈ edges → index_of b l < index_of a l) as Hone.
    { intros a b Hab. apply topo_order_rank; [done..|]. by apply Hall, (Hedges b). }
    induction 1 as [a b H|a b c H _ IH]; [by apply Hone|].
    apply Hone in H. lia. }
  apply Hlt in Hn. lia.
Qed.

(** Everything is popped exactly when there is no cycle. *)
Lemma full_pop_acyclic popped ind :
  kahn_inv popped [] ind [] → length popped = length nodes ↔ acyclic_edges.
Proof.
  intros [Hnodup Hnodes Hcount Hzero Htopo].
  rewrite app_nil_r in Hnodup. setoid_rewrite app_nil_r in Hnodes.
  setoid_rewrite app_nil_r in Hzero. split.
  - intros Hlen. apply (topo_order_acyclic popped); [done..|]. intros n Hn.
    assert (popped ≡ₚ nodes) as ->; [|done].
    apply submseteq_length_Permutation; [by apply NoDup_submseteq|lia].
  - intros Hac.
    assert (∀ n, n ∈ nodes → n ∈ popped) as Hall.
    { intros n. assert (sn (λ n d, (d, n) ∈ edges) n) as Hsn.
      { apply tc_finite_sn; [done|]. exists nodes. intros d. apply tc_nodes. }
      induction Hsn as [n _ IH]; intros Hn. apply Hzero; [done|].
      change (occurrences n []) with 0. rewrite Nat.add_0_r. apply open_edges_zero.
      intros d Hd. apply elem_of_list_to_set. apply IH; [done|].
      by apply Hedges in Hd as [? _]. }
    apply Nat.le_antisymm; apply submseteq_length; by apply NoDup_submseteq; auto.
Qed.

End kahn.

(** ** Validation is exact *)

Definition depends (r : WorkflowRecipe) (id dep : string) : Prop :=
  ∃ s, s ∈ recipe_steps r ∧ step_id s = id ∧ dep ∈ depends_on s.

(** What a recipe must be for a run to make sense. *)
Record recipe_ok (r : WorkflowRecipe) : Prop := {
  rok_some : recipe_steps r ≠ [];
  rok_ids : ∀ s, s ∈ recipe_steps r → step_id s ≠ "";
  rok_unique : NoDup (step_id <$> recipe_steps r);
  rok_known : ∀ id dep, depends r id dep → dep ∈ step_id <$> recipe_steps r;
  rok_acyclic : Irreflexive (tc (depends r));
}.

Lemma elem_of_recipe_edges r d n : (d, n) ∈ recipe_edges (recipe_steps r) ↔ depends r n d.
Proof.
  unfold recipe_edges, depends. rewrite list_elem_of_In, in_concat.
  setoid_rewrite <-list_elem_of_In. setoid_rewrite list_elem_of_fmap. split.
  - intros (x & (s & -> & Hs) & Hd). apply list_elem_of_fmap in Hd as (d' & [= -> ->] & Hd).
    by exists s.
  - intros (s & Hs & <- & Hd). eexists. split; [by exists s|].
    apply list_elem_of_fmap. by exists d.
Qed.

Lemma tc_iff {A} (R S : relation A) x y : (∀ a b, R a b ↔ S a b) → tc R x y ↔ tc S x y.
Proof.
  intros H. split; induction 1 as [x y Hxy|x y z Hxy _ IH].
  - by apply tc_once, H.
  - eapply tc_l; [by apply H|done].
  - by apply tc_once, H.
  - eapply tc_l; [by apply H|done].
Qed.

(** The initial counters and queue satisfy the invariant. *)
Lemma kahn_init order nodes edges ind :
  indegree_order_ok order → (∀ n, ind !! n = if decide (n ∈ nodes)
    then Some (open_edges ∅ n edges) else None) →
  kahn_inv nodes edges [] [] ind
    (reverse (fst <$> List.filter (λ kv, kv.2 =? 0) (order ind))).
Proof.
  intros Ho Hind. unfold indegree_order_ok in Ho. set (queue := reverse _).
  assert (∀ n, n ∈ queue ↔ ind !! n = Some 0) as Hq.
  { assert (∀ kv, kv ∈ order ind ↔ kv ∈ map_to_list ind) as Ho' by (intros; by rewrite Ho).
    intros n. unfold queue. rewrite elem_of_reverse, list_elem_of_fmap.
    setoid_rewrite list_elem_of_In. setoid_rewrite List.filter_In.
    setoid_rewrite <-list_elem_of_In. setoid_rewrite Ho'.
    setoid_rewrite Nat.eqb_eq. split.
    - intros ([k v] & -> & Hkv & Hv). cbn in *. subst. by apply elem_of_map_to_list.
    - intros H. exists (n, 0). by rewrite elem_of_map_to_list. }
  assert (NoDup queue) as Hnd.
  { unfold queue. rewrite reverse_Permutation.
    assert (NoDup (fst <$> order ind)) as Hk by (rewrite Ho; apply NoDup_fst_map_to_list).
    eapply sublist_NoDup; [exact Hk|]. apply fmap_sublist. clear.
    induction (order ind) as [|[k v] l IH]; cbn; [constructor|].
    destruct (v =? 0); by constructor. }
  split; cbn -[open_edges].
  - done.
  - intros n. rewrite Hq, Hind. by case_decide.
  - intros n Hn. rewrite Hind, decide_True by done. change (occurrences n []) with 0.
    f_equal. lia.
  - intros n Hn. rewrite Hq, Hind, decide_True by done. change (occurrences n []) with 0.
    rewrite Nat.add_0_r. split; [by intros ->|by intros [= ->]].
  - done.
Qed.

Lemma initial_indegree (steps : list WorkflowStep) n :
  (list_to_map ((λ s, (step_id s, 0)) <$> steps) : Indegree) !! n
  = if decide (n ∈ step_id <$> steps) then Some 0 else None.
Proof.
  induction steps as [|s steps IH]; cbn; [done|].
  destruct (decide (step_id s = n)) as [<-|Hne].
  - rewrite lookup_insert_eq, decide_True; [done|by left].
  - rewrite lookup_insert_ne by done. rewrite IH.
    destruct (decide (n ∈ step_id <$> steps)).
    + by rewrite decide_True by (by right).
    + by rewrite decide_False by set_solver.
Qed.

Lemma reject_dependency_cycles_spec order r :
  indegree_order_ok order → NoDup (step_id <$> recipe_steps r) →
  (∀ id dep, depends r id dep → dep ∈ step_id <$> recipe_steps r) →
  ∃ v, reject_dependency_cycles order r = Some v ∧
    (v = Ok tt ↔ Irreflexive (tc (depends r))).
Proof.
  intros Ho Hnd Hknown. set (nodes := step_id <$> recipe_steps r) in *.
  set (edges := recipe_edges (recipe_steps r)).
  assert (∀ d n, (d, n) ∈ edges → d ∈ nodes ∧ n ∈ nodes) as Hedges.
  { intros d n Hd%elem_of_recipe_edges. split; [by eapply Hknown|].
    destruct Hd as (s & Hs & <- & _). by apply list_elem_of_fmap_2. }
  unfold reject_dependency_cycles.
  destruct (build_graph (recipe_steps r)) as [ind suc] eqn:Hg.
  apply add_edges_spec in Hg as [Hind Hsuc]. fold edges in Hind, Hsuc.
  assert (kahn_inv nodes edges [] [] ind
    (reverse (fst <$> List.filter (λ kv, kv.2 =? 0) (order ind)))) as Hinv.
  { apply kahn_init; [done|]. intros n. rewrite Hind, initial_indegree. fold nodes.
    by destruct (decide (n ∈ nodes)). }
  destruct (kahn_loop_spec nodes edges suc Hnd Hedges Hsuc (length (recipe_steps r)) [] _ _ Hinv)
    as (popped & ind' & Hloop & Hfin); [unfold nodes; rewrite length_fmap; lia|].
  cbn [length] in Hloop. rewrite Hloop. eexists. split; [reflexivity|].
  apply (full_pop_acyclic nodes edges suc Hnd Hedges Hsuc) in Hfin.
  unfold nodes in Hfin. rewrite length_fmap in Hfin.
  assert (acyclic_edges edges ↔ Irreflexive (tc (depends r))) as <-.
  { unfold acyclic_edges, Irreflexive, Reflexive, complement.
    split; intros H n Hn; apply (H n); revert Hn; apply tc_iff;
      intros a b; unfold edges; by rewrite elem_of_recipe_edges. }
  rewrite <-Hfin. destruct (Nat.eqb_spec (length popped) (length (recipe_steps r))); naive_solver.
Qed.

Lemma check_ids_ok steps : ∀ i seen,
  check_ids i seen steps = Ok tt ↔
  (∀ s, s ∈ steps → step_id s ≠ "" ∧ step_id s ∉ seen) ∧ NoDup (step_id <$> steps).
Proof.
  induction steps as [|s steps IH]; intros i seen; cbn.
  { split; [intros _; split; [set_solver|constructor]|done]. }
  unfold is_empty. destruct (String.eqb_spec (step_id s) "") as [He|He]; [set_solver|].
  case_bool_decide as Hs; [set_solver|].
  rewrite IH, NoDup_cons. set_solver.
Qed.

Lemma check_deps_ok seen id deps :
  check_deps seen id deps = Ok tt ↔ ∀ d, d ∈ deps → d ∈ seen ∧ d ≠ id.
Proof.
  induction deps as [|d deps IH]; cbn; [set_solver|].
  case_bool_decide; cbn; [|set_solver].
  destruct (String.eqb_spec d id) as [->|]; [set_solver|]. rewrite IH. set_solver.
Qed.

Lemma check_all_deps_ok seen steps :
  check_all_deps seen steps = Ok tt ↔
  ∀ s d, s ∈ steps → d ∈ depends_on s → d ∈ seen ∧ d ≠ step_id s.
Proof.
  induction steps as [|s steps IH]; cbn; [set_solver|].
  rewrite result_bind_ok. split.
  - intros ([] & Hc & Hr). rewrite IH in Hr.
    pose proof (proj1 (check_deps_ok _ _ _) Hc). set_solver.
  - intros H. exists tt. rewrite check_deps_ok, IH. set_solver.
Qed.

Lemma depends_irrefl r : Irreflexive (tc (depends r)) → ∀ id, ¬ depends r id id.
Proof. intros Hac id Hd. by apply (Hac id), tc_once. Qed.

(** The cycle check is reached with known dependencies and unique ids, and ends. *)
Lemma validate_recipe_total order r :
  indegree_order_ok order →
  ∃ v, validate_recipe order r = Some v ∧ (v = Ok tt ↔ recipe_ok r).
Proof.
  intros Ho. unfold validate_recipe. destruct (recipe_steps r) as [|s0 l] eqn:Hsteps.
  { eexists. split; [done|]. split; [done|]. intros [Hne _ _ _ _]. by rewrite Hsteps in Hne. }
  rewrite <-Hsteps.
  destruct (check_ids 0 ∅ (recipe_steps r)) as [[]|why] eqn:Hi.
  2: { eexists. split; [done|]. split; [done|]. intros [_ Hids Hnd _ _]. exfalso.
       assert (check_ids 0 ∅ (recipe_steps r) = Ok tt) as E by (apply check_ids_ok; set_solver).
       by rewrite E in Hi. }
  apply check_ids_ok in Hi as [Hids Hnd].
  destruct (check_all_deps _ (recipe_steps r)) as [[]|why] eqn:Hd.
  2: { eexists. split; [done|]. split; [done|]. intros [_ _ _ Hknown Hac]. exfalso.
       assert (check_all_deps (list_to_set (step_id <$> recipe_steps r)) (recipe_steps r) = Ok tt)
         as E; [|by rewrite E in Hd].
       apply check_all_deps_ok. intros s d Hs Hin. split.
       - apply elem_of_list_to_set, (Hknown (step_id s)). by exists s.
       - intros ->. by apply (depends_irrefl r Hac (step_id s)); exists s. }
  rewrite check_all_deps_ok in Hd. setoid_rewrite elem_of_list_to_set in Hd.
  assert (∀ id dep, depends r id dep → dep ∈ step_id <$> recipe_steps r) as Hknown.
  { intros id dep (s & Hs & <- & Hin). by eapply Hd. }
  destruct (reject_dependency_cycles_spec order r Ho Hnd Hknown) as (v & Hv & Hiff).
  exists v. split; [done|]. rewrite Hiff. split; [|by intros [_ _ _ _ Hac]].
  intros Hac. split; [by rewrite Hsteps|intros s Hs; by apply Hids|done|done|done].
Qed.

(** C31: Recipe validation ends on every recipe, its loop over the work list within
    one pop per step, and is exact, whatever order the counters' [HashMap] is
    iterated in: a recipe is accepted exactly when it has at least one step, no
    empty and no repeated step id, every dependency names a step of the recipe,
    and no chain of dependencies returns to its start. *)
Theorem validate_recipe_exact order r :
  indegree_order_ok order →
  ∃ v, validate_recipe order r = Some v ∧ (v = Ok tt ↔ recipe_ok r).
Proof. apply validate_recipe_total. Qed.

Definition cyclic_recipe : WorkflowRecipe := mkRecipe "r" "R"
  [mkStep "root" "Root" None [] None; mkStep "a" "A" None ["root"; "c"] None;
   mkStep "b" "B" None ["a"] None; mkStep "c" "C" None ["b"] None].

(** Both map orders, on a recipe with a three-step cycle behind a valid root. *)
Lemma validate_recipe_exact_witness :
  ¬ recipe_ok cyclic_recipe ∧
  validate_recipe map_to_list cyclic_recipe = Some (Err "dependency cycle detected") ∧
  validate_recipe (λ m, reverse (map_to_list m)) cyclic_recipe =
    Some (Err "dependency cycle detected").
Proof.
  destruct (validate_recipe_exact map_to_list cyclic_recipe) as (v & Hv & Hiff); [by intros m|].
  split_and!; [|vm_compute; reflexivity..].
  intros Hr%Hiff. rewrite Hr in Hv. vm_compute in Hv. discriminate.
Defined.
