(* ===== verification/Workflow.v ===== *)
(** * The workflow engine

    [crates/impetus-core/src/workflow_engine.rs]: the state machine that runs a
    validated recipe step by step, with retries, budgets and cancellation, and
    the variants that go through the agent scheduler. *)

From S2P Require Import Prelude Str PathScope WriteSet Scheduler WorkflowGraph.

Open Scope string_scope.
Open Scope nat_scope.
Open Scope list_scope.

Record WorkflowBudget := mkWorkflowBudget {
  budget_max_tokens : option N;
  budget_max_wall_ms : option N;
  budget_max_retries : N;
}.

Definition WorkflowBudget_default : WorkflowBudget := mkWorkflowBudget None None 0.

Inductive StepStatus := Pending | Running | StepCompleted | StepFailed | StepCancelled.

#[export] Instance StepStatus_eq_dec : EqDecision StepStatus.
Proof. solve_decision. Defined.

Record StepCheckpoint := mkCheckpoint {
  cp_step_id : string;
  cp_status : StepStatus;
  cp_result : option string;
  cp_attempts : N;
  cp_schedule_id : option string;
  cp_result_slot : option string;
}.

Inductive WorkflowStatus :=
  | WfIdle | WfRunning | WfCompleted | WfCancelled | WfBudgetExhausted | WfFailed.

#[export] Instance WorkflowStatus_eq_dec : EqDecision WorkflowStatus.
Proof. solve_decision. Defined.

Inductive WorkflowError :=
  | AlreadyFinished (st : WorkflowStatus)
  | UnknownStep (id : string)
  | BlockedByDependency (id : string) (deps : list string)
  | NotRunnable (id : string) (st : StepStatus)
  | BudgetExhausted (kind : string)
  | RetriesExhausted (id : string)
  | Cancelled
  | InvalidRecipeErr (why : string)
  | SchedulerRejected (id : string)
  | UnknownRole (id label : string)
  | MissingSchedule (id : string)
  | SchedulerErr (text : string).

Abbreviation Checkpoints := (gmap string StepCheckpoint).

Record WorkflowEngine := mkEngine {
  eng_recipe : WorkflowRecipe;
  eng_budget : WorkflowBudget;
  checkpoints : Checkpoints;
  tokens_used : N;
  wall_ms_used : N;
  eng_status : WorkflowStatus;
}.

Definition set_eng_status (e : WorkflowEngine) (st : WorkflowStatus) : WorkflowEngine :=
  mkEngine (eng_recipe e) (eng_budget e) (checkpoints e) (tokens_used e) (wall_ms_used e) st.

Definition set_checkpoints (e : WorkflowEngine) (cps : Checkpoints) : WorkflowEngine :=
  mkEngine (eng_recipe e) (eng_budget e) cps (tokens_used e) (wall_ms_used e) (eng_status e).

(** The two [saturating_add]s at the end of a step. *)
Definition add_usage (e : WorkflowEngine) (tokens wall_ms : N) : WorkflowEngine :=
  mkEngine (eng_recipe e) (eng_budget e) (checkpoints e)
    (saturating_add u64_max (tokens_used e) tokens)
    (saturating_add u64_max (wall_ms_used e) wall_ms) (eng_status e).

Definition set_cp_status (cp : StepCheckpoint) (st : StepStatus) : StepCheckpoint :=
  mkCheckpoint (cp_step_id cp) st (cp_result cp) (cp_attempts cp) (cp_schedule_id cp)
    (cp_result_slot cp).

Definition initial_checkpoint (id : string) : StepCheckpoint :=
  mkCheckpoint id Pending None 0 None None.

(** Equal ids give equal checkpoints, so which of two entries [collect] keeps does
    not matter. *)
Definition initial_checkpoints (steps : list WorkflowStep) : Checkpoints :=
  list_to_map ((λ s, (step_id s, initial_checkpoint (step_id s))) <$> steps).

(** [None] when the validation does not end, which it always does
    ([validate_recipe_total]). *)
Definition engine_new (order : indegree_order) (r : WorkflowRecipe) (b : WorkflowBudget)
    : option (result WorkflowError WorkflowEngine) :=
  valid ← validate_recipe order r;
  Some (_ ← map_err InvalidRecipeErr valid;
        Ok (mkEngine r b (initial_checkpoints (recipe_steps r)) 0 0 WfIdle)).

(** ** The built-in recipes *)

Definition step (id name : string) (role : option string) (deps : list string) : WorkflowStep :=
  mkStep id name role deps None.

Definition feature_skeleton_recipe : WorkflowRecipe := mkRecipe "feature" "Feature"
  [step "research" "Research" (Some "Research") [];
   step "plan" "Plan" (Some "Explore") ["research"];
   step "tests" "Tests" (Some "Build") ["plan"];
   step "implement" "Implement" (Some "Build") ["tests"];
   step "review" "Review" (Some "Review") ["implement"];
   step "approval" "Approval" None ["review"]].

Definition bug_skeleton_recipe : WorkflowRecipe := mkRecipe "bug" "Bug"
  [step "reproduce" "Reproduce" (Some "Explore") [];
   step "failing_regression" "Failing regression" (Some "Build") ["reproduce"];
   step "fix" "Fix" (Some "Build") ["failing_regression"];
   step "review" "Review" (Some "Review") ["fix"]].

Definition refactor_skeleton_recipe : WorkflowRecipe := mkRecipe "refactor" "Refactor"
  [step "baseline_tests" "Baseline tests" (Some "Build") [];
   step "characterization" "Characterization if needed" (Some "Explore") ["baseline_tests"];
   step "refactor" "Refactor" (Some "Build") ["characterization"];
   step "validation" "Validation" (Some "Build") ["refactor"];
   step "review" "Review" (Some "Review") ["validation"]].

(** ** Queries *)

Definition find_step (e : WorkflowEngine) (id : string) : option WorkflowStep :=
  List.find (λ s, String.eqb (step_id s) id) (recipe_steps (eng_recipe e)).

Definition effective_max_retries (e : WorkflowEngine) (id : string) : option N :=
  (λ s, default (budget_max_retries (eng_budget e)) (step_max_retries s)) <$> find_step e id.

Definition dep_completed (cps : Checkpoints) (dep : string) : bool :=
  from_option (λ d, bool_decide (cp_status d = StepCompleted)) false (cps !! dep).

Definition is_ready (e : WorkflowEngine) (id : string) : bool :=
  match find_step e id with
  | None => false
  | Some s =>
      match checkpoints e !! id with
      | None => false
      | Some cp =>
          bool_decide (cp_status cp = Pending) && forallb (dep_completed (checkpoints e)) (depends_on s)
      end
  end.

Definition is_live (st : WorkflowStatus) : bool :=
  match st with WfRunning | WfIdle => true | _ => false end.

Definition next_ready_step (e : WorkflowEngine) : option WorkflowStep :=
  if negb (is_live (eng_status e)) then None
  else List.find (λ s, is_ready e (step_id s)) (recipe_steps (eng_recipe e)).

Definition blocking_deps (e : WorkflowEngine) (id : string) : list string :=
  match find_step e id with
  | None => []
  | Some s => List.filter (λ d, negb (dep_completed (checkpoints e) d)) (depends_on s)
  end.

Definition budget_exceeded (e : WorkflowEngine) : option string :=
  let over (limit : option N) used := from_option (λ max, (max <=? used)%N) false limit in
  if over (budget_max_tokens (eng_budget e)) (tokens_used e) then Some "tokens"
  else if over (budget_max_wall_ms (eng_budget e)) (wall_ms_used e) then Some "wall_ms"
  else None.

Definition all_completed (e : WorkflowEngine) : bool :=
  bool_decide (map_Forall (λ _ c, cp_status c = StepCompleted) (checkpoints e)).

Definition ensure_runnable (e : WorkflowEngine) : result WorkflowError () :=
  match eng_status e with
  | WfIdle | WfRunning => Ok tt
  | WfCancelled => Err Cancelled
  | WfBudgetExhausted => Err (BudgetExhausted "exhausted")
  | WfFailed => Err (AlreadyFinished WfFailed)
  | other => Err (AlreadyFinished other)
  end.

Definition step_role (e : WorkflowEngine) (id : string)
    : result WorkflowError (option SubagentRole) :=
  s ← ok_or (find_step e id) (UnknownStep id);
  match step_role_hint s with
  | None => Ok None
  | Some label =>
      match parse_step_role label with
      | Ok role => Ok (Some role)
      | Err _ => Err (UnknownRole id label)
      end
  end.

(** ** Operations *)

Definition eng (A : Type) : Type := stateR WorkflowEngine WorkflowError A.

Definition engine_start : eng () := λ e,
  match eng_status e with
  | WfIdle => (set_eng_status e WfRunning, Ok tt)
  | WfRunning => (e, Ok tt)
  | other => (e, Err (AlreadyFinished other))
  end.

(** The guards [begin_step] and [begin_step_with_scheduler] start with; the
    checkpoint they return is pending. *)
Definition begin_guards (id : string) : eng StepCheckpoint := λ e,
  match ensure_runnable e with
  | Err x => (e, Err x)
  | Ok _ =>
      match budget_exceeded e with
      | Some kind => (set_eng_status e WfBudgetExhausted, Err (BudgetExhausted kind))
      | None =>
          match blocking_deps e id with
          | _ :: _ as blocking => (e, Err (BlockedByDependency id blocking))
          | [] =>
              match checkpoints e !! id with
              | None => (e, Err (UnknownStep id))
              | Some cp =>
                  if negb (bool_decide (cp_status cp = Pending))
                  then (e, Err (NotRunnable id (cp_status cp)))
                  else (e, Ok cp)
              end
          end
      end
  end.

Definition begin_step (id : string) : eng () := λ e,
  match begin_guards id e with
  | (e', Err x) => (e', Err x)
  | (e', Ok cp) =>
      (set_checkpoints e' (<[id := set_cp_status cp Running]> (checkpoints e')), Ok tt)
  end.

Definition schedule_status_debug (st : ScheduleStatus) : string :=
  match st with
  | ScheduleAdmitted => "Admitted"
  | ScheduleCompleted => "Completed"
  | ScheduleCancelled => "Cancelled"
  end.

Definition write_set_error_display (e : WriteSetError) : string :=
  match e with
  | WsEmptyChildId => "child_id must be non-empty"
  | WsEmptyPath => "write path must be non-empty"
  | WsPathEscape p => "write path escapes workspace: " ++ p
  | WsAbsolutePath p => "absolute write path forbidden: " ++ p
  | WsConflict h => "overlapping DeclaredWriteSet with active writer " ++ h
  | WsStale c offered live =>
      "stale writer fence for " ++ c ++ ": offered gen " ++ dec offered
        ++ ", live gen " ++ dec live
  | WsUnknownChild c => "unknown writer lease " ++ c
  | WsAlreadyAdmitted c => "writer " ++ c ++ " already holds a lease"
  end%string.

Definition scheduler_error_display (e : AgentSchedulerError) : string :=
  match e with
  | SchedRejected id => "scheduler rejected task for step " ++ id
  | UnknownSchedule id => "unknown schedule id: " ++ id
  | NotAdmitted id st =>
      "schedule " ++ id ++ " is not admitted (status " ++ schedule_status_debug st ++ ")"
  | SchedUnknownRole label => "unknown role label: " ++ label
  | WriteLease e => write_set_error_display e
  end%string.

Definition map_scheduler_err (e : AgentSchedulerError) : WorkflowError :=
  match e with
  | SchedRejected id => SchedulerRejected id
  | SchedUnknownRole label => UnknownRole "" label
  | other => SchedulerErr (scheduler_error_display other)
  end.

(** A checkpoint whose step was admitted by the scheduler. *)
Definition scheduled_checkpoint (cp : StepCheckpoint) (a : ScheduleAdmission) : StepCheckpoint :=
  mkCheckpoint (cp_step_id cp) Running (cp_result cp) (cp_attempts cp)
    (Some (admission_schedule_id a)) (Some (admission_result_slot a)).

Definition begin_step_with_scheduler (id : string)
    : stateR (WorkflowEngine * InMemoryAgentScheduler) WorkflowError ScheduleAdmission :=
  λ '(e, s),
  match begin_guards id e with
  | (e', Err x) => ((e', s), Err x)
  | (e', Ok cp) =>
      match step_role e' id with
      | Err x => ((e', s), Err x)
      | Ok role =>
          match schedule (mkTask (recipe_id (eng_recipe e')) id role) s with
          | (s', Err x) => ((e', s'), Err (map_scheduler_err x))
          | (s', Ok a) =>
              ((set_checkpoints e' (<[id := scheduled_checkpoint cp a]> (checkpoints e')), s'),
               Ok a)
          end
      end
  end.

Definition completed_checkpoint (cp : StepCheckpoint) (result : string) : StepCheckpoint :=
  mkCheckpoint (cp_step_id cp) StepCompleted (Some result) (cp_attempts cp)
    (cp_schedule_id cp) (cp_result_slot cp).

(** [get_mut], the status check and the block that edits the running checkpoint,
    then the usage accounting and the budget test, shared by the two endings. *)
Definition end_step (id : string) (update : StepCheckpoint → StepCheckpoint) (tokens wall_ms : N)
    : eng () := λ e,
  match checkpoints e !! id with
  | None => (e, Err (UnknownStep id))
  | Some cp =>
      if negb (bool_decide (cp_status cp = Running))
      then (e, Err (NotRunnable id (cp_status cp)))
      else
        let e1 := add_usage (set_checkpoints e (<[id := update cp]> (checkpoints e)))
                    tokens wall_ms in
        match budget_exceeded e1 with
        | Some kind => (set_eng_status e1 WfBudgetExhausted, Err (BudgetExhausted kind))
        | None => (e1, Ok tt)
        end
  end.

Definition complete_step (id result : string) (tokens wall_ms : N) : eng () := λ e,
  match ensure_runnable e with
  | Err x => (e, Err x)
  | Ok _ =>
      match end_step id (λ cp, completed_checkpoint cp result) tokens wall_ms e with
      | (e1, Err x) => (e1, Err x)
      | (e1, Ok _) =>
          (if all_completed e1 then set_eng_status e1 WfCompleted else e1, Ok tt)
      end
  end.

Definition failed_checkpoint (max_retries : N) (reason : string) (cp : StepCheckpoint)
    : StepCheckpoint :=
  let attempts := saturating_add u32_max (cp_attempts cp) 1 in
  mkCheckpoint (cp_step_id cp) (if (attempts <=? max_retries)%N then Pending else StepFailed)
    (Some reason) attempts (cp_schedule_id cp) (cp_result_slot cp).

Definition fail_step (id reason : string) (tokens wall_ms : N) : eng () := λ e,
  match ensure_runnable e with
  | Err x => (e, Err x)
  | Ok _ =>
      match effective_max_retries e id with
      | None => (e, Err (UnknownStep id))
      | Some max_retries =>
          match end_step id (failed_checkpoint max_retries reason) tokens wall_ms e with
          | (e1, Err x) => (e1, Err x)
          | (e1, Ok _) =>
              match checkpoints e1 !! id with
              | None => (e1, Err (UnknownStep id))
              | Some cp =>
                  if bool_decide (cp_status cp = StepFailed)
                  then (set_eng_status e1 WfFailed, Err (RetriesExhausted id))
                  else (e1, Ok tt)
              end
          end
      end
  end.

Definition cancel_checkpoint (cp : StepCheckpoint) : StepCheckpoint :=
  match cp_status cp with
  | Pending | Running => set_cp_status cp StepCancelled
  | _ => cp
  end.

Definition engine_cancel (e : WorkflowEngine) : WorkflowEngine :=
  if negb (is_live (eng_status e)) then e
  else set_eng_status (set_checkpoints e (cancel_checkpoint <$> checkpoints e)) WfCancelled.

Definition complete_step_with_scheduler (id result : string) (tokens wall_ms : N)
    : stateR (WorkflowEngine * InMemoryAgentScheduler) WorkflowError () :=
  λ '(e, s),
  match checkpoints e !! id with
  | None => ((e, s), Err (UnknownStep id))
  | Some cp =>
      match cp_schedule_id cp with
      | None => ((e, s), Err (MissingSchedule id))
      | Some sid =>
          match complete_step id result tokens wall_ms e with
          | (e', (Ok _ | Err (BudgetExhausted _)) as outcome) =>
              match sched_complete sid result s with
              | (s', Ok _) => ((e', s'), outcome)
              | (s', Err x) => ((e', s'), Err (map_scheduler_err x))
              end
          | (e', outcome) => ((e', s), outcome)
          end
      end
  end.

(** The order [checkpoints.values()] is iterated in. *)
Definition checkpoint_order := Checkpoints → list (string * StepCheckpoint).
Definition checkpoint_order_ok (order : checkpoint_order) : Prop :=
  ∀ m, order m ≡ₚ map_to_list m.

Definition cancel_schedule (s : InMemoryAgentScheduler) (kv : string * StepCheckpoint)
    : InMemoryAgentScheduler :=
  match cp_schedule_id kv.2 with Some sid => (sched_cancel sid s).1 | None => s end.

Definition cancel_with_scheduler (order : checkpoint_order)
    (st : WorkflowEngine * InMemoryAgentScheduler) : WorkflowEngine * InMemoryAgentScheduler :=
  let '(e, s) := st in
  (engine_cancel e, foldl cancel_schedule s (order (checkpoints e))).

(** ** The invariant of a run *)

Definition step_retries (e : WorkflowEngine) (s : WorkflowStep) : N :=
  default (budget_max_retries (eng_budget e)) (step_max_retries s).

(** The step has been started, so its dependencies were completed before. *)
Definition started (st : StepStatus) : bool :=
  match st with Running | StepCompleted | StepFailed => true | _ => false end.

Definition attempts_ok (max : N) (cp : StepCheckpoint) : Prop :=
  match cp_status cp with
  | StepFailed => cp_attempts cp = (max + 1)%N
  | _ => (cp_attempts cp ≤ max)%N
  end.

Record cps_inv (e : WorkflowEngine) : Prop := {
  ci_recipe : recipe_ok (eng_recipe e);
  ci_keys : ∀ id, is_Some (checkpoints e !! id) ↔ id ∈ step_id <$> recipe_steps (eng_recipe e);
  ci_deps : ∀ s cp d, s ∈ recipe_steps (eng_recipe e) → checkpoints e !! step_id s = Some cp →
    started (cp_status cp) = true → d ∈ depends_on s → dep_completed (checkpoints e) d = true;
  ci_attempts : ∀ s cp, s ∈ recipe_steps (eng_recipe e) → checkpoints e !! step_id s = Some cp →
    attempts_ok (step_retries e s) cp;
}.

Definition every_step (e : WorkflowEngine) (P : StepStatus → Prop) : Prop :=
  ∀ id cp, checkpoints e !! id = Some cp → P (cp_status cp).

(** What the status of the run says about its steps. *)
Definition status_ok (e : WorkflowEngine) : Prop :=
  match eng_status e with
  | WfIdle | WfRunning =>
      every_step e (λ st, st = Pending ∨ st = Running ∨ st = StepCompleted) ∧
      ¬ every_step e (λ st, st = StepCompleted)
  | WfCompleted => every_step e (λ st, st = StepCompleted)
  | WfCancelled => every_step e (λ st, st = StepCompleted ∨ st = StepCancelled)
  | WfBudgetExhausted => budget_exceeded e ≠ None
  | WfFailed => ¬ every_step e (λ st, st ≠ StepFailed)
  end.

Definition eng_inv (e : WorkflowEngine) : Prop := cps_inv e ∧ status_ok e.

Lemma recipe_step_unique r s s' :
  recipe_ok r → s ∈ recipe_steps r → s' ∈ recipe_steps r → step_id s = step_id s' → s = s'.
Proof.
  intros [_ _ Hnd _ _]. revert Hnd. induction (recipe_steps r) as [|x l IH]; [set_solver|].
  rewrite fmap_cons, NoDup_cons. intros [Hx Hnd] Hs Hs' E.
  apply elem_of_cons in Hs as [->|Hs], Hs' as [->|Hs']; [done|..|by apply IH].
  - exfalso. apply Hx. rewrite E. by apply list_elem_of_fmap_2.
  - exfalso. apply Hx. rewrite <-E. by apply list_elem_of_fmap_2.
Qed.

Lemma find_step_some e id s : find_step e id = Some s →
  s ∈ recipe_steps (eng_recipe e) ∧ step_id s = id.
Proof. intros [? ?%String.eqb_eq]%find_some_elem. done. Qed.

Lemma find_step_exact e s :
  recipe_ok (eng_recipe e) → s ∈ recipe_steps (eng_recipe e) → find_step e (step_id s) = Some s.
Proof.
  intros Hok Hs. destruct (find_step e (step_id s)) as [s'|] eqn:Hf.
  - apply find_step_some in Hf as [Hs' E]. f_equal. by eapply recipe_step_unique.
  - rewrite list_elem_of_In in Hs. unfold find_step in Hf.
    by pose proof (List.find_none _ _ Hf s Hs) as ?%String.eqb_neq.
Qed.

Lemma dep_completed_true cps d :
  dep_completed cps d = true ↔ ∃ cp, cps !! d = Some cp ∧ cp_status cp = StepCompleted.
Proof.
  unfold dep_completed. destruct (cps !! d) as [cp|]; cbn; [|naive_solver].
  rewrite bool_decide_eq_true. naive_solver.
Qed.

Lemma dep_completed_update cps d id cp cp' :
  cps !! id = Some cp → cp_status cp ≠ StepCompleted →
  dep_completed cps d = true → dep_completed (<[id := cp']> cps) d = true.
Proof.
  intros Hcp Hst. rewrite !dep_completed_true. intros (c & Hc & Hs).
  exists c. split; [|done]. rewrite lookup_insert_ne; [done|]. naive_solver.
Qed.

(** Replacing the checkpoint of one step that is not completed. *)
Lemma update_cps_inv e id cp cp' :
  cps_inv e → checkpoints e !! id = Some cp → cp_status cp ≠ StepCompleted →
  (∀ s, s ∈ recipe_steps (eng_recipe e) → step_id s = id →
    attempts_ok (step_retries e s) cp' ∧
    (started (cp_status cp') = true →
      ∀ d, d ∈ depends_on s → dep_completed (checkpoints e) d = true)) →
  cps_inv (set_checkpoints e (<[id := cp']> (checkpoints e))).
Proof.
  intros [Hok Hkeys Hdeps Hatt] Hcp Hst Hnew. split; cbn; [done|..].
  - intros i. rewrite <-Hkeys. destruct (decide (id = i)) as [<-|].
    + rewrite lookup_insert_eq. split; [by eexists|by eexists].
    + by rewrite lookup_insert_ne.
  - intros s c d Hs Hc Hc' Hd. eapply dep_completed_update; [done..|].
    destruct (decide (id = step_id s)) as [E|].
    + rewrite E, lookup_insert_eq in Hc. simplify_eq. by eapply Hnew.
    + rewrite lookup_insert_ne in Hc by done. by eapply Hdeps.
  - intros s c Hs Hc. destruct (decide (id = step_id s)) as [E|].
    + rewrite E, lookup_insert_eq in Hc. simplify_eq. by apply Hnew.
    + rewrite lookup_insert_ne in Hc by done. by apply Hatt.
Qed.

Lemma cps_inv_ext e e' :
  eng_recipe e' = eng_recipe e → eng_budget e' = eng_budget e → checkpoints e' = checkpoints e →
  cps_inv e → cps_inv e'.
Proof.
  intros E1 E2 E3 [H1 H2 H3 H4]. split; unfold step_retries in *; rewrite ?E1, ?E2, ?E3; done.
Qed.

Lemma blocking_none e s :
  recipe_ok (eng_recipe e) → s ∈ recipe_steps (eng_recipe e) →
  blocking_deps e (step_id s) = [] →
  ∀ d, d ∈ depends_on s → dep_completed (checkpoints e) d = true.
Proof.
  intros Hok Hs Hb d Hd. unfold blocking_deps in Hb. rewrite find_step_exact in Hb by done.
  destruct (dep_completed (checkpoints e) d) eqn:Hdc; [done|].
  assert (In d (List.filter (λ d, negb (dep_completed (checkpoints e) d)) (depends_on s))) as Hin.
  { apply List.filter_In. rewrite Hdc, <-list_elem_of_In. done. }
  by rewrite Hb in Hin.
Qed.

Lemma initial_checkpoints_lookup steps id :
  initial_checkpoints steps !! id
  = if decide (id ∈ step_id <$> steps) then Some (initial_checkpoint id) else None.
Proof.
  unfold initial_checkpoints. induction steps as [|s steps IH]; cbn; [done|].
  destruct (decide (step_id s = id)) as [<-|Hne].
  - rewrite lookup_insert_eq, decide_True; [done|by left].
  - rewrite lookup_insert_ne by done. rewrite IH.
    destruct (decide (id ∈ step_id <$> steps)).
    + by rewrite decide_True by (by right).
    + by rewrite decide_False by set_solver.
Qed.

Lemma engine_new_ok order r b e :
  engine_new order r b = Some (Ok e) →
  validate_recipe order r = Some (Ok tt) ∧
  e = mkEngine r b (initial_checkpoints (recipe_steps r)) 0 0 WfIdle.
Proof.
  unfold engine_new. destruct (validate_recipe order r) as [[[]|]|]; [|done..].
  by intros [= <-].
Qed.

Lemma engine_new_inv order r b e :
  indegree_order_ok order → engine_new order r b = Some (Ok e) → eng_inv e ∧ eng_recipe e = r ∧
  eng_budget e = b.
Proof.
  intros Ho [Hv ->]%engine_new_ok.
  destruct (validate_recipe_total order r Ho) as (v & Hv1 & Hiff).
  assert (recipe_ok r) as Hv' by (apply Hiff; congruence). split; [|done]. split; [split; cbn|].
  - done.
  - intros id. rewrite initial_checkpoints_lookup. case_decide; [by split; [|eexists]|].
    split; [by intros [? ?]|done].
  - intros s cp d Hs. rewrite initial_checkpoints_lookup. case_decide; [|done].
    by intros [= <-].
  - intros s cp Hs. rewrite initial_checkpoints_lookup. case_decide; [|done].
    intros [= <-]. unfold attempts_ok. cbn. lia.
  - unfold status_ok, every_step. cbn. split.
    + intros id cp. rewrite initial_checkpoints_lookup. case_decide; [|done]. intros [= <-].
      by left.
    + intros Hall. destruct Hv' as [Hne _ _ _ _]. destruct (recipe_steps r) as [|s l]; [done|].
      specialize (Hall (step_id s) (initial_checkpoint (step_id s))).
      rewrite initial_checkpoints_lookup, decide_True in Hall; [|by left].
      discriminate (Hall eq_refl).
Qed.

(** ** Every operation preserves it *)

Lemma every_step_update e id cp' P :
  every_step e P → P (cp_status cp') →
  every_step (set_checkpoints e (<[id := cp']> (checkpoints e))) P.
Proof.
  intros H Hp i c. cbn. destruct (decide (id = i)) as [<-|].
  - rewrite lookup_insert_eq. by intros [= <-].
  - rewrite lookup_insert_ne by done. apply H.
Qed.

Lemma not_every_step_update e id cp' (P : StepStatus → Prop) :
  ¬ P (cp_status cp') →
  ¬ every_step (set_checkpoints e (<[id := cp']> (checkpoints e))) P.
Proof. intros Hp H. apply Hp, (H id). cbn. by rewrite lookup_insert_eq. Qed.

Lemma ensure_runnable_ok e : ensure_runnable e = Ok tt ↔ is_live (eng_status e) = true.
Proof. unfold ensure_runnable. by destruct (eng_status e). Qed.

Lemma status_ok_live e :
  is_live (eng_status e) = true →
  status_ok e ↔ every_step e (λ st, st = Pending ∨ st = Running ∨ st = StepCompleted) ∧
                ¬ every_step e (λ st, st = StepCompleted).
Proof. unfold status_ok. by destruct (eng_status e). Qed.

(** The guards either fail, changing at most the status to budget-exhausted, or
    leave the engine as it is with the step pending and its dependencies done. *)
Lemma begin_guards_spec id e e' x :
  begin_guards id e = (e', x) →
  match x with
  | Ok cp => e' = e ∧ is_live (eng_status e) = true ∧ budget_exceeded e = None ∧
             blocking_deps e id = [] ∧ checkpoints e !! id = Some cp ∧ cp_status cp = Pending
  | Err (BudgetExhausted _) =>
      e' = e ∨ (e' = set_eng_status e WfBudgetExhausted ∧ budget_exceeded e ≠ None ∧
                is_live (eng_status e) = true)
  | Err _ => e' = e
  end.
Proof.
  unfold begin_guards. destruct (ensure_runnable e) as [[]|x0] eqn:Hr.
  2: { intros [= <- <-]. destruct x0; auto. }
  apply ensure_runnable_ok in Hr. destruct (budget_exceeded e) eqn:Hb.
  { intros [= <- <-]. right. by split_and!. }
  destruct (blocking_deps e id) eqn:Hbl; [|by intros [= <- <-]].
  destruct (checkpoints e !! id) as [cp|] eqn:Hcp; [|by intros [= <- <-]].
  case_bool_decide; cbn; [|by intros [= <- <-]]. by intros [= <- <-].
Qed.

Lemma begin_guards_err_inv id e e' x :
  eng_inv e → begin_guards id e = (e', Err x) → eng_inv e'.
Proof.
  intros [Hc Hs] Hb%begin_guards_spec.
  assert (e' = e ∨ e' = set_eng_status e WfBudgetExhausted ∧ budget_exceeded e ≠ None) as Hor.
  { destruct x; naive_solver. }
  destruct Hor as [->|[-> Hx]]; [done|]. split; [by eapply cps_inv_ext; [..|exact Hc]|done].
Qed.

Lemma begin_running_inv id e cp cp' :
  eng_inv e → begin_guards id e = (e, Ok cp) →
  cp_status cp' = Running → cp_attempts cp' = cp_attempts cp →
  eng_inv (set_checkpoints e (<[id := cp']> (checkpoints e))).
Proof.
  intros [Hc Hs] (_ & Hl & _ & Hbl & Hcp & Hp)%begin_guards_spec Hst Ha. split.
  - eapply update_cps_inv; [done|done|by rewrite Hp|]. intros s Hin <-. split.
    + pose proof (ci_attempts e Hc s cp Hin Hcp) as Hat. unfold attempts_ok in *.
      rewrite Hst, Ha. by rewrite Hp in Hat.
    + intros _. apply blocking_none; [apply Hc|done..].
  - apply status_ok_live in Hs as [H1 H2]; [|done]. apply status_ok_live; [done|]. split.
    + apply every_step_update; [done|by auto].
    + apply not_every_step_update. by rewrite Hst.
Qed.

Lemma begin_step_inv id e : eng_inv e → eng_inv (begin_step id e).1.
Proof.
  intros Hi. unfold begin_step. destruct (begin_guards id e) as [e' [cp|x]] eqn:Hb.
  - pose proof (begin_guards_spec _ _ _ _ Hb) as (-> & _). by eapply begin_running_inv.
  - by eapply begin_guards_err_inv.
Qed.

Lemma begin_step_with_scheduler_inv id e s :
  eng_inv e → eng_inv (begin_step_with_scheduler id (e, s)).1.1.
Proof.
  intros Hi. unfold begin_step_with_scheduler.
  destruct (begin_guards id e) as [e' [cp|x]] eqn:Hb; [|by eapply begin_guards_err_inv].
  pose proof (begin_guards_spec _ _ _ _ Hb) as (-> & _).
  destruct (step_role e id); [|done]. destruct (schedule _ s) as [s' [a'|x]]; [|done].
  by eapply begin_running_inv.
Qed.

(** Ending a running step: the checkpoints are updated and usage is counted; only
    the budget test can then change the status. *)
Lemma end_step_spec id update t w e e' x :
  end_step id update t w e = (e', x) →
  match x with
  | Ok _ => ∃ cp, checkpoints e !! id = Some cp ∧ cp_status cp = Running ∧
      e' = add_usage (set_checkpoints e (<[id := update cp]> (checkpoints e))) t w ∧
      budget_exceeded e' = None
  | Err (BudgetExhausted _) => ∃ cp, checkpoints e !! id = Some cp ∧ cp_status cp = Running ∧
      e' = set_eng_status
             (add_usage (set_checkpoints e (<[id := update cp]> (checkpoints e))) t w)
             WfBudgetExhausted ∧
      budget_exceeded e' ≠ None
  | Err _ => e' = e ∧ ¬ ∃ cp, checkpoints e !! id = Some cp ∧ cp_status cp = Running
  end.
Proof.
  unfold end_step. destruct (checkpoints e !! id) as [cp|] eqn:Hcp.
  2: { intros [= <- <-]. split; [done|]. naive_solver. }
  case_bool_decide as Hst; cbn [negb].
  2: { intros [= <- <-]. split; [done|]. naive_solver. }
  destruct (budget_exceeded _) eqn:Hb.
  - intros [= <- <-]. exists cp. split_and!; [done..|]. unfold budget_exceeded in *. cbn in *.
    by rewrite Hb.
  - intros [= <- <-]. by exists cp.
Qed.

Lemma end_step_cps_inv id update t w e e' x :
  cps_inv e → end_step id update t w e = (e', x) →
  (∀ s cp, s ∈ recipe_steps (eng_recipe e) → step_id s = id →
    checkpoints e !! id = Some cp → cp_status cp = Running →
    attempts_ok (step_retries e s) (update cp)) →
  cps_inv e'.
Proof.
  intros Hc He Hup. pose proof He as Hsp%end_step_spec.
  assert (∀ cp, checkpoints e !! id = Some cp → cp_status cp = Running →
    cps_inv (set_checkpoints e (<[id := update cp]> (checkpoints e)))) as Hu.
  { intros cp Hcp Hr. eapply update_cps_inv; [done|done|by rewrite Hr|]. intros s Hs <-. split.
    - by eapply Hup.
    - intros _ d Hd. eapply (ci_deps e Hc s cp); [done..|by rewrite Hr|done]. }
  destruct x as [?|x]; [|destruct x];
    try (destruct Hsp as [-> _]; exact Hc);
    destruct Hsp as (cp & Hcp & Hr & -> & _); by eapply cps_inv_ext; [..|by apply (Hu cp)].
Qed.

Lemma complete_step_inv id result t w e : eng_inv e → eng_inv (complete_step id result t w e).1.
Proof.
  intros [Hc Hs]. unfold complete_step. destruct (ensure_runnable e) as [[]|] eqn:Hr; [|done].
  apply ensure_runnable_ok in Hr.
  destruct (end_step _ _ t w e) as [e1 x] eqn:He. assert (cps_inv e1) as Hc1.
  { eapply end_step_cps_inv; [done..|]. intros s cp Hin <- Hcp Hst.
    pose proof (ci_attempts e Hc s cp Hin Hcp) as Ha. unfold attempts_ok in *. cbn.
    by rewrite Hst in Ha. }
  apply end_step_spec in He. apply status_ok_live in Hs as [H1 H2]; [|done].
  destruct x as [?|x].
  - destruct He as (cp & Hcp & Hst & -> & Hb). unfold all_completed.
    case_bool_decide as Hall; (split; [by eapply cps_inv_ext; [..|exact Hc1]|]).
    + intros i c Hi. by apply Hall in Hi.
    + apply status_ok_live; [done|]. split; [|intros H; by apply Hall; intros i c Hi; eapply H].
      apply (every_step_update e id); [done|by auto].
  - split; [done|]. destruct x;
      try (destruct He as [-> _]; by apply status_ok_live).
    by destruct He as (cp & _ & _ & -> & Hb).
Qed.

Lemma failed_checkpoint_attempts max reason cp :
  (cp_attempts cp ≤ max)%N → attempts_ok max (failed_checkpoint max reason cp).
Proof.
  intros Ha. unfold attempts_ok, failed_checkpoint, saturating_add. cbn.
  destruct (N.leb_spec (N.min (cp_attempts cp + 1) u32_max) max); lia.
Qed.

Lemma fail_step_inv id reason t w e : eng_inv e → eng_inv (fail_step id reason t w e).1.
Proof.
  intros [Hc Hs]. unfold fail_step. destruct (ensure_runnable e) as [[]|] eqn:Hr; [|done].
  apply ensure_runnable_ok in Hr.
  destruct (effective_max_retries e id) as [max|] eqn:Hmax; [|done].
  destruct (end_step _ _ t w e) as [e1 x] eqn:He. assert (cps_inv e1) as Hc1.
  { eapply end_step_cps_inv; [done..|]. intros s cp Hin <- Hcp Hst.
    pose proof (ci_attempts e Hc s cp Hin Hcp) as Ha. unfold effective_max_retries in Hmax.
    rewrite find_step_exact in Hmax; [|apply Hc|done]. injection Hmax as <-.
    apply failed_checkpoint_attempts. unfold attempts_ok in Ha. by rewrite Hst in Ha. }
  apply end_step_spec in He. apply status_ok_live in Hs as [H1 H2]; [|done].
  destruct x as [?|x].
  - destruct He as (cp & Hcp & Hst & -> & Hb). cbn [add_usage checkpoints set_checkpoints].
    rewrite lookup_insert_eq. case_bool_decide as Hf;
      (split; [by eapply cps_inv_ext; [..|exact Hc1]|]).
    + apply (not_every_step_update e id). rewrite Hf. intros H. by apply H.
    + apply status_ok_live; [done|]. unfold failed_checkpoint in *. cbn in Hf.
      split; [apply (every_step_update e id)|apply (not_every_step_update e id)];
        [done|..]; cbn; destruct (_ <=? _)%N; first [done|by auto].
  - split; [done|]. destruct x;
      try (destruct He as [-> _]; by apply status_ok_live).
    by destruct He as (cp & _ & _ & -> & Hb).
Qed.

Lemma cancel_checkpoint_status cp :
  cp_status (cancel_checkpoint cp) =
    match cp_status cp with Pending | Running => StepCancelled | st => st end ∧
  cp_attempts (cancel_checkpoint cp) = cp_attempts cp.
Proof. unfold cancel_checkpoint. by destruct (cp_status cp) eqn:?. Qed.

Lemma engine_cancel_inv e : eng_inv e → eng_inv (engine_cancel e).
Proof.
  intros [Hc Hs]. unfold engine_cancel. destruct (is_live _) eqn:Hl; [|done]. cbn [negb].
  apply status_ok_live in Hs as [H1 H2]; [|done].
  assert (∀ id c, (cancel_checkpoint <$> checkpoints e) !! id = Some c →
    ∃ cp, checkpoints e !! id = Some cp ∧ c = cancel_checkpoint cp) as Hlk.
  { intros id c. rewrite lookup_fmap_Some. naive_solver. }
  destruct Hc as [Hok Hkeys Hdeps Hatt]. split; [split; cbn|].
  - done.
  - intros id. by rewrite lookup_fmap, fmap_is_Some.
  - intros s c d Hin (cp & Hcp & ->)%Hlk Hst Hd.
    assert (dep_completed (checkpoints e) d = true) as Hdc.
    { apply (Hdeps s cp); [done..| |done]. rewrite (proj1 (cancel_checkpoint_status cp)) in Hst.
      by destruct (cp_status cp). }
    apply dep_completed_true in Hdc as (cd & Hcd & Hsd). apply dep_completed_true.
    exists (cancel_checkpoint cd). rewrite lookup_fmap, Hcd. split; [done|].
    by rewrite (proj1 (cancel_checkpoint_status cd)), Hsd.
  - intros s c Hin (cp & Hcp & ->)%Hlk. specialize (Hatt s cp Hin Hcp). unfold attempts_ok in *.
    destruct (cancel_checkpoint_status cp) as [-> ->]. by destruct (cp_status cp).
  - intros id c (cp & Hcp & ->)%Hlk. rewrite (proj1 (cancel_checkpoint_status cp)).
    destruct (H1 id cp Hcp) as [->|[->| ->]]; auto.
Qed.

Lemma engine_start_inv e : eng_inv e → eng_inv (engine_start e).1.
Proof.
  intros [Hc Hs]. unfold engine_start. unfold eng_inv in *.
  destruct (eng_status e) eqn:He; cbn; [|done..]. split; [by eapply cps_inv_ext; [..|exact Hc]|].
  unfold status_ok in *. rewrite He in Hs. exact Hs.
Qed.

Lemma complete_step_with_scheduler_engine id result t w e s :
  (complete_step_with_scheduler id result t w (e, s)).1.1 = e ∨
  (complete_step_with_scheduler id result t w (e, s)).1.1 = (complete_step id result t w e).1.
Proof.
  unfold complete_step_with_scheduler. destruct (checkpoints e !! id) as [cp|]; [|by left].
  destruct (cp_schedule_id cp) as [sid|]; [|by left]. right.
  destruct (complete_step id result t w e) as [e' [u|[]]]; try done;
    by destruct (sched_complete sid result s) as [s' []].
Qed.

(** ** Runs *)

(** A failure is reported for a step that runs, on a run that is live. *)
Definition fails_running (id : string) (e : WorkflowEngine) : bool :=
  is_live (eng_status e) &&
  from_option (λ cp, bool_decide (cp_status cp = Running)) false (checkpoints e !! id).

(** One call on the engine, alone or together with a scheduler, labelled with the
    running step whose failure it reports, if any. *)
Inductive eng_step : list string → WorkflowEngine → WorkflowEngine → Prop :=
  | es_start e : eng_step [] e (engine_start e).1
  | es_begin id e : eng_step [] e (begin_step id e).1
  | es_begin_scheduled id e s : eng_step [] e (begin_step_with_scheduler id (e, s)).1.1
  | es_complete id result t w e : eng_step [] e (complete_step id result t w e).1
  | es_complete_scheduled id result t w e s :
      eng_step [] e (complete_step_with_scheduler id result t w (e, s)).1.1
  | es_fail id reason t w e :
      eng_step (if fails_running id e then [id] else []) e (fail_step id reason t w e).1
  | es_cancel e : eng_step [] e (engine_cancel e)
  | es_cancel_scheduled order e s : eng_step [] e (cancel_with_scheduler order (e, s)).1.

Lemma es_fail_running id reason t w e :
  fails_running id e = true → eng_step [id] e (fail_step id reason t w e).1.
Proof. intros E. pose proof (es_fail id reason t w e) as H. by rewrite E in H. Qed.

Lemma es_fail_ignored id reason t w e :
  fails_running id e = false → eng_step [] e (fail_step id reason t w e).1.
Proof. intros E. pose proof (es_fail id reason t w e) as H. by rewrite E in H. Qed.

(** Any calls, with the failures they reported, in order. *)
Inductive eng_run : list string → WorkflowEngine → WorkflowEngine → Prop :=
  | er_nil e : eng_run [] e e
  | er_cons f fs e1 e2 e3 : eng_step f e1 e2 → eng_run fs e2 e3 → eng_run (f ++ fs) e1 e3.

Lemma eng_step_inv f e e' : eng_step f e e' → eng_inv e → eng_inv e'.
Proof.
  intros [e0|id e0|id e0 s|id res t w e0|id res t w e0 s|id why t w e0|e0|order e0 s] Hi.
  - by apply engine_start_inv.
  - by apply begin_step_inv.
  - by apply begin_step_with_scheduler_inv.
  - by apply complete_step_inv.
  - destruct (complete_step_with_scheduler_engine id res t w e0 s) as [->| ->];
      [done|by apply complete_step_inv].
  - by apply fail_step_inv.
  - by apply engine_cancel_inv.
  - by apply engine_cancel_inv.
Qed.

Lemma eng_run_inv fs e e' : eng_run fs e e' → eng_inv e → eng_inv e'.
Proof. induction 1 as [|f fs x y z Hxy _ IH]; [done|]. intros Hi. by eapply IH, eng_step_inv. Qed.

(** ** The attempts are the failures that were reported *)

(** The same steps with the same number of attempts. *)
Definition same_attempts (e e' : WorkflowEngine) : Prop :=
  cp_attempts <$> checkpoints e' = cp_attempts <$> checkpoints e.

Lemma same_attempts_update e id cp cp' e' :
  checkpoints e' = <[id := cp']> (checkpoints e) → checkpoints e !! id = Some cp →
  cp_attempts cp' = cp_attempts cp → same_attempts e e'.
Proof.
  intros Hc Hcp Ha. unfold same_attempts. rewrite Hc, fmap_insert, Ha. apply insert_id.
  by rewrite lookup_fmap, Hcp.
Qed.

Lemma begin_guards_attempts id e :
  checkpoints (begin_guards id e).1 = checkpoints e ∧
  ∀ cp, (begin_guards id e).2 = Ok cp → (begin_guards id e).1 = e ∧ checkpoints e !! id = Some cp.
Proof.
  destruct (begin_guards id e) as [e' x] eqn:Hb. apply begin_guards_spec in Hb. cbn.
  destruct x as [cp|[]]; naive_solver.
Qed.

Lemma begin_step_attempts id e : same_attempts e (begin_step id e).1.
Proof.
  pose proof (begin_guards_attempts id e) as [Hc Hok]. unfold begin_step.
  destruct (begin_guards id e) as [e' [cp|x]]; cbn in *; [|by unfold same_attempts; rewrite Hc].
  destruct (Hok cp eq_refl) as [-> Hcp]. by eapply same_attempts_update.
Qed.

Lemma begin_step_with_scheduler_attempts id e s :
  same_attempts e (begin_step_with_scheduler id (e, s)).1.1.
Proof.
  pose proof (begin_guards_attempts id e) as [Hc Hok]. unfold begin_step_with_scheduler.
  destruct (begin_guards id e) as [e' [cp|x]]; cbn in *; [|by unfold same_attempts; rewrite Hc].
  destruct (Hok cp eq_refl) as [-> Hcp]. destruct (step_role e id); [|done].
  destruct (schedule _ s) as [s1 [adm|x]]; [|done]. by eapply same_attempts_update.
Qed.

(** Ending a step rewrites its checkpoint, whether or not the budget is then
    used up; nothing else changes. *)
Lemma end_step_checkpoints id update t w e :
  checkpoints (end_step id update t w e).1 =
    match checkpoints e !! id with
    | Some cp => if bool_decide (cp_status cp = Running)
                 then <[id := update cp]> (checkpoints e) else checkpoints e
    | None => checkpoints e
    end.
Proof.
  unfold end_step. destruct (checkpoints e !! id) as [cp|]; [|done].
  case_bool_decide; cbn [negb]; [|done]. by destruct (budget_exceeded _).
Qed.

Lemma complete_step_attempts id result t w e : same_attempts e (complete_step id result t w e).1.
Proof.
  unfold complete_step. destruct (ensure_runnable e); [|done].
  pose proof (end_step_checkpoints id (λ cp, completed_checkpoint cp result) t w e) as Hc.
  destruct (end_step _ _ t w e) as [e1 x]. cbn [fst] in Hc.
  assert (same_attempts e e1) as Hs.
  { destruct (checkpoints e !! id) as [cp|] eqn:Hcp; [|by unfold same_attempts; rewrite Hc].
    case_bool_decide; [by eapply same_attempts_update|by unfold same_attempts; rewrite Hc]. }
  destruct x; [|done]. by destruct (all_completed e1).
Qed.

Lemma engine_cancel_attempts e : same_attempts e (engine_cancel e).
Proof.
  unfold engine_cancel. destruct (negb _); [done|]. unfold same_attempts. cbn.
  rewrite <-map_fmap_compose. apply map_fmap_ext. intros i cp _.
  apply (cancel_checkpoint_status cp).
Qed.

Lemma engine_start_attempts e : same_attempts e (engine_start e).1.
Proof. unfold engine_start. by destruct (eng_status e). Qed.

Lemma alter_some (f : StepCheckpoint → StepCheckpoint) (cps : Checkpoints) id cp :
  cps !! id = Some cp → alter f id cps = <[id := f cp]> cps.
Proof.
  intros Hcp. apply map_eq. intros i. destruct (decide (id = i)) as [<-|Hne].
  - by rewrite lookup_alter_eq, lookup_insert_eq, Hcp.
  - by rewrite lookup_alter_ne, lookup_insert_ne.
Qed.

(** A failure of a running step counts one more attempt of that step; any other
    report changes nothing. *)
Lemma fail_step_checkpoints id reason t w e :
  eng_inv e →
  checkpoints (fail_step id reason t w e).1 =
    if fails_running id e
    then alter (failed_checkpoint (default 0%N (effective_max_retries e id)) reason) id (checkpoints e)
    else checkpoints e.
Proof.
  intros [Hc _]. unfold fail_step, fails_running.
  destruct (ensure_runnable e) as [[]|x] eqn:Hr.
  2: { destruct (is_live (eng_status e)) eqn:Hl; [|done].
       apply ensure_runnable_ok in Hl. by rewrite Hl in Hr. }
  rewrite (proj1 (ensure_runnable_ok e) Hr). cbn [andb].
  destruct (effective_max_retries e id) as [max|] eqn:Hmax.
  - pose proof (end_step_checkpoints id (failed_checkpoint max reason) t w e) as He.
    destruct (end_step _ _ t w e) as [e1 x]. cbn [fst] in He.
    assert (checkpoints match x with
      | Ok _ => (match checkpoints e1 !! id with
                 | None => (e1, Err (UnknownStep id))
                 | Some cp => if bool_decide (cp_status cp = StepFailed)
                              then (set_eng_status e1 WfFailed, Err (RetriesExhausted id))
                              else (e1, Ok tt)
                 end).1
      | Err x => e1
      end = checkpoints e1) as Hsame.
    { destruct x; [|done]. destruct (checkpoints e1 !! id); [|done]. by case_bool_decide. }
    transitivity (checkpoints e1); [by destruct x|]. rewrite He.
    destruct (checkpoints e !! id) as [cp|] eqn:Hcp; [|done]. cbn [from_option default].
    case_bool_decide; [|done]. by rewrite (alter_some _ _ _ cp).
  - cbn. destruct (checkpoints e !! id) as [cp|] eqn:Hcp; [|done]. exfalso.
    assert (id ∈ step_id <$> recipe_steps (eng_recipe e)) as (s & -> & Hs)%list_elem_of_fmap.
    { apply (ci_keys e Hc). by eexists. }
    unfold effective_max_retries in Hmax. rewrite find_step_exact in Hmax; [done|apply Hc|done].
Qed.

(** The recipe and the budget are those of the beginning. *)
Definition same_setup (e e' : WorkflowEngine) : Prop :=
  eng_recipe e' = eng_recipe e ∧ eng_budget e' = eng_budget e.

Lemma begin_guards_setup id e : same_setup e (begin_guards id e).1.
Proof.
  destruct (begin_guards id e) as [e' x] eqn:Hb. apply begin_guards_spec in Hb. cbn.
  assert (e' = e ∨ e' = set_eng_status e WfBudgetExhausted) as [->| ->]; [|done..].
  destruct x as [cp|[]]; naive_solver.
Qed.

Lemma end_step_setup id update t w e : same_setup e (end_step id update t w e).1.
Proof.
  unfold end_step. destruct (checkpoints e !! id); [|done]. destruct (negb _); [done|].
  by destruct (budget_exceeded _).
Qed.

Lemma complete_step_setup id result t w e : same_setup e (complete_step id result t w e).1.
Proof.
  unfold complete_step. destruct (ensure_runnable e); [|done].
  pose proof (end_step_setup id (λ cp, completed_checkpoint cp result) t w e) as H.
  destruct (end_step _ _ t w e) as [e1 []]; [|done]. by destruct (all_completed e1).
Qed.

Lemma fail_step_setup id reason t w e : same_setup e (fail_step id reason t w e).1.
Proof.
  unfold fail_step. destruct (ensure_runnable e); [|done].
  destruct (effective_max_retries e id) as [max|]; [|done].
  pose proof (end_step_setup id (failed_checkpoint max reason) t w e) as H.
  destruct (end_step _ _ t w e) as [e1 []]; [|done]. destruct (checkpoints e1 !! id); [|done].
  by case_bool_decide.
Qed.

Lemma eng_step_setup f e e' : eng_step f e e' → same_setup e e'.
Proof.
  intros [e0|id e0|id e0 s|id res t w e0|id res t w e0 s|id why t w e0|e0|order e0 s].
  - unfold engine_start. by destruct (eng_status e0).
  - pose proof (begin_guards_setup id e0). unfold begin_step.
    by destruct (begin_guards id e0) as [e1 []].
  - pose proof (begin_guards_setup id e0). unfold begin_step_with_scheduler.
    destruct (begin_guards id e0) as [e1 []]; [|done]. destruct (step_role e1 id); [|done].
    by destruct (schedule _ s) as [s' []].
  - apply complete_step_setup.
  - destruct (complete_step_with_scheduler_engine id res t w e0 s) as [->| ->];
      [done|apply complete_step_setup].
  - apply fail_step_setup.
  - unfold engine_cancel. by destruct (negb _).
  - cbn. unfold engine_cancel. by destruct (negb _).
Qed.

Lemma eng_run_setup fs e e' : eng_run fs e e' → same_setup e e'.
Proof.
  induction 1 as [|f fs x y z Hxy%eng_step_setup _ IH]; [done|].
  destruct Hxy, IH. split; congruence.
Qed.

(** How often [fs] names the step. *)
Definition failures (id : string) (fs : list string) : N := N.of_nat (occurrences id fs).

Lemma failures_app id fs gs : failures id (fs ++ gs) = (failures id fs + failures id gs)%N.
Proof. unfold failures, occurrences. rewrite filter_app, length_app. lia. Qed.

(** The counter of a step is the number of its failures, up to the width of the
    counter; the width is reached only by a budget of [u32::MAX] retries. *)
Definition counted (fs : list string) (e : WorkflowEngine) : Prop :=
  ∀ s cp, s ∈ recipe_steps (eng_recipe e) → checkpoints e !! step_id s = Some cp →
    cp_attempts cp = N.min (failures (step_id s) fs) u32_max ∧
    ((step_retries e s < u32_max)%N → (failures (step_id s) fs ≤ u32_max)%N).

Lemma counted_same fs e e' : same_setup e e' → same_attempts e e' → counted fs e → counted fs e'.
Proof.
  intros [Er Eb] Ha Hc s cp' Hs Hcp'. unfold step_retries. rewrite Eb. rewrite Er in Hs.
  pose proof (f_equal (lookup (step_id s)) Ha) as Hl. rewrite !lookup_fmap, Hcp' in Hl.
  destruct (checkpoints e !! step_id s) as [cp|] eqn:Hcp; [|done]. injection Hl as Hl.
  rewrite Hl. by apply (Hc s cp).
Qed.

Lemma counted_fail fs id reason t w e :
  eng_inv e → counted fs e →
  counted (fs ++ if fails_running id e then [id] else []) (fail_step id reason t w e).1.
Proof.
  intros Hi Hc. pose proof (fail_step_checkpoints id reason t w e Hi) as Hcps.
  destruct (fail_step_setup id reason t w e) as [Er Eb].
  destruct (fails_running id e) eqn:Hf.
  2: { rewrite app_nil_r. apply (counted_same fs e); [done| |done]. by unfold same_attempts; rewrite Hcps. }
  intros s cp' Hs. unfold step_retries. rewrite Hcps, Eb, failures_app. rewrite Er in Hs.
  fold (step_retries e s). destruct (decide (step_id s = id)) as [<-|Hne].
  - rewrite lookup_alter_eq. destruct (checkpoints e !! step_id s) as [cp|] eqn:Hcp; [|done].
    intros [= <-]. destruct (Hc s cp Hs Hcp) as [Ha Hb].
    assert (cp_attempts cp ≤ step_retries e s)%N as Hle.
    { apply andb_true_iff in Hf as [_ Hf]. rewrite Hcp in Hf. cbn in Hf.
      apply bool_decide_eq_true in Hf. destruct Hi as [[_ _ _ Hatt] _].
      specialize (Hatt s cp Hs Hcp). unfold attempts_ok in Hatt. by rewrite Hf in Hatt. }
    assert (failures (step_id s) [step_id s] = 1%N) as ->.
    { unfold failures. by rewrite occurrences_cons, decide_True by done. }
    unfold failed_checkpoint, saturating_add. cbn [cp_attempts]. lia.
  - rewrite lookup_alter_ne by done. intros Hcp.
    assert (failures (step_id s) [id] = 0%N) as ->.
    { unfold failures. by rewrite occurrences_cons, decide_False by done. }
    rewrite N.add_0_r. by apply Hc.
Qed.

Lemma counted_step fs f e e' : eng_step f e e' → eng_inv e → counted fs e → counted (fs ++ f) e'.
Proof.
  intros Hstep Hi Hc. pose proof (eng_step_setup f e e' Hstep) as Hset.
  destruct Hstep as [e|id e|id e s|id res t w e|id res t w e s|id why t w e|e|order e s];
    try by apply counted_fail.
  all: rewrite app_nil_r; apply (counted_same fs e); [done| |done].
  - apply engine_start_attempts.
  - apply begin_step_attempts.
  - apply begin_step_with_scheduler_attempts.
  - apply complete_step_attempts.
  - destruct (complete_step_with_scheduler_engine id res t w e s) as [->| ->];
      [done|apply complete_step_attempts].
  - apply engine_cancel_attempts.
  - apply engine_cancel_attempts.
Qed.

Lemma counted_run fs e e' : eng_run fs e e' → ∀ pre, eng_inv e → counted pre e → counted (pre ++ fs) e'.
Proof.
  induction 1 as [e|f fs e1 e2 e3 Hstep _ IH]; intros pre Hi Hc; [by rewrite app_nil_r|].
  rewrite app_assoc. apply IH; [by eapply eng_step_inv|by eapply counted_step].
Qed.

(** A step was failed at most once more than its budget of retries, and is failed
    for good when that happened. *)
Lemma counted_within fs e s cp :
  eng_inv e → counted fs e → s ∈ recipe_steps (eng_recipe e) →
  checkpoints e !! step_id s = Some cp → (step_retries e s < u32_max)%N →
  (failures (step_id s) fs ≤ step_retries e s + 1)%N ∧
  (cp_status cp = StepFailed ↔ failures (step_id s) fs = (step_retries e s + 1)%N).
Proof.
  intros [[_ _ _ Hatt] _] Hc Hs Hcp Hlt. specialize (Hatt s cp Hs Hcp).
  destruct (Hc s cp Hs Hcp) as [Ha Hb]. specialize (Hb Hlt). unfold attempts_ok in Hatt.
  destruct (cp_status cp); (split; [lia|]); split; try done; lia.
Qed.

(** C33: Whatever calls are made on an engine built from a valid recipe, in
    any order and with or without the scheduler: a step that is running,
    completed or failed has all its dependencies completed; the status of the
    run is the truth about its steps (running: some step is open and none failed
    or was cancelled; completed: every step completed; cancelled: nothing is left
    pending or running; failed: some step failed; budget exhausted: a limit is
    reached); and, counting the failures that were reported for a running step,
    a step's counter is that number up to the width of the counter, it is never
    failed more often than its retries and one, and it is failed for good exactly
    when it was failed that often (for a budget below [u32::MAX] retries). *)
Theorem workflow_run_invariant order r b e0 fs e :
  indegree_order_ok order → engine_new order r b = Some (Ok e0) → eng_run fs e0 e →
  eng_inv e ∧
  ∀ s cp, s ∈ recipe_steps r → checkpoints e !! step_id s = Some cp →
    let retries := default (budget_max_retries b) (step_max_retries s) in
    cp_attempts cp = N.min (failures (step_id s) fs) u32_max ∧
    ((retries < u32_max)%N →
      (failures (step_id s) fs ≤ retries + 1)%N ∧
      (cp_status cp = StepFailed ↔ failures (step_id s) fs = (retries + 1)%N)).
Proof.
  intros Ho Hn Hr. destruct (engine_new_inv _ _ _ _ Ho Hn) as (Hi & Er & Eb).
  assert (counted [] e0) as Hc0.
  { apply engine_new_ok in Hn as [_ ->]. intros s cp Hs. cbn. rewrite initial_checkpoints_lookup.
    case_decide; [|done]. intros [= <-]. done. }
  pose proof (eng_run_inv _ _ _ Hr Hi) as Hi'. pose proof (eng_run_setup _ _ _ Hr) as [Er' Eb'].
  pose proof (counted_run _ _ _ Hr [] Hi Hc0) as Hc. split; [done|]. intros s cp Hs Hcp.
  rewrite <-Er, <-Er' in Hs. rewrite <-Eb, <-Eb'. split; [by apply Hc|].
  by apply counted_within.
Qed.

Definition bug_engine : WorkflowEngine :=
  mkEngine bug_skeleton_recipe WorkflowBudget_default
    (initial_checkpoints (recipe_steps bug_skeleton_recipe)) 0 0 WfIdle.

Lemma bug_engine_new :
  engine_new map_to_list bug_skeleton_recipe WorkflowBudget_default = Some (Ok bug_engine).
Proof. vm_compute. reflexivity. Qed.

(** A recipe whose only step may be retried once. *)
Definition once_recipe : WorkflowRecipe := mkRecipe "once" "Once"
  [mkStep "build" "Build" None [] (Some 1%N)].

Definition once_engine : WorkflowEngine :=
  mkEngine once_recipe WorkflowBudget_default (initial_checkpoints (recipe_steps once_recipe)) 0 0
    WfIdle.

(** The first failure leaves the step pending with one attempt. *)
Definition once_failed : WorkflowEngine :=
  (fail_step "build" "boom" 1 1 (begin_step "build" (engine_start once_engine).1).1).1.

(** It is begun again and fails again, and a third report is ignored. *)
Lemma workflow_run_witness :
  let e1 := (fail_step "build" "boom" 1 1 (begin_step "build" once_failed).1).1 in
  let e := (fail_step "build" "boom" 1 1 e1).1 in
  eng_status e = WfFailed ∧ eng_inv e ∧
  (cp_attempts <$> checkpoints e !! "build") = Some 2%N.
Proof.
  cbn zeta. split_and!; [vm_compute; reflexivity| |vm_compute; reflexivity].
  apply (workflow_run_invariant map_to_list once_recipe WorkflowBudget_default once_engine
    ["build"; "build"]).
  - by intros m.
  - vm_compute. reflexivity.
  - apply (er_cons [] ["build"; "build"] _ (engine_start once_engine).1); [apply es_start|].
    eapply (er_cons [] ["build"; "build"]); [apply (es_begin "build")|].
    apply (er_cons ["build"] ["build"] _ once_failed); [by apply es_fail_running|].
    eapply (er_cons [] ["build"]); [apply (es_begin "build")|].
    eapply (er_cons ["build"] []); [by apply es_fail_running|].
    eapply (er_cons [] []); [by apply (es_fail_ignored "build" "boom" 1 1)|]. apply er_nil.
Defined.

(** ** Progress *)

Lemma depends_sn r id : recipe_ok r → sn (depends r) id.
Proof.
  intros [_ _ _ Hknown Hac]. apply tc_finite_sn; [done|].
  exists (step_id <$> recipe_steps r). intros d Hd.
  induction Hd as [a b Hab|a b c _ _ IH]; [by eapply Hknown|done].
Qed.

Lemma is_ready_true e s :
  recipe_ok (eng_recipe e) → s ∈ recipe_steps (eng_recipe e) →
  is_ready e (step_id s) = true ↔
  ∃ cp, checkpoints e !! step_id s = Some cp ∧ cp_status cp = Pending ∧
    ∀ d, d ∈ depends_on s → dep_completed (checkpoints e) d = true.
Proof.
  intros Hok Hs. unfold is_ready. rewrite find_step_exact by done.
  destruct (checkpoints e !! step_id s) as [cp|]; [|naive_solver].
  rewrite andb_true_iff, bool_decide_eq_true, forallb_bool. naive_solver.
Qed.

(** Behind every unfinished step there is a ready one, or one that runs. *)
Lemma unfinished_ready e id cp :
  eng_inv e → is_live (eng_status e) = true → every_step e (λ st, st ≠ Running) →
  checkpoints e !! id = Some cp → cp_status cp ≠ StepCompleted →
  ∃ s, s ∈ recipe_steps (eng_recipe e) ∧ is_ready e (step_id s) = true.
Proof.
  intros [Hc Hs] Hl Hnr. apply status_ok_live in Hs as [Hst _]; [|done].
  pose proof (ci_recipe e Hc) as Hok. revert cp.
  induction (depends_sn (eng_recipe e) id Hok) as [id _ IH]; intros cp Hcp Hne.
  assert (id ∈ step_id <$> recipe_steps (eng_recipe e)) as (s & -> & Hin)%list_elem_of_fmap.
  { apply (ci_keys e Hc). by eexists. }
  destruct (is_ready e (step_id s)) eqn:Hready; [by exists s|].
  assert (∃ d, d ∈ depends_on s ∧ dep_completed (checkpoints e) d = false) as (d & Hd & Hdc).
  { destruct (existsb (λ d, negb (dep_completed (checkpoints e) d)) (depends_on s)) eqn:Hex.
    - apply existsb_bool in Hex as (d & Hd & Hn%negb_true_iff). by exists d.
    - exfalso. rewrite existsb_false_iff in Hex. apply not_true_iff_false in Hready.
      apply Hready, is_ready_true; [done..|]. exists cp. split_and!; [done| |].
      + destruct (Hst _ _ Hcp) as [?|[E|?]]; [done| |done]. by apply Hnr in Hcp.
      + intros d Hd. by apply negb_false_iff, Hex. }
  assert (depends (eng_recipe e) (step_id s) d) as Hdep by by exists s.
  assert (is_Some (checkpoints e !! d)) as [cd Hcd].
  { apply (ci_keys e Hc). by eapply (rok_known _ Hok). }
  apply (IH d Hdep cd Hcd). intros E. apply not_true_iff_false in Hdc. apply Hdc.
  apply dep_completed_true. by exists cd.
Qed.

Lemma begin_step_ready e s :
  recipe_ok (eng_recipe e) → s ∈ recipe_steps (eng_recipe e) →
  is_ready e (step_id s) = true → is_live (eng_status e) = true → budget_exceeded e = None →
  ∃ cp, begin_guards (step_id s) e = (e, Ok cp) ∧ checkpoints e !! step_id s = Some cp.
Proof.
  intros Hok Hin Hr Hl Hb. apply is_ready_true in Hr as (cp & Hcp & Hp & Hd); [|done..].
  exists cp. split; [|done]. unfold begin_guards.
  rewrite (proj2 (ensure_runnable_ok e) Hl), Hb.
  assert (blocking_deps e (step_id s) = []) as ->.
  { unfold blocking_deps. rewrite find_step_exact by done.
    induction (depends_on s) as [|d l IH]; [done|]. cbn. rewrite Hd by (by left). cbn.
    apply IH. intros d' Hd'. apply Hd. by right. }
  rewrite Hcp. by rewrite bool_decide_true.
Qed.

Lemma next_ready_progress e :
  eng_inv e → is_live (eng_status e) = true → every_step e (λ st, st ≠ Running) →
  ∃ s, next_ready_step e = Some s ∧ s ∈ recipe_steps (eng_recipe e) ∧
    is_ready e (step_id s) = true.
Proof.
  intros Hi Hl Hnr. unfold next_ready_step. rewrite Hl. cbn [negb].
  destruct (List.find _ _) as [s|] eqn:Hf.
  { exists s. split; [done|]. by apply find_some_elem in Hf. }
  exfalso. pose proof Hi as [_ Hs]. apply status_ok_live in Hs as [_ Hn]; [|done].
  apply Hn. intros id cp Hcp. destruct (decide (cp_status cp = StepCompleted)) as [|Hne]; [done|].
  destruct (unfinished_ready e id cp) as (s & Hin & Hr); [done..|].
  rewrite list_elem_of_In in Hin.
  pose proof (List.find_none _ _ Hf s Hin) as Hr'. cbn in Hr'. by rewrite Hr in Hr'.
Qed.

(** C34: A run never gets stuck on its own: in any state an engine can reach, if
    the run is not finished, no step is running and the budget is not used up,
    then there is a next ready step, it is the first pending step in recipe
    order whose dependencies are completed, and beginning it succeeds. *)
Theorem workflow_progress order r b e0 fs e :
  indegree_order_ok order → engine_new order r b = Some (Ok e0) → eng_run fs e0 e →
  is_live (eng_status e) = true → budget_exceeded e = None →
  every_step e (λ st, st ≠ Running) →
  ∃ pre s post cp, recipe_steps (eng_recipe e) = pre ++ s :: post ∧
    (∀ s', s' ∈ pre → is_ready e (step_id s') = false) ∧
    next_ready_step e = Some s ∧ checkpoints e !! step_id s = Some cp ∧
    begin_step (step_id s) e =
      (set_checkpoints e (<[step_id s := set_cp_status cp Running]> (checkpoints e)), Ok tt).
Proof.
  intros Ho Hn Hrun Hl Hb Hnr.
  assert (eng_inv e) as Hi by (eapply eng_run_inv; [done|by eapply engine_new_inv]).
  destruct (next_ready_progress e Hi Hl Hnr) as (s & Hs & Hin & Hr).
  destruct (begin_step_ready e s) as (cp & Hg & Hcp); [apply Hi|done..|].
  pose proof Hs as Hs'. unfold next_ready_step in Hs'. rewrite Hl in Hs'. cbn [negb] in Hs'.
  destruct (find_first _ _ _ Hs') as (pre & post & E & Hpre).
  exists pre, s, post, cp. split_and!; [done..|]. unfold begin_step. by rewrite Hg.
Qed.

Lemma workflow_progress_witness :
  let e := (complete_step "reproduce" "ok" 1 1
    (begin_step "reproduce" (engine_start bug_engine).1).1).1 in
  ∃ pre s post cp, recipe_steps (eng_recipe e) = pre ++ s :: post ∧
    (∀ s', s' ∈ pre → is_ready e (step_id s') = false) ∧
    next_ready_step e = Some s ∧ checkpoints e !! step_id s = Some cp ∧
    begin_step (step_id s) e =
      (set_checkpoints e (<[step_id s := set_cp_status cp Running]> (checkpoints e)), Ok tt).
Proof.
  cbn zeta.
  eapply (workflow_progress map_to_list bug_skeleton_recipe WorkflowBudget_default bug_engine []).
  - by intros m.
  - exact bug_engine_new.
  - eapply (er_cons [] []); [apply es_start|]. eapply (er_cons [] []); [apply es_begin|].
    eapply (er_cons [] []); [apply es_complete|]. apply er_nil.
  - vm_compute. reflexivity.
  - vm_compute. reflexivity.
  - unfold every_step. apply (bool_decide_unpack (map_Forall (λ _ cp, cp_status cp ≠ Running) _)).
    vm_compute. exact I.
Defined.

(** ** What is done stays done *)

(** Completed steps and finished runs are kept. *)
Definition kept (e e' : WorkflowEngine) : Prop :=
  (∀ id cp, checkpoints e !! id = Some cp → cp_status cp = StepCompleted →
    checkpoints e' !! id = Some cp) ∧
  (is_live (eng_status e) = false → e' = e).

Lemma kept_refl e : kept e e.
Proof. by split. Qed.

Lemma kept_update e id cp cp' st :
  is_live (eng_status e) = true → checkpoints e !! id = Some cp → cp_status cp ≠ StepCompleted →
  checkpoints st = <[id := cp']> (checkpoints e) → kept e st.
Proof.
  intros Hl Hcp Hst E. split; [|by rewrite Hl]. intros i c Hc Hcs. rewrite E, lookup_insert_ne; [done|].
  naive_solver.
Qed.

Lemma kept_live e e' :
  is_live (eng_status e) = true → checkpoints e' = checkpoints e → kept e e'.
Proof. intros Hl E. split; [by rewrite E|by rewrite Hl]. Qed.

Lemma begin_guards_kept id e e' x : begin_guards id e = (e', x) → kept e e'.
Proof.
  intros Hb%begin_guards_spec. destruct x as [cp|x]; [destruct Hb as (-> & _); apply kept_refl|].
  assert (e' = e ∨ e' = set_eng_status e WfBudgetExhausted ∧ is_live (eng_status e) = true) as Hor.
  { destruct x; naive_solver. }
  destruct Hor as [->|[-> Hl]]; [apply kept_refl|by apply kept_live].
Qed.

Lemma begin_update_kept id e e' cp cp' :
  begin_guards id e = (e', Ok cp) →
  kept e (set_checkpoints e' (<[id := cp']> (checkpoints e'))).
Proof.
  intros (-> & Hl & _ & _ & Hcp & Hp)%begin_guards_spec.
  eapply kept_update; [done|done|by rewrite Hp|done].
Qed.

Lemma end_step_kept id update t w e e' x :
  is_live (eng_status e) = true → end_step id update t w e = (e', x) →
  kept e e' ∧ ∀ st, kept e (set_eng_status e' st).
Proof.
  intros Hl He%end_step_spec.
  assert (e' = e ∨ ∃ cp, checkpoints e !! id = Some cp ∧ cp_status cp = Running ∧
    checkpoints e' = <[id := update cp]> (checkpoints e)) as [->|(cp & Hcp & Hst & E)].
  { destruct x as [|[]]; naive_solver. }
  - split; [apply kept_refl|]. intros st. by apply kept_live.
  - split; [|intros st]; (eapply kept_update; [done|done|by rewrite Hst|done]).
Qed.

Lemma complete_step_kept id res t w e : kept e (complete_step id res t w e).1.
Proof.
  unfold complete_step. destruct (ensure_runnable e) as [[]|] eqn:Hr; [|apply kept_refl].
  apply ensure_runnable_ok in Hr. destruct (end_step _ _ t w e) as [e1 x] eqn:He.
  destruct (end_step_kept _ _ _ _ _ _ _ Hr He) as [H1 H2].
  destruct x; cbn; [by destruct (all_completed e1)|done].
Qed.

Lemma fail_step_kept id why t w e : kept e (fail_step id why t w e).1.
Proof.
  unfold fail_step. destruct (ensure_runnable e) as [[]|] eqn:Hr; [|apply kept_refl].
  apply ensure_runnable_ok in Hr. destruct (effective_max_retries e id); [|apply kept_refl].
  destruct (end_step _ _ t w e) as [e1 x] eqn:He.
  destruct (end_step_kept _ _ _ _ _ _ _ Hr He) as [H1 H2].
  destruct x; cbn; [|done]. destruct (checkpoints e1 !! id); [|done]. case_bool_decide; [apply H2|exact H1].
Qed.

Lemma engine_cancel_kept e : kept e (engine_cancel e).
Proof.
  unfold engine_cancel. destruct (is_live _) eqn:Hl; [|apply kept_refl]. cbn [negb].
  split; [|by rewrite Hl]. intros id cp Hcp Hst. cbn. rewrite lookup_fmap, Hcp. cbn.
  unfold cancel_checkpoint. by rewrite Hst.
Qed.

Lemma eng_step_kept f e e' : eng_step f e e' → kept e e'.
Proof.
  intros [e0|id e0|id e0 s|id res t w e0|id res t w e0 s|id why t w e0|e0|order e0 s].
  - unfold engine_start. destruct (eng_status e0) eqn:He; try apply kept_refl.
    apply kept_live; [by rewrite He|done].
  - unfold begin_step. destruct (begin_guards id e0) as [e1 [cp|]] eqn:Hb;
      [by eapply begin_update_kept|by eapply begin_guards_kept].
  - unfold begin_step_with_scheduler. destruct (begin_guards id e0) as [e1 [cp|]] eqn:Hb;
      [|by eapply begin_guards_kept].
    destruct (step_role e1 id); [|by eapply begin_guards_kept].
    destruct (schedule _ s) as [s2 []]; [by eapply begin_update_kept|by eapply begin_guards_kept].
  - apply complete_step_kept.
  - destruct (complete_step_with_scheduler_engine id res t w e0 s) as [->| ->];
      [apply kept_refl|apply complete_step_kept].
  - apply fail_step_kept.
  - apply engine_cancel_kept.
  - apply engine_cancel_kept.
Qed.

(** What is done stays done: no later call changes the checkpoint of a
    completed step (its result, attempts and schedule ids included), and once
    a run has completed, failed, run out of budget or been cancelled, every call
    leaves the whole engine as it is. *)
Theorem workflow_results_final fs e e' :
  eng_run fs e e' →
  (∀ id cp, checkpoints e !! id = Some cp → cp_status cp = StepCompleted →
    checkpoints e' !! id = Some cp) ∧
  (is_live (eng_status e) = false → e' = e).
Proof.
  induction 1 as [e|f fs e1 e2 e3 Hs%eng_step_kept _ [H1 H2]]; [done|]. destruct Hs as [K1 K2]. split.
  - intros id cp Hcp Hst. apply H1; [|done]. by apply K1.
  - intros Hl. rewrite (K2 Hl) in *. by apply H2.
Qed.

Lemma workflow_results_final_witness :
  let e := (complete_step "reproduce" "ok" 1 1
    (begin_step "reproduce" (engine_start bug_engine).1).1).1 in
  let cp := mkCheckpoint "reproduce" StepCompleted (Some "ok") 0 None None in
  checkpoints e !! "reproduce" = Some cp ∧ checkpoints (engine_cancel e) !! "reproduce" = Some cp.
Proof.
  cbn zeta. split; [vm_compute; reflexivity|].
  set (e := (complete_step _ _ _ _ _).1).
  apply (workflow_results_final [] e (engine_cancel e)); [|vm_compute; reflexivity..].
  eapply (er_cons [] []); [apply es_cancel|apply er_nil].
Defined.
