(* ===== verification/WorkflowRuntime.v ===== *)
(** * The workflow runtime

    [crates/impetus-core/src/workflow_runtime.rs]: workflows bound to sessions,
    the two critical sections of [run_next_ready_step] around the child it
    spawns, and the loop that advances a session.

    The child (role or explore executor, leases and worktree of the spawn) is an
    oracle: any outcome it reports, a failure to spawn included.  The runtime is
    the one without a [WorktreeManager]. *)

From S2P Require Import Prelude Str Action PathScope WriteSet Scheduler WorkflowGraph Workflow.

Open Scope string_scope.
Open Scope nat_scope.
Open Scope list_scope.

Inductive ChildResultStatus := ChildCompleted | ChildFailed | ChildCancelled.

Inductive WorkflowRuntimeError :=
  | RtWorkflow (e : WorkflowError)
  | NoReadyStep
  | NotConfigured
  | RtRoleChild (text : string)
  | RtExploreChild (text : string)
  | RtUnknownSession (session : Uuid)
  | RtWriteLease (e : WriteSetError).

(** Cancellation tokens are numbered; a cancelled one is in [rt_cancelled]. *)
Record SessionWorkflow := mkSession {
  sw_engine : WorkflowEngine;
  sw_scheduler : InMemoryAgentScheduler;
  sw_step_cancels : gmap string N;
  sw_cwd : string;
}.

Record WorkflowRuntime := mkRuntime {
  rt_sessions : gmap Uuid SessionWorkflow;
  rt_next_token : N;
  rt_cancelled : gset N;
}.

Definition runtime_new : WorkflowRuntime := mkRuntime ∅ 0 ∅.

Definition set_session (rt : WorkflowRuntime) (id : Uuid) (sw : SessionWorkflow)
    : WorkflowRuntime :=
  mkRuntime (<[id := sw]> (rt_sessions rt)) (rt_next_token rt) (rt_cancelled rt).

Definition set_engine (sw : SessionWorkflow) (st : WorkflowEngine * InMemoryAgentScheduler)
    : SessionWorkflow :=
  mkSession st.1 st.2 (sw_step_cancels sw) (sw_cwd sw).

(** The removed binding is dropped after its tokens are cancelled; the engine and
    scheduler that [cancel_with_scheduler] edits go with it. *)
Definition cancel_session (id : Uuid) (rt : WorkflowRuntime) : WorkflowRuntime :=
  match rt_sessions rt !! id with
  | None => rt
  | Some sw =>
      mkRuntime (delete id (rt_sessions rt)) (rt_next_token rt)
        (map_img (sw_step_cancels sw) ∪ rt_cancelled rt)
  end.

(** [None] when the validation of the recipe does not end, which it always does
    ([validate_recipe_total]). *)
Definition runtime_start (order : indegree_order) (id : Uuid) (r : WorkflowRecipe) (cwd : string)
    (rt : WorkflowRuntime) : option (WorkflowRuntime * result WorkflowRuntimeError ()) :=
  let rt1 := cancel_session id rt in
  made ← engine_new order r WorkflowBudget_default;
  Some match made with
       | Err e => (rt1, Err (RtWorkflow e))
       | Ok e => (set_session rt1 id (mkSession (engine_start e).1 scheduler_new ∅ cwd), Ok tt)
       end.

Definition runtime_replace (order : indegree_order) (id : Uuid) (r : WorkflowRecipe) (cwd : string)
    (rt : WorkflowRuntime) : option (WorkflowRuntime * result WorkflowRuntimeError ()) :=
  runtime_start order id r cwd (cancel_session id rt).

Definition runtime_status (id : Uuid) (rt : WorkflowRuntime) : option WorkflowStatus :=
  (λ sw, eng_status (sw_engine sw)) <$> rt_sessions rt !! id.

(** What the spawned child is given: session, step, role, directory, token. *)
Record ChildCall := mkCall {
  call_session : Uuid;
  call_step : string;
  call_role : option SubagentRole;
  call_cwd : string;
  call_token : N;
}.

(** The first critical section: up to [drop(sessions)]. *)
Definition run_begin (id : Uuid) : stateR WorkflowRuntime WorkflowRuntimeError ChildCall := λ rt,
  match rt_sessions rt !! id with
  | None => (rt, Err (RtUnknownSession id))
  | Some sw =>
      let e := sw_engine sw in
      if negb (is_live (eng_status e))
      then (rt, Err (RtWorkflow (AlreadyFinished (eng_status e))))
      else match next_ready_step e with
      | None => (rt, Err NoReadyStep)
      | Some s =>
          match begin_step_with_scheduler (step_id s) (e, sw_scheduler sw) with
          | (st, Err x) => (set_session rt id (set_engine sw st), Err (RtWorkflow x))
          | (st, Ok _) =>
              match step_role st.1 (step_id s) with
              | Err x => (set_session rt id (set_engine sw st), Err (RtWorkflow x))
              | Ok role =>
                  let token := rt_next_token rt in
                  (mkRuntime
                     (<[id := mkSession st.1 st.2
                                (<[step_id s := token]> (sw_step_cancels sw)) (sw_cwd sw)]>
                        (rt_sessions rt)) (token + 1) (rt_cancelled rt),
                   Ok (mkCall id (step_id s) role (sw_cwd sw) token))
              end
          end
      end
  end.

(** The [match child_status] of the second critical section. *)
Definition finish_step (order : checkpoint_order) (step : string) (status : ChildResultStatus)
    (summary : string) : stateR (WorkflowEngine * InMemoryAgentScheduler) WorkflowError () :=
  λ '(e, s),
  match status with
  | ChildCompleted => complete_step_with_scheduler step summary 1 1 (e, s)
  | ChildFailed =>
      let schedule_id := checkpoints e !! step ≫= cp_schedule_id in
      match fail_step step summary 1 1 e with
      | (e', (Ok _ | Err (RetriesExhausted _))) =>
          ((e', from_option (λ sid, (sched_cancel sid s).1) s schedule_id), Ok tt)
      | (e', Err x) => ((e', s), Err x)
      end
  | ChildCancelled => (cancel_with_scheduler order (e, s), Ok tt)
  end.

(** The second critical section: the session is looked up again. *)
Definition run_finish (order : checkpoint_order) (id : Uuid) (step : string)
    (status : ChildResultStatus) (summary : string)
    : stateR WorkflowRuntime WorkflowRuntimeError string := λ rt,
  match rt_sessions rt !! id with
  | None => (rt, Err (RtUnknownSession id))
  | Some sw =>
      let sw1 := mkSession (sw_engine sw) (sw_scheduler sw)
                   (delete step (sw_step_cancels sw)) (sw_cwd sw) in
      match finish_step order step status summary (sw_engine sw, sw_scheduler sw) with
      | (st, Ok _) => (set_session rt id (set_engine sw1 st), Ok summary)
      | (st, Err x) => (set_session rt id (set_engine sw1 st), Err (RtWorkflow x))
      end
  end.

(** What children report. *)
Definition spawner := ChildCall → result WorkflowRuntimeError (ChildResultStatus * string).

(** [match role]: a step without a role is approved without a child. *)
Definition spawn_child (spawn : spawner) (c : ChildCall)
    : result WorkflowRuntimeError (ChildResultStatus * string) :=
  match call_role c with
  | Some _ => spawn c
  | None => Ok (ChildCompleted, "approval-skip")
  end.

(** Both sections with no other call in between. *)
Definition run_next_ready_step (order : checkpoint_order) (spawn : spawner) (id : Uuid)
    : stateR WorkflowRuntime WorkflowRuntimeError string := λ rt,
  match run_begin id rt with
  | (rt1, Err x) => (rt1, Err x)
  | (rt1, Ok c) =>
      match spawn_child spawn c with
      | Err x => (rt1, Err x)
      | Ok (status, summary) => run_finish order id (call_step c) status summary rt1
      end
  end.

(** The loop; the [n]-th iteration meets the children [spawn n].  [None] when the
    fuel ends. *)
Fixpoint advance_loop (fuel n : nat) (order : checkpoint_order) (spawn : nat → spawner) (id : Uuid)
    (rt : WorkflowRuntime)
    : option (WorkflowRuntime * result WorkflowRuntimeError WorkflowStatus) :=
  match fuel with
  | 0 => None
  | S fuel' =>
      match run_next_ready_step order (spawn n) id rt with
      | (rt1, Ok _) => advance_loop fuel' (S n) order spawn id rt1
      | (rt1, Err NoReadyStep) => Some (rt1, Ok (default WfCompleted (runtime_status id rt1)))
      | (rt1, Err (RtWorkflow (AlreadyFinished st))) => Some (rt1, Ok st)
      | (rt1, Err (RtWorkflow (BlockedByDependency _ _))) =>
          Some (rt1, Ok (default WfRunning (runtime_status id rt1)))
      | (rt1, Err x) => Some (rt1, Err x)
      end
  end.

Definition advance_until_blocked (fuel : nat) := advance_loop fuel 0.

(** ** The loop returns *)

(** Failures a step can still report before it is failed for good. *)
Definition weight (e : WorkflowEngine) (s : WorkflowStep) : nat :=
  match checkpoints e !! step_id s with
  | Some cp =>
      match cp_status cp with
      | Pending | Running => N.to_nat (step_retries e s + 1 - cp_attempts cp)
      | _ => 0
      end
  | None => 0
  end.

Definition remaining (e : WorkflowEngine) : nat :=
  sum_list_with (weight e) (recipe_steps (eng_recipe e)).

Lemma sum_list_with_lt {A} (f g : A → nat) l x :
  (∀ y, y ∈ l → f y ≤ g y) → x ∈ l → f x < g x → sum_list_with f l < sum_list_with g l.
Proof.
  intros Hle Hx Hlt. induction l as [|y l IH]; [set_solver|]. cbn.
  assert (sum_list_with f l ≤ sum_list_with g l) as Hl.
  { clear IH Hx. induction l as [|z l IH]; cbn; [done|].
    pose proof (Hle z ltac:(set_solver)). enough (sum_list_with f l ≤ sum_list_with g l) by lia.
    apply IH. set_solver. }
  apply elem_of_cons in Hx as [<-|Hx]; [lia|]. pose proof (Hle y ltac:(set_solver)).
  enough (sum_list_with f l < sum_list_with g l) by lia. apply IH; set_solver.
Qed.

Lemma sum_list_with_ext {A} (f g : A → nat) l :
  (∀ x, f x = g x) → sum_list_with f l = sum_list_with g l.
Proof. intros E. induction l as [|x l IH]; cbn; [done|]. by rewrite E, IH. Qed.

(** What holds of a session between two iterations. *)
Record session_inv (r : WorkflowRecipe) (sw : SessionWorkflow) : Prop := {
  si_inv : eng_inv (sw_engine sw);
  si_idle : every_step (sw_engine sw) (λ st, st ≠ Running);
  si_recipe : eng_recipe (sw_engine sw) = r;
  si_budget : eng_budget (sw_engine sw) = WorkflowBudget_default;
  si_admit : sched_admit (sw_scheduler sw) = true;
}.

Lemma default_budget_never_exceeded e :
  eng_budget e = WorkflowBudget_default → budget_exceeded e = None.
Proof. intros E. unfold budget_exceeded. by rewrite E. Qed.

(** Ending a running step without a budget. *)
Lemma end_step_running id update t w e cp :
  eng_budget e = WorkflowBudget_default → checkpoints e !! id = Some cp → cp_status cp = Running →
  end_step id update t w e =
    (add_usage (set_checkpoints e (<[id := update cp]> (checkpoints e))) t w, Ok tt).
Proof.
  intros Hb Hcp Hst. unfold end_step. rewrite Hcp, bool_decide_true by done. cbn [negb].
  by rewrite default_budget_never_exceeded.
Qed.

(** The engine after the end of a running step. *)
Record ended (id : string) (cp' : StepCheckpoint) (e e' : WorkflowEngine) : Prop := {
  ed_cps : checkpoints e' = <[id := cp']> (checkpoints e);
  ed_recipe : eng_recipe e' = eng_recipe e;
  ed_budget : eng_budget e' = eng_budget e;
}.

Lemma complete_step_running id res t w e cp :
  is_live (eng_status e) = true → eng_budget e = WorkflowBudget_default →
  checkpoints e !! id = Some cp → cp_status cp = Running →
  ∃ e', complete_step id res t w e = (e', Ok tt) ∧ ended id (completed_checkpoint cp res) e e' ∧
    (is_live (eng_status e') = true ∨ eng_status e' = WfCompleted).
Proof.
  intros Hl Hb Hcp Hst. unfold complete_step. rewrite (proj2 (ensure_runnable_ok e) Hl).
  rewrite (end_step_running _ _ _ _ _ cp) by done.
  eexists. split; [done|]. destruct (all_completed _); (split; [by split|by auto]).
Qed.

Lemma fail_step_running id why t w e cp max :
  is_live (eng_status e) = true → eng_budget e = WorkflowBudget_default →
  checkpoints e !! id = Some cp → cp_status cp = Running →
  effective_max_retries e id = Some max →
  ∃ e' x, fail_step id why t w e = (e', x) ∧ ended id (failed_checkpoint max why cp) e e' ∧
    (x = Ok tt ∨ x = Err (RetriesExhausted id)).
Proof.
  intros Hl Hb Hcp Hst Hmax. unfold fail_step. rewrite (proj2 (ensure_runnable_ok e) Hl), Hmax.
  rewrite (end_step_running _ _ _ _ _ cp) by done.
  cbn [add_usage set_checkpoints checkpoints]. rewrite lookup_insert_eq.
  case_bool_decide; eexists _, _; (split; [done|split; [by split|by auto]]).
Qed.

Lemma cancel_schedules_admit l s :
  sched_admit (foldl cancel_schedule s l) = sched_admit s.
Proof.
  revert s. induction l as [|kv l IH]; intros s; cbn; [done|]. rewrite IH.
  unfold cancel_schedule, sched_cancel, end_schedule. destruct (cp_schedule_id kv.2); [|done].
  destruct (sched_records s !! _); [|done]. by destruct (negb _).
Qed.

(** The step can only leave its pending or running state, or use up a failure. *)
Lemma ended_remaining s cp cp' e e' :
  recipe_ok (eng_recipe e) → s ∈ recipe_steps (eng_recipe e) →
  checkpoints e !! step_id s = Some cp → ended (step_id s) cp' e e' →
  (weight e' s < weight e s → remaining e' < remaining e).
Proof.
  intros Hok Hin Hcp [E1 E2 E3] Hw. unfold remaining. rewrite E2.
  apply sum_list_with_lt with (x := s); [|done..]. intros s' Hin'.
  destruct (decide (step_id s = step_id s')) as [E|Hne].
  - assert (s = s') as <- by (by eapply recipe_step_unique). lia.
  - unfold weight, step_retries. rewrite E1, E3, lookup_insert_ne by done. done.
Qed.

Definition roles_known (r : WorkflowRecipe) : Prop :=
  ∀ s label, s ∈ recipe_steps r → step_role_hint s = Some label → is_Some (parse_label label).

Lemma step_role_known e s :
  recipe_ok (eng_recipe e) → roles_known (eng_recipe e) → s ∈ recipe_steps (eng_recipe e) →
  ∃ role, step_role e (step_id s) = Ok role.
Proof.
  intros Hok Hroles Hin. unfold step_role. rewrite find_step_exact by done. cbn.
  destruct (step_role_hint s) as [label|] eqn:Hl; [|by eexists].
  destruct (Hroles s label Hin Hl) as [role Hr]. unfold parse_step_role. rewrite Hr. cbn.
  by eexists.
Qed.

Lemma schedule_admitted t s :
  sched_admit s = true → ∃ s' a rec, schedule t s = (s', Ok a) ∧ sched_admit s' = true ∧
    sched_records s' !! admission_schedule_id a = Some rec ∧ record_status rec = ScheduleAdmitted.
Proof.
  intros Ha. unfold schedule. rewrite Ha. cbn [negb]. eexists _, _, _. split; [done|]. cbn.
  split; [done|]. by rewrite lookup_insert_eq.
Qed.

(** The state between the two critical sections: one step runs, with an open
    schedule. *)
Record step_open (r : WorkflowRecipe) (s : WorkflowStep) (e : WorkflowEngine)
    (sch : InMemoryAgentScheduler) : Prop := {
  so_inv : eng_inv e;
  so_live : is_live (eng_status e) = true;
  so_recipe : eng_recipe e = r;
  so_budget : eng_budget e = WorkflowBudget_default;
  so_in : s ∈ recipe_steps r;
  so_others : ∀ id cp, checkpoints e !! id = Some cp → cp_status cp = Running → id = step_id s;
  so_cp : ∃ cp sid rec, checkpoints e !! step_id s = Some cp ∧ cp_status cp = Running ∧
    cp_schedule_id cp = Some sid ∧ sched_records sch !! sid = Some rec ∧
    record_status rec = ScheduleAdmitted;
  so_admit : sched_admit sch = true;
}.

Lemma begin_step_with_scheduler_opens r e sch s :
  eng_inv e → is_live (eng_status e) = true → every_step e (λ st, st ≠ Running) →
  eng_recipe e = r → eng_budget e = WorkflowBudget_default → sched_admit sch = true →
  roles_known r → s ∈ recipe_steps r → is_ready e (step_id s) = true →
  ∃ e1 sch1 a, begin_step_with_scheduler (step_id s) (e, sch) = ((e1, sch1), Ok a) ∧
    step_open r s e1 sch1 ∧ remaining e1 = remaining e ∧ eng_status e1 = eng_status e.
Proof.
  intros Hi Hl Hnr <- Hb Ha Hroles Hin Hr. pose proof (ci_recipe e (proj1 Hi)) as Hok.
  destruct (begin_step_ready e s) as (cp & Hg & Hcp); [done..|by apply default_budget_never_exceeded|].
  destruct (step_role_known e s) as [role Hrole]; [done..|].
  destruct (schedule_admitted (mkTask (recipe_id (eng_recipe e)) (step_id s) role) sch Ha)
    as (sch1 & a & rec & Hs & Ha' & Hrec & Hst).
  assert (eng_inv (begin_step_with_scheduler (step_id s) (e, sch)).1.1) as Hi'
    by by apply begin_step_with_scheduler_inv.
  revert Hi'. unfold begin_step_with_scheduler. rewrite Hg, Hrole, Hs. intros Hi'.
  pose proof (begin_guards_spec _ _ _ _ Hg) as (_ & _ & _ & _ & _ & Hp).
  eexists _, _, _. split; [done|]. split_and!; [|..|done].
  - split; [done..| | |done].
    + intros i c. cbn. destruct (decide (step_id s = i)) as [<-|]; [done|].
      rewrite lookup_insert_ne by done. intros Hc Hc'. by apply Hnr in Hc.
    + eexists _, _, rec. cbn. rewrite lookup_insert_eq. done.
  - unfold remaining. cbn [eng_recipe set_checkpoints]. apply sum_list_with_ext. intros s'.
    unfold weight, step_retries. cbn. destruct (decide (step_id s = step_id s')) as [<-|].
    + by rewrite lookup_insert_eq, Hcp, Hp.
    + by rewrite lookup_insert_ne.
Qed.

Lemma run_begin_opens r id rt sw :
  rt_sessions rt !! id = Some sw → session_inv r sw → roles_known r →
  is_live (eng_status (sw_engine sw)) = true →
  ∃ rt1 sw1 s c, run_begin id rt = (rt1, Ok c) ∧ call_step c = step_id s ∧
    rt_sessions rt1 !! id = Some sw1 ∧ step_open r s (sw_engine sw1) (sw_scheduler sw1) ∧
    remaining (sw_engine sw1) = remaining (sw_engine sw).
Proof.
  intros Hsw [Hi Hnr Hr Hb Ha] Hroles Hl.
  destruct (next_ready_progress _ Hi Hl Hnr) as (s & Hs & Hin & Hready). rewrite Hr in Hin.
  destruct (begin_step_with_scheduler_opens r (sw_engine sw) (sw_scheduler sw) s)
    as (e1 & sch1 & a & Hbeg & Hopen & Hrem & _); [done..|].
  destruct (step_role_known e1 s) as [role Hrole].
  { apply Hopen. }
  { by rewrite (so_recipe _ _ _ _ Hopen). }
  { by rewrite (so_recipe _ _ _ _ Hopen). }
  unfold run_begin. rewrite Hsw, Hl. cbn [negb]. rewrite Hs, Hbeg. cbn [fst]. rewrite Hrole.
  eexists _, _, s, _. split; [done|]. cbn. split; [done|].
  split; [by rewrite lookup_insert_eq|]. done.
Qed.

Lemma sched_end_admitted sid update s rec :
  sched_records s !! sid = Some rec → record_status rec = ScheduleAdmitted →
  ∃ s', end_schedule sid update s = (s', Ok tt) ∧ sched_admit s' = sched_admit s.
Proof.
  intros Hrec Hst. unfold end_schedule. rewrite Hrec, bool_decide_true by done. cbn [negb].
  by eexists.
Qed.

Lemma ended_idle id cp' e e' :
  ended id cp' e e' → (∀ i c, checkpoints e !! i = Some c → cp_status c = Running → i = id) →
  cp_status cp' ≠ Running → every_step e' (λ st, st ≠ Running).
Proof.
  intros [E _ _] Ho Hne i c. rewrite E. destruct (decide (id = i)) as [<-|Hi].
  - rewrite lookup_insert_eq. by intros [= <-].
  - rewrite lookup_insert_ne by done. intros Hc Hr. apply Hi. symmetry. by eapply Ho.
Qed.

Lemma running_weight e s cp :
  eng_inv e → s ∈ recipe_steps (eng_recipe e) → checkpoints e !! step_id s = Some cp →
  cp_status cp = Running →
  weight e s = N.to_nat (step_retries e s + 1 - cp_attempts cp) ∧
  (cp_attempts cp ≤ step_retries e s)%N.
Proof.
  intros Hi Hin Hcp Hst. unfold weight. rewrite Hcp, Hst. split; [done|].
  pose proof (ci_attempts e (proj1 Hi) s cp Hin Hcp) as Ha. unfold attempts_ok in Ha.
  by rewrite Hst in Ha.
Qed.

(** What the second critical section leaves behind. *)
Record step_closed (r : WorkflowRecipe) (e : WorkflowEngine) (status : ChildResultStatus)
    (e' : WorkflowEngine) (sch' : InMemoryAgentScheduler) : Prop := {
  sc_session : ∀ cancels cwd, session_inv r (mkSession e' sch' cancels cwd);
  sc_remaining : remaining e' < remaining e;
  sc_completed : status = ChildCompleted →
    is_live (eng_status e') = true ∨ eng_status e' = WfCompleted;
}.

Lemma finish_completed r order s summary e sch :
  step_open r s e sch → ∃ e' sch',
    finish_step order (step_id s) ChildCompleted summary (e, sch) = ((e', sch'), Ok tt) ∧
    step_closed r e ChildCompleted e' sch'.
Proof.
  intros [Hi Hl <- Hb Hin Ho (cp & sid & rec & Hcp & Hst & Hsid & Hrec & Hrst) Ha].
  destruct (complete_step_running (step_id s) summary 1 1 e cp) as (e' & He & Hend & Hlive);
    [done..|].
  destruct (sched_end_admitted sid (λ r, set_status r ScheduleCompleted (Some summary)) sch rec)
    as (sch' & Hsch & Ha'); [done..|].
  exists e', sch'. split.
  { cbn. rewrite Hcp, Hsid, He. unfold sched_complete. by rewrite Hsch. }
  split; [intros cancels cwd; split|..]; cbn.
  - pose proof (complete_step_inv (step_id s) summary 1 1 e Hi) as Hi'. by rewrite He in Hi'.
  - by eapply ended_idle.
  - apply Hend.
  - by rewrite (ed_budget _ _ _ _ Hend).
  - by rewrite Ha'.
  - eapply ended_remaining; [apply Hi|done..|]. unfold weight at 1.
    rewrite (ed_cps _ _ _ _ Hend), lookup_insert_eq. cbn.
    destruct (running_weight e s cp) as [-> ?]; [done..|]. lia.
  - done.
Qed.

(** A retry budget at the maximum of its type would never be used up. *)
Definition retries_bounded (r : WorkflowRecipe) : Prop :=
  ∀ s, s ∈ recipe_steps r → (default 0 (step_max_retries s) < u32_max)%N.

Lemma step_retries_default e s :
  eng_budget e = WorkflowBudget_default → step_retries e s = default 0%N (step_max_retries s).
Proof. intros E. unfold step_retries. by rewrite E. Qed.

Lemma finish_failed r order s summary e sch :
  retries_bounded r → step_open r s e sch → ∃ e' sch',
    finish_step order (step_id s) ChildFailed summary (e, sch) = ((e', sch'), Ok tt) ∧
    step_closed r e ChildFailed e' sch'.
Proof.
  intros Hrb [Hi Hl <- Hb Hin Ho (cp & sid & rec & Hcp & Hst & Hsid & Hrec & Hrst) Ha].
  pose proof (ci_recipe e (proj1 Hi)) as Hok.
  assert (effective_max_retries e (step_id s) = Some (step_retries e s)) as Hmax.
  { unfold effective_max_retries. by rewrite find_step_exact. }
  destruct (fail_step_running (step_id s) summary 1 1 e cp (step_retries e s))
    as (e' & x & He & Hend & Hx); [done..|].
  destruct (sched_end_admitted sid (λ r, set_status r ScheduleCancelled (record_result r)) sch rec)
    as (sch' & Hsch & Ha'); [done..|].
  exists e', sch'. split.
  { cbn. rewrite Hcp. cbn [mbind option_bind]. rewrite Hsid, He. cbn [from_option].
    unfold sched_cancel. rewrite Hsch. by destruct Hx as [->| ->]. }
  destruct (running_weight e s cp) as [Hw Hatt]; [done..|].
  pose proof (Hrb s Hin) as Hs. rewrite <-(step_retries_default e) in Hs by done.
  split; [intros cancels cwd; split|..]; cbn.
  - pose proof (fail_step_inv (step_id s) summary 1 1 e Hi) as Hi'. by rewrite He in Hi'.
  - eapply ended_idle; [done..|]. cbn. by destruct (_ <=? _)%N.
  - apply Hend.
  - by rewrite (ed_budget _ _ _ _ Hend).
  - by rewrite Ha'.
  - eapply ended_remaining; [done..|]. rewrite Hw. unfold weight, step_retries.
    rewrite (ed_cps _ _ _ _ Hend), lookup_insert_eq, (ed_budget _ _ _ _ Hend). cbn.
    fold (step_retries e s). unfold saturating_add.
    destruct (_ <=? _)%N; lia.
  - done.
Qed.

Lemma finish_cancelled r order s summary e sch :
  step_open r s e sch → ∃ e' sch',
    finish_step order (step_id s) ChildCancelled summary (e, sch) = ((e', sch'), Ok tt) ∧
    step_closed r e ChildCancelled e' sch'.
Proof.
  intros [Hi Hl <- Hb Hin Ho (cp & sid & rec & Hcp & Hst & _) Ha].
  eexists _, _. split; [done|].
  assert (∀ i c, checkpoints (engine_cancel e) !! i = Some c →
    cp_status c ≠ Running ∧ cp_status c ≠ Pending) as Hstop.
  { intros i c. unfold engine_cancel. rewrite Hl. cbn. rewrite lookup_fmap_Some.
    intros (c0 & <- & _). rewrite (proj1 (cancel_checkpoint_status c0)).
    by destruct (cp_status c0). }
  assert (eng_recipe (engine_cancel e) = eng_recipe e ∧
    eng_budget (engine_cancel e) = eng_budget e) as [Er Eb].
  { unfold engine_cancel. by rewrite Hl. }
  assert (∀ s', weight (engine_cancel e) s' = 0) as Hw.
  { intros s'. unfold weight. destruct (checkpoints (engine_cancel e) !! step_id s') as [c|] eqn:Hc;
      [|done]. destruct (Hstop _ _ Hc). by destruct (cp_status c). }
  split; [intros cancels cwd; split|..]; cbn.
  - by apply engine_cancel_inv.
  - intros i c Hc. by apply Hstop in Hc as [? _].
  - done.
  - by rewrite Eb.
  - by rewrite cancel_schedules_admit.
  - unfold remaining. rewrite Er. apply sum_list_with_lt with (x := s); [|done|].
    + intros s' _. rewrite Hw. lia.
    + rewrite Hw. destruct (running_weight e s cp) as [-> ?]; [done..|]. lia.
  - done.
Qed.

Lemma finish_closes r order s status summary e sch :
  retries_bounded r → step_open r s e sch → ∃ e' sch',
    finish_step order (step_id s) status summary (e, sch) = ((e', sch'), Ok tt) ∧
    step_closed r e status e' sch'.
Proof.
  intros Hrb Hopen.
  destruct status; [by apply finish_completed|by apply finish_failed|by apply finish_cancelled].
Qed.

Definition spawns (spawn : nat → spawner) : Prop := ∀ n c, ∃ out, spawn n c = Ok out.
Definition all_complete (spawn : nat → spawner) : Prop :=
  ∀ n c, ∃ summary, spawn n c = Ok (ChildCompleted, summary).

Lemma run_next_ready_step_ok r order spawn n id rt sw :
  rt_sessions rt !! id = Some sw → session_inv r sw → roles_known r → retries_bounded r →
  spawns spawn → is_live (eng_status (sw_engine sw)) = true →
  ∃ rt' sw' summary, run_next_ready_step order (spawn n) id rt = (rt', Ok summary) ∧
    rt_sessions rt' !! id = Some sw' ∧ session_inv r sw' ∧
    remaining (sw_engine sw') < remaining (sw_engine sw) ∧
    (all_complete spawn →
      is_live (eng_status (sw_engine sw')) = true ∨ eng_status (sw_engine sw') = WfCompleted).
Proof.
  intros Hsw Hinv Hroles Hrb Hsp Hl.
  destruct (run_begin_opens r id rt sw) as (rt1 & sw1 & s & c & Hb & Hc & Hsw1 & Hopen & Hrem);
    [done..|].
  assert (∃ status summary, spawn_child (spawn n) c = Ok (status, summary) ∧
    (all_complete spawn → status = ChildCompleted)) as (status & summary & Hout & Hcomp).
  { unfold spawn_child. destruct (call_role c); [|by eexists _, _].
    destruct (Hsp n c) as [[st sm] E]. exists st, sm. split; [done|]. intros Hall.
    destruct (Hall n c) as [sm' E']. congruence. }
  destruct (finish_closes r order s status summary (sw_engine sw1) (sw_scheduler sw1))
    as (e' & sch' & Hf & Hcl); [done..|].
  unfold run_next_ready_step. rewrite Hb, Hout. unfold run_finish. rewrite Hsw1, Hc, Hf.
  eexists _, _, _. split; [done|]. cbn. rewrite lookup_insert_eq. split; [done|]. cbn.
  split_and!; [apply Hcl| |].
  - rewrite <-Hrem. apply Hcl.
  - intros Hall. apply Hcl. by apply Hcomp.
Qed.

Lemma advance_loop_ok r order spawn id fuel : ∀ n rt sw,
  rt_sessions rt !! id = Some sw → session_inv r sw → roles_known r → retries_bounded r →
  spawns spawn → remaining (sw_engine sw) < fuel →
  ∃ rt' sw' st, advance_loop fuel n order spawn id rt = Some (rt', Ok st) ∧
    rt_sessions rt' !! id = Some sw' ∧ session_inv r sw' ∧ eng_status (sw_engine sw') = st ∧
    is_live st = false ∧
    (all_complete spawn →
      is_live (eng_status (sw_engine sw)) = true ∨ eng_status (sw_engine sw) = WfCompleted →
      st = WfCompleted).
Proof.
  induction fuel as [|fuel IH]; intros n rt sw Hsw Hinv Hroles Hrb Hsp Hfuel; [lia|].
  cbn [advance_loop]. destruct (is_live (eng_status (sw_engine sw))) eqn:Hl.
  - destruct (run_next_ready_step_ok r order spawn n id rt sw)
      as (rt1 & sw1 & summary & E & Hsw1 & Hinv1 & Hlt & Hcomp); [done..|]. rewrite E.
    destruct (IH (S n) rt1 sw1) as (rt2 & sw2 & st & E2 & Hsw2 & Hinv2 & Hst & Hl2 & Hc2);
      [done..|lia|].
    exists rt2, sw2, st. split_and!; [done..|]. intros Hall _. apply Hc2; [done|]. by apply Hcomp.
  - exists rt, sw, (eng_status (sw_engine sw)). unfold run_next_ready_step, run_begin.
    rewrite Hsw, Hl. cbn [negb]. split_and!; [done..|]. intros _ [H|H]; congruence.
Qed.

(** How many children one run of a recipe can need. *)
Definition total_attempts (r : WorkflowRecipe) : nat :=
  sum_list_with (λ s, N.to_nat (default 0%N (step_max_retries s) + 1)) (recipe_steps r).

Lemma remaining_le e :
  eng_budget e = WorkflowBudget_default → remaining e ≤ total_attempts (eng_recipe e).
Proof.
  intros Hb. unfold remaining, total_attempts.
  induction (recipe_steps (eng_recipe e)) as [|s l IH]; cbn [sum_list_with]; [done|].
  enough (weight e s ≤ N.to_nat (default 0%N (step_max_retries s) + 1)) by lia.
  unfold weight. rewrite step_retries_default by done.
  destruct (checkpoints e !! step_id s) as [cp|]; [|lia]. destruct (cp_status cp); lia.
Qed.

Lemma runtime_start_inv iorder id r cwd rt rt1 :
  indegree_order_ok iorder → runtime_start iorder id r cwd rt = Some (rt1, Ok tt) →
  ∃ sw, rt_sessions rt1 !! id = Some sw ∧ session_inv r sw ∧
    is_live (eng_status (sw_engine sw)) = true.
Proof.
  intros Ho. unfold runtime_start.
  destruct (engine_new iorder r WorkflowBudget_default) as [[e|]|] eqn:Hn; [|done..].
  intros [= <-]. destruct (engine_new_inv _ _ _ _ Ho Hn) as (Hi & Er & Eb).
  apply engine_new_ok in Hn as [_ ->].
  eexists. cbn. rewrite lookup_insert_eq. split; [done|]. split; [split|done]; cbn; try done.
  - by apply (engine_start_inv _ Hi).
  - intros i c. cbn. rewrite initial_checkpoints_lookup. case_decide; [|done]. by intros [= <-].
Qed.

(** C32: After a recipe with known roles and retry budgets below [u32::MAX] was
    bound to a session, and as long as every child can be spawned, whatever it then
    reports, advancing the session always ends, and ends with the truth:
    [advance_until_blocked] returns after at most one child per allowed attempt of
    each step; the status it returns is the session's, and is completed, failed or
    cancelled; and when every child completes, the run is completed with every step
    completed.  (A child that cannot be spawned ends the advance with an error and
    leaves its step running: [failed_spawn_strands_step].) *)
Theorem advance_until_blocked_ends iorder corder spawn id r cwd rt rt1 :
  indegree_order_ok iorder → roles_known r → retries_bounded r → spawns spawn →
  runtime_start iorder id r cwd rt = Some (rt1, Ok tt) →
  ∃ rt2 sw, rt_sessions rt2 !! id = Some sw ∧
    let st := eng_status (sw_engine sw) in
    advance_until_blocked (S (total_attempts r)) corder spawn id rt1 = Some (rt2, Ok st) ∧
    (st = WfCompleted ∨ st = WfFailed ∨ st = WfCancelled) ∧
    (all_complete spawn → st = WfCompleted) ∧
    (st = WfCompleted → ∀ s, s ∈ recipe_steps r →
      ∃ cp, checkpoints (sw_engine sw) !! step_id s = Some cp ∧ cp_status cp = StepCompleted).
Proof.
  intros Ho Hroles Hrb Hsp Hstart.
  destruct (runtime_start_inv _ _ _ _ _ _ Ho Hstart) as (sw & Hsw & Hinv & Hl).
  pose proof (remaining_le (sw_engine sw) (si_budget r sw Hinv)) as Hle.
  rewrite (si_recipe r sw Hinv) in Hle.
  destruct (advance_loop_ok r corder spawn id (S (total_attempts r)) 0 rt1 sw)
    as (rt2 & sw2 & st & E & Hsw2 & [Hi Hnr Hr Hb Ha] & <- & Hl2 & Hc); [done..|lia|].
  exists rt2, sw2. split; [done|]. cbn zeta. split; [exact E|]. destruct Hi as [Hci Hst].
  unfold status_ok in Hst. split_and!.
  - destruct (eng_status (sw_engine sw2)); try done; try by auto.
    by rewrite default_budget_never_exceeded in Hst.
  - intros Hall. by apply Hc; [|left].
  - intros Est s Hin. rewrite Est in Hst. rewrite <-Hr in Hin.
    assert (is_Some (checkpoints (sw_engine sw2) !! step_id s)) as [cp Hcp].
    { apply (ci_keys _ Hci). by apply list_elem_of_fmap_2. }
    exists cp. split; [done|]. by eapply Hst.
Qed.

(** A role recipe whose second step may fail once. *)
Definition retry_recipe : WorkflowRecipe := mkRecipe "retry" "Retry"
  [step "look" "Look" (Some "Explore") [];
   mkStep "fix" "Fix" (Some "Research") ["look"] (Some 1%N);
   step "sign" "Sign" None ["fix"]].

(** The second child fails once and the others complete. *)
Definition flaky (n : nat) : spawner := λ c,
  Ok (if n =? 1 then ChildFailed else ChildCompleted, "done").

(** Session 7 of a new runtime, bound to that recipe. *)
Definition retry_runtime : WorkflowRuntime :=
  from_option fst runtime_new (runtime_start map_to_list 7 retry_recipe "/w" runtime_new).

Lemma advance_until_blocked_ends_witness :
  let rt1 := retry_runtime in
  total_attempts retry_recipe = 4 ∧
  ∃ rt2 sw, rt_sessions rt2 !! 7%N = Some sw ∧ eng_status (sw_engine sw) = WfCompleted ∧
    advance_until_blocked 5 map_to_list flaky 7 rt1 = Some (rt2, Ok (eng_status (sw_engine sw))).
Proof.
  cbn zeta. split; [vm_compute; reflexivity|].
  destruct (advance_until_blocked_ends map_to_list map_to_list flaky 7 retry_recipe "/w" runtime_new
    retry_runtime) as (rt2 & sw & Hsw & E & _).
  - by intros m.
  - intros s label Hs. cbn in Hs. rewrite !elem_of_cons in Hs.
    destruct Hs as [->|[->|[->|Hs]]]; [by intros [= <-]; eexists..|done|].
    by apply not_elem_of_nil in Hs.
  - intros s Hs. cbn in Hs. rewrite !elem_of_cons in Hs.
    destruct Hs as [->|[->|[->|Hs]]]; [by vm_compute..|]. by apply not_elem_of_nil in Hs.
  - intros n c. by eexists.
  - vm_compute. reflexivity.
  - exists rt2, sw. split; [done|]. split; [|exact E].
    change (S (total_attempts retry_recipe)) with 5 in E.
    assert (option_map (λ x, x.2) (advance_until_blocked 5 map_to_list flaky 7
      retry_runtime) = Some (Ok WfCompleted)) as E'
      by (vm_compute; reflexivity).
    rewrite E in E'. cbn in E'. congruence.
Defined.

(** ** A child that cannot be spawned *)

Lemma begin_other id e sch i :
  i ≠ id → checkpoints (begin_step_with_scheduler id (e, sch)).1.1 !! i = checkpoints e !! i.
Proof.
  intros Hne. unfold begin_step_with_scheduler.
  destruct (begin_guards id e) as [e' x] eqn:Hb. assert (checkpoints e' = checkpoints e) as E.
  { apply begin_guards_spec in Hb. destruct x as [|[]]; naive_solver. }
  destruct x as [cp|]; [|by cbn; rewrite E]. destruct (step_role e' id); [|by cbn; rewrite E].
  destruct (schedule _ sch) as [sch' []]; cbn; [|by rewrite E].
  by rewrite lookup_insert_ne, E.
Qed.

Lemma end_step_other id update t w e i :
  i ≠ id → checkpoints (end_step id update t w e).1 !! i = checkpoints e !! i.
Proof.
  intros Hne. unfold end_step. destruct (checkpoints e !! id); [|done]. destruct (negb _); [done|].
  destruct (budget_exceeded _); cbn; by rewrite lookup_insert_ne.
Qed.

Lemma finish_other order id status summary e sch i :
  status ≠ ChildCancelled → i ≠ id →
  checkpoints (finish_step order id status summary (e, sch)).1.1 !! i = checkpoints e !! i.
Proof.
  intros Hc Hne. destruct status; [| |done]; cbn [finish_step].
  - destruct (complete_step_with_scheduler_engine id summary 1 1 e sch) as [->| ->]; [done|].
    unfold complete_step. destruct (ensure_runnable e); [|done].
    destruct (end_step _ _ 1 1 e) as [e1 x] eqn:He.
    pose proof (end_step_other id (λ cp, completed_checkpoint cp summary) 1 1 e i Hne) as E.
    rewrite He in E. destruct x; [|done]. by destruct (all_completed e1).
  - assert (checkpoints (fail_step id summary 1 1 e).1 !! i = checkpoints e !! i) as E.
    { unfold fail_step. destruct (ensure_runnable e); [|done].
      destruct (effective_max_retries e id) as [max|]; [|done].
      destruct (end_step _ _ 1 1 e) as [e1 x] eqn:He.
      pose proof (end_step_other id (failed_checkpoint max summary) 1 1 e i Hne) as E.
      rewrite He in E. destruct x; [|done]. destruct (checkpoints e1 !! id); [|done].
      by destruct (bool_decide _). }
    by destruct (fail_step id summary 1 1 e) as [e' [|[]]].
Qed.

Definition checkpoint_in (rt : WorkflowRuntime) (id : Uuid) (step : string)
    : option StepCheckpoint :=
  rt_sessions rt !! id ≫= λ sw, checkpoints (sw_engine sw) !! step.

(** The first critical section begins a pending step and leaves the others. *)
Lemma run_begin_other id rt rt1 x step cp :
  run_begin id rt = (rt1, x) → checkpoint_in rt id step = Some cp → cp_status cp = Running →
  checkpoint_in rt1 id step = Some cp ∧ ∀ c, x = Ok c → call_step c ≠ step.
Proof.
  unfold run_begin, checkpoint_in. destruct (rt_sessions rt !! id) as [sw|] eqn:Hsw; [|done].
  cbn [mbind option_bind]. intros Hb Hcp Hst. revert Hb.
  destruct (negb _); [intros [= <- <-]; by rewrite Hsw|].
  destruct (next_ready_step (sw_engine sw)) as [s|] eqn:Hs; [|intros [= <- <-]; by rewrite Hsw].
  assert (step ≠ step_id s) as Hne.
  { intros ->. unfold next_ready_step in Hs. destruct (negb _); [done|].
    apply find_some_elem in Hs as [_ Hr]. unfold is_ready in Hr.
    destruct (find_step _ _); [|done]. rewrite Hcp, Hst in Hr. done. }
  pose proof (begin_other (step_id s) (sw_engine sw) (sw_scheduler sw) step Hne) as E.
  destruct (begin_step_with_scheduler _ _) as [st y]. cbn [fst] in E.
  destruct y as [a'|y]; [destruct (step_role st.1 (step_id s))|];
    intros [= <- <-]; cbn; rewrite lookup_insert_eq; cbn; rewrite E;
    (split; [done|]); [by intros c [= <-]|done..].
Qed.

Lemma run_next_other order spawn id rt step cp :
  (∀ c summary, spawn c ≠ Ok (ChildCancelled, summary)) →
  checkpoint_in rt id step = Some cp → cp_status cp = Running →
  checkpoint_in (run_next_ready_step order spawn id rt).1 id step = Some cp.
Proof.
  intros Hsp Hcp Hst. unfold run_next_ready_step.
  destruct (run_begin id rt) as [rt1 x] eqn:Hb.
  destruct (run_begin_other _ _ _ _ _ _ Hb Hcp Hst) as [Hcp1 Hne].
  destruct x as [c|]; [|done]. specialize (Hne c eq_refl).
  destruct (spawn_child spawn c) as [[status summary]|] eqn:Hc; [|done].
  assert (status ≠ ChildCancelled) as Hnc.
  { intros ->. unfold spawn_child in Hc. destruct (call_role c); [|done]. by apply Hsp in Hc. }
  unfold run_finish, checkpoint_in in *. destruct (rt_sessions rt1 !! id) as [sw|]; [|done].
  pose proof (finish_other order (call_step c) status summary (sw_engine sw) (sw_scheduler sw)
    step Hnc) as E. destruct (finish_step _ _ _ _ _) as [st [|]];
    cbn; rewrite lookup_insert_eq; cbn in *; (rewrite E; [done|congruence]).
Qed.

(** Further calls, each with its own children. *)
Definition run_many (order : checkpoint_order) (spawns : list spawner) (id : Uuid)
    (rt : WorkflowRuntime) : WorkflowRuntime :=
  foldl (λ rt sp, (run_next_ready_step order sp id rt).1) rt spawns.

(** A child that cannot be spawned strands its step: when the spawn itself
    fails, the step stays running, its failure is not counted against its
    retries, and no later advance of the session (unless a child reports
    cancellation, which cancels the run) ever runs, fails or completes it, so
    the run can no longer complete. *)
Theorem failed_spawn_strands_step order spawn id rt rt1 c x spawns :
  run_begin id rt = (rt1, Ok c) → spawn_child spawn c = Err x →
  (∀ sp c' summary, sp ∈ spawns → sp c' ≠ Ok (ChildCancelled, summary)) →
  run_next_ready_step order spawn id rt = (rt1, Err x) ∧
  ∃ cp, cp_status cp = Running ∧ checkpoint_in rt1 id (call_step c) = Some cp ∧
    checkpoint_in (run_many order spawns id rt1) id (call_step c) = Some cp ∧
    cp_attempts cp = from_option cp_attempts 0%N (checkpoint_in rt id (call_step c)).
Proof.
  intros Hb Hx Hsp. unfold run_next_ready_step. rewrite Hb, Hx. split; [done|].
  assert (∃ cp, cp_status cp = Running ∧ checkpoint_in rt1 id (call_step c) = Some cp ∧
    cp_attempts cp = from_option cp_attempts 0%N (checkpoint_in rt id (call_step c)))
    as (cp & Hst & Hcp & Hatt).
  { unfold run_begin, checkpoint_in in *. destruct (rt_sessions rt !! id) as [sw|]; [|done].
    destruct (negb _); [done|]. destruct (next_ready_step _) as [s|]; [|done].
    destruct (begin_step_with_scheduler _ _) as [st [ad|]] eqn:Hbeg; [|done].
    destruct (step_role st.1 (step_id s)); [|done]. injection Hb as <- <-. cbn.
    rewrite lookup_insert_eq. cbn. unfold begin_step_with_scheduler in Hbeg.
    destruct (begin_guards _ _) as [e' [cp|]] eqn:Hg; [|done].
    apply begin_guards_spec in Hg as (-> & _ & _ & _ & Hcp & _).
    destruct (step_role _ _); [|done]. destruct (schedule _ _) as [? []]; [|done].
    injection Hbeg as <- <-. eexists. cbn. rewrite lookup_insert_eq.
    split_and!; [|reflexivity|]; [done|by rewrite Hcp]. }
  exists cp. split_and!; [done..| |done]. unfold run_many. clear Hb Hx Hatt. revert rt1 Hcp.
  induction spawns as [|sp spawns IH]; intros rt1 Hcp; [done|]. cbn. apply IH; [set_solver|].
  apply run_next_other; [|done..]. intros c' summary. apply Hsp. by left.
Qed.

(** The first step's child cannot be spawned; three later advances do nothing. *)
Lemma failed_spawn_witness :
  let rt := retry_runtime in
  ∃ rt1 cp, run_next_ready_step map_to_list (λ _, Err (RtExploreChild "no slot")) 7 rt
      = (rt1, Err (RtExploreChild "no slot")) ∧ cp_status cp = Running ∧
    checkpoint_in (run_many map_to_list [flaky 0; flaky 0; flaky 0] 7 rt1) 7 "look" = Some cp.
Proof.
  cbn zeta. set (rt := retry_runtime).
  destruct (run_begin 7 rt) as [rt1 x] eqn:Hb.
  assert (x = Ok (mkCall 7 "look" (Some Explore) "/w" 0)) as ->.
  { change x with (rt1, x).2. rewrite <-Hb. vm_compute. reflexivity. }
  destruct (failed_spawn_strands_step map_to_list (λ _, Err (RtExploreChild "no slot")) 7 rt rt1
    (mkCall 7 "look" (Some Explore) "/w" 0) (RtExploreChild "no slot") [flaky 0; flaky 0; flaky 0])
    as (E & cp & Hst & _ & Hcp & _).
  - exact Hb.
  - reflexivity.
  - clear. intros sp c' summary Hsp. rewrite !elem_of_cons in Hsp.
    destruct Hsp as [->|[->|[->|Hsp]]]; [discriminate..|]. by apply not_elem_of_nil in Hsp.
  - exists rt1, cp. split; [exact E|]. split; [exact Hst|exact Hcp].
Defined.

(** ** A child that outlives its workflow *)

(** The first section of a run, a replacement of the workflow, the first section
    of the next run, and then the end of the first child. *)
Definition replaced_during_run (summary : string) : WorkflowRuntime :=
  let rt1 := retry_runtime in
  let rt2 := (run_begin 7 rt1).1 in
  let rt3 := from_option fst rt2 (runtime_replace map_to_list 7 retry_recipe "/w" rt2) in
  let rt4 := (run_begin 7 rt3).1 in
  (run_finish map_to_list 7 "look" ChildCompleted summary rt4).1.

(** The end of a child is matched to its workflow by session and step id only:
    when the workflow is replaced while a child runs, and the replacement has
    started its own child for the same step, the old child's result completes
    the step of the new workflow. *)
Lemma stale_child_completes_replacement summary :
  cp_result <$> checkpoint_in (replaced_during_run summary) 7 "look" = Some (Some summary) ∧
  cp_status <$> checkpoint_in (replaced_during_run summary) 7 "look" = Some StepCompleted.
Proof. split; vm_compute; reflexivity. Qed.
