(* ===== verification/WorkspaceFiles.v ===== *)
(** * Paths and files of a workspace

    [crates/impetus-core/src/workspace_files.rs]: resolving a path under the
    workspace root, listing, reading and searching.  A file system is a state
    [F] with the operations of [WorkFiles]. *)

From S2P Require Import Prelude TreeWalk Str Utf8 Action PathScope.

Open Scope string_scope.
Open Scope nat_scope.
Open Scope list_scope.
Open Scope impetus_scope.

(** ** The file system *)

(** [std::io::Error]: its text, and whether its kind is [NotFound]. *)
Record IoError := mkIoError { io_not_found : bool; io_text : string }.

Inductive FileType := FtDir | FtFile | FtSymlink | FtOther.

Definition ft_is_dir (t : FileType) : bool := match t with FtDir => true | _ => false end.
Definition ft_is_file (t : FileType) : bool := match t with FtFile => true | _ => false end.
Definition ft_is_symlink (t : FileType) : bool := match t with FtSymlink => true | _ => false end.

Record Metadata := mkMetadata { md_type : FileType; md_len : N }.

Record DirEntry := mkDirEntry { de_name : string; de_type : result IoError FileType }.

(** What the code calls of [std::fs]; file contents are byte strings, and a
    directory is read in the order the system yields its entries. *)
Class WorkFiles (F : Type) := {
  wf_canonicalize : F → string → result IoError string;
  wf_symlink_metadata : F → string → result IoError Metadata;
  wf_metadata : F → string → result IoError Metadata;
  wf_read_dir : F → string → result IoError (list (result IoError DirEntry));
  wf_read : F → string → result IoError string;
  wf_write : string → string → stateR F IoError ();
  wf_create_dir_all : string → stateR F IoError ();
}.

Section paths.
Context {F : Type} `{!WorkFiles F}.

(** [Path::is_file], [Path::is_dir] *)
Definition wf_is_file (f : F) (p : string) : bool :=
  match wf_metadata f p with Ok m => ft_is_file (md_type m) | Err _ => false end.
Definition wf_is_dir (f : F) (p : string) : bool :=
  match wf_metadata f p with Ok m => ft_is_dir (md_type m) | Err _ => false end.
End paths.

(** A name between separators. *)
Definition plain_piece (name : string) : Prop :=
  split_on "/" name = [name] ∧ piece_component name = Some (Normal name).

(** A canonical path is absolute, without ["."] or [".."]; entries have plain
    names; the length of a file is that of its contents; a write is read back,
    moves no path and removes no directory; creating an existing directory does
    nothing. *)
Class WorkFilesLaws (F : Type) `{!WorkFiles F} := {
  wf_canonicalize_clean f p q :
    wf_canonicalize f p = Ok q → ∃ names, components q = RootDir :: (Normal <$> names);
  wf_read_dir_plain f d es e : wf_read_dir f d = Ok es → Ok e ∈ es → plain_piece (de_name e);
  wf_metadata_len f p m c :
    wf_metadata f p = Ok m → wf_read f p = Ok c → md_len m = N.of_nat (String.length c);
  wf_write_read f f' p b :
    wf_write p b f = (f', Ok tt) →
    wf_read f' p = Ok b ∧ ∃ n, wf_metadata f' p = Ok (mkMetadata FtFile n);
  wf_write_canonicalize f f' p b r q x :
    wf_write p b f = (f', r) → wf_canonicalize f q = Ok x → wf_canonicalize f' q = Ok x;
  wf_write_dir f f' p b r d :
    wf_write p b f = (f', r) → wf_is_dir f d = true → wf_is_dir f' d = true;
  wf_create_dir_exists f p : wf_is_dir f p = true → wf_create_dir_all p f = (f, Ok tt);
}.

(** The operations used besides those of [WorkFiles]. *)
Class FileChanges (F : Type) := {
  wf_remove_file : string → stateR F IoError ();
  wf_rename : string → string → stateR F IoError ();
}.

Class TreeChanges (F : Type) := {
  wf_remove_dir_all : string → stateR F IoError ();
  wf_copy : string → string → stateR F IoError ();
}.

(** [Path::exists] *)
Definition wf_exists {F} `{!WorkFiles F} (f : F) (p : string) : bool :=
  match wf_metadata f p with Ok _ => true | Err _ => false end.

Inductive WorkspaceFilesError :=
  | UnsafePath (path : string)
  | WfNotFound (path : string)
  | NotDirectory (path : string)
  | NotFile (path : string)
  | TooLarge (size limit : N)
  | Binary (path : string)
  | WfIo (what : string).

Definition workspace_error_to_string (e : WorkspaceFilesError) : string :=
  match e with
  | UnsafePath p => "workspace path escapes root or follows unsafe symlink: " ++ p
  | WfNotFound p => "workspace path not found: " ++ p
  | NotDirectory p => "workspace path is not a directory: " ++ p
  | NotFile p => "workspace path is not a file: " ++ p
  | TooLarge size limit =>
      "workspace file too large: " ++ dec size ++ " bytes (limit " ++ dec limit ++ ")"
  | Binary p => "workspace file looks binary: " ++ p
  | WfIo w => "workspace files io error: " ++ w
  end%string.

(** The [for] over the components of the relative path. *)
Definition safe_component (c : Component) : bool :=
  match c with Normal _ | CurDir => true | ParentDir | RootDir => false end.

(** [relative.as_os_str().is_empty() || relative == Path::new(".")] *)
Definition is_root_path (relative : string) : bool :=
  is_empty relative || bool_decide (components relative = [CurDir]).

(** The map of an I/O error to [NotFound] or [Io]. *)
Definition lookup_error (relative : string) (err : IoError) : WorkspaceFilesError :=
  if io_not_found err then WfNotFound relative else WfIo (io_text err).

Definition io_error (err : IoError) : WorkspaceFilesError := WfIo (io_text err).

Definition IGNORED_DIR_NAMES : list string := [".git"; "target"; "node_modules"].
Definition MAX_WORKSPACE_FILE_BYTES : nat := Z.to_nat 2097152.
Definition BINARY_PROBE_BYTES : nat := Z.to_nat 8192.
Definition MAX_WORKSPACE_SEARCH_FILES : nat := 200.
Definition MAX_WORKSPACE_SEARCH_HITS : nat := 200.

Record WorkspaceDirEntry := mkWorkspaceDirEntry {
  wde_name : string;
  wde_path : string;
  wde_is_dir : bool;
  wde_is_symlink : bool;
  wde_is_file : bool;
}.

Record WorkspaceDirListing := mkWorkspaceDirListing {
  listing_path : string;
  listing_entries : list WorkspaceDirEntry;
}.

Record WorkspaceFileMetadata := mkWorkspaceFileMetadata {
  wfm_path : string;
  wfm_is_dir : bool;
  wfm_is_symlink : bool;
  wfm_is_file : bool;
  wfm_size : N;
}.

Record WorkspaceFileContent := mkWorkspaceFileContent {
  content_path : string;
  content_text : string;
  content_byte_count : nat;
}.

Record WorkspaceSearchHit := mkWorkspaceSearchHit {
  hit_path : string;
  hit_line : N;
  hit_text : string;
}.

Record WorkspaceSearchResult := mkWorkspaceSearchResult {
  search_path : string;
  search_pattern : string;
  search_hits : list WorkspaceSearchHit;
  search_truncated : bool;
}.

Definition is_ignored_name (name : string) : bool :=
  existsb (String.eqb name) IGNORED_DIR_NAMES.

Definition looks_binary (bytes : string) : bool :=
  if has_byte zero bytes then true else negb (utf8_valid bytes).

Definition component_name (c : Component) : string :=
  match c with RootDir => "/" | CurDir => "." | ParentDir => ".." | Normal n => n end.

(** [Path::strip_prefix] on a path without repeated or trailing separators. *)
Definition path_strip_prefix (p base : string) : option string :=
  if path_starts_with p base
  then Some (join "/" (component_name <$> drop (length (components base)) (components p)))
  else None.

Section operations.
Context {F : Type} `{!WorkFiles F}.

Definition resolve_workspace_path (workspace_root relative : string) (f : F)
    : result WorkspaceFilesError string :=
  if is_absolute relative then Err (UnsafePath relative)
  else if negb (forallb safe_component (components relative)) then Err (UnsafePath relative)
  else
    root ← map_err (λ err, WfIo ("canonicalize workspace root: " ++ io_text err)%string)
             (wf_canonicalize f workspace_root);
    if is_root_path relative then Ok root
    else
      let candidate := path_join root relative in
      match wf_canonicalize f candidate with
      | Ok resolved =>
          if negb (path_starts_with resolved root) then Err (UnsafePath relative) else Ok resolved
      | Err _ =>
          let parent_dir := default root (parent candidate) in
          name ← ok_or (file_name candidate) (UnsafePath relative);
          parent_canon ← map_err
            (λ err, WfIo ("canonicalize parent " ++ parent_dir ++ ": " ++ io_text err)%string)
            (wf_canonicalize f parent_dir);
          if negb (path_starts_with parent_canon root) then Err (UnsafePath relative)
          else Ok (path_join parent_canon name)
      end.

Definition relative_display (workspace_root absolute : string) (f : F) : string :=
  match wf_canonicalize f workspace_root with
  | Err _ => absolute
  | Ok root =>
      match path_strip_prefix absolute root with
      | Some p => if is_empty p then "." else p
      | None => absolute
      end
  end.

(** The [for] over the entries of a directory. *)
Fixpoint list_entries (workspace_root dir : string) (read : list (result IoError DirEntry))
    (f : F) : result WorkspaceFilesError (list WorkspaceDirEntry) :=
  match read with
  | [] => Ok []
  | r :: read' =>
      entry ← map_err io_error r;
      if is_ignored_name (de_name entry) then list_entries workspace_root dir read' f
      else
        ft ← map_err io_error (de_type entry);
        rest ← list_entries workspace_root dir read' f;
        Ok (mkWorkspaceDirEntry (de_name entry)
              (relative_display workspace_root (path_join dir (de_name entry)) f)
              (ft_is_dir ft) (ft_is_symlink ft) (ft_is_file ft) :: rest)
  end.

Definition by_name : relation WorkspaceDirEntry := λ a b, String.le (wde_name a) (wde_name b).

#[global] Instance by_name_dec : RelDecision by_name.
Proof. intros a b. unfold by_name. apply _. Defined.

Definition list_directory (workspace_root relative : string) (f : F)
    : result WorkspaceFilesError WorkspaceDirListing :=
  resolved ← resolve_workspace_path workspace_root relative f;
  meta ← map_err (lookup_error relative) (wf_symlink_metadata f resolved);
  if negb (ft_is_dir (md_type meta)) then Err (NotDirectory relative)
  else
    read ← map_err io_error (wf_read_dir f resolved);
    entries ← list_entries workspace_root resolved read f;
    Ok (mkWorkspaceDirListing (relative_display workspace_root resolved f)
          (merge_sort by_name entries)).

Definition stat_path (workspace_root relative : string) (f : F)
    : result WorkspaceFilesError WorkspaceFileMetadata :=
  resolved ← resolve_workspace_path workspace_root relative f;
  root ← map_err io_error (wf_canonicalize f workspace_root);
  let candidate := if is_root_path relative then root else path_join root relative in
  link_meta ← map_err (lookup_error relative) (wf_symlink_metadata f candidate);
  meta ← map_err (lookup_error relative) (wf_metadata f resolved);
  Ok (mkWorkspaceFileMetadata (relative_display workspace_root resolved f)
        (ft_is_dir (md_type meta)) (ft_is_symlink (md_type link_meta))
        (ft_is_file (md_type meta)) (md_len meta)).

(** [File::open] and the two reads: the first fills the probe or reaches the end
    of the file, the second reads on up to the limit. *)
Definition read_text_file_limited (workspace_root relative : string) (max_bytes : nat) (f : F)
    : result WorkspaceFilesError WorkspaceFileContent :=
  let limit := max_bytes `min` MAX_WORKSPACE_FILE_BYTES in
  resolved ← resolve_workspace_path workspace_root relative f;
  meta ← map_err (lookup_error relative) (wf_metadata f resolved);
  if ft_is_dir (md_type meta) then Err (NotFile relative)
  else if (N.of_nat limit <? md_len meta)%N then Err (TooLarge (md_len meta) (N.of_nat limit))
  else
    file ← map_err io_error (wf_read f resolved);
    let probe := str_prefix (BINARY_PROBE_BYTES `min` limit) file in
    if looks_binary probe then Err (Binary relative)
    else
      let bytes := str_prefix limit file in
      if looks_binary bytes then Err (Binary relative)
      else Ok (mkWorkspaceFileContent (relative_display workspace_root resolved f) bytes
                 (String.length bytes)).

Definition read_text_file (workspace_root relative : string) (f : F)
    : result WorkspaceFilesError WorkspaceFileContent :=
  read_text_file_limited workspace_root relative MAX_WORKSPACE_FILE_BYTES f.

(** *** Search *)

(** Unicode's lower case, [str::to_lowercase]. *)
Context (to_lowercase : string → string).

(** The [for] over the lines of a file, from the line number [idx]; the flag is set
    when the hits are full. *)
Fixpoint search_lines (rel needle : string) (idx : nat) (text : list string)
    (hits : list WorkspaceSearchHit) : list WorkspaceSearchHit * bool :=
  match text with
  | [] => (hits, false)
  | line :: text' =>
      if contains (to_lowercase line) needle then
        let hits' := hits ++
          [mkWorkspaceSearchHit rel (N.of_nat (idx + 1) `mod` (u32_max + 1))%N line] in
        if MAX_WORKSPACE_SEARCH_HITS <=? length hits' then (hits', true)
        else search_lines rel needle (idx + 1) text' hits'
      else search_lines rel needle (idx + 1) text' hits
  end.

(** Its result is never an error. *)
Definition search_file (path workspace_root needle : string) (f : F)
    (hits : list WorkspaceSearchHit) : list WorkspaceSearchHit * bool :=
  match wf_metadata f path with
  | Err _ => (hits, false)
  | Ok meta =>
      if (N.of_nat MAX_WORKSPACE_FILE_BYTES <? md_len meta)%N then (hits, false)
      else match wf_read f path with
      | Err _ => (hits, false)
      | Ok file =>
          let bytes := str_prefix MAX_WORKSPACE_FILE_BYTES file in
          if looks_binary bytes then (hits, false)
          else search_lines (relative_display workspace_root path f) needle 0 (lines bytes) hits
      end
  end.

(** The locals of [search_text]; the top of the stack first. *)
Record SearchState := mkSearchState {
  ss_hits : list WorkspaceSearchHit;
  ss_truncated : bool;
  ss_scanned : nat;
  ss_stack : list string;
}.

Definition search_full (st : SearchState) : bool :=
  (MAX_WORKSPACE_SEARCH_FILES <=? ss_scanned st)
  || (MAX_WORKSPACE_SEARCH_HITS <=? length (ss_hits st)).

Definition set_truncated (st : SearchState) : SearchState :=
  mkSearchState (ss_hits st) true (ss_scanned st) (ss_stack st).

Definition push_dir (d : string) (st : SearchState) : SearchState :=
  mkSearchState (ss_hits st) (ss_truncated st) (ss_scanned st) (d :: ss_stack st).

(** [scanned += 1] and the call of [search_file]; the flag breaks the loop. *)
Definition scan_file (path workspace_root needle : string) (f : F) (st : SearchState)
    : SearchState * bool :=
  let '(hits, full) := search_file path workspace_root needle f (ss_hits st) in
  (mkSearchState hits (ss_truncated st || full) (S (ss_scanned st)) (ss_stack st), full).

(** What becomes of one entry. *)
Inductive EntryTarget :=
  | SkipEntry
  | PushDir (d : string)
  | ScanFile (p : string).

Definition entry_target (workspace_root dir : string) (f : F) (e : DirEntry) : EntryTarget :=
  if is_ignored_name (de_name e) then SkipEntry
  else match de_type e with
  | Err _ => SkipEntry
  | Ok ft =>
      let path := path_join dir (de_name e) in
      if ft_is_symlink ft then
        match wf_canonicalize f path with
        | Err _ => SkipEntry
        | Ok resolved =>
            match wf_canonicalize f workspace_root with
            | Err _ => SkipEntry
            | Ok root =>
                if negb (path_starts_with resolved root) then SkipEntry
                else if wf_is_dir f resolved then PushDir resolved
                else if wf_is_file f resolved then ScanFile resolved
                else SkipEntry
            end
        end
      else if ft_is_dir ft then PushDir path
      else if ft_is_file ft then ScanFile path
      else SkipEntry
  end.

(** The [for] over [read.flatten()]. *)
Fixpoint search_entries (workspace_root needle dir : string) (f : F)
    (read : list (result IoError DirEntry)) (st : SearchState) : SearchState :=
  match read with
  | [] => st
  | Err _ :: read' => search_entries workspace_root needle dir f read' st
  | Ok e :: read' =>
      if search_full st then set_truncated st
      else match entry_target workspace_root dir f e with
      | SkipEntry => search_entries workspace_root needle dir f read' st
      | PushDir d => search_entries workspace_root needle dir f read' (push_dir d st)
      | ScanFile p =>
          let '(st', full) := scan_file p workspace_root needle f st in
          if full then st' else search_entries workspace_root needle dir f read' st'
      end
  end.

(** The [while] over the stack; [None] when the fuel runs out. *)
Fixpoint search_loop (fuel : nat) (workspace_root needle : string) (f : F) (st : SearchState)
    : option SearchState :=
  match fuel with
  | 0 => None
  | S fuel' =>
      match ss_stack st with
      | [] => Some st
      | dir :: stack =>
          let st := mkSearchState (ss_hits st) (ss_truncated st) (ss_scanned st) stack in
          if search_full st then Some (set_truncated st)
          else match wf_read_dir f dir with
          | Err _ => search_loop fuel' workspace_root needle f st
          | Ok read =>
              search_loop fuel' workspace_root needle f
                (search_entries workspace_root needle dir f read st)
          end
      end
  end.

Definition search_text (fuel : nat) (workspace_root relative pattern : string) (f : F)
    : option (result WorkspaceFilesError WorkspaceSearchResult) :=
  match resolve_workspace_path workspace_root relative f with
  | Err e => Some (Err e)
  | Ok start =>
      if is_empty pattern
      then Some (Ok (mkWorkspaceSearchResult (relative_display workspace_root start f) pattern
                       [] false))
      else
        (λ st, Ok (mkWorkspaceSearchResult (relative_display workspace_root start f) pattern
                     (ss_hits st) (ss_truncated st)))
          <$> search_loop fuel workspace_root (to_lowercase pattern) f
                (mkSearchState [] false 0 [start])
  end.

End operations.

(** ** Resolved paths stay inside *)

Lemma is_absolute_cons a p : is_absolute (String a p) = true ↔ a = "/"%char.
Proof.
  unfold is_absolute, starts_with. cbn [String.prefix].
  case_match; split; intros; simplify_eq; try done; by destruct p.
Qed.

Lemma is_absolute_app p t : is_absolute p = true → is_absolute (p ++ t) = true.
Proof. destruct p as [|a p]; [done|]. intros ->%is_absolute_cons. by apply is_absolute_cons. Qed.

Lemma components_append p t :
  is_absolute p = true →
  components (p ++ String "/" t) = components p ++ omap piece_component (split_on "/" t).
Proof.
  intros Hp. unfold components. rewrite (is_absolute_app _ _ Hp), Hp, split_on_app.
  destruct (split_on "/" p) as [|p0 ps] eqn:E; [by apply split_on_nonempty in E|].
  cbn [app]. by rewrite omap_app.
Qed.

Lemma ends_with_slash p : ends_with p "/" = true → ∃ q, p = (q ++ "/")%string.
Proof.
  induction p as [|a p IH]; [done|]. cbn [ends_with]. intros [He|He]%orb_true_iff.
  - apply String.eqb_eq in He. rewrite He. by exists "".
  - destruct (IH He) as [q ->]. by exists (String a q).
Qed.

Lemma piece_component_normal q n : piece_component q = Some (Normal n) → q = n.
Proof. unfold piece_component. by repeat case_match; intros; simplify_eq. Qed.

Lemma components_plain p n : Normal n ∈ components p → plain_piece n.
Proof.
  unfold components. destruct (split_on "/" p) as [|p0 ps] eqn:E; [set_solver|].
  assert (∀ q, q ∈ p0 :: ps → piece_component q = Some (Normal n) → plain_piece n) as Hgen.
  { intros q Hq Hc. pose proof (piece_component_normal _ _ Hc) as ->.
    split; [|done]. apply (split_on_piece p). by rewrite E. }
  intros [Hn|Hn]%elem_of_app.
  - destruct (is_absolute p); [set_solver|]. unfold first_component in Hn.
    destruct (String.eqb p0 "."); [set_solver|].
    destruct (piece_component p0) as [c|] eqn:Hc; [|set_solver].
    apply list_elem_of_singleton in Hn as <-. apply (Hgen p0); [by left|done].
  - apply list_elem_of_omap in Hn as (q & Hq & Hc). apply (Hgen q); [by right|done].
Qed.

Lemma file_name_plain p n : file_name p = Some n → plain_piece n.
Proof.
  unfold file_name. destruct (last (components p)) as [c|] eqn:Hl; [|done].
  destruct c as [| | |m]; try done. intros [= ->]. apply (components_plain p).
  apply last_Some in Hl as [l' ->]. set_solver.
Qed.

Lemma components_join p name :
  is_absolute p = true → plain_piece name →
  components (path_join p name) = components p ++ [Normal name].
Proof.
  intros Hp [Hs Hc]. unfold path_join.
  assert (is_absolute name = false) as ->.
  { destruct (is_absolute name) eqn:Ha; [|done]. destruct name as [|a n]; [done|].
    apply is_absolute_cons in Ha as ->. cbn in Hs. injection Hs as _ Hs.
    by apply split_on_nonempty in Hs. }
  destruct (String.eqb_spec p "") as [->|_]; [done|].
  assert (omap piece_component (split_on "/" name) = [Normal name]) as Hname.
  { rewrite Hs. cbn. by rewrite Hc. }
  destruct (ends_with p "/") eqn:He.
  2: { change ("/" ++ name)%string with (String "/" name).
    by rewrite (components_append p name Hp), Hname. }
  destruct (ends_with_slash _ He) as [q ->]. rewrite str_app_assoc. cbn [String.append].
  destruct q as [|b q].
  - change (components ("" ++ String "/" name)) with (components (String "/" name)).
    unfold components at 1. rewrite (proj2 (is_absolute_cons _ _)) by done.
    cbn [split_on]. rewrite Ascii.eqb_refl. by rewrite Hname.
  - assert (is_absolute (String b q) = true) as Hq.
    { cbn [String.append] in Hp. apply is_absolute_cons in Hp as ->. by apply is_absolute_cons. }
    by rewrite !components_append, Hname, app_nil_r by done.
Qed.

Lemma piece_component_root q : piece_component q ≠ Some RootDir.
Proof. unfold piece_component. by repeat case_match. Qed.

Lemma clean_absolute p names : components p = RootDir :: names → is_absolute p = true.
Proof.
  unfold components. destruct (split_on "/" p) as [|p0 ps]; [done|].
  destruct (is_absolute p); [done|]. intros Hx.
  assert (RootDir ∈ option_list (first_component p0) ++ omap piece_component ps) as Hin
    by (rewrite Hx; by left).
  exfalso. apply elem_of_app in Hin as [Hin|(q & _ & Hq)%list_elem_of_omap].
  - unfold first_component in Hin. destruct (String.eqb p0 "."); [set_solver|].
    destruct (piece_component p0) eqn:E; [|set_solver].
    apply list_elem_of_singleton in Hin as <-. by apply piece_component_root in E.
  - by apply piece_component_root in Hq.
Qed.

Section resolve.
Context {F : Type} `{!WorkFiles F} `{!WorkFilesLaws F}.

(** A clean path under the canonical root. *)
Definition inside (canon p : string) : Prop :=
  path_starts_with p canon = true ∧ ∃ names, components p = RootDir :: (Normal <$> names).

Lemma inside_join canon p name : inside canon p → plain_piece name → inside canon (path_join p name).
Proof.
  intros [Hp [names Hc]] Hn. pose proof (clean_absolute _ _ Hc) as Habs. unfold inside.
  unfold path_starts_with in *. apply bool_decide_eq_true in Hp.
  rewrite (components_join _ _ Habs Hn). split.
  - apply bool_decide_eq_true. by apply prefix_app_r.
  - exists (names ++ [name]). rewrite Hc, fmap_app. done.
Qed.

(** A resolved path lies under the canonical workspace root, component by
    component, whether its target exists or only its directory does. *)
Lemma resolve_inside root relative f p :
  resolve_workspace_path root relative f = Ok p →
  ∃ canon, wf_canonicalize f root = Ok canon ∧ inside canon p.
Proof.
  unfold resolve_workspace_path. destruct (is_absolute relative); [done|].
  destruct (negb _); [done|]. destruct (wf_canonicalize f root) as [canon|] eqn:Hroot; [|done].
  cbn. intros Hp. exists canon. split; [done|]. revert Hp.
  assert (inside canon canon) as Hself.
  { split; [by apply bool_decide_eq_true|]. by eapply wf_canonicalize_clean. }
  destruct (is_root_path relative); [by intros [= <-]|].
  destruct (wf_canonicalize f (path_join canon relative)) as [r|] eqn:Hr.
  { destruct (path_starts_with r canon) eqn:Hin; [|done]. intros [= <-].
    split; [done|]. by eapply wf_canonicalize_clean. }
  destruct (file_name (path_join canon relative)) as [name|] eqn:Hname; [|done]. cbn.
  destruct (wf_canonicalize f (default canon _)) as [q|] eqn:Hq; [|done]. cbn.
  destruct (path_starts_with q canon) eqn:Hin; [|done]. intros [= <-].
  apply inside_join; [|by eapply file_name_plain].
  split; [done|]. by eapply wf_canonicalize_clean.
Qed.

(** A path that exists resolves to the same place after a write. *)
Lemma resolve_stable root relative f f' p b r path :
  wf_write p b f = (f', r) → wf_canonicalize f root = Ok root → is_root_path relative = false →
  wf_canonicalize f (path_join root relative) = Ok path →
  resolve_workspace_path root relative f = Ok path →
  resolve_workspace_path root relative f' = Ok path.
Proof.
  intros Hw Hroot Hrel Hcan. unfold resolve_workspace_path.
  rewrite Hroot, (wf_write_canonicalize _ _ _ _ _ _ _ Hw Hroot), Hrel. cbn.
  by rewrite Hcan, (wf_write_canonicalize _ _ _ _ _ _ _ Hw Hcan).
Qed.

End resolve.

(** ** Reading *)

Lemma str_prefix_all n s : String.length s ≤ n → str_prefix n s = s.
Proof.
  unfold str_prefix. revert n. induction s as [|a s IH]; intros [|n] Hn; cbn in *; try done; [lia|].
  by rewrite IH by lia.
Qed.

Lemma has_byte_prefix a n s : has_byte a (str_prefix n s) = true → has_byte a s = true.
Proof.
  unfold str_prefix, has_byte. revert n. induction s as [|b s IH]; intros [|n]; cbn; try done.
  rewrite !orb_true_iff. naive_solver.
Qed.

Section read.
Context {F : Type} `{!WorkFiles F} `{!WorkFilesLaws F}.

(** The size and the contents decide a read; a text whose [BINARY_PROBE_BYTES]-th
    byte falls inside a character is taken for binary. *)
Lemma read_text_decided root relative max_bytes f p m c :
  resolve_workspace_path root relative f = Ok p →
  wf_metadata f p = Ok m → ft_is_dir (md_type m) = false → wf_read f p = Ok c →
  let limit := max_bytes `min` MAX_WORKSPACE_FILE_BYTES in
  let cut := BINARY_PROBE_BYTES `min` limit `min` String.length c in
  read_text_file_limited root relative max_bytes f =
    if limit <? String.length c
    then Err (TooLarge (N.of_nat (String.length c)) (N.of_nat limit))
    else if looks_binary c || negb (is_char_boundary cut c) then Err (Binary relative)
    else Ok (mkWorkspaceFileContent (relative_display root p f) c (String.length c)).
Proof.
  intros Hp Hm Hd Hr limit cut. unfold read_text_file_limited. fold limit.
  rewrite Hp. cbn -[Nat.ltb]. rewrite Hm. cbn -[Nat.ltb]. rewrite Hd, (wf_metadata_len _ _ _ _ Hm Hr), Hr.
  assert ((N.of_nat limit <? N.of_nat (String.length c))%N = (limit <? String.length c)) as ->.
  { apply eq_true_iff_eq. rewrite N.ltb_lt, Nat.ltb_lt. lia. }
  destruct (Nat.ltb_spec limit (String.length c)) as [Hlt|Hle]; [done|]. cbn.
  rewrite (str_prefix_all limit) by done. set (n := BINARY_PROBE_BYTES `min` limit) in *.
  assert (str_prefix n c = str_prefix cut c) as Hcut.
  { destruct (Nat.le_gt_cases (String.length c) n).
    - rewrite !str_prefix_all; [done|unfold cut; lia|done].
    - f_equal. unfold cut. lia. }
  unfold looks_binary. destruct (has_byte zero (str_prefix n c)) eqn:Hz.
  { by rewrite (has_byte_prefix _ _ _ Hz). }
  rewrite Hcut. destruct (utf8_valid c) eqn:Hu.
  - rewrite (utf8_valid_prefix _ _ Hu) by (unfold cut; lia).
    destruct (is_char_boundary cut c), (has_byte zero c); done.
  - destruct (utf8_valid (str_prefix cut c)), (has_byte zero c); done.
Qed.
End read.

(** ** Searching *)

Section search.
Context {F : Type} `{!WorkFiles F} `{!WorkFilesLaws F} (lower : string → string).
Context (root : string) (f : F).

(** The directories an entry list sends the search to. *)
Definition entry_dirs (dir : string) (read : list (result IoError DirEntry)) : list string :=
  omap (λ r, match r with
             | Ok e => match entry_target root dir f e with PushDir d => Some d | _ => None end
             | Err _ => None
             end) read.

Definition subdirs (dir : string) : list string :=
  match wf_read_dir f dir with Ok read => entry_dirs dir read | Err _ => [] end.

Lemma entry_dirs_cons dir e read :
  entry_dirs dir (Ok e :: read) =
  match entry_target root dir f e with PushDir d => [d] | _ => [] end ++ entry_dirs dir read.
Proof. unfold entry_dirs. cbn. by destruct (entry_target root dir f e). Qed.

(** *** Termination *)

Lemma search_entries_weight (w : string → nat) needle dir read st :
  sum_list (w <$> ss_stack (search_entries lower root needle dir f read st)) ≤
  sum_list (w <$> entry_dirs dir read) + sum_list (w <$> ss_stack st).
Proof.
  revert st. induction read as [|[e|err] read IH]; intros st; cbn [search_entries];
    [cbn; lia|rewrite entry_dirs_cons, fmap_app, sum_list_with_app|apply IH].
  destruct (search_full st); [cbn; lia|].
  destruct (entry_target root dir f e) as [|d|q].
  - apply IH.
  - etrans; [apply IH|]. cbn. lia.
  - unfold scan_file. destruct (search_file _ _ _ _ _ _) as [hits [|]]; [cbn; lia|].
    etrans; [apply IH|]. cbn. lia.
Qed.

Lemma search_entries_stack needle dir read st d :
  d ∈ ss_stack (search_entries lower root needle dir f read st) →
  d ∈ entry_dirs dir read ∨ d ∈ ss_stack st.
Proof.
  revert st. induction read as [|[e|err] read IH]; intros st; cbn [search_entries];
    [by right|rewrite entry_dirs_cons|apply IH].
  destruct (search_full st); [by right|].
  destruct (entry_target root dir f e) as [|x|q].
  - apply IH.
  - intros [?|[->|?]%elem_of_cons]%IH; set_solver.
  - unfold scan_file. destruct (search_file _ _ _ _ _ _) as [hits [|]]; [by right|].
    by intros [?|?]%IH; [left|right].
Qed.

Abbreviation descends := (λ d c, c ∈ subdirs d).

Section ranked.
Context (start : string) (rank : string → nat).
Context (Hrank : ∀ d c, rtc descends start d → c ∈ subdirs d → rank c < rank d).

Lemma search_loop_ends needle fuel st :
  (∀ d, d ∈ ss_stack st → rtc descends start d) →
  stack_size subdirs rank (ss_stack st) < fuel →
  is_Some (search_loop lower fuel root needle f st).
Proof.
  revert st. induction fuel as [|fuel IH]; intros st Hreach Hfuel; [lia|]. cbn.
  destruct (ss_stack st) as [|dir stack] eqn:Hs; [done|]. rewrite stack_size_cons in Hfuel.
  destruct (search_full _); [done|].
  assert (rtc descends start dir) as Hdir by (apply Hreach; by left).
  pose proof (tree_size_children _ start rank Hrank dir Hdir) as Hw.
  destruct (wf_read_dir f dir) as [read|err] eqn:Hread.
  2: { apply IH; cbn [ss_stack]; [intros d Hd; apply Hreach; by right|lia]. }
  assert (subdirs dir = entry_dirs dir read) as Hsub by (unfold subdirs; by rewrite Hread).
  apply IH.
  - intros d [Hd|Hd]%search_entries_stack; [|apply Hreach; by right].
    eapply rtc_r; [exact Hdir|]. by rewrite Hsub.
  - eapply Nat.le_lt_trans; [apply search_entries_weight|]. rewrite <-Hsub. cbn [ss_stack].
    unfold stack_size in *. lia.
Qed.
End ranked.

(** A directory whose only entry is a link back to it. *)
Lemma search_loop_cycles start e canon fuel needle :
  wf_read_dir f start = Ok [Ok e] → is_ignored_name (de_name e) = false →
  de_type e = Ok FtSymlink → wf_canonicalize f (path_join start (de_name e)) = Ok start →
  wf_canonicalize f root = Ok canon → path_starts_with start canon = true →
  wf_is_dir f start = true →
  search_loop lower fuel root needle f (mkSearchState [] false 0 [start]) = None.
Proof.
  intros Hread Hig Ht Hcan Hroot Hin Hdir.
  induction fuel as [|fuel IH]; [done|]. cbn. rewrite Hread. cbn.
  unfold entry_target. by rewrite Hig, Ht, Hcan, Hroot, Hin, Hdir.
Qed.

(** *** Hits *)

Section hits.
Context (canon needle : string) (Hroot : wf_canonicalize f root = Ok canon).

(** The hit is a line of a file inside the workspace, and the line matches. *)
Definition genuine_hit (h : WorkspaceSearchHit) : Prop :=
  ∃ p c, inside canon p ∧ wf_read f p = Ok c ∧ hit_path h = relative_display root p f ∧
    hit_text h ∈ lines (str_prefix MAX_WORKSPACE_FILE_BYTES c) ∧
    contains (lower (hit_text h)) needle = true.

Definition good_hits (hits : list WorkspaceSearchHit) : Prop :=
  length hits ≤ MAX_WORKSPACE_SEARCH_HITS ∧ ∀ h, h ∈ hits → genuine_hit h.

Definition good_state (st : SearchState) : Prop :=
  good_hits (ss_hits st) ∧ ∀ d, d ∈ ss_stack st → inside canon d.

Lemma search_lines_good rel idx text hits :
  length hits < MAX_WORKSPACE_SEARCH_HITS → good_hits hits →
  (∀ line n, line ∈ text → contains (lower line) needle = true →
     genuine_hit (mkWorkspaceSearchHit rel n line)) →
  good_hits (search_lines lower rel needle idx text hits).1.
Proof.
  revert idx hits. induction text as [|line text IH]; intros idx hits Hlen Hg Hl; [done|].
  cbn [search_lines]. destruct (contains (lower line) needle) eqn:Hc.
  2: { apply IH; [done..|]. intros. apply Hl; [by right|done]. }
  set (h := mkWorkspaceSearchHit _ _ _).
  assert (good_hits (hits ++ [h])) as Hg'.
  { split; [rewrite length_app; cbn; lia|].
    intros x [Hx| ->%list_elem_of_singleton]%elem_of_app; [by apply Hg|].
    apply Hl; [by left|done]. }
  destruct (Nat.leb_spec MAX_WORKSPACE_SEARCH_HITS (length (hits ++ [h]))); [done|].
  apply IH; [done..|]. intros. apply Hl; [by right|done].
Qed.

Lemma search_file_good p hits :
  inside canon p → length hits < MAX_WORKSPACE_SEARCH_HITS → good_hits hits →
  good_hits (search_file lower p root needle f hits).1.
Proof.
  intros Hp Hlen Hg. unfold search_file. destruct (wf_metadata f p) as [m|]; [|done].
  destruct (_ <? _)%N; [done|]. destruct (wf_read f p) as [c|] eqn:Hc; [|done].
  destruct (looks_binary _); [done|]. apply search_lines_good; [done..|].
  intros line n Hline Hm. by exists p, c.
Qed.

Lemma entry_target_inside dir e :
  inside canon dir → plain_piece (de_name e) →
  match entry_target root dir f e with
  | SkipEntry => True
  | PushDir d | ScanFile d => inside canon d
  end.
Proof.
  intros Hd Hn. pose proof (inside_join _ _ _ Hd Hn) as Hj. unfold entry_target.
  destruct (is_ignored_name _); [done|]. destruct (de_type e) as [ft|]; [|done].
  destruct (ft_is_symlink ft).
  - destruct (wf_canonicalize f (path_join dir _)) as [r|] eqn:Hr; [|done]. rewrite Hroot.
    destruct (path_starts_with r canon) eqn:Hin; [|done]. cbn.
    assert (inside canon r) by (split; [done|by eapply wf_canonicalize_clean]).
    by destruct (wf_is_dir f r), (wf_is_file f r).
  - by destruct (ft_is_dir ft), (ft_is_file ft).
Qed.

Lemma search_entries_good dir read st :
  inside canon dir → (∀ e, Ok e ∈ read → plain_piece (de_name e)) → good_state st →
  good_state (search_entries lower root needle dir f read st).
Proof.
  intros Hd. revert st. induction read as [|[e|err] read IH]; intros st Hn Hg.
  { done. }
  2: { cbn [search_entries]. apply IH; [|done]. intros. apply Hn. by right. }
  cbn [search_entries]. destruct (search_full st) eqn:Hfull; [done|].
  pose proof (entry_target_inside dir e Hd (Hn e ltac:(by left))) as Ht.
  assert (∀ e, Ok e ∈ read → plain_piece (de_name e)) as Hn' by (intros; apply Hn; by right).
  destruct Hg as [Hh Hs]. destruct (entry_target root dir f e) as [|d|p].
  - by apply IH.
  - apply IH; [done|]. split; [done|]. intros x [->|Hx]%elem_of_cons; auto.
  - unfold search_full in Hfull. apply orb_false_iff in Hfull as [_ Hlen%Nat.leb_gt].
    pose proof (search_file_good p _ Ht Hlen Hh) as Hfile. unfold scan_file.
    destruct (search_file lower p root needle f (ss_hits st)) as [hits [|]]; [done|].
    by apply IH.
Qed.

Lemma search_loop_good fuel st st' :
  good_state st → search_loop lower fuel root needle f st = Some st' → good_hits (ss_hits st').
Proof.
  revert st. induction fuel as [|fuel IH]; intros st Hg; [done|]. cbn [search_loop].
  destruct Hg as [Hh Hs]. destruct (ss_stack st) as [|dir stack] eqn:Hst; [by intros [= <-]|].
  destruct (search_full _); [by intros [= <-]|].
  assert (∀ d, d ∈ stack → inside canon d) as Hs' by (intros; apply Hs; by right).
  destruct (wf_read_dir f dir) as [read|] eqn:Hread; [|by apply IH].
  apply IH. apply search_entries_good; [apply Hs; by left| |done].
  intros e He. by eapply wf_read_dir_plain.
Qed.
End hits.
End search.

(** ** A concrete file system *)

Module Demo.

Inductive Node := Dir (names : list string) | File (contents : string) | Link (target : string).

Abbreviation Fs := (gmap string Node).

Definition not_found : IoError := mkIoError true "No such file or directory (os error 2)".
Definition other_error : IoError := mkIoError false "Input/output error (os error 5)".

Definition is_normal (c : Component) : bool := match c with Normal _ => true | _ => false end.

Definition clean (p : string) : bool :=
  match components p with RootDir :: cs => forallb is_normal cs | _ => false end.

Definition plain (n : string) : bool := bool_decide (plain_piece n).

Definition is_link (n : Node) : bool := match n with Link _ => true | _ => false end.

(** Where a path leads, through at most one link. *)
Definition reach (f : Fs) (p : string) : option string :=
  match f !! p with
  | Some (Link t) => match f !! t with Some n => if is_link n then None else Some t | None => None end
  | Some _ => Some p
  | None => None
  end.

Definition follow (f : Fs) (p : string) : option string :=
  match reach f p with Some q => if clean q then Some q else None | None => None end.

Definition canonicalize (f : Fs) (p : string) : result IoError string :=
  match follow f p with Some q => Ok q | None => Err not_found end.

Definition node_type (n : Node) : FileType :=
  match n with Dir _ => FtDir | File _ => FtFile | Link _ => FtSymlink end.

Definition node_meta (n : Node) : Metadata :=
  mkMetadata (node_type n) (match n with File c => N.of_nat (String.length c) | _ => 0 end).

Definition symlink_metadata (f : Fs) (p : string) : result IoError Metadata :=
  match f !! p with Some n => Ok (node_meta n) | None => Err not_found end.

Definition metadata (f : Fs) (p : string) : result IoError Metadata :=
  match follow f p with Some q => symlink_metadata f q | None => Err not_found end.

Definition read_dir (f : Fs) (d : string) : result IoError (list (result IoError DirEntry)) :=
  match f !! d with
  | Some (Dir names) =>
      Ok ((λ n, Ok (mkDirEntry n
            (match f !! path_join d n with Some x => Ok (node_type x) | None => Err not_found end)))
          <$> List.filter plain names)
  | _ => Err not_found
  end.

Definition read (f : Fs) (p : string) : result IoError string :=
  match follow f p with
  | Some q => match f !! q with Some (File c) => Ok c | _ => Err other_error end
  | None => Err not_found
  end.

(** The path a write creates or replaces: a dangling link is followed. *)
Definition write_target (f : Fs) (p : string) : string :=
  match f !! p with Some (Link t) => t | _ => p end.

Definition write (p b : string) : stateR Fs IoError () := λ f,
  let q := write_target f p in
  match f !! q with
  | Some (Dir _) | Some (Link _) => (f, Err other_error)
  | _ => if clean q then (<[q := File b]> f, Ok tt) else (f, Err other_error)
  end.

Definition remove_file (p : string) : stateR Fs IoError () := λ f,
  match f !! p with
  | Some (Dir _) => (f, Err other_error)
  | Some _ => (delete p f, Ok tt)
  | None => (f, Err not_found)
  end.

Definition rename (a b : string) : stateR Fs IoError () := λ f,
  match f !! a, f !! b with
  | None, _ => (f, Err not_found)
  | Some _, Some (Dir _) => (f, Err other_error)
  | Some n, _ => (<[b := n]> (delete a f), Ok tt)
  end.

Definition create_dir_all (p : string) : stateR Fs IoError () := λ f,
  match follow f p, f !! p with
  | Some q, _ => match f !! q with Some (Dir _) => (f, Ok tt) | _ => (f, Err other_error) end
  | None, Some _ => (f, Err other_error)
  | None, None => (<[p := Dir []]> f, Ok tt)
  end.

#[global] Instance demo_files : WorkFiles Fs := {|
  wf_canonicalize := canonicalize;
  wf_symlink_metadata := symlink_metadata;
  wf_metadata := metadata;
  wf_read_dir := read_dir;
  wf_read := read;
  wf_write := write;
  wf_create_dir_all := create_dir_all;
|}.

#[global] Instance demo_changes : FileChanges Fs :=
  {| wf_remove_file := remove_file; wf_rename := rename |}.

Lemma clean_components q :
  clean q = true → ∃ names, components q = RootDir :: (Normal <$> names).
Proof.
  unfold clean. destruct (components q) as [|[] cs]; try done. intros Hn.
  enough (∃ names, cs = Normal <$> names) as [names ->] by by exists names.
  induction cs as [|c cs IH]; [by exists []|]. cbn in Hn. apply andb_true_iff in Hn as [Hc Hn].
  destruct (IH Hn) as [names ->]. destruct c as [| | |n]; try done. by exists (n :: names).
Qed.

(** A write changes no path that leads somewhere. *)
Lemma write_follow f f' p b r q x :
  write p b f = (f', r) → follow f q = Some x → follow f' q = Some x.
Proof.
  unfold write. set (t := write_target f p). intros Hw Hq.
  assert (f' = f ∨ f' = <[t := File b]> f ∧ (∀ n, f !! t = Some n → node_type n = FtFile))
    as [->|[-> Ht]]; [|done|].
  { destruct (f !! t) as [[| |]|]; try destruct (clean t); injection Hw as <- <-; auto; right;
      split; naive_solver. }
  unfold follow in *. destruct (reach f q) as [y|] eqn:Hy; [|done].
  enough (reach (<[t := File b]> f) q = Some y) as -> by done. unfold reach in *.
  destruct (decide (q = t)) as [->|Hne].
  - rewrite lookup_insert_eq. destruct (f !! t) as [[| |]|] eqn:Hf; try done.
    by specialize (Ht _ eq_refl).
  - rewrite lookup_insert_ne by done. destruct (f !! q) as [[| |u]|] eqn:Hf; try done.
    destruct (decide (u = t)) as [->|Hu]; [|by rewrite lookup_insert_ne by done].
    rewrite lookup_insert_eq. cbn. destruct (f !! t) as [n|]; [|done].
    by destruct (is_link n).
Qed.

#[global] Instance demo_laws : WorkFilesLaws Fs.
Proof.
  split; cbn.
  - intros f p q. unfold canonicalize, follow. destruct (reach f p) as [x|]; [|done].
    destruct (clean x) eqn:Hc; [|done]. intros [= <-]. by apply clean_components.
  - intros f d es e. unfold read_dir. destruct (f !! d) as [[names| |]|]; try done.
    intros [= <-] He. apply list_elem_of_fmap in He as (n & He & Hn). injection He as ->.
    cbn. apply list_elem_of_In, filter_In in Hn as [_ Hn]. by apply bool_decide_eq_true in Hn.
  - intros f p m c. unfold metadata, read, symlink_metadata.
    destruct (follow f p) as [q|]; [|done]. destruct (f !! q) as [[| |]|]; try done.
    by intros [= <-] [= <-].
  - intros f f' p b. unfold write. set (t := write_target f p).
    assert (clean t = true → follow (<[t := File b]> f) p = Some t) as Hf.
    { intros Hc. enough (reach (<[t := File b]> f) p = Some t) as Hr.
      { unfold follow. by rewrite Hr, Hc. }
      clear Hc. unfold t, write_target, reach.
      destruct (f !! p) as [[| |u]|] eqn:Hp; rewrite ?lookup_insert_eq; try done.
      destruct (decide (p = u)) as [->|Hne]; rewrite ?lookup_insert_eq; try done.
      by rewrite lookup_insert_ne, Hp, lookup_insert_eq by done. }
    unfold read, metadata, symlink_metadata.
    destruct (clean t) eqn:Hc.
    + destruct (f !! t) as [[| |]|]; intros Hw; try discriminate Hw; injection Hw as <-;
        rewrite Hf, lookup_insert_eq by done; (split; [done|by eexists]).
    + by destruct (f !! t) as [[| |]|].
  - intros f f' p b r q x Hw. unfold canonicalize.
    destruct (follow f q) as [y|] eqn:Hy; [|done]. by rewrite (write_follow _ _ _ _ _ _ _ Hw Hy).
  - intros f f' p b r d Hw. unfold wf_is_dir. cbn. unfold metadata, symlink_metadata.
    destruct (follow f d) as [y|] eqn:Hy; [|done]. rewrite (write_follow _ _ _ _ _ _ _ Hw Hy).
    unfold write in Hw. set (t := write_target f p) in *.
    destruct (f !! y) as [[| |]|] eqn:Hn; try done. intros _.
    destruct (f !! t) as [[| |]|] eqn:Ht; try destruct (clean t); injection Hw as <- <-;
      try by rewrite Hn.
    all: rewrite lookup_insert_ne by congruence; by rewrite Hn.
  - intros f p. unfold wf_is_dir. cbn. unfold metadata, symlink_metadata, create_dir_all.
    destruct (follow f p) as [y|] eqn:Hy; [|done]. by destruct (f !! y) as [[| |]|].
Qed.

End Demo.

(** ** Properties *)

Section properties.
Context {F : Type} `{!WorkFiles F} `{!WorkFilesLaws F}.

(** Reading a file of the workspace.  A file over the limit is refused with its
    size; a file with a NUL byte or invalid UTF-8 is refused as binary; any
    other is returned unchanged and whole, except that a valid text is also
    refused as binary when the byte at [BINARY_PROBE_BYTES] (or at the limit) is
    inside a character. *)
Theorem read_text_exact root relative max_bytes f p m c :
  resolve_workspace_path root relative f = Ok p →
  wf_metadata f p = Ok m → ft_is_dir (md_type m) = false → wf_read f p = Ok c →
  let limit := max_bytes `min` MAX_WORKSPACE_FILE_BYTES in
  let cut := BINARY_PROBE_BYTES `min` limit `min` String.length c in
  read_text_file_limited root relative max_bytes f =
    if limit <? String.length c
    then Err (TooLarge (N.of_nat (String.length c)) (N.of_nat limit))
    else if looks_binary c || negb (is_char_boundary cut c) then Err (Binary relative)
    else Ok (mkWorkspaceFileContent (relative_display root p f) c (String.length c)).
Proof. apply read_text_decided. Qed.

(** The text search ends when no directory below its start leads back to itself
    (a rank decreases along every descent), within the size of the tree; it
    returns at most [MAX_WORKSPACE_SEARCH_HITS] hits, each a matching line of a
    file inside the canonical root. *)
Theorem search_text_ends lower root relative pattern f start (rank : string → nat) :
  resolve_workspace_path root relative f = Ok start →
  (∀ d c, rtc (λ d c, c ∈ subdirs root f d) start d → c ∈ subdirs root f d → rank c < rank d) →
  ∃ canon r,
    wf_canonicalize f root = Ok canon ∧
    search_text lower (S (tree_size (subdirs root f) (rank start) start)) root relative pattern f = Some (Ok r) ∧
    good_hits lower root f canon (lower pattern) (search_hits r).
Proof.
  intros Hstart Hrank. destruct (resolve_inside _ _ _ _ Hstart) as (canon & Hroot & Hin).
  exists canon. unfold search_text. rewrite Hstart. destruct (is_empty pattern).
  { eexists. split_and!; [done..|]. split; cbn; [lia|set_solver]. }
  destruct (search_loop_ends lower root f start rank Hrank (lower pattern)
              (S (tree_size (subdirs root f) (rank start) start)) (mkSearchState [] false 0 [start]))
    as [st Hst]; cbn [ss_stack].
  { by intros d ->%list_elem_of_singleton. }
  { cbn. lia. }
  rewrite Hst. eexists. split_and!; [done..|]. cbn.
  eapply (search_loop_good lower root f canon (lower pattern) Hroot); [|exact Hst].
  split; cbn; [split; cbn; [lia|set_solver]|]. by intros d ->%list_elem_of_singleton.
Qed.

(** The text search never returns on a directory whose only entry is a symbolic
    link back to it: the link is followed because its target is inside the
    workspace, and directories are not counted against the limits. *)
Theorem search_text_symlink_cycle lower root relative pattern f start canon name :
  resolve_workspace_path root relative f = Ok start → is_empty pattern = false →
  wf_canonicalize f root = Ok canon →
  wf_read_dir f start = Ok [Ok (mkDirEntry name (Ok FtSymlink))] →
  is_ignored_name name = false → wf_canonicalize f (path_join start name) = Ok start →
  wf_is_dir f start = true →
  ∀ fuel, search_text lower fuel root relative pattern f = None.
Proof.
  intros Hstart Hpat Hroot Hread Hig Hlink Hdir fuel. unfold search_text. rewrite Hstart, Hpat.
  destruct (resolve_inside _ _ _ _ Hstart) as (canon' & Hroot' & Hin & _). simplify_eq.
  by erewrite search_loop_cycles.
Qed.

(** A link whose target does not exist is resolved to the link itself, when its
    directory is inside the workspace: a write to it goes where the link
    points. *)
Lemma dangling_link_resolves root relative f canon err parent_dir name parent_canon :
  is_absolute relative = false → forallb safe_component (components relative) = true →
  is_root_path relative = false → wf_canonicalize f root = Ok canon →
  wf_canonicalize f (path_join canon relative) = Err err →
  parent (path_join canon relative) = Some parent_dir →
  file_name (path_join canon relative) = Some name →
  wf_canonicalize f parent_dir = Ok parent_canon → path_starts_with parent_canon canon = true →
  resolve_workspace_path root relative f = Ok (path_join parent_canon name).
Proof.
  intros Ha Hs Hr Hc He Hp Hn Hpc Hin. unfold resolve_workspace_path.
  rewrite Ha, Hs, Hc. cbn. rewrite Hr, He, Hp, Hn. cbn. rewrite Hpc. cbn. by rewrite Hin.
Qed.
End properties.

(** *** Witnesses *)

Definition sample_files : Demo.Fs :=
  {[ "/ws" := Demo.Dir ["notes.txt"; "sub"; ".git"];
     "/ws/notes.txt" := Demo.File "Alpha";
     "/ws/sub" := Demo.Dir ["b.txt"];
     "/ws/sub/b.txt" := Demo.File "beta";
     "/loop" := Demo.Dir ["again"];
     "/loop/again" := Demo.Link "/loop";
     "/out" := Demo.Dir [];
     "/escape" := Demo.Dir ["gone"];
     "/escape/gone" := Demo.Link "/out/new" ]}.

Lemma read_text_exact_witness :
  read_text_file_limited "/ws" "notes.txt" 5 sample_files =
  Ok (mkWorkspaceFileContent "notes.txt" "Alpha" 5).
Proof.
  rewrite (read_text_exact "/ws" "notes.txt" 5 sample_files "/ws/notes.txt" (mkMetadata FtFile 5)
             "Alpha"); vm_compute; reflexivity.
Defined.

Definition sample_rank (d : string) : nat := if String.eqb d "/ws" then 1 else 0.

Lemma search_text_ends_witness :
  ∃ canon r, wf_canonicalize sample_files "/ws" = Ok canon ∧
    search_text to_ascii_lowercase (S (tree_size (subdirs "/ws" sample_files) (sample_rank "/ws") "/ws"))
      "/ws" "." "A" sample_files = Some (Ok r) ∧
    good_hits to_ascii_lowercase "/ws" sample_files canon (to_ascii_lowercase "A") (search_hits r).
Proof.
  apply (search_text_ends to_ascii_lowercase "/ws" "." "A" sample_files "/ws" sample_rank);
    [vm_compute; reflexivity|].
  assert (subdirs "/ws" sample_files "/ws" = ["/ws/sub"]) as Hws by (vm_compute; reflexivity).
  assert (subdirs "/ws" sample_files "/ws/sub" = []) as Hsub by (vm_compute; reflexivity).
  assert (∀ x d, rtc (λ d c, c ∈ subdirs "/ws" sample_files d) x d →
            x = "/ws" ∨ x = "/ws/sub" → d = "/ws" ∨ d = "/ws/sub") as Hreach.
  { induction 1 as [|x y z Hy _ IH]; [done|]. intros [->| ->].
    - apply IH. rewrite Hws in Hy. apply list_elem_of_singleton in Hy as ->. by right.
    - rewrite Hsub in Hy. by apply elem_of_nil in Hy. }
  intros d c Hd Hc. destruct (Hreach _ _ Hd ltac:(by left)) as [->| ->].
  - rewrite Hws in Hc. apply list_elem_of_singleton in Hc as ->. vm_compute. lia.
  - rewrite Hsub in Hc. by apply elem_of_nil in Hc.
Defined.

Lemma search_text_symlink_cycle_witness :
  resolve_workspace_path "/loop" "." sample_files = Ok "/loop" ∧
  ∀ fuel, search_text to_ascii_lowercase fuel "/loop" "." "a" sample_files = None.
Proof.
  split; [vm_compute; reflexivity|].
  apply (search_text_symlink_cycle to_ascii_lowercase "/loop" "." "a" sample_files "/loop" "/loop"
           "again"); vm_compute; reflexivity.
Defined.

(** A dangling link inside the workspace carries a write out of it. *)
Example dangling_link_write_escapes :
  resolve_workspace_path "/escape" "gone" sample_files = Ok "/escape/gone" ∧
  (wf_write "/escape/gone" "x" sample_files).1 !! "/out/new" = Some (Demo.File "x").
Proof. by vm_compute. Qed.

(** A character across the probe's end makes a text unreadable: here with the
    limit in place of the probe. *)
Example split_character_is_binary :
  let text := String (ascii_of_N 195) (String (ascii_of_N 169) "") in
  is_char_boundary 1 text = false ∧ looks_binary text = false ∧
  looks_binary (str_prefix 1 text) = true.
Proof. by vm_compute. Qed.
