(* ===== verification/HookPrefilter.v ===== *)
(** * Hook prefilter

    [crates/impetus-core/src/hook_prefilter.rs]: rules on exact labels that are
    matched, first hit first, before a process is spawned; the catalog of rules
    and its load from the data directory. *)

From S2P Require Import Prelude Str Utf8 Action PathScope WorkspaceFiles.

Open Scope string_scope.
Open Scope nat_scope.
Open Scope list_scope.
Open Scope impetus_scope.

(** ** Definitions *)

Inductive HookTrustLevel := InDaemon | External.

Inductive HookAction := HookAllowContinue | HookSkipSpawn | HookDeny.

#[export] Instance HookTrustLevel_eq_dec : EqDecision HookTrustLevel.
Proof. solve_decision. Defined.
#[export] Instance HookAction_eq_dec : EqDecision HookAction.
Proof. solve_decision. Defined.

Definition hook_action_as_str (a : HookAction) : string :=
  match a with
  | HookAllowContinue => "AllowContinue"
  | HookSkipSpawn => "SkipSpawn"
  | HookDeny => "Deny"
  end.

Record HookRule := mkHookRule {
  rule_id : string;
  rule_pattern : string;
  rule_action : HookAction;
  rule_trust : HookTrustLevel;
  rule_security_critical : bool;
}.

Definition HookRule_new (pattern : string) (action : HookAction) : HookRule :=
  mkHookRule pattern pattern action InDaemon false.

Definition HookRule_security_critical (pattern : string) (action : HookAction) : HookRule :=
  mkHookRule pattern pattern action InDaemon true.

Definition HookRule_external (pattern : string) (action : HookAction) : HookRule :=
  mkHookRule pattern pattern action External false.

Definition with_rule_id (id : string) (r : HookRule) : HookRule :=
  mkHookRule id (rule_pattern r) (rule_action r) (rule_trust r) (rule_security_critical r).

Definition with_rule_trust (trust : HookTrustLevel) (r : HookRule) : HookRule :=
  mkHookRule (rule_id r) (rule_pattern r) (rule_action r) trust (rule_security_critical r).

Inductive PrefilterDecision := PreAllowContinue | PreSkipSpawn | PreDeny.

Definition decision_of_action (a : HookAction) : PrefilterDecision :=
  match a with
  | HookAllowContinue => PreAllowContinue
  | HookSkipSpawn => PreSkipSpawn
  | HookDeny => PreDeny
  end.

Inductive PrefilterError := ExternalForCritical (label : string).

Inductive HookCatalogError :=
  Duplicate (existing_id new_id pattern : string) (action : HookAction).

Inductive HookCatalogLoadError :=
  | HookIo (path : string) (source : IoError)
  | HookJsonError (path source : string)
  | HookCatalog (e : HookCatalogError).

Abbreviation HookPrefilter := (list HookRule).

(** The rule that [add_rule] looks for. *)
Definition same_rule (rule r : HookRule) : bool :=
  String.eqb (rule_pattern r) (rule_pattern rule) && bool_decide (rule_action r = rule_action rule).

Definition add_rule (rule : HookRule) : stateR HookPrefilter HookCatalogError () := λ rules,
  match List.find (same_rule rule) rules with
  | Some existing =>
      (rules, Err (Duplicate (rule_id existing) (rule_id rule) (rule_pattern rule)
                     (rule_action rule)))
  | None => (rules ++ [rule], Ok tt)
  end.

(** The [for] of [try_new]. *)
Fixpoint add_rules (new : list HookRule) : stateR HookPrefilter HookCatalogError () :=
  match new with
  | [] => StateR.ret tt
  | rule :: new' => add_rule rule ;;; add_rules new'
  end.

Definition try_new (rules : list HookRule) : result HookCatalogError HookPrefilter :=
  match add_rules rules [] with
  | (catalog, Ok _) => Ok catalog
  | (_, Err e) => Err e
  end.

Fixpoint prefilter (rules : HookPrefilter) (label : string)
    : result PrefilterError PrefilterDecision :=
  match rules with
  | [] => Ok PreAllowContinue
  | rule :: rules' =>
      if String.eqb (rule_pattern rule) label then
        if rule_security_critical rule && bool_decide (rule_trust rule = External)
        then Err (ExternalForCritical label)
        else Ok (decision_of_action (rule_action rule))
      else prefilter rules' label
  end.

Inductive SpawnStubOutcome := WouldSpawn | Skipped.

Inductive SpawnStubError :=
  | SpawnDenied (label : string)
  | SpawnExternalForCritical (label : string).

Definition spawn_error_of_prefilter (e : PrefilterError) : SpawnStubError :=
  match e with ExternalForCritical label => SpawnExternalForCritical label end.

Definition spawn_stub (rules : HookPrefilter) (label : string)
    : result SpawnStubError SpawnStubOutcome :=
  decision ← map_err spawn_error_of_prefilter (prefilter rules label);
  match decision with
  | PreAllowContinue => Ok WouldSpawn
  | PreSkipSpawn => Ok Skipped
  | PreDeny => Err (SpawnDenied label)
  end.

(** *** The catalog on disk *)

Record HookRuleWire := mkHookRuleWire {
  wire_id : option string;
  wire_pattern : string;
  wire_action : HookAction;
  wire_trust : option HookTrustLevel;
  wire_security_critical : bool;
}.

(** [serde_json::from_str::<Vec<HookRuleWire>>] and the text of its error. *)
Class HookJson := hook_wires_from_str : string → result string (list HookRuleWire).

Definition rule_from_wire (wire : HookRuleWire) : HookRule :=
  mkHookRule (default (wire_pattern wire) (wire_id wire)) (wire_pattern wire) (wire_action wire)
    (default InDaemon (wire_trust wire)) (wire_security_critical wire).

Definition invalid_utf8 : IoError := mkIoError false "stream did not contain valid UTF-8".

Section catalog.
Context `{HookJson} {F : Type} `{!WorkFiles F}.

(** [fs::read_to_string] *)
Definition read_to_string (path : string) (f : F) : result IoError string :=
  bytes ← wf_read f path;
  if utf8_valid bytes then Ok bytes else Err invalid_utf8.

Definition load_rules_from_file (path : string) (f : F)
    : result HookCatalogLoadError (list HookRule) :=
  raw ← map_err (HookIo path) (read_to_string path f);
  wires ← map_err (HookJsonError path) (hook_wires_from_str raw);
  Ok (List.map rule_from_wire wires).

Fixpoint load_files (paths : list string) (f : F) : result HookCatalogLoadError (list HookRule) :=
  match paths with
  | [] => Ok []
  | path :: paths' =>
      rules ← load_rules_from_file path f;
      rest ← load_files paths' f;
      Ok (rules ++ rest)
  end.

(** The entries that could be read, with the extension [json], sorted. *)
Definition catalog_paths (hooks_dir : string) (read : list (result IoError DirEntry))
    : list string :=
  sort_paths (List.filter (λ path, bool_decide (extension path = Some "json"))
    (omap (λ r, match r with Ok e => Some (path_join hooks_dir (de_name e)) | Err _ => None end)
       read)).

Definition load_daemon_catalog (data_root : string) (f : F)
    : result HookCatalogLoadError HookPrefilter :=
  let hooks_file := path_join data_root "hooks.json" in
  let hooks_dir := path_join data_root "hooks" in
  rules ← (if wf_is_file f hooks_file then load_rules_from_file hooks_file f else Ok []);
  more ← (if wf_is_dir f hooks_dir then
            read ← map_err (HookIo hooks_dir) (wf_read_dir f hooks_dir);
            load_files (catalog_paths hooks_dir read) f
          else Ok []);
  map_err HookCatalog (try_new (rules ++ more)).
End catalog.

(** ** The catalog *)

Definition rule_key (r : HookRule) : string * HookAction := (rule_pattern r, rule_action r).

Lemma same_rule_true rule r : same_rule rule r = true ↔ rule_key r = rule_key rule.
Proof.
  unfold same_rule, rule_key.
  rewrite andb_true_iff, String.eqb_eq, bool_decide_eq_true. split; [by intros [-> ->]|by intros [= ]].
Qed.

Lemma add_rule_fresh rule rules :
  rule_key rule ∉ rule_key <$> rules → add_rule rule rules = (rules ++ [rule], Ok tt).
Proof.
  intros Hn. unfold add_rule. destruct (List.find _ rules) as [r|] eqn:Hf; [|done].
  apply find_some_elem in Hf as [Hr He%same_rule_true]. destruct Hn. rewrite <-He.
  by apply list_elem_of_fmap_2.
Qed.

Lemma add_rule_taken rule rules :
  rule_key rule ∈ rule_key <$> rules →
  ∃ existing, existing ∈ rules ∧ rule_key existing = rule_key rule ∧
    add_rule rule rules =
      (rules, Err (Duplicate (rule_id existing) (rule_id rule) (rule_pattern rule)
                     (rule_action rule))).
Proof.
  intros (r & He & Hr)%list_elem_of_fmap. unfold add_rule.
  destruct (List.find (same_rule rule) rules) as [x|] eqn:Hf.
  - apply find_some_elem in Hf as [? ?%same_rule_true]. by exists x.
  - eapply List.find_none in Hf; [|by apply list_elem_of_In].
    by rewrite (proj2 (same_rule_true rule r)) in Hf by done.
Qed.

Lemma add_rules_spec new rules :
  NoDup (rule_key <$> rules) →
  match add_rules new rules with
  | (catalog, Ok _) => catalog = rules ++ new ∧ NoDup (rule_key <$> catalog)
  | (_, Err (Duplicate _ new_id pattern action)) =>
      ∃ pre r post, new = pre ++ r :: post ∧ rule_id r = new_id ∧
        rule_key r = (pattern, action) ∧ rule_key r ∈ rule_key <$> rules ++ pre
  end.
Proof.
  revert rules. induction new as [|rule new IH]; intros rules Hnd; cbn.
  { by rewrite app_nil_r. }
  unfold StateR.bind. destruct (decide (rule_key rule ∈ rule_key <$> rules)) as [Hin|Hout].
  - destruct (add_rule_taken _ _ Hin) as (x & Hx & Hk & ->).
    exists [], rule, new. by rewrite app_nil_r.
  - rewrite (add_rule_fresh _ _ Hout).
    assert (NoDup (rule_key <$> rules ++ [rule])) as Hnd'.
    { rewrite fmap_app. apply NoDup_app. split_and!; [done| |apply NoDup_singleton].
      intros k Hk. cbn. rewrite list_elem_of_singleton. by intros ->. }
    specialize (IH _ Hnd'). destruct (add_rules new (rules ++ [rule])) as [c [u|[id id' p a]]].
    + by rewrite <-app_assoc in IH.
    + destruct IH as (pre & r & post & -> & ? & ? & Hk). exists (rule :: pre), r, post.
      by rewrite <-app_assoc in Hk.
Qed.

(** A catalog holds the given rules in their order, and is refused exactly when two
    of them share pattern and action; the error names such a rule. *)
Lemma try_new_ok rules catalog :
  try_new rules = Ok catalog ↔ catalog = rules ∧ NoDup (rule_key <$> rules).
Proof.
  unfold try_new. pose proof (add_rules_spec rules [] ltac:(constructor)) as H.
  destruct (add_rules rules []) as [c [u|[id id' p a]]]; cbn in H.
  - destruct H as [-> Hnd]. naive_solver.
  - destruct H as (pre & r & post & -> & _ & _ & Hin). split; [done|].
    intros [_ Hnd]. rewrite fmap_app in Hnd. apply NoDup_app in Hnd as (_ & Hd & _).
    exfalso. apply (Hd _ Hin). by left.
Qed.

(** ** Matching *)

Lemma prefilter_spec rules label :
  prefilter rules label =
    match List.find (λ r, String.eqb (rule_pattern r) label) rules with
    | None => Ok PreAllowContinue
    | Some r =>
        if rule_security_critical r && bool_decide (rule_trust r = External)
        then Err (ExternalForCritical label)
        else Ok (decision_of_action (rule_action r))
    end.
Proof. induction rules as [|r rules IH]; cbn; [done|]. by destruct (String.eqb _ _). Qed.

(** A process may be spawned exactly when no rule has its label, or the first rule
    that has it says to continue and is not an external matcher of a
    security-critical rule. *)
Lemma spawn_stub_would_spawn rules label :
  spawn_stub rules label = Ok WouldSpawn ↔
    (∀ r, r ∈ rules → rule_pattern r ≠ label) ∨
    ∃ pre r post, rules = pre ++ r :: post ∧ (∀ x, x ∈ pre → rule_pattern x ≠ label) ∧
      rule_pattern r = label ∧ rule_action r = HookAllowContinue ∧
      (rule_security_critical r = true → rule_trust r = InDaemon).
Proof.
  unfold spawn_stub. rewrite prefilter_spec.
  destruct (List.find _ rules) as [r|] eqn:Hf.
  - apply find_first in Hf as Hsplit. apply find_some_elem in Hf as [Hr Hp%String.eqb_eq].
    destruct Hsplit as (pre & post & Hrules & Hpre). split.
    + intros H. right. exists pre, r, post. split_and!; [done| |done| |].
      * intros x Hx. by apply String.eqb_neq, Hpre.
      * by destruct (rule_action r), (rule_security_critical r && _).
      * intros Hc. rewrite Hc in H. by destruct (rule_trust r).
    + intros [Hno|(pre' & r' & post' & E & Hpre' & Hp' & Ha & Ht)]; [by apply Hno in Hr|].
      assert (r' = r) as ->.
      { rewrite Hrules in E. clear -E Hpre Hpre' Hp Hp'. revert pre' E Hpre'.
        induction pre as [|x pre IH]; intros [|x' pre'] E Hpre'; injection E as E1 E2.
        - done.
        - destruct (Hpre' x'); [by left|congruence].
        - specialize (Hpre x ltac:(by left)). apply String.eqb_neq in Hpre. congruence.
        - apply (IH ltac:(set_solver) pre'); [done|set_solver]. }
      rewrite Ha. destruct (rule_security_critical r); [rewrite Ht by done|]; done.
  - split; [|done]. intros _. left. intros r Hr E.
    eapply List.find_none in Hf; [|by apply list_elem_of_In]. by rewrite E, String.eqb_refl in Hf.
Qed.

(** A rule that an earlier one with its label precedes is never reached. *)
Example shadowed_critical_rule :
  spawn_stub [HookRule_new "sh" HookAllowContinue; HookRule_security_critical "sh" HookDeny] "sh"
  = Ok WouldSpawn.
Proof. reflexivity. Qed.
