(* ===== verification/OutputReducer.v ===== *)
(** * Reduction of tool output

    [crates/impetus-core/src/output_reducer.rs]: large outputs are cut to a
    budget of estimated tokens before the model sees them.  The external RTK
    reducer is a function of the text and the budget that may fail. *)

From S2P Require Import Prelude Str Utf8 Redact.

Open Scope string_scope.
Open Scope nat_scope.
Open Scope list_scope.
Open Scope impetus_scope.

(** ** Definitions *)

Inductive ReducerUsed := ReducerNone | ReducerRtk | ReducerBuiltin.

Inductive ReductionStrategy := HeadOnly | TailOnly | HeadAndTail | ErrorsOnly.

Record ReducedOutput := mkReducedOutput {
  red_content : string;
  red_truncated : bool;
  red_original_tokens : nat;
  red_reduced_tokens : nat;
  red_used : ReducerUsed;
}.

(** [RtkAdapter::reduce] of an installed binary. *)
Abbreviation Rtk := (string → nat → option string).

Record OutputReducer := mkOutputReducer {
  max_tokens : nat;
  rtk : option Rtk;
}.

Definition DEFAULT_MAX_TOKENS : nat := 2000.

Definition estimate_tokens (text : string) : nat := (String.length text + 3) / 4.

Definition truncation_mark : string := nl ++ "... (truncated)".

Definition truncate_to_budget (text : string) (budget : nat) : string :=
  let max_chars := budget * 4 in
  if String.length text <=? max_chars then text
  else (chars_take max_chars text ++ truncation_mark)%string.

(** [push_str(line); push('\n')] for every line. *)
Definition push_lines (ls : list string) : string := concat_str ((λ l, l ++ nl)%string <$> ls).

Definition unreduced (raw : string) : ReducedOutput :=
  mkReducedOutput raw false (estimate_tokens raw) (estimate_tokens raw) ReducerNone.

Definition builtin_output (content : string) (original : nat) : ReducedOutput :=
  mkReducedOutput content true original (estimate_tokens content) ReducerBuiltin.

Definition omission_mark (omitted : nat) : string :=
  (nl ++ "... (" ++ dec (N.of_nat omitted) ++ " lines omitted) ..." ++ nl ++ nl)%string.

Definition reduce_builtin (r : OutputReducer) (raw : string) (estimated : nat) : ReducedOutput :=
  let ls := lines raw in
  let total_lines := length ls in
  if total_lines <=? 10
  then builtin_output (truncate_to_budget raw (max_tokens r)) estimated
  else
    let head_lines := total_lines / 3 in
    let tail_lines := total_lines / 3 in
    let omitted := total_lines - head_lines - tail_lines in
    let reduced := (push_lines (take head_lines ls) ++ omission_mark omitted
                    ++ push_lines (drop (total_lines - tail_lines) ls))%string in
    builtin_output
      (if max_tokens r <? estimate_tokens reduced then truncate_to_budget reduced (max_tokens r)
       else reduced) estimated.

Definition reduce_output (r : OutputReducer) (raw : string) : ReducedOutput :=
  let estimated := estimate_tokens raw in
  if estimated <=? max_tokens r then unreduced raw
  else match rtk r ≫= (λ f, f raw (max_tokens r)) with
  | Some text => mkReducedOutput text true estimated (estimate_tokens text) ReducerRtk
  | None => reduce_builtin r raw estimated
  end.

Definition reduce_head_only (r : OutputReducer) (raw : string) : ReducedOutput :=
  let estimated := estimate_tokens raw in
  if estimated <=? max_tokens r then unreduced raw
  else builtin_output (truncate_to_budget raw (max_tokens r)) estimated.

(** The [for] from the last line on; [insert_str(0, line); insert(0, '\n')]. *)
Fixpoint take_tail (budget : nat) (rev_lines : list string) (reduced : string) (tokens : nat)
    : string * nat :=
  match rev_lines with
  | [] => (reduced, tokens)
  | line :: rest =>
      if budget <? tokens + estimate_tokens line then (reduced, tokens)
      else take_tail budget rest (nl ++ line ++ reduced)%string (tokens + estimate_tokens line)
  end.

Definition reduce_tail_only (r : OutputReducer) (raw : string) : ReducedOutput :=
  let estimated := estimate_tokens raw in
  if estimated <=? max_tokens r then unreduced raw
  else
    let '(reduced, tokens) := take_tail (max_tokens r) (reverse (lines raw)) "" 0 in
    mkReducedOutput reduced true estimated tokens ReducerBuiltin.

Section strategies.
(** [str::to_lowercase] *)
Context (to_lowercase : string → string).

Definition is_error_line (line : string) : bool :=
  let lower := to_lowercase line in
  contains lower "error" || contains lower "failed" || contains lower "panic"
  || contains lower "assertion".

Definition reduce_errors_only (r : OutputReducer) (raw : string) : ReducedOutput :=
  let estimated := estimate_tokens raw in
  let error_lines := List.filter is_error_line (lines raw) in
  match error_lines with
  | [] => reduce_head_only r raw
  | _ =>
    let reduced := join nl error_lines in
    let reduced_tokens := estimate_tokens reduced in
    if max_tokens r <? reduced_tokens
    then builtin_output (truncate_to_budget reduced (max_tokens r)) estimated
    else mkReducedOutput reduced (length error_lines <? length (lines raw)) estimated
           reduced_tokens ReducerBuiltin
  end.

Definition reduce_with_strategy (r : OutputReducer) (raw : string) (s : ReductionStrategy)
    : ReducedOutput :=
  match s with
  | HeadOnly => reduce_head_only r raw
  | TailOnly => reduce_tail_only r raw
  | HeadAndTail => reduce_output r raw
  | ErrorsOnly => reduce_errors_only r raw
  end.
End strategies.

(** ** How much is kept *)

(** Every character takes at most [w] bytes. *)
Definition chars_within (w : nat) (s : string) : Prop :=
  Forall (λ c, String.length c ≤ w) (chars s).

Lemma ascii_chars_within s : ascii_text s → chars_within 1 s.
Proof.
  unfold ascii_text, chars_within. induction s as [|a s IH]; [constructor|].
  intros [Ha Hs]%Forall_cons. rewrite chars_ascii_cons by done. constructor; [done|auto].
Qed.

Lemma chars_valid_head s :
  utf8_valid s = true → match chars s with c :: _ => cont_head c = false | [] => True end.
Proof.
  intros Hv. destruct (chars s) as [|c cs] eqn:Hc; [done|].
  destruct s as [|a s]; [done|]. rewrite (chars_head _ _ _ _ Hc).
  apply utf8_valid_cases in Hv. apply lead_not_cont.
  inversion Hv; simplify_eq; by repeat match goal with H : in_range _ _ a = _ |- _ => rewrite H end.
Qed.

Lemma chars_cons_cont a b s :
  is_cont b = true →
  chars (String a (String b s)) =
    match chars (String b s) with c :: cs => String a c :: cs | [] => [String a ""] end.
Proof.
  intros Hb. rewrite (chars_cons a). destruct (chars (String b s)) as [|c cs] eqn:Hc; [done|].
  by rewrite (chars_head _ _ _ _ Hc), Hb.
Qed.

Lemma chars_cons_valid a s :
  utf8_valid s = true → chars (String a s) = String a "" :: chars s.
Proof.
  intros Hs%chars_valid_head. rewrite chars_cons. destruct (chars s) as [|c cs]; [done|].
  by rewrite Hs.
Qed.

(** A character of a valid text takes at most four bytes. *)
Lemma valid_chars_within s : utf8_valid s = true → chars_within 4 s.
Proof.
  assert (∀ n s, String.length s ≤ n → utf8_valid s = true → chars_within 4 s) as H;
    [|by eapply H].
  clear s. unfold chars_within. intros n. induction n as [|n IH]; intros s Hn Hv.
  { destruct s; [constructor|cbn in Hn; lia]. }
  apply utf8_valid_cases in Hv.
  inversion Hv as [|a s1 H1 Hs|a b s1 H1 H2 Hb Hs|a b c s1 H1 H2 H3 Hb Hc Hs
                   |a b c d s1 H1 H2 H3 H4 Hb Hc Hd Hs]; subst s; cbn in Hn; [constructor| | | |].
  all: try (apply second_ok_cont in Hb).
  all: rewrite ?chars_cons_cont by done; rewrite chars_cons_valid by done.
  all: constructor; [cbn; lia|apply IH; [lia|done]].
Qed.

Lemma chars_take_length w n s : chars_within w s → String.length (chars_take n s) ≤ w * n.
Proof.
  unfold chars_within, chars_take. generalize (chars s) as cs. intros cs Hw. revert n.
  induction Hw as [|c cs Hc Hw IH]; intros [|n]; cbn [take concat_str]; cbn [String.length]; try lia.
  rewrite length_str_app. specialize (IH n). lia.
Qed.

Lemma truncate_to_budget_length w text budget :
  1 ≤ w → chars_within w text →
  String.length (truncate_to_budget text budget) ≤ w * (budget * 4) + 16.
Proof.
  intros Hw Hc. unfold truncate_to_budget. destruct (Nat.leb_spec (String.length text) (budget * 4)).
  - nia.
  - rewrite length_str_app. pose proof (chars_take_length w (budget * 4) text Hc).
    change (String.length truncation_mark) with 16. lia.
Qed.

(** *** Lines of a text *)

Lemma utf8_valid_before u a :
  is_cont a = false → utf8_valid (u ++ String a "") = true → utf8_valid u = true.
Proof.
  intros Ha Hv. pose proof (str_prefix_app u (String a "")) as Hp.
  rewrite length_str_app, Nat.add_sub in Hp. rewrite <-Hp, (utf8_valid_prefix _ _ Hv).
  - unfold is_char_boundary. rewrite !orb_true_iff. right.
    assert (String.get (String.length u) (u ++ String a "") = Some a) as ->
      by (clear; by induction u).
    by rewrite Ha.
  - rewrite length_str_app. lia.
Qed.

Lemma strip_cr_split s : s = strip_cr s ∨ s = (strip_cr s ++ String carriage_return "")%string.
Proof.
  induction s as [|a s IH]; [by left|]. destruct s as [|b s].
  - cbn [strip_cr]. destruct (Ascii.eqb_spec a carriage_return) as [->|Hne]; [by right|by left].
  - change (strip_cr (String a (String b s))) with (String a (strip_cr (String b s))).
    destruct IH as [IH|IH]; [left|right; cbn [String.append]]; congruence.
Qed.

Section good.
(** A class of texts that concatenation, splitting at newlines and dropping a final
    carriage return stay in. *)
Context (w : nat) (good : string → Prop).
Context (good_app : ∀ s t, good s → good t → good (s ++ t)%string).
Context (good_ascii : ∀ s, ascii_text s → good s).
Context (good_pieces : ∀ s, good s → Forall good (split_on newline s)).
Context (good_strip : ∀ s, good s → good (strip_cr s)).
Context (good_width : ∀ s, good s → chars_within w s).

Lemma good_lines s : good s → Forall good (lines s).
Proof using good_pieces good_strip.
  intros Hs%good_pieces. unfold lines. induction Hs as [|p ps Hp Hps IH]; cbn; [constructor|].
  destruct ps; [destruct (is_empty p); repeat constructor; done|].
  constructor; [by apply good_strip|done].
Qed.

Lemma good_push ls : Forall good ls → good (push_lines ls).
Proof using good_app good_ascii.
  unfold push_lines. induction 1 as [|l ls Hl Hls IH]; cbn; [by apply good_ascii; constructor|].
  apply good_app; [apply good_app; [done|]|done]. apply good_ascii. by repeat constructor.
Qed.
End good.

Lemma ascii_pieces s : ascii_text s → Forall ascii_text (split_on newline s).
Proof.
  unfold ascii_text. induction s as [|a s IH]; [repeat constructor|].
  cbn [split_on String.list_ascii_of_string]. intros [Ha Hs]%Forall_cons. specialize (IH Hs). destruct (Ascii.eqb a newline).
  - constructor; [constructor|done].
  - destruct (split_on newline s) as [|p ps]; [by repeat constructor|].
    apply Forall_cons in IH as [Hp Hps]. constructor; [by constructor|done].
Qed.

Lemma ascii_strip s : ascii_text s → ascii_text (strip_cr s).
Proof.
  destruct (strip_cr_split s) as [<-|E]; [done|]. rewrite E at 1. by intros [? _]%ascii_text_app.
Qed.

Lemma valid_pieces s :
  utf8_valid s = true → Forall (λ p, utf8_valid p = true) (split_on newline s).
Proof.
  assert (∀ n s, String.length s ≤ n → utf8_valid s = true →
    Forall (λ p, utf8_valid p = true) (split_on newline s)) as H; [|by eapply H].
  clear s. intros n. induction n as [|n IH]; intros s Hn Hv.
  { destruct s; [by repeat constructor|cbn in Hn; lia]. }
  assert (∀ a, (127 < byte a)%N → Ascii.eqb a newline = false) as Hnl.
  { intros a Ha. apply Ascii.eqb_neq. intros ->. by vm_compute in Ha. }
  apply utf8_valid_cases in Hv.
  inversion Hv as [|a s1 H1 Hs|a b s1 H1 H2 Hb Hs|a b c s1 H1 H2 H3 Hb Hc Hs
                   |a b c d s1 H1 H2 H3 H4 Hb Hc Hd Hs]; subst s; cbn in Hn; cbn [split_on].
  - by repeat constructor.
  - specialize (IH s1 ltac:(lia) Hs). destruct (Ascii.eqb a newline); [by constructor|].
    destruct (split_on newline s1) as [|p ps]; [repeat constructor; by rewrite utf8_valid_1|].
    apply Forall_cons in IH as [Hp Hps]. constructor; [by rewrite utf8_valid_1|done].
  - specialize (IH s1 ltac:(lia) Hs).
    assert (Ascii.eqb a newline = false ∧ Ascii.eqb b newline = false) as [-> ->].
    { split; apply Hnl; revert H2 Hb; unfold in_range, is_cont;
        rewrite !andb_true_iff, ?N.leb_le, ?N.ltb_lt; lia. }
    pose proof (split_on_nonempty newline s1).
    destruct (split_on newline s1) as [|p ps]; [done|].
    apply Forall_cons in IH as [Hp Hps]. constructor; [|done]. by rewrite utf8_valid_2, Hb.
  - specialize (IH s1 ltac:(lia) Hs). pose proof (second_ok_cont _ _ Hb) as Hb'.
    assert (Ascii.eqb a newline = false ∧ Ascii.eqb b newline = false ∧
            Ascii.eqb c newline = false) as (-> & -> & ->).
    { split_and!; apply Hnl; revert H3 Hb' Hc; unfold in_range, is_cont;
        rewrite !andb_true_iff, ?N.leb_le, ?N.ltb_lt; lia. }
    pose proof (split_on_nonempty newline s1).
    destruct (split_on newline s1) as [|p ps]; [done|].
    apply Forall_cons in IH as [Hp Hps]. constructor; [|done]. by rewrite utf8_valid_3, Hb, Hc.
  - specialize (IH s1 ltac:(lia) Hs). pose proof (second_ok_cont _ _ Hb) as Hb'.
    assert (Ascii.eqb a newline = false ∧ Ascii.eqb b newline = false ∧
            Ascii.eqb c newline = false ∧ Ascii.eqb d newline = false) as (-> & -> & -> & ->).
    { split_and!; apply Hnl; revert H4 Hb' Hc Hd; unfold in_range, is_cont;
        rewrite !andb_true_iff, ?N.leb_le, ?N.ltb_lt; lia. }
    pose proof (split_on_nonempty newline s1).
    destruct (split_on newline s1) as [|p ps]; [done|].
    apply Forall_cons in IH as [Hp Hps]. constructor; [|done]. by rewrite utf8_valid_4, Hb, Hc, Hd.
Qed.

Lemma valid_strip s : utf8_valid s = true → utf8_valid (strip_cr s) = true.
Proof.
  destruct (strip_cr_split s) as [<-|E]; [done|]. rewrite E at 1. by apply utf8_valid_before.
Qed.

(** ** What reduction returns *)

Lemma omission_mark_ascii n : ascii_text (omission_mark n).
Proof.
  unfold omission_mark. rewrite !ascii_text_app. split_and!; try apply dec_ascii;
    by repeat constructor.
Qed.

Section reduced.
Context (w : nat) (good : string → Prop) (Hw : 1 ≤ w).
Context (good_app : ∀ s t, good s → good t → good (s ++ t)%string).
Context (good_ascii : ∀ s, ascii_text s → good s).
Context (good_pieces : ∀ s, good s → Forall good (split_on newline s)).
Context (good_strip : ∀ s, good s → good (strip_cr s)).
Context (good_width : ∀ s, good s → chars_within w s).

Lemma within_budget s budget :
  estimate_tokens s <= budget → String.length s ≤ w * (budget * 4) + 16.
Proof using Hw.
  unfold estimate_tokens. intros Hb.
  assert (String.length s + 3 < 4 * budget + 4).
  { pose proof (Nat.div_mod (String.length s + 3) 4 ltac:(lia)).
    pose proof (Nat.mod_upper_bound (String.length s + 3) 4 ltac:(lia)). lia. }
  nia.
Qed.

Lemma reduce_length r raw :
  rtk r = None → good raw →
  String.length (red_content (reduce_output r raw)) ≤ w * (max_tokens r * 4) + 16.
Proof using All.
  intros Hrtk Hraw. unfold reduce_output. rewrite Hrtk. cbn [mbind option_bind].
  destruct (Nat.leb_spec (estimate_tokens raw) (max_tokens r)); [by apply within_budget|].
  unfold reduce_builtin. pose proof (good_lines good good_pieces good_strip raw Hraw) as Hls.
  destruct (length (lines raw) <=? 10).
  { cbn. apply truncate_to_budget_length; auto. }
  cbn [red_content builtin_output].
  match goal with |- context [estimate_tokens ?s] => set (reduced := s) end.
  assert (good reduced) as Hred.
  { apply good_app; [|apply good_app].
    - apply (good_push good good_app good_ascii). by apply Forall_take.
    - apply good_ascii, omission_mark_ascii.
    - apply (good_push good good_app good_ascii). by apply Forall_drop. }
  destruct (Nat.ltb_spec (max_tokens r) (estimate_tokens reduced)).
  - apply truncate_to_budget_length; auto.
  - by apply within_budget.
Qed.
End reduced.

Lemma reduce_length_valid r raw :
  rtk r = None → utf8_valid raw = true →
  String.length (red_content (reduce_output r raw)) ≤ 4 * (max_tokens r * 4) + 16.
Proof.
  apply (reduce_length 4 (λ s, utf8_valid s = true)); [lia| | | | |].
  - intros s t Hs Ht. by rewrite utf8_valid_app.
  - apply ascii_valid.
  - apply valid_pieces.
  - apply valid_strip.
  - apply valid_chars_within.
Qed.

Lemma reduce_length_ascii r raw :
  rtk r = None → ascii_text raw →
  String.length (red_content (reduce_output r raw)) ≤ max_tokens r * 4 + 16.
Proof.
  intros. rewrite <-(Nat.mul_1_l (max_tokens r * 4)).
  apply (reduce_length 1 ascii_text); try done.
  - intros s t ? ?. by apply ascii_text_app.
  - apply ascii_pieces.
  - apply ascii_strip.
  - apply ascii_chars_within.
Qed.

Lemma reduce_truncated r raw :
  red_truncated (reduce_output r raw) = (max_tokens r <? estimate_tokens raw).
Proof.
  unfold reduce_output. destruct (Nat.leb_spec (estimate_tokens raw) (max_tokens r)).
  - symmetry. by apply Nat.ltb_ge.
  - transitivity true; [|symmetry; by apply Nat.ltb_lt].
    destruct (rtk r ≫= _); [done|]. unfold reduce_builtin. by destruct (_ <=? _).
Qed.

Lemma reduced_same r raw :
  red_truncated (reduce_output r raw) = false → red_content (reduce_output r raw) = raw.
Proof.
  rewrite reduce_truncated. intros H%Nat.ltb_ge. unfold reduce_output.
  by rewrite (proj2 (Nat.leb_le _ _) H).
Qed.

(** Output within the budget is returned unchanged and not marked truncated,
    any other is marked; without the external reducer, what is returned for an
    ASCII text exceeds the budget by at most the sixteen bytes of the truncation
    mark, and for any UTF-8 text it stays within four times the budget and that
    mark. *)
Theorem reduce_bounded r raw :
  red_truncated (reduce_output r raw) = (max_tokens r <? estimate_tokens raw) ∧
  (red_truncated (reduce_output r raw) = false → red_content (reduce_output r raw) = raw) ∧
  (rtk r = None →
     (ascii_text raw →
        String.length (red_content (reduce_output r raw)) ≤ max_tokens r * 4 + 16) ∧
     (utf8_valid raw = true →
        String.length (red_content (reduce_output r raw)) ≤ 4 * (max_tokens r * 4) + 16)).
Proof.
  split_and!.
  - apply reduce_truncated.
  - apply reduced_same.
  - intros Hrtk. split; [by apply reduce_length_ascii|by apply reduce_length_valid].
Qed.

(** The budget counts bytes, the cut counts characters: five letters of two bytes,
    three tokens, are cut to a budget of one token as six tokens. *)
Definition five_letters : string :=
  concat_str (replicate 5 (String (ascii_of_N 195) (String (ascii_of_N 169) ""))).

Example reduction_grows :
  let r := reduce_output (mkOutputReducer 1 None) five_letters in
  red_original_tokens r = 3 ∧ red_reduced_tokens r = 6.
Proof. split; reflexivity. Qed.

(** A tail reduction counts the lines it keeps without their newlines. *)
Example tail_exceeds_budget :
  let raw := (nl ++ nl ++ nl ++ nl ++ nl ++ nl ++ "abcd" ++ nl ++ "abcd")%string in
  let r := reduce_tail_only (mkOutputReducer 2 None) raw in
  red_reduced_tokens r = 2 ∧ estimate_tokens (red_content r) = 4.
Proof. split; reflexivity. Qed.

Lemma reduce_bounded_witness :
  rtk (mkOutputReducer 1 None) = None ∧
  String.length (red_content (reduce_output (mkOutputReducer 1 None) five_letters)) ≤ 4 * (1 * 4) + 16.
Proof.
  split; [reflexivity|].
  apply (reduce_bounded (mkOutputReducer 1 None) five_letters); [reflexivity|].
  by vm_compute.
Defined.
