(* ===== verification/Artifacts.v ===== *)
(** * Durable artifacts

    [crates/impetus-core/src/durable_artifacts.rs]: tool output kept outside the
    session log, one file per content under its SHA-256 digest, with an index
    table.  Errors of the database itself are not modelled. *)

From S2P Require Import Prelude Triple Str Utf8 Action PathScope Events WorkspaceFiles.

Open Scope string_scope.
Open Scope nat_scope.
Open Scope list_scope.
Open Scope impetus_scope.

(** ** Definitions *)

Definition ARTIFACT_GC_RETENTION : N := 7 * 24 * 60 * 60.
Definition ARTIFACT_GC_INTERVAL : N := 6 * 60 * 60.

(** A row of [artifacts]. *)
Record ArtifactMeta := mkArtifactMeta {
  meta_id : string;
  meta_sha256 : string;
  meta_byte_count : N;
  meta_created_unix_ms : N;
  meta_content_type : option string;
}.

#[export] Instance ArtifactMeta_eq_dec : EqDecision ArtifactMeta.
Proof. solve_decision. Defined.

(** [std::env::var_os] of the two variables. *)
Definition default_artifact_root (data_dir home : option string) : string :=
  let base := match data_dir with
              | Some d => d
              | None => match home with
                        | Some h => path_join h "Library/Application Support/Impetus"
                        | None => "artifacts"
                        end
              end in
  path_join base "artifacts".

Inductive ArtifactError :=
  | ArtIo (e : IoError)
  | ArtConstraint.

(** [x as i64] of a [u64]. *)
Definition to_i64 (n : N) : Z :=
  if (n <=? 9223372036854775807)%N then Z.of_N n else (Z.of_N n - 18446744073709551616)%Z.

Section store.
Context `{Codec} {F : Type} `{!WorkFiles F} `{!FileChanges F}.
(** [DurableArtifactStore::root] *)
Context (root : string).

Record ArtWorld := mkArtWorld {
  aw_files : F;
  aw_rows : list ArtifactMeta;
}.

Abbreviation artR := (stateR ArtWorld ArtifactError).

Definition art_io {A} (m : stateR F IoError A) : artR A := λ w,
  let '(f, r) := m (aw_files w) in (mkArtWorld f (aw_rows w), map_err ArtIo r).

Definition art_rows (g : list ArtifactMeta → list ArtifactMeta) : artR () :=
  StateR.modify (λ w, mkArtWorld (aw_files w) (g (aw_rows w))).

Definition compute_sha256 (bytes : string) : string := hex (sha256 bytes).

Definition artifact_path (id : string) : string := path_join root id.

Definition artifact_open : artR () := art_io (wf_create_dir_all root).

(** [INSERT], with the two unique columns. *)
Definition insert_artifact (row : ArtifactMeta) : artR () :=
  w <-- StateR.get ;;
  if existsb (λ r, String.eqb (meta_id r) (meta_id row)
                   || String.eqb (meta_sha256 r) (meta_sha256 row)) (aw_rows w)
  then StateR.fail ArtConstraint
  else art_rows (λ rows, rows ++ [row]).

Definition store_with_content_type (now : N) (bytes : string) (content_type : option string)
    : artR ArtifactRef :=
  let sha := compute_sha256 bytes in
  let count := N.of_nat (String.length bytes) in
  w <-- StateR.get ;;
  (if existsb (λ r, String.eqb (meta_sha256 r) sha) (aw_rows w) then StateR.ret tt
   else
     art_io (wf_write (artifact_path sha) bytes) ;;;
     insert_artifact (mkArtifactMeta sha sha count now content_type)) ;;;
  StateR.ret (mkArtifactRef sha count).

Definition artifact_store (now : N) (bytes : string) : artR ArtifactRef :=
  store_with_content_type now bytes None.

(** [bytes.get(start..end).unwrap_or(&[])]; [start + len] wraps as in a build
    without overflow checks. *)
Definition byte_range (start len : N) (bytes : string) : string :=
  let last := N.min (wrapping_add u64_max start len) (N.of_nat (String.length bytes)) in
  if (start <=? last)%N
  then String.substring (N.to_nat start) (N.to_nat last - N.to_nat start) bytes
  else "".

Definition artifact_read (id : string) (w : ArtWorld) : result ArtifactError string :=
  map_err ArtIo (wf_read (aw_files w) (artifact_path id)).

Definition read_range (id : string) (start len : N) (w : ArtWorld) : result ArtifactError string :=
  byte_range start len <$> artifact_read id w.

Definition artifact_metadata (id : string) (w : ArtWorld) : option ArtifactMeta :=
  List.find (λ r, String.eqb (meta_id r) id) (aw_rows w).

(** [ORDER BY created_unix_ms DESC] *)
Definition newest_first : relation ArtifactMeta := λ a b,
  (to_i64 (meta_created_unix_ms b) ≤ to_i64 (meta_created_unix_ms a))%Z.

#[export] Instance newest_first_dec : RelDecision newest_first.
Proof. intros a b. unfold newest_first. apply _. Defined.

Definition artifact_list (w : ArtWorld) : list ArtifactMeta := merge_sort newest_first (aw_rows w).

Definition delete_row (id : string) : artR () :=
  art_rows (List.filter (λ r, negb (String.eqb (meta_id r) id))).

Definition artifact_delete (id : string) : artR () :=
  delete_row id ;;;
  w <-- StateR.get ;;
  if wf_exists (aw_files w) (artifact_path id) then art_io (wf_remove_file (artifact_path id))
  else StateR.ret tt.

(** The [for] over the ids; what the deletions return is dropped. *)
Fixpoint gc_ids (ids : list string) (w : ArtWorld) : ArtWorld :=
  match ids with
  | [] => w
  | id :: ids' =>
      gc_ids ids' (art_io (wf_remove_file (artifact_path id)) (delete_row id w).1).1
  end.

Definition is_older (threshold : N) (r : ArtifactMeta) : bool :=
  (to_i64 (meta_created_unix_ms r) <? to_i64 threshold)%Z.

Definition gc_older_than (threshold : N) : artR nat := λ w,
  let ids := meta_id <$> List.filter (is_older threshold) (aw_rows w) in
  (gc_ids ids w, Ok (length ids)).

Definition run_artifact_gc (now retention_ms : N) : artR nat :=
  artifact_open ;;; gc_older_than (saturating_sub now retention_ms).
End store.

Arguments ArtWorld : clear implicits.
Arguments mkArtWorld {F} _ _.

(** ** Files of the store directory *)

(** The entries of the store directory named by digests are no links: writing or
    removing one leaves the others, and a removed one is gone. *)
Class ArtifactFiles `{Codec} (F : Type) `{!WorkFiles F} `{!FileChanges F} (root : string)
    (plain : F → Prop) := {
  af_write f f' x b r :
    wf_write (artifact_path root (compute_sha256 x)) b f = (f', r) → plain f →
    plain f' ∧
    ∀ y, compute_sha256 y ≠ compute_sha256 x →
      wf_read f' (artifact_path root (compute_sha256 y))
      = wf_read f (artifact_path root (compute_sha256 y));
  af_remove f f' x r :
    wf_remove_file (artifact_path root (compute_sha256 x)) f = (f', r) → plain f →
    plain f' ∧
    ∀ y, compute_sha256 y ≠ compute_sha256 x →
      wf_read f' (artifact_path root (compute_sha256 y))
      = wf_read f (artifact_path root (compute_sha256 y));
  af_open f f' r : wf_create_dir_all root f = (f', r) → plain f →
    plain f' ∧
    ∀ y, wf_read f' (artifact_path root (compute_sha256 y))
         = wf_read f (artifact_path root (compute_sha256 y));
}.

Section properties.
Context `{Codec} {F : Type} `{!WorkFiles F} `{!WorkFilesLaws F} `{!FileChanges F}.
Context (root : string) (plain : F → Prop) `{!ArtifactFiles F root plain}.

Abbreviation sha := compute_sha256.

(** The index agrees with the files: every row is the only one of its id, the id
    is the digest of the content its file holds, and the size is that content's. *)
Definition row_ok (w : ArtWorld F) (r : ArtifactMeta) : Prop :=
  ∃ b, meta_id r = sha b ∧ meta_sha256 r = sha b ∧
       meta_byte_count r = N.of_nat (String.length b) ∧
       artifact_read root (meta_id r) w = Ok b.

Definition art_ok (w : ArtWorld F) : Prop :=
  plain (aw_files w) ∧ NoDup (meta_id <$> aw_rows w) ∧ ∀ r, r ∈ aw_rows w → row_ok w r.

Lemma row_ok_same w w' r :
  (∀ y, meta_id r = sha y →
     wf_read (aw_files w') (artifact_path root (sha y))
     = wf_read (aw_files w) (artifact_path root (sha y))) →
  row_ok w r → row_ok w' r.
Proof.
  intros Hsame (b & Hid & Hsha & Hn & Hr). exists b. split_and!; try done.
  unfold artifact_read in *. rewrite Hid in *. by rewrite (Hsame b).
Qed.

Lemma existsb_rows w x :
  art_ok w →
  existsb (λ r, String.eqb (meta_sha256 r) (sha x)) (aw_rows w) = false →
  ∀ r, r ∈ aw_rows w → meta_id r ≠ sha x.
Proof.
  intros (_ & _ & Hok) Hno r Hr. destruct (Hok r Hr) as (b & -> & Hs & _).
  rewrite existsb_false_iff in Hno. specialize (Hno r Hr). cbn in Hno.
  rewrite Hs in Hno. by apply String.eqb_neq in Hno.
Qed.

Lemma NoDup_filter_ids (g : ArtifactMeta → bool) rows :
  NoDup (meta_id <$> rows) → NoDup (meta_id <$> List.filter g rows).
Proof.
  induction rows as [|r rows IH]; cbn; [done|]. intros [Hr Hnd]%NoDup_cons.
  destruct (g r); cbn; [|by apply IH]. apply NoDup_cons. split; [|by apply IH].
  intros (x & Hx & Hin)%list_elem_of_fmap. apply Hr. rewrite Hx.
  apply list_elem_of_fmap_2. apply list_elem_of_In, filter_In in Hin as [Hin _].
  by apply list_elem_of_In.
Qed.

Lemma elem_of_filter_rows (g : ArtifactMeta → bool) rows r :
  r ∈ List.filter g rows ↔ r ∈ rows ∧ g r = true.
Proof. by rewrite !list_elem_of_In, filter_In. Qed.

(** A removed row and, maybe, its file. *)
Lemma drop_row_ok w f' x r :
  art_ok w → wf_remove_file (artifact_path root (sha x)) (aw_files w) = (f', r) →
  art_ok (mkArtWorld f' (List.filter (λ row, negb (String.eqb (meta_id row) (sha x))) (aw_rows w))).
Proof.
  intros (Hp & Hnd & Hok) Hrm. destruct (af_remove _ _ _ _ Hrm Hp) as [Hp' Hsame].
  split_and!; [done|by apply NoDup_filter_ids|]. cbn.
  intros row [Hin Hne]%elem_of_filter_rows. apply negb_true_iff, String.eqb_neq in Hne.
  apply (row_ok_same w); [|by apply Hok]. cbn. intros y Hy. apply Hsame. congruence.
Qed.

Lemma filter_row_ok w (g : ArtifactMeta → bool) :
  art_ok w → art_ok (mkArtWorld (aw_files w) (List.filter g (aw_rows w))).
Proof.
  intros (Hp & Hnd & Hok). split_and!; [done|by apply NoDup_filter_ids|].
  intros row [Hin _]%elem_of_filter_rows. by apply (row_ok_same w); [|apply Hok].
Qed.

Lemma push_row_ok w f' bytes now ct :
  art_ok w → (∀ r, r ∈ aw_rows w → meta_id r ≠ sha bytes) →
  wf_write (artifact_path root (sha bytes)) bytes (aw_files w) = (f', Ok tt) →
  art_ok (mkArtWorld f' (aw_rows w ++
    [mkArtifactMeta (sha bytes) (sha bytes) (N.of_nat (String.length bytes)) now ct])).
Proof.
  intros (Hp & Hnd & Hok) Hfresh Hw. destruct (af_write _ _ _ _ _ Hw Hp) as [Hp' Hsame].
  split; [done|]. cbn [aw_rows]. split.
  - rewrite fmap_app. apply NoDup_app. split_and!; [done| |apply NoDup_singleton].
    intros i (r & -> & Hr)%list_elem_of_fmap. cbn. rewrite list_elem_of_singleton.
    by apply Hfresh.
  - intros r [Hr| ->%list_elem_of_singleton]%elem_of_app.
    + apply (row_ok_same w); [|by apply Hok]. cbn. intros y Hy. apply Hsame.
      rewrite <-Hy. by apply Hfresh.
    + exists bytes. split_and!; try done. unfold artifact_read. cbn.
      by destruct (wf_write_read _ _ _ _ Hw) as [-> _].
Qed.

Lemma store_ok now bytes ct w :
  art_ok w →
  let '(w', res) := store_with_content_type root now bytes ct w in
  art_ok w' ∧ (∀ r, r ∈ aw_rows w → r ∈ aw_rows w') ∧
  (∀ a, res = Ok a →
     a = mkArtifactRef (sha bytes) (N.of_nat (String.length bytes)) ∧
     ∃ r, r ∈ aw_rows w' ∧ meta_id r = sha bytes).
Proof.
  intros Hok. unfold store_with_content_type, StateR.bind, StateR.get. fold (sha bytes).
  destruct (existsb _ (aw_rows w)) eqn:Hex.
  - split_and!; [done|done|]. cbn. intros a [= <-]. split; [done|].
    apply existsb_bool in Hex as (r & Hr & Hs%String.eqb_eq). exists r. split; [done|].
    destruct Hok as (_ & _ & Hok). destruct (Hok r Hr) as (b & -> & Hb & _). congruence.
  - pose proof (existsb_rows _ _ Hok Hex) as Hfresh. pose proof Hok as (Hp & Hnd & Hrows).
    unfold art_io. destruct (wf_write _ bytes (aw_files w)) as [f' [u|e]] eqn:Hw; cbn;
      destruct (af_write _ _ _ _ _ Hw Hp) as [Hp' Hsame].
    + destruct u. unfold insert_artifact, StateR.bind, StateR.get. cbn [meta_id meta_sha256].
      assert (existsb (λ r, String.eqb (meta_id r) (sha bytes)
                            || String.eqb (meta_sha256 r) (sha bytes)) (aw_rows w) = false) as ->.
      { apply existsb_false_iff. intros r Hr. apply orb_false_iff.
        split; apply String.eqb_neq; [by apply Hfresh|].
        destruct (Hrows r Hr) as (b & Hid & -> & _). rewrite <-Hid. by apply Hfresh. }
      split; [by apply (push_row_ok w)|]. split.
      * intros r Hr. apply elem_of_app. by left.
      * intros a [= <-]. split; [done|]. eexists. split; [apply elem_of_app; right; by left|done].
    + split_and!; [split_and!; [done|done|]|done|done].
      intros r Hr. apply (row_ok_same w); [|by apply Hrows]. cbn. intros y Hy. apply Hsame.
      rewrite <-Hy. by apply Hfresh.
Qed.

Lemma delete_ok x w :
  art_ok w → art_ok (artifact_delete root (sha x) w).1 ∧
  ∀ r, r ∈ aw_rows w → meta_id r ≠ sha x → r ∈ aw_rows (artifact_delete root (sha x) w).1.
Proof.
  intros Hok. unfold artifact_delete, delete_row, art_rows, StateR.bind, StateR.modify, StateR.get.
  cbn. destruct (wf_exists _ _).
  - unfold art_io. cbn. destruct (wf_remove_file _ (aw_files w)) as [f' r'] eqn:Hrm. cbn.
    split; [by eapply drop_row_ok|]. intros r Hr Hne. apply elem_of_filter_rows.
    split; [done|]. by apply negb_true_iff, String.eqb_neq.
  - split; [by apply filter_row_ok|]. cbn. intros r Hr Hne. apply elem_of_filter_rows.
    split; [done|]. by apply negb_true_iff, String.eqb_neq.
Qed.

Lemma gc_ids_ok ids w :
  art_ok w → (∀ i, i ∈ ids → ∃ x, i = sha x) →
  art_ok (gc_ids root ids w) ∧
  ∀ r, r ∈ aw_rows w → meta_id r ∉ ids → r ∈ aw_rows (gc_ids root ids w).
Proof.
  revert w. induction ids as [|i ids IH]; intros w Hok Hids; cbn; [done|].
  destruct (Hids i ltac:(by left)) as [x ->].
  unfold art_io, delete_row, art_rows, StateR.modify. cbn.
  destruct (wf_remove_file _ (aw_files w)) as [f' r'] eqn:Hrm. cbn.
  destruct (IH _ (drop_row_ok _ _ _ _ Hok Hrm)) as [Hok' Hkeep]; [set_solver|].
  split; [done|]. intros r Hr Hni. apply Hkeep; [|set_solver]. cbn.
  apply elem_of_filter_rows. split; [done|]. apply negb_true_iff, String.eqb_neq. set_solver.
Qed.

Lemma gc_ok threshold w :
  art_ok w → art_ok (gc_older_than root threshold w).1 ∧
  ∀ r, r ∈ aw_rows w → is_older threshold r = false →
       r ∈ aw_rows (gc_older_than root threshold w).1.
Proof.
  intros Hok. unfold gc_older_than. cbn [fst].
  destruct (gc_ids_ok (meta_id <$> List.filter (is_older threshold) (aw_rows w)) w Hok)
    as [Hok' Hkeep].
  - intros i (r & -> & [Hr _]%elem_of_filter_rows)%list_elem_of_fmap.
    destruct Hok as (_ & _ & Hok). destruct (Hok r Hr) as (b & ? & _). by exists b.
  - split; [done|]. intros r Hr Hyoung. apply Hkeep; [done|].
    intros (x & Hid & [Hx Hold]%elem_of_filter_rows)%list_elem_of_fmap.
    assert (r = x) as <-; [|congruence]. destruct Hok as (_ & Hnd & _).
    apply list_elem_of_lookup in Hr as [j Hj]. apply list_elem_of_lookup in Hx as [k Hk].
    assert (j = k) as <-; [|congruence].
    eapply (NoDup_lookup _ _ _ (meta_id r) Hnd); rewrite list_lookup_fmap;
      [by rewrite Hj|by rewrite Hk, Hid].
Qed.

(** *** Sequences of operations *)

(** The operations on one store; a deletion names a digest. *)
Inductive art_op :=
  | ArtStore (now : N) (bytes : string) (content_type : option string)
  | ArtDelete (bytes : string)
  | ArtGc (threshold : N)
  | ArtOpen.

Definition art_run (op : art_op) (w : ArtWorld F) : ArtWorld F :=
  match op with
  | ArtStore now bytes ct => (store_with_content_type root now bytes ct w).1
  | ArtDelete bytes => (artifact_delete root (sha bytes) w).1
  | ArtGc threshold => (gc_older_than root threshold w).1
  | ArtOpen => (artifact_open root w).1
  end.

(** The operation neither deletes the row nor collects it as too old. *)
Definition spares (r : ArtifactMeta) (op : art_op) : Prop :=
  match op with
  | ArtDelete bytes => meta_id r ≠ sha bytes
  | ArtGc threshold => is_older threshold r = false
  | ArtStore _ _ _ | ArtOpen => True
  end.

Lemma art_run_ok op w :
  art_ok w → art_ok (art_run op w) ∧
  ∀ r, r ∈ aw_rows w → spares r op → r ∈ aw_rows (art_run op w).
Proof.
  intros Hok. destruct op as [now b ct|b|t|]; cbn [art_run spares].
  - pose proof (store_ok now b ct w Hok) as H'.
    destruct (store_with_content_type root now b ct w) as [w' res]. naive_solver.
  - destruct (delete_ok b w Hok). auto.
  - destruct (gc_ok t w Hok). auto.
  - destruct Hok as (Hp & Hnd & Hok). unfold artifact_open, art_io.
    destruct (wf_create_dir_all root (aw_files w)) as [f' r'] eqn:Hc. cbn.
    destruct (af_open _ _ _ Hc Hp) as [Hp' Hsame]. split; [|done]. split_and!; [done|done|].
    intros r Hr. apply (row_ok_same w); [|by apply Hok]. intros y _. apply Hsame.
Qed.

Definition art_runs (ops : list art_op) (w : ArtWorld F) : ArtWorld F :=
  fold_left (λ w op, art_run op w) ops w.

Lemma art_runs_ok ops w :
  art_ok w → art_ok (art_runs ops w) ∧
  ∀ r, r ∈ aw_rows w → Forall (spares r) ops → r ∈ aw_rows (art_runs ops w).
Proof.
  revert w. induction ops as [|op ops IH]; intros w Hok; [done|].
  destruct (art_run_ok op w Hok) as [Hok' Hkeep]. destruct (IH _ Hok') as [Hok'' Hkeep'].
  split; [done|]. intros r Hr [Hop Hops]%Forall_cons. apply Hkeep'; [by apply Hkeep|done].
Qed.

(** C40: What is stored reads back: after any operations that lead to a consistent
    store, a successful store of some bytes returns their digest and size, and
    however the store is used afterwards (other contents stored, other artifacts
    deleted, collections with a threshold the artifact is not older than), the
    digest reads as contents with that SHA-256, so as the same bytes unless the
    two collide, whole or by ranges. *)
Theorem stored_artifact_reads_back before after now bytes ct a w0 w1 r :
  art_ok w0 →
  store_with_content_type root now bytes ct (art_runs before w0) = (w1, Ok a) →
  artifact_metadata (artifact_id a) w1 = Some r → Forall (spares r) after →
  a = mkArtifactRef (compute_sha256 bytes) (N.of_nat (String.length bytes)) ∧
  ∃ b, sha256 b = sha256 bytes ∧
    artifact_read root (artifact_id a) (art_runs after w1) = Ok b ∧
    ∀ start len, read_range root (artifact_id a) start len (art_runs after w1)
                 = Ok (byte_range start len b).
Proof.
  intros H0 Hs Hm Hafter. destruct (art_runs_ok before w0 H0) as [Hok _].
  pose proof (store_ok now bytes ct _ Hok) as Hst. rewrite Hs in Hst.
  destruct Hst as (Hok1 & _ & Ha). destruct (Ha a eq_refl) as [-> _]. split; [done|].
  cbn [artifact_id] in *. apply find_some_elem in Hm as [Hr Hid%String.eqb_eq].
  destruct (art_runs_ok after w1 Hok1) as [(_ & _ & Hok2) Hkeep].
  destruct (Hok2 r (Hkeep r Hr Hafter)) as (b & Hb & _ & _ & Hread). exists b.
  rewrite <-Hid. split_and!; [|done|].
  - apply hex_inj. change (compute_sha256 b = compute_sha256 bytes). congruence.
  - intros start len. unfold read_range. by rewrite Hread.
Qed.
End properties.

(** *** Ranges *)

(** A range within the bytes is exactly those bytes; one that begins at or beyond the
    end is empty; the sum of start and length may wrap, and is then empty too. *)
Lemma byte_range_exact start len bytes :
  (start + len ≤ u64_max)%N →
  byte_range start len bytes =
    String.substring (N.to_nat start)
      (Nat.min (N.to_nat len) (String.length bytes - N.to_nat start)) bytes.
Proof.
  intros Hs. unfold byte_range. rewrite wrapping_add_small by done.
  destruct (N.leb_spec start (N.min (start + len) (N.of_nat (String.length bytes)))) as [Hle|Hgt].
  - f_equal. lia.
  - assert (Nat.min (N.to_nat len) (String.length bytes - N.to_nat start) = 0) as -> by lia.
    clear. revert bytes. induction (N.to_nat start) as [|n IH]; intros [|a s]; cbn; auto.
Qed.

Example byte_range_wraps : byte_range 3 u64_max "abcdef" = "".
Proof. reflexivity. Qed.

(** ** A store in the concrete file system *)

Lemma hex_digit_not_slash n : (n < 16)%N → hex_digit n ≠ "/"%char.
Proof.
  intros Hn E. assert (∀ k, k < 16 → hex_digit (N.of_nat k) ≠ "/"%char) as H.
  { intros k Hk. do 16 (destruct k as [|k]; [by vm_compute|]). lia. }
  apply (H (N.to_nat n)); [lia|]. by rewrite N2Nat.id.
Qed.

Lemma digest_relative `{Codec} x : is_absolute (compute_sha256 x) = false.
Proof.
  destruct (is_absolute _) eqn:Ha; [|done]. unfold compute_sha256 in Ha.
  destruct (sha256 x) as [|a l]; [done|]. cbn [hex] in Ha. apply is_absolute_cons in Ha.
  apply hex_digit_not_slash in Ha; [done|]. apply N.Div0.div_lt_upper_bound.
  unfold byte. pose proof (N_ascii_bounded a). lia.
Qed.

Section demo.
Context `{Codec} (root : string) (Hroot : ends_with root "/" = false) (Hne : root ≠ "").

Lemma artifact_path_eq x :
  artifact_path root (compute_sha256 x) = (root ++ "/" ++ compute_sha256 x)%string.
Proof using Hroot Hne.
  unfold artifact_path, path_join. rewrite digest_relative, Hroot.
  by destruct (String.eqb_spec root "").
Qed.

Lemma artifact_path_inj x y :
  artifact_path root (compute_sha256 x) = artifact_path root (compute_sha256 y) →
  compute_sha256 x = compute_sha256 y.
Proof using Hroot Hne. rewrite !artifact_path_eq. by intros E%str_app_inj_l%str_app_inj_l. Qed.

Lemma artifact_path_not_root x : artifact_path root (compute_sha256 x) ≠ root.
Proof using Hroot Hne.
  rewrite artifact_path_eq. intros E%(f_equal String.length). rewrite length_str_app in E.
  cbn in E. lia.
Qed.

(** No digest names a link. *)
Definition no_links (f : Demo.Fs) : Prop :=
  ∀ x t, f !! artifact_path root (compute_sha256 x) ≠ Some (Demo.Link t).

Lemma demo_read_same (f f' : Demo.Fs) p :
  f !! p = f' !! p → (∀ t, f !! p ≠ Some (Demo.Link t)) → Demo.read f' p = Demo.read f p.
Proof.
  intros E Hl. unfold Demo.read, Demo.follow, Demo.reach. rewrite <-E.
  destruct (f !! p) as [[| |t]|] eqn:Hp; try done; try by destruct (Hl t).
  all: destruct (Demo.clean p); by rewrite <-?E, ?Hp.
Qed.

#[local] Instance demo_artifact_files : ArtifactFiles Demo.Fs root no_links.
Proof using Hroot Hne.
  assert (∀ f p (v : option Demo.Node) x,
    no_links f → p = artifact_path root (compute_sha256 x) ∨ p = root →
    (∀ t, v ≠ Some (Demo.Link t)) → ∀ f', f' = partial_alter (λ _, v) p f →
    no_links f' ∧ ∀ y, (p = root ∨ compute_sha256 y ≠ compute_sha256 x) →
      Demo.read f' (artifact_path root (compute_sha256 y))
      = Demo.read f (artifact_path root (compute_sha256 y))) as Hgen.
  { intros f p v x Hl Hp Hv f' ->. split.
    - intros y t. destruct (decide (artifact_path root (compute_sha256 y) = p)) as [->|Hyp].
      + rewrite lookup_partial_alter_eq. apply Hv.
      + rewrite lookup_partial_alter_ne by done. apply Hl.
    - intros y Hy. apply demo_read_same; [|apply Hl]. symmetry. apply lookup_partial_alter_ne.
      intros ->. destruct Hy as [Hy|Hy].
      + by apply artifact_path_not_root in Hy.
      + destruct Hp as [Hp|Hp]; [by apply artifact_path_inj in Hp|].
        by apply artifact_path_not_root in Hp. }
  split; cbn.
  - intros f f' x b r. unfold Demo.write, Demo.write_target. intros Hw Hl.
    set (p := artifact_path root (compute_sha256 x)) in *.
    assert (match f !! p with Some (Demo.Link t) => t | _ => p end = p) as Hp.
    { destruct (f !! p) as [[| |t]|] eqn:E; try done. by destruct (Hl x t). }
    rewrite Hp in Hw.
    assert (f' = f ∨ f' = <[p := Demo.File b]> f) as [->| ->].
    { destruct (f !! p) as [[| |]|]; try destruct (Demo.clean p); naive_solver. }
    + done.
    + destruct (Hgen f p (Some (Demo.File b)) x Hl ltac:(by left) ltac:(done) _ eq_refl).
      split; [done|]. auto.
  - intros f f' x r. unfold Demo.remove_file. intros Hw Hl.
    set (p := artifact_path root (compute_sha256 x)) in *.
    assert (f' = f ∨ f' = delete p f) as [->| ->] by (destruct (f !! p) as [[]|]; naive_solver).
    + done.
    + destruct (Hgen f p None x Hl ltac:(by left) ltac:(done) _ eq_refl). split; [done|]. auto.
  - intros f f' r. unfold Demo.create_dir_all. intros Hw Hl.
    assert (f' = f ∨ f' = <[root := Demo.Dir []]> f) as [->| ->].
    { destruct (Demo.follow f root) as [q|]; [destruct (f !! q) as [[]|]|destruct (f !! root)];
        naive_solver. }
    + done.
    + destruct (Hgen f root (Some (Demo.Dir [])) "" Hl ltac:(by right) ltac:(done) _ eq_refl).
      split; [done|]. auto.
Qed.
End demo.

#[local] Existing Instances sample_codec.

Definition empty_store : ArtWorld Demo.Fs := mkArtWorld (<["/store" := Demo.Dir []]> ∅) [].

Definition sample_ref : ArtifactRef := mkArtifactRef "6c6f67" 3.

(** Storing known content again does not make it young: a collection drops what was
    just stored. *)
Example stored_again_still_old :
  let w := (artifact_store "/store" 10 "log" empty_store).1 in
  let '(w', a) := artifact_store "/store" 99 "log" w in
  a = Ok sample_ref ∧
  artifact_metadata "6c6f67" (gc_older_than "/store" 50 w').1 = None ∧
  is_ok (artifact_read "/store" "6c6f67" (gc_older_than "/store" 50 w').1) = false.
Proof. vm_compute. done. Qed.

(** An id is joined to the root unchecked: deleting its absolute path takes the
    file and leaves the row, which then stands for content that is gone. *)
Example delete_leaves_row :
  let w := (artifact_store "/store" 10 "log" empty_store).1 in
  let w' := (artifact_delete "/store" "/store/6c6f67" w).1 in
  artifact_metadata "6c6f67" w' ≠ None ∧
  is_ok (artifact_read "/store" "6c6f67" w') = false ∧
  (artifact_store "/store" 99 "log" w').2 = Ok sample_ref.
Proof. vm_compute. done. Qed.

Lemma empty_store_ok : art_ok "/store" (no_links "/store") empty_store.
Proof.
  split_and!; [|constructor|by intros r ?%elem_of_nil].
  intros x t. cbn. rewrite lookup_insert_ne; [by rewrite lookup_empty|].
  intros E. by apply (artifact_path_not_root "/store" eq_refl ltac:(done) x).
Qed.

Lemma stored_artifact_witness :
  let w := (artifact_store "/store" 10 "log" empty_store).1 in
  sample_ref = mkArtifactRef (compute_sha256 "log") 3 ∧
  ∃ b, sha256 b = sha256 "log" ∧
    artifact_read "/store" "6c6f67"
      (art_runs "/store" [ArtStore 20 "other" None; ArtDelete "other"; ArtGc 9] w) = Ok b.
Proof.
  pose (laws := demo_artifact_files "/store" eq_refl ltac:(done)).
  destruct (stored_artifact_reads_back "/store" (no_links "/store") []
    [ArtStore 20 "other" None; ArtDelete "other"; ArtGc 9] 10 "log" None sample_ref empty_store
    (artifact_store "/store" 10 "log" empty_store).1
    (mkArtifactMeta "6c6f67" "6c6f67" 3 10 None)) as (Ha & b & Hb & Hr & _).
  - exact empty_store_ok.
  - rewrite (surjective_pairing (store_with_content_type _ _ _ _ _)).
    exact (f_equal (pair _) (eq_refl (Ok sample_ref))).
  - reflexivity.
  - repeat constructor. by vm_compute.
  - split; [exact Ha|]. exists b. exact (conj Hb Hr).
Defined.
