(* ===== verification/ContextBuilder.v ===== *)
(** * Artifacts in the prompt

    [crates/impetus-core/src/context_builder.rs]: an artifact is read by ranges,
    decoded, filtered and reduced to a token budget, window by window. *)

From S2P Require Import Prelude Str Utf8 Redact Action Events WorkspaceFiles OutputReducer Artifacts.

Open Scope string_scope.
Open Scope nat_scope.
Open Scope list_scope.
Open Scope impetus_scope.

(** ** Data *)

Inductive ContextBuilderError :=
  | MissingArtifact (id : string)
  | CbStore (reason : string).

Record MaterializedArtifact := mkMaterialized {
  mat_content : string;
  mat_truncated : bool;
  mat_chunks_read : nat;
  mat_byte_count : N;
  mat_original_tokens : nat;
  mat_reduced_tokens : nat;
}.

(** [trait ArtifactRangeSource] *)
Class ArtifactRangeSource (S : Type) := {
  source_metadata : string → S → result ContextBuilderError (option ArtifactMeta);
  source_read_range : string → N → N → S → result ContextBuilderError string;
}.

Definition art_error_text (e : ArtifactError) : string :=
  match e with ArtIo e => io_text e | ArtConstraint => "UNIQUE constraint failed" end.

(** [impl ArtifactRangeSource for DurableArtifactStore] *)
#[export] Instance store_source {F} `{!WorkFiles F} (root : string)
    : ArtifactRangeSource (ArtWorld F) := {|
  source_metadata id w := Ok (artifact_metadata id w);
  source_read_range id start len w :=
    map_err (λ e, CbStore (art_error_text e)) (read_range root id start len w);
|}.

Definition ARTIFACT_CHUNK_SIZE : N := 32 * 1024.

(** ** Decoding

    The bytes up to a sequence that is cut off at their end, with U+FFFD for what
    is no UTF-8, and that cut off rest. *)
Fixpoint split_utf8_prefix (s : string) : string * string :=
  match s with
  | "" => ("", "")
  | String a s1 =>
      if in_range 0 127 a then let '(v, c) := split_utf8_prefix s1 in (String a v, c)
      else if in_range 194 223 a then
        match s1 with
        | "" => ("", s)
        | String b s2 =>
            if is_cont b then
              let '(v, c) := split_utf8_prefix s2 in (String a (String b v), c)
            else let '(v, c) := split_utf8_prefix s1 in ((replacement ++ v)%string, c)
        end
      else if in_range 224 239 a then
        match s1 with
        | "" => ("", s)
        | String b s2 =>
            if second_ok a b then
              match s2 with
              | "" => ("", s)
              | String c s3 =>
                  if is_cont c then
                    let '(v, r) := split_utf8_prefix s3 in (String a (String b (String c v)), r)
                  else let '(v, r) := split_utf8_prefix s2 in ((replacement ++ v)%string, r)
              end
            else let '(v, r) := split_utf8_prefix s1 in ((replacement ++ v)%string, r)
        end
      else if in_range 240 244 a then
        match s1 with
        | "" => ("", s)
        | String b s2 =>
            if second_ok a b then
              match s2 with
              | "" => ("", s)
              | String c s3 =>
                  if is_cont c then
                    match s3 with
                    | "" => ("", s)
                    | String d s4 =>
                        if is_cont d then
                          let '(v, r) := split_utf8_prefix s4 in
                          (String a (String b (String c (String d v))), r)
                        else let '(v, r) := split_utf8_prefix s3 in ((replacement ++ v)%string, r)
                    end
                  else let '(v, r) := split_utf8_prefix s2 in ((replacement ++ v)%string, r)
              end
            else let '(v, r) := split_utf8_prefix s1 in ((replacement ++ v)%string, r)
        end
      else let '(v, r) := split_utf8_prefix s1 in ((replacement ++ v)%string, r)
  end.

(** ** Materializing *)

Definition enforce_token_ceiling (text : string) (max_tokens : nat) : string * nat * bool :=
  let max_chars := max_tokens * 4 in
  if String.length text <=? max_chars then (text, estimate_tokens text, false)
  else
    let truncated := chars_take max_chars text in
    (truncated, estimate_tokens truncated `min` max_tokens, true).

(** The text gathered so far and what is known of it. *)
Record Assembled := mkAssembled {
  as_text : string;
  as_original_tokens : nat;
  as_truncated : bool;
}.

Section builder.
Context {S : Type} `{!ArtifactRangeSource S} (source : S) (budget_tokens : nat) (chunk_size : N).

Definition prompt_reducer : OutputReducer := mkOutputReducer budget_tokens None.

(** [push_str(&redact_text(..))] and the reduction after it *)
Definition assemble (chunk_text : string) (a : Assembled) : Assembled :=
  let assembled := (as_text a ++ redact_text chunk_text)%string in
  let reduced := reduce_output prompt_reducer assembled in
  if red_truncated reduced
  then mkAssembled (red_content reduced) (red_original_tokens reduced) true
  else mkAssembled assembled (red_original_tokens reduced) (as_truncated a).

(** The [while]; without fuel there is no result. *)
Fixpoint read_windows (fuel : nat) (id : string) (total offset : N) (chunks_read : nat)
    (carry : string) (a : Assembled)
    : option (result ContextBuilderError (nat * string * Assembled)) :=
  match fuel with
  | 0 => None
  | Datatypes.S fuel =>
      if (offset <? total)%N then
        let want := N.min chunk_size (total - offset) in
        match source_read_range id offset want source with
        | Err e => Some (Err e)
        | Ok bytes =>
            let chunks_read := Datatypes.S chunks_read in
            if is_empty bytes then Some (Ok (chunks_read, carry, a))
            else
              let '(valid, rest) := split_utf8_prefix (carry ++ bytes) in
              read_windows fuel id total (offset + N.of_nat (String.length bytes))%N chunks_read rest
                (assemble valid a)
        end
      else Some (Ok (chunks_read, carry, a))
  end.

Definition materialize (fuel : nat) (id : string)
    : option (result ContextBuilderError MaterializedArtifact) :=
  match source_metadata id source with
  | Err e => Some (Err e)
  | Ok None => Some (Err (MissingArtifact id))
  | Ok (Some meta) =>
      let total := meta_byte_count meta in
      match read_windows fuel id total 0 0 "" (mkAssembled "" 0 false) with
      | None => None
      | Some (Err e) => Some (Err e)
      | Some (Ok (chunks_read, carry, a)) =>
          let a := if is_empty carry then a else assemble (from_utf8_lossy carry) a in
          let final := reduce_output prompt_reducer (as_text a) in
          let '(content, reduced_tokens, hard_truncated) :=
            enforce_token_ceiling (red_content final) budget_tokens in
          Some (Ok (mkMaterialized content
            (as_truncated a || red_truncated final || hard_truncated) chunks_read total
            (red_original_tokens final `max` as_original_tokens a) reduced_tokens))
      end
  end.
End builder.

(** [with_chunk_size] *)
Definition with_chunk_size (chunk_size : N) : N := N.max chunk_size 1.

(** ** Decoding window by window *)

(** The text before the cut decodes the same whatever follows. *)
Definition splits (s : string) (x : string * string) : Prop :=
  utf8_valid x.1 = true ∧ String.length x.2 ≤ 3 ∧
  ∀ t, from_utf8_lossy (s ++ t) = (x.1 ++ from_utf8_lossy (x.2 ++ t))%string.

Lemma splits_all s : String.length s ≤ 3 → splits s ("", s).
Proof. intros Hs. unfold splits. by split_and!. Qed.

Lemma splits_replacement s rest x :
  (∀ t, from_utf8_lossy (s ++ t) = (replacement ++ from_utf8_lossy (rest ++ t))%string) →
  splits rest x → splits s (let '(v, c) := x in ((replacement ++ v)%string, c)).
Proof.
  destruct x as [v c]. unfold splits. cbn [fst snd]. intros Hs (Hv & Hc & Hr). split_and!; [by rewrite utf8_valid_replacement|done|].
  intros t. by rewrite Hs, Hr, str_app_assoc.
Qed.

Lemma splits_sequence p s rest x :
  utf8_valid p = true → (∀ t, from_utf8_lossy (s ++ t) = (p ++ from_utf8_lossy (rest ++ t))%string) →
  splits rest x → splits s (let '(v, c) := x in ((p ++ v)%string, c)).
Proof.
  destruct x as [v c]. unfold splits. cbn [fst snd]. intros Hp Hs (Hv & Hc & Hr).
  split_and!; [by rewrite utf8_valid_app|done|].
  intros t. by rewrite Hs, Hr, str_app_assoc.
Qed.

Ltac decode_step :=
  intros t; cbn [String.append from_utf8_lossy];
  repeat match goal with Hx : ?x = _ |- context [if ?x then _ else _] => rewrite Hx end;
  reflexivity.

Lemma split_utf8_splits s : splits s (split_utf8_prefix s).
Proof.
  enough (∀ n s, String.length s ≤ n → splits s (split_utf8_prefix s)) as Hall by by eapply Hall.
  clear s. intros n. induction n as [|n IH]; intros [|a s1] Hn; cbn in Hn;
    [apply splits_all; cbn; lia|lia|apply splits_all; cbn; lia|].
  cbn [split_utf8_prefix]. destruct (in_range 0 127 a) eqn:H1.
  { apply (splits_sequence (String a "") _ s1); [by rewrite utf8_valid_1|decode_step|]. apply IH. lia. }
  destruct (in_range 194 223 a) eqn:H2.
  { destruct s1 as [|b s2]; [apply splits_all; cbn; lia|]. cbn in Hn. destruct (is_cont b) eqn:Hb.
    - apply (splits_sequence (String a (String b "")) _ s2); [by rewrite utf8_valid_2, Hb|decode_step|].
      apply IH. lia.
    - apply (splits_replacement _ (String b s2)); [decode_step|]. apply IH. cbn. lia. }
  destruct (in_range 224 239 a) eqn:H3.
  { destruct s1 as [|b s2]; [apply splits_all; cbn; lia|]. cbn in Hn. destruct (second_ok a b) eqn:Hb.
    2: { apply (splits_replacement _ (String b s2)); [decode_step|]. apply IH. cbn. lia. }
    destruct s2 as [|c s3]; [apply splits_all; cbn; lia|]. cbn in Hn. destruct (is_cont c) eqn:Hc.
    - apply (splits_sequence (String a (String b (String c ""))) _ s3);
        [by rewrite utf8_valid_3, Hb, Hc|decode_step|]. apply IH. lia.
    - apply (splits_replacement _ (String c s3)); [decode_step|]. apply IH. cbn. lia. }
  destruct (in_range 240 244 a) eqn:H4.
  2: { apply (splits_replacement _ s1); [decode_step|]. apply IH. lia. }
  destruct s1 as [|b s2]; [apply splits_all; cbn; lia|]. cbn in Hn. destruct (second_ok a b) eqn:Hb.
  2: { apply (splits_replacement _ (String b s2)); [decode_step|]. apply IH. cbn. lia. }
  destruct s2 as [|c s3]; [apply splits_all; cbn; lia|]. cbn in Hn. destruct (is_cont c) eqn:Hc.
  2: { apply (splits_replacement _ (String c s3)); [decode_step|]. apply IH. cbn. lia. }
  destruct s3 as [|d s4]; [apply splits_all; cbn; lia|]. cbn in Hn. destruct (is_cont d) eqn:Hd.
  - apply (splits_sequence (String a (String b (String c (String d "")))) _ s4);
      [by rewrite utf8_valid_4, Hb, Hc, Hd|decode_step|]. apply IH. lia.
  - apply (splits_replacement _ (String d s4)); [decode_step|]. apply IH. cbn. lia.
Qed.

(** ** What a source of known contents gives *)

Lemma substring_split n k m s :
  String.substring n (k + m) s = (String.substring n k s ++ String.substring (n + k) m s)%string.
Proof.
  revert n k. induction s as [|a s IH]; intros [|n] k; cbn [String.substring Nat.add].
  - by destruct k, m.
  - by destruct k, m.
  - destruct k as [|k]; cbn [Nat.add String.append]; [done|].
    f_equal. rewrite (IH 0 k). done.
  - rewrite (IH n k). done.
Qed.

Lemma substring_length n k s :
  n + k ≤ String.length s → String.length (String.substring n k s) = k.
Proof.
  revert n k. induction s as [|a s IH]; intros n k Hle; cbn in Hle.
  - assert (n = 0) as -> by lia. by assert (k = 0) as -> by lia.
  - destruct n as [|n]; [|apply IH; lia]. destruct k as [|k]; [done|]. cbn. by rewrite IH by lia.
Qed.

Lemma substring_whole s : String.substring 0 (String.length s) s = s.
Proof. induction s as [|a s IH]; [done|]. cbn. by rewrite IH. Qed.

Lemma substring_zero n s : String.substring n 0 s = "".
Proof. revert n. induction s as [|a s IH]; intros [|n]; cbn; auto. Qed.

Lemma estimate_tokens_within s n : String.length s ≤ n * 4 → estimate_tokens s ≤ n.
Proof. unfold estimate_tokens. intros. apply Nat.lt_succ_r, Nat.Div0.div_lt_upper_bound. lia. Qed.

Lemma chars_count_length s : chars_count s ≤ String.length s.
Proof.
  induction s as [|a s IH]; [done|].
  etrans; [apply (chars_count_app (String a ""))|]. cbn in *. lia.
Qed.

(** The ceiling holds, and text below it is kept. *)
Lemma ceiling_bounds text max :
  let '(content, tokens, cut) := enforce_token_ceiling text max in
  chars_count content ≤ max * 4 ∧ tokens ≤ max ∧ (cut = false → content = text).
Proof.
  unfold enforce_token_ceiling. destruct (Nat.leb_spec (String.length text) (max * 4)).
  - split_and!; [|by apply estimate_tokens_within|done]. etrans; [apply chars_count_length|done].
  - split_and!; [apply chars_take_count|lia|done].
Qed.

Section known.
Context {S : Type} `{!ArtifactRangeSource S} (source : S) (budget_tokens : nat) (chunk_size : N).
Context (id bytes : string) (meta : ArtifactMeta).

(** The artifact's contents are [bytes], in the catalog and by ranges. *)
Definition holds : Prop :=
  source_metadata id source = Ok (Some meta) ∧
  meta_byte_count meta = N.of_nat (String.length bytes) ∧
  ∀ start len, start + len ≤ String.length bytes →
    source_read_range id (N.of_nat start) (N.of_nat len) source = Ok (String.substring start len bytes).

Context (Hholds : holds) (Hchunk : (0 < chunk_size)%N).

Abbreviation windows := (read_windows source budget_tokens chunk_size).

(** The text gathered is the filtered text of pieces, as long as nothing was cut. *)
Definition gathered (pieces : list string) (a a' : Assembled) : Prop :=
  as_truncated a' = false →
  as_truncated a = false ∧ as_text a' = (as_text a ++ concat_str (redact_text <$> pieces))%string.

Lemma assemble_gathers piece a : gathered [piece] a (assemble budget_tokens piece a).
Proof.
  unfold gathered, assemble.
  pose proof (reduce_truncated (prompt_reducer budget_tokens) (as_text a ++ redact_text piece)) as Ht.
  destruct (red_truncated _); cbn; [done|]. intros ->. split; [done|]. by rewrite str_app_nil_r.
Qed.

Lemma gathered_trans p1 p2 a1 a2 a3 :
  gathered p1 a1 a2 → gathered p2 a2 a3 → gathered (p1 ++ p2) a1 a3.
Proof.
  intros H1 H2 Ht. destruct (H2 Ht) as [Ht2 ->]. destruct (H1 Ht2) as [Ht1 ->]. split; [done|].
  by rewrite fmap_app, concat_str_app, str_app_assoc.
Qed.

Definition window_count (left : N) : nat := N.to_nat ((left + chunk_size - 1) / chunk_size).

Lemma read_windows_spec fuel offset chunks carry a :
  offset ≤ String.length bytes → String.length bytes - offset < fuel →
  ∃ carry' a' pieces,
    windows fuel id (N.of_nat (String.length bytes)) (N.of_nat offset) chunks carry a
      = Some (Ok (chunks + window_count (N.of_nat (String.length bytes - offset)), carry', a')) ∧
    gathered pieces a a' ∧
    ∀ t, from_utf8_lossy (carry ++ String.substring offset (String.length bytes - offset) bytes ++ t)
         = (concat_str pieces ++ from_utf8_lossy (carry' ++ t))%string.
Proof using All.
  destruct Hholds as (_ & _ & Hrange).
  revert offset chunks carry a. induction fuel as [|fuel IH]; intros offset chunks carry a Hle Hf; [lia|].
  cbn [read_windows]. destruct (N.ltb_spec (N.of_nat offset) (N.of_nat (String.length bytes))) as [Hlt|Hge].
  2: { exists carry, a, []. assert (String.length bytes - offset = 0) as -> by lia. split_and!.
       - unfold window_count. rewrite N.div_small by lia. by rewrite Nat.add_0_r.
       - by split; [|rewrite str_app_nil_r].
       - intros t. by rewrite substring_zero. }
  set (left := String.length bytes - offset) in *.
  set (want := Nat.min (N.to_nat chunk_size) left).
  assert (N.min chunk_size (N.of_nat (String.length bytes) - N.of_nat offset) = N.of_nat want) as -> by lia.
  rewrite Hrange by lia. set (window := String.substring offset want bytes).
  assert (String.length window = want) as Hlen by (apply substring_length; lia).
  assert (is_empty window = false) as ->.
  { destruct window; [cbn in Hlen; lia|done]. }
  pose proof (split_utf8_splits (carry ++ window)) as (Hvalid & _ & Hsplit).
  destruct (split_utf8_prefix (carry ++ window)) as [valid rest] eqn:Hs. cbn [fst snd] in *.
  rewrite Hlen. replace (N.of_nat offset + N.of_nat want)%N with (N.of_nat (offset + want)) by lia.
  destruct (IH (offset + want) (Datatypes.S chunks) rest (assemble budget_tokens valid a))
    as (carry' & a' & pieces & Hw & Hg & Hd); [lia..|].
  exists carry', a', (valid :: pieces). split_and!.
  - rewrite Hw. do 4 f_equal. unfold window_count.
    replace (N.of_nat left) with (N.of_nat want + N.of_nat (String.length bytes - (offset + want)))%N by lia.
    destruct (decide (N.of_nat want = chunk_size)) as [Hfull|].
    + rewrite Hfull. replace (chunk_size + _ + chunk_size - 1)%N
        with (N.of_nat (String.length bytes - (offset + want)) + chunk_size - 1 + 1 * chunk_size)%N by lia.
      rewrite N.div_add by lia. lia.
    + replace (String.length bytes - (offset + want)) with 0 by lia. cbn [N.of_nat].
      rewrite N.add_0_l, N.add_0_r, (N.div_small (chunk_size - 1)) by lia.
      replace (N.of_nat want + chunk_size - 1)%N with (N.of_nat want - 1 + 1 * chunk_size)%N by lia.
      rewrite N.div_add, N.div_small by lia. cbn. lia.
  - apply (gathered_trans [valid] pieces _ (assemble budget_tokens valid a)); [apply assemble_gathers|done].
  - intros t. replace left with (want + (String.length bytes - (offset + want))) by lia.
    rewrite substring_split. fold window.
    rewrite str_app_assoc, <-(str_app_assoc carry), Hsplit, Hd. cbn [concat_str].
    by rewrite str_app_assoc.
Qed.

(** An artifact is materialized in a bounded number of windows, the contents
    divided by the window size and rounded up, with any fuel above its length; what
    goes into the prompt is, unless marked truncated, the filtered text of pieces
    that make up its UTF-8 decoding whatever sequence a window cuts; it never has
    more characters than four times the token budget, nor reports more tokens than
    the budget. *)
Theorem materialize_exact fuel :
  String.length bytes < fuel →
  ∃ m pieces, materialize source budget_tokens chunk_size fuel id = Some (Ok m) ∧
    mat_chunks_read m = window_count (N.of_nat (String.length bytes)) ∧
    concat_str pieces = from_utf8_lossy bytes ∧
    (mat_truncated m = false → mat_content m = concat_str (redact_text <$> pieces)) ∧
    chars_count (mat_content m) ≤ budget_tokens * 4 ∧ mat_reduced_tokens m ≤ budget_tokens.
Proof using All.
  intros Hf. destruct Hholds as (Hmeta & Hcount & _).
  destruct (read_windows_spec fuel 0 0 "" (mkAssembled "" 0 false)) as (carry & a & pieces & Hw & Hg & Hd);
    [lia..|]. change (N.of_nat 0) with 0%N in Hw. rewrite Nat.sub_0_r in Hw, Hd.
  rewrite substring_whole in Hd. cbn [String.append] in Hd.
  unfold materialize. rewrite Hmeta, Hcount, Hw. cbn [Nat.add].
  set (pieces' := if is_empty carry then pieces else pieces ++ [from_utf8_lossy carry]).
  set (a' := if is_empty carry then a else assemble budget_tokens (from_utf8_lossy carry) a).
  assert (gathered pieces' (mkAssembled "" 0 false) a') as Hg'.
  { unfold pieces', a'. destruct (is_empty carry); [done|].
    eapply gathered_trans; [done|apply assemble_gathers]. }
  assert (concat_str pieces' = from_utf8_lossy bytes) as Hp.
  { specialize (Hd ""). rewrite !str_app_nil_r in Hd. rewrite Hd. unfold pieces'.
    destruct carry as [|x carry]; [by rewrite str_app_nil_r|].
    cbn [is_empty String.eqb]. rewrite concat_str_app. cbn [concat_str]. by rewrite str_app_nil_r. }
  pose proof (reduce_truncated (prompt_reducer budget_tokens) (as_text a')) as Hrt.
  pose proof (ceiling_bounds (red_content (reduce_output (prompt_reducer budget_tokens) (as_text a')))
    budget_tokens) as Hc.
  destruct (enforce_token_ceiling _ _) as [[content tokens] hard]. destruct Hc as (Hchars & Htok & Hsame).
  eexists _, pieces'. split; [done|]. cbn. split_and!; [done|done| |done|done].
  intros [[Hta Htr]%orb_false_iff Hth]%orb_false_iff. rewrite (Hsame Hth), reduced_same by done.
  by destruct (Hg' Hta) as [_ ->].
Qed.
End known.

(** The durable store is such a source, for what reads back. *)
Lemma durable_store_holds {F} `{!WorkFiles F} root (w : ArtWorld F) id bytes meta :
  artifact_metadata id w = Some meta → meta_byte_count meta = N.of_nat (String.length bytes) →
  artifact_read root id w = Ok bytes → (N.of_nat (String.length bytes) ≤ u64_max)%N →
  holds (ArtifactRangeSource0 := store_source root) w id bytes meta.
Proof.
  intros Hm Hc Hr Hu. split; [cbn; by rewrite Hm|]. split; [done|]. intros start len Hle.
  cbn. unfold read_range. rewrite Hr. cbn. rewrite byte_range_exact by lia.
  do 2 f_equal; lia.
Qed.

(** ** A secret on the border of two windows

    Each window is filtered by itself, so a value whose key is in the window before
    it is shown. *)
Section sample.
#[local] Existing Instance sample_codec.

Definition kept (bytes : string) : ArtWorld Demo.Fs :=
  (artifact_store "/store" 7 bytes empty_store).1.

Definition kept_id (bytes : string) : string := compute_sha256 bytes.

Definition in_prompt (chunk : N) (bytes : string) : option (result ContextBuilderError MaterializedArtifact) :=
  materialize (ArtifactRangeSource0 := store_source "/store") (kept bytes) 100 chunk
    (Datatypes.S (String.length bytes)) (kept_id bytes).

Definition shown (chunk : N) (bytes : string) : option string :=
  match in_prompt chunk bytes with Some (Ok m) => Some (mat_content m) | _ => None end.

Example secret_across_windows :
  shown 100 "password=hunter2 next" = Some "password=[REDACTED]" ∧
  shown 9 "password=hunter2 next" = Some "password=[REDACTED]hunter2 next".
Proof. vm_compute. done. Qed.

Definition log_meta : ArtifactMeta := mkArtifactMeta "6c6f67" "6c6f67" 3 7 None.

Lemma materialize_witness :
  ∃ m pieces, in_prompt 2 "log" = Some (Ok m) ∧ mat_chunks_read m = 2 ∧
    concat_str pieces = from_utf8_lossy "log" ∧
    (mat_truncated m = false → mat_content m = concat_str (redact_text <$> pieces)) ∧
    chars_count (mat_content m) ≤ 400 ∧ mat_reduced_tokens m ≤ 100.
Proof.
  apply (materialize_exact (ArtifactRangeSource0 := store_source "/store") (kept "log") 100 2
    (kept_id "log") "log" log_meta); [|done|cbn; lia].
  by apply durable_store_holds.
Defined.
End sample.
