(* ===== verification/ReadOnlyTools.v ===== *)
(** * Read-only workspace tools

    [crates/impetus-core/src/tools.rs]: listing, reading and searching a
    directory for the model through the effect seam, with filtered, reduced and
    bounded output, and the write of an approved file.  Workspace and artifact
    store are parts of one file system; the tools run on [ArtWorld]. *)

From S2P Require Import Prelude TreeWalk Str Utf8 Redact Action PathScope WebSecurity Policy Effect.
From S2P Require Import RiskGate Effects Events WorkspaceFiles Artifacts OutputReducer.

Open Scope string_scope.
Open Scope nat_scope.
Open Scope list_scope.
Open Scope impetus_scope.

(** ** Definitions *)

Definition MAX_TOOL_PREVIEW_BYTES : nat := 16 * 1024.
Definition MAX_SEARCH_FILES : nat := 200.
Definition MAX_FILE_READ_BYTES : nat := Z.to_nat 2097152.
Definition MAX_TOOL_CAPTURE_BYTES : nat := Z.to_nat 2097152.

Inductive ReadOnlyToolKind := KindList | KindRead | KindSearch.

Inductive ReadOnlyTool :=
  | ToolList (target : string)
  | ToolRead (target : string)
  | ToolSearch (target pattern : string).

Definition tool_kind (t : ReadOnlyTool) : ReadOnlyToolKind :=
  match t with
  | ToolList _ => KindList
  | ToolRead _ => KindRead
  | ToolSearch _ _ => KindSearch
  end.

Definition tool_target (t : ReadOnlyTool) : string :=
  match t with ToolList d | ToolRead d | ToolSearch d _ => d end.

(** [to_string_lossy] *)
Definition target_string (t : ReadOnlyTool) : string := from_utf8_lossy (tool_target t).

Record ToolProvenance := mkToolProvenance {
  prov_workspace_root : string;
  prov_relative_path : string;
  prov_in_scope : bool;
}.

Record ToolResult := mkToolResult {
  tr_tool : ReadOnlyToolKind;
  tr_provenance : ToolProvenance;
  tr_preview : string;
  tr_truncated : bool;
  tr_artifact : option ArtifactRef;
  tr_line_count : nat;
  tr_byte_count : nat;
  tr_original_tokens : nat;
  tr_reduced_tokens : nat;
}.

Inductive ToolOutcome :=
  | ToolAllowed (result : ToolResult)
  | ToolDenied (reason target : string).

(** [ToolNoFuel] is not an error of the code: it stands for a search that has not
    ended within the fuel of the model. *)
Inductive ToolError :=
  | ToolIo (what : string)
  | ToolArtifact (what : string)
  | ToolNoFuel.

Definition tool_io (e : IoError) : ToolError := ToolIo (io_text e).

(** The text of the error of a store. *)
Definition artifact_error_text (e : ArtifactError) : string :=
  match e with ArtIo e => io_text e | ArtConstraint => "UNIQUE constraint failed" end.

Definition is_hidden (name : string) : bool :=
  String.eqb name ".git" || String.eqb name "target" || starts_with name ".".

Section tools.
Context {F : Type} `{!WorkFiles F}.
(** [str::to_lowercase], and the installed RTK reducer. *)
Context (to_lowercase : string → string) (rtk : option Rtk).

Definition write_file_in_scope (workspace_root target content : string) : stateR F ToolError () :=
  f <-- StateR.get ;;
  root <-- StateR.lift (map_err tool_io (wf_canonicalize f workspace_root)) ;;
  let target := if is_absolute target then target else path_join root target in
  dir <-- StateR.lift (ok_or (PathScope.parent target) (ToolIo "write target has no parent")) ;;
  parent <-- StateR.lift (map_err tool_io (wf_canonicalize f dir)) ;;
  if negb (path_starts_with parent root)
  then StateR.fail (ToolIo "write target is outside workspace scope")
  else λ f, let '(f', r) := wf_write target content f in (f', map_err tool_io r).

(** [ReadOnlyTools { root }] is the root. *)
Definition resolve_in_scope (root target : string) (f : F) : option string :=
  let candidate := if is_absolute target then target else path_join root target in
  match wf_canonicalize f root, wf_canonicalize f candidate with
  | Ok root, Ok resolved => if path_starts_with resolved root then Some resolved else None
  | _, _ => None
  end.

Definition normalize_read_only (t : ReadOnlyTool) (origin : ActionOrigin) : NormalizedEffect :=
  workspace_read origin
    match tool_kind t with
    | KindList => "list workspace directory"
    | KindRead => "read workspace file"
    | KindSearch => "search content"
    end (target_string t).

(** *** Listing *)

(** The [while] over the entries. *)
Fixpoint collect_entries (read : list (result IoError DirEntry)) (captured : nat)
    (entries : list string) : result ToolError (list string) :=
  match read with
  | [] => Ok entries
  | r :: read' =>
      entry ← map_err tool_io r;
      kind ← map_err tool_io (de_type entry);
      let rendered := (from_utf8_lossy (de_name entry) ++ (if ft_is_dir kind then "/" else ""))%string in
      let captured := captured + (String.length rendered + 1) in
      if MAX_TOOL_CAPTURE_BYTES <? captured
      then Ok (entries ++ ["... listing truncated at output limit"])
      else collect_entries read' captured (entries ++ [rendered])
  end.

Definition list_dir (path : string) (f : F) : result ToolError string :=
  read ← map_err tool_io (wf_read_dir f path);
  entries ← collect_entries read 0 [];
  Ok (join nl (merge_sort String.le entries)).

(** *** Reading *)

Definition read_file (path : string) (f : F) : result ToolError string :=
  meta ← map_err tool_io (wf_metadata f path);
  file ← map_err tool_io (wf_read f path);
  let output := from_utf8_lossy (str_prefix MAX_FILE_READ_BYTES file) in
  Ok (if (N.of_nat MAX_FILE_READ_BYTES <? md_len meta)%N
      then (output ++ nl ++ "... file truncated at read limit")%string else output).

(** *** Searching *)

Record ToolSearchState := mkToolSearchState {
  ts_matches : list string;
  ts_captured : nat;
  ts_scanned : nat;
  ts_stack : list string;
}.

(** What one step of a loop does: go on, or return the matches so far. *)
Inductive SearchFlow :=
  | SearchGo (st : ToolSearchState)
  | SearchReturn (matches : list string).

Definition stopped_line : string :=
  ("... search stopped after " ++ dec (N.of_nat MAX_SEARCH_FILES) ++ " files")%string.

(** The path of a hit, relative to the searched directory. *)
Definition hit_display (root path : string) : string :=
  from_utf8_lossy (default path (path_strip_prefix path root)).

(** The [for] over the lines of a file. *)
Fixpoint match_lines (root path needle : string) (line_no : nat) (text : list string)
    (st : ToolSearchState) : SearchFlow :=
  match text with
  | [] => SearchGo st
  | line :: text' =>
      if contains (to_lowercase line) needle then
        let rendered := (hit_display root path ++ ":" ++ dec (N.of_nat (line_no + 1)) ++ ": "
                         ++ line)%string in
        let captured := ts_captured st + (String.length rendered + 1) in
        if MAX_TOOL_CAPTURE_BYTES <? captured
        then SearchReturn (ts_matches st ++ ["... search truncated at output limit"])
        else match_lines root path needle (line_no + 1) text'
               (mkToolSearchState (ts_matches st ++ [rendered]) captured (ts_scanned st)
                  (ts_stack st))
      else match_lines root path needle (line_no + 1) text' st
  end.

(** [scanned += 1] and what follows for a file. *)
Definition scan_search_file (root path needle : string) (f : F) (st : ToolSearchState)
    : SearchFlow :=
  let st := mkToolSearchState (ts_matches st) (ts_captured st) (S (ts_scanned st)) (ts_stack st) in
  let file_size := match wf_metadata f path with Ok m => md_len m | Err _ => 0%N end in
  if (file_size <=? N.of_nat MAX_FILE_READ_BYTES)%N then
    match wf_read f path with
    | Err _ => SearchGo st
    | Ok file =>
        match_lines root path needle 0
          (lines (from_utf8_lossy (str_prefix MAX_FILE_READ_BYTES file))) st
    end
  else SearchGo st.

(** The [while] over the entries of a directory. *)
Fixpoint search_dir (root needle dir : string) (f : F) (read : list (result IoError DirEntry))
    (st : ToolSearchState) : result ToolError SearchFlow :=
  match read with
  | [] => Ok (SearchGo st)
  | r :: read' =>
      entry ← map_err tool_io r;
      if is_hidden (from_utf8_lossy (de_name entry)) then search_dir root needle dir f read' st
      else match de_type entry with
      | Err _ => search_dir root needle dir f read' st
      | Ok ft =>
          let path := path_join dir (de_name entry) in
          if ft_is_dir ft then
            search_dir root needle dir f read'
              (mkToolSearchState (ts_matches st) (ts_captured st) (ts_scanned st)
                 (path :: ts_stack st))
          else if ft_is_file ft then
            if MAX_SEARCH_FILES <=? ts_scanned st
            then Ok (SearchReturn (ts_matches st ++ [stopped_line]))
            else match scan_search_file root path needle f st with
            | SearchGo st' => search_dir root needle dir f read' st'
            | SearchReturn m => Ok (SearchReturn m)
            end
          else search_dir root needle dir f read' st
      end
  end.

Definition search_text_of (matches : list string) : string :=
  join nl (match matches with [] => ["(no matches)"] | _ => matches end).

(** The [while] over the stack; [None] when the fuel runs out. *)
Fixpoint tool_search_loop (fuel : nat) (root needle : string) (f : F) (st : ToolSearchState)
    : option (result ToolError string) :=
  match fuel with
  | 0 => None
  | S fuel' =>
      match ts_stack st with
      | [] => Some (Ok (search_text_of (ts_matches st)))
      | dir :: stack =>
          if MAX_SEARCH_FILES <=? ts_scanned st
          then Some (Ok (search_text_of (ts_matches st ++ [stopped_line])))
          else
            let st := mkToolSearchState (ts_matches st) (ts_captured st) (ts_scanned st) stack in
            match wf_read_dir f dir with
            | Err _ => tool_search_loop fuel' root needle f st
            | Ok read =>
                match search_dir root needle dir f read st with
                | Err e => Some (Err e)
                | Ok (SearchReturn m) => Some (Ok (join nl m))
                | Ok (SearchGo st') => tool_search_loop fuel' root needle f st'
                end
            end
      end
  end.

Definition tool_search (fuel : nat) (root pattern : string) (f : F)
    : option (result ToolError string) :=
  tool_search_loop fuel root (to_lowercase pattern) f (mkToolSearchState [] 0 0 [root]).

(** *** Through the seam *)

Context `{Codec} `{!FileChanges F}.
(** The root of the artifact store, and the clock of a stored artifact. *)
Context (artifact_root : string) (now : N).

Definition tool_text (fuel : nat) (t : ReadOnlyTool) (resolved : string) (f : F)
    : result ToolError string :=
  match t with
  | ToolList _ => list_dir resolved f
  | ToolRead _ => read_file resolved f
  | ToolSearch _ pattern => default (Err ToolNoFuel) (tool_search fuel resolved pattern f)
  end.

(** [OutputReducer::default()] *)
Definition tool_reducer : OutputReducer := mkOutputReducer DEFAULT_MAX_TOKENS rtk.

(** From the text of the tool on. *)
Definition finish_tool (root relative : string) (t : ReadOnlyTool) (text : string)
    : stateR (ArtWorld F) ToolError ToolOutcome :=
  let full := redact_text text in
  let reduced := reduce_output tool_reducer full in
  let truncated := (MAX_TOOL_PREVIEW_BYTES <? String.length full) || red_truncated reduced in
  artifact <-- (if truncated then λ w,
                  let '(w', r) := artifact_store artifact_root now full w in
                  (w', map_err (λ e, ToolArtifact (artifact_error_text e)) (Some <$> r))
                else StateR.ret None) ;;
  StateR.ret (ToolAllowed (mkToolResult (tool_kind t) (mkToolProvenance root relative true)
    (red_content reduced) truncated artifact (length (lines full)) (String.length full)
    (red_original_tokens reduced) (red_reduced_tokens reduced))).

(** [resolved.strip_prefix(root)] *)
Definition relative_to (canon resolved : string) : string :=
  match path_strip_prefix resolved canon with Some p => p | None => "." end.

Definition execute_capability (fuel : nat) (root : string) (t : ReadOnlyTool)
    : stateR (ArtWorld F) ToolError ToolOutcome :=
  w <-- StateR.get ;;
  let f := aw_files w in
  match resolve_in_scope root (tool_target t) f with
  | None =>
      StateR.ret (ToolDenied "target is missing or outside the workspace scope" (target_string t))
  | Some resolved =>
      canon <-- StateR.lift (map_err tool_io (wf_canonicalize f root)) ;;
      text <-- StateR.lift (tool_text fuel t resolved f) ;;
      finish_tool root (relative_to canon resolved) t text
  end.

Context `{FileSystem} `{UrlCrate}.

Definition effect_target (e : NormalizedEffect) : string :=
  default "" (Action.target (effect_action e)).

Definition run_with_seam (fuel : nat) (h : PolicyHeap) (s : EffectSeam) (root : string)
    (t : ReadOnlyTool) (origin : ActionOrigin) : stateR (ArtWorld F) ToolError ToolOutcome :=
  let effect := normalize_read_only t origin in
  outcome <-- execute h s effect (execute_capability fuel root t) ;;
  StateR.ret match outcome with
  | Exec_Executed outcome => outcome
  | Exec_Denied reason => ToolDenied reason (effect_target effect)
  | Exec_NeedsApproval _ =>
      ToolDenied "read-only tool needs an approval that is not granted in read-only scope"
        (effect_target effect)
  end.
End tools.

(** ** Confinement *)

#[local] Opaque MAX_TOOL_CAPTURE_BYTES MAX_FILE_READ_BYTES MAX_SEARCH_FILES.

Section confined.
Context {F : Type} `{!WorkFiles F} `{!WorkFilesLaws F} (to_lowercase : string → string).

(** What lies at a path or below it: entries of directories all the way, none of
    them a symbolic link. *)
Inductive below (f : F) (start : string) : string → Prop :=
  | below_start : below f start start
  | below_entry dir read e ft :
      below f start dir → wf_read_dir f dir = Ok read → Ok e ∈ read →
      de_type e = Ok ft → ft_is_symlink ft = false → below f start (path_join dir (de_name e)).

(** [f'] shows what [f] has at a path and below it; what links lead to may differ. *)
Definition agree (start : string) (f f' : F) : Prop :=
  ∀ p, below f start p →
    wf_metadata f p = wf_metadata f' p ∧ wf_read f p = wf_read f' p ∧
    wf_read_dir f p = wf_read_dir f' p.

Lemma below_inside canon f start p : inside canon start → below f start p → inside canon p.
Proof.
  intros Hs. induction 1 as [|dir read e ft _ IH Hread He _ _]; [done|].
  apply inside_join; [done|]. by eapply wf_read_dir_plain.
Qed.

Lemma resolve_in_scope_inside root target f p :
  resolve_in_scope root target f = Some p →
  ∃ canon, wf_canonicalize f root = Ok canon ∧ inside canon p.
Proof.
  unfold resolve_in_scope. destruct (wf_canonicalize f root) as [canon|]; [|done].
  destruct (wf_canonicalize f _) as [q|] eqn:Hq; [|done].
  destruct (path_starts_with q canon) eqn:Hin; [|done]. intros [= <-].
  exists canon. split; [done|]. split; [done|]. by eapply wf_canonicalize_clean.
Qed.

Section below.
Context (start root needle : string) (f f' : F) (Hagree : agree start f f').

Lemma scan_search_file_agree path st :
  below f start path →
  scan_search_file to_lowercase root path needle f st
  = scan_search_file to_lowercase root path needle f' st.
Proof.
  intros Hp. destruct (Hagree path Hp) as (Hm & Hr & _). unfold scan_search_file.
  by rewrite Hm, Hr.
Qed.

Lemma match_lines_stack path k text st st' :
  match_lines to_lowercase root path needle k text st = SearchGo st' → ts_stack st' = ts_stack st.
Proof.
  revert k st. induction text as [|line text IH]; intros k st; cbn; [by intros [= <-]|].
  destruct (contains _ _); [|apply IH]. case_match; [done|]. intros E. by apply IH in E.
Qed.

Lemma scan_search_file_stack path st st' :
  scan_search_file to_lowercase root path needle f st = SearchGo st' → ts_stack st' = ts_stack st.
Proof.
  unfold scan_search_file. case_match; [|by intros [= <-]].
  destruct (wf_read f path); [|by intros [= <-]]. by intros ->%match_lines_stack.
Qed.

(** One directory reads the same in both, and pushes only its own subdirectories. *)
Lemma search_dir_agree dir all read st :
  below f start dir → wf_read_dir f dir = Ok all → read ⊆ all →
  search_dir to_lowercase root needle dir f read st
    = search_dir to_lowercase root needle dir f' read st ∧
  ∀ st', search_dir to_lowercase root needle dir f read st = Ok (SearchGo st') →
    (∀ d, d ∈ ts_stack st → below f start d) → ∀ d, d ∈ ts_stack st' → below f start d.
Proof using All.
  intros Hdir Hall. revert st. induction read as [|[e|err] read IH]; intros st Hsub; cbn.
  - split; [done|]. by intros st' [= <-].
  - assert (Ok e ∈ all) as He by (apply Hsub; by left).
    assert (read ⊆ all) as Hsub' by set_solver.
    destruct (is_hidden _); [by apply IH|]. destruct (de_type e) as [ft|] eqn:Hft; [|by apply IH].
    destruct (ft_is_dir ft) eqn:Hd.
    { destruct (IH (mkToolSearchState (ts_matches st) (ts_captured st) (ts_scanned st)
                      (path_join dir (de_name e) :: ts_stack st)) Hsub') as [Heq Hst].
      split; [exact Heq|]. intros st' E Hs. apply (Hst _ E).
      intros d [->|Hin]%elem_of_cons; [|auto].
      eapply below_entry; [exact Hdir|exact Hall|exact He|exact Hft|by destruct ft]. }
    destruct (ft_is_file ft) eqn:Hfile; [|by apply IH]. case_match; [done|].
    assert (below f start (path_join dir (de_name e))) as Hpath.
    { eapply below_entry; [exact Hdir|exact Hall|exact He|exact Hft|by destruct ft]. }
    rewrite <-(scan_search_file_agree _ _ Hpath).
    destruct (scan_search_file _ _ _ _ _ _) as [st1|m] eqn:Hscan; [|done].
    destruct (IH st1 Hsub') as [Heq Hst]. split; [exact Heq|]. intros st' E Hs.
    apply (Hst _ E). by rewrite (scan_search_file_stack _ _ _ Hscan).
  - done.
Qed.

Lemma tool_search_loop_agree fuel st :
  (∀ d, d ∈ ts_stack st → below f start d) →
  tool_search_loop to_lowercase fuel root needle f st
  = tool_search_loop to_lowercase fuel root needle f' st.
Proof using All.
  revert st. induction fuel as [|fuel IH]; intros st Hs; [done|]. cbn.
  destruct (ts_stack st) as [|dir stack] eqn:Hst; [done|].
  case_match; [done|]. assert (below f start dir) as Hdir by (apply Hs; by left).
  destruct (Hagree dir Hdir) as (_ & _ & Hread). rewrite <-Hread.
  destruct (wf_read_dir f dir) as [read|] eqn:Hr; [|apply IH; cbn; set_solver].
  destruct (search_dir_agree dir read read
    (mkToolSearchState (ts_matches st) (ts_captured st) (ts_scanned st) stack) Hdir Hr)
    as [<- Hnew]; [done|].
  destruct (search_dir _ _ _ _ _ _ _) as [[st'|m]|e]; [|done..].
  apply IH. apply (Hnew st' eq_refl). cbn. set_solver.
Qed.
End below.

(** The text of a tool depends on nothing but what is at its target and below it. *)
Lemma tool_text_agree resolved t fuel f f' :
  agree resolved f f' →
  tool_text to_lowercase fuel t resolved f = tool_text to_lowercase fuel t resolved f'.
Proof.
  intros Hagree. destruct (Hagree resolved (below_start _ _)) as (Hm & Hr & Hd).
  destruct t as [d|d|d pattern]; cbn.
  - unfold list_dir. by rewrite Hd.
  - unfold read_file. by rewrite Hm, Hr.
  - unfold tool_search. f_equal. apply (tool_search_loop_agree resolved); [done|].
    intros x ->%list_elem_of_singleton. constructor.
Qed.
End confined.

(** ** Termination *)

Section ends.
Context {F : Type} `{!WorkFiles F} (to_lowercase : string → string) (f : F).

(** The directories an entry list sends the search to: links are not followed. *)
Definition entry_subdir (dir : string) (r : result IoError DirEntry) : option string :=
  match r with
  | Ok e =>
      if is_hidden (from_utf8_lossy (de_name e)) then None
      else match de_type e with
      | Ok ft => if ft_is_dir ft then Some (path_join dir (de_name e)) else None
      | Err _ => None
      end
  | Err _ => None
  end.

Definition entry_subdirs (dir : string) (read : list (result IoError DirEntry)) : list string :=
  omap (entry_subdir dir) read.

Lemma entry_subdirs_cons dir r read :
  entry_subdirs dir (r :: read) =
  match entry_subdir dir r with Some d => d :: entry_subdirs dir read | None => entry_subdirs dir read end.
Proof. reflexivity. Qed.

Definition tool_subdirs (dir : string) : list string :=
  match wf_read_dir f dir with Ok read => entry_subdirs dir read | Err _ => [] end.

Lemma search_dir_stack root needle dir read st st' :
  search_dir to_lowercase root needle dir f read st = Ok (SearchGo st') →
  ts_stack st' = reverse (entry_subdirs dir read) ++ ts_stack st.
Proof.
  revert st. induction read as [|[e|err] read IH]; intros st; cbn [search_dir];
    [by intros [= <-]| |done].
  rewrite entry_subdirs_cons. cbn [map_err mbind result_bind entry_subdir].
  destruct (is_hidden _); [apply IH|]. destruct (de_type e) as [ft|]; [|apply IH].
  destruct (ft_is_dir ft).
  { intros E. apply IH in E. by rewrite E, reverse_cons, <-app_assoc. }
  destruct (ft_is_file ft); [|apply IH]. case_match; [done|].
  destruct (scan_search_file _ _ _ _ _ _) as [st1|m] eqn:Hs; [|done].
  intros E. apply IH in E. by rewrite E, (scan_search_file_stack _ _ _ _ _ _ _ Hs).
Qed.

Lemma tool_search_loop_ends root needle start rank fuel st :
  (∀ d c, rtc (λ d c, c ∈ tool_subdirs d) start d → c ∈ tool_subdirs d → rank c < rank d) →
  (∀ d, d ∈ ts_stack st → rtc (λ d c, c ∈ tool_subdirs d) start d) →
  stack_size tool_subdirs rank (ts_stack st) < fuel →
  is_Some (tool_search_loop to_lowercase fuel root needle f st).
Proof.
  intros Hrank. revert st. induction fuel as [|fuel IH]; intros st Hreach Hfuel; [lia|]. cbn.
  destruct (ts_stack st) as [|dir stack] eqn:Hst; [done|]. rewrite stack_size_cons in Hfuel.
  case_match; [done|]. assert (rtc (λ d c, c ∈ tool_subdirs d) start dir) as Hdir by set_solver.
  pose proof (tree_size_children _ start rank Hrank dir Hdir) as Hw.
  destruct (wf_read_dir f dir) as [read|] eqn:Hr.
  2: { apply IH; cbn [ts_stack]; [set_solver|lia]. }
  assert (tool_subdirs dir = entry_subdirs dir read) as Hsub by (unfold tool_subdirs; by rewrite Hr).
  destruct (search_dir _ _ _ _ _ _ _) as [[st'|m]|e] eqn:Hd; [|done..].
  apply search_dir_stack in Hd. cbn [ts_stack] in Hd. rewrite <-Hsub in Hd. apply IH; rewrite Hd.
  - intros d [Hin|Hin]%elem_of_app; [|apply Hreach; by right].
    rewrite elem_of_reverse in Hin. eapply rtc_r; [exact Hdir|exact Hin].
  - rewrite stack_size_app, stack_size_reverse. lia.
Qed.

(** The search ends when no directory below its start leads back to itself. *)
Lemma tool_search_ends root pattern rank :
  (∀ d c, rtc (λ d c, c ∈ tool_subdirs d) root d → c ∈ tool_subdirs d → rank c < rank d) →
  is_Some (tool_search to_lowercase (S (tree_size tool_subdirs (rank root) root)) root pattern f).
Proof.
  intros Hrank. apply (tool_search_loop_ends _ _ root rank); [done| |].
  - intros d ->%list_elem_of_singleton. done.
  - cbn [ts_stack]. unfold stack_size. cbn. lia.
Qed.
End ends.

(** ** Through the seam *)

Section seam.
Context {F : Type} `{!WorkFiles F} `{!WorkFilesLaws F} `{!FileChanges F} `{Codec}.
Context `{FileSystem} `{UrlCrate} (to_lowercase : string → string) (rtk : option Rtk).
Context (artifact_root : string) (now : N).

Lemma finish_tool_spec root relative t text w w' outcome :
  finish_tool rtk artifact_root now root relative t text w = (w', Ok outcome) →
  ∃ r, outcome = ToolAllowed r ∧
    tr_preview r = red_content (reduce_output (tool_reducer rtk) (redact_text text)) ∧
    tr_tool r = tool_kind t ∧ tr_byte_count r = String.length (redact_text text) ∧
    match tr_artifact r with
    | None => w' = w ∧ tr_truncated r = false
    | Some a => artifact_store artifact_root now (redact_text text) w = (w', Ok a) ∧
                tr_truncated r = true
    end.
Proof.
  unfold finish_tool, StateR.bind, StateR.ret.
  destruct (_ || _).
  - destruct (artifact_store _ _ _ w) as [w1 [a|e]]; cbn; [|done]. intros [= <- <-]. by eexists.
  - intros [= <- <-]. by eexists.
Qed.

Lemma execute_capability_spec fuel root t w w' r :
  execute_capability to_lowercase rtk artifact_root now fuel root t w = (w', Ok (ToolAllowed r)) →
  ∃ canon resolved text,
    wf_canonicalize (aw_files w) root = Ok canon ∧ inside canon resolved ∧
    resolve_in_scope root (tool_target t) (aw_files w) = Some resolved ∧
    tool_text to_lowercase fuel t resolved (aw_files w) = Ok text ∧
    finish_tool rtk artifact_root now root (relative_to canon resolved) t text w
      = (w', Ok (ToolAllowed r)).
Proof.
  unfold execute_capability, StateR.bind, StateR.get, StateR.lift, StateR.ret.
  destruct (resolve_in_scope _ _ _) as [resolved|] eqn:Hres; [|done].
  destruct (resolve_in_scope_inside _ _ _ _ Hres) as (canon & Hc & Hin). rewrite Hc. cbn [map_err].
  destruct (tool_text _ _ _ _ _) as [text|e] eqn:Ht; [|done]. intros E.
  by exists canon, resolved, text.
Qed.

(** C39: A read-only tool answers with content only when the effect seam allows
    its effect; otherwise nothing is read or changed and the tool is denied.  The
    content it answers with is that of a target whose canonical path is inside the
    canonical workspace root, and of what lies below it, which is inside too: it
    would be the same in every file system that has the same there, whatever
    symbolic links below the target lead to.  What the model sees of it is redacted
    before it is reduced, and the full text is kept, redacted too, exactly when the
    answer is marked truncated; nothing else is written. *)
Theorem read_only_confined fuel h s root t origin w :
  let run := run_with_seam to_lowercase rtk artifact_root now fuel h s root t origin w in
  match seam_decide h s (normalize_read_only t origin) with
  | Eff_Allow => ∀ w' r, run = (w', Ok (ToolAllowed r)) →
      ∃ canon resolved text,
        wf_canonicalize (aw_files w) root = Ok canon ∧ inside canon resolved ∧
        resolve_in_scope root (tool_target t) (aw_files w) = Some resolved ∧
        (∀ p, below (aw_files w) resolved p → inside canon p) ∧
        (∀ f, agree resolved (aw_files w) f → tool_text to_lowercase fuel t resolved f = Ok text) ∧
        tr_preview r = red_content (reduce_output (tool_reducer rtk) (redact_text text)) ∧
        match tr_artifact r with
        | None => w' = w ∧ tr_truncated r = false
        | Some a => artifact_store artifact_root now (redact_text text) w = (w', Ok a) ∧
                    tr_truncated r = true
        end
  | _ => ∃ reason, run = (w, Ok (ToolDenied reason (target_string t)))
  end.
Proof.
  unfold run_with_seam, execute, StateR.bind, StateR.ret.
  destruct (seam_decide h s _) as [|reason|reason]; [|by eexists..].
  destruct (execute_capability _ _ _ _ _ _ _ w) as [w1 [out|e]] eqn:Hrun; [|discriminate].
  intros w' r [= <- ->]. apply execute_capability_spec in Hrun
    as (canon & resolved & text & Hc & Hin & Hres & Ht & Hfin).
  apply finish_tool_spec in Hfin as (r' & [= <-] & Hp & _ & _ & Ha).
  exists canon, resolved, text. split_and!; try done; [by intros p; apply below_inside|].
  intros f Hf. by rewrite <-(tool_text_agree to_lowercase resolved t fuel _ _ Hf).
Qed.
End seam.

(** ** Writing an approved file *)

Section write.
Context {F : Type} `{!WorkFiles F} `{!WorkFilesLaws F} `{!FileChanges F}.

(** A write that succeeds went to a path whose directory is inside the workspace,
    and is read back from it. *)
Lemma write_file_in_scope_exact root target content f f' :
  write_file_in_scope root target content f = (f', Ok tt) →
  ∃ canon dir parent,
    let path := if is_absolute target then target else path_join canon target in
    wf_canonicalize f root = Ok canon ∧ PathScope.parent path = Some dir ∧
    wf_canonicalize f dir = Ok parent ∧ inside canon parent ∧ wf_read f' path = Ok content.
Proof.
  unfold write_file_in_scope, StateR.bind, StateR.get, StateR.lift, StateR.fail.
  destruct (wf_canonicalize f root) as [canon|] eqn:Hc; [|done]. cbn [map_err].
  set (path := if is_absolute target then target else path_join canon target).
  destruct (PathScope.parent path) as [dir|] eqn:Hd; [|done]. cbn [ok_or].
  destruct (wf_canonicalize f dir) as [parent|] eqn:Hp; [|done]. cbn [map_err].
  destruct (path_starts_with parent canon) eqn:Hin; cbn [negb]; [|done].
  destruct (wf_write path content f) as [f1 [[]|e]] eqn:Hw; [|done]. intros [= <-].
  exists canon, dir, parent. cbv zeta. split_and!; try done.
  - split; [done|]. by eapply wf_canonicalize_clean.
  - by eapply wf_write_read.
Qed.
End write.

(** A dangling link inside the workspace carries an approved write out of it. *)
Example approved_write_escapes :
  (write_file_in_scope "/escape" "gone" "x" sample_files).1 !! "/out/new" = Some (Demo.File "x").
Proof. by vm_compute. Qed.

(** *** Witness *)

Section sample.
#[local] Existing Instances sample_fs sample_urls sample_codec.

Definition tool_world : ArtWorld Demo.Fs := mkArtWorld sample_files [].

Definition tool_run (t : ReadOnlyTool) : ArtWorld Demo.Fs * result ToolError ToolOutcome :=
  run_with_seam to_ascii_lowercase None "/store" 7 9 (workspace_full ∅ "/ws").1
    (workspace_full ∅ "/ws").2 "/ws" t Agent tool_world.

(** A path outside the workspace is denied. *)
Example outside_is_denied : is_ok (tool_run (ToolRead "/escape/gone")).2 = true ∧
  ∀ r, (tool_run (ToolRead "/escape/gone")).2 ≠ Ok (ToolAllowed r).
Proof. split; [|intros r]; by vm_compute. Qed.

Definition sample_hit : ToolResult :=
  mkToolResult KindSearch (mkToolProvenance "/ws" "" true) "sub/b.txt:1: beta" false None 1 17 5 5.

Lemma sample_search_allowed :
  seam_decide (workspace_full ∅ "/ws").1 (workspace_full ∅ "/ws").2
    (normalize_read_only (ToolSearch "/ws" "BETA") Agent) = Eff_Allow.
Proof. by vm_compute. Qed.

Lemma sample_search_run : (tool_run (ToolSearch "/ws" "BETA")).2 = Ok (ToolAllowed sample_hit).
Proof. by vm_compute. Qed.

Lemma read_only_confined_witness :
  ∃ canon resolved text,
    wf_canonicalize sample_files "/ws" = Ok canon ∧ inside canon resolved ∧
    (∀ f, agree resolved sample_files f →
       tool_text to_ascii_lowercase 9 (ToolSearch "/ws" "BETA") resolved f = Ok text) ∧
    "sub/b.txt:1: beta" = red_content (reduce_output (tool_reducer None) (redact_text text)).
Proof.
  pose proof (read_only_confined to_ascii_lowercase None "/store" 7 9 (workspace_full ∅ "/ws").1
    (workspace_full ∅ "/ws").2 "/ws" (ToolSearch "/ws" "BETA") Agent tool_world) as Hrun.
  rewrite sample_search_allowed in Hrun.
  destruct (Hrun (tool_run (ToolSearch "/ws" "BETA")).1 sample_hit) as (canon & resolved & text & Hc & Hin & _ & _ & Hall & Hp & _).
  - by rewrite <-sample_search_run, <-surjective_pairing.
  - exists canon, resolved, text. exact (conj Hc (conj Hin (conj Hall Hp))).
Defined.
End sample.
