(* ===== verification/ProcessExecution.v ===== *)
(** * Process execution

    [crates/impetus-core/src/execution/process.rs]: a child process run through
    the hook prefilter, under the effect fence when an agent asks for it, with
    its output captured up to a limit and kept as an artifact when large.  The
    operating system is a class; the build is one for a system other than macOS,
    where the child is spawned directly. *)

From S2P Require Import Prelude Str Utf8 Redact Action PathScope WebSecurity Policy Effect.
From S2P Require Import RiskGate Events EventStore EffectFence Effects FenceRuns WorkspaceFiles HookPrefilter Artifacts.
From S2P Require Import OutputReducer.

Open Scope string_scope.
Open Scope nat_scope.
Open Scope list_scope.
Open Scope impetus_scope.

(** ** Definitions *)

Definition MAX_PROCESS_PREVIEW_BYTES : nat := 16 * 1024.
Definition MAX_PROCESS_OUTPUT_BYTES : nat := Z.to_nat 2097152.

(** [Duration], in nanoseconds. *)
Definition from_secs (s : N) : N := (s * 1000000000)%N.
Definition DEFAULT_EXECUTION_TIMEOUT : N := from_secs 120.

(** [Debug] of a [Duration]: the digits after the point without the zeros at the
    end. *)
Definition duration_decimal (whole part : N) (width : nat) (suffix : string) : string :=
  (dec whole ++ match trim_end_matches "0"%char (dec_padded width part) with
                | "" => ""
                | digits => "." ++ digits
                end ++ suffix)%string.

Definition duration_debug (d : N) : string :=
  if (1000000000 <=? d)%N then duration_decimal (d / 1000000000) (d mod 1000000000) 9 "s"
  else if (1000000 <=? d)%N then duration_decimal (d / 1000000) (d mod 1000000) 6 "ms"
  else if (1000 <=? d)%N then
    duration_decimal (d / 1000) (d mod 1000) 3 (String (ascii_of_N 194) (String (ascii_of_N 181) "s"))
  else duration_decimal d 0 0 "ns".

Inductive ProcessExecutionError :=
  | PePolicyDenied (reason : string)
  | PeApprovalRequired
  | PeExecutionFailed (what : string)
  | PeTimeout (after : N)
  | PeArtifact (what : string)
  | PeIo (e : IoError)
  | PePrefilterDenied (label : string)
  | PePrefilterExternalForCritical (label : string)
  | PeEffectFence (what : string).

Definition process_error_text (e : ProcessExecutionError) : string :=
  match e with
  | PePolicyDenied r => "policy denied process execution: " ++ r
  | PeApprovalRequired => "approval required but not granted"
  | PeExecutionFailed r => "process execution failed: " ++ r
  | PeTimeout d => "process timed out after " ++ duration_debug d
  | PeArtifact r => "artifact store error: " ++ r
  | PeIo e => "io error: " ++ io_text e
  | PePrefilterDenied l => "hook prefilter denied spawn for label " ++ l
  | PePrefilterExternalForCritical l =>
      "security-critical hook for label `" ++ l
        ++ "` requires InDaemon trust; External matcher refused"
  | PeEffectFence r => "effect fence denied process execution: " ++ r
  end.

Record ProcessOutput := mkProcessOutput {
  po_exit_code : option Z;
  po_stdout : string;
  po_stderr : string;
  po_truncated : bool;
  po_duration_ms : N;
  po_artifact : option ArtifactRef;
  po_sandbox_decision : option SandboxDecision;
}.

Record ProcessExecutionRequest := mkProcessRequest {
  pr_command : string;
  pr_args : list string;
  pr_working_dir : option string;
  pr_workspace_root : option string;
  pr_allow_network : bool;
  pr_env : list (string * string);
  pr_origin : ActionOrigin;
  pr_intent_revision : N;
  pr_timeout : N;
  pr_hook_prefilter : option HookPrefilter;
}.

Definition ProcessRequest_new (command : string) (args : list string) (origin : ActionOrigin)
    (intent_revision : N) : ProcessExecutionRequest :=
  mkProcessRequest command args None None false [] origin intent_revision
    DEFAULT_EXECUTION_TIMEOUT None.

Definition with_hook_prefilter (p : HookPrefilter) (r : ProcessExecutionRequest) :=
  mkProcessRequest (pr_command r) (pr_args r) (pr_working_dir r) (pr_workspace_root r)
    (pr_allow_network r) (pr_env r) (pr_origin r) (pr_intent_revision r) (pr_timeout r) (Some p).

Definition with_working_dir (dir : string) (r : ProcessExecutionRequest) :=
  mkProcessRequest (pr_command r) (pr_args r) (Some dir) (pr_workspace_root r)
    (pr_allow_network r) (pr_env r) (pr_origin r) (pr_intent_revision r) (pr_timeout r)
    (pr_hook_prefilter r).

Definition with_process_root (root : string) (r : ProcessExecutionRequest) :=
  mkProcessRequest (pr_command r) (pr_args r) (pr_working_dir r) (Some root)
    (pr_allow_network r) (pr_env r) (pr_origin r) (pr_intent_revision r) (pr_timeout r)
    (pr_hook_prefilter r).

Definition with_allow_network (allow : bool) (r : ProcessExecutionRequest) :=
  mkProcessRequest (pr_command r) (pr_args r) (pr_working_dir r) (pr_workspace_root r)
    allow (pr_env r) (pr_origin r) (pr_intent_revision r) (pr_timeout r) (pr_hook_prefilter r).

Definition with_env (key value : string) (r : ProcessExecutionRequest) :=
  mkProcessRequest (pr_command r) (pr_args r) (pr_working_dir r) (pr_workspace_root r)
    (pr_allow_network r) (pr_env r ++ [(key, value)]) (pr_origin r) (pr_intent_revision r)
    (pr_timeout r) (pr_hook_prefilter r).

Definition with_timeout (timeout : N) (r : ProcessExecutionRequest) :=
  mkProcessRequest (pr_command r) (pr_args r) (pr_working_dir r) (pr_workspace_root r)
    (pr_allow_network r) (pr_env r) (pr_origin r) (pr_intent_revision r) timeout
    (pr_hook_prefilter r).

(** [rsplit('/').next()] *)
Definition spawn_label (r : ProcessExecutionRequest) : string :=
  List.last (split_on "/"%char (pr_command r)) (pr_command r).

Definition fence_effect (r : ProcessExecutionRequest) : NormalizedEffect :=
  process_spawn (pr_origin r) (pr_command r ++ " " ++ join " " (pr_args r))%string
    (default "." (pr_working_dir r)).

(** *** Capturing output *)

(** What [read_until] of a newline returns, call by call. *)
Fixpoint newline_chunks (s : string) : list string :=
  match s with
  | "" => []
  | String a s' =>
      if Ascii.eqb a newline then String a "" :: newline_chunks s'
      else match newline_chunks s' with
           | [] => [String a ""]
           | c :: cs => String a c :: cs
           end
  end.

(** What can be read of a pipe: the bytes before its end, or before an error. *)
Record Stream := mkStream { stream_bytes : string; stream_failed : bool }.

(** The [loop].  A call that fails has put what it read into the buffer without
    counting it ([unwrap_or(0)]). *)
Fixpoint capture_chunks (max_bytes : nat) (failed : bool) (chunks : list string)
    (buffer : string) (total : nat) : string * bool :=
  match chunks with
  | [] => (buffer, false)
  | chunk :: chunks' =>
      let buffer := (buffer ++ chunk)%string in
      if failed && bool_decide (chunks' = []) && negb (ends_with chunk nl) then (buffer, false)
      else
        let total := total + String.length chunk in
        if max_bytes <? total then (str_prefix max_bytes buffer, true)
        else capture_chunks max_bytes failed chunks' buffer total
  end.

Definition capture_stream (stream : Stream) (max_bytes : nat) : string * bool :=
  let '(buffer, truncated) :=
    capture_chunks max_bytes (stream_failed stream) (newline_chunks (stream_bytes stream)) "" 0 in
  (from_utf8_lossy buffer, truncated).

Definition preview_cut_mark : string :=
  (nl ++ "...[preview truncated; full result is stored as an artifact]")%string.

Definition truncate_preview (input : string) : string :=
  if String.length input <=? MAX_PROCESS_PREVIEW_BYTES then input
  else (str_prefix (floor_boundary MAX_PROCESS_PREVIEW_BYTES input) input ++ preview_cut_mark)%string.

(** [{:?}] of an [Option<i32>]. *)
Definition exit_debug (code : option Z) : string :=
  match code with Some n => "Some(" ++ pretty n ++ ")" | None => "None" end.

Definition process_body (exit_code : option Z) (stdout stderr : string) : string :=
  ("exit_code=" ++ exit_debug exit_code ++ nl ++ "stdout:" ++ nl ++ stdout ++ nl ++ "stderr:" ++ nl
   ++ stderr)%string.

Definition skipped_by_prefilter_output (duration_ms : N) (label : string) : ProcessOutput :=
  mkProcessOutput None "" ("hook prefilter skipped spawn for label `" ++ label ++ "`") false
    duration_ms None None.

Definition process_error_of_spawn_stub (e : SpawnStubError) : ProcessExecutionError :=
  match e with
  | SpawnDenied label => PePrefilterDenied label
  | SpawnExternalForCritical label => PePrefilterExternalForCritical label
  end.

(** *** The operating system *)

(** What [Command] is built with; input is closed, output is piped. *)
Record SpawnCommand := mkSpawnCommand {
  sc_program : string;
  sc_args : list string;
  sc_dir : option string;
  sc_env : list (string * string);
}.

Inductive WaitEnd := WaitExited (code : option Z) | WaitFailed (what : string) | WaitTimedOut.

(** A child from its start to its end: what its streams gave, the end of the wait
    bounded by the time-out, and the time taken. *)
Record ChildRun := mkChildRun {
  cr_stdout : Stream;
  cr_stderr : Stream;
  cr_end : WaitEnd;
  cr_elapsed_ms : N;
}.

(** [Command::spawn], [Child::wait] within a time, [kill]; an error is one of the
    spawn. *)
Class Processes (W : Type) := proc_run : SpawnCommand → N → W → W * result string ChildRun.

Section execution.
Context `{Codec} {F : Type} `{!WorkFiles F} `{!FileChanges F} {W : Type} `{!Processes W}.
(** The artifact store's root and clock. *)
Context (artifact_root : string) (now : N).

Definition ProcWorld : Type := W * ArtWorld F.

Definition finalize_process_output (exit_code : option Z) (stdout stderr : string)
    (capture_truncated : bool) (duration_ms : N) (sandbox_decision : option SandboxDecision)
    : stateR ProcWorld ProcessExecutionError ProcessOutput := λ '(w, art),
  let full := redact_text (process_body exit_code stdout stderr) in
  if capture_truncated || (MAX_PROCESS_PREVIEW_BYTES <? String.length full) then
    let '(art', r) := artifact_store artifact_root now full art in
    ((w, art'),
     match r with
     | Ok a => Ok (mkProcessOutput exit_code (truncate_preview stdout) (truncate_preview stderr)
                     true duration_ms (Some a) sandbox_decision)
     | Err (ArtIo e) => Err (PeArtifact (io_text e))
     | Err ArtConstraint => Err (PeArtifact "UNIQUE constraint failed")
     end)
  else ((w, art), Ok (mkProcessOutput exit_code stdout stderr false duration_ms None
                        sandbox_decision)).

Definition spawn_direct (r : ProcessExecutionRequest) : SpawnCommand :=
  mkSpawnCommand (pr_command r) (pr_args r) (pr_working_dir r) (pr_env r).

(** From the spawned child on. *)
Definition collect_child (r : ProcessExecutionRequest) (run : ChildRun)
    : stateR ProcWorld ProcessExecutionError ProcessOutput :=
  match cr_end run with
  | WaitFailed what => StateR.fail (PeExecutionFailed what)
  | WaitTimedOut => StateR.fail (PeTimeout (pr_timeout r))
  | WaitExited code =>
      let '(stdout, stdout_truncated) := capture_stream (cr_stdout run) MAX_PROCESS_OUTPUT_BYTES in
      let '(stderr, stderr_truncated) := capture_stream (cr_stderr run) MAX_PROCESS_OUTPUT_BYTES in
      finalize_process_output code stdout stderr (stdout_truncated || stderr_truncated)
        (cr_elapsed_ms run) None
  end.

(** [skip_ms] is the time a skipped spawn took. *)
Definition process_execute (r : ProcessExecutionRequest) (skip_ms : N)
    : stateR ProcWorld ProcessExecutionError ProcessOutput :=
  outcome <-- StateR.lift (map_err process_error_of_spawn_stub
                (spawn_stub (default [] (pr_hook_prefilter r)) (spawn_label r))) ;;
  match outcome with
  | Skipped => StateR.ret (skipped_by_prefilter_output skip_ms (spawn_label r))
  | WouldSpawn => λ '(w, art),
      match proc_run (spawn_direct r) (pr_timeout r) w with
      | (w', Ok run) => collect_child r run (w', art)
      | (w', Err what) => ((w', art), Err (PeExecutionFailed what))
      end
  end.

(** *** Admission and fence *)

Context `{FileSystem} `{UrlCrate} `{Json} `{DisplayStoreError} {St : Type} `{!EventStore St}.

Definition process_request (fresh : Uuid) (h : PolicyHeap) (s : EffectSeam)
    (r : ProcessExecutionRequest) : EffectAdmission :=
  request_with_argv fresh h s (fence_effect r) (pr_intent_revision r)
    (Some (pr_command r :: pr_args r)).

(** Results of the marks of a failed run are dropped. *)
Definition execute_agent_under_fence (r : ProcessExecutionRequest) (skip_ms : N) (l : Ledger)
    : stateR (St * ProcWorld) ProcessExecutionError ProcessOutput := λ '(st, w),
  let sid := ledger_session l in
  match fence_prepare l (fence_effect r) st with
  | (st1, Err reason) => ((st1, w), Err (PeEffectFence reason))
  | (st1, Ok identity) =>
      match process_execute r skip_ms w with
      | (w', Ok output) =>
          match observe (ledger_tick l 2) sid identity "process executed" st1 with
          | (st2, Ok _) => ((st2, w'), Ok output)
          | (st2, Err err) =>
              let msg := EffectFenceError_to_string err in
              let st3 := (mark_unknown (ledger_tick l 3) sid identity
                 ("observe persist failed after process execute: " ++ msg)%string st2).1 in
              ((st3, w'),
               Err (PeEffectFence
                      ("effect fence observe failed after process execute: " ++ msg)%string))
          end
      | (w', Err error) =>
          let st2 := (mark_failed (ledger_tick l 2) sid identity (process_error_text error) st1).1 in
          ((st2, w'), Err error)
      end
  end.

Definition execute_with_admission_and_optional_fence (fresh : Uuid) (h : PolicyHeap)
    (s : EffectSeam) (r : ProcessExecutionRequest) (skip_ms : N) (ledger : option Ledger)
    : stateR (St * ProcWorld) ProcessExecutionError ProcessOutput :=
  match process_request fresh h s r with
  | Adm_Allow _ =>
      match pr_origin r, ledger with
      | Agent, Some l => execute_agent_under_fence r skip_ms l
      | _, _ => λ '(st, w), let '(w', res) := process_execute r skip_ms w in ((st, w'), res)
      end
  | Adm_NeedsApproval _ => StateR.fail PeApprovalRequired
  | Adm_Deny reason => StateR.fail (PePolicyDenied reason)
  end.

Definition execute_with_admission (fresh : Uuid) (h : PolicyHeap) (s : EffectSeam)
    (r : ProcessExecutionRequest) (skip_ms : N) :=
  execute_with_admission_and_optional_fence fresh h s r skip_ms None.

Definition execute_with_admission_and_fence (fresh : Uuid) (h : PolicyHeap) (s : EffectSeam)
    (r : ProcessExecutionRequest) (skip_ms : N) (l : Ledger) :=
  execute_with_admission_and_optional_fence fresh h s r skip_ms (Some l).
End execution.

Arguments ProcWorld : clear implicits.

(** ** What is captured *)

#[local] Opaque MAX_PROCESS_OUTPUT_BYTES.

Lemma concat_newline_chunks s : concat_str (newline_chunks s) = s.
Proof.
  induction s as [|a s IH]; [done|]. cbn [newline_chunks].
  destruct (Ascii.eqb a newline); [cbn; by rewrite IH|].
  destruct (newline_chunks s) as [|c cs]; cbn in *; by rewrite <-IH.
Qed.

Lemma str_prefix_within n s t : n ≤ String.length s → str_prefix n (s ++ t) = str_prefix n s.
Proof.
  unfold str_prefix. revert n. induction s as [|a s IH]; intros [|n] Hn; cbn in *;
    try done; try lia; [by destruct t|]. by rewrite IH by lia.
Qed.

Lemma capture_chunks_exact max_bytes chunks buffer :
  String.length buffer ≤ max_bytes →
  capture_chunks max_bytes false chunks buffer (String.length buffer) =
  (str_prefix max_bytes (buffer ++ concat_str chunks),
   max_bytes <? String.length (buffer ++ concat_str chunks)%string).
Proof.
  revert buffer. induction chunks as [|c chunks IH]; intros buffer Hb; cbn [capture_chunks concat_str].
  - rewrite str_app_nil_r. rewrite str_prefix_all by done.
    by rewrite (proj2 (Nat.ltb_ge _ _)).
  - cbn [andb]. rewrite <-length_str_app, <-!str_app_assoc.
    destruct (Nat.ltb_spec max_bytes (String.length (buffer ++ c))) as [Hlt|Hge].
    + rewrite (str_prefix_within max_bytes (buffer ++ c)) by lia. f_equal. symmetry. apply Nat.ltb_lt.
      rewrite length_str_app. lia.
    + by rewrite IH.
Qed.

(** A stream that ends is captured up to the limit, and marked truncated exactly
    when it is longer. *)
Lemma capture_exact s max_bytes :
  capture_stream (mkStream s false) max_bytes =
  (from_utf8_lossy (str_prefix max_bytes s), max_bytes <? String.length s).
Proof.
  unfold capture_stream. cbn [stream_failed stream_bytes].
  pose proof (capture_chunks_exact max_bytes (newline_chunks s) "" ltac:(cbn; lia)) as E.
  change (String.length "") with 0 in E. rewrite E. cbn [String.append].
  by rewrite concat_newline_chunks.
Qed.

(** An error inside a line leaves that line in the buffer whole, uncounted. *)
Example failed_stream_exceeds_limit :
  capture_stream (mkStream "abc" true) 1 = ("abc", false).
Proof. reflexivity. Qed.

(** ** What runs, and when *)

Section properties.
Context `{Codec} {F : Type} `{!WorkFiles F} `{!FileChanges F} {W : Type} `{!Processes W}.
Context (artifact_root : string) (now : N).

Abbreviation exec := (process_execute artifact_root now).

Lemma finalize_world code out err cut ms sd (w : W) art w' art' res :
  finalize_process_output artifact_root now code out err cut ms sd (w, art) = ((w', art'), res) →
  w' = w ∧
  ∀ o, res = Ok o →
    let full := redact_text (process_body code out err) in
    match po_artifact o with
    | None => art' = art ∧ cut = false ∧ po_stdout o = out ∧ po_stderr o = err ∧
              String.length full ≤ MAX_PROCESS_PREVIEW_BYTES
    | Some a => artifact_store artifact_root now full art = (art', Ok a)
    end.
Proof.
  unfold finalize_process_output. destruct (cut || _) eqn:Hcut.
  - destruct (artifact_store _ _ _ art) as [art1 [a|[e|]]] eqn:Hs; intros [= <- <- <-];
      (split; [done|]); intros o Ho; [by injection Ho as <-|done..].
  - apply orb_false_iff in Hcut as [-> Hlen%Nat.ltb_ge]. intros [= <- <- <-].
    split; [done|]. intros o [= <-]. by cbn.
Qed.

(** What became of one execution: nothing was spawned, or the command of the
    request was, as the prefilter told. *)
Lemma process_execute_spec r ms (w : W) art w' art' res :
  exec r ms (w, art) = ((w', art'), res) →
  (w', art') = (w, art) ∧
    (res = Ok (skipped_by_prefilter_output ms (spawn_label r)) ∨ is_ok res = false) ∨
  spawn_stub (default [] (pr_hook_prefilter r)) (spawn_label r) = Ok WouldSpawn ∧
  ∃ run, proc_run (spawn_direct r) (pr_timeout r) w = (w', run) ∧
    ∀ o, res = Ok o → ∃ child code, run = Ok child ∧ cr_end child = WaitExited code ∧
      let out := capture_stream (cr_stdout child) MAX_PROCESS_OUTPUT_BYTES in
      let err := capture_stream (cr_stderr child) MAX_PROCESS_OUTPUT_BYTES in
      let full := redact_text (process_body code out.1 err.1) in
      match po_artifact o with
      | None => art' = art ∧ out.2 = false ∧ err.2 = false ∧ po_stdout o = out.1 ∧
                po_stderr o = err.1 ∧ String.length full ≤ MAX_PROCESS_PREVIEW_BYTES
      | Some a => artifact_store artifact_root now full art = (art', Ok a)
      end.
Proof.
  unfold process_execute, StateR.bind, StateR.lift, StateR.ret.
  destruct (spawn_stub _ _) as [[|]|e] eqn:Hstub; cbn [map_err].
  - intros Hrun. right. split; [done|].
    destruct (proc_run (spawn_direct r) (pr_timeout r) w) as [w1 [child|what]] eqn:Hp.
    2: { injection Hrun as <- <- <-. by eexists. }
    unfold collect_child in Hrun. destruct (cr_end child) as [code| |] eqn:Hend;
      [|injection Hrun as <- <- <-; by eexists..].
    destruct (capture_stream (cr_stdout child) _) as [out cut1] eqn:Ho.
    destruct (capture_stream (cr_stderr child) _) as [err cut2] eqn:He.
    apply finalize_world in Hrun as [-> Hres]. eexists. split; [done|].
    intros o Hok. exists child, code. split_and!; [done..|]. specialize (Hres o Hok). rewrite Ho, He. cbn [fst snd].
    destruct (po_artifact o); [done|]. destruct Hres as (? & Hc & ? & ? & ?).
    apply orb_false_iff in Hc as [-> ->]. done.
  - intros [= <- <- <-]. left. auto.
  - intros [= <- <- <-]. left. auto.
Qed.

Context `{FileSystem} `{UrlCrate} `{Json} `{DisplayStoreError} {St : Type} `{!EventStore St}.
Context (store_inv : St → Prop) `{!EventStoreLaws St store_inv}.

(** A run under the fence is a path of the fence, with the execution as its
    effect. *)
Lemma agent_run_path r ms l st w st' w' res runs str :
  valid_order (ledger_order l) →
  fence_records (ledger_session l) st !! ledger_effect_id l = None →
  execute_agent_under_fence artifact_root now r ms l (st, w) = ((st', w'), res) →
  ∃ p runs' str', rtc (run_step (E := ProcessExecutionError) (T := ProcessOutput) (ledger_session l))
      (mkConf Idle st w runs str) (mkConf p st' w' runs' str') ∧
    (runs' = runs ∧ w' = w ∧ (∃ reason, res = Err (PeEffectFence reason)) ∨
     runs' = args_digest_for_effect (fence_effect r) :: runs ∧ w' = (exec r ms w).1 ∧
     (∀ o, res = Ok o → (exec r ms w).2 = Ok o)).
Proof.
  intros Hord Hfr. unfold execute_agent_under_fence.
  destruct (fence_prepare l (fence_effect r) st) as [st1 rp] eqn:Hp.
  apply (fence_prepare_path (E := ProcessExecutionError) (T := ProcessOutput)
           (ledger_session l) _ _ _ _ _ w runs str eq_refl Hord Hfr) in Hp. cbv zeta in Hp.
  destruct rp as [i|reason]; [destruct Hp as [-> Hp]|destruct Hp as (str' & _ & Hp)].
  2: { intros [= <- <- <-]. exists Idle, runs, str'. split; [done|]. left; eauto. }
  destruct (exec r ms w) as [w1 [o|err]] eqn:Hex; eapply exec_path in Hp; try exact Hex.
  - destruct (observe _ _ _ "process executed" st1) as [st2 ro] eqn:Ho.
    eapply observe_path in Hp; [|exact Ho]. destruct ro as [rec|err]; intros [= <- <- <-].
    + eexists _, _, _. split; [exact Hp|]. right. by split_and!.
    + eexists _, _, _. split; [apply mark_unknown_path, Hp|]. right. by split_and!.
  - intros [= <- <- <-]. eexists _, _, _. split; [apply mark_failed_path, Hp|]. right. by split_and!.
Qed.

(** C38: A process request spawns nothing unless the effect seam allows its command
    line, and then nothing but the command of the request, and only if the hook
    prefilter lets it continue.  An agent that runs it with a ledger runs it as a
    path of the effect fence: at most once, after both write-ahead rows, or not
    at all.  In every other case the system, the artifacts and (without a ledger)
    the log are left as they were. *)
Theorem process_spawn_guarded fresh h s r ms ledger st w art st' w' art' res :
  (∀ l, ledger = Some l →
     valid_order (ledger_order l) ∧
     fence_records (ledger_session l) st !! ledger_effect_id l = None) →
  execute_with_admission_and_optional_fence artifact_root now fresh h s r ms ledger (st, (w, art))
    = ((st', (w', art')), res) →
  ((w', art') = (w, art) ∨
   seam_admit h s (fence_effect r) (Some (pr_command r :: pr_args r)) = Eff_Allow ∧
   spawn_stub (default [] (pr_hook_prefilter r)) (spawn_label r) = Ok WouldSpawn ∧
   ∃ run, proc_run (spawn_direct r) (pr_timeout r) w = (w', run)) ∧
  match ledger, pr_origin r with
  | Some l, Agent =>
      seam_admit h s (fence_effect r) (Some (pr_command r :: pr_args r)) = Eff_Allow →
      ∃ p runs' str', rtc (run_step (E := ProcessExecutionError) (T := ProcessOutput)
                        (ledger_session l))
        (mkConf Idle st (w, art) [] []) (mkConf p st' (w', art') runs' str') ∧
        ((w', art') ≠ (w, art) → runs' = [args_digest_for_effect (fence_effect r)])
  | _, _ => st' = st
  end.
Proof using All.
  intros Hledger. unfold execute_with_admission_and_optional_fence, process_request, request_with_argv.
  destruct (seam_admit h s _ _) as [|reason|reason] eqn:Hadm.
  2, 3: intros [= <- <- <- <-]; split; [by left|]; by destruct ledger, (pr_origin r).
  assert (∀ w2 art2 res2, exec r ms (w, art) = ((w2, art2), res2) →
    (w2, art2) = (w, art) ∨ Eff_Allow = Eff_Allow ∧
    spawn_stub (default [] (pr_hook_prefilter r)) (spawn_label r) = Ok WouldSpawn ∧
    ∃ run, proc_run (spawn_direct r) (pr_timeout r) w = (w2, run)) as Hexec.
  { intros w2 art2 res2 [[E _]|(Hstub & run & Hrun & _)]%process_execute_spec; [by left|].
    right. eauto. }
  assert (∀ m, m = (λ '(st, w), let '(w', res) := exec r ms w in ((st, w'), res)) →
    m (st, (w, art)) = ((st', (w', art')), res) →
    st' = st ∧ ∃ res', exec r ms (w, art) = ((w', art'), res')) as Hplain.
  { intros m -> E. destruct (exec r ms (w, art)) as [[w2 art2] res2].
    injection E as <- <- <- <-. eauto. }
  destruct ledger as [l|], (pr_origin r) eqn:Horigin;
    try (intros Hrun; apply (Hplain _ eq_refl) in Hrun as [-> [res' Hx]];
         split; [by eapply Hexec|done]).
  intros Hrun. destruct (Hledger l eq_refl) as [Hord Hfr].
  destruct (agent_run_path r ms l st (w, art) st' (w', art') res [] [] Hord Hfr Hrun)
    as (p & runs' & str' & Hpath & Hcase).
  destruct Hcase as [(-> & Hw & _)|(-> & Hw & _)].
  - split; [by left|]. intros _. exists p, [], str'. split; [done|]. intros Hne. by destruct Hne.
  - destruct (exec r ms (w, art)) as [[w2 art2] res2] eqn:Hx. cbn [fst] in Hw.
    injection Hw as -> ->. split; [by eapply Hexec|]. intros _. exists p. eexists _, str'. done.
Qed.
End properties.

(** *** A concrete run *)

Example shell_label command :
  spawn_label (ProcessRequest_new "/bin/sh" ["-lc"; command] Agent 0) = "sh".
Proof. reflexivity. Qed.

Example timeout_text :
  process_error_text (PeTimeout DEFAULT_EXECUTION_TIMEOUT) = "process timed out after 120s" ∧
  duration_debug 1500000000 = "1.5s" ∧ duration_debug 2050000 = "2.05ms".
Proof. by vm_compute. Qed.

Section sample.
#[local] Existing Instances sample_fs sample_urls sample_codec sample_json effects_display.

(** A system that remembers what was spawned; every child prints [ok]. *)
#[local] Instance sample_processes : Processes (list SpawnCommand) := λ c _ w,
  (w ++ [c], Ok (mkChildRun (mkStream "ok" false) (mkStream "" false) (WaitExited (Some 0%Z)) 3)).

Definition git_status : ProcessExecutionRequest :=
  with_working_dir "/ws" (ProcessRequest_new "git" ["status"] Agent 4).

Definition git_run : (MemoryEventStore * ProcWorld Demo.Fs (list SpawnCommand))
    * result ProcessExecutionError ProcessOutput :=
  execute_with_admission_and_fence "/store" 7 9 sample_heap sample_seam git_status 1
    (fence_ledger 200) (fence_store, ([], empty_store)).

Example git_run_output :
  git_run.2 = Ok (mkProcessOutput (Some 0%Z) "ok" "" false 3 None None) ∧
  git_run.1.2.1 = [mkSpawnCommand "git" ["status"] (Some "/ws") []].
Proof. by vm_compute. Qed.

(** A spawn that the prefilter skips is recorded as executed all the same. *)
Example skipped_is_observed :
  let r := with_hook_prefilter [HookRule_new "git" HookSkipSpawn] git_status in
  let run := execute_with_admission_and_fence "/store" 7 9 sample_heap sample_seam r 1
    (fence_ledger 200) (fence_store, ([] : list SpawnCommand, empty_store)) in
  run.1.2.1 = [] ∧ is_ok run.2 = true ∧
  fence_state <$> (fence_records 1 run.1.1 !! 200%N) = Some Observed.
Proof. by vm_compute. Qed.

Lemma parts_eta {A B C D} (x : (A * (B * C)) * D) : x = ((x.1.1, (x.1.2.1, x.1.2.2)), x.2).
Proof. by destruct x as [[? [? ?]] ?]. Qed.

Lemma process_spawn_guarded_witness :
  seam_admit sample_heap sample_seam (fence_effect git_status) (Some ["git"; "status"]) = Eff_Allow ∧
  ∃ p runs' str', rtc (run_step (E := ProcessExecutionError) (T := ProcessOutput) 1)
    (mkConf Idle fence_store ([], empty_store) [] []) (mkConf p git_run.1.1 git_run.1.2 runs' str').
Proof.
  pose proof (process_spawn_guarded "/store" 7 store_wf 9 sample_heap sample_seam git_status 1
    (Some (fence_ledger 200)) fence_store [] empty_store git_run.1.1 git_run.1.2.1 git_run.1.2.2
    git_run.2) as Hrun.
  destruct Hrun as [[Hno|(Hadm & _)] Hpath].
  - intros l [= <-]. split; [by intros m|by vm_compute].
  - exact (parts_eta git_run).
  - pose proof (eq_trans (eq_sym (proj2 git_run_output)) (f_equal fst Hno)) as Hw. discriminate Hw.
  - split; [exact Hadm|]. destruct (Hpath Hadm) as (p & runs' & str' & Hp & _).
    exists p, runs', str'. by destruct git_run as [[st [w art]] res].
Defined.
End sample.
