(* ===== verification/WebTools.v ===== *)
(** * Web tools

    [crates/impetus-core/src/web_research/tool_adapter.rs]: a search or a fetch
    for the model through the web service, with credentials in query strings
    hidden, the whole result kept as an artifact and a bounded preview.  The
    service is a class, as are the edits of the url crate and the JSON of the
    requests and results. *)

From S2P Require Import Prelude Str Utf8 Action PathScope WebSecurity Events WorkspaceFiles Artifacts.
From S2P Require Import OutputReducer ProcessExecution.

Open Scope string_scope.
Open Scope nat_scope.
Open Scope list_scope.
Open Scope impetus_scope.

(** ** Requests and results *)

Inductive WebOutcome := WebSuccess | WebNoResults | WebBlocked | WebFailed.

#[export] Instance WebOutcome_eq_dec : EqDecision WebOutcome.
Proof. solve_decision. Defined.

Definition MAX_SEARCH_RESULTS : N := 20.
Definition DEFAULT_SEARCH_RESULTS : N := 8.
Definition PREVIEW_CHAR_LIMIT : nat := Z.to_nat 24000.

Inductive SafeSearch := SafeOff | SafeModerate | SafeStrict.

Inductive SearchBackendPreference :=
  | BackendAutomatic | BackendDuckDuckGo | BackendBingHtml | BackendExternal (id : string).

Record SearchRequest := mkSearchRequest {
  sq_query : string;
  sq_max_results : N;
  sq_locale : option string;
  sq_safe_search : SafeSearch;
  sq_backend : SearchBackendPreference;
}.

(** [clamp(1, MAX_SEARCH_RESULTS)] *)
Definition normalized_limit (r : SearchRequest) : N :=
  N.min (N.max (sq_max_results r) 1) MAX_SEARCH_RESULTS.

Record SearchHit := mkSearchHit {
  hit_rank : N;
  hit_title : string;
  hit_url : string;
  hit_snippet : string;
  hit_backend : string;
  hit_citation_id : string;
}.

Record SearchAttempt := mkSearchAttempt {
  attempt_backend : string;
  attempt_endpoint : string;
  attempt_outcome : WebOutcome;
  attempt_detail : option string;
}.

Record SearchResponse := mkSearchResponse {
  sr_outcome : WebOutcome;
  sr_backend : string;
  sr_query : string;
  sr_hits : list SearchHit;
  sr_attempts : list SearchAttempt;
  sr_elapsed_ms : N;
}.

Record FetchRequest := mkFetchRequest {
  fq_url : string;
  fq_max_bytes : N;
  fq_max_chars : N;
  fq_include_links : bool;
  fq_allow_binary_metadata : bool;
}.

Inductive FetchBodyKind := BodyHtml | BodyText | BodyBinary.

Record FetchLink := mkFetchLink { link_text : string; link_url : string }.

Record CitationSource := mkCitationSource {
  cite_id : string;
  cite_url : string;
  cite_title : option string;
  cite_artifact : option ArtifactRef;
}.

Record FetchedPage := mkFetchedPage {
  fp_outcome : WebOutcome;
  fp_requested_url : string;
  fp_final_url : string;
  fp_redirect_chain : list string;
  fp_status_code : N;
  fp_content_type : option string;
  fp_body_kind : FetchBodyKind;
  fp_title : option string;
  fp_text : string;
  fp_links : list FetchLink;
  fp_truncated : bool;
  fp_citation : CitationSource;
  fp_fetched_unix_ms : N;
  fp_content_sha256 : string;
  fp_elapsed_ms : N;
}.

(** The detail of other operations is not built here. *)
Inductive WebObservation :=
  | ObservedSearch (r : SearchResponse)
  | ObservedFetch (p : FetchedPage).

Record WebError := mkWebError {
  we_kind : WebErrorKind;
  we_message : string;
  we_url : option string;
}.

Definition web_error_blocked (e : WebError) : bool :=
  match we_kind e with
  | UnsupportedScheme | CredentialsInUrl | PortBlocked | HostBlocked | AddressBlocked => true
  | _ => false
  end.

Definition web_error_text (e : WebError) : string :=
  match we_url e with
  | Some url => we_message e ++ " (" ++ url ++ ")"
  | None => we_message e
  end.

(** ** Classes *)

(** [WebResearchService] *)
Class WebService (W : Type) := {
  web_search : SearchRequest → W → W * result WebError SearchResponse;
  web_fetch : FetchRequest → W → W * result WebError FetchedPage;
}.

(** [serde_json::from_value] with the text of its error, and [to_vec]; arguments
    are of the type [V]. *)
Class WebJson (V : Type) := {
  search_request_from_value : V → result string SearchRequest;
  fetch_request_from_value : V → result string FetchRequest;
  web_observation_json : WebObservation → string;
}.

(** Queries in the url crate. *)
Class UrlQuery := {
  url_query : Url → option string;
  url_query_pairs : Url → list (string * string);
  url_without_query : Url → Url;
  url_append_pairs : Url → list (string * string) → Url;
  url_without_fragment : Url → Url;
}.

(** [Regex::replace_all] of the URLs in a text. *)
Class UrlPattern := replace_urls : (string → string) → string → string.

(** ** Hiding credentials *)

Definition sensitive_parameters : list string :=
  ["token"; "access_token"; "api_key"; "apikey"; "key"; "secret"; "signature"; "sig"; "auth";
   "authorization"; "password"; "passwd"; "x_amz_signature"; "x_amz_credential"].

(** [replace('-', "_")] *)
Fixpoint dashes_to_underscores (s : string) : string :=
  match s with
  | "" => ""
  | String a s' => String (if Ascii.eqb a "-" then "_"%char else a) (dashes_to_underscores s')
  end.

Definition is_sensitive_parameter (key : string) : bool :=
  let normalized := dashes_to_underscores (to_ascii_lowercase key) in
  existsb (λ c, String.eqb normalized c || ends_with normalized c) sensitive_parameters.

Section adapter.
Context `{UrlCrate} `{!UrlQuery} `{!UrlPattern}.

Definition redact_search_url (raw : string) : string :=
  match url_parse raw with
  | None => "<invalid-url>"
  | Some url => url_text (url_without_fragment (url_without_query url))
  end.

Definition redact_pair (p : string * string) : string * string :=
  (p.1, if is_sensitive_parameter p.1 then "<redacted>" else p.2).

Definition redact_url_for_observation (raw : string) : string :=
  match url_parse raw with
  | None => "<invalid-url>"
  | Some url =>
      match url_query url with
      | None => url_text url
      | Some _ => url_text (url_append_pairs (url_without_query url)
                              (redact_pair <$> url_query_pairs url))
      end
  end.

Definition sanitize_urls_in_message (message : string) (strip_all_query : bool) : string :=
  replace_urls (if strip_all_query then redact_search_url else redact_url_for_observation) message.

(** *** Observations *)

(** What [ToolObservation] has beside the id and the name of the call. *)
Record WebToolResult := mkWebToolResult {
  wr_arguments_summary : string;
  wr_outcome : ToolEventOutcome;
  wr_preview : string;
  wr_web_artifact : option ArtifactRef;
  wr_error : option string;
}.

Definition map_outcome (o : WebOutcome) : ToolEventOutcome :=
  match o with
  | WebSuccess | WebNoResults => OutcomeSuccess
  | WebBlocked => OutcomeDenied
  | WebFailed => OutcomeError
  end.

Definition web_outcome_debug (o : WebOutcome) : string :=
  match o with
  | WebSuccess => "Success"
  | WebNoResults => "NoResults"
  | WebBlocked => "Blocked"
  | WebFailed => "Failed"
  end.

Definition truncate_web_preview (input : string) : string :=
  if PREVIEW_CHAR_LIMIT <? chars_count input
  then (chars_take PREVIEW_CHAR_LIMIT input ++ preview_cut_mark)%string else input.

Definition failed_observation (error : string) : WebToolResult :=
  mkWebToolResult "invalid web tool arguments" OutcomeError "" None (Some error).

Definition observation_from_error (search : bool) (arguments_summary : string) (e : WebError)
    : WebToolResult :=
  let url := (if search then redact_search_url else redact_url_for_observation) <$> we_url e in
  let e := mkWebError (we_kind e) (sanitize_urls_in_message (we_message e) search) url in
  mkWebToolResult arguments_summary
    (if web_error_blocked e then OutcomeDenied else OutcomeError) "" None (Some (web_error_text e)).

Definition redact_hit (h : SearchHit) : SearchHit :=
  mkSearchHit (hit_rank h) (hit_title h) (redact_url_for_observation (hit_url h)) (hit_snippet h)
    (hit_backend h) (hit_citation_id h).

Definition redact_response (r : SearchResponse) : SearchResponse :=
  mkSearchResponse (sr_outcome r) (sr_backend r)
    ("<redacted:" ++ dec (N.of_nat (chars_count (sr_query r))) ++ " chars>")%string
    (redact_hit <$> sr_hits r) (sr_attempts r) (sr_elapsed_ms r).

Definition hit_text (h : SearchHit) : string :=
  (nl ++ "[" ++ hit_citation_id h ++ "] " ++ hit_title h ++ nl ++ hit_url h ++ nl
   ++ hit_snippet h ++ nl)%string.

Definition search_preview (r : SearchResponse) : string :=
  ("web_search: " ++ web_outcome_debug (sr_outcome r) ++ " via " ++ sr_backend r ++ " ("
   ++ dec (sr_elapsed_ms r) ++ " ms)" ++ nl ++ concat_str (hit_text <$> sr_hits r))%string.

Definition redact_page (p : FetchedPage) : FetchedPage :=
  mkFetchedPage (fp_outcome p) (redact_url_for_observation (fp_requested_url p))
    (redact_url_for_observation (fp_final_url p))
    (redact_url_for_observation <$> fp_redirect_chain p) (fp_status_code p) (fp_content_type p)
    (fp_body_kind p) (fp_title p) (fp_text p)
    ((λ l, mkFetchLink (link_text l) (redact_url_for_observation (link_url l))) <$> fp_links p)
    (fp_truncated p)
    (mkCitationSource (cite_id (fp_citation p)) (redact_url_for_observation (cite_url (fp_citation p)))
       (cite_title (fp_citation p)) (cite_artifact (fp_citation p)))
    (fp_fetched_unix_ms p) (fp_content_sha256 p) (fp_elapsed_ms p).

Definition fetch_preview (p : FetchedPage) : string :=
  ("web_fetch: " ++ fp_final_url p ++ " [" ++ cite_id (fp_citation p) ++ "] ("
   ++ dec (fp_elapsed_ms p) ++ " ms)" ++ nl
   ++ match fp_title p with Some title => "title: " ++ title ++ nl | None => "" end
   ++ nl ++ fp_text p ++ nl)%string.

Context `{Codec} {F : Type} `{!WorkFiles F} `{!FileChanges F} {V W : Type}.
Context `{!WebJson V} `{!WebService W} (artifact_root : string) (now : N).

Definition WebWorld : Type := W * ArtWorld F.

(** A store that fails gives no artifact. *)
Definition persist_json (o : WebObservation) (art : ArtWorld F) : ArtWorld F * option ArtifactRef :=
  match artifact_store artifact_root now (web_observation_json o) art with
  | (art', Ok a) => (art', Some a)
  | (art', Err _) => (art', None)
  end.

Definition observation_from_search (arguments_summary : string) (response : SearchResponse)
    (art : ArtWorld F) : ArtWorld F * WebToolResult :=
  let response := redact_response response in
  let '(art', artifact) := persist_json (ObservedSearch response) art in
  (art', mkWebToolResult arguments_summary (map_outcome (sr_outcome response))
     (truncate_web_preview (search_preview response)) artifact
     (if bool_decide (sr_outcome response = WebFailed)
      then (λ d, sanitize_urls_in_message d true) <$> (last (sr_attempts response) ≫= attempt_detail)
      else None)).

Definition observation_from_fetch (arguments_summary : string) (page : FetchedPage)
    (art : ArtWorld F) : ArtWorld F * WebToolResult :=
  let page := redact_page page in
  let '(art', artifact) := persist_json (ObservedFetch page) art in
  (art', mkWebToolResult arguments_summary (map_outcome (fp_outcome page))
     (truncate_web_preview (fetch_preview page)) artifact None).

Definition execute_search (arguments : V) (w : WebWorld) : WebWorld * WebToolResult :=
  match search_request_from_value arguments with
  | Err error => (w, failed_observation ("invalid web_search arguments: " ++ error))
  | Ok request =>
      let summary := ("query=" ++ dec (N.of_nat (chars_count (sq_query request)))
                      ++ " chars, max_results=" ++ dec (normalized_limit request))%string in
      match web_search request w.1 with
      | (env, Ok response) =>
          let '(art, r) := observation_from_search summary response w.2 in ((env, art), r)
      | (env, Err error) => ((env, w.2), observation_from_error true summary error)
      end
  end.

Definition execute_fetch (arguments : V) (w : WebWorld) : WebWorld * WebToolResult :=
  match fetch_request_from_value arguments with
  | Err error => (w, failed_observation ("invalid web_fetch arguments: " ++ error))
  | Ok request =>
      let summary := ("url=" ++ redact_url_for_observation (fq_url request))%string in
      match web_fetch request w.1 with
      | (env, Ok page) =>
          let '(art, r) := observation_from_fetch summary page w.2 in ((env, art), r)
      | (env, Err error) => ((env, w.2), observation_from_error false summary error)
      end
  end.

(** [None] for a tool that is none of the two. *)
Definition execute_web_tool (name : string) (arguments : V) (w : WebWorld)
    : WebWorld * option WebToolResult :=
  if String.eqb name "web_search" then
    let '(w', r) := execute_search arguments w in (w', Some r)
  else if String.eqb name "web_fetch" then
    let '(w', r) := execute_fetch arguments w in (w', Some r)
  else (w, None).
End adapter.

Arguments WebWorld : clear implicits.

(** ** Properties *)

(** The text of a preview is bounded. *)
Lemma truncate_web_preview_bounded s :
  chars_count (truncate_web_preview s) ≤ PREVIEW_CHAR_LIMIT + chars_count preview_cut_mark.
Proof.
  unfold truncate_web_preview. pose proof (chars_take_count PREVIEW_CHAR_LIMIT s).
  destruct (Nat.ltb_spec PREVIEW_CHAR_LIMIT (chars_count s)); [|lia].
  etrans; [apply chars_count_app|]. lia.
Qed.

Section hidden.
Context `{UrlCrate} `{!UrlQuery}.

(** Two URLs that differ in values of sensitive parameters only. *)
Definition same_but_secrets (u u' : Url) : Prop :=
  is_Some (url_query u) ∧ is_Some (url_query u') ∧ url_without_query u = url_without_query u' ∧
  Forall2 (λ p p', p.1 = p'.1 ∧ (is_sensitive_parameter p.1 = false → p.2 = p'.2))
    (url_query_pairs u) (url_query_pairs u').

(** What is shown of a URL does not depend on the values of sensitive parameters. *)
Lemma redact_url_hides raw raw' u u' :
  url_parse raw = Some u → url_parse raw' = Some u' → same_but_secrets u u' →
  redact_url_for_observation raw = redact_url_for_observation raw'.
Proof.
  intros Hu Hu' ([q Hq] & [q' Hq'] & Hbase & Hpairs). unfold redact_url_for_observation.
  rewrite Hu, Hu', Hq, Hq', Hbase. do 2 f_equal.
  induction Hpairs as [|[k v] [k' v'] l l' [Hk Hv] _ IH]; [done|]. cbn [fst snd] in Hk, Hv. subst k'.
  cbn [fmap list_fmap]. unfold redact_pair at 1 3. cbn [fst snd].
  f_equal; [|exact IH]. destruct (is_sensitive_parameter k); [done|]. by rewrite (Hv eq_refl).
Qed.
End hidden.

Example parameters_told_apart :
  is_sensitive_parameter "X-Amz-Signature" = true ∧ is_sensitive_parameter "monkey" = true ∧
  is_sensitive_parameter "page" = false.
Proof. by vm_compute. Qed.
