(* ===== verification/Provider.v ===== *)
(** * Model providers: profiles, requests, catalogs

    [crates/impetus-core/src/provider.rs], [provider_trait.rs],
    [provider_registry.rs] and the request bodies of [openai_provider.rs],
    [anthropic_provider.rs] and [openai_responses.rs]: which endpoint a profile may
    name, what the session's options put into a request, the models a provider
    lists and the catalog made of them.  HTTP is in [ProviderStreams]. *)

From S2P Require Import Prelude Str Utf8 Action WebSecurity WebTools ToolSchema Events.

Open Scope string_scope.
Open Scope nat_scope.
Open Scope list_scope.
Open Scope impetus_scope.

(** ** Maps of JSON values *)

(** [Map::insert]; the map is ordered by key. *)
Fixpoint map_insert (key : string) (v : JValue) (fields : list (string * JValue))
    : list (string * JValue) :=
  match fields with
  | [] => [(key, v)]
  | (k, x) :: fields' =>
      match String.compare key k with
      | Lt => (key, v) :: fields
      | Eq => (key, v) :: fields'
      | Gt => (k, x) :: map_insert key v fields'
      end
  end.

(** [json!({ .. })] *)
Definition json_fields (l : list (string * JValue)) : list (string * JValue) :=
  foldl (λ m '(k, v), map_insert k v m) [] l.

Definition json_object (l : list (string * JValue)) : JValue := JObject (json_fields l).

Lemma string_compare_eq a b : String.compare a b = Eq ↔ a = b.
Proof.
  split; [apply String.compare_eq_iff|]. intros <-.
  induction a as [|x a IH]; [done|]. cbn. unfold Ascii.compare. by rewrite N.compare_refl.
Qed.

Lemma field_insert key v fields k :
  field k (map_insert key v fields) = if String.eqb key k then Some v else field k fields.
Proof.
  induction fields as [|[k' x] fields IH]; [done|]. cbn [map_insert].
  destruct (String.compare key k') eqn:Hc.
  - apply string_compare_eq in Hc as <-. cbn [field]. by destruct (String.eqb key k).
  - done.
  - cbn [field]. rewrite IH. destruct (String.eqb_spec k' k) as [<-|]; [|done].
    destruct (String.eqb_spec key k') as [->|]; [|done].
    by rewrite (proj2 (string_compare_eq k' k') eq_refl) in Hc.
Qed.

(** ** Errors *)

Inductive ProviderError :=
  | InvalidProfile (reason : string)
  | MissingCredential
  | ProviderCancelled
  | InterruptedUnknown (what : string)
  | RequestFailed (what : string)
  | MalformedStream
  | RateLimited (what : string)
  | NetworkError (what : string)
  | ProviderTimeout
  | ModelUnavailable (what : string)
  | MalformedToolCall (what : string).

#[export] Instance ProviderError_eq_dec : EqDecision ProviderError.
Proof. solve_decision. Defined.

Definition provider_error_text (e : ProviderError) : string :=
  match e with
  | InvalidProfile reason => "invalid provider profile: " ++ reason
  | MissingCredential => "provider credential is required but unavailable"
  | ProviderCancelled => "provider request cancelled"
  | InterruptedUnknown what => "provider interrupted with unknown outcome: " ++ what
  | RequestFailed what => "provider request failed: " ++ what
  | MalformedStream => "provider returned malformed stream"
  | RateLimited what => "rate limit exceeded: " ++ what
  | NetworkError what => "network error: " ++ what
  | ProviderTimeout => "timeout"
  | ModelUnavailable what => "model unavailable: " ++ what
  | MalformedToolCall what => "malformed tool call: " ++ what
  end.

Definition is_transient (e : ProviderError) : bool :=
  match e with
  | RateLimited _ | NetworkError _ | ProviderTimeout | ModelUnavailable _ => true
  | _ => false
  end.

(** ** Messages *)

Record ProviderMessage := mkMessage { pm_role : string; pm_content : string }.

Definition system_message (content : string) := mkMessage "system" content.
Definition user_message (content : string) := mkMessage "user" content.
Definition assistant_message (content : string) := mkMessage "assistant" content.
Definition tool_message (content : string) := mkMessage "tool" content.

Definition message_json (m : ProviderMessage) : JValue :=
  json_object [("role", JString (pm_role m)); ("content", JString (pm_content m))].

(** ** Profiles *)

Inductive CredentialStrategy :=
  | CredentialNone
  | KeychainReference (service account : string)
  | SystemBrowserOAuth (authorization_url token_url client_id keychain_service keychain_account : string).

Inductive OpenAiHttpApi := ChatCompletions | Responses.

Record ProviderProfile := mkProfile {
  pp_id : string;
  pp_endpoint : string;
  pp_model : string;
  pp_credential_strategy : CredentialStrategy;
  pp_openai_http_api : OpenAiHttpApi;
}.

(** [CredentialResolver] of profiles without a credential *)
Definition no_credential_resolve (p : ProviderProfile) : result ProviderError (option string) :=
  match pp_credential_strategy p with
  | CredentialNone => Ok None
  | KeychainReference _ _ | SystemBrowserOAuth _ _ _ _ _ => Err MissingCredential
  end.

(** Fragment and path in the url crate. *)
Class UrlPath := {
  url_fragment : Url → option string;
  url_path : Url → string;
  url_set_path : string → Url → Url;
}.

Section profiles.
Context `{UrlCrate} `{!UrlQuery} `{!UrlPath}.

Definition is_loopback_name (host : option string) : bool :=
  match host with
  | Some h => String.eqb h "localhost" || String.eqb h "127.0.0.1" || String.eqb h "::1"
  | None => false
  end.

Definition validate (p : ProviderProfile) : result ProviderError () :=
  if is_empty (trim (pp_id p)) || is_empty (trim (pp_model p))
  then Err (InvalidProfile "id and model are required")
  else
    endpoint ← ok_or (url_parse (pp_endpoint p)) (InvalidProfile "endpoint must be an absolute URL");
    if bool_decide (is_Some (url_query endpoint)) || bool_decide (is_Some (url_fragment endpoint))
    then Err (InvalidProfile "endpoint must not contain query or fragment")
    else
      let local := is_loopback_name (url_host_str endpoint) in
      let https := String.eqb (url_scheme endpoint) "https" in
      match pp_credential_strategy p with
      | CredentialNone =>
          if (String.eqb (url_scheme endpoint) "http" || https) && local then Ok tt
          else Err (InvalidProfile "no-secret profiles are limited to loopback endpoints")
      | KeychainReference service account =>
          if https && negb (is_empty service) && negb (is_empty account) then Ok tt
          else Err (InvalidProfile
            "credential profiles require HTTPS and non-empty Keychain reference")
      | SystemBrowserOAuth authorization_url token_url client_id keychain_service keychain_account =>
          if https && negb (is_empty authorization_url) && negb (is_empty token_url)
             && negb (is_empty client_id) && negb (is_empty keychain_service)
             && negb (is_empty keychain_account)
             && bool_decide (is_Some (url_parse authorization_url))
             && bool_decide (is_Some (url_parse token_url))
          then Ok tt
          else Err (InvalidProfile
            "OAuth profiles require HTTPS endpoint and valid authorization/token URLs")
      end.

(** [chat_completions_url], [models_url], [request_url] and [messages_url]. *)
Definition endpoint_url (suffix : string) (p : ProviderProfile) : result ProviderError Url :=
  _ ← validate p;
  endpoint ← ok_or (url_parse (pp_endpoint p)) (InvalidProfile "endpoint must be an absolute URL");
  let base := trim_end_matches "/" (url_path endpoint) in
  Ok (url_set_path (base ++ suffix)%string endpoint).

Definition chat_completions_url := endpoint_url "/v1/chat/completions".
Definition models_url := endpoint_url "/v1/models".
Definition messages_url := endpoint_url "/v1/messages".

Definition request_url (p : ProviderProfile) : result ProviderError Url :=
  endpoint_url (match pp_openai_http_api p with
                | ChatCompletions => "/v1/chat/completions"
                | Responses => "/v1/responses"
                end) p.
End profiles.

(** ** Options of a request *)

Record StreamOptions := mkStreamOptions {
  so_model_id : option string;
  so_reasoning_effort : option string;
  so_service_tier : option string;
  so_provider_options : JValue;
}.

Definition StreamOptions_default : StreamOptions := mkStreamOptions None None None JNull.

Definition SECRETISH : list string :=
  ["api_key"; "token"; "secret"; "password"; "authorization"; "credential"].

Definition provider_option_key_is_secretish (key : string) : bool :=
  existsb (contains (to_ascii_lowercase key)) SECRETISH.

Definition validate_session_provider_options (v : JValue) : result string () :=
  match v with
  | JNull => Ok tt
  | JObject fields =>
      match List.find (λ kv, provider_option_key_is_secretish kv.1) fields with
      | Some (key, _) => Err ("provider_options key `" ++ key ++ "` rejected: looks like a secret")%string
      | None => Ok tt
      end
  | _ => Err "provider_options must be a JSON object or null"
  end.

Definition RESERVED : list string :=
  ["model"; "messages"; "stream"; "input"; "tools"; "tool_choice"; "system"; "max_tokens"].

Definition non_empty (o : option string) : option string :=
  s ← o; if is_empty s then None else Some s.

Definition set_text (key : string) (o : option string) (body : list (string * JValue)) :=
  match non_empty o with
  | Some s => map_insert key (JString s) body
  | None => body
  end.

Definition apply_option (body : list (string * JValue)) (kv : string * JValue)
    : list (string * JValue) :=
  let '(key, value) := kv in
  if bool_decide (key ∈ RESERVED) then body
  else if provider_option_key_is_secretish key then body
  else if (String.eqb key "reasoning_effort" || String.eqb key "service_tier")
          && bool_decide (is_Some (field key body)) then body
  else map_insert key value body.

Definition apply_to_request_body (o : StreamOptions) (body : list (string * JValue))
    : list (string * JValue) :=
  let body := set_text "reasoning_effort" (so_reasoning_effort o) body in
  let body := set_text "service_tier" (so_service_tier o) body in
  match as_object (so_provider_options o) with
  | Some fields => foldl apply_option body fields
  | None => body
  end.

(** ** Bodies of requests *)

Definition openai_tools_payload : JValue :=
  JArray ((λ s, json_object [("type", JString "function");
    ("function", json_object [("name", JString (schema_name s));
      ("description", JString (schema_description s)); ("parameters", schema_parameters s)])]) <$> schemas).

Definition openai_responses_tools_payload : JValue :=
  JArray ((λ s, json_object [("type", JString "function"); ("name", JString (schema_name s));
    ("description", JString (schema_description s)); ("parameters", schema_parameters s)]) <$> schemas).

Definition anthropic_tools_payload : JValue :=
  JArray ((λ s, json_object [("name", JString (schema_name s));
    ("description", JString (schema_description s)); ("input_schema", schema_parameters s)]) <$> schemas).

Definition build_responses_input (messages : list ProviderMessage) : JValue :=
  JArray ((λ m,
    let role := if bool_decide (pm_role m ∈ ["system"; "user"; "assistant"]) then pm_role m else "user" in
    json_object [("role", JString role); ("content", JString (pm_content m))]) <$> messages).

Definition request_model (p : ProviderProfile) (o : StreamOptions) : string :=
  default (pp_model p) (non_empty (so_model_id o)).

(** [stream_once] of the OpenAI-compatible provider *)
Definition compat_request_body (p : ProviderProfile) (messages : list ProviderMessage)
    (o : StreamOptions) : JValue :=
  JObject (apply_to_request_body o (json_fields [("model", JString (request_model p o));
    ("stream", JBool true); ("messages", JArray (message_json <$> messages))])).

Definition openai_request_body (p : ProviderProfile) (messages : list ProviderMessage)
    (o : StreamOptions) : JValue :=
  let model := JString (request_model p o) in
  JObject (apply_to_request_body o (match pp_openai_http_api p with
    | ChatCompletions => json_fields [("model", model); ("messages", JArray (message_json <$> messages));
        ("stream", JBool true); ("tools", openai_tools_payload); ("tool_choice", JString "auto")]
    | Responses => json_fields [("model", model); ("input", build_responses_input messages);
        ("stream", JBool true); ("tools", openai_responses_tools_payload);
        ("tool_choice", JString "auto")]
    end)).

Definition is_system (m : ProviderMessage) : bool := String.eqb (pm_role m) "system".

Definition anthropic_message (m : ProviderMessage) : JValue :=
  let role := if bool_decide (pm_role m ∈ ["user"; "assistant"]) then pm_role m else "user" in
  json_object [("role", JString role); ("content", JString (pm_content m))].

Definition build_request_body (p : ProviderProfile) (messages : list ProviderMessage)
    (o : StreamOptions) : JValue :=
  let system_parts := pm_content <$> List.filter is_system messages in
  let anthropic_messages := anthropic_message <$> List.filter (λ m, negb (is_system m)) messages in
  let body := json_fields [("model", JString (request_model p o));
    ("messages", JArray anthropic_messages); ("stream", JBool true); ("max_tokens", JInt 8192);
    ("tools", anthropic_tools_payload)] in
  let body := match system_parts with
    | [] => body
    | _ => map_insert "system" (JString (join (nl ++ nl) system_parts)) body
    end in
  JObject (apply_to_request_body o body).

(** ** Catalogs *)

Record ModelCapabilityFlags := mkCapabilityFlags {
  mc_tools : bool;
  mc_reasoning : bool;
  mc_vision : bool;
  mc_context_window : N;
}.

Definition ModelCapabilityFlags_default : ModelCapabilityFlags := mkCapabilityFlags false false false 0.

Record ModelCatalogEntry := mkCatalogEntry {
  ce_model_id : string;
  ce_model_display_name : option string;
  ce_reasoning_efforts : list string;
  ce_default_reasoning_effort : option string;
  ce_capabilities : ModelCapabilityFlags;
  ce_service_tiers : list string;
  ce_provider_options : JValue;
}.

Definition id_only (model_id : string) : ModelCatalogEntry :=
  mkCatalogEntry model_id None [] None ModelCapabilityFlags_default [] JNull.

Inductive ModelCatalogResult :=
  | Discovered (models : list ModelCatalogEntry)
  | StaticFallback (models : list ModelCatalogEntry) (reason_redacted : string).

(** A trimmed text that is not empty. *)
Definition trimmed_text (v : JValue) : option string :=
  s ← as_str v; non_empty (Some (trim s)).

(** The first of the keys that holds an array. *)
Fixpoint string_list_field (raw : JValue) (keys : list string) : list string :=
  match keys with
  | [] => []
  | key :: keys' =>
      match jget raw key ≫= as_array with
      | Some items => omap trimmed_text items
      | None => string_list_field raw keys'
      end
  end.

(** [Value::pointer] of a name in the object [architecture]. *)
Definition architecture_field (raw : JValue) (key : string) : option JValue :=
  a ← jget raw "architecture"; jget a key.

Definition modality_includes_image (raw : JValue) : bool :=
  match architecture_field raw "input_modalities" ≫= as_array with
  | Some mods =>
      existsb (λ v, from_option (λ s, String.eqb (to_ascii_lowercase s) "image") false (as_str v)) mods
  | None =>
      match architecture_field raw "modality" ≫= as_str with
      | Some modality => contains (to_ascii_lowercase modality) "image"
      | None => false
      end
  end.

Definition CATALOG_FIELDS : list string :=
  ["id"; "name"; "display_name"; "context_length"; "context_window"; "reasoning_efforts";
   "supported_reasoning_efforts"; "default_reasoning_effort"; "service_tiers";
   "supported_service_tiers"; "supported_parameters"; "supported_features"].

Definition is_extra (kv : string * JValue) : bool :=
  negb (bool_decide (kv.1 ∈ CATALOG_FIELDS)) && negb (provider_option_key_is_secretish kv.1).

Definition extract_non_secret_extras (raw : JValue) : JValue :=
  match as_object raw with
  | Some fields =>
      match List.filter is_extra fields with [] => JNull | extras => JObject extras end
  | None => JNull
  end.

Definition or_else {A} (o o' : option A) : option A := match o with Some _ => o | None => o' end.

Definition catalog_entry (raw : JValue) : option ModelCatalogEntry :=
  id ← jget raw "id" ≫= trimmed_text;
  let context_window := default 0%N
    (or_else (jget raw "context_length") (jget raw "context_window") ≫= as_u64) in
  let reasoning_efforts :=
    string_list_field raw ["reasoning_efforts"; "supported_reasoning_efforts"] in
  let supported := string_list_field raw ["supported_parameters"; "supported_features"] in
  let one_of names := existsb (λ p, bool_decide (p ∈ names)) supported in
  Some (mkCatalogEntry id
    (or_else (jget raw "name") (jget raw "display_name") ≫= trimmed_text)
    reasoning_efforts (jget raw "default_reasoning_effort" ≫= trimmed_text)
    (mkCapabilityFlags (one_of ["tools"; "tool_choice"])
      (negb (bool_decide (reasoning_efforts = []))
       || one_of ["reasoning"; "reasoning_effort"; "include_reasoning"])
      (one_of ["vision"; "image"] || modality_includes_image raw) context_window)
    (string_list_field raw ["service_tiers"; "supported_service_tiers"])
    (extract_non_secret_extras raw)).

Definition by_model_id (x y : ModelCatalogEntry) : Prop :=
  String.compare (ce_model_id x) (ce_model_id y) ≠ Gt.

#[export] Instance by_model_id_dec : RelDecision by_model_id.
Proof. intros x y. unfold by_model_id. apply _. Defined.

(** [Vec::dedup_by] on the id: of equal neighbours the first stays. *)
Fixpoint dedup_models (l : list ModelCatalogEntry) : list ModelCatalogEntry :=
  match l with
  | [] => []
  | x :: l' =>
      match dedup_models l' with
      | y :: rest =>
          if String.eqb (ce_model_id x) (ce_model_id y) then x :: rest else x :: y :: rest
      | [] => [x]
      end
  end.

(** [data] is what the body decodes to, if it does. *)
Definition parse_openai_models_list (data : option (list JValue))
    : result ProviderError (list ModelCatalogEntry) :=
  data ← ok_or data MalformedStream;
  match dedup_models (merge_sort by_model_id (omap catalog_entry data)) with
  | [] => Err (RequestFailed "empty models list")
  | entries => Ok entries
  end.

(** ** The registry *)

Inductive ProviderHealth :=
  | HealthUnknown
  | Healthy
  | Unavailable (last_error_redacted : string).

Inductive ModelAvailability := Available | AvailabilityUnavailable | AvailabilityUnknown.

(** [AgentCapabilitySnapshot] is passed on as it is. *)
Record ModelProviderStatus (Caps : Type) := mkProviderStatus {
  ps_provider_id : string;
  ps_model_id : string;
  ps_health : ProviderHealth;
  ps_is_default : bool;
  ps_provider_display_name : option string;
  ps_model_display_name : option string;
  ps_availability : ModelAvailability;
  ps_reasoning_efforts : list string;
  ps_default_reasoning_effort : option string;
  ps_capabilities : ModelCapabilityFlags;
  ps_service_tiers : list string;
  ps_provider_options : JValue;
  ps_agent_capabilities : option Caps;
}.
Arguments mkProviderStatus {Caps}.
Arguments ps_provider_id {Caps} _.
Arguments ps_is_default {Caps} _.

(** What the registry asks of a provider; [discover_models] answered. *)
Record RegisteredProvider (Caps : Type) := mkRegistered {
  rp_provider_id : string;
  rp_model_id : string;
  rp_health : ProviderHealth;
  rp_agent_capabilities : option Caps;
  rp_discovered : ModelCatalogResult;
}.
Arguments mkRegistered {Caps}.
Arguments rp_provider_id {Caps} _.
Arguments rp_model_id {Caps} _.
Arguments rp_health {Caps} _.
Arguments rp_agent_capabilities {Caps} _.
Arguments rp_discovered {Caps} _.

Section registry.
Context {Caps : Type}.

Abbreviation Registry := (gmap string (RegisteredProvider Caps)).
Abbreviation Status := (ModelProviderStatus Caps).

Definition register (p : RegisteredProvider Caps) : stateR Registry ProviderError () := λ m,
  if is_empty (rp_provider_id p) then (m, Err (InvalidProfile "provider_id cannot be empty"))
  else (<[rp_provider_id p := p]> m, Ok tt).

Definition registry_get (id : string) (m : Registry) : result ProviderError (RegisteredProvider Caps) :=
  ok_or (m !! id) (RequestFailed ("provider not found: " ++ id)).

Definition unregister (id : string) (m : Registry) : Registry * bool :=
  (delete id m, bool_decide (is_Some (m !! id))).

Definition by_name (x y : string) : Prop := String.compare x y ≠ Gt.

#[export] Instance by_name_dec : RelDecision by_name.
Proof. intros x y. unfold by_name. apply _. Defined.

Definition sorted_ids (m : Registry) : list string := merge_sort by_name (map_to_list m).*1.

Definition status_basic (provider_id model_id : string) (health : ProviderHealth) (is_default : bool)
    : Status :=
  mkProviderStatus provider_id model_id health is_default (Some provider_id) (Some model_id)
    (match health with
     | Healthy => Available
     | Unavailable _ => AvailabilityUnavailable
     | HealthUnknown => AvailabilityUnknown
     end) [] None ModelCapabilityFlags_default [] JNull None.

Definition with_agent_capabilities (c : option Caps) (s : Status) : Status :=
  match s with
  | mkProviderStatus a b h d pd md av re dr ca st po _ => mkProviderStatus a b h d pd md av re dr ca st po c
  end.

Definition with_default (d : bool) (s : Status) : Status :=
  match s with
  | mkProviderStatus a b h _ pd md av re dr ca st po ag => mkProviderStatus a b h d pd md av re dr ca st po ag
  end.

Definition list_status (default_provider_id : string) (m : Registry) : list Status :=
  omap (λ id, p ← m !! id;
    Some (with_agent_capabilities (rp_agent_capabilities p)
      (status_basic id (rp_model_id p) (rp_health p) (String.eqb id default_provider_id))))
    (sorted_ids m).

Definition merge_discovery_tag (existing : JValue) (discovery : string) (reason : option string)
    : JValue :=
  let fields := default [] (as_object existing) in
  let fields := map_insert "discovery" (JString discovery) fields in
  JObject (match reason with
           | Some reason => map_insert "reason" (JString reason) fields
           | None => fields
           end).

(** [status_from_entry] with what [list_status_with_discovery] sets after it. *)
Definition status_from_entry (p : RegisteredProvider Caps) (health : ProviderHealth)
    (availability : ModelAvailability) (discovery : string) (reason : option string)
    (is_default : bool) (e : ModelCatalogEntry) : Status :=
  mkProviderStatus (rp_provider_id p) (ce_model_id e) health is_default
    (Some (rp_provider_id p))
    (Some (default (ce_model_id e) (ce_model_display_name e))) availability
    (ce_reasoning_efforts e) (ce_default_reasoning_effort e) (ce_capabilities e)
    (ce_service_tiers e) (merge_discovery_tag (ce_provider_options e) discovery reason)
    (rp_agent_capabilities p).

Definition provider_rows (default_provider_id : string) (p : RegisteredProvider Caps) : list Status :=
  let is_default := String.eqb (rp_provider_id p) default_provider_id in
  let '(models, row) := match rp_discovered p with
    | Discovered models => (models, status_from_entry p Healthy Available "remote_v1_models" None)
    | StaticFallback models reason =>
        (models, status_from_entry p HealthUnknown AvailabilityUnknown "static_fallback" (Some reason))
    end in
  imap (λ i e, row (is_default && (i =? 0)) e) models.

(** The first default row stays one, the others do not. *)
Fixpoint keep_one_default (saw_default : bool) (l : list Status) : list Status :=
  match l with
  | [] => []
  | s :: l' =>
      if ps_is_default s
      then with_default (negb saw_default) s :: keep_one_default true l'
      else s :: keep_one_default saw_default l'
  end.

Fixpoint set_first_default (default_provider_id : string) (l : list Status) : list Status :=
  match l with
  | [] => []
  | s :: l' =>
      if String.eqb (ps_provider_id s) default_provider_id then with_default true s :: l'
      else s :: set_first_default default_provider_id l'
  end.

Definition list_status_with_discovery (default_provider_id : string) (m : Registry) : list Status :=
  let out := concat (provider_rows default_provider_id <$> omap (λ id, m !! id) (sorted_ids m)) in
  let out := keep_one_default false out in
  if existsb ps_is_default out then out else set_first_default default_provider_id out.

Definition catalog_models (r : ModelCatalogResult) : list ModelCatalogEntry :=
  match r with Discovered models | StaticFallback models _ => models end.

(** [advertised_reasoning_efforts] and [advertised_service_tiers] *)
Definition advertised {A} (get : ModelCatalogEntry → A) (nothing : A) (provider_id model_id : string)
    (m : Registry) : result ProviderError A :=
  p ← registry_get provider_id m;
  let models := catalog_models (rp_discovered p) in
  match List.find (λ e, String.eqb (ce_model_id e) model_id) models with
  | Some e => Ok (get e)
  | None =>
      match models with
      | [] => Ok nothing
      | _ => Err (ModelUnavailable
          ("model `" ++ model_id ++ "` not in provider `" ++ provider_id ++ "` catalog")%string)
      end
  end.

Definition advertised_reasoning_efforts :=
  advertised (λ e, (ce_reasoning_efforts e, ce_default_reasoning_effort e)) ([], None).

Definition advertised_service_tiers := advertised ce_service_tiers [].
End registry.

(** ** What the options may change *)

(** Where a field of a request comes from. *)
Definition option_source (o : StreamOptions) (body : list (string * JValue)) (key : string)
    (v : JValue) : Prop :=
  field key body = Some v ∨
  (key = "reasoning_effort" ∧ ∃ s, so_reasoning_effort o = Some s ∧ s ≠ "" ∧ v = JString s) ∨
  (key = "service_tier" ∧ ∃ s, so_service_tier o = Some s ∧ s ≠ "" ∧ v = JString s) ∨
  ∃ fields, so_provider_options o = JObject fields ∧ (key, v) ∈ fields ∧ key ∉ RESERVED ∧
    provider_option_key_is_secretish key = false.

Lemma non_empty_some o s : non_empty o = Some s ↔ o = Some s ∧ s ≠ "".
Proof.
  unfold non_empty, is_empty. destruct o as [x|]; cbn; [|naive_solver].
  destruct (String.eqb_spec x ""); naive_solver.
Qed.

Lemma set_text_field key o body k v :
  field k (set_text key o body) = Some v →
  field k body = Some v ∨ (k = key ∧ ∃ s, o = Some s ∧ s ≠ "" ∧ v = JString s).
Proof.
  unfold set_text. destruct (non_empty o) as [s|] eqn:Ho; [|by left].
  apply non_empty_some in Ho as [-> Hs]. rewrite field_insert.
  destruct (String.eqb_spec key k) as [<-|]; [|by left]. intros [= <-]. right. eauto.
Qed.

Lemma apply_options_field fields body k v :
  field k (foldl apply_option body fields) = Some v →
  field k body = Some v ∨
  (k, v) ∈ fields ∧ k ∉ RESERVED ∧ provider_option_key_is_secretish k = false.
Proof.
  revert body. induction fields as [|[key x] fields IH]; intros body; [by left|].
  intros [Hb|(Hin & ? & ?)]%IH; [|right; split_and!; [by right|done|done]].
  revert Hb. unfold apply_option. case_bool_decide as Hr; [by left|].
  destruct (provider_option_key_is_secretish key) eqn:Hs; [by left|].
  destruct (_ && _); [by left|]. rewrite field_insert.
  destruct (String.eqb_spec key k) as [<-|]; [|by left]. intros [= <-]. right.
  split_and!; [by left|done|done].
Qed.

(** The options never replace a reserved field. *)
Lemma apply_options_keep fields body k :
  k ∈ RESERVED → field k (foldl apply_option body fields) = field k body.
Proof.
  intros Hk. revert body. induction fields as [|[key x] fields IH]; intros body; [done|].
  cbn [foldl]. rewrite IH. unfold apply_option. case_bool_decide as Hr; [done|].
  destruct (provider_option_key_is_secretish key); [done|]. destruct (_ && _); [done|].
  rewrite field_insert. by destruct (String.eqb_spec key k) as [->|].
Qed.

(** Whatever the options of a session are, a field of the request is one of the
    body before, or the reasoning effort or service tier the session chose, or one
    of its provider options whose name is not reserved and does not look like a
    credential; the reserved fields (model, messages, tools, limits) stay as they
    were, and a chosen effort or tier wins over a provider option of that name. *)
Theorem options_stay_in_bounds o body key :
  (∀ v, field key (apply_to_request_body o body) = Some v → option_source o body key v) ∧
  (key ∈ RESERVED → field key (apply_to_request_body o body) = field key body) ∧
  (∀ s, so_service_tier o = Some s → s ≠ "" →
     field "service_tier" (apply_to_request_body o body) = Some (JString s)).
Proof.
  unfold apply_to_request_body.
  set (b1 := set_text "reasoning_effort" (so_reasoning_effort o) body).
  set (b2 := set_text "service_tier" (so_service_tier o) b1).
  assert (∀ v, field key b2 = Some v → option_source o body key v) as Hb2.
  { intros v [[Hv|(-> & Hs)]%set_text_field|(-> & Hs)]%set_text_field; unfold option_source; eauto. }
  assert (key ∈ RESERVED → field key b2 = field key body) as Hkeep.
  { intros Hk. assert (key ≠ "service_tier" ∧ key ≠ "reasoning_effort") as [H1 H2]
      by (split; intros ->; vm_compute in Hk; set_solver).
    unfold b2, b1, set_text.
    destruct (non_empty (so_service_tier o)), (non_empty (so_reasoning_effort o));
      rewrite ?field_insert;
      by destruct (String.eqb_spec "service_tier" key), (String.eqb_spec "reasoning_effort" key). }
  assert (∀ s, so_service_tier o = Some s → s ≠ "" → field "service_tier" b2 = Some (JString s)) as Htier.
  { intros s Hs Hne. unfold b2, set_text. rewrite (proj2 (non_empty_some _ s)) by done.
    by rewrite field_insert. }
  destruct (so_provider_options o) as [| | | | |items|fields] eqn:Hopt; cbn [as_object];
    try (split_and!; [done|done|done]).
  split_and!.
  - intros v [Hv|(Hin & Hr & Hs)]%apply_options_field; [by apply Hb2|].
    unfold option_source. do 3 right. by exists fields.
  - intros Hk. by rewrite apply_options_keep, Hkeep.
  - intros s Hs Hne. specialize (Htier s Hs Hne). clear Hb2 Hkeep Hopt. clearbody b2. revert b2 Htier.
    induction fields as [|[k x] fields IH]; intros b2 Htier; [done|]. apply IH.
    unfold apply_option. case_bool_decide; [done|].
    destruct (provider_option_key_is_secretish k); [done|].
    destruct (String.eqb_spec k "service_tier") as [->|Hk].
    + rewrite Htier. by rewrite orb_true_r, bool_decide_true by eauto.
    + destruct (_ && _); [done|]. rewrite field_insert. by destruct (String.eqb_spec k "service_tier").
Qed.

(** Only the names at the top are looked at. *)
Example nested_secret_is_sent :
  field "extra" (apply_to_request_body
    (mkStreamOptions None None None (JObject [("extra", JObject [("api_key", JString "sk")])])) [])
  = Some (JObject [("api_key", JString "sk")]).
Proof. reflexivity. Qed.

Example option_source_sample :
  option_source (mkStreamOptions None None None (JObject [("seed", JInt 1)])) [] "seed" (JInt 1).
Proof. unfold option_source. do 3 right. exists [("seed", JInt 1)]. vm_compute. split_and!; set_solver. Qed.

(** ** One default in the catalog *)

Section catalog.
Context {Caps : Type}.
Implicit Types (s : ModelProviderStatus Caps) (l : list (ModelProviderStatus Caps)).

Definition defaults l : nat := length (List.filter ps_is_default l).

Lemma default_with b s : ps_is_default (with_default b s) = b.
Proof. by destruct s. Qed.

Lemma provider_with b s : ps_provider_id (with_default b s) = ps_provider_id s.
Proof. by destruct s. Qed.

Lemma keep_one_defaults l b :
  defaults (keep_one_default b l) = if b then 0 else if existsb ps_is_default l then 1 else 0.
Proof.
  unfold defaults. revert b. induction l as [|s l IH]; intros b; [by destruct b|].
  cbn [keep_one_default existsb]. destruct (ps_is_default s) eqn:Hs; cbn [List.filter].
  - rewrite default_with. destruct b; cbn; by rewrite IH.
  - rewrite Hs, IH. by destruct b.
Qed.

Lemma keep_one_ids l b : ps_provider_id <$> keep_one_default b l = ps_provider_id <$> l.
Proof.
  revert b. induction l as [|s l IH]; intros b; [done|]. cbn.
  destruct (ps_is_default s); cbn; rewrite ?provider_with; by rewrite IH.
Qed.

Lemma keep_one_any l b : b = false → existsb ps_is_default (keep_one_default b l) = existsb ps_is_default l.
Proof.
  intros ->. induction l as [|s l IH]; [done|]. cbn. destruct (ps_is_default s) eqn:Hs; cbn.
  - by rewrite default_with.
  - by rewrite Hs, IH.
Qed.

Lemma keep_one_of l b d :
  (∀ s, s ∈ l → ps_is_default s = true → ps_provider_id s = d) →
  ∀ s, s ∈ keep_one_default b l → ps_is_default s = true → ps_provider_id s = d.
Proof.
  revert b. induction l as [|x l IH]; intros b Hl s; [by intros ?%not_elem_of_nil|].
  assert (∀ s, s ∈ l → ps_is_default s = true → ps_provider_id s = d) as Hl' by (intros; apply Hl; [by right|done]).
  cbn. destruct (ps_is_default x) eqn:Hx; intros [->|Hs]%elem_of_cons Hd; try by eapply IH.
  - rewrite provider_with. apply Hl; [by left|done].
  - apply Hl; [by left|done].
Qed.

Lemma set_first_defaults d l :
  existsb ps_is_default l = false →
  defaults (set_first_default d l) = if existsb (λ s, String.eqb (ps_provider_id s) d) l then 1 else 0.
Proof.
  unfold defaults. induction l as [|s l IH]; [done|]. cbn.
  destruct (ps_is_default s) eqn:Hs; [done|]. cbn. intros Hl.
  destruct (String.eqb _ d); cbn [List.filter orb].
  - rewrite default_with. cbn. f_equal. rewrite List.filter_ext_in with (g := λ _, false).
    + clear. by induction l.
    + intros x Hx. destruct (ps_is_default x) eqn:E; [|done].
      assert (existsb ps_is_default l = true) by (apply existsb_exists; eauto). congruence.
  - rewrite Hs. by apply IH.
Qed.

Lemma set_first_ids d l : ps_provider_id <$> set_first_default d l = ps_provider_id <$> l.
Proof.
  induction l as [|s l IH]; [done|]. cbn. destruct (String.eqb _ d); cbn; rewrite ?provider_with; [done|].
  by rewrite IH.
Qed.

Lemma set_first_of d l :
  existsb ps_is_default l = false →
  ∀ s, s ∈ set_first_default d l → ps_is_default s = true → ps_provider_id s = d.
Proof.
  induction l as [|x l IH]; [by intros _ s ?%not_elem_of_nil|]. cbn.
  destruct (ps_is_default x) eqn:Hx; [done|]. cbn. intros Hl s.
  destruct (String.eqb_spec (ps_provider_id x) d) as [E|];
    intros [->|Hs]%elem_of_cons Hd; try by rewrite ?provider_with.
  - assert (existsb ps_is_default l = true); [|congruence]. apply existsb_exists. exists s.
    split; [by apply list_elem_of_In|done].
  - congruence.
  - by apply IH.
Qed.

Lemma ids_any (f : string → bool) l l' :
  ps_provider_id <$> l = ps_provider_id <$> l' →
  existsb (λ s, f (ps_provider_id s)) l = existsb (λ s, f (ps_provider_id s)) l'.
Proof.
  revert l'. induction l as [|s l IH]; intros [|s' l'] E; try done.
  injection E as E1 E2. cbn. by rewrite E1, (IH l').
Qed.

Lemma provider_rows_default d (p : RegisteredProvider Caps) s :
  s ∈ provider_rows d p → ps_is_default s = true → ps_provider_id s = d.
Proof.
  unfold provider_rows. destruct (rp_discovered p) as [models|models reason];
    intros (i & e & -> & _)%elem_of_lookup_imap; cbn; intros [Hd _]%andb_prop; by apply String.eqb_eq.
Qed.

(** A catalog with discovered models has one default row when the default
    provider lists any model and none otherwise, and the row is that provider's:
    a provider that is not the default never gets it. *)
Theorem one_default_row d (m : gmap string (RegisteredProvider Caps)) :
  let rows := list_status_with_discovery d m in
  defaults rows = (if existsb (λ s, String.eqb (ps_provider_id s) d) rows then 1 else 0) ∧
  ∀ s, s ∈ rows → ps_is_default s = true → ps_provider_id s = d.
Proof.
  intros rows. unfold list_status_with_discovery in rows.
  set (out := concat _) in rows.
  assert (∀ s, s ∈ out → ps_is_default s = true → ps_provider_id s = d) as Hout.
  { intros s (x & Hx & Hs)%list_elem_of_In%in_concat. apply list_elem_of_In, list_elem_of_fmap in Hx as (p & -> & _).
    apply list_elem_of_In in Hs.
    by eapply provider_rows_default. }
  subst rows. cbv zeta. destruct (existsb ps_is_default (keep_one_default false out)) eqn:Hany.
  - split; [|by apply keep_one_of].
    rewrite keep_one_defaults. rewrite keep_one_any in Hany by done. rewrite Hany.
    rewrite (ids_any (λ i, String.eqb i d) _ _ (keep_one_ids out false)).
    apply existsb_exists in Hany as (s & Hs & Hd). apply list_elem_of_In in Hs.
    assert (existsb (λ s, String.eqb (ps_provider_id s) d) out = true) as ->; [|done].
    apply existsb_exists. exists s. split; [by apply list_elem_of_In|].
    apply String.eqb_eq. by apply Hout.
  - split; [|by apply set_first_of]. rewrite set_first_defaults by done.
    by rewrite (ids_any (λ i, String.eqb i d) _ _ (set_first_ids d (keep_one_default false out))).
Qed.
End catalog.
