(* ===== verification/ProviderStreams.v ===== *)
(** * Streams of the model providers

    [crates/impetus-core/src/provider.rs], [openai_provider.rs],
    [openai_responses.rs], [anthropic_provider.rs], [provider_protocol_adapter.rs]
    and the adapters: server-sent events cut out of the bytes of a response and
    turned into stream events, tool calls assembled from their fragments, and the
    requests repeated when one fails.

    A provider is a program over the callback, the network and the cancellation
    token.  A response is the list of its reads; serde's decoders are a class. *)

From S2P Require Import Prelude Str Utf8 Prog Action WebSecurity WebTools Redact ToolSchema Events Provider.

Open Scope string_scope.
Open Scope nat_scope.
Open Scope list_scope.
Open Scope impetus_scope.

(** ** Events of a stream *)

Inductive FinishReason := FinishStop | FinishLength | FinishToolCalls | FinishContentFilter | FinishOther.

Section streams.
Context `{Json}.

Inductive StreamEvent :=
  | TextDelta (delta : string)
  | StreamToolCall (id name : string) (arguments : Value)
  | Usage (prompt_tokens completion_tokens : N) (measured : bool)
  | Finish (reason : FinishReason)
  | Reasoning (content : string).

(** One read of the body of a response. *)
Inductive NetRead := NetBytes (bytes : string) | NetFailed (what : string).

(** The answer to a request: the reads, each with whether the token was cancelled
    by then, up to the end of the body. *)
Inductive HttpAnswer :=
  | HttpFailed (what : string)
  | HttpStatus (status : string)
  | HttpBody (reads : list (NetRead * bool)).

(** What a provider does: call back, send a request, ask the token, wait for the
    delay of the next attempt ([true]: cancelled meanwhile), set its health. *)
Inductive callE : Type → Type :=
  | EvEmit (e : StreamEvent) : callE (result ProviderError ())
  | EvPost (body : JValue) : callE HttpAnswer
  | EvIsCancelled : callE bool
  | EvDelay : callE bool
  | EvHealth (health : ProviderHealth) : callE ().

Abbreviation callR A := (prog callE (result ProviderError A)).

Definition cret {X A} (a : A) : prog callE (result X A) := Ret (Ok a).
Definition cfail {X A} (e : X) : prog callE (result X A) := Ret (Err e).
Definition cbind {X A B} (m : prog callE (result X A)) (f : A → prog callE (result X B))
    : prog callE (result X B) :=
  pbind m (λ r, match r with Ok a => f a | Err e => Ret (Err e) end).

Definition emit (e : StreamEvent) : callR () := Vis (EvEmit e) Ret.

Definition emit_all (l : list StreamEvent) : callR () :=
  foldr (λ e rest, cbind (emit e) (λ _, rest)) (cret tt) l.

(** ** What serde decodes *)

Record SseToolCall := mkSseToolCall {
  stc_index : N;
  stc_id : option string;
  stc_name : option string;
  stc_arguments : option string;
}.

Record SseChoice := mkSseChoice {
  sc_content : option string;
  sc_tool_calls : option (list SseToolCall);
  sc_finish_reason : option string;
}.

Record SseData := mkSseData {
  sd_choices : list SseChoice;
  sd_usage : option (N * N);
}.

Record AnthropicDelta := mkAnthropicDelta {
  ad_type : option string;
  ad_text : option string;
  ad_partial_json : option string;
  ad_stop_reason : option string;
}.

Record AnthropicSseEvent := mkAnthropicEvent {
  ae_type : string;
  (** the [input_tokens] of the usage of the message *)
  ae_message_usage : option (option N);
  ae_index : option N;
  (** type, id and name of the content block *)
  ae_content_block : option (string * option string * option string);
  ae_delta : option AnthropicDelta;
  (** the [output_tokens] of the usage *)
  ae_usage : option (option N);
}.

Record ResponsesOutputItem := mkOutputItem {
  oi_type : string;
  oi_id : option string;
  oi_call_id : option string;
  oi_name : option string;
  oi_arguments : option string;
}.

Record ResponsesSseEvent := mkResponsesEvent {
  re_type : string;
  re_delta : option string;
  re_output_index : option N;
  re_item : option ResponsesOutputItem;
  (** input and output tokens of the usage of the response *)
  re_usage : option (option N * option N);
}.

Class ProviderJson := {
  value_from_str : string → option Value;
  empty_object : Value;
  sse_data_from_str : string → option SseData;
  anthropic_event_from_str : string → option AnthropicSseEvent;
  responses_event_from_str : string → option ResponsesSseEvent;
  (** the content of the delta of every choice *)
  compat_choices_from_str : string → option (list (option string));
}.

(** ** The assembler of tool calls *)

Record PendingToolCall := mkPending {
  pt_id : option string;
  pt_name : option string;
  pt_arguments : string;
}.

Abbreviation ToolCallAssembler := (gmap N PendingToolCall).

Definition slot_of (index : N) (a : ToolCallAssembler) : PendingToolCall :=
  default (mkPending None None "") (a !! index).

(** [apply_openai_delta]; the setters are deltas of one part. *)
Definition apply_openai_delta (index : N) (id name arguments_fragment : option string)
    (a : ToolCallAssembler) : ToolCallAssembler :=
  let slot := slot_of index a in
  <[index := mkPending (or_else id (pt_id slot)) (or_else name (pt_name slot))
               (pt_arguments slot ++ default "" arguments_fragment)]> a.

Definition set_id (index : N) (id : string) := apply_openai_delta index (Some id) None None.
Definition set_name (index : N) (name : string) := apply_openai_delta index None (Some name) None.
Definition push_arguments_fragment (index : N) (fragment : string) :=
  apply_openai_delta index None None (Some fragment).

Definition by_index (x y : N * PendingToolCall) : Prop := (x.1 ≤ y.1)%N.

#[export] Instance by_index_dec : RelDecision by_index.
Proof. intros x y. unfold by_index. apply _. Defined.

Section providers.
Context `{!ProviderJson}.

(** The stream event of a slot: [None] where it is skipped. *)
Definition slot_event (acc : PendingToolCall) : option (result ProviderError StreamEvent) :=
  match pt_id acc, pt_name acc with
  | Some id, Some name =>
      if is_empty id || is_empty name then None
      else if is_empty (pt_arguments acc) then Some (Ok (StreamToolCall id name empty_object))
      else Some (match value_from_str (pt_arguments acc) with
        | Some arguments => Ok (StreamToolCall id name arguments)
        | None => Err (MalformedToolCall ("invalid JSON in tool call arguments for " ++ name)%string)
        end)
  | _, _ => None
  end.

Definition sorted_slots (a : ToolCallAssembler) : list PendingToolCall :=
  (merge_sort by_index (map_to_list a)).*2.

(** [emit_into], of the drained slots in the order of their index. *)
Fixpoint emit_slots (l : list PendingToolCall) : callR () :=
  match l with
  | [] => cret tt
  | acc :: l' =>
      match slot_event acc with
      | None => emit_slots l'
      | Some (Err e) => cfail e
      | Some (Ok e) => cbind (emit e) (λ _, emit_slots l')
      end
  end.

Definition emit_into (a : ToolCallAssembler) : callR () := emit_slots (sorted_slots a).

(** ** Framing *)

Definition MAX_SSE_EVENT_BYTES : nat := 64 * 1024.

(** The events that are complete, each with its blank line, and what is left. *)
Fixpoint sse_split (s : string) : list string * string :=
  match s with
  | "" => ([], "")
  | String a s' =>
      match s' with
      | "" => ([], s)
      | String b s'' =>
          if Ascii.eqb a newline && Ascii.eqb b newline then
            let '(events, rest) := sse_split s'' in (String a (String b "") :: events, rest)
          else
            match sse_split s' with
            | ([], rest) => ([], String a rest)
            | (event :: events, rest) => (String a event :: events, rest)
            end
      end
  end.

(** The payloads of an event. *)
Definition sse_data (event : string) : list string :=
  omap (strip_prefix "data: ") (lines (from_utf8_lossy event)).

(** Whether the stream goes on. *)
Inductive Flow (S : Type) := More (s : S) | Stop.
Arguments More {S} _.
Arguments Stop {S}.

Section consume.
Context {S : Type} (on_data : string → S → callR (Flow S)) (at_end : S → callR ()).

Fixpoint run_data (l : list string) (s : S) : callR (Flow S) :=
  match l with
  | [] => cret (More s)
  | data :: l' =>
      cbind (on_data data s) (λ x, match x with More s => run_data l' s | Stop => cret Stop end)
  end.

(** [consume_chat_completions_sse], [consume_responses_sse] and
    [consume_sse_stream] differ in what they do with a payload. *)
Fixpoint consume (reads : list (NetRead * bool)) (buffer : string) (s : S) : callR () :=
  match reads with
  | [] => at_end s
  | (read, cancelled) :: reads' =>
      if cancelled then cfail ProviderCancelled
      else match read with
      | NetFailed _ => cfail MalformedStream
      | NetBytes bytes =>
          let buffer := (buffer ++ bytes)%string in
          if MAX_SSE_EVENT_BYTES <? String.length buffer then cfail MalformedStream
          else
            let '(events, rest) := sse_split buffer in
            cbind (run_data (concat (sse_data <$> events)) s) (λ x,
              match x with More s => consume reads' rest s | Stop => cret tt end)
      end
  end.
End consume.

(** ** Chat Completions *)

Definition chat_finish_reason (reason : string) : FinishReason :=
  if String.eqb reason "stop" then FinishStop
  else if String.eqb reason "length" then FinishLength
  else if String.eqb reason "tool_calls" then FinishToolCalls
  else if String.eqb reason "content_filter" then FinishContentFilter
  else FinishOther.

Definition apply_delta (a : ToolCallAssembler) (tc : SseToolCall) : ToolCallAssembler :=
  apply_openai_delta (stc_index tc) (stc_id tc) (stc_name tc) (stc_arguments tc) a.

Definition on_chat_data (data : string) (tool_calls : ToolCallAssembler)
    : callR (Flow ToolCallAssembler) :=
  if String.eqb (trim data) "[DONE]" then cbind (emit_into tool_calls) (λ _, cret Stop)
  else match sse_data_from_str data with
  | None => cret (More tool_calls)
  | Some parsed =>
      let choice := head (sd_choices parsed) in
      let text := option_list (c ← choice; s ← sc_content c; Some (TextDelta s)) in
      let deltas := default [] (c ← choice; sc_tool_calls c) in
      let finish := option_list (c ← choice; r ← sc_finish_reason c; Some (Finish (chat_finish_reason r))) in
      let usage := option_list (u ← sd_usage parsed; Some (Usage u.1 u.2 true)) in
      cbind (emit_all (text ++ finish ++ usage)) (λ _, cret (More (foldl apply_delta tool_calls deltas)))
  end.

Definition consume_chat_completions_sse (reads : list (NetRead * bool)) : callR () :=
  consume on_chat_data emit_into reads "" ∅.

(** ** Responses *)

(** The assembler and whether a function call was seen. *)
Definition on_responses_data (data : string) (s : ToolCallAssembler * bool)
    : callR (Flow (ToolCallAssembler * bool)) :=
  let '(tool_calls, saw_function_call) := s in
  if String.eqb (trim data) "[DONE]" then cbind (emit_into tool_calls) (λ _, cret Stop)
  else match responses_event_from_str data with
  | None => cfail MalformedStream
  | Some parsed =>
      let is_type name := String.eqb (re_type parsed) name in
      let index := default 0%N (re_output_index parsed) in
      if is_type "response.output_text.delta" then
        cbind (emit_all (option_list (TextDelta <$> non_empty (re_delta parsed)))) (λ _, cret (More s))
      else if is_type "response.output_item.added" then
        match re_item parsed with
        | Some item =>
            if String.eqb (oi_type item) "function_call" then
              let tool_calls := set_id index (default "" (or_else (oi_call_id item) (oi_id item))) tool_calls in
              let tool_calls := set_name index (default "" (oi_name item)) tool_calls in
              let tool_calls := match non_empty (oi_arguments item) with
                | Some args => push_arguments_fragment index args tool_calls
                | None => tool_calls
                end in
              cret (More (tool_calls, true))
            else cret (More s)
        | None => cret (More s)
        end
      else if is_type "response.function_call_arguments.delta" then
        cret (More (match non_empty (re_delta parsed) with
                    | Some delta => push_arguments_fragment index delta tool_calls
                    | None => tool_calls
                    end, saw_function_call))
      else if is_type "response.completed" then
        cbind (emit_into tool_calls) (λ _,
        cbind (emit_all (option_list (u ← re_usage parsed;
            Some (Usage (default 0%N u.1) (default 0%N u.2) true)))) (λ _,
        cbind (emit (Finish (if saw_function_call then FinishToolCalls else FinishStop))) (λ _,
        cret Stop)))
      else if is_type "response.failed" then cfail (RequestFailed "responses stream failed")
      else cret (More s)
  end.

Definition consume_responses_sse (reads : list (NetRead * bool)) : callR () :=
  consume on_responses_data (λ s, emit_into s.1) reads "" (∅, false).

(** ** Anthropic messages *)

Definition anthropic_finish_reason (reason : string) : FinishReason :=
  if String.eqb reason "end_turn" then FinishStop
  else if String.eqb reason "max_tokens" then FinishLength
  else if String.eqb reason "tool_use" then FinishToolCalls
  else if String.eqb reason "stop_sequence" then FinishStop
  else FinishOther.

(** The assembler and the tokens of input and output. *)
Definition on_anthropic_data (data : string) (s : ToolCallAssembler * N * N)
    : callR (Flow (ToolCallAssembler * N * N)) :=
  let '(tool_calls, input_tokens, output_tokens) := s in
  match anthropic_event_from_str data with
  | None => cret (More s)
  | Some parsed =>
      let is_type name := String.eqb (ae_type parsed) name in
      let index := default 0%N (ae_index parsed) in
      if is_type "message_start" then
        cret (More (tool_calls, from_option (default 0%N) input_tokens (ae_message_usage parsed), output_tokens))
      else if is_type "content_block_start" then
        match ae_content_block parsed with
        | Some (type_field, id, name) =>
            if String.eqb type_field "tool_use" then
              cret (More (set_name index (default "" name) (set_id index (default "" id) tool_calls),
                          input_tokens, output_tokens))
            else cret (More s)
        | None => cret (More s)
        end
      else if is_type "content_block_delta" then
        match ae_delta parsed with
        | Some delta =>
            let type_field := default "" (ad_type delta) in
            if String.eqb type_field "text_delta" then
              cbind (emit_all (option_list (TextDelta <$> ad_text delta))) (λ _, cret (More s))
            else if String.eqb type_field "input_json_delta" then
              cret (More (match ad_partial_json delta with
                          | Some partial_json => push_arguments_fragment index partial_json tool_calls
                          | None => tool_calls
                          end, input_tokens, output_tokens))
            else cret (More s)
        | None => cret (More s)
        end
      else if is_type "message_delta" then
        let output_tokens := from_option (default 0%N) output_tokens (ae_usage parsed) in
        cbind (emit_all (option_list (d ← ae_delta parsed; r ← ad_stop_reason d;
          Some (Finish (anthropic_finish_reason r))))) (λ _,
        cret (More (tool_calls, input_tokens, output_tokens)))
      else if is_type "message_stop" then
        cbind (emit_all (if (0 <? input_tokens)%N || (0 <? output_tokens)%N
                         then [Usage input_tokens output_tokens true] else [])) (λ _,
        cbind (emit_into tool_calls) (λ _, cret Stop))
      else cret (More s)
  end.

Definition consume_sse_stream (reads : list (NetRead * bool)) : callR () :=
  consume on_anthropic_data (λ s, emit_into s.1.1) reads "" (∅, 0%N, 0%N).

(** ** Requests *)

(** What the profile's resolver gives. *)
Context `{UrlCrate} `{!UrlQuery} `{!UrlPath} (p : ProviderProfile).
Context (credential : result ProviderError (option string)) (max_attempts : nat).

(** [stream_with_retry]: [left] more attempts may follow. *)
Fixpoint stream_with_retry (body : JValue) (consume_body : list (NetRead * bool) → callR ())
    (left : nat) : callR () :=
  Vis EvIsCancelled (λ cancelled : bool,
    if cancelled then cfail ProviderCancelled
    else Vis (EvPost body) (λ answer : HttpAnswer,
      let again (error : string) : callR () :=
        Vis (EvHealth (Unavailable error)) (λ _,
          match left with
          | 0 => cfail (RequestFailed error)
          | S n => Vis EvDelay (λ _, stream_with_retry body consume_body n)
          end) in
      match answer with
      | HttpBody reads => Vis (EvHealth Healthy) (λ _, consume_body reads)
      | HttpStatus status => again ("HTTP " ++ status)%string
      | HttpFailed _ => again "network error"
      end)).

(** The native OpenAI provider behind its adapter. *)
Definition openai_stream_messages (messages : list ProviderMessage) (options : StreamOptions)
    : callR () :=
  match credential with
  | Err _ => cfail MissingCredential
  | Ok _ =>
      match request_url p with
      | Err e => cfail e
      | Ok _ =>
          stream_with_retry (openai_request_body p messages options)
            (match pp_openai_http_api p with
             | ChatCompletions => consume_chat_completions_sse
             | Responses => consume_responses_sse
             end) (max_attempts - 1)
      end
  end.

Definition anthropic_stream_messages (messages : list ProviderMessage) (options : StreamOptions)
    : callR () :=
  match messages_url p with
  | Err e => cfail e
  | Ok _ =>
      stream_with_retry (build_request_body p messages options) consume_sse_stream (max_attempts - 1)
  end.

(** *** The OpenAI-compatible provider *)

Inductive StreamAttemptError :=
  | AttemptProvider (e : ProviderError)
  | AfterChunk (e : ProviderError).

Inductive SseEvent := SseDone | SseChunk (text : string) | SseIgnore.

Definition first_data (event : string) : option string :=
  head (omap (strip_prefix "data: ") (lines event)).

Definition decode_sse_event (event : string) : result ProviderError SseEvent :=
  match first_data event with
  | None => Ok SseIgnore
  | Some data =>
      if String.eqb data "[DONE]" then Ok SseDone
      else
        choices ← ok_or (compat_choices_from_str data) MalformedStream;
        match mjoin (head choices) with
        | Some content => Ok (SseChunk content)
        | None => Ok SseIgnore
        end
  end.

Definition attempt_error (emitted_chunk : bool) (e : ProviderError) : StreamAttemptError :=
  if emitted_chunk then AfterChunk e else AttemptProvider e.

(** The complete events of the pending text: whether a chunk was emitted by now, and
    whether the stream is done. *)
Fixpoint compat_events (events : list string) (emitted_chunk : bool)
    : prog callE (result StreamAttemptError (bool * bool)) :=
  match events with
  | [] => cret (emitted_chunk, false)
  | event :: events' =>
      match decode_sse_event (str_prefix (String.length event - 2) event) with
      | Err e => cfail (attempt_error emitted_chunk e)
      | Ok SseDone => cret (emitted_chunk, true)
      | Ok (SseChunk chunk) =>
          Vis (EvEmit (TextDelta chunk)) (λ r : result ProviderError (),
            match r with Err e => cfail (AfterChunk e) | Ok _ => compat_events events' true end)
      | Ok SseIgnore => compat_events events' emitted_chunk
      end
  end.

(** Every read is made text by itself. *)
Fixpoint compat_read (reads : list (NetRead * bool)) (pending : string) (emitted_chunk : bool)
    : prog callE (result StreamAttemptError ()) :=
  match reads with
  | [] => cfail (attempt_error emitted_chunk MalformedStream)
  | (read, cancelled) :: reads' =>
      if cancelled then cfail (AttemptProvider ProviderCancelled)
      else match read with
      | NetFailed what => cfail (attempt_error emitted_chunk (RequestFailed what))
      | NetBytes bytes =>
          let pending := (pending ++ from_utf8_lossy bytes)%string in
          if MAX_SSE_EVENT_BYTES <? String.length pending
          then cfail (attempt_error emitted_chunk MalformedStream)
          else
            let '(events, rest) := sse_split pending in
            cbind (compat_events events emitted_chunk) (λ '(emitted_chunk, done),
              if done then cret tt else compat_read reads' rest emitted_chunk)
      end
  end.

Definition stream_once (credential : option string) (messages : list ProviderMessage)
    (options : StreamOptions) : prog callE (result StreamAttemptError ()) :=
  let missing := match pp_credential_strategy p with
    | KeychainReference _ _ => negb (bool_decide (is_Some (non_empty credential)))
    | _ => false
    end in
  if missing then cfail (AttemptProvider MissingCredential)
  else match chat_completions_url p with
  | Err e => cfail (AttemptProvider e)
  | Ok _ =>
      Vis (EvPost (compat_request_body p messages options)) (λ answer : HttpAnswer,
      Vis EvIsCancelled (λ cancelled : bool,
        if cancelled then cfail (AttemptProvider ProviderCancelled)
        else match answer with
        | HttpFailed what => cfail (AttemptProvider (RequestFailed what))
        | HttpStatus status => cfail (AttemptProvider (RequestFailed ("HTTP " ++ status)%string))
        | HttpBody reads => compat_read reads "" false
        end))
  end.

Fixpoint compat_attempts (once : prog callE (result StreamAttemptError ())) (left : nat) : callR () :=
  Vis EvIsCancelled (λ cancelled : bool,
    if cancelled then cfail ProviderCancelled
    else pbind once (λ r,
      match r with
      | Ok _ => Vis (EvHealth Healthy) (λ _, cret tt)
      | Err (AttemptProvider ProviderCancelled) => cfail ProviderCancelled
      | Err (AttemptProvider error) =>
          match left with
          | 0 => Vis (EvHealth (Unavailable (provider_error_text error))) (λ _, cfail error)
          | S n =>
              Vis EvDelay (λ cancelled : bool,
                if cancelled then cfail ProviderCancelled else compat_attempts once n)
          end
      | Err (AfterChunk error) =>
          Vis (EvHealth (Unavailable (provider_error_text error))) (λ _, cfail error)
      end)).

Definition compat_stream_messages (messages : list ProviderMessage) (options : StreamOptions)
    : callR () :=
  match credential with
  | Err _ => cfail MissingCredential
  | Ok credential => compat_attempts (stream_once credential messages options) (max_attempts - 1)
  end.
End providers.
End streams.

Arguments More {S} _.
Arguments Stop {S}.

Abbreviation callR A := (prog callE (result ProviderError A)).

(** ** Cutting the bytes of a response *)

Section framing.
Context `{Json} `{!ProviderJson}.

Lemma sse_split_none s rest : sse_split s = ([], rest) → rest = s.
Proof.
  revert rest. induction s as [|a s IH]; intros rest; cbn [sse_split]; [by intros [= <-]|].
  destruct s as [|b s]; [by intros [= <-]|].
  destruct (_ && _); [by destruct (sse_split s)|].
  destruct (sse_split (String b s)) as [[|e es] r] eqn:Hs; [|done].
  intros [= <-]. by rewrite (IH _ eq_refl).
Qed.

(** More bytes only add to what was left. *)
Lemma sse_split_app s t :
  sse_split (s ++ t) =
  ((sse_split s).1 ++ (sse_split ((sse_split s).2 ++ t)).1, (sse_split ((sse_split s).2 ++ t)).2).
Proof.
  assert (∀ n s, String.length s ≤ n → sse_split (s ++ t) =
    ((sse_split s).1 ++ (sse_split ((sse_split s).2 ++ t)).1, (sse_split ((sse_split s).2 ++ t)).2)) as Hn;
    [|by eapply Hn].
  clear s. assert (∀ s, sse_split s = ([], s) → sse_split (s ++ t) =
    ((sse_split s).1 ++ (sse_split ((sse_split s).2 ++ t)).1, (sse_split ((sse_split s).2 ++ t)).2)) as Hnone.
  { intros s ->. cbn [fst snd app]. by destruct (sse_split (s ++ t)). }
  induction n as [|n IH]; intros s Hlen.
  { destruct s; [by apply Hnone|cbn in Hlen; lia]. }
  destruct s as [|a [|b s]]; [by apply Hnone..|].
  cbn [String.length] in Hlen.
  destruct (Ascii.eqb a newline && Ascii.eqb b newline) eqn:Hab.
  - pose proof (IH s ltac:(lia)) as IH'. cbn [sse_split String.append]. rewrite Hab, IH'.
    by destruct (sse_split s) as [es r].
  - destruct (sse_split (String b s)) as [[|e es] r] eqn:Hs.
    + pose proof (sse_split_none _ _ Hs) as ->. apply Hnone.
      { change (sse_split (String a (String b s))) with
          (if Ascii.eqb a newline && Ascii.eqb b newline
           then let '(events, rest) := sse_split s in (String a (String b "") :: events, rest)
           else match sse_split (String b s) with
                | ([], rest) => ([], String a rest)
                | (event :: events, rest) => (String a event :: events, rest)
                end). by rewrite Hab, Hs. }
    + pose proof (IH (String b s) ltac:(cbn; lia)) as IH'. rewrite Hs in IH'.
      assert (sse_split (String a (String b s)) = (String a e :: es, r)) as ->.
      { cbn [sse_split] in Hs |- *. by rewrite Hab, Hs. }
      cbn [fst snd app] in *.
      change ((String a (String b s) ++ t)%string) with (String a ((String b s) ++ t)%string).
      cbn [String.append] in IH' |- *. cbn [sse_split] in IH' |- *. by rewrite Hab, IH'.
Qed.

(** The same callbacks, requests and result whatever answers them. *)
Definition same_run {A} (m1 m2 : prog callE A) : Prop :=
  ∀ S (handle : ∀ B, callE B → S → S * option B) σ, prun handle m1 σ = prun handle m2 σ.

Lemma same_run_bind {X A B} (m : prog callE (result X A)) (f g : A → prog callE (result X B)) :
  (∀ a, same_run (f a) (g a)) → same_run (cbind m f) (cbind m g).
Proof.
  intros Hfg S handle σ. unfold cbind. rewrite !prun_bind.
  destruct (prun handle m σ) as [σ' [[a|e]|]]; [apply Hfg|done|done].
Qed.

Lemma cbind_assoc_run {X A B C} (m : prog callE (result X A)) (f : A → prog callE (result X B))
    (g : B → prog callE (result X C)) :
  same_run (cbind (cbind m f) g) (cbind m (λ a, cbind (f a) g)).
Proof.
  intros S handle σ. unfold cbind. rewrite !prun_bind.
  destruct (prun handle m σ) as [σ' [[a|e]|]]; [by rewrite prun_bind|done|done].
Qed.

Lemma same_run_trans {A} (m1 m2 m3 : prog callE A) : same_run m1 m2 → same_run m2 m3 → same_run m1 m3.
Proof. intros H1 H2 S handle σ. by rewrite H1. Qed.

Lemma same_run_sym {A} (m1 m2 : prog callE A) : same_run m1 m2 → same_run m2 m1.
Proof. intros H1 S handle σ. by rewrite H1. Qed.

Section consumer.
Context {S : Type} (on_data : string → S → callR (Flow S)) (at_end : S → callR ()).

Lemma run_data_app l1 l2 s :
  same_run (run_data on_data (l1 ++ l2) s)
    (cbind (run_data on_data l1 s) (λ x, match x with More s => run_data on_data l2 s | Stop => cret Stop end)).
Proof.
  revert s. induction l1 as [|d l1 IH]; intros s; [done|]. cbn [app run_data].
  eapply same_run_trans; [|apply same_run_sym, cbind_assoc_run].
  apply same_run_bind. intros [s'|]; [apply IH|done].
Qed.

(** At every read, what was left of an unfinished event and the whole read together
    stay within the limit. *)
Fixpoint fits (chunks : list string) (buffer : string) : Prop :=
  match chunks with
  | [] => True
  | bytes :: chunks' =>
      String.length (buffer ++ bytes) ≤ MAX_SSE_EVENT_BYTES ∧
      fits chunks' (sse_split (buffer ++ bytes)).2
  end.

Definition chunk_reads (chunks : list string) : list (NetRead * bool) :=
  (λ bytes, (NetBytes bytes, false)) <$> chunks.

Definition at_once (bytes : string) (s : S) : callR () :=
  cbind (run_data on_data (concat (sse_data <$> (sse_split bytes).1)) s)
    (λ x, match x with More s => at_end s | Stop => cret tt end).

Lemma consume_at_once chunks buffer s :
  sse_split buffer = ([], buffer) → fits chunks buffer →
  same_run (consume on_data at_end (chunk_reads chunks) buffer s)
    (at_once (buffer ++ concat_str chunks) s).
Proof.
  revert buffer s. induction chunks as [|bytes chunks IH]; intros buffer s Hbuf Hfits.
  { unfold at_once. cbn [concat_str]. rewrite str_app_nil_r, Hbuf. cbn. done. }
  destruct Hfits as [Hlen Hfits]. cbn [chunk_reads fmap list_fmap consume concat_str].
  rewrite (proj2 (Nat.ltb_ge _ _) Hlen).
  destruct (sse_split (buffer ++ bytes)) as [events rest] eqn:Hs. cbn [snd] in Hfits.
  assert (sse_split rest = ([], rest)) as Hrest.
  { pose proof (sse_split_app (buffer ++ bytes) "") as Happ. rewrite str_app_nil_r, Hs in Happ.
    cbn [fst snd] in Happ. rewrite str_app_nil_r in Happ. injection Happ as Hev Hr.
    destruct (sse_split rest) as [es r]. cbn [fst snd] in *. subst r.
    rewrite <-(app_nil_r events) in Hev at 1. by apply app_inv_head in Hev as <-. }
  unfold at_once. rewrite <-str_app_assoc, (sse_split_app (buffer ++ bytes)), Hs. cbn [fst snd].
  rewrite fmap_app, concat_app.
  eapply same_run_trans.
  2: { apply same_run_sym. intros S' handle σ. unfold cbind at 1. rewrite prun_bind, run_data_app.
       rewrite <-prun_bind. exact (cbind_assoc_run _ _ _ _ handle σ). }
  apply same_run_bind. intros [s'|]; [|done]. by apply IH.
Qed.

Lemma consume_same chunks chunks' s :
  fits chunks "" → fits chunks' "" → concat_str chunks = concat_str chunks' →
  same_run (consume on_data at_end (chunk_reads chunks) "" s)
    (consume on_data at_end (chunk_reads chunks') "" s).
Proof.
  intros H1 H2 E. eapply same_run_trans; [by apply consume_at_once|].
  apply same_run_sym. rewrite (E : concat_str chunks = _). by apply consume_at_once.
Qed.
End consumer.

(** C21: How the network cuts a response into reads does not matter to the native
    providers: two ways of cutting the same bytes, where at every read the unfinished
    event and the whole read together stay within 64 KiB, give the same callbacks in
    the same order and the same result, also where a cut falls inside a character or
    between the two line breaks that end an event.  (A longer read is refused however
    short its events are, [long_read_refused].) *)
Theorem cuts_do_not_matter chunks chunks' :
  fits chunks "" → fits chunks' "" → concat_str chunks = concat_str chunks' →
  same_run (consume_chat_completions_sse (chunk_reads chunks))
    (consume_chat_completions_sse (chunk_reads chunks')) ∧
  same_run (consume_responses_sse (chunk_reads chunks)) (consume_responses_sse (chunk_reads chunks')) ∧
  same_run (consume_sse_stream (chunk_reads chunks)) (consume_sse_stream (chunk_reads chunks')).
Proof. intros. split_and!; by apply consume_same. Qed.
End framing.

(** ** Requests and errors *)

Section requests.
Context `{Json} `{!ProviderJson} `{UrlCrate} `{!UrlQuery} `{!UrlPath}.

(** The callback fails with errors that are not worth another attempt. *)
Definition permanent_answer (ev : answered callE) : Prop :=
  match ev with existT B (e, b) =>
    match e in callE B return B → Prop with
    | EvEmit _ => λ r, match r with Err e => is_transient e = false | Ok _ => True end
    | _ => λ _, True
    end b
  end.

Definition is_output (ev : answered callE) : bool :=
  match ev with existT B (e, _) => match e with EvEmit _ => true | _ => false end end.

Definition no_output (pre : list (answered callE)) : Prop := Forall (λ ev, is_output ev = false) pre.

(** A request is sent before anything was called back. *)
Definition request_first (pre : list (answered callE)) (ev : answered callE) : Prop :=
  match ev with existT B (e, _) => match e with EvPost _ => no_output pre | _ => True end end.

Definition permanent {A} (pre : list (answered callE)) (r : result ProviderError A) : Prop :=
  match r with Err e => is_transient e = false | Ok _ => True end.

Abbreviation keeps Q := (promises permanent_answer request_first Q).

(** No request, and an error that is permanent if the callback's are. *)
Definition calm {A} (m : callR A) : Prop := ∀ pre, keeps permanent pre m.

Lemma calm_ret {A} (a : A) : calm (cret a).
Proof. done. Qed.

Lemma calm_fail {A} e : is_transient e = false → calm (cfail (A := A) e).
Proof. by intros ? pre. Qed.

Lemma calm_bind {A B} (m : callR A) (f : A → callR B) :
  calm m → (∀ a, calm (f a)) → calm (cbind m f).
Proof.
  intros Hm Hf pre. eapply promises_bind; [apply Hm|]. intros pre' [a|e] Hr; [apply Hf|done].
Qed.

Lemma calm_emit e : calm (emit e).
Proof. intros pre r Hr. by split. Qed.

Create HintDb calm.
#[local] Hint Resolve calm_ret calm_fail calm_bind calm_emit : calm.

Lemma calm_emit_all l : calm (emit_all l).
Proof. induction l as [|e l IH]; cbn [emit_all foldr]; auto with calm. Qed.

Lemma calm_emit_into a : calm (emit_into a).
Proof.
  unfold emit_into. induction (sorted_slots a) as [|acc l IH]; cbn [emit_slots]; [auto with calm|].
  assert (∀ e, slot_event acc = Some (Err e) → is_transient e = false) as Hslot.
  { intros e. unfold slot_event. repeat case_match; naive_solver. }
  destruct (slot_event acc) as [[e|e]|]; auto with calm.
Qed.

#[local] Hint Resolve calm_emit_all calm_emit_into : calm.
#[local] Hint Extern 1 (is_transient _ = false) => reflexivity : calm.

Lemma calm_chat data a : calm (on_chat_data data a).
Proof. unfold on_chat_data. repeat case_match; auto with calm. Qed.

Lemma calm_responses data s : calm (on_responses_data data s).
Proof. destruct s. unfold on_responses_data. repeat case_match; auto 7 with calm. Qed.

Lemma calm_anthropic data s : calm (on_anthropic_data data s).
Proof. destruct s as [[??]?]. unfold on_anthropic_data. repeat case_match; auto with calm. Qed.

Lemma calm_consume {S} (on_data : string → S → callR (Flow S)) at_end reads buffer s :
  (∀ data s, calm (on_data data s)) → (∀ s, calm (at_end s)) →
  calm (consume on_data at_end reads buffer s).
Proof.
  intros Hdata Hend. assert (∀ l s, calm (run_data on_data l s)) as Hrun.
  { induction l as [|d l IH]; intros s'; cbn [run_data]; [auto with calm|].
    apply calm_bind; [apply Hdata|]. intros [?|]; auto with calm. }
  revert buffer s. induction reads as [|[read cancelled] reads IH]; intros buffer s; cbn [consume]; [apply Hend|].
  destruct cancelled; [auto with calm|]. destruct read as [bytes|what]; [|auto with calm].
  destruct (_ <? _); [auto with calm|]. destruct (sse_split _) as [events rest].
  apply calm_bind; [apply Hrun|]. intros [?|]; [apply IH|auto with calm].
Qed.

Lemma no_output_snoc pre ev : no_output pre → is_output ev = false → no_output (pre ++ [ev]).
Proof. intros Hp Hev. apply Forall_app. split; [done|]. by constructor. Qed.

Section one_provider.
Context (p : ProviderProfile) (credential : result ProviderError (option string)) (max_attempts : nat).

Lemma retry_keeps body consume_body left pre :
  (∀ reads, calm (consume_body reads)) → no_output pre →
  keeps permanent pre (stream_with_retry body consume_body left).
Proof.
  intros Hbody. revert pre.
  assert (∀ rest pre, (∀ error pre, no_output pre → keeps permanent pre (rest error)) → no_output pre →
    keeps permanent pre (Vis EvIsCancelled (λ cancelled : bool,
      if cancelled then cfail ProviderCancelled
      else Vis (EvPost body) (λ answer : HttpAnswer,
        match answer with
        | HttpBody reads => Vis (EvHealth Healthy) (λ _, consume_body reads)
        | HttpStatus status => rest ("HTTP " ++ status)%string
        | HttpFailed _ => rest "network error"
        end)))) as Hstep.
  { intros rest pre Hrest Hpre cancelled _. split; [done|]. destruct cancelled; [done|].
    assert (no_output (pre ++ [ans EvIsCancelled false])) as Hpre1 by by apply no_output_snoc.
    intros answer _. split; [done|].
    assert (no_output ((pre ++ [ans EvIsCancelled false]) ++ [ans (EvPost body) answer])) by by apply no_output_snoc.
    destruct answer as [what|status|reads]; [by apply Hrest..|]. intros ? _. split; [done|apply Hbody]. }
  induction left as [|left IH]; intros pre Hpre.
  - apply (Hstep (λ error, Vis (EvHealth (Unavailable error)) (λ _, cfail (RequestFailed error)))); [|done].
    clear pre Hpre. intros error pre Hpre ? _. by split.
  - apply (Hstep (λ error, Vis (EvHealth (Unavailable error)) (λ _,
      Vis EvDelay (λ _, stream_with_retry body consume_body left)))); [|done].
    clear pre Hpre. intros error pre Hpre ? _. split; [done|]. intros ? _. split; [done|].
    apply IH. by do 2 (apply no_output_snoc; [|done]).
Qed.

Lemma url_error_permanent suffix e : endpoint_url suffix p = Err e → is_transient e = false.
Proof.
  unfold endpoint_url, validate. repeat case_match; cbn; try (intros [= <-]; done);
    destruct (url_parse _); cbn; repeat case_match; cbn; by intros [= <-].
Qed.

(** What one attempt leaves: nothing was called back where another may follow. *)
Definition attempt_left {A} (pre : list (answered callE)) (r : result StreamAttemptError A) : Prop :=
  match r with
  | Ok _ => True
  | Err (AttemptProvider e) => is_transient e = false ∧ (e = ProviderCancelled ∨ no_output pre)
  | Err (AfterChunk e) => is_transient e = false
  end.

Lemma attempt_error_left {A} pre emitted e :
  is_transient e = false → (emitted = false → no_output pre) →
  attempt_left (A := A) pre (Err (attempt_error emitted e)).
Proof. intros He Hpre. destruct emitted; cbn; [done|]. split; [done|]. right. by apply Hpre. Qed.

Lemma decode_permanent event e : decode_sse_event event = Err e → is_transient e = false.
Proof.
  unfold decode_sse_event. destruct (first_data event) as [data|]; [|done].
  destruct (String.eqb data "[DONE]"); [done|].
  destruct (compat_choices_from_str data) as [choices|]; cbn; [by destruct (mjoin _)|by intros [= <-]].
Qed.

Lemma compat_events_keep events emitted pre :
  (emitted = false → no_output pre) →
  keeps (λ pre' r, attempt_left pre' r ∧
    match r with Ok (emitted', _) => emitted' = false → no_output pre' | Err _ => True end)
    pre (compat_events events emitted).
Proof.
  revert emitted pre. induction events as [|event events IH]; intros emitted pre Hpre; [by split|].
  cbn [compat_events]. destruct (decode_sse_event _) as [[| |]|e] eqn:Hd; cbn.
  - by split.
  - intros [[]|e] He; (split; [done|]); [by apply IH|by split].
  - by apply IH.
  - split; [|done]. by apply (attempt_error_left (A := bool * bool)); [eapply decode_permanent|].
Qed.

Lemma compat_read_keeps reads pending emitted pre :
  (emitted = false → no_output pre) → keeps attempt_left pre (compat_read reads pending emitted).
Proof.
  revert pending emitted pre. induction reads as [|[read cancelled] reads IH]; intros pending emitted pre Hpre.
  { by apply (attempt_error_left (A := ())). }
  cbn [compat_read]. destruct cancelled; [by split; [|left]|].
  destruct read as [bytes|what]; [|by apply (attempt_error_left (A := ()))].
  destruct (_ <? _); [by apply (attempt_error_left (A := ()))|]. destruct (sse_split _) as [events rest].
  eapply promises_bind; [by apply compat_events_keep|].
  intros pre' [[emitted' finished]|e] [Hleft Hpre']; [|done]. destruct finished; [done|]. by apply IH.
Qed.

Lemma stream_once_keeps c messages options pre :
  no_output pre → keeps attempt_left pre (stream_once p c messages options).
Proof.
  intros Hpre. unfold stream_once.
  assert (attempt_left (A := ()) pre (Err (AttemptProvider MissingCredential))) as Hm by (split; [done|by right]).
  destruct (match pp_credential_strategy p with KeychainReference _ _ => _ | _ => false end); [done|].
  destruct (chat_completions_url p) as [url|e] eqn:Hurl.
  2: { split; [by eapply url_error_permanent|by right]. }
  intros answer _. split; [done|]. intros cancelled _. split; [done|].
  assert (no_output ((pre ++ [ans (EvPost (compat_request_body p messages options)) answer]) ++
    [ans EvIsCancelled cancelled])) as Hpre1 by (by do 2 (apply no_output_snoc; [|done])).
  destruct cancelled; [by split; [|left]|].
  destruct answer as [what|status|reads]; [by split; [|right]|by split; [|right]|by apply compat_read_keeps].
Qed.

Lemma compat_attempts_keep once left pre :
  (∀ pre, no_output pre → keeps attempt_left pre once) → no_output pre →
  keeps permanent pre (compat_attempts once left).
Proof.
  intros Honce. revert pre. induction left as [|left IH]; intros pre Hpre cancelled _; (split; [done|]);
    (destruct cancelled; [done|]);
    (eapply promises_bind; [apply Honce; by apply no_output_snoc|]);
    intros pre' [a|[e|e]] Hleft; try (by intros ? _);
    destruct Hleft as [He [->|Hpre']]; try done; destruct e; try done; try (by intros ? _);
    intros delayed _; (split; [done|]); destruct delayed; try done; apply IH; by apply no_output_snoc.
Qed.

(** The three providers. *)
Definition provider_streams (messages : list ProviderMessage) (options : StreamOptions) : list (callR ()) :=
  [openai_stream_messages p credential max_attempts messages options;
   anthropic_stream_messages p max_attempts messages options;
   compat_stream_messages p credential max_attempts messages options].

Lemma providers_keep messages options m :
  m ∈ provider_streams messages options → keeps permanent [] m.
Proof.
  intros [->|[->|[->|[]%not_elem_of_nil]%elem_of_cons]%elem_of_cons]%elem_of_cons.
  - unfold openai_stream_messages. destruct credential as [c|]; [|done].
    destruct (request_url p) as [url|e] eqn:Hurl; [|by eapply url_error_permanent].
    apply retry_keeps; [|constructor]. intros reads.
    destruct (pp_openai_http_api p); apply calm_consume; try (intros; apply calm_emit_into);
      [apply calm_chat|apply calm_responses].
  - unfold anthropic_stream_messages. destruct (messages_url p) as [url|e] eqn:Hurl; [|by eapply url_error_permanent].
    apply retry_keeps; [|constructor]. intros reads. apply calm_consume; [apply calm_anthropic|].
    intros; apply calm_emit_into.
  - unfold compat_stream_messages. destruct credential as [c|]; [|done].
    apply compat_attempts_keep; [|constructor]. intros pre Hpre. by apply stream_once_keeps.
Qed.

(** C22: None of the three providers of a service (OpenAI, Anthropic, compatible)
    repeats a request once part of a response was passed on, so that no text is called
    back twice: along every run, whatever the network and the token answer and as long
    as an error of the callback is permanent, everything before a request is free of
    output, and no error that counts as transient is reported: refused, rate-limited
    and lost connections all come back as failures that the agent loop does not
    repeat. *)
Theorem requests_precede_output messages options m tr :
  m ∈ provider_streams messages options → Forall permanent_answer tr →
  (∀ q l body answer l', path m tr q → tr = l ++ ans (EvPost body) answer :: l' → no_output l) ∧
  (∀ e, path m tr (Ret (Err e)) → is_transient e = false).
Proof.
  intros Hm%providers_keep Hok. split.
  - intros q l body answer l' Hpath Htr.
    exact (promises_event permanent_answer request_first permanent [] m q tr l _ l' Hm Hpath Hok Htr).
  - intros e Hpath. exact (promises_result permanent_answer request_first permanent [] m tr (Err e) Hm Hpath Hok).
Qed.
End one_provider.
End requests.

(** ** How often the service is asked *)

Section asked.
Context `{Json} `{!ProviderJson} `{UrlCrate} `{!UrlQuery} `{!UrlPath}.

Definition posts {B} (e : callE B) : nat := match e with EvPost _ => 1 | _ => 0 end.

Definition call_posts (ev : answered callE) : nat := match ev with existT B (e, _) => posts e end.

(** No request at all: a stream that reads what came and calls back. *)
Abbreviation silent := (at_most call_posts 0).

Lemma silent_ret {A} (a : A) : silent (cret (X := ProviderError) a).
Proof. done. Qed.

Lemma silent_fail {A} e : silent (cfail (X := ProviderError) (A := A) e).
Proof. done. Qed.

Lemma silent_emit e : silent (emit e).
Proof. by intros r. Qed.

Lemma silent_cbind {X A B} (m : prog callE (result X A)) (f : A → prog callE (result X B)) :
  silent m → (∀ a, silent (f a)) → silent (cbind m f).
Proof. intros Hm Hf. apply (at_most_bind _ 0 0); [done|]. intros [a|e]; [apply Hf|done]. Qed.

Create HintDb silent.
#[local] Hint Resolve silent_ret silent_fail silent_cbind silent_emit : silent.

Lemma silent_emit_all l : silent (emit_all l).
Proof. induction l as [|e l IH]; cbn [emit_all foldr]; auto with silent. Qed.

Lemma silent_emit_into a : silent (emit_into a).
Proof.
  unfold emit_into. induction (sorted_slots a) as [|acc l IH]; cbn [emit_slots]; [auto with silent|].
  destruct (slot_event acc) as [[e|e]|]; auto with silent.
Qed.

#[local] Hint Resolve silent_emit_all silent_emit_into : silent.

Lemma silent_chat data a : silent (on_chat_data data a).
Proof. unfold on_chat_data. repeat case_match; auto with silent. Qed.

Lemma silent_responses data s : silent (on_responses_data data s).
Proof. destruct s. unfold on_responses_data. repeat case_match; auto 7 with silent. Qed.

Lemma silent_anthropic data s : silent (on_anthropic_data data s).
Proof. destruct s as [[??]?]. unfold on_anthropic_data. repeat case_match; auto with silent. Qed.

Lemma silent_consume {S} (on_data : string → S → callR (Flow S)) at_end reads buffer s :
  (∀ data s, silent (on_data data s)) → (∀ s, silent (at_end s)) →
  silent (consume on_data at_end reads buffer s).
Proof.
  intros Hdata Hend. assert (∀ l s, silent (run_data on_data l s)) as Hrun.
  { induction l as [|d l IH]; intros s'; cbn [run_data]; [auto with silent|].
    apply silent_cbind; [apply Hdata|]. intros [?|]; auto with silent. }
  revert buffer s. induction reads as [|[read cancelled] reads IH]; intros buffer s; cbn [consume]; [apply Hend|].
  destruct cancelled; [auto with silent|]. destruct read as [bytes|what]; [|auto with silent].
  destruct (_ <? _); [auto with silent|]. destruct (sse_split _) as [events rest].
  apply silent_cbind; [apply Hrun|]. intros [?|]; [apply IH|auto with silent].
Qed.

Lemma retry_posts body consume_body left :
  (∀ reads, silent (consume_body reads)) →
  at_most call_posts (S left) (stream_with_retry body consume_body left).
Proof.
  intros Hbody. induction left as [|left IH]; intros cancelled; (split; [cbn; lia|]);
    (destruct cancelled; [done|]); intros answer; (split; [cbn; lia|]); cbn [call_posts posts ans];
    rewrite ?Nat.sub_0_r; cbn [Nat.sub].
  - destruct answer; intros ?; (split; [cbn; lia|]); [done..|]. eapply at_most_mono; [|apply Hbody]. lia.
  - destruct answer; intros ?; (split; [cbn; lia|]); [intros ?; split; [cbn; lia|]; exact IH..|].
    eapply at_most_mono; [|apply Hbody]. lia.
Qed.

Lemma attempts_posts once left :
  at_most call_posts 1 once → at_most call_posts (S left) (compat_attempts once left).
Proof.
  intros Honce. induction left as [|left IH]; intros cancelled; (split; [cbn; lia|]);
    (destruct cancelled; [done|]); cbn [call_posts posts ans]; rewrite ?Nat.sub_0_r.
  - apply (at_most_mono _ (1 + 0)); [lia|]. apply at_most_bind; [done|].
    intros [r|[[]|e]]; cbn; try done; by intros ?.
  - change (S (S left)) with (1 + S left). apply at_most_bind; [done|].
    intros [r|[[]|e]]; try done; intros again; (split; [cbn; lia|]); try done;
      destruct again; try done; exact IH.
Qed.

Lemma compat_read_silent reads pending emitted : silent (compat_read reads pending emitted).
Proof.
  assert (∀ events b, silent (compat_events events b)) as Hev.
  { induction events as [|event events IH]; intros b; [done|]. cbn [compat_events].
    destruct (decode_sse_event _) as [[|chunk|]|]; [done| |apply IH|done].
    intros [?|?]; (split; [cbn; lia|]); [apply IH|done]. }
  revert pending emitted. induction reads as [|[read cancelled] reads IH]; intros pending emitted; [done|].
  cbn [compat_read]. destruct cancelled; [done|]. destruct read as [bytes|what]; [|done].
  destruct (_ <? _); [done|]. destruct (sse_split _) as [events rest].
  apply silent_cbind; [apply Hev|]. intros [b []]; [done|apply IH].
Qed.

(** One call of a provider sends at most as many requests as it may attempt. *)
Lemma providers_post p credential left messages options m :
  m ∈ provider_streams p credential (S left) messages options → at_most call_posts (S left) m.
Proof.
  intros [->|[->|[->|[]%not_elem_of_nil]%elem_of_cons]%elem_of_cons]%elem_of_cons.
  - unfold openai_stream_messages. destruct credential; [|done]. destruct (request_url p); [|done].
    cbn [Nat.sub]. rewrite Nat.sub_0_r. apply retry_posts. intros reads.
    destruct (pp_openai_http_api p); apply silent_consume; intros; auto using silent_chat, silent_responses with silent.
  - unfold anthropic_stream_messages. destruct (messages_url p); [|done].
    cbn [Nat.sub]. rewrite Nat.sub_0_r. apply retry_posts. intros reads.
    apply silent_consume; intros; auto using silent_anthropic with silent.
  - unfold compat_stream_messages. destruct credential as [c|]; [|done].
    cbn [Nat.sub]. rewrite Nat.sub_0_r. apply attempts_posts. unfold stream_once.
    destruct (match pp_credential_strategy p with KeychainReference _ _ => _ | _ => false end); [done|].
    destruct (chat_completions_url p); [|done]. intros answer. split; [cbn; lia|]. intros cancelled. split; [cbn; lia|].
    destruct cancelled; [done|]. destruct answer; [done..|]. apply compat_read_silent.
Qed.
End asked.

(** ** Tool calls from fragments *)

Section assembled.
Context `{Json} `{!ProviderJson}.

Definition fragments_of (index : N) (deltas : list SseToolCall) : list SseToolCall :=
  List.filter (λ d, stc_index d =? index)%N deltas.

(** The last id and name that were sent, and all the fragments. *)
Definition assembled (l : list SseToolCall) : PendingToolCall :=
  mkPending (last (omap stc_id l)) (last (omap stc_name l))
    (concat_str ((λ d, default "" (stc_arguments d)) <$> l)).

Lemma last_snoc_or {A B} (f : A → option B) l x :
  last (omap f (l ++ [x])) = or_else (f x) (last (omap f l)).
Proof.
  rewrite omap_app. cbn [omap list_omap]. destruct (f x) as [y|]; cbn [or_else].
  - by rewrite last_snoc.
  - by rewrite app_nil_r.
Qed.

Lemma assembled_snoc l d :
  assembled (l ++ [d]) =
  mkPending (or_else (stc_id d) (pt_id (assembled l))) (or_else (stc_name d) (pt_name (assembled l)))
    (pt_arguments (assembled l) ++ default "" (stc_arguments d)).
Proof.
  unfold assembled. rewrite !last_snoc_or, fmap_app, concat_str_app. cbn. by rewrite str_app_nil_r.
Qed.

Lemma assembler_slot deltas index :
  foldl apply_delta ∅ deltas !! index =
  match fragments_of index deltas with [] => None | l => Some (assembled l) end.
Proof.
  induction deltas as [|d deltas IH] using rev_ind; [apply lookup_empty|].
  rewrite foldl_app. cbn [foldl]. unfold apply_delta at 1, apply_openai_delta, slot_of.
  unfold fragments_of in *. rewrite List.filter_app. cbn [List.filter].
  destruct (N.eqb_spec (stc_index d) index) as [<-|Hne].
  - rewrite lookup_insert_eq, IH. destruct (List.filter _ deltas) as [|x l].
    + cbn [app]. by rewrite <-(assembled_snoc []).
    + cbn [default from_option app]. by rewrite <-(assembled_snoc (x :: l)).
  - rewrite lookup_insert_ne, IH by done. by rewrite app_nil_r.
Qed.

Lemma sorted_slots_spec (a : gmap N PendingToolCall) :
  ∃ l, l.*2 = sorted_slots a ∧ Sorted by_index l ∧ NoDup l.*1 ∧ ∀ i acc, (i, acc) ∈ l ↔ a !! i = Some acc.
Proof.
  exists (merge_sort by_index (map_to_list a)). split_and!; [done| | |].
  - apply Sorted_merge_sort. intros x y. unfold by_index. lia.
  - rewrite merge_sort_Permutation. apply NoDup_fst_map_to_list.
  - intros i acc. rewrite merge_sort_Permutation. apply elem_of_map_to_list.
Qed.

Definition emitted (l : list StreamEvent) : list (answered callE) :=
  (λ e, ans (EvEmit e) (Ok tt)) <$> l.

Lemma emit_slots_path slots events :
  omap slot_event slots = Ok <$> events → path (emit_slots slots) (emitted events) (Ret (Ok tt)).
Proof.
  revert events. induction slots as [|acc slots IH]; intros events; cbn [omap list_omap emit_slots].
  { destruct events; [constructor|done]. }
  destruct (slot_event acc) as [r|]; [|apply IH].
  destruct events as [|e events]; [done|]. intros [= -> Hrest]. cbn. constructor. by apply IH.
Qed.

(** Tool calls that come in fragments come out whole: with the fragments of a
    response interleaved in any way, the assembler holds for every index the last
    id and name sent and the arguments in the order they came, and when every
    complete call has arguments that parse, the calls are called back once each, in
    the order of their index. *)
Theorem tool_calls_assembled deltas events :
  omap slot_event (sorted_slots (foldl apply_delta ∅ deltas)) = Ok <$> events →
  path (emit_into (foldl apply_delta ∅ deltas)) (emitted events) (Ret (Ok tt)) ∧
  ∃ l, l.*2 = sorted_slots (foldl apply_delta ∅ deltas) ∧ Sorted by_index l ∧ NoDup l.*1 ∧
    ∀ i acc, (i, acc) ∈ l ↔ fragments_of i deltas ≠ [] ∧ acc = assembled (fragments_of i deltas).
Proof.
  intros Hev. split; [by apply emit_slots_path|].
  destruct (sorted_slots_spec (foldl apply_delta ∅ deltas)) as (l & Hl & Hs & Hnd & Hin).
  exists l. split_and!; try done. intros i acc. rewrite Hin, assembler_slot.
  destruct (fragments_of i deltas); naive_solver.
Qed.
End assembled.

(** ** Concrete streams *)

Section sample.
#[local] Instance text_json : Json := {|
  Value := string; value_get _ _ := None; value_as_str := Some;
  intent_from_value _ := None; approval_from_value _ := None;
|}.

(** Decoders of payloads that are a text. *)
#[local] Instance text_payloads : ProviderJson := {|
  value_from_str s := if String.eqb s "{bad" then None else Some s;
  empty_object := "{}";
  sse_data_from_str s := Some (mkSseData [mkSseChoice (Some s) None None] None);
  anthropic_event_from_str s :=
    Some (mkAnthropicEvent "content_block_delta" None None None
      (Some (mkAnthropicDelta (Some "text_delta") (Some s) None None)) None);
  responses_event_from_str s :=
    Some (mkResponsesEvent "response.output_text.delta" (Some s) None None None);
  compat_choices_from_str s := Some [Some s];
|}.

(** Network and token that answer from a script; what was called back. *)
Record Script := mkScript { sc_answers : list HttpAnswer; sc_output : list StreamEvent }.

Definition script_handle (B : Type) (e : callE B) : Script → Script * option B :=
  match e in callE B return Script → Script * option B with
  | EvEmit ev => λ s, (mkScript (sc_answers s) (sc_output s ++ [ev]), Some (Ok tt))
  | EvPost _ => λ s,
      match sc_answers s with
      | a :: rest => (mkScript rest (sc_output s), Some a)
      | [] => (s, None)
      end
  | EvIsCancelled => λ s, (s, Some false)
  | EvDelay => λ s, (s, Some false)
  | EvHealth _ => λ s, (s, Some tt)
  end.

Definition e_acute : string := String (ascii_of_N 195) (String (ascii_of_N 169) "").

Definition payload (text : string) : string := ("data: " ++ text ++ nl ++ nl)%string.

(** One character in two reads. *)
Definition cut_character : list string :=
  [("data: caf" ++ String (ascii_of_N 195) "")%string; (String (ascii_of_N 169) (nl ++ nl))%string].

Definition whole_character : list string := [payload ("caf" ++ e_acute)].

Lemma cuts_witness :
  fits cut_character "" ∧ fits whole_character "" ∧
  same_run (consume_chat_completions_sse (chunk_reads cut_character))
    (consume_chat_completions_sse (chunk_reads whole_character)).
Proof.
  assert (fits cut_character "" ∧ fits whole_character "") as [H1 H2]
    by (split; repeat (split; [apply Nat.leb_le; vm_compute; reflexivity|]); exact I).
  split_and!; [exact H1|exact H2|].
  assert (concat_str cut_character = concat_str whole_character) as H3 by reflexivity.
  exact (proj1 (cuts_do_not_matter cut_character whole_character H1 H2 H3)).
Defined.

(** The OpenAI-compatible provider makes every read text by itself: the character
    is lost. *)
Example compat_loses_characters :
  let output chunks :=
    sc_output (prun script_handle (compat_read (chunk_reads chunks) "" false) (mkScript [] [])).1 in
  output whole_character = [TextDelta ("caf" ++ e_acute)] ∧
  output cut_character = [TextDelta ("caf" ++ replacement ++ replacement)].
Proof. vm_compute. done. Qed.

Fixpoint repeat_text (n : nat) (s : string) : string :=
  match n with 0 => "" | S n' => s ++ repeat_text n' s end.

(** The limit of one event is applied to all that is pending: a long read of short,
    complete events is malformed, and in two halves it is not. *)
Example long_read_refused :
  let half := repeat_text 5000 (": ping" ++ nl ++ nl)%string in
  let result chunks := (prun script_handle (consume_sse_stream (chunk_reads chunks)) (mkScript [] [])).2 in
  result [(half ++ half)%string] = Some (Err MalformedStream) ∧ result [half; half] = Some (Ok tt).
Proof. vm_compute. done. Qed.

(** A response that breaks off without its last event counts as complete. *)
Example truncated_stream_succeeds :
  prun script_handle (consume_chat_completions_sse (chunk_reads [payload "half an ans"])) (mkScript [] [])
    = (mkScript [] [TextDelta "half an ans"], Some (Ok tt)) ∧
  prun script_handle (consume_sse_stream (chunk_reads [payload "half an ans"])) (mkScript [] [])
    = (mkScript [] [TextDelta "half an ans"], Some (Ok tt)) ∧
  (prun script_handle (compat_read (chunk_reads [payload "half an ans"]) "" false) (mkScript [] [])).2
    = Some (Err (AfterChunk MalformedStream)).
Proof. vm_compute. done. Qed.

(** One call's arguments are cut in two, another call is not complete. *)
Definition interleaved : list SseToolCall :=
  [mkSseToolCall 1 (Some "c1") (Some "bash") (Some "{ls"); mkSseToolCall 0 (Some "c0") (Some "read") (Some "{a");
   mkSseToolCall 1 None None (Some " -l}"); mkSseToolCall 0 None None (Some "}"); mkSseToolCall 7 (Some "c7") None None].

Definition whole_calls : list StreamEvent :=
  [StreamToolCall "c0" "read" ("{a}" : Value); StreamToolCall "c1" "bash" ("{ls -l}" : Value)].

Lemma assembled_witness :
  omap slot_event (sorted_slots (foldl apply_delta ∅ interleaved)) =
    Ok <$> whole_calls ∧
  path (emit_into (foldl apply_delta ∅ interleaved))
    (emitted whole_calls) (Ret (Ok tt)).
Proof.
  split; [vm_compute; reflexivity|].
  apply (tool_calls_assembled interleaved whole_calls).
  vm_compute. reflexivity.
Defined.

#[local] Instance https_urls : UrlCrate := {|
  url_parse s := Some (mkUrl s "https" "" None (Some 443%N) (Some "api.example"));
  url_join _ _ := None;
|}.
#[local] Instance no_query : UrlQuery := {|
  url_query _ := None; url_query_pairs _ := []; url_without_query u := u;
  url_append_pairs u _ := u; url_without_fragment u := u;
|}.
#[local] Instance no_path : UrlPath := {|
  url_fragment _ := None; url_path _ := "/"; url_set_path _ u := u;
|}.

Definition keychain_profile : ProviderProfile :=
  mkProfile "p" "https://api.example/" "m" (KeychainReference "s" "a") ChatCompletions.

(** No key: the attempt is repeated although it could not succeed. *)
Example missing_credential_is_retried :
  compat_stream_messages keychain_profile (Ok None) 2 [] StreamOptions_default =
  Vis EvIsCancelled (λ cancelled : bool, if cancelled then cfail ProviderCancelled
    else Vis EvDelay (λ cancelled : bool, if cancelled then cfail ProviderCancelled
      else Vis EvIsCancelled (λ cancelled : bool, if cancelled then cfail ProviderCancelled
        else Vis (EvHealth (Unavailable "provider credential is required but unavailable"))
          (λ _, cfail MissingCredential)))).
Proof. reflexivity. Qed.

(** A request that is refused. *)
Definition refused_run : list (answered callE) :=
  [ans EvIsCancelled false;
   ans (EvPost (build_request_body keychain_profile [] StreamOptions_default)) (HttpStatus "429");
   ans (EvHealth (Unavailable "HTTP 429")) tt].

Lemma requests_witness :
  anthropic_stream_messages keychain_profile 1 [] StreamOptions_default
    ∈ provider_streams keychain_profile (Ok (Some "k")) 1 [] StreamOptions_default ∧
  Forall permanent_answer refused_run ∧
  path (anthropic_stream_messages keychain_profile 1 [] StreamOptions_default) refused_run
    (Ret (Err (RequestFailed "HTTP 429"))) ∧
  is_transient (RequestFailed "HTTP 429") = false.
Proof.
  assert (anthropic_stream_messages keychain_profile 1 [] StreamOptions_default
    ∈ provider_streams keychain_profile (Ok (Some "k")) 1 [] StreamOptions_default) as Hm by (right; left).
  assert (Forall permanent_answer refused_run) as Hok by repeat constructor.
  assert (path (anthropic_stream_messages keychain_profile 1 [] StreamOptions_default) refused_run
    (Ret (Err (RequestFailed "HTTP 429")))) as Hp by repeat constructor.
  split_and!; [exact Hm|exact Hok|exact Hp|].
  exact (proj2 (requests_precede_output keychain_profile (Ok (Some "k")) 1 [] StreamOptions_default
    _ refused_run Hm Hok) _ Hp).
Defined.
End sample.
