(* ===== verification/ToolOrchestrator.v ===== *)
(** * Tool orchestrator

    [crates/impetus-core/src/tool_orchestrator.rs]: what becomes of a tool call of
    the model.  A call is a program over the events below, one per call the code
    makes of the runtime, the seam, the tools and the services; [orch_handle]
    answers them with the definitions of those components.  Each is one step, so
    calls that run side by side interleave between them, in any order. *)

From S2P Require Import Prelude Prog Str Utf8 Redact ToolSchema Action McpClient McpLive PathScope.
From S2P Require Import WebSecurity Policy Effect RiskGate Events EventStore EffectFence Effects FenceRuns.
From S2P Require Import Completion Projection AgentRuntime WorkspaceFiles Artifacts OutputReducer ReadOnlyTools.
From S2P Require Import WebTools.

Open Scope string_scope.
Open Scope nat_scope.
Open Scope list_scope.
Open Scope impetus_scope.

(** The parsed form of a value of a payload. *)
Class JsonTree `{Json} := value_tree : Value → JValue.

(** ** Data *)

Record ToolObservation := mkToolObservation {
  to_tool_call_id : string;
  to_tool_name : string;
  to_arguments_summary : string;
  to_outcome : ToolEventOutcome;
  to_preview : string;
  to_artifact : option ArtifactRef;
  to_error : option string;
}.

(** The fields of [ToolOrchestrator] that it reads; web research is there or not,
    and its service is the environment's. *)
Record ToolOrchestrator := mkOrchestrator {
  or_workspace_root : string;
  or_artifact_root : string;
  or_web_research : bool;
  or_mcp_live : option McpLiveBridge;
  or_allowed_tools : option (list string);
}.

Definition with_artifact_root (workspace_root artifact_root : string) : ToolOrchestrator :=
  mkOrchestrator workspace_root artifact_root false None None.

Definition with_allowed_tools (allowed : list string) (o : ToolOrchestrator) : ToolOrchestrator :=
  mkOrchestrator (or_workspace_root o) (or_artifact_root o) (or_web_research o) (or_mcp_live o)
    (Some allowed).

Definition for_explore (workspace_root default_root : string) (allowed : list string)
    : ToolOrchestrator :=
  with_allowed_tools allowed (with_artifact_root workspace_root default_root).

(** *** Coding tools *)

Record SourcePosition := mkPosition { sp_line : N; sp_character : N }.

Record SourceRange := mkRange { sr_start : SourcePosition; sr_end : SourcePosition }.

Record SourceLocation := mkLocation { sl_path : string; sl_range : SourceRange }.

Record PositionQuery := mkPositionQuery { pq_path : string; pq_position : SourcePosition }.

Inductive CodingToolsError :=
  | CodingUnavailable (what : string)
  | CodingProvider (what : string)
  | CodingCancelled (what : string).

Definition coding_error_text (e : CodingToolsError) : string :=
  match e with
  | CodingUnavailable s => s
  | CodingProvider s => "coding-tools provider error: " ++ s
  | CodingCancelled s => "coding-tools request cancelled: " ++ s
  end.

(** [CodingToolsService::definition] *)
Class CodingTools (W : Type) :=
  coding_definition : PositionQuery → W → W * result CodingToolsError (list SourceLocation).

(** *** Texts *)

Definition arg_error_text (e : ToolArgError) : string :=
  "invalid arguments for tool `" ++ arg_tool e ++ "`: " ++ arg_reason e.

Definition tool_error_text (e : ToolError) : string :=
  match e with
  | ToolIo s => "io error while running read-only tool: " ++ s
  | ToolArtifact s => "artifact store error: " ++ s
  | ToolNoFuel => ""
  end.

Definition child_canonical_tool_name (name : string) : option string :=
  let name := trim name in
  if bool_decide (name ∈ ["list"; "list_files"]) then Some "list_files"
  else if bool_decide (name ∈ ["read"; "read_file"]) then Some "read_file"
  else if String.eqb name "search" then Some "search"
  else if bool_decide (name ∈ ["write"; "write_file"; "edit_file"]) then Some "write_file"
  else if String.eqb name "web_search" then Some "web_search"
  else if String.eqb name "web_fetch" then Some "web_fetch"
  else None.

Definition child_tool_allowed (allowed : list string) (called : string) : bool :=
  match child_canonical_tool_name called with
  | None => false
  | Some canonical =>
      existsb (λ entry,
        let entry := trim entry in
        if String.eqb entry "web" then bool_decide (canonical ∈ ["web_search"; "web_fetch"])
        else bool_decide (child_canonical_tool_name entry = Some canonical)) allowed
  end.

(** The mapping of role labels to tool names. *)
Definition role_tool_name (name : string) : string :=
  if String.eqb name "list" then "list_files"
  else if String.eqb name "read" then "read_file"
  else if String.eqb name "write" then "write_file"
  else if String.eqb name "web" then "web_search"
  else name.

Section calls.
Context `{Json} `{!JsonTree} `{JsonText} `{UrlCrate}.

Record ToolCall := mkToolCall {
  tc_id : string;
  tc_name : string;
  tc_arguments : Value;
}.

Definition with_call_name (name : string) (c : ToolCall) : ToolCall :=
  mkToolCall (tc_id c) name (tc_arguments c).

Definition arguments_text (arguments : Value) : string := json_text (value_tree arguments).

Definition summarize_arguments (arguments : Value) : string :=
  chars_take 1024 (redact_text (arguments_text arguments)).

Definition contains_sensitive_value (arguments : Value) : bool :=
  negb (String.eqb (redact_text (arguments_text arguments)) (arguments_text arguments)).

(** [arguments.get(key).and_then(Value::as_str)] *)
Definition str_argument (key : string) (arguments : Value) : option string :=
  jget (value_tree arguments) key ≫= as_str.

(** *** Normalization *)

Inductive NormalizeError :=
  | ToolNotFound (name : string)
  | InvalidArguments (e : ToolArgError).

Definition normalize_error_text (e : NormalizeError) : string :=
  match e with
  | ToolNotFound name => "tool `" ++ name ++ "` not found"
  | InvalidArguments e => arg_error_text e
  end.

Definition action_kind_of_tool (name : string) : option ActionKind :=
  if bool_decide (name ∈ ["list_files"; "read_file"; "search"; "goto_definition"]) then Some ReadFile
  else if String.eqb name "web_search" then Some WebSearch
  else if String.eqb name "web_fetch" then Some WebFetch
  else if String.eqb name "web_download" then Some WebDownload
  else if String.eqb name "web_browser" then Some WebBrowser
  else if String.eqb name "web_submit" then Some WebSubmit
  else if String.eqb name "web_upload" then Some WebUpload
  else if bool_decide (name ∈ ["write_file"; "edit_file"]) then Some WriteFile
  else if bool_decide (name ∈ ["bash"; "shell"; "exec"]) then Some SpawnProcess
  else None.

Definition target_of_call (o : ToolOrchestrator) (c : ToolCall) (kind : ActionKind) : option string :=
  let arguments := value_tree (tc_arguments c) in
  if bool_decide (kind = SpawnProcess) then Some (or_workspace_root o)
  else if String.eqb (tc_name c) "web_search" then Some "web-search:auto"
  else if bool_decide (tc_name c ∈ ["web_fetch"; "web_download"; "web_browser"; "web_submit";
                                   "web_upload"])
  then (str_argument "url" (tc_arguments c) ≫= url_parse) ≫= url_host_str
  else match jget arguments "path" with
       | Some v => as_str v
       | None => jget arguments "command" ≫= as_str
       end.

Definition normalize_tool_call (o : ToolOrchestrator) (c : ToolCall) : result NormalizeError Action :=
  match canonical_tool_name (tc_name c) with
  | None => Err (ToolNotFound (tc_name c))
  | Some _ =>
      _ ← map_err InvalidArguments (validate_tool_arguments (tc_name c) (value_tree (tc_arguments c)));
      kind ← ok_or (action_kind_of_tool (tc_name c)) (ToolNotFound (tc_name c));
      Ok (mkAction Agent kind (tc_name c ++ " via agent") (target_of_call o c kind))
  end.

Definition is_deferred_kind (k : ActionKind) : bool :=
  match k with
  | WriteFile | SpawnProcess | WebDownload | WebBrowser | WebSubmit | WebUpload => true
  | _ => false
  end.

Definition is_outbound_web (k : ActionKind) : bool :=
  match k with WebDownload | WebBrowser | WebSubmit | WebUpload => true | _ => false end.

(** ** Events *)

Inductive FenceClosing := CloseObserved | CloseFailed | CloseUnknown.

Inductive toolE : Type → Type :=
  (** [record_event] and the recorders of the runtime *)
  | EvRecord (p : EventPayload) : toolE (result RuntimeError ())
  | EvEvents : toolE (result RuntimeError (list Event))
  (** [request_action_with_capability_version(action, Some(1))] *)
  | EvRequestAction (a : Action) : toolE (result RuntimeError RuntimeStatus)
  | EvSeam : toolE (result RuntimeError EffectSeam)
  | EvOpenArtifacts : toolE (result ArtifactError ())
  | EvReadOnly (seam : EffectSeam) (t : ReadOnlyTool) : toolE (result ToolError ToolOutcome)
  | EvFence (e : NormalizedEffect) : toolE (result string EffectInvocationIdentity)
  | EvClose (how : FenceClosing) (i : EffectInvocationIdentity) (note : string) : toolE ()
  | EvMcpCall (name : string) (arguments : JValue) : toolE McpLiveCallResult
  | EvDefinition (q : PositionQuery) : toolE (result CodingToolsError (list SourceLocation))
  | EvWeb (c : ToolCall) : toolE (option WebToolResult).

Abbreviation tool_prog := (prog toolE).

Notation "x <~ e ;; k" := (Vis e (λ x, k)) (at level 60, e at next level, right associativity).
Notation "p ;;~ k" := (pbind p (λ _, k)) (at level 60, right associativity).

(** [let _ = runtime.record_*(..)] *)
Definition note (p : EventPayload) : tool_prog () := _ <~ EvRecord p ;; Ret tt.
Definition note_if (b : bool) (p : EventPayload) : tool_prog () := if b then note p else Ret tt.
Fixpoint note_all (l : list EventPayload) : tool_prog () :=
  match l with [] => Ret tt | p :: l' => note p ;;~ note_all l' end.

(** ** Observations *)

Definition finish_summary (outcome : ToolEventOutcome) (error : option string) : string :=
  match error with
  | Some e => if is_empty e then outcome_debug outcome else e
  | None => outcome_debug outcome
  end.

Definition observation_rows (c : ToolCall) (arguments_summary : string) (outcome : ToolEventOutcome)
    (preview : string) (artifact : option ArtifactRef) (error : option string) : list ToolEvent :=
  [ToolStarted (tc_name c) (Some (tc_id c))] ++
  (if is_empty preview then [] else [ToolOutput (tc_id c) (tc_name c) (bound_tool_output preview)]) ++
  [ToolObserved (tc_id c) (tc_name c) arguments_summary outcome preview artifact error;
   ToolFinished (tc_name c) (finish_summary outcome error) (Some (tc_id c))].

Definition record_observation (c : ToolCall) (arguments_summary : string) (outcome : ToolEventOutcome)
    (preview : string) (artifact : option ArtifactRef) (error : option string)
    : tool_prog ToolObservation :=
  note_all (PayloadTool <$> observation_rows c arguments_summary outcome preview artifact error) ;;~
  Ret (mkToolObservation (tc_id c) (tc_name c) arguments_summary outcome preview artifact error).

(** The three endings without a result. *)
Definition observe_error (c : ToolCall) (summary text : string) : tool_prog ToolObservation :=
  record_observation c summary OutcomeError "" None (Some text).
Definition observe_denied (c : ToolCall) (summary text : string) : tool_prog ToolObservation :=
  record_observation c summary OutcomeDenied "" None (Some text).
Definition observe_approval (c : ToolCall) (summary text : string) : tool_prog ToolObservation :=
  record_observation c summary OutcomeApprovalRequired "" None (Some text).

(** *** Deferring a tool *)

Definition requested_approval (e : Event) : option Uuid :=
  match event_payload e with
  | PayloadApproval (ApprovalRequested request) => Some (approval_id request)
  | _ => None
  end.

(** The deferred call goes under the approval requested last. *)
Definition record_deferred (c : ToolCall) : tool_prog () :=
  events <~ EvEvents ;;
  match events with
  | Err _ => Ret tt
  | Ok events =>
      match find_map requested_approval (reverse events) with
      | None => Ret tt
      | Some approval =>
          note (PayloadTool (ToolDeferred approval (tc_id c) (tc_name c) (tc_arguments c)))
      end
  end.

(** *** The seam's answer

    [allowed] goes on where the seam allows the effect. *)
Context `{DisplayStoreError} `{UuidText}.

Definition projection_error_text (e : ProjectionError) : string :=
  match e with
  | UnsupportedSchema id v => "event `" ++ uuid_to_string id ++ "` has unsupported schema version " ++ dec v
  | MixedSession expected actual =>
      "event stream mixes session `" ++ uuid_to_string expected ++ "` with `" ++ uuid_to_string actual
  | NonContiguousSequence expected actual =>
      "event sequence is not contiguous: expected " ++ dec expected ++ ", got " ++ dec actual
  end.

Definition runtime_error_text (e : RuntimeError) : string :=
  match e with
  | RtStore e => store_error_to_string e
  | RtProjection e => projection_error_text e
  | RtMissingSession id => "session `" ++ uuid_to_string id ++ "` does not exist"
  | RtMissingApproval id => "approval `" ++ uuid_to_string id ++ "` does not exist"
  | RtApprovalNotPending id => "approval `" ++ uuid_to_string id ++ "` is not pending"
  | RtMissingIntentRevision => "action needs a durable user intent revision before it can be approved"
  | RtApprovalResolverNotUser id => "approval `" ++ uuid_to_string id ++ "` must be resolved by a user"
  | RtStaleApproval id =>
      "approval `" ++ uuid_to_string id ++ "` is stale because its action or user intent changed"
  | RtDenied reason => "action denied by policy: " ++ reason
  | RtInactiveRun id => "run `" ++ uuid_to_string id ++ "` is not active"
  | RtActiveRun id => "run `" ++ uuid_to_string id ++ "` is already active"
  | RtInvalidWorkspace path => "workspace root `" ++ path ++ "` is not a directory"
  end.

Context `{FileSystem} (h : PolicyHeap).

Definition through_seam (c : ToolCall) (summary : string) (effect : NormalizedEffect)
    (allowed : EffectSeam → tool_prog ToolObservation) : tool_prog ToolObservation :=
  seam <~ EvSeam ;;
  match seam with
  | Err error => observe_error c summary (runtime_error_text error)
  | Ok seam =>
      match seam_decide h seam effect with
      | Eff_Allow => allowed seam
      | Eff_NeedsApproval reason => observe_approval c summary reason
      | Eff_Deny reason => observe_denied c summary reason
      end
  end.

(** ** MCP tools *)

Definition is_mutating_semantics (s : ExecutionSemantics) : bool :=
  match s with Mutating | NonReplayable => true | _ => false end.

Definition mcp_effect (o : ToolOrchestrator) (entry : McpLiveToolEntry) : NormalizedEffect :=
  (if is_mutating_semantics (me_semantics entry) then process_spawn else workspace_read)
    Agent (me_catalog_name entry ++ " via mcp")%string (or_workspace_root o).

Definition close_fence (fence : option EffectInvocationIdentity) (how : FenceClosing)
    (text : string) : tool_prog () :=
  match fence with
  | None => Ret tt
  | Some i => _ <~ EvClose how i text ;; Ret tt
  end.

Definition call_mcp (c : ToolCall) (summary : string) (fence : option EffectInvocationIdentity)
    : tool_prog ToolObservation :=
  answer <~ EvMcpCall (tc_name c) (value_tree (tc_arguments c)) ;;
  match answer with
  | McpOk preview =>
      close_fence fence CloseObserved "mcp ok" ;;~
      record_observation c summary OutcomeSuccess preview None None
  | McpFailed message =>
      close_fence fence CloseFailed message ;;~ observe_error c summary message
  | McpUnknown message =>
      close_fence fence CloseUnknown message ;;~ observe_error c summary message
  end.

Definition execute_mcp_tool (o : ToolOrchestrator) (c : ToolCall) : tool_prog ToolObservation :=
  let summary := summarize_arguments (tc_arguments c) in
  match or_mcp_live o with
  | None => observe_error c summary "MCP live bridge is unavailable"
  | Some bridge =>
      match bridge_validate_arguments bridge (tc_name c) (value_tree (tc_arguments c)) with
      | Err error => observe_error c summary (arg_error_text error)
      | Ok entry =>
          let mutating := is_mutating_semantics (me_semantics entry) in
          if mutating && contains_sensitive_value (tc_arguments c)
          then observe_denied c summary "mutating MCP tool arguments contain sensitive material"
          else
            through_seam c summary (mcp_effect o entry) (λ _,
              if mutating then
                fence <~ EvFence (mcp_effect o entry) ;;
                match fence with
                | Ok invocation => call_mcp c summary (Some invocation)
                | Err reason => observe_denied c summary reason
                end
              else call_mcp c summary None)
      end
  end.

(** ** Read-only tools *)

(** [preview.lines()] that are neither blank nor a mark. *)
Definition match_count (preview : string) : N :=
  N.of_nat (length (List.filter (λ l, negb (is_empty (trim l)) && negb (starts_with l "..."))
                     (lines preview))) `mod` 4294967296.

Definition emit_read_search_activity (c : ToolCall) (preview : string) : tool_prog () :=
  let preview := bound_activity_preview preview in
  if String.eqb (tc_name c) "read_file" then
    note (PayloadTool (ToolFileRead (tc_id c) (default "." (str_argument "path" (tc_arguments c)))
                         (N.of_nat (String.length preview)) preview))
  else if String.eqb (tc_name c) "search" then
    note (PayloadTool (ToolSearchResult (tc_id c) (match_count preview) preview))
  else Ret tt.

Definition read_only_tool (c : ToolCall) : option ReadOnlyTool :=
  let target := default "." (str_argument "path" (tc_arguments c)) in
  if String.eqb (tc_name c) "list_files" then Some (ToolList target)
  else if String.eqb (tc_name c) "read_file" then Some (ToolRead target)
  else if String.eqb (tc_name c) "search" then
    Some (ToolSearch target (default "" (str_argument "pattern" (tc_arguments c))))
  else None.

Definition tool_failed_text (tool reason : string) : string :=
  "tool `" ++ tool ++ "` failed: " ++ reason.

(** [execute_read_only] and the arms of its result. *)
Definition execute_read_only (c : ToolCall) (summary : string) : tool_prog ToolObservation :=
  match read_only_tool c with
  | None => observe_error c summary (normalize_error_text (ToolNotFound (tc_name c)))
  | Some t =>
      opened <~ EvOpenArtifacts ;;
      match opened with
      | Err error =>
          observe_error c summary (tool_failed_text (tc_name c) (artifact_error_text error))
      | Ok _ =>
          seam <~ EvSeam ;;
          match seam with
          | Err error => observe_error c summary (runtime_error_text error)
          | Ok seam =>
              outcome <~ EvReadOnly seam t ;;
              match outcome with
              | Ok (ToolAllowed r) =>
                  emit_read_search_activity c (tr_preview r) ;;~
                  record_observation c summary OutcomeSuccess (tr_preview r) (tr_artifact r) None
              | Ok (ToolDenied reason _) => observe_denied c summary reason
              | Err error =>
                  observe_error c summary (tool_failed_text (tc_name c) (tool_error_text error))
              end
          end
      end
  end.

Definition location_text (l : SourceLocation) : string :=
  (sl_path l ++ ":" ++ dec (sp_line (sr_start (sl_range l))) ++ ":" ++ dec (sp_character (sr_start (sl_range l))) ++ "-"
   ++ dec (sp_line (sr_end (sl_range l))) ++ ":" ++ dec (sp_character (sr_end (sl_range l))))%string.

(** [as_u64 .. as u32] *)
Definition u32_argument (key : string) (arguments : Value) : N :=
  default 0%N (jget (value_tree arguments) key ≫= as_u64) `mod` 4294967296.

Definition execute_goto_definition (c : ToolCall) (summary : string) : tool_prog ToolObservation :=
  let path := default "." (str_argument "path" (tc_arguments c)) in
  through_seam c summary (workspace_read Agent "goto_definition via agent" path) (λ _,
    answer <~ EvDefinition (mkPositionQuery path
                (mkPosition (u32_argument "line" (tc_arguments c))
                   (u32_argument "character" (tc_arguments c)))) ;;
    match answer with
    | Ok locations =>
        record_observation c summary OutcomeSuccess
          match locations with
          | [] => "goto_definition: no locations"
          | _ => join nl (location_text <$> locations)
          end None None
    | Err error => observe_error c summary (coding_error_text error)
    end).

(** ** Web tools *)

Definition execute_web_tool (o : ToolOrchestrator) (c : ToolCall) (summary : string)
    : tool_prog ToolObservation :=
  match normalize_tool_call o c with
  | Err error => observe_error c summary (normalize_error_text error)
  | Ok action =>
      let effect := network_connect Agent (Action.summary action)
                      (default "web:invalid-target" (target action)) in
      through_seam c summary effect (λ _,
        if or_web_research o then
          opened <~ EvOpenArtifacts ;;
          match opened with
          | Err error =>
              observe_error c summary ("cannot open artifact store: " ++ artifact_error_text error)
          | Ok _ =>
              answer <~ EvWeb c ;;
              match answer with
              | Some r =>
                  record_observation c (wr_arguments_summary r) (wr_outcome r) (wr_preview r)
                    (wr_web_artifact r) (wr_error r)
              | None => (* [expect]: not reached for the two web tools *)
                  observe_error c summary ""
              end
          end
        else observe_error c summary "web research service is unavailable")
  end.

(** ** One call *)

Definition awaiting_approval : string := "awaiting user approval".

(** Mutating builtin tools are requested and deferred, never run here. *)
Definition request_mutating_tool (c : ToolCall) (summary : string) (action : Action)
    : tool_prog ToolObservation :=
  if contains_sensitive_value (tc_arguments c)
  then observe_denied c summary "mutating tool arguments contain sensitive material"
  else
    status <~ EvRequestAction action ;;
    match status with
    | Ok status =>
        if bool_decide (status = StatusIdle) && is_outbound_web (kind action)
        then observe_error c summary "outbound web tool is not available in this build"
        else
          record_deferred c ;;~
          record_observation c summary OutcomeApprovalRequired "" None (Some awaiting_approval)
    | Err (RtDenied _) => record_observation c summary OutcomeDenied "" None (Some awaiting_approval)
    | Err _ => record_observation c summary OutcomeError "" None (Some awaiting_approval)
    end.

Definition request_web_tool (o : ToolOrchestrator) (c : ToolCall) (summary : string)
    (action : Action) : tool_prog ToolObservation :=
  status <~ EvRequestAction action ;;
  match status with
  | Err (RtDenied reason) => observe_denied c summary reason
  | Err error => observe_error c summary (runtime_error_text error)
  | Ok status =>
      if bool_decide (status = StatusAwaitingApproval)
      then record_deferred c ;;~ observe_approval c summary awaiting_approval
      else execute_web_tool o c summary
  end.

(** Builtin tools, from the normalization on. *)
Definition process_builtin (o : ToolOrchestrator) (c : ToolCall) : tool_prog ToolObservation :=
  let summary := summarize_arguments (tc_arguments c) in
  match normalize_tool_call o c with
  | Err e => observe_error c summary (normalize_error_text e)
  | Ok action =>
      if is_deferred_kind (kind action) then request_mutating_tool c summary action
      else if bool_decide (tc_name c ∈ ["web_search"; "web_fetch"])
      then request_web_tool o c summary action
      else if String.eqb (tc_name c) "goto_definition" then execute_goto_definition c summary
      else
        note_if (String.eqb (tc_name c) "search")
          (PayloadTool (ToolSearchStarted (tc_id c) (default "" (str_argument "pattern" (tc_arguments c)))
             (default "." (str_argument "path" (tc_arguments c))))) ;;~
        execute_read_only c summary
  end.

Definition bridge_contains (o : ToolOrchestrator) (name : string) : bool :=
  match or_mcp_live o with
  | Some bridge => bool_decide (is_Some (bridge_get bridge name))
  | None => false
  end.

(** After the allowlist. *)
Definition process_allowed (o : ToolOrchestrator) (c : ToolCall) : tool_prog ToolObservation :=
  if bridge_contains o (tc_name c) then execute_mcp_tool o c else process_builtin o c.

Definition process_single_tool (o : ToolOrchestrator) (c : ToolCall) : tool_prog ToolObservation :=
  match or_allowed_tools o with
  | Some allowed =>
      if child_tool_allowed allowed (tc_name c)
      then process_allowed o (with_call_name (role_tool_name (tc_name c)) c)
      else observe_denied c (summarize_arguments (tc_arguments c))
             ("tool `" ++ tc_name c ++ "` not in tool allowlist")
  | None => process_allowed o c
  end.

(** ** A batch of calls *)

Definition is_parallel_call (o : ToolOrchestrator) (c : ToolCall) : bool :=
  match or_mcp_live o ≫= λ bridge, bridge_get bridge (tc_name c) with
  | Some entry => match me_semantics entry with ReadOnly | Idempotent => true | _ => false end
  | None =>
      match normalize_tool_call o c with
      | Ok action => can_parallelize (kind action)
      | Err _ => false
      end
  end.

(** ** The environment *)

Section environment.
Context `{Codec} {St : Type} `{!EventStore St} {F : Type} `{!WorkFiles F} `{!FileChanges F} {W : Type}.
Context `{!McpStreams W} `{!WebService W} `{!CodingTools W} `{!WebJson Value}.
Context `{!UrlQuery} `{!UrlPattern} (to_lowercase : string → string) (rtk : option Rtk).

Record OrchWorld := mkOrchWorld {
  ow_store : St;
  ow_art : ArtWorld F;
  ow_mcp : McpWorld W;
  (** how many ids and times were taken *)
  ow_taken : nat;
}.

(** What the environment supplies: the ids and times, the order of the ledger's
    map, the clock of stored artifacts and the messages a call waits for. *)
Context (tick_of : nat → Tick) (id_of : nat → Uuid) (order : FenceMap → list EffectFenceRecord).
Context (now : N) (fuel : nat) (r : AgentRuntime) (o : ToolOrchestrator).

Definition on_store {A} (taken : nat) (m : stateR St RuntimeError A) (w : OrchWorld)
    : OrchWorld * result RuntimeError A :=
  let '(s, a) := m (ow_store w) in
  (mkOrchWorld s (ow_art w) (ow_mcp w) (ow_taken w + taken), a).

Definition on_files {E A} (m : stateR (ArtWorld F) E A) (w : OrchWorld) : OrchWorld * result E A :=
  let '(art, a) := m (ow_art w) in (mkOrchWorld (ow_store w) art (ow_mcp w) (ow_taken w), a).

Definition session_ledger (w : OrchWorld) : Ledger :=
  mkLedger (ar_session_id r) order (id_of (ow_taken w)) (λ i, tick_of (ow_taken w + i)).

Definition fence_close (how : FenceClosing) :=
  match how with CloseObserved => observe | CloseFailed => mark_failed | CloseUnknown => mark_unknown end.

Definition with_mcp_env (env : W) (w : McpWorld W) : McpWorld W :=
  mkMcpWorld env (mcp_next_id w).

Definition orch_handle (B : Type) (e : toolE B) : OrchWorld → OrchWorld * option B :=
  match e in toolE B return OrchWorld → OrchWorld * option B with
  | EvRecord p => λ w,
      let '(w', a) := on_store 1 (record (tick_of (ow_taken w)) (ar_session_id r) p) w in (w', Some a)
  | EvEvents => λ w, (w, Some (rt_events (ar_session_id r) (ow_store w)))
  | EvRequestAction a => λ w,
      let '(w', s) := on_store 1 (request_action_with_capability_version (tick_of (ow_taken w))
                        (id_of (ow_taken w)) h r a (Some 1%N)) w in (w', Some s)
  | EvSeam => λ w, (w, Some (effect_seam r (ow_store w)))
  | EvOpenArtifacts => λ w,
      let '(w', a) := on_files (artifact_open (or_artifact_root o)) w in (w', Some a)
  | EvReadOnly seam t => λ w,
      let '(w', a) := on_files (run_with_seam to_lowercase rtk (or_artifact_root o) now fuel h seam
                        (or_workspace_root o) t Agent) w in
      (w', match a with Err ToolNoFuel => None | _ => Some a end)
  | EvFence e => λ w,
      let '(s, a) := fence_prepare (session_ledger w) e (ow_store w) in
      (mkOrchWorld s (ow_art w) (ow_mcp w) (ow_taken w + 2), Some a)
  | EvClose how i text => λ w,
      (mkOrchWorld (fence_close how (tick_of (ow_taken w)) (ar_session_id r) i text (ow_store w)).1
         (ow_art w) (ow_mcp w) (ow_taken w + 1), Some tt)
  | EvMcpCall name arguments => λ w,
      match or_mcp_live o with
      | None => (w, None)
      | Some bridge =>
          let '(m, a) := bridge_call fuel bridge name arguments (ow_mcp w) in
          (mkOrchWorld (ow_store w) (ow_art w) m (ow_taken w), a)
      end
  | EvDefinition q => λ w,
      let '(env, a) := coding_definition q (mcp_env (ow_mcp w)) in
      (mkOrchWorld (ow_store w) (ow_art w) (with_mcp_env env (ow_mcp w)) (ow_taken w), Some a)
  | EvWeb c => λ w,
      let '((env, art), a) := WebTools.execute_web_tool (or_artifact_root o) now (tc_name c)
                                (tc_arguments c) (mcp_env (ow_mcp w), ow_art w) in
      (mkOrchWorld (ow_store w) art (with_mcp_env env (ow_mcp w)) (ow_taken w), Some a)
  end.

(** The parallel calls under a schedule and then to their end, the others one by
    one. *)
Definition process_tool_calls (schedule : list nat) (calls : list ToolCall) (w : OrchWorld)
    : OrchWorld * list ToolObservation :=
  let parallel := List.filter (is_parallel_call o) calls in
  let sequential := List.filter (λ c, negb (is_parallel_call o c)) calls in
  let '(w1, tasks) := prun_schedule orch_handle schedule (process_single_tool o <$> parallel) w in
  let '(w2, observed) := pfinish orch_handle tasks w1 in
  let '(w3, rest) := pfinish orch_handle (process_single_tool o <$> sequential) w2 in
  (w3, observed ++ rest).
End environment.
End calls.

Notation "x <~ e ;; k" := (Vis e (λ x, k)) (at level 60, e at next level, right associativity).

(** ** What a call may do, and after what *)

Section gates.
Context `{Json} `{!JsonTree} `{JsonText} `{UrlCrate} `{FileSystem} (h : PolicyHeap).
Context (o : ToolOrchestrator).

(** The session's seam was asked before and allows the effect. *)
Definition allowed_before (pre : list (answered toolE)) (e : NormalizedEffect) : Prop :=
  ∃ seam, ans EvSeam (Ok seam) ∈ pre ∧ seam_decide h seam e = Eff_Allow.

Definition is_log_event {B} (e : toolE B) : bool :=
  match e with EvRecord _ | EvEvents | EvRequestAction _ | EvSeam => true | _ => false end.

(** What must have happened before an event, given the answers so far. *)
Definition gate_event (pre : list (answered toolE)) {B} (e : toolE B) : Prop :=
  match e with
  | EvMcpCall name arguments =>
      ∃ bridge entry, or_mcp_live o = Some bridge ∧
        bridge_validate_arguments bridge name arguments = Ok entry ∧
        allowed_before pre (mcp_effect o entry) ∧
        (is_mutating_semantics (me_semantics entry) = true →
           redact_text (json_text arguments) = json_text arguments ∧
           ∃ pre' i, pre = pre' ++ [ans (EvFence (mcp_effect o entry)) (Ok i)])
  | EvFence e => allowed_before pre e
  | EvClose _ i _ => ∃ e, ans (EvFence e) (Ok i) ∈ pre
  | EvDefinition q =>
      allowed_before pre (workspace_read Agent "goto_definition via agent" (pq_path q))
  | EvWeb c =>
      ∃ action status, normalize_tool_call o c = Ok action ∧
        ans (EvRequestAction action) (Ok status) ∈ pre ∧ status ≠ StatusAwaitingApproval ∧
        allowed_before pre (network_connect Agent (Action.summary action)
                              (default "web:invalid-target" (target action)))
  | EvReadOnly seam _ => ans EvSeam (Ok seam) ∈ pre
  | _ => True
  end.

Definition gate (pre : list (answered toolE)) (ev : answered toolE) : Prop :=
  match ev with existT B (e, _) => gate_event pre e end.

(** Every event has an answer it could be given. *)
Lemma tool_event_inhabited B : toolE B → inhabited B.
Proof.
  destruct 1; constructor; first
    [exact tt | exact None | exact (Err (RtInactiveRun 0)) | exact (Err ArtConstraint)
    |exact (Err ToolNoFuel) | exact (Err "") | exact (McpOk "") | exact (Err (CodingProvider ""))].
Qed.

Lemma covers_note pre p : covers gate pre (note p).
Proof. intros b. by split. Qed.

Lemma covers_note_bind {A} pre p (k : () → prog toolE A) :
  (∀ pre', covers gate (pre ++ pre') (k tt)) → covers gate pre (pbind (note p) k).
Proof. intros Hk. apply covers_bind; [apply covers_note|]. by intros [] tr _. Qed.

Lemma covers_note_if_bind {A} pre b p (k : () → prog toolE A) :
  (∀ pre', covers gate (pre ++ pre') (k tt)) → covers gate pre (pbind (note_if b p) k).
Proof.
  intros Hk. destruct b; [by apply covers_note_bind|].
  specialize (Hk []). by rewrite app_nil_r in Hk.
Qed.

Lemma covers_observation pre c s out p a err : covers gate pre (record_observation c s out p a err).
Proof.
  unfold record_observation.
  generalize (PayloadTool <$> observation_rows c s out p a err). intros l. revert pre.
  induction l as [|q l IH]; intros pre; [done|]. intros answer. by split; [done|apply IH].
Qed.

Create HintDb tools.
#[local] Hint Resolve covers_observation : tools.
#[local] Hint Extern 1 (covers _ _ (observe_error _ _ _)) => apply covers_observation : tools.
#[local] Hint Extern 1 (covers _ _ (observe_denied _ _ _)) => apply covers_observation : tools.
#[local] Hint Extern 1 (covers _ _ (observe_approval _ _ _)) => apply covers_observation : tools.

Lemma covers_deferred pre c : covers gate pre (record_deferred c).
Proof.
  intros [events|e]; (split; [done|]); [|done].
  destruct (find_map _ _); [apply covers_note|done].
Qed.

Context `{DisplayStoreError} `{UuidText}.

Lemma covers_through_seam pre c s e allowed :
  (∀ seam, seam_decide h seam e = Eff_Allow → covers gate (pre ++ [ans EvSeam (Ok seam)]) (allowed seam)) →
  covers gate pre (through_seam h c s e allowed).
Proof.
  intros Ha [seam|err]; (split; [done|]); [|by auto with tools].
  destruct (seam_decide h seam e) eqn:Hd; auto with tools.
Qed.

Lemma allowed_here pre e seam :
  seam_decide h seam e = Eff_Allow → allowed_before (pre ++ [ans EvSeam (Ok seam)]) e.
Proof. intros He. exists seam. split; [set_solver|done]. Qed.

Lemma allowed_later pre pre' e : allowed_before pre e → allowed_before (pre ++ pre') e.
Proof. intros (seam & Hin & He). exists seam. split; [set_solver|done]. Qed.

Lemma covers_close pre fence how text :
  (∀ i, fence = Some i → ∃ e, ans (EvFence e) (Ok i) ∈ pre) →
  covers gate pre (close_fence fence how text).
Proof. destruct fence as [i|]; [|done]. intros Hf b. split; [|done]. by apply (Hf i). Qed.

Lemma covers_call_mcp pre c s fence bridge entry :
  or_mcp_live o = Some bridge →
  bridge_validate_arguments bridge (tc_name c) (value_tree (tc_arguments c)) = Ok entry →
  allowed_before pre (mcp_effect o entry) →
  (is_mutating_semantics (me_semantics entry) = true →
     contains_sensitive_value (tc_arguments c) = false ∧
     ∃ pre' i, pre = pre' ++ [ans (EvFence (mcp_effect o entry)) (Ok i)]) →
  (∀ i, fence = Some i → ans (EvFence (mcp_effect o entry)) (Ok i) ∈ pre) →
  covers gate pre (call_mcp c s fence).
Proof.
  intros Hb Hv Ha Hm Hf answer. split.
  - exists bridge, entry. split_and!; try done. intros Hmut. destruct (Hm Hmut) as [Hs Hpre].
    split; [|done]. unfold contains_sensitive_value in Hs.
    apply negb_false_iff, String.eqb_eq in Hs. done.
  - assert (∀ how text, covers gate (pre ++ [ans (EvMcpCall (tc_name c) (value_tree (tc_arguments c))) answer])
              (close_fence fence how text)) as Hclose.
    { intros how text. apply covers_close. intros i Hi. exists (mcp_effect o entry).
      apply elem_of_app. left. by apply Hf. }
    destruct answer; (apply covers_bind; [apply Hclose|]); intros ? ? _; auto with tools.
Qed.

Lemma covers_mcp_tool pre c : covers gate pre (execute_mcp_tool h o c).
Proof.
  unfold execute_mcp_tool. destruct (or_mcp_live o) as [bridge|] eqn:Hb; [|by auto with tools].
  destruct (bridge_validate_arguments _ _ _) as [entry|] eqn:Hv; [|by auto with tools].
  destruct (is_mutating_semantics (me_semantics entry)) eqn:Hm; cbn [andb].
  - destruct (contains_sensitive_value (tc_arguments c)) eqn:Hs; [by auto with tools|].
    apply covers_through_seam. intros seam Hd [i|reason]; (split; [by apply allowed_here|]);
      [|by auto with tools].
    eapply covers_call_mcp; [exact Hb|exact Hv| | |].
    + by apply allowed_later, allowed_here.
    + intros _. split; [done|]. by eexists _, i.
    + intros i' [= <-]. set_solver.
  - apply covers_through_seam. intros seam Hd. eapply covers_call_mcp; [exact Hb|exact Hv| | |].
    + by apply allowed_here.
    + by rewrite Hm.
    + done.
Qed.

Lemma covers_read_only pre c s : covers gate pre (execute_read_only c s).
Proof.
  unfold execute_read_only. destruct (read_only_tool c) as [t|]; [|by auto with tools].
  intros [[]|e]; (split; [done|]); [|by auto with tools].
  intros [seam|e]; (split; [done|]); [|by auto with tools].
  intros outcome. split; [cbn; set_solver|].
  destruct outcome as [[r|]|]; [|by auto with tools..].
  unfold emit_read_search_activity. destruct (String.eqb _ _); [|destruct (String.eqb _ _)].
  - apply covers_note_bind. intros pre'. by auto with tools.
  - apply covers_note_bind. intros pre'. by auto with tools.
  - by apply covers_observation.
Qed.

Lemma covers_goto pre c s : covers gate pre (execute_goto_definition h c s).
Proof.
  unfold execute_goto_definition. apply covers_through_seam. intros seam Hd answer.
  split; [by apply allowed_here|]. destruct answer; auto with tools.
Qed.

Lemma covers_web pre c s action status :
  normalize_tool_call o c = Ok action → ans (EvRequestAction action) (Ok status) ∈ pre →
  status ≠ StatusAwaitingApproval → covers gate pre (execute_web_tool h o c s).
Proof.
  intros Hn Hin Hst. unfold execute_web_tool. rewrite Hn. apply covers_through_seam.
  intros seam Hd. destruct (or_web_research o); [|by auto with tools].
  intros [[]|e]; (split; [done|]); [|by auto with tools].
  intros answer. split.
  - exists action, status. split_and!; [done|set_solver|done|]. by apply allowed_later, allowed_here.
  - destruct answer; auto with tools.
Qed.

Lemma covers_builtin pre c : covers gate pre (process_builtin h o c).
Proof.
  unfold process_builtin. destruct (normalize_tool_call o c) as [action|e] eqn:Hn; [|by auto with tools].
  destruct (is_deferred_kind (kind action)); [|case_bool_decide; [|destruct (String.eqb _ _)]].
  - unfold request_mutating_tool. destruct (contains_sensitive_value _); [by auto with tools|].
    intros [status|[]]; (split; [done|]); try by auto with tools.
    destruct (_ && _); [by auto with tools|]. apply covers_bind; [apply covers_deferred|].
    intros. auto with tools.
  - intros [status|err]; (split; [done|]).
    + case_bool_decide as Hst.
      * apply covers_bind; [apply covers_deferred|]. intros. auto with tools.
      * eapply covers_web; [exact Hn| |exact Hst]. set_solver.
    + destruct err; auto with tools.
  - apply covers_goto.
  - apply covers_note_if_bind. intros. apply covers_read_only.
Qed.

Lemma covers_single c : covers gate [] (process_single_tool h o c).
Proof.
  unfold process_single_tool, process_allowed. destruct (or_allowed_tools o) as [allowed|].
  - destruct (child_tool_allowed _ _); [|by auto with tools].
    destruct (bridge_contains _ _); [apply covers_mcp_tool|apply covers_builtin].
  - destruct (bridge_contains _ _); [apply covers_mcp_tool|apply covers_builtin].
Qed.
End gates.

Section batches.
Context `{Json} `{!JsonTree} `{JsonText} `{UrlCrate} `{FileSystem} `{DisplayStoreError} `{UuidText}.
Context `{Codec} {St : Type} `{!EventStore St} {F : Type} `{!WorkFiles F} `{!FileChanges F} {W : Type}.
Context `{!McpStreams W} `{!WebService W} `{!CodingTools W} `{!WebJson Value}.
Context `{!UrlQuery} `{!UrlPattern} (to_lowercase : string → string) (rtk : option Rtk).
Context (h : PolicyHeap) (tick_of : nat → Tick) (id_of : nat → Uuid).
Context (order : FenceMap → list EffectFenceRecord) (now : N) (fuel : nat) (r : AgentRuntime).
Context (o : ToolOrchestrator).

Abbreviation handle := (orch_handle h to_lowercase rtk tick_of id_of order now fuel r o).
Abbreviation call_prog := (process_single_tool h o).

(** C37: Whatever calls of a batch run side by side and however their steps
    interleave, each event the run raises has behind it, among the answers this very
    run gave to the same call: an MCP tool is called only after the session's seam, as
    it was answered, allowed its effect, with arguments its schema admits, and a
    mutating one only with arguments the filter leaves alone and right after the fence
    accepted it; the fence is asked only about allowed effects and closes only what it
    opened; a definition is looked up and the web is reached only after the seam
    allowed it, the web also only where the request did not have to wait for an
    approval; and read-only tools run under a seam of the session. *)
Theorem tool_calls_gated schedule calls (w w' : OrchWorld) tasks log :
  prun_logged handle schedule (call_prog <$> calls) w = (w', tasks, log) →
  prun_schedule handle schedule (call_prog <$> calls) w = (w', tasks) ∧
  ∀ l i B (e : toolE B) answer l',
    log = l ++ (i, existT B (e, answer)) :: l' → gate_event h o (answers_to i l) e.
Proof.
  intros Hrun. rewrite <-prun_logged_run, Hrun. split; [done|]. intros l i B e answer l' Hlog.
  destruct (logged_covers handle (gate h o) schedule (call_prog <$> calls) w (λ _, [])
              tool_event_inhabited) with (l := l) (i := i) (e := e) (answer := answer) (l' := l') as [b Hb].
  - intros j p. rewrite list_lookup_fmap. destruct (calls !! j) as [c|]; [|done].
    intros [= <-]. apply covers_single.
  - by rewrite Hrun.
  - exact Hb.
Qed.

(** *** Programs that only write the log *)

Fixpoint log_prog {A} (P : A → Prop) (p : prog toolE A) : Prop :=
  match p with
  | Ret a => P a
  | Vis e k => is_log_event e = true ∧ ∀ b, log_prog P (k b)
  end.

Lemma log_prog_bind {A C} (P : A → Prop) (Q : C → Prop) p (f : A → prog toolE C) :
  log_prog P p → (∀ a, P a → log_prog Q (f a)) → log_prog Q (pbind p f).
Proof.
  intros Hp Hf. induction p as [a|B e k IH]; cbn; [by apply Hf|].
  destruct Hp as [He Hk]. split; [done|]. intros b. by apply IH.
Qed.

Lemma log_event_frame {B} (e : toolE B) (w : OrchWorld) :
  is_log_event e = true →
  ∃ w' b, handle B e w = (w', Some b) ∧ ow_art w' = ow_art w ∧ ow_mcp w' = ow_mcp w.
Proof.
  intros He. destruct e; try done; cbn [orch_handle]; unfold on_store;
    repeat case_match; simplify_eq/=; by eexists _, _.
Qed.

Lemma log_prog_run {A} (P : A → Prop) p (w : OrchWorld) :
  log_prog P p →
  ∃ w' a, prun handle p w = (w', Some a) ∧ P a ∧ ow_art w' = ow_art w ∧ ow_mcp w' = ow_mcp w.
Proof.
  revert w. induction p as [a|B e k IH]; intros w Hp; cbn; [by exists w, a|].
  destruct Hp as [He Hk]. destruct (log_event_frame e w He) as (w1 & b & -> & Ha & Hm).
  destruct (IH b w1 (Hk b)) as (w2 & a & -> & HP & Ha' & Hm'). exists w2, a.
  split_and!; congruence.
Qed.

Lemma log_note p : log_prog (λ _, True) (note p).
Proof. by split. Qed.

Lemma log_observation c s out p a err :
  log_prog (λ obs, to_outcome obs = out) (record_observation c s out p a err).
Proof.
  unfold record_observation. apply (log_prog_bind (λ _, True)); [|done].
  induction (PayloadTool <$> observation_rows c s out p a err) as [|q l IH]; [done|].
  by apply (log_prog_bind (λ _, True)).
Qed.

Definition not_success (obs : ToolObservation) : Prop := to_outcome obs ≠ OutcomeSuccess.

Lemma log_prog_weaken {A} (P Q : A → Prop) p : (∀ a, P a → Q a) → log_prog P p → log_prog Q p.
Proof. intros HPQ. induction p as [a|B e k IH]; cbn; [by apply HPQ|]. intros [He Hk]. auto. Qed.

Lemma log_failure c s out p a err :
  out ≠ OutcomeSuccess → log_prog not_success (record_observation c s out p a err).
Proof.
  intros Ho. eapply log_prog_weaken; [|apply log_observation]. intros obs <-. exact Ho.
Qed.

Lemma log_deferred c : log_prog (λ _, True) (record_deferred c).
Proof.
  split; [done|]. intros [events|e]; [|done]. destruct (find_map _ _); [apply log_note|done].
Qed.

(** The call after the allowlist, with the name of the tool. *)
Definition named_call (c : ToolCall) : ToolCall :=
  match or_allowed_tools o with
  | Some _ => with_call_name (role_tool_name (tc_name c)) c
  | None => c
  end.

(** A builtin tool that would write a file, spawn a process or act on the web is
    never run by the call, in any mode and whatever the policy says: the call
    always ends, never in success, and leaves files, artifacts and services as
    they were. *)
Theorem mutating_builtins_never_run c action (w : OrchWorld) :
  bridge_contains o (tc_name (named_call c)) = false →
  normalize_tool_call o (named_call c) = Ok action → is_deferred_kind (kind action) = true →
  ∃ w' obs, prun handle (call_prog c) w = (w', Some obs) ∧ to_outcome obs ≠ OutcomeSuccess ∧
    ow_art w' = ow_art w ∧ ow_mcp w' = ow_mcp w.
Proof.
  intros Hmcp Hn Hk. apply (log_prog_run not_success).
  assert (log_prog not_success (process_allowed h o (named_call c))) as Hall.
  { unfold process_allowed, process_builtin. rewrite Hmcp, Hn, Hk.
    unfold request_mutating_tool. destruct (contains_sensitive_value _); [by apply log_failure|].
    split; [done|]. intros [status|err].
    - destruct (_ && _); [by apply log_failure|].
      eapply log_prog_bind; [apply log_deferred|]. intros. by apply log_failure.
    - destruct err; by apply log_failure. }
  unfold process_single_tool, named_call in *. destruct (or_allowed_tools o) as [allowed|]; [|done].
  destruct (child_tool_allowed _ _); [done|by apply log_failure].
Qed.

(** ** The fence and repeated calls *)

Section repeated.
Context (store_inv : St → Prop) `{!EventStoreLaws St store_inv}.
Context (Horder : valid_order order).

Abbreviation sid := (ar_session_id r).
Abbreviation used := (spent store_inv sid).

(** The digest leaves the tool and the arguments out. *)
Lemma mcp_digest_shared e1 e2 :
  is_mutating_semantics (me_semantics e1) = true → is_mutating_semantics (me_semantics e2) = true →
  args_digest_for_effect (mcp_effect o e1) = args_digest_for_effect (mcp_effect o e2).
Proof. unfold mcp_effect. by intros -> ->. Qed.

Lemma record_keeps_used t d p st : used d st → used d (record t sid (PayloadTool p) st).1.
Proof.
  intros Hu. apply (quiet_keeps_spent store_inv sid d st); [|done]. apply rtc_once.
  exists t.1, t.2, (PayloadTool p). split; [done|]. unfold record.
  by destruct (store_append_next _ _ _ _ st) as [st' []].
Qed.

Lemma note_keeps_used d p (w : OrchWorld) :
  used d (ow_store w) → used d (ow_store (prun handle (note (PayloadTool p)) w).1).
Proof.
  intros Hu. cbn [note prun orch_handle]. unfold on_store.
  pose proof (record_keeps_used (tick_of (ow_taken w)) d p _ Hu) as Hr.
  by destruct (record _ _ _ _) as [s a].
Qed.

Lemma observation_keeps_used d c s out p a err (w : OrchWorld) :
  used d (ow_store w) → used d (ow_store (prun handle (record_observation c s out p a err) w).1).
Proof.
  unfold record_observation. revert w.
  induction (observation_rows c s out p a err) as [|q l IH]; intros w Hu; [done|].
  pose proof (note_keeps_used d q w Hu) as Hn. cbn [fmap list_fmap note_all].
  rewrite !prun_bind. destruct (prun handle (note (PayloadTool q)) w) as [w1 [[]|]]; [|done].
  specialize (IH w1 Hn). by rewrite prun_bind in IH.
Qed.

Lemma failed_run c s out p a err (w w' : OrchWorld) obs :
  prun handle (record_observation c s out p a err) w = (w', Some obs) → to_outcome obs = out.
Proof.
  destruct (log_prog_run _ _ w (log_observation c s out p a err)) as (w1 & obs1 & -> & Ho & _).
  by intros [= <- <-].
Qed.

Context (bridge : McpLiveBridge) (Hbridge : or_mcp_live o = Some bridge).

(** A mutating call that succeeds uses the digest up. *)
Lemma mcp_success_uses c entry d (w w' : OrchWorld) obs :
  bridge_get bridge (tc_name c) = Some entry → is_mutating_semantics (me_semantics entry) = true →
  d = args_digest_for_effect (mcp_effect o entry) →
  store_inv (ow_store w) → digest_settled (fence_records sid (ow_store w)) d →
  fence_records sid (ow_store w) !! id_of (ow_taken w) = None →
  prun handle (execute_mcp_tool h o c) w = (w', Some obs) → to_outcome obs = OutcomeSuccess →
  used d (ow_store w').
Proof using All.
  intros Hentry Hmut -> Hinv Hset Hfresh Hrun Hok. revert Hrun.
  unfold execute_mcp_tool. rewrite Hbridge. unfold bridge_validate_arguments. rewrite Hentry.
  cbn [ok_or mbind result_bind]. destruct (validate_arguments_with_schema _ _ _) as [u|e];
    cbn [mbind result_bind]; [|intros Hf%failed_run; congruence]. rewrite Hmut. cbn [andb].
  destruct (contains_sensitive_value _); [intros Hf%failed_run; congruence|].
  unfold through_seam. cbn [prun orch_handle].
  destruct (effect_seam r (ow_store w)) as [seam|e]; [|intros Hf%failed_run; congruence].
  destruct (seam_decide h seam _); [|intros Hf%failed_run; congruence..].
  cbn [prun orch_handle]. set (l := session_ledger tick_of id_of order r w).
  destruct (fence_prepare l (mcp_effect o entry) (ow_store w)) as [st1 fr] eqn:Hprep.
  apply (fence_prepare_path (E := string) (T := ()) sid (mcp_effect o entry) l _ _ _ tt [] [] eq_refl Horder Hfresh) in Hprep.
  destruct fr as [i|reason]; [|intros Hf%failed_run; congruence].
  destruct Hprep as [-> Hpath]. unfold call_mcp. cbn [prun orch_handle]. rewrite Hbridge. cbn [ow_mcp].
  destruct (bridge_call _ _ _ _ (ow_mcp w)) as [m [answer|]]; [|done].
  assert (∀ w3 : OrchWorld (St := St) (F := F) (W := W), ow_store w3 = (observe (ledger_tick l 2) sid
            (identity_with_id (mcp_effect o entry) (ledger_effect_id l)) "mcp ok" st1).1 →
          used (args_digest_for_effect (mcp_effect o entry)) (ow_store w3)) as Hused.
  { intros w3 ->. eapply (exec_path sid _ (λ u, (u, Ok tt))) in Hpath; [|reflexivity].
    destruct (observe _ sid _ "mcp ok" st1) as [st2 ro] eqn:Ho.
    eapply observe_path in Hpath; [|exact Ho].
    refine (run_spends store_inv sid _ _ _ _ _ _ (run_steps_fence sid _ _ Hpath) _ _);
      [apply not_elem_of_nil|by apply idle_inv]. }
  destruct answer as [preview|msg|msg]; cbn [close_fence pbind prun orch_handle].
  - cbn [ow_store ow_taken ow_art ow_mcp fence_close].
    match goal with |- prun _ _ ?w3 = _ → _ => pose proof (observation_keeps_used
      (args_digest_for_effect (mcp_effect o entry)) c (summarize_arguments (tc_arguments c))
      OutcomeSuccess preview None None w3 (Hused w3 eq_refl)) as Hk end.
    intros Hr. by rewrite Hr in Hk.
  - intros Hf%failed_run; congruence.
  - intros Hf%failed_run; congruence.
Qed.

(** With the digest used up, no mutating tool is reached. *)
Lemma mcp_refused c entry (w : OrchWorld) :
  bridge_get bridge (tc_name c) = Some entry → is_mutating_semantics (me_semantics entry) = true →
  used (args_digest_for_effect (mcp_effect o entry)) (ow_store w) →
  ∃ w' obs, prun handle (execute_mcp_tool h o c) w = (w', Some obs) ∧ not_success obs ∧
    ow_art w' = ow_art w ∧ ow_mcp w' = ow_mcp w.
Proof using All.
  intros Hentry Hmut Hused. unfold execute_mcp_tool. rewrite Hbridge.
  unfold bridge_validate_arguments. rewrite Hentry. cbn [ok_or mbind result_bind].
  destruct (validate_arguments_with_schema _ _ _) as [u|e]; cbn [mbind result_bind];
    [|by apply log_prog_run, log_failure]. rewrite Hmut. cbn [andb].
  destruct (contains_sensitive_value _); [by apply log_prog_run, log_failure|].
  unfold through_seam. cbn [prun orch_handle].
  destruct (effect_seam r (ow_store w)) as [seam|e]; [|by apply log_prog_run, log_failure].
  destruct (seam_decide h seam _); [|by apply log_prog_run, log_failure..].
  cbn [prun orch_handle].
  destruct (spent_refuses store_inv sid (session_ledger tick_of id_of order r w) (mcp_effect o entry)
    (ow_store w) eq_refl Horder Hused) as [reason ->].
  destruct (log_prog_run not_success (observe_denied c (summarize_arguments (tc_arguments c)) reason)
    (mkOrchWorld (ow_store w) (ow_art w) (ow_mcp w) (ow_taken w + 2))) as (w' & obs & Hr & Hn & Ha & Hm);
    [by apply log_failure|]. by exists w', obs.
Qed.

(** One mutating MCP call is all a session gets: once such a call has succeeded,
    a call of any mutating tool, the same or another, with the same arguments or
    others, ends without success and reaches no server, because the fence tells
    effects apart by the workspace root and not by tool or arguments. *)
Theorem one_mutating_mcp_call c1 c2 e1 e2 (w w1 : OrchWorld) obs1 :
  or_allowed_tools o = None →
  bridge_get bridge (tc_name c1) = Some e1 → is_mutating_semantics (me_semantics e1) = true →
  bridge_get bridge (tc_name c2) = Some e2 → is_mutating_semantics (me_semantics e2) = true →
  store_inv (ow_store w) →
  digest_settled (fence_records sid (ow_store w)) (args_digest_for_effect (mcp_effect o e1)) →
  fence_records sid (ow_store w) !! id_of (ow_taken w) = None →
  prun handle (call_prog c1) w = (w1, Some obs1) → to_outcome obs1 = OutcomeSuccess →
  ∃ w2 obs2, prun handle (call_prog c2) w1 = (w2, Some obs2) ∧
    to_outcome obs2 ≠ OutcomeSuccess ∧ ow_art w2 = ow_art w1 ∧ ow_mcp w2 = ow_mcp w1.
Proof using All.
  intros Hall He1 Hm1 He2 Hm2 Hinv Hset Hfresh. unfold process_single_tool, process_allowed, bridge_contains.
  rewrite Hall, Hbridge, He1, He2. cbn. intros Hrun Hok.
  pose proof (mcp_success_uses c1 e1 _ w w1 obs1 He1 Hm1 eq_refl Hinv Hset Hfresh Hrun Hok) as Hused.
  rewrite (mcp_digest_shared e1 e2) in Hused by done. exact (mcp_refused c2 e2 w1 He2 Hm2 Hused).
Qed.
End repeated.
End batches.

(** ** Concrete calls *)

Section sample.
#[local] Existing Instances sample_fs sample_urls sample_codec one_reply queued.

#[local] Instance tree_json : Json := {|
  Value := JValue;
  value_get := jget;
  value_as_str := as_str;
  intent_from_value _ := None;
  approval_from_value _ := None;
|}.
#[local] Instance tree_values : JsonTree := λ v, v.
#[local] Instance orch_display : DisplayStoreError := λ _, "store".
#[local] Instance orch_ids : UuidText := {| uuid_to_string := dec; uuid_parse_str := parse_u64 |}.
#[local] Instance no_web : WebService (list ReadMessage) := {|
  web_search _ w := (w, Err (mkWebError Transport "offline" None));
  web_fetch _ w := (w, Err (mkWebError Transport "offline" None));
|}.
#[local] Instance no_web_json : WebJson JValue := {|
  search_request_from_value _ := Err "";
  fetch_request_from_value _ := Err "";
  web_observation_json _ := "";
|}.
#[local] Instance no_coding : CodingTools (list ReadMessage) := λ _ w,
  (w, Err (CodingUnavailable "absent")).
#[local] Instance plain_urls : UrlQuery := {|
  url_query _ := None;
  url_query_pairs _ := [];
  url_without_query u := u;
  url_append_pairs u _ := u;
  url_without_fragment u := u;
|}.
#[local] Instance no_pattern : UrlPattern := λ _ s, s.

Definition orch_runtime : AgentRuntime :=
  fresh_runtime 1 (seam_policy (workspace_full ∅ "/ws").2) "/ws" None.

Definition orch_heap : PolicyHeap := (workspace_full ∅ "/ws").1.

(** A session in a mode, with one intent of the user. *)
Definition orch_store (mode : ExecutionMode) : MemoryEventStore :=
  foldl (λ st c, run_cmd c st) MemoryEventStore_default
    [CmdCreate 1 100 0; CmdAppend 101 1 1 (PayloadSession (SessionExecutionModeChanged mode));
     CmdAppend 102 2 1 (PayloadIntent (IntentEvent_new "go"))].

Definition orch_world (mode : ExecutionMode) : OrchWorld (St := MemoryEventStore)
    (F := Demo.Fs) (W := list ReadMessage) :=
  mkOrchWorld (orch_store mode) tool_world (mkMcpWorld [ReadText "first"; ReadText "first"] (λ _, 1%N)) 0.

Definition notes_bridge : McpLiveBridge :=
  from_tools "notes" [mkMcpTool "add" "" JNull None; mkMcpTool "drop" "" JNull None] (AdapterCaller 0).

Definition sample_orchestrator : ToolOrchestrator :=
  mkOrchestrator "/ws" "/store" false (Some notes_bridge) None.

Definition sample_handle := orch_handle (St := MemoryEventStore) (F := Demo.Fs) (W := list ReadMessage)
  orch_heap to_ascii_lowercase None (λ n, (N.of_nat (200 + n), 9%N)) (λ n, N.of_nat (500 + n))
  (λ m, (map_to_list m).*2) 7 9 orch_runtime sample_orchestrator.

Definition sample_call (name : string) (fields : list (string * JValue)) : ToolCall :=
  mkToolCall "call" name (JObject fields).

Definition call_outcome (c : ToolCall) (w : OrchWorld) :=
  let '(w', obs) := prun sample_handle (process_single_tool orch_heap sample_orchestrator c) w in
  ((λ obs, (to_outcome obs, to_error obs)) <$> obs, mcp_env (ow_mcp w')).

Abbreviation sample_prog := (process_single_tool orch_heap sample_orchestrator).

(** An allowed shell command is not run either, and is reported as waiting for an
    approval nobody will be asked for. *)
Example bypass_bash_not_run :
  call_outcome (sample_call "bash" [("command", JString "ls")]) (orch_world Bypass) =
  (Some (OutcomeApprovalRequired, Some "awaiting user approval"), [ReadText "first"; ReadText "first"]).
Proof. vm_compute. reflexivity. Qed.

(** A web tool is denied by the scope, not asked for. *)
Example web_search_denied :
  (call_outcome (sample_call "web_search" [("query", JString "x")]) (orch_world Ask)).1 =
  Some (OutcomeDenied, Some "network is disabled in this sandbox scope").
Proof. vm_compute. reflexivity. Qed.

Definition add_call : ToolCall := sample_call "mcp:notes:add" [].
Definition drop_call : ToolCall := sample_call "mcp:notes:drop" [].
Definition ls_call : ToolCall := sample_call "bash" [("command", JString "ls")].

Lemma orch_store_wf : store_wf (orch_store Bypass).
Proof.
  apply (store_trace_refines [CmdCreate 1 100 0;
    CmdAppend 101 1 1 (PayloadSession (SessionExecutionModeChanged Bypass));
    CmdAppend 102 2 1 (PayloadIntent (IntentEvent_new "go"))]).
  unfold orch_store. cbn [foldl]. apply (trace_snoc [_; _]); [|done].
  apply (trace_snoc [_]); [|done]. apply (trace_snoc []); [apply trace_nil|].
  vm_compute. split_and!; set_solver.
Qed.

Definition sample_run :=
  prun_logged sample_handle [0; 1; 0; 0; 1; 0; 0]%nat (sample_prog <$> [add_call; ls_call]) (orch_world Bypass).

Lemma triple_eta {X Y Z} (x : X * Y * Z) : x = (x.1.1, x.1.2, x.2).
Proof. by destruct x as [[? ?] ?]. Qed.

(** What the run raised for the first call before it called the server. *)
Lemma tool_calls_gated_witness :
  ∃ l answer l',
    sample_run.2 = l ++ (0%nat, existT _ (EvMcpCall "mcp:notes:add" (JObject []), answer)) :: l' ∧
    gate_event orch_heap sample_orchestrator (answers_to 0 l) (EvMcpCall "mcp:notes:add" (JObject [])).
Proof.
  assert (∃ answer, sample_run.2 = take 3 sample_run.2 ++
    (0%nat, existT _ (EvMcpCall "mcp:notes:add" (JObject []), answer)) :: drop 4 sample_run.2) as [answer Hlog]
    by (eexists; vm_compute; reflexivity).
  exists (take 3 sample_run.2), answer, (drop 4 sample_run.2). split; [exact Hlog|].
  refine (proj2 (tool_calls_gated _ _ _ _ _ _ _ _ _ _ _ [add_call; ls_call] (orch_world Bypass)
    sample_run.1.1 sample_run.1.2 sample_run.2 (triple_eta sample_run)) _ _ _ _ _ _ Hlog).
Defined.

Lemma mutating_builtins_witness :
  ∃ w' obs, prun sample_handle (sample_prog ls_call) (orch_world Bypass) = (w', Some obs) ∧
    to_outcome obs ≠ OutcomeSuccess ∧ ow_art w' = ow_art (orch_world Bypass) ∧
    ow_mcp w' = ow_mcp (orch_world Bypass).
Proof.
  eapply mutating_builtins_never_run; vm_compute; reflexivity.
Defined.

Lemma one_mutating_mcp_witness :
  ∃ w1 obs1 w2 obs2, prun sample_handle (sample_prog add_call) (orch_world Bypass) = (w1, Some obs1) ∧
    to_outcome obs1 = OutcomeSuccess ∧
    prun sample_handle (sample_prog drop_call) w1 = (w2, Some obs2) ∧
    to_outcome obs2 ≠ OutcomeSuccess ∧ ow_art w2 = ow_art w1 ∧ ow_mcp w2 = ow_mcp w1.
Proof.
  assert (to_outcome <$> (prun sample_handle (sample_prog add_call) (orch_world Bypass)).2 =
    Some OutcomeSuccess) as Hok by (vm_compute; reflexivity).
  destruct (prun sample_handle (sample_prog add_call) (orch_world Bypass)) as [w1 [obs1|]] eqn:Hrun;
    [|done]. injection Hok as Hok.
  assert (∃ e1 e2, bridge_get notes_bridge (tc_name add_call) = Some e1 ∧
    bridge_get notes_bridge (tc_name drop_call) = Some e2 ∧
    is_mutating_semantics (me_semantics e1) = true ∧ is_mutating_semantics (me_semantics e2) = true)
    as (e1 & e2 & He1 & He2 & Hm1 & Hm2).
  { eexists _, _. split_and!; vm_compute; reflexivity. }
  destruct (one_mutating_mcp_call to_ascii_lowercase None orch_heap
    (λ n, (N.of_nat (200 + n), 9%N)) (λ n, N.of_nat (500 + n)) (λ m, (map_to_list m).*2)
    7 9 orch_runtime sample_orchestrator store_wf (λ m, Permutation_refl _) notes_bridge eq_refl
    add_call drop_call e1 e2 (orch_world Bypass) w1 obs1) as (w2 & obs2 & Hrun2 & Hend);
    [reflexivity|exact He1|exact Hm1|exact He2|exact Hm2|exact orch_store_wf| |
     vm_compute; reflexivity|exact Hrun|exact Hok|].
  2: exact (ex_intro _ w1 (ex_intro _ obs1 (ex_intro _ w2 (ex_intro _ obs2
       (conj eq_refl (conj Hok (conj Hrun2 Hend))))))).
  assert (fence_records (ar_session_id orch_runtime) (orch_store Bypass) = ∅) as Hnone
    by (vm_compute; reflexivity).
  intros i rec Hi. cbn [ow_store orch_world] in Hi. rewrite Hnone in Hi. done.
Defined.
End sample.
