(* ===== verification/ApprovedTools.v ===== *)
(** * Approved tools

    The other half of [crates/impetus-core/src/tool_orchestrator.rs]: the tools a
    user approved ([execute_approved_write], [execute_approved_bash_with_artifacts],
    [record_approval_rejection]), and the [ResolveApproval] request of
    [crates/impetus-core/src/harness_api.rs] that runs them, up to the point where
    it resumes the agent. *)

From S2P Require Import Prelude Prog Str Utf8 Redact ToolSchema Action McpClient McpLive PathScope.
From S2P Require Import WebSecurity Policy Effect RiskGate Events EventStore EffectFence Effects FenceRuns.
From S2P Require Import Completion Projection AgentRuntime WorkspaceFiles HookPrefilter OutputReducer Artifacts.
From S2P Require Import ReadOnlyTools ProcessExecution WebTools ToolOrchestrator.

Open Scope string_scope.
Open Scope nat_scope.
Open Scope list_scope.
Open Scope impetus_scope.

(** ** Errors *)

Inductive OrchestratorError :=
  | OrRuntime (e : RuntimeError)
  | OrToolNotFound (name : string)
  | OrInvalidArguments (e : ToolArgError)
  | OrToolFailed (tool reason : string)
  | OrDenied (reason : string)
  | OrApprovalRequired.

Definition orchestrator_error_text `{DisplayStoreError} `{UuidText} (e : OrchestratorError) : string :=
  match e with
  | OrRuntime e => runtime_error_text e
  | OrToolNotFound name => "tool `" ++ name ++ "` not found"
  | OrInvalidArguments e => arg_error_text e
  | OrToolFailed tool reason => "tool `" ++ tool ++ "` failed: " ++ reason
  | OrDenied reason => "tool execution denied: " ++ reason
  | OrApprovalRequired => "tool execution requires approval"
  end.

(** ** Operations *)

Section approved.
Context `{Json} `{!JsonTree} `{JsonText} `{UrlCrate} `{FileSystem} `{DisplayStoreError} `{UuidText}.
Context `{Codec} {St : Type} `{!EventStore St} {F : Type} `{!WorkFiles F} `{!FileChanges F}.
Context {W : Type} `{!Processes W}.

(** The log, the system with the files and artifacts, and how many ids and times
    were taken. *)
Record ApWorld := mkApWorld {
  ap_store : St;
  ap_sys : ProcWorld F W;
  ap_taken : nat;
}.

Context (h : PolicyHeap) (tick_of : nat → Tick) (id_of : nat → Uuid).
Context (order : FenceMap → list EffectFenceRecord) (now skip_ms : N).
Context (artifact_root : string) (hook_prefilter : HookPrefilter) (r : AgentRuntime).

Abbreviation apR := (stateR ApWorld OrchestratorError).

(** [let _ = runtime.record_event(..)] *)
Definition ap_note (p : EventPayload) (w : ApWorld) : ApWorld :=
  mkApWorld (record (tick_of (ap_taken w)) (ar_session_id r) p (ap_store w)).1 (ap_sys w)
    (ap_taken w + 1).

Definition ap_notes (l : list EventPayload) (w : ApWorld) : ApWorld :=
  foldl (λ w p, ap_note p w) w l.

Definition ap_note_all (l : list EventPayload) : apR () := StateR.modify (ap_notes l).

(** [Self::record_observation] *)
Definition ap_observation (c : ToolCall) (arguments_summary : string) (outcome : ToolEventOutcome)
    (preview : string) (artifact : option ArtifactRef) (error : option string)
    : apR ToolObservation :=
  ap_note_all (PayloadTool <$> observation_rows c arguments_summary outcome preview artifact error) ;;;
  StateR.ret (mkToolObservation (tc_id c) (tc_name c) arguments_summary outcome preview artifact error).

Definition ap_ledger (w : ApWorld) : Ledger :=
  mkLedger (ar_session_id r) order (id_of (ap_taken w)) (λ i, tick_of (ap_taken w + i)).

Definition Deferred : Type := string * string * Value.

Definition deferred_call (d : Deferred) : ToolCall := mkToolCall d.1.1 d.1.2 d.2.

Definition record_approval_rejection (d : Deferred) : apR ToolObservation :=
  ap_observation (deferred_call d) (summarize_arguments d.2) OutcomeDenied "" None
    (Some "user rejected approval").

Definition ap_seam : apR EffectSeam := λ w, (w, map_err OrRuntime (effect_seam r (ap_store w))).

(** The seam's answer for an approved effect; its errors become texts. *)
Definition run_approved {E A} (error_text : E → string) (tool : string) (e : NormalizedEffect)
    (request : ApprovalRequest) (resolution : ApprovalResolution)
    (execution : ProcWorld F W → ProcWorld F W * result E A) : apR (EffectExecution A) :=
  seam <-- ap_seam ;;
  λ w,
    let '((s, sys), res) := execute_after_approval_with_fence h seam (mkDeferred e request) resolution
      (approval_intent_revision request) (ap_ledger w) execution (ap_store w, ap_sys w) in
    (mkApWorld s sys (ap_taken w + 4), map_err (λ e, OrToolFailed tool (error_text e)) res).

(** *** Files *)

Definition write_tools : list string := ["write_file"; "edit_file"].
Definition shell_tools : list string := ["bash"; "shell"; "exec"].

Definition via_agent (name : string) : string := name ++ " via agent".

Definition write_effect (name path : string) : NormalizedEffect :=
  workspace_write Agent (via_agent name) path.

Definition write_step (path content : string) (sys : ProcWorld F W)
    : ProcWorld F W * result ToolError () :=
  let '(w, art) := sys in
  let '(f, res) := write_file_in_scope (ar_workspace_root r) path content (aw_files art) in
  ((w, mkArtWorld f (aw_rows art)), res).

Definition execute_approved_write (request : ApprovalRequest) (resolution : ApprovalResolution)
    (d : Deferred) : apR ToolObservation :=
  let '(tool_call_id, tool_name, arguments) := d in
  if negb (bool_decide (tool_name ∈ write_tools)) then StateR.fail (OrToolNotFound tool_name)
  else
    StateR.lift (map_err OrInvalidArguments (validate_tool_arguments tool_name (value_tree arguments))) ;;;
    path <-- StateR.lift (ok_or (str_argument "path" arguments)
               (OrToolFailed tool_name "write tool requires path")) ;;
    content <-- StateR.lift (ok_or (str_argument "content" arguments)
                  (OrToolFailed tool_name "write tool requires content")) ;;
    let effect := write_effect tool_name path in
    if negb (bool_decide (effect_action effect = approval_action request))
    then StateR.fail (OrDenied "deferred action no longer matches approval")
    else
      execution <-- run_approved tool_error_text tool_name effect request resolution
                      (write_step path content) ;;
      let '(outcome, preview, error) :=
        match execution with
        | Exec_Executed _ => (OutcomeSuccess, "file written", None)
        | Exec_Denied reason => (OutcomeDenied, "", Some reason)
        | Exec_NeedsApproval reason => (OutcomeApprovalRequired, "", Some reason)
        end in
      ap_observation (deferred_call d) (summarize_arguments arguments) outcome preview None error.

(** *** Shell commands

    [process.execute] runs on a thread of its own that is joined; a thread or
    runtime that cannot be started is not modelled. *)

Definition shell_effect (name : string) : NormalizedEffect :=
  process_spawn Agent (via_agent name) (ar_workspace_root r).

Definition shell_request (command : string) (revision : N) : ProcessExecutionRequest :=
  with_hook_prefilter hook_prefilter
    (with_allow_network (allow_network (engine_scope (ar_policy r)))
      (with_process_root (ar_workspace_root r)
        (with_working_dir (ar_workspace_root r)
          (ProcessRequest_new "/bin/sh" ["-lc"; command] Agent revision)))).

Definition open_artifacts (tool : string) : apR () := λ w,
  let '(sys, art) := ap_sys w in
  let '(art', res) := artifact_open artifact_root art in
  (mkApWorld (ap_store w) (sys, art') (ap_taken w),
   map_err (λ e, OrToolFailed tool (match e with ArtIo e => io_text e | ArtConstraint => "" end)) res).

(** The rows of a command that ended. *)
Definition finished_row (id : string) (code : option Z) (summary : string) : EventPayload :=
  PayloadCommand (CommandFinished id code (Some summary)).

Definition sandbox_rows (output : ProcessOutput) : list EventPayload :=
  match po_sandbox_decision output with
  | Some decision => [PayloadSandbox (SandboxEvent_from_decision decision)]
  | None => []
  end.

Definition shell_preview (output : ProcessOutput) : string :=
  redact_text (process_body (po_exit_code output) (po_stdout output) (po_stderr output)).

Definition execute_approved_bash_with_artifacts (request : ApprovalRequest)
    (resolution : ApprovalResolution) (d : Deferred) : apR ToolObservation :=
  let '(tool_call_id, tool_name, arguments) := d in
  if negb (bool_decide (tool_name ∈ shell_tools)) then StateR.fail (OrToolNotFound tool_name)
  else
    StateR.lift (map_err OrInvalidArguments (validate_tool_arguments tool_name (value_tree arguments))) ;;;
    command <-- StateR.lift (ok_or
                  (str_argument "command" arguments ≫= λ c, if is_empty (trim c) then None else Some c)
                  (OrToolFailed tool_name "shell tool requires command")) ;;
    let effect := shell_effect tool_name in
    if negb (bool_decide (effect_action effect = approval_action request))
    then StateR.fail (OrDenied "deferred action no longer matches approval")
    else
      open_artifacts tool_name ;;;
      ap_note_all [PayloadCommand (CommandStarted tool_call_id command)] ;;;
      execution <-- run_approved process_error_text tool_name effect request resolution
        (process_execute artifact_root now
           (shell_request command (approval_intent_revision request)) skip_ms) ;;
      let observe := ap_observation (deferred_call d) (summarize_arguments arguments) in
      match execution with
      | Exec_Executed output =>
          ap_note_all (sandbox_rows output ++
            [PayloadCommand (CommandOutput tool_call_id (bound_activity_preview (shell_preview output)));
             finished_row tool_call_id (po_exit_code output)
               ("exit " ++ exit_debug (po_exit_code output))]) ;;;
          observe OutcomeSuccess (shell_preview output) (po_artifact output) None
      | Exec_Denied reason =>
          ap_note_all [finished_row tool_call_id None reason] ;;;
          observe OutcomeDenied "" None (Some reason)
      | Exec_NeedsApproval reason =>
          ap_note_all [finished_row tool_call_id None reason] ;;;
          observe OutcomeApprovalRequired "" None (Some reason)
      end.

(** *** [ResolveApproval]

    On the runtime of the attached session, up to the resumption of the agent:
    whether it is resumed.  A failure before the approval is recorded is one of
    the runtime, one after it the denial of the tool. *)

Definition on_runtime {A} (m : stateR St RuntimeError A) : stateR ApWorld RuntimeError A := λ w,
  let '(s, res) := m (ap_store w) in (mkApWorld s (ap_sys w) (ap_taken w + 1), res).

Definition read_runtime {A} (m : St → result RuntimeError A) : stateR ApWorld RuntimeError A := λ w,
  (w, m (ap_store w)).

Definition execute_approved (request : ApprovalRequest) (resolution : ApprovalResolution)
    (d : Deferred) : apR ToolObservation :=
  if bool_decide (d.1.2 ∈ write_tools) then execute_approved_write request resolution d
  else if bool_decide (d.1.2 ∈ shell_tools)
  then execute_approved_bash_with_artifacts request resolution d
  else StateR.fail (OrToolNotFound d.1.2).

Definition run_deferred (accepted : bool) (request : ApprovalRequest)
    (resolution : ApprovalResolution) (d : Deferred) : stateR ApWorld RuntimeError () := λ w,
  let '(w', res) :=
    (if accepted then execute_approved request resolution d else record_approval_rejection d) w in
  (w', match res with Ok _ => Ok tt | Err e => Err (RtDenied (orchestrator_error_text e)) end).

Definition resolve_approval_request (approval : Uuid) (accepted : bool)
    : stateR ApWorld RuntimeError bool :=
  let sid := ar_session_id r in
  pending <-- read_runtime (rt_pending_approval sid approval) ;;
  request <-- StateR.lift (ok_or pending (RtMissingApproval approval)) ;;
  deferred <-- read_runtime (rt_deferred_tool sid approval) ;;
  let resolution := mkApprovalResolution approval (approval_fingerprint request)
                      (approval_intent_revision request) accepted Resolver_User in
  (λ w, on_runtime (resolve_approval (tick_of (ap_taken w)) sid resolution) w) ;;;
  match deferred with
  | None => StateR.ret false
  | Some d => run_deferred accepted request resolution d ;;; StateR.ret true
  end.

(** ** What an approval runs *)

(** The artifact store opened. *)
Definition sys_opened (sys : ProcWorld F W) : ProcWorld F W :=
  (sys.1, (artifact_open artifact_root sys.2).1).

(** The deferred call, run on the system. *)
Inductive tool_ran (request : ApprovalRequest) (d : Deferred) (sys : ProcWorld F W)
    : ProcWorld F W → Prop :=
  | ran_write path content :
      d.1.2 ∈ write_tools → str_argument "path" d.2 = Some path →
      str_argument "content" d.2 = Some content →
      effect_action (write_effect d.1.2 path) = approval_action request →
      tool_ran request d sys (write_step path content sys).1
  | ran_shell command :
      d.1.2 ∈ shell_tools → str_argument "command" d.2 = Some command →
      effect_action (shell_effect d.1.2) = approval_action request →
      tool_ran request d sys
        (process_execute artifact_root now (shell_request command (approval_intent_revision request))
           skip_ms (sys_opened sys)).1.

(** *** Notes leave the fence's rows and the system alone *)

Abbreviation quiet := (rtc (quiet_step (ar_session_id r))).

Definition no_fence_row (p : EventPayload) : Prop := ∀ e, p ≠ PayloadEffectFence e.

Lemma ap_notes_quiet l w : Forall no_fence_row l → quiet (ap_store w) (ap_store (ap_notes l w)).
Proof.
  intros Hl. revert w. induction Hl as [|p l Hp _ IH]; intros w; [done|].
  eapply rtc_l; [|exact (IH (ap_note p w))]. exists (tick_of (ap_taken w)).1, (tick_of (ap_taken w)).2, p.
  split; [done|]. cbn. unfold record. by destruct (store_append_next _ _ _ _ (ap_store w)) as [s []].
Qed.

Lemma ap_notes_taken l w : ap_taken w ≤ ap_taken (ap_notes l w).
Proof. revert w. induction l as [|p l IH]; intros w; [done|].
  unfold ap_notes in *. specialize (IH (ap_note p w)). cbn in *. lia.
Qed.

Lemma tool_rows_quiet l : Forall no_fence_row (PayloadTool <$> l).
Proof. apply Forall_fmap, Forall_true. done. Qed.

Lemma ap_observation_run c s out p a err w :
  ∃ w' obs, ap_observation c s out p a err w = (w', Ok obs) ∧ to_outcome obs = out ∧
    quiet (ap_store w) (ap_store w').
Proof. eexists _, _. split; [done|]. split; [done|]. apply ap_notes_quiet, tool_rows_quiet. Qed.

Lemma ap_notes_sys l w : ap_sys (ap_notes l w) = ap_sys w.
Proof. revert w. induction l as [|p l IH]; intros w; [done|]. exact (IH _). Qed.

Lemma ap_observation_sys c s out p a err w :
  ap_sys (ap_observation c s out p a err w).1 = ap_sys w.
Proof. apply ap_notes_sys. Qed.

Lemma run_under_fence_sys {E A} e l (execution : ProcWorld F W → ProcWorld F W * result E A) (st : St) sys :
  let '((_, sys'), _) := run_under_fence e l execution (st, sys) in
  sys' = sys ∨ sys' = (execution sys).1.
Proof.
  unfold run_under_fence. destruct (fence_prepare l e st) as [st1 [i|]]; [|by left].
  destruct (execution sys) as [sys' [v|err]]; [|by right].
  destruct (observe _ _ _ _ _) as [st2 []]; by right.
Qed.

(** Whatever the answer, the system is as it was or the execution ran under
    conditions that hold. *)
Lemma run_approved_sys {E A} (text : E → string) tool e request resolution
    (execution : ProcWorld F W → ProcWorld F W * result E A) w w' res :
  run_approved text tool e request resolution execution w = (w', res) →
  ap_sys w' = ap_sys w ∨
  ap_sys w' = (execution (ap_sys w)).1 ∧
  ∃ seam, effect_seam r (ap_store w) = Ok seam ∧
    resumable h seam (mkDeferred e request) resolution (approval_intent_revision request).
Proof.
  unfold run_approved, ap_seam, StateR.bind.
  destruct (effect_seam r (ap_store w)) as [seam|err]; cbn [map_err]; [|intros [= <- <-]; by left].
  unfold execute_after_approval_with_fence.
  destruct (approved_stops h seam (mkDeferred e request) resolution (approval_intent_revision request)
    (Some (ap_ledger w)) (λ _, execution) (ap_store w) (ap_sys w)) as [Hr|[_ [reason ->]]].
  - rewrite approved_resumes by done. cbn [deferred_effect].
    pose proof (run_under_fence_sys e (ap_ledger w) execution (ap_store w) (ap_sys w)) as Hs.
    destruct (run_under_fence _ _ _ _) as [[st sys] x]. intros [= <- <-].
    destruct Hs as [->|Hs]; [by left|]. right. split; [done|]. by exists seam.
  - intros [= <- <-]. by left.
Qed.

(** The conditions of [Effects], under the session's seam as some log shows it. *)
Definition approved_now (request : ApprovalRequest) (resolution : ApprovalResolution) : Prop :=
  ∃ st seam e, effect_seam r st = Ok seam ∧
    resumable h seam (mkDeferred e request) resolution (approval_intent_revision request).

(** How a tool ends after the seam's answer [x]. *)
Inductive tool_end {A} (w1 : ApWorld) (x : result OrchestratorError (EffectExecution A))
    (w' : ApWorld) (res : result OrchestratorError ToolObservation) : Prop :=
  | end_err e : x = Err e → res = Err e → w' = w1 → tool_end w1 x w' res
  | end_observed execution obs :
      x = Ok execution → res = Ok obs → ap_sys w' = ap_sys w1 →
      quiet (ap_store w1) (ap_store w') →
      (to_outcome obs = OutcomeSuccess → ∃ v, execution = Exec_Executed v) →
      tool_end w1 x w' res.

Lemma tool_end_sys {A} w1 (x : result OrchestratorError (EffectExecution A)) w' res :
  tool_end w1 x w' res → ap_sys w' = ap_sys w1.
Proof. by intros [? ? ? ->|]. Qed.

Lemma observation_end {A} c s out p a err w0 w1 (execution : EffectExecution A) w' res :
  ap_sys w0 = ap_sys w1 → quiet (ap_store w1) (ap_store w0) →
  (out = OutcomeSuccess → ∃ v, execution = Exec_Executed v) →
  ap_observation c s out p a err w0 = (w', res) → tool_end w1 (Ok execution) w' res.
Proof.
  intros Hsys Hq Hout. pose proof (ap_observation_sys c s out p a err w0) as Hs.
  destruct (ap_observation_run c s out p a err w0) as (w2 & obs & Hr & <- & Hq2).
  rewrite Hr in *. cbn [fst] in Hs. intros [= <- <-]. eapply end_observed; try done.
  - congruence.
  - by etrans.
Qed.

Lemma write_shape request resolution d w w' res :
  execute_approved_write request resolution d w = (w', res) →
  (∃ e, w' = w ∧ res = Err e) ∨
  ∃ path content w1 x,
    d.1.2 ∈ write_tools ∧ str_argument "path" d.2 = Some path ∧
    str_argument "content" d.2 = Some content ∧
    effect_action (write_effect d.1.2 path) = approval_action request ∧
    run_approved tool_error_text d.1.2 (write_effect d.1.2 path) request resolution
      (write_step path content) w = (w1, x) ∧ tool_end w1 x w' res.
Proof.
  destruct d as [[id name] arguments]. cbn [fst snd]. unfold execute_approved_write.
  case_bool_decide as Hname; cbn [negb]; [|intros [= <- <-]; left; by eexists].
  unfold StateR.bind at 1, StateR.lift at 1.
  destruct (map_err _ (validate_tool_arguments _ _)) as [u|e]; [|intros [= <- <-]; left; by eexists].
  unfold StateR.bind at 1, StateR.lift at 1.
  destruct (str_argument "path" arguments) as [path|]; [|intros [= <- <-]; left; by eexists].
  cbn [ok_or]. unfold StateR.bind at 1, StateR.lift at 1.
  destruct (str_argument "content" arguments) as [content|]; [|intros [= <- <-]; left; by eexists].
  cbn [ok_or]. case_bool_decide as Hact; cbn [negb]; [|intros [= <- <-]; left; by eexists].
  unfold StateR.bind at 1. destruct (run_approved _ _ _ _ _ _ w) as [w1 x] eqn:Hrun.
  intros Hend. right. exists path, content, w1, x. split_and!; try done.
  destruct x as [execution|e]; [|injection Hend as <- <-; by eapply end_err].
  destruct execution; (eapply observation_end; [done|done| |exact Hend]); [by eexists|done|done].
Qed.

Lemma bash_shape request resolution d w w' res :
  execute_approved_bash_with_artifacts request resolution d w = (w', res) →
  (∃ e, res = Err e ∧ (ap_sys w' = ap_sys w ∨ ap_sys w' = sys_opened (ap_sys w))) ∨
  ∃ command w0 w1 x,
    d.1.2 ∈ shell_tools ∧ str_argument "command" d.2 = Some command ∧
    effect_action (shell_effect d.1.2) = approval_action request ∧
    ap_sys w0 = sys_opened (ap_sys w) ∧ quiet (ap_store w) (ap_store w0) ∧
    ap_taken w ≤ ap_taken w0 ∧
    run_approved process_error_text d.1.2 (shell_effect d.1.2) request resolution
      (process_execute artifact_root now (shell_request command (approval_intent_revision request))
         skip_ms) w0 = (w1, x) ∧ tool_end w1 x w' res.
Proof.
  destruct d as [[id name] arguments]. cbn [fst snd]. unfold execute_approved_bash_with_artifacts.
  assert (∀ e, (w, Err e) = (w', res) →
    ∃ e, res = Err e ∧ (ap_sys w' = ap_sys w ∨ ap_sys w' = sys_opened (ap_sys w))) as Hstop.
  { intros e [= <- <-]. exists e. by split; [|left]. }
  case_bool_decide as Hname; cbn [negb]; [|intros ?%Hstop; by left].
  unfold StateR.bind at 1, StateR.lift at 1.
  destruct (map_err _ (validate_tool_arguments _ _)) as [u|e]; [|intros ?%Hstop; by left].
  unfold StateR.bind at 1, StateR.lift at 1.
  destruct (str_argument "command" arguments ≫= _) as [command|] eqn:Hc; [|intros ?%Hstop; by left].
  cbn [ok_or]. case_bool_decide as Hact; cbn [negb]; [|intros ?%Hstop; by left].
  apply bind_Some in Hc as (c & Hc & Hc'). destruct (is_empty (trim c)); [done|]. injection Hc' as ->.
  unfold StateR.bind at 1, open_artifacts at 1, sys_opened.
  destruct (ap_sys w) as [sys art] eqn:Hsys. cbn [fst snd].
  destruct (artifact_open artifact_root art) as [art' y].
  destruct y as [[]|e]; cbn [map_err]; [|intros [= <- <-]; left; eexists; split; [done|by right]].
  unfold StateR.bind at 1, ap_note_all at 1, StateR.modify at 1.
  set (wo := mkApWorld (ap_store w) (sys, art') (ap_taken w)).
  set (row := [PayloadCommand (CommandStarted id command)]).
  assert (quiet (ap_store wo) (ap_store (ap_notes row wo))) as Hq
    by (apply ap_notes_quiet; by repeat constructor).
  pose proof (ap_notes_taken row wo) as Ht. pose proof (ap_notes_sys row wo) as Hw0.
  set (w0 := ap_notes row wo) in *. unfold StateR.bind at 1.
  destruct (run_approved _ _ _ _ _ _ w0) as [w1 x] eqn:Hrun.
  intros Hend. right. exists command, w0, w1, x. split_and!; try done.
  destruct x as [execution|e]; [|injection Hend as <- <-; by eapply end_err].
  destruct execution; unfold StateR.bind at 1, ap_note_all at 1, StateR.modify at 1 in Hend;
    (eapply observation_end; [..|exact Hend]); try apply ap_notes_sys; try done; try by eexists.
  all: apply ap_notes_quiet; try by repeat constructor.
  apply Forall_app. split; [|by repeat constructor].
  unfold sandbox_rows. destruct (po_sandbox_decision value); by repeat constructor.
Qed.

Lemma execute_approved_sys request resolution d w w' res :
  execute_approved request resolution d w = (w', res) →
  (ap_sys w' = ap_sys w ∨ ap_sys w' = sys_opened (ap_sys w)) ∨
  tool_ran request d (ap_sys w) (ap_sys w') ∧ approved_now request resolution.
Proof.
  unfold execute_approved. case_bool_decide as Hw; [|case_bool_decide].
  - intros [(e & -> & _)|(path & content & w1 & x & ? & ? & ? & ? & Hrun & Hend)]%write_shape;
      [by do 2 left|].
    apply tool_end_sys in Hend as ->. apply run_approved_sys in Hrun as [->|(-> & seam & Hs & Hr)];
      [by do 2 left|]. right. split; [by apply ran_write|]. by eexists _, seam, _.
  - intros [(e & _ & Hs)|(command & w0 & w1 & x & ? & ? & ? & Hw0 & _ & _ & Hrun & Hend)]%bash_shape;
      [by left|].
    apply tool_end_sys in Hend as ->. rewrite <-Hw0.
    apply run_approved_sys in Hrun as [->|(-> & seam & Hs & Hr)]; [left; by right|].
    right. rewrite Hw0. split; [by apply ran_shell|]. by eexists _, seam, _.
  - intros [= <- <-]. by do 2 left.
Qed.

(** What the log says of an approval when its answer is recorded. *)
Lemma resolve_approval_current t resolution st st' p :
  projection (ar_session_id r) st = Ok p →
  resolve_approval t (ar_session_id r) resolution st = (st', Ok tt) →
  ∃ request, proj_pending_approvals p !! resolution_id resolution = Some request ∧
    approval_state request = Pending ∧
    resolution_fingerprint resolution = approval_fingerprint request ∧
    proj_latest_intent_revision p = Some (approval_intent_revision request).
Proof.
  intros Hp. unfold resolve_approval, get_projection, StateR.bind, StateR.fail. rewrite Hp.
  destruct (proj_pending_approvals p !! _) as [request|]; [|done].
  case_bool_decide as Hs; cbn [negb]; [|done]. case_bool_decide; cbn [negb]; [|done]. rewrite Hp.
  case_bool_decide as Hf; cbn [negb orb]; [|by destruct (record _ _ _ _) as [? []]].
  destruct (_ =? _)%N; cbn [negb orb]; [|by destruct (record _ _ _ _) as [? []]].
  case_bool_decide as Hrev; cbn [negb]; [|by destruct (record _ _ _ _) as [? []]].
  intros _. by exists request.
Qed.

(** C20: Answering an approval touches the system only when the answer is yes, the
    approval is pending in the log for the session's latest intent, a deferred call
    is recorded under it and is a file or shell tool whose effect is the action the
    user was shown: then it opens the artifact store and at most runs exactly that
    call, the write of the recorded content to the recorded path or the recorded
    command, and runs it only while the policy still asks for approval and the
    sandbox admits the effect. *)
Theorem approval_runs_the_deferred_call approval accepted w w' res :
  resolve_approval_request approval accepted w = (w', res) →
  ap_sys w' = ap_sys w ∨
  accepted = true ∧ ∃ p request d,
    projection (ar_session_id r) (ap_store w) = Ok p ∧
    proj_pending_approvals p !! approval = Some request ∧ approval_state request = Pending ∧
    proj_latest_intent_revision p = Some (approval_intent_revision request) ∧
    proj_deferred_tools p !! approval = Some d ∧
    (ap_sys w' = sys_opened (ap_sys w) ∨
     tool_ran request d (ap_sys w) (ap_sys w') ∧
     approved_now request (mkApprovalResolution approval (approval_fingerprint request)
       (approval_intent_revision request) accepted Resolver_User)).
Proof.
  unfold resolve_approval_request, read_runtime, rt_pending_approval, rt_deferred_tool.
  unfold StateR.bind at 1. destruct (projection (ar_session_id r) (ap_store w)) as [p|e] eqn:Hp;
    [|intros [= <- <-]; by left]. cbn [mbind result_bind].
  unfold StateR.bind at 1, StateR.lift at 1.
  destruct (proj_pending_approvals p !! approval) as [request|] eqn:Hreq;
    [|intros [= <- <-]; by left]. cbn [ok_or].
  unfold StateR.bind at 1. rewrite Hp. cbn [mbind result_bind]. unfold StateR.bind at 1, on_runtime.
  set (resolution := mkApprovalResolution _ _ _ _ _).
  destruct (resolve_approval _ _ resolution (ap_store w)) as [st [[]|e]] eqn:Hres;
    [|intros [= <- <-]; by left].
  destruct (resolve_approval_current _ _ _ _ _ Hp Hres) as (request' & Hreq' & Hst & _ & Hrev).
  cbn [resolution_id resolution] in Hreq'. assert (request' = request) as -> by congruence.
  destruct (proj_deferred_tools p !! approval) as [d|] eqn:Hd; [|intros [= <- <-]; by left].
  set (w1 := mkApWorld st (ap_sys w) (ap_taken w + 1)). unfold StateR.bind, run_deferred.
  destruct accepted.
  - destruct (execute_approved request resolution d w1) as [w2 x] eqn:Hex. intros Hend.
    assert (w' = w2) as -> by (destruct x; by injection Hend).
    apply execute_approved_sys in Hex as [[?|?]|[? ?]]; [by left|right..]; split; try done;
      exists p, request, d; split_and!; try done; [by left|by right].
  - destruct (record_approval_rejection d w1) as [w2 x] eqn:Hex. intros Hend.
    assert (w' = w2) as -> by (destruct x; by injection Hend). left.
    apply (f_equal (λ y, ap_sys y.1)) in Hex. cbn [fst] in Hex. rewrite <-Hex.
    exact (ap_observation_sys _ _ _ _ _ _ w1).
Qed.

(** ** The fence and repeated approvals *)

Section repeated.
Context (store_inv : St → Prop) `{!EventStoreLaws St store_inv} (Horder : valid_order order).

Abbreviation sid := (ar_session_id r).
Abbreviation used := (spent store_inv sid).

(** The effect the fence sees of a deferred call. *)
Definition tool_effect (d : Deferred) : option NormalizedEffect :=
  if bool_decide (d.1.2 ∈ write_tools) then write_effect d.1.2 <$> str_argument "path" d.2
  else if bool_decide (d.1.2 ∈ shell_tools) then Some (shell_effect d.1.2)
  else None.

Lemma executed_spends {E A} (text : E → string) tool e request resolution
    (execution : ProcWorld F W → ProcWorld F W * result E A) w w' v :
  store_inv (ap_store w) → digest_settled (fence_records sid (ap_store w)) (args_digest_for_effect e) →
  fence_records sid (ap_store w) !! id_of (ap_taken w) = None →
  run_approved text tool e request resolution execution w = (w', Ok (Exec_Executed v)) →
  used (args_digest_for_effect e) (ap_store w').
Proof using All.
  intros Hinv Hset Hfr. unfold run_approved, ap_seam, StateR.bind.
  destruct (effect_seam r (ap_store w)) as [seam|err]; cbn [map_err]; [|done].
  unfold execute_after_approval_with_fence.
  destruct (approved_stops h seam (mkDeferred e request) resolution (approval_intent_revision request)
    (Some (ap_ledger w)) (λ _, execution) (ap_store w) (ap_sys w)) as [Hr|[_ [reason ->]]]; [|done].
  rewrite approved_resumes by done. cbn [deferred_effect].
  destruct (run_under_fence e (ap_ledger w) execution (ap_store w, ap_sys w)) as [[st sys] x] eqn:Hrun.
  intros [= <- Hx]. destruct x as [x|]; [|done]. injection Hx as ->.
  by eapply (fenced_run_spends store_inv sid e (ap_ledger w)).
Qed.

Lemma spent_not_executed {E A} (text : E → string) tool e request resolution
    (execution : ProcWorld F W → ProcWorld F W * result E A) w w' res :
  used (args_digest_for_effect e) (ap_store w) →
  run_approved text tool e request resolution execution w = (w', res) →
  ap_sys w' = ap_sys w ∧ ∀ v, res ≠ Ok (Exec_Executed v).
Proof using All.
  intros Hu. unfold run_approved, ap_seam, StateR.bind.
  destruct (effect_seam r (ap_store w)) as [seam|err]; cbn [map_err]; [|by intros [= <- <-]].
  unfold execute_after_approval_with_fence.
  destruct (approved_stops h seam (mkDeferred e request) resolution (approval_intent_revision request)
    (Some (ap_ledger w)) (λ _, execution) (ap_store w) (ap_sys w)) as [Hr|[_ [reason ->]]];
    [|by intros [= <- <-]].
  rewrite approved_resumes by done. cbn [deferred_effect].
  destruct (spent_run_refused store_inv sid e (ap_ledger w) execution (ap_store w) (ap_sys w)
    eq_refl Horder Hu) as [reason ->]. by intros [= <- <-].
Qed.

(** Ids the log has not used. *)
Definition fresh_ids (w : ApWorld) : Prop :=
  ∀ n, ap_taken w ≤ n → fence_records sid (ap_store w) !! id_of n = None.

Lemma quiet_keeps_records st st' :
  quiet st st' → store_inv st → store_inv st' ∧ fence_records sid st' = fence_records sid st.
Proof.
  induction 1 as [|st1 st2 st3 (i & t & p & Hp & ->) _ IH]; intros Hinv; [done|].
  destruct (append_keeps_records store_inv sid i t p st1 Hp Hinv) as [Hinv2 Hr].
  destruct (IH Hinv2) as [Hinv3 Hr3]. split; [done|congruence].
Qed.

(** A success uses the digest up. *)
Lemma approved_success_spends request resolution d e w w' obs :
  tool_effect d = Some e → store_inv (ap_store w) → fresh_ids w →
  digest_settled (fence_records sid (ap_store w)) (args_digest_for_effect e) →
  execute_approved request resolution d w = (w', Ok obs) → to_outcome obs = OutcomeSuccess →
  used (args_digest_for_effect e) (ap_store w').
Proof using All.
  intros He Hinv Hfresh Hset Hex Hok. revert He Hex. unfold tool_effect, execute_approved.
  case_bool_decide as Hw; [|case_bool_decide as Hs; [|done]].
  - intros (path & Hp & ->)%fmap_Some Hex.
    apply write_shape in Hex as [(? & _ & ?)|(path' & content & w1 & x & _ & Hp' & _ & _ & Hrun & Hend)]; [done|].
    assert (path' = path) as -> by congruence.
    destruct Hend as [? ? ?|execution obs' -> [= <-] _ Hq Hv]; [done|].
    destruct (Hv Hok) as [v ->]. apply (quiet_keeps_spent store_inv sid _ _ _ Hq).
    eapply executed_spends; [done|done| |exact Hrun]. by apply Hfresh.
  - intros [= <-] Hex.
    apply bash_shape in Hex as [(? & ? & _)|(command & w0 & w1 & x & _ & _ & _ & _ & Hq0 & Ht & Hrun & Hend)];
      [done|].
    destruct (quiet_keeps_records _ _ Hq0 Hinv) as [Hinv0 Hr0].
    destruct Hend as [? ? ?|execution obs' -> [= <-] _ Hq Hv]; [done|].
    destruct (Hv Hok) as [v ->]. apply (quiet_keeps_spent store_inv sid _ _ _ Hq).
    eapply executed_spends; [done| | |exact Hrun]; rewrite Hr0; [done|by apply Hfresh].
Qed.

(** With the digest used up the tool does nothing. *)
Lemma spent_approval_refused request resolution d e w w' res :
  tool_effect d = Some e → used (args_digest_for_effect e) (ap_store w) →
  execute_approved request resolution d w = (w', res) →
  (ap_sys w' = ap_sys w ∨ ap_sys w' = sys_opened (ap_sys w)) ∧
  ∀ obs, res = Ok obs → to_outcome obs ≠ OutcomeSuccess.
Proof using All.
  intros He Hu Hex. revert He Hex. unfold tool_effect, execute_approved.
  case_bool_decide as Hw; [|case_bool_decide as Hs; [|done]].
  - intros (path & Hp & ->)%fmap_Some Hex.
    apply write_shape in Hex as [(? & -> & ->)|(path' & content & w1 & x & _ & Hp' & _ & _ & Hrun & Hend)];
      [by split; [left|]|].
    assert (path' = path) as -> by congruence.
    apply spent_not_executed in Hrun as [<- Hno]; [|done].
    split; [left; by apply tool_end_sys in Hend|]. intros obs ->.
    destruct Hend as [? ? ?|execution obs' -> [= <-] _ _ Hv]; [done|]. naive_solver.
  - intros [= <-] Hex.
    apply bash_shape in Hex as [(? & -> & ?)|(command & w0 & w1 & x & _ & _ & _ & Hw0 & Hq0 & _ & Hrun & Hend)];
      [done|].
    apply spent_not_executed in Hrun as [Hsys Hno]; [|by apply (quiet_keeps_spent store_inv sid _ _ _ Hq0)].
    split; [right; apply tool_end_sys in Hend; congruence|]. intros obs ->.
    destruct Hend as [? ? ?|execution obs' -> [= <-] _ _ Hv]; [done|]. naive_solver.
Qed.

(** Two calls the fence cannot tell apart: shell commands, whatever they say, and
    writes to one path by one or the other tool, whatever they write. *)
Definition same_to_fence (d1 d2 : Deferred) : Prop :=
  d1.1.2 ∈ shell_tools ∧ d2.1.2 ∈ shell_tools ∨
  d1.1.2 ∈ write_tools ∧ d2.1.2 ∈ write_tools ∧
    is_Some (str_argument "path" d1.2) ∧ str_argument "path" d2.2 = str_argument "path" d1.2.

Lemma same_to_fence_digest d1 d2 :
  same_to_fence d1 d2 → ∃ e1 e2, tool_effect d1 = Some e1 ∧ tool_effect d2 = Some e2 ∧
    args_digest_for_effect e1 = args_digest_for_effect e2.
Proof.
  assert (∀ name, name ∈ shell_tools → name ∉ write_tools) as Hdisj.
  { intros name Hn. unfold shell_tools, write_tools in *. set_unfold. naive_solver. }
  unfold tool_effect. intros [[Hn1 Hn2]|(Hn1 & Hn2 & [path Hp] & Hp')].
  - rewrite (bool_decide_eq_false_2 (d1.1.2 ∈ write_tools)), (bool_decide_eq_false_2 (d2.1.2 ∈ write_tools)),
      !bool_decide_eq_true_2 by auto. eexists _, _. split_and!; reflexivity.
  - rewrite !bool_decide_eq_true_2 by done. rewrite Hp', Hp. eexists _, _. split_and!; reflexivity.
Qed.

(** One approved shell command, and one approved write to a path, is all a
    session gets: after an approved tool has succeeded, and whatever other rows the
    log takes, a later approved call the fence cannot tell from it (another
    command, other contents) does not run: the system stays as it is but for the
    artifact store that is opened, and the answer is no success. *)
Theorem approved_tools_run_once req1 req2 res1 res2 d1 d2 w0 w1 w2 w3 obs1 answer :
  same_to_fence d1 d2 → store_inv (ap_store w0) → fresh_ids w0 →
  (∀ e, tool_effect d1 = Some e →
     digest_settled (fence_records sid (ap_store w0)) (args_digest_for_effect e)) →
  execute_approved req1 res1 d1 w0 = (w1, Ok obs1) → to_outcome obs1 = OutcomeSuccess →
  quiet (ap_store w1) (ap_store w2) →
  execute_approved req2 res2 d2 w2 = (w3, answer) →
  (ap_sys w3 = ap_sys w2 ∨ ap_sys w3 = sys_opened (ap_sys w2)) ∧
  ∀ obs, answer = Ok obs → to_outcome obs ≠ OutcomeSuccess.
Proof using All.
  intros (e1 & e2 & He1 & He2 & Hd)%same_to_fence_digest Hinv Hfresh Hset Hrun Hok Hq Hrun2.
  eapply spent_approval_refused; [exact He2| |exact Hrun2]. rewrite <-Hd.
  apply (quiet_keeps_spent store_inv sid _ _ _ Hq). by eapply approved_success_spends; eauto.
Qed.
End repeated.
End approved.

(** ** Concrete approvals *)

Section sample.
#[local] Existing Instances sample_fs sample_urls sample_codec one_reply queued tree_json tree_values.
#[local] Existing Instances orch_display orch_ids no_web no_web_json no_coding plain_urls no_pattern.
#[local] Existing Instance sample_processes.

(** The session after the shell command [ls] was asked for in [Ask] mode. *)
Definition asked_store : MemoryEventStore :=
  ow_store (prun sample_handle (process_single_tool orch_heap sample_orchestrator ls_call) (orch_world Ask)).1.

Definition asked_world : ApWorld (St := MemoryEventStore) (F := Demo.Fs) (W := list SpawnCommand) :=
  mkApWorld asked_store ([], tool_world) 40.

Definition sample_resolve := resolve_approval_request (St := MemoryEventStore) (F := Demo.Fs)
  (W := list SpawnCommand) orch_heap (λ n, (N.of_nat (200 + n), 9%N)) (λ n, N.of_nat (500 + n))
  (λ m, (map_to_list m).*2) 7 1 "/store" [] orch_runtime.


Definition then_ask (mode : ExecutionMode) (c : ToolCall) (st : MemoryEventStore) : MemoryEventStore :=
  let st := (record (90%N, 9%N) 1 (PayloadSession (SessionExecutionModeChanged mode)) st).1 in
  ow_store (prun sample_handle (process_single_tool orch_heap sample_orchestrator c)
    (mkOrchWorld (F := Demo.Fs) (W := list ReadMessage) st tool_world (mkMcpWorld [] (λ _, 1%N)) 20)).1.

Definition rm_call : ToolCall := sample_call "bash" [("command", JString "rm -r sub")].


Definition commands_run (x : ApWorld (St := MemoryEventStore) (F := Demo.Fs) (W := list SpawnCommand)
    * result RuntimeError bool) : option (list (list string)) :=
  if is_ok x.2 then Some (sc_args <$> (ap_sys x.1).1) else None.

Example approved_ls_runs : commands_run (sample_resolve 500 true asked_world) = Some [["-lc"; "ls"]].
Proof. vm_compute. reflexivity. Qed.

Example rejected_ls_does_not : commands_run (sample_resolve 500 false asked_world) = Some [].
Proof. vm_compute. reflexivity. Qed.

(** The approval asked for [ls] runs another command, that the model sent after the
    user had switched to [Bypass]: it needed no approval of its own, and was kept
    under the one requested last. *)
Example approval_runs_another_command :
  commands_run (sample_resolve 500 true (mkApWorld (then_ask Bypass rm_call asked_store)
    ([], tool_world) 60)) = Some [["-lc"; "rm -r sub"]].
Proof. vm_compute. reflexivity. Qed.

(** The second approved command of a session does not run, and its approval is
    answered all the same. *)
Example second_command_not_run :
  let w := (sample_resolve 500 true asked_world).1 in
  commands_run (sample_resolve 520 true (mkApWorld (then_ask Ask rm_call (ap_store w)) (ap_sys w) 60))
  = Some [["-lc"; "ls"]].
Proof. vm_compute. reflexivity. Qed.

(** A tool that fails ends the request with an error, so the agent is not resumed:
    its run stays active, without an observation. *)
Example failed_tool_strands_the_run :
  let x := resolve_approval_request (St := MemoryEventStore) (F := Demo.Fs) (W := list SpawnCommand)
    orch_heap (λ n, (N.of_nat (200 + n), 9%N)) (λ n, N.of_nat (500 + n)) (λ m, (map_to_list m).*2) 7 1
    "/store" [HookRule_new "sh" HookDeny] orch_runtime 500 true asked_world in
  is_ok x.2 = false ∧
  match store_list 1 (ap_store x.1) with
  | Ok l => existsb (λ e, match event_payload e with
                          | PayloadTool (ToolObserved _ _ _ OutcomeApprovalRequired _ _ _) => false
                          | PayloadTool (ToolObserved _ _ _ _ _ _ _) => true
                          | _ => false
                          end) l = false
  | Err _ => False
  end.
Proof. vm_compute. by split. Qed.

Lemma approval_runs_witness :
  ∃ request d,
    (ap_sys (sample_resolve 500 true asked_world).1 = sys_opened "/store" (ap_sys asked_world) ∨
     tool_ran 7 1 "/store" [] orch_runtime request d (ap_sys asked_world)
       (ap_sys (sample_resolve 500 true asked_world).1) ∧
     approved_now (St := MemoryEventStore) orch_heap orch_runtime request
       (mkApprovalResolution 500 (approval_fingerprint request) (approval_intent_revision request)
          true Resolver_User)).
Proof.
  destruct (approval_runs_the_deferred_call (St := MemoryEventStore) (F := Demo.Fs)
    (W := list SpawnCommand) orch_heap (λ n, (N.of_nat (200 + n), 9%N)) (λ n, N.of_nat (500 + n))
    (λ m, (map_to_list m).*2) 7 1 "/store" [] orch_runtime 500 true asked_world
    (sample_resolve 500 true asked_world).1 (sample_resolve 500 true asked_world).2)
    as [Hsame|(_ & p & request & d & _ & _ & _ & _ & _ & Hran)].
  - apply surjective_pairing.
  - apply (f_equal fst) in Hsame. vm_compute in Hsame. discriminate Hsame.
  - by exists request, d.
Defined.

Definition bash_approval : ApprovalRequest :=
  pending_with_version 500 (mkAction Agent SpawnProcess "bash via agent" (Some "/ws")) "" 1 (Some 1%N).

Definition sample_execute := execute_approved (St := MemoryEventStore) (F := Demo.Fs)
  (W := list SpawnCommand) orch_heap (λ n, (N.of_nat (200 + n), 9%N)) (λ n, N.of_nat (500 + n))
  (λ m, (map_to_list m).*2) 7 1 "/store" [] orch_runtime.

Definition asked_of (c : ToolCall) : Deferred := (tc_id c, tc_name c, tc_arguments c).

Definition bash_world : ApWorld (St := MemoryEventStore) (F := Demo.Fs) (W := list SpawnCommand) :=
  mkApWorld (orch_store Bypass) ([], tool_world) 40.

Lemma approved_once_witness :
  ∃ w1 obs1 w2 answer,
    sample_execute bash_approval (ApprovalResolution_user bash_approval true) (asked_of ls_call) bash_world
      = (w1, Ok obs1) ∧ to_outcome obs1 = OutcomeSuccess ∧
    sample_execute bash_approval (ApprovalResolution_user bash_approval true) (asked_of rm_call) w1
      = (w2, answer) ∧
    (ap_sys w2 = ap_sys w1 ∨ ap_sys w2 = sys_opened "/store" (ap_sys w1)) ∧
    ∀ obs, answer = Ok obs → to_outcome obs ≠ OutcomeSuccess.
Proof.
  assert (match (sample_execute bash_approval (ApprovalResolution_user bash_approval true)
            (asked_of ls_call) bash_world).2 with Ok obs => to_outcome obs = OutcomeSuccess | Err _ => False end)
    as Hok by (vm_compute; reflexivity).
  assert (fence_records 1 (orch_store Bypass) = ∅) as Hnone by (vm_compute; reflexivity).
  destruct (sample_execute bash_approval (ApprovalResolution_user bash_approval true)
    (asked_of ls_call) bash_world) as [w1 [obs1|]] eqn:Hrun; [|done].
  set (second := sample_execute bash_approval (ApprovalResolution_user bash_approval true)
    (asked_of rm_call) w1).
  destruct (approved_tools_run_once orch_heap (λ n, (N.of_nat (200 + n), 9%N)) (λ n, N.of_nat (500 + n))
    (λ m, (map_to_list m).*2) 7 1 "/store" [] orch_runtime store_wf (λ m, Permutation_refl _)
    bash_approval bash_approval (ApprovalResolution_user bash_approval true)
    (ApprovalResolution_user bash_approval true) (asked_of ls_call) (asked_of rm_call)
    bash_world w1 w1 second.1 obs1 second.2) as [Hsame Hno];
    [| | | | | | | |].
  - left; split; left.
  - exact orch_store_wf.
  - intros n _. exact (eq_trans (f_equal (lookup _) Hnone) (lookup_empty _)).
  - intros e _ i rec Hi. by rewrite (eq_trans (f_equal (lookup i) Hnone) (lookup_empty i)) in Hi.
  - exact Hrun.
  - exact Hok.
  - apply rtc_refl.
  - apply surjective_pairing.
  - exists w1, obs1, second.1, second.2. exact (conj eq_refl (conj Hok (conj (surjective_pairing second) (conj Hsame Hno)))).
Defined.
End sample.
