(* ===== verification/Observations.v ===== *)
(** * Observations and compaction of the prompt

    [crates/impetus-core/src/observation_pack.rs] and [compaction.rs], and the
    durable compaction of [runtime.rs]: what the prompt keeps of a tool's output,
    how old messages are folded into a summary, and the anchors that lead back to
    the evidence. *)

From S2P Require Import Prelude Str Utf8 Redact ToolSchema Action McpClient Events EventStore Budget BudgetStore.
From S2P Require Import PathScope Policy EffectFence Effects Completion Projection AgentRuntime RuntimeLog.
From S2P Require Import WorkspaceFiles MemoryStore OutputReducer Artifacts ContextBuilder ToolOrchestrator Provider.

Open Scope string_scope.
Open Scope nat_scope.
Open Scope list_scope.
Open Scope impetus_scope.

(** ** Evidence anchors *)

Inductive EvidenceAnchor :=
  | AnchorArtifact (id : string) (byte_count : option N)
  | AnchorEvent (sequence : N) (tool_call_id : option string).

Definition anchor_label (a : EvidenceAnchor) : string :=
  match a with
  | AnchorArtifact id (Some n) => "evidence_anchor:artifact:" ++ id ++ ":" ++ dec n
  | AnchorArtifact id None => "evidence_anchor:artifact:" ++ id
  | AnchorEvent sequence (Some id) => "evidence_anchor:event:" ++ dec sequence ++ ":" ++ id
  | AnchorEvent sequence None => "evidence_anchor:event:" ++ dec sequence
  end.

Definition anchor_artifact_id (a : EvidenceAnchor) : option string :=
  match a with AnchorArtifact id _ => Some id | AnchorEvent _ _ => None end.

Definition anchor_event_sequence (a : EvidenceAnchor) : option N :=
  match a with AnchorEvent sequence _ => Some sequence | AnchorArtifact _ _ => None end.

(** Of both files. *)
Definition truncate_chars (text : string) (max_chars : nat) : string :=
  if max_chars <? chars_count text then (chars_take max_chars text ++ ellipsis)%string
  else chars_take max_chars text.

(** ** Observation packs *)

Record ObservationPack := mkObservationPack {
  op_tool_call_id : string;
  op_tool_name : string;
  op_outcome : string;
  op_preview : string;
  op_truncated : bool;
  op_anchors : list EvidenceAnchor;
  op_error : option string;
  op_arguments_summary : option string;
}.

Inductive ObservationPackError :=
  | ArtifactStoreRequired
  | PackStore (reason : string)
  | PackSerialize (reason : string)
  | NotRecoverable (reason : string).

(** [serde_json::to_string(pack)] *)
Class PackJson := pack_json : ObservationPack → result string string.

Definition event_anchor (event_sequence : option N) (tool_call_id : string) : list EvidenceAnchor :=
  match event_sequence with Some seq => [AnchorEvent seq (Some tool_call_id)] | None => [] end.

Definition artifact_anchor (a : option ArtifactRef) : list EvidenceAnchor :=
  match a with
  | Some a => [AnchorArtifact (artifact_id a) (Some (byte_count a))]
  | None => []
  end.

Definition from_tool_observation (o : ToolObservation) (event_sequence : option N) : ObservationPack :=
  mkObservationPack (to_tool_call_id o) (to_tool_name o) (outcome_debug (to_outcome o)) (to_preview o)
    (bool_decide (is_Some (to_artifact o)))
    (artifact_anchor (to_artifact o) ++ event_anchor event_sequence (to_tool_call_id o))
    (to_error o) (Some (to_arguments_summary o)).

Definition reduce_preserving_anchors (budget : nat) (p : ObservationPack) : ObservationPack :=
  let reduced := reduce_output (prompt_reducer budget) (op_preview p) in
  mkObservationPack (op_tool_call_id p) (op_tool_name p) (op_outcome p) (red_content reduced)
    (op_truncated p || red_truncated reduced) (op_anchors p) (op_error p) (op_arguments_summary p).

Definition receipt_line (p : ObservationPack) : string :=
  ("[" ++ op_tool_name p ++ " " ++ op_outcome p ++ "] " ++ truncate_chars (op_preview p) 160 ++
   concat_str ((λ a, " " ++ anchor_label a)%string <$> op_anchors p))%string.

Definition context_json `{PackJson} (p : ObservationPack) : result ObservationPackError string :=
  map_err PackSerialize (pack_json p).

Section packs.
Context `{Codec} {F : Type} `{!WorkFiles F} `{!FileChanges F} (artifact_root : string) (now : N).

(** [has_store]: whether there is a store. *)
Definition pack_raw (has_store : bool) (tool_call_id tool_name outcome raw : string) (budget : nat)
    (event_sequence : option N) : stateR (ArtWorld F) ObservationPackError ObservationPack :=
  let reduced := reduce_output (prompt_reducer budget) raw in
  let pack anchors := mkObservationPack tool_call_id tool_name outcome (red_content reduced)
    (red_truncated reduced) (anchors ++ event_anchor event_sequence tool_call_id) None None in
  if red_truncated reduced then
    if has_store then λ w,
      match artifact_store artifact_root now raw w with
      | (w', Ok a) => (w', Ok (pack (artifact_anchor (Some a))))
      | (w', Err e) => (w', Err (PackStore (art_error_text e)))
      end
    else StateR.fail ArtifactStoreRequired
  else StateR.ret (pack []).

Definition recover_artifact_bytes (a : EvidenceAnchor) (w : ArtWorld F)
    : result ObservationPackError string :=
  id ← ok_or (anchor_artifact_id a) (NotRecoverable "anchor is not an artifact pointer");
  map_err (λ e, NotRecoverable (art_error_text e)) (artifact_read artifact_root id w).
End packs.

Definition recover_event `{Json} `{DisplayStoreError} {St} `{!EventStore St} (sid : Uuid)
    (a : EvidenceAnchor) (st : St) : result ObservationPackError Event :=
  sequence ← ok_or (anchor_event_sequence a) (NotRecoverable "anchor is not an event pointer");
  l ← map_err (λ e, NotRecoverable (store_error_to_string e)) (store_list sid st);
  ok_or (List.find (λ e, event_sequence e =? sequence)%N l)
    (NotRecoverable ("event sequence " ++ dec sequence ++ " missing")).

(** ** Anchors of a range of the log *)

Section summary.
Context `{Json}.

Definition anchors_of_event (e : Event) : list EvidenceAnchor :=
  match event_payload e with
  | PayloadTool (ToolObserved tool_call_id _ _ _ _ artifact _) =>
      artifact_anchor artifact ++ [AnchorEvent (event_sequence e) (Some tool_call_id)]
  | _ => []
  end.

Definition in_sequences (from to : N) (e : Event) : bool :=
  negb ((event_sequence e <? from)%N || (to <? event_sequence e)%N).

Definition anchors_from_events (events : list Event) (from to : N) : list EvidenceAnchor :=
  concat (anchors_of_event <$> List.filter (in_sequences from to) events).

Definition anchors_header : string := "[evidence anchors]".

Definition ends_with_newline (s : string) : bool :=
  match rev (String.list_ascii_of_string s) with a :: _ => Ascii.eqb a newline | [] => false end.

Definition append_anchors_to_summary (summary : string) (anchors : list EvidenceAnchor) : string :=
  match anchors with
  | [] => summary
  | _ =>
      (summary ++
       (if negb (is_empty summary) && negb (ends_with_newline summary) then nl else "") ++
       anchors_header ++ nl ++ concat_str ((λ a, anchor_label a ++ nl)%string <$> anchors))%string
  end.

Definition artifact_id_of_line (line : string) : option string :=
  rest ← strip_prefix "evidence_anchor:artifact:" (trim line);
  match split_on ":" rest with
  | id :: _ => if is_empty id then None else Some id
  | [] => None
  end.

Definition parse_artifact_ids_from_summary (summary : string) : list string :=
  omap artifact_id_of_line (lines summary).

(** ** Folding messages *)

Definition SUMMARY_LINE_CHARS : nat := 240.
Definition KEEP_TAIL_MESSAGES : nat := 2.

Definition summary_line (m : ProviderMessage) : string :=
  "[" ++ pm_role m ++ "] " ++ truncate_chars (pm_content m) SUMMARY_LINE_CHARS.

Definition summarize_messages (messages : list ProviderMessage) : string :=
  join nl (summary_line <$> messages).

(** The leading system messages and the others. *)
Fixpoint split_systems (messages : list ProviderMessage) : list ProviderMessage * list ProviderMessage :=
  match messages with
  | [] => ([], [])
  | m :: rest =>
      if String.eqb (pm_role m) "system"
      then let '(systems, others) := split_systems rest in (m :: systems, others)
      else ([], messages)
  end.

Definition summary_marker : string := "[context compaction summary]".

Definition summary_message (summary : string) : ProviderMessage :=
  user_message (summary_marker ++ nl ++ summary)%string.

Definition compact_provider_messages (messages : list ProviderMessage)
    : list ProviderMessage * string :=
  if length messages <=? KEEP_TAIL_MESSAGES + 1 then (messages, summarize_messages messages)
  else
    let '(systems, rest) := split_systems messages in
    if length rest <=? KEEP_TAIL_MESSAGES then (systems ++ rest, summarize_messages rest)
    else
      let split_at := length rest - KEEP_TAIL_MESSAGES in
      let summary := summarize_messages (take split_at rest) in
      (systems ++ [summary_message summary] ++ drop split_at rest, summary).

(** [estimate_tokens] of [compaction.rs] *)
Definition compaction_estimate (text : string) : N :=
  N.max (N.of_nat (String.length text) / 4) 1.

Fixpoint replace_first_summary (messages : list ProviderMessage) (with_anchors : string)
    : list ProviderMessage :=
  match messages with
  | [] => []
  | m :: rest =>
      if String.eqb (pm_role m) "user" && contains (pm_content m) summary_marker
      then summary_message with_anchors :: rest
      else m :: replace_first_summary rest with_anchors
  end.

Definition inject_evidence_anchors_into_summary (messages : list ProviderMessage)
    (summary_with_anchors : string) : list ProviderMessage :=
  if contains summary_with_anchors anchors_header
  then replace_first_summary messages summary_with_anchors else messages.
End summary.

(** ** Durable compaction *)

Section compaction.
Context `{Json} `{Codec} {St : Type} `{!EventStore St} `{!BudgetStore St}.
Context {F : Type} `{!WorkFiles F} `{!FileChanges F}.

(** The budget and the log of the runtime, and the artifacts. *)
Record CompactWorld := mkCompactWorld {
  cw_budget : option BudgetChecker;
  cw_store : St;
  cw_art : ArtWorld F;
}.

Abbreviation compR := (stateR CompactWorld RuntimeError).

Definition on_log {A} (m : stateR St RuntimeError A) : compR A := λ w,
  let '(st, a) := m (cw_store w) in (mkCompactWorld (cw_budget w) st (cw_art w), a).

Definition on_budget {A} (m : stateR (option BudgetChecker * St) StoreError A) : compR A := λ w,
  let '((b, st), a) := m (cw_budget w, cw_store w) in
  (mkCompactWorld b st (cw_art w), map_err RtStore a).

(** The end of the range compacted last. *)
Definition compacted_through (e : Event) : option N :=
  match event_payload e with
  | PayloadBudget (CompactionCompleted _ _ _ to _ _) => if (0 <? to)%N then Some to else None
  | _ => None
  end.

Definition compaction_from (events : list Event) : N :=
  match find_map compacted_through (reverse events) with
  | Some to => wrapping_add u64_max to 1
  | None => 1
  end.

Definition last_event_sequence (events : list Event) : N :=
  match last events with Some e => event_sequence e | None => 0 end.

(** What the environment supplies: ids and times of the rows, the clock, and what
    the session listing says of the parent. *)
Context (tick_of : nat → Tick) (now_ms now : N) (artifact_root : string).
Context (r : AgentRuntime) (parent_session_id : St → option Uuid).

Definition structural_of (b : option BudgetChecker) (st : St) : CompactionStructuralState :=
  let state := from_option checker_state (BudgetState_new 0) b in
  let scope := engine_scope (ar_policy r) in
  mkCompactionStructuralState (ar_workspace_root r) (parent_session_id st) (allow_network scope)
    (allow_web_outbound scope) (allow_private_network scope) (allowed_hosts scope) (turns_used state)
    (tokens_used state) (compaction_count state) (ar_worktree_id r).

(** [artifact_store.and_then(|store| store.store(..).ok())] *)
Definition store_summary (has_store : bool) (summary : string) : compR (option ArtifactRef) := λ w,
  if has_store then
    let '(art, res) := artifact_store artifact_root now summary (cw_art w) in
    (mkCompactWorld (cw_budget w) (cw_store w) art,
     Ok (match res with Ok a => Some a | Err _ => None end))
  else (w, Ok None).

(** The folded messages and the summary with its anchors. *)
Definition fold_prompt (messages : list ProviderMessage) (events : list Event) (from to : N)
    : list ProviderMessage * string :=
  let '(compacted, summary) := compact_provider_messages messages in
  let summary := append_anchors_to_summary summary (anchors_from_events events from to) in
  (inject_evidence_anchors_into_summary compacted summary, summary).

Definition compacted_tokens (compacted : list ProviderMessage) (summary : string) : N :=
  (compaction_estimate summary +
   foldr N.add 0 ((λ m, compaction_estimate (pm_content m)) <$> compacted))%N.

Definition run_durable_compaction_with_store (messages : list ProviderMessage) (has_store : bool)
    : compR (list ProviderMessage) :=
  let sid := ar_session_id r in
  w <-- StateR.get ;;
  match rt_compaction_needed (cw_budget w) with
  | None => StateR.ret messages
  | Some (threshold, used) =>
      events <-- StateR.lift (rt_events sid (cw_store w)) ;;
      let to := last_event_sequence events in
      let from := compaction_from events in
      on_log (record (tick_of 0) sid (PayloadBudget (CompactionRequired threshold used))) ;;;
      on_log (record (tick_of 1) sid (PayloadBudget (CompactionStarted from to threshold used))) ;;;
      let '(compacted, summary) := fold_prompt messages events from to in
      let tokens := compacted_tokens compacted summary in
      artifact <-- store_summary has_store summary ;;
      on_budget (rt_record_compaction now_ms sid tokens) ;;;
      w <-- StateR.get ;;
      let structural := structural_of (cw_budget w) (cw_store w) in
      on_log (record (tick_of 2) sid (PayloadBudget (CompactionCompleted tokens
        (structural_compaction_count structural) from to artifact (Some structural)))) ;;;
      StateR.ret compacted
  end.

(** With the store of the default root, where it can be opened. *)
Definition run_durable_compaction (messages : list ProviderMessage)
    : compR (list ProviderMessage) := λ w,
  let '(art, opened) := artifact_open artifact_root (cw_art w) in
  run_durable_compaction_with_store messages (is_ok opened)
    (mkCompactWorld (cw_budget w) (cw_store w) art).
End compaction.

(** ** What folding keeps *)

Section folding.
Context `{Json}.

Lemma split_systems_app messages systems rest :
  split_systems messages = (systems, rest) →
  messages = systems ++ rest ∧ Forall (λ m, pm_role m = "system") systems ∧
  ∀ m rest', rest = m :: rest' → pm_role m ≠ "system".
Proof.
  revert systems rest. induction messages as [|m messages IH]; cbn; intros systems rest.
  - by intros [= <- <-].
  - destruct (String.eqb_spec (pm_role m) "system") as [Hm|Hm].
    + destruct (split_systems messages) as [systems' rest']. intros [= <- <-].
      destruct (IH _ _ eq_refl) as (-> & Hs & Hr). split_and!; [done|by constructor|done].
    + intros [= <- <-]. split_and!; [done|constructor|]. by intros m' rest' [= <- <-].
Qed.

(** Folding the prompt keeps the leading system messages and the last two
    messages as they are, and what lies between becomes one user message that has a
    line for each message it replaces; a prompt of up to three messages, or with at
    most two beside the leading system ones, stays as it is. *)
Theorem compaction_keeps_the_ends messages :
  let '(compacted, summary) := compact_provider_messages messages in
  compacted = messages ∧ (length messages ≤ 3 ∨ ∃ systems rest,
    messages = systems ++ rest ∧ Forall (λ m, pm_role m = "system") systems ∧ length rest ≤ 2) ∨
  ∃ systems folded tail,
    messages = systems ++ folded ++ tail ∧ Forall (λ m, pm_role m = "system") systems ∧
    (∀ m rest, folded = m :: rest → pm_role m ≠ "system") ∧ folded ≠ [] ∧ length tail = 2 ∧
    compacted = systems ++ summary_message summary :: tail ∧
    summary = join nl (summary_line <$> folded).
Proof.
  unfold compact_provider_messages. destruct (Nat.leb_spec (length messages) (KEEP_TAIL_MESSAGES + 1)).
  { left. split; [done|]. left. done. }
  destruct (split_systems messages) as [systems rest] eqn:Hs.
  apply split_systems_app in Hs as (Hm & Hsys & Hrest).
  destruct (Nat.leb_spec (length rest) KEEP_TAIL_MESSAGES).
  { left. split; [done|]. right. by exists systems, rest. }
  right. unfold KEEP_TAIL_MESSAGES in *.
  exists systems, (take (length rest - 2) rest), (drop (length rest - 2) rest).
  split_and!; try done.
  - by rewrite take_drop.
  - intros m rest' E. apply (Hrest m (rest' ++ drop (length rest - 2) rest)).
    by rewrite <-(take_drop (length rest - 2) rest) at 1; rewrite E.
  - intros E. apply (f_equal length) in E. rewrite length_take in E. cbn in E. lia.
  - rewrite length_drop. lia.
Qed.
End folding.

(** ** The ranges of consecutive compactions *)

Section ranges.
Context `{Json}.

Definition compaction_range (e : Event) : option (N * N) :=
  match event_payload e with
  | PayloadBudget (CompactionCompleted _ _ from to _ _) => Some (from, to)
  | _ => None
  end.

(** Ranges that begin at 1, each where the one before ends; [next] is where the
    next would begin. *)
Inductive tiled : list (N * N) → N → Prop :=
  | tiled_nil : tiled [] 1
  | tiled_snoc rs from to :
      tiled rs from → (from ≤ to + 1)%N → tiled (rs ++ [(from, to)]) (to + 1).

Definition within_range (n : N) (x : N * N) : Prop := (x.1 ≤ n ≤ x.2)%N.

Lemma tiled_below rs next x : tiled rs next → x ∈ rs → (x.2 < next)%N.
Proof.
  induction 1 as [|rs from to Ht IH Hle]; [by intros ?%not_elem_of_nil|].
  intros [Hx|Hx]%elem_of_app; [specialize (IH Hx); lia|].
  apply list_elem_of_singleton in Hx as ->. cbn. lia.
Qed.

(** Every number below the end is in one range, and in one only. *)
Lemma tiled_covers rs next n :
  tiled rs next → (1 ≤ n < next)%N →
  ∃ i x, rs !! i = Some x ∧ within_range n x ∧ ∀ j y, rs !! j = Some y → within_range n y → j = i.
Proof.
  induction 1 as [|rs from to Ht IH Hle]; [lia|]. intros Hn. destruct (decide (n < from)%N) as [Hlt|].
  - destruct IH as (i & x & Hi & Hx & Huniq); [lia|]. exists i, x.
    split; [by apply lookup_app_l_Some|]. split; [done|]. intros j y Hj Hy.
    apply lookup_app_Some in Hj as [Hj|[_ Hj]]; [by eapply Huniq|].
    apply list_lookup_singleton_Some in Hj as [_ <-]. unfold within_range in Hy. cbn in Hy. lia.
  - exists (length rs), (from, to). split; [by rewrite lookup_app_r, Nat.sub_diag|].
    split; [unfold within_range; cbn; lia|]. intros j y Hj Hy.
    apply lookup_app_Some in Hj as [Hj|[Hle' Hj]].
    + apply list_elem_of_lookup_2, (tiled_below _ _ _ Ht) in Hj. unfold within_range in Hy. lia.
    + apply list_lookup_singleton_Some in Hj as [Hj _]. lia.
Qed.

Definition comp_inv (l : list Event) : Prop :=
  tiled (omap compaction_range l) (compaction_from l) ∧ (compaction_from l ≤ N.of_nat (length l) + 1)%N.

Lemma compacted_through_range e : compaction_range e = None → compacted_through e = None.
Proof.
  unfold compaction_range, compacted_through. destruct (event_payload e); try done.
  by destruct e0.
Qed.

Lemma compaction_from_snoc l e :
  compaction_range e = None → compaction_from (l ++ [e]) = compaction_from l.
Proof.
  intros He. unfold compaction_from. rewrite reverse_snoc. cbn [find_map].
  by rewrite compacted_through_range.
Qed.

Lemma comp_inv_snoc l e : compaction_range e = None → comp_inv l → comp_inv (l ++ [e]).
Proof.
  intros He [Ht Hle]. unfold comp_inv. rewrite compaction_from_snoc, omap_app, length_app by done.
  cbn [omap list_omap]. rewrite He, app_nil_r. split; [done|]. cbn. lia.
Qed.

(** The row that ends a compaction of the log [l]. *)
Lemma comp_inv_completed l l1 e :
  comp_inv l → (∀ x, x ∈ l1 → compaction_range x = None) →
  compaction_range e = Some (compaction_from l, N.of_nat (length l)) → l ≠ [] →
  (N.of_nat (length l) < u64_max)%N → comp_inv (l ++ l1 ++ [e]).
Proof.
  intros [Ht Hle] Hl1 He Hne Hlt. unfold comp_inv.
  assert (omap compaction_range l1 = []) as Hnone.
  { clear -Hl1. induction l1 as [|x l1 IH]; [done|]. cbn. rewrite Hl1 by set_solver. apply IH. set_solver. }
  rewrite !omap_app, Hnone. cbn [omap list_omap app]. rewrite He.
  assert (compaction_from (l ++ l1 ++ [e]) = N.of_nat (length l) + 1)%N as ->.
  { unfold compaction_from. rewrite app_assoc, reverse_snoc. cbn [find_map].
    assert (compacted_through e = Some (N.of_nat (length l))) as ->.
    { revert He. unfold compaction_range, compacted_through.
      destruct (event_payload e) as [| | | | | | | |b| | | | | | | |]; try done; destruct b; try done.
      intros [= _ ->]. rewrite (proj2 (N.ltb_lt _ _)); [done|]. destruct l; [done|]. cbn. lia. }
    rewrite wrapping_add_small by lia. lia. }
  split; [by constructor|]. rewrite !length_app. cbn. lia.
Qed.
End ranges.

Section tiling.
Context `{Json} `{Codec} {St : Type} `{!EventStore St} `{!BudgetStore St}.
Context (store_inv : St → Prop) `{!EventStoreLaws St store_inv} `{!BudgetStoreLaws St store_inv}.
Context {F : Type} `{!WorkFiles F} `{!FileChanges F}.
Context (artifact_root : string) (r : AgentRuntime) (parent_session_id : St → option Uuid).

Abbreviation sid := (ar_session_id r).
Abbreviation compact := (run_durable_compaction_with_store (F := F)).

(** Rows of anyone, and compactions, whether they succeed or not. *)
Inductive comp_step (w : CompactWorld (St := St) (F := F)) : CompactWorld (St := St) (F := F) → Prop :=
  | comp_row t p :
      (∀ a b f to art s, p ≠ PayloadBudget (CompactionCompleted a b f to art s)) →
      comp_step w (mkCompactWorld (cw_budget w) (record t sid p (cw_store w)).1 (cw_art w))
  | comp_run tick_of now_ms now messages has_store :
      comp_step w (compact tick_of now_ms now artifact_root r parent_session_id messages has_store w).1.

Lemma record_owned t p s l s' res :
  owns store_inv sid s l → record t sid p s = (s', res) →
  ∃ l', owns store_inv sid s' l' ∧
    match res with Ok _ => ∃ e, l' = l ++ [e] ∧ event_payload e = p | Err _ => l' = l end.
Proof.
  intros Ho. unfold record. destruct (store_append_next t.1 t.2 sid p s) as [s1 [e|err]] eqn:Ha;
    intros [= <- <-].
  - destruct (append_own_log _ _ _ _ _ _ _ _ Ho Ha) as [Ho' Hp]. exists (l ++ [e]). eauto.
  - exists l. split; [|done]. destruct Ho as (Hinv & Hl & ? & ?).
    destruct (append_next_err _ _ _ _ _ _ _ Hinv Ha) as [Hinv' Hsame].
    split_and!; [done|by rewrite Hsame|done|done].
Qed.

Lemma budget_owned {A} (m : stateR (option BudgetChecker * St) StoreError A) s l b :
  owns store_inv sid s l →
  (∀ b st, let '((_, st'), _) := m (b, st) in
     (store_inv st → store_inv st') ∧ store_list sid st' = store_list sid st) →
  owns store_inv sid (m (b, s)).1.2 l.
Proof.
  intros (Hinv & Hl & ? & ?) Hm. specialize (Hm b s). destruct (m (b, s)) as [[b' s'] a]. cbn.
  destruct Hm as [Hi Hs]. split_and!; [by apply Hi|by rewrite Hs|done|done].
Qed.

Lemma record_compaction_frame now_ms tokens (b : option BudgetChecker) (st : St) :
  let '((_, st'), _) := rt_record_compaction now_ms sid tokens (b, st) in
  (store_inv st → store_inv st') ∧ store_list sid st' = store_list sid st.
Proof using All.
  unfold rt_record_compaction, rt_save. destruct b as [c|]; [|done].
  pose proof (update_budget_inv now_ms sid (checker_state (budget_record_compaction tokens c)) st) as Hi.
  pose proof (update_budget_list now_ms sid (checker_state (budget_record_compaction tokens c)) st sid) as Hl.
  by destruct (store_update_budget_state _ _ _ _) as [st' x].
Qed.

Lemma owned_length s l e : owns store_inv sid s l → last l = Some e → event_sequence e = N.of_nat (length l).
Proof.
  intros (_ & _ & Hok & _) Hlast. rewrite last_lookup in Hlast.
  destruct (Hok _ _ Hlast) as (_ & _ & ->). destruct l; [done|]. cbn. lia.
Qed.

Lemma last_sequence_length s l : owns store_inv sid s l → last_event_sequence l = N.of_nat (length l).
Proof.
  intros Ho. unfold last_event_sequence. destruct (last l) as [e|] eqn:Hlast.
  - by eapply owned_length.
  - by apply last_None in Hlast as ->.
Qed.

Lemma store_summary_frame now has_store summary (w : CompactWorld (St := St) (F := F)) :
  ∃ art a, store_summary now artifact_root has_store summary w
    = (mkCompactWorld (cw_budget w) (cw_store w) art, Ok a).
Proof.
  unfold store_summary. destruct has_store; [|by destruct w; eexists _, _].
  destruct (artifact_store _ _ _ _) as [art res]. by eexists _, _.
Qed.

(** What a compaction leaves in the log. *)
Lemma compaction_log tick_of now_ms now messages has_store w l w' res :
  owns store_inv sid (cw_store w) l →
  compact tick_of now_ms now artifact_root r parent_session_id messages has_store w = (w', res) →
  ∃ l1, owns store_inv sid (cw_store w') (l ++ l1) ∧
    ((∀ x, x ∈ l1 → compaction_range x = None) ∨
     ∃ l2 e, l1 = l2 ++ [e] ∧ (∀ x, x ∈ l2 → compaction_range x = None) ∧
       compaction_range e = Some (compaction_from l, N.of_nat (length l))).
Proof using All.
  intros Ho. unfold run_durable_compaction_with_store, StateR.get.
  unfold StateR.bind at 1. destruct (rt_compaction_needed (cw_budget w)) as [[threshold used]|].
  2: { intros [= <- <-]. exists []. rewrite app_nil_r. split; [done|]. left. by intros x ?%not_elem_of_nil. }
  unfold StateR.bind at 1, StateR.lift, rt_events. pose proof Ho as (_ & Hl & _). rewrite Hl. cbn [map_err].
  rewrite (last_sequence_length _ _ Ho).
  unfold StateR.bind at 1, on_log at 1.
  destruct (record (tick_of 0) _ _ _) as [s1 [[]|e1]] eqn:Hr1;
    destruct (record_owned _ _ _ _ _ _ Ho Hr1) as (l1 & Ho1 & Hl1).
  2: { intros [= <- <-]. exists []. rewrite app_nil_r. subst l1. split; [done|].
       left. by intros x ?%not_elem_of_nil. }
  destruct Hl1 as (x1 & -> & Hx1). unfold StateR.bind at 1, on_log at 1. cbn [cw_store].
  destruct (record (tick_of 1) _ _ s1) as [s2 [[]|e2]] eqn:Hr2;
    destruct (record_owned _ _ _ _ _ _ Ho1 Hr2) as (l2 & Ho2 & Hl2).
  2: { intros [= <- <-]. exists [x1]. subst l2. split; [done|]. left.
       intros x ->%list_elem_of_singleton. unfold compaction_range. by rewrite Hx1. }
  destruct Hl2 as (x2 & -> & Hx2). rewrite <-app_assoc in Ho2. cbn [app] in Ho2.
  assert (∀ x, x ∈ [x1; x2] → compaction_range x = None) as Hnone.
  { intros x [->| ->%list_elem_of_singleton]%elem_of_cons; unfold compaction_range; by rewrite ?Hx1, ?Hx2. }
  destruct (fold_prompt messages l _ _) as [compacted summary]. cbv beta iota zeta.
  unfold StateR.bind at 1.
  cbn [cw_budget cw_store cw_art]. destruct (store_summary_frame now has_store summary (mkCompactWorld (cw_budget w) s2 (cw_art w)))
    as (art & a & ->). cbn [cw_budget cw_store].
  unfold StateR.bind at 1, on_budget at 1. cbn [cw_budget cw_store cw_art].
  set (tokens := compacted_tokens compacted summary).
  pose proof (budget_owned (rt_record_compaction now_ms sid tokens) _ _ (cw_budget w) Ho2
    (record_compaction_frame now_ms tokens)) as Ho3.
  destruct (rt_record_compaction now_ms sid tokens (cw_budget w, s2)) as [[b3 s3] [[]|e3]]; cbn [map_err].
  2: { intros [= <- <-]. exists [x1; x2]. split; [done|by left]. }
  unfold StateR.bind at 1. cbn [cw_budget cw_store cw_art fst snd] in *.
  unfold StateR.bind at 1, on_log at 1. cbn [cw_store].
  destruct (record (tick_of 2) _ _ s3) as [s4 [[]|e4]] eqn:Hr4;
    destruct (record_owned _ _ _ _ _ _ Ho3 Hr4) as (l4 & Ho4 & Hl4); intros [= <- <-].
  - destruct Hl4 as (x3 & -> & Hx3). rewrite <-app_assoc in Ho4. exists ([x1; x2] ++ [x3]).
    split; [done|]. right. exists [x1; x2], x3. split_and!; [done|done|].
    unfold compaction_range. by rewrite Hx3.
  - exists [x1; x2]. subst l4. split; [done|by left].
Qed.

Lemma comp_step_inv w w' l :
  comp_step w w' → owns store_inv sid (cw_store w) l →
  ∃ l1, owns store_inv sid (cw_store w') (l ++ l1) ∧
    (comp_inv l → (N.of_nat (length (l ++ l1)) < u64_max)%N → comp_inv (l ++ l1)).
Proof using All.
  assert (∀ l1, (∀ x, x ∈ l1 → compaction_range x = None) → ∀ l, comp_inv l → comp_inv (l ++ l1)) as Hquiet.
  { intros l1 Hl1. induction l1 as [|x l1 IH] using rev_ind; intros l2 Hi; [by rewrite app_nil_r|].
    rewrite app_assoc. apply comp_inv_snoc; [apply Hl1; set_solver|]. apply IH; [set_solver|done]. }
  intros [t p Hp|tick_of now_ms now messages has_store] Ho; cbn [cw_store].
  - destruct (record t sid p (cw_store w)) as [s' [[]|e]] eqn:Hr;
      destruct (record_owned _ _ _ _ _ _ Ho Hr) as (l' & Ho' & Hl'); cbn [fst].
    + destruct Hl' as (x & -> & Hx). exists [x]. split; [done|]. intros Hi _. apply comp_inv_snoc; [|done].
      unfold compaction_range. rewrite Hx. destruct p; try done. destruct e; try done. by destruct (Hp _ _ _ _ _ _ eq_refl).
    + subst l'. exists []. rewrite app_nil_r. by split.
  - destruct (compact tick_of now_ms now artifact_root r parent_session_id messages has_store w)
      as [w2 res] eqn:Hrun. cbn [fst].
    destruct (compaction_log _ _ _ _ _ _ _ _ _ Ho Hrun) as (l1 & Ho' & [Hq|(l2 & e & -> & Hq & He)]);
      (eexists; split; [exact Ho'|]); intros Hi Hlt; [by apply Hquiet|].
    apply comp_inv_completed; try done; [by destruct Ho as (_ & _ & _ & ?)|].
    rewrite !length_app in Hlt. cbn in Hlt. lia.
Qed.

(** However rows and compactions follow one another in a session whose log had
    no compaction yet, compactions that fail part of the way included: the ranges
    of the completed ones follow each other without gap or overlap, so that every
    row they reach, and with it the anchors of every tool observation, was in
    exactly one of the ranges, and the next compaction begins right after. *)
Theorem compactions_leave_no_gap w w' l :
  owns store_inv sid (cw_store w) l → omap compaction_range l = [] →
  rtc comp_step w w' →
  ∃ l', owns store_inv sid (cw_store w') l' ∧
    ((N.of_nat (length l') < u64_max)%N →
     tiled (omap compaction_range l') (compaction_from l') ∧
     ∀ e, e ∈ l' → (event_sequence e < compaction_from l')%N →
       ∃ i x, omap compaction_range l' !! i = Some x ∧ within_range (event_sequence e) x ∧
         ∀ j y, omap compaction_range l' !! j = Some y → within_range (event_sequence e) y → j = i).
Proof using All.
  intros Ho Hnone Hsteps.
  assert (comp_inv l) as Hi.
  { clear -Hnone. induction l as [|e l IH] using rev_ind; [split; [constructor|cbn; lia]|].
    rewrite omap_app in Hnone. apply app_eq_nil in Hnone as [Hl He].
    apply comp_inv_snoc; [|by apply IH]. cbn in He. by destruct (compaction_range e). }
  assert (∃ l2, owns store_inv sid (cw_store w') (l ++ l2) ∧
    ((N.of_nat (length (l ++ l2)) < u64_max)%N → comp_inv (l ++ l2))) as (l2 & Ho' & Hi').
  { clear Hnone. assert ((N.of_nat (length l) < u64_max)%N → comp_inv l) as Hi0 by done. clear Hi.
    revert l Ho Hi0. induction Hsteps as [w|w1 w2 w3 Hstep _ IH]; intros l Ho Hi.
    { exists []. by rewrite app_nil_r. }
    destruct (comp_step_inv _ _ _ Hstep Ho) as (l1 & Ho1 & Hi1).
    destruct (IH _ Ho1) as (l2 & Ho2 & Hi2).
    { intros Hlt. apply Hi1; [|done]. apply Hi. rewrite length_app in Hlt. lia. }
    exists (l1 ++ l2). by rewrite app_assoc. }
  exists (l ++ l2). split; [done|]. intros Hlt. destruct (Hi' Hlt) as [Ht _]. split; [done|].
  intros e (i & Hi2)%list_elem_of_lookup Hlt'. apply (tiled_covers _ _ _ Ht). split; [|done].
  destruct Ho' as (_ & _ & Hok & _). destruct (Hok _ _ Hi2) as (_ & _ & ->). lia.
Qed.
End tiling.

(** ** Anchors in a summary *)

Section labels.
Context `{Json}.

(** Printable ASCII without spaces. *)
Definition graphic (s : string) : Prop :=
  Forall (λ a, in_range 33 126 a = true) (String.list_ascii_of_string s).

Lemma graphic_app s t : graphic (s ++ t) ↔ graphic s ∧ graphic t.
Proof. unfold graphic. by rewrite list_ascii_app, Forall_app. Qed.

Lemma graphic_dec n : graphic (dec n).
Proof. apply dec_digits. apply (digit_cases (λ a, in_range 33 126 a = true)). by repeat constructor. Qed.

Lemma graphic_ascii s : graphic s → ascii_text s.
Proof.
  intros Hs. eapply Forall_impl; [exact Hs|]. intros a. unfold in_range.
  rewrite !andb_true_iff, !N.leb_le. lia.
Qed.

Lemma graphic_no_newline s : graphic s → in_str newline s = false.
Proof.
  unfold graphic. induction s as [|a s IH]; [done|]. intros [Ha Hs]%Forall_cons. cbn [in_str].
  rewrite IH by done. rewrite orb_false_r. by destruct (Ascii.eqb_spec a newline) as [->|].
Qed.

Lemma graphic_trim s : graphic s → trim s = s.
Proof.
  intros Hs. apply trim_plain. rewrite chars_ascii by by apply graphic_ascii.
  apply Forall_fmap. eapply Forall_impl; [exact Hs|]. intros a. cbn. unfold in_range.
  rewrite andb_true_iff, !N.leb_le. intros [Hlo Hhi]. apply orb_false_iff.
  rewrite andb_false_iff, !N.leb_gt, N.eqb_neq. lia.
Qed.

Lemma graphic_strip_cr s : graphic s → strip_cr s = s.
Proof.
  induction s as [|a s IH]; [done|]. intros [Ha Hs]%Forall_cons. cbn [strip_cr].
  destruct s as [|b s]; [by destruct (Ascii.eqb_spec a carriage_return) as [->|]|].
  by rewrite IH.
Qed.

(** The id of an artifact that parses back: printable, not empty, without colon. *)
Definition plain_id (id : string) : Prop := graphic id ∧ id ≠ "" ∧ in_str ":" id = false.

(** The anchors the code makes: artifacts with their size; the id of a call is what
    the model sent. *)
Definition plain_anchor (a : EvidenceAnchor) : Prop :=
  match a with
  | AnchorArtifact id n => plain_id id ∧ is_Some n
  | AnchorEvent _ (Some id) => graphic id
  | AnchorEvent _ None => True
  end.

Lemma plain_label a : plain_anchor a → graphic (anchor_label a).
Proof.
  assert (graphic "evidence_anchor:artifact:" ∧ graphic "evidence_anchor:event:" ∧ graphic ":")
    as (Ha & He & Hc) by (split_and!; by repeat constructor).
  destruct a as [id [n|]|sequence [id|]]; cbn [plain_anchor anchor_label].
  - intros [[Hid _] _]. rewrite !graphic_app. split_and!; try done. apply graphic_dec.
  - intros [_ [? ?]]. done.
  - intros Hid. rewrite !graphic_app. split_and!; try done. apply graphic_dec.
  - intros _. rewrite graphic_app. split; [done|apply graphic_dec].
Qed.

Lemma strip_prefix_same p s : strip_prefix p (p ++ s) = Some s.
Proof. induction p as [|a p IH]; [done|]. cbn. by rewrite Ascii.eqb_refl. Qed.

Lemma label_id a : plain_anchor a → artifact_id_of_line (anchor_label a) = anchor_artifact_id a.
Proof.
  intros Ha. unfold artifact_id_of_line. rewrite graphic_trim by by apply plain_label.
  destruct a as [id [n|]|sequence id]; cbn [anchor_label anchor_artifact_id].
  - destruct Ha as [(_ & Hne & Hc) _]. rewrite strip_prefix_same. cbn [mbind option_bind].
    change (":" ++ dec n)%string with (String ":" (dec n)). rewrite split_on_app.
    rewrite (proj2 (split_on_single ":" id) Hc). cbn [app]. unfold is_empty.
    by destruct (String.eqb_spec id "").
  - by destruct Ha as [_ [? ?]].
  - by destruct id.
Qed.

Definition with_newline (summary : string) : string :=
  (summary ++ if negb (is_empty summary) && negb (ends_with_newline summary) then nl else "")%string.

Lemma ends_newline_split s : ends_with_newline s = true → ∃ b, s = (b ++ nl)%string.
Proof.
  unfold ends_with_newline. destruct (rev _) as [|a l] eqn:E; [done|]. intros ->%Ascii.eqb_eq.
  exists (String.string_of_list_ascii (rev l)). apply (f_equal (@rev _)) in E. rewrite rev_involutive in E.
  rewrite <-(String.string_of_list_ascii_of_string s), E. cbn [rev].
  generalize (rev l). intros l'. induction l' as [|x l' IH]; [done|].
  cbn [app String.string_of_list_ascii String.append]. f_equal. exact IH.
Qed.

Lemma with_newline_lines summary t :
  lines (with_newline summary ++ t) = lines (with_newline summary) ++ lines t.
Proof.
  assert (∀ b, lines (b ++ nl) = strip_cr <$> split_on newline b ∧
    lines (b ++ nl ++ t) = (strip_cr <$> split_on newline b) ++ lines t) as Hb.
  { intros b. change (b ++ nl ++ t)%string with (b ++ String newline t)%string.
    change (b ++ nl)%string with (b ++ String newline "")%string. unfold lines.
    rewrite !split_on_app. assert (∀ ps q, q ≠ [] → lines_of (ps ++ q) = (strip_cr <$> ps) ++ lines_of q) as Hps.
    { intros ps q Hq. induction ps as [|p ps IH]; [done|]. cbn [app fmap list_fmap].
      destruct (ps ++ q) as [|x y] eqn:E; [by apply app_nil in E as [_ ->]|].
      change (lines_of (p :: x :: y)) with (strip_cr p :: lines_of (x :: y)). by rewrite IH. }
    split; [rewrite Hps by done; apply app_nil_r|]. rewrite Hps; [done|apply split_on_nonempty]. }
  assert (∀ b, lines ((b ++ nl) ++ t) = lines (b ++ nl) ++ lines t) as Hnl.
  { intros b. destruct (Hb b) as [Hb1 Hb2]. by rewrite str_app_assoc, Hb1, Hb2. }
  unfold with_newline. destruct (ends_with_newline summary) eqn:He; cbn [negb].
  - rewrite andb_false_r, str_app_nil_r. destruct (ends_newline_split _ He) as [b ->]. apply Hnl.
  - rewrite andb_true_r. unfold is_empty. destruct (String.eqb_spec summary "") as [->|]; [done|apply Hnl].
Qed.

(** The artifact ids of a summary survive the text: whatever was written before,
    the ids parsed from a summary with anchors appended are the ids it had and then
    those of the anchors, in order, as long as ids are printable and hold no colon
    and the ids of tool calls are printable. *)
Theorem summary_ids_roundtrip summary anchors :
  Forall plain_anchor anchors → anchors ≠ [] →
  parse_artifact_ids_from_summary (append_anchors_to_summary summary anchors) =
  parse_artifact_ids_from_summary (with_newline summary) ++ omap anchor_artifact_id anchors.
Proof.
  intros Hplain Hne. unfold parse_artifact_ids_from_summary.
  assert (append_anchors_to_summary summary anchors =
    (with_newline summary ++ unlines (anchors_header :: (anchor_label <$> anchors)))%string) as ->.
  { destruct anchors as [|x l]; [done|]. unfold append_anchors_to_summary, with_newline, unlines.
    rewrite !str_app_assoc. cbn [fmap list_fmap concat_str]. by rewrite !str_app_assoc, <-list_fmap_compose. }
  rewrite with_newline_lines, omap_app, lines_unlines.
  - f_equal. cbn [omap list_omap]. assert (artifact_id_of_line anchors_header = None) as -> by done.
    clear Hne. induction Hplain as [|x l Hx _ IH]; [done|].
    cbn [fmap list_fmap omap list_omap] in *. by rewrite label_id, IH.
  - constructor; [done|]. apply Forall_fmap. eapply Forall_impl; [exact Hplain|]. intros x Hx.
    apply plain_label in Hx. split; [by apply graphic_no_newline|by apply graphic_strip_cr].
Qed.

(** The id of a tool call is the model's and goes into the label as it is: one with a
    line break adds an anchor of its own. *)
Example tool_call_id_forges_anchor :
  parse_artifact_ids_from_summary (append_anchors_to_summary ""
    [AnchorEvent 7 (Some ("call" ++ nl ++ "evidence_anchor:artifact:forged")%string)]) = ["forged"].
Proof. reflexivity. Qed.

(** ** What folding loses *)

(** The anchors of a prompt too short to be folded go nowhere. *)
Example short_prompt_drops_anchors messages events from to :
  messages = [user_message "a"; assistant_message "b"; tool_message "c"] →
  (fold_prompt messages events from to).1 = messages.
Proof.
  intros ->. unfold fold_prompt. cbn [compact_provider_messages length Nat.leb KEEP_TAIL_MESSAGES Nat.add].
  unfold inject_evidence_anchors_into_summary. by destruct (contains _ _).
Qed.

Definition observed_row : Event :=
  mkEvent 1 9 1 1 1 (PayloadTool (ToolObserved "c" "bash" "" OutcomeSuccess "" (Some (mkArtifactRef "abc" 3)) None)).

(** A message of the user that quotes the summary's heading is overwritten by it. *)
Example user_message_overwritten :
  (fold_prompt [user_message ("what is " ++ summary_marker ++ "?")%string] [observed_row] 1 1).1 ≠
  [user_message ("what is " ++ summary_marker ++ "?")%string].
Proof. by vm_compute. Qed.
End labels.

(** ** Concrete compactions *)

Section sample.
#[local] Existing Instances sample_codec tree_json.

(** A session of one intent and one observation. *)
Definition seen_store : MemoryEventStore :=
  foldl (λ st c, run_cmd c st) MemoryEventStore_default
    [CmdCreate 1 100 0; CmdAppend 101 1 1 (PayloadIntent (IntentEvent_new "go"));
     CmdAppend 102 2 1 (event_payload observed_row)].

Definition full_budget : BudgetChecker :=
  mkBudgetChecker (mkBudgetConfig None None None EffortMedium (mkCompactionPolicy 50 None 1) (Some 100%N))
    (mkBudgetState 3 90 0 0 0 0).

Definition seen_world : CompactWorld (St := MemoryEventStore) (F := Demo.Fs) :=
  mkCompactWorld (Some full_budget) seen_store empty_store.

Definition long_prompt : list ProviderMessage :=
  [system_message "rules"; user_message "one"; assistant_message "two"; tool_message "three";
   user_message "four"].

Definition sample_compaction (messages : list ProviderMessage) :=
  run_durable_compaction_with_store (F := Demo.Fs) (λ n, (N.of_nat (200 + n), 9%N)) 7 7 "/store"
    orch_runtime (λ _, None) messages true.

Lemma seen_store_ok : store_wf seen_store.
Proof.
  apply (store_trace_refines [CmdCreate 1 100 0; CmdAppend 101 1 1 (PayloadIntent (IntentEvent_new "go"));
    CmdAppend 102 2 1 (event_payload observed_row)]).
  apply (trace_snoc [_; _]); [|done]. apply (trace_snoc [_]); [|done].
  apply (trace_snoc []); [apply trace_nil|]. vm_compute. split_and!; set_solver.
Qed.

Definition seen_log : list Event := from_option id [] (match store_list 1 seen_store with Ok l => Some l | Err _ => None end).

Lemma seen_owned : owns store_wf 1 seen_store seen_log.
Proof.
  split_and!; [exact seen_store_ok|vm_compute; reflexivity| |done].
  destruct (reduce seen_log) as [[p|]|e] eqn:Hr.
  - apply reduce_ok_iff in Hr as (first & l' & Hl & Hok & _).
    assert (event_session_id first = 1%N) as <-; [|exact Hok].
    assert (head seen_log = Some first) as Hh by by rewrite Hl. vm_compute in Hh. by injection Hh as <-.
  - by vm_compute in Hr.
  - by vm_compute in Hr.
Qed.

Definition folded_world : CompactWorld (St := MemoryEventStore) (F := Demo.Fs) :=
  (sample_compaction long_prompt seen_world).1.

(** The folded prompt carries the anchor of the observation. *)
Example sample_compaction_folds :
  match (sample_compaction long_prompt seen_world).2 with
  | Ok [m1; m2; m3; m4] =>
      bool_decide (pm_content m1 = "rules") && contains (pm_content m2) "evidence_anchor:artifact:abc:3" &&
      bool_decide (pm_content m4 = "four")
  | _ => false
  end = true.
Proof. vm_compute. reflexivity. Qed.

Lemma compactions_witness :
  owns store_wf 1 seen_store seen_log ∧
  ∃ l', owns store_wf 1 (cw_store folded_world) l' ∧
    ((N.of_nat (length l') < u64_max)%N →
     tiled (omap compaction_range l') (compaction_from l') ∧
     ∀ e, e ∈ l' → (event_sequence e < compaction_from l')%N →
       ∃ i x, omap compaction_range l' !! i = Some x ∧ within_range (event_sequence e) x ∧
         ∀ j y, omap compaction_range l' !! j = Some y → within_range (event_sequence e) y → j = i).
Proof.
  split; [exact seen_owned|].
  apply (compactions_leave_no_gap store_wf (F := Demo.Fs) "/store" orch_runtime (λ _, None)
    seen_world folded_world seen_log).
  - exact seen_owned.
  - vm_compute. reflexivity.
  - apply rtc_once. apply (comp_run "/store" orch_runtime (λ _, None) seen_world
      (λ n, (N.of_nat (200 + n), 9%N)) 7 7 long_prompt true).
Defined.

Definition two_anchors : list EvidenceAnchor := [AnchorArtifact "abc" (Some 3%N); AnchorEvent 3 (Some "c")].

Lemma summary_ids_witness :
  Forall plain_anchor two_anchors ∧ two_anchors ≠ [] ∧
  parse_artifact_ids_from_summary (append_anchors_to_summary "read" two_anchors) =
  parse_artifact_ids_from_summary (with_newline "read") ++ omap anchor_artifact_id two_anchors.
Proof.
  assert (Forall plain_anchor two_anchors) as Hp.
  { repeat constructor; try done. }
  split_and!; [exact Hp|done|]. apply (summary_ids_roundtrip "read" two_anchors); [exact Hp|done].
Defined.

(** A later compaction folds the earlier summary as one line of its own: what lies
    past its 240th character, the anchors with it, leaves the prompt. *)
Example second_compaction_drops_anchors :
  let summary := summarize_messages (repeat (tool_message "twenty characters ..") 12) in
  let first := summary_message (append_anchors_to_summary summary two_anchors) in
  parse_artifact_ids_from_summary (pm_content first) = ["abc"] ∧
  parse_artifact_ids_from_summary
    (compact_provider_messages [first; user_message "a"; user_message "b"; user_message "c"]).2 = [].
Proof. vm_compute. done. Qed.
End sample.
