(* ===== verification/AgentLoop.v ===== *)
(** * The agent loop

    [crates/impetus-core/src/agent_loop.rs] and the steering of a run in
    [steer_rewrite.rs]: the model is asked, its tool calls are carried out, and what
    they show goes into the next prompt, until the model answers without calls or a
    limit ends the run.

    The loop is a program over the runtime, the tools, the clock and the provider's
    own requests; the provider is any program over its callback.  The handler at
    the end answers with the components of the other files. *)

From S2P Require Import Prelude Str Utf8 Redact ToolSchema Action McpClient McpLive Events EventStore Budget BudgetStore.
From S2P Require Import PathScope WebSecurity Policy EffectFence Effects Completion Projection AgentRuntime RuntimeLog.
From S2P Require Import WorkspaceFiles MemoryStore OutputReducer Artifacts ContextBuilder WebTools Prog Provider ProviderStreams.
From S2P Require Import ReadOnlyTools ToolOrchestrator Observations.

Open Scope string_scope.
Open Scope nat_scope.
Open Scope list_scope.
Open Scope impetus_scope.

(** ** Steering *)

Abbreviation SteerPendingQueue := (gmap Uuid (list string)).

Section steer.
Context `{Json}.

Record SteerActiveContext := mkSteerContext {
  sa_session_id : Uuid;
  sa_active_run_id : Uuid;
  sa_active_prompt : option string;
}.

Record SteerRewriteOutput := mkSteerOutput {
  so_fragment : string;
  so_messages : list ProviderMessage;
}.

Definition from_fragment (fragment : string) : SteerRewriteOutput :=
  mkSteerOutput fragment [user_message fragment].

(** [PassthroughSteerRewrite] *)
Definition passthrough_rewrite (c : SteerActiveContext) (steer_text : string) : SteerRewriteOutput :=
  from_fragment (match non_empty (sa_active_prompt c) with
    | Some prompt => prompt ++ nl ++ nl ++ "[steer] " ++ steer_text
    | None => "[steer] " ++ steer_text
    end)%string.

Definition build_rewrite_messages (c : SteerActiveContext) (steer_text : string) : list ProviderMessage :=
  [system_message ("Rewrite the user's steer instruction into a concise nudge for the active coding agent. "
     ++ "Output only the nudge text with no preamble.")%string;
   user_message (match non_empty (sa_active_prompt c) with
     | Some prompt => "Active task:" ++ nl ++ prompt ++ nl ++ nl ++ "Steer instruction:" ++ nl ++ steer_text
     | None => "Steer instruction:" ++ nl ++ steer_text
     end)%string].

(** The text of the deltas, with what a provider's run otherwise does. *)
Fixpoint collect_text {A} (m : prog callE A) (fragment : string) : prog callE (string * A) :=
  match m with
  | Ret a => Ret (fragment, a)
  | Vis e k =>
      match e in callE B return (B → string → prog callE (string * A)) → prog callE (string * A) with
      | EvEmit (TextDelta delta) => λ go, go (Ok tt) (fragment ++ delta)%string
      | EvEmit _ => λ go, go (Ok tt) fragment
      | EvPost body => λ go, Vis (EvPost body) (λ b, go b fragment)
      | EvIsCancelled => λ go, Vis EvIsCancelled (λ b, go b fragment)
      | EvDelay => λ go, Vis EvDelay (λ b, go b fragment)
      | EvHealth h => λ go, Vis (EvHealth h) (λ b, go b fragment)
      end (λ b f, collect_text (k b) f)
  end.

(** [ProviderSteerRewrite]: a failure or an empty answer falls back. *)
Definition provider_rewrite (provider : list ProviderMessage → prog callE (result ProviderError ()))
    (c : SteerActiveContext) (steer_text : string) : prog callE SteerRewriteOutput :=
  pbind (collect_text (provider (build_rewrite_messages c steer_text)) "") (λ '(fragment, r),
    Ret (match r with
         | Ok _ => if is_empty (trim fragment) then passthrough_rewrite c steer_text
                   else from_fragment (trim fragment)
         | Err _ => passthrough_rewrite c steer_text
         end)).

Definition queue_push (sid : Uuid) (fragment : string) (q : SteerPendingQueue) : SteerPendingQueue :=
  if is_empty fragment then q else <[sid := default [] (q !! sid) ++ [fragment]]> q.

Definition queue_drain (sid : Uuid) (q : SteerPendingQueue) : SteerPendingQueue * list string :=
  (delete sid q, default [] (q !! sid)).

Definition pending_count (sid : Uuid) (q : SteerPendingQueue) : nat := length (default [] (q !! sid)).
End steer.

(** ** The loop *)

Definition MAX_ITERATIONS : nat := 50.
Definition MAX_RETRY_ATTEMPTS : nat := 3.
Definition INITIAL_BACKOFF_MS : N := 1000.
Definition BACKOFF_MULTIPLIER : N := 2.
Definition AGENT_CHUNK_COALESCE_BYTES : nat := 512.

Definition backoff_ms (attempt : nat) : N :=
  INITIAL_BACKOFF_MS * BACKOFF_MULTIPLIER ^ N.of_nat (attempt - 1).

(** After the leading system messages. *)
Fixpoint insert_after_systems (m : ProviderMessage) (messages : list ProviderMessage)
    : list ProviderMessage :=
  match messages with
  | x :: rest => if is_system x then x :: insert_after_systems m rest else m :: messages
  | [] => [m]
  end.

Definition inject_memory_context (block : option string) (messages : list ProviderMessage)
    : list ProviderMessage :=
  match non_empty (trim <$> block) with
  | Some block => insert_after_systems (system_message block) messages
  | None => messages
  end.

Section program.
Context `{Json}.

Inductive AgentLoopError :=
  | AlRuntime (e : RuntimeError)
  | AlProvider (e : ProviderError)
  | AlBudget (e : BudgetError)
  | AlMaxIterationsExceeded
  | AlCancelled.

(** What the loop asks of its environment. *)
Inductive loopE : Type → Type :=
  | EvCancelled : loopE bool
  | EvDrainSteer : loopE (list string)
  (** [compaction_needed] and [run_durable_compaction] *)
  | EvCompact (messages : list ProviderMessage) : loopE (result RuntimeError (list ProviderMessage))
  | EvStatus : loopE (result RuntimeError RuntimeStatus)
  | EvCheckBudget (estimated : N) : loopE (result BudgetError ())
  | EvLogEvents : loopE (result RuntimeError (list Event))
  | EvLog (p : EventPayload) : loopE (result RuntimeError ())
  | EvNet {B : Type} (e : callE B) : loopE B
  | EvChunk (chunk_id : N) (text : string) : loopE (result RuntimeError bool)
  | EvReasoning (content : string) : loopE (result RuntimeError bool)
  | EvRecordTurn (tokens : N) (measured : bool) : loopE (result RuntimeError ())
  | EvBudget : loopE (option BudgetChecker)
  (** [true]: cancelled before the time was over *)
  | EvBackoff (ms : N) : loopE bool
  | EvFinal (text : string) : loopE (result RuntimeError ())
  | EvTools (calls : list ToolCall) : loopE (list ToolObservation)
  | EvStoreOpen : loopE bool
  | EvMaterialize (artifact : ArtifactRef) : loopE (result ContextBuilderError MaterializedArtifact).

Abbreviation loopR A := (prog loopE (result AgentLoopError A)).

Definition lret {A} (a : A) : loopR A := Ret (Ok a).
Definition lfail {A} (e : AgentLoopError) : loopR A := Ret (Err e).
Definition lbind {A B} (m : loopR A) (f : A → loopR B) : loopR B :=
  pbind m (λ r, match r with Ok a => f a | Err e => Ret (Err e) end).

(** An operation of the runtime with [?]. *)
Definition on_rt {A} (e : loopE (result RuntimeError A)) : loopR A :=
  Vis e (λ r, Ret (map_err AlRuntime r)).

Record TurnAccumulator := mkAccumulator {
  ta_text : string;
  ta_tool_calls : list ToolCall;
  ta_usage : option (N * N * bool);
  ta_finish_reason : option FinishReason;
  (** the coalesced text and the next chunk's id *)
  ta_buf : string;
  ta_chunk_id : N;
}.

Definition fresh_accumulator (chunk_id : N) : TurnAccumulator := mkAccumulator "" [] None None "" chunk_id.

Record ModelTurnResult := mkTurnResult {
  mt_text : string;
  mt_tool_calls : list ToolCall;
  mt_measured_usage : option (N * N);
}.

Section body.
Context `{DisplayStoreError} `{UuidText} `{!PackJson}.

(** The buffer is emptied and the id taken before the chunk is recorded. *)
Definition flush_coalesced_chunk (force : bool) (st : TurnAccumulator)
    : prog loopE (TurnAccumulator * result ProviderError ()) :=
  if is_empty (ta_buf st) then Ret (st, Ok tt)
  else if negb force && (String.length (ta_buf st) <? AGENT_CHUNK_COALESCE_BYTES) then Ret (st, Ok tt)
  else
    let st' := mkAccumulator (ta_text st) (ta_tool_calls st) (ta_usage st) (ta_finish_reason st) ""
      (wrapping_add u64_max (ta_chunk_id st) 1) in
    Vis (EvChunk (ta_chunk_id st) (ta_buf st)) (λ r,
      Ret (st', match r with
        | Ok _ => Ok tt
        | Err e => Err (RequestFailed (runtime_error_text e))
        end)).

Definition after_flush (force : bool) (st : TurnAccumulator)
    (k : TurnAccumulator → prog loopE (TurnAccumulator * result ProviderError ()))
    : prog loopE (TurnAccumulator * result ProviderError ()) :=
  pbind (flush_coalesced_chunk force st) (λ '(st, r),
    match r with Ok _ => k st | Err e => Ret (st, Err e) end).

(** The callback. *)
Definition on_stream_event (ev : StreamEvent) (st : TurnAccumulator)
    : prog loopE (TurnAccumulator * result ProviderError ()) :=
  match ev with
  | TextDelta delta =>
      let st := mkAccumulator (ta_text st) (ta_tool_calls st) (ta_usage st) (ta_finish_reason st)
        (ta_buf st ++ delta) (ta_chunk_id st) in
      after_flush false st (λ st,
        Ret (mkAccumulator (ta_text st ++ delta) (ta_tool_calls st) (ta_usage st) (ta_finish_reason st)
               (ta_buf st) (ta_chunk_id st), Ok tt))
  | StreamToolCall id name arguments =>
      after_flush true st (λ st,
        Ret (mkAccumulator (ta_text st) (ta_tool_calls st ++ [mkToolCall id name arguments]) (ta_usage st)
               (ta_finish_reason st) (ta_buf st) (ta_chunk_id st), Ok tt))
  | Usage prompt_tokens completion_tokens measured =>
      Ret (mkAccumulator (ta_text st) (ta_tool_calls st) (Some (prompt_tokens, completion_tokens, measured))
             (ta_finish_reason st) (ta_buf st) (ta_chunk_id st), Ok tt)
  | Finish reason =>
      after_flush true st (λ st,
        Ret (mkAccumulator (ta_text st) (ta_tool_calls st) (ta_usage st) (Some reason)
               (ta_buf st) (ta_chunk_id st), Ok tt))
  | Reasoning content =>
      after_flush true st (λ st,
        Vis (EvReasoning content) (λ r,
          Ret (st, match r with
            | Ok _ => Ok tt
            | Err e => Err (RequestFailed (runtime_error_text e))
            end)))
  end.

Definition on_call (B : Type) (e : callE B) (st : TurnAccumulator) : prog loopE (TurnAccumulator * B) :=
  match e in callE B return prog loopE (TurnAccumulator * B) with
  | EvEmit ev => on_stream_event ev st
  | EvPost body => Vis (EvNet (EvPost body)) (λ b, Ret (st, b))
  | EvIsCancelled => Vis (EvNet EvIsCancelled) (λ b, Ret (st, b))
  | EvDelay => Vis (EvNet EvDelay) (λ b, Ret (st, b))
  | EvHealth h => Vis (EvNet (EvHealth h)) (λ b, Ret (st, b))
  end.

(** The provider with this callback. *)
Fixpoint run_stream {A} (m : prog callE A) (st : TurnAccumulator) : prog loopE (TurnAccumulator * A) :=
  match m with
  | Ret a => Ret (st, a)
  | Vis e k => pbind (on_call _ e st) (λ '(st, b), run_stream (k b) st)
  end.

Definition estimate_request_tokens (messages : list ProviderMessage) : N :=
  N.max (foldr N.add 0%N ((λ m, N.of_nat (String.length (pm_content m))) <$> messages) / 4) 100.

Definition estimate_response_tokens (response : string) : N :=
  N.max (N.of_nat (String.length response) / 4) 50.

Definition limit_event (e : BudgetError) : option BudgetEvent :=
  match e with
  | TurnLimitExceeded limit used => Some (TurnLimitApproaching limit used)
  | TokenLimitExceeded limit used _ => Some (TokenLimitApproaching limit used)
  | _ => None
  end.

(** [record_event] of budget events, with [?]. *)
Fixpoint log_budget (l : list BudgetEvent) : loopR () :=
  match l with
  | [] => lret tt
  | e :: l' => lbind (on_rt (EvLog (PayloadBudget e))) (λ _, log_budget l')
  end.

Definition emit_budget_limit_event (e : BudgetError) : loopR () := log_budget (option_list (limit_event e)).

(** [(used as f64 / limit as f64 * 100.0) as u8] from 80 to below 100 *)
Definition approaching (used limit : N) : bool :=
  let percent := f64_to_uint u8_max
    (f64_mul (f64_div (f64_of_N used) (f64_of_N limit)) (f64_of_N 100)) in
  (80 <=? percent)%N && (percent <? 100)%N.

Definition approaching_warnings (c : BudgetChecker) : list BudgetEvent :=
  let state := checker_state c in
  option_list (limit ← max_turns (checker_config c);
    if approaching (turns_used state) limit then Some (TurnLimitApproaching limit (turns_used state)) else None) ++
  option_list (limit ← Budget.max_tokens (checker_config c);
    if approaching (tokens_used state) limit then Some (TokenLimitApproaching limit (tokens_used state)) else None).

Definition budget_updated (c : BudgetChecker) : BudgetEvent :=
  let state := checker_state c in
  BudgetUpdated (turns_used state) (tokens_used state) (0 <? measured_tokens state)%N
    (compaction_count state)
    (from_option (λ limit, context_used_percent limit state) 0%N (context_limit (checker_config c))).

Context (run_id : Uuid) (provider : nat → nat → list ProviderMessage → prog callE (result ProviderError ())).

Definition chunk_after (e : Event) : option N :=
  match event_payload e with
  | PayloadAgent (AgentChunk event_run chunk_id _ _) =>
      if (event_run =? run_id)%N then Some (wrapping_add u64_max chunk_id 1) else None
  | _ => None
  end.

Definition next_chunk_id (events : list Event) : N := default 1%N (find_map chunk_after (reverse events)).

(** What the turn costs, and whether that was measured. *)
Definition turn_tokens (estimated : N) (text : string) (usage : option (N * N)) : N * bool :=
  match usage with
  | Some (prompt, completion) => (wrapping_add u64_max prompt completion, true)
  | None => (wrapping_add u64_max estimated (estimate_response_tokens text), false)
  end.

(** The provider of the [attempt] at the turn [turn]. *)
Definition call_model (turn attempt : nat) (messages : list ProviderMessage) : loopR ModelTurnResult :=
  Vis EvStatus (λ status,
    match status with
    | Ok StatusRunning =>
        let estimated := estimate_request_tokens messages in
        Vis (EvCheckBudget estimated) (λ checked,
          match checked with
          | Err e => lbind (emit_budget_limit_event e) (λ _, lfail (AlBudget e))
          | Ok _ =>
              lbind (on_rt EvLogEvents) (λ events,
              pbind (run_stream (provider turn attempt messages) (fresh_accumulator (next_chunk_id events)))
                (λ '(st, r),
              match r with
              | Err e => lfail (AlProvider e)
              | Ok _ =>
                  pbind (flush_coalesced_chunk true st) (λ '(st, r),
                  match r with
                  | Err e => lfail (AlProvider e)
                  | Ok _ =>
                      let usage := '(p, c, measured) ← ta_usage st;
                        if measured : bool then Some (p, c) else None in
                      let '(tokens, measured) := turn_tokens estimated (ta_text st) usage in
                      lbind (on_rt (EvRecordTurn tokens measured)) (λ _,
                      Vis EvBudget (λ budget,
                      lbind (match budget with
                             | Some c => log_budget (budget_updated c :: approaching_warnings c)
                             | None => lret tt
                             end) (λ _,
                      lret (mkTurnResult (ta_text st) (ta_tool_calls st) usage))))
                  end)
              end))
          end)
    | _ => lfail (AlRuntime (RtInactiveRun run_id))
    end).

(** [attempts] more may follow the attempt [attempt]. *)
Fixpoint attempt_model (turn attempts attempt : nat) (messages : list ProviderMessage)
    : loopR ModelTurnResult :=
  pbind (call_model turn attempt messages) (λ r,
    match r with
    | Ok response =>
        lbind (if 1 <? attempt then on_rt (EvLog (PayloadRetry (RetrySucceeded (N.of_nat attempt)))) else lret tt)
          (λ _, lret response)
    | Err (AlProvider e) =>
        let exhausted :=
          lbind (if 1 <? attempt
                 then on_rt (EvLog (PayloadRetry (RetryExhausted (N.of_nat attempt) (provider_error_text e))))
                 else lret tt)
            (λ _, lfail (AlProvider e)) in
        match attempts with
        | S attempts =>
            if is_transient e then
              lbind (on_rt (EvLog (PayloadRetry (RetryAttempting (N.of_nat attempt)
                (N.of_nat MAX_RETRY_ATTEMPTS) (provider_error_text e) (backoff_ms attempt))))) (λ _,
              Vis (EvBackoff (backoff_ms attempt)) (λ cancelled : bool,
                if cancelled then lfail AlCancelled else attempt_model turn attempts (S attempt) messages))
            else exhausted
        | 0 => exhausted
        end
    | Err e => lfail e
    end).

Definition call_model_with_retry (turn : nat) (messages : list ProviderMessage) : loopR ModelTurnResult :=
  attempt_model turn (MAX_RETRY_ATTEMPTS - 1) 1 messages.

(** *** What the prompt keeps of the tools *)

(** The row of the last observation of the call. *)
Definition observed_sequence (events : list Event) (tool_call_id : string) : option N :=
  find_map (λ e, match event_payload e with
    | PayloadTool (ToolObserved id _ _ _ _ _ _) =>
        if String.eqb id tool_call_id then Some (event_sequence e) else None
    | _ => None
    end) (reverse events).

Definition cb_error_text (e : ContextBuilderError) : string :=
  match e with
  | MissingArtifact id => "artifact not found: " ++ id
  | CbStore reason => "artifact store error: " ++ reason
  end.

Definition pack_error_text (e : ObservationPackError) : string :=
  match e with
  | ArtifactStoreRequired => "artifact store required to pack truncated observation"
  | PackStore reason => "artifact store error: " ++ reason
  | PackSerialize reason => "serialize observation pack: " ++ reason
  | NotRecoverable reason => "evidence not recoverable: " ++ reason
  end.

Definition PACK_TOKENS : nat := Z.to_nat 2000.

Definition with_preview (preview : string) (o : ToolObservation) : ToolObservation :=
  mkToolObservation (to_tool_call_id o) (to_tool_name o) (to_arguments_summary o) (to_outcome o) preview
    (to_artifact o) (to_error o).

Definition with_more_error (e : string) (o : ToolObservation) : ToolObservation :=
  mkToolObservation (to_tool_call_id o) (to_tool_name o) (to_arguments_summary o) (to_outcome o)
    (to_preview o) (to_artifact o)
    (Some (match to_error o with Some existing => existing ++ "; " ++ e | None => e end)%string).

(** The artifact's text in place of the preview, where it can be read. *)
Definition materialized (store_open : bool) (o : ToolObservation) : prog loopE ToolObservation :=
  match to_artifact o, store_open with
  | Some artifact, true =>
      Vis (EvMaterialize artifact) (λ r,
        Ret (match r with
             | Ok m => with_preview (mat_content m) o
             | Err e => with_more_error (cb_error_text e) o
             end))
  | _, _ => Ret o
  end.

(** The messages of the observations; the first that does not serialise ends the run. *)
Fixpoint observation_messages (store_open : bool) (events : list Event) (l : list ToolObservation)
    (messages : list ProviderMessage) : loopR (list ProviderMessage) :=
  match l with
  | [] => lret messages
  | o :: l' =>
      pbind (materialized store_open o) (λ o,
        let pack := reduce_preserving_anchors PACK_TOKENS
          (from_tool_observation o (observed_sequence events (to_tool_call_id o))) in
        match context_json pack with
        | Err e => lfail (AlProvider (RequestFailed (pack_error_text e)))
        | Ok json => observation_messages store_open events l' (messages ++ [tool_message json])
        end)
  end.

(** *** The run *)

(** [iterations] more may follow; [steer]: there is a queue. *)
Fixpoint execute_loop (steer : bool) (iterations : nat) (messages : list ProviderMessage) : loopR () :=
  Vis EvCancelled (λ cancelled : bool,
    if cancelled then lfail AlCancelled
    else match iterations with
    | 0 => lfail AlMaxIterationsExceeded
    | S iterations =>
        pbind (if steer then Vis EvDrainSteer Ret else Ret []) (λ fragments,
        lbind (on_rt (EvCompact (messages ++ (user_message <$> fragments)))) (λ messages,
        lbind (call_model_with_retry (MAX_ITERATIONS - iterations) messages) (λ turn,
        match mt_tool_calls turn with
        | [] => on_rt (EvFinal (mt_text turn))
        | calls =>
            Vis (EvTools calls) (λ observations,
            Vis EvStoreOpen (λ store_open,
            Vis EvLogEvents (λ events,
            lbind (observation_messages store_open (match events with Ok l => l | Err _ => [] end) observations
                     (messages ++ [assistant_message (mt_text turn)])) (λ messages,
            execute_loop steer iterations messages))))
        end)))
    end).

Definition execute (steer : bool) (initial_messages : list ProviderMessage) : loopR () :=
  execute_loop steer MAX_ITERATIONS initial_messages.
End body.
End program.

(** ** The run ends *)

Section bounds.
Context `{Json} `{DisplayStoreError} `{UuidText} `{!PackJson}.
Context (run_id : Uuid) (provider : nat → nat → list ProviderMessage → prog callE (result ProviderError ())).

(** What is counted: requests sent to the provider's service, budget checks, each at
    the beginning of an attempt, recorded turns, rounds of tools and waits. *)
Record Weights := mkWeights
  { wt_posts : nat; wt_checks : nat; wt_turns : nat; wt_tools : nat; wt_waits : nat }.

Definition loop_weight (w : Weights) (ev : answered loopE) : nat :=
  match ev with existT B (e, _) =>
    match e with
    | EvNet e => wt_posts w * posts e
    | EvCheckBudget _ => wt_checks w
    | EvRecordTurn _ _ => wt_turns w
    | EvTools _ => wt_tools w
    | EvBackoff _ => wt_waits w
    | _ => 0
    end
  end.

Abbreviation most w := (at_most (loop_weight w)).

Lemma most_lbind {A C} w n m (p : prog loopE (result AgentLoopError A)) (f : A → prog loopE (result AgentLoopError C)) :
  most w n p → (∀ a, most w m (f a)) → most w (n + m) (lbind p f).
Proof. intros Hp Hf. apply at_most_bind; [done|]. intros [a|e]; [apply Hf|done]. Qed.

Lemma most_bind_0 {A C} w m (p : prog loopE A) (f : A → prog loopE C) :
  most w 0 p → (∀ a, most w m (f a)) → most w m (pbind p f).
Proof. apply (at_most_bind (loop_weight w) 0 m). Qed.

Lemma most_lbind_0 {A C} w m (p : prog loopE (result AgentLoopError A)) (f : A → prog loopE (result AgentLoopError C)) :
  most w 0 p → (∀ a, most w m (f a)) → most w m (lbind p f).
Proof. apply (most_lbind w 0 m). Qed.

(** While a stream runs, what is counted is what the provider sends. *)
Lemma most_flush w force st : most w 0 (flush_coalesced_chunk force st).
Proof. unfold flush_coalesced_chunk. repeat case_match; try done; by intros ?. Qed.

Lemma most_after_flush w force st k : (∀ st, most w 0 (k st)) → most w 0 (after_flush force st k).
Proof. intros Hk. apply most_bind_0; [apply most_flush|]. intros [st' [r|e]]; [apply Hk|done]. Qed.

Lemma most_on_call w B (e : callE B) st : most w (wt_posts w * posts e) (on_call B e st).
Proof.
  destruct e as [ev| | | |]; try (by intros ?; cbn; lia). cbn [posts]. rewrite Nat.mul_0_r.
  destruct ev; cbn; try (apply most_after_flush; intros ?); try done; by intros ?.
Qed.

Lemma most_stream w n {A} (m : prog callE A) st :
  at_most call_posts n m → most w (wt_posts w * n) (run_stream m st).
Proof.
  revert n st. induction m as [a|B e k IH]; intros n st Hm; cbn [run_stream]; [done|].
  assert (∀ b, posts e ≤ n ∧ at_most call_posts (n - posts e) (k b)) as Hk by exact Hm.
  destruct (decide (posts e ≤ n)) as [Hle|Hgt].
  - apply (at_most_mono _ (wt_posts w * posts e + wt_posts w * (n - posts e))); [nia|].
    apply at_most_bind; [apply most_on_call|]. intros [st' b]. apply IH, Hk.
  - destruct e as [ev| | | |]; cbn in *; try lia. intros b. destruct (Hk b). lia.
Qed.

Lemma most_log_budget w l : most w 0 (log_budget l).
Proof.
  induction l as [|e l IH]; [done|]. apply most_lbind_0; [by intros ?|]. by intros _.
Qed.

(** No call of the provider sends more than [n] requests. *)
Context (n : nat) (Hn : ∀ turn attempt messages, at_most call_posts n (provider turn attempt messages)).

Definition call_weight (w : Weights) : nat := wt_checks w + wt_posts w * n + wt_turns w.

Lemma most_call w turn attempt messages :
  most w (call_weight w) (call_model run_id provider turn attempt messages).
Proof using Hn.
  unfold call_weight. intros [[]|e]; (split; [cbn; lia|]); try done.
  intros [[]|e]; (split; [cbn; lia|]); cbn [loop_weight ans].
  2: { eapply at_most_mono; [apply Nat.le_0_l|].
       apply most_lbind_0; [apply most_log_budget|done]. }
  apply (at_most_mono _ (0 + (wt_posts w * n + wt_turns w))); [lia|].
  apply most_lbind; [by intros ?|]. intros events. apply at_most_bind; [by apply most_stream|].
  intros [st [r|e]]; [|done]. apply most_bind_0; [apply most_flush|]. intros [st' [r'|e]]; [|done].
  destruct (turn_tokens _ _ _) as [tokens measured].
  apply (at_most_mono _ (wt_turns w + 0)); [lia|].
  apply most_lbind; [intros ?; cbn; split; [lia|done]|]. intros _ budget. split; [cbn; lia|].
  apply most_lbind_0; [destruct budget; [apply most_log_budget|done]|done].
Qed.

Lemma most_attempts w turn attempts attempt messages :
  most w (S attempts * call_weight w + attempts * wt_waits w)
    (attempt_model run_id provider turn attempts attempt messages).
Proof using Hn.
  revert attempt. induction attempts as [|attempts IH]; intros attempt.
  - cbn [attempt_model]. apply (at_most_mono _ (call_weight w + 0)); [lia|].
    apply at_most_bind; [apply most_call|].
    intros [response|[e|e|e| |]]; try done;
      (apply most_lbind_0; [destruct (1 <? attempt); [by intros ?|done]|done]).
  - cbn [attempt_model]. apply (at_most_mono _ (call_weight w +
      (wt_waits w + (S attempts * call_weight w + attempts * wt_waits w)))); [lia|].
    apply at_most_bind; [apply most_call|].
    intros [response|[e|e|e| |]]; try done.
    + apply most_lbind_0; [destruct (1 <? attempt); [by intros ?|done]|done].
    + destruct (is_transient e).
      * apply most_lbind_0; [by intros ?|]. intros _ cancelled. split; [cbn; lia|].
        destruct cancelled; [done|]. eapply at_most_mono; [|apply IH]. cbn -[Nat.mul]. lia.
      * apply most_lbind_0; [destruct (1 <? attempt); [by intros ?|done]|done].
Qed.

Lemma most_call_with_retry w turn messages :
  most w (3 * call_weight w + 2 * wt_waits w) (call_model_with_retry run_id provider turn messages).
Proof using Hn.
  unfold call_model_with_retry. replace (MAX_RETRY_ATTEMPTS - 1) with 2 by reflexivity.
  apply most_attempts.
Qed.

Lemma most_messages w store_open events l messages :
  most w 0 (observation_messages store_open events l messages).
Proof.
  revert messages. induction l as [|o l IH]; intros messages; [done|]. cbn [observation_messages].
  apply most_bind_0.
  - unfold materialized. by destruct (to_artifact o), store_open.
  - intros o'. destruct (context_json _); [apply IH|done].
Qed.

Definition turn_weight (w : Weights) : nat :=
  3 * call_weight w + 2 * wt_waits w + wt_tools w.

Lemma most_loop w steer iterations messages :
  most w (iterations * turn_weight w) (execute_loop run_id provider steer iterations messages).
Proof using Hn.
  revert messages. induction iterations as [|iterations IH]; intros messages cancelled; (split; [cbn; lia|]);
    (destruct cancelled; [done|]); [done|].
  cbn [loop_weight ans]. rewrite Nat.sub_0_r.
  apply most_bind_0; [destruct steer; [by intros ?|done]|]. intros fragments.
  apply most_lbind_0; [by intros ?|]. intros messages1.
  apply (at_most_mono _ (3 * call_weight w + 2 * wt_waits w + (wt_tools w + iterations * turn_weight w)));
    [unfold turn_weight; lia|].
  apply most_lbind; [apply most_call_with_retry|]. intros turn.
  destruct (mt_tool_calls turn) as [|c calls]; [intros ?; split; [cbn; lia|done]|].
  intros observations. split; [cbn; lia|]. intros store_open. split; [cbn; lia|]. intros events. split; [cbn; lia|].
  cbn [loop_weight ans]. apply (at_most_mono _ (iterations * turn_weight w)); [lia|].
  apply most_lbind_0; [apply most_messages|]. intros messages2. apply IH.
Qed.

Definition posts_only : Weights := mkWeights 1 0 0 0 0.
Definition checks_only : Weights := mkWeights 0 1 0 0 0.
Definition tools_only : Weights := mkWeights 0 0 0 1 0.
Definition waits_only : Weights := mkWeights 0 0 0 0 1.

(** C17: Whatever the provider, the tools and the runtime answer, a run stays within
    150 calls of the provider: when no call of it sends more than [n] requests, the
    run sends at most 150 times [n]; it begins at most 150 attempts, carries out
    tools at most 50 times and waits between attempts at most 100 times. *)
Theorem run_is_bounded steer messages tr q :
  path (execute run_id provider steer messages) tr q →
  total (loop_weight posts_only) tr ≤ 150 * n ∧ total (loop_weight checks_only) tr ≤ 150 ∧
  total (loop_weight tools_only) tr ≤ 50 ∧ total (loop_weight waits_only) tr ≤ 100.
Proof using Hn.
  intros Hpath. assert (∀ w, total (loop_weight w) tr ≤ 50 * turn_weight w) as Hmost.
  { intros w. eapply at_most_path; [|exact Hpath]. exact (most_loop w steer MAX_ITERATIONS messages). }
  pose proof (Hmost posts_only). pose proof (Hmost checks_only). pose proof (Hmost tools_only).
  pose proof (Hmost waits_only). unfold turn_weight, call_weight in *. cbn -[total loop_weight Nat.mul] in *. lia.
Qed.
End bounds.

(** ** The order of a run *)

Section order.
Context `{Json} `{DisplayStoreError} `{UuidText} `{!PackJson}.
Context (run_id : Uuid) (provider : nat → nat → list ProviderMessage → prog callE (result ProviderError ())).

(** Before an attempt; the run was found running; the budget allows the request;
    the turn is accounted for; over. *)
Inductive Phase := PhStart | PhRunning | PhCleared | PhRecorded | PhOver.

Definition phase_step (ph : Phase) (ev : answered loopE) : Phase :=
  match ev with existT B (e, b) =>
    match e in loopE B return B → Phase with
    | EvStatus => λ r, match r with Ok StatusRunning => PhRunning | _ => PhOver end
    | EvCheckBudget _ => λ r, match r with Ok _ => PhCleared | Err _ => PhOver end
    | EvRecordTurn _ _ => λ r, match r with Ok _ => PhRecorded | Err _ => PhOver end
    | EvLog (PayloadRetry (RetryAttempting _ _ _ _)) => λ r,
        match r with Ok _ => PhStart | Err _ => PhOver end
    | EvTools _ => λ _, PhStart
    | EvFinal _ => λ _, PhOver
    | _ => λ _, ph
    end b
  end.

Definition phase (tr : list (answered loopE)) : Phase := foldl phase_step PhStart tr.

(** Where an event may stand. *)
Definition in_order (pre : list (answered loopE)) (ev : answered loopE) : Prop :=
  match ev with existT B (e, _) =>
    match e with
    | EvCancelled | EvDrainSteer | EvCompact _ | EvStatus | EvBackoff _ => phase pre = PhStart
    | EvStoreOpen | EvMaterialize _ => phase pre = PhStart
    | EvCheckBudget _ => phase pre = PhRunning
    | EvNet _ | EvChunk _ _ | EvReasoning _ | EvRecordTurn _ _ => phase pre = PhCleared
    | EvBudget | EvTools _ | EvFinal _ => phase pre = PhRecorded
    | EvLogEvents | EvLog _ => True
    end
  end.

Abbreviation ordered Q := (promises (λ _, True) in_order Q).

Lemma phase_snoc tr ev : phase (tr ++ [ev]) = phase_step (phase tr) ev.
Proof. unfold phase. by rewrite foldl_app. Qed.

(** The program begins in one phase and, when it succeeds, ends in another. *)
Definition moves {A} (from to : Phase) (m : prog loopE (result AgentLoopError A)) : Prop :=
  ∀ pre, phase pre = from → ordered (λ pre' r, match r with Ok _ => phase pre' = to | Err _ => True end) pre m.

Definition stays {A} (ph : Phase) (m : prog loopE A) : Prop :=
  ∀ pre, phase pre = ph → ordered (λ pre' _, phase pre' = ph) pre m.

Lemma stays_ret {A} ph (a : A) : stays ph (Ret a).
Proof. by intros pre. Qed.

Lemma stays_bind {A C} ph (m : prog loopE A) (f : A → prog loopE C) :
  stays ph m → (∀ a, stays ph (f a)) → stays ph (pbind m f).
Proof. intros Hm Hf pre Hpre. eapply promises_bind; [by apply Hm|]. intros pre' a. apply Hf. Qed.

Lemma moves_bind {A C} from mid to (m : prog loopE (result AgentLoopError A)) (f : A → prog loopE (result AgentLoopError C)) :
  moves from mid m → (∀ a, moves mid to (f a)) → moves from to (lbind m f).
Proof.
  intros Hm Hf pre Hpre. eapply promises_bind; [by apply Hm|]. intros pre' [a|e] Hpre'; [by apply Hf|done].
Qed.

Lemma stays_moves_bind {A C} from to (m : prog loopE A) (f : A → prog loopE (result AgentLoopError C)) :
  stays from m → (∀ a, moves from to (f a)) → moves from to (pbind m f).
Proof. intros Hm Hf pre Hpre. eapply promises_bind; [by apply Hm|]. intros pre' a. apply Hf. Qed.

Lemma moves_fail {A} from to e : moves from to (lfail (A := A) e).
Proof. by intros pre. Qed.

(** One operation with [?], which does not change the phase. *)
Lemma moves_op {A} ph (e : loopE (result RuntimeError A)) :
  (∀ pre b, phase pre = ph → in_order pre (ans e b)) →
  (∀ b, phase_step ph (ans e b) = ph) → moves ph ph (on_rt e).
Proof.
  intros Hin Hstep pre Hpre b _. split; [by apply Hin|]. cbn [promises].
  destruct b as [a|x]; cbn; [by rewrite phase_snoc, Hpre|done].
Qed.

Lemma stays_flush force st : stays PhCleared (flush_coalesced_chunk force st).
Proof.
  unfold flush_coalesced_chunk. repeat case_match; try apply stays_ret;
    intros pre Hpre r _; (split; [done|]); cbn; by rewrite phase_snoc, Hpre.
Qed.

Lemma stays_after_flush force st k :
  (∀ st, stays PhCleared (k st)) → stays PhCleared (after_flush force st k).
Proof. intros Hk. apply stays_bind; [apply stays_flush|]. intros [st' [r|e]]; [apply Hk|apply stays_ret]. Qed.

Lemma stays_on_call B (e : callE B) st : stays PhCleared (on_call B e st).
Proof.
  destruct e as [ev| | | |];
    try by (intros pre Hpre b _; split; [done|]; cbn; by rewrite phase_snoc, Hpre).
  destruct ev; cbn; try apply stays_after_flush; try (intros ?; apply stays_ret); try apply stays_ret.
  intros st' pre Hpre r _. split; [done|]. cbn. by rewrite phase_snoc, Hpre.
Qed.

Lemma stays_stream {A} (m : prog callE A) st : stays PhCleared (run_stream m st).
Proof.
  revert st. induction m as [a|B e k IH]; intros st; cbn [run_stream]; [apply stays_ret|].
  apply stays_bind; [apply stays_on_call|]. intros [st' b]. apply IH.
Qed.

Lemma log_budget_phase ph l pre :
  phase pre = ph →
  ordered (λ pre' r, match r with
      | Ok _ => phase pre' = ph
      | Err (AlRuntime _) => True
      | Err _ => False
      end) pre (log_budget l).
Proof.
  revert pre. induction l as [|x l IH]; intros pre Hpre; [done|]. intros b _. split; [done|].
  destruct b as [[]|e]; [|done]. apply IH. by rewrite phase_snoc.
Qed.

Lemma moves_call turn attempt messages :
  ∀ pre, phase pre = PhStart →
  ordered (λ pre' r, match r with
      | Ok _ => phase pre' = PhRecorded
      | Err (AlProvider _) => phase pre' = PhCleared
      | Err _ => True
      end) pre (call_model run_id provider turn attempt messages).
Proof.
  intros pre Hpre status _. split; [done|]. destruct status as [[]|e]; try done.
  intros checked _. cbn [in_order ans]. rewrite !phase_snoc, Hpre. split; [done|].
  destruct checked as [[]|e].
  2: { eapply promises_bind; [apply (log_budget_phase PhOver); by rewrite !phase_snoc|].
       by intros pre' [a|[]]. }
  set (pre1 := _ ++ [ans (EvCheckBudget _) _]).
  assert (phase pre1 = PhCleared) as Hpre1 by by (unfold pre1; rewrite phase_snoc).
  clearbody pre1. clear Hpre. intros events _. split; [done|].
  destruct events as [events|e]; [|done]. cbn [pbind map_err].
  eapply promises_bind; [apply stays_stream; by rewrite phase_snoc|]. clear pre1 Hpre1.
  intros pre1 [st [r|e]] Hpre1; [|done].
  eapply promises_bind; [by apply stays_flush|]. clear pre1 Hpre1.
  intros pre1 [st' [r'|e]] Hpre1; [|done]. destruct (turn_tokens _ _ _) as [tokens measured].
  intros recorded _. split; [done|]. destruct recorded as [[]|e]; [|done]. cbn [pbind map_err].
  intros budget _. split; [by cbn; rewrite phase_snoc|].
  assert (phase ((pre1 ++ [ans (EvRecordTurn tokens measured) (Ok ())]) ++ [ans EvBudget budget]) = PhRecorded)
    as Hpre2 by by rewrite !phase_snoc.
  eapply promises_bind with (Q' := λ pre' r, match r with
    | Ok _ => phase pre' = PhRecorded | Err (AlRuntime _) => True | Err _ => False end).
  - destruct budget as [c|]; [by apply log_budget_phase|done].
  - by intros pre' [a|[]].
Qed.

Lemma moves_attempts turn attempts attempt messages :
  moves PhStart PhRecorded (attempt_model run_id provider turn attempts attempt messages).
Proof.
  revert attempt. induction attempts as [|attempts IH]; intros attempt pre Hpre; cbn [attempt_model];
    (eapply promises_bind; [by apply moves_call|]); intros pre' [response|[e|e|e| |]] Hpre'; try done.
  - destruct (1 <? attempt); [|done]. intros [[]|e] _; (split; [done|]); [|done]. cbn. by rewrite phase_snoc, Hpre'.
  - destruct (1 <? attempt); [|done]. by intros [[]|x] _.
  - destruct (1 <? attempt); [|done]. intros [[]|e] _; (split; [done|]); [|done]. cbn. by rewrite phase_snoc, Hpre'.
  - destruct (is_transient e).
    + intros [[]|x] _; (split; [done|]); [|done]. intros cancelled _.
      split; [cbn; by rewrite phase_snoc|]. destruct cancelled; [done|].
      apply IH. by rewrite !phase_snoc.
    + destruct (1 <? attempt); [|done]. by intros [[]|x] _.
Qed.

Lemma moves_messages store_open events l messages :
  moves PhStart PhStart (observation_messages store_open events l messages).
Proof.
  revert messages. induction l as [|o l IH]; intros messages; [by intros pre|]. cbn [observation_messages].
  apply stays_moves_bind.
  - unfold materialized. destruct (to_artifact o), store_open; try apply stays_ret.
    intros pre Hpre r _. split; [done|]. cbn. by rewrite phase_snoc, Hpre.
  - intros o'. destruct (context_json _); [apply IH|apply moves_fail].
Qed.

Lemma moves_loop steer iterations messages :
  moves PhStart PhOver (execute_loop run_id provider steer iterations messages).
Proof.
  revert messages. induction iterations as [|n IH]; intros messages pre Hpre cancelled _; (split; [done|]);
    (destruct cancelled; [done|]); [done|].
  assert (phase (pre ++ [ans EvCancelled false]) = PhStart) as Hpre1 by by rewrite phase_snoc.
  revert Hpre1. generalize (pre ++ [ans EvCancelled false]). clear pre Hpre.
  change (moves PhStart PhOver (pbind (if steer then Vis EvDrainSteer Ret else Ret []) (λ fragments,
        lbind (on_rt (EvCompact (messages ++ (user_message <$> fragments)))) (λ messages,
        lbind (call_model_with_retry run_id provider (MAX_ITERATIONS - n) messages) (λ turn,
        match mt_tool_calls turn with
        | [] => on_rt (EvFinal (mt_text turn))
        | calls =>
            Vis (EvTools calls) (λ observations,
            Vis EvStoreOpen (λ store_open,
            Vis EvLogEvents (λ events,
            lbind (observation_messages store_open (match events with Ok l => l | Err _ => [] end) observations
                     (messages ++ [assistant_message (mt_text turn)])) (λ messages,
            execute_loop run_id provider steer n messages))))
        end))))).
  apply stays_moves_bind.
  { destruct steer; [|apply stays_ret]. intros pre Hpre b _. split; [done|]. cbn. by rewrite phase_snoc, Hpre. }
  intros fragments. apply (moves_bind _ PhStart); [by apply moves_op|]. intros messages1.
  apply (moves_bind _ PhRecorded); [apply moves_attempts|]. intros turn.
  destruct (mt_tool_calls turn) as [|c calls].
  - intros pre Hpre b _. split; [done|]. cbn. destruct b; [by rewrite phase_snoc|done].
  - intros pre Hpre observations _. split; [done|]. intros store_open _.
    split; [cbn; by rewrite phase_snoc|]. intros events _. split; [done|].
    eapply promises_bind; [apply moves_messages; by rewrite !phase_snoc|].
    intros pre' [messages2|e] Hpre'; [by apply IH|done].
Qed.

(** C16: A run keeps to its order, whatever is answered: every request of the
    provider and every part of the answer comes after the run was found running and
    the budget allowed this very attempt, and before the attempt failed or its turn
    was recorded; tools run and the final answer is written only when the turn's
    tokens are recorded; and nothing runs after the final answer. *)
Theorem run_keeps_order steer messages tr q l ev l' :
  path (execute run_id provider steer messages) tr q → tr = l ++ ev :: l' → in_order l ev.
Proof.
  intros Hpath Htr.
  exact (promises_event _ _ _ [] _ q tr l ev l' (moves_loop steer MAX_ITERATIONS messages [] eq_refl) Hpath
    (proj2 (Forall_forall _ _) (λ _ _, I)) Htr).
Qed.
End order.

(** ** The text of a turn *)

Section chunks.
Context `{Json} `{DisplayStoreError} `{UuidText} `{!PackJson}.
Context (run_id : Uuid) (provider : nat → nat → list ProviderMessage → prog callE (result ProviderError ())).

Definition chunk_of (ev : answered loopE) : option (N * string) :=
  match ev with existT B (e, _) =>
    match e with EvChunk chunk_id text => Some (chunk_id, text) | _ => None end
  end.

(** The chunks handed to the runtime, with their ids. *)
Definition chunks (tr : list (answered loopE)) : list (N * string) := omap chunk_of tr.

(** Every chunk is recorded. *)
Definition chunk_recorded (ev : answered loopE) : Prop :=
  match ev with existT B (e, b) =>
    match e in loopE B return B → Prop with EvChunk _ _ => λ r, is_ok r = true | _ => λ _, True end b
  end.

(** [ids] count up from [first]; the next would be [next]. *)
Definition counts_up (first : N) (ids : list N) (next : N) : Prop :=
  foldl (λ o id, n ← o; if (id =? n)%N then Some (wrapping_add u64_max n 1) else None) (Some first) ids = Some next.

(** The chunks from the id [first] on and the buffer make up [text]. *)
Definition written (first : N) (text : string) (st : TurnAccumulator) (pre : list (answered loopE)) : Prop :=
  (concat_str (chunks pre).*2 ++ ta_buf st)%string = text ∧
  counts_up first (chunks pre).*1 (ta_chunk_id st) ∧ Forall (λ t, t ≠ "") (chunks pre).*2.

Abbreviation writes Q := (promises chunk_recorded (λ _ _, True) Q).

Lemma chunks_snoc_none pre ev : chunk_of ev = None → chunks (pre ++ [ev]) = chunks pre.
Proof. intros He. unfold chunks. rewrite omap_app. cbn [omap list_omap]. by rewrite He, app_nil_r. Qed.

Lemma written_quiet first text st pre ev :
  chunk_of ev = None → written first text st pre → written first text st (pre ++ [ev]).
Proof. intros He. unfold written. by rewrite chunks_snoc_none. Qed.

Lemma flush_writes first text force st pre :
  written first text st pre →
  writes (λ pre' '(st', r), written first text st' pre' ∧ ta_text st' = ta_text st ∧ is_ok r = true ∧
    (force = true → ta_buf st' = "")) pre (flush_coalesced_chunk force st).
Proof.
  intros (Htext & Hids & Hne). unfold flush_coalesced_chunk, is_empty.
  destruct (String.eqb_spec (ta_buf st) "") as [Hbuf|Hbuf]; [by split_and!|].
  destruct (negb force && _) eqn:Hf.
  { split_and!; try done. intros ->. done. }
  intros [recorded|e]; [|done]. intros _. split; [done|]. cbn.
  unfold written, chunks in *. rewrite !omap_app. cbn.
  rewrite !fmap_app, concat_str_app. cbn. rewrite !str_app_nil_r. split_and!; try done.
  - unfold counts_up in *. rewrite foldl_app, Hids. cbn. by rewrite N.eqb_refl.
  - apply Forall_app. split; [done|]. by constructor.
Qed.

Lemma after_flush_writes first text force st pre k (Q : list (answered loopE) → TurnAccumulator * result ProviderError () → Prop) :
  written first text st pre →
  (∀ pre' st', written first text st' pre' → ta_text st' = ta_text st → (force = true → ta_buf st' = "") →
     writes Q pre' (k st')) →
  writes Q pre (after_flush force st k).
Proof.
  intros Hw Hk. eapply promises_bind; [by apply (flush_writes first text)|].
  intros pre' [st' [[]|e]] (Hw' & Ht & Hok & Hb); [by apply Hk|done].
Qed.

(** The text so far is in the chunks and the buffer. *)
Definition in_step (first : N) (pre : list (answered loopE)) (st : TurnAccumulator) : Prop :=
  written first (ta_text st) st pre.

Lemma on_call_writes first B (e : callE B) st pre :
  in_step first pre st → writes (λ pre' '(st', _), in_step first pre' st') pre (on_call B e st).
Proof.
  intros Hst. destruct e as [ev| | | |]; try by (intros b _; split; [done|]; by apply written_quiet).
  destruct ev as [delta|id name arguments|p c m|reason|content]; cbn [on_call on_stream_event].
  - apply (after_flush_writes first (ta_text st ++ delta)).
    + destruct Hst as (<- & Hids & Hne). split_and!; try done. by rewrite str_app_assoc.
    + intros pre' st' Hw Ht _. cbn in Ht. unfold in_step, written in *. cbn. by rewrite Ht.
  - apply (after_flush_writes first (ta_text st)); [done|]. intros pre' st' Hw Ht _. unfold in_step. cbn. by rewrite Ht.
  - done.
  - apply (after_flush_writes first (ta_text st)); [done|]. intros pre' st' Hw Ht _. unfold in_step. cbn. by rewrite Ht.
  - apply (after_flush_writes first (ta_text st)); [done|]. intros pre' st' Hw Ht _ b _.
    split; [done|]. change (in_step first (pre' ++ [ans (EvReasoning content) b]) st').
    unfold in_step. rewrite Ht. by apply written_quiet.
Qed.

Lemma stream_writes first {A} (m : prog callE A) st pre :
  in_step first pre st → writes (λ pre' '(st', _), in_step first pre' st') pre (run_stream m st).
Proof.
  revert st pre. induction m as [a|B e k IH]; intros st pre Hst; cbn [run_stream]; [done|].
  eapply promises_bind; [by apply on_call_writes|]. intros pre' [st' b] Hst'. by apply IH.
Qed.

(** What was handed over when a turn ends well. *)
Definition turn_written (pre : list (answered loopE)) (turn : ModelTurnResult) : Prop :=
  concat_str (chunks pre).*2 = mt_text turn ∧ Forall (λ t, t ≠ "") (chunks pre).*2 ∧
  ∃ events next, ans EvLogEvents (Ok events) ∈ pre ∧ counts_up (next_chunk_id run_id events) (chunks pre).*1 next.

Lemma turn_written_quiet pre ev turn :
  chunk_of ev = None → turn_written pre turn → turn_written (pre ++ [ev]) turn.
Proof.
  intros He (Hc & Hn & events & next & Hin & Hi). unfold turn_written. rewrite chunks_snoc_none by done.
  split_and!; try done. exists events, next. split; [by apply elem_of_app; left|done].
Qed.

Lemma log_budget_writes turn l pre :
  turn_written pre turn →
  writes (λ pre' r, match r with Ok _ => turn_written pre' turn | Err _ => True end) pre (log_budget l).
Proof.
  revert pre. induction l as [|x l IH]; intros pre Hpre; [done|]. intros [[]|e] _; (split; [done|]); [|done].
  apply IH. by apply turn_written_quiet.
Qed.

Lemma log_budget_any l pre : writes (λ _ _, True) pre (log_budget l).
Proof.
  revert pre. induction l as [|x l IH]; intros pre; [done|]. intros [[]|e] _; (split; [done|]); [apply IH|done].
Qed.

(** Events are never forgotten. *)
Lemma writes_remember {A} (Q : list (answered loopE) → A → Prop) ev pre (m : prog loopE A) :
  ev ∈ pre → writes Q pre m → writes (λ pre' a, ev ∈ pre' ∧ Q pre' a) pre m.
Proof.
  revert pre. induction m as [a|B e k IH]; intros pre Hev Hm; [done|].
  intros b Hb. destruct (Hm b Hb) as [HR Hk]. split; [done|]. apply IH; [by apply elem_of_app; left|done].
Qed.

Lemma call_writes turn attempt messages :
  writes (λ pre r, match r with Ok response => turn_written pre response | Err _ => True end) []
    (call_model run_id provider turn attempt messages).
Proof.
  intros status _. split; [done|]. destruct status as [[]|e]; try done.
  intros [[]|e] _; (split; [done|]).
  2: { eapply promises_bind; [apply log_budget_any|]. by intros pre' [a|x]. }
  intros [events|e] _; (split; [done|]); [|done]. cbn [pbind map_err].
  set (pre0 := _ ++ [ans EvLogEvents _]). set (first := next_chunk_id run_id events).
  assert (in_step first pre0 (fresh_accumulator first)) as Hst by (split_and!; [done..|constructor]).
  assert (ans EvLogEvents (Ok events) ∈ pre0) as Hin by (apply elem_of_app; right; by left).
  clearbody pre0.
  eapply promises_bind; [exact (writes_remember _ _ _ _ Hin (stream_writes first _ _ _ Hst))|].
  clear pre0 Hst Hin. intros pre0 [st [r|e]] [Hin Hst]; [|done].
  eapply promises_bind; [exact (writes_remember _ _ _ _ Hin (flush_writes first (ta_text st) _ _ _ Hst))|].
  clear pre0 Hst Hin. intros pre0 [st' [r'|e]] (Hin & (Htext & Hids & Hne) & Ht & _ & Hbuf); [|done].
  destruct (turn_tokens _ _ _) as [tokens measured].
  set (response := mkTurnResult _ _ _).
  assert (turn_written pre0 response) as Hw.
  { split_and!; [|done|by exists events, (ta_chunk_id st')]. cbn.
    rewrite Ht, <-Htext, Hbuf by done. by rewrite str_app_nil_r. }
  clearbody response. intros [[]|e] _; (split; [done|]); [|done]. cbn [pbind map_err].
  intros budget _. split; [done|].
  eapply promises_bind with (Q' := λ pre' r, match r with Ok _ => turn_written pre' response | Err _ => True end).
  - destruct budget as [c|]; [apply log_budget_writes|]; by repeat apply turn_written_quiet.
  - by intros pre' [a|e].
Qed.

(** C19: The chunks of a turn are its text: when the provider is called and the turn
    succeeds, and every chunk handed to the runtime is recorded, the chunks in order
    are exactly the text of the turn, none of them is empty, and their ids count up
    from the one after the last chunk of this run in the log, so that none is taken
    for one already recorded. *)
Theorem turn_text_is_its_chunks turn attempt messages tr response :
  path (call_model run_id provider turn attempt messages) tr (Ret (Ok response)) →
  Forall chunk_recorded tr → turn_written tr response.
Proof.
  intros Hpath Hok.
  exact (promises_result _ _ _ [] _ tr (Ok response) (call_writes turn attempt messages) Hpath Hok).
Qed.
End chunks.

(** ** The run over the components *)

Section handler.
Context `{Json} `{!JsonTree} `{JsonText} `{UrlCrate} `{DisplayStoreError} `{UuidText} `{FileSystem} (h : PolicyHeap).
Context `{Codec} {St : Type} `{!EventStore St} `{!BudgetStore St} {F : Type} `{!WorkFiles F} `{!FileChanges F} {W : Type}.
Context `{!McpStreams W} `{!WebService W} `{!CodingTools W} `{!WebJson Value} `{!UrlQuery} `{!UrlPattern}.
Context (to_lowercase : string → string) (rtk : option Rtk).

Record LoopWorld := mkLoopWorld {
  lw_orch : OrchWorld (St := St) (F := F) (W := W);
  lw_budget : option BudgetChecker;
  lw_steer : SteerPendingQueue;
}.

(** What the environment supplies, as for the tools; the network of the providers,
    the token, the listing of the session's parent, the store of long chunks, the
    schedule of parallel tools and the clock of the budget. *)
Context (tick_of : nat → Tick) (id_of : nat → Uuid) (order : FenceMap → list EffectFenceRecord).
Context (now now_ms : N) (instant : Instant) (fuel : nat) (schedule : list nat).
Context (net : ∀ B, callE B → W → W * option B) (token : W → W * bool).
Context (parent_session_id : St → option Uuid) (chunk_store : option ArtifactStore).
Context (r : AgentRuntime) (o : ToolOrchestrator) (run_id : Uuid).

Abbreviation sid := (ar_session_id r).

Definition env_of (w : LoopWorld) : W := mcp_env (ow_mcp (lw_orch w)).

Definition with_orch (x : OrchWorld (St := St) (F := F) (W := W)) (w : LoopWorld) : LoopWorld :=
  mkLoopWorld x (lw_budget w) (lw_steer w).

Definition with_env (env : W) (w : LoopWorld) : LoopWorld :=
  let x := lw_orch w in
  with_orch (mkOrchWorld (ow_store x) (ow_art x) (with_mcp_env env (ow_mcp x)) (ow_taken x)) w.

(** An operation of the runtime, with a tick of its own. *)
Definition on_runtime {A} (m : Tick → stateR St RuntimeError A) (w : LoopWorld)
    : LoopWorld * option (result RuntimeError A) :=
  let '(x, a) := on_store 1 (m (tick_of (ow_taken (lw_orch w)))) (lw_orch w) in (with_orch x w, Some a).

Definition ask_token (w : LoopWorld) : LoopWorld * option bool :=
  let '(env, b) := token (env_of w) in (with_env env w, Some b).

Definition read_artifact (a : ArtifactRef) (w : LoopWorld)
    : option (result ContextBuilderError MaterializedArtifact) :=
  materialize (ArtifactRangeSource0 := store_source (or_artifact_root o)) (ow_art (lw_orch w)) PACK_TOKENS
    ARTIFACT_CHUNK_SIZE fuel (artifact_id a).

Definition loop_handle (B : Type) (e : loopE B) : LoopWorld → LoopWorld * option B :=
  match e in loopE B return LoopWorld → LoopWorld * option B with
  | EvCancelled => ask_token
  | EvBackoff _ => ask_token
  | EvDrainSteer => λ w,
      let '(q, l) := queue_drain sid (lw_steer w) in (mkLoopWorld (lw_orch w) (lw_budget w) q, Some l)
  | EvCompact messages => λ w,
      let x := lw_orch w in
      let '(c, a) := run_durable_compaction (λ i, tick_of (ow_taken x + i)) now_ms now (or_artifact_root o)
        r parent_session_id messages (mkCompactWorld (lw_budget w) (ow_store x) (ow_art x)) in
      (mkLoopWorld (mkOrchWorld (cw_store c) (cw_art c) (ow_mcp x) (ow_taken x + 3)) (cw_budget c) (lw_steer w),
       Some a)
  | EvStatus => on_runtime (λ _, rt_status sid)
  | EvCheckBudget estimated => λ w, (w, Some (rt_check_budget instant estimated (lw_budget w)))
  | EvLogEvents => λ w, (w, Some (rt_events sid (ow_store (lw_orch w))))
  | EvLog p => on_runtime (λ t, record t sid p)
  | EvNet e => λ w, let '(env, b) := net _ e (env_of w) in (with_env env w, b)
  | EvChunk chunk_id text => on_runtime (λ t, record_agent_chunk t sid run_id chunk_id text chunk_store)
  | EvReasoning content => on_runtime (λ t, record_agent_reasoning_summary t sid run_id content)
  | EvRecordTurn tokens measured => λ w,
      let x := lw_orch w in
      let '((b, s), a) := rt_record_turn_with_usage now_ms sid tokens measured (lw_budget w, ow_store x) in
      (mkLoopWorld (mkOrchWorld s (ow_art x) (ow_mcp x) (ow_taken x)) b (lw_steer w), Some (map_err RtStore a))
  | EvBudget => λ w, (w, Some (lw_budget w))
  | EvFinal text => on_runtime (λ t, record_agent_final t sid run_id text)
  | EvTools calls => λ w,
      let '(x, l) := process_tool_calls h to_lowercase rtk tick_of id_of order now fuel r o schedule calls (lw_orch w) in
      (with_orch x w, if length l =? length calls then Some l else None)
  | EvStoreOpen => λ w,
      let '(x, a) := on_files (artifact_open (or_artifact_root o)) (lw_orch w) in (with_orch x w, Some (is_ok a))
  | EvMaterialize a => λ w, (w, read_artifact a w)
  end.

(** A whole run. *)
Definition run_agent `{!PackJson} (provider : nat → nat → list ProviderMessage → prog callE (result ProviderError ()))
    (steer : bool) (messages : list ProviderMessage) (w : LoopWorld) : LoopWorld * option (result AgentLoopError ()) :=
  prun loop_handle (execute run_id provider steer messages) w.
End handler.

(** ** The budget of a run *)

Section limits.
Context `{Json} `{!JsonTree} `{JsonText} `{UrlCrate} `{DisplayStoreError} `{UuidText} `{FileSystem} (h : PolicyHeap).
Context `{Codec} {St : Type} `{!EventStore St} `{!BudgetStore St} {F : Type} `{!WorkFiles F} `{!FileChanges F} {W : Type}.
Context `{!McpStreams W} `{!WebService W} `{!CodingTools W} `{!WebJson Value} `{!UrlQuery} `{!UrlPattern} `{!PackJson}.
Context (to_lowercase : string → string) (rtk : option Rtk).
Context (tick_of : nat → Tick) (id_of : nat → Uuid) (order : FenceMap → list EffectFenceRecord).
Context (now now_ms : N) (instant : Instant) (fuel : nat) (schedule : list nat).
Context (net : ∀ B, callE B → W → W * option B) (token : W → W * bool).
Context (parent_session_id : St → option Uuid) (chunk_store : option ArtifactStore).
Context (r : AgentRuntime) (o : ToolOrchestrator) (run_id : Uuid).
Context (config : BudgetConfig) (limit : N) (Hlimit : max_turns config = Some limit) (Hmax : (limit ≤ u32_max)%N).

Abbreviation handle := (loop_handle (F := F) h to_lowercase rtk tick_of id_of order now now_ms instant fuel
  schedule net token parent_session_id chunk_store r o run_id).

(** The turns used, under this configuration. *)
Definition turns_at_most (n : N) (b : option BudgetChecker) : Prop :=
  ∃ c, b = Some c ∧ checker_config c = config ∧ (turns_used (checker_state c) ≤ n)%N.

(** Where the budget allows an attempt, a turn is left. *)
Definition turns_left (pre : list (answered loopE)) (w : LoopWorld (St := St) (F := F) (W := W)) : Prop :=
  turns_at_most limit (lw_budget w) ∧ (phase pre = PhCleared → turns_at_most (limit - 1) (lw_budget w) ∧ (0 < limit)%N).

Lemma compaction_turns tick now_ms' now' root ms hs n (w w' : CompactWorld (St := St) (F := F)) res :
  turns_at_most n (cw_budget w) →
  run_durable_compaction_with_store tick now_ms' now' root r parent_session_id ms hs w = (w', res) →
  turns_at_most n (cw_budget w').
Proof.
  intros Hn. unfold run_durable_compaction_with_store, StateR.get. unfold StateR.bind at 1.
  destruct (rt_compaction_needed (cw_budget w)) as [[threshold used]|]; [|by intros [= <- <-]].
  unfold StateR.bind at 1, StateR.lift. destruct (rt_events _ _) as [l|e]; [|by intros [= <- <-]].
  unfold StateR.bind at 1, on_log at 1. destruct (record (tick 0) _ _ _) as [s1 [[]|e1]]; [|by intros [= <- <-]].
  unfold StateR.bind at 1, on_log at 1. cbn [cw_store].
  destruct (record (tick 1) _ _ s1) as [s2 [[]|e2]]; [|by intros [= <- <-]].
  destruct (fold_prompt ms l _ _) as [compacted summary]. unfold StateR.bind at 1. cbn [cw_budget cw_store cw_art].
  destruct (store_summary_frame root now' hs summary (mkCompactWorld (cw_budget w) s2 (cw_art w))) as (art & a & ->).
  cbn [cw_budget cw_store]. unfold StateR.bind at 1, on_budget at 1. cbn [cw_budget cw_store cw_art].
  assert (∀ tokens, turns_at_most n (rt_record_compaction now_ms' (ar_session_id r) tokens (cw_budget w, s2)).1.1) as Hb.
  { intros tokens. destruct Hn as (c & -> & Hc & Hle). unfold rt_record_compaction, rt_save.
    destruct (store_update_budget_state _ _ _ _). by exists (budget_record_compaction tokens c). }
  specialize (Hb (compacted_tokens compacted summary)).
  destruct (rt_record_compaction _ _ _ _) as [[b s3] [[]|e3]]; cbn [map_err]; [|by intros [= <- <-]].
  unfold StateR.bind at 1. cbn [cw_budget cw_store cw_art]. unfold StateR.bind at 1, on_log at 1. cbn [cw_store].
  destruct (record (tick 2) _ _ s3) as [s4 [[]|e4]]; by intros [= <- <-].
Qed.

(** What leaves the budget as it is. *)
Definition spares_budget {B} (e : loopE B) : bool :=
  match e with EvCompact _ | EvRecordTurn _ _ => false | _ => true end.

Lemma handle_spares B (e : loopE B) w w' a :
  spares_budget e = true → handle B e w = (w', a) → lw_budget w' = lw_budget w.
Proof.
  intros He. destruct e; try done; cbn; unfold ask_token, on_runtime, with_env, with_orch;
    repeat (case_match; cbn); try (intros [= <- _]; done).
Qed.

Lemma stuck_keeps B (e : loopE B) w w' :
  turns_at_most limit (lw_budget w) → handle B e w = (w', None) → turns_at_most limit (lw_budget w').
Proof.
  intros Hw Hrun. destruct (spares_budget e) eqn:He.
  - by rewrite (handle_spares _ _ _ _ _ He Hrun).
  - destruct e; try done; cbn in Hrun; revert Hrun; repeat case_match; done.
Qed.

Lemma handle_keeps_turns pre B (e : loopE B) b w w' :
  turns_left pre w → in_order pre (ans e b) → handle B e w = (w', Some b) → turns_left (pre ++ [ans e b]) w'.
Proof using Hlimit Hmax.
  intros [Hall Hleft] Hin Hrun. unfold turns_left. rewrite phase_snoc.
  destruct (spares_budget e) eqn:He.
  - rewrite (handle_spares _ _ _ _ _ He Hrun). split; [done|].
    destruct e; try done; cbn in Hin |- *; try (rewrite Hin; discriminate); try exact Hleft.
    + destruct b as [[]|]; discriminate.
    + intros Hph. destruct b as [[]|]; [|discriminate]. cbn in Hrun. injection Hrun as <- Hcheck.
      destruct Hall as (c & Hb & Hc & Hle). rewrite Hb in Hcheck |- *. cbn in Hcheck.
      apply check_all_ok in Hcheck as (Hturn & _). rewrite Hc, Hlimit in Hturn. cbn in Hturn.
      split; [|lia]. exists c. split_and!; [done|done|lia].
    + destruct p; try done. destruct e; try done. by destruct b.
  - destruct e as [| |messages| | | | | | | |tokens measured| | | | | | ]; try done; cbn in Hin; cbn [phase_step ans].
    + cbn in Hrun. rewrite Hin. split; [|done]. revert Hrun. unfold run_durable_compaction.
      destruct (artifact_open _ _) as [art opened].
      destruct (run_durable_compaction_with_store _ _ _ _ _ _ _ _ _) as [c a] eqn:Hc.
      intros [= <- <-]. cbn [lw_budget]. by eapply compaction_turns; [|exact Hc].
    + destruct (Hleft Hin) as [(c & Hb & Hc & Hle) Hpos]. cbn in Hrun. rewrite Hb in Hrun. cbn in Hrun.
      unfold rt_save in Hrun. destruct (store_update_budget_state _ _ _ _) as [s' a]. injection Hrun as <- <-.
      split; [|by destruct (map_err _ a)].
      exists (record_turn_with_usage tokens measured c). split_and!; [done|done|]. cbn.
      rewrite wrapping_add_small by lia. lia.
Qed.

(** A run never uses more turns than its budget allows, whatever the model and
    the tools do and however often an attempt is repeated: from a budget with no
    more turns used than the limit, a whole run over the components ends, or waits,
    with no more used than the limit. *)
Theorem turns_stay_within_limit provider steer messages (w : LoopWorld (St := St) (F := F) (W := W)) :
  turns_at_most limit (lw_budget w) →
  turns_at_most limit (lw_budget (run_agent h to_lowercase rtk tick_of id_of order now now_ms instant fuel schedule
    net token parent_session_id chunk_store r o run_id provider steer messages w).1).
Proof using Hlimit Hmax.
  intros Hw. unfold run_agent.
  pose proof (prun_follows (λ _, True) in_order handle turns_left
    (λ w, turns_at_most limit (lw_budget w)) _ [] _ w (λ _, I)
    (moves_loop run_id provider steer MAX_ITERATIONS messages [] eq_refl)
    (conj Hw (λ E : PhStart = PhCleared, ltac:(discriminate E)))) as Hrun.
  unfold execute. destruct (prun _ _ w) as [w' [a|]].
  - destruct Hrun as (pre' & _ & Hall & _); [intros *; apply handle_keeps_turns| |exact Hall].
    intros pre B e s s' [Hall _] Hs. by eapply stuck_keeps.
  - apply Hrun; [intros *; apply handle_keeps_turns|].
    intros pre B e s s' [Hall _] Hs. by eapply stuck_keeps.
Qed.
End limits.

(** ** Concrete runs *)

Section sample.
#[local] Existing Instances sample_fs sample_urls sample_codec one_reply queued tree_json tree_values.
#[local] Existing Instances orch_display orch_ids no_web no_web_json no_coding plain_urls no_pattern.
#[local] Instance plain_pack : PackJson := λ p, Ok (receipt_line p).

(** A session with an active run. *)
Definition running_store : MemoryEventStore :=
  (record (103%N, 3%N) 1 (PayloadRun (RunStarted 7)) (orch_store Ask)).1.

Definition running_world : LoopWorld (St := MemoryEventStore) (F := Demo.Fs) (W := list ReadMessage) :=
  mkLoopWorld (mkOrchWorld running_store tool_world (mkMcpWorld [] (λ _, 1%N)) 0) None ∅.

Definition sample_run := run_agent (St := MemoryEventStore) (F := Demo.Fs) (W := list ReadMessage)
  orch_heap to_ascii_lowercase None (λ n, (N.of_nat (200 + n), 9%N)) (λ n, N.of_nat (500 + n))
  (λ m, (map_to_list m).*2) 7 7 0 9 [] (λ _ _ w, (w, None)) (λ w, (w, false)) (λ _, None) None
  orch_runtime sample_orchestrator 7.

Fixpoint emits (l : list StreamEvent) (r : result ProviderError ()) : prog callE (result ProviderError ()) :=
  match l with
  | [] => Ret r
  | e :: l' => Vis (EvEmit e) (λ b, match b with Ok _ => emits l' r | Err x => Ret (Err x) end)
  end.

(** Searches, then answers. *)
Definition searching_provider (turn attempt : nat) (messages : list ProviderMessage) :=
  match turn with
  | 1 => emits [TextDelta "let me look"; StreamToolCall "c1" "search" (JObject [("pattern", JString "BETA"); ("path", JString "/ws")])] (Ok tt)
  | _ => emits [TextDelta "it says "; TextDelta "hi"; Usage 10 5 true] (Ok tt)
  end.

(** Breaks off once, after a summary of its reasoning. *)
Definition broken_provider (turn attempt : nat) (messages : list ProviderMessage) :=
  match attempt with
  | 1 => emits [TextDelta "The answer is 4"; Reasoning "sums"] (Err ProviderTimeout)
  | _ => emits [TextDelta "The answer is 42"] (Ok tt)
  end.

Definition rows_after (n : nat) (w : LoopWorld (St := MemoryEventStore) (F := Demo.Fs) (W := list ReadMessage)) :=
  match store_list 1 (ow_store (lw_orch w)) with Ok l => event_payload <$> drop n l | Err _ => [] end.

(** What became of the search, and the answer. *)
Example searching_run_completes :
  let x := sample_run searching_provider false [user_message "look"] running_world in
  omap (λ p, match p with
             | PayloadTool (ToolObserved id name _ outcome preview _ _) => Some (inl (id, name, outcome, preview))
             | PayloadAgent (AgentFinal _ text) => Some (inr text)
             | _ => None
             end) (rows_after 4 x.1) =
    [inl ("c1", "search", OutcomeSuccess, "sub/b.txt:1: beta"); inr "it says hi"] ∧ x.2 = Some (Ok ()).
Proof. vm_compute. done. Qed.

(** The text of an attempt that broke off stays in the log beside the text of the
    next one: what the chunks show is not the answer. *)
Example retried_text_stays :
  let x := sample_run broken_provider false [user_message "go"] running_world in
  omap (λ p, match p with
             | PayloadAgent (AgentChunk _ id text _) => Some (inl (id, text))
             | PayloadAgent (AgentFinal _ text) => Some (inr text)
             | _ => None
             end) (rows_after 4 x.1) =
    [inl (1%N, "The answer is 4"); inl (2%N, "The answer is 42"); inr "The answer is 42"] ∧
  x.2 = Some (Ok ()).
Proof. vm_compute. done. Qed.

(** A run whose turns are used up. *)
Definition spent_run : list (answered loopE) :=
  [ans EvCancelled false; ans (EvCompact [user_message "go"]) (Ok [user_message "go"]);
   ans EvStatus (Ok StatusRunning); ans (EvCheckBudget 100) (Err (TurnLimitExceeded 3 3));
   ans (EvLog (PayloadBudget (TurnLimitApproaching 3 3))) (Ok tt)].

Definition spent_end : prog loopE (result AgentLoopError ()) := Ret (Err (AlBudget (TurnLimitExceeded 3 3))).

Lemma spent_path : path (execute 7 searching_provider false [user_message "go"]) spent_run spent_end.
Proof. repeat constructor. Qed.

(** A provider that asks its service once, and is answered by a status. *)
Definition asking_provider (turn attempt : nat) (messages : list ProviderMessage)
    : prog callE (result ProviderError ()) :=
  Vis (EvPost (JString "go")) (λ _, Ret (Err ProviderCancelled)).

Definition asking_run : list (answered loopE) :=
  [ans EvCancelled false; ans (EvCompact [user_message "go"]) (Ok [user_message "go"]);
   ans EvStatus (Ok StatusRunning); ans (EvCheckBudget 100) (Ok tt); ans EvLogEvents (Ok []);
   ans (EvNet (EvPost (JString "go"))) (HttpStatus "429")].

Lemma asking_path :
  path (execute 7 asking_provider false [user_message "go"]) asking_run (Ret (Err (AlProvider ProviderCancelled))).
Proof. repeat constructor. Qed.

Lemma run_bounded_witness :
  total (loop_weight posts_only) asking_run = 1 ∧
  total (loop_weight posts_only) asking_run ≤ 150 * 1 ∧ total (loop_weight checks_only) asking_run ≤ 150 ∧
  total (loop_weight tools_only) asking_run ≤ 50 ∧ total (loop_weight waits_only) asking_run ≤ 100.
Proof.
  split; [reflexivity|].
  refine (run_is_bounded 7 asking_provider 1 _ false [user_message "go"] asking_run _ asking_path).
  intros turn attempt messages answer. by split.
Defined.

Lemma run_order_witness :
  path (execute 7 searching_provider false [user_message "go"]) spent_run spent_end ∧
  in_order (take 3 spent_run) (ans (EvCheckBudget 100) (Err (TurnLimitExceeded 3 3))).
Proof.
  split; [exact spent_path|].
  exact (run_keeps_order 7 searching_provider false [user_message "go"] spent_run spent_end (take 3 spent_run) _
    (drop 4 spent_run) spent_path eq_refl).
Defined.

Definition brief_provider (turn attempt : nat) (messages : list ProviderMessage) :=
  Vis (EvEmit (TextDelta "hi")) Ret.

Definition short_turn : list (answered loopE) :=
  [ans EvStatus (Ok StatusRunning); ans (EvCheckBudget 100) (Ok tt); ans EvLogEvents (Ok []);
   ans (EvChunk 1 "hi") (Ok true); ans (EvRecordTurn 150 false) (Ok tt); ans EvBudget None].

Lemma short_path :
  path (call_model 7 brief_provider 2 1 []) short_turn (Ret (Ok (mkTurnResult "hi" [] None))).
Proof. repeat constructor. Qed.

Lemma turn_text_witness :
  path (call_model 7 brief_provider 2 1 []) short_turn (Ret (Ok (mkTurnResult "hi" [] None))) ∧
  Forall chunk_recorded short_turn ∧ turn_written 7 short_turn (mkTurnResult "hi" [] None).
Proof.
  assert (Forall chunk_recorded short_turn) as Hok by repeat constructor.
  split_and!; [exact short_path|exact Hok|].
  exact (turn_text_is_its_chunks 7 brief_provider 2 1 [] short_turn _ short_path Hok).
Defined.

Definition limited_config : BudgetConfig :=
  mkBudgetConfig (Some 4%N) None None EffortMedium CompactionPolicy_default None.

(** Three of four turns used. *)
Definition limited_world : LoopWorld (St := MemoryEventStore) (F := Demo.Fs) (W := list ReadMessage) :=
  mkLoopWorld (lw_orch running_world)
    (Some (mkBudgetChecker limited_config (mkBudgetState 3 90 0 0 0 0))) ∅.

(** The search runs, the answer to it is no longer asked for. *)
Example limited_run_stops :
  (sample_run searching_provider false [user_message "look"] limited_world).2 =
  Some (Err (AlBudget (TurnLimitExceeded 4 4))).
Proof. vm_compute. reflexivity. Qed.

Lemma turns_limit_witness :
  (max_turns limited_config = Some 4%N ∧ (4 ≤ u32_max)%N ∧ turns_at_most limited_config 4 (lw_budget limited_world)) ∧
  turns_at_most limited_config 4
    (lw_budget (sample_run searching_provider false [user_message "look"] limited_world).1).
Proof.
  assert (max_turns limited_config = Some 4%N) as Hlimit by reflexivity.
  assert (4 ≤ u32_max)%N as Hmax by (unfold u32_max; lia).
  assert (turns_at_most limited_config 4 (lw_budget limited_world)) as Hw.
  { exists (mkBudgetChecker limited_config (mkBudgetState 3 90 0 0 0 0)). split_and!; [reflexivity..|]. cbn. lia. }
  split; [split_and!; [exact Hlimit|exact Hmax|exact Hw]|].
  exact (turns_stay_within_limit (St := MemoryEventStore) (F := Demo.Fs) (W := list ReadMessage)
    orch_heap to_ascii_lowercase None (λ n, (N.of_nat (200 + n), 9%N)) (λ n, N.of_nat (500 + n))
    (λ m, (map_to_list m).*2) 7 7 0 9 [] (λ _ _ w, (w, None)) (λ w, (w, false)) (λ _, None) None
    orch_runtime sample_orchestrator 7 limited_config 4 Hlimit Hmax searching_provider false
    [user_message "look"] limited_world Hw).
Defined.
End sample.
