(* ===== verification/ExtensionId.v ===== *)
(** * Extension ids and install paths

    [crates/impetus-core/src/extension_id.rs]: the ids an extension may have
    and the paths it may be installed to.  An id is one path component, and the
    install path stays under the directory of its type. *)

From S2P Require Import Prelude Str Utf8 Action PathScope WorkspaceFiles.

Open Scope string_scope.
Open Scope nat_scope.
Open Scope list_scope.
Open Scope impetus_scope.

Inductive ExtensionTypeDir := Skills | Mcp.

Definition type_dir_as_str (t : ExtensionTypeDir) : string :=
  match t with Skills => "skills" | Mcp => "mcp" end.

Inductive ExtensionIdError :=
  | IdEmpty
  | IdInvalidFormat (id : string)
  | PathEscape (path : string).

Definition is_ascii_lowercase (a : ascii) : bool := in_range 97 122 a.
Definition is_ascii_digit (a : ascii) : bool := in_range 48 57 a.

Definition id_first (a : ascii) : bool := is_ascii_lowercase a || is_ascii_digit a.
Definition id_rest (a : ascii) : bool := id_first a || Ascii.eqb a "_" || Ascii.eqb a "-".

Definition is_valid_extension_id (id : string) : bool :=
  match id with
  | "" => false
  | String first rest =>
      if 64 <? String.length id then false
      else if negb (id_first first) then false
      else forallb id_rest (String.list_ascii_of_string rest)
  end.

(** [replace(' ', "-")] *)
Fixpoint dash_spaces (s : string) : string :=
  match s with
  | "" => ""
  | String a s' => String (if Ascii.eqb a " " then "-"%char else a) (dash_spaces s')
  end.

(** The tails that [ensure_owned_extension_path] accepts. *)
Definition owned_tails (t : ExtensionTypeDir) (id : string) : list string :=
  match t with
  | Skills => [path_join (path_join (path_join ".impetus" "skills") id) "SKILL.md";
               path_join (path_join (path_join "extensions" "legacy_skills") id) "SKILL.md"]
  | Mcp => [path_join (path_join ".impetus" "mcp") (id ++ ".json")%string;
            path_join "mcp" (id ++ ".json")%string]
  end.

(** [Path::ends_with] *)
Definition path_ends_with (p tail : string) : bool :=
  bool_decide (components tail `suffix_of` components p).

Definition is_parent_dir (c : Component) : bool :=
  match c with ParentDir => true | _ => false end.

Definition normal_component (c : Component) : bool :=
  match c with Normal _ => true | _ => false end.

Definition reject_unsafe_relative (relative : string) : result ExtensionIdError () :=
  if is_empty relative then Err (PathEscape relative)
  else if forallb normal_component (components relative) then Ok tt
  else Err (PathEscape relative).

(** [{target_root}/.impetus/{skills|mcp}] *)
Definition extension_type_root (target_root : string) (t : ExtensionTypeDir) : string :=
  path_join (path_join target_root ".impetus") (type_dir_as_str t).

Section ids.
(** Unicode's lower case, [str::to_lowercase]. *)
Context (to_lowercase : string → string).

Definition normalize_extension_id (raw : string) : result ExtensionIdError string :=
  let normalized := dash_spaces (to_lowercase (trim raw)) in
  if is_empty normalized then Err IdEmpty
  else if negb (is_valid_extension_id normalized) then Err (IdInvalidFormat normalized)
  else Ok normalized.

Definition ensure_owned_extension_path (path : string) (t : ExtensionTypeDir) (module_id : string)
    : result ExtensionIdError () :=
  id ← normalize_extension_id module_id;
  if existsb is_parent_dir (components path) then Err (PathEscape path)
  else if existsb (path_ends_with path) (owned_tails t id) then Ok tt
  else Err (PathEscape path).

Section paths.
Context {F : Type} `{!WorkFiles F}.

Definition join_under_extension_root (type_root relative : string) (f : F)
    : result ExtensionIdError string :=
  _ ← reject_unsafe_relative relative;
  let candidate := path_join type_root relative in
  match wf_canonicalize f type_root with
  | Err _ => Ok candidate
  | Ok root =>
      match wf_canonicalize f candidate with
      | Ok resolved =>
          if negb (path_starts_with resolved root) then Err (PathEscape relative) else Ok resolved
      | Err _ =>
          match parent candidate, file_name candidate with
          | Some dir, Some name =>
              match wf_canonicalize f dir with
              | Ok parent_canon =>
                  if negb (path_starts_with parent_canon root) then Err (PathEscape relative)
                  else Ok (path_join parent_canon name)
              | Err _ => Ok (path_join root relative)
              end
          | _, _ => Ok (path_join root relative)
          end
      end
  end.

Definition skill_install_path (target_root skill_id : string) (f : F)
    : result ExtensionIdError string :=
  id ← normalize_extension_id skill_id;
  join_under_extension_root (extension_type_root target_root Skills) (path_join id "SKILL.md") f.

Definition mcp_install_path (target_root module_id : string) (f : F)
    : result ExtensionIdError string :=
  id ← normalize_extension_id module_id;
  join_under_extension_root (extension_type_root target_root Mcp) (id ++ ".json")%string f.

(** [extension_inventory.rs], the daemon's own layout. *)
Definition daemon_legacy_skill_path (data_root skill_id : string) (f : F)
    : result ExtensionIdError string :=
  id ← normalize_extension_id skill_id;
  join_under_extension_root (path_join data_root "extensions/legacy_skills")
    (path_join id "SKILL.md") f.
End paths.
End ids.

(** ** Containment *)

(** Joining a relative path of names. *)
Lemma components_join_names p rel :
  is_absolute p = true → is_absolute rel = false →
  forallb normal_component (components rel) = true → rel ≠ "" →
  components (path_join p rel) = components p ++ components rel.
Proof.
  intros Hp Hrel Hn Hne.
  assert (components rel = omap piece_component (split_on "/" rel)) as Hc.
  { unfold components in *. destruct (split_on "/" rel) as [|p0 ps]; [done|].
    rewrite Hrel in *. unfold first_component in *. cbn [omap list_omap].
    destruct (String.eqb_spec p0 ".") as [->|_]; [done|]. by destruct (piece_component p0). }
  unfold path_join. rewrite Hrel. destruct (String.eqb_spec p "") as [->|_]; [done|].
  destruct (ends_with p "/") eqn:He.
  2: { change ("/" ++ rel)%string with (String "/" rel). by rewrite components_append, Hc by done. }
  destruct (ends_with_slash _ He) as [q ->]. rewrite str_app_assoc. cbn [String.append].
  destruct q as [|b q].
  - change (components ("" ++ String "/" rel)) with (components (String "/" rel)).
    unfold components at 1. rewrite (proj2 (is_absolute_cons _ _)) by done.
    cbn [split_on]. rewrite Ascii.eqb_refl. cbn. by rewrite Hc.
  - assert (is_absolute (String b q) = true) as Hq.
    { cbn [String.append] in Hp. apply is_absolute_cons in Hp as ->. by apply is_absolute_cons. }
    by rewrite !components_append, Hc, app_nil_r by done.
Qed.

Section containment.
Context {F : Type} `{!WorkFiles F} `{!WorkFilesLaws F}.

Lemma reject_unsafe_ok relative :
  reject_unsafe_relative relative = Ok tt →
  relative ≠ "" ∧ is_absolute relative = false ∧
  forallb normal_component (components relative) = true.
Proof.
  unfold reject_unsafe_relative. destruct (is_empty relative) eqn:He; [done|].
  destruct (forallb _ _) eqn:Hf; [|done]. intros _. split; [by apply String.eqb_neq|].
  split; [|done]. destruct (is_absolute relative) eqn:Ha; [|done].
  unfold components in Hf. rewrite Ha in Hf. destruct (split_on_absolute _ Ha) as (ps & Hs & _).
  by rewrite Hs in Hf.
Qed.

(** The joined path is under the canonical type root, or under the type root
    itself while that does not exist. *)
Lemma join_under_inside type_root relative f p :
  is_absolute type_root = true → join_under_extension_root type_root relative f = Ok p →
  match wf_canonicalize f type_root with
  | Ok root => path_starts_with p root = true
  | Err _ => path_starts_with p type_root = true
  end.
Proof.
  intros Habs. unfold join_under_extension_root.
  destruct (reject_unsafe_relative relative) as [[]|] eqn:Hrej; [|done]. cbn.
  destruct (reject_unsafe_ok _ Hrej) as (Hne & Hrel & Hn).
  assert (∀ r, is_absolute r = true → path_starts_with (path_join r relative) r = true) as Hlex.
  { intros r Hr. unfold path_starts_with. apply bool_decide_eq_true.
    rewrite components_join_names by done. by apply prefix_app_r. }
  destruct (wf_canonicalize f type_root) as [root|] eqn:Hroot; [|intros [= <-]; by apply Hlex].
  destruct (wf_canonicalize_clean _ _ _ Hroot) as [names Hclean].
  pose proof (Hlex root (clean_absolute _ _ Hclean)) as Hjoin.
  destruct (wf_canonicalize f (path_join type_root relative)) as [r|].
  { destruct (path_starts_with r root) eqn:Hin; [|done]. by intros [= <-]. }
  destruct (parent (path_join type_root relative)) as [dir|]; [|by intros [= <-]].
  destruct (file_name (path_join type_root relative)) as [name|] eqn:Hname; [|by intros [= <-]].
  destruct (wf_canonicalize f dir) as [pc|] eqn:Hpc; [|by intros [= <-]].
  destruct (path_starts_with pc root) eqn:Hin; [|done]. intros [= <-].
  destruct (wf_canonicalize_clean _ _ _ Hpc) as [ns Hns].
  unfold path_starts_with in *. apply bool_decide_eq_true in Hin. apply bool_decide_eq_true.
  rewrite components_join; [|by eapply clean_absolute|by eapply file_name_plain].
  by apply prefix_app_r.
Qed.
End containment.

(** ** Ids *)

(** What a valid id is, as the documented pattern [[a-z0-9][a-z0-9_-]{0,63}]. *)
Definition id_pattern (id : string) : Prop :=
  ∃ first rest, id = String first rest ∧ String.length rest ≤ 63 ∧ id_first first = true ∧
    ∀ a, a ∈ String.list_ascii_of_string rest → id_rest a = true.

Lemma is_valid_iff id : is_valid_extension_id id = true ↔ id_pattern id.
Proof.
  unfold id_pattern. destruct id as [|a s]; cbn [is_valid_extension_id].
  { split; [done|]. by intros (? & ? & ? & _). }
  destruct (Nat.ltb_spec 64 (String.length (String a s))) as [Hl|Hl]; cbn in Hl.
  { split; [done|]. intros (? & ? & [= <- <-] & ? & _). lia. }
  destruct (id_first a) eqn:Ha; cbn.
  - rewrite forallb_bool. split.
    + intros Hall. exists a, s. split_and!; [done|lia|done|done].
    + by intros (? & ? & [= <- <-] & _ & _ & ?).
  - split; [done|]. intros (? & ? & [= <- <-] & _ & ? & _). congruence.
Qed.

Lemma id_rest_not_slash a : id_rest a = true → a ≠ "/"%char.
Proof. intros Ha ->. by vm_compute in Ha. Qed.

Lemma split_on_no_slash s :
  (∀ a, a ∈ String.list_ascii_of_string s → a ≠ "/"%char) → split_on "/" s = [s].
Proof.
  induction s as [|a s IH]; intros Hs; [done|]. cbn [split_on].
  rewrite (proj2 (Ascii.eqb_neq _ _)) by (apply Hs; by left).
  rewrite IH; [done|]. intros b Hb. apply Hs. by right.
Qed.

(** A valid id is a single path component, never ["."] or [".."]. *)
Lemma valid_id_plain id : is_valid_extension_id id = true → plain_piece id.
Proof.
  intros (a & s & -> & _ & Ha & Hs)%is_valid_iff. split.
  - apply split_on_no_slash. cbn. intros b [->|Hb]%elem_of_cons.
    + apply id_rest_not_slash. unfold id_rest. by rewrite Ha.
    + by apply id_rest_not_slash, Hs.
  - assert (a ≠ "."%char) by (intros ->; by vm_compute in Ha). unfold piece_component.
    destruct (String.eqb_spec (String a s) ""); [done|].
    destruct (String.eqb_spec (String a s) "."); [congruence|].
    destruct (String.eqb_spec (String a s) ".."); congruence.
Qed.

Lemma path_join_absolute p q : is_absolute p = true → is_absolute (path_join p q) = true.
Proof.
  intros Hp. unfold path_join. destruct (is_absolute q) eqn:Hq; [done|].
  destruct (String.eqb_spec p ""); [by subst|]. destruct (ends_with p "/"); by apply is_absolute_app.
Qed.

Section install.
Context {F : Type} `{!WorkFiles F} `{!WorkFilesLaws F} (lower : string → string).

Lemma type_root_absolute root t :
  is_absolute root = true → is_absolute (extension_type_root root t) = true.
Proof. intros. unfold extension_type_root. by do 2 apply path_join_absolute. Qed.

Lemma normalize_ok raw id :
  normalize_extension_id lower raw = Ok id → is_valid_extension_id id = true.
Proof.
  unfold normalize_extension_id. destruct (is_empty _); [done|].
  destruct (is_valid_extension_id _) eqn:Hv; [|done]. by intros [= <-].
Qed.

(** Whatever text an extension gives as its id, the path it is installed to is
    under the directory of its type, canonically when that directory exists, and
    the id in it follows the documented pattern, so it is one path component. *)
Theorem install_paths_contained root raw f t p :
  is_absolute root = true →
  (match t with
   | Skills => skill_install_path lower root raw f
   | Mcp => mcp_install_path lower root raw f
   end) = Ok p →
  (∃ id, normalize_extension_id lower raw = Ok id ∧ id_pattern id ∧ plain_piece id) ∧
  match wf_canonicalize f (extension_type_root root t) with
  | Ok type_root => path_starts_with p type_root = true
  | Err _ => path_starts_with p (extension_type_root root t) = true
  end.
Proof.
  intros Habs Hp.
  assert (∃ id rel, normalize_extension_id lower raw = Ok id ∧
    join_under_extension_root (extension_type_root root t) rel f = Ok p) as (id & rel & Hid & Hjoin).
  { destruct t; unfold skill_install_path, mcp_install_path in Hp;
      destruct (normalize_extension_id lower raw) as [id|]; try done; by eexists _, _. }
  pose proof (normalize_ok _ _ Hid) as Hv. split.
  - exists id. split; [done|]. split; [by apply is_valid_iff|by apply valid_id_plain].
  - eapply join_under_inside; [by apply type_root_absolute|exact Hjoin].
Qed.
End install.

Lemma install_paths_contained_witness :
  skill_install_path to_ascii_lowercase "/ws" " My Skill " sample_files =
    Ok "/ws/.impetus/skills/my-skill/SKILL.md" ∧
  (∃ id, normalize_extension_id to_ascii_lowercase " My Skill " = Ok id ∧ id_pattern id ∧
         plain_piece id) ∧
  path_starts_with "/ws/.impetus/skills/my-skill/SKILL.md" "/ws/.impetus/skills" = true.
Proof.
  split; [vm_compute; reflexivity|].
  exact (install_paths_contained to_ascii_lowercase "/ws" " My Skill " sample_files Skills
    "/ws/.impetus/skills/my-skill/SKILL.md" ltac:(vm_compute; reflexivity)
    ltac:(vm_compute; reflexivity)).
Defined.
