(* ===== verification/Ownership.v ===== *)
(** * Ownership records

    [crates/impetus-core/src/ownership.rs]: which files on disk the runtime
    installed, with the digest of what it wrote.  A file is overwritten or
    removed only when its record proves it is still what was installed.  The
    SQLite table is the map of its primary key, the path. *)

From S2P Require Import Prelude Str Action PathScope WorkspaceFiles.

Open Scope string_scope.
Open Scope nat_scope.
Open Scope list_scope.
Open Scope impetus_scope.

Record OwnershipRecord := mkOwnershipRecord {
  own_path : string;
  own_owner : string;
  own_source : string;
  own_digest : string;
  own_version : string;
  own_installation_id : string;
}.

Inductive OwnershipError :=
  | OwnIo (e : IoError)
  | UnownedDestination (path : string)
  | OwnAlreadyExists (path : string)
  | NotOwned (path : string)
  | OwnerMismatch (path : string)
  | OwnDigestMismatch (path : string).

Abbreviation OwnershipTable := (gmap string OwnershipRecord).

Definition with_digest (digest : string) (r : OwnershipRecord) : OwnershipRecord :=
  mkOwnershipRecord (own_path r) (own_owner r) (own_source r) digest (own_version r)
    (own_installation_id r).

Definition rebind (installation_id source version : string) (r : OwnershipRecord)
    : OwnershipRecord :=
  mkOwnershipRecord (own_path r) (own_owner r) source (own_digest r) version installation_id.

(** [ORDER BY path] *)
Definition by_path : relation OwnershipRecord := λ a b, String.le (own_path a) (own_path b).

#[export] Instance by_path_dec : RelDecision by_path.
Proof. intros a b. unfold by_path. apply _. Defined.

Definition list_by_installation_id (id : string) (t : OwnershipTable) : list OwnershipRecord :=
  merge_sort by_path
    (List.filter (λ r, String.eqb (own_installation_id r) id) (snd <$> map_to_list t)).

Section ownership.
Context `{Codec} {F : Type} `{!WorkFiles F} `{!FileChanges F}.
(** [std::env::current_dir()] *)
Context (current_dir : result IoError string).

Definition content_digest (bytes : string) : string := ("sha256:" ++ hex (sha256 bytes))%string.

#[global] Arguments content_digest _ : simpl never.

Record OwnWorld := mkOwnWorld {
  ow_records : OwnershipTable;
  ow_files : F;
}.

Abbreviation ownR := (stateR OwnWorld OwnershipError).

Definition own_records (t : OwnershipTable) : ownR () := λ w, (mkOwnWorld t (ow_files w), Ok tt).

Definition own_io {A} (m : stateR F IoError A) : ownR A := λ w,
  let '(f, r) := m (ow_files w) in (mkOwnWorld (ow_records w) f, map_err OwnIo r).

Definition path_key (path : string) (f : F) : result OwnershipError string :=
  absolute ← (if is_absolute path then Ok path
              else map_err OwnIo (cwd ← current_dir; Ok (path_join cwd path)));
  match wf_canonicalize f absolute with
  | Ok canonical => Ok canonical
  | Err _ =>
      match parent absolute, file_name absolute with
      | Some dir, Some name =>
          let parent_key := match wf_canonicalize f dir with Ok c => c | Err _ => dir end in
          Ok (path_join parent_key name)
      | _, _ => Ok absolute
      end
  end.

Definition own_create (record : OwnershipRecord) : ownR () :=
  w <-- StateR.get ;;
  match ow_records w !! own_path record with
  | Some _ => StateR.fail (OwnAlreadyExists (own_path record))
  | None =>
      if wf_exists (ow_files w) (own_path record)
      then StateR.fail (UnownedDestination (own_path record))
      else own_records (<[own_path record := record]> (ow_records w))
  end.

Definition get_by_path (path : string) (t : OwnershipTable) : option OwnershipRecord := t !! path.

Definition ensure_can_overwrite (destination : string) : ownR () :=
  w <-- StateR.get ;;
  if negb (wf_exists (ow_files w) destination) then StateR.ret tt
  else
    key <-- StateR.lift (path_key destination (ow_files w)) ;;
    match get_by_path key (ow_records w) with
    | Some _ => StateR.ret tt
    | None => StateR.fail (UnownedDestination key)
    end.

Definition delete_record (key : string) : ownR () :=
  w <-- StateR.get ;; own_records (delete key (ow_records w)).

Definition update_digest (key digest : string) : ownR () :=
  w <-- StateR.get ;; own_records (alter (with_digest digest) key (ow_records w)).

Definition uninstall (path expected_owner : string) : ownR () :=
  w <-- StateR.get ;;
  key <-- StateR.lift (path_key path (ow_files w)) ;;
  record <-- StateR.lift (ok_or (get_by_path key (ow_records w)) (NotOwned key)) ;;
  if negb (String.eqb (own_owner record) expected_owner) then StateR.fail (OwnerMismatch key)
  else if negb (wf_exists (ow_files w) path) then delete_record key
  else
    bytes <-- own_io (λ f, (f, wf_read f path)) ;;
    if negb (String.eqb (content_digest bytes) (own_digest record))
    then StateR.fail (OwnDigestMismatch key)
    else
      own_io (wf_remove_file path) ;;;
      delete_record key.

Definition own_repair (path new_content : string) (force : bool) : ownR OwnershipRecord :=
  w <-- StateR.get ;;
  key <-- StateR.lift (path_key path (ow_files w)) ;;
  record <-- StateR.lift (ok_or (get_by_path key (ow_records w)) (NotOwned key)) ;;
  (if wf_exists (ow_files w) path then
     bytes <-- own_io (λ f, (f, wf_read f path)) ;;
     if negb (String.eqb (content_digest bytes) (own_digest record)) && negb force
     then StateR.fail (OwnDigestMismatch key)
     else StateR.ret tt
   else StateR.ret tt) ;;;
  own_io (wf_write path new_content) ;;;
  let new_digest := content_digest new_content in
  update_digest key new_digest ;;;
  StateR.ret (with_digest new_digest record).

Definition rebind_installation (path installation_id source version : string) : ownR () :=
  w <-- StateR.get ;;
  match ow_records w !! path with
  | Some _ => own_records (alter (rebind installation_id source version) path (ow_records w))
  | None => StateR.fail (NotOwned path)
  end.

(** ** What an operation may do to files and records *)

(** The file at [path] is the one its record describes. *)
Definition proved (w : OwnWorld) (path : string) (r : OwnershipRecord) : Prop :=
  ∃ key bytes, path_key path (ow_files w) = Ok key ∧ ow_records w !! key = Some r ∧
    wf_read (ow_files w) path = Ok bytes ∧ content_digest bytes = own_digest r.

(** One change of files or records, under its proof of ownership.  [force] is the
    caller's explicit approval. *)
Inductive own_step (force : bool) : relation OwnWorld :=
  | step_mkdir w f r p :
      wf_create_dir_all p (ow_files w) = (f, r) →
      own_step force w (mkOwnWorld (ow_records w) f)
  | step_register w r :
      ow_records w !! own_path r = None → wf_exists (ow_files w) (own_path r) = false →
      own_step force w (mkOwnWorld (<[own_path r := r]> (ow_records w)) (ow_files w))
  | step_write w f r p b rec key :
      path_key p (ow_files w) = Ok key → ow_records w !! key = Some rec →
      (wf_exists (ow_files w) p = true → force = true ∨ proved w p rec) →
      wf_write p b (ow_files w) = (f, r) →
      own_step force w (mkOwnWorld (ow_records w) f)
  | step_remove w f r p rec :
      proved w p rec → wf_remove_file p (ow_files w) = (f, r) →
      own_step force w (mkOwnWorld (ow_records w) f)
  | step_record w t :
      dom t ⊆ dom (ow_records w) →
      own_step force w (mkOwnWorld t (ow_files w)).
End ownership.
Arguments OwnWorld F : clear implicits.

(** A path that exists has a canonical form, which exists. *)
Class FileChangesLaws (F : Type) `{!WorkFiles F} `{!FileChanges F} := {
  wf_exists_canonical f p :
    wf_exists f p = true → ∃ q, wf_canonicalize f p = Ok q ∧ wf_exists f q = true;
}.

Section steps.
Context `{Codec} {F : Type} `{!WorkFiles F} `{!FileChanges F} (current_dir : result IoError string).

Abbreviation ostep := (own_step current_dir).

Lemma own_world_eta (w : OwnWorld F) : mkOwnWorld (ow_records w) (ow_files w) = w.
Proof. by destruct w. Qed.

Lemma path_key_missing `{!FileChangesLaws F} f p key :
  is_absolute p = true → path_key current_dir p f = Ok key → wf_exists f key = false →
  wf_exists f p = false.
Proof.
  intros Habs Hk Hne. destruct (wf_exists f p) eqn:He; [|done].
  destruct (wf_exists_canonical _ _ He) as (q & Hq & Hqe).
  unfold path_key in Hk. rewrite Habs in Hk. cbn in Hk. rewrite Hq in Hk. congruence.
Qed.

Lemma own_create_ok r (w w' : OwnWorld F) u :
  own_create r w = (w', Ok u) →
  w' = mkOwnWorld (<[own_path r := r]> (ow_records w)) (ow_files w) ∧
  ow_records w !! own_path r = None ∧ wf_exists (ow_files w) (own_path r) = false.
Proof.
  unfold own_create, StateR.bind, StateR.get. destruct (ow_records w !! own_path r); [done|].
  destruct (wf_exists _ _); [done|]. by intros [= <- _].
Qed.

Lemma own_create_steps force r (w w' : OwnWorld F) x :
  own_create r w = (w', x) → rtc (ostep force) w w'.
Proof.
  destruct x as [u|e]; intros Hc.
  - destruct (own_create_ok _ _ _ _ Hc) as (-> & Hn & He). apply rtc_once. by apply step_register.
  - revert Hc. unfold own_create, StateR.bind, StateR.get.
    destruct (ow_records w !! own_path r); [intros [= <- _]; apply rtc_refl|].
    destruct (wf_exists _ _); [intros [= <- _]; apply rtc_refl|done].
Qed.

Lemma ensure_can_overwrite_same p (w w' : OwnWorld F) x :
  ensure_can_overwrite current_dir p w = (w', x) → w' = w.
Proof.
  unfold ensure_can_overwrite, StateR.bind, StateR.get, StateR.lift.
  destruct (negb _); [by intros [= <- _]|].
  destruct (path_key current_dir p (ow_files w)) as [key|]; [|by intros [= <- _]].
  destruct (get_by_path key (ow_records w)); by intros [= <- _].
Qed.

Lemma own_records_step force t (w w' : OwnWorld F) x :
  dom t ⊆ dom (ow_records w) → own_records t w = (w', x) → rtc (ostep force) w w'.
Proof. intros Ht [= <- _]. apply rtc_once. by apply step_record. Qed.

Lemma rebind_steps force p id source version (w w' : OwnWorld F) x :
  rebind_installation p id source version w = (w', x) → rtc (ostep force) w w'.
Proof.
  unfold rebind_installation, StateR.bind, StateR.get.
  destruct (ow_records w !! p); [|intros [= <- _]; apply rtc_refl].
  apply own_records_step. by rewrite dom_alter_L.
Qed.

Lemma delete_record_steps force key (w w' : OwnWorld F) x :
  delete_record key w = (w', x) → rtc (ostep force) w w'.
Proof.
  unfold delete_record, StateR.bind, StateR.get. apply own_records_step. set_solver.
Qed.

Lemma update_digest_steps force key d (w w' : OwnWorld F) x :
  update_digest key d w = (w', x) → rtc (ostep force) w w'.
Proof.
  unfold update_digest, StateR.bind, StateR.get. apply own_records_step. by rewrite dom_alter_L.
Qed.

(** What [uninstall] does, branch by branch. *)
Lemma uninstall_cases p owner (w w' : OwnWorld F) x :
  uninstall current_dir p owner w = (w', x) →
  (w' = w ∧ is_ok x = false) ∨
  ∃ key rec, path_key current_dir p (ow_files w) = Ok key ∧ ow_records w !! key = Some rec ∧
    own_owner rec = owner ∧
    ((wf_exists (ow_files w) p = false ∧ w' = mkOwnWorld (delete key (ow_records w)) (ow_files w) ∧
      x = Ok tt) ∨
     (∃ r f, wf_exists (ow_files w) p = true ∧ proved current_dir w p rec ∧
        wf_remove_file p (ow_files w) = (f, r) ∧
        w' = mkOwnWorld (if is_ok r then delete key (ow_records w) else ow_records w) f ∧
        x = map_err OwnIo r)).
Proof.
  unfold uninstall, StateR.bind, StateR.get, StateR.lift.
  destruct (path_key current_dir p (ow_files w)) as [key|] eqn:Hk; [|intros [= <- <-]; by left].
  unfold get_by_path. destruct (ow_records w !! key) as [rec|] eqn:Hr; [|intros [= <- <-]; by left].
  cbn. destruct (String.eqb_spec (own_owner rec) owner) as [Ho|_]; [|intros [= <- <-]; by left].
  cbn. destruct (wf_exists (ow_files w) p) eqn:He; cbn.
  2: { intros [= <- <-]. right. exists key, rec. split_and!; [done..|]. by left. }
  unfold own_io. destruct (wf_read (ow_files w) p) as [bytes|] eqn:Hb; cbn;
    rewrite own_world_eta; [|intros [= <- <-]; by left].
  destruct (String.eqb_spec (content_digest bytes) (own_digest rec)) as [Hd|_]; cbn;
    [|intros [= <- <-]; by left].
  destruct (wf_remove_file p (ow_files w)) as [f r] eqn:Hrm. intros Hrun. right.
  exists key, rec. split_and!; [done..|]. right. exists r, f.
  assert (proved current_dir w p rec) by by exists key, bytes.
  destruct r as [[]|err]; cbn in Hrun; injection Hrun as <- <-; by split_and!.
Qed.

Lemma uninstall_steps force p owner (w w' : OwnWorld F) x :
  uninstall current_dir p owner w = (w', x) → rtc (ostep force) w w'.
Proof.
  intros Hrun. destruct (uninstall_cases _ _ _ _ _ Hrun)
    as [[-> _]|(key & rec & Hk & Hr & _ & [(_ & -> & _)|(r & f & _ & Hp & Hrm & -> & _)])].
  - apply rtc_refl.
  - apply rtc_once, step_record. set_solver.
  - apply (rtc_l _ _ (mkOwnWorld (ow_records w) f)); [by eapply step_remove|].
    destruct (is_ok r); [|apply rtc_refl]. apply rtc_once.
    apply (step_record _ _ (mkOwnWorld (ow_records w) f)). set_solver.
Qed.

(** [repair] writes where the file is missing, proved or forced. *)
Lemma own_repair_steps force p b (w w' : OwnWorld F) x :
  own_repair current_dir p b force w = (w', x) → rtc (ostep force) w w'.
Proof.
  unfold own_repair, StateR.bind, StateR.get, StateR.lift.
  destruct (path_key current_dir p (ow_files w)) as [key|] eqn:Hk; [|intros [= <- _]; apply rtc_refl].
  unfold get_by_path. destruct (ow_records w !! key) as [rec|] eqn:Hr; [|intros [= <- _]; apply rtc_refl].
  cbn [ok_or].
  set (guard := if wf_exists (ow_files w) p then _ else _).
  assert (∃ g, guard w = (w, g) ∧ (is_ok g = true → wf_exists (ow_files w) p = true →
    force = true ∨ proved current_dir w p rec)) as (g & Hg & Hok).
  { unfold guard. destruct (wf_exists (ow_files w) p); [|by eexists].
    unfold own_io. destruct (wf_read (ow_files w) p) as [bytes|] eqn:Hb; cbn;
      rewrite own_world_eta; [|by eexists].
    destruct (String.eqb_spec (content_digest bytes) (own_digest rec)) as [Hd|_]; cbn.
    - eexists. split; [done|]. intros _ _. right. by exists key, bytes.
    - destruct force; cbn; eexists; (split; [done|]); auto. }
  rewrite Hg. destruct g as [[]|]; [|intros [= <- _]; apply rtc_refl].
  unfold own_io. destruct (wf_write p b (ow_files w)) as [f r] eqn:Hw.
  assert (ostep force w (mkOwnWorld (ow_records w) f)) as Hstep
    by (eapply step_write; [exact Hk|exact Hr|by apply Hok|exact Hw]).
  destruct r as [[]|err]; [|intros [= <- _]; by apply rtc_once]. cbn [map_err].
  intros Hrun. eapply rtc_l; [exact Hstep|].
  destruct (update_digest key (content_digest b) (mkOwnWorld (ow_records w) f)) as [w2 [[]|e]] eqn:Hu;
    injection Hrun as <- _; by eapply update_digest_steps.
Qed.
End steps.
