(* ===== verification/Worktrees.v ===== *)
(** * Managed git worktrees

    [crates/impetus-core/src/worktree_manager.rs]: the bindings of sessions to
    git worktrees, their life cycle, the merge of a worktree's branch and the
    permissions of a build agent.  The git command line is the class [GitCli]
    over the state of the file system; fresh ids and the clock are arguments. *)

From S2P Require Import Prelude Triple Str Utf8 Action PathScope Events WorkspaceFiles Ownership.

Open Scope string_scope.
Open Scope nat_scope.
Open Scope list_scope.
Open Scope impetus_scope.

(** ** External operations *)

(** [std::process::Output] of a git command, its texts decoded. *)
Record GitOutput := mkGitOutput {
  git_code : option N;
  git_stdout : string;
  git_stderr : string;
}.

Class GitCli (F : Type) := {
  git_output : string → list string → stateR F IoError GitOutput;
}.

(** ** Data *)

Inductive WorktreeLifecycleState := WtActive | WtStopped | WtStale | WtClosed.

#[export] Instance WorktreeLifecycleState_eq_dec : EqDecision WorktreeLifecycleState.
Proof. solve_decision. Defined.

Definition wt_state_as_str (s : WorktreeLifecycleState) : string :=
  match s with
  | WtActive => "active" | WtStopped => "stopped" | WtStale => "stale" | WtClosed => "closed"
  end.

Inductive AgentWorkRole := WorkExplore | WorkResearch | WorkBuild | WorkReview.

Definition prefers_isolated_worktree (r : AgentWorkRole) : bool :=
  match r with WorkBuild => true | _ => false end.

Record WorktreeAttachedPermissions := mkPermissions {
  perm_role : AgentWorkRole;
  perm_workspace_root : string;
  perm_write_roots : list string;
  perm_allow_network : bool;
  perm_allow_web_outbound : bool;
  perm_allow_private_network : bool;
}.

Record WorktreeBinding := mkBinding {
  wb_worktree_id : string;
  wb_session_id : Uuid;
  wb_path : string;
  wb_branch : string;
  wb_repo_root : string;
  wb_state : WorktreeLifecycleState;
  wb_permissions : option WorktreeAttachedPermissions;
}.

Record WorktreeInfo := mkWorktreeInfo {
  wi_worktree_id : string;
  wi_session_id : Uuid;
  wi_path : string;
  wi_branch : string;
  wi_repo_root : string;
  wi_state : WorktreeLifecycleState;
  wi_role : option string;
}.

Definition to_info (b : WorktreeBinding) : WorktreeInfo :=
  mkWorktreeInfo (wb_worktree_id b) (wb_session_id b) (wb_path b) (wb_branch b) (wb_repo_root b)
    (wb_state b) ((λ _, "build") <$> wb_permissions b).

Inductive StaleReason := StalePathMissing | StaleNotRegistered.

Record StaleReport := mkStaleReport {
  stale_binding : WorktreeBinding;
  stale_reason : StaleReason;
  stale_recoverable : bool;
}.

Inductive WorktreeError :=
  | WtSqlite
  | WtIo (e : IoError)
  | WtGit (detail : string)
  | AlreadyBound (session_id : Uuid)
  | WtNotFound (session_id : Uuid)
  | NotFoundId (id : string)
  | InvalidTransition (from : WorktreeLifecycleState) (op : string)
  | WtPathMissing (path : string)
  | RecoverableNeedsSalvage (id : string)
  | NotRecoverable (id : string)
  | CorruptState (what : string)
  | MissingPermissions
  | OutsidePermissions (path : string)
  | RoleDoesNotPreferIsolated (r : AgentWorkRole)
  | NotMergeReady (reason : string)
  | MergeConflict (base_ref detail : string)
  | Dirty
  | ConflictInProgress
  | UnknownBranch (name : string)
  | InvalidBranchName (name : string)
  | BranchExists (name : string).

Record WorktreeDiffSummary := mkDiffSummary {
  ds_base_ref : string;
  ds_branch : string;
  ds_files_changed : N;
  ds_insertions : N;
  ds_deletions : N;
}.

Record MergeReadyReport := mkMergeReadyReport {
  mr_merge_ready : bool;
  mr_has_conflicts : bool;
  mr_dirty : bool;
  mr_diff : WorktreeDiffSummary;
}.

Definition parse_worktree_lifecycle_state (raw : string)
    : result WorktreeError WorktreeLifecycleState :=
  if String.eqb raw "active" then Ok WtActive
  else if String.eqb raw "stopped" then Ok WtStopped
  else if String.eqb raw "stale" then Ok WtStale
  else if String.eqb raw "closed" then Ok WtClosed
  else Err (CorruptState raw).

(** ** Attached permissions *)

Definition for_build (worktree_path : string) : WorktreeAttachedPermissions :=
  mkPermissions WorkBuild worktree_path [worktree_path] false false false.

Definition to_sandbox_scope (p : WorktreeAttachedPermissions) : SandboxScope :=
  mkSandboxScope (perm_workspace_root p) (perm_allow_network p) [] (perm_allow_web_outbound p)
    (perm_allow_private_network p).

Section permissions.
Context `{FileSystem}.

Definition admits_write (candidate : string) (p : WorktreeAttachedPermissions) : bool :=
  existsb (λ root, contains_write_target (local_workspace root) candidate) (perm_write_roots p).

Definition admits_read (candidate : string) (p : WorktreeAttachedPermissions) : bool :=
  scope_contains (to_sandbox_scope p) candidate.

Definition enforce_write (b : WorktreeBinding) (path : string) : result WorktreeError () :=
  perms ← ok_or (wb_permissions b) MissingPermissions;
  if admits_write path perms then Ok tt else Err (OutsidePermissions path).
End permissions.

Definition attached_sandbox_scope (b : WorktreeBinding) : result WorktreeError SandboxScope :=
  ok_or (to_sandbox_scope <$> wb_permissions b) MissingPermissions.

(** ** Rows *)

(** serde_json's text of attached permissions. *)
Class PermissionsJson := {
  permissions_json : WorktreeAttachedPermissions → string;
  permissions_of_json : string → option WorktreeAttachedPermissions;
}.

Class PermissionsJsonLaws `{PermissionsJson} := {
  permissions_json_roundtrip p :
    permissions_json p ≠ "" ∧ permissions_of_json (permissions_json p) = Some p;
}.

(** A row of [worktree_bindings]. *)
Record WorktreeRow := mkWorktreeRow {
  wr_worktree_id : string;
  wr_session_id : string;
  wr_path : string;
  wr_branch : string;
  wr_repo_root : string;
  wr_state : string;
  wr_created_unix_ms : N;
  wr_updated_unix_ms : N;
  wr_permissions_json : option string;
}.

Definition tab : ascii := ascii_of_N 9.

(** The sums of [diff_summary_for] over one line of [git diff --numstat]; the
    additions wrap, as release builds do. *)
Definition numstat_line (acc : N * N * N) (line : string) : N * N * N :=
  let '(files, ins, del) := acc in
  match split_on tab (trim line) with
  | i :: d :: _ :: _ =>
      (wrapping_add u64_max files 1,
       if String.eqb i "-" then ins else wrapping_add u64_max ins (default 0%N (parse_u64 i)),
       if String.eqb d "-" then del else wrapping_add u64_max del (default 0%N (parse_u64 d)))
  | _ => acc
  end.

Definition numstat (text : string) : N * N * N := fold_left numstat_line (lines text) (0, 0, 0)%N.

Definition branch_name_ok (name : string) : bool :=
  negb (is_empty name || starts_with name "-" || contains name ".."
        || existsb (contains name)
             [" "; String tab ""; String newline ""; "~"; "^"; ":"; "?"; "*"; "["; "\"]).

Section rows.
Context `{UuidText} `{PermissionsJson}.

Definition row_of_binding (now : N) (b : WorktreeBinding) : WorktreeRow :=
  mkWorktreeRow (wb_worktree_id b) (uuid_to_string (wb_session_id b)) (wb_path b) (wb_branch b)
    (wb_repo_root b) (wt_state_as_str (wb_state b)) now now (permissions_json <$> wb_permissions b).

Definition row_to_binding (r : WorktreeRow) : result WorktreeError WorktreeBinding :=
  state ← map_err (λ _, WtSqlite) (parse_worktree_lifecycle_state (wr_state r));
  session_id ← ok_or (uuid_parse_str (wr_session_id r)) WtSqlite;
  permissions ← match wr_permissions_json r with
                | Some raw => if is_empty raw then Ok None
                              else Some <$> ok_or (permissions_of_json raw) WtSqlite
                | None => Ok None
                end;
  Ok (mkBinding (wr_worktree_id r) session_id (wr_path r) (wr_branch r) (wr_repo_root r) state
        permissions).

(** [ORDER BY updated_unix_ms DESC LIMIT 1]; of equal times, the first in the
    table. *)
Fixpoint newest (rows : list WorktreeRow) : option WorktreeRow :=
  match rows with
  | [] => None
  | r :: rows' =>
      match newest rows' with
      | Some r' => if (wr_updated_unix_ms r <? wr_updated_unix_ms r')%N then Some r' else Some r
      | None => Some r
      end
  end.

Definition of_session (session_id : Uuid) (r : WorktreeRow) : bool :=
  String.eqb (wr_session_id r) (uuid_to_string session_id).

Definition not_closed (r : WorktreeRow) : bool := negb (String.eqb (wr_state r) "closed").

Definition by_updated : relation WorktreeRow :=
  λ a b, (wr_updated_unix_ms a ≤ wr_updated_unix_ms b)%N.

#[global] Instance by_updated_dec : RelDecision by_updated.
Proof. intros a b. unfold by_updated. apply _. Defined.

Fixpoint decode_bindings (rows : list WorktreeRow) : result WorktreeError (list WorktreeBinding) :=
  match rows with
  | [] => Ok []
  | r :: rows' =>
      b ← row_to_binding r;
      rest ← decode_bindings rows';
      Ok (b :: rest)
  end.

Definition decode_row (r : option WorktreeRow) : result WorktreeError (option WorktreeBinding) :=
  match r with Some r => Some <$> row_to_binding r | None => Ok None end.

Definition with_row_state (s : WorktreeLifecycleState) (now : N) (r : WorktreeRow) : WorktreeRow :=
  mkWorktreeRow (wr_worktree_id r) (wr_session_id r) (wr_path r) (wr_branch r) (wr_repo_root r)
    (wt_state_as_str s) (wr_created_unix_ms r) now (wr_permissions_json r).

Definition with_row_branch (branch : string) (now : N) (r : WorktreeRow) : WorktreeRow :=
  mkWorktreeRow (wr_worktree_id r) (wr_session_id r) (wr_path r) branch (wr_repo_root r)
    (wr_state r) (wr_created_unix_ms r) now (wr_permissions_json r).

(** [UPDATE .. WHERE worktree_id = id] *)
Definition update_id (id : string) (f : WorktreeRow → WorktreeRow) (rows : list WorktreeRow)
    : list WorktreeRow :=
  (λ r, if String.eqb (wr_worktree_id r) id then f r else r) <$> rows.

Definition has_id (id : string) (rows : list WorktreeRow) : bool :=
  existsb (λ r, String.eqb (wr_worktree_id r) id) rows.
End rows.

(** ** The manager *)

Section manager.
Context `{UuidText} `{PermissionsJson} {F : Type} `{!WorkFiles F} `{!FileChanges F} `{!TreeChanges F}.
Context `{!GitCli F} (current_dir : result IoError string) (worktrees_root : string).

Record WtWorld := mkWtWorld {
  ww_rows : list WorktreeRow;
  ww_files : F;
}.

Abbreviation wtR := (stateR WtWorld WorktreeError).

Definition wt_io {A} (m : stateR F IoError A) : wtR A := λ w,
  let '(f, r) := m (ww_files w) in (mkWtWorld (ww_rows w) f, map_err WtIo r).

Definition wt_files : wtR F := λ w, (w, Ok (ww_files w)).

Definition set_rows (rows : list WorktreeRow) : wtR () := λ w, (mkWtWorld rows (ww_files w), Ok tt).

(** [let _ = ..] *)
Definition wt_ignore {A} (m : wtR A) : wtR () := λ w, ((m w).1, Ok tt).

Definition git_detail (o : GitOutput) : string :=
  let stderr := trim (git_stderr o) in
  if is_empty stderr then trim (git_stdout o) else stderr.

Definition git (cwd : string) (args : list string) : wtR string :=
  output <-- wt_io (git_output cwd args) ;;
  if bool_decide (git_code output = Some 0%N) then StateR.ret (git_stdout output)
  else StateR.fail (WtGit (git_detail output)).

(** *** Rows *)

Definition insert_binding (now : N) (b : WorktreeBinding) : wtR () :=
  w <-- StateR.get ;;
  if has_id (wb_worktree_id b) (ww_rows w) then StateR.fail WtSqlite
  else set_rows (ww_rows w ++ [row_of_binding now b]).

Definition get_by_session (session_id : Uuid) : wtR (option WorktreeBinding) :=
  w <-- StateR.get ;;
  StateR.lift (decode_row (newest (List.filter (of_session session_id) (ww_rows w)))).

Definition get_by_worktree_id (id : string) : wtR (option WorktreeBinding) :=
  w <-- StateR.get ;;
  StateR.lift (decode_row (List.find (λ r, String.eqb (wr_worktree_id r) id) (ww_rows w))).

Definition get_open_by_session (session_id : Uuid) : wtR (option WorktreeBinding) :=
  w <-- StateR.get ;;
  StateR.lift (decode_row
    (newest (List.filter (λ r, of_session session_id r && not_closed r) (ww_rows w)))).

Definition list_non_closed : wtR (list WorktreeBinding) :=
  w <-- StateR.get ;;
  StateR.lift (decode_bindings (merge_sort by_updated (List.filter not_closed (ww_rows w)))).

Definition list_catalog : wtR (list WorktreeBinding) := list_non_closed.

Definition require_open (session_id : Uuid) : wtR WorktreeBinding :=
  found <-- get_open_by_session session_id ;;
  StateR.lift (ok_or found (WtNotFound session_id)).

(** [get_by_worktree_id(id)?.ok_or_else(..)] *)
Definition reread (id : string) (e : WorktreeError) : wtR WorktreeBinding :=
  found <-- get_by_worktree_id id ;;
  StateR.lift (ok_or found e).

Definition update_rows (id : string) (f : WorktreeRow → WorktreeRow) : wtR () :=
  w <-- StateR.get ;;
  set_rows (update_id id f (ww_rows w)) ;;;
  if has_id id (ww_rows w) then StateR.ret tt
  else StateR.fail (CorruptState ("missing worktree_id " ++ id)%string).

Definition wt_set_state (now : N) (id : string) (s : WorktreeLifecycleState) : wtR () :=
  update_rows id (with_row_state s now).

Definition set_branch (now : N) (id branch : string) : wtR () :=
  update_rows id (with_row_branch branch now).

(** *** Paths *)

Definition wt_absolute_path (path : string) : wtR string :=
  f <-- wt_files ;;
  absolute <-- StateR.lift (if is_absolute path then Ok path
                else map_err WtIo (cwd ← current_dir; Ok (path_join cwd path))) ;;
  StateR.ret (match wf_canonicalize f absolute with Ok c => c | Err _ => absolute end).

Definition paths_equal (f : F) (a b : string) : bool :=
  let canon p := match wf_canonicalize f p with Ok c => c | Err _ => p end in
  bool_decide (components a = components b)
  || bool_decide (components (canon a) = components (canon b)).

Definition git_worktree_paths (repo_root : string) : wtR (list string) :=
  output <-- git repo_root ["worktree"; "list"; "--porcelain"] ;;
  StateR.ret (omap (strip_prefix "worktree ") (lines output)).

Definition is_registered (b : WorktreeBinding) : wtR bool :=
  f <-- wt_files ;;
  if negb (wf_exists f (wb_repo_root b)) then StateR.ret false
  else
    registered <-- git_worktree_paths (wb_repo_root b) ;;
    canonical <-- wt_absolute_path (wb_path b) ;;
    f <-- wt_files ;;
    StateR.ret (existsb (λ p, paths_equal f p canonical) registered).

(** *** Creation *)

Definition role_permissions (path : string) (r : AgentWorkRole) : WorktreeAttachedPermissions :=
  match r with
  | WorkBuild => for_build path
  | _ => mkPermissions r path [path] false false false
  end.

(** The first eight bytes of the id are those of a UUID's text. *)
Definition create_inner (new_id : string) (now : N) (session_id : Uuid) (repo_root : string)
    (role : option AgentWorkRole) : wtR WorktreeBinding :=
  existing <-- get_open_by_session session_id ;;
  match existing with
  | Some b => StateR.fail (AlreadyBound (wb_session_id b))
  | None =>
      repo_root <-- wt_absolute_path repo_root ;;
      let branch := ("impetus/wt-" ++ str_prefix 8 new_id)%string in
      let path := path_join worktrees_root new_id in
      git repo_root ["worktree"; "add"; "-b"; branch; path] ;;;
      let binding := mkBinding new_id session_id path branch repo_root WtActive
                       (role_permissions path <$> role) in
      insert_binding now binding ;;;
      StateR.ret binding
  end.

Definition wt_create (new_id : string) (now : N) (session_id : Uuid) (repo_root : string)
    : wtR WorktreeBinding :=
  create_inner new_id now session_id repo_root None.

Definition create_for_role (new_id : string) (now : N) (session_id : Uuid) (repo_root : string)
    (role : AgentWorkRole) : wtR WorktreeBinding :=
  if negb (prefers_isolated_worktree role) then StateR.fail (RoleDoesNotPreferIsolated role)
  else create_inner new_id now session_id repo_root (Some role).

(** *** Life cycle *)

Definition wt_resume (now : N) (session_id : Uuid) : wtR WorktreeBinding :=
  binding <-- require_open session_id ;;
  match wb_state binding with
  | WtStale | WtClosed => StateR.fail (InvalidTransition (wb_state binding) "resume")
  | WtActive | WtStopped =>
      f <-- wt_files ;;
      if negb (wf_exists f (wb_path binding)) then StateR.fail (WtPathMissing (wb_path binding))
      else
        wt_set_state now (wb_worktree_id binding) WtActive ;;;
        reread (wb_worktree_id binding) (WtNotFound session_id)
  end.

Definition wt_stop (now : N) (session_id : Uuid) : wtR WorktreeBinding :=
  binding <-- require_open session_id ;;
  if negb (bool_decide (wb_state binding = WtActive))
  then StateR.fail (InvalidTransition (wb_state binding) "stop")
  else
    wt_set_state now (wb_worktree_id binding) WtStopped ;;;
    reread (wb_worktree_id binding) (WtNotFound session_id).

Definition remove_worktree_disk (b : WorktreeBinding) : wtR () :=
  f <-- wt_files ;;
  if wf_exists f (wb_path b) then
    attempt (git (wb_repo_root b) ["worktree"; "remove"; "--force"; wb_path b]) (λ removed,
      match removed with
      | Ok _ => StateR.ret tt
      | Err _ =>
          f <-- wt_files ;;
          StateR.when (wf_exists f (wb_path b)) (wt_io (wf_remove_dir_all (wb_path b))) ;;;
          wt_ignore (git (wb_repo_root b) ["worktree"; "prune"])
      end)
  else if wf_exists f (wb_repo_root b)
  then wt_ignore (git (wb_repo_root b) ["worktree"; "prune"])
  else StateR.ret tt.

Definition wt_close (now : N) (session_id : Uuid) : wtR WorktreeBinding :=
  binding <-- require_open session_id ;;
  match wb_state binding with
  | WtClosed => StateR.fail (InvalidTransition (wb_state binding) "close")
  | _ =>
      remove_worktree_disk binding ;;;
      wt_set_state now (wb_worktree_id binding) WtClosed ;;;
      reread (wb_worktree_id binding) (WtNotFound session_id)
  end.

(** *** Stale bindings *)

Definition classify_stale (b : WorktreeBinding) : wtR (option StaleReport) :=
  if bool_decide (wb_state b = WtClosed) then StateR.ret None
  else
    f <-- wt_files ;;
    if negb (wf_exists f (wb_path b))
    then StateR.ret (Some (mkStaleReport b StalePathMissing false))
    else
      registered <-- is_registered b ;;
      if registered : bool then StateR.ret None
      else StateR.ret (Some (mkStaleReport b StaleNotRegistered true)).

Fixpoint classify_all (bs : list WorktreeBinding) : wtR (list StaleReport) :=
  match bs with
  | [] => StateR.ret []
  | b :: bs' =>
      report <-- classify_stale b ;;
      rest <-- classify_all bs' ;;
      StateR.ret (option_list report ++ rest)
  end.

Definition detect_stale : wtR (list StaleReport) :=
  bs <-- list_non_closed ;;
  classify_all bs.

Fixpoint mark_reports (now : N) (reports : list StaleReport) : wtR (list StaleReport) :=
  match reports with
  | [] => StateR.ret []
  | r :: reports' =>
      let id := wb_worktree_id (stale_binding r) in
      StateR.when (negb (bool_decide (wb_state (stale_binding r) = WtStale)))
        (wt_set_state now id WtStale) ;;;
      binding <-- reread id (NotFoundId id) ;;
      rest <-- mark_reports now reports' ;;
      StateR.ret (mkStaleReport binding (stale_reason r) (stale_recoverable r) :: rest)
  end.

Definition mark_stale (now : N) : wtR (list StaleReport) :=
  reports <-- detect_stale ;;
  mark_reports now reports.

Definition cleanup_stale (now : N) (id : string) : wtR WorktreeBinding :=
  binding <-- reread id (NotFoundId id) ;;
  if negb (bool_decide (wb_state binding = WtStale))
  then StateR.fail (InvalidTransition (wb_state binding) "cleanup_stale")
  else
    found <-- classify_stale binding ;;
    f <-- wt_files ;;
    let report := default (mkStaleReport binding StalePathMissing (wf_exists f (wb_path binding)))
                    found in
    if stale_recoverable report then StateR.fail (RecoverableNeedsSalvage id)
    else
      remove_worktree_disk binding ;;;
      wt_set_state now id WtClosed ;;;
      reread id (NotFoundId id).

(** The walk of [copy_tree_overlay_skip_git] descends into directories only; the
    fuel bounds its depth, and [None] of the entry type is an error. *)
Fixpoint copy_entries (fuel : nat) (walk : string → string → wtR ()) (src dst : string)
    (entries : list (result IoError DirEntry)) : wtR () :=
  match entries with
  | [] => StateR.ret tt
  | r :: entries' =>
      entry <-- StateR.lift (map_err WtIo r) ;;
      (if String.eqb (de_name entry) ".git" then StateR.ret tt
       else
         let from := path_join src (de_name entry) in
         let to := path_join dst (de_name entry) in
         ft <-- StateR.lift (map_err WtIo (de_type entry)) ;;
         if ft_is_dir ft then
           wt_io (wf_create_dir_all to) ;;;
           walk from to
         else if ft_is_file ft then
           (match parent to with
            | Some dir => wt_io (wf_create_dir_all dir)
            | None => StateR.ret tt
            end) ;;;
           wt_io (wf_copy from to)
         else StateR.ret tt) ;;;
      copy_entries fuel walk src dst entries'
  end.

Fixpoint copy_tree (fuel : nat) (src dst : string) : wtR () :=
  match fuel with
  | 0 => StateR.fail (WtIo (mkIoError false "too deep"))
  | S fuel' =>
      entries <-- wt_io (λ f, (f, wf_read_dir f src)) ;;
      copy_entries fuel' (copy_tree fuel') src dst entries
  end.

Definition salvage (fuel : nat) (now : N) (id : string) : wtR WorktreeBinding :=
  binding <-- reread id (NotFoundId id) ;;
  match wb_state binding with
  | WtClosed => StateR.fail (InvalidTransition (wb_state binding) "salvage")
  | _ =>
      f <-- wt_files ;;
      if negb (wf_exists f (wb_path binding)) then StateR.fail (NotRecoverable id)
      else
        registered <-- is_registered binding ;;
        if registered : bool then
          wt_set_state now id WtActive ;;;
          reread id (NotFoundId id)
        else
          let bak := path_join (default "." (parent (wb_path binding)))
                       (id ++ ".salvage-bak")%string in
          f <-- wt_files ;;
          StateR.when (wf_exists f bak) (wt_io (wf_remove_dir_all bak)) ;;;
          wt_io (wf_rename (wb_path binding) bak) ;;;
          attempt (git (wb_repo_root binding)
                     ["worktree"; "add"; wb_path binding; wb_branch binding]) (λ added,
            match added with
            | Err err => wt_ignore (wt_io (wf_rename bak (wb_path binding))) ;;; StateR.fail err
            | Ok _ =>
                copy_tree fuel bak (wb_path binding) ;;;
                wt_io (wf_remove_dir_all bak) ;;;
                wt_set_state now id WtActive ;;;
                reread id (NotFoundId id)
            end)
  end.

Definition resolve_after_compaction (session_id : Uuid) (structural : CompactionStructuralState)
    : wtR WorktreeBinding :=
  match structural_worktree_id structural with
  | Some id =>
      binding <-- reread id (NotFoundId id) ;;
      if negb (wb_session_id binding =? session_id)%N then StateR.fail (NotFoundId id)
      else StateR.ret binding
  | None =>
      found <-- get_by_session session_id ;;
      StateR.lift (ok_or found (WtNotFound session_id))
  end.

(** *** Merging *)

Definition ensure_commit_ref (repo_root rev : string) : wtR () :=
  git repo_root ["rev-parse"; "--verify"; (rev ++ "^{commit}")%string] ;;;
  StateR.ret tt.

Definition worktree_is_dirty (path : string) : wtR bool :=
  status <-- git path ["status"; "--porcelain"] ;;
  StateR.ret (negb (is_empty (trim status))).

Definition merge_would_conflict (repo_root base_ref branch : string) : wtR bool :=
  ensure_commit_ref repo_root base_ref ;;;
  ensure_commit_ref repo_root branch ;;;
  output <-- wt_io (git_output repo_root ["merge-tree"; "--write-tree"; "--quiet"; base_ref; branch]) ;;
  match git_code output with
  | Some 0%N => StateR.ret false
  | Some 1%N => StateR.ret true
  | _ =>
      let detail := git_detail output in
      StateR.fail (WtGit (if is_empty detail
                          then ("merge-tree failed for " ++ base_ref ++ ".." ++ branch)%string
                          else detail))
  end.

Definition diff_summary_for (b : WorktreeBinding) (base_ref : string) : wtR WorktreeDiffSummary :=
  ensure_commit_ref (wb_repo_root b) base_ref ;;;
  ensure_commit_ref (wb_repo_root b) (wb_branch b) ;;;
  text <-- git (wb_repo_root b) ["diff"; "--numstat"; (base_ref ++ "..." ++ wb_branch b)%string] ;;
  let '(files_changed, insertions, deletions) := numstat text in
  StateR.ret (mkDiffSummary base_ref (wb_branch b) files_changed insertions deletions).

Definition require_merge_candidate (session_id : Uuid) : wtR WorktreeBinding :=
  binding <-- require_open session_id ;;
  f <-- wt_files ;;
  if negb (wf_exists f (wb_path binding)) then StateR.fail (WtPathMissing (wb_path binding))
  else StateR.ret binding.

Definition diff_summary (session_id : Uuid) (base_ref : string) : wtR WorktreeDiffSummary :=
  binding <-- require_merge_candidate session_id ;;
  diff_summary_for binding base_ref.

Definition check_merge_ready (session_id : Uuid) (base_ref : string) : wtR MergeReadyReport :=
  binding <-- require_merge_candidate session_id ;;
  diff <-- diff_summary_for binding base_ref ;;
  dirty <-- worktree_is_dirty (wb_path binding) ;;
  has_conflicts <-- merge_would_conflict (wb_repo_root binding) base_ref (wb_branch binding) ;;
  StateR.ret (mkMergeReadyReport (negb dirty && negb has_conflicts) has_conflicts dirty diff).

Definition attempt_merge (session_id : Uuid) (base_ref : string) : wtR WorktreeBinding :=
  report <-- check_merge_ready session_id base_ref ;;
  if mr_has_conflicts report
  then StateR.fail (MergeConflict base_ref
         ("branch " ++ ds_branch (mr_diff report) ++ " conflicts with " ++ base_ref)%string)
  else if negb (mr_merge_ready report)
  then StateR.fail (NotMergeReady (if mr_dirty report then "worktree has uncommitted changes"
                                   else "not merge-ready")%string)
  else
    binding <-- require_merge_candidate session_id ;;
    dirty <-- worktree_is_dirty (wb_repo_root binding) ;;
    if dirty : bool then StateR.fail (NotMergeReady "repo root has uncommitted changes")
    else
      git (wb_repo_root binding) ["checkout"; "--quiet"; base_ref] ;;;
      git (wb_repo_root binding)
        ["merge"; "--no-ff"; "-m"; ("impetus: merge " ++ wb_branch binding)%string; wb_branch binding] ;;;
      reread (wb_worktree_id binding) (WtNotFound session_id).

(** *** Branches *)

Definition validate_branch_name_wt (name : string) : wtR () :=
  if branch_name_ok name then StateR.ret tt else StateR.fail (InvalidBranchName name).

Definition refuse_dirty_wt (path : string) : wtR () :=
  dirty <-- worktree_is_dirty path ;;
  if dirty : bool then StateR.fail Dirty else StateR.ret tt.

Definition conflict_markers : list string :=
  ["MERGE_HEAD"; "REBASE_HEAD"; "CHERRY_PICK_HEAD"; "REVERT_HEAD"].

Definition refuse_conflict_wt (path : string) : wtR () :=
  f <-- wt_files ;;
  if existsb (λ marker, wf_exists f (path_join (path_join path ".git") marker)) conflict_markers
  then StateR.fail ConflictInProgress
  else
    out <-- git path ["ls-files"; "-u"] ;;
    if negb (is_empty (trim out)) then StateR.fail ConflictInProgress else StateR.ret tt.

Definition branch_exists_wt (path name : string) : wtR bool :=
  attempt (git path ["rev-parse"; "--verify"; "--quiet"; ("refs/heads/" ++ name)%string]) (λ found,
    match found with
    | Ok _ => StateR.ret true
    | Err (WtGit _) => StateR.ret false
    | Err other => StateR.fail other
    end).

Definition switch_bound_branch (now : N) (session_id : Uuid) (name : string) : wtR WorktreeBinding :=
  validate_branch_name_wt name ;;;
  binding <-- require_open session_id ;;
  if bool_decide (wb_state binding = WtStale)
  then StateR.fail (InvalidTransition (wb_state binding) "switch_bound_branch")
  else
    refuse_dirty_wt (wb_path binding) ;;;
    refuse_conflict_wt (wb_path binding) ;;;
    known <-- branch_exists_wt (wb_path binding) name ;;
    if negb known then StateR.fail (UnknownBranch name)
    else
      git (wb_path binding) ["checkout"; "--quiet"; name] ;;;
      set_branch now (wb_worktree_id binding) name ;;;
      reread (wb_worktree_id binding) (WtNotFound session_id).

Definition create_bound_branch (now : N) (session_id : Uuid) (name : string) (checkout : bool)
    : wtR WorktreeBinding :=
  validate_branch_name_wt name ;;;
  binding <-- require_open session_id ;;
  refuse_conflict_wt (wb_path binding) ;;;
  known <-- branch_exists_wt (wb_path binding) name ;;
  if known : bool then StateR.fail (BranchExists name)
  else
    (if checkout then
       refuse_dirty_wt (wb_path binding) ;;;
       git (wb_path binding) ["checkout"; "-b"; name] ;;;
       set_branch now (wb_worktree_id binding) name
     else
       git (wb_path binding) ["branch"; name] ;;;
       StateR.ret tt) ;;;
    reread (wb_worktree_id binding) (WtNotFound session_id).

(** *** The operations of the manager *)

Inductive wt_op :=
  | OpCreate (new_id : string) (session_id : Uuid) (repo_root : string) (role : option AgentWorkRole)
  | OpResume (session_id : Uuid)
  | OpStop (session_id : Uuid)
  | OpClose (session_id : Uuid)
  | OpMarkStale
  | OpCleanup (id : string)
  | OpSalvage (fuel : nat) (id : string)
  | OpMerge (session_id : Uuid) (base_ref : string)
  | OpSwitch (session_id : Uuid) (name : string)
  | OpNewBranch (session_id : Uuid) (name : string) (checkout : bool).

Definition wt_run (now : N) (op : wt_op) : WtWorld → WtWorld :=
  match op with
  | OpCreate id s repo None => λ w, (wt_create id now s repo w).1
  | OpCreate id s repo (Some role) => λ w, (create_for_role id now s repo role w).1
  | OpResume s => λ w, (wt_resume now s w).1
  | OpStop s => λ w, (wt_stop now s w).1
  | OpClose s => λ w, (wt_close now s w).1
  | OpMarkStale => λ w, (mark_stale now w).1
  | OpCleanup id => λ w, (cleanup_stale now id w).1
  | OpSalvage fuel id => λ w, (salvage fuel now id w).1
  | OpMerge s base => λ w, (attempt_merge s base w).1
  | OpSwitch s name => λ w, (switch_bound_branch now s name w).1
  | OpNewBranch s name checkout => λ w, (create_bound_branch now s name checkout w).1
  end.

Definition wt_run_all (ops : list (N * wt_op)) (w : WtWorld) : WtWorld :=
  fold_left (λ w o, wt_run o.1 o.2 w) ops w.
End manager.

(** ** The life cycle as a step relation on the table *)

Definition lifecycle_move (from to : WorktreeLifecycleState) : bool :=
  match from, to with
  | WtClosed, _ | WtStale, WtStopped => false
  | WtStale, WtStale => false
  | WtStopped, WtStopped => false
  | _, _ => true
  end.

Section lifecycle.
Context `{UuidText} `{PermissionsJson}.

Inductive table_step : relation (list WorktreeRow) :=
  | step_insert now b rows :
      has_id (wb_worktree_id b) rows = false → wb_state b = WtActive →
      (∀ r, r ∈ rows → of_session (wb_session_id b) r = true → not_closed r = false) →
      table_step rows (rows ++ [row_of_binding now b])
  | step_state now r from to rows :
      r ∈ rows → parse_worktree_lifecycle_state (wr_state r) = Ok from →
      lifecycle_move from to = true →
      table_step rows (update_id (wr_worktree_id r) (with_row_state to now) rows)
  | step_branch now r branch rows :
      r ∈ rows → not_closed r = true →
      table_step rows (update_id (wr_worktree_id r) (with_row_branch branch now) rows).

(** Ids are a key; a session has at most one binding that is not closed. *)
Definition wf_rows (rows : list WorktreeRow) : Prop :=
  NoDup (wr_worktree_id <$> rows) ∧
  ∀ r1 r2, r1 ∈ rows → r2 ∈ rows → not_closed r1 = true → not_closed r2 = true →
    wr_session_id r1 = wr_session_id r2 → r1 = r2.

(** What no operation changes of a row; a closed row does not change at all. *)
Definition row_kept (r r' : WorktreeRow) : Prop :=
  wr_worktree_id r' = wr_worktree_id r ∧ wr_session_id r' = wr_session_id r ∧
  wr_path r' = wr_path r ∧ wr_repo_root r' = wr_repo_root r ∧
  wr_permissions_json r' = wr_permissions_json r ∧
  (not_closed r = false → r' = r).

Definition rows_kept (rows rows' : list WorktreeRow) : Prop :=
  ∀ r, r ∈ rows → ∃ r', r' ∈ rows' ∧ row_kept r r'.

Lemma parse_state_text raw s : parse_worktree_lifecycle_state raw = Ok s → raw = wt_state_as_str s.
Proof.
  unfold parse_worktree_lifecycle_state.
  repeat case_match; intros; simplify_eq; by match goal with Hs : String.eqb _ _ = true |- _ =>
    apply String.eqb_eq in Hs end.
Qed.

Lemma not_closed_parsed r s :
  parse_worktree_lifecycle_state (wr_state r) = Ok s → not_closed r = true ↔ s ≠ WtClosed.
Proof. intros Hp%parse_state_text. unfold not_closed. rewrite Hp. by destruct s. Qed.

Lemma not_closed_state now s r : not_closed (with_row_state s now r) = true ↔ s ≠ WtClosed.
Proof. unfold not_closed. cbn. by destruct s. Qed.

Lemma has_id_false id rows : has_id id rows = false ↔ id ∉ wr_worktree_id <$> rows.
Proof.
  unfold has_id. rewrite existsb_false_iff, list_elem_of_fmap. split.
  - intros Hf (r & -> & Hr). specialize (Hf r Hr). by rewrite String.eqb_refl in Hf.
  - intros Hn r Hr. apply String.eqb_neq. intros <-. eauto.
Qed.

Lemma has_id_elem r rows : r ∈ rows → has_id (wr_worktree_id r) rows = true.
Proof.
  intros Hr. apply not_false_is_true. rewrite has_id_false, list_elem_of_fmap. eauto.
Qed.

Lemma id_unique rows r1 r2 :
  NoDup (wr_worktree_id <$> rows) → r1 ∈ rows → r2 ∈ rows →
  wr_worktree_id r1 = wr_worktree_id r2 → r1 = r2.
Proof.
  intros Hnd (i & Hi)%list_elem_of_lookup (j & Hj)%list_elem_of_lookup Heq.
  enough (i = j) by congruence.
  eapply (NoDup_lookup (wr_worktree_id <$> rows)); [done|rewrite list_lookup_fmap, Hi; done|].
  rewrite list_lookup_fmap, Hj. cbn. by rewrite Heq.
Qed.

Section update.
Context (f : WorktreeRow → WorktreeRow) (Hid : ∀ r, wr_worktree_id (f r) = wr_worktree_id r)
  (Hsession : ∀ r, wr_session_id (f r) = wr_session_id r).

Lemma update_id_ids id rows : wr_worktree_id <$> update_id id f rows = wr_worktree_id <$> rows.
Proof.
  unfold update_id. rewrite <- list_fmap_compose. apply list_fmap_ext. intros i r _. cbn.
  case_match; auto.
Qed.

Lemma update_id_wf r0 rows :
  r0 ∈ rows → not_closed r0 = true → wf_rows rows →
  wf_rows (update_id (wr_worktree_id r0) f rows).
Proof.
  intros Hr0 Hopen (Hnd & Hone). split; [by rewrite update_id_ids|].
  assert (∀ r', r' ∈ update_id (wr_worktree_id r0) f rows → not_closed r' = true →
    ∃ r, r ∈ rows ∧ not_closed r = true ∧ wr_session_id r = wr_session_id r' ∧
      r' = if String.eqb (wr_worktree_id r) (wr_worktree_id r0) then f r else r) as Hback.
  { intros r' (r & -> & Hr)%list_elem_of_fmap Hc. exists r. case_match eqn:Heq; [|done].
    apply String.eqb_eq in Heq. assert (r = r0) as -> by by eapply id_unique. auto. }
  intros r1 r2 H1 H2 Hc1 Hc2 Hs.
  destruct (Hback r1 H1 Hc1) as (a & Ha & Hac & Has & ->).
  destruct (Hback r2 H2 Hc2) as (b & Hb & Hbc & Hbs & ->).
  by rewrite (Hone a b) by congruence.
Qed.

Lemma update_id_kept r0 rows :
  r0 ∈ rows → not_closed r0 = true → wf_rows rows →
  (∀ r, wr_path (f r) = wr_path r ∧ wr_repo_root (f r) = wr_repo_root r ∧
        wr_permissions_json (f r) = wr_permissions_json r) →
  rows_kept rows (update_id (wr_worktree_id r0) f rows).
Proof.
  intros Hr0 Hopen (Hnd & _) Hf r Hr.
  exists (if String.eqb (wr_worktree_id r) (wr_worktree_id r0) then f r else r).
  split; [apply list_elem_of_fmap; eauto|]. destruct (Hf r) as (Hp & Hrr & Hj).
  case_match eqn:Heq; [|done]. apply String.eqb_eq in Heq.
  assert (r = r0) as -> by by eapply id_unique.
  unfold row_kept. rewrite Hopen. by split_and!.
Qed.
End update.

Lemma table_step_wf rows rows' : table_step rows rows' → wf_rows rows → wf_rows rows'.
Proof.
  intros [now b rs Hid Hact Hnone|now r from to rs Hr Hp Hm|now r br rs Hr Ho] Hwf.
  - destruct Hwf as (Hnd & Hone). apply has_id_false in Hid. split.
    + rewrite fmap_app. apply NoDup_app. split_and!; [done| |apply NoDup_singleton].
      intros x Hx ->%list_elem_of_singleton. done.
    + intros r1 r2 H1 H2 Ho1 Ho2 Hs. apply elem_of_app in H1, H2.
      rewrite list_elem_of_singleton in H1, H2.
      destruct H1 as [H1| ->], H2 as [H2| ->].
      * auto.
      * rewrite (Hnone r1 H1) in Ho1; [done|]. by apply String.eqb_eq.
      * rewrite (Hnone r2 H2) in Ho2; [done|]. by apply String.eqb_eq.
      * done.
  - apply update_id_wf; auto. apply (not_closed_parsed r from Hp). by destruct from.
  - apply update_id_wf; auto.
Qed.

Lemma table_step_kept rows rows' : table_step rows rows' → wf_rows rows → rows_kept rows rows'.
Proof.
  intros [now b rs Hid Hact Hnone|now r from to rs Hr Hp Hm|now r br rs Hr Ho] Hwf.
  - intros r Hr. exists r. split; [apply elem_of_app; auto|]. done.
  - apply update_id_kept; auto. apply (not_closed_parsed r from Hp). by destruct from.
  - apply update_id_kept; auto.
Qed.

Lemma rows_kept_trans a b c : rows_kept a b → rows_kept b c → rows_kept a c.
Proof.
  intros Hab Hbc r Hr. destruct (Hab r Hr) as (r' & Hr' & H1 & H2 & H3 & H4 & H5 & H6).
  destruct (Hbc r' Hr') as (r'' & Hr'' & J1 & J2 & J3 & J4 & J5 & J6).
  exists r''. split; [done|]. repeat split; [congruence..|].
  intros Hc. specialize (H6 Hc). subst r'. auto.
Qed.

Lemma table_steps_keep rows rows' :
  rtc table_step rows rows' → wf_rows rows → wf_rows rows' ∧ rows_kept rows rows'.
Proof.
  induction 1 as [rs|a b c Hab _ IH]; intros Hwf; [split; [done|]; intros r Hr; by exists r|].
  destruct IH as (Hc & Hk); [by eapply table_step_wf|]. split; [done|].
  eapply rows_kept_trans; [|done]. by eapply table_step_kept.
Qed.
End lifecycle.

(** ** Every operation is a sequence of steps *)

Section refinement.
Context `{UuidText} `{PermissionsJson} {F : Type} `{!WorkFiles F} `{!FileChanges F} `{!TreeChanges F}.
Context `{!GitCli F} (current_dir : result IoError string) (worktrees_root : string).
Context (rows0 : list WorktreeRow).

Abbreviation wtM := (stateR (WtWorld (F := F)) WorktreeError).

(** The table stays well formed and reachable from [rows0]. *)
Definition reached (w : WtWorld (F := F)) : Prop :=
  wf_rows (ww_rows w) ∧ rtc table_step rows0 (ww_rows w).

Definition reached_with (P : list WorktreeRow → Prop) (w : WtWorld (F := F)) : Prop :=
  reached w ∧ P (ww_rows w).

(** An open row of the table, and what it decodes to. *)
Definition open_row (b : WorktreeBinding) (rows : list WorktreeRow) : Prop :=
  ∃ r, r ∈ rows ∧ row_to_binding r = Ok b ∧ not_closed r = true.

Lemma keeps_rows {A} (m : wtM A) P :
  (∀ w, ww_rows (m w).1 = ww_rows w) → keeps (reached_with P) m.
Proof.
  intros Hm w (Hr & HP). specialize (Hm w). destruct (m w) as [w' [a|e]]; cbn in Hm;
    unfold reached_with, reached; by rewrite Hm.
Qed.

Lemma keeps_io {A} (m : stateR F IoError A) P : keeps (reached_with P) (wt_io m).
Proof. apply keeps_rows. intros w. unfold wt_io. by destruct (m (ww_files w)). Qed.

Lemma keeps_files P : keeps (reached_with P) wt_files.
Proof. by apply keeps_rows. Qed.

Lemma keeps_git cwd args P : keeps (reached_with P) (git cwd args).
Proof.
  unfold git. apply keeps_bind; [apply keeps_io|]. intros o. case_match; auto with keeps.
Qed.

Lemma keeps_ignore {A} (m : wtM A) P : keeps (reached_with P) m → keeps (reached_with P) (wt_ignore m).
Proof. intros Hm w Hw. cbn. by apply (triple_either _ _ _ _ Hm). Qed.

Lemma keeps_by_session s P : keeps (reached_with P) (get_by_session s).
Proof. unfold get_by_session. solve_keeps. Qed.

Lemma keeps_reread id e P : keeps (reached_with P) (reread id e).
Proof. unfold reread, get_by_worktree_id. solve_keeps. Qed.
Hint Resolve keeps_io keeps_files keeps_git keeps_ignore keeps_reread : keeps.

Lemma keeps_registered b P : keeps (reached_with P) (is_registered current_dir b).
Proof. unfold is_registered, git_worktree_paths, wt_absolute_path. solve_keeps. Qed.

Lemma keeps_remove_disk b P : keeps (reached_with P) (remove_worktree_disk b).
Proof. unfold remove_worktree_disk. solve_keeps. Qed.
Hint Resolve keeps_registered keeps_remove_disk : keeps.

Lemma keeps_classify b P : keeps (reached_with P) (classify_stale current_dir b).
Proof. unfold classify_stale. solve_keeps. Qed.
Hint Resolve keeps_classify : keeps.

Lemma keeps_copy_tree fuel src dst P : keeps (reached_with P) (copy_tree fuel src dst).
Proof.
  revert src dst. induction fuel as [|fuel IH]; intros src dst; cbn; [auto with keeps|].
  apply keeps_bind; [auto with keeps|]. intros es.
  induction es as [|e es IHes]; cbn; solve_keeps.
Qed.

Lemma keeps_dirty p P : keeps (reached_with P) (worktree_is_dirty p).
Proof. unfold worktree_is_dirty. solve_keeps. Qed.

Lemma keeps_commit_ref repo rev P : keeps (reached_with P) (ensure_commit_ref repo rev).
Proof. unfold ensure_commit_ref. solve_keeps. Qed.
Hint Resolve keeps_copy_tree keeps_dirty keeps_commit_ref : keeps.

Lemma keeps_would_conflict repo base branch P :
  keeps (reached_with P) (merge_would_conflict repo base branch).
Proof. unfold merge_would_conflict. solve_keeps. Qed.

Lemma keeps_diff_for b base P : keeps (reached_with P) (diff_summary_for b base).
Proof. unfold diff_summary_for. solve_keeps. Qed.

Lemma keeps_refuse_dirty p P : keeps (reached_with P) (refuse_dirty_wt p).
Proof. unfold refuse_dirty_wt. solve_keeps. Qed.

Lemma keeps_refuse_conflict p P : keeps (reached_with P) (refuse_conflict_wt p).
Proof. unfold refuse_conflict_wt. solve_keeps. Qed.

Lemma keeps_branch_exists p name P : keeps (reached_with P) (branch_exists_wt p name).
Proof. unfold branch_exists_wt. solve_keeps. Qed.
Hint Resolve keeps_would_conflict keeps_diff_for keeps_refuse_dirty keeps_refuse_conflict
  keeps_branch_exists : keeps.

(** *** Reading a binding and moving it *)

Lemma newest_elem rows r : newest rows = Some r → r ∈ rows.
Proof.
  revert r. induction rows as [|r0 rows IH]; cbn; intros r Hr; [done|].
  destruct (newest rows) as [r'|]; [|injection Hr as ->; apply list_elem_of_here].
  case_match; injection Hr as <-; [apply list_elem_of_further; auto|apply list_elem_of_here].
Qed.

Lemma newest_none rows : newest rows = None → rows = [].
Proof. destruct rows as [|r rows]; cbn; [done|]. by repeat case_match. Qed.

Lemma triple_open s P :
  triple (reached_with P) (get_open_by_session s)
    (λ o, reached_with (λ rows, P rows ∧
       match o with
       | Some b => open_row b rows
       | None => ∀ r, r ∈ rows → of_session s r = true → not_closed r = false
       end)) reached.
Proof.
  unfold get_open_by_session. eapply triple_bind.
  { apply (triple_get _ (λ a w, a = w ∧ reached_with P w)). auto. }
  intros w0. apply triple_lift; [|by intros w (_ & Hw & _)].
  intros o w Hd (-> & Hr & HP). split; [done|]. split; [done|].
  destruct (newest _) as [r|] eqn:Hn; cbn in Hd.
  - destruct (row_to_binding r) as [b|] eqn:Hb; [|done]. injection Hd as <-.
    apply newest_elem in Hn.
    apply list_elem_of_In, filter_In in Hn as (Hin & Hc). apply andb_true_iff in Hc as (_ & Hc).
    exists r. by rewrite list_elem_of_In.
  - injection Hd as <-. apply newest_none in Hn. intros r Hin Hs.
    destruct (not_closed r) eqn:Hc; [|done]. exfalso.
    assert (In r (List.filter (λ r, of_session s r && not_closed r) (ww_rows w))) as Hf.
    { apply filter_In. by rewrite <- list_elem_of_In, Hs, Hc. }
    by rewrite Hn in Hf.
Qed.

Lemma triple_require_open s P :
  triple (reached_with P) (require_open s)
    (λ b, reached_with (λ rows, P rows ∧ open_row b rows)) reached.
Proof.
  unfold require_open. eapply triple_bind; [apply triple_open|].
  intros [b|]; cbn; apply triple_lift; unfold reached_with; try done; [| |].
  - intros a w [= <-]. done.
  - naive_solver.
  - naive_solver.
Qed.

Lemma row_to_binding_fields r b :
  row_to_binding r = Ok b →
  wb_worktree_id b = wr_worktree_id r ∧
  parse_worktree_lifecycle_state (wr_state r) = Ok (wb_state b).
Proof.
  unfold row_to_binding. destruct (parse_worktree_lifecycle_state _) as [s|]; cbn; [|done].
  destruct (uuid_parse_str _); cbn; [|done].
  intros Hb. repeat case_match; try destruct (permissions_of_json _); by simplify_eq/=.
Qed.

(** The binding's row can move to [to]. *)
Definition can_move (id : string) (to : WorktreeLifecycleState) (rows : list WorktreeRow) : Prop :=
  ∃ r from, r ∈ rows ∧ wr_worktree_id r = id ∧
    parse_worktree_lifecycle_state (wr_state r) = Ok from ∧ lifecycle_move from to = true.

Lemma open_can_move b to rows :
  open_row b rows → lifecycle_move (wb_state b) to = true → can_move (wb_worktree_id b) to rows.
Proof.
  intros (r & Hr & (Hid & Hp)%row_to_binding_fields & _) Hm. exists r, (wb_state b). auto.
Qed.

Lemma reached_step rows' (w : WtWorld (F := F)) :
  reached w → table_step (ww_rows w) rows' → reached (mkWtWorld rows' (ww_files w)).
Proof.
  intros (Hwf & Hrtc) Hs. split; cbn; [by eapply table_step_wf|by eapply rtc_r].
Qed.

Lemma triple_set_state now id to P :
  (∀ rows, P rows → can_move id to rows) →
  triple (reached_with P) (wt_set_state now id to)
    (λ _ w, reached w ∧ ∃ rows, P rows ∧ ww_rows w = update_id id (with_row_state to now) rows) reached.
Proof.
  intros HP w (Hr & Hp). destruct (HP _ Hp) as (r & from & Hin & <- & Hf & Hm).
  unfold wt_set_state, update_rows, StateR.bind. cbn.
  rewrite (has_id_elem r) by done. cbn. split; [|eauto].
  apply reached_step; [done|]. by eapply step_state.
Qed.

Lemma triple_set_branch now id branch P :
  (∀ rows, P rows → ∃ b, open_row b rows ∧ wb_worktree_id b = id) →
  triple (reached_with P) (set_branch now id branch) (λ _, reached) reached.
Proof.
  intros HP w (Hr & Hp). destruct (HP _ Hp) as (b & (r & Hin & (Hid & _)%row_to_binding_fields & Ho) & <-).
  unfold set_branch, update_rows, StateR.bind. cbn. rewrite Hid, (has_id_elem r) by done. cbn.
  apply reached_step; [done|]. by apply step_branch.
Qed.

Lemma keeps_reached {A} (m : wtM A) : (∀ P, keeps (reached_with P) m) → keeps reached m.
Proof.
  intros Hm. eapply triple_conseq; [apply (Hm (λ _, True))|..]; unfold reached_with; naive_solver.
Qed.

Lemma triple_weaken {A} (m : wtM A) P : keeps reached m → triple (reached_with P) m (λ _, reached) reached.
Proof. intros Hm. eapply triple_conseq; [apply Hm|..]; unfold reached_with; naive_solver. Qed.

(** Move a binding and read it back. *)
Lemma triple_move {A} now id to (k : wtM A) P :
  (∀ rows, P rows → can_move id to rows) → keeps reached k →
  triple (reached_with P) (wt_set_state now id to ;;; k) (λ _, reached) reached.
Proof.
  intros HP Hk. eapply triple_bind; [by apply triple_set_state|]. intros [].
  eapply triple_conseq; [apply Hk|..]; naive_solver.
Qed.

Lemma reached_reread id e : keeps reached (reread id e).
Proof. apply keeps_reached. auto with keeps. Qed.
Hint Resolve reached_reread : keeps.

Lemma triple_keep_bind {A B} (m : wtM A) (k : A → wtM B) P :
  keeps (reached_with P) m → (∀ a, triple (reached_with P) (k a) (λ _, reached) reached) →
  triple (reached_with P) (m' <-- m ;; k m') (λ _, reached) reached.
Proof.
  intros Hm Hk. eapply triple_bind; [|apply Hk].
  eapply triple_conseq; [apply Hm|done..|]. unfold reached_with; naive_solver.
Qed.

Lemma triple_return {A} (m : wtM A) P :
  keeps (reached_with P) m → triple (reached_with P) m (λ _, reached) reached.
Proof. intros Hm. eapply triple_conseq; [apply Hm|..]; unfold reached_with; naive_solver. Qed.

Lemma triple_pre {A} (m : wtM A) (P P' : list WorktreeRow → Prop) :
  (∀ rows, P' rows → P rows) →
  triple (reached_with P) m (λ _, reached) reached →
  triple (reached_with P') m (λ _, reached) reached.
Proof. intros HP Hm. eapply triple_conseq; [apply Hm| |done..]. unfold reached_with; naive_solver. Qed.

Lemma keeps_start {A} (m : wtM A) :
  triple (reached_with (λ _, True)) m (λ _, reached) reached → keeps reached m.
Proof. intros Hm. eapply triple_conseq; [apply Hm| |done..]. by intros w Hw. Qed.

(** A method that starts from a session's open binding. *)
Lemma keeps_with_open {A} s (k : WorktreeBinding → wtM A) :
  (∀ b, triple (reached_with (open_row b)) (k b) (λ _, reached) reached) →
  keeps reached (b <-- require_open s ;; k b).
Proof.
  intros Hk. apply keeps_start.
  eapply triple_bind; [apply triple_require_open|]. intros b.
  apply (triple_pre _ (open_row b)); [|done]. by intros rows (_ & ?).
Qed.

(** *** The operations *)

Lemma reached_insert now b (w : WtWorld (F := F)) :
  reached w → wb_state b = WtActive →
  (∀ r, r ∈ ww_rows w → of_session (wb_session_id b) r = true → not_closed r = false) →
  reached (insert_binding now b w).1.
Proof.
  intros Hr Ha Hn. unfold insert_binding, StateR.bind. cbn. case_match eqn:Hid; [done|]. cbn.
  apply reached_step; [done|]. by apply step_insert.
Qed.

Lemma reached_create new_id now s repo role :
  keeps reached (create_inner current_dir worktrees_root new_id now s repo role).
Proof.
  apply keeps_start.
  eapply triple_bind; [apply triple_open|]. intros [b|].
  { apply triple_fail. by intros ? (? & _). }
  apply triple_keep_bind; [unfold wt_absolute_path; solve_keeps|]. intros repo_root. cbv zeta.
  apply triple_keep_bind; [auto with keeps|]. intros _.
  intros w (Hr & _ & Hn). unfold StateR.bind.
  pose proof (reached_insert now (mkBinding new_id s (path_join worktrees_root new_id)
    ("impetus/wt-" ++ str_prefix 8 new_id)%string repo_root WtActive
    (role_permissions (path_join worktrees_root new_id) <$> role)) w Hr eq_refl Hn) as Hk.
  by destruct (insert_binding _ _ w) as [w' [[]|e]].
Qed.

Lemma reached_resume now s : keeps reached (wt_resume now s).
Proof.
  apply keeps_with_open. intros b.
  destruct (wb_state b) eqn:Hs; try (apply triple_fail; by intros ? (? & _));
    (apply triple_keep_bind; [auto with keeps|]; intros f; case_match;
     [apply triple_fail; by intros ? (? & _)|];
     apply triple_move; [|auto with keeps]; intros rows Hb; apply open_can_move; [done|by rewrite Hs]).
Qed.

Lemma reached_stop now s : keeps reached (wt_stop now s).
Proof.
  apply keeps_with_open. intros b. case_bool_decide as Hs; cbn.
  - apply triple_move; [|auto with keeps]. intros rows Hb. apply open_can_move; [done|by rewrite Hs].
  - apply triple_fail. by intros ? (? & _).
Qed.

Lemma reached_close now s : keeps reached (wt_close now s).
Proof.
  apply keeps_with_open. intros b.
  destruct (wb_state b) eqn:Hs; try (apply triple_fail; by intros ? (? & _));
    (apply triple_keep_bind; [auto with keeps|]; intros _;
     apply triple_move; [|auto with keeps]; intros rows Hb; apply open_can_move; [done|by rewrite Hs]).
Qed.

(** A binding read by its id. *)
Lemma triple_reread id e :
  triple reached (reread id e)
    (λ b, reached_with (λ rows, ∃ r, r ∈ rows ∧ wr_worktree_id r = id ∧ row_to_binding r = Ok b))
    reached.
Proof.
  unfold reread, get_by_worktree_id. eapply triple_bind.
  { eapply triple_bind; [apply (triple_get _ (λ a w, a = w ∧ reached w)); auto|].
    intros w0. apply (triple_lift _ _ (λ o, reached_with (λ rows, ∀ b, o = Some b →
      ∃ r, r ∈ rows ∧ wr_worktree_id r = id ∧ row_to_binding r = Ok b))); [|by intros ? (_ & ?)].
    intros o w Hd (-> & Hr). split; [done|]. intros b ->.
    destruct (List.find _ _) as [r|] eqn:Hf; cbn in Hd; [|done].
    apply find_some_elem in Hf as (Hin & Hid). apply String.eqb_eq in Hid.
    destruct (row_to_binding r) as [b'|] eqn:Hb; [|done]. injection Hd as <-. eauto. }
  intros [b|]; cbn; apply triple_lift; unfold reached_with; naive_solver.
Qed.

Lemma id_can_move b id to rows :
  (∃ r, r ∈ rows ∧ wr_worktree_id r = id ∧ row_to_binding r = Ok b) →
  lifecycle_move (wb_state b) to = true → can_move id to rows.
Proof.
  intros (r & Hr & Hid & (_ & Hp)%row_to_binding_fields) Hm. exists r, (wb_state b). auto.
Qed.

Lemma reached_cleanup now id : keeps reached (cleanup_stale current_dir now id).
Proof.
  unfold cleanup_stale. eapply triple_bind; [apply triple_reread|]. intros b.
  case_bool_decide as Hs; cbn; [|apply triple_fail; by intros ? (? & _)].
  apply triple_keep_bind; [auto with keeps|]. intros found.
  apply triple_keep_bind; [auto with keeps|]. intros f. cbv zeta.
  case_match; [apply triple_fail; by intros ? (? & _)|].
  apply triple_keep_bind; [auto with keeps|]. intros _.
  apply triple_move; [|auto with keeps]. intros rows Hb. eapply id_can_move; [done|by rewrite Hs].
Qed.

Lemma reached_salvage fuel now id : keeps reached (salvage current_dir fuel now id).
Proof.
  unfold salvage. eapply triple_bind; [apply triple_reread|]. intros b.
  destruct (bool_decide (wb_state b = WtClosed)) eqn:Hc; [apply bool_decide_eq_true in Hc; rewrite Hc;
    apply triple_fail; by intros ? (? & _)|]. apply bool_decide_eq_false in Hc.
  assert (∀ rows, (∃ r, r ∈ rows ∧ wr_worktree_id r = id ∧ row_to_binding r = Ok b) →
    can_move id WtActive rows) as Hmove.
  { intros rows Hb. eapply id_can_move; [done|]. by destruct (wb_state b). }
  destruct (wb_state b); [| | |done];
    (apply triple_keep_bind; [auto with keeps|]; intros f;
     case_match; [apply triple_fail; by intros ? (? & _)|];
     apply triple_keep_bind; [auto with keeps|]; intros registered;
     case_match; [apply triple_move; auto with keeps|]; cbv zeta;
     do 3 (apply triple_keep_bind; [auto with keeps|]; intros ?);
     apply triple_attempt; [auto with keeps|]; intros [o|e];
     [do 2 (apply triple_keep_bind; [auto with keeps|]; intros _);
      apply triple_move; auto with keeps
     |apply triple_return; auto with keeps]).
Qed.

Lemma reached_switch now s name : keeps reached (switch_bound_branch now s name).
Proof.
  unfold switch_bound_branch, validate_branch_name_wt. apply keeps_bind.
  { case_match; auto with keeps. }
  intros _. apply keeps_with_open. intros b. case_match; [apply triple_fail; by intros ? (? & _)|].
  do 2 (apply triple_keep_bind; [auto with keeps|]; intros _).
  apply triple_keep_bind; [auto with keeps|]. intros known.
  case_match; [apply triple_fail; by intros ? (? & _)|].
  apply triple_keep_bind; [auto with keeps|]; intros _.
  eapply triple_bind; [by apply triple_set_branch; eauto|]. intros ?. apply reached_reread.
Qed.

Lemma reached_new_branch now s name checkout :
  keeps reached (create_bound_branch now s name checkout).
Proof.
  unfold create_bound_branch, validate_branch_name_wt. apply keeps_bind.
  { case_match; auto with keeps. }
  intros _. apply keeps_with_open. intros b.
  apply triple_keep_bind; [auto with keeps|]; intros _.
  apply triple_keep_bind; [auto with keeps|]. intros known.
  destruct known; [apply triple_fail; by intros ? (? & _)|].
  eapply (triple_bind _ _ _ (λ _, reached)); [|intros _; apply reached_reread].
  destruct checkout.
  - do 2 (apply triple_keep_bind; [auto with keeps|]; intros _). apply triple_set_branch; eauto.
  - apply triple_return. auto with keeps.
Qed.

Lemma reached_merge s base : keeps reached (attempt_merge s base).
Proof.
  apply keeps_reached. intros P. unfold attempt_merge, check_merge_ready, require_merge_candidate,
    require_open, get_open_by_session. solve_keeps.
Qed.

(** *** Marking the stale bindings *)

Lemma classify_binding b (w w' : WtWorld (F := F)) rep :
  classify_stale current_dir b w = (w', Ok (Some rep)) → stale_binding rep = b.
Proof.
  unfold classify_stale. case_bool_decide; [done|]. unfold StateR.bind, wt_files.
  case_match; [by intros [= <- <-]|].
  destruct (is_registered current_dir b w) as [w1 [[]|]]; cbn; [done| |done]. by intros [= <- <-].
Qed.

Lemma classify_all_bindings bs (w w' : WtWorld (F := F)) reports :
  classify_all current_dir bs w = (w', Ok reports) → stale_binding <$> reports `sublist_of` bs.
Proof.
  revert w reports. induction bs as [|b bs IH]; intros w reports; cbn; [by intros [= <- <-]|].
  unfold StateR.bind. destruct (classify_stale current_dir b w) as [w1 [o|]] eqn:Hc; [|done].
  destruct (classify_all current_dir bs w1) as [w2 [rest|]] eqn:Hr; [|done]. cbn.
  intros [= <- <-]. apply IH in Hr. destruct o as [rep|]; cbn; [|by constructor].
  apply classify_binding in Hc as ->. by constructor.
Qed.

(** The bindings of reports yet to be marked are rows of the table, with
    distinct ids. *)
Definition reports_open (reports : list StaleReport) (rows : list WorktreeRow) : Prop :=
  NoDup (wb_worktree_id <$> (stale_binding <$> reports)) ∧
  ∀ rep, rep ∈ reports → open_row (stale_binding rep) rows.

Lemma decode_bindings_rows rows bs :
  decode_bindings rows = Ok bs →
  wb_worktree_id <$> bs = wr_worktree_id <$> rows ∧
  ∀ b, b ∈ bs → ∃ r, r ∈ rows ∧ row_to_binding r = Ok b.
Proof.
  revert bs. induction rows as [|r rows IH]; intros bs; cbn; [intros [= <-]; set_solver|].
  destruct (row_to_binding r) as [b|] eqn:Hb; cbn; [|done].
  destruct (decode_bindings rows) as [rest|]; cbn; [|done]. intros [= <-].
  destruct (IH rest eq_refl) as (Hids & Hin). cbn.
  split; [by rewrite Hids, (proj1 (row_to_binding_fields _ _ Hb))|].
  intros b' [->|Hb']%elem_of_cons; [exists r; set_solver|]. destruct (Hin b' Hb') as (r' & ? & ?).
  exists r'. set_solver.
Qed.

Lemma triple_detect :
  triple reached (detect_stale current_dir) (λ reports, reached_with (reports_open reports)) reached.
Proof.
  intros w Hr. unfold detect_stale, StateR.bind.
  unfold list_non_closed, StateR.bind, StateR.get, StateR.lift.
  destruct (decode_bindings _) as [bs|] eqn:Hd; [|done].
  pose proof (keeps_reached (classify_all current_dir bs)) as Hk.
  assert (∀ P, keeps (reached_with P) (classify_all current_dir bs)) as Hall.
  { intros P. clear -P. induction bs; cbn; solve_keeps. }
  pose proof (Hall (eq (ww_rows w)) w (conj Hr eq_refl)) as Hc.
  destruct (classify_all current_dir bs w) as [w' [reports|]] eqn:Hcl; [|by destruct Hc].
  destruct Hc as (Hr' & Heq). split; [done|]. rewrite <- Heq. clear Hk Hall.
  apply classify_all_bindings in Hcl. apply decode_bindings_rows in Hd as (Hids & Hin).
  pose proof (merge_sort_Permutation by_updated (List.filter not_closed (ww_rows w))) as Hperm.
  split.
  - eapply sublist_NoDup; [|apply (fmap_sublist wb_worktree_id), Hcl]. rewrite Hids, Hperm.
    destruct Hr as ((Hnd & _) & _). clear -Hnd.
    induction (ww_rows w) as [|r rows IH]; cbn; [constructor|]. apply NoDup_cons in Hnd as (Hn & Hnd).
    case_match; cbn; [|auto]. apply NoDup_cons. split; [|auto]. intros (r' & Hid & Hr')%list_elem_of_fmap.
    apply Hn, list_elem_of_fmap. exists r'. split; [done|].
    apply list_elem_of_In, filter_In in Hr' as (Hr' & _). by apply list_elem_of_In.
  - intros rep Hrep. destruct (Hin (stale_binding rep)) as (r & Hr1 & Hb).
    { eapply elem_of_sublist; [|done]. apply list_elem_of_fmap. eauto. }
    rewrite Hperm in Hr1. apply list_elem_of_In, filter_In in Hr1 as (Hr1 & Ho).
    exists r. by rewrite list_elem_of_In.
Qed.

(** Changing the row of one id leaves the other bindings open. *)
Lemma open_row_update id f b rows :
  wb_worktree_id b ≠ id → open_row b rows → open_row b (update_id id f rows).
Proof.
  intros Hid (r & Hr & Hb & Ho). exists r. split; [|done].
  apply list_elem_of_fmap. exists r. split; [|done].
  apply row_to_binding_fields in Hb as Hf. destruct Hf as (Hbid & _).
  case_match eqn:Heq; [|done]. apply String.eqb_eq in Heq. congruence.
Qed.

Lemma reached_mark_reports now reports :
  triple (reached_with (reports_open reports)) (mark_reports now reports) (λ _, reached) reached.
Proof.
  induction reports as [|rep reports IH]; cbn [mark_reports]; [apply triple_ret; by intros ? (? & _)|].
  cbv zeta. apply (triple_bind _ _ _ (λ _, reached_with (reports_open reports))).
  - destruct (negb _) eqn:Hs; cbn.
    + apply negb_true_iff, bool_decide_eq_false in Hs.
      eapply triple_conseq; [apply (triple_set_state now _ WtStale (reports_open (rep :: reports)))| | |].
      * intros rows (_ & Hin). destruct (Hin rep) as (r & Hr & Hb & Ho); [set_solver|].
        eapply open_can_move; [by exists r|].
        apply row_to_binding_fields in Hb as (_ & Hp).
        pose proof (proj1 (not_closed_parsed r _ Hp) Ho). by destruct (wb_state _).
      * done.
      * intros [] w (Hr & rows & (Hnd & Hin) & Hw). split; [done|]. rewrite Hw.
        cbn in Hnd. apply NoDup_cons in Hnd as (Hn & Hnd). split; [done|].
        intros rep' Hrep'. apply open_row_update; [|apply Hin; set_solver].
        intros Heq. apply Hn. rewrite <- Heq. apply list_elem_of_fmap. exists (stale_binding rep').
        split; [done|]. apply list_elem_of_fmap. eauto.
      * done.
    + apply triple_ret. intros w (Hr & Hnd & Hin). split; [done|]. cbn in Hnd.
      apply NoDup_cons in Hnd as (_ & Hnd). split; [done|]. intros rep' Hrep'. apply Hin. set_solver.
  - intros _. apply triple_keep_bind; [auto with keeps|]. intros b.
    eapply triple_bind; [apply IH|]. intros rest. apply keeps_ret.
Qed.

Lemma reached_mark now : keeps reached (mark_stale current_dir now).
Proof.
  unfold mark_stale. eapply triple_bind; [apply triple_detect|]. apply reached_mark_reports.
Qed.

Lemma reached_run now op (w : WtWorld (F := F)) :
  reached w → reached (wt_run current_dir worktrees_root now op w).
Proof.
  intros Hw. destruct op as [id s repo [role|]|s|s|s| |id|fuel id|s base|s name|s name checkout]; cbn [wt_run].
  - unfold create_for_role. case_match; [done|].
    by apply (triple_either _ _ _ _ (reached_create _ _ _ _ _)).
  - by apply (triple_either _ _ _ _ (reached_create _ _ _ _ _)).
  - by apply (triple_either _ _ _ _ (reached_resume _ _)).
  - by apply (triple_either _ _ _ _ (reached_stop _ _)).
  - by apply (triple_either _ _ _ _ (reached_close _ _)).
  - by apply (triple_either _ _ _ _ (reached_mark _)).
  - by apply (triple_either _ _ _ _ (reached_cleanup _ _)).
  - by apply (triple_either _ _ _ _ (reached_salvage _ _ _)).
  - by apply (triple_either _ _ _ _ (reached_merge _ _)).
  - by apply (triple_either _ _ _ _ (reached_switch _ _ _)).
  - by apply (triple_either _ _ _ _ (reached_new_branch _ _ _ _)).
Qed.
End refinement.

(** ** Main properties *)

Section properties.
Context `{UuidText} `{PermissionsJson} {F : Type} `{!WorkFiles F} `{!FileChanges F} `{!TreeChanges F}.
Context `{!GitCli F} (current_dir : result IoError string) (worktrees_root : string).

Lemma run_steps now op (w : WtWorld (F := F)) :
  wf_rows (ww_rows w) →
  wf_rows (ww_rows (wt_run current_dir worktrees_root now op w)) ∧
  rtc table_step (ww_rows w) (ww_rows (wt_run current_dir worktrees_root now op w)).
Proof. intros Hwf. by apply (reached_run current_dir worktrees_root (ww_rows w)). Qed.

(** Every public operation of the worktree manager, whether it succeeds or
    fails part way and whatever git, the file system and the clock do, changes
    the table of bindings by steps of the life cycle only: inserting an active
    binding for a session that has no open one, moving an open binding along
    [lifecycle_move] (a stopped one is not stopped again, a stale one is only
    salvaged or closed, a closed one never moves), and renaming the branch of an
    open binding. *)
Theorem manager_follows_lifecycle now op (w : WtWorld (F := F)) :
  wf_rows (ww_rows w) →
  rtc table_step (ww_rows w) (ww_rows (wt_run current_dir worktrees_root now op w)).
Proof. intros Hwf. by apply run_steps. Qed.

Lemma run_all_keeps ops (w : WtWorld (F := F)) :
  wf_rows (ww_rows w) →
  wf_rows (ww_rows (wt_run_all current_dir worktrees_root ops w)) ∧
  rows_kept (ww_rows w) (ww_rows (wt_run_all current_dir worktrees_root ops w)).
Proof.
  revert w. induction ops as [|[now op] ops IH]; cbn; intros w Hwf.
  { split; [done|]. intros r Hr. by exists r. }
  destruct (run_steps now op w Hwf) as (Hwf' & Hsteps).
  destruct (IH _ Hwf') as (Hw & Hk). split; [done|].
  eapply rows_kept_trans; [|done]. by apply table_steps_keep.
Qed.

(** C24: Over any sequence of operations the table of bindings stays well
    formed: ids are a key and a session has at most one binding that is not
    closed.  No binding is lost: its id, session, path, repository and
    permissions stay, and a closed binding does not change at all. *)
Theorem bindings_well_formed ops (w : WtWorld (F := F)) :
  wf_rows (ww_rows w) →
  wf_rows (ww_rows (wt_run_all current_dir worktrees_root ops w)) ∧
  rows_kept (ww_rows w) (ww_rows (wt_run_all current_dir worktrees_root ops w)).
Proof. apply run_all_keeps. Qed.
End properties.

(** ** Merging *)

(** A git command line that records its calls. *)
Record GitCall := mkGitCall {
  gc_cwd : string;
  gc_args : list string;
  gc_result : result IoError GitOutput;
}.

Section logged.
Context {F : Type} `{!WorkFiles F} `{!GitCli F}.

Definition logged : Type := F * list GitCall.

Definition on_files {A} (m : stateR F IoError A) : stateR logged IoError A := λ s,
  ((((m s.1).1, s.2) : logged), (m s.1).2).

#[export] Instance logged_files : WorkFiles logged := {|
  wf_canonicalize s := wf_canonicalize s.1;
  wf_symlink_metadata s := wf_symlink_metadata s.1;
  wf_metadata s := wf_metadata s.1;
  wf_read_dir s := wf_read_dir s.1;
  wf_read s := wf_read s.1;
  wf_write p b := on_files (wf_write p b);
  wf_create_dir_all p := on_files (wf_create_dir_all p);
|}.

#[export] Instance logged_git : GitCli logged := {|
  git_output cwd args s :=
    let '(f, r) := git_output cwd args s.1 in ((f, s.2 ++ [mkGitCall cwd args r]), r);
|}.

(** The call succeeded and printed nothing but blanks. *)
Definition call_blank (cwd : string) (args : list string) (c : GitCall) : Prop :=
  gc_cwd c = cwd ∧ gc_args c = args ∧
  ∃ o, gc_result c = Ok o ∧ git_code o = Some 0%N ∧ is_empty (trim (git_stdout o)) = true.

Definition call_ok (cwd : string) (args : list string) (c : GitCall) : Prop :=
  gc_cwd c = cwd ∧ gc_args c = args ∧ ∃ o, gc_result c = Ok o ∧ git_code o = Some 0%N.

(** Commands that only look at the repository. *)
Definition inspects (c : GitCall) : bool :=
  match gc_args c with
  | verb :: _ => existsb (String.eqb verb) ["rev-parse"; "diff"; "status"; "merge-tree"]
  | [] => false
  end.

Definition calls (w : WtWorld (F := logged)) : list GitCall := (ww_files w).2.


Section merging.
Context `{UuidText} `{PermissionsJson} (rows : list WorktreeRow) (log0 : list GitCall).

Abbreviation wtL := (stateR (WtWorld (F := logged)) WorktreeError).

(** Only inspections since [log0], among them one of each of [facts]. *)
Definition inspected (facts : list (GitCall → Prop)) (w : WtWorld (F := logged)) : Prop :=
  ww_rows w = rows ∧ ∃ cmds, calls w = log0 ++ cmds ∧ Forall inspects cmds ∧
    Forall (λ fact, ∃ c, c ∈ cmds ∧ fact c) facts.

Definition selected (s : Uuid) (b : WorktreeBinding) : Prop :=
  decode_row (newest (List.filter (λ r, of_session s r && not_closed r) rows)) = Ok (Some b).

Lemma inspected_less facts facts' w :
  (∀ fact, fact ∈ facts' → fact ∈ facts) → inspected facts w → inspected facts' w.
Proof.
  intros Hsub (Hr & cmds & Hc & Hi & Hf). split; [done|]. exists cmds. split_and!; [done..|].
  rewrite Forall_forall in *. auto.
Qed.

Lemma inspected_nil facts w : inspected facts w → inspected [] w.
Proof. apply inspected_less. set_solver. Qed.

Lemma git_output_logged cwd args (w : WtWorld (F := logged)) :
  ∃ c, gc_cwd c = cwd ∧ gc_args c = args ∧
    calls (wt_io (git_output cwd args) w).1 = calls w ++ [c] ∧
    ww_rows (wt_io (git_output cwd args) w).1 = ww_rows w ∧
    (wt_io (git_output cwd args) w).2 = map_err WtIo (gc_result c).
Proof.
  destruct w as [rs [f log]]. unfold wt_io, calls. cbn.
  destruct (git_output cwd args f) as [f' r]. cbn. exists (mkGitCall cwd args r). done.
Qed.

Lemma triple_output cwd args facts :
  inspects (mkGitCall cwd args (Ok (mkGitOutput None "" ""))) = true →
  triple (inspected facts) (wt_io (git_output cwd args) : wtL _)
    (λ o, inspected ((λ c, gc_cwd c = cwd ∧ gc_args c = args ∧ gc_result c = Ok o) :: facts))
    (inspected []).
Proof.
  intros Hv w (Hr & cmds & Hc & Hi & Hf).
  destruct (git_output_logged cwd args w) as (c & Hcwd & Hargs & Hlog & Hrows & Hres).
  destruct (wt_io (git_output cwd args) w) as [w' r]. cbn in Hlog, Hrows, Hres.
  assert (Forall inspects (cmds ++ [c])) as Hi'.
  { apply Forall_app. split; [done|]. constructor; [|done]. apply Is_true_true.
    unfold inspects. rewrite Hargs. exact Hv. }
  assert (calls w' = log0 ++ cmds ++ [c]) as Hlog' by by rewrite Hlog, Hc, app_assoc.
  destruct r as [o|e]; cbn in Hres; (split; [congruence|]); exists (cmds ++ [c]); [|by split_and!].
  split_and!; [done..|]. destruct (gc_result c) eqn:Hgc; [|done]. injection Hres as ->.
  constructor; [exists c; set_solver|].
  eapply Forall_impl; [done|]. intros fact (c' & Hin & Hfact). exists c'. set_solver.
Qed.

Lemma triple_git cwd args facts :
  inspects (mkGitCall cwd args (Ok (mkGitOutput None "" ""))) = true →
  triple (inspected facts) (git cwd args : wtL _)
    (λ out, inspected ((λ c, gc_cwd c = cwd ∧ gc_args c = args ∧
       ∃ o, gc_result c = Ok o ∧ git_code o = Some 0%N ∧ git_stdout o = out) :: facts))
    (inspected []).
Proof.
  intros Hv. unfold git. eapply triple_bind; [by apply triple_output|]. intros o.
  case_bool_decide as Ho; [apply triple_ret|apply triple_fail; intros w; apply inspected_nil].
  intros w (Hr & cmds & Hc & Hi & Hf). split; [done|]. exists cmds. split_and!; [done..|].
  apply Forall_cons in Hf as ((c & Hin & Hcwd & Hargs & Hres) & Hf).
  constructor; [|done]. exists c. naive_solver.
Qed.

Lemma triple_commit_ref repo rev facts :
  triple (inspected facts) (ensure_commit_ref repo rev : wtL _) (λ _, inspected facts) (inspected []).
Proof.
  unfold ensure_commit_ref. eapply triple_bind; [by apply triple_git|]. intros o.
  apply triple_ret. intros w. apply inspected_less. set_solver.
Qed.

Lemma triple_dirty path facts :
  triple (inspected facts) (worktree_is_dirty path : wtL _)
    (λ dirty, inspected
       ((λ c, dirty = false → call_blank path ["status"; "--porcelain"] c) :: facts))
    (inspected []).
Proof.
  unfold worktree_is_dirty. eapply triple_bind; [by apply triple_git|]. intros out.
  apply triple_ret. intros w (Hr & cmds & Hc & Hi & Hf). split; [done|]. exists cmds.
  split_and!; [done..|]. apply Forall_cons in Hf as ((c & Hin & Hcwd & Hargs & o & Ho & Hok & Hout) & Hf).
  constructor; [|done]. exists c. split; [done|]. intros Hd%negb_false_iff. split_and!; [done..|].
  exists o. by rewrite Hout.
Qed.

Lemma triple_diff b base facts :
  triple (inspected facts) (diff_summary_for b base : wtL _) (λ _, inspected facts) (inspected []).
Proof.
  unfold diff_summary_for. do 2 (eapply triple_bind; [apply triple_commit_ref|]; intros ?).
  eapply triple_bind; [by apply triple_git|]. intros out. destruct (numstat out) as [[? ?] ?].
  apply triple_ret. intros w. apply inspected_less. set_solver.
Qed.

Definition merge_tree_args (base branch : string) : list string :=
  ["merge-tree"; "--write-tree"; "--quiet"; base; branch].

Lemma triple_would_conflict repo base branch facts :
  triple (inspected facts) (merge_would_conflict repo base branch : wtL _)
    (λ conflict, inspected
       ((λ c, conflict = false → call_ok repo (merge_tree_args base branch) c) :: facts))
    (inspected []).
Proof.
  unfold merge_would_conflict. do 2 (eapply triple_bind; [apply triple_commit_ref|]; intros ?).
  eapply triple_bind; [by apply triple_output|]. intros o.
  assert (∀ conflict : bool, (conflict = false → git_code o = Some 0%N) → ∀ w,
    inspected ((λ c, gc_cwd c = repo ∧ gc_args c = merge_tree_args base branch ∧
      gc_result c = Ok o) :: facts) w →
    inspected ((λ c, conflict = false → call_ok repo (merge_tree_args base branch) c) :: facts) w)
    as Hconv.
  { intros conflict Hz w (Hr & cmds & Hc & Hi & Hf). split; [done|]. exists cmds.
    split_and!; [done..|]. apply Forall_cons in Hf as ((c & Hin & Hcwd & Hargs & Hres) & Hf).
    constructor; [|done]. exists c. split; [done|]. intros Hd. split_and!; [done..|]. eauto. }
  destruct (git_code o) as [[|[]]|] eqn:Hcode;
    first [ apply triple_ret, Hconv; done
          | cbv zeta; apply triple_fail; intros w; apply inspected_nil ].
Qed.

Lemma triple_candidate s facts :
  triple (inspected facts) (require_merge_candidate s : wtL _)
    (λ b w, inspected facts w ∧ selected s b) (inspected []).
Proof.
  unfold require_merge_candidate, require_open, get_open_by_session.
  intros w Hw. pose proof (inspected_nil _ _ Hw) as Hn. pose proof (proj1 Hw) as Hrows.
  unfold StateR.bind, StateR.get, StateR.lift, wt_files. rewrite Hrows.
  unfold selected. destruct (decode_row _) as [[b|]|e]; cbn; [|done..].
  destruct (negb _); cbn; [exact Hn|by split].
Qed.

(** What has been established before anything is touched. *)
Definition merge_facts (b : WorktreeBinding) (base : string) : list (GitCall → Prop) :=
  [call_blank (wb_repo_root b) ["status"; "--porcelain"];
   call_ok (wb_repo_root b) (merge_tree_args base (wb_branch b));
   call_blank (wb_path b) ["status"; "--porcelain"]].

Definition checkout_args (base : string) : list string := ["checkout"; "--quiet"; base].
Definition merge_args (branch : string) : list string :=
  ["merge"; "--no-ff"; "-m"; ("impetus: merge " ++ branch)%string; branch].

(** How a merge that passed its checks ends. *)
Definition merge_touched (b : WorktreeBinding) (base : string) (ok : bool) (touched : list GitCall)
    : Prop :=
  (∃ c, touched = [c] ∧ gc_cwd c = wb_repo_root b ∧ gc_args c = checkout_args base ∧ ok = false) ∨
  (∃ c m, touched = [c; m] ∧ call_ok (wb_repo_root b) (checkout_args base) c ∧
     gc_cwd m = wb_repo_root b ∧ gc_args m = merge_args (wb_branch b) ∧
     (ok = true → call_ok (wb_repo_root b) (merge_args (wb_branch b)) m)).

Lemma git_logged cwd args (w : WtWorld (F := logged)) :
  ∃ c, calls (git cwd args w).1 = calls w ++ [c] ∧ ww_rows (git cwd args w).1 = ww_rows w ∧
    gc_cwd c = cwd ∧ gc_args c = args ∧
    (is_ok (git cwd args w).2 = true → call_ok cwd args c).
Proof.
  destruct (git_output_logged cwd args w) as (c & Hcwd & Hargs & Hlog & Hrows & Hres).
  exists c. unfold git, StateR.bind. destruct (wt_io _ w) as [w' [o|e]]; cbn in *; [|done].
  destruct (gc_result c) eqn:Hgc; [|done]. injection Hres as ->.
  case_bool_decide; cbn; [|done]. split_and!; [done..|]. intros _. split_and!; eauto.
Qed.

Lemma merge_tail b base e w :
  ww_rows w = rows →
  let m : wtL WorktreeBinding :=
    git (wb_repo_root b) (checkout_args base) ;;;
    git (wb_repo_root b) (merge_args (wb_branch b)) ;;;
    reread (wb_worktree_id b) e in
  ww_rows (m w).1 = rows ∧
  ∃ touched, calls (m w).1 = calls w ++ touched ∧ merge_touched b base (is_ok (m w).2) touched.
Proof.
  intros Hrows m. subst m. unfold StateR.bind.
  destruct (git_logged (wb_repo_root b) (checkout_args base) w) as (c & Hl1 & Hr1 & Hcwd1 & Ha1 & Hok1).
  destruct (git _ (checkout_args base) w) as [w1 [o1|e1]]; cbn in *; cycle 1.
  { split; [congruence|]. exists [c]. split; [done|]. left. eauto. }
  destruct (git_logged (wb_repo_root b) (merge_args (wb_branch b)) w1) as (m & Hl2 & Hr2 & Hcwd2 & Ha2 & Hok2).
  destruct (git _ (merge_args _) w1) as [w2 [o2|e2]]; cbn in *.
  - unfold reread, get_by_worktree_id, StateR.bind, StateR.get, StateR.lift.
    assert (calls w2 = calls w ++ [c; m]) as Hl by by rewrite Hl2, Hl1, <- app_assoc.
    repeat (case_match; simplify_eq/=); (split; [congruence|]; exists [c; m]; split; [done|];
      right; exists c, m; split_and!; auto).
  - split; [congruence|]. exists [c; m]. split; [by rewrite Hl2, Hl1, <- app_assoc|].
    right. exists c, m. split_and!; auto.
Qed.

(** The outcome of a merge attempt started with [log0] and [rows]. *)
Definition merge_outcome (s : Uuid) (base : string) (ok : bool) (w' : WtWorld (F := logged)) : Prop :=
  ww_rows w' = rows ∧ ∃ checks touched, calls w' = log0 ++ checks ++ touched ∧
    Forall inspects checks ∧
    (touched = [] ∧ ok = false ∨
     ∃ b, selected s b ∧ Forall (λ fact, ∃ c, c ∈ checks ∧ fact c) (merge_facts b base) ∧
       merge_touched b base ok touched).

Lemma inspected_outcome s base facts w : inspected facts w → merge_outcome s base false w.
Proof.
  intros (Hr & cmds & Hc & Hi & _). split; [done|]. exists cmds, []. rewrite app_nil_r. auto.
Qed.

(** What a report promises. *)
Definition report_holds (s : Uuid) (base : string) (report : MergeReadyReport)
    (w : WtWorld (F := logged)) : Prop :=
  ∃ b, selected s b ∧
    mr_merge_ready report = negb (mr_dirty report) && negb (mr_has_conflicts report) ∧
    inspected
      [(λ c, mr_has_conflicts report = false →
          call_ok (wb_repo_root b) (merge_tree_args base (wb_branch b)) c);
       (λ c, mr_dirty report = false → call_blank (wb_path b) ["status"; "--porcelain"] c)] w.

Lemma triple_check_ready s base :
  triple (inspected []) (check_merge_ready s base : wtL _) (report_holds s base) (inspected []).
Proof.
  unfold check_merge_ready. eapply triple_bind; [apply triple_candidate|]. intros b w (Hw & Hsel).
  revert w Hw. unfold report_holds.
  match goal with |- ∀ w, _ → match ?m w with _ => _ end =>
    change (triple (inspected []) m (report_holds s base) (inspected [])) end.
  eapply triple_bind; [apply triple_diff|]. intros diff.
  eapply triple_bind; [apply triple_dirty|]. intros dirty.
  eapply triple_bind; [apply triple_would_conflict|]. intros conflicts.
  apply triple_ret. intros w Hw. by exists b.
Qed.

Lemma merge_attempt_outcome s base :
  triple (inspected []) (attempt_merge s base : wtL _)
    (λ _, merge_outcome s base true) (merge_outcome s base false).
Proof.
  unfold attempt_merge. eapply triple_bind.
  { eapply triple_conseq; [apply triple_check_ready|done|intros a w H1; exact H1|].
    intros w. apply inspected_outcome. }
  intros report. destruct (mr_has_conflicts report) eqn:Hconf.
  { apply triple_fail. intros w (b & _ & _ & Hw). by eapply inspected_outcome. }
  destruct (mr_dirty report) eqn:Hdirty; intros w (b & Hsel & Hready & Hw);
    rewrite Hdirty, Hconf in Hready; cbn in Hready; rewrite Hready; cbn [negb].
  { by eapply inspected_outcome. }
  pose proof (triple_candidate s _ w Hw) as Hc. unfold StateR.bind at 1.
  destruct (require_merge_candidate s w) as [w1 [b'|e]]; [|by eapply inspected_outcome].
  destruct Hc as (Hw1 & Hsel'). assert (b' = b) as -> by (unfold selected in *; congruence).
  pose proof (triple_dirty (wb_repo_root b) _ w1 Hw1) as Hd. unfold StateR.bind at 1.
  destruct (worktree_is_dirty (wb_repo_root b) w1) as [w2 [[]|e]]; try by eapply inspected_outcome.
  destruct (merge_tail b base (WtNotFound s) w2 (proj1 Hd)) as (Hrows & touched & Hlog & Htouched).
  destruct Hd as (_ & checks & Hlog2 & Hi & Hfacts).
  cbv zeta in Hrows, Hlog, Htouched.
  assert (Forall (λ fact, ∃ c, c ∈ checks ∧ fact c) (merge_facts b base)) as Hfacts'.
  { revert Hfacts. unfold merge_facts. rewrite Hconf, Hdirty, !Forall_cons. naive_solver. }
  match type of Hrows with ww_rows ?x.1 = _ =>
    change (match x with
            | (w3, Ok _) => merge_outcome s base true w3
            | (w3, Err _) => merge_outcome s base false w3
            end); destruct x as [w3 [b3|e3]] end; cbn in *;
    (split; [done|]; exists checks, touched; split_and!; [by rewrite Hlog, Hlog2, app_assoc|done|];
     right; exists b; by split_and!).
Qed.

End merging.

Context `{UuidText} `{PermissionsJson}.

(** C25: A merge touches the repository only after its checks.  Whatever git
    answers, the commands of [attempt_merge] are inspections, and then, only
    when the session's open binding was found, its worktree's status was blank,
    [merge-tree] of the base and the branch exited with 0 and the status of the
    repository root was blank: a checkout of the base at the root, and if that
    succeeded the merge of the binding's branch.  It reports success only if the
    checkout and the merge succeeded.  The table of bindings does not change. *)
Theorem merge_touches_checked s base (w : WtWorld (F := logged)) :
  merge_outcome (ww_rows w) (calls w) s base (is_ok (attempt_merge s base w).2)
    (attempt_merge s base w).1.
Proof.
  assert (inspected (ww_rows w) (calls w) [] w) as Hw.
  { split; [done|]. exists []. by rewrite app_nil_r. }
  pose proof (merge_attempt_outcome (ww_rows w) (calls w) s base w Hw) as Hm.
  by destruct (attempt_merge s base w) as [w' [b|e]].
Qed.
End logged.

(** ** Rows read back *)

Section roundtrip.
Context `{UuidTextLaws} `{PermissionsJsonLaws}.

Lemma binding_roundtrip now b : row_to_binding (row_of_binding now b) = Ok b.
Proof.
  destruct b as [id s path branch repo state [p|]]; unfold row_to_binding; cbn;
    rewrite uuid_parse_display; cbn; [|by destruct state].
  destruct (permissions_json_roundtrip p) as (Hne & Hp). unfold is_empty.
  rewrite (proj2 (String.eqb_neq _ _) Hne), Hp. by destruct state.
Qed.
End roundtrip.

(** ** A worked example *)

Section sample.
#[local] Instance sample_uuid_text : UuidText :=
  {| uuid_to_string := dec; uuid_parse_str := parse_u64 |}.

#[local] Instance sample_permissions : PermissionsJson :=
  {| permissions_json p := perm_workspace_root p;
     permissions_of_json raw := Some (for_build raw) |}.

#[local] Instance sample_tree : TreeChanges Demo.Fs :=
  {| wf_remove_dir_all p f := (delete p f, Ok tt); wf_copy _ _ f := (f, Ok tt) |}.

(** A git that knows the worktrees whose directories it was asked to add. *)
#[local] Instance sample_git : GitCli Demo.Fs :=
  {| git_output _ args f :=
       let done text := Ok (mkGitOutput (Some 0%N) text "") in
       match args with
       | ["worktree"; "add"; _; _; path] => (<[path := Demo.Dir []]> f, done "")
       | ["worktree"; "remove"; _; path] => (delete path f, done "")
       | ["worktree"; "list"; _] => (f, done ("worktree /wt/b" ++ String newline "")%string)
       | _ => (f, done "")
       end |}.

Definition sample_world : WtWorld (F := Demo.Fs) :=
  mkWtWorld [] {[ "/repo" := Demo.Dir []; "/wt" := Demo.Dir [] ]}.

Definition sample_ops : list (N * wt_op) :=
  [(1%N, OpCreate "a" 7%N "/repo" (Some WorkBuild)); (2%N, OpStop 7%N);
   (3%N, OpCreate "b" 7%N "/repo" None); (4%N, OpClose 7%N); (5%N, OpResume 7%N);
   (6%N, OpCreate "b" 7%N "/repo" None); (7%N, OpMarkStale)].

Abbreviation sample_run := (wt_run (F := Demo.Fs) (Ok "/") "/wt").
Abbreviation sample_run_all := (wt_run_all (F := Demo.Fs) (Ok "/") "/wt").

Lemma wf_rows_nil : wf_rows [].
Proof. split; [constructor|]. intros r1 r2 H1. by apply elem_of_nil in H1. Qed.

Example sample_states :
  (λ r, (wr_worktree_id r, wr_state r)) <$> ww_rows (sample_run_all sample_ops sample_world) =
  [("a", "closed"); ("b", "active")].
Proof. vm_compute. reflexivity. Qed.

Lemma manager_follows_lifecycle_witness :
  wf_rows (ww_rows sample_world) ∧
  rtc table_step (ww_rows sample_world)
    (ww_rows (sample_run 1%N (OpCreate "a" 7%N "/repo" (Some WorkBuild)) sample_world)).
Proof.
  split; [exact wf_rows_nil|].
  apply (manager_follows_lifecycle (Ok "/") "/wt" 1%N
    (OpCreate "a" 7%N "/repo" (Some WorkBuild)) sample_world), wf_rows_nil.
Defined.

Lemma bindings_well_formed_witness :
  let w := sample_run_all sample_ops sample_world in
  length (ww_rows w) = 2 ∧ wf_rows (ww_rows w) ∧
  rows_kept (ww_rows w) (ww_rows (sample_run_all [(8%N, OpSalvage 5 "b"); (9%N, OpClose 7%N)] w)).
Proof.
  intros w. split; [vm_compute; reflexivity|].
  pose proof (proj1 (bindings_well_formed (Ok "/") "/wt" sample_ops sample_world wf_rows_nil)) as Hwf.
  split; [exact Hwf|].
  apply (bindings_well_formed (Ok "/") "/wt" [(8%N, OpSalvage 5 "b"); (9%N, OpClose 7%N)] w Hwf).
Defined.

(** A merge of the clean worktree succeeds and touches the repository last. *)
Example sample_merge :
  let w := mkWtWorld (ww_rows (sample_run_all sample_ops sample_world))
             (ww_files (sample_run_all sample_ops sample_world), []) in
  gc_args <$> calls (attempt_merge (F := logged (F := Demo.Fs)) 7%N "main" w).1 =
  [["rev-parse"; "--verify"; "main^{commit}"]; ["rev-parse"; "--verify"; "impetus/wt-b^{commit}"];
   ["diff"; "--numstat"; "main...impetus/wt-b"]; ["status"; "--porcelain"];
   ["rev-parse"; "--verify"; "main^{commit}"]; ["rev-parse"; "--verify"; "impetus/wt-b^{commit}"];
   ["merge-tree"; "--write-tree"; "--quiet"; "main"; "impetus/wt-b"]; ["status"; "--porcelain"];
   ["checkout"; "--quiet"; "main"];
   ["merge"; "--no-ff"; "-m"; "impetus: merge impetus/wt-b"; "impetus/wt-b"]].
Proof. vm_compute. reflexivity. Qed.
End sample.
