(* ===== verification/ExtensionLifecycle.v ===== *)
(** * Installed extensions

    [crates/impetus-core/src/extension_lifecycle.rs]: applying an install plan,
    removing, enabling, disabling and unloading an install, the health report
    and the repair.  The files of a disabled or unloaded install are kept under
    the suffix [.disabled].  Fresh ids and the clock are arguments; the plan is
    an input, as the importers that build it are. *)

From S2P Require Import Prelude Str Action PathScope WorkspaceFiles ExtensionId Ownership.

Open Scope string_scope.
Open Scope nat_scope.
Open Scope list_scope.
Open Scope impetus_scope.

(** ** Data *)

Inductive ExtensionSource :=
  | SourceNative | SourceAgentSkills | SourceMcp | SourceAgentPlugins | SourceClaudeCode
  | SourceCodex | SourceCursor | SourceDeepSeekHarness | SourceCustom (name : string).

Record ResolutionPlan := mkResolutionPlan {
  res_source : ExtensionSource;
  res_module_id : string;
  res_module_name : string;
  res_version : string;
  res_source_path : string;
}.

(** The manifest of a plan plays no part in applying it. *)
Record InstallPlan (Manifest : Type) := mkInstallPlan {
  plan_resolution : ResolutionPlan;
  plan_manifest : Manifest;
  plan_created_paths : list string;
  plan_modified_paths : list string;
}.
Arguments mkInstallPlan {Manifest}.
Arguments plan_resolution {Manifest}.
Arguments plan_manifest {Manifest}.
Arguments plan_created_paths {Manifest}.
Arguments plan_modified_paths {Manifest}.

Inductive ExtensionLifecycleStatus := Enabled | Disabled | Unloaded.

Definition is_active_on_disk (s : ExtensionLifecycleStatus) : bool :=
  match s with Enabled => true | _ => false end.

Definition is_loaded_in_runtime (s : ExtensionLifecycleStatus) : bool :=
  match s with Enabled => true | _ => false end.

Record ExtensionState := mkExtensionState {
  ext_installation_id : string;
  ext_resolution : ResolutionPlan;
  ext_created_paths : list string;
  ext_modified_paths : list string;
  ext_ownership : list OwnershipRecord;
  ext_status : ExtensionLifecycleStatus;
}.

Definition with_ext_status (s : ExtensionLifecycleStatus) (e : ExtensionState) : ExtensionState :=
  mkExtensionState (ext_installation_id e) (ext_resolution e) (ext_created_paths e)
    (ext_modified_paths e) (ext_ownership e) s.

(** The errors of the operations; a transparent wrapper is its content, and the
    texts of [PathKey] and [DoctorError] are left out. *)
Inductive ExtensionError :=
  | ExtIo (e : IoError)
  | ExtOwnership (e : OwnershipError)
  | StateExists (id : string)
  | StateNotFound (id : string)
  | ExtInvalidId (e : ExtensionIdError)
  | ExtPathKey
  | SourceMissing (path : string)
  | DoctorNotFound (id : string).

(** serde_json's text of a state. *)
Class StateJson := {
  state_text : Type;
  state_json : ExtensionState → state_text;
  state_of_json : state_text → result IoError ExtensionState;
}.

Class StateJsonLaws `{StateJson} := {
  state_json_roundtrip e : state_of_json (state_json e) = Ok e;
}.

(** A row of [extension_install_state]. *)
Record StateRow `{StateJson} := mkStateRow {
  row_installation_id : string;
  row_state_json : state_text;
  row_created_unix_ms : N;
}.
Arguments mkStateRow {_}.

(** [Vec::dedup] of paths. *)
Fixpoint dedup_paths (l : list string) : list string :=
  match l with
  | x :: ((y :: _) as l') =>
      if bool_decide (components x = components y) then dedup_paths l' else x :: dedup_paths l'
  | _ => l
  end.

(** The text of the error ends in the source's [Debug] form, which is left out. *)
Definition type_dir_for_source (s : ExtensionSource) : result ExtensionIdError ExtensionTypeDir :=
  match s with
  | SourceAgentSkills => Ok Skills
  | SourceMcp => Ok Mcp
  | _ => Err (PathEscape "unsupported extension source for path safety")
  end.

Definition source_label (s : ExtensionSource) : string :=
  match s with
  | SourceNative => "native"
  | SourceAgentSkills => "agent_skills"
  | SourceMcp => "mcp"
  | SourceAgentPlugins => "agent_plugins"
  | SourceClaudeCode => "claude_code"
  | SourceCodex => "codex"
  | SourceCursor => "cursor"
  | SourceDeepSeekHarness => "deepseek_harness"
  | SourceCustom name => name
  end.

Definition provenance (r : ResolutionPlan) : string :=
  ("extension://" ++ source_label (res_source r) ++ "/" ++ res_module_id r ++ "/"
   ++ res_version r)%string.

Definition OWNER_IMPETUS : string := "impetus".

(** [{path}.disabled] *)
Definition sidelined_path (active : string) : string := (active ++ ".disabled")%string.

Record LifecycleResult := mkLifecycleResult {
  lc_installation_id : string;
  lc_status : ExtensionLifecycleStatus;
  lc_touched_paths : list string;
}.

Record RemoveResult := mkRemoveResult {
  rm_installation_id : string;
  rm_removed_paths : list string;
}.

Record RepairResult := mkRepairResult {
  rp_installation_id : string;
  rp_repaired_paths : list string;
  rp_skipped_ok : list string;
}.

Inductive PathHealthStatus :=
  | HealthOk
  | HealthMissing
  | HealthDigestMismatch (expected actual : string)
  | HealthUnreadable (reason : string).

Definition health_is_ok (s : PathHealthStatus) : bool :=
  match s with HealthOk => true | _ => false end.

Record PathHealthReport := mkPathHealthReport {
  health_path : string;
  health_status : PathHealthStatus;
}.

Record InstallHealthReport := mkInstallHealthReport {
  ih_installation_id : string;
  ih_state_present : bool;
  ih_resolution : option ResolutionPlan;
  ih_paths : list PathHealthReport;
  ih_healthy : bool;
}.

Record DoctorReport := mkDoctorReport {
  doctor_installations : list InstallHealthReport;
  doctor_healthy : bool;
}.

(** ** Operations *)

Section operations.
Context `{Codec} `{StateJson} {F : Type} `{!WorkFiles F} `{!FileChanges F}.
Context (to_lowercase : string → string) (current_dir : result IoError string).

Record ExtWorld := mkExtWorld {
  xw_own : OwnWorld F;
  xw_states : list StateRow;
}.

Abbreviation extR := (stateR ExtWorld ExtensionError).

Definition on_own {A} (m : stateR (OwnWorld F) OwnershipError A) : extR A := λ w,
  let '(o, r) := m (xw_own w) in (mkExtWorld o (xw_states w), map_err ExtOwnership r).

Definition ext_io {A} (m : stateR F IoError A) : extR A := λ w,
  let '(f, r) := m (ow_files (xw_own w)) in
  (mkExtWorld (mkOwnWorld (ow_records (xw_own w)) f) (xw_states w), map_err ExtIo r).

Definition put_states (rows : list StateRow) : extR () := λ w, (mkExtWorld (xw_own w) rows, Ok tt).

Definition get_files : extR F := λ w, (w, Ok (ow_files (xw_own w))).

Definition get_records : extR OwnershipTable := λ w, (w, Ok (ow_records (xw_own w))).

(** *** The install-state store *)

Definition has_row (id : string) (rows : list StateRow) : bool :=
  existsb (λ r, String.eqb (row_installation_id r) id) rows.

Definition state_put (now : N) (e : ExtensionState) : extR () :=
  w <-- StateR.get ;;
  if has_row (ext_installation_id e) (xw_states w)
  then StateR.fail (StateExists (ext_installation_id e))
  else put_states (xw_states w ++ [mkStateRow (ext_installation_id e) (state_json e) now]).

Definition update_row (e : ExtensionState) (r : StateRow) : StateRow :=
  if String.eqb (row_installation_id r) (ext_installation_id e)
  then mkStateRow (row_installation_id r) (state_json e) (row_created_unix_ms r) else r.

Definition state_update (e : ExtensionState) : extR bool :=
  w <-- StateR.get ;;
  put_states (update_row e <$> xw_states w) ;;;
  StateR.ret (has_row (ext_installation_id e) (xw_states w)).

Definition state_get (id : string) : extR (option ExtensionState) :=
  w <-- StateR.get ;;
  match List.find (λ r, String.eqb (row_installation_id r) id) (xw_states w) with
  | None => StateR.ret None
  | Some row => StateR.lift (Some <$> map_err ExtIo (state_of_json (row_state_json row)))
  end.

Definition state_delete (id : string) : extR bool :=
  w <-- StateR.get ;;
  put_states (List.filter (λ r, negb (String.eqb (row_installation_id r) id)) (xw_states w)) ;;;
  StateR.ret (has_row id (xw_states w)).

(** [ORDER BY created_unix_ms, installation_id] *)
Definition by_creation : relation StateRow := λ a b,
  (row_created_unix_ms a < row_created_unix_ms b)%N ∨
  row_created_unix_ms a = row_created_unix_ms b ∧
  String.le (row_installation_id a) (row_installation_id b).

#[global] Instance by_creation_dec : RelDecision by_creation.
Proof. intros a b. unfold by_creation. apply _. Defined.

Fixpoint decode_states (rows : list StateRow) : result IoError (list ExtensionState) :=
  match rows with
  | [] => Ok []
  | row :: rows' =>
      e ← state_of_json (row_state_json row);
      rest ← decode_states rows';
      Ok (e :: rest)
  end.

Definition state_list_all : extR (list ExtensionState) :=
  w <-- StateR.get ;;
  StateR.lift (map_err ExtIo (decode_states (merge_sort by_creation (xw_states w)))).

(** *** Planning and applying *)

Fixpoint classify_paths (destinations : list string) (f : F) (created modified : list string)
    : result ExtensionError (list string * list string) :=
  match destinations with
  | [] => Ok (created, modified)
  | dest :: destinations' =>
      key ← map_err (λ _, ExtPathKey) (path_key current_dir dest f);
      if wf_exists f key then classify_paths destinations' f created (modified ++ [key])
      else classify_paths destinations' f (created ++ [key]) modified
  end.

Definition classify_plan {Manifest} (resolution : ResolutionPlan) (manifest : Manifest)
    (destinations : list string) (f : F) : result ExtensionError (InstallPlan Manifest) :=
  paths ← classify_paths destinations f [] [];
  Ok (mkInstallPlan resolution manifest (sort_paths paths.1) (sort_paths paths.2)).

Definition make_parent (dest : string) : extR () :=
  match parent dest with
  | Some dir => ext_io (wf_create_dir_all dir)
  | None => StateR.ret tt
  end.

Definition install_record (id source digest version key : string) : OwnershipRecord :=
  mkOwnershipRecord key OWNER_IMPETUS source digest version id.

(** The [for] over the created paths. *)
Fixpoint apply_created (id source digest version bytes : string) (dests : list string)
    : extR (list OwnershipRecord) :=
  match dests with
  | [] => StateR.ret []
  | dest :: dests' =>
      make_parent dest ;;;
      f <-- get_files ;;
      key <-- StateR.lift (map_err (λ _, ExtPathKey) (path_key current_dir dest f)) ;;
      let record := install_record id source digest version key in
      on_own (own_create record) ;;;
      ext_io (wf_write dest bytes) ;;;
      rest <-- apply_created id source digest version bytes dests' ;;
      StateR.ret (record :: rest)
  end.

(** The [for] over the modified paths. *)
Fixpoint apply_modified (id source version bytes : string) (dests : list string)
    : extR (list OwnershipRecord) :=
  match dests with
  | [] => StateR.ret []
  | dest :: dests' =>
      on_own (ensure_can_overwrite current_dir dest) ;;;
      updated <-- on_own (own_repair current_dir dest bytes false) ;;
      on_own (rebind_installation (own_path updated) id source version) ;;;
      records <-- get_records ;;
      rebound <-- StateR.lift (ok_or (get_by_path (own_path updated) records)
                    (ExtOwnership (NotOwned (own_path updated)))) ;;
      rest <-- apply_modified id source version bytes dests' ;;
      StateR.ret (rebound :: rest)
  end.

Definition apply_install {Manifest} (new_id : string) (now : N) (plan : InstallPlan Manifest)
    : extR ExtensionState :=
  let resolution := plan_resolution plan in
  bytes <-- ext_io (λ f, (f, wf_read f (res_source_path resolution))) ;;
  let source := provenance resolution in
  created <-- apply_created new_id source (content_digest bytes) (res_version resolution) bytes
                (plan_created_paths plan) ;;
  modified <-- apply_modified new_id source (res_version resolution) bytes
                 (plan_modified_paths plan) ;;
  let state := mkExtensionState new_id resolution (plan_created_paths plan)
                 (plan_modified_paths plan) (merge_sort by_path (created ++ modified)) Enabled in
  state_put now state ;;;
  StateR.ret state.

(** *** Removal *)

(** [state_store.get(id)?.ok_or_else(..)?], [type_dir_for_source] and the records,
    every one of them on an install path of the module. *)
Fixpoint ensure_owned (t : ExtensionTypeDir) (module_id : string) (records : list OwnershipRecord)
    : result ExtensionError () :=
  match records with
  | [] => Ok tt
  | r :: records' =>
      _ ← map_err ExtInvalidId (ensure_owned_extension_path to_lowercase (own_path r) t module_id);
      ensure_owned t module_id records'
  end.

Definition state_of_id (id : string) : extR ExtensionState :=
  found <-- state_get id ;;
  StateR.lift (ok_or found (StateNotFound id)).

Definition type_dir_of (e : ExtensionState) : extR ExtensionTypeDir :=
  StateR.lift (map_err ExtInvalidId (type_dir_for_source (res_source (ext_resolution e)))).

Definition owned_records (id : string) (t : ExtensionTypeDir) (e : ExtensionState)
    : extR (list OwnershipRecord) :=
  table <-- get_records ;;
  let records := list_by_installation_id id table in
  StateR.lift (ensure_owned t (res_module_id (ext_resolution e)) records) ;;;
  StateR.ret records.

Fixpoint remove_records (records : list OwnershipRecord) : extR (list string) :=
  match records with
  | [] => StateR.ret []
  | r :: records' =>
      let path := own_path r in
      let side := sidelined_path path in
      f <-- get_files ;;
      StateR.when (wf_exists f side) (ext_io (wf_remove_file side)) ;;;
      on_own (uninstall current_dir path OWNER_IMPETUS) ;;;
      rest <-- remove_records records' ;;
      StateR.ret ((if wf_exists f side then [side] else []) ++ path :: rest)
  end.

Definition remove_install (id : string) : extR RemoveResult :=
  e <-- state_of_id id ;;
  t <-- type_dir_of e ;;
  records <-- owned_records id t e ;;
  removed <-- remove_records records ;;
  state_delete id ;;;
  StateR.ret (mkRemoveResult id removed).

(** *** Enable, disable, unload *)

Fixpoint activate_records (records : list OwnershipRecord) : extR (list string) :=
  match records with
  | [] => StateR.ret []
  | r :: records' =>
      let active := own_path r in
      let side := sidelined_path active in
      f <-- get_files ;;
      touched <--
        (if wf_exists f side && negb (wf_exists f active) then
           make_parent active ;;;
           ext_io (wf_rename side active) ;;;
           StateR.ret [active]
         else if wf_exists f active then StateR.ret [active]
         else StateR.ret []) ;;
      rest <-- activate_records records' ;;
      StateR.ret (touched ++ rest)
  end.

Fixpoint sideline_records (records : list OwnershipRecord) : extR (list string) :=
  match records with
  | [] => StateR.ret []
  | r :: records' =>
      let active := own_path r in
      let side := sidelined_path active in
      f <-- get_files ;;
      touched <--
        (if wf_exists f active then
           ext_io (wf_rename active side) ;;;
           StateR.ret [side]
         else if wf_exists f side then StateR.ret [side]
         else StateR.ret []) ;;
      rest <-- sideline_records records' ;;
      StateR.ret (touched ++ rest)
  end.

Definition set_lifecycle_status (id : string) (target : ExtensionLifecycleStatus)
    : extR LifecycleResult :=
  e <-- state_of_id id ;;
  t <-- type_dir_of e ;;
  records <-- owned_records id t e ;;
  touched <-- (if is_active_on_disk target then activate_records records
               else sideline_records records) ;;
  updated <-- state_update (with_ext_status target e) ;;
  if negb updated then StateR.fail (StateNotFound id)
  else StateR.ret (mkLifecycleResult id target (dedup_paths (sort_paths touched))).

Definition enable_install (id : string) : extR LifecycleResult := set_lifecycle_status id Enabled.
Definition disable_install (id : string) : extR LifecycleResult := set_lifecycle_status id Disabled.
Definition unload_install (id : string) : extR LifecycleResult := set_lifecycle_status id Unloaded.

(** *** Health and repair *)

Definition digest_health (bytes : string) (r : OwnershipRecord) : PathHealthStatus :=
  let actual := content_digest bytes in
  if String.eqb actual (own_digest r) then HealthOk
  else HealthDigestMismatch (own_digest r) actual.

Definition read_health (path : string) (r : OwnershipRecord) (f : F) : PathHealthStatus :=
  match wf_read f path with
  | Ok bytes => digest_health bytes r
  | Err err => HealthUnreadable (io_text err)
  end.

Definition check_active_owned_path (path : string) (r : OwnershipRecord) (f : F)
    : PathHealthStatus :=
  if negb (wf_exists f path) then HealthMissing else read_health path r f.

Definition check_owned_path (r : OwnershipRecord) (lifecycle : ExtensionLifecycleStatus) (f : F)
    : PathHealthReport :=
  let path := own_path r in
  mkPathHealthReport path
    (if is_active_on_disk lifecycle then check_active_owned_path path r f
     else
       let side := sidelined_path path in
       if wf_exists f side then read_health side r f
       else if wf_exists f path then check_active_owned_path path r f
       else HealthMissing).

(** The [for] over the records: the repaired and the skipped paths. *)
Fixpoint repair_records (status : ExtensionLifecycleStatus) (bytes : string) (force : bool)
    (records : list OwnershipRecord) : extR (list string * list string) :=
  match records with
  | [] => StateR.ret ([], [])
  | r :: records' =>
      let active := own_path r in
      let side := sidelined_path active in
      f <-- get_files ;;
      let health_path :=
        if is_active_on_disk status then active
        else if wf_exists f side || negb (wf_exists f active) then side else active in
      if health_is_ok (health_status (check_owned_path r status f)) then
        rest <-- repair_records status bytes force records' ;;
        StateR.ret (rest.1, health_path :: rest.2)
      else
        make_parent active ;;;
        on_own (own_repair current_dir active bytes force) ;;;
        repaired <--
          (if is_active_on_disk status then StateR.ret active
           else
             f <-- get_files ;;
             StateR.when (wf_exists f side) (ext_io (wf_remove_file side)) ;;;
             f <-- get_files ;;
             StateR.when (wf_exists f active) (ext_io (wf_rename active side)) ;;;
             StateR.ret side) ;;
        rest <-- repair_records status bytes force records' ;;
        StateR.ret (repaired :: rest.1, rest.2)
  end.

Definition repair_install (id : string) (force : bool) : extR RepairResult :=
  e <-- state_of_id id ;;
  t <-- type_dir_of e ;;
  let source := res_source_path (ext_resolution e) in
  f <-- get_files ;;
  if negb (wf_is_file f source) then StateR.fail (SourceMissing source)
  else
    bytes <-- ext_io (λ f, (f, wf_read f source)) ;;
    records <-- owned_records id t e ;;
    paths <-- repair_records (ext_status e) bytes force records ;;
    StateR.ret (mkRepairResult id (sort_paths paths.1) (sort_paths paths.2)).

Definition doctor_one (id : string) : extR InstallHealthReport :=
  found <-- state_get id ;;
  let status := match found with Some e => ext_status e | None => Enabled end in
  table <-- get_records ;;
  f <-- get_files ;;
  let paths := (λ r, check_owned_path r status f) <$> list_by_installation_id id table in
  StateR.ret (mkInstallHealthReport id (bool_decide (is_Some found)) (ext_resolution <$> found)
                paths (forallb (λ p, health_is_ok (health_status p)) paths)).

Fixpoint doctor_all (states : list ExtensionState) : extR (list InstallHealthReport) :=
  match states with
  | [] => StateR.ret []
  | e :: states' =>
      report <-- doctor_one (ext_installation_id e) ;;
      rest <-- doctor_all states' ;;
      StateR.ret (report :: rest)
  end.

Definition doctor_install (id : option string) : extR DoctorReport :=
  installations <--
    (match id with
     | Some id =>
         report <-- doctor_one id ;;
         if negb (ih_state_present report) && bool_decide (ih_paths report = [])
         then StateR.fail (DoctorNotFound id) else StateR.ret [report]
     | None => states <-- state_list_all ;; doctor_all states
     end) ;;
  StateR.ret (mkDoctorReport installations (forallb ih_healthy installations)).

(** *** The runtime's loaded set *)

Record ExtensionRuntime := mkExtensionRuntime { ext_loaded : gmap string ExtensionState }.

Definition ExtensionRuntime_empty : ExtensionRuntime := mkExtensionRuntime ∅.

Definition load_enabled (states : list ExtensionState) : gmap string ExtensionState :=
  foldl (λ m e, if is_loaded_in_runtime (ext_status e)
                then <[ext_installation_id e := e]> m else m) ∅ states.

Definition reload_from_store : extR ExtensionRuntime :=
  states <-- state_list_all ;;
  StateR.ret (mkExtensionRuntime (load_enabled states)).

Definition is_loaded (id : string) (r : ExtensionRuntime) : bool :=
  bool_decide (is_Some (ext_loaded r !! id)).

Definition unload_in_memory (id : string) (r : ExtensionRuntime) : ExtensionRuntime * bool :=
  (mkExtensionRuntime (delete id (ext_loaded r)), is_loaded id r).

End operations.

(** ** What an operation may do *)

Section confined.
Context `{Codec} `{StateJson} {F : Type} `{!WorkFiles F} `{!FileChanges F} `{!FileChangesLaws F}.
Context (to_lowercase : string → string) (current_dir : result IoError string).

(** A step under proof of ownership, a change of the install-state rows, or a move
    or removal of the sidelined twin of one of the paths [P]. *)
Inductive ext_step (force : bool) (P : list string) : relation (ExtWorld (F := F)) :=
  | step_own w o :
      own_step current_dir force (xw_own w) o →
      ext_step force P w (mkExtWorld o (xw_states w))
  | step_rows w rows : ext_step force P w (mkExtWorld (xw_own w) rows)
  | step_twin_removed w f r p :
      p ∈ P → wf_remove_file (sidelined_path p) (ow_files (xw_own w)) = (f, r) →
      ext_step force P w (mkExtWorld (mkOwnWorld (ow_records (xw_own w)) f) (xw_states w))
  | step_sidelined w f r p :
      p ∈ P → wf_rename p (sidelined_path p) (ow_files (xw_own w)) = (f, r) →
      ext_step force P w (mkExtWorld (mkOwnWorld (ow_records (xw_own w)) f) (xw_states w))
  | step_activated w f r p :
      p ∈ P → wf_rename (sidelined_path p) p (ow_files (xw_own w)) = (f, r) →
      ext_step force P w (mkExtWorld (mkOwnWorld (ow_records (xw_own w)) f) (xw_states w)).

(** Every run of the operation is a path of steps. *)
Definition runs {A} (force : bool) (P : list string)
    (m : stateR (ExtWorld (F := F)) ExtensionError A) : Prop :=
  ∀ w w' r, m w = (w', r) → rtc (ext_step force P) w w'.

Lemma runs_ret {A} force P (a : A) : runs force P (StateR.ret a).
Proof. intros w w' r [= <- _]. apply rtc_refl. Qed.

Lemma runs_fail {A} force P e : runs (A := A) force P (StateR.fail e).
Proof. intros w w' r [= <- _]. apply rtc_refl. Qed.

Lemma runs_lift {A} force P (x : result ExtensionError A) : runs force P (StateR.lift x).
Proof. intros w w' r [= <- _]. apply rtc_refl. Qed.

Lemma runs_get_files force P : runs force P get_files.
Proof. intros w w' r [= <- _]. apply rtc_refl. Qed.

Lemma runs_get_records force P : runs force P get_records.
Proof. intros w w' r [= <- _]. apply rtc_refl. Qed.

Lemma runs_state force P : runs force P StateR.get.
Proof. intros w w' r [= <- _]. apply rtc_refl. Qed.

Lemma runs_bind {A B} force P (m : stateR _ _ A) (k : A → stateR _ _ B) :
  runs force P m → (∀ a, runs force P (k a)) → runs force P (StateR.bind m k).
Proof.
  intros Hm Hk w w' r. unfold StateR.bind. destruct (m w) as [w1 [a|e]] eqn:E.
  - intros Hr. etrans; [by eapply Hm|by eapply Hk].
  - intros [= <- _]. by eapply Hm.
Qed.

Lemma runs_when force P b (m : stateR _ _ ()) : runs force P m → runs force P (StateR.when b m).
Proof. intros. destruct b; [done|apply runs_ret]. Qed.

Lemma own_steps_lift force P o o' rows :
  rtc (own_step current_dir force) o o' →
  rtc (ext_step force P) (mkExtWorld o rows) (mkExtWorld o' rows).
Proof.
  induction 1 as [|o1 o2 o3 Hs _ IH]; [apply rtc_refl|]. eapply rtc_l; [|exact IH].
  by apply (step_own force P (mkExtWorld o1 rows)).
Qed.

Lemma runs_on_own {A} force P (m : stateR (OwnWorld F) OwnershipError A) :
  (∀ o o' r, m o = (o', r) → rtc (own_step current_dir force) o o') → runs force P (on_own m).
Proof.
  intros Hm [o rows] w' r. unfold on_own. cbn. destruct (m o) as [o' x] eqn:E.
  intros [= <- _]. by apply own_steps_lift, (Hm _ _ x).
Qed.

Lemma runs_put_states force P rows : runs force P (put_states rows).
Proof. intros w w' r [= <- _]. apply rtc_once, step_rows. Qed.

Lemma runs_read {A} force P (g : F → result IoError A) : runs force P (ext_io (λ f, (f, g f))).
Proof. intros [[t f] rows] w' r [= <- _]. apply rtc_refl. Qed.

Lemma runs_mkdir force P d : runs force P (ext_io (wf_create_dir_all d)).
Proof.
  intros w w' r. unfold ext_io. destruct (wf_create_dir_all d _) as [f x] eqn:E.
  intros [= <- _]. apply rtc_once. destruct w as [o rows]. cbn in *.
  apply (step_own force P (mkExtWorld o rows)). by eapply step_mkdir.
Qed.

Lemma runs_make_parent force P p : runs force P (make_parent p).
Proof. unfold make_parent. destruct (parent p); [apply runs_mkdir|apply runs_ret]. Qed.

Lemma runs_drop_twin force P p :
  p ∈ P → runs force P (ext_io (wf_remove_file (sidelined_path p))).
Proof.
  intros Hp w w' r. unfold ext_io. destruct (wf_remove_file _ _) as [f x] eqn:E.
  intros [= <- _]. by eapply rtc_once, step_twin_removed.
Qed.

Lemma runs_sideline force P p : p ∈ P → runs force P (ext_io (wf_rename p (sidelined_path p))).
Proof.
  intros Hp w w' r. unfold ext_io. destruct (wf_rename _ _ _) as [f x] eqn:E.
  intros [= <- _]. by eapply rtc_once, step_sidelined.
Qed.

Lemma runs_activate force P p : p ∈ P → runs force P (ext_io (wf_rename (sidelined_path p) p)).
Proof.
  intros Hp w w' r. unfold ext_io. destruct (wf_rename _ _ _) as [f x] eqn:E.
  intros [= <- _]. by eapply rtc_once, step_activated.
Qed.

Create HintDb ext_runs.
#[local] Hint Resolve runs_ret runs_fail runs_lift runs_get_files runs_get_records runs_state
  runs_when runs_put_states runs_read runs_mkdir runs_make_parent runs_drop_twin runs_sideline
  runs_activate : ext_runs.

(** Follow the operation, splitting its conditionals. *)
Ltac ext_runs :=
  repeat match goal with
  | |- ∀ _, _ => intro
  | |- runs _ _ (StateR.bind _ _) => apply runs_bind
  | |- runs _ _ (if ?b then _ else _) => destruct b
  | |- runs _ _ (match ?x with _ => _ end) => destruct x
  | _ => solve [eauto with ext_runs]
  end.

(** The record is made before the file, and only where there is no file. *)
Lemma runs_register_write {A} P dest f r bytes (k : stateR _ _ A) w w' x :
  is_absolute dest = true → path_key current_dir dest f = Ok (own_path r) →
  f = ow_files (xw_own w) → runs false P k →
  StateR.bind (on_own (own_create r)) (λ _, StateR.bind (ext_io (wf_write dest bytes)) (λ _, k)) w
    = (w', x) →
  rtc (ext_step false P) w w'.
Proof.
  intros Habs Hk -> Hrest. unfold StateR.bind at 1. unfold on_own.
  destruct w as [o rows]. cbn [xw_own xw_states] in *.
  destruct (own_create r o) as [o1 [[]|e]] eqn:Hc; cbn [map_err].
  2: { intros [= <- _]. eapply own_steps_lift, own_create_steps, Hc. }
  destruct (own_create_ok _ _ _ _ Hc) as (-> & Hnone & Hmissing).
  unfold StateR.bind, ext_io. cbn [xw_own xw_states ow_files ow_records].
  destruct (wf_write dest bytes (ow_files o)) as [f1 r1] eqn:Hw. intros Hrun.
  assert (rtc (ext_step false P) (mkExtWorld o rows)
            (mkExtWorld (mkOwnWorld (<[own_path r := r]> (ow_records o)) f1) rows)) as Hsteps.
  { apply own_steps_lift. eapply rtc_l; [by apply step_register|]. apply rtc_once.
    set (o1 := mkOwnWorld (<[own_path r := r]> (ow_records o)) (ow_files o)).
    change (own_step current_dir false o1 (mkOwnWorld (ow_records o1) f1)).
    eapply step_write; [exact Hk|by apply lookup_insert_eq| |exact Hw].
    intros He. cbn in He. by rewrite (path_key_missing _ _ _ _ Habs Hk Hmissing) in He. }
  etrans; [exact Hsteps|]. destruct r1 as [[]|]; cbn [map_err] in Hrun.
  - by eapply Hrest.
  - injection Hrun as <- _. apply rtc_refl.
Qed.

Lemma apply_created_runs P id source digest version bytes dests :
  (∀ d, d ∈ dests → is_absolute d = true) →
  runs false P (apply_created current_dir id source digest version bytes dests).
Proof.
  induction dests as [|dest dests IH]; intros Habs; cbn [apply_created]; [ext_runs|].
  apply runs_bind; [apply runs_make_parent|]. intros _ w w' x.
  unfold StateR.bind at 1, get_files. unfold StateR.bind at 1, StateR.lift.
  destruct (path_key current_dir dest (ow_files (xw_own w))) as [key|] eqn:Hk; cbn [map_err].
  2: { intros [= <- _]. apply rtc_refl. }
  apply (runs_register_write P dest (ow_files (xw_own w)));
    [apply Habs; by left|exact Hk|done|].
  apply runs_bind; [apply IH; intros; apply Habs; by right|]. ext_runs.
Qed.

Lemma apply_modified_runs P id source version bytes dests :
  runs false P (apply_modified current_dir id source version bytes dests).
Proof.
  induction dests as [|dest dests IH]; cbn [apply_modified]; [ext_runs|].
  apply runs_bind.
  { apply runs_on_own. intros o o' r Ho. rewrite (ensure_can_overwrite_same _ _ _ _ _ Ho).
    apply rtc_refl. }
  intros _. apply runs_bind; [apply runs_on_own; intros; by eapply own_repair_steps|].
  intros updated. apply runs_bind; [apply runs_on_own; intros; by eapply rebind_steps|].
  ext_runs.
Qed.

Lemma state_get_runs force P id : runs force P (state_get id).
Proof. unfold state_get. ext_runs. Qed.

Lemma state_update_runs force P e : runs force P (state_update e).
Proof. unfold state_update. ext_runs. Qed.

Lemma state_of_id_runs force P id : runs force P (state_of_id id).
Proof. unfold state_of_id. apply runs_bind; [apply state_get_runs|ext_runs]. Qed.

Lemma owned_records_runs force P id t e : runs force P (owned_records to_lowercase id t e).
Proof. unfold owned_records. ext_runs. Qed.

Lemma remove_records_runs P records :
  (∀ r, r ∈ records → own_path r ∈ P) → runs false P (remove_records current_dir records).
Proof.
  induction records as [|r records IH]; intros Hp; cbn [remove_records]; [ext_runs|].
  apply runs_bind; [ext_runs|]. intros f.
  apply runs_bind; [apply runs_when, runs_drop_twin, Hp; by left|]. intros _.
  apply runs_bind; [apply runs_on_own; intros; by eapply uninstall_steps|]. intros _.
  apply runs_bind; [apply IH; intros; apply Hp; by right|ext_runs].
Qed.

Lemma activate_records_runs P records :
  (∀ r, r ∈ records → own_path r ∈ P) → runs false P (activate_records records).
Proof.
  induction records as [|r records IH]; intros Hp; cbn [activate_records]; [ext_runs|].
  assert (own_path r ∈ P) by (apply Hp; by left).
  apply runs_bind; [ext_runs|]. intros f. apply runs_bind; [ext_runs|].
  intros touched. apply runs_bind; [apply IH; intros; apply Hp; by right|ext_runs].
Qed.

Lemma sideline_records_runs P records :
  (∀ r, r ∈ records → own_path r ∈ P) → runs false P (sideline_records records).
Proof.
  induction records as [|r records IH]; intros Hp; cbn [sideline_records]; [ext_runs|].
  assert (own_path r ∈ P) by (apply Hp; by left).
  apply runs_bind; [ext_runs|]. intros f. apply runs_bind; [ext_runs|].
  intros touched. apply runs_bind; [apply IH; intros; apply Hp; by right|ext_runs].
Qed.

Lemma repair_records_runs force P status bytes records :
  (∀ r, r ∈ records → own_path r ∈ P) →
  runs force P (repair_records current_dir status bytes force records).
Proof.
  induction records as [|r records IH]; intros Hp; cbn [repair_records]; [ext_runs|].
  assert (own_path r ∈ P) by (apply Hp; by left).
  assert (runs force P (repair_records current_dir status bytes force records)) as IH'
    by (apply IH; intros; apply Hp; by right).
  apply runs_bind; [ext_runs|]. intros f. destruct (health_is_ok _).
  { apply runs_bind; [done|ext_runs]. }
  apply runs_bind; [ext_runs|]. intros _.
  apply runs_bind; [apply runs_on_own; intros; by eapply own_repair_steps|]. intros _.
  apply runs_bind; [ext_runs|]. intros repaired. apply runs_bind; [done|ext_runs].
Qed.

(** *** The operations on an install *)

Inductive ExtOp :=
  | OpRemove (id : string)
  | OpSetStatus (id : string) (target : ExtensionLifecycleStatus)
  | OpRepair (id : string) (force : bool).

Definition op_id (op : ExtOp) : string :=
  match op with OpRemove id | OpSetStatus id _ | OpRepair id _ => id end.

Definition op_force (op : ExtOp) : bool := match op with OpRepair _ force => force | _ => false end.

(** The world after the operation, whatever it returns. *)
Definition run_ext_op (op : ExtOp) (w : ExtWorld (F := F)) : ExtWorld :=
  match op with
  | OpRemove id => (remove_install to_lowercase current_dir id w).1
  | OpSetStatus id target => (set_lifecycle_status to_lowercase id target w).1
  | OpRepair id force => (repair_install to_lowercase current_dir id force w).1
  end.

(** The paths an install has records for. *)
Definition recorded_paths (id : string) (w : ExtWorld (F := F)) : list string :=
  own_path <$> list_by_installation_id id (ow_records (xw_own w)).

Definition reads {A} (m : stateR (ExtWorld (F := F)) ExtensionError A) : Prop := ∀ w, (m w).1 = w.

Lemma bind_reads {A B} (m : stateR _ _ A) (k : A → stateR _ _ B) w w' r :
  reads m → StateR.bind m k w = (w', r) → w' = w ∨ ∃ a, m w = (w, Ok a) ∧ k a w = (w', r).
Proof.
  intros Hm. unfold StateR.bind. specialize (Hm w). destruct (m w) as [w1 [a|e]]; cbn in Hm; subst.
  - eauto.
  - intros [= <- _]. by left.
Qed.

Lemma reads_bind {A B} (m : stateR _ _ A) (k : A → stateR _ _ B) :
  reads m → (∀ a, reads (k a)) → reads (StateR.bind m k).
Proof.
  intros Hm Hk w. unfold StateR.bind. specialize (Hm w). destruct (m w) as [w1 [a|e]]; cbn in *; subst.
  - apply Hk.
  - done.
Qed.

Lemma state_of_id_reads id : reads (state_of_id id).
Proof.
  apply reads_bind; [|done]. apply reads_bind; [done|]. intros w0. by destruct (List.find _ _).
Qed.

Lemma owned_records_reads id t e : reads (owned_records to_lowercase id t e).
Proof. apply reads_bind; [done|]. intros table. by apply reads_bind. Qed.

Lemma owned_records_list id t e w rs :
  owned_records to_lowercase id t e w = (w, Ok rs) →
  ∀ r, r ∈ rs → own_path r ∈ recorded_paths id w.
Proof.
  unfold owned_records, StateR.bind, get_records, StateR.lift.
  destruct (ensure_owned _ _ _ _); [|done]. intros [= <-] r Hr. by apply list_elem_of_fmap_2.
Qed.

(** The part the operations share: the state, its type directory, the records. *)
Lemma install_prefix {A} id (k : ExtensionState → ExtensionTypeDir → stateR _ _ A) w w' r force P :
  (∀ e t, k e t w = (w', r) → rtc (ext_step force P) w w') →
  (e <-- state_of_id id ;; t <-- type_dir_of e ;; k e t)%impetus w = (w', r) →
  rtc (ext_step force P) w w'.
Proof.
  intros Hk Hrun. apply bind_reads in Hrun as [->|(e & _ & Hrun)]; [apply rtc_refl| |apply state_of_id_reads].
  apply bind_reads in Hrun as [->|(t & _ & Hrun)]; [apply rtc_refl|by eapply Hk|done].
Qed.

(** Applying a plan changes files and records only in steps that prove
    ownership: a record is made where neither a record nor a file is, a file is
    written only under a record and over nothing or over exactly what the
    record describes, and no file is removed or moved. *)
Theorem apply_install_confined {Manifest} new_id now (plan : InstallPlan Manifest) w w' r :
  (∀ d, d ∈ plan_created_paths plan → is_absolute d = true) →
  apply_install current_dir new_id now plan w = (w', r) →
  rtc (ext_step false []) w w'.
Proof.
  intros Habs. enough (runs false [] (apply_install current_dir new_id now plan)) as Hr by apply Hr.
  unfold apply_install. apply runs_bind; [apply runs_read|]. intros bytes.
  apply runs_bind; [by apply apply_created_runs|]. intros created.
  apply runs_bind; [apply apply_modified_runs|]. intros modified. unfold state_put. ext_runs.
Qed.

(** Removing, enabling, disabling, unloading or repairing an install changes,
    besides its own rows, only files it has records for, under proof of
    ownership (or the caller's approval, in a repair), and the sidelined twins
    of those files. *)
Theorem lifecycle_confined op w :
  rtc (ext_step (op_force op) (recorded_paths (op_id op) w)) w (run_ext_op op w).
Proof.
  destruct op as [id|id target|id force]; cbn [run_ext_op op_force op_id].
  - destruct (remove_install _ _ id w) as [w' r] eqn:Hrun. cbn.
    eapply install_prefix; [|exact Hrun]. intros e t Hk. cbn beta in Hk.
    apply bind_reads in Hk as [->|(rs & Hrs & Hk)];
      [apply rtc_refl| |apply owned_records_reads].
    revert Hk. apply runs_bind; [apply remove_records_runs; by eapply owned_records_list|].
    intros removed. apply runs_bind; [unfold state_delete; ext_runs|ext_runs].
  - destruct (set_lifecycle_status _ id target w) as [w' r] eqn:Hrun. cbn.
    eapply install_prefix; [|exact Hrun]. intros e t Hk. cbn beta in Hk.
    apply bind_reads in Hk as [->|(rs & Hrs & Hk)];
      [apply rtc_refl| |apply owned_records_reads].
    revert Hk. apply runs_bind.
    { destruct (is_active_on_disk target).
      - apply activate_records_runs. by eapply owned_records_list.
      - apply sideline_records_runs. by eapply owned_records_list. }
    intros touched. apply runs_bind; [apply state_update_runs|ext_runs].
  - destruct (repair_install _ _ id force w) as [w' r] eqn:Hrun. cbn.
    eapply install_prefix; [|exact Hrun]. intros e t Hk. cbn beta zeta in Hk.
    apply bind_reads in Hk as [->|(f & _ & Hk)]; [apply rtc_refl| |done].
    destruct (negb _); [injection Hk as <- _; apply rtc_refl|].
    apply bind_reads in Hk as [->|(bytes & _ & Hk)]; [apply rtc_refl| |].
    2: { intros [[tb g] rows]. done. }
    apply bind_reads in Hk as [->|(rs & Hrs & Hk)];
      [apply rtc_refl| |apply owned_records_reads].
    revert Hk. apply runs_bind; [apply repair_records_runs; by eapply owned_records_list|ext_runs].
Qed.
End confined.

(** ** The durable status *)

Section durable.
Context `{Codec} `{StateJsonLaws} {F : Type} `{!WorkFiles F} `{!FileChanges F}.
Context (to_lowercase : string → string) (current_dir : result IoError string).

(** Ids are the primary key, and a row is the text of a state of its id. *)
Definition states_wf (rows : list StateRow) : Prop :=
  NoDup (row_installation_id <$> rows) ∧
  ∀ row, row ∈ rows → ∃ e, state_of_json (row_state_json row) = Ok e ∧
                          ext_installation_id e = row_installation_id row.

(** The install is recorded as enabled. *)
Definition enabled_in (rows : list StateRow) (id : string) : Prop :=
  ∃ row e, row ∈ rows ∧ row_installation_id row = id ∧ state_of_json (row_state_json row) = Ok e ∧
    is_loaded_in_runtime (ext_status e) = true.

Lemma decode_states_wf rows :
  states_wf rows →
  ∃ es, decode_states rows = Ok es ∧ ext_installation_id <$> es = row_installation_id <$> rows ∧
    ∀ e, e ∈ es ↔ ∃ row, row ∈ rows ∧ state_of_json (row_state_json row) = Ok e.
Proof.
  intros [Hnd Hrows]. clear Hnd. induction rows as [|row rows IH].
  { exists []. split; [done|]. split; [done|]. set_solver. }
  destruct (Hrows row ltac:(by left)) as (e & He & Hid).
  destruct IH as (es & Hes & Hids & Hin); [intros; apply Hrows; by right|].
  exists (e :: es). cbn. rewrite He. cbn. rewrite Hes. cbn. split; [done|].
  split; [by rewrite Hids, Hid|]. intros x. rewrite elem_of_cons, Hin. split.
  - intros [->|(r & Hr & Hx)]; [by exists row; split; [left|]|by exists r; split; [right|]].
  - intros (r & [->|Hr]%elem_of_cons & Hx); [left; congruence|right; by exists r].
Qed.

Lemma load_enabled_elem es id :
  NoDup (ext_installation_id <$> es) →
  is_Some (load_enabled es !! id) ↔
    ∃ e, e ∈ es ∧ ext_installation_id e = id ∧ is_loaded_in_runtime (ext_status e) = true.
Proof.
  unfold load_enabled. induction es as [|e es IH] using rev_ind; intros Hnd; cbn.
  { rewrite lookup_empty. split; [by intros []|set_solver]. }
  rewrite foldl_app. cbn. rewrite fmap_app, NoDup_app in Hnd. destruct Hnd as (Hnd & Hdis & _).
  specialize (IH Hnd). destruct (is_loaded_in_runtime (ext_status e)) eqn:Hl.
  - destruct (decide (id = ext_installation_id e)) as [->|Hne].
    + rewrite lookup_insert_eq. split; [|by eexists]. intros _. exists e. set_solver.
    + rewrite lookup_insert_ne, IH by done. split.
      * intros (x & ? & ? & ?). exists x. rewrite elem_of_app. auto.
      * intros (x & [Hx| ->%list_elem_of_singleton]%elem_of_app & ? & ?); [by exists x|congruence].
  - rewrite IH. split.
    + intros (x & ? & ? & ?). exists x. rewrite elem_of_app. auto.
    + intros (x & [Hx| ->%list_elem_of_singleton]%elem_of_app & ? & ?); [by exists x|congruence].
Qed.

(** A restart loads exactly the installs recorded as enabled. *)
Lemma reload_exact (w : ExtWorld (F := F)) :
  states_wf (xw_states w) →
  ∃ rt, reload_from_store w = (w, Ok rt) ∧
    ∀ id, is_loaded id rt = true ↔ enabled_in (xw_states w) id.
Proof.
  intros Hwf. assert (states_wf (merge_sort by_creation (xw_states w))) as Hwf'.
  { destruct Hwf as [Hnd Hr]. split; [by rewrite merge_sort_Permutation|].
    intros row. rewrite merge_sort_Permutation. apply Hr. }
  destruct (decode_states_wf _ Hwf') as (es & Hes & Hids & Hin).
  unfold reload_from_store, state_list_all, StateR.bind, StateR.get, StateR.lift.
  rewrite Hes. cbn. eexists. split; [done|]. intros id. unfold is_loaded. cbn.
  rewrite bool_decide_eq_true, load_enabled_elem by (rewrite Hids; apply Hwf').
  unfold enabled_in. split.
  - intros (e & (row & Hrow & He)%Hin & <- & Hl). exists row, e.
    rewrite merge_sort_Permutation in Hrow. split_and!; [done| |done|done].
    destruct Hwf as [_ Hr]. destruct (Hr row Hrow) as (e' & He' & Hid'). congruence.
  - intros (row & e & Hrow & <- & He & Hl). exists e.
    destruct Hwf as [_ Hr]. destruct (Hr row Hrow) as (e' & He' & Hid').
    split_and!; [|congruence|done]. apply Hin. exists row. by rewrite merge_sort_Permutation.
Qed.

Definition keeps_rows {A} (m : stateR (ExtWorld (F := F)) ExtensionError A) : Prop :=
  ∀ w, xw_states (m w).1 = xw_states w.

Lemma keeps_rows_bind {A B} (m : stateR _ _ A) (k : A → stateR _ _ B) :
  keeps_rows m → (∀ a, keeps_rows (k a)) → keeps_rows (StateR.bind m k).
Proof.
  intros Hm Hk w. unfold StateR.bind. specialize (Hm w). destruct (m w) as [w1 [a|e]]; [|done].
  cbn in Hm. by rewrite Hk.
Qed.

Lemma keeps_rows_io {A} (m : stateR F IoError A) : keeps_rows (ext_io m).
Proof. intros w. unfold ext_io. by destruct (m _). Qed.

Lemma keeps_rows_parent p : keeps_rows (make_parent p).
Proof. unfold make_parent. destruct (parent p); [apply keeps_rows_io|done]. Qed.

Lemma activate_keeps_rows records : keeps_rows (activate_records records).
Proof.
  induction records as [|r records IH]; cbn [activate_records]; [done|].
  apply keeps_rows_bind; [done|]. intros f. apply keeps_rows_bind.
  - destruct (wf_exists f _ && _); [|by destruct (wf_exists f _)].
    apply keeps_rows_bind; [apply keeps_rows_parent|]. intros _.
    by apply keeps_rows_bind; [apply keeps_rows_io|].
  - intros touched. by apply keeps_rows_bind.
Qed.

Lemma sideline_keeps_rows records : keeps_rows (sideline_records records).
Proof.
  induction records as [|r records IH]; cbn [sideline_records]; [done|].
  apply keeps_rows_bind; [done|]. intros f. apply keeps_rows_bind.
  - destruct (wf_exists f _); [|by destruct (wf_exists f _)].
    by apply keeps_rows_bind; [apply keeps_rows_io|].
  - intros touched. by apply keeps_rows_bind.
Qed.

Lemma state_of_id_some id (w w' : ExtWorld (F := F)) e :
  state_of_id id w = (w', Ok e) →
  w' = w ∧ ∃ row, row ∈ xw_states w ∧ row_installation_id row = id ∧
                 state_of_json (row_state_json row) = Ok e.
Proof.
  unfold state_of_id, state_get, StateR.bind, StateR.get, StateR.lift.
  destruct (List.find _ _) as [row|] eqn:Hf; cbn; [|done].
  apply find_some_elem in Hf as [Hin Hid]. apply String.eqb_eq in Hid.
  destruct (state_of_json (row_state_json row)) as [e'|] eqn:He; cbn; [|done].
  intros [= <- <-]. split; [done|]. by exists row.
Qed.

Lemma set_status_rows id target (w w' : ExtWorld (F := F)) res :
  set_lifecycle_status to_lowercase id target w = (w', Ok res) →
  ∃ row e, row ∈ xw_states w ∧ row_installation_id row = id ∧
    state_of_json (row_state_json row) = Ok e ∧
    xw_states w' = update_row (with_ext_status target e) <$> xw_states w.
Proof.
  unfold set_lifecycle_status. unfold StateR.bind at 1.
  destruct (state_of_id id w) as [w1 [e|]] eqn:Hs; [|done].
  destruct (state_of_id_some _ _ _ _ Hs) as (-> & row & Hrow & Hid & He).
  intros Hrun. exists row, e. split_and!; [done..|]. revert Hrun.
  unfold StateR.bind at 1. unfold type_dir_of, StateR.lift.
  destruct (map_err _ _) as [t|]; [|done]. unfold StateR.bind at 1.
  destruct (owned_records to_lowercase id t e w) as [w2 [rs|]] eqn:Hr; [|done].
  pose proof (owned_records_reads to_lowercase id t e w) as Hw2. rewrite Hr in Hw2. cbn in Hw2. subst w2.
  unfold StateR.bind at 1.
  destruct ((if is_active_on_disk target then activate_records rs else sideline_records rs) w)
    as [w3 [touched|]] eqn:Ht; [|done].
  assert (xw_states w3 = xw_states w) as Hw3.
  { destruct (is_active_on_disk target).
    - pose proof (activate_keeps_rows rs w) as Hk. by rewrite Ht in Hk.
    - pose proof (sideline_keeps_rows rs w) as Hk. by rewrite Ht in Hk. }
  unfold StateR.bind, state_update, StateR.get, put_states, StateR.ret. cbn.
  destruct (negb _); [done|]. intros [= <- _]. cbn. by rewrite Hw3.
Qed.

Lemma updated_rows_wf e rows :
  states_wf rows → states_wf (update_row e <$> rows).
Proof.
  intros [Hnd Hr]. assert (∀ r, row_installation_id (update_row e r) = row_installation_id r) as Hid.
  { intros r. unfold update_row. by destruct (String.eqb _ _). }
  split.
  - rewrite <-list_fmap_compose. by erewrite list_fmap_ext by (intros; apply Hid).
  - intros row (r & -> & Hin)%list_elem_of_fmap. rewrite Hid. unfold update_row.
    destruct (String.eqb_spec (row_installation_id r) (ext_installation_id e)) as [->|]; [|by apply Hr].
    cbn. exists e. by rewrite state_json_roundtrip.
Qed.

Lemma updated_rows_enabled e rows id :
  states_wf rows → ext_installation_id e ∈ row_installation_id <$> rows →
  enabled_in (update_row e <$> rows) id ↔
    if String.eqb id (ext_installation_id e) then is_loaded_in_runtime (ext_status e) = true
    else enabled_in rows id.
Proof.
  intros [Hnd Hr] Hpresent. unfold enabled_in. split.
  - intros (row & x & (r & -> & Hin)%list_elem_of_fmap & <- & Hx & Hl). unfold update_row in *.
    destruct (String.eqb_spec (row_installation_id r) (ext_installation_id e)) as [E|E]; cbn in *.
    + rewrite E, String.eqb_refl. rewrite state_json_roundtrip in Hx. by injection Hx as ->.
    + rewrite (proj2 (String.eqb_neq _ _)) by done. eauto 10.
  - destruct (String.eqb_spec id (ext_installation_id e)) as [->|Hne].
    + intros Hl. apply list_elem_of_fmap in Hpresent as (r & Hid & Hin).
      exists (update_row e r), e. split; [by apply list_elem_of_fmap_2|].
      unfold update_row. rewrite <-Hid, String.eqb_refl. cbn. rewrite state_json_roundtrip. done.
    + intros (r & x & Hin & <- & Hx & Hl). exists (update_row e r), x.
      split; [by apply list_elem_of_fmap_2|]. unfold update_row.
      by rewrite (proj2 (String.eqb_neq _ _)).
Qed.

(** Enabling, disabling or unloading is durable: a restart loads the install
    exactly when it was last enabled, and every other install as before. *)
Theorem status_survives_restart id target (w w' : ExtWorld (F := F)) res :
  states_wf (xw_states w) → set_lifecycle_status to_lowercase id target w = (w', Ok res) →
  states_wf (xw_states w') ∧
  ∃ rt0 rt, reload_from_store w = (w, Ok rt0) ∧ reload_from_store w' = (w', Ok rt) ∧
    ∀ id', is_loaded id' rt =
           if String.eqb id' id then is_loaded_in_runtime target else is_loaded id' rt0.
Proof.
  intros Hwf Hrun. destruct (set_status_rows _ _ _ _ _ Hrun) as (row & e & Hrow & Hid & He & Hrows).
  assert (ext_installation_id (with_ext_status target e) = id) as Heid.
  { destruct Hwf as [_ Hr]. destruct (Hr _ Hrow) as (e' & He' & Hid'). cbn. congruence. }
  assert (states_wf (xw_states w')) as Hwf' by (rewrite Hrows; by apply updated_rows_wf).
  split; [done|].
  destruct (reload_exact w Hwf) as (rt0 & Hrt0 & Hl0).
  destruct (reload_exact w' Hwf') as (rt & Hrt & Hl1).
  exists rt0, rt. split_and!; [done..|]. intros id'. apply eq_true_iff_eq.
  rewrite Hl1, Hrows, updated_rows_enabled by
    (try done; rewrite Heid, <-Hid; by apply list_elem_of_fmap_2).
  rewrite Heid. destruct (String.eqb id' id); [done|]. by rewrite Hl0.
Qed.
End durable.

(** ** Concrete installs *)

#[local] Existing Instance sample_codec.

#[local] Instance sample_state_json : StateJson :=
  {| state_text := ExtensionState; state_json e := e; state_of_json := Ok |}.

Lemma sample_state_json_laws : StateJsonLaws.
Proof. by split. Qed.

#[local] Existing Instance sample_state_json_laws.

Lemma demo_changes_laws : FileChangesLaws Demo.Fs.
Proof.
  split. intros f p. unfold wf_exists. cbn. unfold Demo.metadata, Demo.symlink_metadata.
  destruct (Demo.follow f p) as [q|] eqn:Hq; [|done].
  destruct (f !! q) as [n|] eqn:Hn; [|done]. intros _. exists q.
  unfold Demo.canonicalize. rewrite Hq. split; [done|].
  enough (Demo.follow f q = Some q) as -> by by rewrite Hn.
  unfold Demo.follow in *. destruct (Demo.reach f p) as [y|] eqn:Hy; [|done].
  destruct (Demo.clean y) eqn:Hc; [|done]. injection Hq as ->.
  enough (Demo.reach f q = Some q) as -> by by rewrite Hc.
  unfold Demo.reach in *. destruct (f !! p) as [[| |t]|] eqn:Hp; try done.
  - injection Hy as ->. by rewrite Hp.
  - injection Hy as ->. by rewrite Hp.
  - destruct (f !! t) as [m|] eqn:Ht; [|done]. destruct (Demo.is_link m) eqn:Hm; [done|].
    injection Hy as ->. rewrite Ht. by destruct m.
Qed.

#[local] Existing Instance demo_changes_laws.

Definition skill_path : string := "/ws/.impetus/skills/s/SKILL.md".

Definition skill_source : ResolutionPlan :=
  mkResolutionPlan SourceAgentSkills "s" "S" "1" "/src/SKILL.md".

Definition skill_plan : InstallPlan () := mkInstallPlan skill_source () [skill_path] [].

Definition install_files : Demo.Fs :=
  {[ "/src" := Demo.Dir ["SKILL.md"]; "/src/SKILL.md" := Demo.File "skill";
     "/ws" := Demo.Dir [] ]}.

Abbreviation sample_ext := (ExtWorld (F := Demo.Fs)).

Definition ext_world : sample_ext := mkExtWorld (mkOwnWorld ∅ install_files) [].

Definition installed : sample_ext := (apply_install (Ok "/") "i1" 5 skill_plan ext_world).1.

Definition disabled : sample_ext := (disable_install to_ascii_lowercase "i1" installed).1.

Definition edit (p c : string) (w : sample_ext) : sample_ext :=
  mkExtWorld (mkOwnWorld (ow_records (xw_own w)) (<[p := Demo.File c]> (ow_files (xw_own w))))
    (xw_states w).

Definition read_at (p : string) (w : sample_ext) : option string :=
  match wf_read (ow_files (xw_own w)) p with Ok c => Some c | Err _ => None end.

(** Installing, disabling and enabling again: the file is there, gone, and back. *)
Example disable_enable_restores :
  read_at skill_path installed = Some "skill" ∧
  read_at skill_path disabled = None ∧
  read_at (sidelined_path skill_path) disabled = Some "skill" ∧
  read_at skill_path (enable_install to_ascii_lowercase "i1" disabled).1 = Some "skill".
Proof. by vm_compute. Qed.

Lemma apply_install_confined_witness :
  rtc (ext_step (Ok "/") false []) ext_world installed.
Proof.
  apply (apply_install_confined (Ok "/") "i1" 5 skill_plan ext_world installed
    (apply_install (Ok "/") "i1" 5 skill_plan ext_world).2).
  - intros d ->%list_elem_of_singleton. vm_compute. reflexivity.
  - apply surjective_pairing.
Defined.

Definition skill_record : OwnershipRecord :=
  install_record "i1" (provenance skill_source) (content_digest "skill") "1" skill_path.

Definition skill_state : ExtensionState :=
  mkExtensionState "i1" skill_source [skill_path] [] [skill_record] Enabled.

Lemma installed_rows_wf : states_wf (xw_states installed).
Proof.
  assert (xw_states installed = [mkStateRow "i1" skill_state 5]) as -> by (vm_compute; reflexivity).
  split; [apply NoDup_singleton|]. intros row ->%list_elem_of_singleton.
  by exists skill_state.
Qed.

Lemma status_survives_restart_witness :
  ∃ rt, reload_from_store disabled = (disabled, Ok rt) ∧ is_loaded "i1" rt = false.
Proof.
  assert (disable_install to_ascii_lowercase "i1" installed =
    (disabled, Ok (mkLifecycleResult "i1" Disabled [sidelined_path skill_path]))) as Hrun
    by (vm_compute; reflexivity).
  destruct (status_survives_restart to_ascii_lowercase "i1" Disabled installed disabled
    (mkLifecycleResult "i1" Disabled [sidelined_path skill_path]) installed_rows_wf Hrun)
    as (_ & rt0 & rt & _ & Hrt & Hl).
  exists rt. split; [exact Hrt|]. rewrite Hl. reflexivity.
Defined.

(** A sidelined file the user has edited. *)
Definition edited : sample_ext := edit (sidelined_path skill_path) "my notes" disabled.

(** The repair of a disabled install overwrites a sidelined file the user has
    edited, without [force]: the health check finds the digest mismatch, but the
    guarded write then looks at the active path, where there is no file. *)
Example repair_overwrites_edited_sidelined :
  (doctor_install (Some "i1") edited).2 =
    Ok (mkDoctorReport [mkInstallHealthReport "i1" true (Some skill_source)
      [mkPathHealthReport skill_path
         (HealthDigestMismatch (content_digest "skill") (content_digest "my notes"))] false] false) ∧
  (repair_install to_ascii_lowercase (Ok "/") "i1" false edited).2 =
    Ok (mkRepairResult "i1" [sidelined_path skill_path] []) ∧
  read_at (sidelined_path skill_path)
    (repair_install to_ascii_lowercase (Ok "/") "i1" false edited).1 = Some "skill".
Proof. by vm_compute. Qed.

(** Removing a disabled install deletes the sidelined file without comparing it
    with the record; the same edit of an active file is refused. *)
Example remove_deletes_edited_sidelined :
  is_ok (remove_install to_ascii_lowercase (Ok "/") "i1" edited).2 = true ∧
  read_at (sidelined_path skill_path)
    (remove_install to_ascii_lowercase (Ok "/") "i1" edited).1 = None ∧
  (remove_install to_ascii_lowercase (Ok "/") "i1" (edit skill_path "my notes" installed)).2 =
    Err (ExtOwnership (OwnDigestMismatch skill_path)).
Proof. by vm_compute. Qed.

(** An install whose write failed after the record was made can neither be
    applied again nor removed. *)
Example failed_install_blocks_itself :
  let stranded : sample_ext := mkExtWorld
    (mkOwnWorld {[ skill_path := install_record "i0" (provenance skill_source)
                                   (content_digest "skill") "1" skill_path ]} install_files) [] in
  (apply_install (Ok "/") "i1" 5 skill_plan stranded).2 =
    Err (ExtOwnership (OwnAlreadyExists skill_path)) ∧
  (remove_install to_ascii_lowercase (Ok "/") "i0" stranded).2 = Err (StateNotFound "i0").
Proof. by vm_compute. Qed.
