(* ===== verification/OfflineBatch.v ===== *)
(** * Offline batches

    [crates/impetus-core/src/offline_batch.rs]: batches of work submitted to a
    provider and collected later.  The journal is the session log; a batch is
    submitted after its intent is written, a batch whose outcome is not known
    blocks another submission of the same configuration, and results are
    written into the workspace one file at a time.

    The session store, the providers and the file system are three states
    behind the classes [EventStore], [BatchProvider] and [WorkFiles]; an
    [Arc<dyn BatchProvider>] is a handle.  Fresh ids and the clock are
    arguments. *)

From S2P Require Import Prelude Str Action PathScope Events EventStore EffectFence.
From S2P Require Import Utf8 WorkspaceFiles.

Open Scope string_scope.
Open Scope nat_scope.
Open Scope list_scope.
Open Scope impetus_scope.

(** ** Data *)

Inductive BatchLifecycleState :=
  | LifeSubmitted | LifeCollecting | LifeDelivered | LifeFailed | LifeUnknown.

#[export] Instance BatchLifecycleState_eq_dec : EqDecision BatchLifecycleState.
Proof. solve_decision. Defined.

Definition life_is_terminal (s : BatchLifecycleState) : bool :=
  match s with LifeDelivered | LifeFailed | LifeUnknown => true | _ => false end.

Definition blocks_blind_resubmit (s : BatchLifecycleState) : bool :=
  match s with LifeSubmitted | LifeCollecting | LifeUnknown => true | _ => false end.

Record BatchItemSpec := mkBatchItemSpec {
  spec_item_id : string;
  spec_input_hash : string;
  spec_output_relpath : string;
}.

Record BatchPlan := mkBatchPlan { plan_items : list BatchItemSpec }.

Record FrozenBatchConfig := mkFrozenBatchConfig {
  config_provider_label : string;
  config_model_label : string;
  config_option_labels : list string;
  config_digest : string;
}.

Record BatchOperationRecord := mkBatchRecord {
  rec_batch_id : Uuid;
  rec_state : BatchLifecycleState;
  rec_config_digest : string;
  rec_provider_job_id : option string;
  rec_delivered_items : gset string;
}.

Inductive BatchResubmitDecision :=
  | ResubmitAllowFresh
  | ContinueExisting (batch_id : Uuid) (state : BatchLifecycleState)
  | RefuseDuplicateCost (batch_id : Uuid) (reason : string).

Inductive BatchProviderStatus :=
  | ProviderPending
  | ProviderRunning
  | ProviderReady
  | ProviderFailed (reason : string)
  | ProviderUnknown (reason : string).

Record BatchItemResult := mkBatchItemResult {
  result_item_id : string;
  result_bytes : string;
}.

Inductive BatchProviderError :=
  | ProviderPrepare (m : string)
  | ProviderSubmit (m : string)
  | ProviderStatusError (m : string)
  | ProviderCollect (m : string)
  | ProviderCancel (m : string).

Definition provider_error_to_string (e : BatchProviderError) : string :=
  match e with
  | ProviderPrepare m => "batch provider prepare: " ++ m
  | ProviderSubmit m => "batch provider submit: " ++ m
  | ProviderStatusError m => "batch provider status: " ++ m
  | ProviderCollect m => "batch provider collect: " ++ m
  | ProviderCancel m => "batch provider cancel: " ++ m
  end%string.

Inductive OfflineBatchError :=
  | BatchStoreError (m : string)
  | BatchProviderFailure (m : string)
  | RefuseResubmit (m : string)
  | BatchNotFound (batch_id : Uuid)
  | BatchWorkspace (m : string)
  | CollectConflict (m : string)
  | PlanIo (m : string).

Inductive CollectItemOutcome :=
  | ItemWritten (result_hash : string)
  | ItemAlreadyDelivered (result_hash : string)
  | SourceHashConflict (expected_source_hash current_hash : string).

Record CollectBatchOutcome := mkCollectBatchOutcome {
  outcome_batch_id : Uuid;
  outcome_state : BatchLifecycleState;
  outcome_items : list (string * CollectItemOutcome);
}.

Inductive PollCollectAction :=
  | SkippedNoPlan
  | AwaitingProvider
  | MarkedFailed (reason : string)
  | MarkedUnknown (reason : string)
  | Collected (o : CollectBatchOutcome).

Record PollCollectDueResult := mkPollResult {
  poll_batch_id : Uuid;
  poll_action : PollCollectAction;
}.

(** ** The frozen configuration *)

Definition sort_strings (l : list string) : list string := merge_sort String.le l.

(** [Vec::dedup]: of equal neighbours the first is kept. *)
Fixpoint dedup (l : list string) : list string :=
  match l with
  | x :: ((y :: _) as l') => if String.eqb x y then dedup l' else x :: dedup l'
  | _ => l
  end.

(** The bytes fed to the hasher. *)
Definition config_preimage (provider model : string) (options item_ids input_hashes : list string)
    : string :=
  ("impetus.offline_batch_config.v1" ++ nl ++ "provider:" ++ provider
   ++ nl ++ "model:" ++ model
   ++ nl ++ "options:" ++ join "," options
   ++ nl ++ "items:" ++ join "," item_ids
   ++ nl ++ "inputs:" ++ join "," input_hashes ++ nl)%string.

Definition hash_bytes `{Codec} (bytes : string) : string := ("sha256:" ++ hex (sha256 bytes))%string.

#[global] Arguments hash_bytes {_} _ : simpl never.

Definition compute_config_digest `{Codec} (provider model : string)
    (options item_ids input_hashes : list string) : string :=
  hash_bytes (config_preimage provider model options item_ids input_hashes).

Definition freeze `{Codec} (provider_label model_label : string) (option_labels : list string)
    (plan : BatchPlan) : FrozenBatchConfig :=
  let option_labels := dedup (sort_strings option_labels) in
  let item_ids := sort_strings (spec_item_id <$> plan_items plan) in
  let input_hashes := sort_strings (spec_input_hash <$> plan_items plan) in
  mkFrozenBatchConfig provider_label model_label option_labels
    (compute_config_digest provider_label model_label option_labels item_ids input_hashes).

(** ** Providers *)

Class BatchProvider (Prov W : Type) := {
  bp_prepare : Prov → BatchPlan → stateR W BatchProviderError N;
  bp_submit : Prov → Uuid → string → BatchPlan → stateR W BatchProviderError string;
  bp_status : Prov → string → stateR W BatchProviderError BatchProviderStatus;
  bp_collect_results : Prov → string → stateR W BatchProviderError (list BatchItemResult);
  bp_cancel : Prov → string → stateR W BatchProviderError ();
}.

(** [plan.items.len() as u32] *)
Definition item_count (plan : BatchPlan) : N :=
  (N.of_nat (length (plan_items plan)) `mod` (u32_max + 1))%N.

(** The check the two providers of the file make. *)
Definition prepare_plan {W} (plan : BatchPlan) : stateR W BatchProviderError N :=
  match plan_items plan with
  | [] => StateR.fail (ProviderPrepare "empty plan")
  | _ => StateR.ret (item_count plan)
  end.

(** *** The mock provider *)

Record MockJob := mkMockJob { job_status : BatchProviderStatus; job_results : list BatchItemResult }.

Definition mock_result (s : BatchItemSpec) : BatchItemResult :=
  mkBatchItemResult (spec_item_id s) ("result-for-" ++ spec_item_id s)%string.

Section mock.
Context `{UuidText}.

Definition mock_job_id (batch_id : Uuid) : string := ("mock-job-" ++ uuid_to_string batch_id)%string.

Definition mock_submit (batch_id : Uuid) (digest : string) (plan : BatchPlan)
    : stateR (gmap string MockJob) BatchProviderError string :=
  StateR.modify
    <[mock_job_id batch_id := mkMockJob ProviderReady (mock_result <$> plan_items plan)]> ;;;
  StateR.ret (mock_job_id batch_id).

Definition mock_status (job : string)
    : stateR (gmap string MockJob) BatchProviderError BatchProviderStatus := λ m,
  (m, match m !! job with
      | Some j => Ok (job_status j)
      | None => Err (ProviderStatusError ("unknown job " ++ job))
      end)%string.

Definition mock_collect_results (job : string)
    : stateR (gmap string MockJob) BatchProviderError (list BatchItemResult) := λ m,
  (m, match m !! job with
      | Some j => Ok (job_results j)
      | None => Err (ProviderCollect ("unknown job " ++ job))
      end)%string.

Definition mock_cancel (job : string) : stateR (gmap string MockJob) BatchProviderError () :=
  StateR.modify (delete job).

#[global] Instance MockBatchProvider : BatchProvider () (gmap string MockJob) := {|
  bp_prepare _ := prepare_plan;
  bp_submit _ := mock_submit;
  bp_status _ := mock_status;
  bp_collect_results _ := mock_collect_results;
  bp_cancel _ := mock_cancel;
|}.

Definition rehydrate_ready (batch_id : Uuid) (plan : BatchPlan) : gmap string MockJob :=
  (mock_submit batch_id "rehydrate" plan ∅).1.
End mock.

(** *** The file-system provider *)

Record FsJobItemSpec := mkFsJobItemSpec { fs_item_id : string; fs_input_hash : string }.

Record FsJobManifest := mkFsJobManifest {
  fs_batch_id : Uuid;
  fs_config_digest : string;
  fs_items : list FsJobItemSpec;
}.

Record FsJobStatusFile := mkFsJobStatusFile {
  fs_state : string;
  fs_reason : option string;
}.

(** serde_json's texts (encoding these types cannot fail) and derived [Debug]. *)
Class BatchText := {
  manifest_json : FsJobManifest → string;
  manifest_of_json : string → result string FsJobManifest;
  status_json : FsJobStatusFile → string;
  status_of_json : string → result string FsJobStatusFile;
  plan_json : BatchPlan → string;
  plan_of_json : string → result string BatchPlan;
  status_debug : BatchProviderStatus → string;
}.

Section fs_provider.
Context `{UuidText} `{BatchText} {F : Type} `{!WorkFiles F}.

(** A file-system call with its error mapped. *)
Definition fs_io {A E} (k : string → E) (m : stateR F IoError A) : stateR F E A := λ f,
  let '(f', r) := m f in (f', map_err (k ∘ io_text) r).

Definition fs_look {A E} (k : string → E) (r : F → result IoError A) : stateR F E A :=
  fs_io k (λ f, (f, r f)).

Definition jobs_dir (root : string) : string := path_join root "jobs".
Definition job_dir (root job : string) : string := path_join (jobs_dir root) job.

Definition write_status (root job state : string) (reason : option string)
    : stateR F BatchProviderError () :=
  fs_io ProviderSubmit
    (wf_write (path_join (job_dir root job) "status.json")
       (status_json (mkFsJobStatusFile state reason))).

Definition read_status (root job : string) : stateR F BatchProviderError FsJobStatusFile := λ f,
  (f, match wf_read f (path_join (job_dir root job) "status.json") with
      | Err e => Err (ProviderStatusError
                        (if io_not_found e then "unknown job " ++ job else io_text e))
      | Ok bytes => map_err ProviderStatusError (status_of_json bytes)
      end)%string.

(** The [for] over the items of the manifest. *)
Fixpoint write_results (results_dir : string) (items : list FsJobItemSpec)
    : stateR F BatchProviderError () :=
  match items with
  | [] => StateR.ret tt
  | item :: items' =>
      fs_io ProviderSubmit
        (wf_write (path_join results_dir (fs_item_id item))
           ("fs-result-for-" ++ fs_item_id item)%string) ;;;
      write_results results_dir items'
  end.

Definition materialize_local_worker (root job : string) : stateR F BatchProviderError () :=
  let dir := job_dir root job in
  bytes <-- fs_look ProviderSubmit (λ f, wf_read f (path_join dir "manifest.json")) ;;
  manifest <-- StateR.lift (map_err ProviderSubmit (manifest_of_json bytes)) ;;
  let results_dir := path_join dir "results" in
  fs_io ProviderSubmit (wf_create_dir_all results_dir) ;;;
  write_results results_dir (fs_items manifest) ;;;
  write_status root job "ready" None.

Definition fs_job_id (batch_id : Uuid) : string := ("fs-job-" ++ uuid_to_string batch_id)%string.

Definition fs_submit (root : string) (batch_id : Uuid) (digest : string) (plan : BatchPlan)
    : stateR F BatchProviderError string :=
  let job := fs_job_id batch_id in
  let dir := job_dir root job in
  fs_io ProviderSubmit (wf_create_dir_all (path_join dir "results")) ;;;
  let manifest := mkFsJobManifest batch_id digest
    ((λ i, mkFsJobItemSpec (spec_item_id i) (spec_input_hash i)) <$> plan_items plan) in
  fs_io ProviderSubmit (wf_write (path_join dir "manifest.json") (manifest_json manifest)) ;;;
  write_status root job "pending" None ;;;
  materialize_local_worker root job ;;;
  StateR.ret job.

Definition fs_status_of (file : FsJobStatusFile) : BatchProviderStatus :=
  if String.eqb (fs_state file) "pending" then ProviderPending
  else if String.eqb (fs_state file) "running" then ProviderRunning
  else if String.eqb (fs_state file) "ready" then ProviderReady
  else if String.eqb (fs_state file) "failed"
  then ProviderFailed (default "fs job failed" (fs_reason file))
  else if String.eqb (fs_state file) "cancelled" then ProviderFailed "fs job cancelled"
  else ProviderUnknown ("unrecognized fs status " ++ fs_state file)%string.

Definition fs_status (root job : string) : stateR F BatchProviderError BatchProviderStatus :=
  file <-- read_status root job ;;
  StateR.ret (fs_status_of file).

(** The [for] over the entries of the results directory. *)
Fixpoint read_results (results_dir : string) (entries : list (result IoError DirEntry)) (f : F)
    : result BatchProviderError (list BatchItemResult) :=
  match entries with
  | [] => Ok []
  | r :: entries' =>
      entry ← map_err (ProviderCollect ∘ io_text) r;
      let path := path_join results_dir (de_name entry) in
      if negb (wf_is_file f path) then read_results results_dir entries' f
      else
        bytes ← map_err (ProviderCollect ∘ io_text) (wf_read f path);
        rest ← read_results results_dir entries' f;
        Ok (mkBatchItemResult (de_name entry) bytes :: rest)
  end.

Definition by_item_id : relation BatchItemResult :=
  λ a b, String.le (result_item_id a) (result_item_id b).

#[global] Instance by_item_id_dec : RelDecision by_item_id.
Proof. intros a b. unfold by_item_id. apply _. Defined.

Definition status_is_ready (s : BatchProviderStatus) : bool :=
  match s with ProviderReady => true | _ => false end.

Definition fs_collect_results (root job : string)
    : stateR F BatchProviderError (list BatchItemResult) :=
  status <-- fs_status root job ;;
  if negb (status_is_ready status)
  then StateR.fail
    (ProviderCollect ("job " ++ job ++ " not ready (" ++ status_debug status ++ ")")%string)
  else
    let results_dir := path_join (job_dir root job) "results" in
    entries <-- fs_look (λ e, ProviderCollect ("results dir: " ++ e)%string)
                  (λ f, wf_read_dir f results_dir) ;;
    f <-- StateR.get ;;
    results <-- StateR.lift (read_results results_dir entries f) ;;
    StateR.ret (merge_sort by_item_id results).

Definition fs_cancel (root job : string) : stateR F BatchProviderError () :=
  f <-- StateR.get ;;
  if negb (wf_is_dir f (job_dir root job))
  then StateR.fail (ProviderCancel ("unknown job " ++ job)%string)
  else λ f,
    let '(f', r) := write_status root job "cancelled" (Some "cancelled by caller") f in
    (f', map_err (ProviderCancel ∘ provider_error_to_string) r).

(** The handle is the provider's root directory. *)
#[global] Instance FsBatchProvider : BatchProvider string F := {|
  bp_prepare _ := prepare_plan;
  bp_submit := fs_submit;
  bp_status := fs_status;
  bp_collect_results := fs_collect_results;
  bp_cancel := fs_cancel;
|}.
End fs_provider.

Inductive OfflineBatchProviderKind := KindMock | KindFs.

Definition kind_as_label (k : OfflineBatchProviderKind) : string :=
  match k with KindMock => "mock" | KindFs => "fs" end.

Definition kind_parse (raw : string) : option OfflineBatchProviderKind :=
  let s := to_ascii_lowercase (trim raw) in
  if String.eqb s "mock" then Some KindMock
  else if existsb (String.eqb s) ["fs"; "filesystem"; "file"; "file-drop"] then Some KindFs
  else None.

(** The environment variable is an argument. *)
Definition batch_provider_kind_from_env (var : option string) : OfflineBatchProviderKind :=
  default KindMock (var ≫= kind_parse).

Definition offline_batch_fs_root (data_root : string) : string :=
  path_join data_root "offline_batch_fs".

(** Which provider is built: the mock, or the one over a directory. *)
Definition make_batch_provider (kind : OfflineBatchProviderKind) (fs_root : option string)
    : result BatchProviderError (option string) :=
  match kind with
  | KindMock => Ok None
  | KindFs => Some <$> ok_or fs_root
                (ProviderPrepare "fs provider requires data root or IMPETUS_BATCH_FS_ROOT")
  end.

(** ** The journal *)

Abbreviation BatchMap := (gmap Uuid BatchOperationRecord).

Definition set_state (s : BatchLifecycleState) (digest : string) (r : BatchOperationRecord)
    : BatchOperationRecord :=
  mkBatchRecord (rec_batch_id r) s digest (rec_provider_job_id r) (rec_delivered_items r).

Definition link_job (digest job : string) (r : BatchOperationRecord) : BatchOperationRecord :=
  mkBatchRecord (rec_batch_id r) (rec_state r) digest (Some job) (rec_delivered_items r).

Definition add_delivered (item : string) (r : BatchOperationRecord) : BatchOperationRecord :=
  mkBatchRecord (rec_batch_id r) (rec_state r) (rec_config_digest r) (rec_provider_job_id r)
    ({[item]} ∪ rec_delivered_items r).

(** [map.entry(id).or_insert_with(..)] with the record of that state. *)
Definition entry_or_new (m : BatchMap) (id : Uuid) (s : BatchLifecycleState) (digest : string)
    : BatchOperationRecord :=
  default (mkBatchRecord id s digest None ∅) (m !! id).

Definition apply_batch_event (m : BatchMap) (e : OfflineBatchEvent) : BatchMap :=
  match e with
  | BatchSubmitted id digest _ => <[id := entry_or_new m id LifeSubmitted digest]> m
  | BatchProviderLinked id digest job =>
      <[id := link_job digest job (entry_or_new m id LifeSubmitted digest)]> m
  | BatchCollecting id digest =>
      <[id := set_state LifeCollecting digest (entry_or_new m id LifeCollecting digest)]> m
  | BatchItemDelivered id item _ _ =>
      match m !! id with Some r => <[id := add_delivered item r]> m | None => m end
  | BatchDelivered id digest =>
      <[id := set_state LifeDelivered digest (entry_or_new m id LifeDelivered digest)]> m
  | BatchFailed id digest _ =>
      <[id := set_state LifeFailed digest (entry_or_new m id LifeFailed digest)]> m
  | BatchUnknown id digest _ =>
      <[id := set_state LifeUnknown digest (entry_or_new m id LifeUnknown digest)]> m
  | BatchResubmitRefused _ _ _ => m
  end.

Definition apply_row `{Json} (m : BatchMap) (e : Event) : BatchMap :=
  match event_payload e with PayloadOfflineBatch b => apply_batch_event m b | _ => m end.

Definition batch_records_from_events `{Json} (events : list Event) : BatchMap :=
  foldl apply_row ∅ events.

(** [records.values()] sorted by batch id: the ids are the keys, so the order of
    the map does not matter. *)
Definition by_batch_id : relation BatchOperationRecord :=
  λ a b, (rec_batch_id a ≤ rec_batch_id b)%N.

#[export] Instance by_batch_id_dec : RelDecision by_batch_id.
Proof. intros a b. unfold by_batch_id. apply _. Defined.

Definition sorted_records (keep : BatchOperationRecord → bool) (records : BatchMap)
    : list BatchOperationRecord :=
  merge_sort by_batch_id (List.filter keep (snd <$> map_to_list records)).

Definition refuse_reason (r : BatchOperationRecord) : string :=
  match rec_state r, rec_provider_job_id r with
  | LifeUnknown, _ => "batch outcome unknown — reconcile before cost-bearing resubmit"
  | LifeSubmitted, None => "submit journal present without provider link — reconcile first"
  | LifeSubmitted, _ | LifeCollecting, _ => "batch still in flight — wait or reconcile"
  | _, _ => "batch blocks blind resubmit"
  end.

Definition reconcile_resubmit (records : BatchMap) (digest : string) : BatchResubmitDecision :=
  match last (sorted_records (λ r, String.eqb (rec_config_digest r) digest) records) with
  | None => ResubmitAllowFresh
  | Some latest =>
      if bool_decide (rec_state latest = LifeDelivered)
      then ContinueExisting (rec_batch_id latest) (rec_state latest)
      else if blocks_blind_resubmit (rec_state latest)
      then RefuseDuplicateCost (rec_batch_id latest) (refuse_reason latest)
      else if bool_decide (rec_state latest = LifeFailed) then ResubmitAllowFresh
      else ContinueExisting (rec_batch_id latest) (rec_state latest)
  end.

Definition batch_record_poll_eligible (r : BatchOperationRecord) : bool :=
  match rec_state r with
  | LifeCollecting => true
  | LifeSubmitted => bool_decide (is_Some (rec_provider_job_id r))
  | _ => false
  end.

(** ** The executor *)

Record BatchWorld (St W F : Type) := mkBatchWorld {
  bw_store : St;
  bw_provider : W;
  bw_files : F;
}.
Arguments mkBatchWorld {St W F}.
Arguments bw_store {St W F}.
Arguments bw_provider {St W F}.
Arguments bw_files {St W F}.

(** The journal's session, the provider's handle and the workspace root. *)
Record DurableOfflineBatchExecutor (Prov : Type) := mkExecutor {
  exec_session_id : Uuid;
  exec_provider : Prov;
  exec_workspace_root : string;
}.
Arguments mkExecutor {Prov}.
Arguments exec_session_id {Prov}.
Arguments exec_provider {Prov}.
Arguments exec_workspace_root {Prov}.

(** *** Delivery of one item *)

Section deliver.
Context `{Codec} {F : Type} `{!WorkFiles F}.

Definition hash_file (p : string) : stateR F OfflineBatchError string :=
  bytes <-- fs_look BatchWorkspace (λ f, wf_read f p) ;;
  StateR.ret (hash_bytes bytes).

Definition deliver_item (workspace_root relpath expected_source_hash bytes : string)
    (r : BatchOperationRecord) (res : BatchItemResult)
    : stateR F OfflineBatchError CollectItemOutcome :=
  StateR.bind
    (match parent (path_join workspace_root relpath) with
     | Some dir =>
         if bool_decide (components dir = components workspace_root) then StateR.ret tt
         else fs_io BatchWorkspace (wf_create_dir_all dir)
     | None => StateR.ret tt
     end) (λ _,
  f <-- StateR.get ;;
  path <-- StateR.lift (map_err (BatchWorkspace ∘ workspace_error_to_string)
             (resolve_workspace_path workspace_root relpath f)) ;;
  let result_hash := hash_bytes bytes in
  let write :=
    StateR.bind
      (match parent path with
       | Some dir => fs_io BatchWorkspace (wf_create_dir_all dir)
       | None => StateR.ret tt
       end) (λ _,
    fs_io BatchWorkspace (wf_write path bytes) ;;;
    StateR.ret (ItemWritten result_hash)) in
  if bool_decide (result_item_id res ∈ rec_delivered_items r) then
    if wf_is_file f path
    then hash_file path ;;; StateR.ret (ItemAlreadyDelivered result_hash)
    else StateR.ret (ItemAlreadyDelivered result_hash)
  else if wf_is_file f path then
    current_hash <-- hash_file path ;;
    if negb (is_empty expected_source_hash)
       && negb (String.eqb current_hash expected_source_hash)
    then StateR.ret (SourceHashConflict expected_source_hash current_hash)
    else if String.eqb current_hash result_hash
    then StateR.ret (ItemAlreadyDelivered result_hash)
    else write
  else write).
End deliver.

Section executor.
Context `{Codec} `{Json} `{DisplayStoreError} {St : Type} `{!EventStore St}.
Context {Prov W : Type} `{!BatchProvider Prov W} {F : Type} `{!WorkFiles F}.

Abbreviation world := (BatchWorld St W F).
Abbreviation batchR := (stateR world OfflineBatchError).
Abbreviation executor := (DurableOfflineBatchExecutor Prov).

Definition on_store {A} (m : stateR St StoreError A) : batchR A := λ w,
  let '(s, r) := m (bw_store w) in
  (mkBatchWorld s (bw_provider w) (bw_files w), map_err (BatchStoreError ∘ store_error_to_string) r).

(** A call of the provider, its error not yet converted. *)
Definition on_provider {A E} (k : BatchProviderError → E) (m : stateR W BatchProviderError A)
    : stateR world E A := λ w,
  let '(p, r) := m (bw_provider w) in
  (mkBatchWorld (bw_store w) p (bw_files w), map_err k r).

Definition on_files {A} (m : stateR F OfflineBatchError A) : batchR A := λ w,
  let '(f, r) := m (bw_files w) in (mkBatchWorld (bw_store w) (bw_provider w) f, r).

(** [From<BatchProviderError>] *)
Definition provider_failure (e : BatchProviderError) : OfflineBatchError :=
  BatchProviderFailure (provider_error_to_string e).

Definition journal_append (t : Tick) (sid : Uuid) (e : OfflineBatchEvent) : batchR () :=
  on_store (store_append_next t.1 t.2 sid (PayloadOfflineBatch e)) ;;;
  StateR.ret tt.

Definition load_records (sid : Uuid) : batchR BatchMap :=
  events <-- on_store (λ s, (s, store_list sid s)) ;;
  StateR.ret (batch_records_from_events events).

Definition record_for (sid : Uuid) (id : Uuid) : batchR (option BatchOperationRecord) :=
  records <-- load_records sid ;;
  StateR.ret (records !! id).

Definition decide_resubmit (x : executor) (digest : string) : batchR BatchResubmitDecision :=
  records <-- load_records (exec_session_id x) ;;
  StateR.ret (reconcile_resubmit records digest).

(** [let _ = ..]: the outcome of the append is dropped. *)
Definition ignore_result (m : batchR ()) : batchR () := λ w, ((m w).1, Ok tt).

Definition submit_new (t : nat → Tick) (batch_id : Uuid) (x : executor) (plan : BatchPlan)
    (config : FrozenBatchConfig) : batchR Uuid :=
  let sid := exec_session_id x in
  let digest := config_digest config in
  on_provider provider_failure (bp_prepare (exec_provider x) plan) ;;;
  journal_append (t 0) sid (BatchSubmitted batch_id digest (item_count plan)) ;;;
  λ w,
  match on_provider id (bp_submit (exec_provider x) batch_id digest plan) w with
  | (w', Ok job) =>
      (journal_append (t 1) sid (BatchProviderLinked batch_id digest job) ;;;
       StateR.ret batch_id) w'
  | (w', Err err) =>
      let reason := provider_error_to_string err in
      (journal_append (t 1) sid (BatchUnknown batch_id digest reason) ;;;
       StateR.fail (BatchProviderFailure reason)) w'
  end.

(** [new_id] is the fresh id of the batch. *)
Definition submit_durable (t : nat → Tick) (new_id : Uuid) (x : executor) (plan : BatchPlan)
    (config : FrozenBatchConfig) : batchR Uuid :=
  let digest := config_digest config in
  decision <-- decide_resubmit x digest ;;
  match decision with
  | RefuseDuplicateCost batch_id reason =>
      ignore_result (journal_append (t 0) (exec_session_id x)
                       (BatchResubmitRefused batch_id digest reason)) ;;;
      StateR.fail (RefuseResubmit reason)
  | ContinueExisting batch_id LifeDelivered => StateR.ret batch_id
  | ResubmitAllowFresh | ContinueExisting _ _ => submit_new t new_id x plan config
  end.

Definition spec_by_id (plan : BatchPlan) : gmap string BatchItemSpec :=
  foldl (λ m s, <[spec_item_id s := s]> m) ∅ (plan_items plan).

Definition is_delivered (o : CollectItemOutcome) : bool :=
  match o with ItemWritten _ | ItemAlreadyDelivered _ => true | SourceHashConflict _ _ => false end.

(** The [for] over the results: the outcomes, and whether all were delivered. *)
Fixpoint collect_items (t : nat → Tick) (n : nat) (x : executor) (batch_id : Uuid)
    (plan : BatchPlan) (record : BatchOperationRecord) (results : list BatchItemResult)
    : batchR (list (string * CollectItemOutcome) * bool) :=
  match results with
  | [] => StateR.ret ([], true)
  | res :: results' =>
      spec <-- StateR.lift (ok_or (spec_by_id plan !! result_item_id res)
                 (CollectConflict ("unexpected item " ++ result_item_id res)%string)) ;;
      found <-- record_for (exec_session_id x) batch_id ;;
      let fresh_record := default record found in
      outcome <-- on_files (deliver_item (exec_workspace_root x) (spec_output_relpath spec)
                   (spec_input_hash spec) (result_bytes res) fresh_record res) ;;
      StateR.when (is_delivered outcome)
        (journal_append (t n) (exec_session_id x)
           (BatchItemDelivered batch_id (result_item_id res) (hash_bytes (result_bytes res))
              (spec_output_relpath spec))) ;;;
      rest <-- collect_items t (S n) x batch_id plan record results' ;;
      StateR.ret ((result_item_id res, outcome) :: rest.1, is_delivered outcome && rest.2)
  end.

Definition collect_durable_with_plan (t : nat → Tick) (x : executor) (batch_id : Uuid)
    (plan : BatchPlan) : batchR CollectBatchOutcome :=
  let sid := exec_session_id x in
  found <-- record_for sid batch_id ;;
  record <-- StateR.lift (ok_or found (BatchNotFound batch_id)) ;;
  if bool_decide (rec_state record = LifeDelivered)
  then StateR.ret (mkCollectBatchOutcome batch_id LifeDelivered [])
  else
    job <-- StateR.lift (ok_or (rec_provider_job_id record) (RefuseResubmit
              "collect refused: provider job not linked — reconcile submit first")) ;;
    let digest := rec_config_digest record in
    journal_append (t 0) sid (BatchCollecting batch_id digest) ;;;
    status <-- on_provider provider_failure (bp_status (exec_provider x) job) ;;
    match status with
    | ProviderFailed reason =>
        journal_append (t 1) sid (BatchFailed batch_id digest reason) ;;;
        StateR.ret (mkCollectBatchOutcome batch_id LifeFailed [])
    | ProviderUnknown reason =>
        journal_append (t 1) sid (BatchUnknown batch_id digest reason) ;;;
        StateR.ret (mkCollectBatchOutcome batch_id LifeUnknown [])
    | ProviderPending | ProviderRunning =>
        StateR.ret (mkCollectBatchOutcome batch_id LifeCollecting [])
    | ProviderReady =>
        results <-- on_provider provider_failure (bp_collect_results (exec_provider x) job) ;;
        items <-- collect_items t 2 x batch_id plan record results ;;
        if items.2 : bool then
          journal_append (t 1) sid (BatchDelivered batch_id digest) ;;;
          StateR.ret (mkCollectBatchOutcome batch_id LifeDelivered items.1)
        else StateR.ret (mkCollectBatchOutcome batch_id LifeCollecting items.1)
    end.

Definition in_flight_batch_ids (x : executor) : batchR (list Uuid) :=
  records <-- load_records (exec_session_id x) ;;
  StateR.ret (rec_batch_id <$> sorted_records batch_record_poll_eligible records).

(** The action for one record in flight; [None] when it is passed over. *)
Definition poll_record (t : nat → Tick) (x : executor) (plans : gmap Uuid BatchPlan)
    (record : BatchOperationRecord) : batchR (option PollCollectAction) :=
  let sid := exec_session_id x in
  let id := rec_batch_id record in
  let digest := rec_config_digest record in
  match plans !! id with
  | None => StateR.ret (Some SkippedNoPlan)
  | Some plan =>
      match rec_provider_job_id record with
      | None => StateR.ret None
      | Some job =>
          status <-- on_provider provider_failure (bp_status (exec_provider x) job) ;;
          match status with
          | ProviderPending | ProviderRunning => StateR.ret (Some AwaitingProvider)
          | ProviderFailed reason =>
              journal_append (t 0) sid (BatchFailed id digest reason) ;;;
              StateR.ret (Some (MarkedFailed reason))
          | ProviderUnknown reason =>
              journal_append (t 0) sid (BatchUnknown id digest reason) ;;;
              StateR.ret (Some (MarkedUnknown reason))
          | ProviderReady =>
              collected <-- collect_durable_with_plan t x id plan ;;
              StateR.ret (Some (Collected collected))
          end
      end
  end.

Fixpoint poll_records (t : nat → nat → Tick) (x : executor) (plans : gmap Uuid BatchPlan)
    (n : nat) (in_flight : list BatchOperationRecord) : batchR (list PollCollectDueResult) :=
  match in_flight with
  | [] => StateR.ret []
  | record :: in_flight' =>
      action <-- poll_record (t n) x plans record ;;
      rest <-- poll_records t x plans (S n) in_flight' ;;
      StateR.ret (option_list (mkPollResult (rec_batch_id record) <$> action) ++ rest)
  end.

Definition poll_collect_due (t : nat → nat → Tick) (x : executor) (plans : gmap Uuid BatchPlan)
    : batchR (list PollCollectDueResult) :=
  records <-- load_records (exec_session_id x) ;;
  poll_records t x plans 0 (sorted_records batch_record_poll_eligible records).

(** *** The registry *)

Record OfflineBatchRegistry := mkRegistry {
  reg_executors : list executor;
  reg_plans : gmap Uuid BatchPlan;
}.

Definition Registry_new : OfflineBatchRegistry := mkRegistry [] ∅.

Definition register_executor (x : executor) (r : OfflineBatchRegistry) : OfflineBatchRegistry :=
  mkRegistry (reg_executors r ++ [x]) (reg_plans r).

Definition register_plan (id : Uuid) (plan : BatchPlan) (r : OfflineBatchRegistry)
    : OfflineBatchRegistry :=
  mkRegistry (reg_executors r) (<[id := plan]> (reg_plans r)).

Definition registry_plan (id : Uuid) (r : OfflineBatchRegistry) : option BatchPlan :=
  reg_plans r !! id.

Fixpoint poll_executors (t : nat → nat → nat → Tick) (n : nat) (plans : gmap Uuid BatchPlan)
    (xs : list executor) : batchR (list PollCollectDueResult) :=
  match xs with
  | [] => StateR.ret []
  | x :: xs' =>
      out <-- poll_collect_due (t n) x plans ;;
      rest <-- poll_executors t (S n) plans xs' ;;
      StateR.ret (out ++ rest)
  end.

Definition poll_all (t : nat → nat → nat → Tick) (r : OfflineBatchRegistry)
    : batchR (list PollCollectDueResult) :=
  poll_executors t 0 (reg_plans r) (reg_executors r).

Definition admit_batch (t : nat → Tick) (new_id : Uuid) (session_id : Uuid)
    (workspace_root : string) (plan : BatchPlan) (provider : Prov)
    (provider_label model_label : string) (option_labels : list string)
    : stateR (world * option OfflineBatchRegistry) OfflineBatchError Uuid := λ '(w, registry),
  let config := freeze provider_label model_label option_labels plan in
  let exec := mkExecutor session_id provider workspace_root in
  match submit_durable t new_id exec plan config w with
  | (w', Err e) => (w', registry, Err e)
  | (w', Ok id) =>
      (w', (λ r, register_executor exec (register_plan id plan r)) <$> registry, Ok id)
  end.

End executor.

(** *** Plan files *)

Section plans.
Context `{UuidText} `{BatchText} {F : Type} `{!WorkFiles F}.

Definition offline_batch_plans_dir (data_root : string) : string :=
  path_join data_root "offline_batch_plans".

Definition plan_path (data_root : string) (id : Uuid) : string :=
  path_join (offline_batch_plans_dir data_root) (uuid_to_string id ++ ".json")%string.

Definition persist_batch_plan (data_root : string) (id : Uuid) (plan : BatchPlan)
    : stateR F OfflineBatchError () :=
  fs_io PlanIo (wf_create_dir_all (offline_batch_plans_dir data_root)) ;;;
  fs_io PlanIo (wf_write (plan_path data_root id) (plan_json plan)).

Definition load_batch_plan (data_root : string) (id : Uuid) (f : F)
    : result OfflineBatchError BatchPlan :=
  match wf_read f (plan_path data_root id) with
  | Err e => Err (if io_not_found e then BatchNotFound id else PlanIo (io_text e))
  | Ok body => map_err PlanIo (plan_of_json body)
  end.
End plans.

(** ** The records of a log *)

Definition keyed (m : BatchMap) : Prop := ∀ id r, m !! id = Some r → rec_batch_id r = id.

Lemma keyed_insert m id r : keyed m → rec_batch_id r = id → keyed (<[id := r]> m).
Proof.
  intros Hm Hr id' r'. destruct (decide (id' = id)) as [->|Hne].
  - rewrite lookup_insert_eq. by intros [= <-].
  - rewrite lookup_insert_ne by done. apply Hm.
Qed.

Lemma entry_or_new_id m id s d : keyed m → rec_batch_id (entry_or_new m id s d) = id.
Proof. intros Hm. unfold entry_or_new. destruct (m !! id) eqn:E; [by apply Hm|done]. Qed.

Lemma apply_batch_event_keyed m e : keyed m → keyed (apply_batch_event m e).
Proof.
  intros Hm. destruct e; cbn [apply_batch_event]; try done.
  all: try (apply keyed_insert; [done|by apply entry_or_new_id]).
  destruct (m !! batch_id) as [r|] eqn:E; [|done]. apply keyed_insert; [done|]. exact (Hm _ _ E).
Qed.

Section records.
Context `{Json}.

Lemma batch_rows_keyed l : keyed (batch_records_from_events l).
Proof.
  unfold batch_records_from_events. induction l as [|e l IH] using rev_ind; [done|].
  rewrite foldl_app. cbn. unfold apply_row. case_match; try done.
  by apply apply_batch_event_keyed.
Qed.

Lemma batch_rows_snoc l e :
  batch_records_from_events (l ++ [e]) = apply_row (batch_records_from_events l) e.
Proof. unfold batch_records_from_events. by rewrite foldl_app. Qed.

Lemma batch_rows_snoc_batch l e b :
  event_payload e = PayloadOfflineBatch b →
  batch_records_from_events (l ++ [e]) = apply_batch_event (batch_records_from_events l) b.
Proof. intros He. rewrite batch_rows_snoc. unfold apply_row. by rewrite He. Qed.
End records.

(** ** The resubmit decision *)

(** The record of the configuration with the greatest batch id. *)
Definition greatest_of (m : BatchMap) (d : string) (r : BatchOperationRecord) : Prop :=
  m !! rec_batch_id r = Some r ∧ rec_config_digest r = d ∧
  ∀ id r', m !! id = Some r' → rec_config_digest r' = d → (id ≤ rec_batch_id r)%N.

#[export] Instance by_batch_id_total : Total by_batch_id.
Proof. intros a b. unfold by_batch_id. lia. Qed.

#[export] Instance by_batch_id_trans : Transitive by_batch_id.
Proof. intros a b c. unfold by_batch_id. lia. Qed.

Lemma sorted_records_elem keep m r :
  r ∈ sorted_records keep m ↔ keep r = true ∧ ∃ id, m !! id = Some r.
Proof.
  unfold sorted_records. rewrite merge_sort_Permutation, list_elem_of_In, filter_In,
    <-list_elem_of_In, list_elem_of_fmap. setoid_rewrite <-elem_of_map_to_list.
  split.
  - intros [([id x] & -> & Hx) Hk]. by eauto.
  - intros [Hk [id Hr]]. split; [|done]. by exists (id, r).
Qed.

Lemma sorted_last_greatest l r :
  StronglySorted by_batch_id l → last l = Some r → ∀ x, x ∈ l → by_batch_id x r.
Proof.
  intros Hs. induction Hs as [|y l Hs IH Hy]; [done|]. intros Hl x Hx.
  destruct l as [|z l].
  { injection Hl as ->. apply list_elem_of_singleton in Hx as ->. unfold by_batch_id. lia. }
  rewrite last_cons_cons in Hl. apply elem_of_cons in Hx as [->|Hx]; [|by apply IH].
  rewrite Forall_forall in Hy. apply Hy. by eapply last_Some_elem_of.
Qed.

Lemma sorted_records_last m d :
  keyed m →
  match last (sorted_records (λ r, String.eqb (rec_config_digest r) d) m) with
  | Some r => greatest_of m d r
  | None => ∀ id r, m !! id = Some r → rec_config_digest r ≠ d
  end.
Proof.
  intros Hm. set (l := sorted_records _ m).
  assert (∀ r, r ∈ l ↔ rec_config_digest r = d ∧ ∃ id, m !! id = Some r) as Hl.
  { intros r. unfold l. by rewrite sorted_records_elem, String.eqb_eq. }
  assert (StronglySorted by_batch_id l) as Hs.
  { apply Sorted_StronglySorted; [apply _|]. apply Sorted_merge_sort. apply _. }
  destruct (last l) as [r|] eqn:E.
  - assert (r ∈ l) as [Hd [id Hr]]%Hl by by eapply last_Some_elem_of.
    pose proof (Hm _ _ Hr) as <-. split; [done|]. split; [done|]. intros id' r' Hr' Hd'.
    rewrite <-(Hm _ _ Hr'). apply (sorted_last_greatest l r Hs E), Hl. by eauto.
  - apply last_None in E. intros id r Hr Hd.
    assert (r ∈ l) as Hin by (apply Hl; by eauto). rewrite E in Hin. by apply elem_of_nil in Hin.
Qed.

Lemma greatest_unique m d r r' : greatest_of m d r → greatest_of m d r' → r = r'.
Proof.
  intros (Hr & Hd & Hmax) (Hr' & Hd' & Hmax').
  assert (rec_batch_id r = rec_batch_id r') as E.
  { apply N.le_antisymm; [by eapply Hmax'|by eapply Hmax]. }
  congruence.
Qed.

Section resubmit.
Context `{Json}.

Lemma resubmit_decided l d :
  let m := batch_records_from_events l in
  match reconcile_resubmit m d with
  | ResubmitAllowFresh =>
      (∀ id r, m !! id = Some r → rec_config_digest r ≠ d) ∨
      ∃ r, greatest_of m d r ∧ rec_state r = LifeFailed
  | ContinueExisting id s =>
      ∃ r, greatest_of m d r ∧ id = rec_batch_id r ∧ s = LifeDelivered ∧ rec_state r = s
  | RefuseDuplicateCost id reason =>
      ∃ r, greatest_of m d r ∧ id = rec_batch_id r ∧ reason = refuse_reason r ∧
           blocks_blind_resubmit (rec_state r) = true
  end.
Proof.
  intros m. unfold reconcile_resubmit.
  pose proof (sorted_records_last m d (batch_rows_keyed l)) as Hlast.
  destruct (last _) as [r|]; [|by left]. destruct (rec_state r) eqn:E; cbn; try right.
  all: exists r; by rewrite E.
Qed.

(** Whether a configuration may be submitted again is decided by the record
    with the greatest batch id of its digest alone: a first submission, or one
    after a failed batch, is allowed; a delivered batch is returned; a batch
    that is submitted, being collected or unknown refuses it. *)
Theorem resubmit_decision_exact l d :
  let m := batch_records_from_events l in
  match reconcile_resubmit m d with
  | ResubmitAllowFresh =>
      (∀ id r, m !! id = Some r → rec_config_digest r ≠ d) ∨
      ∃ r, greatest_of m d r ∧ rec_state r = LifeFailed
  | ContinueExisting id s =>
      ∃ r, greatest_of m d r ∧ id = rec_batch_id r ∧ s = LifeDelivered ∧ rec_state r = s
  | RefuseDuplicateCost id reason =>
      ∃ r, greatest_of m d r ∧ id = rec_batch_id r ∧ reason = refuse_reason r ∧
           blocks_blind_resubmit (rec_state r) = true
  end.
Proof. apply resubmit_decided. Qed.
End resubmit.

(** A batch in flight does not refuse a second submission when an older failed
    batch has a greater id: ids are random, so both orders occur. *)
Example older_failure_hides_batch_in_flight :
  let rows := [BatchSubmitted 9 "d" 1; BatchProviderLinked 9 "d" "job-9"; BatchFailed 9 "d" "quota";
               BatchSubmitted 3 "d" 1; BatchProviderLinked 3 "d" "job-3"] in
  let m := foldl apply_batch_event ∅ rows in
  rec_state <$> m !! 3%N = Some LifeSubmitted ∧ reconcile_resubmit m "d" = ResubmitAllowFresh.
Proof. by vm_compute. Qed.

(** *** The configuration digest *)

#[export] Instance string_le_trans : Transitive String.le.
Proof. apply _. Defined.

Lemma sort_strings_perm l l' : l ≡ₚ l' → sort_strings l = sort_strings l'.
Proof.
  intros Hp. apply (StronglySorted_unique String.le).
  - apply Sorted_StronglySorted; [apply _|]. apply Sorted_merge_sort. apply _.
  - apply Sorted_StronglySorted; [apply _|]. apply Sorted_merge_sort. apply _.
  - unfold sort_strings. by rewrite !merge_sort_Permutation.
Qed.

(** The digest does not see which hash belongs to which item, nor the outputs:
    plans that differ in them count as the same configuration. *)
Lemma freeze_ignores_outputs `{Codec} provider model options plan plan' :
  spec_item_id <$> plan_items plan ≡ₚ spec_item_id <$> plan_items plan' →
  spec_input_hash <$> plan_items plan ≡ₚ spec_input_hash <$> plan_items plan' →
  freeze provider model options plan = freeze provider model options plan'.
Proof.
  intros Hids Hhashes. unfold freeze.
  by rewrite (sort_strings_perm _ _ Hids), (sort_strings_perm _ _ Hhashes).
Qed.

(** ** Submission *)

Section submission.
Context `{Codec} `{Json} `{DisplayStoreError} {St : Type} `{!EventStore St}.
Context (store_inv : St → Prop) `{!EventStoreLaws St store_inv}.
Context {Prov W : Type} `{!BatchProvider Prov W} {F : Type} `{!WorkFiles F}.

Abbreviation world := (BatchWorld St W F).

Definition world_log (sid : Uuid) (w : world) (l : list Event) : Prop :=
  store_inv (bw_store w) ∧ store_list sid (bw_store w) = Ok l.

Lemma load_records_log sid w l :
  world_log sid w l → load_records sid w = (w, Ok (batch_records_from_events l)).
Proof. intros [_ Hl]. destruct w as [s p f]. unfold load_records, on_store, StateR.bind. cbn in *. by rewrite Hl. Qed.

Lemma journal_append_log t sid e w l w' r :
  world_log sid w l → journal_append t sid e w = (w', r) →
  bw_provider w' = bw_provider w ∧ bw_files w' = bw_files w ∧
  match r with
  | Ok _ => ∃ x, world_log sid w' (l ++ [x]) ∧ event_payload x = PayloadOfflineBatch e
  | Err _ => world_log sid w' l
  end.
Proof.
  intros [Hinv Hl]. unfold journal_append, on_store, StateR.bind.
  destruct (store_append_next t.1 t.2 sid (PayloadOfflineBatch e) (bw_store w)) as [s [x|err]] eqn:Ha;
    intros [= <- <-]; cbn; (split; [done|split; [done|]]).
  - destruct (append_next_ok _ _ _ _ _ _ _ Hinv Ha) as (Hinv' & Hp & l1 & Hl1 & Hl' & _).
    rewrite Hl in Hl1. injection Hl1 as <-. by exists x.
  - destruct (append_next_err _ _ _ _ _ _ _ Hinv Ha) as [Hinv' Hsame].
    split; [done|]. cbn. by rewrite Hsame.
Qed.

Lemma journal_append_fails t sid e w (w' : world) err :
  journal_append t sid e w = (w', Err err) → ∃ m, err = BatchStoreError m.
Proof.
  unfold journal_append, on_store, StateR.bind.
  destruct (store_append_next _ _ _ _ _) as [s [y|er]]; intros [=]; by eexists.
Qed.

(** The row and the result owed to the provider's answer to a submission. *)
Definition closing_row (new_id : Uuid) (d : string) (a : result BatchProviderError string) :
    OfflineBatchEvent :=
  match a with
  | Ok job => BatchProviderLinked new_id d job
  | Err err => BatchUnknown new_id d (provider_error_to_string err)
  end.

Definition submit_answer (new_id : Uuid) (a : result BatchProviderError string) :
    result OfflineBatchError Uuid :=
  match a with
  | Ok _ => Ok new_id
  | Err err => Err (BatchProviderFailure (provider_error_to_string err))
  end.

(** What a new submission did to the provider and to the log, and what it
    returned: only the provider's [prepare], which failed or whose intent could
    not be logged; or the one call of the provider's [submit], the intent in the
    log before it ([w1] is the world after that call) and then the row of its
    answer, which is missing only when the store refused that very append. *)
Inductive submit_effect (t : nat → Tick) (x : DurableOfflineBatchExecutor Prov) (plan : BatchPlan)
    (d : string) (new_id : Uuid) (w : world) (l : list Event) (w' : world) (l' : list Event)
    (r : result OfflineBatchError Uuid) : Prop :=
  | submit_refused_by_provider err :
      bp_prepare (exec_provider x) plan (bw_provider w) = (bw_provider w', Err err) →
      l' = l → r = Err (BatchProviderFailure (provider_error_to_string err)) →
      submit_effect t x plan d new_id w l w' l' r
  | submit_not_journaled n m :
      bp_prepare (exec_provider x) plan (bw_provider w) = (bw_provider w', Ok n) →
      l' = l → r = Err (BatchStoreError m) →
      submit_effect t x plan d new_id w l w' l' r
  | submit_made n p1 a e w1 rest rec :
      bp_prepare (exec_provider x) plan (bw_provider w) = (p1, Ok n) →
      event_payload e = PayloadOfflineBatch (BatchSubmitted new_id d (item_count plan)) →
      world_log (exec_session_id x) w1 (l ++ [e]) →
      bp_submit (exec_provider x) new_id d plan p1 = (bw_provider w1, a) →
      bw_provider w' = bw_provider w1 →
      l' = l ++ e :: rest →
      match rest with
      | [] => ∃ err, (journal_append (t 1) (exec_session_id x) (closing_row new_id d a) w1).2 =
                       Err err ∧ r = Err err
      | [y] => event_payload y = PayloadOfflineBatch (closing_row new_id d a) ∧
               r = submit_answer new_id a
      | _ => False
      end →
      batch_records_from_events l' !! new_id = Some rec →
      rec_config_digest rec = d → blocks_blind_resubmit (rec_state rec) = true →
      submit_effect t x plan d new_id w l w' l' r.

Lemma apply_submitted m id d n :
  m !! id = None →
  apply_batch_event m (BatchSubmitted id d n) !! id = Some (mkBatchRecord id LifeSubmitted d None ∅).
Proof.
  intros Hn. cbn. rewrite lookup_insert_eq. unfold entry_or_new. by rewrite Hn.
Qed.

(** The closing row of a submission leaves the record blocking. *)
Lemma closing_row_blocks l e y d n new_id a :
  batch_records_from_events l !! new_id = None →
  event_payload e = PayloadOfflineBatch (BatchSubmitted new_id d n) →
  event_payload y = PayloadOfflineBatch (closing_row new_id d a) →
  ∃ r, batch_records_from_events (l ++ [e; y]) !! new_id = Some r ∧ rec_config_digest r = d ∧
       blocks_blind_resubmit (rec_state r) = true.
Proof.
  intros Hnew He Hy. change [e; y] with ([e] ++ [y]). rewrite app_assoc.
  pose proof (apply_submitted _ _ d n Hnew) as Hsub. rewrite <-(batch_rows_snoc_batch l e _ He) in Hsub.
  rewrite (batch_rows_snoc_batch _ y _ Hy). destruct a as [job|err]; cbn;
    rewrite lookup_insert_eq; unfold entry_or_new; rewrite Hsub; cbn; by eexists.
Qed.

(** The closing append of a submission whose provider was called. *)
Lemma closing_append t x plan d new_id w l w1 e n p1 a w' rb r :
  batch_records_from_events l !! new_id = None →
  event_payload e = PayloadOfflineBatch (BatchSubmitted new_id d (item_count plan)) →
  world_log (exec_session_id x) w1 (l ++ [e]) →
  bp_prepare (exec_provider x) plan (bw_provider w) = (p1, Ok n) →
  bp_submit (exec_provider x) new_id d plan p1 = (bw_provider w1, a) →
  journal_append (t 1) (exec_session_id x) (closing_row new_id d a) w1 = (w', rb) →
  r = match rb with Ok _ => submit_answer new_id a | Err err => Err err end →
  ∃ l', world_log (exec_session_id x) w' l' ∧ submit_effect t x plan d new_id w l w' l' r.
Proof.
  intros Hnew He Hlog Hprep Hsub Ha ->.
  destruct (journal_append_log _ _ _ _ _ _ _ Hlog Ha) as (Hprov & _ & Hr).
  destruct rb as [u|err].
  - destruct Hr as (y & Hlog' & Hy). rewrite <-app_assoc in Hlog'. exists (l ++ [e; y]).
    split; [done|].
    destruct (closing_row_blocks l e y d _ new_id a Hnew He Hy) as (rec & Hr & Hd & Hblock).
    by apply (submit_made _ _ _ _ _ _ _ _ _ _ n p1 a e w1 [y] rec).
  - exists (l ++ [e]). split; [done|].
    apply (submit_made _ _ _ _ _ _ _ _ _ _ n p1 a e w1 []
             (mkBatchRecord new_id LifeSubmitted d None ∅)); try done.
    + exists err. by rewrite Ha.
    + rewrite (batch_rows_snoc_batch _ _ _ He). by apply apply_submitted.
Qed.

Lemma submit_new_effect t new_id x plan config w l w' r :
  world_log (exec_session_id x) w l → batch_records_from_events l !! new_id = None →
  submit_new t new_id x plan config w = (w', r) →
  ∃ l', world_log (exec_session_id x) w' l' ∧
        submit_effect t x plan (config_digest config) new_id w l w' l' r.
Proof.
  intros Hlog Hnew. unfold submit_new, StateR.bind at 1. unfold on_provider at 1.
  destruct (bp_prepare (exec_provider x) plan (bw_provider w)) as [p1 [n|err]] eqn:Hprep; cbn [map_err].
  2: { intros [= <- <-]. exists l. split; [exact Hlog|].
       by apply (submit_refused_by_provider _ _ _ _ _ _ _ _ _ _ err). }
  set (w1 := mkBatchWorld (bw_store w) p1 (bw_files w)). unfold StateR.bind at 1.
  assert (world_log (exec_session_id x) w1 l) as Hlog1 by exact Hlog.
  destruct (journal_append (t 0) (exec_session_id x) _ w1) as [w2 [[]|err]] eqn:Ha;
    destruct (journal_append_log _ _ _ _ _ _ _ Hlog1 Ha) as (Hp2 & Hf2 & Hr2); cbn [bw_provider w1] in Hp2.
  2: { intros [= <- <-]. exists l. split; [done|].
       destruct (journal_append_fails _ _ _ _ _ _ Ha) as [m ->].
       apply (submit_not_journaled _ _ _ _ _ _ _ _ _ _ n m); [by rewrite Hp2|done..]. }
  destruct Hr2 as (e & Hlog2 & He). unfold on_provider.
  destruct (bp_submit (exec_provider x) new_id (config_digest config) plan (bw_provider w2))
    as [p3 a] eqn:Hsub.
  set (w3 := mkBatchWorld (bw_store w2) p3 (bw_files w2)).
  assert (world_log (exec_session_id x) w3 (l ++ [e])) as Hlog3 by exact Hlog2.
  rewrite Hp2 in Hsub.
  destruct (journal_append (t 1) (exec_session_id x)
    (closing_row new_id (config_digest config) a) w3) as [w4 rb] eqn:Ha4.
  intros Hrun.
  enough (w' = w4 ∧ r = match rb with Ok _ => submit_answer new_id a | Err err => Err err end)
    as [-> Hr] by by eapply (closing_append t x plan _ new_id w l w3 e n p1 a w4 rb r).
  unfold StateR.bind in Hrun.
  destruct a as [job|err]; cbn in Hrun; cbn [closing_row submit_answer] in Ha4 |- *;
    fold w3 in Hrun; rewrite Ha4 in Hrun; destruct rb; by injection Hrun.
Qed.

End submission.

(** ** Delivery *)

Section delivery.
Context `{Codec} {F : Type} `{!WorkFiles F} `{!WorkFilesLaws F}.

(** Only directories were created. *)
Definition dirs_only : relation F := rtc (λ f g, ∃ p r, wf_create_dir_all p f = (g, r)).

(** What a write of [bytes] over [path] may replace. *)
Definition may_replace (expected : string) (bytes path : string) (f : F) : Prop :=
  wf_is_file f path = true →
  ∃ cur, wf_read f path = Ok cur ∧ (expected = "" ∨ hash_bytes cur = expected) ∧
         hash_bytes cur ≠ hash_bytes bytes.

Lemma make_parent_dirs (o : option string) (skip : string → bool) f f' r :
  match o with
  | Some dir => if skip dir then StateR.ret tt else fs_io BatchWorkspace (wf_create_dir_all dir)
  | None => StateR.ret tt
  end f = (f', r) → dirs_only f f'.
Proof.
  destruct o as [dir|]; [|intros [= <- <-]; apply rtc_refl].
  destruct (skip dir); [intros [= <- <-]; apply rtc_refl|].
  unfold fs_io. destruct (wf_create_dir_all dir f) as [g r0] eqn:E. intros [= <- <-].
  apply rtc_once. eauto.
Qed.

Definition is_written (o : CollectItemOutcome) : bool :=
  match o with ItemWritten _ => true | _ => false end.

(** The write at the end of a delivery. *)
Definition write_item (path bytes : string) : stateR F OfflineBatchError CollectItemOutcome :=
  StateR.bind
    (match parent path with
     | Some dir => fs_io BatchWorkspace (wf_create_dir_all dir)
     | None => StateR.ret tt
     end) (λ _,
  fs_io BatchWorkspace (wf_write path bytes) ;;;
  StateR.ret (ItemWritten (hash_bytes bytes))).

Lemma write_item_steps path bytes f f' o :
  write_item path bytes f = (f', Ok o) →
  ∃ f1, dirs_only f f1 ∧ wf_write path bytes f1 = (f', Ok tt) ∧ o = ItemWritten (hash_bytes bytes).
Proof.
  unfold write_item, StateR.bind. destruct (match parent path with _ => _ end f) as [f1 [[]|e]] eqn:E; [|done].
  pose proof (make_parent_dirs (parent path) (λ _, false) f f1 _ E) as Hd.
  unfold fs_io. destruct (wf_write path bytes f1) as [f2 [[]|e]] eqn:Ew; [|done].
  intros [= <- <-]. eauto.
Qed.

Lemma deliver_item_unfold root rel expected bytes r res f :
  deliver_item root rel expected bytes r res f =
  StateR.bind
    (match parent (path_join root rel) with
     | Some dir =>
         if bool_decide (components dir = components root) then StateR.ret tt
         else fs_io BatchWorkspace (wf_create_dir_all dir)
     | None => StateR.ret tt
     end) (λ _, StateR.bind StateR.get (λ f, StateR.bind
       (StateR.lift (map_err (BatchWorkspace ∘ workspace_error_to_string)
          (resolve_workspace_path root rel f))) (λ path,
     if bool_decide (result_item_id res ∈ rec_delivered_items r) then
       if wf_is_file f path
       then hash_file path ;;; StateR.ret (ItemAlreadyDelivered (hash_bytes bytes))
       else StateR.ret (ItemAlreadyDelivered (hash_bytes bytes))
     else if wf_is_file f path then
       current_hash <-- hash_file path ;;
       if negb (is_empty expected) && negb (String.eqb current_hash expected)
       then StateR.ret (SourceHashConflict expected current_hash)
       else if String.eqb current_hash (hash_bytes bytes)
       then StateR.ret (ItemAlreadyDelivered (hash_bytes bytes))
       else write_item path bytes
     else write_item path bytes))) f.
Proof. reflexivity. Qed.

Lemma hash_file_keeps p f :
  hash_file p f = (f, hash_bytes <$> map_err (BatchWorkspace ∘ io_text) (wf_read f p)).
Proof. unfold hash_file, fs_look, fs_io, StateR.bind. by destruct (wf_read f p). Qed.

Lemma is_empty_eq s : is_empty s = true ↔ s = "".
Proof. apply String.eqb_eq. Qed.

(** A delivery past the creation of the parent directory. *)
Lemma deliver_item_cases root rel expected bytes r res f f' o :
  deliver_item root rel expected bytes r res f = (f', Ok o) →
  ∃ f1 path, dirs_only f f1 ∧ resolve_workspace_path root rel f1 = Ok path ∧
    (dirs_only f1 f' ∧ is_written o = false ∨
     result_item_id res ∉ rec_delivered_items r ∧ may_replace expected bytes path f1 ∧
     write_item path bytes f1 = (f', Ok o)).
Proof.
  rewrite deliver_item_unfold. unfold StateR.bind at 1.
  destruct (match parent (path_join root rel) with _ => _ end f) as [f1 [[]|e]] eqn:E; [|done].
  pose proof (make_parent_dirs (parent (path_join root rel))
    (λ dir, bool_decide (components dir = components root)) f f1 _ E) as Hd.
  unfold StateR.bind at 1. cbn [StateR.get]. unfold StateR.bind at 1, StateR.lift.
  destruct (resolve_workspace_path root rel f1) as [path|e] eqn:Hp; [|done]. cbn [map_err].
  intros Hrun. exists f1, path. split; [done|]. split; [done|].
  assert (∀ x : string, dirs_only f1 f1 ∧ is_written (ItemAlreadyDelivered x) = false) as Hsame.
  { intros x. split; [apply rtc_refl|done]. }
  destruct (bool_decide _) eqn:Hdel.
  { left. destruct (wf_is_file f1 path); [|by injection Hrun as <- <-].
    unfold StateR.bind in Hrun. rewrite hash_file_keeps in Hrun.
    destruct (wf_read f1 path); [|done]. by injection Hrun as <- <-. }
  apply bool_decide_eq_false in Hdel. unfold may_replace.
  destruct (wf_is_file f1 path); [|right; split_and!; done].
  unfold StateR.bind in Hrun at 1. rewrite hash_file_keeps in Hrun.
  destruct (wf_read f1 path) as [cur|]; [|done]. cbn in Hrun.
  destruct (negb _ && _) eqn:Hc.
  { left. injection Hrun as <- <-. split; [apply rtc_refl|done]. }
  destruct (String.eqb_spec (hash_bytes cur) (hash_bytes bytes)) as [|Hne].
  { left. by injection Hrun as <- <-. }
  right. split; [done|]. split; [|done]. intros _. exists cur. split; [done|]. split; [|done].
  apply andb_false_iff in Hc as [Hc|Hc]; apply negb_false_iff in Hc.
  - left. by apply is_empty_eq.
  - right. by apply String.eqb_eq.
Qed.

(** Delivering a result writes at most one file: inside the canonical workspace
    root, for an item not yet delivered, and over an existing file only when
    its contents still have the hash the plan froze (or the plan froze none).
    Every other outcome creates directories at most. *)
Theorem delivery_confined root rel expected bytes r res f f' o :
  deliver_item root rel expected bytes r res f = (f', Ok o) →
  match o with
  | ItemWritten h =>
      ∃ f1 f2 path canon,
        dirs_only f f1 ∧ resolve_workspace_path root rel f1 = Ok path ∧
        wf_canonicalize f1 root = Ok canon ∧ inside canon path ∧
        result_item_id res ∉ rec_delivered_items r ∧ may_replace expected bytes path f1 ∧
        dirs_only f1 f2 ∧ wf_write path bytes f2 = (f', Ok tt) ∧ wf_read f' path = Ok bytes ∧
        h = hash_bytes bytes
  | _ => dirs_only f f'
  end.
Proof.
  intros Hrun. destruct (deliver_item_cases _ _ _ _ _ _ _ _ _ Hrun)
    as (f1 & path & Hd & Hp & [[Hd' Ho]|(Hnew & Hrep & Hw)]).
  - assert (dirs_only f f') by by etrans. by destruct o.
  - destruct (write_item_steps _ _ _ _ _ Hw) as (f2 & Hd2 & Hw2 & ->).
    destruct (resolve_inside _ _ _ _ Hp) as (canon & Hc & Hin).
    destruct (wf_write_read _ _ _ _ Hw2) as [Hr _].
    exists f1, f2, path, canon. by split_and!.
Qed.

(** A delivery whose process stops after the file is written and before the
    [ItemDelivered] row can not be completed: repeated on the file it wrote, it
    reports a source hash conflict, because the file is compared with the
    frozen input before it is compared with the result. *)
Theorem interrupted_delivery_conflicts root rel expected bytes r res f f' path dir pdir cur :
  parent (path_join root rel) = Some dir → wf_is_dir f dir = true →
  resolve_workspace_path root rel f = Ok path → wf_canonicalize f (path_join root rel) = Ok path →
  parent path = Some pdir → wf_is_dir f pdir = true →
  wf_canonicalize f root = Ok root → is_root_path rel = false →
  result_item_id res ∉ rec_delivered_items r → wf_is_file f path = true →
  wf_read f path = Ok cur → hash_bytes cur = expected → expected ≠ "" →
  hash_bytes bytes ≠ expected →
  wf_write path bytes f = (f', Ok tt) →
  deliver_item root rel expected bytes r res f = (f', Ok (ItemWritten (hash_bytes bytes))) ∧
  deliver_item root rel expected bytes r res f' =
    (f', Ok (SourceHashConflict expected (hash_bytes bytes))).
Proof.
  intros Hpar Hdir Hres Hcan Hppar Hpdir Hroot Hrel Hnew Hfile Hread Hexp Hne Hdiff Hw.
  destruct (wf_write_read _ _ _ _ Hw) as [Hread' [n Hmeta']].
  assert (∀ g, wf_is_dir g dir = true →
    (if bool_decide (components dir = components root) then StateR.ret tt
     else fs_io BatchWorkspace (wf_create_dir_all dir)) g = (g, Ok tt)) as Hmk.
  { intros g Hg. case_bool_decide; [done|]. unfold fs_io. by rewrite wf_create_dir_exists. }
  assert (is_empty expected = false) as Hemp by by apply String.eqb_neq.
  split.
  - rewrite deliver_item_unfold, Hpar. unfold StateR.bind at 1. rewrite Hmk by done.
    unfold StateR.bind at 1. cbn [StateR.get]. unfold StateR.bind at 1, StateR.lift.
    rewrite Hres. cbn [map_err]. rewrite bool_decide_false by done. rewrite Hfile.
    unfold StateR.bind at 1. rewrite hash_file_keeps, Hread. cbn.
    rewrite Hexp, String.eqb_refl, andb_false_r.
    rewrite (proj2 (String.eqb_neq _ _)) by done.
    unfold write_item, StateR.bind. rewrite Hppar. unfold fs_io.
    rewrite wf_create_dir_exists by done. cbn. by rewrite Hw.
  - rewrite deliver_item_unfold, Hpar. unfold StateR.bind at 1.
    rewrite Hmk by by eapply wf_write_dir.
    unfold StateR.bind at 1. cbn [StateR.get]. unfold StateR.bind at 1, StateR.lift.
    assert (resolve_workspace_path root rel f' = Ok path) as ->.
    { eapply resolve_stable; [exact Hw|exact Hroot|exact Hrel|exact Hcan|exact Hres]. }
    cbn [map_err]. rewrite bool_decide_false by done.
    unfold wf_is_file. rewrite Hmeta'. cbn [md_type ft_is_file].
    unfold StateR.bind at 1. rewrite hash_file_keeps, Hread'. cbn.
    by rewrite Hemp, (proj2 (String.eqb_neq _ _)) by done.
Qed.
End delivery.

(** ** Collection *)

Section collection.
Context `{Codec} `{Json} `{DisplayStoreError} {St : Type} `{!EventStore St}.
Context (store_inv : St → Prop) `{!EventStoreLaws St store_inv}.
Context {Prov W : Type} `{!BatchProvider Prov W} {F : Type} `{!WorkFiles F}.

Abbreviation world := (BatchWorld St W F).
Abbreviation log_is := (world_log store_inv).

Lemma bind_ok {S E A B} (m : stateR S E A) (k : A → stateR S E B) s s' b :
  StateR.bind m k s = (s', Ok b) → ∃ s1 a, m s = (s1, Ok a) ∧ k a s1 = (s', Ok b).
Proof. unfold StateR.bind. destruct (m s) as [s1 [a|e]]; [|done]. eauto. Qed.

Lemma journal_append_ok t sid e (w : world) l w' u :
  log_is sid w l → journal_append t sid e w = (w', Ok u) →
  ∃ l', log_is sid w' l' ∧ bw_provider w' = bw_provider w ∧
    batch_records_from_events l' = apply_batch_event (batch_records_from_events l) e.
Proof.
  intros Hl Ha. destruct (journal_append_log _ _ _ _ _ _ _ _ Hl Ha) as (Hp & _ & y & Hl' & Hy).
  exists (l ++ [y]). split_and!; [done..|]. by apply batch_rows_snoc_batch.
Qed.

Lemma on_files_ok {A} (m : stateR F OfflineBatchError A) sid (w w' : world) l r :
  log_is sid w l → on_files m w = (w', r) →
  log_is sid w' l ∧ bw_provider w' = bw_provider w.
Proof.
  intros Hl. unfold on_files. destruct (m (bw_files w)) as [f r0]. by intros [= <- <-].
Qed.

Lemma record_for_log sid id (w : world) l :
  log_is sid w l → record_for sid id w = (w, Ok (batch_records_from_events l !! id)).
Proof.
  intros Hl. unfold record_for, StateR.bind. by rewrite (load_records_log _ _ _ _ Hl).
Qed.

Definition delivered_in (outs : list (string * CollectItemOutcome)) (i : string) : Prop :=
  ∃ o, (i, o) ∈ outs ∧ is_delivered o = true.

Lemma collect_items_spec t n (x : DurableOfflineBatchExecutor Prov) id plan rec results (w : world)
    l r w' outs all :
  log_is (exec_session_id x) w l → batch_records_from_events l !! id = Some r →
  rec_state r = LifeCollecting →
  collect_items t n x id plan rec results w = (w', Ok (outs, all)) →
  ∃ l' r', log_is (exec_session_id x) w' l' ∧ batch_records_from_events l' !! id = Some r' ∧
    rec_state r' = LifeCollecting ∧ outs.*1 = result_item_id <$> results ∧
    all = forallb is_delivered outs.*2 ∧
    ∀ i, i ∈ rec_delivered_items r' ↔ i ∈ rec_delivered_items r ∨ delivered_in outs i.
Proof.
  revert n w l r outs all. induction results as [|res results IH]; intros n w l r outs all Hl Hr Hs.
  { intros [= <- <- <-]. exists l, r. split_and!; [done..|]. unfold delivered_in. set_solver. }
  cbn [collect_items]. intros Hrun. apply bind_ok in Hrun as (w1 & spec & Hspec & Hrun).
  injection Hspec as <- Hspec.
  apply bind_ok in Hrun as (w1 & found & Hfound & Hrun).
  rewrite (record_for_log _ _ _ _ Hl) in Hfound. injection Hfound as <- <-.
  apply bind_ok in Hrun as (w1 & o & Ho & Hrun).
  destruct (on_files_ok _ _ _ _ _ _ Hl Ho) as [Hl1 _].
  apply bind_ok in Hrun as (w2 & u & Hrow & Hrun).
  apply bind_ok in Hrun as (w3 & [outs' all'] & Hrest & Hrun). injection Hrun as -> <- <-.
  assert (∃ l2 r2, log_is (exec_session_id x) w2 l2 ∧ batch_records_from_events l2 !! id = Some r2 ∧
    rec_state r2 = LifeCollecting ∧
    ∀ i, i ∈ rec_delivered_items r2 ↔
         i ∈ rec_delivered_items r ∨ i = result_item_id res ∧ is_delivered o = true)
    as (l2 & r2 & Hl2 & Hr2 & Hs2 & Hi2).
  { destruct (is_delivered o) eqn:Hd; cbn [StateR.when] in Hrow.
    - destruct (journal_append_ok _ _ _ _ _ _ _ Hl1 Hrow) as (l2 & Hl2 & _ & Hm).
      exists l2, (add_delivered (result_item_id res) r). split; [done|].
      rewrite Hm. cbn. rewrite Hr, lookup_insert_eq. split_and!; [done..|]. cbn. set_solver.
    - injection Hrow as <-. exists l, r. split_and!; [done..|]. naive_solver. }
  destruct (IH _ _ _ _ _ _ Hl2 Hr2 Hs2 Hrest) as (l' & r' & ? & ? & ? & Hids & -> & Hi).
  exists l', r'. split_and!; [done..| | |]; cbn.
  - by rewrite Hids.
  - done.
  - intros i. rewrite Hi, Hi2. unfold delivered_in. setoid_rewrite elem_of_cons. naive_solver.
Qed.

(** Collecting a batch that is not delivered yet.  It needs the provider's job;
    the outcome follows the provider's status, and for a job that is ready every
    returned result is handled once, in order: the batch is delivered exactly
    when every {e returned} result was written or already there, and stays in
    collection otherwise.  The journal ends in the state that is reported, with
    the delivered items added. *)
Theorem collect_exact t (x : DurableOfflineBatchExecutor Prov) id plan (w : world) l r w' o :
  log_is (exec_session_id x) w l → batch_records_from_events l !! id = Some r →
  rec_state r ≠ LifeDelivered → collect_durable_with_plan t x id plan w = (w', Ok o) →
  ∃ job status l' r',
    rec_provider_job_id r = Some job ∧
    (bp_status (exec_provider x) job (bw_provider w)).2 = Ok status ∧
    log_is (exec_session_id x) w' l' ∧ batch_records_from_events l' !! id = Some r' ∧
    outcome_batch_id o = id ∧ outcome_state o = rec_state r' ∧
    (∀ i, i ∈ rec_delivered_items r' ↔
          i ∈ rec_delivered_items r ∨ delivered_in (outcome_items o) i) ∧
    match status with
    | ProviderPending | ProviderRunning => outcome_state o = LifeCollecting ∧ outcome_items o = []
    | ProviderFailed _ => outcome_state o = LifeFailed ∧ outcome_items o = []
    | ProviderUnknown _ => outcome_state o = LifeUnknown ∧ outcome_items o = []
    | ProviderReady =>
        ∃ results,
          (bp_collect_results (exec_provider x) job
             (bp_status (exec_provider x) job (bw_provider w)).1).2 = Ok results ∧
          (outcome_items o).*1 = result_item_id <$> results ∧
          outcome_state o = if forallb is_delivered (outcome_items o).*2
                            then LifeDelivered else LifeCollecting
    end.
Proof.
  intros Hl Hr Hnd Hrun. unfold collect_durable_with_plan in Hrun.
  apply bind_ok in Hrun as (w1 & found & Hfound & Hrun).
  rewrite (record_for_log _ _ _ _ Hl), Hr in Hfound. injection Hfound as <- <-.
  apply bind_ok in Hrun as (w1 & r1 & Hr1 & Hrun). injection Hr1 as <- <-.
  rewrite bool_decide_false in Hrun by done.
  apply bind_ok in Hrun as (w1 & job & Hjob & Hrun).
  destruct (rec_provider_job_id r) as [job0|] eqn:Hj; [|done]. injection Hjob as <- <-.
  apply bind_ok in Hrun as (w1 & u & Hcol & Hrun).
  destruct (journal_append_ok _ _ _ _ _ _ _ Hl Hcol) as (l1 & Hl1 & Hp1 & Hm1).
  cbn in Hm1. unfold entry_or_new in Hm1. rewrite Hr in Hm1. cbn in Hm1.
  set (r1 := set_state LifeCollecting (rec_config_digest r) r) in *.
  assert (batch_records_from_events l1 !! id = Some r1) as Hr1 by by rewrite Hm1, lookup_insert_eq.
  apply bind_ok in Hrun as (w2 & status & Hstat & Hrun). unfold on_provider in Hstat.
  rewrite Hp1 in Hstat.
  destruct (bp_status (exec_provider x) job0 (bw_provider w)) as [p2 [st|]] eqn:Est; [|done].
  injection Hstat as <- <-. exists job0, st. rewrite Est. cbn [fst snd].
  set (w2 := mkBatchWorld (bw_store w1) p2 (bw_files w1)) in *.
  assert (log_is (exec_session_id x) w2 l1) as Hl2 by exact Hl1.
  assert (∀ i, i ∈ rec_delivered_items r1 ↔ i ∈ rec_delivered_items r ∨ delivered_in [] i) as Hi.
  { intros i. unfold delivered_in. set_solver. }
  destruct st as [| | |reason|reason].
  1-2: injection Hrun as <- <-; exists l1, r1; split_and!; try done; exact Hi.
  2-3: apply bind_ok in Hrun as (w3 & v & Hrow & Hrun); injection Hrun as <- <-;
    destruct (journal_append_ok _ _ _ _ _ _ _ Hl2 Hrow) as (l3 & Hl3 & _ & Hm3);
    cbn in Hm3; unfold entry_or_new in Hm3; rewrite Hr1 in Hm3; cbn in Hm3;
    eexists l3, (set_state _ _ r1); rewrite Hm3, lookup_insert_eq; split_and!; try done; exact Hi.
  apply bind_ok in Hrun as (w3 & results & Hres & Hrun). unfold on_provider in Hres.
  cbn [bw_provider w2] in Hres.
  destruct (bp_collect_results (exec_provider x) job0 p2) as [p3 [rs|]] eqn:Ecol; [|done].
  injection Hres as <- <-. set (w3 := mkBatchWorld _ p3 _) in *.
  apply bind_ok in Hrun as (w4 & [outs all] & Hitems & Hrun).
  assert (log_is (exec_session_id x) w3 l1) as Hl3 by exact Hl1.
  destruct (collect_items_spec _ _ _ _ _ _ _ _ _ _ _ _ _ Hl3 Hr1 eq_refl Hitems)
    as (l4 & r4 & Hl4 & Hr4 & Hs4 & Hids & -> & Hi4).
  cbn in Hrun. destruct (forallb is_delivered outs.*2) eqn:Hall.
  - apply bind_ok in Hrun as (w5 & v & Hrow & Hrun). injection Hrun as <- <-.
    destruct (journal_append_ok _ _ _ _ _ _ _ Hl4 Hrow) as (l5 & Hl5 & _ & Hm5).
    cbn in Hm5. unfold entry_or_new in Hm5. rewrite Hr4 in Hm5. cbn in Hm5.
    exists l5, (set_state LifeDelivered (rec_config_digest r) r4).
    rewrite Hm5, lookup_insert_eq. split_and!; try done.
    exists rs. cbn [outcome_items outcome_state]. rewrite Hall. by split_and!.
  - injection Hrun as <- <-. exists l4, r4. split_and!; try done.
    exists rs. cbn [outcome_items outcome_state]. rewrite Hall. by split_and!.
Qed.

(** A tick that finds every job pending or running writes nothing. *)
Lemma poll_quiet t x plans (w w' : world) l r :
  log_is (exec_session_id x) w l →
  (∀ job, ∃ s, bp_status (exec_provider x) job (bw_provider w) = (bw_provider w, Ok s) ∧
               (s = ProviderPending ∨ s = ProviderRunning)) →
  poll_collect_due t x plans w = (w', r) →
  w' = w ∧ ∃ out, r = Ok out ∧
    ∀ p, p ∈ out → poll_action p = SkippedNoPlan ∨ poll_action p = AwaitingProvider.
Proof.
  intros Hl Hst. unfold poll_collect_due, StateR.bind at 1.
  rewrite (load_records_log _ _ _ _ Hl). generalize (sorted_records batch_record_poll_eligible
    (batch_records_from_events l)) as rs, 0 as n. intros rs. clear Hl l.
  assert (∀ n rec, ∃ a, poll_record (t n) x plans rec w = (w, Ok a) ∧
    ∀ b, a = Some b → b = SkippedNoPlan ∨ b = AwaitingProvider) as Hone.
  { intros n rec. unfold poll_record. destruct (plans !! _); [|naive_solver].
    destruct (rec_provider_job_id rec) as [job|]; [|naive_solver].
    destruct (Hst job) as (s & Hs & Hcase). unfold StateR.bind, on_provider. rewrite Hs.
    destruct w. cbn. destruct Hcase as [->| ->]; eexists; (split; [done|]); naive_solver. }
  revert w' r. induction rs as [|rec rs IH]; intros w' r n; cbn [poll_records].
  { intros [= <- <-]. split; [done|]. exists []. set_solver. }
  destruct (Hone n rec) as (a & Ha & Hact). unfold StateR.bind. rewrite Ha.
  destruct (poll_records t x plans (S n) rs w) as [w1 r1] eqn:Hrest.
  destruct (IH _ _ _ Hrest) as (-> & out & -> & Hout). intros [= <- <-].
  split; [done|]. eexists. split; [done|]. intros p [Hp|Hp]%elem_of_app; [|auto].
  destruct a as [b|]; [|set_solver]. apply list_elem_of_singleton in Hp as ->.
  by apply Hact.
Qed.
End collection.

(** ** Witnesses *)

#[local] Existing Instances sample_json sample_codec.
#[local] Instance batch_display : DisplayStoreError := λ _, "store".
#[local] Instance batch_uuid_text : UuidText := {|
  uuid_to_string := dec;
  uuid_parse_str _ := None;
|}.

Definition sample_plan : BatchPlan :=
  mkBatchPlan [mkBatchItemSpec "a" (hash_bytes "Alpha") "notes.txt";
               mkBatchItemSpec "b" "" "new.txt"].

Abbreviation sample_world_type :=
  (BatchWorld MemoryEventStore (gmap string MockJob) Demo.Fs).

Definition batch_ws : Demo.Fs :=
  {[ "/ws" := Demo.Dir ["notes.txt"]; "/ws/notes.txt" := Demo.File "Alpha" ]}.

Definition batch_world : sample_world_type := mkBatchWorld sample_store ∅ batch_ws.

Definition batch_exec : DurableOfflineBatchExecutor () := mkExecutor 1 () "/ws".

Definition batch_ticks (base : N) (n : nat) : Tick := ((base + N.of_nat n)%N, base).

Definition batch_config : FrozenBatchConfig := freeze "mock" "m" ["b"; "a"; "b"] sample_plan.

Definition batch_submitted : sample_world_type :=
  (submit_durable (batch_ticks 300) 7 batch_exec sample_plan batch_config batch_world).1.

Definition batch_log (w : sample_world_type) : list Event :=
  match store_list 1 (bw_store w) with Ok l => l | Err _ => [] end.

Lemma batch_world_log : world_log store_wf 1 batch_world (batch_log batch_world).
Proof. split; [exact sample_store_wf|]. by vm_compute. Qed.


Definition batch_collected :=
  collect_durable_with_plan (batch_ticks 400) batch_exec 7 sample_plan batch_submitted.

(** The whole way: both results are written and the batch is delivered. *)
Example batch_end_to_end :
  batch_collected.2 = Ok (mkCollectBatchOutcome 7 LifeDelivered
    [("a", ItemWritten (hash_bytes "result-for-a")); ("b", ItemWritten (hash_bytes "result-for-b"))]) ∧
  wf_read (bw_files batch_collected.1) "/ws/notes.txt" = Ok "result-for-a" ∧
  wf_read (bw_files batch_collected.1) "/ws/new.txt" = Ok "result-for-b".
Proof. by vm_compute. Qed.

Definition batch_record : BatchOperationRecord :=
  mkBatchRecord 7 LifeSubmitted (config_digest batch_config) (Some (mock_job_id 7)) ∅.

(** The outcome of a run, for the statement of the witness. *)
Definition ok_value {E A} (d : A) (r : result E A) : A := match r with Ok a => a | Err _ => d end.

Definition batch_outcome : CollectBatchOutcome :=
  ok_value (mkCollectBatchOutcome 0 LifeFailed []) batch_collected.2.

Lemma batch_submitted_log :
  world_log store_wf 1 batch_submitted (batch_log batch_submitted).
Proof.
  destruct (submit_new_effect store_wf (batch_ticks 300) 7 batch_exec sample_plan batch_config
    batch_world (batch_log batch_world) batch_submitted (Ok 7%N) batch_world_log
    ltac:(vm_compute; reflexivity) ltac:(vm_compute; reflexivity)) as (l' & [Hinv Hl] & _).
  change (exec_session_id batch_exec) with 1%N in Hl.
  split; [done|]. unfold batch_log. by rewrite Hl.
Qed.

Lemma collect_exact_witness :
  ∃ l', world_log store_wf 1 batch_collected.1 l' ∧
    (rec_state <$> batch_records_from_events l' !! 7%N) = Some LifeDelivered.
Proof.
  destruct (collect_exact store_wf (batch_ticks 400) batch_exec 7 sample_plan batch_submitted
    (batch_log batch_submitted) batch_record batch_collected.1 batch_outcome
    batch_submitted_log ltac:(vm_compute; reflexivity) ltac:(done)
    ltac:(vm_compute; reflexivity)) as (job & status & l' & r' & _ & _ & Hl & Hr & _ & Hs & _).
  exists l'. split; [exact Hl|]. rewrite Hr. cbn. f_equal. rewrite <-Hs. vm_compute. reflexivity.
Defined.

Definition delivered_ws : Demo.Fs :=
  (deliver_item "/ws" "notes.txt" (hash_bytes "Alpha") "result-for-a" batch_record
     (mkBatchItemResult "a" "result-for-a") batch_ws).1.

Lemma delivery_confined_witness :
  ∃ f1 path canon, wf_canonicalize f1 "/ws" = Ok canon ∧ inside canon path ∧
    wf_read delivered_ws path = Ok "result-for-a".
Proof.
  assert (deliver_item "/ws" "notes.txt" (hash_bytes "Alpha") "result-for-a" batch_record
    (mkBatchItemResult "a" "result-for-a") batch_ws =
    (delivered_ws, Ok (ItemWritten (hash_bytes "result-for-a")))) as Hrun
    by (vm_compute; reflexivity).
  destruct (delivery_confined _ _ _ _ _ _ _ _ _ Hrun)
    as (f1 & f2 & path & canon & _ & Hp & Hc & Hin & _ & _ & _ & _ & Hr & _).
  exists f1, path, canon. split; [exact Hc|]. split; [exact Hin|exact Hr].
Defined.

Lemma interrupted_delivery_conflicts_witness :
  deliver_item "/ws" "notes.txt" (hash_bytes "Alpha") "result-for-a" batch_record
    (mkBatchItemResult "a" "result-for-a") delivered_ws =
  (delivered_ws, Ok (SourceHashConflict (hash_bytes "Alpha") (hash_bytes "result-for-a"))).
Proof.
  apply (interrupted_delivery_conflicts "/ws" "notes.txt" (hash_bytes "Alpha") "result-for-a"
    batch_record (mkBatchItemResult "a" "result-for-a") batch_ws delivered_ws "/ws/notes.txt"
    "/ws" "/ws" "Alpha"); solve [vm_compute; reflexivity | done].
Defined.
