(* ===== verification/ModelRouter.v ===== *)
(** * Model router

    [crates/impetus-core/src/model_router.rs]: the model of a run, chosen among the
    configured ones by capabilities, health and a score of the policy; the next one
    of a fallback chain.  Scores are binary64, as in [Budget]. *)

From Stdlib Require Import Floats.SpecFloat.
From S2P Require Import Prelude Str Budget.

Open Scope string_scope.
Open Scope nat_scope.
Open Scope list_scope.
Open Scope impetus_scope.

Inductive RouterPolicy := LocalFirst | FreeFirst | Balanced | QualityFirst | LowLatency.

Definition router_policy_debug (p : RouterPolicy) : string :=
  match p with
  | LocalFirst => "LocalFirst" | FreeFirst => "FreeFirst" | Balanced => "Balanced"
  | QualityFirst => "QualityFirst" | LowLatency => "LowLatency"
  end.

Record CapabilityRequirements := mkRequirements {
  req_tools : bool;
  req_reasoning : bool;
  req_vision : bool;
  req_min_context : option N;
}.

Definition CapabilityRequirements_default : CapabilityRequirements :=
  mkRequirements false false false None.

Record ModelCapabilities := mkModelCapabilities {
  mc_tools : bool;
  mc_reasoning : bool;
  mc_vision : bool;
  mc_context_window : N;
}.

Record ModelMetadata := mkModelMetadata {
  mm_provider_id : string;
  mm_model_id : string;
  mm_capabilities : ModelCapabilities;
  mm_cost_per_mtok : option (spec_float * spec_float);
  mm_is_local : bool;
  mm_avg_latency_ms : option N;
  mm_health : spec_float;
}.

Record ModelRouterConfig := mkRouterConfig {
  rc_policy : RouterPolicy;
  rc_models : list ModelMetadata;
  rc_fallback_chain : list string;
}.

Definition ModelRouterConfig_default : ModelRouterConfig := mkRouterConfig Balanced [] [].

Record ModelSelection := mkModelSelection {
  ms_provider_id : string;
  ms_model_id : string;
  ms_reasoning : string;
}.

Definition satisfies (c : ModelCapabilities) (r : CapabilityRequirements) : bool :=
  if req_tools r && negb (mc_tools c) then false
  else if req_reasoning r && negb (mc_reasoning c) then false
  else if req_vision r && negb (mc_vision c) then false
  else match req_min_context r with
       | Some min_context => negb (mc_context_window c <? min_context)%N
       | None => true
       end.

(** ** Scores *)

Definition f64_add (x y : spec_float) : spec_float := SFadd 53 1024 x y.
Definition f64_sub (x y : spec_float) : spec_float := SFsub 53 1024 x y.
Definition f64 (n : N) : spec_float := f64_of_N n.
Definition f64_half : spec_float := f64_div (f64 1) (f64 2).

(** [x.max(0.0)] *)
Definition f64_pos (x : spec_float) : spec_float :=
  match x with
  | S754_nan => S754_zero false
  | _ => if SFltb x (S754_zero false) then S754_zero false else x
  end.

Definition average_cost (cost : spec_float * spec_float) : spec_float :=
  f64_div (f64_add cost.1 cost.2) (f64 2).

(** [(bound - x).max(0.0) / unit] *)
Definition below (bound unit : N) (x : spec_float) : spec_float :=
  f64_div (f64_pos (f64_sub (f64 bound) x)) (f64 unit).

Definition plus_if (b : bool) (n : N) (score : spec_float) : spec_float :=
  if b then f64_add score (f64 n) else score.

Definition policy_score (p : RouterPolicy) (m : ModelMetadata) : spec_float :=
  let score := mm_health m in
  match p with
  | LocalFirst => plus_if (mm_is_local m) 10 score
  | FreeFirst =>
      match mm_cost_per_mtok m with
      | Some cost => f64_add score (below 100 10 (average_cost cost))
      | None => f64_add score (f64 5)
      end
  | Balanced =>
      let score := plus_if (mm_is_local m) 2 score in
      let score := match mm_avg_latency_ms m with
        | Some latency => f64_add score (below 5000 1000 (f64 latency))
        | None => score
        end in
      match mm_cost_per_mtok m with
      | Some cost => f64_add score (below 50 10 (average_cost cost))
      | None => score
      end
  | QualityFirst =>
      let score := plus_if (mc_reasoning (mm_capabilities m)) 5 score in
      let score := plus_if (mc_vision (mm_capabilities m)) 2 score in
      f64_add score (f64_min (f64_div (f64 (mc_context_window (mm_capabilities m))) (f64 100000)) (f64 5))
  | LowLatency =>
      let score := match mm_avg_latency_ms m with
        | Some latency => f64_add score (below 10000 1000 (f64 latency))
        | None => f64_add score (f64 2)
        end in
      plus_if (mm_is_local m) 5 score
  end.

Definition score_model (p : RouterPolicy) (budget : BudgetConfig) (m : ModelMetadata) : spec_float :=
  let score := policy_score p m in
  match max_tokens budget, context_limit budget with
  | Some _, Some limit =>
      if (mc_context_window (mm_capabilities m) <? limit)%N then f64_mul score f64_half else score
  | _, _ => score
  end.

(** ** Selection *)

Definition is_candidate (r : CapabilityRequirements) (m : ModelMetadata) : bool :=
  satisfies (mm_capabilities m) r && SFltb f64_half (mm_health m).

(** The order of [sort_by]: the higher score first; scores that do not compare are
    equal. *)
Definition best_first (score : ModelMetadata → spec_float) : relation ModelMetadata := λ a b,
  SFcompare (score b) (score a) ≠ Some Gt.

#[export] Instance best_first_dec score : RelDecision (best_first score).
Proof. intros a b. unfold best_first. apply _. Defined.

Definition select_model (c : ModelRouterConfig) (r : CapabilityRequirements) (budget : BudgetConfig)
    : option ModelSelection :=
  let candidates := List.filter (is_candidate r) (rc_models c) in
  (λ m, mkModelSelection (mm_provider_id m) (mm_model_id m)
     ("Selected by " ++ router_policy_debug (rc_policy c) ++ " policy")%string)
  <$> head (merge_sort (best_first (score_model (rc_policy c) budget)) candidates).

Definition router_fallback (c : ModelRouterConfig) (current_model : string) : option ModelSelection :=
  '(i, _) ← list_find (λ m, m = current_model) (rc_fallback_chain c);
  next ← rc_fallback_chain c !! S i;
  m ← List.find (λ m, String.eqb (mm_model_id m) next) (rc_models c);
  Some (mkModelSelection (mm_provider_id m) (mm_model_id m) ("Fallback from " ++ current_model)%string).

(** ** The best candidate *)

(** A float that is no NaN, as a point of a lexicographic order. *)
Definition rank (x : spec_float) : Z * Z * Z :=
  match x with
  | S754_infinity true => (-2, 0, 0)
  | S754_finite true m e => (-1, -e, - Zpos m)
  | S754_zero _ | S754_nan => (0, 0, 0)
  | S754_finite false m e => (1, e, Zpos m)
  | S754_infinity false => (2, 0, 0)
  end%Z.

Definition rank_lt (a b : Z * Z * Z) : Prop :=
  (a.1.1 < b.1.1 ∨ a.1.1 = b.1.1 ∧ (a.1.2 < b.1.2 ∨ a.1.2 = b.1.2 ∧ a.2 < b.2))%Z.

Lemma pos_compare_lex m1 m2 : (Pos.compare_cont Eq m1 m2 = Gt ↔ (Zpos m2 < Zpos m1)%Z) ∧
  (Pos.compare_cont Eq m1 m2 = Lt ↔ (Zpos m1 < Zpos m2)%Z).
Proof.
  change (Pos.compare_cont Eq m1 m2) with (m1 ?= m2)%positive.
  split; destruct (Pos.compare_spec m1 m2); split; intros; try done; lia.
Qed.

Lemma compare_gt x y :
  x ≠ S754_nan → y ≠ S754_nan → SFcompare x y = Some Gt ↔ rank_lt (rank y) (rank x).
Proof.
  intros Hx Hy.
  destruct x as [[]|[]| |[] m1 e1], y as [[]|[]| |[] m2 e2]; try done; cbn; unfold rank_lt; cbn;
    try (split; [intros [=]|]; try done; lia).
  - destruct (pos_compare_lex m1 m2) as [Hg Hl]. destruct (Z.compare_spec e1 e2) as [->| |].
    + destruct (Pos.compare_cont Eq m1 m2) eqn:E; cbn; split; intros Hc; try done; try lia;
        first [destruct Hl as [_ Hl]; discriminate Hl; lia | destruct Hl as [Hl _]; specialize (Hl eq_refl); lia
              | destruct Hg as [Hg _]; specialize (Hg eq_refl); lia].
    + split; [intros _; lia|done].
    + split; [done|lia].
  - destruct (pos_compare_lex m1 m2) as [Hg Hl]. destruct (Z.compare_spec e1 e2) as [->| |].
    + destruct (Pos.compare_cont Eq m1 m2) eqn:E; cbn; split; intros Hc; try done; try lia;
        first [destruct Hg as [_ Hg]; discriminate Hg; lia | destruct Hg as [Hg _]; specialize (Hg eq_refl); lia
              | destruct Hl as [Hl _]; specialize (Hl eq_refl); lia].
    + split; [done|lia].
    + split; [intros _; lia|done].
Qed.

Section best.
Context (score : ModelMetadata → spec_float).

Abbreviation before := (best_first score).

Definition scored (m : ModelMetadata) : Prop := score m ≠ S754_nan.

Lemma before_iff a b : scored a → scored b → before a b ↔ ¬ rank_lt (rank (score a)) (rank (score b)).
Proof. intros Ha Hb. unfold best_first. by rewrite compare_gt. Qed.

#[local] Instance before_total : Total before.
Proof.
  intros a b. unfold best_first.
  assert (∀ x, x = S754_nan ∨ x ≠ S754_nan) as Hnan by (intros []; auto).
  destruct (Hnan (score a)) as [->|Ha]; [right; by destruct (score b) as [| | |]|].
  destruct (Hnan (score b)) as [->|Hb]; [left; by destruct (score a) as [| | |]|].
  rewrite !compare_gt by done. unfold rank_lt. lia.
Qed.

Lemma before_trans a b c : scored a → scored b → scored c → before a b → before b c → before a c.
Proof. intros Ha Hb Hc. rewrite !before_iff by done. unfold rank_lt. lia. Qed.

Lemma sorted_head_best m l m' :
  Forall scored (m :: l) → Sorted before (m :: l) → m' ∈ m :: l → before m m'.
Proof.
  revert m. induction l as [|x l IH]; intros m Hs Hsort Hin.
  - apply list_elem_of_singleton in Hin as ->. inversion_clear Hs. rewrite before_iff by done.
    unfold rank_lt. lia.
  - apply Forall_cons in Hs as [Hm Hs]. apply Sorted_inv in Hsort as [Hsort Hhd]. inversion_clear Hhd.
    apply elem_of_cons in Hin as [->|Hin].
    + rewrite before_iff by done. unfold rank_lt. lia.
    + pose proof Hs as [Hx _]%Forall_cons. apply (before_trans m x m'); try done.
      * by eapply Forall_forall.
      * by apply IH.
Qed.
End best.

(** The router picks a model exactly when a configured one meets the
    requirements and is more than half healthy; the pick is such a model, and none
    of the others scores higher, as long as no score is a NaN. *)
Theorem select_model_best c r budget :
  Forall (λ m, score_model (rc_policy c) budget m ≠ S754_nan) (List.filter (is_candidate r) (rc_models c)) →
  (select_model c r budget = None ↔ ∀ m, m ∈ rc_models c → is_candidate r m = false) ∧
  ∀ s, select_model c r budget = Some s →
    ∃ m, m ∈ rc_models c ∧ is_candidate r m = true ∧
      ms_provider_id s = mm_provider_id m ∧ ms_model_id s = mm_model_id m ∧
      ∀ m', m' ∈ rc_models c → is_candidate r m' = true →
        SFcompare (score_model (rc_policy c) budget m') (score_model (rc_policy c) budget m) ≠ Some Gt.
Proof.
  set (score := score_model (rc_policy c) budget). set (l := List.filter (is_candidate r) (rc_models c)).
  intros Hs. assert (∀ m, m ∈ l ↔ m ∈ rc_models c ∧ is_candidate r m = true) as Hl.
  { intros m. unfold l. by rewrite !list_elem_of_In, filter_In. }
  pose proof (merge_sort_Permutation (best_first score) l) as Hperm.
  pose proof (@Sorted_merge_sort _ (best_first score) _ (before_total score) l) as Hsorted.
  unfold select_model. fold score l. destruct (merge_sort (best_first score) l) as [|m rest] eqn:E; cbn.
  - symmetry in Hperm. apply Permutation_nil_r in Hperm. split; [|done]. split; [|done]. intros _ m Hm.
    apply not_true_is_false. intros Hc. assert (m ∈ l) as Hin by by apply Hl. rewrite Hperm in Hin.
    by apply elem_of_nil in Hin.
  - assert (m ∈ l) as Hm by (rewrite <-Hperm; by left). apply Hl in Hm as [Hm Hc]. split.
    + split; [done|]. intros Hnone. by rewrite (Hnone m Hm) in Hc.
    + intros s [= <-]. exists m. split_and!; try done. intros m' Hm' Hc'.
      apply (sorted_head_best score m rest m'); [by rewrite Hperm|done|]. rewrite Hperm. by apply Hl.
Qed.

(** ** Samples *)

Definition sample_model (id : string) (tools local : bool) (latency : N) : ModelMetadata :=
  mkModelMetadata "p" id (mkModelCapabilities tools false false 8000) None local (Some latency) (f64 1).

Definition sample_router : ModelRouterConfig :=
  mkRouterConfig LowLatency [sample_model "slow" true false 9000; sample_model "fast" true false 100;
    sample_model "no-tools" false true 1; sample_model "near" true true 900] ["fast"; "slow"; "gone"].

Definition need_tools : CapabilityRequirements := mkRequirements true false false None.

Example fallback_follows_chain :
  ms_model_id <$> router_fallback sample_router "fast" = Some "slow" ∧
  router_fallback sample_router "slow" = None ∧ router_fallback sample_router "gone" = None.
Proof. vm_compute. done. Qed.

(** The harness is built with the default configuration, which has no models: it
    never picks one. *)
Example default_router_never_selects r budget : select_model ModelRouterConfig_default r budget = None.
Proof. done. Qed.

Lemma select_model_witness :
  ∃ m, m ∈ rc_models sample_router ∧ is_candidate need_tools m = true ∧ mm_model_id m = "near".
Proof.
  destruct (proj2 (select_model_best sample_router need_tools BudgetConfig_default
    ltac:(repeat constructor; by vm_compute)) (mkModelSelection "p" "near" "Selected by LowLatency policy")
    ltac:(vm_compute; reflexivity)) as (m & Hm & Hc & _ & Hid & _).
  exists m. exact (conj Hm (conj Hc (eq_sym Hid))).
Defined.
