(* ===== verification/Wire.v ===== *)
(** * Records of the protocol

    [crates/impetus-protocol/src/types.rs]: the records that requests and responses
    carry and no other file of the development needs: resolved instructions, the
    approval preview, coding tools, subsystem health, child results, terminals,
    servers, git, memory entries, extensions, the browser, batch items.  Paths are
    byte strings and [serde_json::Value] is [JValue]. *)

From S2P Require Import Prelude Str Utf8 Action ToolSchema Worktrees ToolOrchestrator WorkflowRuntime.

Open Scope string_scope.
Open Scope nat_scope.
Open Scope list_scope.
Open Scope impetus_scope.

(** ** Instructions *)

Inductive InstructionScope :=
  | ScopeGlobal
  | ScopeWorkspace
  | ScopePath (path : string)
  | ScopeEcosystem (name : string).

#[export] Instance InstructionScope_eq_dec : EqDecision InstructionScope.
Proof. solve_decision. Defined.

Record InstructionReference := mkInstructionReference {
  ir_id : string;
  ir_kind : InstructionKind;
  ir_scope : InstructionScope;
  ir_relative_path : string;
  ir_content_hash : string;
  ir_text : string;
}.

Record InstructionTokenEstimate := mkTokenEstimate {
  te_project_rules : N;
  te_conventions : N;
  te_guides : N;
  te_skills : N;
}.

Definition InstructionTokenEstimate_default : InstructionTokenEstimate := mkTokenEstimate 0 0 0 0.

Definition InstructionTokenEstimate_total (e : InstructionTokenEstimate) : N :=
  te_project_rules e + te_conventions e + te_guides e + te_skills e.

Record ResolvedInstructions := mkResolved {
  ri_references : list InstructionReference;
  ri_estimated_tokens : InstructionTokenEstimate;
}.

(** ** The store of governed instructions, from its text *)

Inductive PolicyStoreLoadError :=
  | LoadIo
  | LoadJson
  | LoadInvalid (e : PolicyStoreError).

(** [from_str] and [to_string_pretty] are serde's; [read] is the file's content if
    it can be read. *)
Definition PolicyStore_parse (from_str : string → option PolicyStore) (json : string)
    : result PolicyStoreLoadError PolicyStore :=
  store ← ok_or (from_str json) LoadJson;
  _ ← map_err LoadInvalid (PolicyStore_validate store);
  Ok store.

Definition PolicyStore_load_from_path (from_str : string → option PolicyStore)
    (read : option string) : result PolicyStoreLoadError PolicyStore :=
  raw ← ok_or read LoadIo;
  PolicyStore_parse from_str raw.

Definition PolicyStore_load_optional (from_str : string → option PolicyStore)
    (path_exists : bool) (read : option string)
    : result PolicyStoreLoadError (option PolicyStore) :=
  if path_exists then store ← PolicyStore_load_from_path from_str read; Ok (Some store) else Ok None.

Definition PolicyStore_export_json (to_string_pretty : PolicyStore → option string)
    (s : PolicyStore) : result PolicyStoreLoadError string :=
  _ ← map_err LoadInvalid (PolicyStore_validate s);
  ok_or (to_string_pretty s) LoadJson.

(** ** The preview of an approval *)

Definition APPROVAL_DETAIL_SCHEMA_ID : string := "impetus.approval_detail.v1".
Definition APPROVAL_DETAIL_SCHEMA_VERSION : N := 1.

Inductive DiffSource :=
  | DiffGit (commit_range : option string)
  | DiffFiles (before after : string).

Record DiffHunk := mkDiffHunk {
  dh_file : string;
  dh_old_start : N;
  dh_old_lines : N;
  dh_new_start : N;
  dh_new_lines : N;
  dh_preview : string;
}.

Record DiffObservation := mkDiffObservation {
  do_source : DiffSource;
  do_files_changed : N;
  do_insertions : N;
  do_deletions : N;
  do_summary : string;
  do_hunks : list DiffHunk;
  do_artifact_ref : option string;
}.

Inductive ScopeEstimate :=
  | EstimateLines (n : N)
  | EstimateBytes (n : N)
  | EstimateOperations (n : N).

Record ApprovalDetail := mkApprovalDetail {
  ad_schema_version : N;
  ad_request : ApprovalRequest;
  ad_diff_preview : option string;
  ad_diff_observation : option DiffObservation;
  ad_affected_files : list string;
  ad_estimated_scope : option ScopeEstimate;
  ad_attachment_refs : list Uuid;
}.

(** The error holds the version that was found. *)
Definition validate_schema_version (d : ApprovalDetail) : result N () :=
  if (ad_schema_version d =? APPROVAL_DETAIL_SCHEMA_VERSION)%N then Ok tt
  else Err (ad_schema_version d).

Definition schema_error_text (got : N) : string :=
  ("approval detail schema version " ++ dec got ++ " unsupported (expected "
   ++ dec APPROVAL_DETAIL_SCHEMA_VERSION ++ ")")%string.

(** ** Coding tools *)

Record HoverInfo := mkHoverInfo { hi_contents : string; hi_range : option SourceRange }.

Inductive DiagnosticSeverity := SevError | SevWarning | SevInformation | SevHint.

Record CodingDiagnostic := mkCodingDiagnostic {
  cd_path : string;
  cd_range : SourceRange;
  cd_severity : DiagnosticSeverity;
  cd_message : string;
  cd_code : option string;
}.

Inductive SymbolKind :=
  | SymFile | SymModule | SymNamespace | SymClass | SymMethod | SymFunction | SymVariable
  | SymConstant | SymField | SymEnum | SymInterface | SymStruct | SymTypeParameter | SymOther.

Record DocumentSymbol := mkDocumentSymbol {
  sym_name : string;
  sym_kind : SymbolKind;
  sym_location : SourceLocation;
  sym_container_name : option string;
}.

(** ** Health of the subsystems *)

Record SubsystemStatus := mkSubsystemStatus {
  sub_available : bool;
  sub_message : string;
  sub_details : option JValue;
}.

Definition SubsystemStatus_ok (message : string) : SubsystemStatus :=
  mkSubsystemStatus true message None.
Definition SubsystemStatus_unavailable (message : string) : SubsystemStatus :=
  mkSubsystemStatus false message None.
Definition with_details (details : JValue) (s : SubsystemStatus) : SubsystemStatus :=
  mkSubsystemStatus (sub_available s) (sub_message s) (Some details).

Record SubsystemHealth := mkSubsystemHealth {
  sh_event_store : SubsystemStatus;
  sh_artifact_store : SubsystemStatus;
  sh_policy_engine : SubsystemStatus;
  sh_provider_registry : SubsystemStatus;
  sh_sandbox : SubsystemStatus;
  sh_credential_store : SubsystemStatus;
  sh_tools_capabilities : SubsystemStatus;
  sh_external_agents : SubsystemStatus;
  sh_optional_modules : SubsystemStatus;
  sh_disk_runtime : SubsystemStatus;
  sh_web_research : SubsystemStatus;
  sh_output_optimization : SubsystemStatus;
}.

(** ** Child runs *)

Definition ChildResultStatus_as_str (s : ChildResultStatus) : string :=
  match s with
  | ChildCompleted => "completed"
  | ChildFailed => "failed"
  | ChildCancelled => "cancelled"
  end.

Definition ChildResultStatus_parse (raw : string) : option ChildResultStatus :=
  if String.eqb raw "completed" then Some ChildCompleted
  else if String.eqb raw "failed" then Some ChildFailed
  else if String.eqb raw "cancelled" then Some ChildCancelled
  else None.

Record ChildResult := mkChildResult {
  cr_child_id : string;
  cr_parent_id : string;
  cr_role_label : string;
  cr_status : ChildResultStatus;
  cr_summary_label : string;
  cr_artifact_ref_labels : list string;
  cr_recorded_unix_ms : N;
}.

(** ** Terminals *)

Inductive PtySessionState :=
  | PtyStarting
  | PtyRunning (pid : N)
  | PtyDetached (pid : N)
  | PtyExited (exit_code : option Z)
  | PtyFailed (reason : string).

Record PtySessionInfo := mkPtySessionInfo {
  psi_pty_id : N;
  psi_owner_session_id : Uuid;
  psi_state : PtySessionState;
  psi_command : string;
  psi_args : list string;
  psi_cols : N;
  psi_rows : N;
  psi_working_dir : option string;
  psi_created_at_unix_ms : option N;
  psi_origin : option string;
}.

(** ** Servers of tools *)

Inductive McpTransport := TransportStdio | TransportHttp | TransportSse.

Record McpCapabilities := mkMcpCapabilities {
  mcap_tools : bool;
  mcap_resources : bool;
  mcap_prompts : bool;
  mcap_sampling : bool;
}.

Record McpServerStatus := mkMcpServerStatus {
  mss_id : string;
  mss_name : string;
  mss_transport : option McpTransport;
  mss_connected : bool;
  mss_capabilities : McpCapabilities;
}.

Record McpServerUpsert := mkMcpServerUpsert {
  msu_id : string;
  msu_name : string;
  msu_command : string;
  msu_args : list string;
  msu_transport : McpTransport;
  msu_capabilities : McpCapabilities;
  msu_env_keys : list string;
}.

(** ** Models *)

Record AgentCapabilitySnapshot := mkAgentCapabilitySnapshot {
  acs_load_session : bool;
  acs_prompt_image : bool;
  acs_prompt_audio : bool;
  acs_prompt_embedded_context : bool;
  acs_auth_method_ids : list string;
  acs_agent_name : option string;
  acs_agent_version : option string;
  acs_model_ids : list string;
  acs_thought_levels : list string;
}.

Record SessionModelSelection := mkSessionModelSelection {
  sms_provider_id : string;
  sms_model_id : string;
  sms_reasoning_effort : option string;
  sms_service_tier : option string;
  sms_provider_options : JValue;
}.

(** ** Git *)

Record GitRepositoryState := mkGitRepositoryState {
  grs_repo_root : string;
  grs_worktree_path : string;
  grs_head_sha : option string;
  grs_current_branch : option string;
  grs_detached : bool;
  grs_dirty : bool;
  grs_conflict_in_progress : bool;
  grs_worktree_id : option string;
  grs_worktree_lifecycle : option WorktreeLifecycleState;
}.

Record GitBranchInfo := mkGitBranchInfo {
  gbi_name : string;
  gbi_current : bool;
  gbi_upstream : option string;
}.

Record GitCurrentBranch := mkGitCurrentBranch {
  gcb_name : option string;
  gcb_detached : bool;
  gcb_head_sha : option string;
}.

Inductive GitChangeKind :=
  | ChModified | ChAdded | ChDeleted | ChRenamed | ChCopied | ChUnmerged | ChUntracked
  | ChIgnored | ChUnknown.

#[export] Instance GitChangeKind_eq_dec : EqDecision GitChangeKind.
Proof. solve_decision. Defined.

Record GitChangedFile := mkGitChangedFile {
  gcf_path : string;
  gcf_kind : GitChangeKind;
  gcf_status_code : option string;
}.

Record GitStatusSnapshot := mkGitStatusSnapshot {
  gss_branch : GitCurrentBranch;
  gss_dirty : bool;
  gss_conflict_in_progress : bool;
  gss_files : list GitChangedFile;
}.

Record GitDiffPayload := mkGitDiffPayload {
  gdp_base_ref : option string;
  gdp_path : option string;
  gdp_patch : string;
  gdp_truncated : bool;
  gdp_files_changed : N;
  gdp_observation : option DiffObservation;
}.

(** ** Memory, extensions, the browser, batches *)

Inductive MemoryEntryScope := EntryProject | EntryTeam | EntryUser.

Record MemoryProvenanceInfo := mkProvenanceInfo { mpi_source : string; mpi_kind : string }.

Record MemoryEntryInfo := mkMemoryEntryInfo {
  mei_id : string;
  mei_scope : MemoryEntryScope;
  mei_content : string;
  mei_provenance : MemoryProvenanceInfo;
}.

Inductive MemoryExportFormat := FormatJsonl | FormatMarkdown.

Record ExtensionStatusInfo := mkExtensionStatusInfo {
  esi_installation_id : string;
  esi_module_id : string;
  esi_module_name : string;
  esi_version : string;
  esi_source : string;
  esi_status : string;
}.

Record ExtensionPackageInfo := mkExtensionPackageInfo {
  epi_id : string;
  epi_name : string;
  epi_version : string;
  epi_extension_api_version : N;
  epi_source : string;
  epi_phase : string;
  epi_capabilities : list string;
  epi_permissions : list string;
  epi_last_error : option string;
  epi_compatible : bool;
}.

Inductive BrowserHealthStatus :=
  | BrowserUnavailable (reason : string)
  | BrowserDegraded (reason : string)
  | BrowserMisconfigured (reason : string)
  | BrowserAvailable (provider_id : string) (capabilities : list string).

Definition ABSENT_REASON : string := "no browser provider registered (optional track)".

Definition BrowserHealthStatus_absent : BrowserHealthStatus := BrowserUnavailable ABSENT_REASON.

Record BrowserNegotiateInfo := mkBrowserNegotiateInfo {
  bni_protocol_version : string;
  bni_compatible : bool;
  bni_reason : string;
}.

Record OfflineBatchItemSpec := mkBatchItemSpec {
  obi_item_id : string;
  obi_input_hash : string;
  obi_output_relpath : string;
}.

(** ** Theorems *)

(** A status reads back from the label it is stored under, and no other text reads
    as one. *)
Lemma child_status_reads_back raw s :
  ChildResultStatus_parse raw = Some s ↔ raw = ChildResultStatus_as_str s.
Proof.
  unfold ChildResultStatus_parse. split; [|by intros ->; destruct s].
  repeat (match goal with |- context [String.eqb ?x ?y] => destruct (String.eqb_spec x y) end;
          [by intros [= <-]|]). done.
Qed.

(** A store that can be exported is one that parses back to itself, for a decoder
    that reads what the encoder wrote. *)
Lemma exported_store_parses to_json from_str s json :
  (∀ s' j, to_json s' = Some j → from_str j = Some s') →
  PolicyStore_export_json to_json s = Ok json →
  PolicyStore_parse from_str json = Ok s.
Proof.
  intros Hj. unfold PolicyStore_export_json, PolicyStore_parse.
  destruct (PolicyStore_validate s) as [[]|e] eqn:Hv; cbn; [|done].
  destruct (to_json s) as [j|] eqn:Ht; cbn; [|done]. intros [= <-].
  rewrite (Hj _ _ Ht). cbn. by rewrite Hv.
Qed.
