(* ===== verification/Schema.v ===== *)
(** * Versioned envelopes

    [crates/impetus-core/src/schema.rs]: the registry of payload schemas and the
    check of a JSON value against one: a known id, the version, no provider or
    harness key at the top level, no unknown key, nests that are objects. *)

From S2P Require Import Prelude Str ToolSchema.

Open Scope string_scope.
Open Scope nat_scope.
Open Scope list_scope.
Open Scope impetus_scope.

Definition NEST_PROVIDER : string := "provider".
Definition NEST_HARNESS : string := "harness".

Definition PROVIDER_NEST_KEYS : list string := [
  "model"; "model_id"; "provider_id"; "provider_profile"; "base_url"; "api_base"; "endpoint";
  "temperature"; "max_tokens"; "top_p"; "api_key"; "api_token"; "api_key_ref"; "auth_ref";
  "openai_http_api"].

Definition HARNESS_NEST_KEYS : list string := [
  "harness_id"; "harness_version"; "seatbelt"; "sandbox_profile"; "worktree"; "worktree_path";
  "seatbelt_process_wrap"].

Record SchemaSpec := mkSchemaSpec {
  spec_id : string;
  spec_version : N;
  spec_critical_fields : list string;
}.

Definition SCHEMA_APPROVAL_DETAIL : SchemaSpec := mkSchemaSpec "impetus.approval_detail.v1" 1 [
  "schema_version"; "request"; "diff_preview"; "diff_observation"; "affected_files";
  "estimated_scope"; "attachment_refs"; NEST_PROVIDER; NEST_HARNESS].

Definition SCHEMA_CAPABILITIES : SchemaSpec := mkSchemaSpec "impetus.capabilities.v1" 1 [
  "schema_version"; "capabilities"; NEST_PROVIDER; NEST_HARNESS].

Definition SCHEMA_SESSION : SchemaSpec := mkSchemaSpec "impetus.session.v1" 1 [
  "schema_version"; "session_id"; NEST_PROVIDER; NEST_HARNESS].

Definition SCHEMA_EXTENSION : SchemaSpec := mkSchemaSpec "impetus.extension.v1" 1 [
  "schema_version"; "id"; "kind"; "version"; "digest"; "capabilities"].

Definition SCHEMA_MCP : SchemaSpec := mkSchemaSpec "impetus.mcp.v1" 1 [
  "schema_version"; "id"; "transport"; "command"; "args"; "capabilities"; "env_keys"].

Definition KNOWN_SCHEMAS : list SchemaSpec := [
  SCHEMA_APPROVAL_DETAIL; SCHEMA_CAPABILITIES; SCHEMA_SESSION; SCHEMA_EXTENSION; SCHEMA_MCP].

Definition WIRE_RESPONSE_SCHEMAS : list SchemaSpec := [
  SCHEMA_APPROVAL_DETAIL; SCHEMA_SESSION; SCHEMA_CAPABILITIES].

Inductive SchemaValidationError :=
  | UnknownSchema (id : string)
  | VersionMismatch (id : string) (expected actual : N)
  | UnknownCriticalField (id name : string)
  | LeakedNestedField (id name nest_under : string)
  | NestNotAnObject (id nest : string)
  | NotAnObject (id : string).

Definition schema_validation_text (e : SchemaValidationError) : string :=
  match e with
  | UnknownSchema id => "unknown schema id `" ++ id ++ "`"
  | VersionMismatch id expected actual =>
      "schema `" ++ id ++ "` version mismatch: expected " ++ dec expected ++ ", got " ++ dec actual
  | UnknownCriticalField id name =>
      "schema `" ++ id ++ "` has unknown critical field `" ++ name ++ "`"
  | LeakedNestedField id name nest_under =>
      "schema `" ++ id ++ "` field `" ++ name ++ "` must nest under `" ++ nest_under
      ++ "` (provider/harness details are not common fields)"
  | NestNotAnObject id nest => "schema `" ++ id ++ "` nest `" ++ nest ++ "` must be a JSON object"
  | NotAnObject id => "schema `" ++ id ++ "` payload must be a JSON object"
  end%string.

Definition str_in (s : string) (l : list string) : bool := existsb (String.eqb s) l.

Definition lookup_schema (schema_id : string) : option SchemaSpec :=
  List.find (λ spec, String.eqb (spec_id spec) schema_id) KNOWN_SCHEMAS.

Definition require_version (spec : SchemaSpec) (schema_version : N)
    : result SchemaValidationError () :=
  if (schema_version =? spec_version spec)%N then Ok tt
  else Err (VersionMismatch (spec_id spec) (spec_version spec) schema_version).

Definition nest_under_for_key (key : string) : option string :=
  if str_in key PROVIDER_NEST_KEYS then Some NEST_PROVIDER
  else if str_in key HARNESS_NEST_KEYS then Some NEST_HARNESS
  else None.

Definition schema_uses_nests (spec : SchemaSpec) : bool :=
  existsb (λ f, String.eqb f NEST_PROVIDER || String.eqb f NEST_HARNESS)
    (spec_critical_fields spec).

(** The loop over the keys: the first error found. *)
Fixpoint each_key (check : string → result SchemaValidationError ()) (keys : list string)
    : result SchemaValidationError () :=
  match keys with
  | [] => Ok tt
  | key :: keys' => _ ← check key; each_key check keys'
  end.

Definition reject_leaked_nested_fields (spec : SchemaSpec) (object : list (string * JValue))
    : result SchemaValidationError () :=
  if negb (schema_uses_nests spec) then Ok tt
  else
    each_key (λ key,
      match nest_under_for_key key with
      | Some nest_under => Err (LeakedNestedField (spec_id spec) key nest_under)
      | None => Ok tt
      end) object.*1.

Definition reject_unknown_critical_fields (spec : SchemaSpec) (object : list (string * JValue))
    : result SchemaValidationError () :=
  each_key (λ key,
    if str_in key (spec_critical_fields spec) then Ok tt
    else Err (UnknownCriticalField (spec_id spec) key)) object.*1.

Definition is_object (v : JValue) : bool :=
  match as_object v with Some _ => true | None => false end.

Definition require_nest_objects (spec : SchemaSpec) (object : list (string * JValue))
    : result SchemaValidationError () :=
  if negb (schema_uses_nests spec) then Ok tt
  else
    each_key (λ nest,
      match field nest object with
      | Some value => if is_object value then Ok tt else Err (NestNotAnObject (spec_id spec) nest)
      | None => Ok tt
      end) [NEST_PROVIDER; NEST_HARNESS].

(** [v as u16] keeps the low 16 bits. *)
Definition as_u16 (v : N) : N := v `mod` 65536.

Definition envelope_version (spec : SchemaSpec) (object : list (string * JValue)) : N :=
  match field "schema_version" object ≫= as_u64 with
  | Some v => as_u16 v
  | None => spec_version spec
  end.

Definition validate_envelope (schema_id : string) (value : JValue)
    : result SchemaValidationError SchemaSpec :=
  spec ← ok_or (lookup_schema schema_id) (UnknownSchema schema_id);
  object ← ok_or (as_object value) (NotAnObject (spec_id spec));
  _ ← require_version spec (envelope_version spec object);
  _ ← reject_leaked_nested_fields spec object;
  _ ← reject_unknown_critical_fields spec object;
  _ ← require_nest_objects spec object;
  Ok spec.

Definition validate_approval_detail_wire (value : JValue)
    : result SchemaValidationError SchemaSpec :=
  validate_envelope (spec_id SCHEMA_APPROVAL_DETAIL) value.

Definition validate_session_wire (value : JValue) : result SchemaValidationError SchemaSpec :=
  validate_envelope (spec_id SCHEMA_SESSION) value.

(** ** Theorems *)

Lemma str_in_elem s l : str_in s l = true ↔ s ∈ l.
Proof.
  unfold str_in. induction l as [|x l IH]; cbn.
  { split; [done|by intros ?%not_elem_of_nil]. }
  rewrite orb_true_iff, IH, elem_of_cons, String.eqb_eq. done.
Qed.

Lemma each_key_ok check keys :
  each_key check keys = Ok tt ↔ Forall (λ k, check k = Ok tt) keys.
Proof.
  induction keys as [|k keys IH]; cbn; [by rewrite Forall_nil|].
  rewrite Forall_cons, <- IH. destruct (check k) as [[]|]; cbn; naive_solver.
Qed.

Lemma lookup_schema_spec id spec :
  lookup_schema id = Some spec → spec ∈ KNOWN_SCHEMAS ∧ spec_id spec = id.
Proof.
  intros Hf. apply List.find_some in Hf as [Hin Heq]. split; [|by apply String.eqb_eq].
  by apply list_elem_of_In.
Qed.

(** No key that belongs in a nest is a field of any schema: leaking one is an
    unknown field under a clearer name. *)
Lemma nested_keys_unknown spec key nest :
  spec ∈ KNOWN_SCHEMAS → nest_under_for_key key = Some nest →
  str_in key (spec_critical_fields spec) = false.
Proof.
  assert (forallb (λ s, forallb (λ k, negb (str_in k (spec_critical_fields s)))
            (PROVIDER_NEST_KEYS ++ HARNESS_NEST_KEYS)) KNOWN_SCHEMAS = true) as Hall
    by (vm_compute; reflexivity).
  intros Hin Hk. rewrite forallb_forall in Hall.
  specialize (Hall spec (proj1 (list_elem_of_In _ _) Hin)). rewrite forallb_forall in Hall.
  apply negb_true_iff, Hall, list_elem_of_In, elem_of_app. unfold nest_under_for_key in Hk.
  destruct (str_in key PROVIDER_NEST_KEYS) eqn:Hp; [left; by apply str_in_elem|].
  destruct (str_in key HARNESS_NEST_KEYS) eqn:Hh; [right; by apply str_in_elem|done].
Qed.

(** A value passes as an envelope of a schema exactly when the schema is
    registered, the value is an object, its version (the low 16 bits of
    schema_version when that is an unsigned number, the current version
    otherwise) is the current one, every key is a field of the schema, and the
    provider and harness nests, where the schema has them, are objects. *)
Theorem envelope_accepted_exactly schema_id value spec :
  validate_envelope schema_id value = Ok spec ↔
  lookup_schema schema_id = Some spec ∧
  ∃ object, as_object value = Some object ∧
    envelope_version spec object = spec_version spec ∧
    Forall (λ key, key ∈ spec_critical_fields spec) object.*1 ∧
    (schema_uses_nests spec = true →
     ∀ nest v, nest ∈ [NEST_PROVIDER; NEST_HARNESS] → field nest object = Some v →
               is_object v = true).
Proof.
  unfold validate_envelope.
  destruct (lookup_schema schema_id) as [s|] eqn:Hs; cbn; [|naive_solver].
  destruct (as_object value) as [object|]; cbn; [|naive_solver].
  pose proof (lookup_schema_spec _ _ Hs) as [Hin _].
  assert (require_version s (envelope_version s object) = Ok tt ↔
          envelope_version s object = spec_version s) as Hv.
  { unfold require_version. destruct (N.eqb_spec (envelope_version s object) (spec_version s));
      naive_solver. }
  assert (reject_unknown_critical_fields s object = Ok tt ↔
          Forall (λ key, key ∈ spec_critical_fields s) object.*1) as Hu.
  { unfold reject_unknown_critical_fields. rewrite each_key_ok. apply Forall_iff. intros k.
    rewrite <- str_in_elem. by destruct (str_in k _). }
  assert (Forall (λ key, key ∈ spec_critical_fields s) object.*1 →
          reject_leaked_nested_fields s object = Ok tt) as Hl.
  { intros Hall. unfold reject_leaked_nested_fields. destruct (schema_uses_nests s); [|done].
    cbn [negb]. apply each_key_ok. eapply Forall_impl; [exact Hall|]. intros k Hk%str_in_elem.
    destruct (nest_under_for_key k) as [n|] eqn:Hn; [|done].
    by rewrite (nested_keys_unknown _ _ _ Hin Hn) in Hk. }
  assert (require_nest_objects s object = Ok tt ↔
          (schema_uses_nests s = true →
           ∀ nest v, nest ∈ [NEST_PROVIDER; NEST_HARNESS] → field nest object = Some v →
                     is_object v = true)) as Hn.
  { unfold require_nest_objects. destruct (schema_uses_nests s); cbn [negb]; [|naive_solver].
    rewrite each_key_ok, Forall_forall. split.
    - intros Hall _ nest v Hnest Hf. specialize (Hall nest Hnest). cbn beta in Hall.
      rewrite Hf in Hall. by destruct (is_object v).
    - intros Hall nest Hnest. destruct (field nest object) as [v|] eqn:Hf; [|done].
      by rewrite (Hall eq_refl nest v Hnest Hf). }
  destruct (require_version s _) as [[]|e]; cbn; [|naive_solver].
  destruct (reject_leaked_nested_fields s object) as [[]|e]; cbn; [|naive_solver].
  destruct (reject_unknown_critical_fields s object) as [[]|e]; cbn; [|naive_solver].
  destruct (require_nest_objects s object) as [[]|e]; cbn; naive_solver.
Qed.

(** The version is cut to 16 bits before it is compared, and one that is no
    unsigned number is not compared at all. *)
Example foreign_versions_pass :
  map (λ v, is_ok (validate_session_wire (JObject [("schema_version", v)])))
    [JInt 1; JInt 65537; JString "2"; JInt (-3); JFloat "2.0"; JInt 2] =
  [true; true; true; true; true; false].
Proof. vm_compute. reflexivity. Qed.
