(* ===== verification/Ipc.v ===== *)
(** * The protocol between clients and the daemon

    [crates/impetus-protocol/src/ipc.rs]: requests and responses, the versions and
    capabilities of a connection, the checks of a request and of a response, and
    the batch of events that fits one frame.  serde_json is a class: the decoders
    of the two policy documents and the length of an encoded response. *)

From S2P Require Import Prelude Str Utf8 Action Events EventStore AgentRuntime PathScope ToolSchema WorkspaceFiles Artifacts ReadOnlyTools Provider Worktrees ToolOrchestrator Wire.

Open Scope string_scope.
Open Scope nat_scope.
Open Scope list_scope.
Open Scope impetus_scope.

Definition MAX_IPC_LINE_BYTES : N := 64 * 1024.
Definition IPC_EVENTS_FRAME_BUDGET : N := 60 * 1024.
Definition IPC_VERSION : N := 15.
Definition IPC_MIN_SUPPORTED : N := 12.

Definition IPC_CAPABILITIES : list string := [
  "session_create"; "session_attach"; "session_list"; "session_fork"; "session_checkpoint";
  "event_stream"; "prompt"; "cancel"; "tool"; "subscribe"; "resolve_approval";
  "get_attachment"; "get_approval_detail"; "resolve_approval_bound"; "context"; "diagnostics";
  "artifact_upload"; "artifact_read"; "coding_definition"; "execution_mode";
  "reload_policy_config"; "reload_policy_store"; "list_child_runs"; "coding_hover";
  "coding_diagnostics"; "coding_symbols"; "coding_cancel"; "workflow_control";
  "approval_scope_file_edits"; "approval_scope_full_auto"; "workspace_list_dir";
  "workspace_stat_file"; "workspace_read_file"; "workspace_search_files"; "git";
  "structured_diff"; "pty"; "list_mcp"; "list_models"; "list_providers"; "session_model";
  "worktrees"; "mcp_manage"; "memory"; "memory_manage"; "browser"; "extension_runtime";
  "extension_manage"; "offline_batch"].

Inductive IpcRequest :=
  | ReqHello (version : N) (min_version : option N) (capabilities : list string)
  | ReqCreateSession (workspace_root : string)
  | ReqAttach (session_id : Uuid)
  | ReqListSessions
  | ReqForkSession (session_id : Uuid) (up_to_sequence : N)
  | ReqCreateCheckpoint (session_id : Uuid) (name : string) (sequence : option N)
  | ReqListCheckpoints (session_id : Uuid)
  | ReqRestoreCheckpoint (checkpoint_id : Uuid)
  | ReqStream (session_id : Uuid) (after_sequence : N)
  | ReqPrompt (session_id : Uuid) (text : string) (artifact : option ArtifactRef)
      (intent : UserPromptIntent)
  | ReqContext (session_id : Uuid)
  | ReqCancel (session_id : Uuid)
  | ReqTool (session_id : Uuid) (kind : ReadOnlyToolKind) (target : string)
      (pattern : option string)
  | ReqSubscribe (session_id : Uuid) (after_sequence : N)
  | ReqResolveApproval (session_id approval_id : Uuid) (accepted : bool)
  | ReqGetAttachment (session_id attachment_id : Uuid)
  | ReqGetApprovalDetail (session_id approval_id : Uuid)
  | ReqBeginArtifactUpload (session_id : Uuid) (declared_bytes : option N)
      (content_type : option string)
  | ReqAppendArtifactChunk (upload_id : Uuid) (seq : N) (data_b64 : string)
  | ReqFinishArtifactUpload (upload_id : Uuid)
  | ReqAbortArtifactUpload (upload_id : Uuid)
  | ReqReadArtifact (artifact_id : string) (max_bytes : option N)
  | ReqGetArtifactMetadata (artifact_id : string)
  | ReqReadArtifactRange (artifact_id : string) (start len : N)
  | ReqDiagnostics
  | ReqGotoDefinition (path : string) (line character : N)
  | ReqSetExecutionMode (session_id : Uuid) (mode : ExecutionMode)
  | ReqGetExecutionMode (session_id : Uuid)
  | ReqReloadPolicyConfig (path config_json : option string)
  | ReqReloadPolicyStore (path store_json : option string)
  | ReqGetPolicyStore
  | ReqListChildRuns (session_id : Uuid)
  | ReqGetChildRun (child_id : string)
  | ReqHover (path : string) (line character : N)
  | ReqCodingDiagnostics (path : string)
  | ReqCodingSymbols (path : string)
  | ReqCancelCodingRequest (request_id : N)
  | ReqStartWorkflow (session_id : Uuid) (recipe : string)
  | ReqCancelWorkflow (session_id : Uuid)
  | ReqAdvanceWorkflow (session_id : Uuid)
  | ReqListWorkspaceDir (session_id : Uuid) (path : string)
  | ReqStatWorkspaceFile (session_id : Uuid) (path : string)
  | ReqReadWorkspaceFile (session_id : Uuid) (path : string) (max_bytes : option N)
  | ReqSearchWorkspaceFiles (session_id : Uuid) (path pattern : string)
  | ReqGetRepositoryState (session_id : Uuid)
  | ReqListBranches (session_id : Uuid)
  | ReqGetCurrentBranch (session_id : Uuid)
  | ReqCreateBranch (session_id : Uuid) (name : string) (checkout : bool)
  | ReqSwitchBranch (session_id : Uuid) (name : string)
  | ReqGitStatus (session_id : Uuid)
  | ReqListChangedFiles (session_id : Uuid)
  | ReqGetDiff (session_id : Uuid) (base_ref : option string)
  | ReqGetFileDiff (session_id : Uuid) (path : string) (base_ref : option string)
  | ReqPtyStart (session_id : Uuid) (command : string) (args : list string)
      (working_dir : option string) (cols rows : option N)
  | ReqPtyAttach (session_id : Uuid) (pty_id : N)
  | ReqPtyInput (session_id : Uuid) (pty_id : N) (data_b64 : string)
  | ReqPtyOutput (session_id : Uuid) (pty_id : N) (max_bytes : option N)
  | ReqPtyResize (session_id : Uuid) (pty_id cols rows : N)
  | ReqPtyDetach (session_id : Uuid) (pty_id : N)
  | ReqPtyTerminate (session_id : Uuid) (pty_id : N)
  | ReqPtyStatus (session_id : Uuid) (pty_id : N)
  | ReqPtyList (session_id : Uuid) (live_only : bool)
  | ReqListMcpServers
  | ReqListModels
  | ReqListProviders
  | ReqGetSessionModel (session_id : Uuid)
  | ReqSetSessionModel (session_id : Uuid) (provider_id model_id : string)
      (reasoning_effort service_tier : option string) (provider_options : JValue)
  | ReqCreateWorktree (session_id : Uuid) (for_build : bool)
  | ReqListWorktrees (session_id : option Uuid)
  | ReqGetWorktree (worktree_id : string)
  | ReqCloseWorktree (worktree_id : string)
  | ReqResumeWorktree (session_id : Uuid)
  | ReqStopWorktree (session_id : Uuid)
  | ReqCheckWorktreeMergeReady (session_id : Uuid) (base_ref : string)
  | ReqMergeWorktree (session_id : Uuid) (base_ref : string)
  | ReqReloadMcpServers
  | ReqUpsertMcpServer (server : McpServerUpsert)
  | ReqRemoveMcpServer (id : string)
  | ReqEnableMcpServer (id : string)
  | ReqDisableMcpServer (id : string)
  | ReqListMemory (session_id : Uuid) (scope : option MemoryEntryScope)
  | ReqGetMemory (session_id : Uuid) (id : string)
  | ReqAppendMemory (session_id : Uuid) (id : string) (scope : MemoryEntryScope)
      (content : string) (provenance : MemoryProvenanceInfo)
  | ReqClearMemory (session_id : Uuid) (scope : option MemoryEntryScope)
  | ReqExportMemory (session_id : Uuid) (format : MemoryExportFormat)
  | ReqGetBrowserHealth
  | ReqNegotiateBrowser (protocol_version : string)
  | ReqListExtensions
  | ReqGetExtensionStatus (installation_id : string)
  | ReqReloadExtensionPackages
  | ReqListExtensionPackages
  | ReqGetExtensionPackage (id : string)
  | ReqEnableExtensionPackage (id : string)
  | ReqDisableExtensionPackage (id : string)
  | ReqInstallExtensionPackage (source_path : string) (replace : bool)
  | ReqRemoveExtensionPackage (id : string)
  | ReqOperateExtensionPackage (id request_id op : string) (params : JValue)
      (permission : option string) (timeout_ms : option N) (session_id : option Uuid)
  | ReqAdmitOfflineBatch (session_id : Uuid) (workspace_root : string)
      (items : list OfflineBatchItemSpec) (model : string).

Definition default_offline_batch_model : string := "mock-model".
Definition default_min_supported : N := IPC_MIN_SUPPORTED.

Inductive IpcErrorCode :=
  | CodeInvalidRequest | CodeMissingSession | CodeUnavailable | CodeConflict | CodeInternal.

#[export] Instance IpcErrorCode_eq_dec : EqDecision IpcErrorCode.
Proof. solve_decision. Defined.

Inductive IpcResponse `{Json} :=
  | RespHello (version : N) (capabilities : list string)
  | RespSession (session_id : Uuid) (status : RuntimeStatus)
  | RespSessions (sessions : list SessionInfo)
  | RespCheckpoint (checkpoint : CheckpointInfo)
  | RespCheckpoints (checkpoints : list CheckpointInfo)
  | RespEvents (session_id : Uuid) (events : list Event)
  | RespStatus (session_id : Uuid) (status : RuntimeStatus)
  | RespContext (session_id : Uuid) (context : ResolvedInstructions)
  | RespToolResult (session_id : Uuid) (outcome : ToolOutcome)
  | RespSubscribed (session_id : Uuid)
  | RespApprovalResolved (session_id approval_id : Uuid)
  | RespAttachment (session_id attachment_id : Uuid) (content_type content : string)
  | RespApprovalDetail (session_id : Uuid) (detail : ApprovalDetail)
  | RespDiagnostics (subsystems : SubsystemHealth)
  | RespArtifactUploadBegun (upload_id : Uuid) (max_bytes max_chunk_bytes : N)
  | RespArtifactChunkAccepted (upload_id : Uuid) (bytes_received next_seq : N)
  | RespArtifactStored (artifact : ArtifactRef)
  | RespArtifactUploadAborted (upload_id : Uuid)
  | RespArtifactContent (artifact_id : string) (content_type : option string)
      (byte_count returned_bytes : N) (data_b64 : string) (truncated : bool)
  | RespArtifactMetadata (meta : ArtifactMeta)
  | RespArtifactRange (artifact_id : string) (start returned_bytes : N) (data_b64 : string)
      (truncated : bool)
  | RespDefinition (locations : list SourceLocation)
  | RespExecutionMode (session_id : Uuid) (mode : ExecutionMode)
  | RespPolicyConfig (config : PolicyConfig)
  | RespPolicyStore (store : PolicyStore)
  | RespChildRuns (session_id : Uuid) (runs : list ChildResult)
  | RespChildRun (run : ChildResult)
  | RespHover (info : option HoverInfo)
  | RespCodingDiagnostics (diagnostics : list CodingDiagnostic)
  | RespCodingSymbols (symbols : list DocumentSymbol)
  | RespCodingCancelAccepted (request_id : N)
  | RespWorkflowStatus (session_id : Uuid) (status : string) (last_summary : option string)
  | RespWorkspaceDirListing (session_id : Uuid) (listing : WorkspaceDirListing)
  | RespWorkspaceFileStat (session_id : Uuid) (metadata : WorkspaceFileMetadata)
  | RespWorkspaceFileContent (session_id : Uuid) (content : WorkspaceFileContent)
  | RespWorkspaceSearchResult (session_id : Uuid) (found : WorkspaceSearchResult)
  | RespRepositoryState (session_id : Uuid) (state : GitRepositoryState)
  | RespBranches (session_id : Uuid) (branches : list GitBranchInfo)
  | RespCurrentBranch (session_id : Uuid) (branch : GitCurrentBranch)
  | RespGitStatus (session_id : Uuid) (status : GitStatusSnapshot)
  | RespChangedFiles (session_id : Uuid) (files : list GitChangedFile)
  | RespDiff (session_id : Uuid) (diff : GitDiffPayload)
  | RespPtySession (info : PtySessionInfo)
  | RespPtySessions (session_id : Uuid) (sessions : list PtySessionInfo)
  | RespPtyOutput (pty_id : N) (data_b64 : string) (dropped_total : N) (eof : bool)
      (spill_artifact : option ArtifactRef)
  | RespPtyOk (pty_id : N)
  | RespMcpServers (servers : list McpServerStatus)
  | RespModels (providers : list (ModelProviderStatus AgentCapabilitySnapshot))
  | RespSessionModel (session_id : Uuid) (selection : SessionModelSelection)
  | RespWorktree (worktree : WorktreeInfo)
  | RespWorktrees (worktrees : list WorktreeInfo)
  | RespWorktreeMergeReady (report : MergeReadyReport)
  | RespWorktreeMerged (worktree : WorktreeInfo)
  | RespMcpReloaded (servers : list McpServerStatus)
  | RespMemoryEntries (session_id : Uuid) (entries : list MemoryEntryInfo)
  | RespMemoryEntry (session_id : Uuid) (entry : MemoryEntryInfo)
  | RespMemoryCleared (session_id : Uuid) (removed : N)
  | RespMemoryExport (session_id : Uuid) (format : MemoryExportFormat) (body : string)
  | RespBrowserHealth (status : BrowserHealthStatus)
  | RespBrowserNegotiate (negotiated : BrowserNegotiateInfo)
  | RespExtensions (extensions : list ExtensionStatusInfo)
  | RespExtensionStatus (extension : ExtensionStatusInfo)
  | RespExtensionPackages (packages : list ExtensionPackageInfo)
  | RespExtensionPackage (package : ExtensionPackageInfo)
  | RespExtensionPackagesReloaded (loaded failed : N)
  | RespExtensionOperate (request_id op : string) (data : JValue)
  | RespOfflineBatchAdmitted (batch_id session_id : Uuid) (config_digest : string)
      (item_count : N)
  | RespIncompatible (supported_version min_supported client_version : N)
      (upgrade_recommendation : option string)
  | RespError (code : IpcErrorCode) (message : string).

(** ** Versions and capabilities *)

Definition negotiate_ipc_version (client_max : N) (client_min : option N)
    (server_max server_min : N) : option N :=
  let client_min := default client_max client_min in
  if (client_max <? client_min)%N then None
  else
    let lo := N.max client_min server_min in
    let hi := N.min client_max server_max in
    if (hi <? lo)%N then None else Some hi.

Definition required_capability (request : IpcRequest) : option string :=
  match request with
  | ReqHello _ _ _ => None
  | ReqCreateSession _ => Some "session_create"
  | ReqAttach _ => Some "session_attach"
  | ReqListSessions => Some "session_list"
  | ReqForkSession _ _ => Some "session_fork"
  | ReqCreateCheckpoint _ _ _ | ReqListCheckpoints _ | ReqRestoreCheckpoint _ =>
      Some "session_checkpoint"
  | ReqStream _ _ => Some "event_stream"
  | ReqPrompt _ _ _ _ => Some "prompt"
  | ReqContext _ => Some "context"
  | ReqCancel _ => Some "cancel"
  | ReqTool _ _ _ _ => Some "tool"
  | ReqSubscribe _ _ => Some "subscribe"
  | ReqResolveApproval _ _ _ => Some "resolve_approval"
  | ReqGetAttachment _ _ => Some "get_attachment"
  | ReqGetApprovalDetail _ _ => Some "get_approval_detail"
  | ReqBeginArtifactUpload _ _ _ | ReqAppendArtifactChunk _ _ _ | ReqFinishArtifactUpload _
  | ReqAbortArtifactUpload _ => Some "artifact_upload"
  | ReqReadArtifact _ _ | ReqGetArtifactMetadata _ | ReqReadArtifactRange _ _ _ =>
      Some "artifact_read"
  | ReqDiagnostics => Some "diagnostics"
  | ReqGotoDefinition _ _ _ => Some "coding_definition"
  | ReqHover _ _ _ => Some "coding_hover"
  | ReqCodingDiagnostics _ => Some "coding_diagnostics"
  | ReqCodingSymbols _ => Some "coding_symbols"
  | ReqCancelCodingRequest _ => Some "coding_cancel"
  | ReqSetExecutionMode _ _ | ReqGetExecutionMode _ => Some "execution_mode"
  | ReqReloadPolicyConfig _ _ => Some "reload_policy_config"
  | ReqReloadPolicyStore _ _ | ReqGetPolicyStore => Some "reload_policy_store"
  | ReqListChildRuns _ | ReqGetChildRun _ => Some "list_child_runs"
  | ReqStartWorkflow _ _ | ReqCancelWorkflow _ | ReqAdvanceWorkflow _ => Some "workflow_control"
  | ReqListWorkspaceDir _ _ => Some "workspace_list_dir"
  | ReqStatWorkspaceFile _ _ => Some "workspace_stat_file"
  | ReqReadWorkspaceFile _ _ _ => Some "workspace_read_file"
  | ReqSearchWorkspaceFiles _ _ _ => Some "workspace_search_files"
  | ReqGetDiff _ _ | ReqGetFileDiff _ _ _ | ReqGetRepositoryState _ | ReqListBranches _
  | ReqGetCurrentBranch _ | ReqCreateBranch _ _ _ | ReqSwitchBranch _ _ | ReqGitStatus _
  | ReqListChangedFiles _ => Some "git"
  | ReqPtyStart _ _ _ _ _ _ | ReqPtyAttach _ _ | ReqPtyInput _ _ _ | ReqPtyOutput _ _ _
  | ReqPtyResize _ _ _ _ | ReqPtyDetach _ _ | ReqPtyTerminate _ _ | ReqPtyStatus _ _
  | ReqPtyList _ _ => Some "pty"
  | ReqListMcpServers => Some "list_mcp"
  | ReqListModels => Some "list_models"
  | ReqListProviders => Some "list_providers"
  | ReqGetSessionModel _ | ReqSetSessionModel _ _ _ _ _ _ => Some "session_model"
  | ReqCreateWorktree _ _ | ReqListWorktrees _ | ReqGetWorktree _ | ReqCloseWorktree _
  | ReqResumeWorktree _ | ReqStopWorktree _ | ReqCheckWorktreeMergeReady _ _
  | ReqMergeWorktree _ _ => Some "worktrees"
  | ReqReloadMcpServers | ReqUpsertMcpServer _ | ReqRemoveMcpServer _ | ReqEnableMcpServer _
  | ReqDisableMcpServer _ => Some "mcp_manage"
  | ReqListMemory _ _ | ReqGetMemory _ _ => Some "memory"
  | ReqAppendMemory _ _ _ _ _ | ReqClearMemory _ _ | ReqExportMemory _ _ => Some "memory_manage"
  | ReqGetBrowserHealth | ReqNegotiateBrowser _ => Some "browser"
  | ReqListExtensions | ReqGetExtensionStatus _ => Some "extension_runtime"
  | ReqReloadExtensionPackages | ReqListExtensionPackages | ReqGetExtensionPackage _
  | ReqEnableExtensionPackage _ | ReqDisableExtensionPackage _
  | ReqInstallExtensionPackage _ _ | ReqRemoveExtensionPackage _
  | ReqOperateExtensionPackage _ _ _ _ _ _ _ => Some "extension_manage"
  | ReqAdmitOfflineBatch _ _ _ _ => Some "offline_batch"
  end.

Definition has_capability (capabilities : list string) (c : string) : bool :=
  existsb (String.eqb c) capabilities.

Definition capability_allows (capabilities : list string) (request : IpcRequest) : bool :=
  match required_capability request with
  | None => true
  | Some required => has_capability capabilities required
  end.

(** ** Checks of requests and responses *)

(** The decoders of the two documents, with the text of their errors. *)
Class PolicyJson := {
  config_from_str : string → option PolicyConfig;
  store_from_str : string → option PolicyStore;
  policy_json_error : string → string;
}.

Section checks.
Context `{PolicyJson}.

(** The text of [PolicyConfigError]; the file is not read here. *)
Definition config_error_text (json : string) (e : PolicyConfigError) : string :=
  match e with
  | ConfigIo => "failed to read policy config: "
  | ConfigJson => "invalid policy config JSON: " ++ policy_json_error json
  | ConfigUnsupportedVersion v =>
      "unsupported policy config version: " ++ dec v ++ " (expected "
      ++ dec POLICY_CONFIG_VERSION ++ ")"
  end%string.

Definition store_invalid_text (e : PolicyStoreError) : string :=
  match e with
  | StoreUnsupportedVersion v =>
      "unsupported policy store version: " ++ dec v ++ " (expected "
      ++ dec POLICY_STORE_VERSION ++ ")"
  | StoreDuplicateId id => "duplicate governed instruction id: " ++ id
  | StoreEmptyId => "governed instruction id must not be empty"
  | StoreEmptyLabel => "governed instruction label must not be empty"
  end%string.

Definition store_error_text (json : string) (e : PolicyStoreLoadError) : string :=
  match e with
  | LoadIo => "failed to read policy store: "
  | LoadJson => "invalid policy store JSON: " ++ policy_json_error json
  | LoadInvalid e => store_invalid_text e
  end%string.

Definition trimmed_empty (s : string) : bool := is_empty (trim s).

(** [key.trim().is_empty() || key.contains('=')] *)
Definition bad_env_key (key : string) : bool := trimmed_empty key || contains key "=".

Fixpoint validate_batch_items (items : list OfflineBatchItemSpec) : result string () :=
  match items with
  | [] => Ok tt
  | item :: items' =>
      if trimmed_empty (obi_item_id item) then Err "admit_offline_batch: item_id must not be empty"
      else if trimmed_empty (obi_input_hash item) then
        Err "admit_offline_batch: input_hash must not be empty"
      else if trimmed_empty (obi_output_relpath item) || is_absolute (obi_output_relpath item) then
        Err "admit_offline_batch: output_relpath must be non-empty relative path"
      else validate_batch_items items'
  end.

Definition validate_request_on_wire (request : IpcRequest) : result string () :=
  match request with
  | ReqReloadPolicyConfig path config_json =>
      match path, config_json with
      | Some _, Some _ => Err "reload_policy_config: supply path or config_json, not both"
      | None, None => Err "reload_policy_config: supply path or config_json"
      | Some _, None => Ok tt
      | None, Some json =>
          _ ← map_err (config_error_text json) (PolicyConfig_parse config_from_str json);
          Ok tt
      end
  | ReqReloadPolicyStore path store_json =>
      match path, store_json with
      | Some _, Some _ => Err "reload_policy_store: supply path or store_json, not both"
      | None, None => Err "reload_policy_store: supply path or store_json"
      | Some _, None => Ok tt
      | None, Some json =>
          _ ← map_err (store_error_text json) (PolicyStore_parse store_from_str json);
          Ok tt
      end
  | ReqSetSessionModel _ provider_id model_id _ _ _ =>
      if trimmed_empty provider_id then Err "set_session_model: provider_id must not be empty"
      else if trimmed_empty model_id then Err "set_session_model: model_id must not be empty"
      else Ok tt
  | ReqUpsertMcpServer server =>
      if trimmed_empty (msu_id server) then Err "upsert_mcp_server: id must not be empty"
      else if trimmed_empty (msu_command server) then Err "upsert_mcp_server: command must not be empty"
      else if existsb bad_env_key (msu_env_keys server) then
        Err "upsert_mcp_server: env_keys must be non-empty labels (never KEY=value)"
      else Ok tt
  | ReqRemoveMcpServer id | ReqEnableMcpServer id | ReqDisableMcpServer id =>
      if trimmed_empty id then Err "mcp_manage: id must not be empty" else Ok tt
  | ReqInstallExtensionPackage source_path _ =>
      if is_empty source_path then
        Err "install_extension_package: source_path must not be empty"
      else Ok tt
  | ReqAdmitOfflineBatch _ workspace_root items model =>
      if is_empty workspace_root then
        Err "admit_offline_batch: workspace_root must not be empty"
      else if match items with [] => true | _ => false end then
        Err "admit_offline_batch: items must not be empty"
      else if trimmed_empty model then Err "admit_offline_batch: model must not be empty"
      else validate_batch_items items
  | ReqRemoveExtensionPackage id | ReqEnableExtensionPackage id
  | ReqDisableExtensionPackage id | ReqGetExtensionPackage id =>
      if trimmed_empty id then Err "extension_manage: id must not be empty" else Ok tt
  | ReqAppendMemory _ id _ content _ =>
      if trimmed_empty id then Err "append_memory: id must not be empty"
      else if is_empty content then Err "append_memory: content must not be empty"
      else Ok tt
  | _ => Ok tt
  end.

Definition validate_response_on_wire `{Json} (response : IpcResponse) : result string () :=
  match response with
  | RespApprovalDetail _ detail => map_err schema_error_text (validate_schema_version detail)
  | RespPolicyConfig config =>
      if (config_version config =? POLICY_CONFIG_VERSION)%N then Ok tt
      else Err ("unsupported policy config version: " ++ dec (config_version config)
                ++ " (expected " ++ dec POLICY_CONFIG_VERSION ++ ")")%string
  | RespPolicyStore store => map_err store_invalid_text (PolicyStore_validate store)
  | _ => Ok tt
  end.

End checks.

(** ** One frame of events *)

(** The length of an encoded response, [None] when serde_json fails. *)
Class ResponseJson `{Json} := { response_len : IpcResponse → option N }.

Section frame.
Context `{Json} `{!ResponseJson}.

(** The default is [usize::MAX] of a 64-bit build. *)
Definition events_frame_len (session_id : Uuid) (events : list Event) : N :=
  default u64_max (response_len (RespEvents session_id events)).

Definition frame_fits (session_id : Uuid) (events : list Event) : bool :=
  (events_frame_len session_id events <=? IPC_EVENTS_FRAME_BUDGET)%N.

(** The binary search: the greatest [n] between [lo] and [hi] whose prefix fits. *)
Fixpoint frame_search (fuel : nat) (session_id : Uuid) (events : list Event) (lo hi : nat) : nat :=
  match fuel with
  | 0 => lo
  | S fuel' =>
      if lo <? hi then
        let mid := lo + (S (hi - lo)) / 2 in
        if frame_fits session_id (take mid events)
        then frame_search fuel' session_id events mid hi
        else frame_search fuel' session_id events lo (mid - 1)
      else lo
  end.

(** Each turn of the search shortens the interval: its length is fuel enough. *)
Definition trim_events_to_ipc_frame (session_id : Uuid) (events : list Event) : list Event :=
  if length events <=? 1 then events
  else if frame_fits session_id events then events
  else take (Nat.max 1 (frame_search (length events) session_id events 1 (length events))) events.

End frame.

(** ** Theorems *)

(** Negotiation finds the greatest version both sides speak, and fails exactly
    when there is none.  A client without a minimum speaks one version only. *)
Theorem negotiation_exact client_max client_min server_max server_min v :
  let speaks v := (default client_max client_min ≤ v ≤ client_max)%N ∧
                  (server_min ≤ v ≤ server_max)%N in
  (negotiate_ipc_version client_max client_min server_max server_min = Some v ↔
     speaks v ∧ ∀ w, speaks w → (w ≤ v)%N) ∧
  (negotiate_ipc_version client_max client_min server_max server_min = None ↔
     ∀ w, ¬ speaks w).
Proof.
  cbn. unfold negotiate_ipc_version. set (cmin := default client_max client_min).
  destruct (N.ltb_spec client_max cmin).
  { split; split; [done| |intros _ w; lia|done]. intros [? _]. lia. }
  destruct (N.ltb_spec (N.min client_max server_max) (N.max cmin server_min)).
  { split; split; [done| |intros _ w; lia|done]. intros [? _]. lia. }
  split; split.
  - intros [= <-]. split; [lia|]. intros w. lia.
  - intros [Hv Hmax]. f_equal.
    specialize (Hmax (N.min client_max server_max)). lia.
  - done.
  - intros Hno. exfalso. apply (Hno (N.min client_max server_max)). lia.
Qed.

Lemma has_capability_elem capabilities c :
  has_capability capabilities c = true ↔ c ∈ capabilities.
Proof.
  unfold has_capability. induction capabilities as [|x l IH]; cbn.
  { split; [done|by intros ?%not_elem_of_nil]. }
  rewrite orb_true_iff, IH, elem_of_cons, String.eqb_eq. done.
Qed.

(** Every request but the greeting needs a capability the daemon knows. *)
Lemma required_capability_known request :
  match required_capability request with
  | None => ∃ v m c, request = ReqHello v m c
  | Some c => has_capability IPC_CAPABILITIES c = true
  end.
Proof. by destruct request; try (eexists _, _, _; reflexivity). Qed.

Section frame_theorems.
Context `{Json} `{!ResponseJson}.

(** What is relied on of JSON text: more events do not make it shorter. *)
Definition frame_grows : Prop :=
  ∀ sid (l l' : list Event), (events_frame_len sid l ≤ events_frame_len sid (l ++ l'))%N.

Lemma frame_fits_take sid events n m :
  frame_grows → n ≤ m → frame_fits sid (take m events) = true →
  frame_fits sid (take n events) = true.
Proof.
  intros Hg Hle. unfold frame_fits. rewrite !N.leb_le. intros Hm.
  etrans; [|exact Hm]. rewrite <- (take_drop n (take m events)).
  rewrite take_take. replace (n `min` m) with n by lia. apply Hg.
Qed.

(** The search keeps a lower bound that fits (or is where it began) and an upper
    bound above which nothing fits. *)
Lemma frame_search_spec sid events :
  frame_grows →
  ∀ fuel lo hi, hi - lo ≤ fuel → lo ≤ hi →
  (∀ n, hi < n → n ≤ length events → frame_fits sid (take n events) = false) →
  let n := frame_search fuel sid events lo hi in
  lo ≤ n ≤ hi ∧ (n = lo ∨ frame_fits sid (take n events) = true) ∧
  (∀ m, n < m → m ≤ length events → frame_fits sid (take m events) = false).
Proof.
  intros Hg fuel. induction fuel as [|fuel IH]; intros lo hi Hf Hle Hup; cbn [frame_search]; cbv zeta.
  { split; [lia|]. split; [by left|]. intros m ? ?. apply Hup; lia. }
  destruct (Nat.ltb_spec lo hi).
  2:{ split; [lia|]. split; [by left|]. intros m ? ?. apply Hup; lia. }
  set (mid := lo + S (hi - lo) / 2).
  assert (lo < mid ≤ hi) as Hmid.
  { unfold mid. pose proof (Nat.div_mod_eq (S (hi - lo)) 2).
    pose proof (Nat.mod_upper_bound (S (hi - lo)) 2). lia. }
  destruct (frame_fits sid (take mid events)) eqn:Hfit.
  - destruct (IH mid hi) as (? & Hn & Hmax); [lia|lia|done|].
    split; [lia|]. split; [|done]. destruct Hn as [->|?]; by right.
  - destruct (IH lo (mid - 1)) as (? & Hn & Hmax); [lia|lia| |].
    { intros n ? ?. destruct (frame_fits sid (take n events)) eqn:Hc; [|done].
      rewrite (frame_fits_take sid events mid n) in Hfit; [done|done|lia|done]. }
    split; [lia|]. by split.
Qed.

Lemma trim_longest_prefix sid events :
  frame_grows →
  ∃ n, trim_events_to_ipc_frame sid events = take n events ∧
       n ≤ length events ∧ (events ≠ [] → 1 ≤ n) ∧
       (frame_fits sid (take n events) = true ∨ n ≤ 1) ∧
       ∀ m, n < m ≤ length events → frame_fits sid (take m events) = false.
Proof.
  intros Hg. unfold trim_events_to_ipc_frame.
  destruct (Nat.leb_spec (length events) 1) as [Hl|Hl].
  { exists (length events). rewrite take_ge by done. split_and!; [done|done| |by right|lia].
    destruct events; cbn; [done|lia]. }
  destruct (frame_fits sid events) eqn:Hfit.
  { exists (length events). rewrite take_ge by done. split_and!; [done|done|lia|by left|lia]. }
  destruct (frame_search_spec sid events Hg (length events) 1 (length events)) as (Hb & Hn & Hmax);
    [lia|lia|intros; lia|].
  set (n := frame_search _ _ _ _ _) in *. exists n.
  replace (Nat.max 1 n) with n by lia. split_and!; [done|lia|lia| |].
  - destruct Hn as [->|?]; [right; lia|by left].
  - intros m ?. apply Hmax; lia.
Qed.

(** C9: The batch of a stream is the longest prefix of the events whose frame stays
    within the budget, and at least one event when there is one: nothing is
    skipped, the frame is within the budget unless its first event alone exceeds
    it, and one event more would not fit. *)
Theorem trimmed_batch_exact sid events :
  frame_grows →
  ∃ n, trim_events_to_ipc_frame sid events = take n events ∧
       n ≤ length events ∧ (events ≠ [] → 1 ≤ n) ∧
       (frame_fits sid (take n events) = true ∨ n ≤ 1) ∧
       ∀ m, n < m ≤ length events → frame_fits sid (take m events) = false.
Proof. apply trim_longest_prefix. Qed.

End frame_theorems.

(** ** A concrete batch: three events of 40,000 bytes each, two of which fit no frame *)

#[local] Existing Instance sample_json.

Definition sample_response_json : ResponseJson := {|
  response_len r :=
    match r with RespEvents _ events => Some (40000 * N.of_nat (length events))%N | _ => None end;
|}.

#[local] Existing Instance sample_response_json.

Definition sample_batch : list Event :=
  (λ i, Event_new i 0 1 (i + 1) (PayloadPlan "")) <$> [0; 1; 2]%N.

Lemma trimmed_batch_witness :
  ∃ n, trim_events_to_ipc_frame 1 sample_batch = take n sample_batch ∧ 1 ≤ n.
Proof.
  assert (frame_grows (H := sample_json)) as Hg.
  { intros sid l l'. unfold events_frame_len. cbn. rewrite length_app. lia. }
  destruct (trimmed_batch_exact 1 sample_batch Hg) as (n & Heq & _ & Hn & _).
  exists n. split; [exact Heq|]. apply Hn. discriminate.
Defined.

Example three_events_one_frame : length (trim_events_to_ipc_frame 1 sample_batch) = 1.
Proof. vm_compute. reflexivity. Qed.
