(* ===== verification/Connection.v ===== *)
(** * One client connection of the daemon

    [serve_client], [read_bounded_line], [write_response] and
    [validate_daemon_response_on_wire] of [crates/impetusd/src/main.rs].  A
    connection is a state machine: bytes arrive in pieces as [fill_buf] returns
    them, the [select!] loop takes either a line or a notification of the store,
    and a subscription is drained page by page.  The harness is a parameter that
    answers a request and changes its state; [Elsewhere] is what other connections
    and running tasks do to it in between.  A write that fails ends the task and is
    a run that stops there.  [unreachable!] ends the task, like a panic. *)

From S2P Require Import Prelude Str Utf8 Action Events EventStore ToolSchema Wire Schema Ipc.

Open Scope string_scope.
Open Scope nat_scope.
Open Scope list_scope.
Open Scope impetus_scope.

(** ** Lines *)

Inductive LineRead :=
  | LineEof
  | LineRead_Line (line : string)
  | LineTooLarge.

Definition newline : ascii := ascii_of_nat 10.

(** The chunk of one [fill_buf], what stays buffered, and whether it ends a line. *)
Fixpoint cut_line (available : string) : string * string * bool :=
  match available with
  | "" => ("", "", false)
  | String a s =>
      if Ascii.eqb a newline then (String a "", s, true)
      else let '(chunk, rest, complete) := cut_line s in (String a chunk, rest, complete)
  end%string.

Definition str_len (s : string) : N := N.of_nat (String.length s).

Definition put_back (remaining : string) (input : list string) : list string :=
  if is_empty remaining then input else remaining :: input.

(** [input] is what [fill_buf] returns call by call, [eof] that nothing follows,
    [output] what this call has read so far.  [None] waits for more input. *)
Fixpoint read_bounded_line (input : list string) (eof : bool) (output : string)
    : list string * string * option LineRead :=
  match input with
  | [] =>
      if eof then ([], "", Some (if is_empty output then LineEof else LineRead_Line output))
      else ([], output, None)
  | available :: input' =>
      let '(chunk, remaining, complete) := cut_line available in
      let rest := put_back remaining input' in
      if (MAX_IPC_LINE_BYTES <? str_len output + str_len chunk)%N
      then (rest, "", Some LineTooLarge)
      else if complete then (rest, "", Some (LineRead_Line (output ++ chunk)%string))
      else read_bounded_line input' eof (output ++ chunk)%string
  end.

(** ** The connection *)

(** serde_json on whole messages; [None] is a value it cannot encode. *)
Class IpcJson `{Json} := {
  request_from_slice : string → result string IpcRequest;
  response_encodes : IpcResponse → bool;
  detail_to_value : ApprovalDetail → result string JValue;
}.

Record Conn := mkConn {
  co_negotiated : option (list string);
  co_version : option N;
  co_subscription : option (Uuid * N);
  co_receiver : bool;
  co_drain : option (Uuid * N);
  co_input : list string;
  co_eof : bool;
  co_partial : string;
  co_open : bool;
}.

Definition Conn_new : Conn := mkConn None None None false None [] false "" true.

Definition with_reader (input : list string) (eof : bool) (partial : string) (c : Conn) : Conn :=
  mkConn (co_negotiated c) (co_version c) (co_subscription c) (co_receiver c) (co_drain c)
    input eof partial (co_open c).
Definition with_hello (version : N) (capabilities : list string) (c : Conn) : Conn :=
  mkConn (Some capabilities) (Some version) (co_subscription c) (co_receiver c) (co_drain c)
    (co_input c) (co_eof c) (co_partial c) (co_open c).
Definition with_subscription (s : option (Uuid * N)) (receiver : bool) (c : Conn) : Conn :=
  mkConn (co_negotiated c) (co_version c) s receiver (co_drain c)
    (co_input c) (co_eof c) (co_partial c) (co_open c).
Definition with_drain (d : option (Uuid * N)) (c : Conn) : Conn :=
  mkConn (co_negotiated c) (co_version c) (co_subscription c) (co_receiver c) d
    (co_input c) (co_eof c) (co_partial c) (co_open c).
Definition closed (c : Conn) : Conn :=
  mkConn (co_negotiated c) (co_version c) (co_subscription c) (co_receiver c) (co_drain c)
    (co_input c) (co_eof c) (co_partial c) false.

Section connection.
Context `{Json} `{!IpcJson} `{PolicyJson}.

Definition validate_daemon_response_on_wire (response : IpcResponse) : result string () :=
  _ ← validate_response_on_wire response;
  match response with
  | RespApprovalDetail _ detail =>
      value ← detail_to_value detail;
      _ ← map_err schema_validation_text (validate_approval_detail_wire value);
      Ok tt
  | _ => Ok tt
  end.

(** What happens on a connection: a request handed to the harness, a response
    written, a page asked for and pushed on behalf of the subscription. *)
Inductive ConnAct :=
  | Asked (request : IpcRequest)
  | Wrote (response : IpcResponse)
  | Polled (session_id : Uuid) (after_sequence : N)
  | Pushed (session_id : Uuid) (events : list Event).

Context {Harness : Type} (handle : IpcRequest → Harness → Harness * IpcResponse).

Record ConnWorld := mkConnWorld {
  cw_conn : Conn;
  cw_harness : Harness;
  cw_trace : list ConnAct;
}.

Definition on_conn (f : Conn → Conn) (w : ConnWorld) : ConnWorld :=
  mkConnWorld (f (cw_conn w)) (cw_harness w) (cw_trace w).
Definition act (a : ConnAct) (w : ConnWorld) : ConnWorld :=
  mkConnWorld (cw_conn w) (cw_harness w) (cw_trace w ++ [a]).

Definition write_response (response : IpcResponse) (w : ConnWorld) : ConnWorld :=
  if response_encodes response then act (Wrote response) w else on_conn closed w.

(** [harness.handle_with_connection] *)
Definition ask (request : IpcRequest) (w : ConnWorld) : ConnWorld * IpcResponse :=
  let '(h, response) := handle request (cw_harness w) in
  (mkConnWorld (cw_conn w) h (cw_trace w ++ [Asked request]), response).

Definition invalid_request (message : string) : IpcResponse := RespError CodeInvalidRequest message.

Definition on_hello (request : IpcRequest) (w : ConnWorld) : ConnWorld :=
  match co_negotiated (cw_conn w), co_version (cw_conn w) with
  | Some caps, Some ver => write_response (RespHello ver caps) w
  | _, _ =>
      let '(w, response) := ask request w in
      match response with
      | RespHello version capabilities =>
          write_response response (on_conn (with_hello version capabilities) w)
      | RespIncompatible _ _ _ _ => on_conn closed (write_response response w)
      | _ => on_conn closed w
      end
  end.

(** [None] when the request may be handed on. *)
Definition refusal (capabilities : list string) (request : IpcRequest) : option IpcResponse :=
  match validate_request_on_wire request with
  | Err message => Some (invalid_request message)
  | Ok _ =>
      let missing :=
        match required_capability request with
        | Some required => if has_capability capabilities required then None else Some required
        | None => None
        end in
      match missing with
      | Some required =>
          Some (RespError CodeUnavailable ("capability `" ++ required ++ "` was not negotiated"))
      | None =>
          match request with
          | ReqSetExecutionMode _ mode =>
              match required_ipc_capability mode with
              | Some scope =>
                  if has_capability capabilities scope then None
                  else Some (RespError CodeUnavailable
                         ("execution mode " ++ ExecutionMode_label mode ++ " requires capability `"
                          ++ scope ++ "` (not negotiated)"))
              | None => None
              end
          | _ => None
          end
      end
  end%string.

Definition checked_response (response : IpcResponse) : IpcResponse :=
  match validate_daemon_response_on_wire response with
  | Err message =>
      RespError CodeInternal ("response failed wire schema validation: " ++ message)
  | Ok _ => response
  end%string.

Definition requested_subscription (request : IpcRequest) : option (Uuid * N) :=
  match request with
  | ReqSubscribe session_id after_sequence => Some (session_id, after_sequence)
  | _ => None
  end.

Definition on_request (request : IpcRequest) (w : ConnWorld) : ConnWorld :=
  match co_negotiated (cw_conn w) with
  | None => write_response (invalid_request "successful hello is required before requests") w
  | Some capabilities =>
      match refusal capabilities request with
      | Some response => write_response response w
      | None =>
          let '(w, response) := ask request w in
          let response := checked_response response in
          write_response response
            (match response with
             | RespSubscribed _ =>
                 on_conn (with_subscription (requested_subscription request) true) w
             | _ => w
             end)
      end
  end.

Definition on_line (line : string) (w : ConnWorld) : ConnWorld :=
  match request_from_slice line with
  | Ok (ReqHello _ _ _ as request) => on_hello request w
  | Ok request => on_request request w
  | Err error => write_response (invalid_request error) w
  end.

(** The read branch of [select!] is polled; its future is kept when it waits. *)
Definition poll_read (w : ConnWorld) : ConnWorld :=
  let c := cw_conn w in
  let '(input, partial, line) := read_bounded_line (co_input c) (co_eof c) (co_partial c) in
  let w := on_conn (with_reader input (co_eof c) partial) w in
  match line with
  | None => w
  | Some LineEof => on_conn closed w
  | Some LineTooLarge =>
      on_conn closed (write_response (invalid_request "request exceeds 64 KiB") w)
  | Some (LineRead_Line line) => on_line line w
  end.

(** The notification branch is taken: the future of the read branch is dropped
    with what it has read.  [None] is a receiver that has lagged. *)
Definition on_notification (notified : option (Uuid * N)) (w : ConnWorld) : ConnWorld :=
  let c := cw_conn w in
  match co_subscription c with
  | None => w
  | Some (session_id, after_sequence) =>
      if negb (co_receiver c) then w
      else
        let w := on_conn (with_reader (co_input c) (co_eof c) "") w in
        match notified with
        | None => w
        | Some (notified_session_id, _) =>
            if (notified_session_id =? session_id)%N
            then on_conn (with_drain (Some (session_id, after_sequence))) w
            else w
        end
  end.

Definition last_sequence (events : list Event) (after : N) : N :=
  match last events with Some e => event_sequence e | None => after end.

(** One turn of the loop that drains a subscription. *)
Definition drain_turn (session_id : Uuid) (after_sequence : N) (w : ConnWorld) : ConnWorld :=
  let '(h, response) := handle (ReqStream session_id after_sequence) (cw_harness w) in
  let w := mkConnWorld (cw_conn w) h (cw_trace w ++ [Polled session_id after_sequence]) in
  match response with
  | RespEvents _ [] => on_conn (with_drain None) w
  | RespEvents _ events =>
      let after := last_sequence events after_sequence in
      let w := on_conn (λ c, with_drain (Some (session_id, after))
                 (with_subscription (Some (session_id, after)) (co_receiver c) c)) w in
      if response_encodes (RespEvents session_id events) then act (Pushed session_id events) w
      else on_conn closed w
  | RespError _ _ => on_conn closed (write_response response w)
  | _ => on_conn closed w
  end.

Inductive ConnEvent :=
  | Arrives (bytes : string)
  | PeerCloses
  | PollRead
  | Notified (notification : option (Uuid * N))
  | DrainTurn
  | Elsewhere (f : Harness → Harness).

Definition conn_step (ev : ConnEvent) (w : ConnWorld) : ConnWorld :=
  let c := cw_conn w in
  match ev with
  | Elsewhere f => mkConnWorld c (f (cw_harness w)) (cw_trace w)
  | Arrives bytes =>
      if co_eof c then w
      else on_conn (with_reader (co_input c ++ put_back bytes []) false (co_partial c)) w
  | PeerCloses => on_conn (with_reader (co_input c) true (co_partial c)) w
  | PollRead =>
      if co_open c then match co_drain c with None => poll_read w | Some _ => w end else w
  | Notified n =>
      if co_open c then match co_drain c with None => on_notification n w | Some _ => w end else w
  | DrainTurn =>
      if co_open c then
        match co_drain c with Some (sid, after) => drain_turn sid after w | None => w end
      else w
  end.

Definition conn_run (evs : list ConnEvent) (w : ConnWorld) : ConnWorld := foldl (flip conn_step) w evs.

Definition conn_start (h : Harness) : ConnWorld := mkConnWorld Conn_new h [].

End connection.

(** ** Lines do not depend on how the bytes arrive *)

Lemma cut_line_app s t :
  cut_line (s ++ t)%string =
  let '(chunk, rest, complete) := cut_line s in
  if complete then (chunk, (rest ++ t)%string, true)
  else let '(chunk', rest', complete') := cut_line t in ((s ++ chunk')%string, rest', complete').
Proof.
  induction s as [|a s IH]; cbn [cut_line String.append].
  { by destruct (cut_line t) as [[? ?] ?]. }
  destruct (Ascii.eqb a newline); [done|]. rewrite IH.
  destruct (cut_line s) as [[c r] []]; [done|]. by destruct (cut_line t) as [[? ?] ?].
Qed.

Lemma cut_line_incomplete s c r : cut_line s = (c, r, false) → c = s ∧ r = "".
Proof.
  revert c r. induction s as [|a s IH]; intros c r; cbn [cut_line]; [by intros [= <- <-]|].
  destruct (Ascii.eqb a newline); [done|].
  destruct (cut_line s) as [[c' r'] b]. intros [= <- <- ->].
  by destruct (IH c' r' eq_refl) as [-> ->].
Qed.

Lemma concat_put_back r l : concat_str (put_back r l) = (r ++ concat_str l)%string.
Proof. unfold put_back. destruct (is_empty r) eqn:Hr; [|done]. by apply String.eqb_eq in Hr as ->. Qed.

Lemma str_len_app s t : str_len (s ++ t)%string = (str_len s + str_len t)%N.
Proof. unfold str_len. rewrite length_str_app. lia. Qed.

(** What a call returns for the bytes [s], wherever they are cut. *)
Definition line_of (s : string) (eof : bool) (output : string) : option LineRead :=
  let '(chunk, _, complete) := cut_line s in
  if (MAX_IPC_LINE_BYTES <? str_len output + str_len chunk)%N then Some LineTooLarge
  else if complete then Some (LineRead_Line (output ++ chunk)%string)
  else if eof then
    Some (if is_empty (output ++ chunk)%string then LineEof else LineRead_Line (output ++ chunk)%string)
  else None.

(** The line a call returns is the bytes up to the first newline, of at most
    64 KiB, and what follows is left for the next call. *)
Lemma read_bounded_line_bytes input eof : ∀ output input' partial line,
  (str_len output ≤ MAX_IPC_LINE_BYTES)%N →
  read_bounded_line input eof output = (input', partial, line) →
  line = line_of (concat_str input) eof output ∧
  (∀ l, line = Some (LineRead_Line l) →
     (str_len l ≤ MAX_IPC_LINE_BYTES)%N ∧
     (l ++ concat_str input' = output ++ concat_str input)%string) ∧
  (line = None → input' = [] ∧ partial = (output ++ concat_str input)%string).
Proof.
  induction input as [|available input IH]; intros output input' partial line Hle;
    cbn [read_bounded_line concat_str].
  - unfold line_of. cbn. rewrite str_app_nil_r.
    destruct (N.ltb_spec MAX_IPC_LINE_BYTES (str_len output + str_len "")) as [Hlt|Hlt].
    { change (str_len "") with 0%N in Hlt. lia. }
    destruct eof; intros [= <- <- <-].
    + split; [done|]. split; [|done]. intros l. destruct (is_empty output); [done|].
      intros [= <-]. by rewrite str_app_nil_r.
    + done.
  - unfold line_of. rewrite cut_line_app.
    destruct (cut_line available) as [[chunk rest] complete] eqn:Hcut.
    assert (available = chunk ++ rest)%string as Hav.
    { clear -Hcut. revert chunk rest complete Hcut. induction available as [|a s IH];
        intros chunk rest complete; cbn [cut_line]; [by intros [= <- <- <-]|].
      destruct (Ascii.eqb a newline); [by intros [= <- <- <-]|].
      destruct (cut_line s) as [[c r] b]. intros [= <- <- <-]. cbn. by rewrite (IH _ _ _ eq_refl). }
    destruct complete.
    + destruct (N.ltb_spec MAX_IPC_LINE_BYTES (str_len output + str_len chunk)) as [Hlt|Hlt];
        intros [= <- <- <-]; [done|].
      split; [done|]. split; [|done]. intros l [= <-]. rewrite concat_put_back, str_len_app.
      split; [done|]. by rewrite Hav, !str_app_assoc.
    + apply cut_line_incomplete in Hcut as [-> ->]. cbn [put_back is_empty].
      destruct (N.ltb_spec MAX_IPC_LINE_BYTES (str_len output + str_len available)) as [Hlt|Hlt].
      * intros [= <- <- <-]. destruct (cut_line (concat_str input)) as [[c r] b].
        rewrite str_len_app. destruct (N.ltb_spec MAX_IPC_LINE_BYTES
          (str_len output + (str_len available + str_len c))); [done|lia].
      * intros Hread. apply IH in Hread as (-> & Hline & Hnone); [|by rewrite str_len_app].
        unfold line_of in *. destruct (cut_line (concat_str input)) as [[c r] b].
        rewrite !str_app_assoc, !str_len_app, N.add_assoc in *. done.
Qed.

(** ** What reaches the harness *)

Section requests.
Context `{Json} `{!IpcJson} `{PolicyJson}.
Context {Harness : Type} (handle : IpcRequest → Harness → Harness * IpcResponse).

Abbreviation step := (conn_step handle).
Abbreviation run := (conn_run handle).

(** The capabilities of the first greeting that was answered. *)
Fixpoint hello_of (tr : list ConnAct) : option (list string) :=
  match tr with
  | [] => None
  | Wrote (RespHello _ capabilities) :: _ => Some capabilities
  | _ :: tr' => hello_of tr'
  end.

Definition act_hello (a : ConnAct) : option (list string) :=
  match a with Wrote (RespHello _ capabilities) => Some capabilities | _ => None end.

Lemma hello_of_snoc tr a :
  hello_of (tr ++ [a]) =
  match hello_of tr with Some c => Some c | None => act_hello a end.
Proof. induction tr as [|b tr IH]; [by destruct a as [|[]| |]|]. by destruct b as [|[]| |]. Qed.

(** What a request must satisfy to be handed on, after what happened before. *)
Definition may_ask (tr : list ConnAct) (request : IpcRequest) : Prop :=
  match hello_of tr with
  | None => ∃ v m c, request = ReqHello v m c
  | Some capabilities => refusal capabilities request = None
  end.

Definition may_poll (tr : list ConnAct) (sid : Uuid) : Prop :=
  ∃ after, Asked (ReqSubscribe sid after) ∈ tr.

Definition act_ok (tr : list ConnAct) (a : ConnAct) : Prop :=
  match a with
  | Asked request => may_ask tr request
  | Polled sid _ | Pushed sid _ => may_poll tr sid
  | Wrote _ => True
  end.

Definition trace_ok (tr : list ConnAct) : Prop :=
  ∀ tr1 a tr2, tr = tr1 ++ a :: tr2 → act_ok tr1 a.

Lemma trace_ok_snoc tr a : trace_ok tr → act_ok tr a → trace_ok (tr ++ [a]).
Proof.
  intros Htr Ha tr1 b tr2 Heq.
  destruct (decide (tr2 = [])) as [->|Hne].
  - apply app_inj_tail in Heq as [-> ->]. done.
  - destruct (exists_last Hne) as [tr3 [z Hz]]. rewrite Hz in Heq.
    rewrite app_comm_cons, app_assoc in Heq. apply app_inj_tail in Heq as [-> ->].
    by eapply Htr.
Qed.

Lemma may_poll_mono tr a sid : may_poll tr sid → may_poll (tr ++ [a]) sid.
Proof. intros [after Hin]. exists after. apply elem_of_app. by left. Qed.

(** The connection's own state, read off what has happened on it. *)
Record conn_inv (w : ConnWorld (Harness := Harness)) : Prop := {
  inv_trace : trace_ok (cw_trace w);
  inv_negotiated : co_open (cw_conn w) = true → co_negotiated (cw_conn w) = hello_of (cw_trace w);
  inv_version : co_negotiated (cw_conn w) = None ↔ co_version (cw_conn w) = None;
  inv_subscription : ∀ sid after,
    co_subscription (cw_conn w) = Some (sid, after) ∨ co_drain (cw_conn w) = Some (sid, after) →
    may_poll (cw_trace w) sid;
}.

(** Changes of the reader, of the harness, and closing, leave it alone. *)
Lemma conn_inv_same (w w' : ConnWorld (Harness := Harness)) :
  conn_inv w → cw_trace w' = cw_trace w →
  co_negotiated (cw_conn w') = co_negotiated (cw_conn w) →
  co_version (cw_conn w') = co_version (cw_conn w) →
  (co_open (cw_conn w') = true → co_open (cw_conn w) = true) →
  (∀ s, co_subscription (cw_conn w') = Some s ∨ co_drain (cw_conn w') = Some s →
        co_subscription (cw_conn w) = Some s ∨ co_drain (cw_conn w) = Some s) →
  conn_inv w'.
Proof.
  intros [Ht Hn Hv Hs] Htr Hneg Hver Hopen Hsub.
  split; rewrite ?Htr, ?Hneg, ?Hver; [done|by intros ?%Hopen; apply Hn|done|].
  intros sid after Hd. apply (Hs sid after), Hsub, Hd.
Qed.

(** Writing a response that is no greeting, or one that repeats what was agreed. *)
Lemma conn_inv_write response (w : ConnWorld (Harness := Harness)) :
  conn_inv w → (act_hello (Wrote response) = None ∨ hello_of (cw_trace w) ≠ None) →
  conn_inv (write_response response w).
Proof.
  intros Hw Hr. unfold write_response. destruct (response_encodes response).
  2:{ by apply (conn_inv_same w). }
  destruct Hw as [Ht Hn Hv Hs]. split; cbn.
  - by apply trace_ok_snoc.
  - intros Ho. rewrite (Hn Ho), hello_of_snoc.
    destruct (hello_of (cw_trace w)); [done|]. by destruct Hr as [->|].
  - done.
  - intros sid after Hd. eapply may_poll_mono, Hs, Hd.
Qed.

Lemma conn_inv_ask request (w : ConnWorld (Harness := Harness)) :
  conn_inv w → may_ask (cw_trace w) request →
  conn_inv (ask handle request w).1 ∧
  cw_conn (ask handle request w).1 = cw_conn w ∧
  cw_trace (ask handle request w).1 = cw_trace w ++ [Asked request].
Proof.
  intros [Ht Hn Hv Hs] Hm. unfold ask. destruct (handle request (cw_harness w)) as [h r].
  cbn [fst]. split; [|done]. split; cbn.
  - by apply trace_ok_snoc.
  - intros Ho. rewrite (Hn Ho), hello_of_snoc. by destruct (hello_of (cw_trace w)).
  - done.
  - intros sid after Hd. eapply may_poll_mono, Hs, Hd.
Qed.

Lemma closed_inv (w : ConnWorld (Harness := Harness)) : conn_inv w → conn_inv (on_conn closed w).
Proof. intros Hw. by apply (conn_inv_same w). Qed.

Lemma on_hello_inv request (w : ConnWorld (Harness := Harness)) :
  (∃ v m c, request = ReqHello v m c) → co_open (cw_conn w) = true →
  conn_inv w → conn_inv (on_hello handle request w).
Proof.
  intros Hreq Ho Hw. unfold on_hello.
  destruct (co_negotiated (cw_conn w)) as [caps|] eqn:Hneg.
  - destruct (co_version (cw_conn w)) as [ver|] eqn:Hver.
    2:{ apply (inv_version _ Hw) in Hver. congruence. }
    apply conn_inv_write; [done|]. right. rewrite <- (inv_negotiated _ Hw Ho). by rewrite Hneg.
  - pose proof (inv_negotiated _ Hw Ho) as Hh. rewrite Hneg in Hh.
    destruct (conn_inv_ask request w Hw) as (Hw' & Hc & Htr).
    { unfold may_ask. by rewrite <- Hh. }
    destruct (ask handle request w) as [w' response]. cbn [fst] in *.
    destruct response; try by apply closed_inv.
    + unfold write_response. cbn [on_conn cw_conn cw_trace cw_harness].
      assert (hello_of (cw_trace w') = None) as Hh' by (by rewrite Htr, hello_of_snoc, <- Hh).
      destruct Hw' as [Ht _ _ Hs]. destruct (response_encodes _).
      * split; cbn; [by apply trace_ok_snoc| |done|].
        -- intros _. rewrite hello_of_snoc, Hh'. done.
        -- intros sid after Hd. eapply may_poll_mono, Hs, Hd.
      * split; cbn; done.
    + apply closed_inv, conn_inv_write; [done|by left].
Qed.

Lemma refusal_not_hello caps request response :
  refusal caps request = Some response → act_hello (Wrote response) = None.
Proof.
  unfold refusal. destruct (validate_request_on_wire request); [|by intros [= <-]].
  destruct (match required_capability request with Some _ => _ | None => _ end); [by intros [= <-]|].
  destruct request; try done. destruct (required_ipc_capability mode); [|done].
  destruct (has_capability caps _); [done|]. by intros [= <-].
Qed.

Lemma on_request_inv request (w : ConnWorld (Harness := Harness)) :
  co_open (cw_conn w) = true → conn_inv w → conn_inv (on_request handle request w).
Proof.
  intros Ho Hw. unfold on_request.
  pose proof (inv_negotiated _ Hw Ho) as Hh.
  destruct (co_negotiated (cw_conn w)) as [caps|] eqn:Hneg.
  2:{ apply conn_inv_write; [done|by left]. }
  destruct (refusal caps request) as [response|] eqn:Href.
  { apply conn_inv_write; [done|]. left. by eapply refusal_not_hello. }
  destruct (conn_inv_ask request w Hw) as (Hw' & Hc & Htr).
  { unfold may_ask. by rewrite <- Hh. }
  destruct (ask handle request w) as [w' response]. cbn [fst] in *.
  apply conn_inv_write.
  - destruct (checked_response response); try done.
    destruct Hw' as [Ht Hn Hv Hs]. split; cbn; try done.
    intros sid after [Hd|Hd]; [|by eapply Hs; right].
    destruct request; try done. cbn in Hd. injection Hd as -> ->.
    exists after. rewrite Htr. apply elem_of_app. right. by apply list_elem_of_singleton.
  - right. destruct (checked_response response); cbn [on_conn cw_trace];
      rewrite Htr, hello_of_snoc, <- Hh; done.
Qed.

Lemma on_line_inv line (w : ConnWorld (Harness := Harness)) :
  co_open (cw_conn w) = true → conn_inv w → conn_inv (on_line handle line w).
Proof.
  intros Ho Hw. unfold on_line. destruct (request_from_slice line) as [request|].
  - destruct request; try (by apply on_request_inv). apply on_hello_inv; [by eexists _, _, _|done..].
  - apply conn_inv_write; [done|by left].
Qed.

Lemma poll_read_inv (w : ConnWorld (Harness := Harness)) :
  co_open (cw_conn w) = true → conn_inv w → conn_inv (poll_read handle w).
Proof.
  intros Ho Hw. unfold poll_read.
  destruct (read_bounded_line _ _ _) as [[input partial] line].
  assert (conn_inv (on_conn (with_reader input (co_eof (cw_conn w)) partial) w)) as Hw'
    by (by apply (conn_inv_same w)).
  destruct line as [[|line|]|]; [by apply closed_inv|by apply on_line_inv| |done].
  apply closed_inv, conn_inv_write; [done|by left].
Qed.

Lemma on_notification_inv n (w : ConnWorld (Harness := Harness)) :
  conn_inv w → conn_inv (on_notification n w).
Proof.
  intros Hw. unfold on_notification.
  destruct (co_subscription (cw_conn w)) as [[sid after]|] eqn:Hsub; [|done].
  destruct (negb _); [done|].
  destruct n as [[nsid seq]|]; [|by apply (conn_inv_same w)].
  destruct (nsid =? sid)%N; [|by apply (conn_inv_same w)].
  apply (conn_inv_same w); try done. cbn. intros s [Hs|[= <-]]; [by left|by left].
Qed.

Lemma drain_turn_inv sid after (w : ConnWorld (Harness := Harness)) :
  co_drain (cw_conn w) = Some (sid, after) → conn_inv w → conn_inv (drain_turn handle sid after w).
Proof.
  intros Hd Hw. unfold drain_turn.
  destruct (handle (ReqStream sid after) (cw_harness w)) as [h response].
  pose proof (inv_subscription _ Hw sid after (or_intror Hd)) as Hpoll.
  set (w1 := mkConnWorld (cw_conn w) h (cw_trace w ++ [Polled sid after])).
  assert (conn_inv w1) as Hw1.
  { destruct Hw as [Ht Hn Hv Hs]. split; cbn; [by apply trace_ok_snoc| |done|].
    - intros Ho. rewrite (Hn Ho), hello_of_snoc. by destruct (hello_of (cw_trace w)).
    - intros s a Ha. eapply may_poll_mono, Hs, Ha. }
  destruct response; try by apply closed_inv.
  - destruct events as [|e events].
    { apply (conn_inv_same w1); try done. cbn. naive_solver. }
    set (w2 := on_conn _ w1).
    assert (conn_inv w2) as Hw2.
    { destruct Hw1 as [Ht Hn Hv Hs]. split; cbn; try done. intros s a Ha.
      assert (s = sid) as -> by (destruct Ha as [[= <- _]|[= <- _]]; done).
      by apply may_poll_mono. }
    destruct (response_encodes _); [|by apply closed_inv].
    destruct Hw2 as [Ht Hn Hv Hs]. split; cbn; [| |done|].
    + apply trace_ok_snoc; [done|]. by apply may_poll_mono.
    + intros Ho. rewrite hello_of_snoc. cbn in Hn. rewrite (Hn Ho).
      by destruct (hello_of (cw_trace w ++ _)).
    + intros s a Ha. eapply may_poll_mono, Hs, Ha.
  - apply closed_inv, conn_inv_write; [done|by left].
Qed.

Lemma step_inv ev (w : ConnWorld (Harness := Harness)) : conn_inv w → conn_inv (step ev w).
Proof.
  intros Hw. destruct ev as [bytes| | |n| |f]; cbn [conn_step].
  - destruct (co_eof _); [done|]. by apply (conn_inv_same w).
  - by apply (conn_inv_same w).
  - destruct (co_open _) eqn:Ho; [|done]. destruct (co_drain _); [done|by apply poll_read_inv].
  - destruct (co_open _) eqn:Ho; [|done]. destruct (co_drain _); [done|by apply on_notification_inv].
  - destruct (co_open _) eqn:Ho; [|done].
    destruct (co_drain _) as [[sid after]|] eqn:Hd; [by apply drain_turn_inv|done].
  - by apply (conn_inv_same w).
Qed.

Lemma start_inv h : conn_inv (conn_start (Harness := Harness) h).
Proof.
  split; cbn; try done.
  - intros tr1 a tr2 Heq. by destruct tr1.
  - intros sid after [?|?]; done.
Qed.

Lemma run_inv evs (w : ConnWorld (Harness := Harness)) : conn_inv w → conn_inv (run evs w).
Proof.
  revert w. induction evs as [|ev evs IH]; intros w Hw; [done|]. cbn. apply IH. by apply step_inv.
Qed.

Lemma refusal_none caps request :
  refusal caps request = None ↔
  validate_request_on_wire request = Ok tt ∧ capability_allows caps request = true ∧
  ∀ sid mode scope, request = ReqSetExecutionMode sid mode →
    required_ipc_capability mode = Some scope → scope ∈ caps.
Proof.
  unfold refusal, capability_allows.
  destruct (validate_request_on_wire request) as [[]|]; [|naive_solver].
  destruct (required_capability request) as [c|] eqn:Hc.
  - destruct (has_capability caps c) eqn:Hhas; [|naive_solver].
    destruct request; try naive_solver.
    destruct (required_ipc_capability mode) as [scope|] eqn:Hm; [|naive_solver].
    pose proof (has_capability_elem caps scope) as He.
    destruct (has_capability caps scope) eqn:Hs; naive_solver.
  - destruct request; try naive_solver.
Qed.

(** C3: Nothing reaches the harness from a connection unchecked, whatever bytes
    arrive and in whatever order notifications come.  Until a greeting is
    answered only greetings are handed on; after it, only requests that pass the
    wire checks and whose capability, and the one the execution mode asks for, was
    among those of the first answer, which no later greeting widens; and pages are
    asked for and pushed only of sessions the client subscribed to. *)
Theorem requests_reach_harness_checked evs h tr1 a tr2 :
  cw_trace (run evs (conn_start h)) = tr1 ++ a :: tr2 →
  match a with
  | Asked request =>
      match hello_of tr1 with
      | None => ∃ v m c, request = ReqHello v m c
      | Some capabilities =>
          validate_request_on_wire request = Ok tt ∧
          capability_allows capabilities request = true ∧
          ∀ sid mode scope, request = ReqSetExecutionMode sid mode →
            required_ipc_capability mode = Some scope → scope ∈ capabilities
      end
  | Polled sid _ | Pushed sid _ => ∃ after, Asked (ReqSubscribe sid after) ∈ tr1
  | Wrote _ => True
  end.
Proof.
  intros Htr. pose proof (inv_trace _ (run_inv evs _ (start_inv h)) _ _ _ Htr) as Hok.
  destruct a as [request| | |]; cbn in Hok; try done.
  unfold may_ask in Hok. destruct (hello_of tr1); [by apply refusal_none|done].
Qed.

End requests.

(** ** What a subscription delivers *)

(** What the harness promises of a session's log [view]: a stream request is
    answered by a page of the log after the cursor, not empty when there is more;
    events are numbered by position; and no request takes any away. *)
Class StreamLaws `{Json} {Harness : Type} (handle : IpcRequest → Harness → Harness * IpcResponse)
    (harness_inv : Harness → Prop) (view : Harness → Uuid → list Event) := {
  stream_answer sid after h :
    harness_inv h →
    (∃ code message, (handle (ReqStream sid after) h).2 = RespError code message) ∨
    (∃ n, (handle (ReqStream sid after) h).2 =
            RespEvents sid (take n (drop (N.to_nat after) (view h sid))) ∧
          (drop (N.to_nat after) (view h sid) ≠ [] → 1 ≤ n));
  request_keeps request h :
    harness_inv h → harness_inv (handle request h).1 ∧
    ∀ sid, view h sid `prefix_of` view (handle request h).1 sid;
  view_numbered h sid i e :
    harness_inv h → view h sid !! i = Some e → event_sequence e = N.of_nat (S i);
}.

Section subscriptions.
Context `{Json} `{!IpcJson} `{PolicyJson}.
Context {Harness : Type} (handle : IpcRequest → Harness → Harness * IpcResponse).
Context (harness_inv : Harness → Prop) (view : Harness → Uuid → list Event).
Context `{!StreamLaws handle harness_inv view}.

(** The subscription the client last asked for and was confirmed, with what was
    pushed since; read off the connection's history. *)
Definition Since : Type := option (Uuid * N) * option (Uuid * N * list Event).

Definition since_act (st : Since) (a : ConnAct) : Since :=
  match a with
  | Asked request => (requested_subscription request, st.2)
  | Wrote (RespSubscribed _) => (st.1, (λ s, (s, [])) <$> st.1)
  | Pushed _ events => (st.1, (λ '(s, l), (s, l ++ events)) <$> st.2)
  | _ => st
  end.

Definition since (tr : list ConnAct) : Since := foldl since_act (None, None) tr.
Definition pushed_since (tr : list ConnAct) : option (Uuid * N * list Event) := (since tr).2.

Lemma since_snoc tr a : since (tr ++ [a]) = since_act (since tr) a.
Proof. unfold since. by rewrite foldl_app. Qed.

Definition cursor_of (s : Uuid * N * list Event) : Uuid * N :=
  (s.1.1, s.1.2 + N.of_nat (length s.2))%N.

Record delivery (w : ConnWorld (Harness := Harness)) : Prop := {
  del_harness : harness_inv (cw_harness w);
  del_cursor : co_open (cw_conn w) = true →
    co_subscription (cw_conn w) = cursor_of <$> pushed_since (cw_trace w);
  del_drain : ∀ s, co_open (cw_conn w) = true → co_drain (cw_conn w) = Some s →
    co_subscription (cw_conn w) = Some s;
  del_prefix : ∀ sid from events, co_open (cw_conn w) = true →
    pushed_since (cw_trace w) = Some (sid, from, events) →
    events `prefix_of` drop (N.to_nat from) (view (cw_harness w) sid);
}.

Lemma drop_prefix {A} n (l l' : list A) : l `prefix_of` l' → drop n l `prefix_of` drop n l'.
Proof. intros [k ->]. rewrite drop_app. by exists (drop (n - length l) k). Qed.

Lemma delivery_same (w w' : ConnWorld (Harness := Harness)) :
  delivery w → pushed_since (cw_trace w') = pushed_since (cw_trace w) →
  harness_inv (cw_harness w') →
  (∀ sid, view (cw_harness w) sid `prefix_of` view (cw_harness w') sid) →
  (co_open (cw_conn w') = true →
     co_open (cw_conn w) = true ∧
     co_subscription (cw_conn w') = co_subscription (cw_conn w) ∧
     (∀ s, co_drain (cw_conn w') = Some s → co_subscription (cw_conn w) = Some s)) →
  delivery w'.
Proof.
  intros [Hh Hc Hd Hp] Htr Hh' Hview Hopen. split; rewrite ?Htr; [done| | |].
  - intros Ho. destruct (Hopen Ho) as (Ho' & -> & _). by apply Hc.
  - intros s Ho Hs. destruct (Hopen Ho) as (_ & -> & Hdr). by apply Hdr.
  - intros sid from events Ho Hs. destruct (Hopen Ho) as (Ho' & _ & _).
    etrans; [by apply Hp|]. by apply drop_prefix.
Qed.

(** Closing, and changes of the reader. *)
Lemma delivery_quiet (f : Conn → Conn) (w : ConnWorld (Harness := Harness)) :
  (∀ c, co_open (f c) = true →
     co_open c = true ∧ co_subscription (f c) = co_subscription c ∧ co_drain (f c) = co_drain c) →
  delivery w → delivery (on_conn f w).
Proof.
  intros Hf Hw. apply (delivery_same w); try done.
  - apply Hw.
  - intros Ho. destruct (Hf _ Ho) as (Ho' & Hs & Hd). split_and!; [done|done|].
    intros s Hd'. apply (del_drain _ Hw s); [done|]. cbn in Hd'. congruence.
Qed.

Lemma delivery_write response (w : ConnWorld (Harness := Harness)) :
  (∀ s, response ≠ RespSubscribed s) → delivery w → delivery (write_response response w).
Proof.
  intros Hr Hw. unfold write_response. destruct (response_encodes response).
  2:{ by apply delivery_quiet. }
  apply (delivery_same w); try done; [|apply Hw|].
  - unfold pushed_since. cbn. rewrite since_snoc. by destruct response; try done; edestruct Hr.
  - cbn. intros Ho. split_and!; [done|done|]. intros s. by apply (del_drain _ Hw).
Qed.

Lemma delivery_ask request (w : ConnWorld (Harness := Harness)) :
  delivery w → delivery (ask handle request w).1 ∧
  cw_conn (ask handle request w).1 = cw_conn w ∧
  (since (cw_trace (ask handle request w).1)).1 = requested_subscription request.
Proof.
  intros Hw. unfold ask.
  pose proof (request_keeps request _ (del_harness _ Hw)) as [Hh Hv].
  destruct (handle request (cw_harness w)) as [h r]. cbn [fst] in *. split_and!; [|done|].
  - apply (delivery_same w); try done.
    + unfold pushed_since. cbn. by rewrite since_snoc.
    + cbn. intros Ho. split_and!; [done|done|]. intros s. by apply (del_drain _ Hw).
  - cbn. by rewrite since_snoc.
Qed.

Lemma delivery_subscribed sid s (w : ConnWorld (Harness := Harness)) :
  delivery w → co_drain (cw_conn w) = None → (since (cw_trace w)).1 = s →
  delivery (write_response (RespSubscribed sid) (on_conn (with_subscription s true) w)).
Proof.
  intros [Hh Hc Hd Hp] Hdr Hs. unfold write_response. destruct (response_encodes _).
  2:{ split; cbn; done. }
  split; cbn; [done| | |].
  - intros Ho. unfold pushed_since. rewrite since_snoc. cbn. rewrite Hs.
    destruct s as [[sd after]|]; [|done]. unfold cursor_of. cbn. by rewrite N.add_0_r.
  - intros x Ho. by rewrite Hdr.
  - intros sd from events Ho. unfold pushed_since. rewrite since_snoc. cbn. rewrite Hs.
    destruct s as [[sd' after]|]; [|done]. intros [= <- <- <-]. apply prefix_nil.
Qed.

Lemma delivery_on_request request (w : ConnWorld (Harness := Harness)) :
  co_open (cw_conn w) = true → co_drain (cw_conn w) = None →
  delivery w → delivery (on_request handle request w).
Proof.
  intros Ho Hd Hw. unfold on_request.
  destruct (co_negotiated (cw_conn w)) as [caps|]; [|by apply delivery_write].
  destruct (refusal caps request) as [response|] eqn:Href.
  { apply delivery_write; [|done]. intros s ->. unfold refusal in Href.
    repeat case_match; simplify_eq. }
  destruct (delivery_ask request w Hw) as (Hw' & Hc & Hs).
  destruct (ask handle request w) as [w' response]. cbn [fst] in *.
  destruct (checked_response response) eqn:Hresp; try by apply delivery_write.
  apply delivery_subscribed; [done|by rewrite Hc|done].
Qed.

Lemma delivery_on_hello request (w : ConnWorld (Harness := Harness)) :
  delivery w → delivery (on_hello handle request w).
Proof.
  intros Hw. unfold on_hello.
  assert (∀ w' : ConnWorld (Harness := Harness), delivery w' → delivery (on_conn closed w')) as Hcl
    by (intros w' Hw'; by apply delivery_quiet).
  destruct (delivery_ask request w Hw) as (Hw' & Hc & Hs).
  destruct (ask handle request w) as [w' response]. cbn [fst] in *.
  assert (delivery (match response with
      | RespHello version capabilities =>
          write_response response (on_conn (with_hello version capabilities) w')
      | RespIncompatible _ _ _ _ => on_conn closed (write_response response w')
      | _ => on_conn closed w'
      end)) as Hnew.
  { destruct response; try (by apply Hcl).
    - apply delivery_write; [done|]. by apply delivery_quiet.
    - by apply Hcl, delivery_write. }
  destruct (co_negotiated (cw_conn w)), (co_version (cw_conn w)); try exact Hnew.
  by apply delivery_write.
Qed.

Lemma delivery_poll_read (w : ConnWorld (Harness := Harness)) :
  co_open (cw_conn w) = true → co_drain (cw_conn w) = None →
  delivery w → delivery (poll_read handle w).
Proof.
  intros Ho Hd Hw. unfold poll_read.
  destruct (read_bounded_line _ _ _) as [[input partial] line].
  assert (delivery (on_conn (with_reader input (co_eof (cw_conn w)) partial) w)) as Hw'
    by (by apply delivery_quiet).
  destruct line as [[|line|]|]; [by apply delivery_quiet| | |done].
  - unfold on_line. destruct (request_from_slice line) as [request|]; [|by apply delivery_write].
    destruct request; try (by apply delivery_on_request). by apply delivery_on_hello.
  - apply delivery_quiet; [done|]. by apply delivery_write.
Qed.

Lemma delivery_on_notification n (w : ConnWorld (Harness := Harness)) :
  delivery w → delivery (on_notification n w).
Proof.
  intros Hw. unfold on_notification.
  destruct (co_subscription (cw_conn w)) as [[sid after]|] eqn:Hsub; [|done].
  destruct (negb _); [done|].
  destruct n as [[nsid seq]|]; [|by apply delivery_quiet].
  destruct (nsid =? sid)%N; [|by apply delivery_quiet].
  apply (delivery_same w); try done; [apply Hw|]. cbn. intros Ho. split_and!; [done|done|].
  intros s [= <-]. done.
Qed.

Lemma last_sequence_page h sid (after : N) n :
  harness_inv h → take n (drop (N.to_nat after) (view h sid)) ≠ [] →
  last_sequence (take n (drop (N.to_nat after) (view h sid))) after =
  (after + N.of_nat (length (take n (drop (N.to_nat after) (view h sid)))))%N.
Proof.
  intros Hh Hne. set (page := take n _) in *. unfold last_sequence.
  destruct (last page) as [e|] eqn:Hl; [|by apply last_None in Hl].
  rewrite last_lookup in Hl.
  assert (∀ k, k < length page → page !! k = view h sid !! (N.to_nat after + k)) as Heq.
  { intros k Hk. unfold page in *. rewrite length_take in Hk.
    rewrite lookup_take_lt by lia. by rewrite lookup_drop. }
  assert (0 < length page) by (destruct page; cbn; [done|lia]).
  rewrite Heq in Hl by lia. apply (view_numbered _ _ _ _ Hh) in Hl as ->. lia.
Qed.

(** A turn of the drain pushes the page after the cursor, or ends with nothing
    left. *)
Lemma delivery_drain_turn sid after (w : ConnWorld (Harness := Harness)) :
  co_open (cw_conn w) = true → co_drain (cw_conn w) = Some (sid, after) → delivery w →
  let w' := drain_turn handle sid after w in
  delivery w' ∧
  (co_open (cw_conn w') = true → co_drain (cw_conn w') = None →
   ∃ from events, pushed_since (cw_trace w') = Some (sid, from, events) ∧
     events = drop (N.to_nat from) (view (cw_harness w) sid)).
Proof.
  intros Ho Hd Hw. unfold drain_turn. cbv zeta.
  pose proof (del_drain _ Hw _ Ho Hd) as Hsub. pose proof (del_cursor _ Hw Ho) as Hcur.
  rewrite Hsub in Hcur.
  destruct (pushed_since (cw_trace w)) as [[[sid' from] events]|] eqn:Hp; [|done].
  injection Hcur as -> Hafter. cbn in Hafter.
  pose proof (del_prefix _ Hw _ _ _ Ho Hp) as [rest Hrest].
  assert (drop (N.to_nat after) (view (cw_harness w) sid') = rest) as Hafter'.
  { replace (N.to_nat after) with (N.to_nat from + length events) by lia.
    rewrite <- drop_drop, Hrest. apply drop_app_length. }
  pose proof (stream_answer sid' after _ (del_harness _ Hw)) as Hans.
  pose proof (request_keeps (ReqStream sid' after) _ (del_harness _ Hw)) as [Hh Hv].
  destruct (handle (ReqStream sid' after) (cw_harness w)) as [h response]. cbn [fst snd] in *.
  set (w1 := mkConnWorld (cw_conn w) h (cw_trace w ++ [Polled sid' after])).
  assert (pushed_since (cw_trace w1) = Some (sid', from, events)) as Hp1.
  { unfold pushed_since. cbn. rewrite since_snoc. exact Hp. }
  assert (delivery w1) as Hw1.
  { apply (delivery_same w); try done; [by rewrite Hp1|]. cbn. intros _. split_and!; [done|done|].
    intros s. by apply (del_drain _ Hw). }
  destruct Hans as [(code & message & ->)|(n & -> & Hn)].
  { split; [|done]. apply delivery_quiet; [done|]. by apply delivery_write. }
  rewrite Hafter' in *. destruct (take n rest) as [|e page] eqn:Hpage.
  - split.
    + apply (delivery_same w1); try done.
    + intros _ _. exists from, events. split; [exact Hp1|]. rewrite Hrest.
      destruct rest; [by rewrite app_nil_r|]. specialize (Hn ltac:(done)).
      by destruct n; [lia|].
  - set (w2 := on_conn _ w1).
    assert (last_sequence (e :: page) after = after + N.of_nat (length (e :: page)))%N as Hlast.
    { rewrite <- Hpage, <- Hafter'. apply last_sequence_page; [apply Hw|].
      by rewrite Hafter', Hpage. }
    destruct (response_encodes _).
    2:{ split; [|done]. split; cbn; [apply Hw1|done|done|done]. }
    split; [|done].
    assert (pushed_since (cw_trace (act (Pushed sid' (e :: page)) w2)) =
            Some (sid', from, events ++ e :: page)) as Hp2.
    { unfold pushed_since in *.
      change (cw_trace (act _ w2)) with (cw_trace w1 ++ [Pushed sid' (e :: page)]).
      rewrite since_snoc. cbn [since_act snd]. by rewrite Hp1. }
    split.
    + apply Hw1.
    + intros _. rewrite Hp2. cbn [act on_conn cw_conn w2 with_drain with_subscription co_subscription].
      rewrite Hlast. unfold cursor_of. cbn. rewrite length_app. cbn. do 2 f_equal. lia.
    + intros s _. by intros [= <-].
    + intros sid2 from2 evs2 _. rewrite Hp2. intros [= <- <- <-].
      etrans; [|apply drop_prefix, Hv]. rewrite Hrest, <- Hpage.
      apply prefix_app. exists (drop n rest). by rewrite take_drop.
Qed.

(** What happens elsewhere keeps the logs. *)
Definition elsewhere_ok (ev : ConnEvent (Harness := Harness)) : Prop :=
  match ev with
  | Elsewhere f => ∀ h, harness_inv h → harness_inv (f h) ∧
                        ∀ sid, view h sid `prefix_of` view (f h) sid
  | _ => True
  end.

Lemma delivery_step ev (w : ConnWorld (Harness := Harness)) :
  elsewhere_ok ev → delivery w → delivery (conn_step handle ev w).
Proof.
  intros Hev Hw. destruct ev as [bytes| | |n| |f]; cbn [conn_step].
  - destruct (co_eof _); [done|]. by apply delivery_quiet.
  - by apply delivery_quiet.
  - destruct (co_open _) eqn:Ho; [|done]. destruct (co_drain _) eqn:Hd; [done|].
    by apply delivery_poll_read.
  - destruct (co_open _) eqn:Ho; [|done]. destruct (co_drain _); [done|].
    by apply delivery_on_notification.
  - destruct (co_open _) eqn:Ho; [|done].
    destruct (co_drain _) as [[sid after]|] eqn:Hd; [|done]. by apply delivery_drain_turn.
  - destruct (Hev _ (del_harness _ Hw)) as [Hh Hv]. apply (delivery_same w); try done.
    cbn. intros Ho. split_and!; [done|done|]. intros s. by apply (del_drain _ Hw).
Qed.

Lemma delivery_run evs (w : ConnWorld (Harness := Harness)) :
  Forall elsewhere_ok evs → delivery w → delivery (conn_run handle evs w).
Proof.
  revert w. induction evs as [|ev evs IH]; intros w; [done|]. intros [Hev Hevs]%Forall_cons Hw.
  cbn. apply IH; [done|]. by apply delivery_step.
Qed.

Lemma delivery_start h : harness_inv h → delivery (conn_start h).
Proof. intros Hh. split; cbn; done. Qed.

(** C8: What a connection has pushed for its subscription is, in order and with
    nothing twice or left out, the events of the session's log after the cursor the
    client asked for, however the log grows meanwhile; the connection's cursor is
    the number of the last of them; and when a drain ends, everything the log held
    has been pushed. *)
Theorem subscription_delivers_log evs h w sid cursor :
  harness_inv h → Forall elsewhere_ok evs → conn_run handle evs (conn_start h) = w →
  co_open (cw_conn w) = true → co_subscription (cw_conn w) = Some (sid, cursor) →
  ∃ from events, pushed_since (cw_trace w) = Some (sid, from, events) ∧
    cursor = (from + N.of_nat (length events))%N ∧
    events `prefix_of` drop (N.to_nat from) (view (cw_harness w) sid) ∧
    (co_drain (cw_conn w) ≠ None →
     let w' := conn_step handle DrainTurn w in
     co_open (cw_conn w') = true → co_drain (cw_conn w') = None →
     events = drop (N.to_nat from) (view (cw_harness w) sid)).
Proof.
  intros Hh Hevs Hrun Ho Hsub.
  assert (delivery w) as Hw by (rewrite <- Hrun; by apply delivery_run, delivery_start).
  pose proof (del_cursor _ Hw Ho) as Hcur. rewrite Hsub in Hcur.
  destruct (pushed_since (cw_trace w)) as [[[sid' from] events]|] eqn:Hp; [|done].
  injection Hcur as -> ->. exists from, events. split_and!; [done|done|by apply (del_prefix _ Hw)|].
  intros Hd. destruct (co_drain (cw_conn w)) as [[sid2 after]|] eqn:Hdr; [clear Hd|done].
  pose proof (del_drain _ Hw _ Ho Hdr) as Hsub'. rewrite Hsub in Hsub'.
  injection Hsub' as <- <-. cbn zeta. cbn [conn_step]. rewrite Ho, Hdr. intros Ho' Hd'.
  destruct (delivery_drain_turn sid' _ w Ho Hdr Hw) as [_ Hend].
  destruct (Hend Ho' Hd') as (from' & events' & Hp' & ->).
  assert (pushed_since (cw_trace (drain_turn handle sid' (from + N.of_nat (length events))%N w)) =
          Some (sid', from, events)) as Hsame; [|rewrite Hp' in Hsame; congruence].
  revert Ho' Hd'. unfold drain_turn.
  destruct (handle _ _) as [h' response].
  destruct response; try done.
  - destruct events0; [|by destruct (response_encodes _)]. intros _ _. unfold pushed_since. cbn.
    rewrite since_snoc. exact Hp.
Qed.

End subscriptions.

(** ** A small daemon

    One session, number 1, whose log is as long as the state says. *)

#[local] Existing Instance sample_json.

Definition sample_event (i : nat) : Event :=
  Event_new (N.of_nat i) 0 1 (N.of_nat (S i)) (PayloadPlan "").

Definition sample_log (n : nat) : list Event := sample_event <$> seq 0 n.

Definition sample_handle (request : IpcRequest) (n : nat) : nat * IpcResponse :=
  (n, match request with
      | ReqHello v _ caps => RespHello v (filter (λ c, has_capability IPC_CAPABILITIES c) caps)
      | ReqSubscribe sid _ => RespSubscribed sid
      | ReqStream sid after => RespEvents sid (take 2 (drop (N.to_nat after)
                                 (if (sid =? 1)%N then sample_log n else [])))
      | _ => RespError CodeUnavailable ""
      end).

Definition line (s : string) : string := (s ++ String newline "")%string.

Definition sample_ipc_json : IpcJson := {|
  request_from_slice s :=
    if String.eqb s (line "hello") then Ok (ReqHello 15 None ["subscribe"; "root"])
    else if String.eqb s (line "subscribe") then Ok (ReqSubscribe 1 0)
    else if String.eqb s (line "stream") then Ok (ReqStream 1 0)
    else Err "expected value";
  response_encodes _ := true;
  detail_to_value _ := Err "";
|}.

Definition sample_policy_json : PolicyJson := {|
  config_from_str _ := None;
  store_from_str _ := None;
  policy_json_error _ := "";
|}.

#[local] Existing Instances sample_ipc_json sample_policy_json.

Definition sample_view (n : nat) (sid : Uuid) : list Event :=
  if (sid =? 1)%N then sample_log n else [].

#[local] Instance sample_stream_laws : StreamLaws sample_handle (λ _, True) sample_view.
Proof.
  split.
  - intros sid after h _. right. exists 2. split; [done|lia].
  - intros request h _. split; [done|]. intros sid. reflexivity.
  - intros h sid i e _. unfold sample_view. destruct (sid =? 1)%N; [|done].
    unfold sample_log. rewrite list_lookup_fmap. intros (j & Hj & ->)%fmap_Some.
    apply lookup_seq in Hj as [-> _]. done.
Qed.

Definition greeted : list (ConnEvent (Harness := nat)) :=
  [Arrives (line "hello" ++ "subs")%string; PollRead; PollRead; Arrives (line "cribe"); PollRead].

Definition sample_run (evs : list (ConnEvent (Harness := nat))) : ConnWorld :=
  conn_run sample_handle (greeted ++ evs) (conn_start 3).

(** Two pages, and an event appended between them. *)
Definition sample_events : list (ConnEvent (Harness := nat)) :=
  greeted ++ [Notified (Some (1%N, 3%N)); DrainTurn; Elsewhere S; DrainTurn].

Definition sample_world : ConnWorld := conn_run sample_handle sample_events (conn_start 3).

Lemma subscription_witness :
  ∃ from events, pushed_since (cw_trace sample_world) = Some (1%N, from, events) ∧
    (4 = from + N.of_nat (length events))%N.
Proof.
  assert (Forall (elsewhere_ok (λ _ : nat, True) sample_view) sample_events) as Hevs.
  { apply Forall_forall. intros ev Hev. destruct ev as [| | | | |f]; try exact I.
    unfold sample_events, greeted in Hev. cbn [app] in Hev.
    repeat (apply elem_of_cons in Hev as [Hev|Hev]; [try discriminate Hev|]); [|by apply not_elem_of_nil in Hev].
    injection Hev as ->. intros h _. split; [done|]. intros sid.
    unfold sample_view. destruct (sid =? 1)%N; [|done]. unfold sample_log.
    rewrite seq_S, fmap_app. by eexists. }
  assert (co_open (cw_conn sample_world) = true) as Ho by (vm_compute; reflexivity).
  assert (co_subscription (cw_conn sample_world) = Some (1%N, 4%N)) as Hs
    by (vm_compute; reflexivity).
  destruct (subscription_delivers_log sample_handle (λ _, True) sample_view sample_events 3
    sample_world 1 4 I Hevs eq_refl Ho Hs) as (from & events & Hp & Hc & _ & _).
  exists from, events. exact (conj Hp Hc).
Defined.

Definition before_subscribe : list ConnAct :=
  [Asked (ReqHello 15 None ["subscribe"; "root"]); Wrote (RespHello 15 ["subscribe"])].

Lemma checked_request_witness :
  capability_allows ["subscribe"] (ReqSubscribe 1 0) = true.
Proof.
  assert (cw_trace (conn_run sample_handle greeted (conn_start 3)) =
          before_subscribe ++ Asked (ReqSubscribe 1 0) :: [Wrote (RespSubscribed 1)]) as Htr
    by (vm_compute; reflexivity).
  pose proof (requests_reach_harness_checked sample_handle greeted 3 before_subscribe
    (Asked (ReqSubscribe 1 0)) [Wrote (RespSubscribed 1)] Htr) as Hok.
  cbn [before_subscribe hello_of] in Hok. exact (proj1 (proj2 Hok)).
Defined.

(** A notification, also one of another session, makes the connection forget the
    part of a line it has already read: the rest is taken for a request. *)
Example half_read_line_lost :
  cw_trace (sample_run [Arrives "str"; PollRead; Notified (Some (2%N, 7%N)); Arrives (line "eam"); PollRead])
    = cw_trace (sample_run []) ++ [Wrote (invalid_request "expected value")] ∧
  cw_trace (sample_run [Arrives "str"; PollRead; Arrives (line "eam"); PollRead])
    = cw_trace (sample_run []) ++
        [Wrote (RespError CodeUnavailable "capability `event_stream` was not negotiated")].
Proof. split; vm_compute; reflexivity. Qed.

(** A subscription does not push what the log already holds: the client waits for
    the next append, and a notification lost to a lagging receiver is not made up
    for. *)
Example backlog_not_pushed :
  co_subscription (cw_conn (sample_run [])) = Some (1%N, 0%N) ∧
  sample_log 3 ≠ [] ∧
  pushed_since (cw_trace (sample_run [PollRead; Notified (Some (2%N, 9%N)); PollRead])) =
    Some (1%N, 0%N, []) ∧
  pushed_since (cw_trace (sample_run [Elsewhere S; Notified None; PollRead; DrainTurn])) =
    Some (1%N, 0%N, []).
Proof. split_and!; [vm_compute; reflexivity|done|vm_compute; reflexivity..]. Qed.
