(* ===== verification/Harness.v ===== *)
(** * The harness: requests, sessions and the owner of their approvals

    [Harness::handle_with_connection] and the arms of [handle_request] of
    [crates/impetus-core/src/harness_api.rs] that greet, open, attach to, fork,
    checkpoint, stream and subscribe to sessions.  The arms of the other requests are
    a parameter of the dispatch; those of prompts and cancellation are in Turns.v,
    of approvals in ApprovedTools.v, of uploads in Uploads.v.  Fresh ids and the
    clock are read off a counter.  Poisoned locks are not modelled. *)

From S2P Require Import Prelude Str Action PathScope WebSecurity Policy Effect RiskGate Events EventStore Budget SqliteStore.
From S2P Require Import EffectFence Effects Completion Projection AgentRuntime RuntimeLog RuntimeForks Intents ToolOrchestrator Ipc Connection.

Open Scope string_scope.
Open Scope nat_scope.
Open Scope list_scope.
Open Scope impetus_scope.

(** The operations of the store the harness calls beside those of the runtime. *)
Class HarnessStore `{Json} (St : Type) := {
  store_list_after (session_id : Uuid) (after : N) (limit : Limit) : St → result StoreError (list Event);
  store_list_sessions : St → result StoreError (list SessionInfo);
  store_create_checkpoint (id : Uuid) (now : N) (session_id : Uuid) (name : string) (sequence : N)
    : stateR St StoreError CheckpointInfo;
  store_list_checkpoints (session_id : Uuid) : St → result StoreError (list CheckpointInfo);
}.

(** The clock a memory store reads for a session without events is an argument. *)
#[export] Instance memory_harness_store `{Json} (now : Uuid → N) : HarnessStore MemoryEventStore := {|
  store_list_after := memory_list_after;
  store_list_sessions st := Ok (memory_list_sessions now st);
  store_create_checkpoint := memory_create_checkpoint;
  store_list_checkpoints sid st := Ok (memory_list_checkpoints sid st);
|}.

#[export] Instance sqlite_harness_store `{StoreJson} : HarnessStore SqliteEventStore := {|
  store_list_after := sqlite_list_after;
  store_list_sessions db := Ok (sqlite_list_sessions db);
  store_create_checkpoint := sqlite_create_checkpoint;
  store_list_checkpoints sid db := Ok (sqlite_list_checkpoints sid db);
|}.

Section harness.
Context `{Json} `{DisplayStoreError} `{UuidText} `{FileSystem} `{!ResponseJson}.
Context {St : Type} `{!EventStore St} `{!SessionStore St} `{!HarnessStore St}.
Context (is_dir : string → bool) (id_of : nat → Uuid) (tick_of : nat → Tick).

Record HarnessState := mkHarness {
  hs_store : St;
  hs_heap : PolicyHeap;
  hs_policy : PolicyEngine;
  hs_router : UserIntentRouter;
  hs_owners : gmap Uuid N;
  hs_next_connection : N;
  hs_taken : nat;
}.

Definition with_store (s : St) (h : HarnessState) : HarnessState :=
  mkHarness s (hs_heap h) (hs_policy h) (hs_router h) (hs_owners h) (hs_next_connection h) (hs_taken h).
Definition with_heap (heap : PolicyHeap) (h : HarnessState) : HarnessState :=
  mkHarness (hs_store h) heap (hs_policy h) (hs_router h) (hs_owners h) (hs_next_connection h) (hs_taken h).
Definition with_router (r : UserIntentRouter) (h : HarnessState) : HarnessState :=
  mkHarness (hs_store h) (hs_heap h) (hs_policy h) r (hs_owners h) (hs_next_connection h) (hs_taken h).
Definition with_owners (o : gmap Uuid N) (h : HarnessState) : HarnessState :=
  mkHarness (hs_store h) (hs_heap h) (hs_policy h) (hs_router h) o (hs_next_connection h) (hs_taken h).
Definition took (n : nat) (h : HarnessState) : HarnessState :=
  mkHarness (hs_store h) (hs_heap h) (hs_policy h) (hs_router h) (hs_owners h) (hs_next_connection h)
    (hs_taken h + n).

(** *** Errors *)

Definition runtime_error_code (e : RuntimeError) : IpcErrorCode :=
  match e with
  | RtMissingSession _ => CodeMissingSession
  | RtStore (MissingSession _) | RtStore (MissingCheckpoint _) | RtStore (MissingSequence _ _) =>
      CodeMissingSession
  | RtStore (DuplicateCheckpointName _ _) | RtActiveRun _ => CodeConflict
  | RtStore EmptyCheckpointName => CodeInvalidRequest
  | RtDenied message =>
      if contains message "steer rejected" then CodeConflict
      else if contains message "fanout rejected" then CodeInvalidRequest
      else CodeInternal
  | _ => CodeInternal
  end.

Definition runtime_error (e : RuntimeError) : IpcResponse :=
  RespError (runtime_error_code e) (runtime_error_text e).

Definition store_error (e : StoreError) : IpcResponse := runtime_error (RtStore e).

(** *** The greeting *)

Definition hello_response (client_max : N) (min_version : option N) (capabilities : list string)
    : IpcResponse :=
  let client_min := default client_max min_version in
  if (client_max <? client_min)%N then
    RespIncompatible IPC_VERSION IPC_MIN_SUPPORTED client_max
      (Some ("Client min_version " ++ dec client_min ++ " exceeds preferred version " ++ dec client_max))%string
  else
    let lo := N.max client_min IPC_MIN_SUPPORTED in
    let hi := N.min client_max IPC_VERSION in
    if (hi <? lo)%N then
      RespIncompatible IPC_VERSION IPC_MIN_SUPPORTED client_max
        (Some (if (client_max <? IPC_MIN_SUPPORTED)%N
               then "Client max version " ++ dec client_max ++ " is older than min supported "
                    ++ dec IPC_MIN_SUPPORTED ++ ". Upgrade client."
               else "Client min version " ++ dec client_min ++ " is newer than harness "
                    ++ dec IPC_VERSION ++ ". Upgrade harness."))%string
    else RespHello hi (List.filter (has_capability capabilities) IPC_CAPABILITIES).

(** *** Sessions *)

Definition opened (sid : Uuid) (h : HarnessState) : HarnessState :=
  with_router (open_session sid (hs_router h)) h.

Definition create_session (workspace_root : string) (h : HarnessState) : HarnessState * IpcResponse :=
  let n := hs_taken h in
  let '(s, res) := rt_create_with_workspace (id_of n) (tick_of n) (tick_of (S n)) (hs_heap h)
    (hs_policy h) workspace_root (canonicalize workspace_root) is_dir (hs_store h) in
  let h := took 2 (with_store s h) in
  match res with
  | Ok (heap, runtime) =>
      (opened (ar_session_id runtime) (with_heap heap h),
       RespSession (ar_session_id runtime) StatusIdle)
  | Err error => (h, runtime_error error)
  end.

(** The policy cell that attaching allocates is dropped with the runtime. *)
Definition attach_session (sid : Uuid) (h : HarnessState) : HarnessState * IpcResponse :=
  match rt_attach (hs_heap h) (hs_policy h) sid (hs_store h) with
  | Err error => (h, runtime_error error)
  | Ok (_, runtime) =>
      match (rt_status (ar_session_id runtime) (hs_store h)).2 with
      | Err error => (h, runtime_error error)
      | Ok status =>
          (opened (ar_session_id runtime) h, RespSession (ar_session_id runtime) status)
      end
  end.

Definition opened_session (op : rt (St := St) AgentRuntime) (h : HarnessState)
    : HarnessState * IpcResponse :=
  let '(s, res) := op (hs_store h) in
  (took 1 (with_store s h),
   match res with
   | Ok runtime => RespSession (ar_session_id runtime) StatusIdle
   | Err error => runtime_error error
   end).

Definition fork_request (sid : Uuid) (up_to : N) (h : HarnessState) : HarnessState * IpcResponse :=
  opened_session (rt_fork (id_of (hs_taken h)) (tick_of (hs_taken h)).2 (hs_policy h) sid up_to) h.

Definition restore_request (checkpoint : Uuid) (h : HarnessState) : HarnessState * IpcResponse :=
  opened_session
    (rt_restore_checkpoint (id_of (hs_taken h)) (tick_of (hs_taken h)).2 (hs_policy h) checkpoint) h.

Definition create_checkpoint_request (sid : Uuid) (name : string) (sequence : option N)
    (h : HarnessState) : HarnessState * IpcResponse :=
  let resolved :=
    match sequence with
    | Some sequence => Ok sequence
    | None =>
        events ← store_list sid (hs_store h);
        ok_or (event_sequence <$> last events) (MissingSession sid)
    end in
  match resolved with
  | Err error => (h, store_error error)
  | Ok sequence =>
      let '(s, res) := store_create_checkpoint (id_of (hs_taken h)) (tick_of (hs_taken h)).2
                         sid name sequence (hs_store h) in
      (took 1 (with_store s h),
       match res with Ok c => RespCheckpoint c | Err error => store_error error end)
  end.

Definition stream_request (sid : Uuid) (after : N) (h : HarnessState) : IpcResponse :=
  match store_list_after sid 0 (Some 1%N) (hs_store h) with
  | Err error => store_error error
  | Ok [] => runtime_error (RtMissingSession sid)
  | Ok _ =>
      match store_list_after sid after None (hs_store h) with
      | Ok events => RespEvents sid (trim_events_to_ipc_frame sid events)
      | Err error => store_error error
      end
  end.

Definition subscribe_request (sid : Uuid) (h : HarnessState) : IpcResponse :=
  match rt_attach (hs_heap h) (hs_policy h) sid (hs_store h) with
  | Ok _ => RespSubscribed sid
  | Err error => runtime_error error
  end.

(** *** Dispatch *)

Context (other : IpcRequest → HarnessState → HarnessState * IpcResponse).

Definition handle_request (request : IpcRequest) (h : HarnessState) : HarnessState * IpcResponse :=
  match request with
  | ReqHello version min_version capabilities => (h, hello_response version min_version capabilities)
  | ReqCreateSession workspace_root => create_session workspace_root h
  | ReqAttach sid => attach_session sid h
  | ReqListSessions =>
      (h, match store_list_sessions (hs_store h) with
          | Ok sessions => RespSessions sessions
          | Err error => RespError CodeInternal (store_error_to_string error)
          end)
  | ReqForkSession sid up_to => fork_request sid up_to h
  | ReqCreateCheckpoint sid name sequence => create_checkpoint_request sid name sequence h
  | ReqListCheckpoints sid =>
      (h, match store_list_checkpoints sid (hs_store h) with
          | Ok checkpoints => RespCheckpoints checkpoints
          | Err error => store_error error
          end)
  | ReqRestoreCheckpoint checkpoint => restore_request checkpoint h
  | ReqStream sid after => (h, stream_request sid after h)
  | ReqSubscribe sid _ => (h, subscribe_request sid h)
  | _ => other request h
  end.

(** *** The connection that may answer a session's approvals *)

Definition mint_connection_id (h : HarnessState) : HarnessState * N :=
  (mkHarness (hs_store h) (hs_heap h) (hs_policy h) (hs_router h) (hs_owners h)
     (wrapping_add u64_max (hs_next_connection h) 1) (hs_taken h), hs_next_connection h).

Definition bind_approval_owner (sid : Uuid) (cid : N) (h : HarnessState) : HarnessState :=
  with_owners (<[sid := cid]> (hs_owners h)) h.

Definition bind_approval_owner_if_unbound_or_same (sid : Uuid) (cid : N) (h : HarnessState)
    : HarnessState :=
  match hs_owners h !! sid with
  | None => bind_approval_owner sid cid h
  | Some _ => h
  end.

Definition create_binds (request : IpcRequest) : bool :=
  match request with ReqCreateSession _ => true | _ => false end.
Definition soft_binds (request : IpcRequest) : bool :=
  match request with
  | ReqAttach _ | ReqForkSession _ _ | ReqRestoreCheckpoint _ => true
  | _ => false
  end.

(** Another connection owns the session whose approval is to be resolved. *)
Definition foreign_resolve (cid : option N) (request : IpcRequest) (h : HarnessState) : bool :=
  match cid, request with
  | Some cid, ReqResolveApproval sid _ _ =>
      match hs_owners h !! sid with Some owner => negb (owner =? cid)%N | None => false end
  | _, _ => false
  end.

Definition handle_with_connection (cid : option N) (request : IpcRequest) (h : HarnessState)
    : HarnessState * IpcResponse :=
  if foreign_resolve cid request h then
    (h, RespError CodeUnavailable "resolve_approval is bound to another client connection")
  else
    let '(h, response) := handle_request request h in
    match cid, response with
    | Some cid, RespSession sid _ =>
        (if create_binds request then bind_approval_owner sid cid h
         else if soft_binds request then bind_approval_owner_if_unbound_or_same sid cid h
         else h, response)
    | _, _ => (h, response)
    end.

Definition handle (request : IpcRequest) (h : HarnessState) : HarnessState * IpcResponse :=
  handle_with_connection None request h.

End harness.

(** ** Theorems *)

(** What the harness relies on of a store: paging returns the slice it says, events
    are numbered by position, and opening a session under a fresh id, appending
    and recording a checkpoint take nothing away from any log. *)
Class HarnessStoreLaws `{Json} (St : Type) `{!EventStore St, !SessionStore St, !HarnessStore St}
    (store_inv : St → Prop) (fresh : St → Uuid → Prop) := {
  harness_list s sid : store_inv s → ∃ l, store_list sid s = Ok l;
  harness_list_after s sid after limit l :
    store_inv s → store_list sid s = Ok l →
    (∃ e, store_list_after sid after limit s = Err e) ∨
    store_list_after sid after limit s = Ok (take_limit limit (drop (N.to_nat after) l));
  harness_numbered s sid l i e :
    store_inv s → store_list sid s = Ok l → l !! i = Some e → event_sequence e = N.of_nat (S i);
  harness_create s id ev now :
    store_inv s → fresh s id →
    let '(s', res) := store_create_session id ev now s in
    store_inv s' ∧ (∀ sid, res = Ok sid → sid = id) ∧
    (∀ id', id' ≠ id → fresh s id' → fresh s' id') ∧
    ∀ sid l, store_list sid s = Ok l → ∃ l', store_list sid s' = Ok (l ++ l');
  harness_fork s id now src up_to :
    store_inv s → fresh s id →
    let '(s', res) := store_fork_session id now src up_to s in
    store_inv s' ∧ (∀ sid, res = Ok sid → sid = id) ∧
    (∀ id', id' ≠ id → fresh s id' → fresh s' id') ∧
    ∀ sid l, store_list sid s = Ok l → ∃ l', store_list sid s' = Ok (l ++ l');
  harness_append s id now sid p :
    store_inv s →
    let s' := (store_append_next id now sid p s).1 in
    store_inv s' ∧ (∀ id', id' ≠ sid → fresh s id' → fresh s' id') ∧
    ∀ sid' l, store_list sid' s = Ok l → ∃ l', store_list sid' s' = Ok (l ++ l');
  harness_checkpoint s id now sid name sequence :
    store_inv s →
    let s' := (store_create_checkpoint id now sid name sequence s).1 in
    store_inv s' ∧ (∀ id', fresh s id' → fresh s' id') ∧
    ∀ sid' l, store_list sid' s = Ok l → store_list sid' s' = Ok l;
}.

Section harness_theorems.
Context `{Json} `{DisplayStoreError} `{UuidText} `{FileSystem} `{!ResponseJson}.
Context {St : Type} `{!EventStore St} `{!SessionStore St} `{!HarnessStore St}.
Context (store_inv : St → Prop) (fresh : St → Uuid → Prop) `{!HarnessStoreLaws St store_inv fresh}.
Context (is_dir : string → bool) (id_of : nat → Uuid) (tick_of : nat → Tick).
Context (other : IpcRequest → HarnessState (St := St) → HarnessState (St := St) * IpcResponse).

Abbreviation dispatch := (handle_request is_dir id_of tick_of other).
Abbreviation on_connection := (handle_with_connection is_dir id_of tick_of other).

(** Versions are negotiated as the protocol crate says, and only capabilities the
    daemon has and the client asked for are granted. *)
Lemma hello_negotiates client_max min_version capabilities :
  match negotiate_ipc_version client_max min_version IPC_VERSION IPC_MIN_SUPPORTED with
  | Some v => ∃ granted, hello_response client_max min_version capabilities = RespHello v granted ∧
      ∀ c, c ∈ granted ↔ c ∈ IPC_CAPABILITIES ∧ c ∈ capabilities
  | None => ∃ advice, hello_response client_max min_version capabilities =
      RespIncompatible IPC_VERSION IPC_MIN_SUPPORTED client_max (Some advice)
  end.
Proof.
  unfold negotiate_ipc_version, hello_response.
  destruct (client_max <? default client_max min_version)%N; [by eexists|].
  destruct (_ <? _)%N; [by eexists|]. eexists. split; [done|].
  intros c. rewrite list_elem_of_In, List.filter_In, <- list_elem_of_In, has_capability_elem. done.
Qed.

(** *** What a harness state holds *)

Definition ids_fresh (h : HarnessState (St := St)) : Prop :=
  ∀ n, hs_taken h ≤ n → fresh (hs_store h) (id_of n).

Definition harness_ok (h : HarnessState (St := St)) : Prop :=
  store_inv (hs_store h) ∧ ids_fresh h.

Definition log_of (h : HarnessState (St := St)) (sid : Uuid) : list Event :=
  match store_list sid (hs_store h) with Ok l => l | Err _ => [] end.

Context (id_inj : ∀ n m, id_of n = id_of m → n = m).

(** A step of the harness that keeps the logs and takes ids forward. *)
Definition step_keeps (h h' : HarnessState (St := St)) : Prop :=
  harness_ok h' ∧ ∀ sid, log_of h sid `prefix_of` log_of h' sid.

Definition logs_kept (s s' : St) : Prop :=
  ∀ sid l, store_list sid s = Ok l → ∃ l', store_list sid s' = Ok (l ++ l').

Lemma logs_kept_refl s : logs_kept s s.
Proof. intros sid l Hl. exists []. by rewrite app_nil_r. Qed.

Lemma logs_kept_trans s1 s2 s3 : logs_kept s1 s2 → logs_kept s2 s3 → logs_kept s1 s3.
Proof.
  intros H12 H23 sid l Hl. destruct (H12 _ _ Hl) as [l' Hl']. destruct (H23 _ _ Hl') as [l2 Hl2].
  exists (l' ++ l2). by rewrite app_assoc.
Qed.

Lemma step_keeps_of (h h' : HarnessState (St := St)) :
  store_inv (hs_store h) → store_inv (hs_store h') → logs_kept (hs_store h) (hs_store h') →
  ids_fresh h' → step_keeps h h'.
Proof.
  intros Hs Hs' Hk Hf. split; [by split|]. intros sid. unfold log_of.
  destruct (harness_list _ sid Hs) as [l Hl]. destruct (Hk _ _ Hl) as [l' Hl'].
  rewrite Hl, Hl'. by exists l'.
Qed.

Lemma step_keeps_same (h h' : HarnessState (St := St)) :
  harness_ok h → hs_store h' = hs_store h → hs_taken h' = hs_taken h → step_keeps h h'.
Proof.
  intros [Hs Hf] Heq Ht. apply step_keeps_of; rewrite ?Heq; [done|done|apply logs_kept_refl|].
  intros n. rewrite Ht, Heq. apply Hf.
Qed.

Lemma create_session_keeps root h :
  harness_ok h → step_keeps h (create_session is_dir id_of tick_of root h).1.
Proof.
  intros [Hs Hf]. pose proof (Hf _ (Nat.le_refl _)) as Hfr.
  unfold create_session, rt_create_with_workspace. set (n := hs_taken h) in *.
  assert (∀ s', store_inv s' → logs_kept (hs_store h) s' →
            (∀ id', id' ≠ id_of n → fresh (hs_store h) id' → fresh s' id') →
            step_keeps h (took 2 (with_store s' h))) as Hdone.
  { intros s' Hs' Hk Hf'. apply step_keeps_of; [done|done|done|]. intros m Hm. cbn in *.
    apply Hf'; [intros ?%id_inj; unfold n in *; lia|apply Hf; lia]. }
  destruct (canonicalize root) as [root'|]; [|by apply Hdone; try apply logs_kept_refl].
  destruct (negb (is_dir root')); [by apply Hdone; try apply logs_kept_refl|].
  unfold in_store, StateR.bind, StateR.ret.
  pose proof (harness_create (hs_store h) (id_of n) (tick_of n).1 (tick_of n).2 Hs Hfr) as Hc.
  destruct (store_create_session _ _ _ _) as [s1 [sid|e]]; cbn [map_err].
  2:{ destruct Hc as (Hs1 & _ & Hf1 & Hk1). by apply Hdone. }
  destruct Hc as (Hs1 & Hid & Hf1 & Hk1). specialize (Hid _ eq_refl) as ->.
  destruct (policy_for_workspace _ _ _) as [heap policy]. unfold record.
  pose proof (harness_append s1 (tick_of (S n)).1 (tick_of (S n)).2 (id_of n)
    (PayloadSession (SessionWorkspaceRoot root')) Hs1) as (Hs2 & Hf2 & Hk2).
  destruct (store_append_next _ _ _ _ _) as [s2 [e|e]]; cbn in *;
    (apply (step_keeps_of _ _ Hs); [exact Hs2|by eapply logs_kept_trans|]);
    by apply Hdone; [|eapply logs_kept_trans|intros; apply Hf2, Hf1].
Qed.

Lemma fork_keeps id now policy src up_to s :
  store_inv s → fresh s id →
  let s' := (rt_fork id now policy src up_to s).1 in
  store_inv s' ∧ (∀ id', id' ≠ id → fresh s id' → fresh s' id') ∧ logs_kept s s'.
Proof.
  intros Hs Hfr. unfold rt_fork, in_store, StateR.bind, StateR.ret.
  pose proof (harness_fork s id now src up_to Hs Hfr) as Hc.
  destruct (store_fork_session _ _ _ _ _) as [s1 [sid|e]]; cbn in *; naive_solver.
Qed.

Lemma opened_session_keeps (op : rt (St := St) AgentRuntime) h :
  harness_ok h →
  (store_inv (op (hs_store h)).1 ∧
   (∀ id', id' ≠ id_of (hs_taken h) → fresh (hs_store h) id' → fresh (op (hs_store h)).1 id') ∧
   logs_kept (hs_store h) (op (hs_store h)).1) →
  step_keeps h (opened_session op h).1.
Proof.
  intros [Hs Hf] (Hs' & Hf' & Hk). unfold opened_session.
  destruct (op (hs_store h)) as [s res]. cbn [fst] in *.
  apply step_keeps_of; [done|done|done|]. intros m Hm. cbn in *.
  apply Hf'; [intros ?%id_inj; lia|apply Hf; lia].
Qed.

Lemma restore_request_keeps checkpoint h :
  harness_ok h → step_keeps h (restore_request id_of tick_of checkpoint h).1.
Proof.
  intros Hh. apply opened_session_keeps; [done|]. destruct Hh as [Hs Hf].
  unfold rt_restore_checkpoint, StateR.bind, StateR.get, StateR.lift.
  destruct (map_err RtStore _) as [c|e]; [apply fork_keeps; [done|by apply Hf]|].
  split_and!; [done|done|apply logs_kept_refl].
Qed.

Lemma create_checkpoint_keeps sid name sequence h :
  harness_ok h → step_keeps h (create_checkpoint_request id_of tick_of sid name sequence h).1.
Proof.
  intros [Hs Hf]. unfold create_checkpoint_request.
  destruct (match sequence with Some _ => _ | None => _ end) as [n|e];
    [|by apply step_keeps_same].
  pose proof (harness_checkpoint (hs_store h) (id_of (hs_taken h)) (tick_of (hs_taken h)).2 sid name n Hs)
    as (Hs' & Hf' & Hk).
  destruct (store_create_checkpoint _ _ _ _ _ _) as [s' res]. cbn in *.
  apply step_keeps_of; [done|done| |].
  - intros sid' l Hl. exists []. rewrite app_nil_r. by apply Hk.
  - intros m Hm. apply Hf', Hf. cbn in *. lia.
Qed.

Context (other_keeps : ∀ request h, harness_ok h → step_keeps h (other request h).1).

Lemma dispatch_keeps request h : harness_ok h → step_keeps h (dispatch request h).1.
Proof.
  intros Hh. assert (step_keeps h h) as Hsame by by apply step_keeps_same.
  destruct request; cbn [handle_request]; try (by apply other_keeps); try exact Hsame.
  - by apply create_session_keeps.
  - unfold attach_session. destruct (rt_attach _ _ _ _) as [[heap r]|e]; [|exact Hsame].
    destruct (rt_status _ _).2; [|exact Hsame]. by apply step_keeps_same.
  - apply opened_session_keeps; [done|]. destruct Hh as [Hs Hf].
    apply fork_keeps; [done|by apply Hf].
  - by apply create_checkpoint_keeps.
  - by apply restore_request_keeps.
Qed.

Lemma on_connection_keeps cid request h :
  harness_ok h → step_keeps h (on_connection cid request h).1.
Proof.
  intros Hh. unfold handle_with_connection.
  destruct (foreign_resolve cid request h); [by apply step_keeps_same|].
  pose proof (dispatch_keeps request h Hh) as [Hh' Hk].
  destruct (dispatch request h) as [h' response]. cbn [fst] in *.
  destruct cid as [cid|]; [|by split]. destruct response; try by split.
  destruct (create_binds request); [by split|]. destruct (soft_binds request); [|by split].
  unfold bind_approval_owner_if_unbound_or_same. by destruct (hs_owners h' !! session_id).
Qed.

Lemma on_connection_stream cid sid after h :
  on_connection cid (ReqStream sid after) h = (h, stream_request sid after h).
Proof.
  unfold handle_with_connection. destruct cid; cbn [foreign_resolve handle_request]; [|done].
  by destruct (stream_request sid after h).
Qed.

(** The harness over any store serves a connection's subscription as it relies on. *)
Lemma harness_stream_laws cid :
  frame_grows → StreamLaws (on_connection cid) harness_ok log_of.
Proof.
  intros Hg. split.
  - intros sid after h [Hs Hf]. rewrite on_connection_stream. cbn [snd].
    unfold stream_request. destruct (harness_list _ sid Hs) as [l Hl].
    pose proof (harness_list_after _ sid after None l Hs Hl) as Hpage.
    destruct (store_list_after sid 0 (Some 1%N) (hs_store h)) as [[|e0 p0]|e];
      [left; by eexists _, _| |left; by eexists _, _].
    destruct Hpage as [[e ->]| ->]; [left; by eexists _, _|]. right.
    destruct (trim_longest_prefix sid (take_limit None (drop (N.to_nat after) l)) Hg)
      as (n & -> & _ & Hn & _).
    exists n. unfold log_of. rewrite Hl. by split.
  - intros request h Hh. apply on_connection_keeps, Hh.
  - intros h sid i e [Hs _]. unfold log_of. destruct (harness_list _ sid Hs) as [l Hl].
    rewrite Hl. by apply (harness_numbered (hs_store h) sid).
Qed.

End harness_theorems.

(** *** The in-memory store has these laws *)

Lemma fresh_history `{Json} st id : acyclic (ms_sessions st) → fresh_session st id → history st id = Some [].
Proof.
  intros Hac (Hid & _ & Hev). destruct (history_shared st id Hac) as (pre & Hp & ->).
  rewrite shared_root in Hp.
  2:{ rewrite parent_of_find. by rewrite (proj2 (find_meta_none _ _)). }
  injection Hp as <-. cbn. f_equal. unfold owned, segment_events.
  induction (ms_events st) as [|e l IH]; [done|]. cbn in *. unfold in_segment at 1.
  rewrite (proj2 (N.eqb_neq _ _)) by set_solver. cbn. apply IH. set_solver.
Qed.

Lemma fresh_extended `{Json} st m es no id :
  fresh_session st id → id ≠ meta_id m → meta_parent_session_id m ≠ Some id →
  (∀ e, e ∈ es → event_session_id e = meta_id m) → fresh_session (extended st m es no) id.
Proof.
  intros (Hid & Hpar & Hev) Hne Hp Hes. unfold fresh_session, extended. cbn.
  rewrite !fmap_app. split_and!.
  - rewrite elem_of_app. cbn. set_solver.
  - rewrite elem_of_app. cbn. set_solver.
  - rewrite elem_of_app. intros [?|(e & Heq & He)%list_elem_of_fmap]; [done|].
    apply Hes in He. congruence.
Qed.

Lemma extended_list `{Json} st m es no sid l :
  store_wf st → store_wf (extended st m es no) → fresh_session st (meta_id m) →
  meta_parent_session_id m ≠ Some (meta_id m) → (∀ e, e ∈ es → event_session_id e = meta_id m) →
  memory_list sid st = Ok l → ∃ l', memory_list sid (extended st m es no) = Ok (l ++ l').
Proof.
  intros Hwf Hwf' Hfr Hself Hes Hl. destruct (wf_history st sid Hwf) as [h Hh].
  rewrite (memory_list_history _ _ _ Hh) in Hl. injection Hl as <-.
  destruct (decide (sid = meta_id m)) as [->|Hne].
  - rewrite fresh_history in Hh; [|apply Hwf|done]. injection Hh as <-.
    destruct (wf_history _ (meta_id m) Hwf') as [h' Hh'].
    eexists. by rewrite (memory_list_history _ _ _ Hh').
  - exists []. rewrite app_nil_r. apply memory_list_history. by rewrite extended_history.
Qed.

#[export] Instance memory_harness_laws `{Json} (now : Uuid → N) :
  HarnessStoreLaws (HarnessStore0 := memory_harness_store now) MemoryEventStore store_wf fresh_session.
Proof.
  split.
  - intros st sid Hwf. destruct (wf_history st sid Hwf) as [h Hh].
    eexists. by apply memory_list_history.
  - intros st sid after limit l _ Hl. right. by apply list_after_is_page.
  - intros st sid l i e Hwf Hl Hi. destruct (wf_history st sid Hwf) as [h Hh].
    cbn in Hl. rewrite (memory_list_history _ _ _ Hh) in Hl. injection Hl as <-.
    apply sequence_renumber in Hi. lia.
  - intros st id ev t Hwf Hfr. cbn -[memory_list].
    pose proof (create_refines st id ev t Hwf Hfr) as [Hwf' _]. cbn zeta in Hwf'.
    cbn [memory_create_session] in *.
    change (memory_create_session id ev t st) with
      (extended st (mkMeta id None None) [Event_new ev t id 1 (PayloadSession SessionCreated)]
         (ms_notified st), @Ok StoreError Uuid id) in *.
    assert (∀ e, e ∈ [Event_new ev t id 1 (PayloadSession SessionCreated)] → event_session_id e = id)
      as Hes by set_solver.
    split_and!; [done|by intros ? [= <-]| |].
    + intros id' Hne Hfr'. by apply fresh_extended.
    + intros sid l. by apply extended_list.
  - intros st id t src n Hwf Hfr. cbn -[memory_list memory_fork_session].
    destruct (wf_history st src Hwf) as [h Hh]. rewrite (memory_fork_session_eq _ _ _ _ _ Hh).
    destruct (_ && _) eqn:Hn.
    2:{ split_and!; [done|done|done|]. intros sid l Hl. exists []. by rewrite app_nil_r. }
    apply andb_true_iff in Hn as [H1%N.leb_le Hn%N.leb_le].
    assert (∀ x, fresh_session st x → x ≠ src) as Hsrc.
    { intros x Hx ->. rewrite fresh_history in Hh; [|apply Hwf|done]. injection Hh as <-. cbn in Hn. lia. }
    destruct (fork_refines st id src n h) as (Hwf' & _); [done|done|by apply Hsrc|done..|].
    split_and!; [done|by intros ? [= <-]| |].
    + intros id' Hne Hfr'. apply fresh_extended; [done|done| |by intros ? ?%not_elem_of_nil].
      cbn. intros [= ->]. by apply (Hsrc id').
    + intros sid l. apply extended_list; [done|done|done| |by intros ? ?%not_elem_of_nil].
      cbn. intros [= ->]. by apply (Hsrc id).
  - intros st ev t sid p Hwf. destruct (wf_history st sid Hwf) as [h Hh].
    change (store_append_next ev t sid p st) with (memory_append_next ev t sid p st).
    pose proof (append_wf st sid (Event_new ev t sid (N.of_nat (length h) + 1) p) h
      Hwf Hh eq_refl eq_refl) as Hwf'.
    rewrite (memory_append_next_eq _ _ _ _ _ _ Hh). cbn [fst]. split_and!; [done| |].
    + intros id' Hne (Hid & Hpar & Hev). split_and!; [done|done|]. cbn. rewrite fmap_app.
      rewrite elem_of_app. cbn. set_solver.
    + intros sid' l Hl. destruct (wf_history st sid' Hwf) as [h' Hh'].
      change (store_list sid') with (memory_list sid') in *.
      rewrite (memory_list_history _ _ _ Hh') in Hl. injection Hl as <-.
      pose proof (append_history st sid (Event_new ev t sid (N.of_nat (length h) + 1) p) h Hwf Hh eq_refl eq_refl sid' h' Hh') as Ha.
      eexists. rewrite (memory_list_history _ _ _ Ha). by rewrite renumber_app.
  - intros st id t sid name n Hwf.
    pose proof (checkpoint_same_history st id t sid name n) as [Ee Es].
    destruct (same_data_refines _ _ Ee Es Hwf) as [Hwf' _].
    change (store_create_checkpoint id t sid name n st) with
      (memory_create_checkpoint id t sid name n st).
    set (st' := (memory_create_checkpoint id t sid name n st).1) in *.
    split_and!; [done|unfold fresh_session; by rewrite Ee, Es|].
    intros sid' l. cbn. unfold memory_list, memory_list_after, segments, seg_of, segment_events.
    by rewrite Ee, Es.
Qed.

(** ** Who may answer an approval *)

Section owners.
Context `{Json} `{DisplayStoreError} `{UuidText} `{FileSystem} `{!ResponseJson}.
Context {St : Type} `{!EventStore St} `{!SessionStore St} `{!HarnessStore St}.
Context (is_dir : string → bool) (id_of : nat → Uuid) (tick_of : nat → Tick).
Context (other : IpcRequest → HarnessState (St := St) → HarnessState (St := St) * IpcResponse).

Abbreviation on_connection := (handle_with_connection is_dir id_of tick_of other).

(** A session is created under the id it is asked to have. *)
Context (create_id : ∀ id ev now s s' sid,
  store_create_session (St := St) id ev now s = (s', Ok sid) → sid = id).
(** The other requests leave the owners alone and take no id back. *)
Context (other_owners : ∀ request h,
  hs_owners (other request h).1 = hs_owners h ∧ hs_taken h ≤ hs_taken (other request h).1).

Definition owners_step (h h' : HarnessState (St := St)) : Prop :=
  hs_owners h' = hs_owners h ∧ hs_taken h ≤ hs_taken h'.

Lemma opened_session_owners (op : rt (St := St) AgentRuntime) h :
  owners_step h (opened_session op h).1.
Proof. unfold opened_session. destruct (op (hs_store h)). split; cbn; [done|lia]. Qed.

Lemma create_session_owners root h :
  owners_step h (create_session is_dir id_of tick_of root h).1 ∧
  ∀ sid st, (create_session is_dir id_of tick_of root h).2 = RespSession sid st →
    ∃ n, hs_taken h ≤ n ∧ n < hs_taken (create_session is_dir id_of tick_of root h).1 ∧ sid = id_of n.
Proof.
  unfold create_session, rt_create_with_workspace, in_store, StateR.bind, StateR.ret, StateR.fail.
  assert (∀ s e, owners_step h (took 2 (with_store s h), runtime_error e).1 ∧
    ∀ sid st, (took 2 (with_store s h), runtime_error e).2 = RespSession sid st →
    ∃ n, hs_taken h ≤ n ∧ n < hs_taken (took 2 (with_store s h), runtime_error e).1 ∧ sid = id_of n)
    as Herr by (intros s e; split; [split; cbn; [done|lia]|done]).
  destruct (canonicalize root) as [root'|]; [|apply Herr].
  destruct (negb (is_dir root')); [apply Herr|].
  destruct (store_create_session _ _ _ _) as [s1 [sid|e]] eqn:Hc; cbn [map_err]; [|apply Herr].
  apply create_id in Hc as ->.
  destruct (policy_for_workspace _ _ _) as [heap policy]. unfold record.
  destruct (store_append_next _ _ _ _ _) as [s2 [e|e]]; [|apply Herr].
  split; [split; cbn; [done|lia]|]. cbn. intros sid st [= <- _].
  exists (hs_taken h). split_and!; [lia|lia|done].
Qed.

Lemma handle_request_owners request h :
  owners_step h (handle_request is_dir id_of tick_of other request h).1.
Proof.
  destruct request; cbn [handle_request]; try apply other_owners; try (by split).
  - apply create_session_owners.
  - unfold attach_session. destruct (rt_attach _ _ _ _) as [[heap r]|e]; [|by split].
    by destruct (rt_status _ _).2.
  - apply opened_session_owners.
  - unfold create_checkpoint_request.
    destruct (match sequence with Some _ => _ | None => _ end); [|by split].
    destruct (store_create_checkpoint _ _ _ _ _ _). split; cbn; [done|lia].
  - apply opened_session_owners.
Qed.

(** An owner is replaced only by the creator of a session of the same id. *)
Lemma on_connection_owners cid request h sid c :
  hs_owners h !! sid = Some c → (∀ n, hs_taken h ≤ n → id_of n ≠ sid) →
  hs_owners (on_connection cid request h).1 !! sid = Some c ∧
  hs_taken h ≤ hs_taken (on_connection cid request h).1.
Proof.
  intros Hown Hfresh. unfold handle_with_connection.
  destruct (foreign_resolve cid request h); [done|].
  pose proof (handle_request_owners request h) as [Ho Ht].
  pose proof (create_session_owners) as Hcreate.
  destruct (handle_request is_dir id_of tick_of other request h) as [h' response] eqn:Hreq.
  cbn [fst] in *.
  assert (hs_owners h' !! sid = Some c ∧ hs_taken h ≤ hs_taken h') as Hkeep by by rewrite Ho.
  destruct cid as [cid|]; [|done]. destruct response; try done.
  destruct (create_binds request) eqn:Hcb.
  - destruct request; try done. cbn in Hreq. destruct (Hcreate workspace_root h) as [_ Hsid].
    rewrite Hreq in Hsid. destruct (Hsid _ _ eq_refl) as (n & Hn & _ & ->).
    cbn. rewrite lookup_insert_ne; [done|by apply Hfresh].
  - destruct (soft_binds request); [|done]. unfold bind_approval_owner_if_unbound_or_same.
    destruct (hs_owners h' !! session_id) eqn:Hs; [done|]. cbn.
    rewrite lookup_insert_ne; [done|]. intros ->. destruct Hkeep. congruence.
Qed.

Definition harness_run (calls : list (option N * IpcRequest)) (h : HarnessState (St := St))
    : HarnessState (St := St) :=
  foldl (λ h '(cid, request), (on_connection cid request h).1) h calls.

(** C7: Approvals stay with their connection.  The connection that creates a
    session, or is the first to attach to, fork or restore it, is the only one that
    may answer its approvals: whatever requests any connections make afterwards,
    an answer from another one changes nothing and is refused. *)
Theorem approvals_stay_with_connection c request h h1 sid status calls c' approval accepted :
  on_connection (Some c) request h = (h1, RespSession sid status) →
  create_binds request = true ∨ (soft_binds request = true ∧ hs_owners h !! sid = None) →
  (∀ n, hs_taken h1 ≤ n → id_of n ≠ sid) → c' ≠ c →
  let h2 := harness_run calls h1 in
  on_connection (Some c') (ReqResolveApproval sid approval accepted) h2 =
    (h2, RespError CodeUnavailable "resolve_approval is bound to another client connection").
Proof.
  intros Hopen Hbinds Hfresh Hne. cbv zeta.
  assert (hs_owners h1 !! sid = Some c) as Hown.
  { revert Hopen. unfold handle_with_connection.
    assert (foreign_resolve (Some c) request h = false) as ->
      by (by destruct Hbinds as [?|[? _]]; destruct request).
    pose proof (handle_request_owners request h) as [Ho _].
    destruct (handle_request is_dir id_of tick_of other request h) as [h' response]. cbn [fst] in *.
    destruct response; try done. destruct (create_binds request) eqn:Hcb.
    { intros [= <- -> _]. cbn. apply lookup_insert_eq. }
    destruct Hbinds as [?|[-> Hnone]]; [done|]. unfold bind_approval_owner_if_unbound_or_same.
    intros Heq. assert (session_id = sid) as -> by by injection Heq.
    rewrite Ho, Hnone in Heq. injection Heq as <- _. cbn. apply lookup_insert_eq. }
  assert (hs_owners (harness_run calls h1) !! sid = Some c) as Hown2.
  { clear Hopen Hbinds h. revert h1 Hfresh Hown.
    induction calls as [|[cid r] calls IH]; intros h1 Hfresh Hown; [done|].
    destruct (on_connection_owners cid r h1 sid c Hown Hfresh) as [Hown' Ht].
    cbn. apply IH; [|done]. intros n Hn. apply Hfresh. lia. }
  unfold handle_with_connection. cbn [foreign_resolve]. rewrite Hown2.
  by rewrite (proj2 (N.eqb_neq _ _)).
Qed.

End owners.

(** ** A concrete harness *)

Section sample.
#[local] Existing Instances sample_fs sample_urls sample_codec sample_json sample_response_json orch_display orch_ids.

Definition sample_harness : HarnessState (St := MemoryEventStore) :=
  mkHarness MemoryEventStore_default ∅ (seam_policy sample_seam) ∅ ∅ 1 0.

#[local] Instance sample_harness_store : HarnessStore MemoryEventStore := memory_harness_store (λ _, 0%N).

(** The other requests are answered without effect. *)
Definition sample_other (request : IpcRequest) (h : HarnessState (St := MemoryEventStore))
    : HarnessState (St := MemoryEventStore) * IpcResponse :=
  (h, RespError CodeUnavailable "elsewhere").

Definition sample_dispatch := handle_with_connection (λ _, true) (λ n, N.of_nat (n + 10))
  (λ n, (N.of_nat (n + 100), N.of_nat n)) sample_other.

Definition sample_open := sample_dispatch (Some 1%N) (ReqCreateSession "/ws") sample_harness.

Lemma approvals_owner_witness :
  sample_dispatch (Some 2%N) (ReqResolveApproval 10 5 true) sample_open.1 =
    (sample_open.1, RespError CodeUnavailable "resolve_approval is bound to another client connection").
Proof.
  assert (sample_open = (sample_open.1, RespSession 10 StatusIdle)) as Hopen
    by (vm_compute; reflexivity).
  refine (approvals_stay_with_connection (λ _, true) (λ n, N.of_nat (n + 10))
    (λ n, (N.of_nat (n + 100), N.of_nat n)) sample_other _ _ 1 (ReqCreateSession "/ws") sample_harness
    sample_open.1 10 StatusIdle [] 2 5 true Hopen (or_introl eq_refl) _ _).
  - intros id ev now s s' sid Heq. injection Heq as _ <-. reflexivity.
  - intros request h. split; [reflexivity|apply Nat.le_refl].
  - assert (hs_taken sample_open.1 = 2) as Ht by (vm_compute; reflexivity).
    intros n Hn. rewrite Ht in Hn. cbn beta. lia.
  - lia.
Defined.

(** After a restart the session is bound to nobody: a connection that never
    attached to it is let through. *)
Example unbound_session_answered_by_anyone :
  let restarted := with_owners ∅ sample_open.1 in
  sample_dispatch (Some 2%N) (ReqResolveApproval 10 5 true) restarted =
    sample_other (ReqResolveApproval 10 5 true) restarted.
Proof. vm_compute. reflexivity. Qed.

(** A session of a connection that is gone stays bound to it. *)
Example owner_gone_stays_bound :
  let attached := (sample_dispatch (Some 2%N) (ReqAttach 10) sample_open.1).1 in
  hs_owners attached !! 10%N = Some 1%N ∧
  (sample_dispatch (Some 2%N) (ReqResolveApproval 10 5 true) attached).2 =
    RespError CodeUnavailable "resolve_approval is bound to another client connection".
Proof. split; vm_compute; reflexivity. Qed.
End sample.
