(* ===== verification/SessionModels.v ===== *)
(** * The model of a session

    [crates/impetus-core/src/session_model_store.rs] and, of [harness_api.rs],
    [get_or_default_session_model], [validate_session_model_selection] and
    [store_session_model]: the selection kept in memory and in a file per session,
    checked against the provider catalog whenever it is set or read.  An error is the
    code and message of the response.  The JSON of a selection is a class; what a
    provider discovers is what the registry holds of it. *)

From S2P Require Import Prelude Str Action PathScope WebSecurity Policy Effect RiskGate Events EventStore Budget EffectFence Effects Completion Projection AgentRuntime.
From S2P Require Import WorkspaceFiles HookPrefilter ToolSchema Provider ToolOrchestrator Wire Ipc Harness.

Open Scope string_scope.
Open Scope nat_scope.
Open Scope list_scope.
Open Scope impetus_scope.

Class SelectionJson := {
  selection_from_str : string → result string SessionModelSelection;
  selection_to_vec_pretty : SessionModelSelection → result string string;
}.

(** ** The files *)

Section files.
Context `{SelectionJson} `{UuidText} {F : Type} `{!WorkFiles F} `{!FileChanges F}.

(** An error of the store: of the file system, or of the JSON in a file. *)
Inductive ModelStoreError :=
  | ModelIo (e : IoError)
  | ModelData (what : string).

Definition model_store_error_text (e : ModelStoreError) : string :=
  match e with ModelIo e => io_text e | ModelData what => what end.

Definition model_file (root : string) (sid : Uuid) : string :=
  path_join root (uuid_to_string sid ++ ".json")%string.

(** [with_extension("json.tmp")] of that path. *)
Definition model_tmp (root : string) (sid : Uuid) : string :=
  path_join root (uuid_to_string sid ++ ".json.tmp")%string.

Definition model_load (root : string) (sid : Uuid) (f : F)
    : result ModelStoreError (option SessionModelSelection) :=
  match read_to_string (model_file root sid) f with
  | Ok text => s ← map_err ModelData (selection_from_str text); Ok (Some s)
  | Err err => if io_not_found err then Ok None else Err (ModelIo err)
  end.

Definition on_files {A} (m : stateR F IoError A) : stateR F ModelStoreError A := λ f,
  let '(f', r) := m f in (f', map_err ModelIo r).

Definition model_open (root : string) : stateR F ModelStoreError () := on_files (wf_create_dir_all root).

Definition model_save (root : string) (sid : Uuid) (selection : SessionModelSelection)
    : stateR F ModelStoreError () :=
  on_files (wf_create_dir_all root) ;;;
  body <-- StateR.lift (map_err ModelData (selection_to_vec_pretty selection)) ;;
  on_files (wf_write (model_tmp root sid) body) ;;;
  on_files (wf_rename (model_tmp root sid) (model_file root sid)).

Definition model_remove (root : string) (sid : Uuid) : stateR F ModelStoreError () := λ f,
  match wf_remove_file (model_file root sid) f with
  | (f', Ok _) => (f', Ok tt)
  | (f', Err err) => (f', if io_not_found err then Ok tt else Err (ModelIo err))
  end.

Definition daemon_session_models_dir (data_root : string) : string :=
  path_join data_root "session_models".

End files.

(** ** The selection of a session *)

Section models.
Context `{Json} `{DisplayStoreError} `{UuidText} `{SelectionJson}.
Context {St : Type} `{!EventStore St} {F : Type} `{!WorkFiles F} `{!FileChanges F} {Caps : Type}.
Context (heap : PolicyHeap) (policy : PolicyEngine) (registry : gmap string (RegisteredProvider Caps)).
Context (default_provider_id : string) (durable : option string).

Record ModelWorld := mkModelWorld {
  mw_selections : gmap Uuid SessionModelSelection;
  mw_files : F;
  mw_store : St;
}.

Definition Refused : Type := IpcErrorCode * string.
Definition models (A : Type) : Type := stateR ModelWorld Refused A.

Definition with_selections (m : gmap Uuid SessionModelSelection) (w : ModelWorld) : ModelWorld :=
  mkModelWorld m (mw_files w) (mw_store w).

Definition refuse_runtime (e : RuntimeError) : Refused :=
  (runtime_error_code e, runtime_error_text e).

Definition refuse_provider (code : IpcErrorCode) (e : ProviderError) : Refused :=
  (code, provider_error_text e).

(** [AgentRuntime::attach], for its refusals. *)
Definition must_attach (sid : Uuid) : models () := λ w,
  (w, _ ← map_err refuse_runtime (rt_attach heap policy sid (mw_store w)); Ok tt).

(** A choice must be one of those advertised. *)
Definition check_choice (choice : option string) (advertised : list string)
    (none unknown : string → string) : result Refused () :=
  match choice with
  | None => Ok tt
  | Some c =>
      match advertised with
      | [] => Err (CodeInvalidRequest, none c)
      | _ =>
          if existsb (String.eqb c) advertised then Ok tt
          else Err (CodeInvalidRequest, unknown c)
      end
  end.

Definition validate_session_model_selection (s : SessionModelSelection) : result Refused () :=
  let name := (sms_provider_id s ++ "/" ++ sms_model_id s)%string in
  _ ← map_err (λ m, (CodeInvalidRequest, "saved " ++ m)%string)
        (validate_session_provider_options (sms_provider_options s));
  _ ← map_err (λ e, (CodeUnavailable, "saved session model provider `" ++ sms_provider_id s
                       ++ "` unavailable: " ++ provider_error_text e)%string)
        (registry_get (sms_provider_id s) registry);
  efforts ← map_err (λ e, (CodeUnavailable, "saved session model `" ++ name ++ "` unavailable: "
                             ++ provider_error_text e)%string)
        (advertised_reasoning_efforts (sms_provider_id s) (sms_model_id s) registry);
  _ ← check_choice (sms_reasoning_effort s) efforts.1
        (λ c, "saved reasoning_effort `" ++ c ++ "` rejected: model `" ++ sms_model_id s
              ++ "` no longer advertises reasoning efforts")%string
        (λ c, "saved reasoning_effort `" ++ c ++ "` no longer advertised for `" ++ sms_model_id s
              ++ "` (advertised: " ++ join ", " efforts.1 ++ ")")%string;
  tiers ← map_err (λ e, (CodeUnavailable, "saved session model `" ++ name
                           ++ "` service tiers unavailable: " ++ provider_error_text e)%string)
        (advertised_service_tiers (sms_provider_id s) (sms_model_id s) registry);
  check_choice (sms_service_tier s) tiers
    (λ c, "saved service_tier `" ++ c ++ "` rejected: model `" ++ sms_model_id s
          ++ "` no longer advertises service tiers")%string
    (λ c, "saved service_tier `" ++ c ++ "` no longer advertised for `" ++ sms_model_id s
          ++ "` (advertised: " ++ join ", " tiers ++ ")")%string.

Definition default_selection : result Refused SessionModelSelection :=
  provider ← map_err (refuse_provider CodeUnavailable) (registry_get default_provider_id registry);
  Ok (mkSessionModelSelection default_provider_id (rp_model_id provider) None None JNull).

Definition saved_selection (sid : Uuid) (w : ModelWorld) : result Refused (option SessionModelSelection) :=
  match durable with
  | None => Ok None
  | Some root =>
      map_err (λ e, (CodeInternal, "durable session model for " ++ uuid_to_string sid
                       ++ " unreadable (fail-closed): " ++ model_store_error_text e)%string)
        (model_load root sid (mw_files w))
  end.

Definition get_or_default_session_model (sid : Uuid) : models SessionModelSelection :=
  must_attach sid ;;;
  λ w,
    match mw_selections w !! sid with
    | Some existing =>
        match validate_session_model_selection existing with
        | Err err => (with_selections (delete sid (mw_selections w)) w, Err err)
        | Ok _ => (w, Ok existing)
        end
    | None =>
        match saved_selection sid w with
        | Err err => (w, Err err)
        | Ok (Some saved) =>
            match validate_session_model_selection saved with
            | Err err => (w, Err err)
            | Ok _ => (with_selections (<[sid := saved]> (mw_selections w)) w, Ok saved)
            end
        | Ok None => (w, default_selection)
        end
    end.

Definition check_new_selection (s : SessionModelSelection) : result Refused () :=
  _ ← (if is_empty (sms_provider_id s) || is_empty (sms_model_id s)
       then Err (CodeInvalidRequest, "provider_id and model_id are required") else Ok tt);
  _ ← map_err (λ m, (CodeInvalidRequest, m))
        (validate_session_provider_options (sms_provider_options s));
  _ ← map_err (refuse_provider CodeUnavailable) (registry_get (sms_provider_id s) registry);
  efforts ← map_err (refuse_provider CodeUnavailable)
        (advertised_reasoning_efforts (sms_provider_id s) (sms_model_id s) registry);
  _ ← check_choice (sms_reasoning_effort s) efforts.1
        (λ c, "reasoning_effort `" ++ c ++ "` rejected: model `" ++ sms_model_id s
              ++ "` does not advertise reasoning efforts")%string
        (λ c, "unsupported reasoning_effort `" ++ c ++ "` (advertised: " ++ join ", " efforts.1
              ++ ")")%string;
  tiers ← map_err (refuse_provider CodeUnavailable)
        (advertised_service_tiers (sms_provider_id s) (sms_model_id s) registry);
  check_choice (sms_service_tier s) tiers
    (λ c, "service_tier `" ++ c ++ "` rejected: model `" ++ sms_model_id s
          ++ "` does not advertise service tiers")%string
    (λ c, "unsupported service_tier `" ++ c ++ "` (advertised: " ++ join ", " tiers ++ ")")%string.

Definition save_selection (sid : Uuid) (s : SessionModelSelection) : models () := λ w,
  match durable with
  | None => (w, Ok tt)
  | Some root =>
      let '(f, r) := model_save root sid s (mw_files w) in
      (mkModelWorld (mw_selections w) f (mw_store w),
       map_err (λ e, (CodeInternal, "persist session model: " ++ model_store_error_text e)%string) r)
  end.

Definition set_notice (s : SessionModelSelection) : EventPayload :=
  PayloadNotice (NoticeRuntime ("session model set to " ++ sms_provider_id s ++ "/" ++ sms_model_id s
    ++ " (effort=" ++ default "default" (sms_reasoning_effort s) ++ ", tier="
    ++ default "default" (sms_service_tier s) ++ ")"))%string.

Definition store_session_model (t : Tick) (sid : Uuid) (s : SessionModelSelection)
    : models SessionModelSelection :=
  must_attach sid ;;;
  StateR.lift (check_new_selection s) ;;;
  save_selection sid s ;;;
  λ w,
    (mkModelWorld (<[sid := s]> (mw_selections w)) (mw_files w)
       (store_append_next t.1 t.2 sid (set_notice s) (mw_store w)).1, Ok s).

End models.

(** ** Theorems *)

Section theorems.
Context `{Json} `{DisplayStoreError} `{UuidText} `{SelectionJson}.
Context {St : Type} `{!EventStore St} {F : Type} `{!WorkFiles F} `{!FileChanges F} {Caps : Type}.
Context (heap : PolicyHeap) (policy : PolicyEngine) (registry : gmap string (RegisteredProvider Caps)).
Context (default_provider_id : string) (durable : option string).

Abbreviation World := (ModelWorld (St := St) (F := F)).
Abbreviation get_model := (get_or_default_session_model (F := F) heap policy registry default_provider_id durable).
Abbreviation set_model := (store_session_model (F := F) heap policy registry durable).

(** What a provider must offer for a selection to be used. *)
Definition offered (s : SessionModelSelection) : Prop :=
  validate_session_provider_options (sms_provider_options s) = Ok tt ∧
  is_Some (registry !! sms_provider_id s) ∧
  ∃ efforts tiers,
    advertised_reasoning_efforts (sms_provider_id s) (sms_model_id s) registry = Ok efforts ∧
    advertised_service_tiers (sms_provider_id s) (sms_model_id s) registry = Ok tiers ∧
    (∀ e, sms_reasoning_effort s = Some e → e ∈ efforts.1) ∧
    (∀ t, sms_service_tier s = Some t → t ∈ tiers).

Lemma check_choice_ok choice advertised none unknown :
  check_choice choice advertised none unknown = Ok tt ↔ ∀ c, choice = Some c → c ∈ advertised.
Proof.
  unfold check_choice. destruct choice as [c|]; [|naive_solver].
  destruct advertised as [|a l].
  { split; [done|]. intros Hc. by specialize (Hc c eq_refl) as ?%not_elem_of_nil. }
  destruct (existsb (String.eqb c) (a :: l)) eqn:He.
  - split; [|done]. intros _ ? [= <-]. apply existsb_exists in He as (x & Hin & ->%String.eqb_eq).
    by apply list_elem_of_In.
  - split; [done|]. intros Hc. specialize (Hc c eq_refl). apply list_elem_of_In in Hc.
    assert (existsb (String.eqb c) (a :: l) = true) as Ht; [|congruence].
    apply existsb_exists. exists c. split; [done|apply String.eqb_refl].
Qed.

Lemma registry_get_ok id :
  (∃ p, registry_get id registry = Ok p) ↔ is_Some (registry !! id).
Proof. unfold registry_get. destruct (registry !! id); cbn; naive_solver. Qed.

(** The check of a saved selection and of a new one ask for the same. *)
Lemma validate_selection_ok s :
  validate_session_model_selection registry s = Ok tt ↔ offered s.
Proof.
  unfold validate_session_model_selection, offered. rewrite <- registry_get_ok.
  destruct (validate_session_provider_options _) as [[]|]; cbn; [|naive_solver].
  destruct (registry_get _ registry); cbn; [|naive_solver].
  destruct (advertised_reasoning_efforts _ _ registry) as [efforts|]; cbn; [|naive_solver].
  match goal with |- context [check_choice (sms_reasoning_effort s) _ ?f ?g] =>
    pose proof (check_choice_ok (sms_reasoning_effort s) efforts.1 f g) as He;
    destruct (check_choice (sms_reasoning_effort s) efforts.1 f g) as [[]|] end; cbn; [|naive_solver].
  destruct (advertised_service_tiers _ _ registry) as [tiers|]; cbn; [|naive_solver].
  rewrite check_choice_ok. naive_solver.
Qed.

Lemma check_new_selection_ok s :
  check_new_selection registry s = Ok tt ↔
  sms_provider_id s ≠ "" ∧ sms_model_id s ≠ "" ∧ offered s.
Proof.
  unfold check_new_selection, offered, is_empty. rewrite <- registry_get_ok.
  destruct (String.eqb_spec (sms_provider_id s) ""), (String.eqb_spec (sms_model_id s) "");
    cbn; try naive_solver.
  destruct (validate_session_provider_options _) as [[]|]; cbn; [|naive_solver].
  destruct (registry_get _ registry); cbn; [|naive_solver].
  destruct (advertised_reasoning_efforts _ _ registry) as [efforts|]; cbn; [|naive_solver].
  match goal with |- context [check_choice (sms_reasoning_effort s) _ ?f ?g] =>
    pose proof (check_choice_ok (sms_reasoning_effort s) efforts.1 f g) as He;
    destruct (check_choice (sms_reasoning_effort s) efforts.1 f g) as [[]|] end; cbn; [|naive_solver].
  destruct (advertised_service_tiers _ _ registry) as [tiers|]; cbn; [|naive_solver].
  rewrite check_choice_ok. naive_solver.
Qed.

(** Whatever model a session is run with, it is one the registry offers at that
    moment, with an effort and tier its provider advertises and no option that looks
    like a secret; or, when neither memory nor disk holds a selection, the default
    provider's own model without any choice.  Reading it changes neither the log nor
    the files, and a selection in memory the catalog no longer offers is dropped. *)
Theorem session_model_offered sid (w w' : World) r :
  get_model sid w = (w', r) →
  mw_store w' = mw_store w ∧ mw_files w' = mw_files w ∧
  match r with
  | Ok s =>
      (offered s ∧ mw_selections w' !! sid = Some s ∧
       (mw_selections w !! sid = Some s ∨
        mw_selections w !! sid = None ∧ saved_selection durable sid w = Ok (Some s))) ∨
      (w' = w ∧ mw_selections w !! sid = None ∧ saved_selection durable sid w = Ok None ∧
       ∃ p, registry !! default_provider_id = Some p ∧
            s = mkSessionModelSelection default_provider_id (rp_model_id p) None None JNull)
  | Err _ => ∀ s, mw_selections w' !! sid = Some s → mw_selections w !! sid = Some s ∧ w' = w
  end.
Proof.
  unfold get_or_default_session_model, must_attach, StateR.bind.
  destruct (map_err refuse_runtime (rt_attach heap policy sid (mw_store w))) as [x|e]; cbn;
    [|intros [= <- <-]; split_and!; [done|done|naive_solver]].
  destruct (mw_selections w !! sid) as [s|] eqn:Hram.
  - pose proof (validate_selection_ok s) as Hv.
    destruct (validate_session_model_selection registry s) as [[]|e]; intros [= <- <-].
    + split_and!; [done|done|]. left. split_and!; [by apply Hv|done|by left].
    + split_and!; [done|done|]. cbn. rewrite lookup_delete_eq. done.
  - destruct (saved_selection durable sid w) as [[s|]|e] eqn:Hs.
    + pose proof (validate_selection_ok s) as Hv.
      destruct (validate_session_model_selection registry s) as [[]|e]; intros [= <- <-].
      * split_and!; [done|done|]. left. split_and!; [by apply Hv|apply lookup_insert_eq|by right].
      * split_and!; [done|done|]. intros s'. by rewrite Hram.
    + intros [= <- <-]. split_and!; [done|done|]. unfold default_selection, registry_get.
      destruct (registry !! default_provider_id) as [p|]; cbn.
      * right. split_and!; [done|done|done|]. by exists p.
      * intros s. by rewrite Hram.
    + intros [= <- <-]. split_and!; [done|done|]. intros s'. by rewrite Hram.
Qed.

(** What was set is what is read, as long as the session can be attached to. *)
Lemma selection_set_is_read t sid s (w w' : World) s' :
  set_model t sid s w = (w', Ok s') →
  (∃ x, rt_attach heap policy sid (mw_store w') = Ok x) →
  s' = s ∧ offered s ∧ get_model sid w' = (w', Ok s).
Proof.
  unfold store_session_model, StateR.bind, must_attach, StateR.lift.
  destruct (map_err refuse_runtime (rt_attach heap policy sid (mw_store w))) as [x|e]; cbn; [|done].
  pose proof (check_new_selection_ok s) as Hc.
  destruct (check_new_selection registry s) as [[]|e]; [|done].
  destruct (save_selection durable sid s w) as [w1 [[]|e]]; [|done].
  intros [= <- <-] [x' Hx]. destruct (proj1 Hc eq_refl) as (_ & _ & Ho).
  split_and!; [done|done|].
  unfold get_or_default_session_model, StateR.bind, must_attach. cbn [mw_store] in Hx |- *.
  rewrite Hx. cbn. rewrite lookup_insert_eq.
  by rewrite (proj2 (validate_selection_ok s) Ho).
Qed.

End theorems.

(** ** A concrete session *)

Section sample.
#[local] Existing Instances sample_fs sample_urls sample_codec sample_json orch_display orch_ids.

#[local] Instance sample_selection_json : SelectionJson := {|
  selection_from_str _ := Err "expected value";
  selection_to_vec_pretty s := Ok (sms_model_id s);
|}.

(** A provider that advertises two efforts for its model "m". *)
Definition sample_models : gmap string (RegisteredProvider ()) :=
  {["p" := mkRegistered "p" "m" Healthy None
     (Discovered [mkCatalogEntry "m" None ["low"; "high"] None ModelCapabilityFlags_default [] JNull])]}.

Definition chosen (effort : string) : SessionModelSelection :=
  mkSessionModelSelection "p" "m" (Some effort) None JNull.

Definition sample_model_world (effort : string) : ModelWorld (St := MemoryEventStore) (F := Demo.Fs) :=
  mkModelWorld {[1%N := chosen effort]} ∅ (memory_create_session 1 100 0 MemoryEventStore_default).1.

Definition sample_get := get_or_default_session_model (F := Demo.Fs) ∅ (seam_policy sample_seam)
  sample_models "p" None.

Lemma session_model_witness :
  offered sample_models (chosen "high") ∨ ∃ p, sample_models !! "p" = Some p.
Proof.
  assert (sample_get 1 (sample_model_world "high") =
    (sample_model_world "high", Ok (chosen "high"))) as Hget by (vm_compute; reflexivity).
  destruct (session_model_offered ∅ (seam_policy sample_seam) sample_models "p" None 1
    (sample_model_world "high") (sample_model_world "high") _ Hget) as (_ & _ & [(Ho & _)|(_ & _ & _ & p & Hp & _)]).
  - left. exact Ho.
  - right. exists p. exact Hp.
Defined.

(** An effort the catalog no longer lists is refused, and the selection forgotten:
    the next read falls back to the default without a word. *)
Example stale_selection_forgotten :
  let w := sample_model_world "medium" in
  is_ok (sample_get 1 w).2 = false ∧
  (sample_get 1 (sample_get 1 w).1).2 = Ok (mkSessionModelSelection "p" "m" None None JNull).
Proof. split; vm_compute; reflexivity. Qed.
End sample.
