(* ===== verification/Turns.v ===== *)
(** * Turns of a session: prompts, steering, follow-ups, cancellation, the end of a run

    The [Prompt] and [Cancel] arms of [handle_request], [launch_agent_run],
    [run_agent_loop] around the loop, [start_drained_follow_up_if_any] and the
    resumption after an approval, of [crates/impetus-core/src/harness_api.rs].  A
    request holds the lock of its session, so it is one step; the loop of a run is a
    task, whose calls of the runtime ([LoopWorks]), end and hand-over to the next
    follow-up are steps of their own.  The messages of a run do not change the state
    and are left to the task.  What SessionModels.v reads and ModelRouter.v selects
    are arguments; no run of a session is given a budget, as in the code. *)

From S2P Require Import Prelude Str Action PathScope WebSecurity Policy Effect RiskGate Events EventStore Budget SqliteStore.
From S2P Require Import EffectFence Effects Completion Projection AgentRuntime RuntimeLog Intents ToolSchema Provider Prog ToolOrchestrator AgentLoop ModelRouter Wire Ipc Harness.

Open Scope string_scope.
Open Scope nat_scope.
Open Scope list_scope.
Open Scope impetus_scope.

(** The text of an error of the loop; durations print as Rust prints them. *)
Class DisplayLoopError := loop_error_to_string : AgentLoopError → string.

(** A run whose loop has been spawned; [task_token] is its cancellation token. *)
Record Task := mkTask {
  task_session : Uuid;
  task_run : Uuid;
  task_token : nat;
  task_provider : string;
  task_options : StreamOptions;
}.

Section turns.
Context `{Json} `{FileSystem} `{UrlCrate} `{Codec} `{DisplayStoreError} `{DisplayLoopError} `{UuidText}.
Context {St : Type} `{!EventStore St}.
Context (heap : PolicyHeap) (policy : PolicyEngine) (router_config : ModelRouterConfig).
Context (default_provider_id : string) (id_of : nat → Uuid) (tick_of : nat → Tick).
(** [SteerRewrite::rewrite], or the text of its error. *)
Context (steer_rewrite : SteerActiveContext → string → result string SteerRewriteOutput).
(** [get_or_default_session_model]: its error, or what it leaves in memory. *)
Context (hydrate : Uuid → St → result string (option SessionModelSelection)).

Record TurnState := mkTurns {
  tn_store : St;
  tn_router : UserIntentRouter;
  tn_steer : SteerPendingQueue;
  tn_cancellations : gmap Uuid (Uuid * nat);
  tn_cancelled : gset nat;
  tn_tasks : list Task;
  tn_drained : list (Uuid * QueuedFollowUp);
  tn_taken : nat;
}.

Definition turn (A : Type) : Type := stateR TurnState RuntimeError A.

Definition tn_with_store (s : St) (w : TurnState) : TurnState :=
  mkTurns s (tn_router w) (tn_steer w) (tn_cancellations w) (tn_cancelled w) (tn_tasks w) (tn_drained w)
    (tn_taken w).
Definition tn_with_router (r : UserIntentRouter) (w : TurnState) : TurnState :=
  mkTurns (tn_store w) r (tn_steer w) (tn_cancellations w) (tn_cancelled w) (tn_tasks w) (tn_drained w)
    (tn_taken w).
Definition tn_with_steer (q : SteerPendingQueue) (w : TurnState) : TurnState :=
  mkTurns (tn_store w) (tn_router w) q (tn_cancellations w) (tn_cancelled w) (tn_tasks w) (tn_drained w)
    (tn_taken w).
Definition tn_with_drained (d : list (Uuid * QueuedFollowUp)) (w : TurnState) : TurnState :=
  mkTurns (tn_store w) (tn_router w) (tn_steer w) (tn_cancellations w) (tn_cancelled w) (tn_tasks w) d
    (tn_taken w).
Definition tn_take (w : TurnState) : TurnState :=
  mkTurns (tn_store w) (tn_router w) (tn_steer w) (tn_cancellations w) (tn_cancelled w) (tn_tasks w)
    (tn_drained w) (tn_taken w + 1).

(** An operation of the runtime. *)
Definition on_store {A} (m : rt (St := St) A) : turn A := λ w,
  let '(s, r) := m (tn_store w) in (tn_with_store s w, r).
Definition read_store {A} (m : St → result RuntimeError A) : turn A := λ w, (w, m (tn_store w)).

(** A fresh id with two ticks of the clock. *)
Definition fresh_id : turn (Uuid * Tick * Tick) := λ w,
  let n := tn_taken w in (tn_take w, Ok (id_of n, tick_of (2 * n), tick_of (2 * n + 1))).

Definition attach (sid : Uuid) : turn () :=
  read_store (λ s, _ ← rt_attach heap policy sid s; Ok tt).

Definition user_intent_to_runtime (e : UserIntentError) : RuntimeError :=
  match e with
  | UnknownSession id => RtMissingSession id
  | NoActiveRun id => RtDenied ("steer rejected: session " ++ uuid_to_string id ++ " has no active run")
  | EmptyFanout => RtDenied "fanout rejected: empty session id list"
  end%string.

Definition on_router {A} (m : ri A) : turn A := λ w,
  let '(r, res) := m (tn_router w) in (tn_with_router r w, map_err user_intent_to_runtime res).

(** *** Launching a run *)

Definition options_of (s : SessionModelSelection) : StreamOptions :=
  mkStreamOptions (Some (sms_model_id s)) (sms_reasoning_effort s) (sms_service_tier s)
    (sms_provider_options s).

Definition need_tools : CapabilityRequirements := mkRequirements true false false None.

(** Provider, options and notice of a run. *)
Definition choose_model (override : option SessionModelSelection) : string * StreamOptions * string :=
  match override with
  | Some s =>
      (sms_provider_id s, options_of s,
       "session model override " ++ sms_provider_id s ++ "/" ++ sms_model_id s ++ " (effort="
       ++ default "default" (sms_reasoning_effort s) ++ ", tier="
       ++ default "default" (sms_service_tier s) ++ ")")%string
  | None =>
      match select_model router_config need_tools BudgetConfig_default with
      | Some s =>
          (ms_provider_id s, mkStreamOptions (Some (ms_model_id s)) None None JNull,
           "ModelRouter selected " ++ ms_provider_id s ++ "/" ++ ms_model_id s ++ ": " ++ ms_reasoning s)%string
      | None =>
          (default_provider_id, mkStreamOptions None None None JNull,
           "ModelRouter fallback to default provider: " ++ default_provider_id)%string
      end
  end.

(** The cancellation token is numbered by the counter. *)
Definition launch_agent_run (sid run_id : Uuid) (override : option SessionModelSelection) : turn () := λ w,
  let '(provider, options, message) := choose_model override in
  let t := tick_of (2 * tn_taken w) in
  let s := (store_append_next t.1 t.2 sid (PayloadNotice (NoticeRuntime message)) (tn_store w)).1 in
  let token := tn_taken w in
  (mkTurns s (tn_router w) (tn_steer w) (<[sid := (run_id, token)]> (tn_cancellations w)) (tn_cancelled w)
     (tn_tasks w ++ [mkTask sid run_id token provider options]) (tn_drained w) (tn_taken w + 1), Ok tt).

(** From the started run to its task. *)
Definition hydrated (sid : Uuid) : turn (option SessionModelSelection) :=
  read_store (λ s, map_err RtDenied (hydrate sid s)).

(** *** The requests *)

Definition submit_synced (sid : Uuid) (intent : UserPromptIntent) (text : string) : turn UserIntentAccepted :=
  (λ w, (tn_with_router (open_session sid (tn_router w)) w, Ok tt)) ;;;
  active <-- read_store (rt_active_run_id sid) ;;
  on_router (set_active_run sid active) ;;;
  on_router (submit (mkSubmission sid intent text User)).

Definition rt_intent (sid : Uuid) (s : St) : option string :=
  match rt_events sid s with
  | Ok l => find_map (λ e, match event_payload e with PayloadIntent i => Some (intent_text i) | _ => None end)
              (reverse l)
  | Err _ => None
  end.

Definition status (sid : Uuid) : turn RuntimeStatus := on_store (rt_status sid).

Definition steer_request (sid : Uuid) (artifact : option ArtifactRef) (accepted : UserIntentAccepted)
    : turn RuntimeStatus :=
  run_id <-- StateR.lift (ok_or (accepted_active_run_id accepted)
               (RtDenied ("steer rejected: session " ++ uuid_to_string sid ++ " has no active run")%string)) ;;
  rewritten <-- (λ w, (w, map_err RtDenied
                   (steer_rewrite (mkSteerContext sid run_id (rt_intent sid (tn_store w)))
                      (accepted_text accepted)))) ;;
  (λ w, (tn_with_steer (queue_push sid (so_fragment rewritten) (tn_steer w)) w, Ok tt)) ;;;
  ids <-- fresh_id ;;
  on_store (submit_intent_with_artifact_and_kind ids.1.2 sid (accepted_text accepted) artifact Steer) ;;;
  status sid.

Definition prompt_request (sid : Uuid) (text : string) (artifact : option ArtifactRef)
    (intent : UserPromptIntent) : turn RuntimeStatus :=
  attach sid ;;;
  accepted <-- submit_synced sid intent text ;;
  match accepted_intent accepted with
  | Steer => steer_request sid artifact accepted
  | FollowUp =>
      ids <-- fresh_id ;;
      on_store (submit_intent_with_artifact_and_kind ids.1.2 sid (accepted_text accepted) artifact FollowUp) ;;;
      status sid
  | Prompt =>
      ids <-- fresh_id ;;
      run_id <-- on_store (submit_intent_and_start_run_with_artifact ids.1.2 ids.2 ids.1.1 sid text artifact) ;;
      (λ w, (tn_with_router (set_active_run sid (Some run_id) (tn_router w)).1 w, Ok tt)) ;;;
      override <-- hydrated sid ;;
      launch_agent_run sid run_id override ;;;
      status sid
  end.

(** After the follow-up was taken from the queue. *)
Definition start_drained_follow_up (sid : Uuid) (queued : QueuedFollowUp) : turn () :=
  attach sid ;;;
  ids <-- fresh_id ;;
  run_id <-- on_store (submit_intent_and_start_run ids.1.2 ids.2 ids.1.1 sid (follow_up_text queued)) ;;
  (λ w, (tn_with_router (set_active_run sid (Some run_id) (tn_router w)).1 w, Ok tt)) ;;;
  override <-- hydrated sid ;;
  launch_agent_run sid run_id override.

Definition take_follow_up (sid finished_run : Uuid) (w : TurnState) : TurnState * option QueuedFollowUp :=
  let '(r, res) := take_follow_up_on_run_terminal sid finished_run (tn_router w) in
  (tn_with_router r w, match res with Ok q => q | Err _ => None end).

Definition cancel_token (sid : Uuid) (w : TurnState) : TurnState :=
  match tn_cancellations w !! sid with
  | Some (_, token) =>
      mkTurns (tn_store w) (tn_router w) (tn_steer w) (tn_cancellations w) ({[token]} ∪ tn_cancelled w)
        (tn_tasks w) (tn_drained w) (tn_taken w)
  | None => w
  end.

Definition cancel_request (sid : Uuid) : turn RuntimeStatus :=
  (λ w, (cancel_token sid w, Ok tt)) ;;;
  attach sid ;;;
  finished <-- read_store (rt_active_run_id sid) ;;
  ids <-- fresh_id ;;
  on_store (rt_cancel ids.1.2 sid) ;;;
  (λ w,
     match finished with
     | None => (w, Ok tt)
     | Some run_id =>
         match take_follow_up sid run_id w with
         | (w, Some queued) => ((start_drained_follow_up sid queued w).1, Ok tt)
         | (w, None) => (w, Ok tt)
         end
     end) ;;;
  status sid.

(** The end of [ResolveApproval], after the deferred tool was run. *)
Definition resume_run (sid : Uuid) : turn () :=
  attach sid ;;;
  active <-- read_store (rt_active_run_id sid) ;;
  match active with
  | None => StateR.ret tt
  | Some run_id =>
      override <-- hydrated sid ;;
      launch_agent_run sid run_id override
  end.

(** *** The end of a run *)

Inductive LoopResult :=
  | NoProvider (error : string)
  | NoTools (error : string)
  | LoopEnded (r : result AgentLoopError ()).

Definition gate_outcome (sid run_id : Uuid) (s : St) : St * option GapLoopOutcome :=
  run_gap_loop runtime_error_text (λ e : RuntimeError, runtime_error_text e)
    (λ s, (s, l ← rt_events sid s; Ok (evaluate_run_with_obligations l run_id ObligationLedger_new)))
    (λ _ s, (s, Ok false)) s.

(** What [run_agent_loop] records, when the session's status is [Running]; [None]
    records nothing.  [cancelled] is the task's token. *)
Definition run_outcome (sid run_id : Uuid) (cancelled : bool) (res : LoopResult) (s : St)
    : option RunEvent :=
  match res with
  | NoProvider error => Some (RunFailed run_id ("provider not found: " ++ error))
  | NoTools error => Some (RunFailed run_id ("tool providers failed: " ++ error))
  | LoopEnded (Ok _) =>
      match (gate_outcome sid run_id s).2 with
      | Some GapAccepted => Some (RunCompleted run_id)
      | Some other => Some (RunFailed run_id (default "gap loop failed" (gap_fail_reason other)))
      | None => None
      end
  | LoopEnded (Err error) =>
      if cancelled then None
      else match error with
           | AlProvider (InterruptedUnknown _) => Some (RunInterruptedUnknown run_id)
           | _ => Some (RunFailed run_id ("provider stream failed: " ++ loop_error_to_string error))
           end
  end%string.

Definition is_running (r : result RuntimeError RuntimeStatus) : bool :=
  match r with Ok StatusRunning => true | _ => false end.

(** [run_agent_loop] from the result of the loop on: whether the run completed. *)
Definition end_run (t : Tick) (sid run_id : Uuid) (cancelled : bool) (res : LoopResult) (s : St) : St * bool :=
  if is_running (rt_status sid s).2 then
    match run_outcome sid run_id cancelled res s with
    | Some outcome =>
        ((finish_run t sid outcome s).1, match outcome with RunCompleted _ => true | _ => false end)
    | None => (s, false)
    end
  else (s, false).

(** The task ends: the run is recorded, its cancellation handle removed, and the
    next follow-up taken when the run completed. *)
Definition finish_task (k : nat) (res : LoopResult) (w : TurnState) : TurnState :=
  match tn_tasks w !! k with
  | None => w
  | Some task =>
      let sid := task_session task in
      let '(s, completed) := end_run (tick_of (2 * tn_taken w)) sid (task_run task)
        (bool_decide (task_token task ∈ tn_cancelled w)) res (tn_store w) in
      let cancellations :=
        match tn_cancellations w !! sid with
        | Some (run_id, _) =>
            if (run_id =? task_run task)%N then delete sid (tn_cancellations w) else tn_cancellations w
        | None => tn_cancellations w
        end in
      let w := mkTurns s (tn_router w) (tn_steer w) cancellations (tn_cancelled w)
                 (delete k (tn_tasks w)) (tn_drained w) (tn_taken w + 1) in
      if completed then
        match take_follow_up sid (task_run task) w with
        | (w, Some queued) => tn_with_drained (tn_drained w ++ [(sid, queued)]) w
        | (w, None) => w
        end
      else w
  end.

(** The session's lock is free: a follow-up taken earlier is started, or dropped. *)
Definition drain_starts (k : nat) (w : TurnState) : TurnState :=
  match tn_drained w !! k with
  | None => w
  | Some (sid, queued) =>
      (start_drained_follow_up sid queued (tn_with_drained (delete k (tn_drained w)) w)).1
  end.

Inductive TurnEvent :=
  | UserPrompts (sid : Uuid) (text : string) (artifact : option ArtifactRef) (intent : UserPromptIntent)
  | UserCancels (sid : Uuid)
  | ApprovalResumes (sid : Uuid)
  | LoopWorks (rt : AgentRuntime) (ops : list (Tick * RtOp))
  | LoopEnds (k : nat) (res : LoopResult)
  | DrainStarts (k : nat).

Definition turn_step (ev : TurnEvent) (w : TurnState) : TurnState :=
  match ev with
  | UserPrompts sid text artifact intent => (prompt_request sid text artifact intent w).1
  | UserCancels sid => (cancel_request sid w).1
  | ApprovalResumes sid => (resume_run sid w).1
  | LoopWorks rt ops => tn_with_store (foldl (flip (run_rt_op rt)) (tn_store w) ops) w
  | LoopEnds k res => finish_task k res w
  | DrainStarts k => drain_starts k w
  end.

Definition turn_run (evs : list TurnEvent) (w : TurnState) : TurnState := foldl (flip turn_step) w evs.

End turns.

(** ** The log through the turns *)

Section turn_laws.
Context `{Json} `{FileSystem} `{UrlCrate} `{Codec} `{DisplayStoreError} `{DisplayLoopError} `{UuidText}.
Context {St : Type} `{!EventStore St}.
Context (store_inv : St → Prop) `{!EventStoreLaws St store_inv}.

(** Every session that reads back as a log reads back as that log followed by guarded
    appends. *)
Definition grown (s s' : St) : Prop :=
  ∀ sid l, owns store_inv sid s l →
    ∃ l', owns store_inv sid s' l' ∧ rtc (guarded_append sid) l l'.

#[local] Instance grown_preorder : PreOrder grown.
Proof.
  split.
  - intros s sid l Ho. by exists l; split; [|apply rtc_refl].
  - intros s1 s2 s3 H12 H23 sid l Ho. destruct (H12 sid l Ho) as (l2 & Ho2 & ?).
    destruct (H23 sid l2 Ho2) as (l3 & ? & ?). exists l3. split; [done|by etrans].
Qed.

(** An operation on one session leaves the others as they are. *)
Definition confined {A} (sid0 : Uuid) (m : rt (St := St) A) : Prop :=
  ∀ sid s l, sid ≠ sid0 → owns store_inv sid s l → owns store_inv sid (m s).1 l.

Lemma confined_read {A} sid0 (f : St → result RuntimeError A) : confined sid0 (λ s, (s, f s)).
Proof. by intros sid s l. Qed.

Lemma confined_bind {A B} sid0 (m : rt A) (f : A → rt B) :
  confined sid0 m → (∀ a, confined sid0 (f a)) → confined sid0 (StateR.bind m f).
Proof.
  intros Hm Hf sid s l Hne Ho. unfold StateR.bind. specialize (Hm sid s l Hne Ho).
  destruct (m s) as [s1 [a|e]]; cbn in *; [by apply Hf|done].
Qed.

Lemma confined_record t sid0 p : confined sid0 (record t sid0 p).
Proof. intros sid s l Hne Ho. by apply record_elsewhere. Qed.

Lemma confined_get sid0 {A} (f : SessionProjection → rt A) :
  (∀ p, confined sid0 (f p)) → confined sid0 (StateR.bind (get_projection sid0) f).
Proof. apply confined_bind, confined_read. Qed.

(** Every operation of a runtime reads and records its own session only. *)
Ltac confine :=
  repeat first
    [ apply confined_read | apply confined_record
    | apply confined_get; intros ? | apply confined_bind; [|intros ?] | case_match ].

Lemma confined_start t run_id sid0 : confined sid0 (start_run t run_id sid0).
Proof. unfold start_run. confine. Qed.

Lemma confined_finish t sid0 outcome : confined sid0 (finish_run t sid0 outcome).
Proof. unfold finish_run. confine. Qed.

Lemma confined_submit_and_start t t' run_id sid0 text artifact :
  confined sid0 (submit_intent_and_start_run_with_artifact t t' run_id sid0 text artifact).
Proof. unfold submit_intent_and_start_run_with_artifact, start_run. confine. Qed.

Lemma confined_cancel t sid0 : confined sid0 (rt_cancel t sid0).
Proof. unfold rt_cancel, rt_status, finish_run. confine. Qed.

Lemma confined_request t new_id h rt a version :
  confined (ar_session_id rt) (request_action_with_capability_version t new_id h rt a version).
Proof. unfold request_action_with_capability_version. confine. Qed.

Lemma grown_op {A} sid0 (m : rt A) s : keeps store_inv sid0 m → confined sid0 m → grown s (m s).1.
Proof.
  intros Hk Hc sid l Ho. destruct (decide (sid = sid0)) as [->|Hne].
  - by apply keeps_run.
  - exists l. split; [by apply Hc|apply rtc_refl].
Qed.

Lemma grown_append t sid0 p s : 
  (∀ l, guarded (project_log sid0 l) p) → grown s (store_append_next t.1 t.2 sid0 p s).1.
Proof.
  intros Hg. assert ((store_append_next t.1 t.2 sid0 p s).1 = (record t sid0 p s).1) as ->.
  { unfold record. by destruct (store_append_next _ _ _ _ _) as [? []]. }
  apply (grown_op sid0); [by apply keeps_record|apply confined_record].
Qed.

(** *** The operations of a turn *)

Definition growing {A} (m : turn (St := St) A) : Prop := ∀ w, grown (tn_store w) (tn_store (m w).1).

Lemma growing_bind {A B} (m : turn A) (f : A → turn B) :
  growing m → (∀ a, growing (f a)) → growing (StateR.bind m f).
Proof.
  intros Hm Hf w. unfold StateR.bind. specialize (Hm w).
  destruct (m w) as [w1 [a|e]]; cbn in *; [by etrans; [|apply Hf]|done].
Qed.

Lemma growing_still {A} (m : turn A) : (∀ w, tn_store (m w).1 = tn_store w) → growing m.
Proof. intros Hm w. by rewrite Hm. Qed.

Lemma growing_store {A} sid0 (m : rt A) :
  keeps store_inv sid0 m → confined sid0 m → growing (on_store m).
Proof.
  intros Hk Hc w. unfold on_store. pose proof (grown_op sid0 m (tn_store w) Hk Hc) as Hg.
  by destruct (m (tn_store w)).
Qed.

Lemma growing_router {A} (m : ri A) : growing (on_router m).
Proof. apply growing_still. intros w. unfold on_router. by destruct (m (tn_router w)). Qed.

(** *** The end of a run *)

Lemma gate_outcome_log sid run_id s l :
  owns store_inv sid s l →
  (gate_outcome sid run_id s).2 =
    Some (match evaluate_run_with_obligations l run_id ObligationLedger_new with
          | VerdictAccepted => GapAccepted
          | VerdictRejected reason => GapRejected reason
          | VerdictInsufficient missing => GapExhausted missing 1
          end).
Proof.
  intros (_ & Hl & _). unfold gate_outcome, run_gap_loop. cbn. unfold rt_events. rewrite Hl. cbn.
  by destruct (evaluate_run_with_obligations l run_id ObligationLedger_new).
Qed.

Lemma status_running sid s l :
  owns store_inv sid s l →
  is_running (rt_status sid s).2 = true ↔
    proj_pending_approvals (project_log sid l) = ∅ ∧
    (is_Some (proj_active_run_id (project_log sid l)) ∨
     ∃ r, proj_outcome (project_log sid l) = Some (RunStarted r)).
Proof.
  intros Ho. unfold rt_status, get_projection, StateR.bind. rewrite (projection_owned _ _ _ _ Ho).
  cbn. unfold status_of. case_bool_decide as Hp; cbn.
  - destruct (proj_active_run_id _); cbn; [naive_solver|].
    destruct (proj_outcome _) as [[]|]; naive_solver.
  - naive_solver.
Qed.

Lemma outcome_run sid run_id cancelled res s outcome :
  run_outcome sid run_id cancelled res s = Some outcome →
  run_event_id outcome = run_id ∧ is_started outcome = false.
Proof. unfold run_outcome. repeat case_match; intros; simplify_eq; done. Qed.

(** The row [run_agent_loop] writes, when it writes one. *)
Definition ends_with (sid run_id : Uuid) (cancelled : bool) (res : LoopResult) (l : list Event)
    (outcome : RunEvent) : Prop :=
  run_event_id outcome = run_id ∧
  match outcome with
  | RunStarted _ | RunCancelled _ => False
  | RunCompleted _ =>
      res = LoopEnded (Ok tt) ∧
      ∀ window, run_window l run_id window →
        (∀ e, e ∈ window → touches_tools e = false) ∨ ∃ e, e ∈ window ∧ observed OutcomeSuccess e
  | RunInterruptedUnknown _ =>
      cancelled = false ∧ ∃ m, res = LoopEnded (Err (AlProvider (InterruptedUnknown m)))
  | RunFailed _ _ => res = LoopEnded (Ok tt) ∨ (∃ e, res = NoProvider e) ∨ (∃ e, res = NoTools e) ∨
      cancelled = false ∧ ∃ e, res = LoopEnded (Err e)
  end.

Lemma run_outcome_ends sid run_id cancelled res s l outcome :
  owns store_inv sid s l → run_outcome sid run_id cancelled res s = Some outcome →
  ends_with sid run_id cancelled res l outcome.
Proof.
  intros Ho Hout. split; [by apply outcome_run in Hout as [? _]|].
  unfold run_outcome in Hout. destruct res as [e|e|[[]|err]]; simplify_eq; [eauto..| |].
  - rewrite (gate_outcome_log _ _ _ _ Ho) in Hout.
    destruct (evaluate_run_with_obligations _ _ _) eqn:Hv; simplify_eq; [|by left..].
    split; [done|]. by apply evaluate_run_accepts in Hv as [_ ?].
  - destruct cancelled; [done|].
    destruct err as [|[]| | |]; simplify_eq; eauto 8.
Qed.

Lemma run_outcome_none sid run_id cancelled res s l :
  owns store_inv sid s l →
  run_outcome sid run_id cancelled res s = None ↔
    cancelled = true ∧ ∃ err, res = LoopEnded (Err err).
Proof.
  intros Ho. unfold run_outcome. destruct res as [e|e|[[]|err]]; [naive_solver..| |].
  - rewrite (gate_outcome_log _ _ _ _ Ho). case_match; naive_solver.
  - destruct cancelled; [naive_solver|]. split; [|naive_solver]. repeat case_match; done.
Qed.

Lemma run_outcome_completed sid run_id cancelled s l :
  owns store_inv sid s l →
  (∀ window, run_window l run_id window →
     (∀ e, e ∈ window → touches_tools e = false) ∨ ∃ e, e ∈ window ∧ observed OutcomeSuccess e) →
  run_outcome sid run_id cancelled (LoopEnded (Ok tt)) s = Some (RunCompleted run_id).
Proof.
  intros Ho Hev. unfold run_outcome. rewrite (gate_outcome_log _ _ _ _ Ho).
  assert (evaluate_run_with_obligations l run_id ObligationLedger_new = VerdictAccepted) as ->; [|done].
  apply evaluate_run_accepts. split; [set_solver|done].
Qed.

Lemma end_run_row t sid run_id cancelled res s l :
  owns store_inv sid s l →
  (end_run t sid run_id cancelled res s).1 =
    if bool_decide (proj_pending_approvals (project_log sid l) = ∅) &&
       bool_decide (proj_active_run_id (project_log sid l) = Some run_id)
    then match run_outcome sid run_id cancelled res s with
         | Some outcome => (record t sid (PayloadRun outcome) s).1
         | None => s
         end
    else s.
Proof.
  intros Ho. unfold end_run. pose proof (status_running _ _ _ Ho) as Hrun.
  destruct (is_running (rt_status sid s).2).
  - destruct Hrun as [Hrun _]. destruct (Hrun eq_refl) as [Hp _]. rewrite bool_decide_true by done.
    cbn. destruct (run_outcome _ _ _ _ _) as [outcome|] eqn:Hout; [|by case_bool_decide].
    apply outcome_run in Hout as [Hid Hs]. unfold finish_run, get_projection, StateR.bind.
    rewrite (projection_owned _ _ _ _ Ho), Hid, Hs, orb_false_r. by case_bool_decide.
  - case_bool_decide as Hp; [|done]. case_bool_decide as Ha; [|done].
    destruct Hrun as [_ Hrun]. ospecialize (Hrun _); [|done].
    split; [done|]. left. by rewrite Ha.
Qed.

(** C4: However the loop of a run ends, its task adds at most one row to the session's
    log, and only while no approval is pending and that very run is the active one: the
    task of a run that was cancelled or overtaken changes nothing.  The run completes
    only when the loop ended well and the rows of the run touched no tool or show a
    success, and then it does; an error after cancellation leaves no row, and every
    other end leaves one that says why. *)
Theorem run_end_exact t sid run_id cancelled res s l :
  owns store_inv sid s l →
  ∃ l', owns store_inv sid (end_run t sid run_id cancelled res s).1 l' ∧
    (l' = l ∨ ∃ e outcome, l' = l ++ [e] ∧ event_payload e = PayloadRun outcome ∧
       proj_pending_approvals (project_log sid l) = ∅ ∧
       proj_active_run_id (project_log sid l) = Some run_id ∧
       ends_with sid run_id cancelled res l outcome) ∧
    ((∀ p, is_ok (store_append_next t.1 t.2 sid p s).2) →
     proj_pending_approvals (project_log sid l) = ∅ →
     proj_active_run_id (project_log sid l) = Some run_id →
     (l' = l ↔ cancelled = true ∧ ∃ err, res = LoopEnded (Err err)) ∧
     (res = LoopEnded (Ok tt) →
      (∀ window, run_window l run_id window →
         (∀ e, e ∈ window → touches_tools e = false) ∨ ∃ e, e ∈ window ∧ observed OutcomeSuccess e) →
      ∃ e, l' = l ++ [e] ∧ event_payload e = PayloadRun (RunCompleted run_id))).
Proof.
  intros Ho. rewrite (end_run_row _ _ _ _ _ _ _ Ho).
  pose proof (run_outcome_none sid run_id cancelled res s l Ho) as Hnone.
  case_bool_decide as Hp; [|exists l; split_and!; [done|by left|naive_solver]].
  case_bool_decide as Ha; [|exists l; split_and!; [done|by left|naive_solver]]. cbn.
  destruct (run_outcome sid run_id cancelled res s) as [outcome|] eqn:Hout.
  2: { exists l. split_and!; [done|by left|]. intros _ _ _. split; [naive_solver|].
       intros -> Hev. by rewrite (run_outcome_completed _ _ _ _ _ Ho Hev) in Hout. }
  pose proof (run_outcome_ends _ _ _ _ _ _ _ Ho Hout) as Hends. unfold record.
  destruct (store_append_next t.1 t.2 sid (PayloadRun outcome) s) as [s' [e|err]] eqn:Happ; cbn.
  - destruct (append_own_log _ _ _ _ _ _ _ _ Ho Happ) as [Ho' Hpl]. exists (l ++ [e]).
    split_and!; [done|right; eauto 8|]. intros _ _ _. split.
    + split; [|naive_solver]. intros Heq%(f_equal length). rewrite length_app in Heq. cbn in Heq. lia.
    + intros -> Hev. rewrite (run_outcome_completed _ _ _ _ _ Ho Hev) in Hout. simplify_eq. eauto.
  - exists l. destruct Ho as (Hinv & Hl & Hok & Hne).
    destruct (append_next_err _ _ _ _ _ _ _ Hinv Happ) as [Hinv' Hsame].
    split_and!; [split_and!; [done|by rewrite Hsame|done|done]|by left|].
    intros Hall. specialize (Hall (PayloadRun outcome)). by rewrite Happ in Hall.
Qed.

Context (heap : PolicyHeap) (policy : PolicyEngine) (router_config : ModelRouterConfig).
Context (default_provider_id : string) (id_of : nat → Uuid) (tick_of : nat → Tick).
Context (steer_rewrite : SteerActiveContext → string → result string SteerRewriteOutput).
Context (hydrate : Uuid → St → result string (option SessionModelSelection)).

(** Follow a request: reads and bookkeeping leave the log, the rest are operations of
    the runtime. *)
Ltac growing_step :=
  first
    [ apply growing_router
    | apply growing_still; by intros ?
    | by eapply growing_store; eauto using submit_intent_keeps, submit_and_start_keeps, cancel_keeps,
        status_keeps, confined_record, confined_submit_and_start, confined_cancel, confined_read
    | apply growing_bind; [|intros ?] ].

Lemma growing_launch sid run_id override :
  growing (launch_agent_run router_config default_provider_id tick_of sid run_id override).
Proof.
  intros w. unfold launch_agent_run. destruct (choose_model _ _ _) as [[provider options] message].
  by apply grown_append.
Qed.

Lemma growing_status sid : growing (status sid).
Proof.
  eapply growing_store; [by apply status_keeps|]. unfold rt_status. confine.
Qed.

Lemma growing_follow_up sid q :
  growing (start_drained_follow_up heap policy router_config default_provider_id id_of tick_of
             hydrate sid q).
Proof.
  unfold start_drained_follow_up. do 9 try growing_step. apply growing_launch.
Qed.

Lemma growing_prompt sid text artifact intent :
  growing (prompt_request heap policy router_config default_provider_id id_of tick_of steer_rewrite
             hydrate sid text artifact intent).
Proof.
  unfold prompt_request, submit_synced, steer_request. repeat growing_step.
  case_match; repeat first [growing_step | apply growing_launch | apply growing_status].
Qed.

Lemma take_follow_up_store sid run_id (w w' : TurnState (St := St)) q :
  take_follow_up sid run_id w = (w', q) → tn_store w' = tn_store w.
Proof. unfold take_follow_up. destruct (take_follow_up_on_run_terminal _ _ _). by intros [= <- _]. Qed.

Lemma growing_cancel sid :
  growing (cancel_request heap policy router_config default_provider_id id_of tick_of hydrate sid).
Proof.
  unfold cancel_request.
  apply growing_bind; [|intros ?].
  { apply growing_still. intros w. unfold cancel_token. by destruct (tn_cancellations w !! sid) as [[]|]. }
  repeat growing_step; [|apply growing_status].
  intros w. case_match; [|done]. destruct (take_follow_up sid _ w) as [w' [queued|]] eqn:Hq;
    apply take_follow_up_store in Hq; rewrite <-Hq; [apply growing_follow_up|done].
Qed.

Lemma growing_resume sid :
  growing (resume_run heap policy router_config default_provider_id tick_of hydrate sid).
Proof.
  unfold resume_run. repeat growing_step. case_match; repeat first [growing_step | apply growing_launch].
Qed.

Lemma grown_end t sid run_id cancelled res s :
  grown s (end_run t sid run_id cancelled res s).1.
Proof.
  unfold end_run. destruct (is_running _); [|done].
  destruct (run_outcome _ _ _ _ _) as [outcome|]; [|done].
  apply (grown_op sid); [by apply (finish_run_keeps store_inv)|apply confined_finish].
Qed.

Lemma grown_finish_task k res w :
  grown (tn_store w) (tn_store (finish_task tick_of k res w)).
Proof.
  unfold finish_task. destruct (tn_tasks w !! k) as [task|]; [|done].
  match goal with |- context [end_run ?t ?a ?b ?c ?d ?e] =>
    pose proof (grown_end t a b c d e) as Hg; destruct (end_run t a b c d e) as [s completed] end.
  cbn zeta. cbn in Hg. destruct completed; [|done].
  match goal with |- context [take_follow_up ?a ?b ?v] =>
    destruct (take_follow_up a b v) as [w' [q|]] eqn:Hq end;
    apply take_follow_up_store in Hq; cbn in Hq |- *; by rewrite Hq.
Qed.

Abbreviation step := (turn_step heap policy router_config default_provider_id id_of tick_of
                        steer_rewrite hydrate).
Abbreviation run := (turn_run heap policy router_config default_provider_id id_of tick_of
                       steer_rewrite hydrate).

(** What a loop writes to another session is the progress of a child. *)
Definition reports_only (ev : TurnEvent) : bool :=
  match ev with
  | LoopWorks _ ops =>
      forallb (λ x : Tick * RtOp,
        match x.2 with OpElsewhere _ (PayloadChild _) => true | OpElsewhere _ _ => false | _ => true end) ops
  | _ => true
  end.

Lemma grown_rt_op rt x s :
  (match x.2 with OpElsewhere _ (PayloadChild _) => true | OpElsewhere _ _ => false | _ => true end) = true →
  grown s (run_rt_op rt x s).
Proof.
  intros Hx. destruct x as [t op]. cbn in Hx.
  destruct op as [| | | | | | | | | | | | |sid' p]; cbn [run_rt_op];
    try (eapply (grown_op (ar_session_id rt)); [by eauto using submit_intent_keeps, start_run_keeps,
           submit_and_start_keeps, finish_run_keeps, cancel_keeps, chunk_keeps, final_keeps,
           reasoning_keeps, request_keeps, resolve_keeps, keeps_record
         |first [apply confined_request
                |unfold start_run, submit_intent_and_start_run_with_artifact, start_run, finish_run,
                   rt_cancel, rt_status, finish_run, record_agent_chunk_with_store,
                   record_agent_final, record_agent_reasoning_summary, resolve_approval; confine]]).
  1-3: eapply (grown_op (ar_session_id rt)); [by apply keeps_record|apply confined_record].
  case_bool_decide; [done|]. destruct p; try done.
  eapply (grown_op sid'); [by apply keeps_record|apply confined_record].
Qed.

Lemma grown_step ev w : reports_only ev = true → grown (tn_store w) (tn_store (step ev w)).
Proof.
  intros Hev. destruct ev as [sid text artifact intent|sid|sid|rt ops|k res|k]; cbn.
  - apply growing_prompt.
  - apply growing_cancel.
  - apply growing_resume.
  - revert Hev. cbn. generalize (tn_store w). induction ops as [|x ops IH]; intros s Hok; [done|].
    cbn in *. boolify. etrans; [by apply grown_rt_op|by apply IH].
  - apply grown_finish_task.
  - unfold drain_starts. destruct (tn_drained w !! k) as [[sid queued]|]; [|done].
    match goal with |- context [start_drained_follow_up _ _ _ _ _ _ _ _ _ ?v] =>
      change (tn_store w) with (tn_store v) end.
    apply growing_follow_up.
Qed.

Lemma grown_run evs w :
  forallb reports_only evs = true → grown (tn_store w) (tn_store (run evs w)).
Proof.
  unfold turn_run. revert w. induction evs as [|ev evs IH]; intros w Hok; [done|].
  cbn in *. boolify. etrans; [by apply grown_step|by apply IH].
Qed.

(** C5: Whatever prompts, steers, follow-ups, cancellations and resumptions a session
    gets, in whatever order, between whatever its loops record and however they end,
    over any store that keeps the contract: the runs in its log do not overlap, each
    ends at most once and only while it is the active one, and the run the runtime
    reports as active is the one its rows leave open. *)
Theorem turns_keep_runs_apart sid evs w :
  created store_inv sid (tn_store w) → forallb reports_only evs = true →
  ∃ l active, store_list sid (tn_store (run evs w)) = Ok l ∧
    run_rows None l = Some active ∧ rt_active_run_id sid (tn_store (run evs w)) = Ok active.
Proof.
  intros (e0 & Ho & He0) Hok. destruct (grown_run evs w Hok sid [e0] Ho) as (l & Hl & Hr).
  assert (session_log sid l) as Hlog.
  { exists e0. split_and!; [done|by destruct Ho as (_ & _ & ? & _)|done]. }
  exists l, (proj_active_run_id (project_log sid l)). split_and!.
  - by destruct Hl as (_ & ? & _).
  - by apply session_log_runs.
  - unfold rt_active_run_id. by rewrite (projection_owned store_inv _ _ _ Hl).
Qed.

End turn_laws.

(** ** Cancellation handles *)

Section handles.
Context `{Json} `{FileSystem} `{UrlCrate} `{Codec} `{DisplayStoreError} `{DisplayLoopError} `{UuidText}.
Context {St : Type} `{!EventStore St}.
Context (heap : PolicyHeap) (policy : PolicyEngine) (router_config : ModelRouterConfig).
Context (default_provider_id : string) (id_of : nat → Uuid) (tick_of : nat → Tick).
Context (steer_rewrite : SteerActiveContext → string → result string SteerRewriteOutput).
Context (hydrate : Uuid → St → result string (option SessionModelSelection)).

Abbreviation step := (turn_step heap policy router_config default_provider_id id_of tick_of
                        steer_rewrite hydrate).
Abbreviation run := (turn_run heap policy router_config default_provider_id id_of tick_of
                       steer_rewrite hydrate).


(** Every handle is of a task of its session and run that has not ended, and no two
    tasks share a token. *)
Definition handles_ok (w : TurnState (St := St)) : Prop :=
  (∀ sid run_id token, tn_cancellations w !! sid = Some (run_id, token) →
     ∃ task, task ∈ tn_tasks w ∧ task_session task = sid ∧ task_run task = run_id ∧
             task_token task = token) ∧
  NoDup (task_token <$> tn_tasks w) ∧
  (∀ task, task ∈ tn_tasks w → task_token task < tn_taken w) ∧
  (∀ token, token ∈ tn_cancelled w → token < tn_taken w).

(** Nothing is cancelled on the way, and a new task has a new token. *)
Definition calm_step (w w' : TurnState (St := St)) : Prop :=
  (handles_ok w → handles_ok w') ∧ tn_cancelled w' = tn_cancelled w ∧ tn_taken w ≤ tn_taken w' ∧
  (∀ task, task ∈ tn_tasks w' → task ∈ tn_tasks w ∨ tn_taken w ≤ task_token task).

#[local] Instance calm_turn_preorder : PreOrder calm_step.
Proof.
  split; [intros w; split_and!; auto|].
  intros w1 w2 w3 (Hok1 & Hc1 & Ht1 & Hn1) (Hok2 & Hc2 & Ht2 & Hn2).
  split_and!; [auto|congruence|lia|].
  intros task [Hin|Hle]%Hn2; [auto|right; lia].
Qed.

Definition calm {A} (m : turn (St := St) A) : Prop := ∀ w, calm_step w (m w).1.

Lemma calm_turn_bind {A B} (m : turn A) (f : A → turn B) :
  calm m → (∀ a, calm (f a)) → calm (StateR.bind m f).
Proof.
  intros Hm Hf w. unfold StateR.bind. specialize (Hm w).
  destruct (m w) as [w1 [a|e]]; cbn in *; [by etrans; [|apply Hf]|done].
Qed.

(** What neither launches nor cancels. *)
Lemma calm_step_same (w w' : TurnState (St := St)) :
  tn_cancellations w' = tn_cancellations w → tn_cancelled w' = tn_cancelled w →
  tn_tasks w' = tn_tasks w → tn_taken w ≤ tn_taken w' → calm_step w w'.
Proof.
  intros Hh Hc Ht Hn. split_and!; [|done..|rewrite Ht; auto].
  unfold handles_ok. rewrite Hh, Hc, Ht. intros (? & ? & Hf & Hg). split_and!; [done..| |].
  - intros task Hin. specialize (Hf task Hin). lia.
  - intros token Hin. specialize (Hg token Hin). lia.
Qed.

Lemma calm_turn_still {A} (m : turn A) :
  (∀ w, tn_cancellations (m w).1 = tn_cancellations w ∧ tn_cancelled (m w).1 = tn_cancelled w ∧
        tn_tasks (m w).1 = tn_tasks w ∧ tn_taken w ≤ tn_taken (m w).1) → calm m.
Proof. intros Hm w. destruct (Hm w) as (? & ? & ? & ?). by apply calm_step_same. Qed.

Lemma calm_turn_store {A} (m : rt (St := St) A) : calm (on_store m).
Proof. apply calm_turn_still. intros w. unfold on_store. by destruct (m (tn_store w)). Qed.

Lemma calm_turn_router {A} (m : ri A) : calm (on_router m).
Proof. apply calm_turn_still. intros w. unfold on_router. by destruct (m (tn_router w)). Qed.

Lemma calm_turn_fresh : calm (fresh_id id_of tick_of).
Proof. apply calm_turn_still. intros w. cbn. split_and!; [done..|lia]. Qed.

Lemma calm_turn_launch sid run_id override :
  calm (launch_agent_run router_config default_provider_id tick_of sid run_id override).
Proof.
  intros w. unfold launch_agent_run. destruct (choose_model _ _ _) as [[provider options] message].
  cbn. split_and!; [|done|cbn; lia|cbn].
  2: { intros task [?| ->%list_elem_of_singleton]%elem_of_app; [by left|right; cbn; lia]. }
  intros (Hlive & Hnd & Hf & Hc). split_and!; cbn.
  - intros sid' r token. destruct (decide (sid' = sid)) as [->|Hne].
    + rewrite lookup_insert_eq. intros [= <- <-]. eexists. split; [apply elem_of_app; right; by apply list_elem_of_singleton|done].
    + rewrite lookup_insert_ne by done. intros (task & ? & ?)%Hlive. exists task. set_solver.
  - rewrite fmap_app. apply NoDup_app. split_and!; [done| |apply NoDup_singleton].
    intros token (task & -> & Hin)%list_elem_of_fmap. cbn. rewrite list_elem_of_singleton.
    apply Hf in Hin. lia.
  - intros task [Hin| ->%list_elem_of_singleton]%elem_of_app; [specialize (Hf _ Hin)|cbn]; lia.
  - intros token Hin. specialize (Hc _ Hin). lia.
Qed.

(** The bookkeeping of the requests, whatever the log. *)
Ltac calm_go :=
  repeat first
    [ apply calm_turn_launch | apply calm_turn_fresh | apply calm_turn_store | apply calm_turn_router
    | apply calm_turn_bind; [|intros ?] | case_match
    | apply calm_turn_still; by intros ? ].

Lemma calm_turn_prompt sid text artifact intent :
  calm (prompt_request heap policy router_config default_provider_id id_of tick_of steer_rewrite
          hydrate sid text artifact intent).
Proof. unfold prompt_request, steer_request, submit_synced. calm_go. Qed.

Lemma calm_turn_follow_up sid q :
  calm (start_drained_follow_up heap policy router_config default_provider_id id_of tick_of hydrate sid q).
Proof. unfold start_drained_follow_up. calm_go. Qed.

Lemma calm_turn_resume sid :
  calm (resume_run heap policy router_config default_provider_id tick_of hydrate sid).
Proof. unfold resume_run. calm_go. Qed.

Lemma calm_turn_take sid run_id w w' q : take_follow_up sid run_id w = (w', q) → calm_step w w'.
Proof.
  unfold take_follow_up. destruct (take_follow_up_on_run_terminal _ _ _). intros [= <- _].
  by apply calm_step_same.
Qed.

(** What a cancellation request does after the token was cancelled. *)
Lemma calm_turn_cancel sid w :
  calm_step (cancel_token sid w)
    (cancel_request heap policy router_config default_provider_id id_of tick_of hydrate sid w).1.
Proof.
  unfold cancel_request.
  match goal with |- context [StateR.bind _ ?k w] =>
    change (calm_step (cancel_token sid w) (k tt (cancel_token sid w)).1);
    assert (calm (k tt)) as Hm; [cbv beta|apply Hm] end.
  calm_go. intros v.
  destruct (take_follow_up sid _ v) as [w' [queued|]] eqn:Hq; apply calm_turn_take in Hq; [|done].
  etrans; [done|]. apply calm_turn_follow_up.
Qed.

Lemma cancel_token_ok sid w : handles_ok w → handles_ok (cancel_token sid w).
Proof.
  intros (Hlive & Hnd & Hf & Hc). unfold cancel_token.
  destruct (tn_cancellations w !! sid) as [[r token]|] eqn:Hh; [|done].
  split_and!; [done..|]. cbn. intros token' [->%elem_of_singleton|]%elem_of_union; [|by apply Hc].
  destruct (Hlive _ _ _ Hh) as (task & Hin & _ & _ & <-). by apply Hf.
Qed.

(** A task that ended takes its handle along; the others keep theirs. *)
Lemma finish_task_ok k res w : handles_ok w → handles_ok (finish_task tick_of k res w).
Proof.
  intros (Hlive & Hnd & Hf & Hc). unfold finish_task.
  destruct (tn_tasks w !! k) as [task|] eqn:Hk; [|by split_and!].
  destruct (end_run _ _ _ _ _ _) as [s completed]. cbn zeta.
  match goal with |- context [tn_with_drained _ _] =>
    match goal with |- context [take_follow_up _ _ ?v] => assert (handles_ok v) as Hok end end.
  { assert (∀ x, x ∈ delete k (tn_tasks w) → x ∈ tn_tasks w) as Hsub.
    { intros x [i Hi]%list_elem_of_lookup. rewrite list_elem_of_lookup.
      destruct (decide (i < k)); [rewrite list_lookup_delete_lt in Hi by lia
                                 |rewrite list_lookup_delete_ge in Hi by lia]; eauto. }
    split_and!; cbn.
    - intros sid r token Hh.
      assert (tn_cancellations w !! sid = Some (r, token) ∧
              (sid = task_session task → r ≠ task_run task)) as [Hw Hne].
      { destruct (tn_cancellations w !! task_session task) as [[r' token']|] eqn:Ht;
          [destruct (N.eqb_spec r' (task_run task)) as [->|]|].
        - apply lookup_delete_Some in Hh as [? ?]. split; [done|]. by intros ->.
        - split; [done|]. intros ->. rewrite Ht in Hh. congruence.
        - split; [done|]. intros ->. by rewrite Ht in Hh. }
      destruct (Hlive _ _ _ Hw) as (x & [i Hi]%list_elem_of_lookup & Hs & Hr & Htok).
      exists x. split; [|done]. apply list_elem_of_lookup.
      destruct (decide (i = k)) as [->|Hik]; [naive_solver|].
      destruct (decide (i < k)); [exists i; by rewrite list_lookup_delete_lt
                                 |exists (i - 1); rewrite list_lookup_delete_ge by lia;
                                  by replace (S (i - 1)) with i by lia].
    - rewrite list_fmap_delete. eapply sublist_NoDup; [exact Hnd|apply sublist_delete].
    - intros x Hx. apply Hsub, Hf in Hx. lia.
    - intros token Hx. apply Hc in Hx. lia. }
  destruct completed; [|done].
  match goal with |- context [take_follow_up ?a ?b ?v] =>
    destruct (take_follow_up a b v) as [w' [q|]] eqn:Hq end;
    apply calm_turn_take in Hq; destruct Hq as (Hq & _); by apply Hq in Hok.
Qed.

Lemma step_handles ev w : handles_ok w → handles_ok (step ev w).
Proof.
  intros Hok. destruct ev as [sid text artifact intent|sid|sid|rt ops|k res|k]; cbn.
  - by apply calm_turn_prompt.
  - by apply calm_turn_cancel, cancel_token_ok.
  - by apply calm_turn_resume.
  - done.
  - by apply finish_task_ok.
  - unfold drain_starts. destruct (tn_drained w !! k) as [[sid queued]|]; [|done].
    by apply calm_turn_follow_up.
Qed.

Lemma run_handles evs w : handles_ok w → handles_ok (run evs w).
Proof.
  unfold turn_run. revert w. induction evs as [|ev evs IH]; intros w Hok; [done|].
  by apply IH, step_handles.
Qed.

(** A daemon that has just been started: no task runs. *)
Definition turns_start (s : St) (router : UserIntentRouter) (steer : SteerPendingQueue) : TurnState :=
  mkTurns s router steer ∅ ∅ [] [] 0.

(** C6: After any requests and endings of loops, a cancellation of a session cancels at
    most one token, that of a loop of this session that has not ended; the loops of other
    sessions go on, and so does a run the cancellation itself starts from the queue of
    follow-ups. *)
Theorem cancel_reaches_own_session evs s router steer sid :
  let w := run evs (turns_start s router steer) in
  let w' := step (UserCancels sid) w in
  (tn_cancelled w' = tn_cancelled w ∨
   ∃ task, task ∈ tn_tasks w ∧ task_session task = sid ∧
     tn_cancelled w' = {[task_token task]} ∪ tn_cancelled w ∧
     ∀ other, other ∈ tn_tasks w → task_token other = task_token task → other = task) ∧
  ∀ task, task ∈ tn_tasks w' → task ∈ tn_tasks w ∨ task_token task ∉ tn_cancelled w'.
Proof.
  cbv zeta. set (w := run evs (turns_start s router steer)).
  assert (handles_ok w) as (Hlive & Hnd & Hf & Hc).
  { apply run_handles. split_and!; cbn; [done|apply NoDup_nil_2|set_solver..]. }
  destruct (calm_turn_cancel sid w) as (_ & Hcancelled & Htaken & Hnew). cbn [turn_step].
  rewrite Hcancelled. unfold cancel_token in *.
  destruct (tn_cancellations w !! sid) as [[r token]|] eqn:Hh; cbn in *.
  - destruct (Hlive _ _ _ Hh) as (task & Hin & Hs & Hr & Htok). subst token.
    split.
    + right. exists task. split_and!; [done..|]. intros other Ho Heq.
      apply list_elem_of_lookup in Hin as [i Hi], Ho as [j Hj].
      assert (i = j) as <-; [|congruence].
      eapply NoDup_lookup; [exact Hnd|by rewrite list_lookup_fmap, Hi|].
      by rewrite list_lookup_fmap, Hj; cbn; rewrite Heq.
    + intros x Hx. apply Hnew in Hx as [?|Hle]; [by left|right].
      intros [Heq%elem_of_singleton|Hx]%elem_of_union; [apply Hf in Hin; lia|apply Hc in Hx; lia].
  - split; [by left|]. intros x Hx. apply Hnew in Hx as [?|Hle]; [by left|right].
    intros Hx. apply Hc in Hx. lia.
Qed.
End handles.

(** ** A conversation *)

Section sample.
#[local] Existing Instances sample_fs sample_urls sample_codec sample_json orch_display orch_ids.
#[local] Instance turn_display : DisplayLoopError := λ _, "loop".

Definition sample_prompt := prompt_request (St := MemoryEventStore) sample_heap (seam_policy sample_seam)
  ModelRouterConfig_default "fake" (λ n, N.of_nat (n + 10)) (λ n, (N.of_nat (n + 100), N.of_nat n))
  (λ _ text, Ok (from_fragment text)).
Definition sample_step := turn_step (St := MemoryEventStore) sample_heap (seam_policy sample_seam)
  ModelRouterConfig_default "fake" (λ n, N.of_nat (n + 10)) (λ n, (N.of_nat (n + 100), N.of_nat n))
  (λ _ text, Ok (from_fragment text)) (λ _ _, Ok None).
Definition sample_turns := turn_run (St := MemoryEventStore) sample_heap (seam_policy sample_seam)
  ModelRouterConfig_default "fake" (λ n, N.of_nat (n + 10)) (λ n, (N.of_nat (n + 100), N.of_nat n))
  (λ _ text, Ok (from_fragment text)) (λ _ _, Ok None).

Definition sample_idle : TurnState (St := MemoryEventStore) := turns_start sample_created ∅ ∅.

(** The intents and the run rows of the session. *)
Definition turn_rows (w : TurnState (St := MemoryEventStore)) : list (string + RunEvent) :=
  match store_list 1 (tn_store w) with
  | Ok l => omap (λ e, match event_payload e with
                       | PayloadIntent i => Some (inl (intent_text i))
                       | PayloadRun r => Some (inr r)
                       | _ => None end) l
  | Err _ => []
  end.

Definition sample_talk : list TurnEvent :=
  [UserPrompts 1 "first" None Prompt; UserPrompts 1 "then" None FollowUp;
   LoopWorks sample_runtime [((300, 30)%N, OpFinal 10 "done")];
   LoopEnds 0 (LoopEnded (Ok tt)); DrainStarts 0].

Lemma turns_apart_witness :
  turn_rows (sample_turns sample_talk sample_idle) =
    [inl "first"; inr (RunStarted 10%N); inl "then"; inr (RunCompleted 10%N);
     inl "then"; inr (RunStarted 14%N)] ∧
  ∃ l active, store_list 1%N (tn_store (sample_turns sample_talk sample_idle)) = Ok l ∧
    run_rows None l = Some active ∧
    rt_active_run_id 1 (tn_store (sample_turns sample_talk sample_idle)) = Ok active.
Proof.
  split; [vm_compute; reflexivity|].
  refine (turns_keep_runs_apart store_wf sample_heap (seam_policy sample_seam)
    ModelRouterConfig_default "fake" (λ n, N.of_nat (n + 10)) (λ n, (N.of_nat (n + 100), N.of_nat n))
    (λ _ text, Ok (from_fragment text)) (λ _ _, Ok None) 1 sample_talk sample_idle sample_created_ok _).
  vm_compute. reflexivity.
Defined.

Definition sample_running : MemoryEventStore := tn_store (sample_turns [UserPrompts 1 "first" None Prompt] sample_idle).

Lemma sample_running_log : ∃ l, owns store_wf 1 sample_running l ∧ store_list 1%N sample_running = Ok l.
Proof.
  destruct sample_created_ok as (e0 & Ho & _).
  destruct (grown_run store_wf sample_heap (seam_policy sample_seam)
    ModelRouterConfig_default "fake" (λ n, N.of_nat (n + 10)) (λ n, (N.of_nat (n + 100), N.of_nat n))
    (λ _ text, Ok (from_fragment text)) (λ _ _, Ok None) [UserPrompts 1 "first" None Prompt] sample_idle
    eq_refl 1%N [e0] Ho) as (l & Hl & _).
  exists l. split; [exact Hl|by destruct Hl as (_ & ? & _)].
Qed.

(** The task of the run ends well: one row.  The task of another run leaves the log alone. *)
Lemma run_end_witness :
  ∃ l, store_list 1%N sample_running = Ok l ∧
  ∃ l', store_list 1%N (end_run (200%N, 20%N) 1 99 false (LoopEnded (Ok tt)) sample_running).1 = Ok l' ∧
        l' = l.
Proof.
  destruct sample_running_log as (l & Ho & Hl).
  destruct (run_end_exact store_wf (200%N, 20%N) 1%N 99%N false (LoopEnded (Ok tt)) sample_running l Ho)
    as (l' & Ho' & Hrow & _).
  exists l. split; [exact Hl|]. exists l'. split; [exact (proj1 (proj2 Ho'))|].
  destruct Hrow as [Heq|(e & outcome & _ & _ & _ & Hact & _)]; [exact Heq|].
  exfalso. pose proof (projection_owned store_wf _ _ _ Ho) as Hp.
  assert (rt_active_run_id 1 sample_running = Ok (Some 10%N)) as Hrun by (vm_compute; reflexivity).
  unfold rt_active_run_id in Hrun. rewrite Hp in Hrun. cbn in Hrun. rewrite Hact in Hrun. discriminate Hrun.
Defined.

(** Cancelling the run with the follow-up queued: the token of its loop is cancelled,
    that of the follow-up's is not. *)
Lemma cancel_own_witness :
  let w := sample_turns [UserPrompts 1 "first" None Prompt; UserPrompts 1 "then" None FollowUp] sample_idle in
  let w' := sample_step (UserCancels 1) w in
  (task_token <$> tn_tasks w') = [1; 5] ∧ tn_cancelled w' = {[1]} ∧
  ∃ task, last (tn_tasks w') = Some task ∧
    (task ∈ tn_tasks w ∨ task_token task ∉ tn_cancelled w').
Proof.
  cbv zeta. split; [vm_compute; reflexivity|]. split; [vm_compute; reflexivity|].
  eexists. split; [vm_compute; reflexivity|].
  refine (proj2 (cancel_reaches_own_session sample_heap (seam_policy sample_seam)
    ModelRouterConfig_default "fake" (λ n, N.of_nat (n + 10)) (λ n, (N.of_nat (n + 100), N.of_nat n))
    (λ _ text, Ok (from_fragment text)) (λ _ _, Ok None)
    [UserPrompts 1 "first" None Prompt; UserPrompts 1 "then" None FollowUp] sample_created ∅ ∅ 1) _ _).
  apply list_elem_of_lookup. exists 1. vm_compute. reflexivity.
Defined.

(** A refused session model fails the prompt after its run was started: the run stays
    active without a task, and every later prompt of the session is refused. *)
Example refused_model_strands_run :
  let refused := sample_prompt (λ _ _, Err "provider not configured") 1 "first" None Prompt sample_idle in
  refused.2 = Err (RtDenied "provider not configured") ∧
  rt_active_run_id 1 (tn_store refused.1) = Ok (Some 10%N) ∧ tn_tasks refused.1 = [] ∧
  (sample_prompt (λ _ _, Ok None) 1 "again" None Prompt refused.1).2 = Err (RtActiveRun 10).
Proof. vm_compute. auto. Qed.

(** The follow-up is taken from the queue before the session's lock: a prompt that comes
    first starts its run, and the follow-up is in no queue any more. *)
Example follow_up_dropped :
  let w := sample_turns [UserPrompts 1 "first" None Prompt; UserPrompts 1 "then" None FollowUp;
     LoopEnds 0 (LoopEnded (Ok tt)); UserPrompts 1 "other" None Prompt; DrainStarts 0] sample_idle in
  turn_rows w = [inl "first"; inr (RunStarted 10%N); inl "then"; inr (RunCompleted 10%N);
                 inl "other"; inr (RunStarted 14%N)] ∧
  queue_of 1 (tn_router w) = [] ∧ tn_drained w = [].
Proof. vm_compute. auto. Qed.

(** Two approvals of one run are answered in a row: two loops of the run, of which only
    the second has a handle, so that a cancellation does not reach the first. *)
Example resumed_twice :
  let request id := ((300, 30)%N, OpRequestAction id sample_heap (effect_action sample_write) None) in
  let answer id := ((301, 31)%N, OpResolve (ApprovalResolution_user
    (pending_with_version id (effect_action sample_write)
       "workspace write requires human approval in ASK mode" 3 None) true)) in
  let w := sample_turns [UserPrompts 1 "first" None Prompt;
     LoopWorks sample_runtime [request 60%N; request 61%N]; LoopEnds 0 (LoopEnded (Ok tt));
     LoopWorks sample_runtime [answer 60%N]; ApprovalResumes 1;
     LoopWorks sample_runtime [answer 61%N]; ApprovalResumes 1; UserCancels 1] sample_idle in
  task_run <$> tn_tasks w = [10%N; 10%N] ∧ task_token <$> tn_tasks w = [3; 4] ∧
  tn_cancelled w = {[4]}.
Proof. vm_compute. auto. Qed.

(** The session runs another run than the one whose loop ends late and well: no row, and
    yet the task takes the end for a completion. *)
Example overtaken_run_reported_complete :
  end_run (200%N, 20%N) 1 99 false (LoopEnded (Ok tt)) sample_running = (sample_running, true).
Proof. vm_compute. reflexivity. Qed.
End sample.
