(* ===== verification/PtyRing.v ===== *)
(** * The output of a terminal

    [OutputRing] and its reader, [crates/impetus-core/src/execution/pty.rs]: bytes of
    the terminal enter a ring of bounded capacity, the oldest leave it on overflow and
    are gathered into artifacts, and clients drain what is there. *)

From S2P Require Import Prelude Triple Str Utf8 Action PathScope Events WorkspaceFiles HookPrefilter Artifacts.

Open Scope string_scope.
Open Scope nat_scope.
Open Scope list_scope.
Open Scope impetus_scope.

Definition MAX_PTY_RING_BYTES : nat := 256 * 1024.
Definition PTY_SPILL_COALESCE_BYTES : nat := 16 * 1024.
Definition MAX_PTY_PENDING_SPILLS : nat := 4.
Definition PTY_SPILL_CONTENT_TYPE : string := "application/octet-stream".
Definition DEFAULT_PTY_READ_BYTES : nat := 16 * 1024.

Record OutputRing := mkRing {
  ring_data : list ascii;
  ring_capacity : nat;
  dropped_total : N;
  spill_buffer : list ascii;
  pending_spills : list ArtifactRef;
}.

Definition OutputRing_new (capacity : nat) : OutputRing := mkRing [] capacity 0 [] [].

Definition with_data (data : list ascii) (dropped : N) (r : OutputRing) : OutputRing :=
  mkRing data (ring_capacity r) dropped (spill_buffer r) (pending_spills r).

(** The [for], byte by byte. *)
Fixpoint push_slice (chunk : list ascii) (r : OutputRing) : OutputRing * list ascii :=
  match chunk with
  | [] => (r, [])
  | byte :: chunk' =>
      let '(data, dropped, spilled) :=
        if ring_capacity r <=? length (ring_data r) then
          match ring_data r with
          | old :: data => (data, saturating_add u64_max (dropped_total r) 1, [old])
          | [] => ([], dropped_total r, [])
          end
        else (ring_data r, dropped_total r, []) in
      let '(r', more) := push_slice chunk' (with_data (data ++ [byte]) dropped r) in
      (r', spilled ++ more)
  end.

Definition drop_oldest {A} (bound : nat) (q : list A) : list A := drop (S (length q) - bound) q.

Definition record_spill (artifact : ArtifactRef) (r : OutputRing) : OutputRing :=
  mkRing (ring_data r) (ring_capacity r) (dropped_total r) (spill_buffer r)
    (drop_oldest MAX_PTY_PENDING_SPILLS (pending_spills r) ++ [artifact]).

Definition take_spill (r : OutputRing) : OutputRing * option ArtifactRef :=
  match pending_spills r with
  | [] => (r, None)
  | a :: q => (mkRing (ring_data r) (ring_capacity r) (dropped_total r) (spill_buffer r) q, Some a)
  end.

Definition drain (max : nat) (r : OutputRing) : OutputRing * list ascii :=
  (with_data (drop max (ring_data r)) (dropped_total r) r, take max (ring_data r)).

Section spill.
Context `{Codec} {F : Type} `{!WorkFiles F} `{!FileChanges F}.
(** The root of the artifact store, when one is wired, and its clock. *)
Context (artifacts : option string) (now : N).

Definition spill_overflow_bytes (spilled : list ascii) (w : ArtWorld F)
    : ArtWorld F * option ArtifactRef :=
  match spilled, artifacts with
  | [], _ | _, None => (w, None)
  | _, Some root =>
      let '(w', r) := store_with_content_type root now (String.string_of_list_ascii spilled)
                        (Some PTY_SPILL_CONTENT_TYPE) w in
      (w', match r with Ok a => Some a | Err _ => None end)
  end.

Definition spill_chunk (chunk rest : list ascii) (r : OutputRing) (w : ArtWorld F)
    : OutputRing * ArtWorld F :=
  let r := mkRing (ring_data r) (ring_capacity r) (dropped_total r) rest (pending_spills r) in
  match spill_overflow_bytes chunk w with
  | (w, Some a) => (record_spill a r, w)
  | (w, None) => (r, w)
  end.

Definition spill_threshold (r : OutputRing) : nat :=
  Nat.min PTY_SPILL_COALESCE_BYTES (Nat.max (ring_capacity r) 1).

(** The [loop] without [force]: a batch is at least one byte. *)
Fixpoint coalesce (fuel : nat) (r : OutputRing) (w : ArtWorld F) : OutputRing * ArtWorld F :=
  match fuel with
  | 0 => (r, w)
  | S fuel' =>
      if length (spill_buffer r) <? spill_threshold r then (r, w)
      else
        let '(r, w) := spill_chunk (take (spill_threshold r) (spill_buffer r))
                         (drop (spill_threshold r) (spill_buffer r)) r w in
        coalesce fuel' r w
  end.

Definition note_overflow (spilled : list ascii) (force : bool) (r : OutputRing) (w : ArtWorld F)
    : OutputRing * ArtWorld F :=
  let r := mkRing (ring_data r) (ring_capacity r) (dropped_total r) (spill_buffer r ++ spilled)
             (pending_spills r) in
  match spill_buffer r with
  | [] => (r, w)
  | buffer =>
      if force then spill_chunk buffer [] r w
      else coalesce (length buffer) r w
  end.

(** One read of the reader thread. *)
Definition reader_read (chunk : list ascii) (r : OutputRing) (w : ArtWorld F)
    : OutputRing * ArtWorld F :=
  let '(r, spilled) := push_slice chunk r in note_overflow spilled false r w.

End spill.

(** ** What leaves the ring *)

(** Pushing a slice keeps the newest bytes and gives back the others. *)
Lemma push_slice_eq chunk r :
  length (ring_data r) ≤ ring_capacity r → 1 ≤ ring_capacity r → (dropped_total r ≤ u64_max)%N →
  push_slice chunk r =
    (with_data (drop (length (ring_data r ++ chunk) - ring_capacity r) (ring_data r ++ chunk))
       (saturating_add u64_max (dropped_total r)
          (N.of_nat (length (ring_data r ++ chunk) - ring_capacity r))) r,
     take (length (ring_data r ++ chunk) - ring_capacity r) (ring_data r ++ chunk)).
Proof.
  revert r. induction chunk as [|byte chunk IH]; intros r Hlen Hcap Hd.
  { cbn. rewrite app_nil_r. replace (length (ring_data r) - ring_capacity r) with 0 by lia.
    destruct r. unfold with_data, saturating_add. cbn in *. do 2 f_equal. lia. }
  cbn [push_slice]. destruct (Nat.leb_spec (ring_capacity r) (length (ring_data r))) as [Hfull|Hroom].
  - destruct (ring_data r) as [|old data] eqn:Hdata; [cbn in *; lia|].
    cbn [length] in *.
    rewrite IH; [|cbn; rewrite length_app; cbn; lia|cbn; lia|cbn; unfold saturating_add; lia].
    cbn [with_data ring_data ring_capacity dropped_total].
    set (m := length ((data ++ [byte]) ++ chunk) - ring_capacity r).
    assert (length ((old :: data) ++ byte :: chunk) - ring_capacity r = S m) as ->.
    { subst m. cbn [app length]. rewrite !length_app. cbn. lia. }
    rewrite <-app_assoc. cbn [app drop take]. unfold with_data, saturating_add. cbn. do 2 f_equal. lia.
  - rewrite IH; [|cbn; rewrite length_app; cbn; lia|cbn; lia|done].
    cbn [with_data ring_data ring_capacity dropped_total]. by rewrite <-app_assoc.
Qed.

(** ** The life of a ring *)

Section life.
Context `{Codec} {F : Type} `{!WorkFiles F} `{!FileChanges F} (artifacts : option string).

Definition ref_of (piece : list ascii) : ArtifactRef :=
  mkArtifactRef (compute_sha256 (String.string_of_list_ascii piece))
    (N.of_nat (String.length (String.string_of_list_ascii piece))).

(** The overflow so far: the batches handed to the artifact store, and what waits. *)
Definition batched (dropped : list ascii) (r : OutputRing) : Prop :=
  ∃ pieces, dropped = concat pieces ++ spill_buffer r ∧
    pending_spills r `sublist_of` (ref_of <$> pieces) ∧
    length (pending_spills r) ≤ MAX_PTY_PENDING_SPILLS.

Lemma spill_ref now piece (w w' : ArtWorld F) a :
  spill_overflow_bytes artifacts now piece w = (w', Some a) → a = ref_of piece.
Proof.
  unfold spill_overflow_bytes. destruct piece as [|b piece]; [done|].
  destruct artifacts as [root|]; [|done]. unfold store_with_content_type, StateR.bind, StateR.get, StateR.ret.
  repeat case_match; simplify_eq; by intros [= <- <-].
Qed.

Lemma drop_oldest_sublist {A} n (q : list A) :
  drop_oldest n q `sublist_of` q ∧ (1 ≤ n → length (drop_oldest n q) < n).
Proof.
  unfold drop_oldest. split; [apply sublist_drop|rewrite length_drop; lia].
Qed.

Lemma spill_chunk_batched now chunk rest dropped r (w : ArtWorld F) r' w' :
  batched dropped r → spill_buffer r = chunk ++ rest →
  spill_chunk artifacts now chunk rest r w = (r', w') →
  batched dropped r' ∧ ring_data r' = ring_data r ∧ ring_capacity r' = ring_capacity r ∧
  dropped_total r' = dropped_total r ∧ spill_buffer r' = rest.
Proof.
  intros (pieces & -> & Hsub & Hlen) Hbuf. unfold spill_chunk.
  destruct (spill_overflow_bytes artifacts now chunk w) as [w1 [a|]] eqn:Hs; intros [= <- <-];
    (split; [|done]); exists (pieces ++ [chunk]); cbn [spill_buffer pending_spills record_spill];
    rewrite Hbuf, concat_app, fmap_app; cbn [concat]; rewrite app_nil_r, <-!app_assoc.
  - apply spill_ref in Hs as ->. destruct (drop_oldest_sublist MAX_PTY_PENDING_SPILLS (pending_spills r)) as [Hd Hl].
    specialize (Hl ltac:(unfold MAX_PTY_PENDING_SPILLS; lia)).
    split_and!; [done| |rewrite length_app; cbn [length]; lia].
    apply sublist_app; [by etrans|done].
  - split_and!; [done| |done]. by apply sublist_inserts_r.
Qed.

Lemma spill_threshold_pos r : 1 ≤ spill_threshold r.
Proof. unfold spill_threshold, PTY_SPILL_COALESCE_BYTES. lia. Qed.

Lemma coalesce_batched now fuel dropped r (w : ArtWorld F) r' w' :
  length (spill_buffer r) ≤ fuel → batched dropped r → coalesce artifacts now fuel r w = (r', w') →
  batched dropped r' ∧ ring_data r' = ring_data r ∧ ring_capacity r' = ring_capacity r ∧
  dropped_total r' = dropped_total r ∧ length (spill_buffer r') < spill_threshold r'.
Proof.
  revert r w. induction fuel as [|fuel IH]; intros r w Hf Hb; cbn [coalesce].
  { intros [= <- <-]. pose proof (spill_threshold_pos r). split_and!; [done..|lia]. }
  destruct (Nat.ltb_spec (length (spill_buffer r)) (spill_threshold r)) as [Hlt|Hge].
  { by intros [= <- <-]. }
  destruct (spill_chunk _ _ _ _ _ _) as [r1 w1] eqn:Hc.
  pose proof (spill_threshold_pos r).
  destruct (spill_chunk_batched _ _ _ _ _ _ _ _ Hb (eq_sym (take_drop _ _)) Hc) as (Hb1 & Hd & Hcap & Ht & Hbuf).
  intros Hrun. destruct (IH r1 w1) as (? & Hd' & Hcap' & Ht' & Hlt); [|done|done|].
  { rewrite Hbuf, length_drop. lia. }
  split_and!; [done|congruence|congruence|congruence|done].
Qed.

Lemma note_overflow_batched now spilled force dropped r (w : ArtWorld F) r' w' :
  batched dropped r → note_overflow artifacts now spilled force r w = (r', w') →
  batched (dropped ++ spilled) r' ∧ ring_data r' = ring_data r ∧ ring_capacity r' = ring_capacity r ∧
  dropped_total r' = dropped_total r ∧ length (spill_buffer r') < spill_threshold r'.
Proof.
  intros (pieces & Hd & Hsub & Hlen). unfold note_overflow.
  set (r1 := mkRing _ _ _ (spill_buffer r ++ spilled) _).
  assert (batched (dropped ++ spilled) r1) as Hb.
  { exists pieces. subst r1. cbn. by rewrite Hd, <-app_assoc. }
  destruct (spill_buffer r1) as [|b buffer] eqn:Hbuf.
  { intros [= <- <-]. rewrite Hbuf. split_and!; [done..|apply spill_threshold_pos]. }
  destruct force.
  - intros Hc. destruct (spill_chunk_batched now (b :: buffer) [] _ _ _ _ _ Hb (eq_trans Hbuf (eq_sym (app_nil_r _))) Hc)
      as (? & ? & ? & ? & ->). split_and!; [done..|apply spill_threshold_pos].
  - intros Hc. rewrite <-Hbuf in Hc. destruct (coalesce_batched _ _ _ _ _ _ _ (le_n _) Hb Hc) as (? & ? & ? & ? & ?).
    by split_and!.
Qed.

(** The reader thread reads and ends, clients drain and take overflow references. *)
Inductive RingOp :=
  | RingReads (chunk : list ascii) (now : N)
  | RingDrains (max : nat)
  | RingTakesSpill
  | RingEnds (now : N).

(** One operation, with what it fed and the bytes that left; [true] marks those a
    client received. *)
Definition ring_step (op : RingOp) (x : OutputRing * ArtWorld F)
    : OutputRing * ArtWorld F * list (ascii * bool) :=
  let '(r, w) := x in
  match op with
  | RingReads chunk now =>
      (reader_read artifacts now chunk r w, (λ b, (b, false)) <$> (push_slice chunk r).2)
  | RingDrains max => let '(r', data) := drain max r in (r', w, (λ b, (b, true)) <$> data)
  | RingTakesSpill => ((take_spill r).1, w, [])
  | RingEnds now => (note_overflow artifacts now [] true r w, [])
  end.

Fixpoint ring_run (ops : list RingOp) (x : OutputRing * ArtWorld F)
    : OutputRing * ArtWorld F * list (ascii * bool) :=
  match ops with
  | [] => (x, [])
  | op :: ops' =>
      let '(x1, gone) := ring_step op x in
      let '(x2, more) := ring_run ops' x1 in (x2, gone ++ more)
  end.

Definition fed (ops : list RingOp) : list ascii :=
  mjoin ((λ op, match op with RingReads chunk _ => chunk | _ => [] end) <$> ops).

Definition dropped_bytes (gone : list (ascii * bool)) : list ascii :=
  (List.filter (λ x, negb x.2) gone).*1.

Record ring_ok (capacity : nat) (input : list ascii) (gone : list (ascii * bool)) (r : OutputRing)
    : Prop := {
  ring_order : input = gone.*1 ++ ring_data r;
  ring_bound : length (ring_data r) ≤ capacity ∧ ring_capacity r = capacity;
  ring_count : dropped_total r = N.min (N.of_nat (length (dropped_bytes gone))) u64_max;
  ring_batched : batched (dropped_bytes gone) r;
  ring_waiting : length (spill_buffer r) < spill_threshold r;
}.

Lemma dropped_app l1 l2 : dropped_bytes (l1 ++ l2) = dropped_bytes l1 ++ dropped_bytes l2.
Proof. unfold dropped_bytes. by rewrite List.filter_app, fmap_app. Qed.

Lemma dropped_false (l : list ascii) : dropped_bytes ((λ b, (b, false)) <$> l) = l.
Proof. induction l; cbn; [done|]. f_equal. apply IHl. Qed.

Lemma dropped_true (l : list ascii) : dropped_bytes ((λ b, (b, true)) <$> l) = [].
Proof. induction l; cbn; [done|]. apply IHl. Qed.

Lemma fst_marked (b : bool) l : ((λ x : ascii, (x, b)) <$> l).*1 = l.
Proof. induction l; cbn; [done|]. by f_equal. Qed.

Lemma batched_same dropped r r' :
  batched dropped r → spill_buffer r' = spill_buffer r → pending_spills r' `sublist_of` pending_spills r →
  batched dropped r'.
Proof.
  intros (pieces & Hd & Hs & Hl) Hb Hp. exists pieces. rewrite Hb. split_and!; [done|by etrans|].
  apply sublist_length in Hp. lia.
Qed.

Lemma ring_step_ok capacity input gone op r w r' w' more :
  1 ≤ capacity → ring_ok capacity input gone r → ring_step op (r, w) = (r', w', more) →
  ring_ok capacity (input ++ fed [op]) (gone ++ more) r'.
Proof.
  intros Hcap [Horder [Hlen Hcapr] Hcount Hb Hw]. unfold fed. cbn [fmap list_fmap mjoin list_join].
  rewrite app_nil_r. destruct op as [chunk now|max| |now]; cbn [ring_step].
  - unfold reader_read. assert (dropped_total r ≤ u64_max)%N as Hd by (rewrite Hcount; lia).
    rewrite (push_slice_eq chunk r) by (rewrite ?Hcapr; done || lia). rewrite Hcapr.
    set (all := ring_data r ++ chunk) in *. set (over := length all - capacity).
    cbn [snd]. destruct (note_overflow _ _ _ _ _ _) as [r1 w1] eqn:Hn. intros [= <- <- <-].
    apply (note_overflow_batched now _ _ (dropped_bytes gone)) in Hn
      as (Hb1 & Hdata & Hcap1 & Htot & Hw1); [|by destruct Hb as (p & ? & ? & ?); exists p].
    cbn [with_data ring_data ring_capacity dropped_total] in *.
    split; rewrite ?Hdata, ?Hcap1, ?Htot, ?dropped_app, ?dropped_false, ?fmap_app, ?fst_marked;
      [| |rewrite Hcount; unfold saturating_add| |done].
    + rewrite Horder, <-!app_assoc, take_drop. done.
    + split; [|done]. rewrite length_drop. subst over. lia.
    + rewrite length_app, length_take. subst over. lia.
    + done.
  - unfold drain. intros [= <- <- <-].
    split; cbn [with_data ring_data ring_capacity dropped_total spill_buffer pending_spills];
      rewrite ?dropped_app, ?dropped_true, ?app_nil_r, ?fmap_app, ?fst_marked; try done.
    + by rewrite <-app_assoc, take_drop.
    + rewrite length_drop. lia.
  - intros [= <- <- <-]. rewrite !app_nil_r. unfold take_spill.
    destruct (pending_spills r) as [|a q] eqn:Hq; [by split|].
    split; cbn; try done. eapply batched_same; [done..|]. rewrite Hq. by apply sublist_cons.
  - destruct (note_overflow _ _ _ _ _ _) as [r1 w1] eqn:Hn. intros [= <- <- <-].
    apply (note_overflow_batched now _ _ _ _ _ _ _ Hb) in Hn as (Hb1 & Hdata & Hcap1 & Htot & Hw1).
    rewrite !app_nil_r in *. split; rewrite ?Hdata, ?Hcap1, ?Htot; done.
Qed.

Lemma ring_run_ok capacity ops input gone r w r' w' more :
  1 ≤ capacity → ring_ok capacity input gone r → ring_run ops (r, w) = (r', w', more) →
  ring_ok capacity (input ++ fed ops) (gone ++ more) r'.
Proof.
  revert input gone r w more. induction ops as [|op ops IH]; intros input gone r w more Hcap Hok; cbn [ring_run].
  { intros [= <- <- <-]. unfold fed. cbn. by rewrite !app_nil_r. }
  destruct (ring_step op (r, w)) as [[r1 w1] l1] eqn:Hs.
  destruct (ring_run ops (r1, w1)) as [[r2 w2] l2] eqn:Hr. intros [= <- <- <-].
  pose proof (ring_step_ok _ _ _ _ _ _ _ _ _ Hcap Hok Hs) as Hok1.
  pose proof (IH _ _ _ _ _ Hcap Hok1 Hr) as Hok2. revert Hok2. unfold fed. cbn.
  by rewrite app_nil_r, <-!app_assoc.
Qed.

(** C23: However reads of the terminal, drains by clients and takes of overflow
    references alternate: every byte the terminal gave leaves in order, to a client or
    over the edge, or is among the newest still in the ring, which keeps to its
    capacity; the counter is the number of those that fell over the edge; and these,
    cut into consecutive batches of which the last is still short of its size, are what
    the waiting references stand for, at most four, oldest first. *)
Theorem ring_conserves_output capacity ops w r' w' gone :
  1 ≤ capacity → ring_run ops (OutputRing_new capacity, w) = (r', w', gone) →
  fed ops = gone.*1 ++ ring_data r' ∧ length (ring_data r') ≤ capacity ∧
  dropped_total r' = N.min (N.of_nat (length (dropped_bytes gone))) u64_max ∧
  ∃ pieces, dropped_bytes gone = concat pieces ++ spill_buffer r' ∧
    length (spill_buffer r') < Nat.min PTY_SPILL_COALESCE_BYTES (Nat.max capacity 1) ∧
    pending_spills r' `sublist_of` (ref_of <$> pieces) ∧ length (pending_spills r') ≤ MAX_PTY_PENDING_SPILLS.
Proof.
  intros Hcap Hrun. assert (ring_ok capacity [] [] (OutputRing_new capacity)) as Hstart.
  { split; [done|cbn; lia|done| |apply spill_threshold_pos].
    exists []. split_and!; [done|by cbn|cbn; lia]. }
  destruct (ring_run_ok _ _ _ _ _ _ _ _ _ Hcap Hstart Hrun) as [Ho [Hl Hc] Hn (pieces & Hp & Hs & Hm) Hw].
  cbn [app] in *. split_and!; [done..|]. exists pieces. unfold spill_threshold in Hw.
  rewrite Hc in Hw. by split_and!.
Qed.
End life.

(** ** A small ring *)

Section sample.
#[local] Existing Instance sample_codec.

Definition sample_ring_ops : list RingOp :=
  [RingReads ["a"; "b"; "c"; "d"; "e"]%char 7; RingDrains 1; RingReads ["f"; "g"]%char 8].

(** Of seven bytes through a ring of three, one was received and three fell over the
    edge, which filled one batch of three. *)
Lemma ring_conserves_witness :
  let x := ring_run (Some "/store") sample_ring_ops (OutputRing_new 3, empty_store) in
  x.2 = [("a", false); ("b", false); ("c", true); ("d", false)]%char ∧
  fed sample_ring_ops = x.2.*1 ++ ring_data x.1.1 ∧ length (ring_data x.1.1) ≤ 3 ∧
  dropped_total x.1.1 = 3%N ∧ pending_spills x.1.1 = [ref_of ["a"; "b"; "d"]%char].
Proof.
  cbv zeta. split; [vm_compute; reflexivity|].
  destruct (ring_conserves_output (Some "/store") 3 sample_ring_ops empty_store
    (ring_run (Some "/store") sample_ring_ops (OutputRing_new 3, empty_store)).1.1
    (ring_run (Some "/store") sample_ring_ops (OutputRing_new 3, empty_store)).1.2
    (ring_run (Some "/store") sample_ring_ops (OutputRing_new 3, empty_store)).2
    ltac:(lia) ltac:(by destruct (ring_run _ _ _) as [[]])) as (Ho & Hl & _).
  split; [exact Ho|]. split; [exact Hl|]. split; vm_compute; reflexivity.
Defined.
End sample.
