(* ===== verification/PtyStore.v ===== *)
(** * Durable rows of terminals

    [PtySession] of [crates/impetus-core/src/execution/pty.rs] and the SQLite store of
    [execution/storage.rs]: the encoding of a terminal's state in two text columns and
    the statements on the table.  The JSON of arguments and environment is a class; the
    clock is an argument; opening the database and its migration are left out. *)

From S2P Require Import Prelude Str Action Events Wire.

Open Scope string_scope.
Open Scope nat_scope.
Open Scope list_scope.
Open Scope impetus_scope.

Record PtySession := mkPtySession {
  pty_id : N;
  pty_owner : Uuid;
  pty_command : string;
  pty_args : list string;
  pty_working_dir : string;
  pty_env : list (string * string);
  pty_state : PtySessionState;
  pty_origin : ActionOrigin;
  pty_created : N;
  pty_cols : N;
  pty_rows : N;
}.

Definition PtySession_new (id : N) (owner : Uuid) (command : string) (args : list string)
    (working_dir : string) (origin : ActionOrigin) (now : N) : PtySession :=
  mkPtySession id owner command args working_dir [] PtyStarting origin now 80 24.

Definition with_size (cols rows : N) (s : PtySession) : PtySession :=
  mkPtySession (pty_id s) (pty_owner s) (pty_command s) (pty_args s) (pty_working_dir s) (pty_env s)
    (pty_state s) (pty_origin s) (pty_created s) (N.max cols 1) (N.max rows 1).

Definition with_state (st : PtySessionState) (s : PtySession) : PtySession :=
  mkPtySession (pty_id s) (pty_owner s) (pty_command s) (pty_args s) (pty_working_dir s) (pty_env s)
    st (pty_origin s) (pty_created s) (pty_cols s) (pty_rows s).

Definition pty_is_running (s : PtySession) : bool :=
  match pty_state s with PtyRunning _ | PtyDetached _ => true | _ => false end.

(** A record is a session without its size, with the time of its last change. *)
Record PtySessionRecord := mkPtyRecord {
  rec_id : N;
  rec_owner : Uuid;
  rec_command : string;
  rec_args : list string;
  rec_working_dir : string;
  rec_env : list (string * string);
  rec_state : PtySessionState;
  rec_origin : ActionOrigin;
  rec_created : N;
  rec_updated : N;
}.

Definition record_of_session (now : N) (s : PtySession) : PtySessionRecord :=
  mkPtyRecord (pty_id s) (pty_owner s) (pty_command s) (pty_args s) (pty_working_dir s) (pty_env s)
    (pty_state s) (pty_origin s) (pty_created s) now.

Definition session_of_record (r : PtySessionRecord) : PtySession :=
  mkPtySession (rec_id r) (rec_owner r) (rec_command r) (rec_args r) (rec_working_dir r) (rec_env r)
    (rec_state r) (rec_origin r) (rec_created r) 80 24.

Inductive PtyStoreError :=
  | PseSqlite (what : string)
  | PseNotFound (id : N)
  | PseInvalidState (what : string)
  | PseInvalidOrigin (what : string).

Class PtySessionStore (S : Type) := {
  pss_save (r : PtySessionRecord) : stateR S PtyStoreError ();
  pss_get (id : N) : S → result PtyStoreError (option PtySessionRecord);
  pss_list : S → result PtyStoreError (list PtySessionRecord);
  pss_update_state (now id : N) (st : PtySessionState) : stateR S PtyStoreError ();
  pss_delete (id : N) : stateR S PtyStoreError ();
}.

(** *** The contract of the store *)

(** A terminal saved again keeps what it was saved with first. *)
Definition merged (old new : PtySessionRecord) : PtySessionRecord :=
  mkPtyRecord (rec_id old) (rec_owner new) (rec_command old) (rec_args old) (rec_working_dir old)
    (rec_env old) (rec_state new) (rec_origin old) (rec_created old) (rec_updated new).

Definition moved (now : N) (st : PtySessionState) (r : PtySessionRecord) : PtySessionRecord :=
  mkPtyRecord (rec_id r) (rec_owner r) (rec_command r) (rec_args r) (rec_working_dir r) (rec_env r) st
    (rec_origin r) (rec_created r) now.

Definition u32_max : N := 4294967295.
Definition i64_max : N := 9223372036854775807.
Definition i32_range (c : Z) : Prop := (-2147483648 ≤ c ≤ 2147483647)%Z.

(** The numbers a terminal's state holds are those of a [u32] and an [i32]. *)
Definition state_fits (st : PtySessionState) : Prop :=
  match st with
  | PtyRunning pid | PtyDetached pid => (pid ≤ u32_max)%N
  | PtyExited (Some c) => i32_range c
  | _ => True
  end.

(** A [u64] parameter beyond [i64] is refused. *)
Definition fits_i64 (r : PtySessionRecord) : bool :=
  (rec_id r <=? i64_max)%N && (rec_created r <=? i64_max)%N && (rec_updated r <=? i64_max)%N.

(** The store is an abstract map of records: saving inserts or merges, updates change
    the state, and the list holds every record once. *)
Class PtyStoreLaws (S : Type) `{!PtySessionStore S} (holds : S → gmap N PtySessionRecord → Prop) := {
  holds_save s m r : holds s m → fits_i64 r = true → state_fits (rec_state r) →
    holds (pss_save r s).1
      (<[rec_id r := match m !! rec_id r with Some old => merged old r | None => r end]> m);
  holds_update s m now id st : holds s m → (now ≤ i64_max)%N → state_fits st →
    holds (pss_update_state now id st s).1 (alter (moved now st) id m);
  holds_delete s m id : holds s m → holds (pss_delete id s).1 (delete id m);
  holds_key s m id r : holds s m → m !! id = Some r → rec_id r = id ∧ fits_i64 r = true ∧ state_fits (rec_state r);
  holds_list s m : holds s m → ∃ l, pss_list s = Ok l ∧ NoDup (rec_id <$> l) ∧
    ∀ r, r ∈ l ↔ m !! rec_id r = Some r;
}.

(** ** The SQLite store *)

Class PtyJson := {
  args_to_json : list string → string;
  args_from_json : string → option (list string);
  env_to_json : list (string * string) → string;
  env_from_json : string → option (list (string * string));
}.

Class PtyJsonLaws `{PtyJson} := {
  args_read_back args : args_from_json (args_to_json args) = Some args;
  env_read_back env : env_from_json (env_to_json env) = Some env;
}.

Record PtyRow := mkPtyRow {
  row_id : N;
  row_command : string;
  row_args : string;
  row_working_dir : string;
  row_env : string;
  row_state_type : string;
  row_state_data : option string;
  row_origin : string;
  row_created : N;
  row_updated : N;
  row_owner : string;
}.

(** [str::parse] of a [u32] and of an [i32]. *)
Definition parse_u32 (s : string) : option N :=
  n ← parse_u64 s; if (n <=? u32_max)%N then Some n else None.

Definition parse_i32 (s : string) : option Z :=
  match strip_prefix "-" s with
  | Some digits =>
      if is_empty digits then None
      else n ← parse_digits 0 digits; if (n <=? 2147483648)%N then Some (- Z.of_N n)%Z else None
  | None => n ← parse_u64 s; if (n <=? 2147483647)%N then Some (Z.of_N n) else None
  end.

Definition encode_state (st : PtySessionState) : string * option string :=
  match st with
  | PtyStarting => ("starting", None)
  | PtyRunning pid => ("running", Some (dec pid))
  | PtyDetached pid => ("detached", Some (dec pid))
  | PtyExited exit_code => ("exited", Some (from_option (λ c : Z, pretty c) "" exit_code))
  | PtyFailed reason => ("failed", Some reason)
  end.

Definition decode_state (state_type : string) (state_data : option string)
    : result PtyStoreError PtySessionState :=
  let pid := ok_or (state_data ≫= parse_u32) (PseInvalidState "missing pid") in
  if String.eqb state_type "starting" then Ok PtyStarting
  else if String.eqb state_type "running" then p ← pid; Ok (PtyRunning p)
  else if String.eqb state_type "detached" then p ← pid; Ok (PtyDetached p)
  else if String.eqb state_type "exited" then
    Ok (PtyExited (state_data ≫= λ s, if is_empty s then None else parse_i32 s))
  else if String.eqb state_type "failed" then
    reason ← ok_or state_data (PseInvalidState "missing reason"); Ok (PtyFailed reason)
  else Err (PseInvalidState ("unknown state type: " ++ state_type)).

Definition encode_origin (o : ActionOrigin) : string :=
  match o with User => "user" | Agent => "agent" end.

Definition decode_origin (s : string) : result PtyStoreError ActionOrigin :=
  if String.eqb s "user" then Ok User
  else if String.eqb s "agent" then Ok Agent
  else Err (PseInvalidOrigin ("unknown origin: " ++ s)).

Section sqlite.
Context `{PtyJson} `{UuidText}.

Abbreviation PtyTable := (list PtyRow).

(** The nil id. *)
Definition nil_uuid : Uuid := 0%N.

Definition row_of (r : PtySessionRecord) : PtyRow :=
  let '(state_type, state_data) := encode_state (rec_state r) in
  mkPtyRow (rec_id r) (rec_command r) (args_to_json (rec_args r)) (rec_working_dir r)
    (env_to_json (rec_env r)) state_type state_data (encode_origin (rec_origin r)) (rec_created r)
    (rec_updated r) (uuid_to_string (rec_owner r)).

Definition record_of (row : PtyRow) : result PtyStoreError PtySessionRecord :=
  st ← decode_state (row_state_type row) (row_state_data row);
  origin ← decode_origin (row_origin row);
  Ok (mkPtyRecord (row_id row) (default nil_uuid (uuid_parse_str (row_owner row))) (row_command row)
        (default [] (args_from_json (row_args row))) (row_working_dir row)
        (default [] (env_from_json (row_env row))) st origin (row_created row) (row_updated row)).

(** [ON CONFLICT(id) DO UPDATE] of four columns. *)
Definition overwrite (new old : PtyRow) : PtyRow :=
  mkPtyRow (row_id old) (row_command old) (row_args old) (row_working_dir old) (row_env old)
    (row_state_type new) (row_state_data new) (row_origin old) (row_created old) (row_updated new)
    (row_owner new).

Definition has_pty_row (id : N) (t : PtyTable) : bool := existsb (λ row, (row_id row =? id)%N) t.

Definition on_row (id : N) (f : PtyRow → PtyRow) (t : PtyTable) : PtyTable :=
  (λ row, if (row_id row =? id)%N then f row else row) <$> t.

Definition save_session (r : PtySessionRecord) : stateR PtyTable PtyStoreError () := λ t,
  if negb (fits_i64 r) then (t, Err (PseSqlite "out of range"))
  else if has_pty_row (rec_id r) t then (on_row (rec_id r) (overwrite (row_of r)) t, Ok tt)
  else (t ++ [row_of r], Ok tt).

Definition get_session (id : N) (t : PtyTable) : result PtyStoreError (option PtySessionRecord) :=
  if negb (id <=? i64_max)%N then Err (PseSqlite "out of range")
  else match List.find (λ row, (row_id row =? id)%N) t with
  | None => Ok None
  | Some row => r ← record_of row; Ok (Some r)
  end.

Definition newest_created (a b : PtyRow) : Prop := (row_created b ≤ row_created a)%N.

#[export] Instance newest_created_dec a b : Decision (newest_created a b).
Proof. unfold newest_created. apply _. Defined.

Fixpoint decode_pty_rows (rows : list PtyRow) : result PtyStoreError (list PtySessionRecord) :=
  match rows with
  | [] => Ok []
  | row :: rows' => r ← record_of row; rs ← decode_pty_rows rows'; Ok (r :: rs)
  end.

Definition list_sessions (t : PtyTable) : result PtyStoreError (list PtySessionRecord) :=
  decode_pty_rows (merge_sort newest_created t).

Definition update_state (now id : N) (st : PtySessionState) : stateR PtyTable PtyStoreError () := λ t,
  let '(state_type, state_data) := encode_state st in
  if negb ((now <=? i64_max)%N && (id <=? i64_max)%N) then (t, Err (PseSqlite "out of range"))
  else if has_pty_row id t then
    (on_row id (λ row, mkPtyRow (row_id row) (row_command row) (row_args row) (row_working_dir row)
       (row_env row) state_type state_data (row_origin row) (row_created row) now (row_owner row)) t,
     Ok tt)
  else (t, Err (PseNotFound id)).

Definition delete_session (id : N) : stateR PtyTable PtyStoreError () := λ t,
  if negb (id <=? i64_max)%N then (t, Err (PseSqlite "out of range"))
  else if has_pty_row id t then (List.filter (λ row, negb (row_id row =? id)%N) t, Ok tt)
  else (t, Err (PseNotFound id)).

#[export] Instance sqlite_pty_store : PtySessionStore PtyTable := {|
  pss_save := save_session;
  pss_get := get_session;
  pss_list := list_sessions;
  pss_update_state := update_state;
  pss_delete := delete_session;
|}.
End sqlite.

(** ** A row reads back *)

Lemma parse_u32_dec n : (n ≤ u32_max)%N → parse_u32 (dec n) = Some n.
Proof.
  intros Hn. unfold parse_u32. rewrite parse_u64_dec by (unfold u32_max, u64_max in *; lia).
  cbn. by rewrite (proj2 (N.leb_le _ _)).
Qed.

Lemma parse_digits_dec n : (n ≤ u64_max)%N → parse_digits 0 (dec n) = Some n.
Proof.
  intros Hn. unfold dec, pretty, pretty_N. case_decide as H0; [by subst|]. by rewrite parse_digits_go.
Qed.

Lemma strip_dash_dec n : strip_prefix "-" (dec n) = None.
Proof.
  destruct (strip_prefix "-" (dec n)) as [s|] eqn:Hs; [|done]. exfalso.
  destruct (dec n) as [|a d] eqn:E; [done|]. cbn [strip_prefix] in Hs.
  destruct (Ascii.eqb_spec "-" a) as [<-|]; [|done].
  unfold dec, pretty, pretty_N in E. case_decide; [done|].
  by apply (pretty_N_go_ne_dash n "" d).
Qed.

Lemma parse_i32_pretty c : i32_range c → parse_i32 (pretty c) = Some c.
Proof.
  intros Hc. unfold i32_range in Hc. unfold parse_i32. destruct c as [|p|p].
  - done.
  - change (pretty (Zpos p)) with (dec (Npos p)). rewrite strip_dash_dec, parse_u64_dec by (unfold u64_max; lia).
    cbn. by rewrite (proj2 (N.leb_le _ _)) by lia.
  - change (pretty (Zneg p)) with ("-" ++ dec (Npos p))%string.
    assert (strip_prefix "-" ("-" ++ dec (Npos p))%string = Some (dec (Npos p))) as -> by done.
    unfold is_empty. destruct (String.eqb_spec (dec (Npos p)) "") as [E|_]; [by apply dec_not_empty in E|].
    rewrite parse_digits_dec by (unfold u64_max; lia). cbn. by rewrite (proj2 (N.leb_le _ _)) by lia.
Qed.

Lemma pretty_Z_not_empty (c : Z) : pretty c ≠ "".
Proof. destruct c; [done|apply dec_not_empty|done]. Qed.

Lemma decode_encode_state st :
  state_fits st → decode_state (encode_state st).1 (encode_state st).2 = Ok st.
Proof.
  intros Hst. destruct st as [|pid|pid|[c|]|reason]; cbn in *; try done.
  - by rewrite parse_u32_dec.
  - by rewrite parse_u32_dec.
  - unfold is_empty. destruct (String.eqb_spec (pretty c) "") as [E|_]; [by apply pretty_Z_not_empty in E|].
    by rewrite parse_i32_pretty.
Qed.

Section reads_back.
Context `{PtyJson, !PtyJsonLaws} `{UuidTextLaws}.

Lemma record_of_row_of r : state_fits (rec_state r) → record_of (row_of r) = Ok r.
Proof.
  intros Hst. unfold row_of, record_of. pose proof (decode_encode_state _ Hst) as Hdec.
  destruct (encode_state (rec_state r)) as [state_type state_data]. cbn in *. rewrite Hdec. cbn.
  rewrite uuid_parse_display, args_read_back, env_read_back.
  destruct r as [? ? ? ? ? ? ? [] ? ?]; done.
Qed.

(** *** The table as a map *)

Inductive PtyCmd :=
  | PcSave (r : PtySessionRecord)
  | PcUpdate (now id : N) (st : PtySessionState)
  | PcDelete (id : N).

Definition run_pty_cmd (t : list PtyRow) (c : PtyCmd) : list PtyRow :=
  match c with
  | PcSave r => (save_session r t).1
  | PcUpdate now id st => (update_state now id st t).1
  | PcDelete id => (delete_session id t).1
  end.

Definition spec_pty_cmd (m : gmap N PtySessionRecord) (c : PtyCmd) : gmap N PtySessionRecord :=
  match c with
  | PcSave r =>
      if negb (fits_i64 r) then m
      else <[rec_id r := match m !! rec_id r with Some old => merged old r | None => r end]> m
  | PcUpdate now id st => if (now <=? i64_max)%N then alter (moved now st) id m else m
  | PcDelete id => delete id m
  end.

Definition cmd_fits (c : PtyCmd) : Prop :=
  match c with PcSave r => state_fits (rec_state r) | PcUpdate _ _ st => state_fits st | PcDelete _ => True end.

(** The table holds the rows of these records, which make up the map. *)
Definition table_of (t : list PtyRow) (m : gmap N PtySessionRecord) : Prop :=
  ∃ rs, t = row_of <$> rs ∧ NoDup (rec_id <$> rs) ∧
    (∀ r, r ∈ rs ↔ m !! rec_id r = Some r) ∧ (∀ id r, m !! id = Some r → rec_id r = id) ∧
    (∀ r, r ∈ rs → fits_i64 r = true ∧ state_fits (rec_state r)).

Lemma table_of_empty : table_of [] ∅.
Proof.
  exists []. split_and!; [done|apply NoDup_nil_2|intros r; rewrite lookup_empty; set_solver|done|set_solver].
Qed.

Lemma row_id_of r : row_id (row_of r) = rec_id r.
Proof. unfold row_of. by destruct (encode_state _). Qed.

Lemma overwrite_rows old new : overwrite (row_of new) (row_of old) = row_of (merged old new).
Proof. unfold row_of. cbn. by destruct (encode_state (rec_state new)), (encode_state (rec_state old)). Qed.

Lemma has_pty_row_map t m id : table_of t m → has_pty_row id t = bool_decide (is_Some (m !! id)).
Proof.
  intros (rs & -> & Hnd & Hm & Hid & _). unfold has_pty_row. apply eq_true_iff_eq.
  rewrite existsb_exists, bool_decide_eq_true. split.
  - intros (row & (r & <- & Hr)%in_map_iff & Heq%N.eqb_eq). rewrite row_id_of in Heq. subst id.
    apply list_elem_of_In in Hr. apply Hm in Hr. by eexists.
  - intros [r Hr]. exists (row_of r). pose proof (Hid _ _ Hr) as <-. apply Hm in Hr.
    split; [apply in_map_iff; exists r; split; [done|by apply list_elem_of_In]|].
    rewrite row_id_of. apply N.eqb_refl.
Qed.

Lemma out_of_range_none t m id : table_of t m → (i64_max < id)%N → m !! id = None.
Proof.
  intros (rs & -> & _ & Hm & Hid & Hst) Hlt. destruct (m !! id) as [r|] eqn:Hr; [|done]. exfalso.
  pose proof (Hid _ _ Hr) as <-. apply Hm in Hr. destruct (Hst _ Hr) as [Hfit _].
  unfold fits_i64 in Hfit. rewrite !andb_true_iff, !N.leb_le in Hfit. lia.
Qed.

(** Changing the row of one id changes the record of that id. *)
Lemma on_row_map (f : PtyRow → PtyRow) (g : PtySessionRecord → PtySessionRecord) t m id :
  (∀ r, f (row_of r) = row_of (g r)) → (∀ r, rec_id (g r) = rec_id r) →
  (∀ r, fits_i64 r = true → fits_i64 (g r) = true ∧ state_fits (rec_state (g r))) → table_of t m → table_of (on_row id f t) (alter g id m).
Proof.
  intros Hf Hg Hfit (rs & -> & Hnd & Hm & Hid & Hst).
  pose (h r := if (rec_id r =? id)%N then g r else r).
  assert (∀ r, rec_id (h r) = rec_id r) as Hh by (intros r; unfold h; by destruct (_ =? _)%N).
  exists (h <$> rs). split_and!.
  - unfold on_row. rewrite <-!list_fmap_compose. apply list_fmap_ext. intros i r _. cbn. unfold h.
    rewrite row_id_of. by destruct (_ =? _)%N.
  - rewrite <-list_fmap_compose. erewrite list_fmap_ext; [exact Hnd|]. intros i r _. apply Hh.
  - intros r. rewrite list_elem_of_fmap. split.
    + intros (r0 & -> & Hr0). rewrite Hh. apply Hm in Hr0. unfold h.
      destruct (N.eqb_spec (rec_id r0) id) as [<-|Hne]; [by rewrite lookup_alter_eq, Hr0|].
      by rewrite lookup_alter_ne.
    + intros Hr. apply lookup_alter_Some in Hr as [(Heq & r0 & Hr0 & ->)|[Hne Hr]].
      * exists r0. pose proof (Hid _ _ Hr0) as Hid0. unfold h.
        rewrite (proj2 (N.eqb_eq _ _)) by congruence. split; [done|]. apply Hm. congruence.
      * exists r. unfold h. rewrite (proj2 (N.eqb_neq _ _)) by congruence. split; [done|by apply Hm].
  - intros id' r Hr. apply lookup_alter_Some in Hr as [(<- & r0 & Hr0 & ->)|[Hne Hr]]; [|by apply Hid].
    rewrite Hg. by apply Hid.
  - intros r (r0 & -> & Hr0)%list_elem_of_fmap. unfold h. destruct (_ =? _)%N; [by apply Hfit, Hst|by apply Hst].
Qed.

Lemma alter_const (m : gmap N PtySessionRecord) id r new :
  m !! id = Some r → <[id := merged r new]> m = alter (λ old, merged old new) id m.
Proof.
  intros Hr. apply map_eq. intros id'. destruct (decide (id' = id)) as [->|Hne].
  - by rewrite lookup_insert_eq, lookup_alter_eq, Hr.
  - by rewrite lookup_insert_ne, lookup_alter_ne.
Qed.

Lemma table_insert t m r :
  table_of t m → m !! rec_id r = None → fits_i64 r = true → state_fits (rec_state r) →
  table_of (t ++ [row_of r]) (<[rec_id r := r]> m).
Proof.
  intros (rs & -> & Hnd & Hm & Hid & Hst) Hfresh Hi64 Hfit. exists (rs ++ [r]). split_and!.
  - by rewrite fmap_app.
  - rewrite fmap_app. apply NoDup_app. split_and!; [done| |apply NoDup_singleton].
    intros id (r0 & -> & Hr0)%list_elem_of_fmap. apply Hm in Hr0.
    cbn. rewrite list_elem_of_singleton. congruence.
  - intros r0. rewrite elem_of_app, list_elem_of_singleton, lookup_insert_Some, Hm. split.
    + intros [Hr0| ->]; [right; split; [congruence|done]|by left].
    + intros [[_ ->]|[_ Hr0]]; auto.
  - intros id r0 [[<- ->]|[_ Hr0]]%lookup_insert_Some; [done|by apply Hid].
  - intros r0 [Hr0| ->%list_elem_of_singleton]%elem_of_app; [by apply Hst|done].
Qed.

Lemma table_delete t m id :
  table_of t m → table_of (List.filter (λ row, negb (row_id row =? id)%N) t) (delete id m).
Proof.
  intros (rs & -> & Hnd & Hm & Hid & Hst). pose (p r := negb (rec_id r =? id)%N).
  assert (∀ r, r ∈ List.filter p rs ↔ rec_id r ≠ id ∧ r ∈ rs) as Hin.
  { intros r. rewrite !list_elem_of_In, List.filter_In. unfold p.
    rewrite negb_true_iff, N.eqb_neq. tauto. }
  exists (List.filter p rs). split_and!.
  - clear Hnd Hm Hst Hin. induction rs as [|r rs IH]; [done|]. cbn. rewrite row_id_of. unfold p at 1.
    destruct (_ =? _)%N; cbn; [done|]. by f_equal.
  - clear Hm Hst Hin. induction rs as [|r rs IH]; [done|]. cbn in *. apply NoDup_cons in Hnd as [Hno Hnd].
    destruct (p r); [|by apply IH]. cbn. apply NoDup_cons. split; [|by apply IH].
    intros (r0 & Heq & Hr0)%list_elem_of_fmap. apply Hno. apply list_elem_of_fmap. exists r0.
    split; [done|]. rewrite list_elem_of_In in Hr0 |- *. by apply List.filter_In in Hr0 as [? _].
  - intros r. rewrite Hin, lookup_delete_Some, Hm. naive_solver.
  - intros id' r [_ Hr]%lookup_delete_Some. by apply Hid.
  - intros r [_ Hr]%Hin. by apply Hst.
Qed.

Lemma run_pty_cmd_map t m c : table_of t m → cmd_fits c → table_of (run_pty_cmd t c) (spec_pty_cmd m c).
Proof.
  intros Ht Hc. destruct c as [r|now id st|id]; cbn in *.
  - unfold save_session. destruct (negb (fits_i64 r)) eqn:Hfit; [done|]. apply negb_false_iff in Hfit.
    rewrite (has_pty_row_map _ _ _ Ht). case_bool_decide as Hr; cbn.
    + destruct Hr as [old Hold]. rewrite Hold, (alter_const _ _ _ _ Hold).
      apply on_row_map; [|done| |done]; [intros r0; apply overwrite_rows|].
      intros old' Hold'. split; [|done]. unfold fits_i64 in *. cbn.
      rewrite !andb_true_iff in *. tauto.
    + destruct (m !! rec_id r) eqn:Hr0; [by destruct Hr|]. by apply table_insert.
  - unfold update_state. destruct (encode_state st) as [ty data] eqn:Henc.
    destruct (now <=? i64_max)%N eqn:Hnow; [|done].
    assert (¬ is_Some (m !! id) → alter (moved now st) id m = m) as Hsame.
    { intros Hno. apply map_eq. intros id'. destruct (decide (id' = id)) as [->|Hne]; [|by rewrite lookup_alter_ne].
      rewrite lookup_alter_eq. destruct (m !! id) eqn:E; [by destruct Hno|done]. }
    destruct (N.leb_spec id i64_max) as [Hle|Hlt]; cbn.
    + rewrite (has_pty_row_map _ _ _ Ht). case_bool_decide as Hr; cbn; [|by rewrite Hsame].
      apply (on_row_map _ (moved now st)); [|done| |done].
      * intros r. unfold row_of. cbn. rewrite Henc. by destruct (encode_state (rec_state r)).
      * intros r Hr0. split; [|done]. unfold fits_i64 in *. cbn. rewrite Hnow.
        rewrite !andb_true_iff in *. tauto.
    + rewrite Hsame; [done|]. rewrite (out_of_range_none _ _ _ Ht Hlt). by intros [].
  - unfold delete_session. destruct (N.leb_spec id i64_max) as [Hle|Hlt]; cbn.
    + rewrite (has_pty_row_map _ _ _ Ht). case_bool_decide as Hr; cbn; [by apply table_delete|].
      rewrite delete_id; [done|]. destruct (m !! id) eqn:E; [by destruct Hr|done].
    + rewrite delete_id; [done|by apply (out_of_range_none t)].
Qed.

Lemma get_session_map t m id : table_of t m → (id ≤ i64_max)%N → get_session id t = Ok (m !! id).
Proof.
  intros (rs & -> & Hnd & Hm & Hid & Hst) Hle. unfold get_session.
  rewrite (proj2 (N.leb_le _ _) Hle). cbn [negb].
  destruct (List.find _ _) as [row|] eqn:Hf.
  - apply find_some in Hf as [Hrow Hrid%N.eqb_eq].
    apply in_map_iff in Hrow as (r & <- & Hr). apply list_elem_of_In in Hr.
    rewrite row_id_of in Hrid. rewrite record_of_row_of by (by apply Hst). cbn.
    apply Hm in Hr. by rewrite Hrid in Hr; rewrite Hr.
  - destruct (m !! id) as [r|] eqn:Hr; [|done]. exfalso. pose proof (Hid _ _ Hr) as Hrid.
    rewrite <-Hrid in Hr. apply Hm in Hr.
    assert ((row_id (row_of r) =? id)%N = false) as Hno.
    { apply (find_none _ _ Hf), in_map_iff. exists r. split; [done|by apply list_elem_of_In]. }
    by rewrite row_id_of, Hrid, N.eqb_refl in Hno.
Qed.

Lemma list_sessions_map t m :
  table_of t m → ∃ l, list_sessions t = Ok l ∧ NoDup (rec_id <$> l) ∧
    ∀ r, r ∈ l ↔ m !! rec_id r = Some r.
Proof.
  intros (rs & -> & Hnd & Hm & Hid & Hst). unfold list_sessions.
  pose proof (merge_sort_Permutation newest_created (row_of <$> rs)) as Hperm.
  apply Permutation_map_inv in Hperm as (rs' & Hrs' & Hperm). rewrite Hrs'.
  assert (∀ r, r ∈ rs' ↔ r ∈ rs) as Hin by (intros r; by rewrite Hperm).
  exists rs'. split_and!.
  - assert (∀ r, r ∈ rs' → state_fits (rec_state r)) as Hfit by (intros r Hr%Hin; by apply Hst).
    clear - Hfit H0 H2. induction rs' as [|r rs' IH]; [done|]. cbn.
    rewrite record_of_row_of by (apply Hfit; set_solver). cbn.
    by rewrite IH by (intros; apply Hfit; set_solver).
  - by rewrite <-Hperm.
  - intros r. by rewrite Hin.
Qed.

(** The SQLite store keeps the contract. *)
#[export] Instance sqlite_pty_laws : PtyStoreLaws (list PtyRow) table_of.
Proof.
  split.
  - intros t m r Ht Hfits Hst. pose proof (run_pty_cmd_map t m (PcSave r) Ht Hst) as Hm.
    cbn in Hm. by rewrite Hfits in Hm.
  - intros t m now id st Ht Hnow Hst. pose proof (run_pty_cmd_map t m (PcUpdate now id st) Ht Hst) as Hm.
    cbn in Hm. by rewrite (proj2 (N.leb_le _ _) Hnow) in Hm.
  - intros t m id Ht. by apply (run_pty_cmd_map t m (PcDelete id)).
  - intros t m id r (rs & _ & _ & Hm & Hid & Hst) Hr. pose proof (Hid _ _ Hr) as Hrid.
    split; [done|]. apply Hst, Hm. by rewrite Hrid.
  - apply list_sessions_map.
Qed.

(** Whatever is saved, moved to another state or deleted, in whatever order, the
    table reads back as the abstract map of terminals: by id and as a list, each terminal
    once, with the command, arguments, directory, environment and origin it was first
    saved with and the owner and state it was given last. *)
Theorem pty_table_refines_map cmds :
  Forall cmd_fits cmds →
  let t := foldl run_pty_cmd [] cmds in
  let m := foldl spec_pty_cmd ∅ cmds in
  (∀ id, (id ≤ i64_max)%N → get_session id t = Ok (m !! id)) ∧
  ∃ l, list_sessions t = Ok l ∧ NoDup (rec_id <$> l) ∧ ∀ r, r ∈ l ↔ m !! rec_id r = Some r.
Proof.
  intros Hfit. cbv zeta.
  assert (table_of (foldl run_pty_cmd [] cmds) (foldl spec_pty_cmd ∅ cmds)) as Ht.
  { pose proof table_of_empty as H0'. revert H0' Hfit. generalize (@nil PtyRow) as t, (∅ : gmap N PtySessionRecord) as m.
    induction cmds as [|c cmds IH]; intros t m Ht Hfit; [done|].
    apply Forall_cons in Hfit as [Hc Hfit]. cbn. apply IH; [by apply run_pty_cmd_map|done]. }
  split; [intros id Hle; by apply get_session_map|by apply list_sessions_map].
Qed.
End reads_back.

(** ** A small table *)

Section sample.
#[local] Instance bits_uuid : UuidText := {|
  uuid_to_string u := bits_of_pos (encode u);
  uuid_parse_str s := decode (pos_of_bits s);
|}.
#[local] Instance bits_uuid_laws : UuidTextLaws.
Proof. split. intros u. cbn. by rewrite pos_of_bits_of_pos, decode_encode. Qed.

#[local] Instance bits_pty_json : PtyJson := {|
  args_to_json args := bits_of_pos (encode args);
  args_from_json s := decode (pos_of_bits s);
  env_to_json env := bits_of_pos (encode env);
  env_from_json s := decode (pos_of_bits s);
|}.
#[local] Instance bits_pty_laws : PtyJsonLaws.
Proof. split; intros x; cbn; by rewrite pos_of_bits_of_pos, decode_encode. Qed.

Definition sample_terminal (id : N) (st : PtySessionState) : PtySessionRecord :=
  mkPtyRecord id 7 "sh" ["-c"; "ls"] "/ws" [("TERM", "dumb")] st User 100 100.

Definition sample_pty_cmds : list PtyCmd :=
  [PcSave (sample_terminal 1 PtyStarting); PcSave (sample_terminal 2 (PtyRunning 41));
   PcUpdate 120 1 (PtyRunning 40); PcUpdate 130 2 (PtyExited (Some (-1)%Z)); PcDelete 1].

Lemma pty_table_witness :
  let t := foldl run_pty_cmd [] sample_pty_cmds in
  get_session 1 t = Ok None ∧
  get_session 2 t = Ok (Some (moved 130 (PtyExited (Some (-1)%Z)) (sample_terminal 2 (PtyRunning 41)))).
Proof.
  cbv zeta. destruct (pty_table_refines_map sample_pty_cmds) as [Hget _].
  { repeat constructor; vm_compute; discriminate. }
  split; [apply (Hget 1%N)|apply (Hget 2%N)]; vm_compute; discriminate.
Defined.

(** One row that cannot be read hides all the others. *)
Example one_bad_row_hides_all :
  let bad := mkPtyRow 1 "sh" "" "/ws" "" "running" (Some "x") "user" 100 100 "" in
  list_sessions [bad; row_of (sample_terminal 2 PtyStarting)] = Err (PseInvalidState "missing pid").
Proof. vm_compute. reflexivity. Qed.
End sample.
