(* ===== verification/Pty.v ===== *)
(** * Terminals

    [PtySessionManager] of [crates/impetus-core/src/execution/pty.rs] and the terminal
    requests of [harness_api.rs]: terminals owned by sessions, spawned past the seam (an
    agent's under the effect fence), attached to, read, written and ended, with a row of
    each in a durable store.  The operating system's terminals are a class; each has a
    reader, whose reads and end are steps of their own.  The sandboxed command line of an
    agent's terminal is an argument, absent on other systems than macOS. *)

From S2P Require Import Prelude Triple Str Utf8 Action PathScope WebSecurity Policy Effect RiskGate Events EventStore Budget.
From S2P Require Import EffectFence Effects Completion Projection AgentRuntime RuntimeLog WorkspaceFiles HookPrefilter Artifacts ToolSchema Provider ToolOrchestrator.
From S2P Require Import Uploads Wire Ipc Harness PtyRing PtyStore.

Open Scope string_scope.
Open Scope nat_scope.
Open Scope list_scope.
Open Scope impetus_scope.

(** [pty_argv_is_non_login] *)
Definition pty_argv_is_non_login (args : list string) : bool :=
  negb (existsb (λ a, String.eqb a "-l" || String.eqb a "--login") args).

Inductive PtySessionError :=
  | PtyPolicyDenied (reason : string)
  | PtyApprovalRequired
  | PtySessionNotFound (id : N)
  | PtyNotOwner (id : N)
  | PtyAlreadyRunning (id : N)
  | PtyNotLive (id : N)
  | PtyUnsafeWorkingDir (what : string)
  | PtySandboxDenied (what : string)
  | PtySpawnFailed (what : string)
  | PtyIo (what : string)
  | PtyStorage (what : string).

Definition id_debug (id : N) : string := ("PtySessionId(" ++ dec id ++ ")")%string.

Definition pty_error_text (e : PtySessionError) : string :=
  match e with
  | PtyPolicyDenied reason => "policy denied PTY session: " ++ reason
  | PtyApprovalRequired => "approval required but not granted"
  | PtySessionNotFound id => "session not found: " ++ id_debug id
  | PtyNotOwner id => "pty " ++ id_debug id ++ " is owned by another session"
  | PtyAlreadyRunning id => "session already running: " ++ id_debug id
  | PtyNotLive id => "session not live (detached metadata only): " ++ id_debug id
  | PtyUnsafeWorkingDir what => "PTY working_dir escapes workspace: " ++ what
  | PtySandboxDenied what => "PTY sandbox denied: " ++ what
  | PtySpawnFailed what => "PTY spawn failed: " ++ what
  | PtyIo what => "io error: " ++ what
  | PtyStorage what => "storage error: " ++ what
  end%string.

(** ** The operating system's terminals *)

Record PtyCommand := mkPtyCommand {
  pc_program : string;
  pc_args : list string;
  pc_cwd : string;
  (** Set in this order over the daemon's own environment. *)
  pc_env : list (string * string);
}.

Record ExitStatus := mkExitStatus { exit_success : bool; exit_code_u32 : N }.

(** [openpty] gives a handle for a size; [spawn_command] on it, with the reader, its
    thread and the writer, gives the process id; dropping it; [try_wait], [kill] with
    [wait], [write_all] with [flush], [resize]. *)
Class PtySystem (O : Type) := {
  pty_openpty : N → N → stateR O string nat;
  pty_spawn_command : nat → PtyCommand → stateR O string (option N);
  pty_close : nat → O → O;
  pty_try_wait : nat → O → option ExitStatus;
  pty_kill : nat → O → O;
  pty_write : nat → string → stateR O string ();
  pty_resize : nat → N → N → stateR O string ();
}.

(** [as i32] of the exit code; success is 0. *)
Definition exit_code_of (s : ExitStatus) : Z :=
  if exit_success s then 0%Z
  else if (exit_code_u32 s <=? 2147483647)%N then Z.of_N (exit_code_u32 s)
  else (Z.of_N (exit_code_u32 s) - 4294967296)%Z.

Record LivePty := mkLive {
  lp_handle : nat;
  lp_ring : OutputRing;
  lp_eof : bool;
}.

Definition pty_capacity (ring_size : nat) : nat := Nat.min (Nat.max ring_size 1) MAX_PTY_RING_BYTES.

Definition with_ring (r : OutputRing) (l : LivePty) : LivePty := mkLive (lp_handle l) r (lp_eof l).

Section manager.
Context `{Json} `{FileSystem} `{UrlCrate} `{Codec} `{DisplayStoreError} `{UuidText} `{Base64}.
Context {St : Type} `{!EventStore St} {F : Type} `{!WorkFiles F} `{!FileChanges F}.
Context {S : Type} `{!PtySessionStore S} {O : Type} `{!PtySystem O}.
Context (heap : PolicyHeap) (seam : EffectSeam) (fenced stored : bool) (artifacts : option string).
Context (ring_size : nat).
(** [prepare_pty_sandbox], with the error it gives; [None] on other systems. *)
Context (sandbox : option (string → list string → string → string → list (string * string) →
                             result string PtyCommand)).

Record PtyWorld := mkPtyWorld {
  pw_os : O;
  pw_art : ArtWorld F;
  pw_events : St;
  pw_rows : S;
  pw_sessions : gmap N PtySession;
  pw_live : gmap N LivePty;
  pw_next_id : N;
}.

Definition pty (A : Type) : Type := stateR PtyWorld PtySessionError A.

(** The clock, what a fenced spawn is supplied with, and the order in which the map of
    sessions is gone through. *)
Record PtyEnv := mkPtyEnv {
  pe_now : N;
  pe_fresh : Uuid;
  pe_order : FenceMap → list EffectFenceRecord;
  pe_effect_id : Uuid;
  pe_tick : nat → Tick;
  pe_sessions : gmap N PtySession → list (N * PtySession);
}.

Definition pw_with_os (os : O) (w : PtyWorld) : PtyWorld :=
  mkPtyWorld os (pw_art w) (pw_events w) (pw_rows w) (pw_sessions w) (pw_live w) (pw_next_id w).
Definition pw_with_art (art : ArtWorld F) (w : PtyWorld) : PtyWorld :=
  mkPtyWorld (pw_os w) art (pw_events w) (pw_rows w) (pw_sessions w) (pw_live w) (pw_next_id w).
Definition pw_with_events (s : St) (w : PtyWorld) : PtyWorld :=
  mkPtyWorld (pw_os w) (pw_art w) s (pw_rows w) (pw_sessions w) (pw_live w) (pw_next_id w).
Definition pw_with_rows (rows : S) (w : PtyWorld) : PtyWorld :=
  mkPtyWorld (pw_os w) (pw_art w) (pw_events w) rows (pw_sessions w) (pw_live w) (pw_next_id w).
Definition pw_with_sessions (m : gmap N PtySession) (w : PtyWorld) : PtyWorld :=
  mkPtyWorld (pw_os w) (pw_art w) (pw_events w) (pw_rows w) m (pw_live w) (pw_next_id w).
Definition pw_with_live (m : gmap N LivePty) (w : PtyWorld) : PtyWorld :=
  mkPtyWorld (pw_os w) (pw_art w) (pw_events w) (pw_rows w) (pw_sessions w) m (pw_next_id w).

(** *** Durable rows; their errors are dropped *)

Definition persist (env : PtyEnv) (s : PtySession) (w : PtyWorld) : PtyWorld :=
  if stored then pw_with_rows (pss_save (record_of_session (pe_now env) s) (pw_rows w)).1 w else w.

Definition pty_set_state (env : PtyEnv) (id : N) (st : PtySessionState) (w : PtyWorld) : PtyWorld :=
  match pw_sessions w !! id with
  | None => w
  | Some s =>
      let s := with_state st s in
      let w := persist env s (pw_with_sessions (<[id := s]> (pw_sessions w)) w) in
      if stored then pw_with_rows (pss_update_state (pe_now env) id st (pw_rows w)).1 w else w
  end.

(** [reader.join()]: the reader ends, which spills what waits to be coalesced. *)
Definition join_reader (env : PtyEnv) (l : LivePty) (w : PtyWorld) : PtyWorld :=
  pw_with_art (note_overflow artifacts (pe_now env) [] true (lp_ring l) (pw_art w)).2 w.

Definition refresh_exit (env : PtyEnv) (id : N) (w : PtyWorld) : PtyWorld :=
  match pw_live w !! id with
  | None => w
  | Some l =>
      match pty_try_wait (lp_handle l) (pw_os w) with
      | None => w
      | Some status =>
          pty_set_state env id (PtyExited (Some (exit_code_of status)))
            (join_reader env l (pw_with_live (delete id (pw_live w)) w))
      end
  end.

(** *** Spawning *)

Definition eq_ignore_ascii_case (a b : string) : bool :=
  String.eqb (to_ascii_lowercase a) (to_ascii_lowercase b).

Definition term_weak (env : list (string * string)) : bool :=
  match List.find (λ kv, String.eqb kv.1 "TERM") env with
  | None => true
  | Some (_, v) =>
      let s := trim v in
      is_empty s || eq_ignore_ascii_case s "dumb" || eq_ignore_ascii_case s "unknown"
  end.

Definition build_pty_command (command : string) (args : list string) (working_dir : string)
    (env : list (string * string)) (origin : ActionOrigin) (workspace_root : string)
    : result PtySessionError PtyCommand :=
  match origin with
  | User =>
      Ok (mkPtyCommand command args working_dir
            (env ++ (if term_weak env then [("TERM", "xterm-256color")] else [])
                 ++ (if existsb (λ kv, String.eqb kv.1 "COLORTERM") env then []
                     else [("COLORTERM", "truecolor")])))
  | Agent =>
      match sandbox with
      | Some prepare => map_err PtySandboxDenied (prepare command args workspace_root working_dir env)
      | None => Err (PtySandboxDenied "agent PTY requires macOS Seatbelt; fail-closed on this platform")
      end
  end.

Definition open_live_pty (s : PtySession) : pty (LivePty * option N) := λ w,
  match pty_openpty (N.max (pty_cols s) 1) (N.max (pty_rows s) 1) (pw_os w) with
  | (os, Err what) => (pw_with_os os w, Err (PtySpawnFailed what))
  | (os, Ok handle) =>
      match build_pty_command (pty_command s) (pty_args s) (pty_working_dir s) (pty_env s) (pty_origin s)
              (pty_working_dir s) with
      | Err error => (pw_with_os (pty_close handle os) w, Err error)
      | Ok cmd =>
          match pty_spawn_command handle cmd os with
          | (os, Ok pid) =>
              (pw_with_os os w, Ok (mkLive handle (OutputRing_new (pty_capacity ring_size)) false, pid))
          | (os, Err what) => (pw_with_os (pty_close handle os) w, Err (PtySpawnFailed what))
          end
      end
  end.

(** The character that separates units. *)
Definition unit_separator : string := String (ascii_of_nat 31) "".

Definition agent_pty_fence_effect (command : string) (args : list string) (working_dir : string)
    : NormalizedEffect :=
  process_spawn Agent ("PTY: " ++ command ++ " " ++ join " " args)
    (working_dir ++ "|" ++ command ++ "|" ++ join unit_separator args)%string.

Definition on_events {A} (m : stateR St string A) : stateR PtyWorld string A := λ w,
  let '(s, r) := m (pw_events w) in (pw_with_events s w, r).

(** A live terminal that cannot be recorded is dropped, which kills it. *)
Definition spawn_agent_under_fence (env : PtyEnv) (s : PtySession) : pty (LivePty * option N) := λ w,
  let sid := pty_owner s in
  let l := mkLedger sid (pe_order env) (pe_effect_id env) (pe_tick env) in
  match fence_prepare l (agent_pty_fence_effect (pty_command s) (pty_args s) (pty_working_dir s))
          (pw_events w) with
  | (st, Err reason) =>
      (pw_with_events st w, Err (PtyPolicyDenied ("effect fence: " ++ reason)%string))
  | (st, Ok identity) =>
      match open_live_pty s (pw_with_events st w) with
      | (w, Ok live) =>
          match observe (pe_tick env 2) sid identity "pty spawned" (pw_events w) with
          | (st, Ok _) => (pw_with_events st w, Ok live)
          | (st, Err err) =>
              let msg := EffectFenceError_to_string err in
              let st := (mark_unknown (pe_tick env 3) sid identity
                ("observe persist failed after pty spawn: " ++ msg)%string st).1 in
              (pw_with_os (pty_kill (lp_handle live.1) (pw_os w)) (pw_with_events st w),
               Err (PtyStorage ("effect fence observe failed after pty spawn: " ++ msg)%string))
          end
      | (w, Err error) =>
          (pw_with_events (mark_failed (pe_tick env 2) sid identity (pty_error_text error) (pw_events w)).1 w,
           Err error)
      end
  end.

Definition pty_spawn (env : PtyEnv) (id : N) : pty () := λ w,
  match pw_sessions w !! id with
  | None => (w, Err (PtySessionNotFound id))
  | Some s =>
      if pty_is_running s then (w, Err (PtyAlreadyRunning id))
      else if bool_decide (is_Some (pw_live w !! id)) then (w, Err (PtyAlreadyRunning id))
      else
        let opened :=
          match pty_origin s with
          | Agent => if fenced then spawn_agent_under_fence env s w else open_live_pty s w
          | User => open_live_pty s w
          end in
        match opened with
        | (w, Err error) => (pty_set_state env id (PtyFailed (pty_error_text error)) w, Err error)
        | (w, Ok (live, pid)) =>
            (pty_set_state env id (PtyRunning (default 0%N pid))
               (pw_with_live (<[id := live]> (pw_live w)) w), Ok tt)
        end
  end.

Definition pty_request (env : PtyEnv) (owner : Uuid) (command : string) (args : list string)
    (working_dir : string) (origin : ActionOrigin) (intent_revision : N)
    : pty (N * EffectAdmission) := λ w,
  let effect := process_spawn origin ("PTY: " ++ command ++ " " ++ join " " args)%string working_dir in
  let admission := request_with_argv (pe_fresh env) heap seam effect intent_revision None in
  let id := pw_next_id w in
  let s := PtySession_new id owner command args working_dir origin (pe_now env) in
  (persist env s
     (mkPtyWorld (pw_os w) (pw_art w) (pw_events w) (pw_rows w) (<[id := s]> (pw_sessions w)) (pw_live w)
        (wrapping_add u64_max id 1)), Ok (id, admission)).

(** [handle.shutdown()]: the process is killed and waited for, its reader joined. *)
Definition shutdown (env : PtyEnv) (l : LivePty) (w : PtyWorld) : PtyWorld :=
  join_reader env l (pw_with_os (pty_kill (lp_handle l) (pw_os w)) w).

Definition forget (env : PtyEnv) (id : N) (w : PtyWorld) : PtyWorld :=
  let w := pw_with_sessions (delete id (pw_sessions w)) w in
  let w := match pw_live w !! id with
           | Some l => shutdown env l (pw_with_live (delete id (pw_live w)) w)
           | None => w
           end in
  if stored then pw_with_rows (pss_delete id (pw_rows w)).1 w else w.

Definition pty_get_session (env : PtyEnv) (id : N) (w : PtyWorld) : PtyWorld * option PtySession :=
  let w := refresh_exit env id w in (w, pw_sessions w !! id).

Definition pty_start (env : PtyEnv) (owner : Uuid) (command : string) (args : list string)
    (working_dir : string) (origin : ActionOrigin) (cols rows intent_revision : N) : pty PtySession :=
  requested <-- pty_request env owner command args working_dir origin intent_revision ;;
  let '(id, admission) := (requested : N * EffectAdmission) in
  (λ w, (pw_with_sessions (alter (with_size cols rows) id (pw_sessions w)) w, Ok tt)) ;;;
  match admission with
  | Adm_Allow _ =>
      pty_spawn env id ;;;
      (λ w, let '(w, s) := pty_get_session env id w in (w, ok_or s (PtySessionNotFound id)))
  | Adm_NeedsApproval _ => (λ w, (forget env id w, Err PtyApprovalRequired))
  | Adm_Deny reason => (λ w, (forget env id w, Err (PtyPolicyDenied reason)))
  end.

(** *** Using a terminal *)

Definition require_owner (env : PtyEnv) (id : N) (sid : Uuid) : pty PtySession := λ w,
  let '(w, s) := pty_get_session env id w in
  (w, match s with
      | None => Err (PtySessionNotFound id)
      | Some s => if (pty_owner s =? sid)%N then Ok s else Err (PtyNotOwner id)
      end).

Definition pty_list_sessions (env : PtyEnv) (w : PtyWorld) : PtyWorld * list PtySession :=
  let w := foldl (flip (refresh_exit env)) w (pe_sessions env (pw_sessions w)).*1 in
  (w, (pe_sessions env (pw_sessions w)).*2).

Definition live_looking (st : PtySessionState) : bool :=
  match st with PtyStarting | PtyRunning _ | PtyDetached _ => true | _ => false end.

Definition list_sessions_for_owner (env : PtyEnv) (owner : Uuid) (live_only : bool) (w : PtyWorld)
    : PtyWorld * list PtySession :=
  let '(w, all) := pty_list_sessions env w in
  (w, List.filter (λ s, negb live_only || live_looking (pty_state s))
        (List.filter (λ s, (pty_owner s =? owner)%N) all)).

Definition pty_attach (env : PtyEnv) (id : N) : pty PtySession := λ w,
  let w := refresh_exit env id w in
  match pw_sessions w !! id with
  | None => (w, Err (PtySessionNotFound id))
  | Some s =>
      match pty_state s with
      | PtyDetached pid =>
          if bool_decide (is_Some (pw_live w !! id)) then
            let s := with_state (PtyRunning pid) s in
            (persist env s (pw_with_sessions (<[id := s]> (pw_sessions w)) w), Ok s)
          else (w, Err (PtyNotLive id))
      | PtyRunning _ => (w, Ok s)
      | _ => (w, Err (PtySessionNotFound id))
      end
  end.

Definition on_live {A} (id : N) (f : LivePty → pty A) : pty A := λ w,
  match pw_live w !! id with
  | None => (w, Err (PtyNotLive id))
  | Some l => f l w
  end.

Definition write_input (env : PtyEnv) (id : N) (data : string) : pty () := λ w,
  on_live id (λ l w, let '(os, r) := pty_write (lp_handle l) data (pw_os w) in
                     (pw_with_os os w, map_err PtyIo r)) (refresh_exit env id w).

Record PtyOutputChunk := mkChunk {
  chunk_data : list ascii;
  chunk_dropped : N;
  chunk_eof : bool;
  chunk_spill : option ArtifactRef;
}.

Definition read_output (env : PtyEnv) (id : N) (max_bytes : N) : pty PtyOutputChunk := λ w,
  let max := N.to_nat (N.min (N.max max_bytes 1) (N.of_nat MAX_PTY_RING_BYTES)) in
  on_live id (λ l w,
    let '(ring, data) := drain max (lp_ring l) in
    let '(ring, spill) := take_spill ring in
    (pw_with_live (<[id := with_ring ring l]> (pw_live w)) w,
     Ok (mkChunk data (dropped_total ring) (lp_eof l && bool_decide (ring_data ring = [])) spill)))
    (refresh_exit env id w).

Definition pty_resize_session (env : PtyEnv) (id cols rows : N) : pty () :=
  let cols := N.max cols 1 in
  let rows := N.max rows 1 in
  on_live id (λ l w, let '(os, r) := pty_resize (lp_handle l) cols rows (pw_os w) in
                     (pw_with_os os w, map_err PtySpawnFailed r)) ;;;
  λ w, match pw_sessions w !! id with
       | Some s =>
           let s := mkPtySession (pty_id s) (pty_owner s) (pty_command s) (pty_args s)
                      (pty_working_dir s) (pty_env s) (pty_state s) (pty_origin s) (pty_created s)
                      cols rows in
           (persist env s (pw_with_sessions (<[id := s]> (pw_sessions w)) w), Ok tt)
       | None => (w, Ok tt)
       end.

Definition pty_detach (env : PtyEnv) (id : N) : pty () := λ w,
  let w := refresh_exit env id w in
  match pw_sessions w !! id with
  | None => (w, Err (PtySessionNotFound id))
  | Some s =>
      match pty_state s with
      | PtyRunning pid =>
          let s := with_state (PtyDetached pid) s in
          (persist env s (pw_with_sessions (<[id := s]> (pw_sessions w)) w), Ok tt)
      | _ => (w, Err (PtySessionNotFound id))
      end
  end.

Definition pty_terminate (env : PtyEnv) (id : N) : pty () := λ w,
  let '(w, exit_code) :=
    match pw_live w !! id with
    | Some l =>
        let w := shutdown env l (pw_with_live (delete id (pw_live w)) w) in
        (w, exit_code_of <$> pty_try_wait (lp_handle l) (pw_os w))
    | None => (w, None)
    end in
  (pty_set_state env id (PtyExited exit_code) w, Ok tt).

(** *** A restart of the daemon *)

Definition hydrated_record (r : PtySessionRecord) : PtySessionRecord :=
  if live_looking (rec_state r) then
    mkPtyRecord (rec_id r) (rec_owner r) (rec_command r) (rec_args r) (rec_working_dir r) (rec_env r)
      (PtyFailed "pty handle lost after daemon restart; re-PtyStart required") (rec_origin r)
      (rec_created r) (rec_updated r)
  else r.

Definition hydrate_one (r : PtySessionRecord) (w : PtyWorld) : PtyWorld :=
  let r' := hydrated_record r in
  let w := if live_looking (rec_state r) then pw_with_rows (pss_save r' (pw_rows w)).1 w else w in
  pw_with_sessions (<[rec_id r := session_of_record r']> (pw_sessions w)) w.

Definition max_id (records : list PtySessionRecord) : N := foldl N.max 0%N (rec_id <$> records).

(** [set_store] on a new manager. *)
Definition set_store (w : PtyWorld) : PtyWorld :=
  let records := match pss_list (pw_rows w) with Ok rs => rs | Err _ => [] end in
  let w := foldl (flip hydrate_one) w records in
  let m := max_id records in
  if (0 <? m)%N && (pw_next_id w <=? m)%N then
    mkPtyWorld (pw_os w) (pw_art w) (pw_events w) (pw_rows w) (pw_sessions w) (pw_live w)
      (wrapping_add u64_max m 1)
  else w.

Definition pty_restart (w : PtyWorld) : PtyWorld :=
  let fresh := mkPtyWorld (pw_os w) (pw_art w) (pw_events w) (pw_rows w) ∅ ∅ 1 in
  if stored then set_store fresh else fresh.

(** *** The reader of a terminal *)

Definition reader_reads (env : PtyEnv) (id : N) (chunk : list ascii) (w : PtyWorld) : PtyWorld :=
  match pw_live w !! id with
  | Some l =>
      if lp_eof l then w
      else
        let '(ring, art) := reader_read artifacts (pe_now env) chunk (lp_ring l) (pw_art w) in
        pw_with_art art (pw_with_live (<[id := with_ring ring l]> (pw_live w)) w)
  | None => w
  end.

Definition reader_ends (env : PtyEnv) (id : N) (w : PtyWorld) : PtyWorld :=
  match pw_live w !! id with
  | Some l =>
      let '(ring, art) := note_overflow artifacts (pe_now env) [] true (lp_ring l) (pw_art w) in
      pw_with_art art (pw_with_live (<[id := mkLive (lp_handle l) ring true]> (pw_live w)) w)
  | None => w
  end.

End manager.

(** ** The requests *)

Definition pty_error_code (e : PtySessionError) : IpcErrorCode :=
  match e with
  | PtySessionNotFound _ | PtyNotLive _ => CodeMissingSession
  | PtyNotOwner _ => CodeUnavailable
  | PtyUnsafeWorkingDir _ => CodeInvalidRequest
  | PtyAlreadyRunning _ | PtyApprovalRequired => CodeConflict
  | PtyPolicyDenied _ | PtySandboxDenied _ => CodeUnavailable
  | PtySpawnFailed _ | PtyIo _ | PtyStorage _ => CodeInternal
  end.

Definition pty_session_info (s : PtySession) : PtySessionInfo :=
  mkPtySessionInfo (pty_id s) (pty_owner s) (pty_state s) (pty_command s) (pty_args s) (pty_cols s)
    (pty_rows s) (Some (pty_working_dir s)) (Some (pty_created s))
    (Some (match pty_origin s with User => "user" | Agent => "agent" end)).

Definition resolve_pty_working_dir {F : Type} `{!WorkFiles F} (workspace_root : string)
    (working_dir : option string) (f : F) : result PtySessionError string :=
  root ← map_err (λ e, PtyUnsafeWorkingDir ("canonicalize workspace: " ++ io_text e)%string)
           (wf_canonicalize f workspace_root);
  match working_dir with
  | None => Ok root
  | Some requested =>
      if is_absolute requested then
        resolved ← map_err (λ e, PtyUnsafeWorkingDir (requested ++ ": " ++ io_text e)%string)
                     (wf_canonicalize f requested);
        if path_starts_with resolved root then Ok resolved else Err (PtyUnsafeWorkingDir requested)
      else
        map_err (λ e, PtyUnsafeWorkingDir (workspace_error_to_string e))
          (resolve_workspace_path root requested f)
  end.

Section requests.
Context `{Json} `{FileSystem} `{UrlCrate} `{Codec} `{DisplayStoreError} `{UuidText} `{Base64}.
Context {St : Type} `{!EventStore St} {F : Type} `{!WorkFiles F} `{!FileChanges F}.
Context {S : Type} `{!PtySessionStore S} {O : Type} `{!PtySystem O}.
(** The live policy of the harness, and the terminals' own seam. *)
Context (heap : PolicyHeap) (policy : PolicyEngine) (seam : EffectSeam) (fenced stored : bool).
Context (artifacts : option string) (ring_size : nat).
Context (sandbox : option (string → list string → string → string → list (string * string) →
                             result string PtyCommand)).

Abbreviation World := (PtyWorld (St := St) (F := F) (S := S) (O := O)).

Definition pty_error (e : PtySessionError) : IpcResponse := RespError (pty_error_code e) (pty_error_text e).

Definition pty_session_response (s : PtySession) : IpcResponse := RespPtySession (pty_session_info s).

Definition pty_append (t : Tick) (sid : Uuid) (p : EventPayload) (w : World) : World :=
  pw_with_events (store_append_next t.1 t.2 sid p (pw_events w)).1 w.

Definition pty_notice (t : Tick) (sid : Uuid) (message : string) : World → World :=
  pty_append t sid (PayloadNotice (NoticeRuntime message)).

Definition pty_emit (t : Tick) (sid : Uuid) (e : PtyEvent) : World → World :=
  pty_append t sid (PayloadPty e).

Definition handle_pty_start (env : PtyEnv) (sid : Uuid) (command : string) (args : list string)
    (working_dir : option string) (cols rows : N) (w : World) : World * IpcResponse :=
  match rt_attach heap policy sid (pw_events w) with
  | Err error => (w, runtime_error error)
  | Ok (_, runtime) =>
      match resolve_pty_working_dir (ar_workspace_root runtime) working_dir (aw_files (pw_art w)) with
      | Err error => (w, pty_error error)
      | Ok cwd =>
          if negb (pty_argv_is_non_login args) then
            (w, RespError CodeInvalidRequest
                  "PTY login-shell argv (-l/--login) is not allowed; use a non-login shell")
          else
            match pty_start heap seam fenced stored artifacts ring_size sandbox env sid command args cwd
                    User cols rows 1 w with
            | (w, Ok s) =>
                (pty_emit (pe_tick env 4) sid
                   (PtyStarted (pty_id s) (pty_command s) (Some (pty_working_dir s))) w,
                 pty_session_response s)
            | (w, Err error) => (w, pty_error error)
            end
      end
  end.

(** An operation on a terminal of the session. *)
Definition on_terminal {A} (env : PtyEnv) (sid : Uuid) (id : N) (op : PtySession → pty A)
    (answer : A → World → World * IpcResponse) (w : World) : World * IpcResponse :=
  match require_owner stored artifacts env id sid w with
  | (w, Err error) => (w, pty_error error)
  | (w, Ok owner) =>
      match op owner w with
      | (w, Err error) => (w, pty_error error)
      | (w, Ok a) => answer a w
      end
  end.

Definition answer_ok (id : N) (_ : ()) (w : World) : World * IpcResponse := (w, RespPtyOk id).

Definition pty_output_request (env : PtyEnv) (sid : Uuid) (id max_bytes : N)
    : World → World * IpcResponse :=
  on_terminal env sid id (λ _, read_output stored artifacts env id max_bytes) (λ chunk w,
    let w := match chunk_spill chunk with
             | Some a => pty_emit (pe_tick env 4) sid (PtySpill id a (byte_count a)) w
             | None => w
             end in
    let bytes := String.string_of_list_ascii (chunk_data chunk) in
    let w := if chunk_eof chunk then
               pty_emit (pe_tick env 5) sid
                 (PtyOutput id (bound_activity_preview (from_utf8_lossy bytes)) (chunk_dropped chunk) true) w
             else w in
    (w, RespPtyOutput id (b64_encode bytes) (chunk_dropped chunk) (chunk_eof chunk) (chunk_spill chunk))).

Definition pty_terminate_request (env : PtyEnv) (sid : Uuid) (id : N) : World → World * IpcResponse :=
  on_terminal env sid id (λ _, pty_terminate stored artifacts env id) (λ _ w,
    let '(w, s) := pty_get_session stored artifacts env id w in
    let exit_code := match s with
                     | Some s => match pty_state s with Wire.PtyExited code => code | _ => None end
                     | None => None end in
    (pty_emit (pe_tick env 4) sid (Events.PtyExited id exit_code) w, RespPtyOk id)).

Definition pty_input_request (env : PtyEnv) (sid : Uuid) (id : N) (data_b64 : string) (w : World)
    : World * IpcResponse :=
  match require_owner stored artifacts env id sid w with
  | (w, Err error) => (w, pty_error error)
  | (w, Ok _) =>
      match b64_decode data_b64 with
      | None => (w, RespError CodeInvalidRequest "invalid base64 pty input")
      | Some data =>
          match write_input stored artifacts env id data w with
          | (w, Ok _) => (w, RespPtyOk id)
          | (w, Err error) => (w, pty_error error)
          end
      end
  end.

(** The terminal requests of [handle_request]; [None] for the others. *)
Definition handle_pty_request (env : PtyEnv) (request : IpcRequest) (w : World)
    : option (World * IpcResponse) :=
  match request with
  | ReqPtyStart sid command args working_dir cols rows =>
      Some (handle_pty_start env sid command args working_dir (default 80%N cols) (default 24%N rows) w)
  | ReqPtyAttach sid id =>
      Some (on_terminal env sid id (λ _, pty_attach stored artifacts env id)
              (λ s w, (pty_notice (pe_tick env 4) sid ("pty " ++ dec id ++ " attached")%string w,
                       pty_session_response s)) w)
  | ReqPtyInput sid id data_b64 => Some (pty_input_request env sid id data_b64 w)
  | ReqPtyOutput sid id max_bytes =>
      Some (pty_output_request env sid id (default (N.of_nat DEFAULT_PTY_READ_BYTES) max_bytes) w)
  | ReqPtyResize sid id cols rows =>
      Some (on_terminal env sid id (λ _, pty_resize_session stored env id cols rows) (answer_ok id) w)
  | ReqPtyDetach sid id =>
      Some (on_terminal env sid id (λ _, pty_detach stored artifacts env id)
              (λ _ w, (pty_notice (pe_tick env 4) sid ("pty " ++ dec id ++ " detached")%string w,
                       RespPtyOk id)) w)
  | ReqPtyTerminate sid id => Some (pty_terminate_request env sid id w)
  | ReqPtyStatus sid id =>
      Some (on_terminal env sid id (λ s, StateR.ret s) (λ s w, (w, pty_session_response s)) w)
  | ReqPtyList sid live_only =>
      Some (match rt_attach heap policy sid (pw_events w) with
            | Err error => (w, runtime_error error)
            | Ok _ =>
                let '(w, sessions) := list_sessions_for_owner stored artifacts env sid live_only w in
                (w, RespPtySessions sid (pty_session_info <$> sessions))
            end)
  | _ => None
  end.
End requests.

(** ** Invariants *)

(** Process ids and exit codes are those of a [u32]. *)
Class PtySystemLaws (O : Type) `{!PtySystem O} := {
  open_pid h cmd os os' pid : pty_spawn_command h cmd os = (os', Ok (Some pid)) → (pid ≤ u32_max)%N;
  wait_code h os st : pty_try_wait h os = Some st → (exit_code_u32 st ≤ u32_max)%N;
}.

Lemma exit_code_range st : (exit_code_u32 st ≤ u32_max)%N → i32_range (exit_code_of st).
Proof.
  unfold exit_code_of, i32_range, u32_max. intros Hc. destruct (exit_success st); [lia|].
  destruct (N.leb_spec (exit_code_u32 st) 2147483647); lia.
Qed.

Section invariants.
Context `{Json} `{FileSystem} `{UrlCrate} `{Codec} `{DisplayStoreError} `{UuidText} `{Base64}.
Context {St : Type} `{!EventStore St} {F : Type} `{!WorkFiles F} `{!FileChanges F}.
Context {S : Type} `{!PtySessionStore S} (holds : S → gmap N PtySessionRecord → Prop) `{!PtyStoreLaws S holds}.
Context {O : Type} `{!PtySystem O} `{!PtySystemLaws O}.
Context (stored : bool) (artifacts : option string) (ring_size : nat).
(** No id is above the bound, so every row can be stored. *)
Context (bound : N) (bound_fits : (bound ≤ i64_max)%N).
(** Where the ids stood at some earlier point, and which were in use there. *)
Context (base : N) (known : N → Prop).

Abbreviation World := (PtyWorld (St := St) (F := F) (S := S) (O := O)).

(** An id below the next one to be given; one that was not in use at the earlier
    point was given after it. *)
Definition id_fits (id next : N) : Prop := (id < next)%N ∧ (known id ∨ (base ≤ id)%N).

Lemma id_fits_mono id next next' : id_fits id next → (next ≤ next')%N → id_fits id next'.
Proof. intros [? ?] ?. split; [lia|done]. Qed.

(** What a row and the memory must agree on. *)
Definition row_view (r : PtySessionRecord) : Uuid * PtySessionState := (rec_owner r, rec_state r).
Definition session_view (s : PtySession) : Uuid * PtySessionState := (pty_owner s, pty_state s).

Record pty_ok (w : World) : Prop := {
  ok_live id : is_Some (pw_live w !! id) ↔ ∃ s, pw_sessions w !! id = Some s ∧ pty_is_running s = true;
  ok_id id s : pw_sessions w !! id = Some s →
    pty_id s = id ∧ id_fits id (pw_next_id w) ∧ state_fits (pty_state s) ∧ (pty_created s ≤ i64_max)%N;
  ok_rings id l : pw_live w !! id = Some l → ∃ input gone, ring_ok (pty_capacity ring_size) input gone (lp_ring l);
  ok_next : (base ≤ pw_next_id w ≤ bound)%N;
  ok_rows : stored = true → ∃ m, holds (pw_rows w) m ∧
    ∀ id, row_view <$> m !! id = session_view <$> pw_sessions w !! id;
}.

(** Worlds that agree on what the invariant is about. *)
Definition same_terminals (w w' : World) : Prop :=
  pw_rows w' = pw_rows w ∧ pw_sessions w' = pw_sessions w ∧ pw_live w' = pw_live w ∧
  pw_next_id w' = pw_next_id w.

Lemma pty_ok_same w w' : same_terminals w w' → pty_ok w → pty_ok w'.
Proof. intros (Hr & Hs & Hl & Hn) [? ? ? ? ?]. split; rewrite ?Hr, ?Hs, ?Hl, ?Hn; done. Qed.

Definition env_fits (env : PtyEnv) : Prop := (pe_now env ≤ i64_max)%N.

(** A session is put in the memory and its row stored: what is to be shown is that
    whether it runs agrees with its live part. *)
Lemma put_ok env s w (w' : World) :
  env_fits env → pty_ok w → id_fits (pty_id s) (pw_next_id w') → (pty_created s ≤ i64_max)%N →
  state_fits (pty_state s) → (pw_next_id w ≤ pw_next_id w' ≤ bound)%N →
  pw_sessions w' = <[pty_id s := s]> (pw_sessions w) →
  (stored = true → pw_rows w' = (pss_save (record_of_session (pe_now env) s) (pw_rows w)).1) →
  (is_Some (pw_live w' !! pty_id s) ↔ pty_is_running s = true) →
  (∀ id, id ≠ pty_id s → pw_live w' !! id = pw_live w !! id) →
  (∀ l, pw_live w' !! pty_id s = Some l → ∃ input gone, ring_ok (pty_capacity ring_size) input gone (lp_ring l)) →
  pty_ok w'.
Proof.
  intros Henv [Hlive Hid Hrings Hnext Hrows] Hlt Hc Hst Hle Hsess Hsave Hrun Hother Hring. split.
  - intros id. rewrite Hsess. destruct (decide (id = pty_id s)) as [->|Hne].
    + rewrite lookup_insert_eq, Hrun. naive_solver.
    + rewrite lookup_insert_ne, Hother by done. apply Hlive.
  - intros id s'. rewrite Hsess. intros [[<- <-]|[Hne Hs]]%lookup_insert_Some; [done|].
    destruct (Hid _ _ Hs) as (? & ? & ? & ?). split_and!; [done|eapply id_fits_mono; [done|lia]|done|done].
  - intros id l Hl. destruct (decide (id = pty_id s)) as [->|Hne]; [by apply Hring|].
    rewrite Hother in Hl by done. by apply Hrings in Hl.
  - lia.
  - intros Hstored. destruct (Hrows Hstored) as (m & Hm & Hview). rewrite (Hsave Hstored), Hsess.
    eexists. split.
    { apply holds_save; [exact Hm| |exact Hst]. unfold fits_i64. cbn.
      destruct Hlt. rewrite !(proj2 (N.leb_le _ _)); [done|exact Henv|exact Hc|lia]. }
    intros id. cbn. destruct (decide (id = pty_id s)) as [->|Hne].
    + rewrite !lookup_insert_eq. by destruct (m !! pty_id s).
    + rewrite !lookup_insert_ne by done. apply Hview.
Qed.

(** The same for [pty_set_state], which updates the row once more. *)
Lemma pty_set_state_ok env id st w w0 :
  env_fits env → pty_ok w → state_fits st →
  (∃ s, pw_sessions w !! id = Some s) →
  pw_sessions w0 = pw_sessions w → pw_rows w0 = pw_rows w → pw_next_id w0 = pw_next_id w →
  (is_Some (pw_live w0 !! id) ↔ match st with PtyRunning _ | PtyDetached _ => True | _ => False end) →
  (∀ id', id' ≠ id → pw_live w0 !! id' = pw_live w !! id') →
  (∀ l, pw_live w0 !! id = Some l → ∃ input gone, ring_ok (pty_capacity ring_size) input gone (lp_ring l)) →
  pty_ok (pty_set_state stored env id st w0).
Proof.
  intros Henv Hok Hst [s Hs] Hsess Hrows Hn Hrun Hother Hring.
  destruct (ok_id _ Hok _ _ Hs) as (Hids & Hlt & _ & Hc). unfold pty_set_state. rewrite Hsess, Hs.
  set (w1 := persist stored env (with_state st s)
               (pw_with_sessions (<[id:=with_state st s]> (pw_sessions w)) w0)).
  assert (pty_ok w1) as Hok1.
  { assert (pw_sessions w1 = <[id:=with_state st s]> (pw_sessions w) ∧ pw_live w1 = pw_live w0 ∧
            pw_next_id w1 = pw_next_id w0) as (Es & El & En)
      by (subst w1; unfold persist; by destruct stored).
    apply (put_ok env (with_state st s) w); cbn; rewrite ?Es, ?El, ?En, ?Hids, ?Hn; try done.
    - split; [lia|apply (ok_next _ Hok)].
    - subst w1. unfold persist. intros ->. cbn. by rewrite Hrows.
    - rewrite Hrun. unfold pty_is_running. cbn. by destruct st. }
  change (pty_ok (if stored then pw_with_rows (pss_update_state (pe_now env) id st (pw_rows w1)).1 w1 else w1)).
  destruct stored eqn:Estored; [|done]. destruct Hok1 as [? ? ? ? Hr]. split; try done.
  intros _. destruct (Hr Estored) as (m & Hm & Hview). eexists. split; [by apply (holds_update _ _ _ _ _ Hm)|].
  intros id'. cbn. destruct (decide (id' = id)) as [->|Hne].
  - rewrite lookup_alter_eq, <-Hview. specialize (Hview id).
    assert (pw_sessions w1 !! id = Some (with_state st s)) as Hw1 by (subst w1; cbn; by rewrite lookup_insert_eq).
    rewrite Hw1 in Hview. destruct (m !! id) as [r|]; [|done]. cbn in *. unfold row_view, session_view in *.
    cbn in *. congruence.
  - by rewrite lookup_alter_ne.
Qed.

Lemma pty_capacity_pos : 1 ≤ pty_capacity ring_size.
Proof. unfold pty_capacity, MAX_PTY_RING_BYTES. lia. Qed.

Lemma ring_ok_step op r (w w' : ArtWorld F) r' more :
  (∃ input gone, ring_ok (pty_capacity ring_size) input gone r) → ring_step artifacts op (r, w) = (r', w', more) →
  ∃ input gone, ring_ok (pty_capacity ring_size) input gone r'.
Proof.
  intros (input & gone & Hok) Hstep. eexists _, _.
  exact (ring_step_ok artifacts _ _ _ _ _ _ _ _ _ pty_capacity_pos Hok Hstep).
Qed.

Lemma ring_new_ok :
  ∃ input gone, ring_ok (pty_capacity ring_size) input gone (OutputRing_new (pty_capacity ring_size)).
Proof.
  exists [], []. split; [done|cbn; lia|done| |apply spill_threshold_pos].
  exists []. split_and!; [done|by cbn|cbn; lia].
Qed.

(** Only the ring of one live terminal changes. *)
Lemma ring_changed_ok id l l' (w w' : World) :
  pty_ok w → pw_live w !! id = Some l → (∃ input gone, ring_ok (pty_capacity ring_size) input gone (lp_ring l')) →
  pw_rows w' = pw_rows w → pw_sessions w' = pw_sessions w → pw_next_id w' = pw_next_id w →
  pw_live w' = <[id := l']> (pw_live w) → pty_ok w'.
Proof.
  intros [Hlive Hid Hrings Hnext Hrows] Hl Hring Er Es En El. split; rewrite ?Er, ?Es, ?En, ?El; try done.
  - intros id'. destruct (decide (id' = id)) as [->|Hne]; [|by rewrite lookup_insert_ne].
    rewrite lookup_insert_eq, <-Hlive, Hl. by split; eauto.
  - intros id' l0 [[<- <-]|[Hne Hl0]]%lookup_insert_Some; [done|by eapply Hrings].
Qed.

Lemma reader_reads_ok env id chunk (w : World) : pty_ok w → pty_ok (reader_reads artifacts env id chunk w).
Proof.
  intros Hok. unfold reader_reads. destruct (pw_live w !! id) as [l|] eqn:Hl; [|done].
  destruct (lp_eof l); [done|].
  destruct (reader_read _ _ _ _ _) as [ring art] eqn:Hr.
  eapply (ring_changed_ok id l); [done|done| |done..].
  eapply (ring_ok_step (RingReads chunk (pe_now env))); [by eapply (ok_rings _ Hok)|].
  cbn. by rewrite Hr.
Qed.

Lemma reader_ends_ok env id (w : World) : pty_ok w → pty_ok (reader_ends artifacts env id w).
Proof.
  intros Hok. unfold reader_ends. destruct (pw_live w !! id) as [l|] eqn:Hl; [|done].
  destruct (note_overflow _ _ _ _ _ _) as [ring art] eqn:Hr.
  eapply (ring_changed_ok id l); [done|done| |done..].
  eapply (ring_ok_step (RingEnds (pe_now env))); [by eapply (ok_rings _ Hok)|].
  cbn. by rewrite Hr.
Qed.

Lemma live_session id l (w : World) :
  pty_ok w → pw_live w !! id = Some l → ∃ s, pw_sessions w !! id = Some s ∧ pty_is_running s = true.
Proof. intros Hok Hl. apply (ok_live _ Hok). by eexists. Qed.

Lemma refresh_exit_ok env id (w : World) :
  env_fits env → pty_ok w → pty_ok (refresh_exit stored artifacts env id w).
Proof.
  intros Henv Hok. unfold refresh_exit. destruct (pw_live w !! id) as [l|] eqn:Hl; [|done].
  destruct (pty_try_wait _ _) as [status|] eqn:Hw; [|done].
  destruct (live_session _ _ _ Hok Hl) as (s & Hs & _).
  eapply (pty_set_state_ok _ _ _ w); [done|done| |by eexists|done|done|done|..]; cbn.
  - apply exit_code_range. by eapply wait_code.
  - rewrite lookup_delete_eq. split; [by intros []|done].
  - intros id' Hne. by rewrite lookup_delete_ne.
  - intros l'. by rewrite lookup_delete_eq.
Qed.

(** *** Operations keep the invariant *)

Definition pty_keeps {A} (m : pty (St := St) (F := F) (S := S) (O := O) A) : Prop :=
  ∀ w, pty_ok w → pty_ok (m w).1.

Lemma pty_keeps_bind {A B} (m : pty A) (f : A → pty B) :
  pty_keeps m → (∀ a, pty_keeps (f a)) → pty_keeps (StateR.bind m f).
Proof.
  intros Hm Hf w Hok. unfold StateR.bind. specialize (Hm w Hok).
  destruct (m w) as [w1 [a|e]]; cbn in *; [by apply Hf|done].
Qed.

Lemma on_live_ok {A} id (f : LivePty → pty A) w :
  pty_ok w → (∀ l, pw_live w !! id = Some l → pty_ok (f l w).1) → pty_ok (on_live id f w).1.
Proof. intros Hok Hf. unfold on_live. destruct (pw_live w !! id); [by apply Hf|done]. Qed.

Lemma write_input_ok env id data : env_fits env → pty_keeps (write_input stored artifacts env id data).
Proof.
  intros Henv w Hok. unfold write_input. apply on_live_ok; [by apply refresh_exit_ok|]. intros l Hl.
  destruct (pty_write _ _ _). apply (pty_ok_same (refresh_exit stored artifacts env id w)); [done|by apply refresh_exit_ok].
Qed.

Lemma read_output_ok env id max : env_fits env → pty_keeps (read_output stored artifacts env id max).
Proof.
  intros Henv w Hok. unfold read_output. pose proof (refresh_exit_ok env id w Henv Hok) as Hok1.
  set (max_bytes := N.to_nat _). clearbody max_bytes.
  apply on_live_ok; [done|]. intros l Hl. destruct (drain max_bytes _) as [ring data] eqn:Hd.
  destruct (take_spill ring) as [ring' spill] eqn:Ht.
  eapply (ring_changed_ok id l); [done|done| |done..].
  eapply (ring_ok_step RingTakesSpill ring (pw_art w)); [|cbn; rewrite Ht; reflexivity].
  eapply (ring_ok_step (RingDrains max_bytes) (lp_ring l) (pw_art w)); [by eapply (ok_rings _ Hok1)|].
  cbn [ring_step]. rewrite Hd. reflexivity.
Qed.

(** A session changed without changing whether it runs. *)
Lemma put_same_ok env s s' (w : World) :
  env_fits env → pty_ok w → pw_sessions w !! pty_id s = Some s →
  pty_id s' = pty_id s → pty_created s' = pty_created s → state_fits (pty_state s') →
  pty_is_running s' = pty_is_running s →
  pty_ok (persist stored env s' (pw_with_sessions (<[pty_id s := s']> (pw_sessions w)) w)).
Proof.
  intros Henv Hok Hs Hid Hc Hst Hrun. destruct (ok_id _ Hok _ _ Hs) as (_ & Hlt & _ & Hcr).
  set (w1 := pw_with_sessions _ w).
  assert (pw_sessions (persist stored env s' w1) = pw_sessions w1 ∧ pw_live (persist stored env s' w1) = pw_live w ∧
          pw_next_id (persist stored env s' w1) = pw_next_id w) as (Es & El & En)
    by (unfold persist; by destruct stored).
  apply (put_ok env s' w); rewrite ?Es, ?El, ?En, ?Hid, ?Hc; try done.
  - split; [lia|apply (ok_next _ Hok)].
  - unfold persist. by intros ->.
  - rewrite (ok_live _ Hok). rewrite Hrun. naive_solver.
  - intros l. apply (ok_rings _ Hok).
Qed.

Lemma pty_attach_ok env id : env_fits env → pty_keeps (pty_attach stored artifacts env id).
Proof.
  intros Henv w Hok. unfold pty_attach. pose proof (refresh_exit_ok env id w Henv Hok) as Hok1.
  set (w1 := refresh_exit stored artifacts env id w) in *.
  destruct (pw_sessions w1 !! id) as [s|] eqn:Hs; [|done].
  destruct (pty_state s) as [|pid|pid|code|reason] eqn:Hst; try done.
  case_bool_decide; [|done]. cbn. destruct (ok_id _ Hok1 _ _ Hs) as (Hid & _ & Hfit & _). subst id.
  apply put_same_ok; try done; cbn; [by rewrite Hst in Hfit|unfold pty_is_running; cbn; by rewrite Hst].
Qed.

Lemma pty_detach_ok env id : env_fits env → pty_keeps (pty_detach stored artifacts env id).
Proof.
  intros Henv w Hok. unfold pty_detach. pose proof (refresh_exit_ok env id w Henv Hok) as Hok1.
  set (w1 := refresh_exit stored artifacts env id w) in *.
  destruct (pw_sessions w1 !! id) as [s|] eqn:Hs; [|done].
  destruct (pty_state s) as [|pid|pid|code|reason] eqn:Hst; try done.
  cbn. destruct (ok_id _ Hok1 _ _ Hs) as (Hid & _ & Hfit & _). subst id.
  apply put_same_ok; try done; cbn; [by rewrite Hst in Hfit|unfold pty_is_running; cbn; by rewrite Hst].
Qed.

Lemma pty_resize_ok env id cols rows : env_fits env → pty_keeps (pty_resize_session stored env id cols rows).
Proof.
  intros Henv. unfold pty_resize_session. apply pty_keeps_bind.
  - intros w Hok. apply on_live_ok; [done|]. intros l Hl. destruct (pty_resize _ _ _ _). by apply (pty_ok_same w).
  - intros [] w Hok. destruct (pw_sessions w !! id) as [s|] eqn:Hs; [|done]. cbn.
    destruct (ok_id _ Hok _ _ Hs) as (Hid & _ & Hfit & _). subst id. by apply put_same_ok.
Qed.

Lemma shutdown_same env l (w : World) : same_terminals w (shutdown artifacts env l w).
Proof. by split_and!. Qed.

Lemma pty_terminate_ok env id : env_fits env → pty_keeps (pty_terminate stored artifacts env id).
Proof.
  intros Henv w Hok. unfold pty_terminate.
  destruct (pw_live w !! id) as [l|] eqn:Hl; cbn [fst].
  - destruct (live_session _ _ _ Hok Hl) as (s & Hs & _).
    eapply (pty_set_state_ok _ _ _ w); [done|done| |by eexists|done|done|done|..].
    + cbn. destruct (pty_try_wait _ _) as [status|] eqn:Hw; cbn; [|done].
      apply exit_code_range. by eapply wait_code.
    + cbn. rewrite lookup_delete_eq. split; [by intros []|done].
    + intros id' Hne. cbn. by rewrite lookup_delete_ne.
    + intros l'. cbn. by rewrite lookup_delete_eq.
  - destruct (pw_sessions w !! id) as [s|] eqn:Hs; [|unfold pty_set_state; by rewrite Hs].
    eapply (pty_set_state_ok _ _ _ w); [done|done|done|by eexists|done|done|done|..].
    + cbn. rewrite Hl. split; [by intros []|done].
    + done.
    + intros l'. by rewrite Hl.
Qed.

Lemma forget_ok env id w : pty_ok w → pty_ok (forget stored artifacts env id w).
Proof.
  intros [Hlive Hid Hrings Hnext Hrows]. unfold forget. cbn zeta.
  set (w1 := match pw_live (pw_with_sessions _ w) !! id with Some _ => _ | None => _ end).
  assert (pw_sessions w1 = delete id (pw_sessions w) ∧ pw_live w1 = delete id (pw_live w) ∧
          pw_next_id w1 = pw_next_id w ∧ pw_rows w1 = pw_rows w) as (Es & El & En & Er).
  { subst w1. cbn. destruct (pw_live w !! id) as [l|] eqn:Hl; cbn; [done|].
    split_and!; [done| |done|done]. by rewrite delete_id. }
  assert (pty_ok (if stored then pw_with_rows (pss_delete id (pw_rows w1)).1 w1 else w1)); [|done].
  assert (∀ w2, pw_sessions w2 = pw_sessions w1 → pw_live w2 = pw_live w1 → pw_next_id w2 = pw_next_id w1 →
    (stored = true → pw_rows w2 = (pss_delete id (pw_rows w1)).1) → pty_ok w2) as Hdone.
  { intros w2 E1 E2 E3 E4. split; rewrite ?E1, ?E2, ?E3, ?Es, ?El, ?En; [..|done|].
    - intros id'. destruct (decide (id' = id)) as [->|Hne].
      + rewrite !lookup_delete_eq. split; [by intros []|by intros (? & ? & _)].
      + rewrite !lookup_delete_ne by done. apply Hlive.
    - intros id' s [_ Hs]%lookup_delete_Some. by apply Hid.
    - intros id' l [_ Hl]%lookup_delete_Some. by eapply Hrings.
    - intros Hst. destruct (Hrows Hst) as (m & Hm & Hview). rewrite E4, Er by done.
      eexists. split; [by apply holds_delete|]. intros id'. destruct (decide (id' = id)) as [->|Hne].
      + by rewrite !lookup_delete_eq.
      + rewrite !lookup_delete_ne by done. apply Hview. }
  destruct stored; by apply Hdone.
Qed.

Lemma pty_get_ok env id w : env_fits env → pty_ok w → pty_ok (pty_get_session stored artifacts env id w).1.
Proof. intros Henv Hok. by apply refresh_exit_ok. Qed.

Lemma require_owner_ok env id sid : env_fits env → pty_keeps (require_owner stored artifacts env id sid).
Proof. intros Henv w Hok. by apply refresh_exit_ok. Qed.

Lemma list_sessions_ok env owner live_only w :
  env_fits env → pty_ok w → pty_ok (list_sessions_for_owner stored artifacts env owner live_only w).1.
Proof.
  intros Henv. unfold list_sessions_for_owner, pty_list_sessions. cbn.
  generalize ((pe_sessions env (pw_sessions w)).*1). intros ids. revert w.
  induction ids as [|id ids IH]; intros w Hok; [done|]. cbn. by apply IH, refresh_exit_ok.
Qed.

(** *** Starting a terminal *)

Lemma next_is_free w : pty_ok w → pw_sessions w !! pw_next_id w = None ∧ pw_live w !! pw_next_id w = None.
Proof.
  intros Hok. assert (pw_sessions w !! pw_next_id w = None) as Hs.
  { destruct (pw_sessions w !! _) as [s|] eqn:Hs; [|done]. destruct (ok_id _ Hok _ _ Hs) as (_ & [? _] & _). lia. }
  split; [done|]. destruct (pw_live w !! _) as [l|] eqn:Hl; [|done].
  apply (live_session _ _ _ Hok) in Hl as (s & Hs' & _). congruence.
Qed.

Lemma pty_request_ok heap seam env owner command args cwd origin rev w :
  env_fits env → pty_ok w → (pw_next_id w < bound)%N →
  pty_ok (pty_request heap seam stored env owner command args cwd origin rev w).1.
Proof.
  intros Henv Hok Hlt. destruct (next_is_free _ Hok) as [_ Hl]. unfold pty_request. cbn [fst].
  assert (wrapping_add u64_max (pw_next_id w) 1 = pw_next_id w + 1)%N as Hwrap.
  { unfold wrapping_add. apply N.mod_small. unfold u64_max, i64_max in *. lia. }
  set (s := PtySession_new _ _ _ _ _ _ _). set (w1 := mkPtyWorld _ _ _ _ _ _ _).
  assert (pw_sessions (persist stored env s w1) = pw_sessions w1 ∧ pw_live (persist stored env s w1) = pw_live w ∧
          pw_next_id (persist stored env s w1) = pw_next_id w1) as (Es & El & En)
    by (unfold persist; by destruct stored).
  apply (put_ok env s w); rewrite ?Es, ?El, ?En; cbn; rewrite ?Hwrap; try done; try lia.
  - split; [lia|right; apply (ok_next _ Hok)].
  - unfold persist. by intros ->.
  - rewrite Hl. split; [by intros []|done].
  - by rewrite Hl.
Qed.
Section spawning.
Context (seam : EffectSeam) (heap : PolicyHeap) (fenced : bool).
Context (sandbox : option (string → list string → string → string → list (string * string) →
                             result string PtyCommand)).

(** A terminal that is opened has an empty ring; nothing is recorded of it yet. *)
Definition opens (w : World) (p : World * result PtySessionError (LivePty * option N)) : Prop :=
  same_terminals w p.1 ∧
  ∀ l pid, p.2 = Ok (l, pid) → lp_ring l = OutputRing_new (pty_capacity ring_size) ∧ (default 0 pid ≤ u32_max)%N.

Lemma open_live_opens s w : opens w (open_live_pty ring_size sandbox s w).
Proof.
  unfold open_live_pty. destruct (pty_openpty _ _ _) as [os0 [h|what]]; [|by split].
  destruct (build_pty_command _ _ _ _ _ _ _) as [cmd|error]; [|by split].
  destruct (pty_spawn_command _ _ _) as [os [pid|what]] eqn:Ho; [|by split].
  split; [done|]. intros l pid' [= <- <-]. split; [done|].
  destruct pid as [pid|]; cbn; [by eapply open_pid|done].
Qed.

Lemma spawn_agent_opens env s w : opens w (spawn_agent_under_fence ring_size sandbox env s w).
Proof.
  unfold spawn_agent_under_fence. destruct (fence_prepare _ _ _) as [st [identity|reason]]; [|by split].
  pose proof (open_live_opens s (pw_with_events st w)) as Hopen.
  destruct (open_live_pty _ _ _ _) as [w1 [live|error]]; destruct Hopen as [Hsame Hring]; [|by split].
  destruct (observe _ _ _ _ _) as [st' [u|err]]; split; try done.
Qed.

Lemma pty_spawn_ok env id :
  env_fits env → pty_keeps (pty_spawn fenced stored ring_size sandbox env id).
Proof.
  intros Henv w Hok. unfold pty_spawn. destruct (pw_sessions w !! id) as [s|] eqn:Hs; [|done].
  destruct (pty_is_running s) eqn:Hrun; [done|]. case_bool_decide as Hlive; [done|].
  set (opened := match pty_origin s with User => _ | Agent => _ end).
  assert (opens w opened) as Hopen.
  { subst opened. destruct (pty_origin s), fenced; first [apply open_live_opens|apply spawn_agent_opens]. }
  clearbody opened. destruct opened as [w1 [[live pid]|error]]; destruct Hopen as [Hsame Hring];
    cbn [fst snd] in *; destruct Hsame as (Er & Es & El & En).
  - destruct (Hring _ _ eq_refl) as [Hnew Hpid].
    eapply (pty_set_state_ok _ _ _ w); [done|done|done|by eexists|done|done|done|..]; cbn.
    + by rewrite lookup_insert_eq.
    + intros id' Hne. by rewrite lookup_insert_ne, El.
    + rewrite lookup_insert_eq. intros l [= <-]. rewrite Hnew. apply ring_new_ok.
  - eapply (pty_set_state_ok _ _ _ w); [done|done|done|by eexists|done|done|done|..].
    + rewrite El. split; [done|done].
    + intros id' _. by rewrite El.
    + rewrite El. apply ok_rings, Hok.
Qed.

(** Only the size of a session changes, which rows do not hold. *)
Lemma resized_ok f id w :
  pty_ok w →
  (∀ s, pty_id (f s) = pty_id s ∧ session_view (f s) = session_view s ∧ pty_created (f s) = pty_created s) →
  pty_ok (pw_with_sessions (alter f id (pw_sessions w)) w).
Proof.
  intros [Hlive Hid Hrings Hnext Hrows] Hf.
  assert (∀ s, pty_state (f s) = pty_state s) as Hst by (intros s; destruct (Hf s) as (_ & [=] & _); done).
  split; cbn; try done.
  - intros id'. rewrite Hlive. destruct (decide (id' = id)) as [->|Hne]; [|by rewrite lookup_alter_ne].
    rewrite lookup_alter_eq. unfold pty_is_running. destruct (pw_sessions w !! id) as [s|]; cbn.
    + split; intros (s' & [= <-] & Hrun); eexists; (split; [done|]); by rewrite ?Hst in *.
    + by split; intros (? & ? & _).
  - intros id' s [(-> & s0 & Hs0 & ->)|[Hne Hs]]%lookup_alter_Some; [|by apply Hid].
    destruct (Hf s0) as (-> & _ & ->). rewrite Hst. by apply Hid.
  - intros Hstored. destruct (Hrows Hstored) as (m & Hm & Hview). exists m. split; [done|]. intros id'.
    rewrite Hview. destruct (decide (id' = id)) as [->|Hne]; [|by rewrite lookup_alter_ne].
    rewrite lookup_alter_eq. destruct (pw_sessions w !! id) as [s|]; [|done]. cbn.
    by destruct (Hf s) as (_ & -> & _).
Qed.

Lemma pty_start_ok env owner command args cwd origin cols rows rev w :
  env_fits env → pty_ok w → (pw_next_id w < bound)%N →
  pty_ok (pty_start heap seam fenced stored artifacts ring_size sandbox env owner command args cwd
            origin cols rows rev w).1.
Proof.
  intros Henv Hok Hlt. unfold pty_start.
  pose proof (pty_request_ok heap seam env owner command args cwd origin rev w Henv Hok Hlt) as Hreq.
  unfold StateR.bind at 1. destruct (pty_request _ _ _ _ _ _ _ _ _ _ _) as [w1 [[id admission]|e]]; [|done].
  cbn [fst] in Hreq. unfold StateR.bind at 1. cbn [fst snd].
  pose proof (resized_ok (with_size cols rows) id _ Hreq (λ s, conj eq_refl (conj eq_refl eq_refl))) as Hsized.
  destruct admission; cbn [fst]; try by apply forget_ok.
  apply pty_keeps_bind; [by apply pty_spawn_ok| |done].
  intros [] w2 Hok2. by apply refresh_exit_ok.
Qed.
End spawning.

(** *** A restart *)

Lemma hydrated_fits r :
  fits_i64 r = true → state_fits (rec_state r) →
  rec_id (hydrated_record r) = rec_id r ∧ fits_i64 (hydrated_record r) = true ∧
  state_fits (rec_state (hydrated_record r)) ∧
  pty_is_running (session_of_record (hydrated_record r)) = false.
Proof.
  unfold hydrated_record, pty_is_running. cbn. destruct (rec_state r) eqn:E; cbn; rewrite ?E; done.
Qed.

(** Reading a list of records back leaves the terminals of the list in the memory and
    in the rows, none of them running, and the others as they were. *)
Lemma hydrate_all l (w : World) m :
  holds (pw_rows w) m → NoDup (rec_id <$> l) → (∀ r, r ∈ l → m !! rec_id r = Some r) →
  let w' := foldl (flip hydrate_one) w l in
  pw_live w' = pw_live w ∧ pw_next_id w' = pw_next_id w ∧ ∃ m', holds (pw_rows w') m' ∧
  (∀ id, id ∉ rec_id <$> l → m' !! id = m !! id ∧ pw_sessions w' !! id = pw_sessions w !! id) ∧
  (∀ r, r ∈ l → row_view <$> m' !! rec_id r = Some (row_view (hydrated_record r)) ∧
                pw_sessions w' !! rec_id r = Some (session_of_record (hydrated_record r))).
Proof.
  revert w m. induction l as [|r l IH]; intros w m Hm Hnd Hin.
  { split_and!; [done|done|]. exists m. split_and!; [done|done|]. intros r Hr. set_solver. }
  apply NoDup_cons in Hnd as [Hno Hnd]. cbn [foldl].
  pose proof (Hin r ltac:(set_solver)) as Hr.
  destruct (holds_key _ _ _ _ Hm Hr) as (_ & Hi64 & Hst).
  destruct (hydrated_fits r Hi64 Hst) as (Hid & Hi64' & Hst' & _).
  set (w1 := hydrate_one r w).
  assert (∃ m1, holds (pw_rows w1) m1 ∧ row_view <$> m1 !! rec_id r = Some (row_view (hydrated_record r)) ∧
            ∀ id, id ≠ rec_id r → m1 !! id = m !! id) as (m1 & Hm1 & Hr1 & Hother).
  { subst w1. unfold hydrate_one. destruct (live_looking (rec_state r)) eqn:Hlook; cbn.
    - eexists. split; [by apply (holds_save _ m)|]. rewrite Hid, Hr, lookup_insert_eq.
      split; [done|]. intros id Hne. by rewrite lookup_insert_ne.
    - exists m. split_and!; [done| |done]. rewrite Hr. unfold hydrated_record. by rewrite Hlook. }
  assert (pw_sessions w1 = <[rec_id r := session_of_record (hydrated_record r)]> (pw_sessions w) ∧
          pw_live w1 = pw_live w ∧ pw_next_id w1 = pw_next_id w) as (Es & El & En)
    by (subst w1; unfold hydrate_one; by destruct (live_looking _)).
  assert (∀ r', r' ∈ l → m1 !! rec_id r' = Some r') as Hin1.
  { intros r' Hr'. rewrite Hother; [apply Hin; set_solver|]. intros Heq. apply Hno. rewrite <-Heq.
    apply list_elem_of_fmap. by exists r'. }
  destruct (IH w1 m1 Hm1 Hnd Hin1) as (El' & En' & m' & Hm' & Hout & Hall).
  change (flip hydrate_one w r) with w1. rewrite El', En', El, En. split_and!; [done|done|].
  exists m'. split_and!; [done|..].
  - intros id Hid'. destruct (Hout id) as [-> ->]; [set_solver|]. rewrite Es, lookup_insert_ne by set_solver.
    split; [|done]. apply Hother. set_solver.
  - intros r' Hr'. apply elem_of_cons in Hr' as [->|Hr']; [|by apply Hall].
    destruct (Hout (rec_id r) Hno) as [-> ->]. by rewrite Es, lookup_insert_eq.
Qed.

Lemma max_id_le (records : list PtySessionRecord) n :
  (∀ r, r ∈ records → rec_id r ≤ n)%N → (max_id records ≤ n)%N.
Proof.
  unfold max_id. assert (0 ≤ n)%N as H0' by lia. revert H0'. generalize 0%N as a.
  induction records as [|r rs IH]; intros a Ha Hall; [done|]. cbn.
  apply IH; [pose proof (Hall r ltac:(set_solver)); lia|]. intros r' Hr'. apply Hall. set_solver.
Qed.

Lemma max_id_ge (records : list PtySessionRecord) r : r ∈ records → (rec_id r ≤ max_id records)%N.
Proof.
  assert (∀ l a, a ≤ foldl N.max a l)%N as Hmono.
  { intros l. induction l as [|x l IH]; intros a; [done|]. cbn. specialize (IH (N.max a x)). lia. }
  unfold max_id. generalize 0%N as a. induction records as [|r0 rs IH]; intros a Hr; [set_solver|]. cbn.
  apply elem_of_cons in Hr as [->|Hr]; [|by apply IH]. specialize (Hmono (rec_id <$> rs) (N.max a (rec_id r0))). lia.
Qed.

Lemma pty_restart_ok (w : World) : (1 ≤ bound)%N → base = 0%N → pty_ok w → pty_ok (pty_restart stored w).
Proof.
  intros Hb Hbase Hok. unfold pty_restart.
  destruct stored eqn:Est.
  2:{ split; cbn; try done.
      - intros id. rewrite !lookup_empty. by split; [intros []|intros (? & ? & _)].
      - lia.
      - congruence. }
  destruct (ok_rows _ Hok Est) as (m & Hm & Hview).
  destruct (holds_list _ _ Hm) as (l & Hlist & Hnd & Hall). unfold set_store. cbn [pw_rows]. rewrite Hlist.
  set (w0 := mkPtyWorld _ _ _ _ _ _ _).
  destruct (hydrate_all l w0 m Hm Hnd ltac:(intros r; apply Hall)) as (El & En & m' & Hm' & Hout & Hin).
  set (w1 := foldl _ w0 l) in *.
  assert (∀ r, r ∈ l → fits_i64 r = true ∧ state_fits (rec_state r) ∧ (rec_id r < pw_next_id w)%N) as Hfits.
  { intros r Hr. pose proof (proj1 (Hall r) Hr) as Hmr. destruct (holds_key _ _ _ _ Hm Hmr) as (_ & ? & ?).
    split_and!; [done|done|]. specialize (Hview (rec_id r)). rewrite Hmr in Hview.
    destruct (pw_sessions w !! rec_id r) as [s|] eqn:Hs; [|done]. by destruct (ok_id _ Hok _ _ Hs) as (_ & [? _] & _). }
  assert (max_id l + 1 ≤ bound)%N as Hmax.
  { destruct l as [|r l']; [by cbn; lia|]. pose proof (ok_next _ Hok) as Hn.
    assert (max_id (r :: l') ≤ pw_next_id w - 1)%N as Hle.
    { apply max_id_le. intros r' Hr'. destruct (Hfits r' Hr') as (_ & _ & ?). lia. }
    destruct (Hfits r ltac:(set_solver)) as (_ & _ & ?). lia. }
  assert (∀ id s, pw_sessions w1 !! id = Some s → ∃ r, r ∈ l ∧ rec_id r = id ∧ s = session_of_record (hydrated_record r)) as Hsess.
  { intros id s Hs. destruct (decide (id ∈ rec_id <$> l)) as [(r & -> & Hr)%list_elem_of_fmap|Hno].
    - exists r. destruct (Hin r Hr) as [_ Hs']. split_and!; [done|done|congruence].
    - destruct (Hout id Hno) as [_ Hs']. rewrite Hs' in Hs. cbn in Hs. by rewrite lookup_empty in Hs. }
  assert (∀ w2, pw_sessions w2 = pw_sessions w1 → pw_rows w2 = pw_rows w1 → pw_live w2 = pw_live w1 →
            (max_id l < pw_next_id w2 ≤ bound)%N → pty_ok w2) as Hdone.
  { intros w2 E1 E2 E3 E4. split; rewrite ?E1, ?E2, ?E3, ?El; try done; cbn.
    - intros id. rewrite lookup_empty. split; [by intros []|]. intros (s & Hs & Hrun).
      destruct (Hsess id s Hs) as (r & Hr & _ & ->). destruct (Hfits r Hr) as (Hi & Hst & _).
      destruct (hydrated_fits r Hi Hst) as (_ & _ & _ & Hno). congruence.
    - intros id s Hs. destruct (Hsess id s Hs) as (r & Hr & <- & ->). destruct (Hfits r Hr) as (Hi & Hst & _).
      destruct (hydrated_fits r Hi Hst) as (Hrid & Hi' & Hst' & _). pose proof (max_id_ge l r Hr).
      split_and!; [done|split; [lia|right; lia]|done|]. unfold fits_i64 in Hi'. rewrite !andb_true_iff, !N.leb_le in Hi'. apply Hi'.
    - lia.
    - intros _. exists m'. split; [done|]. intros id.
      destruct (decide (id ∈ rec_id <$> l)) as [(r & -> & Hr)%list_elem_of_fmap|Hno].
      + by destruct (Hin r Hr) as [-> ->].
      + destruct (Hout id Hno) as [-> ->]. cbn. rewrite lookup_empty. destruct (m !! id) as [r|] eqn:Hr; [|done].
        destruct Hno. destruct (holds_key _ _ _ _ Hm Hr) as (<- & _). apply list_elem_of_fmap.
        exists r. split; [done|]. by apply Hall. }
  assert (wrapping_add u64_max (max_id l) 1 = max_id l + 1)%N as Hwrap.
  { unfold wrapping_add. apply N.mod_small. unfold u64_max, i64_max in *. lia. }
  destruct ((0 <? max_id l)%N && (pw_next_id w1 <=? max_id l)%N) eqn:Hcmp.
  - apply Hdone; cbn; [done..|]. rewrite Hwrap. lia.
  - apply Hdone; [done..|]. rewrite andb_false_iff, N.ltb_ge, N.leb_gt in Hcmp. rewrite En in *. cbn in *. lia.
Qed.

(** *** Requests *)

Lemma pty_append_ok t sid p w : pty_ok w → pty_ok (pty_append t sid p w).
Proof. by apply pty_ok_same. Qed.

Lemma on_terminal_ok {A} env sid id (op : PtySession → pty A) answer w :
  env_fits env → pty_ok w → (∀ s, pty_keeps (op s)) → (∀ a w, pty_ok w → pty_ok (answer a w).1) →
  pty_ok (on_terminal stored artifacts env sid id op answer w).1.
Proof.
  intros Henv Hok Hop Hans. unfold on_terminal.
  pose proof (require_owner_ok env id sid Henv w Hok) as Hok1.
  destruct (require_owner _ _ _ _ _ _) as [w1 [s|error]]; [|done]. cbn in Hok1.
  pose proof (Hop s w1 Hok1) as Hok2. destruct (op s w1) as [w2 [a|error]]; [|done]. by apply Hans.
Qed.

Lemma handle_pty_request_ok heap policy seam fenced sandbox env request w w' response :
  env_fits env → pty_ok w → (pw_next_id w < bound)%N →
  handle_pty_request heap policy seam fenced stored artifacts ring_size sandbox env request w =
    Some (w', response) →
  pty_ok w'.
Proof.
  intros Henv Hok Hlt Hreq.
  assert (∀ r, Some r = Some (w', response) → pty_ok r.1 → pty_ok w') as Hgo by (by intros ? [= ->]).
  destruct request; try done; refine (Hgo _ Hreq _); clear Hgo Hreq.
  - (* start *)
    unfold handle_pty_start. destruct (rt_attach _ _ _ _) as [[? runtime]|]; [|done].
    destruct (resolve_pty_working_dir _ _ _) as [cwd|]; [|done]. destruct (pty_argv_is_non_login _); [|done].
    cbn [negb]. match goal with |- context [pty_start ?a ?b ?c ?d ?e ?f ?g ?h ?i ?j ?k ?l ?m ?n ?o ?p] =>
      pose proof (pty_start_ok b a c g h i j k l m n o p w Henv Hok Hlt) as Hstart end.
    destruct (pty_start _ _ _ _ _ _ _ _ _ _ _ _ _ _ _ _ _) as [w1 [s|]]; cbn in Hstart |- *; [|done].
    by apply pty_append_ok.
  - (* attach *)
    apply on_terminal_ok; [done|done|intros _; by apply pty_attach_ok|]. intros s w1. cbn. by apply pty_append_ok.
  - (* input *)
    unfold pty_input_request. match goal with |- context [require_owner _ _ _ ?i ?s _] =>
      pose proof (require_owner_ok env i s Henv w Hok) as Hok1 end.
    destruct (require_owner _ _ _ _ _ _) as [w1 [s|error]]; [|done]. cbn in Hok1.
    destruct (b64_decode _) as [data|]; [|done].
    match goal with |- context [write_input _ _ _ ?i _ _] =>
      pose proof (write_input_ok env i data Henv w1 Hok1) as Hok2 end.
    by destruct (write_input _ _ _ _ _ _) as [w2 [u|error]].
  - (* output *)
    apply on_terminal_ok; [done|done|intros _; by apply read_output_ok|]. intros chunk w1 Hok1. cbn.
    destruct (chunk_spill chunk), (chunk_eof chunk); cbn; repeat apply pty_append_ok; done.
  - (* resize *)
    apply on_terminal_ok; [done|done|intros _; by apply pty_resize_ok|done].
  - (* detach *)
    apply on_terminal_ok; [done|done|intros _; by apply pty_detach_ok|]. intros s w1. cbn. by apply pty_append_ok.
  - (* terminate *)
    apply on_terminal_ok; [done|done|intros _; by apply pty_terminate_ok|]. intros u w1 Hok1.
    cbn. by apply pty_append_ok, refresh_exit_ok.
  - (* status *)
    apply on_terminal_ok; [done|done|by intros s w1|done].
  - (* list *)
    destruct (rt_attach _ _ _ _); [|done].
    match goal with |- context [list_sessions_for_owner _ _ _ ?o ?b _] =>
      pose proof (list_sessions_ok env o b w Henv Hok) as Hok1 end.
    by destruct (list_sessions_for_owner _ _ _ _ _ _).
Qed.
End invariants.

(** ** The terminals of a daemon over time *)

(** A request, a start by the daemon itself, a read or the end of a terminal's reader, a
    change the operating system makes, and a restart. *)
Inductive PtyStep (O : Type) :=
  | StepRequest (env : PtyEnv) (request : IpcRequest)
  | StepStart (env : PtyEnv) (owner : Uuid) (command : string) (args : list string)
      (working_dir : string) (origin : ActionOrigin) (cols rows intent_revision : N)
  | StepReads (env : PtyEnv) (id : N) (chunk : list ascii)
  | StepEnds (env : PtyEnv) (id : N)
  | StepSystem (change : O → O)
  | StepRestart.
Arguments StepRequest {O} env request.
Arguments StepStart {O} env owner command args working_dir origin cols rows intent_revision.
Arguments StepReads {O} env id chunk.
Arguments StepEnds {O} env id.
Arguments StepSystem {O} change.
Arguments StepRestart {O}.

(** The terminal a request is about, and the session that asks. *)
Definition request_terminal (request : IpcRequest) : option (Uuid * N) :=
  match request with
  | ReqPtyAttach sid id | ReqPtyInput sid id _ | ReqPtyOutput sid id _ | ReqPtyResize sid id _ _
  | ReqPtyDetach sid id | ReqPtyTerminate sid id | ReqPtyStatus sid id => Some (sid, id)
  | _ => None
  end.

Section daemon.
Context `{Json} `{FileSystem} `{UrlCrate} `{Codec} `{DisplayStoreError} `{UuidText} `{Base64}.
Context {St : Type} `{!EventStore St} {F : Type} `{!WorkFiles F} `{!FileChanges F}.
Context {S : Type} `{!PtySessionStore S} {O : Type} `{!PtySystem O}.
Context (heap : PolicyHeap) (policy : PolicyEngine) (seam : EffectSeam) (fenced stored : bool).
Context (artifacts : option string) (ring_size : nat).
Context (sandbox : option (string → list string → string → string → list (string * string) →
                             result string PtyCommand)).

Abbreviation World := (PtyWorld (St := St) (F := F) (S := S) (O := O)).

Definition pty_step (w : World) (step : PtyStep O) : World :=
  match step with
  | StepRequest env request =>
      match handle_pty_request heap policy seam fenced stored artifacts ring_size sandbox env request w with
      | Some (w', _) => w'
      | None => w
      end
  | StepStart env owner command args working_dir origin cols rows intent_revision =>
      (pty_start heap seam fenced stored artifacts ring_size sandbox env owner command args working_dir
         origin cols rows intent_revision w).1
  | StepReads env id chunk => reader_reads artifacts env id chunk w
  | StepEnds env id => reader_ends artifacts env id w
  | StepSystem change => pw_with_os (change (pw_os w)) w
  | StepRestart => pty_restart stored w
  end.

Definition pty_daemon (os : O) (art : ArtWorld F) (events : St) (rows : S) : World :=
  mkPtyWorld os art events rows ∅ ∅ 1.

(** The owner of a session never changes. *)
Lemma pty_set_state_owner env id st id' s (w : World) :
  pw_sessions w !! id' = Some s →
  ∃ s', pw_sessions (pty_set_state stored env id st w) !! id' = Some s' ∧ pty_owner s' = pty_owner s.
Proof.
  intros Hs. unfold pty_set_state. destruct (pw_sessions w !! id) as [s0|] eqn:Hs0; [|by exists s].
  set (w1 := persist _ _ _ _).
  assert (pw_sessions w1 = <[id := with_state st s0]> (pw_sessions w)) as Es
    by (subst w1; unfold persist; by destruct stored).
  assert (∃ s', pw_sessions w1 !! id' = Some s' ∧ pty_owner s' = pty_owner s) as Hw1.
  { rewrite Es. destruct (decide (id' = id)) as [->|Hne].
    - rewrite lookup_insert_eq. eexists. split; [done|]. cbn. congruence.
    - rewrite lookup_insert_ne by done. by exists s. }
  by destruct stored.
Qed.

Lemma refresh_exit_owner env id id' s (w : World) :
  pw_sessions w !! id' = Some s →
  ∃ s', pw_sessions (refresh_exit stored artifacts env id w) !! id' = Some s' ∧ pty_owner s' = pty_owner s.
Proof.
  intros Hs. unfold refresh_exit. destruct (pw_live w !! id) as [l|]; [|by exists s].
  destruct (pty_try_wait _ _); [|by exists s]. by apply pty_set_state_owner.
Qed.

(** A request about a terminal of another session is answered that the terminal is
    another session's, whatever the request, and has no effect: the terminal is not read,
    written, resized or ended and no event is appended; at most an exit that already
    happened is noted. *)
Theorem other_session_refused env request sid id s (w : World) :
  request_terminal request = Some (sid, id) → pw_sessions w !! id = Some s → pty_owner s ≠ sid →
  handle_pty_request heap policy seam fenced stored artifacts ring_size sandbox env request w =
    Some (refresh_exit stored artifacts env id w,
          RespError CodeUnavailable (pty_error_text (PtyNotOwner id))).
Proof.
  intros Hreq Hs Howner. destruct (refresh_exit_owner env id id s w Hs) as (s' & Hs' & Ho).
  assert (require_owner stored artifacts env id sid w =
            (refresh_exit stored artifacts env id w, Err (PtyNotOwner id))) as Hreject.
  { unfold require_owner, pty_get_session. rewrite Hs'. by rewrite (proj2 (N.eqb_neq _ _)) by congruence. }
  destruct request; cbn [request_terminal] in Hreq; try done; injection Hreq as -> ->; cbn [handle_pty_request];
    unfold pty_output_request, pty_terminate_request, pty_input_request, on_terminal; by rewrite Hreject.
Qed.

Context (holds : S → gmap N PtySessionRecord → Prop) `{!PtyStoreLaws S holds} `{!PtySystemLaws O}.

Definition step_fits (step : PtyStep O) : Prop :=
  match step with
  | StepRequest env _ | StepStart env _ _ _ _ _ _ _ _ | StepReads env _ _ | StepEnds env _ => env_fits env
  | StepSystem _ | StepRestart => True
  end.

Abbreviation ok_at bound base known := (pty_ok holds stored ring_size bound base known).

Lemma pty_ok_mono b b' base known (w : World) : (b ≤ b')%N → ok_at b base known w → ok_at b' base known w.
Proof. intros Hb [? ? ? Hn ?]. split; [done..| |done]. lia. Qed.

(** The point itself as the earlier one. *)
Lemma pty_ok_here b base known (w : World) :
  ok_at b base known w → ok_at b (pw_next_id w) (λ id, is_Some (pw_sessions w !! id)) w.
Proof.
  intros [? Hid ? Hn ?]. split; [done| |done|lia|done].
  intros id s Hs. destruct (Hid id s Hs) as (? & [? _] & ? & ?). split_and!; [done| |done|done].
  split; [done|left; by eexists].
Qed.

Definition no_restart (step : PtyStep O) : Prop := match step with StepRestart => False | _ => True end.

(** Each step takes one id at most. *)
Lemma pty_step_ok bound base known step (w : World) :
  (1 ≤ bound < i64_max)%N → step_fits step → base = 0%N ∨ no_restart step → ok_at bound base known w →
  ok_at (bound + 1) base known (pty_step w step).
Proof.
  intros Hb Hfit Hbase Hok0. assert (bound + 1 ≤ i64_max)%N as Hb' by lia.
  pose proof (pty_ok_mono bound (bound + 1) base known w ltac:(lia) Hok0) as Hok.
  assert (pw_next_id w < bound + 1)%N as Hlt by (destruct Hok0; lia).
  destruct step as [env request|env owner command args cwd origin cols rows rev|env id chunk|env id|change|];
    cbn [pty_step step_fits no_restart] in *.
  - destruct (handle_pty_request _ _ _ _ _ _ _ _ _ _ _) as [[w' response]|] eqn:Hreq; [|done].
    by eapply (handle_pty_request_ok holds stored artifacts ring_size (bound + 1) Hb').
  - by apply (pty_start_ok holds stored artifacts ring_size (bound + 1) Hb').
  - by apply reader_reads_ok.
  - by apply reader_ends_ok.
  - by apply (pty_ok_same holds stored ring_size (bound + 1) base known w).
  - destruct Hbase as [Hbase|[]].
    apply (pty_restart_ok (O := O) holds stored ring_size (bound + 1) Hb'); [lia|done|done].
Qed.

Lemma pty_steps_ok steps bound base known (w : World) :
  (1 ≤ bound)%N → (bound + N.of_nat (length steps) ≤ i64_max)%N → Forall step_fits steps →
  base = 0%N ∨ Forall no_restart steps → ok_at bound base known w →
  ok_at (bound + N.of_nat (length steps)) base known (foldl pty_step w steps).
Proof.
  revert bound w. induction steps as [|step steps IH]; intros bound w Hb Hlen Hfit Hbase Hok.
  { cbn. by rewrite N.add_0_r. }
  apply Forall_cons in Hfit as [Hstep Hfit]. cbn [length foldl] in *. rewrite Forall_cons in Hbase.
  replace (bound + N.of_nat (Datatypes.S (length steps)))%N with (bound + 1 + N.of_nat (length steps))%N by lia.
  apply IH; [lia|lia|done|naive_solver|]. apply pty_step_ok; [lia|done|naive_solver|done].
Qed.

Lemma pty_daemon_ok os art events rows :
  holds rows ∅ → ok_at 1 0 (λ _, True) (pty_daemon os art events rows).
Proof.
  intros Hrows. split; cbn; try done.
  - intros id. rewrite lookup_empty. by split; [intros []|intros (? & ? & _)].
  - intros _. by exists ∅.
Qed.

(** C18: Whatever clients and the daemon ask, terminals print, processes do and however
    often the daemon restarts: a terminal has a live part exactly when its state says it
    runs, attached or detached; no ring holds more than the configured size, at least
    a byte and at most [MAX_PTY_RING_BYTES]; the durable rows hold exactly the
    terminals in memory, with the same owners and states; and the ids of the terminals
    that are there are below the next to be given.  From any such point until the
    daemon restarts, a terminal with an id given before was there at that point: an id
    is not given twice, also when its terminal was forgotten. *)
Theorem terminals_accounted steps more os art events rows :
  (N.of_nat (length steps + length more) < i64_max)%N → Forall step_fits (steps ++ more) → holds rows ∅ →
  let w := foldl pty_step (pty_daemon os art events rows) steps in
  (∀ id, is_Some (pw_live w !! id) ↔ ∃ s, pw_sessions w !! id = Some s ∧ pty_is_running s = true) ∧
  (∀ id s, pw_sessions w !! id = Some s → pty_id s = id ∧ (id < pw_next_id w)%N) ∧
  (∀ id l, pw_live w !! id = Some l → length (ring_data (lp_ring l)) ≤ pty_capacity ring_size) ∧
  (stored = true → ∃ m, holds (pw_rows w) m ∧
     ∀ id, row_view <$> m !! id = session_view <$> pw_sessions w !! id) ∧
  (Forall no_restart more → let w' := foldl pty_step w more in
     (pw_next_id w ≤ pw_next_id w')%N ∧
     ∀ id, (id < pw_next_id w)%N → is_Some (pw_sessions w' !! id) → is_Some (pw_sessions w !! id)).
Proof.
  intros Hlen [Hfit Hmore]%Forall_app Hrows. cbv zeta.
  pose proof (pty_steps_ok steps 1 0 (λ _, True) _ (N.le_refl _) ltac:(lia) Hfit (or_introl eq_refl)
                (pty_daemon_ok os art events rows Hrows)) as Hok.
  set (w := foldl _ _ steps) in *. split_and!; [apply Hok| | |apply Hok|].
  - intros id s Hs. destruct (ok_id _ _ _ _ _ _ _ Hok id s Hs) as (? & [? _] & _). by split.
  - intros id l Hl. destruct (ok_rings _ _ _ _ _ _ _ Hok id l Hl) as (input & gone & Hring). apply Hring.
  - intros Hno.
    pose proof (pty_steps_ok more (1 + N.of_nat (length steps))%N _ _ w ltac:(lia) ltac:(lia) Hmore (or_intror Hno) (pty_ok_here _ _ _ _ Hok)) as Hok'.
    split; [apply (ok_next _ _ _ _ _ _ _ Hok')|]. intros id Hlt [s Hs].
    destruct (ok_id _ _ _ _ _ _ _ Hok' id s Hs) as (_ & [_ [Hin|?]] & _); [done|lia].
Qed.
End daemon.

(** ** Concrete terminals *)

Section sample.
#[local] Existing Instances sample_fs sample_urls sample_codec sample_json orch_display.
#[local] Existing Instances bits_uuid bits_uuid_laws bits_pty_json bits_pty_laws.
#[local] Instance plain_terminal_text : Base64 := {| b64_decode := Some; b64_encode s := s |}.

(** A system of terminals: for each handle, whether its process ended and how. *)
#[local] Instance list_system : PtySystem (list (option bool)) := {|
  pty_openpty _ _ os := (os ++ [None], Ok (length os));
  pty_spawn_command h _ os := (os, Ok (Some (N.of_nat h mod 1000)%N));
  pty_close h os := <[h := Some false]> os;
  pty_try_wait h os := (λ ok : bool, mkExitStatus ok 1) <$> mjoin (os !! h);
  pty_kill h os := <[h := Some false]> os;
  pty_write _ _ os := (os, Ok tt);
  pty_resize _ _ _ os := (os, Ok tt);
|}.

#[local] Instance list_system_laws : PtySystemLaws (list (option bool)).
Proof.
  split.
  - intros h cmd os os' pid [= _ <-].
    pose proof (N.mod_lt (N.of_nat h) 1000 ltac:(lia)). unfold u32_max. lia.
  - intros h os st. cbn. destruct (mjoin (os !! h)); [|done]. intros [= <-]. by cbn.
Qed.

Definition pty_files : ArtWorld Demo.Fs :=
  mkArtWorld (<["/ws" := Demo.Dir []]> (<["/store" := Demo.Dir []]> ∅)) [].

Definition at_time (n : N) : PtyEnv :=
  mkPtyEnv n (n + 1000)%N (λ m, (map_to_list m).*2) (n + 2000)%N (λ i, ((n + N.of_nat i)%N, n)) map_to_list.

Definition sample_pty (fenced : bool) := pty_step (St := MemoryEventStore) (F := Demo.Fs)
  (S := list PtyRow) (O := list (option bool)) sample_heap (seam_policy sample_seam) sample_seam
  fenced true (Some "/store") 4 None.

Definition sample_pty_daemon : PtyWorld (St := MemoryEventStore) (F := Demo.Fs) (S := list PtyRow)
    (O := list (option bool)) :=
  pty_daemon [] pty_files sample_created [].

Definition answer_to (request : IpcRequest)
    (w : PtyWorld (St := MemoryEventStore) (F := Demo.Fs) (S := list PtyRow) (O := list (option bool)))
    : option IpcResponse :=
  snd <$> handle_pty_request sample_heap (seam_policy sample_seam) sample_seam true true (Some "/store") 4 None
            (at_time 500) request w.

Definition sample_steps : list (PtyStep (list (option bool))) :=
  [StepRequest (at_time 100) (ReqPtyStart 1 "sh" [] None None None);
   StepReads (at_time 101) 1 ["h"; "e"; "l"; "l"; "o"]%char;
   StepRequest (at_time 102) (ReqPtyDetach 1 1);
   StepRequest (at_time 103) (ReqPtyStart 1 "top" [] None None None)].

Definition sample_terminals := foldl (sample_pty true) sample_pty_daemon sample_steps.

Lemma other_session_witness :
  answer_to (ReqPtyInput 2 1 "rm") sample_terminals =
    Some (RespError CodeUnavailable "pty PtySessionId(1) is owned by another session").
Proof.
  unfold answer_to. erewrite (other_session_refused sample_heap (seam_policy sample_seam) sample_seam true true
    (Some "/store") 4 None (at_time 500) (ReqPtyInput 2 1 "rm") 2 1
    (mkPtySession 1 1 "sh" [] "/ws" [] (PtyDetached 0) User 100 80 24) sample_terminals);
    [reflexivity|reflexivity|vm_compute; reflexivity|discriminate].
Defined.

(** A process that ended and a restart: the rows say so. *)
Definition ended_steps : list (PtyStep (list (option bool))) :=
  sample_steps ++ [StepSystem (<[0 := Some false]>); StepRequest (at_time 104) (ReqPtyStatus 1 1); StepRestart].

Definition restarted : string := "pty handle lost after daemon restart; re-PtyStart required".

Lemma terminals_witness :
  let w := foldl (sample_pty true) sample_pty_daemon ended_steps in
  pw_next_id w = 3%N ∧ pw_live w !! 2%N = None ∧ ∃ m, table_of (pw_rows w) m ∧
  row_view <$> m !! 1%N = Some (1%N, Wire.PtyExited (Some 1%Z)) ∧
  row_view <$> m !! 2%N = Some (1%N, PtyFailed restarted).
Proof.
  assert (Forall (step_fits (O := list (option bool))) ended_steps) as Hfit
    by (repeat constructor; vm_compute; discriminate).
  assert (table_of [] ∅) as Hempty by apply table_of_empty.
  cbv zeta. split; [vm_compute; reflexivity|]. split; [vm_compute; reflexivity|].
  destruct (terminals_accounted sample_heap (seam_policy sample_seam) sample_seam true true (Some "/store") 4
    None table_of ended_steps [] [] pty_files sample_created [] ltac:(vm_compute; reflexivity)
    ltac:(rewrite app_nil_r; exact Hfit) Hempty)
    as (_ & _ & _ & Hrows & _).
  destruct (Hrows eq_refl) as (m & Hm & Hview). exists m. split; [exact Hm|].
  split; [exact (eq_trans (Hview 1%N) ltac:(vm_compute; reflexivity))|
          exact (eq_trans (Hview 2%N) ltac:(vm_compute; reflexivity))].
Defined.

(** What a process printed last is lost when nobody read it before the process ended. *)
Example last_output_lost :
  answer_to (ReqPtyOutput 1 1 None) (foldl (sample_pty true) sample_pty_daemon
    [StepRequest (at_time 100) (ReqPtyStart 1 "sh" [] None None None);
     StepReads (at_time 101) 1 ["b"; "y"; "e"]%char; StepEnds (at_time 102) 1;
     StepSystem (<[0 := Some true]>)]) =
  Some (RespError CodeMissingSession "session not live (detached metadata only): PtySessionId(1)").
Proof. vm_compute. reflexivity. Qed.

(** Ending a terminal that has ended forgets how it did. *)
Example ended_again_forgets_code :
  let w := foldl (sample_pty true) sample_pty_daemon
    [StepRequest (at_time 100) (ReqPtyStart 1 "sh" [] None None None);
     StepSystem (<[0 := Some false]>); StepRequest (at_time 102) (ReqPtyStatus 1 1)] in
  let state w := pty_state <$> pw_sessions w !! 1%N in
  state w = Some (Wire.PtyExited (Some 1%Z)) ∧
  state (sample_pty true w (StepRequest (at_time 103) (ReqPtyTerminate 1 1))) = Some (Wire.PtyExited None).
Proof. split; vm_compute; reflexivity. Qed.

(** After a row that cannot be read, ids start again: a new terminal is stored over the
    row of an old one, which keeps the old command. *)
Example bad_row_reuses_id :
  let bad := mkPtyRow 1 "sh" "" "/ws" "" "running" (Some "x") "user" 100 100 "" in
  let w := foldl (sample_pty true) (pty_daemon [] pty_files sample_created [bad])
    [StepRestart; StepRequest (at_time 200) (ReqPtyStart 1 "top" [] None None None)] in
  pty_command <$> pw_sessions w !! 1%N = Some "top" ∧
  (λ row, (row_id row, row_command row, row_state_data row)) <$> pw_rows w = [(1%N, "sh", Some "0")].
Proof. split; vm_compute; reflexivity. Qed.

(** The size of a terminal is not stored. *)
Example restart_forgets_size :
  let w := foldl (sample_pty true) sample_pty_daemon
    [StepRequest (at_time 100) (ReqPtyStart 1 "sh" [] None (Some 200%N) (Some 50%N)); StepRestart] in
  (λ s, (pty_cols s, pty_rows s)) <$> pw_sessions w !! 1%N = Some (80%N, 24%N).
Proof. vm_compute. reflexivity. Qed.

(** Flags of a login shell that are written together pass. *)
Example login_flags_together : pty_argv_is_non_login ["-lc"; "ls"] = true.
Proof. reflexivity. Qed.

Definition agent_sandbox : option (string → list string → string → string → list (string * string) →
    result string PtyCommand) :=
  Some (λ command args _ cwd env, Ok (mkPtyCommand command args cwd env)).

Definition agent_start (n : N) := pty_start (St := MemoryEventStore) (F := Demo.Fs) (S := list PtyRow)
  (O := list (option bool)) sample_heap (with_execution_mode sample_seam Bypass) true true (Some "/store") 4
  agent_sandbox (at_time n) 1 "cargo" ["test"] "/ws" Agent 80 24 1.

(** The second start of the same agent terminal is taken for a replay of the first. *)
Example agent_terminal_once :
  let first := agent_start 100 sample_pty_daemon in
  is_ok first.2 = true ∧
  (agent_start 200 first.1).2 =
    Err (PtyPolicyDenied "effect fence: effect fence already Observed — refuse blind replay").
Proof. split; vm_compute; reflexivity. Qed.
End sample.
