(* ===== verification/MemoryRuntime.v ===== *)
(** * Memory of sessions

    [SessionMemoryRuntime] of [crates/impetus-core/src/memory_runtime.rs]: a memory
    store per session, kept in JSON lines below a root when one is configured, and the
    memory requests of [harness_api.rs].  The block of memory a prompt starts with. *)

From S2P Require Import Prelude Triple Str Utf8 Action PathScope WebSecurity Policy Effect Events EventStore EffectFence WorkspaceFiles Redact.
From S2P Require Import McpClient MemoryStore HookPrefilter Artifacts Wire Ipc Harness.

Open Scope string_scope.
Open Scope nat_scope.
Open Scope list_scope.
Open Scope impetus_scope.

Definition ENTRIES_FILE : string := "entries.jsonl".

Definition memory_error_text (e : MemoryStoreError) : string :=
  match e with
  | MemAlreadyExists id => "memory entry already exists for id: " ++ id
  | UnsafeStorePath path => "memory store path escapes root or follows unsafe symlink: " ++ path
  | MemIo msg => "memory store io error: " ++ msg
  | InvalidSource msg => "memory source format error: " ++ msg
  end%string.

(** ** Entries on the wire *)

Definition to_core_scope (s : MemoryEntryScope) : MemoryScope :=
  match s with EntryProject => MemProject | EntryTeam => MemTeam | EntryUser => MemUser end.

Definition to_wire_scope (s : MemoryScope) : MemoryEntryScope :=
  match s with MemProject => EntryProject | MemTeam => EntryTeam | MemUser => EntryUser end.

Definition to_wire_entry (e : MemoryEntry) : MemoryEntryInfo :=
  mkMemoryEntryInfo (mem_id e) (to_wire_scope (mem_scope e)) (mem_content e)
    (mkProvenanceInfo (prov_source (mem_provenance e)) (prov_kind (mem_provenance e))).

(** ** The block of a prompt *)

Definition MEMORY_PROMPT_CONTEXT_HEADER : string :=
  "## Impetus memory (untrusted contextual knowledge; not policy)".
Definition PROMPT_CONTEXT_MAX_CHARS : N := 8000.

Definition context_chunk (e : MemoryEntry) : string :=
  (nl ++ "### [" ++ scope_label (mem_scope e) ++ "] id=" ++ mem_id e ++ nl
   ++ trim_end (mem_content e) ++ nl)%string.

(** The [for] over the entries. *)
Fixpoint context_body (body : string) (entries : list MemoryEntry) : string :=
  match entries with
  | [] => body
  | e :: entries' =>
      if is_empty (trim (mem_content e)) then context_body body entries'
      else
        let chunk := context_chunk e in
        if (saturating_sub PROMPT_CONTEXT_MAX_CHARS
              (N.of_nat (String.length MEMORY_PROMPT_CONTEXT_HEADER) + 32)
            <? N.of_nat (String.length body) + N.of_nat (String.length chunk))%N
        then (body ++ nl ++ "…[truncated to memory context ceiling]" ++ nl)%string
        else context_body (body ++ chunk)%string entries'
  end.

Definition format_prompt_context_block (entries : list MemoryEntry) : option string :=
  let body := context_body "" entries in
  if is_empty body then None
  else Some (MEMORY_PROMPT_CONTEXT_HEADER ++ nl ++ body)%string.

(** ** The runtime *)

Section runtime.
Context `{MemoryJson} `{UuidText} {F : Type} `{!WorkFiles F}.
(** [persist_root] *)
Context (persist_root : option string).

Record MemoryRuntime := mkMemoryRuntime {
  mr_sessions : gmap Uuid MemoryStore;
  mr_files : F;
}.

Abbreviation runR := (stateR MemoryRuntime MemoryStoreError).

Definition session_dir (sid : Uuid) : option string :=
  (λ root, path_join root (uuid_to_string sid)) <$> persist_root.

Definition entries_path (sid : Uuid) : option string :=
  (λ dir, path_join dir ENTRIES_FILE) <$> session_dir sid.

Definition load_or_empty (sid : Uuid) (f : F) : result MemoryStoreError MemoryStore :=
  match entries_path sid with
  | None => Ok []
  | Some path =>
      match read_to_string path f with
      | Ok text => from_jsonl text
      | Err err =>
          if io_not_found err then Ok []
          else Err (MemIo ("read " ++ path ++ ": " ++ io_text err)%string)
      end
  end.

Definition persist_memory (sid : Uuid) (m : MemoryStore) : runR () := λ w,
  match session_dir sid with
  | None => (w, Ok tt)
  | Some dir =>
      let path := path_join dir ENTRIES_FILE in
      match wf_create_dir_all dir (mr_files w) with
      | (f, Err err) =>
          (mkMemoryRuntime (mr_sessions w) f, Err (MemIo ("create " ++ dir ++ ": " ++ io_text err)%string))
      | (f, Ok _) =>
          match wf_write path (export_jsonl m) f with
          | (f, Err err) =>
              (mkMemoryRuntime (mr_sessions w) f, Err (MemIo ("write " ++ path ++ ": " ++ io_text err)%string))
          | (f, Ok _) => (mkMemoryRuntime (mr_sessions w) f, Ok tt)
          end
      end
  end.

(** The store of a session, read from its file when it is not in memory. *)
Definition session_store (sid : Uuid) : runR MemoryStore := λ w,
  match mr_sessions w !! sid with
  | Some m => (w, Ok m)
  | None =>
      match load_or_empty sid (mr_files w) with
      | Ok m => (mkMemoryRuntime (<[sid := m]> (mr_sessions w)) (mr_files w), Ok m)
      | Err e => (w, Err e)
      end
  end.

Definition put_store (sid : Uuid) (m : MemoryStore) : runR () :=
  StateR.modify (λ w, mkMemoryRuntime (<[sid := m]> (mr_sessions w)) (mr_files w)).

Definition with_session_memory_mut {R} (sid : Uuid) (f : MemoryStore → MemoryStore * result MemoryStoreError R)
    : runR R :=
  m <-- session_store sid ;;
  let '(m', out) := f m in
  put_store sid m' ;;;
  out <-- StateR.lift out ;;
  persist_memory sid m' ;;;
  StateR.ret out.

Definition with_session_memory {R} (sid : Uuid) (f : MemoryStore → R) : runR R :=
  m <-- session_store sid ;; StateR.ret (f m).

Definition scope_wanted (scope : option MemoryEntryScope) (e : MemoryEntry) : bool :=
  match scope with None => true | Some s => bool_decide (mem_scope e = to_core_scope s) end.

Definition session_memory_list (sid : Uuid) (scope : option MemoryEntryScope) : runR (list MemoryEntryInfo) :=
  with_session_memory sid (λ m, to_wire_entry <$> List.filter (scope_wanted scope) m).

Definition session_memory_get (sid : Uuid) (id : string) : runR (option MemoryEntryInfo) :=
  with_session_memory sid (λ m, to_wire_entry <$> mem_get id m).

Definition session_memory_append (sid : Uuid) (id : string) (scope : MemoryEntryScope) (content : string)
    (provenance : MemoryProvenanceInfo) : runR MemoryEntryInfo :=
  with_session_memory_mut sid (λ m,
    let m' := append_memory id (to_core_scope scope) content
                (mkMemoryProvenance (mpi_source provenance) (mpi_kind provenance)) m in
    (m', ok_or (to_wire_entry <$> mem_get id m') (MemIo "append did not materialize entry"))).

Definition session_memory_clear (sid : Uuid) (scope : option MemoryEntryScope) : runR N :=
  with_session_memory_mut sid (λ m,
    let '(m', removed) := match scope with
      | Some scope => clear_scope (to_core_scope scope) m
      | None => mem_clear m
      end in (m', Ok (N.of_nat removed))).

Definition session_memory_export (sid : Uuid) (format : MemoryExportFormat) : runR string :=
  with_session_memory sid (λ m, match format with
    | FormatJsonl => export_jsonl m
    | FormatMarkdown => export_markdown m
    end).

Definition prompt_context_block (sid : Uuid) (w : MemoryRuntime) : MemoryRuntime * option string :=
  match with_session_memory sid (List.filter (in_scope MemProject)) w with
  | (w, Ok entries) => (w, format_prompt_context_block entries)
  | (w, Err _) => (w, None)
  end.
End runtime.

Arguments MemoryRuntime : clear implicits.
Arguments mkMemoryRuntime {F} _ _.
Arguments mr_sessions {F} _.
Arguments mr_files {F} _.

(** ** The requests *)

Section requests.
Context `{Json} `{FileSystem} `{UrlCrate} `{Codec} `{DisplayStoreError} `{UuidText}.
Context `{MemoryJson} {St : Type} `{!HarnessStore St} {F : Type} `{!WorkFiles F}.
(** Whether a runtime is wired, and its root. *)
Context (wired : bool) (persist_root : option string).

Definition require_session (sid : Uuid) (st : St) : result IpcResponse () :=
  match store_list_sessions st with
  | Ok sessions =>
      if existsb (λ s, (info_id s =? sid)%N) sessions then Ok tt
      else Err (RespError CodeMissingSession ("session " ++ uuid_to_string sid ++ " not found")%string)
  | Err err => Err (RespError CodeInternal (store_error_to_string err))
  end.

Definition require_memory : result IpcResponse () :=
  if wired then Ok tt
  else Err (RespError CodeUnavailable "MemoryStore control-plane not wired on this harness").

Definition memory_store_error (e : MemoryStoreError) : IpcResponse :=
  RespError CodeInvalidRequest (memory_error_text e).

(** The five handlers: the session is looked up first, then the runtime. *)
Definition on_memory {A} (sid : Uuid) (st : St) (op : stateR (MemoryRuntime F) MemoryStoreError A)
    (answer : A → IpcResponse) (w : MemoryRuntime F) : MemoryRuntime F * IpcResponse :=
  match require_session sid st with
  | Err resp => (w, resp)
  | Ok _ =>
      match require_memory with
      | Err resp => (w, resp)
      | Ok _ =>
          match op w with
          | (w, Ok a) => (w, answer a)
          | (w, Err err) => (w, memory_store_error err)
          end
      end
  end.

Definition handle_memory_request (st : St) (request : IpcRequest) (w : MemoryRuntime F)
    : option (MemoryRuntime F * IpcResponse) :=
  match request with
  | ReqListMemory sid scope =>
      Some (on_memory sid st (session_memory_list persist_root sid scope) (RespMemoryEntries sid) w)
  | ReqGetMemory sid id =>
      Some (on_memory sid st (session_memory_get persist_root sid id) (λ found, match found with
              | Some entry => RespMemoryEntry sid entry
              | None => RespError CodeInvalidRequest ("memory entry `" ++ id ++ "` not found")%string
              end) w)
  | ReqAppendMemory sid id scope content provenance =>
      Some (on_memory sid st (session_memory_append persist_root sid id scope content provenance)
              (RespMemoryEntry sid) w)
  | ReqClearMemory sid scope =>
      Some (on_memory sid st (session_memory_clear persist_root sid scope) (RespMemoryCleared sid) w)
  | ReqExportMemory sid format =>
      Some (on_memory sid st (session_memory_export persist_root sid format) (RespMemoryExport sid format) w)
  | _ => None
  end.
End requests.

(** ** What the runtime promises *)

Inductive MemoryOp :=
  | MoList (sid : Uuid) (scope : option MemoryEntryScope)
  | MoGet (sid : Uuid) (id : string)
  | MoAppend (sid : Uuid) (id : string) (scope : MemoryEntryScope) (content : string)
      (provenance : MemoryProvenanceInfo)
  | MoClear (sid : Uuid) (scope : option MemoryEntryScope)
  | MoExport (sid : Uuid) (format : MemoryExportFormat)
  | MoRestart.

Inductive MemoryAnswer :=
  | AnEntries (entries : list MemoryEntryInfo)
  | AnEntry (found : option MemoryEntryInfo)
  | AnAppended (entry : MemoryEntryInfo)
  | AnCleared (removed : N)
  | AnText (body : string)
  | AnRestarted.

Definition answered {W E A} (f : A → MemoryAnswer) (m : stateR W E A) : stateR W E MemoryAnswer := λ w,
  let '(w, r) := m w in (w, f <$> r).

Section refinement.
Context `{MemoryJson} `{UuidText} {F : Type} `{!WorkFiles F} (root : string).

Definition memory_step (op : MemoryOp)
    : stateR (MemoryRuntime F) MemoryStoreError MemoryAnswer :=
  match op with
  | MoList sid scope => answered AnEntries (session_memory_list (Some root) sid scope)
  | MoGet sid id => answered AnEntry (session_memory_get (Some root) sid id)
  | MoAppend sid id scope content provenance =>
      answered AnAppended (session_memory_append (Some root) sid id scope content provenance)
  | MoClear sid scope => answered AnCleared (session_memory_clear (Some root) sid scope)
  | MoExport sid format => answered AnText (session_memory_export (Some root) sid format)
  | MoRestart => λ w, (mkMemoryRuntime ∅ (mr_files w), Ok AnRestarted)
  end.

Fixpoint memory_run (ops : list MemoryOp) (w : MemoryRuntime F)
    : MemoryRuntime F * list (result MemoryStoreError MemoryAnswer) :=
  match ops with
  | [] => (w, [])
  | op :: ops' =>
      let '(w, a) := memory_step op w in
      let '(w, answers) := memory_run ops' w in (w, a :: answers)
  end.

(** The specification: one store per session, in memory, never lost. *)
Abbreviation Stores := (gmap Uuid MemoryStore).

Definition store_of (sid : Uuid) (m : Stores) : MemoryStore := default [] (m !! sid).

Definition spec_step (op : MemoryOp) (m : Stores) : Stores * result MemoryStoreError MemoryAnswer :=
  match op with
  | MoList sid scope =>
      (m, Ok (AnEntries (to_wire_entry <$> List.filter (scope_wanted scope) (store_of sid m))))
  | MoGet sid id => (m, Ok (AnEntry (to_wire_entry <$> mem_get id (store_of sid m))))
  | MoAppend sid id scope content provenance =>
      let store := append_memory id (to_core_scope scope) content
                     (mkMemoryProvenance (mpi_source provenance) (mpi_kind provenance)) (store_of sid m) in
      (<[sid := store]> m,
       AnAppended <$> ok_or (to_wire_entry <$> mem_get id store) (MemIo "append did not materialize entry"))
  | MoClear sid scope =>
      let '(store, removed) := match scope with
        | Some scope => clear_scope (to_core_scope scope) (store_of sid m)
        | None => mem_clear (store_of sid m)
        end in (<[sid := store]> m, Ok (AnCleared (N.of_nat removed)))
  | MoExport sid format =>
      (m, Ok (AnText match format with
                     | FormatJsonl => export_jsonl (store_of sid m)
                     | FormatMarkdown => export_markdown (store_of sid m)
                     end))
  | MoRestart => (m, Ok AnRestarted)
  end.

Fixpoint spec_run (ops : list MemoryOp) (m : Stores)
    : Stores * list (result MemoryStoreError MemoryAnswer) :=
  match ops with
  | [] => (m, [])
  | op :: ops' =>
      let '(m, a) := spec_step op m in
      let '(m, answers) := spec_run ops' m in (m, a :: answers)
  end.

Definition memory_file (sid : Uuid) : string :=
  path_join (path_join root (uuid_to_string sid)) ENTRIES_FILE.
Definition memory_dir (sid : Uuid) : string := path_join root (uuid_to_string sid).
End refinement.

(** The files of the sessions are no links to each other: a successful write is read
    back and leaves the files of other sessions, and so does making a directory. *)
Class MemoryFiles `{UuidText} (F : Type) `{!WorkFiles F} (root : string) (plain : F → Prop) := {
  mf_write f f' sid b :
    wf_write (memory_file root sid) b f = (f', Ok tt) → plain f →
    plain f' ∧ wf_read f' (memory_file root sid) = Ok b ∧
    ∀ sid', sid' ≠ sid → wf_read f' (memory_file root sid') = wf_read f (memory_file root sid');
  mf_dir f f' sid :
    wf_create_dir_all (memory_dir root sid) f = (f', Ok tt) → plain f →
    plain f' ∧ ∀ sid', wf_read f' (memory_file root sid') = wf_read f (memory_file root sid');
}.

(** serde_json writes valid UTF-8. *)
Class MemoryJsonText `{MemoryJson} := { memory_json_utf8 e : utf8_valid (memory_json e) = true }.

Section survives.
Context `{MemoryJsonLaws} `{!MemoryJsonText} `{UuidText} {F : Type} `{!WorkFiles F}.
Context (root : string) (plain : F → Prop) `{!MemoryFiles F root plain}.

Lemma export_valid m : utf8_valid (export_jsonl m) = true.
Proof.
  unfold export_jsonl. induction m as [|e m IH]; [done|]. cbn [fmap list_fmap concat_str].
  rewrite str_app_assoc, utf8_valid_app by apply memory_json_utf8.
  change (nl ++ ?s)%string with (String newline s). by rewrite utf8_valid_1.
Qed.

(** The file of a session holds its store; the file of an empty one may be missing. *)
Definition file_holds (f : F) (sid : Uuid) (m : MemoryStore) : Prop :=
  wf_read f (memory_file root sid) = Ok (export_jsonl m) ∨
  m = [] ∧ ∃ e, wf_read f (memory_file root sid) = Err e ∧ io_not_found e = true.

Record memory_inv (stores : gmap Uuid MemoryStore) (w : MemoryRuntime F) : Prop := {
  mi_plain : plain (mr_files w);
  mi_ok sid : mem_ok (store_of sid stores);
  mi_loaded sid m : mr_sessions w !! sid = Some m → m = store_of sid stores;
  mi_files sid : file_holds (mr_files w) sid (store_of sid stores);
}.

Lemma load_holds f sid m : mem_ok m → file_holds f sid m → load_or_empty (Some root) sid f = Ok m.
Proof.
  intros Hok Hf. unfold load_or_empty.
  change (entries_path (Some root) sid) with (Some (memory_file root sid)). cbv iota beta.
  unfold read_to_string. destruct Hf as [->|[-> (e & -> & He)]]; cbn.
  - rewrite export_valid. by apply jsonl_reads_back.
  - by rewrite He.
Qed.

(** The store of a session, from memory or from its file. *)
Lemma session_store_inv stores w sid :
  memory_inv stores w →
  ∃ w', session_store (Some root) sid w = (w', Ok (store_of sid stores)) ∧ memory_inv stores w' ∧
    mr_files w' = mr_files w.
Proof.
  intros [Hp Hok Hl Hf]. unfold session_store. destruct (mr_sessions w !! sid) as [m|] eqn:Hm.
  - exists w. by rewrite (Hl _ _ Hm).
  - rewrite (load_holds _ _ (store_of sid stores)) by done. eexists. split; [done|]. split; [|done].
    split; cbn; [done|done| |done]. intros sid' m [[<- <-]|[_ Hm']]%lookup_insert_Some; [done|by apply Hl].
Qed.

Lemma with_session_memory_inv {R} stores w sid (f : MemoryStore → R) :
  memory_inv stores w →
  ∃ w', with_session_memory (Some root) sid f w = (w', Ok (f (store_of sid stores))) ∧ memory_inv stores w'.
Proof.
  intros Hw. destruct (session_store_inv _ _ sid Hw) as (w' & Hs & Hw' & _).
  exists w'. unfold with_session_memory, StateR.bind. by rewrite Hs.
Qed.

Lemma store_of_insert sid sid' m stores :
  store_of sid' (<[sid := m]> stores) = if decide (sid' = sid) then m else store_of sid' stores.
Proof.
  unfold store_of. case_decide as Heq; [subst|].
  - by rewrite lookup_insert_eq.
  - by rewrite lookup_insert_ne.
Qed.

Lemma persist_inv stores w sid m w' :
  plain (mr_files w) → mr_sessions w !! sid = Some m →
  (∀ sid', mem_ok (store_of sid' (<[sid := m]> stores))) →
  (∀ sid' m', mr_sessions w !! sid' = Some m' → m' = store_of sid' (<[sid := m]> stores)) →
  (∀ sid', sid' ≠ sid → file_holds (mr_files w) sid' (store_of sid' stores)) →
  persist_memory (Some root) sid m w = (w', Ok tt) → memory_inv (<[sid := m]> stores) w'.
Proof.
  intros Hp Hm Hok Hl Hf. unfold persist_memory.
  change (session_dir (Some root) sid) with (Some (memory_dir root sid)). cbv iota beta zeta.
  change (path_join (memory_dir root sid) ENTRIES_FILE) with (memory_file root sid).
  destruct (wf_create_dir_all _ _) as [f [[]|e]] eqn:Hd; [|done].
  destruct (wf_write _ _ _) as [f' [[]|e]] eqn:Hw; [|done]. intros [= <-].
  destruct (mf_dir _ _ _ Hd Hp) as [Hp1 Hsame]. destruct (mf_write _ _ _ _ Hw Hp1) as (Hp2 & Hread & Hsame2).
  split; cbn; [done|done|done|]. intros sid'. rewrite store_of_insert. case_decide as Heq.
  - subst sid'. by left.
  - unfold file_holds. rewrite Hsame2, Hsame by done. by apply Hf.
Qed.

Lemma with_session_memory_mut_inv {R} stores w sid (f : MemoryStore → MemoryStore * result MemoryStoreError R) w' r m' out :
  memory_inv stores w → f (store_of sid stores) = (m', out) → mem_ok m' →
  with_session_memory_mut (Some root) sid f w = (w', Ok r) → out = Ok r ∧ memory_inv (<[sid := m']> stores) w'.
Proof.
  intros Hw Hf Hok. destruct (session_store_inv _ _ sid Hw) as (w1 & Hs & [Hp1 Hok1 Hl1 Hf1] & _).
  unfold with_session_memory_mut, StateR.bind. rewrite Hs, Hf. unfold put_store, StateR.modify, StateR.lift. cbn -[persist_memory].
  destruct out as [out|e]; [|done].
  set (w2 := mkMemoryRuntime (<[sid:=m']> (mr_sessions w1)) (mr_files w1)).
  destruct (persist_memory _ _ _ w2) as [w3 [[]|e]] eqn:Hpersist; [|done]. intros [= <- <-]. split; [done|].
  apply (persist_inv stores w2 sid m'); subst w2; cbn; [done|apply lookup_insert_eq| | |by intros|done].
  - intros sid'. rewrite store_of_insert. by case_decide.
  - intros sid' m [[<- <-]|[Hne Hm]]%lookup_insert_Some; rewrite store_of_insert.
    + by rewrite decide_True.
    + rewrite decide_False by done. by apply Hl1.
Qed.

Local Ltac read_store Hw w1 E :=
  match goal with |- context [with_session_memory _ ?sid ?f ?w] =>
    destruct (with_session_memory_inv _ w sid f Hw) as (w1 & E & ?); rewrite E end.

Lemma memory_step_inv stores w op w' a :
  memory_inv stores w → memory_step root op w = (w', Ok a) →
  (spec_step op stores).2 = Ok a ∧ memory_inv (spec_step op stores).1 w'.
Proof.
  intros Hw. destruct op as [sid scope|sid id|sid id scope content p|sid scope|sid format|];
    cbn [memory_step]; unfold answered.
  - unfold session_memory_list. read_store Hw w1 E.
    by intros [= <- <-].
  - unfold session_memory_get. read_store Hw w1 E.
    by intros [= <- <-].
  - unfold session_memory_append. destruct (with_session_memory_mut _ _ _ w) as [w1 [e|e]] eqn:E; [|done]. intros [= <- <-].
    eapply with_session_memory_mut_inv in E as [Hout Hinv]; [|done|reflexivity|by apply append_memory_ok, Hw].
    cbn. by rewrite Hout.
  - unfold session_memory_clear. destruct (with_session_memory_mut _ _ _ w) as [w1 [n|e]] eqn:E; [|done]. intros [= <- <-].
    cbn. destruct (match scope with Some scope => _ | None => mem_clear (store_of sid stores) end) as [m' n'] eqn:Hc.
    eapply with_session_memory_mut_inv in E as [Hout Hinv]; [|done|by rewrite Hc|].
    + injection Hout as ->. done.
    + pose proof (mi_ok _ _ Hw sid) as Hm. destruct scope as [scope|]; [|injection Hc as <- _; apply mem_ok_nil].
      pose proof (clear_scope_ok (to_core_scope scope) _ Hm) as Hcl. by rewrite Hc in Hcl.
  - unfold session_memory_export. read_store Hw w1 E.
    by intros [= <- <-].
  - intros [= <- <-]. split; [done|]. destruct Hw as [Hp Hok _ Hf]. split; cbn; [done|done| |done].
    intros sid m. by rewrite lookup_empty.
Qed.

(** C36: As long as no request fails, the memory of every session is answered as if it
    were one store per session that is never lost, however lists, reads, appends,
    clearings and exports of the sessions alternate and however often the daemon
    restarts between them; sessions share nothing. *)
Theorem memory_survives_restarts ops f :
  plain f → (∀ sid, ∃ e, wf_read f (memory_file root sid) = Err e ∧ io_not_found e = true) →
  let '(w, answers) := memory_run root ops (mkMemoryRuntime ∅ f) in
  Forall (λ a, is_ok a = true) answers → answers = (spec_run ops ∅).2.
Proof.
  intros Hp Hmissing.
  assert (memory_inv ∅ (mkMemoryRuntime ∅ f)) as Hinv.
  { split; [done|intros sid; apply mem_ok_nil| |].
    - intros sid m. cbn. by rewrite lookup_empty.
    - intros sid. right. split; [done|apply Hmissing]. }
  revert Hinv. generalize (∅ : gmap Uuid MemoryStore) as stores, (mkMemoryRuntime ∅ f) as w.
  induction ops as [|op ops IH]; intros stores w Hinv; [done|]. cbn [memory_run spec_run].
  destruct (memory_step root op w) as [w1 a] eqn:Hstep.
  destruct (memory_run root ops w1) as [w2 answers] eqn:Hrun.
  intros [Ha Hall]%Forall_cons. destruct a as [a|e]; [|done].
  destruct (memory_step_inv _ _ _ _ _ Hinv Hstep) as [Hspec Hinv1].
  specialize (IH (spec_step op stores).1 w1 Hinv1). rewrite Hrun in IH. specialize (IH Hall).
  destruct (spec_step op stores) as [stores1 b]. cbn in *.
  destruct (spec_run ops stores1). cbn in *. congruence.
Qed.
End survives.

(** ** The block of memory keeps near its ceiling *)

Lemma context_body_bound body entries :
  (N.of_nat (String.length body) ≤ 7906)%N →
  (N.of_nat (String.length (context_body body entries)) ≤ 7948)%N.
Proof.
  assert (saturating_sub PROMPT_CONTEXT_MAX_CHARS
            (N.of_nat (String.length MEMORY_PROMPT_CONTEXT_HEADER) + 32) = 7906)%N as Hmax
    by (vm_compute; reflexivity).
  revert body. induction entries as [|e entries IH]; intros body Hb; cbn [context_body]; [lia|].
  destruct (is_empty (trim (mem_content e))); [by apply IH|]. rewrite Hmax. cbv zeta.
  set (chunk := context_chunk e). clearbody chunk.
  destruct (N.ltb_spec 7906 (N.of_nat (String.length body) + N.of_nat (String.length chunk))).
  - rewrite length_str_app.
    change (String.length (nl ++ _)) with 42. lia.
  - apply IH. rewrite length_str_app. lia.
Qed.

(** The block is never longer than its ceiling and the length of its last line. *)
Lemma context_block_bound entries block :
  format_prompt_context_block entries = Some block → (N.of_nat (String.length block) ≤ 8011)%N.
Proof.
  unfold format_prompt_context_block. pose proof (context_body_bound "" entries ltac:(cbn; lia)) as Hb.
  destruct (is_empty _); [done|]. intros Heq.
  assert (block = MEMORY_PROMPT_CONTEXT_HEADER ++ nl ++ context_body "" entries)%string as -> by congruence.
  rewrite !length_str_app. change (String.length nl) with 1.
  change (String.length MEMORY_PROMPT_CONTEXT_HEADER) with 62. lia.
Qed.

(** ** Concrete files *)

Section sample.
#[local] Existing Instances MemoryScope_countable bits_memory_json bits_memory_json_laws sample_fs sample_urls sample_codec sample_json.
#[local] Instance decimal_ids : UuidText := {| uuid_to_string := dec; uuid_parse_str := parse_u64 |}.

#[local] Instance bits_memory_text : MemoryJsonText.
Proof.
  split. intros e. cbn [memory_json bits_memory_json]. generalize (encode (entry_tuple e)) as p. intros p.
  rewrite utf8_valid_1 by done. induction p as [p IH|p IH|]; [..|done]; cbn [bits_of_pos];
    by rewrite utf8_valid_1.
Qed.

Lemma dec_no_slash u : Forall (λ a, a ≠ "/"%char) (String.list_ascii_of_string (dec u)).
Proof. apply dec_digits, (digit_cases (λ a, a ≠ "/"%char)). repeat constructor; done. Qed.

Lemma sample_dir u : memory_dir "/mem" u = ("/mem/" ++ dec u)%string.
Proof.
  unfold memory_dir, path_join, is_absolute. cbn [uuid_to_string decimal_ids].
  assert (starts_with (dec u) "/" = false) as ->; [|done].
  pose proof (dec_no_slash u) as Hd. pose proof (dec_not_empty u) as Hne.
  destruct (dec u) as [|a s]; [done|]. cbn in Hd. apply Forall_cons in Hd as [Ha _].
  change (starts_with (String a s) "/") with (if ascii_dec "/" a then String.prefix "" s else false).
  by destruct (ascii_dec "/" a) as [<-|].
Qed.

Lemma sample_file u : memory_file "/mem" u = ("/mem/" ++ dec u ++ "/entries.jsonl")%string.
Proof.
  unfold memory_file. change (path_join "/mem" (uuid_to_string u)) with (memory_dir "/mem" u).
  rewrite sample_dir. unfold path_join. change (is_absolute ENTRIES_FILE) with false. cbv iota.
  destruct (String.eqb_spec ("/mem/" ++ dec u) "") as [E|_]; [done|].
  destruct (ends_with ("/mem/" ++ dec u) "/") eqn:Hend; [|by rewrite !str_app_assoc].
  exfalso. apply ends_with_slash in Hend as [q Hq].
  pose proof (dec_no_slash u) as Hd. apply (f_equal String.list_ascii_of_string) in Hq.
  rewrite !list_ascii_app in Hq. destruct (String.list_ascii_of_string (dec u)) as [|a l _] eqn:E using rev_ind.
  - apply (dec_not_empty u). by rewrite <-(String.string_of_list_ascii_of_string (dec u)), E.
  - apply Forall_app in Hd as [_ [Ha _]%Forall_cons]. rewrite app_assoc in Hq.
    by apply app_inj_tail in Hq as [_ ->].
Qed.

Lemma slash_absent u v : ("/mem/" ++ dec u ≠ "/mem/" ++ dec v ++ "/entries.jsonl")%string.
Proof.
  intros E%str_app_inj_l. pose proof (dec_no_slash u) as Hd.
  rewrite E, !list_ascii_app in Hd. apply Forall_app in Hd as [_ [Ha _]%Forall_cons]. done.
Qed.

(** No session's file is a link. *)
Definition no_memory_links (f : Demo.Fs) : Prop :=
  ∀ u t, f !! memory_file "/mem" u ≠ Some (Demo.Link t).

#[local] Instance demo_memory_files : MemoryFiles Demo.Fs "/mem" no_memory_links.
Proof.
  assert (∀ f f' p, no_memory_links f → (∀ u, memory_file "/mem" u ≠ p → f' !! memory_file "/mem" u = f !! memory_file "/mem" u) →
    ∀ u, memory_file "/mem" u ≠ p →
    Demo.read f' (memory_file "/mem" u) = Demo.read f (memory_file "/mem" u)) as Hsame.
  { intros f f' p Hl Hf u Hu. apply demo_read_same; [|apply Hl]. symmetry. by apply Hf. }
  split.
  - intros f f' u b Hw Hl. pose proof (wf_write_read _ _ _ _ Hw) as [Hread _].
    change (Demo.write (memory_file "/mem" u) b f = (f', Ok tt)) in Hw.
    unfold Demo.write, Demo.write_target in Hw. set (p := memory_file "/mem" u) in *.
    assert (match f !! p with Some (Demo.Link t) => t | _ => p end = p) as Hp.
    { destruct (f !! p) as [[| |t]|] eqn:E; try done. by destruct (Hl u t). }
    rewrite Hp in Hw. assert (f' = <[p := Demo.File b]> f) as ->.
    { destruct (f !! p) as [[| |]|]; try destruct (Demo.clean p); naive_solver. }
    split_and!.
    + intros v t. destruct (decide (memory_file "/mem" v = p)) as [->|Hne].
      * by rewrite lookup_insert_eq.
      * rewrite lookup_insert_ne by done. apply Hl.
    + done.
    + intros v Hv. apply (Hsame _ _ p); [done| |].
      * intros w Hw'. by rewrite lookup_insert_ne.
      * subst p. rewrite !sample_file. intros E%str_app_inj_l. apply Hv.
        apply (f_equal String.list_ascii_of_string) in E. rewrite !list_ascii_app in E.
        apply app_inv_tail, (f_equal String.string_of_list_ascii) in E.
        rewrite !String.string_of_list_ascii_of_string in E. by apply dec_inj.
  - intros f f' u Hd Hl. change (Demo.create_dir_all (memory_dir "/mem" u) f = (f', Ok tt)) in Hd.
    unfold Demo.create_dir_all in Hd.
    assert (f' = f ∨ f' = <[memory_dir "/mem" u := Demo.Dir []]> f) as [->| ->]; [|done|].
    { destruct (Demo.follow f _) as [q|]; [destruct (f !! q) as [[]|]|destruct (f !! memory_dir "/mem" u)];
        naive_solver. }
    assert (∀ v, memory_file "/mem" v ≠ memory_dir "/mem" u) as Hne.
    { intros v E. symmetry in E. rewrite sample_dir, sample_file in E. by apply slash_absent in E. }
    split.
    + intros v t. rewrite lookup_insert_ne by (symmetry; apply Hne). apply Hl.
    + intros v. apply (Hsame _ _ (memory_dir "/mem" u)); [done| |apply Hne].
      intros w _. by rewrite lookup_insert_ne by (symmetry; apply Hne).
Qed.

Definition memory_note : MemoryProvenanceInfo := mkProvenanceInfo "user" "note".

Definition sample_memory_requests : list MemoryOp :=
  [MoAppend 1 "a" EntryProject "one" memory_note; MoAppend 2 "a" EntryTeam "other" memory_note; MoRestart;
   MoAppend 1 "a" EntryUser "two" memory_note; MoClear 2 None; MoRestart;
   MoGet 1 "a"; MoList 2 None].

Definition no_memory : MemoryRuntime Demo.Fs := mkMemoryRuntime ∅ (<["/mem" := Demo.Dir []]> ∅).

Lemma memory_survives_witness :
  let answers := (memory_run "/mem" sample_memory_requests no_memory).2 in
  answers = (spec_run sample_memory_requests ∅).2 ∧
  drop 6 answers = [Ok (AnEntry (Some (mkMemoryEntryInfo "a" EntryProject ("one" ++ nl ++ "two")%string memory_note)));
                    Ok (AnEntries [])].
Proof.
  cbv zeta. split; [|vm_compute; reflexivity].
  pose proof (memory_survives_restarts "/mem" no_memory_links sample_memory_requests (<["/mem" := Demo.Dir []]> ∅)) as Hs.
  unfold no_memory. destruct (memory_run "/mem" sample_memory_requests _) as [w answers] eqn:E.
  assert (answers = (memory_run "/mem" sample_memory_requests no_memory).2) as Ea by (unfold no_memory; by rewrite E).
  apply Hs.
  - intros u t. rewrite sample_file. by rewrite lookup_insert_ne by done.
  - intros u. exists Demo.not_found. split; [|reflexivity].
    change (Demo.read (<["/mem" := Demo.Dir []]> ∅) (memory_file "/mem" u) = Err Demo.not_found).
    rewrite sample_file. unfold Demo.read, Demo.follow, Demo.reach. by rewrite lookup_insert_ne by done.
  - rewrite Ea. vm_compute. repeat constructor.
Defined.

(** What could not be stored stays in memory: the request fails and is read back. *)
Example failed_append_stays :
  let loaded := (memory_step "/mem" (MoList 1 None) no_memory).1 in
  let full := mkMemoryRuntime (mr_sessions loaded) (<["/mem/1" := Demo.File "x"]> (mr_files loaded)) in
  let '(w, a) := memory_step "/mem" (MoAppend 1 "a" EntryProject "one" memory_note) full in
  is_ok a = false ∧
  (memory_step "/mem" (MoGet 1 "a") w).2 =
    Ok (AnEntry (Some (mkMemoryEntryInfo "a" EntryProject "one" memory_note))).
Proof. vm_compute. split; reflexivity. Qed.

Fixpoint filler (n : nat) : string := match n with 0 => "" | S n => String "a" (filler n) end.

Definition long_entry (n : nat) : MemoryEntry :=
  mkMemoryEntry "a" MemProject (filler n) (mkMemoryProvenance "user" "note").

(** The block exceeds the ceiling it is documented to keep. *)
Example block_exceeds_ceiling :
  String.length <$> format_prompt_context_block [long_entry (Z.to_nat 7885); long_entry 1] = Some (Z.to_nat 8011).
Proof. vm_compute. reflexivity. Qed.

(** One entry too long for the block hides all that come after it. *)
Example long_entry_hides_later :
  format_prompt_context_block [long_entry (Z.to_nat 7950); long_entry 1] =
    Some (MEMORY_PROMPT_CONTEXT_HEADER ++ nl ++ nl ++ "…[truncated to memory context ceiling]" ++ nl)%string.
Proof. vm_compute. reflexivity. Qed.
End sample.
