(* ===== verification/DataRequests.v ===== *)
(** * Requests for stored data

    Requests of [harness_api.rs] over components modelled elsewhere: attachments,
    uploads and artifacts, the execution mode of a session, the policy documents and the
    files of a workspace.  The text of an artifact error is an argument. *)

From S2P Require Import Prelude Triple Str Utf8 Action PathScope WebSecurity Policy Effect RiskGate Events EventStore Budget.
From S2P Require Import EffectFence Effects Completion Projection AgentRuntime RuntimeLog WorkspaceFiles HookPrefilter Artifacts.
From S2P Require Import ToolSchema Provider ToolOrchestrator ContextBuilder Uploads Wire Ipc Harness.

Open Scope string_scope.
Open Scope nat_scope.
Open Scope list_scope.
Open Scope impetus_scope.

(** ** Errors *)

Definition upload_append_code (e : ArtifactUploadError) : IpcErrorCode :=
  match e with
  | UpNotFound _ => CodeUnavailable
  | UpTooLarge | UpChunkTooLarge | UpSequenceMismatch _ _ | UpInvalidBase64
  | UpDeclaredSizeExceeded _ _ | UpDeclaredSizeMismatch _ _ | UpTooManyUploads => CodeInvalidRequest
  | UpStore => CodeInternal
  end.

Definition upload_finish_code (e : ArtifactUploadError) : IpcErrorCode :=
  match e with
  | UpNotFound _ => CodeUnavailable
  | UpDeclaredSizeMismatch _ _ | UpTooLarge => CodeInvalidRequest
  | _ => CodeInternal
  end.

Definition workspace_files_code (e : WorkspaceFilesError) : IpcErrorCode :=
  match e with
  | UnsafePath _ | WfNotFound _ | NotDirectory _ | NotFile _ | TooLarge _ _ | Binary _ => CodeInvalidRequest
  | WfIo _ => CodeInternal
  end.

Section requests.
Context `{Json} `{FileSystem} `{UrlCrate} `{Codec} `{DisplayStoreError} `{UuidText} `{Base64} `{PolicyJson}.
Context {St : Type} `{!EventStore St} `{!HarnessStore St} {F : Type} `{!WorkFiles F} `{!FileChanges F}.
(** The live policy, the root of the artifact store, the Unicode lower case of the
    search, its fuel. *)
Context (policy : PolicyEngine) (artifact_root : string) (to_lowercase : string → string) (fuel : nat).
Context (artifact_error_text : ArtifactError → string).

Record DataWorld := mkDataWorld {
  dw_heap : PolicyHeap;
  dw_events : St;
  dw_uploads : UploadWorld F;
  dw_attachments : AttachmentStore;
  dw_policy_store : option PolicyStore;
}.

Definition dw_art (w : DataWorld) : ArtWorld F := up_art (dw_uploads w).
Definition dw_files (w : DataWorld) : F := aw_files (dw_art w).

Definition dw_with_events (s : St) (w : DataWorld) : DataWorld :=
  mkDataWorld (dw_heap w) s (dw_uploads w) (dw_attachments w) (dw_policy_store w).
Definition dw_with_uploads (u : UploadWorld F) (w : DataWorld) : DataWorld :=
  mkDataWorld (dw_heap w) (dw_events w) u (dw_attachments w) (dw_policy_store w).
Definition dw_with_attachments (a : AttachmentStore) (w : DataWorld) : DataWorld :=
  mkDataWorld (dw_heap w) (dw_events w) (dw_uploads w) a (dw_policy_store w).
Definition dw_with_heap (h : PolicyHeap) (w : DataWorld) : DataWorld :=
  mkDataWorld h (dw_events w) (dw_uploads w) (dw_attachments w) (dw_policy_store w).
Definition dw_with_policy_store (s : option PolicyStore) (w : DataWorld) : DataWorld :=
  mkDataWorld (dw_heap w) (dw_events w) (dw_uploads w) (dw_attachments w) s.

Definition workspace_files_error (e : WorkspaceFilesError) : IpcResponse :=
  RespError (workspace_files_code e) (workspace_error_to_string e).

(** *** Attachments and uploads *)

Definition get_attachment_request (now : N) (sid id : Uuid) (w : DataWorld) : DataWorld * IpcResponse :=
  let '(a, r) := attachment_get now sid id (dw_attachments w) in
  (dw_with_attachments a w,
   match r with
   | Ok attachment => RespAttachment sid id (at_content_type attachment) (at_content attachment)
   | Err (AtNotFound _) => RespError CodeUnavailable ("attachment " ++ uuid_to_string id ++ " not found")%string
   | Err (AtExpired _) => RespError CodeUnavailable ("attachment " ++ uuid_to_string id ++ " expired")%string
   | Err (AtForbidden _) =>
       RespError CodeUnavailable ("attachment " ++ uuid_to_string id ++ " denied: not owned by session")%string
   | Err AtTooLarge =>
       RespError CodeInternal ("failed to retrieve attachment: attachment exceeds maximum size of "
         ++ dec MAX_ATTACHMENT_BYTES ++ " bytes")%string
   | Err AtStoreFull =>
       RespError CodeInternal ("failed to retrieve attachment: store capacity exceeded (max "
         ++ dec MAX_STORE_BYTES ++ " bytes)")%string
   end).

Definition on_uploads {A} (m : stateR (UploadWorld F) ArtifactUploadError A) (answer : A → IpcResponse)
    (refuse : ArtifactUploadError → IpcResponse) (w : DataWorld) : DataWorld * IpcResponse :=
  let '(u, r) := m (dw_uploads w) in
  (dw_with_uploads u w, match r with Ok a => answer a | Err e => refuse e end).

Definition begin_upload_request (new_id sid : Uuid) (declared : option N) (content_type : option string)
    (w : DataWorld) : DataWorld * IpcResponse :=
  match rt_attach (dw_heap w) policy sid (dw_events w) with
  | Err error => (w, runtime_error error)
  | Ok _ =>
      on_uploads (upload_begin new_id sid declared content_type)
        (λ id, RespArtifactUploadBegun id MAX_ARTIFACT_UPLOAD_BYTES MAX_ARTIFACT_UPLOAD_CHUNK_BYTES)
        (λ e, runtime_error (RtDenied (upload_error_message e))) w
  end.

Definition append_chunk_request (id : Uuid) (seq : N) (data_b64 : string) : DataWorld → DataWorld * IpcResponse :=
  on_uploads (upload_append_b64 id seq data_b64)
    (λ received, RespArtifactChunkAccepted id received (saturating_add u64_max seq 1))
    (λ e, RespError (upload_append_code e) (upload_error_message e)).

Definition finish_upload_request (now : N) (id : Uuid) : DataWorld → DataWorld * IpcResponse :=
  on_uploads (upload_finish artifact_root now id) RespArtifactStored
    (λ e, RespError (upload_finish_code e) (upload_error_message e)).

Definition abort_upload_request (id : Uuid) : DataWorld → DataWorld * IpcResponse :=
  on_uploads (upload_abort id) (λ _, RespArtifactUploadAborted id)
    (λ e, RespError CodeUnavailable (upload_error_message e)).

(** *** Artifacts *)

(** [DurableArtifactStore::open] and the row of an artifact. *)
Definition with_artifact (id : string) (f : ArtifactMeta → ArtWorld F → IpcResponse) (w : DataWorld)
    : DataWorld * IpcResponse :=
  let '(art, r) := artifact_open artifact_root (dw_art w) in
  let w := dw_with_uploads (mkUploadWorld (up_pending (dw_uploads w)) art) w in
  (w, match r with
      | Err error => RespError CodeInternal ("artifact store unavailable: " ++ artifact_error_text error)%string
      | Ok _ =>
          match artifact_metadata id art with
          | None => RespError CodeUnavailable ("artifact " ++ id ++ " not found")%string
          | Some meta => f meta art
          end
      end).

Definition read_durable_artifact (id : string) (max_bytes : option N) : DataWorld → DataWorld * IpcResponse :=
  with_artifact id (λ meta art,
    let cap := N.min (default MAX_ARTIFACT_UPLOAD_CHUNK_BYTES max_bytes) MAX_ARTIFACT_UPLOAD_CHUNK_BYTES in
    match read_range artifact_root id 0 cap art with
    | Err error => RespError CodeInternal ("artifact read failed: " ++ artifact_error_text error)%string
    | Ok bytes =>
        RespArtifactContent id (meta_content_type meta) (meta_byte_count meta) (byte_len bytes)
          (b64_encode bytes) (byte_len bytes <? meta_byte_count meta)%N
    end).

Definition get_durable_artifact_metadata (id : string) : DataWorld → DataWorld * IpcResponse :=
  with_artifact id (λ meta _, RespArtifactMetadata meta).

Definition read_durable_artifact_range (id : string) (start len : N) : DataWorld → DataWorld * IpcResponse :=
  with_artifact id (λ meta art,
    let want := N.min len MAX_ARTIFACT_UPLOAD_CHUNK_BYTES in
    match read_range artifact_root id start want art with
    | Err error => RespError CodeInternal ("artifact range read failed: " ++ artifact_error_text error)%string
    | Ok bytes =>
        let last := saturating_add u64_max start (byte_len bytes) in
        RespArtifactRange id start (byte_len bytes) (b64_encode bytes) (last <? meta_byte_count meta)%N
    end).
(** *** Execution modes *)

Definition set_execution_mode_request (t : Tick) (sid : Uuid) (mode : ExecutionMode) (w : DataWorld)
    : DataWorld * IpcResponse :=
  let advertised := match required_ipc_capability mode with
    | Some required => if bool_decide (required ∈ IPC_CAPABILITIES) then None else Some required
    | None => None
    end in
  match advertised with
  | Some required =>
      (w, RespError CodeUnavailable ("execution mode " ++ ExecutionMode_label mode
            ++ " requires harness capability `" ++ required ++ "`")%string)
  | None =>
      match rt_attach (dw_heap w) policy sid (dw_events w) with
      | Err error => (w, runtime_error error)
      | Ok (_, runtime) =>
          let '(s, r) := record t (ar_session_id runtime)
                           (PayloadSession (SessionExecutionModeChanged mode)) (dw_events w) in
          (dw_with_events s w,
           match r with Ok _ => RespExecutionMode sid mode | Err error => runtime_error error end)
      end
  end.

Definition get_execution_mode_request (sid : Uuid) (w : DataWorld) : IpcResponse :=
  match rt_attach (dw_heap w) policy sid (dw_events w) with
  | Err error => runtime_error error
  | Ok (_, runtime) =>
      match rt_events (ar_session_id runtime) (dw_events w) with
      | Err error => runtime_error error
      | Ok events =>
          match reduce events with
          | Ok (Some p) => RespExecutionMode sid (proj_execution_mode p)
          | Ok None => RespError CodeMissingSession ("session " ++ uuid_to_string sid ++ " has no events")%string
          | Err error => RespError CodeInternal (projection_error_text error)
          end
      end
  end.

(** *** Policy documents *)

Definition read_document (path : string) (w : DataWorld) : option string :=
  match read_to_string path (dw_files w) with Ok text => Some text | Err _ => None end.

Definition resolve_reload_policy_config (path config_json : option string) (w : DataWorld)
    : result string PolicyConfig :=
  match path, config_json with
  | None, None => Err "path or config_json is required"
  | Some _, Some _ => Err "specify path or config_json, not both"
  | Some path, None =>
      map_err (config_error_text (default "" (read_document path w)))
        (PolicyConfig_load_from_path config_from_str (read_document path w))
  | None, Some json => map_err (config_error_text json) (PolicyConfig_parse config_from_str json)
  end.

Definition resolve_reload_policy_store (path store_json : option string) (w : DataWorld)
    : result string PolicyStore :=
  match path, store_json with
  | None, None => Err "path or store_json is required"
  | Some _, Some _ => Err "specify path or store_json, not both"
  | Some path, None =>
      map_err (store_error_text (default "" (read_document path w)))
        (PolicyStore_load_from_path store_from_str (read_document path w))
  | None, Some json => map_err (store_error_text json) (PolicyStore_parse store_from_str json)
  end.

(** One notice per session; those that cannot be appended are dropped. *)
Fixpoint append_notices (tick : nat → Tick) (message : string) (ids : list Uuid) (s : St) : St :=
  match ids with
  | [] => s
  | id :: ids' =>
      append_notices (λ n, tick (S n)) message ids'
        (store_append_next (tick 0).1 (tick 0).2 id (PayloadNotice (NoticeRuntime message)) s).1
  end.

Definition audit_policy_reload_notice (tick : nat → Tick) (message : string) (s : St) : St :=
  match store_list_sessions s with
  | Ok sessions => append_notices tick message (info_id <$> sessions) s
  | Err _ => s
  end.

Definition reload_policy_config_request (tick : nat → Tick) (path config_json : option string)
    (w : DataWorld) : DataWorld * IpcResponse :=
  match resolve_reload_policy_config path config_json w with
  | Ok config =>
      let h := reload_config (dw_heap w) policy config in
      (dw_with_heap h w, RespPolicyConfig (PolicyEngine_config h policy))
  | Err message =>
      (dw_with_events (audit_policy_reload_notice tick
         ("policy config reload rejected: " ++ message)%string (dw_events w)) w,
       RespError CodeInvalidRequest message)
  end.

Definition get_policy_store_request (w : DataWorld) : IpcResponse :=
  RespPolicyStore (default (mkPolicyStore POLICY_STORE_VERSION []) (dw_policy_store w)).

Definition reload_policy_store_request (path store_json : option string) (w : DataWorld)
    : DataWorld * IpcResponse :=
  match resolve_reload_policy_store path store_json w with
  | Ok store => (dw_with_policy_store (Some store) w, RespPolicyStore store)
  | Err message => (w, RespError CodeInvalidRequest message)
  end.

(** *** Files of the workspace *)

(** [None]: the operation does not end ([fuel]). *)
Definition handle_workspace_files (sid : Uuid) (path summary : string)
    (op : string → string → F → option (result WorkspaceFilesError IpcResponse)) (w : DataWorld)
    : option IpcResponse :=
  let relative := if String.eqb path "" then "." else path in
  match rt_attach (dw_heap w) policy sid (dw_events w) with
  | Err error => Some (runtime_error error)
  | Ok (h, runtime) =>
      match effect_seam runtime (dw_events w) with
      | Err error => Some (runtime_error error)
      | Ok seam =>
          let effect := workspace_read User summary relative in
          let run (f : F) : F * result WorkspaceFilesError (option IpcResponse) :=
            (f, match op (ar_workspace_root runtime) relative f with
                | Some r => Some <$> r
                | None => Ok None
                end) in
          match (execute h seam effect run (dw_files w)).2 with
          | Ok (Exec_Executed response) => response
          | Ok (Exec_Denied reason) => Some (RespError CodeUnavailable reason)
          | Ok (Exec_NeedsApproval _) =>
              Some (RespError CodeUnavailable
                "workspace files read needs an approval that is not granted in read-only scope")
          | Err error => Some (workspace_files_error error)
          end
      end
  end.

Definition list_workspace_dir (sid : Uuid) (path : string) : DataWorld → option IpcResponse :=
  handle_workspace_files sid path "list workspace directory" (λ root rel f,
    Some (RespWorkspaceDirListing sid <$> list_directory root rel f)).

Definition stat_workspace_file (sid : Uuid) (path : string) : DataWorld → option IpcResponse :=
  handle_workspace_files sid path "stat workspace file" (λ root rel f,
    Some (RespWorkspaceFileStat sid <$> stat_path root rel f)).

Definition read_workspace_file (sid : Uuid) (path : string) (max_bytes : option N) : DataWorld → option IpcResponse :=
  handle_workspace_files sid path "read workspace file" (λ root rel f,
    Some (RespWorkspaceFileContent sid <$> match max_bytes with
      | Some cap => read_text_file_limited root rel (N.to_nat cap) f
      | None => read_text_file root rel f
      end)).

Definition search_workspace_files (sid : Uuid) (path pattern : string) : DataWorld → option IpcResponse :=
  handle_workspace_files sid path "search workspace files" (λ root rel f,
    (λ r : result WorkspaceFilesError _, RespWorkspaceSearchResult sid <$> r) <$> search_text to_lowercase fuel root rel pattern f).
(** *** The dispatch *)

(** What a request is supplied with: the clock, a fresh id, rows' ids and times. *)
Record DataEnv := mkDataEnv { de_now : N; de_fresh : Uuid; de_tick : nat → Tick }.

(** The outer [None]: a request of another component; the inner: it does not end. *)
Definition handle_data_request (env : DataEnv) (request : IpcRequest) (w : DataWorld)
    : option (DataWorld * option IpcResponse) :=
  let plain (p : DataWorld * IpcResponse) := Some (p.1, Some p.2) in
  match request with
  | ReqGetAttachment sid id => plain (get_attachment_request (de_now env) sid id w)
  | ReqBeginArtifactUpload sid declared content_type =>
      plain (begin_upload_request (de_fresh env) sid declared content_type w)
  | ReqAppendArtifactChunk id seq data_b64 => plain (append_chunk_request id seq data_b64 w)
  | ReqFinishArtifactUpload id => plain (finish_upload_request (de_now env) id w)
  | ReqAbortArtifactUpload id => plain (abort_upload_request id w)
  | ReqReadArtifact id max_bytes => plain (read_durable_artifact id max_bytes w)
  | ReqGetArtifactMetadata id => plain (get_durable_artifact_metadata id w)
  | ReqReadArtifactRange id start len => plain (read_durable_artifact_range id start len w)
  | ReqSetExecutionMode sid mode => plain (set_execution_mode_request (de_tick env 0) sid mode w)
  | ReqGetExecutionMode sid => plain (w, get_execution_mode_request sid w)
  | ReqReloadPolicyConfig path config_json => plain (reload_policy_config_request (de_tick env) path config_json w)
  | ReqGetPolicyStore => plain (w, get_policy_store_request w)
  | ReqReloadPolicyStore path store_json => plain (reload_policy_store_request path store_json w)
  | ReqListWorkspaceDir sid path => Some (w, list_workspace_dir sid path w)
  | ReqStatWorkspaceFile sid path => Some (w, stat_workspace_file sid path w)
  | ReqReadWorkspaceFile sid path max_bytes => Some (w, read_workspace_file sid path max_bytes w)
  | ReqSearchWorkspaceFiles sid path pattern => Some (w, search_workspace_files sid path pattern w)
  | _ => None
  end.

(** ** What the requests keep *)

(** A file is answered only when the session's seam allows the read, and from a path
    inside the canonical root of the session's workspace. *)
Lemma read_request_confined `{!WorkFilesLaws F} sid path max_bytes w sid' content :
  read_workspace_file sid path max_bytes w = Some (RespWorkspaceFileContent sid' content) →
  let rel := if String.eqb path "" then "." else path in
  sid' = sid ∧ ∃ h runtime seam canon p,
    rt_attach (dw_heap w) policy sid (dw_events w) = Ok (h, runtime) ∧
    effect_seam runtime (dw_events w) = Ok seam ∧
    seam_decide h seam (workspace_read User "read workspace file" rel) = Eff_Allow ∧
    wf_canonicalize (dw_files w) (ar_workspace_root runtime) = Ok canon ∧ inside canon p ∧
    resolve_workspace_path (ar_workspace_root runtime) rel (dw_files w) = Ok p.
Proof.
  unfold read_workspace_file, handle_workspace_files. cbv zeta.
  set (rel := if String.eqb path "" then "." else path).
  destruct (rt_attach _ _ _ _) as [[h runtime]|]; [|done].
  destruct (effect_seam runtime _) as [seam|] eqn:Hseam; [|done].
  unfold execute. destruct (seam_decide h seam _) eqn:Hdec; [|done..].
  intros Hread. split.
  { destruct (match max_bytes with Some _ => _ | None => _ end); [|discriminate Hread]. by injection Hread. }
  assert (∃ n c, read_text_file_limited (ar_workspace_root runtime) rel n (dw_files w) = Ok c) as (n & c & Hn).
  { revert Hread. unfold read_text_file. destruct max_bytes as [cap|]; [set (n := N.to_nat cap)|set (n := MAX_WORKSPACE_FILE_BYTES)];
      exists n; destruct (read_text_file_limited _ _ _ _) as [c|]; [by exists c|discriminate|by exists c|discriminate]. }
  unfold read_text_file_limited in Hn.
  destruct (resolve_workspace_path (ar_workspace_root runtime) rel (dw_files w)) as [p|] eqn:Hp; [|done].
  destruct (resolve_inside _ _ _ _ Hp) as (canon & Hc & Hin). exists h, runtime, seam, canon, p. by split_and!.
Qed.

(** An accepted reload of the policy decides every session attached later, and those
    alone: runtimes attached before keep the overrides they were given. *)
Lemma reload_governs_later tick path json w w' config :
  reload_policy_config_request tick path json w = (w', RespPolicyConfig config) →
  dw_events w' = dw_events w ∧
  (∀ e, engine_overrides e ≠ engine_overrides policy →
        read_overrides (dw_heap w') e = read_overrides (dw_heap w) e) ∧
  ∀ sid h runtime, rt_attach (dw_heap w') policy sid (dw_events w') = Ok (h, runtime) →
    read_overrides h (ar_policy runtime) = config_overrides config.
Proof.
  unfold reload_policy_config_request. destruct (resolve_reload_policy_config _ _ _) as [c|e]; [|done].
  intros [= <- <-]. cbn. split; [done|]. unfold read_overrides, reload_config. split.
  - intros e He. by rewrite lookup_insert_ne.
  - intros sid h runtime. unfold rt_attach. destruct (rt_events sid (dw_events w)) as [l|]; [|done]. cbn.
    destruct l; [done|]. destruct (map_err _ _) as [o|]; [|done]. cbn.
    destruct (ok_or o _) as [p|]; [|done]. cbn. intros [= <- <-]. cbn. by rewrite lookup_insert_eq.
Qed.

(** A rejected reload changes no decision. *)
Lemma rejected_reload_keeps tick path json w w' code message :
  reload_policy_config_request tick path json w = (w', RespError code message) →
  dw_heap w' = dw_heap w ∧ dw_policy_store w' = dw_policy_store w.
Proof.
  unfold reload_policy_config_request. destruct (resolve_reload_policy_config _ _ _); [done|].
  by intros [= <- _ _].
Qed.
End requests.

(** ** Reading an artifact back by ranges *)

Class Base64Laws `{Base64} := { b64_read_back s : b64_decode (b64_encode s) = Some s }.

Section download.
Context `{Json} `{FileSystem} `{UrlCrate} `{Codec} `{DisplayStoreError} `{UuidText} `{Base64Laws}.
Context {St : Type} {F : Type} `{!WorkFiles F} `{!WorkFilesLaws F} `{!FileChanges F}.
Context (root : string) (plain : F → Prop) `{!ArtifactFiles F root plain}.
Context (artifact_error_text : ArtifactError → string).

Abbreviation World := (DataWorld (St := St) (F := F)).

(** A client that asks for range after range, each where the last one ended: what it
    has, and whether the last answer said that more follows; [None] when a request
    fails. *)
Fixpoint download (id : string) (start : N) (more : bool) (lens : list N) (w : World)
    : World * option (string * bool) :=
  match lens with
  | [] => (w, Some ("", more))
  | len :: lens' =>
      match read_durable_artifact_range root artifact_error_text id start len w with
      | (w, RespArtifactRange _ _ returned data more) =>
          match b64_decode data with
          | None => (w, None)
          | Some bytes =>
              let '(w, rest) := download id (start + returned)%N more lens' w in
              (w, (λ p, ((bytes ++ p.1)%string, p.2)) <$> rest)
          end
      | (w, _) => (w, None)
      end
  end.

Definition asked (lens : list N) : N :=
  foldr (λ len n, N.min len MAX_ARTIFACT_UPLOAD_CHUNK_BYTES + n)%N 0%N lens.

(** The artifact is stored with these bytes. *)
Definition stored (id bytes : string) (w : World) : Prop :=
  plain (aw_files (dw_art w)) ∧ id = compute_sha256 bytes ∧
  (∃ r, artifact_metadata id (dw_art w) = Some r ∧ meta_byte_count r = byte_len bytes) ∧
  artifact_read root id (dw_art w) = Ok bytes.

(** The world with the store opened, and that it opens for each of the next requests. *)
Definition reopened (w : World) : World :=
  dw_with_uploads (mkUploadWorld (up_pending (dw_uploads w)) (artifact_open root (dw_art w)).1) w.

Fixpoint opens (n : nat) (w : World) : Prop :=
  match n with
  | 0 => True
  | S n' => is_ok (artifact_open root (dw_art w)).2 = true ∧ opens n' (reopened w)
  end.

Lemma opened_stored id bytes (w : World) : stored id bytes w → stored id bytes (reopened w).
Proof.
  intros (Hp & -> & Hr & Hread). unfold reopened, artifact_open, art_io.
  destruct (wf_create_dir_all root _) as [f res] eqn:Hd. destruct (af_open _ _ _ Hd Hp) as [Hp' Hsame].
  split_and!; [done|done|done|]. unfold artifact_read in *. cbn. by rewrite Hsame.
Qed.

(** A range request is answered by exactly the bytes asked for that there are, and says
    whether more follow. *)
Lemma range_answer id bytes start len (w : World) :
  stored id bytes w → (start ≤ byte_len bytes)%N →
  (byte_len bytes + MAX_ARTIFACT_UPLOAD_CHUNK_BYTES ≤ u64_max)%N →
  is_ok (artifact_open root (dw_art w)).2 = true →
  let n := N.min (N.min len MAX_ARTIFACT_UPLOAD_CHUNK_BYTES) (byte_len bytes - start) in
  read_durable_artifact_range root artifact_error_text id start len w =
    (reopened w, RespArtifactRange id start n
       (b64_encode (String.substring (N.to_nat start) (N.to_nat n) bytes)) (start + n <? byte_len bytes)%N).
Proof.
  intros Hst Hstart Hfits Hopen. pose proof (opened_stored _ _ _ Hst) as Hst'.
  unfold reopened, read_durable_artifact_range, with_artifact in *.
  destruct (artifact_open root (dw_art w)) as [art [u|e]]; [|done]. cbn [fst] in *.
  destruct Hst' as (_ & _ & (r & Hr & Hn) & Hread). cbn in Hr, Hread. rewrite Hr.
  unfold read_range. rewrite Hread. cbn [fmap result_fmap]. rewrite Hn.
  set (want := N.min len MAX_ARTIFACT_UPLOAD_CHUNK_BYTES).
  rewrite byte_range_exact by lia. cbv zeta.
  assert (Nat.min (N.to_nat want) (String.length bytes - N.to_nat start) =
          N.to_nat (N.min want (byte_len bytes - start))) as -> by (unfold byte_len; lia).
  assert (byte_len (String.substring (N.to_nat start) (N.to_nat (N.min want (byte_len bytes - start))) bytes) =
          N.min want (byte_len bytes - start)) as ->.
  { unfold byte_len at 1. rewrite substring_length; [lia|]. unfold byte_len in *. lia. }
  do 3 f_equal. unfold saturating_add. f_equal. lia.
Qed.

Lemma download_from id bytes start more lens (w : World) :
  stored id bytes w → (start ≤ byte_len bytes)%N →
  (byte_len bytes + MAX_ARTIFACT_UPLOAD_CHUNK_BYTES ≤ u64_max)%N →
  more = (start <? byte_len bytes)%N ∨ lens ≠ [] → opens (length lens) w →
  let n := N.min (asked lens) (byte_len bytes - start) in
  (download id start more lens w).2 =
    Some (String.substring (N.to_nat start) (N.to_nat n) bytes, (start + n <? byte_len bytes)%N).
Proof.
  revert start more w. induction lens as [|len lens IH]; intros start more w Hst Hstart Hfits Hmore Hopens.
  { cbn. rewrite N.min_0_l, N.add_0_r. change (N.to_nat 0) with 0. rewrite substring_zero.
    by destruct Hmore as [->|]. }
  destruct Hopens as [Hopen Hopens]. cbn [download asked foldr]. rewrite (range_answer _ bytes) by done. cbv zeta.
  rewrite b64_read_back. set (want := N.min len MAX_ARTIFACT_UPLOAD_CHUNK_BYTES).
  set (n1 := N.min want (byte_len bytes - start)).
  specialize (IH (start + n1)%N (start + n1 <? byte_len bytes)%N (reopened w)
    (opened_stored _ _ _ Hst) ltac:(subst n1; lia) Hfits (or_introl eq_refl) Hopens).
  destruct (download id (start + n1) _ lens (reopened w)) as [w2 rest]. cbn in IH |- *. rewrite IH. cbn.
  set (n2 := N.min (asked lens) (byte_len bytes - (start + n1))).
  change (foldr _ 0%N lens) with (asked lens).
  assert (N.min (want + asked lens) (byte_len bytes - start) = n1 + n2)%N as -> by (subst n1 n2; lia).
  rewrite !N2Nat.inj_add, substring_split. do 2 f_equal. f_equal. lia.
Qed.

(** C11: An artifact asked for range after range, each beginning where the last answer
    ended, comes back as it is stored, as long as the store opens for each request: the
    client has the first bytes of it, as many as were asked for, and the last answer
    says that more follows exactly when there is more. *)
Theorem download_is_prefix id bytes lens (w : World) :
  stored id bytes w → (byte_len bytes + MAX_ARTIFACT_UPLOAD_CHUNK_BYTES ≤ u64_max)%N →
  lens ≠ [] → opens (length lens) w →
  (download id 0 true lens w).2 =
    Some (str_prefix (N.to_nat (N.min (asked lens) (byte_len bytes))) bytes, (asked lens <? byte_len bytes)%N).
Proof.
  intros Hst Hfits Hne Hopens. unfold str_prefix.
  rewrite (download_from id bytes 0 true lens w Hst ltac:(lia) Hfits (or_intror Hne) Hopens), N.sub_0_r, N.add_0_l.
  do 2 f_equal. apply eq_true_iff_eq. rewrite !N.ltb_lt. lia.
Qed.
End download.

(** ** A concrete store *)

Section sample.
#[local] Existing Instances sample_fs sample_urls sample_codec sample_json.

#[local] Instance plain_chunks : Base64 := {| b64_decode := Some; b64_encode s := s |}.
#[local] Instance plain_chunks_laws : Base64Laws := {| b64_read_back s := eq_refl |}.

(** A store that holds the artifact of three bytes, "log". *)
Definition sample_data : DataWorld (St := ()) (F := Demo.Fs) :=
  mkDataWorld ∅ () (mkUploadWorld ∅ (art_run "/store" (ArtStore 10 "log" None) empty_store))
    (mkAttachmentStore ∅ 0) None.

Lemma sample_data_plain : no_links "/store" (aw_files (dw_art sample_data)).
Proof.
  pose (laws := demo_artifact_files "/store" eq_refl ltac:(done)).
  exact (proj1 (proj1 (art_run_ok "/store" (no_links "/store") (ArtStore 10 "log" None) empty_store
                         empty_store_ok))).
Qed.

Lemma download_witness :
  stored "/store" (no_links "/store") "6c6f67" "log" sample_data ∧
  (download "/store" (λ _, "") "6c6f67" 0 true [2%N; 5%N] sample_data).2 = Some ("log", false) ∧
  (download "/store" (λ _, "") "6c6f67" 0 true [2%N] sample_data).2 = Some ("lo", true).
Proof.
  pose (laws := demo_artifact_files "/store" eq_refl ltac:(done)).
  assert (stored "/store" (no_links "/store") "6c6f67" "log" sample_data) as Hst.
  { split_and!; [exact sample_data_plain|by vm_compute| |by vm_compute].
    exists (mkArtifactMeta "6c6f67" "6c6f67" 3 10 None). by vm_compute. }
  split_and!; [exact Hst| |].
  - apply (download_is_prefix "/store" (no_links "/store") (λ _, "") "6c6f67" "log" [2%N; 5%N] sample_data);
      [exact Hst|done|done|by vm_compute].
  - apply (download_is_prefix "/store" (no_links "/store") (λ _, "") "6c6f67" "log" [2%N] sample_data);
      [exact Hst|done|done|by vm_compute].
Defined.
End sample.
